(* ===== verification/_CoqProject ===== *)
-Q . S2P
Prelude.v
Bytes.v
Curve.v
Economics.v
Wire.v
Discovery.v
Covenant.v
Simplicity.v
Vault.v
Indexer.v
IndexerInv.v
IndexerExamples.v
StateRoot.v
Spend.v
Guardian.v
GuardianInv.v
Finalize.v
FinalizeInv.v
View.v
Journal.v
AuditLog.v
Number.v
Profile.v
ProfileInv.v
Builder.v
BuilderInv.v
GuardianExamples.v
FinalizeExamples.v
Signing.v
SigningInv.v
SigningExamples.v
AppConfig.v
AppConfigInv.v
Readiness.v
Json.v
Undo.v
Store.v
StoreInv.v
Hydrate.v
Persistent.v
Lockstep.v
PersistentInv.v
ReadInv.v
Monitors.v
PersistentExamples.v
ProfileExamples.v
Order.v
Market.v
MarketService.v
MarketInv.v
MarketReconcile.v
MarketSettle.v
MarketExamples.v
Greedy.v
AppFunding.v
AppFundingInv.v
TxSession.v
AppQuote.v
AppQuoteInv.v
AppService.v
AppServiceInv.v
AppSessions.v
AppBuildInv.v
AppExamples.v
ClientIntent.v
ClientIntentInv.v
ClientIntentExamples.v
Display.v
AppRead.v
AppSigner.v
RateLimit.v
GuardianService.v
GuardianServiceInv.v
GuardianServiceExamples.v
Worker.v
WorkerInv.v
WorkerExamples.v
