(* ===== verification/Prelude.v ===== *)
(** * Cove: a verification library

    Cove issues tokens on Bitcoin along a fixed price curve.  A token is
    deployed by a transaction that creates its backing vault, a taproot output
    whose address commits to the token's covenant state (tokens issued and
    satoshis backing them).  A MINT spends the vault and creates its successor,
    a REDEEM does the opposite, a TRANSFER moves token carriers; each of these
    transactions says what it does in an OP_RETURN message.  The indexer reads
    blocks, applies the messages that obey the protocol, keeps what it found in
    a database, and publishes the state and its root.  The Guardian co-signs
    the spend of a vault when the transaction is one the protocol allows; it
    reads the indexer's tables, keeps a journal of what it signs and an audit
    chain, and on mainnet runs from a committed profile.  The market lets an
    owner sell a carrier for bitcoin: a listing the seller signs, a reservation
    the buyer signs, one transaction both sign.  The packages modelled here are
    the ones those rules live in, under src/packages.

    ** Files

    Shared.
    - [Prelude] (this file): the result monad, in which every [throw] is a
      value, its inversion tactics, and lemmas on integers, ceilings and sums.
    - [Bytes]: Buffers as lists of bytes; big-endian integers, slices, UTF-8
      and hex, as Node's Buffer has them.
    - [Number]: the JavaScript [number] and its text; [Json]: JSON.stringify
      and that JSON.parse reads it back.

    The protocol.
    - [Curve] (packages/curve): the 210 stairs, quotes by tokens and by
      satoshis, the whole raise.
    - [Economics] (packages/cove-economics): the curve families, the reserve
      function R ([requiredBackingSats]), fees, dust, fee settlement.
    - [Wire] (packages/cove-wire): the messages ([codecV2.ts], [codec.ts]),
      tickers, token ids, the discovery envelope; [Discovery]: reading that
      envelope, with JSON.parse on untrusted text.
    - [Covenant] (packages/cove-covenant): the states of V1 and V2, their
      serialization and hashes, the mint and redeem transitions, the accounting
      of token carriers, the taproot commitment to a state; [View]: the
      in-memory view [CoveChainView] of resolver.ts and its simulation of the
      indexer.
    - [Simplicity] (packages/cove-simplicity): the mint and redeem policies of
      the .simf sources as predicates, the witness builders and the strict
      execution verdict.
    - [Vault] (packages/cove-vault): tapscript leaves, Merkle root and control
      blocks, recovery profiles, policy identities, the backing vault.

    The indexer (packages/cove-indexer/src/v3).
    - [Indexer]: [parseCoveTx], the state machine [V3IndexerState] with
      [applyBlock] and [undoBlock], the state root, and [reorgToTip];
      [IndexerInv]: the invariant of the state machine and its theorems;
      [IndexerExamples]: a chain on which their hypotheses hold; [StateRoot]:
      what the root commits to.
    - [Undo] (undo.ts): the JSON of the undo journal.
    - [Store] (store.ts and the tables of packages/db/src/schema.ts): a block
      written, or taken back, in one transaction; [StoreInv]: each operation's
      rows against the state.
    - [Hydrate] (hydrate.ts, health.ts, read-models.ts, read-models-db.ts,
      snapshot.ts): reading the tables back; [ReadInv]: what the readers see.
    - [Persistent] (persistent.ts, verify.ts, reindex.ts): the worker, the
      persistent reorganisation, verification against Core and the rebuild;
      [Lockstep] and [PersistentInv]: memory and database stay together;
      [PersistentExamples]: tables on which the hypotheses hold.

    The Guardian (packages/cove-guardian/src/v3, packages/bitcoin).
    - [Spend] (packages/bitcoin spend.ts and fees.ts): inputs, scripts and
      signatures of a PSBT; fee rates.
    - [Guardian] (resolve.ts, analyze.ts, validate.ts, funding.ts, witness.ts):
      every check before signing; [GuardianInv]: against the indexer's rules.
    - [Finalize] (finalize.ts, broadcast.ts): the checks before broadcast;
      [FinalizeInv]; [FinalizeExamples].
    - [Builder] (builder.ts): the transactions wallets are given to sign;
      [BuilderInv]; [GuardianExamples].
    - [Journal] (journal.ts and the Postgres journal of cove-app): the lease
      that keeps a vault from being signed twice.
    - [AuditLog] (the audit record of types.ts and the tables of cove-app): the
      hash chain of signatures.
    - [Signing] (signer.ts, custody.ts, transitionSigner.ts, guardianApi.ts):
      the order of the checks, the journal, the audit and the signature, in
      process and behind HTTP; [SigningInv]; [SigningExamples].

    Mainnet (packages/cove-mainnet, packages/config, packages/cove-app).
    - [Profile] (profile.ts, committed-profile.ts, test-keys.ts): the owner's
      decisions, their validation, canonical bytes, hash and JSON;
      [ProfileInv]: what a valid profile and its hash say.
    - [AppConfig] (cove-networks.ts and config.ts of cove-app): the
      configuration of a service; [AppConfigInv].
    - [Readiness] (mainnet.ts, readiness.ts, readiness-probes.ts,
      readiness-cli.ts): the gate that enables mutations; [ProfileExamples].

    The market (packages/cove-market/src).
    - [Order] (types.ts, errors.ts, config.ts and the order directory): the
      listing, its canonical bytes and id, its shape, and the BIP-322
      signatures that authorise a listing, a cancellation and a reservation.
    - [Market] (health.ts, psbt.ts, finalize.ts, best-execution.ts and the
      market's tables of schema.ts): the rows, the checks on signed and on
      final transactions, the routes offered to buyers and sellers.
    - [MarketService] (service.ts): every operation of the service, as steps
      over the tables that keep what was committed before a throw.
    - [MarketInv]: the invariant of the tables under any sequence of
      operations; [MarketReconcile]: what a reconciliation establishes;
      [MarketSettle]: what a validated fill pays and what the indexer makes of
      it; [MarketExamples]: a sale from listing to trade.

    The application (packages/cove-app/src).
    - [Greedy]: sorting by a comparator, and what taking the largest elements
      of a list achieves.
    - [AppFunding] (wallet-identity.ts, fees.ts, funding.ts and the selections
      of service.ts): the two addresses of a wallet, the fee of an operation,
      the coins and the token carriers that pay; [AppFundingInv].
    - [TxSession] (tx-session.ts): the rows of the sessions and the statements
      on them.
    - [AppQuote] (service.ts): the backing a quote is made on, followed through
      the transitions that are not yet mined, and the quotes; [AppQuoteInv].
    - [AppService] (service.ts, metadata.ts, psbt.ts): builds, submits,
      reconciliation and listings, as steps over the service's tables and the
      log of what it asks the Guardian and the network; [AppServiceInv]: what
      is sent; [AppSessions]: the invariant of the sessions under any sequence
      of requests; [AppBuildInv]: what is built.
    - [Monitors] (invariants.ts): the checks on the tables that are to stop
      trading, against the indexer; [AppExamples]: launching, buying and
      selling on the example chain.
    - [AppRead] (token-read.ts, wallet-read.ts, health.ts): the pages of tokens
      and wallets and the status, with what they say on the indexer's tables;
      [Display] (format.ts): amounts as text, and back; [AppSigner]
      (transition-signer.ts): which signer a process gets, and the watch on the
      Guardian's profile.
    - [ClientIntent] (packages/wallets/src/cove-intent.ts): what a wallet checks
      of a transaction before it signs; [ClientIntentInv]: what the indexer then
      makes of it; [ClientIntentExamples].

    The processes (apps/guardian/src, apps/worker/src).
    - [RateLimit] (auth.ts of the Guardian service and rate-limit.ts of
      cove-app): the two limiters and how many calls they let through.
    - [GuardianService] (boot.ts, custody.ts, auth.ts, service.ts, index.ts and
      the server's side of guardianApi.ts): what the Guardian checks before it
      listens, and what it does with a request; [GuardianServiceInv];
      [GuardianServiceExamples].
    - [Worker] (v3.ts of the worker, metrics.ts of cove-app): the tick that
      follows Bitcoin Core; [WorkerInv]; [WorkerExamples].

    ** How the model corresponds to the code

    A definition has the name of the function or type it translates; a loop
    that the source writes inline has a name of its own.  A [bigint] is [Z]
    (its [/] and [%] are [Z.quot] and [Z.rem], its width is checked where the
    source checks it); a [Buffer] is [list byte]; a [string] is [string] and
    holds the UTF-8 bytes; a [Map] keyed by strings is [gmap string].  A
    function that may throw returns [result]; the state machine returns the
    state next to its result, so that a throw in the middle of a block keeps
    what was applied before it.  A database table is the list of its rows of
    one network; a statement that breaks a unique index throws and its
    transaction is undone.

    Code of third parties is a parameter.  [Vault.Crypto] has SHA-256, the
    x-only point operations and the script compiler; [Indexer.Bitcoin] has the
    transaction decoder and the txid, whose 64 hex digits are assumed;
    [Indexer.Locale] has the collation order of [localeCompare], any
    permutation; Bitcoin Core is the record [Indexer.CoreRpcProvider].
    [Guardian.BitcoinJs] is what bitcoinjs-lib says of a PSBT,
    [Builder.PsbtBuilder] how it builds one, [Signing.Ecc] the signing
    primitives, [Profile.TestKeys] two operations of the test keys;
    [Hydrate.Postgres] is the order of the rows of a SELECT, any permutation,
    and [Persistent.Connection] which commits fail.  The clock, the request id
    and the outcome of an audit write are [Signing.SignEnv]; what the probes
    of the readiness tool return is [Readiness.Probes].  [Order.MessageSigning]
    has the digests and ECDSA of message signatures, [Market.PsbtCodec] the
    encodings of a PSBT, [MarketService.MarketNode] the node the market asks.
    The operations of the market run one at a time, and during one the tables
    of the indexer, the clock and the node's answers stand still; its
    statements fail only on the unique indexes.  The requests of the application
    run in the same way: [AppService.AppEnv] is what the clock, the node, the
    ord server and the signer answer during one, [AppService.InputFinalizer]
    how bitcoinjs-lib finalizes an input, and [Monitors.sum_of_token] takes how
    the database driver hands over a sum.  The Guardian's requests come one at a
    time in [GuardianService.ServiceWorld], and [Worker.TickWorld] is what a
    tick of the worker meets.  No theorem assumes that a hash is
    injective: the binding theorems conclude with equality or an explicit
    collision.

    ** What the theorems show

    - Solvency.  [Covenant.covenant_solvency]: after any history of mints and
      redemptions the backing is R(supply), and a second history from the same
      state to the same supply moves the same satoshis.
      [IndexerInv.indexer_solvent]: in every state the indexer reaches, each
      vault holds the anchor and R(issued), the live carriers hold at most what
      is issued, and every whole lot they hold can be redeemed.
    - Acceptance.  [IndexerInv.applyCove_spec] gives the declarative
      conditions under which each operation is accepted, and its effect;
      [IndexerInv.apply_tx_consumes_inputs] that no carrier outlives the
      transaction that spends it; [View.chain_view_simulates] that the
      covenant's own view of a chain follows the indexer's.
    - Reorganisations.  [IndexerInv.undoBlock_applyBlock] and
      [IndexerInv.reorgToTip_is_fresh_index]: the journal is exact, so a
      reorganised index is the index of the new chain.
    - The database.  [Undo.decodeUndo_encodeUndo]: a journal record survives
      it.  [PersistentInv.persistentWorker_lockstep] and
      [PersistentInv.reorgPersistentToTip_lockstep]: whichever commits fail,
      memory and tables describe one prefix of the chain, and the whole of it
      once the engine returns.  [PersistentInv.hydrateState_lockstep]: a
      restart finds the same tokens, reserves, carriers and root.
      [PersistentInv.reindexDb_fail_safe]: a rebuild that fails is never
      reported healthy, and one that returns leaves tables with the root of a
      state that was verified against Core.  [PersistentInv.quickVerify_sound] and
      [PersistentInv.fullVerify_complete]: what verification accepts.
      [ReadInv.holders_account_for_supply] and [ReadInv.snapshot_refines_view]:
      the API's balances and the Guardian's snapshot are the state's.
    - The Guardian.  [GuardianInv.guardian_mint_indexed] and
      [GuardianInv.guardian_redeem_indexed]: what it signs the indexer
      accepts; [FinalizeInv.broadcast_is_indexed]: so is what is broadcast on
      that view, a repeated deployment excepted;
      [FinalizeInv.signed_is_sendable] and [BuilderInv.built_mint_signed]: a
      built transaction is signed and a signed one can be sent.
      [SigningInv.guardian_signs_one], [SigningInv.signature_implies] and
      [Journal.journal_excludes]: no two different transactions signed for one
      vault while a lease lasts, and each only after policy, journal and audit;
      [Journal.journal_unblocks]: a lease ends.  [SigningInv.remote_is_local]:
      the HTTP signer gives what the local one gives.
      [AuditLog.audit_chain_tamper_evident] and [AuditLog.audit_writes_verify]:
      the audit chain.
    - The market.  [Order.listing_id_binds]: the id a seller signs stands for
      the whole order.  [MarketInv.market_exclusive]: whatever requests come,
      a listing has at most one fill in progress or done, and the trades are
      the confirmed fills.  [MarketReconcile.reconcile_sound] and
      [MarketReconcile.reconcile_progress]: after a reconciliation the trades
      are sales the indexer saw, each carrier sold once, and nothing that was
      due is left.  [MarketSettle.p2p_fill_settles]: a fill that passes the
      final validation pays the seller and the market exactly and the miner at
      most what was agreed, and the indexer moves the tokens as agreed.
    - Mainnet.  [ProfileInv.profile_hash_binds]: the hash that services compare
      commits every owner decision.  [AppConfigInv.committed_profile_refused]:
      with the profile as committed, mainnet does not start.
      [AppConfigInv.mainnet_config_sound]: a configuration that loads holds no
      private key and its keys give a vault.  [Readiness.readiness_gate]: when
      mutations are enabled.
    - The application.  [AppServiceInv.submit_sends_validated]: what leaves the
      service is the transaction of its session, with the wallet's signatures
      and the Guardian's where a vault moves, and has passed the final
      validation; [AppSessions.sessions_sound]:
      whatever requests come, a session on its way stands for a transaction
      that was sent.  [AppBuildInv.buy_honours_quote]: a purchase is built at
      the price that was quoted, or not at all.
      [AppQuoteInv.pending_tip_sound] and [AppQuoteInv.quotes_match_transitions]:
      the state a quote is made on follows from the confirmed one through
      broadcast sessions whose messages say so, and the quote
      is what the transition does; [AppQuoteInv.quoteBuyForSats_best]: a budget
      buys the most lots it can.  [AppFundingInv.funding_fewest],
      [AppFundingInv.funding_found] and [AppFundingInv.carriers_fewest]: a build
      takes the fewest coins and carriers that do, and a wallet that can pay is
      not refused.  [ClientIntentInv.verified_intent_indexed]: a transaction that
      passes the wallet's own check and is accepted by the indexer moves the
      satoshis the user was told of, and the tokens as its message says;
      [ClientIntentExamples.message_second_passes] and
      [ClientIntentExamples.message_deploys_passes] are two that pass and deliver
      nothing.  [AppRead.token_detail_on_index] and [AppRead.portfolio_on_index]:
      the pages say what the index says; [Display.display_round_trip]: an amount
      that is printed reads back.  [Monitors.monitors_on_index]: on the indexer's tables every
      backing is the reserve of its supply and the carriers add up to it, and
      what the monitors report of that.
    - The processes.  [GuardianServiceInv.guardian_service_signs]: whatever
      requests reach the Guardian, a signature leaves it only for one that was
      authorised, on the PSBT it validated and the key it was started with,
      after the policy and the audit, and for one transaction per vault and
      lease.  [RateLimit.GuardianLimiter.guardian_limiter_bound]: in any
      minute an address gets fewer than twice the limit of calls through;
      [RateLimit.WebLimiter.web_limiter_bound]: in each window at most the limit.  [WorkerInv.worker_follows_chain]: memory and tables stay on a chain
      that Core showed, over any ticks and failures, and a tick without a failed
      commit ends at Core's tip.  [AppSigner.no_endpoint_no_signature] and
      [AppSigner.watch_sound]: on mainnet nothing is signed without a Guardian,
      and a process whose Guardian reports another profile stops.
    - Curve and fees.  The optimised stair walk equals the closed quote, is
      path independent in whole lots and terminates; buying and redeeming are
      inverse before fees and lose exactly fees; a satoshi budget buys the most
      lots it can; fees are the rounded-up share with its floor; the fee rates
      offered to a wallet are all accepted ([Spend.fee_tiers_accepted]).
    - Encodings.  Every codec is a bijection between the valid values and the
      accepted bytes; the errors of the decoder are its documented ones; ids,
      state hashes, policy identities and the state root bind what they print.
    - Vault.  Every leaf opens the output key with its control block; the
      recovery leaf depends on the set of keys only and takes exactly the
      threshold of signatures.
    - Policies.  A Simplicity policy that passes proves conservation, and the
      witness built from a valid transition passes.

    ** Fuel and bounds

    Loops that are not structural carry fuel and have a theorem that it is
    enough: [Economics.stairs210_terminates] (one round per stair);
    [Vault.merge_levels] takes the number of leaves, of which each round leaves
    at most half rounded up ([Vault.merge_levels_spec]); [Indexer.walk_back]
    and [Persistent.walk_back_to] take the distance to the floor of the walk,
    [Indexer.undo_down], [Indexer.replay_up] and the loops of [Persistent] the
    number of their rounds; the JSON parser takes the length of its text.
    [out_of_fuel] is the value of a loop that ran out, which no error of the
    program equals.

    ** What is not modelled

    HTTP and RPC clients and the development entry point of guardian.ts; the
    pages and routes of the web application and the rest of packages/wallets;
    the worker of the earlier protocols; regtest, lifecycle and ceremony
    scripts; the superseded V1 indexer and guardian and the protocols before
    them.

    Of what is modelled: the widths of database columns (64-bit amounts and
    heights) are not checked; an undo
    record that passes the checks of undo.ts and yet is no [BlockUndo] stops
    the model with an error of its own, where the source goes on with an
    untyped value; the lockstep theorems start from a state indexed in this
    process, and a restart continues with events without their trades. *)

From stdpp Require Export base tactics list list_numbers strings gmap sets pretty sorting.
From Stdlib Require Export ZArith Lia.
From Stdlib Require Export Strings.Byte Strings.Ascii.
From stdpp Require Export options.

#[global] Open Scope Z_scope.

(** ** Errors and the result monad

    Every [throw] of the source is a value of [exn]: the class of the
    exception, the [code] field of the typed error classes ([BackingError],
    [CovenantError], [WireV2Error], ...) and the message. *)
Inductive err_class : Set :=
  | EError | ERangeError | ETypeError | ECurveError | EBackingError
  | ECovenantError | EWireError | EWireV2Error | EDiscoveryError
  | EAnalyzeError | EMarketError | EFeeError | ETimeoutError | EAppError | ECoveNetworkError
  | EFuel.

Record exn : Set := Exn {
  exn_class : err_class;
  exn_code : option string;
  exn_message : string;
}.

#[export] Instance err_class_eq_dec : EqDecision err_class.
Proof. solve_decision. Defined.
#[export] Instance exn_eq_dec : EqDecision exn.
Proof. solve_decision. Defined.

(** [throw new Error(msg)] *)
Definition js_error (msg : string) : exn := Exn EError None msg.
(** [throw new XError(code, msg)] *)
Definition coded (c : err_class) (code msg : string) : exn := Exn c (Some code) msg.
(** The value of a loop of the model whose fuel ran out; no program error. *)
Definition out_of_fuel : exn := Exn EFuel None "out of fuel".

Inductive result (A : Type) : Type :=
  | Ok (a : A)
  | Throw (e : exn).
Arguments Ok {_} _.
Arguments Throw {_} _.

#[export] Instance result_ret : MRet result := λ A a, Ok a.
#[export] Instance result_bind : MBind result := λ A B f m,
  match m with Ok a => f a | Throw e => Throw e end.
#[export] Instance result_fmap : FMap result := λ A B f m,
  match m with Ok a => Ok (f a) | Throw e => Throw e end.

#[export] Instance result_eq_dec `{EqDecision A} : EqDecision (result A).
Proof. solve_decision. Defined.

(** [if (b) throw e;] *)
Definition throw_if (b : bool) (e : exn) : result unit :=
  if b then Throw e else Ok tt.

(** [try { m } catch (e) { h e }] *)
Definition try_catch {A} (m : result A) (h : exn → result A) : result A :=
  match m with Ok a => Ok a | Throw e => h e end.

Definition is_ok {A} (m : result A) : bool :=
  match m with Ok _ => true | Throw _ => false end.

(** [x ?? e]: a missing (null or undefined) value is an error. *)
Definition of_option {A} (e : exn) (o : option A) : result A :=
  match o with Some a => Ok a | None => Throw e end.

Section result_lemmas.
Context {A B : Type}.
Implicit Types (m : result A) (f : A → result B).

Lemma bind_Ok m f b : (m ≫= f) = Ok b ↔ ∃ a, m = Ok a ∧ f a = Ok b.
Proof. destruct m; cbn; naive_solver. Qed.

Lemma bind_Throw m f e :
  (m ≫= f) = Throw e ↔ m = Throw e ∨ ∃ a, m = Ok a ∧ f a = Throw e.
Proof. destruct m; cbn; naive_solver. Qed.

Lemma fmap_Ok m (g : A → B) b : g <$> m = Ok b ↔ ∃ a, m = Ok a ∧ g a = b.
Proof. destruct m; cbn; naive_solver. Qed.

Lemma throw_if_Ok b e u : throw_if b e = Ok u ↔ b = false.
Proof. destruct b, u; cbn; naive_solver. Qed.

Lemma throw_if_Throw b e e' : throw_if b e = Throw e' ↔ b = true ∧ e = e'.
Proof. destruct b; cbn; naive_solver. Qed.

Lemma of_option_Ok e (o : option A) a : of_option e o = Ok a ↔ o = Some a.
Proof. destruct o; cbn; naive_solver. Qed.

Lemma throw_if_false b e (k : unit → result A) :
  b = false → (throw_if b e ≫= k) = k tt.
Proof. by intros ->. Qed.

Lemma throw_if_true b e (k : unit → result A) :
  b = true → (throw_if b e ≫= k) = Throw e.
Proof. by intros ->. Qed.

Lemma bind_of_Ok a f : (Ok a ≫= f) = f a.
Proof. done. Qed.

Lemma bind_of_Throw e f : (Throw e ≫= f) = Throw e.
Proof. done. Qed.

Lemma bind_assoc {C} m f (g : B → result C) :
  ((m ≫= f) ≫= g) = (m ≫= λ a, f a ≫= g).
Proof. by destruct m. Qed.

Lemma is_ok_true m : is_ok m = true ↔ ∃ a, m = Ok a.
Proof. destruct m; cbn; naive_solver. Qed.
End result_lemmas.

(** ** Booleans of the source's conditions *)
Create HintDb cove.
Create HintDb cove_len.
Create HintDb cove_bool.
#[export] Hint Rewrite
  orb_true_iff orb_false_iff andb_true_iff andb_false_iff negb_true_iff negb_false_iff
  Z.ltb_lt Z.ltb_ge Z.leb_le Z.leb_gt Z.eqb_eq Z.eqb_neq Z.gtb_lt Z.geb_le
  Nat.eqb_eq Nat.eqb_neq Nat.ltb_lt Nat.ltb_ge Nat.leb_le Nat.leb_gt
  @bool_decide_eq_true @bool_decide_eq_false String.eqb_eq String.eqb_neq
  : cove_bool.

(** The model writes [a !== b] as [negb (a =? b)] and [a > b] as [b <? a]. *)
Ltac to_prop := autorewrite with cove_bool in *.

(** Inverts a successful run of the monad: one equation per step. *)
Ltac res_inv H :=
  lazymatch type of H with
  | (_ ≫= _) = Ok _ =>
      let a := fresh "v" in let Ha := fresh "Hv" in
      apply bind_Ok in H; destruct H as (a & Ha & H); cbn beta iota in H;
      res_inv Ha; res_inv H
  | throw_if _ _ = Ok _ => apply throw_if_Ok in H
  | of_option _ _ = Ok _ => apply of_option_Ok in H
  | mret _ = Ok _ => injection H as H
  | Ok _ = Ok _ => injection H as H
  | Throw _ = Ok _ => discriminate H
  | _ => idtac
  end.

(** Runs a step whose value is known, by rewriting: unfolding the bind would
    let the kernel unfold the loops behind it. *)
Ltac step_ok := rewrite bind_of_Ok; cbn beta iota.

(** Steps a run whose guards are known: [throw_if b e ≫= k] with [b] shown
    false by [tac]. *)
Ltac guard_step tac :=
  lazymatch goal with
  | |- context [throw_if ?b ?e ≫= ?k] =>
      let Hb := fresh in
      assert (b = false) as Hb by (to_prop; tac);
      rewrite (throw_if_false b e k Hb); clear Hb
  end.

(** ** Integers

    The source's [bigint] is [Z]; its [/] and [%] truncate towards zero, which
    are [Z.quot] and [Z.rem]; on the non-negative operands the program uses
    they are the floor operations [lia] knows. *)
Definition U64_MAX : Z := 0xffffffffffffffff.

Lemma quot_div (a b : Z) : 0 ≤ a → 0 < b → Z.quot a b = a `div` b.
Proof. intros. apply Z.quot_div_nonneg; lia. Qed.

Lemma rem_mod (a b : Z) : 0 ≤ a → 0 < b → Z.rem a b = a `mod` b.
Proof. intros. apply Z.rem_mod_nonneg; lia. Qed.

(** Ceiling division, as the lemmas about prices and fees state it. *)
Definition cdiv (n d : Z) : Z := - ((- n) `div` d).

Lemma cdiv_spec n d c : 0 < d → cdiv n d = c ↔ (c - 1) * d < n ≤ c * d.
Proof.
  intros Hd. unfold cdiv.
  pose proof (Z.div_mod (-n) d ltac:(lia)). pose proof (Z.mod_pos_bound (-n) d Hd).
  split; [intros <-; nia|]. intros [??]. nia.
Qed.

Lemma cdiv_bounds n d : 0 < d → (cdiv n d - 1) * d < n ≤ cdiv n d * d.
Proof. intros. by apply cdiv_spec. Qed.

Lemma cdiv_le n d c : 0 < d → cdiv n d ≤ c ↔ n ≤ c * d.
Proof. intros Hd. pose proof (cdiv_bounds n d Hd). split; nia. Qed.

Lemma cdiv_exact k d : 0 < d → cdiv (k * d) d = k.
Proof. intros. apply cdiv_spec; nia. Qed.

Lemma cdiv_add_exact n k d : 0 < d → cdiv (n + k * d) d = cdiv n d + k.
Proof. intros Hd. apply cdiv_spec; [done|]. pose proof (cdiv_bounds n d Hd). nia. Qed.

Lemma cdiv_mono n m d : 0 < d → n ≤ m → cdiv n d ≤ cdiv m d.
Proof. intros Hd ?. apply cdiv_le; [done|]. pose proof (cdiv_bounds m d Hd). lia. Qed.

Lemma cdiv_nonneg n d : 0 < d → 0 ≤ n → 0 ≤ cdiv n d.
Proof. intros Hd ?. pose proof (cdiv_bounds n d Hd). nia. Qed.

Lemma cdiv_quot n d : 0 < d → 0 < n → Z.quot (n + d - 1) d = cdiv n d.
Proof.
  intros. rewrite quot_div by lia. symmetry. apply cdiv_spec; [done|].
  pose proof (Z.div_mod (n + d - 1) d ltac:(lia)).
  pose proof (Z.mod_pos_bound (n + d - 1) d ltac:(lia)). nia.
Qed.

(** ** Lists *)
Definition zsum (l : list Z) : Z := foldr Z.add 0 l.

Lemma zsum_app l k : zsum (l ++ k) = zsum l + zsum k.
Proof. unfold zsum. induction l; cbn; lia. Qed.

Lemma zsum_perm l k : l ≡ₚ k → zsum l = zsum k.
Proof. unfold zsum. induction 1; cbn in *; lia. Qed.

Lemma zsum_nonneg l : Forall (λ z, 0 ≤ z) l → 0 ≤ zsum l.
Proof. unfold zsum. induction 1; cbn in *; lia. Qed.

(** [l.reduce((s, x) => s + x.amount, 0n)] *)
Lemma foldl_add_zsum {A} (f : A → Z) (l : list A) (acc : Z) :
  foldl (λ s x, s + f x) acc l = acc + zsum (f <$> l).
Proof.
  unfold zsum. revert acc. induction l as [|x l IH]; intros acc; cbn; [lia|].
  rewrite IH. lia.
Qed.

#[export] Instance byte_eq_dec : EqDecision byte := Byte.byte_eq_dec.
