(* ===== verification/Bytes.v ===== *)
(** * Buffers

    The parts of the JavaScript runtime the program uses on [Buffer] and
    [string] values: unsigned bytes, big-endian integers, [subarray], hex and
    ASCII text.  A [Buffer] is a [list byte]; a [string] is the byte sequence
    of its UTF-8 encoding. *)
From S2P Require Import Prelude.

(** ** One byte *)
Definition u8 (b : byte) : Z := Z.of_N (Byte.to_N b).

(** [Buffer.from([z])] keeps the low eight bits. *)
Definition to_byte (z : Z) : byte :=
  match Byte.of_N (Z.to_N (z `mod` 256)) with Some b => b | None => x00 end.

Lemma u8_range b : 0 ≤ u8 b < 256.
Proof. unfold u8. pose proof (Byte.to_N_bounded b). lia. Qed.

Lemma to_byte_u8 b : to_byte (u8 b) = b.
Proof.
  unfold to_byte. rewrite Z.mod_small by apply u8_range.
  unfold u8. rewrite N2Z.id. by rewrite Byte.of_to_N.
Qed.

Lemma u8_to_byte z : u8 (to_byte z) = z `mod` 256.
Proof.
  unfold to_byte, u8. pose proof (Z.mod_pos_bound z 256 ltac:(lia)).
  destruct (Byte.of_N _) as [b|] eqn:E.
  - apply Byte.to_of_N in E. rewrite E. lia.
  - apply Byte.of_N_None_iff in E. lia.
Qed.

Lemma u8_to_byte_small z : 0 ≤ z < 256 → u8 (to_byte z) = z.
Proof. intros. rewrite u8_to_byte. by apply Z.mod_small. Qed.

Lemma u8_inj b c : u8 b = u8 c → b = c.
Proof. intros E. rewrite <-(to_byte_u8 b), <-(to_byte_u8 c). by rewrite E. Qed.

(** ** Big-endian integers: [writeUIntBE], [readUIntBE] *)
Fixpoint be_bytes (n : nat) (v : Z) : list byte :=
  match n with
  | O => []
  | S m => to_byte (v `div` 256 ^ Z.of_nat m) :: be_bytes m v
  end.

Definition be_value (l : list byte) : Z := foldl (λ a b, a * 256 + u8 b) 0 l.

Lemma be_bytes_length n v : length (be_bytes n v) = n.
Proof. induction n; cbn; congruence. Qed.

Lemma be_value_cons_acc l a :
  foldl (λ a b, a * 256 + u8 b) a l = a * 256 ^ Z.of_nat (length l) + be_value l.
Proof.
  unfold be_value. revert a. induction l as [|b l IH]; intros a.
  - cbn. lia.
  - cbn [foldl length]. rewrite IH, (IH (0 * 256 + u8 b)).
    rewrite Nat2Z.inj_succ, Z.pow_succ_r by lia. lia.
Qed.

Lemma be_value_cons b l : be_value (b :: l) = u8 b * 256 ^ Z.of_nat (length l) + be_value l.
Proof. unfold be_value at 1. cbn [foldl]. rewrite be_value_cons_acc. lia. Qed.

Lemma be_value_range l : 0 ≤ be_value l < 256 ^ Z.of_nat (length l).
Proof.
  induction l as [|b l IH]; [cbn; lia|].
  rewrite be_value_cons. cbn [length]. rewrite Nat2Z.inj_succ, Z.pow_succ_r by lia.
  pose proof (u8_range b). nia.
Qed.

Lemma pow256_pos n : 0 < 256 ^ Z.of_nat n.
Proof. apply Z.pow_pos_nonneg; lia. Qed.

Lemma pow256_S n : 256 ^ Z.of_nat (S n) = 256 * 256 ^ Z.of_nat n.
Proof. rewrite Nat2Z.inj_succ, Z.pow_succ_r by lia. done. Qed.

(** The base-256 digit above position [m] splits off the low [m] digits. *)
Lemma mod_pow256_S v m :
  v `mod` 256 ^ Z.of_nat (S m)
  = (v `div` 256 ^ Z.of_nat m) `mod` 256 * 256 ^ Z.of_nat m + v `mod` 256 ^ Z.of_nat m.
Proof.
  pose proof (pow256_pos m). rewrite pow256_S, Z.mul_comm, Z.rem_mul_r by lia. lia.
Qed.

Lemma be_value_bytes n v : be_value (be_bytes n v) = v `mod` 256 ^ Z.of_nat n.
Proof.
  induction n as [|n IH].
  - cbn. by rewrite Z.mod_1_r.
  - cbn [be_bytes]. by rewrite be_value_cons, be_bytes_length, IH, u8_to_byte, mod_pow256_S.
Qed.

Lemma be_bytes_ext n v w :
  v `mod` 256 ^ Z.of_nat n = w `mod` 256 ^ Z.of_nat n → be_bytes n v = be_bytes n w.
Proof.
  induction n as [|n IH]; intros E; [done|]. cbn [be_bytes].
  rewrite !mod_pow256_S in E. pose proof (pow256_pos n).
  pose proof (Z.mod_pos_bound v (256 ^ Z.of_nat n) ltac:(lia)).
  pose proof (Z.mod_pos_bound w (256 ^ Z.of_nat n) ltac:(lia)).
  assert ((v `div` 256 ^ Z.of_nat n) `mod` 256 = (w `div` 256 ^ Z.of_nat n) `mod` 256) as E' by nia.
  f_equal; [|apply IH; nia]. apply u8_inj. by rewrite !u8_to_byte.
Qed.

Lemma be_bytes_value l : be_bytes (length l) (be_value l) = l.
Proof.
  induction l as [|b l IH]; [done|].
  cbn [length be_bytes]. rewrite be_value_cons. f_equal.
  - pose proof (be_value_range l). rewrite Z.div_add_l, Z.div_small, Z.add_0_r by lia.
    apply to_byte_u8.
  - etransitivity; [|exact IH]. apply be_bytes_ext. pose proof (pow256_pos (length l)).
    rewrite Z.add_comm, Z.mod_add by lia. done.
Qed.

(** [b.writeBigUInt64BE(v)] and [b.readBigUInt64BE(off)] (of a slice). *)
Definition u64be (v : Z) : list byte := be_bytes 8 v.
(** [b.writeUInt16BE(v)] *)
Definition u16be (v : Z) : list byte := be_bytes 2 v.

Lemma u64be_length v : length (u64be v) = 8%nat.
Proof. apply be_bytes_length. Qed.

Lemma be_value_u64be v : 0 ≤ v ≤ U64_MAX → be_value (u64be v) = v.
Proof. intros. unfold u64be. rewrite be_value_bytes. apply Z.mod_small. unfold U64_MAX in *. lia. Qed.

Lemma u64be_value l : length l = 8%nat → u64be (be_value l) = l.
Proof. intros H. unfold u64be. rewrite <-H. apply be_bytes_value. Qed.

Lemma be_value_u64_range l : length l = 8%nat → 0 ≤ be_value l ≤ U64_MAX.
Proof. intros H. pose proof (be_value_range l) as B. rewrite H in B. unfold U64_MAX. cbn in *. lia. Qed.

(** ** Slices *)

(** [buf.subarray(a, b)]: bounds beyond the end are clamped. *)
Definition subarray (l : list byte) (a b : Z) : list byte :=
  take (Z.to_nat (b - a)) (drop (Z.to_nat a) l).

(** [buf[i]]: [undefined] out of range. *)
Definition byte_at (l : list byte) (i : Z) : option Z :=
  if i <? 0 then None else u8 <$> l !! Z.to_nat i.

(** [buf.readBigUInt64BE(off)]; out of range is a [RangeError]. *)
Definition readU64 (l : list byte) (off : Z) : result Z :=
  if (off <? 0) || (Z.of_nat (length l) <? off + 8)
  then Throw (Exn ERangeError (Some "ERR_OUT_OF_RANGE") "offset out of range")
  else Ok (be_value (subarray l off (off + 8))).

Definition blen (l : list byte) : Z := Z.of_nat (length l).

(** [Buffer.alloc(n)] *)
Definition zeros (n : nat) : list byte := replicate n x00.

Lemma subarray_length l a b :
  0 ≤ a ≤ b → b ≤ blen l → length (subarray l a b) = Z.to_nat (b - a).
Proof. intros. unfold subarray, blen in *. rewrite length_take, length_drop. lia. Qed.

Lemma subarray_app_r l k a b :
  blen l ≤ a → subarray (l ++ k) a b = subarray k (a - blen l) (b - blen l).
Proof.
  intros. unfold subarray, blen in *. rewrite drop_app_ge by lia.
  f_equal; [f_equal; lia|]. f_equal. lia.
Qed.

Lemma subarray_app_l l k b : b = blen l → subarray (l ++ k) 0 b = l.
Proof. intros ->. unfold subarray, blen. rewrite drop_0, take_app_le by lia. apply take_ge. lia. Qed.

Lemma subarray_all l b : b = blen l → subarray l 0 b = l.
Proof. intros. rewrite <-(app_nil_r l) at 1. by apply subarray_app_l. Qed.

(** Reading a field of a known layout: [p] is [pre ++ field ++ post] and the
    offset is the length of [pre]. *)
Lemma blen_app l k : blen (l ++ k) = blen l + blen k.
Proof. unfold blen. rewrite length_app. lia. Qed.
Lemma blen_cons b l : blen (b :: l) = 1 + blen l.
Proof. unfold blen. cbn [length]. lia. Qed.
Lemma blen_nil : blen [] = 0.
Proof. done. Qed.
Lemma blen_nonneg l : 0 ≤ blen l.
Proof. unfold blen. lia. Qed.
Lemma blen_length l n : blen l = Z.of_nat n ↔ length l = n.
Proof. unfold blen. lia. Qed.
Lemma blen_u64be v : blen (u64be v) = 8.
Proof. unfold blen. by rewrite u64be_length. Qed.
Lemma blen_zeros n : blen (zeros n) = Z.of_nat n.
Proof. unfold blen, zeros. by rewrite length_replicate. Qed.

Lemma subarray_at p pre field post a b :
  p = pre ++ field ++ post → a = blen pre → b = a + blen field → subarray p a b = field.
Proof.
  intros -> -> ->. rewrite subarray_app_r by lia.
  rewrite Z.sub_diag. replace (blen pre + blen field - blen pre) with (blen field) by lia.
  by apply subarray_app_l.
Qed.

Lemma byte_at_at p pre v post i :
  p = pre ++ to_byte v :: post → i = blen pre → 0 ≤ v < 256 → byte_at p i = Some v.
Proof.
  intros -> -> Hv. unfold byte_at. pose proof (blen_nonneg pre) as Hp.
  rewrite (proj2 (Z.ltb_ge _ _) Hp). unfold blen. rewrite Nat2Z.id.
  rewrite lookup_app_r, Nat.sub_diag by lia. cbn. by rewrite u8_to_byte_small.
Qed.

Lemma readU64_at p pre v post off :
  p = pre ++ u64be v ++ post → off = blen pre → 0 ≤ v ≤ U64_MAX → readU64 p off = Ok v.
Proof.
  intros E -> Hv. unfold readU64.
  rewrite (subarray_at p pre (u64be v) post) by (rewrite ?blen_u64be; done).
  rewrite be_value_u64be by done. subst p. pose proof (blen_nonneg pre). pose proof (blen_nonneg post).
  fold (blen (pre ++ u64be v ++ post)). rewrite !blen_app, blen_u64be.
  destruct (_ || _) eqn:B; [|done]. exfalso. to_prop. lia.
Qed.

(** Reassembling the fields that were read. *)
Lemma subarray_split p a b c :
  0 ≤ a ≤ b → b ≤ c → subarray p a c = subarray p a b ++ subarray p b c.
Proof.
  intros. unfold subarray.
  replace (Z.to_nat (c - a)) with (Z.to_nat (b - a) + Z.to_nat (c - b))%nat by lia.
  replace (Z.to_nat b) with (Z.to_nat a + Z.to_nat (b - a))%nat by lia.
  rewrite <-drop_drop. symmetry. apply take_take_drop.
Qed.

Lemma byte_at_Some p i v : byte_at p i = Some v → 0 ≤ i < blen p ∧ 0 ≤ v < 256.
Proof.
  unfold byte_at, blen. destruct (i <? 0) eqn:Hi; [done|]. apply Z.ltb_ge in Hi.
  destruct (p !! Z.to_nat i) as [b|] eqn:E; cbn; [|done]. intros [= <-].
  apply lookup_lt_Some in E. pose proof (u8_range b). lia.
Qed.

Lemma subarray_byte_at p i v : byte_at p i = Some v → subarray p i (i + 1) = [to_byte v].
Proof.
  intros H. pose proof (byte_at_Some _ _ _ H) as [[Hi _] _]. revert H. unfold byte_at.
  rewrite (proj2 (Z.ltb_ge _ _) Hi). destruct (p !! Z.to_nat i) as [b|] eqn:E; cbn; [|done].
  intros [= <-]. rewrite to_byte_u8. unfold subarray.
  replace (Z.to_nat (i + 1 - i)) with 1%nat by lia.
  by rewrite (drop_S p b (Z.to_nat i) E).
Qed.

Lemma readU64_Ok p i v :
  readU64 p i = Ok v → 0 ≤ i ∧ i + 8 ≤ blen p ∧ subarray p i (i + 8) = u64be v ∧ 0 ≤ v ≤ U64_MAX.
Proof.
  unfold readU64. fold (blen p). destruct (_ || _) eqn:B; [done|]. intros [= <-]. to_prop.
  assert (length (subarray p i (i + 8)) = 8%nat) as L by (rewrite subarray_length; lia).
  rewrite u64be_value by done. split_and!; try lia; try done; by apply be_value_u64_range.
Qed.

Lemma byte_at_Ok p i : 0 ≤ i < blen p → ∃ v, byte_at p i = Some v ∧ 0 ≤ v < 256.
Proof.
  intros H. unfold byte_at. unfold blen in H. rewrite (proj2 (Z.ltb_ge i 0)) by lia.
  destruct (p !! Z.to_nat i) as [b|] eqn:E; [|apply lookup_ge_None in E; lia].
  cbn. eexists. split; [done|]. apply u8_range.
Qed.

Lemma readU64_in p i : 0 ≤ i → i + 8 ≤ blen p → ∃ v, readU64 p i = Ok v ∧ 0 ≤ v ≤ U64_MAX.
Proof.
  intros. unfold readU64. fold (blen p). destruct (_ || _) eqn:B; [exfalso; to_prop; lia|].
  eexists. split; [done|]. apply be_value_u64_range. rewrite subarray_length; lia.
Qed.

Lemma u64be_inj v w : 0 ≤ v ≤ U64_MAX → 0 ≤ w ≤ U64_MAX → u64be v = u64be w → v = w.
Proof. intros Hv Hw E. by rewrite <-(be_value_u64be v), <-(be_value_u64be w), E. Qed.

Lemma to_byte_inj v w : 0 ≤ v < 256 → 0 ≤ w < 256 → to_byte v = to_byte w → v = w.
Proof. intros Hv Hw E. by rewrite <-(u8_to_byte_small v), <-(u8_to_byte_small w), E. Qed.

(** ** Text *)

(** [Buffer.from(s, "utf8")] *)
Definition utf8 (s : string) : list byte := String.list_byte_of_string s.
Definition of_utf8 (l : list byte) : string := String.string_of_list_byte l.

Lemma of_utf8_utf8 s : of_utf8 (utf8 s) = s.
Proof. apply String.string_of_list_byte_of_string. Qed.

Lemma utf8_of_utf8 l : utf8 (of_utf8 l) = l.
Proof. apply String.list_byte_of_string_of_list_byte. Qed.

Lemma utf8_length s : length (utf8 s) = String.length s.
Proof.
  unfold utf8, String.list_byte_of_string. rewrite length_map.
  induction s; cbn; congruence.
Qed.

Lemma utf8_inj s t : utf8 s = utf8 t → s = t.
Proof. intros E. by rewrite <-(of_utf8_utf8 s), <-(of_utf8_utf8 t), E. Qed.

Lemma utf8_cons a s : utf8 (String a s) = byte_of_ascii a :: utf8 s.
Proof. done. Qed.

Lemma string_app_cons a s t : String a s +:+ t = String a (s +:+ t).
Proof. done. Qed.

Lemma utf8_app s t : utf8 (s +:+ t) = utf8 s ++ utf8 t.
Proof. induction s as [|a s IH]; [done|]. by rewrite string_app_cons, !utf8_cons, IH. Qed.

Lemma string_app_assoc s t u : (s +:+ t) +:+ u = s +:+ (t +:+ u).
Proof. apply utf8_inj. by rewrite !utf8_app, app_assoc. Qed.

Lemma string_app_cancel_l s t u : s +:+ t = s +:+ u → t = u.
Proof.
  intros E. apply (f_equal utf8) in E. rewrite !utf8_app in E. by apply app_inv_head, utf8_inj in E.
Qed.

Lemma string_app_cancel_r s t u : s +:+ u = t +:+ u → s = t.
Proof.
  intros E. apply (f_equal utf8) in E. rewrite !utf8_app in E. by apply app_inv_tail, utf8_inj in E.
Qed.

(** [buf.toString("utf8")]: the WHATWG decoder, which replaces each maximal
    ill-formed subpart by U+FFFD. *)
Definition replacement : list byte := [xef; xbf; xbd].
Definition in_range (b : byte) (lo hi : Z) : bool := (lo <=? u8 b) && (u8 b <=? hi).
(** The number of continuation bytes a lead byte announces and the range of
    the first of them. *)
Definition utf8_lead (b : byte) : option (nat * Z * Z) :=
  if in_range b 0xc2 0xdf then Some (1%nat, 0x80, 0xbf)
  else if in_range b 0xe0 0xe0 then Some (2%nat, 0xa0, 0xbf)
  else if in_range b 0xed 0xed then Some (2%nat, 0x80, 0x9f)
  else if in_range b 0xe1 0xef then Some (2%nat, 0x80, 0xbf)
  else if in_range b 0xf0 0xf0 then Some (3%nat, 0x90, 0xbf)
  else if in_range b 0xf4 0xf4 then Some (3%nat, 0x80, 0x8f)
  else if in_range b 0xf1 0xf3 then Some (3%nat, 0x80, 0xbf)
  else None.

Fixpoint utf8_decode (l : list byte) : list byte :=
  match l with
  | [] => []
  | b0 :: l1 =>
      if u8 b0 <? 128 then b0 :: utf8_decode l1
      else match utf8_lead b0, l1 with
      | None, _ => replacement ++ utf8_decode l1
      | Some _, [] => replacement
      | Some (n, lo, hi), b1 :: l2 =>
          if negb (in_range b1 lo hi) then replacement ++ utf8_decode l1
          else match n, l2 with
          | 1%nat, _ => b0 :: b1 :: utf8_decode l2
          | _, [] => replacement
          | _, b2 :: l3 =>
              if negb (in_range b2 0x80 0xbf) then replacement ++ utf8_decode l2
              else match n, l3 with
              | 2%nat, _ => b0 :: b1 :: b2 :: utf8_decode l3
              | _, [] => replacement
              | _, b3 :: l4 =>
                  if negb (in_range b3 0x80 0xbf) then replacement ++ utf8_decode l3
                  else b0 :: b1 :: b2 :: b3 :: utf8_decode l4
              end
          end
      end
  end.

Definition toString_utf8 (l : list byte) : string := of_utf8 (utf8_decode l).

Definition ascii_bytes (l : list byte) : Prop := Forall (λ b, u8 b < 128) l.

Lemma utf8_decode_ascii l : ascii_bytes l → utf8_decode l = l.
Proof.
  induction 1 as [|b l Hb _ IH]; [done|]. cbn [utf8_decode].
  rewrite (proj2 (Z.ltb_lt _ _) Hb). by rewrite IH.
Qed.

(** A text that decodes to ASCII was that ASCII text. *)
Lemma utf8_decode_ascii_inv l : ascii_bytes (utf8_decode l) → utf8_decode l = l.
Proof.
  induction l as [|b l IH]; [done|]. cbn [utf8_decode].
  destruct (u8 b <? 128) eqn:Hb.
  - intros H. apply Forall_cons in H as [_ H]. by rewrite IH.
  - apply Z.ltb_ge in Hb. unfold replacement. intros H. exfalso.
    repeat match type of H with
    | ascii_bytes (if ?c then _ else _) => destruct c
    | ascii_bytes (match ?c with _ => _ end) => destruct c
    end; apply Forall_inv in H; (lia || (vm_compute in H; discriminate H)).
Qed.

(** ** Hex: [buf.toString("hex")] and [Buffer.from(s, "hex")] *)
Definition hex_digit (d : Z) : ascii :=
  ascii_of_nat (Z.to_nat (if d <? 10 then 48 + d else 87 + d)).

Definition hex_val (a : ascii) : option Z :=
  let c := Z.of_nat (nat_of_ascii a) in
  if (48 <=? c) && (c <=? 57) then Some (c - 48)
  else if (97 <=? c) && (c <=? 102) then Some (c - 87)
  else if (65 <=? c) && (c <=? 70) then Some (c - 55)
  else None.

Fixpoint toHex (l : list byte) : string :=
  match l with
  | [] => ""
  | b :: l' => String (hex_digit (u8 b `div` 16)) (String (hex_digit (u8 b `mod` 16)) (toHex l'))
  end.

(** Decoding stops at the first pair that is not two hex digits. *)
Fixpoint fromHex (s : string) : list byte :=
  match s with
  | String a (String b s') =>
      match hex_val a, hex_val b with
      | Some x, Some y => to_byte (x * 16 + y) :: fromHex s'
      | _, _ => []
      end
  | _ => []
  end.

Definition is_lower_hex (a : ascii) : bool :=
  let c := Z.of_nat (nat_of_ascii a) in
  ((48 <=? c) && (c <=? 57)) || ((97 <=? c) && (c <=? 102)).

Fixpoint string_forallb (p : ascii → bool) (s : string) : bool :=
  match s with
  | EmptyString => true
  | String a s' => p a && string_forallb p s'
  end.

(** [/^[0-9a-f]{64}$/.test(s)] *)
Definition is_hex64 (s : string) : bool :=
  (String.length s =? 64)%nat && string_forallb is_lower_hex s.

Lemma fromHex_toHex l : fromHex (toHex l) = l.
Proof.
  induction l as [|b l IH]; [done|].
  cbn [toHex fromHex]. rewrite IH.
  assert (hex_val (hex_digit (u8 b `div` 16)) = Some (u8 b `div` 16)) as -> by by destruct b.
  assert (hex_val (hex_digit (u8 b `mod` 16)) = Some (u8 b `mod` 16)) as -> by by destruct b.
  f_equal. rewrite Z.mul_comm, <-Z.div_mod by lia. apply to_byte_u8.
Qed.

#[export] Instance toHex_inj : Inj (=) (=) toHex.
Proof. intros l k E. rewrite <-(fromHex_toHex l), <-(fromHex_toHex k). by rewrite E. Qed.

Lemma toHex_length l : String.length (toHex l) = (2 * length l)%nat.
Proof. induction l; cbn [toHex String.length length]; lia. Qed.

Lemma toHex_lower l : string_forallb is_lower_hex (toHex l) = true.
Proof.
  induction l as [|b l IH]; [done|]. cbn [toHex string_forallb]. rewrite IH.
  by destruct b.
Qed.

Lemma is_hex64_toHex l : length l = 32%nat → is_hex64 (toHex l) = true.
Proof. intros H. unfold is_hex64. by rewrite toHex_length, toHex_lower, H. Qed.

Lemma hex_val_lower a : is_lower_hex a = true →
  ∃ d, hex_val a = Some d ∧ 0 ≤ d < 16 ∧ hex_digit d = a.
Proof.
  intros H. destruct a as [[] [] [] [] [] [] [] []]; vm_compute in H; try discriminate H;
    (eexists; split; [vm_compute; reflexivity|split; [lia|reflexivity]]).
Qed.

Lemma toHex_fromHex n s :
  String.length s = (2 * n)%nat → string_forallb is_lower_hex s = true →
  toHex (fromHex s) = s ∧ length (fromHex s) = n.
Proof.
  revert s. induction n as [|n IH]; intros s Hl Hs.
  - by destruct s.
  - destruct s as [|a [|b s]]; cbn in Hl; try lia.
    cbn [string_forallb] in Hs. apply andb_true_iff in Hs as [Ha Hs].
    apply andb_true_iff in Hs as [Hb Hs].
    destruct (hex_val_lower a Ha) as (x & Hx & ? & <-).
    destruct (hex_val_lower b Hb) as (y & Hy & ? & <-).
    cbn [fromHex]. rewrite Hx, Hy. destruct (IH s) as [E L]; [lia|done|].
    cbn [toHex length]. rewrite E, L. split; [|done].
    rewrite u8_to_byte_small by lia.
    rewrite <-(Z.div_unique (x * 16 + y) 16 x y), <-(Z.mod_unique (x * 16 + y) 16 x y) by lia.
    done.
Qed.

Lemma toHex_fromHex64 s : is_hex64 s = true → toHex (fromHex s) = s ∧ length (fromHex s) = 32%nat.
Proof. intros H. unfold is_hex64 in H. to_prop. destruct H. by apply toHex_fromHex. Qed.

(** A hex digit of either case. *)
Definition is_hex_digit (a : ascii) : bool := match hex_val a with Some _ => true | None => false end.
(** [/^[0-9a-f]{64}$/i.test(h)] *)
Definition is_any_hex64 (h : string) : bool := (String.length h =? 64)%nat && string_forallb is_hex_digit h.
(** [/^[0-9a-f]+$/i.test(h)] *)
Definition is_any_hex (h : string) : bool := negb (String.eqb h "") && string_forallb is_hex_digit h.

(** [s.toLowerCase()] of ASCII text. *)
Definition lower (a : ascii) : ascii :=
  let c := Z.of_nat (nat_of_ascii a) in
  if (65 <=? c) && (c <=? 90) then ascii_of_nat (Z.to_nat (c + 32)) else a.
Fixpoint toLowerCase (s : string) : string :=
  match s with EmptyString => EmptyString | String a s' => String (lower a) (toLowerCase s') end.

Lemma hex_val_lower_case a d : hex_val a = Some d → lower a = hex_digit d ∧ 0 ≤ d < 16.
Proof. by destruct a as [[] [] [] [] [] [] [] []]; intros [= <-]. Qed.

(** Hex text of even length and either case is the hex of its bytes, in lower
    case. *)
Lemma toLowerCase_fromHex n s :
  String.length s = (2 * n)%nat → string_forallb is_hex_digit s = true →
  toLowerCase s = toHex (fromHex s) ∧ length (fromHex s) = n.
Proof.
  revert s. induction n as [|n IH]; intros s Hl Hs.
  - by destruct s.
  - destruct s as [|a [|b s]]; cbn in Hl; try lia.
    cbn [string_forallb] in Hs. unfold is_hex_digit at 1 2 in Hs.
    destruct (hex_val a) as [x|] eqn:Hx, (hex_val b) as [y|] eqn:Hy; try done. cbn in Hs.
    destruct (IH s) as [E L]; [lia|done|]. cbn [fromHex toLowerCase]. rewrite Hx, Hy. cbn [toHex length].
    destruct (hex_val_lower_case _ _ Hx) as [-> ?], (hex_val_lower_case _ _ Hy) as [-> ?]. rewrite E, L.
    split; [|done]. rewrite u8_to_byte_small by lia.
    by rewrite <-(Z.div_unique (x * 16 + y) 16 x y), <-(Z.mod_unique (x * 16 + y) 16 x y) by lia.
Qed.

Lemma toLowerCase_fromHex64 s :
  is_any_hex64 s = true → toLowerCase s = toHex (fromHex s) ∧ length (fromHex s) = 32%nat.
Proof. intros H. unfold is_any_hex64 in H. to_prop. destruct H. by apply toLowerCase_fromHex. Qed.

(** ** Joining and splitting *)

(** No character [c] in the string. *)
Definition free (c : ascii) (s : string) : bool :=
  string_forallb (λ a, negb (Ascii.eqb a c)) s.

Lemma free_cons c a s : free c (String a s) = true ↔ a ≠ c ∧ free c s = true.
Proof.
  unfold free. cbn. by rewrite andb_true_iff, negb_true_iff, Ascii.eqb_neq.
Qed.

Lemma free_split c s s' r r' :
  free c s = true → free c s' = true →
  s +:+ String c r = s' +:+ String c r' → s = s' ∧ r = r'.
Proof.
  revert s'. induction s as [|a s IH]; intros [|a' s'].
  - by intros _ _ [= ->].
  - intros _ [? _]%free_cons [= ? _]. congruence.
  - intros [? _]%free_cons _ [= ? _]. congruence.
  - intros [_ Hs]%free_cons [_ Hs']%free_cons [= -> E]. by destruct (IH s' Hs Hs' E) as [-> ->].
Qed.

Lemma free_not_split c s s' r : free c s = true → s ≠ s' +:+ String c r.
Proof.
  revert s'. induction s as [|a s IH]; intros [|a' s']; try done.
  - intros [? _]%free_cons [= ? _]. congruence.
  - intros [_ Hs]%free_cons [= _ E]. by apply (IH s').
Qed.

Lemma free_app c s t : free c (s +:+ t) = free c s && free c t.
Proof.
  unfold free. induction s as [|a s IH]; [done|].
  change (String a s +:+ t) with (String a (s +:+ t)). cbn [string_forallb]. by rewrite IH, andb_assoc.
Qed.

(** The text after the last separator. *)
Lemma free_split_last c s s' r r' :
  free c r = true → free c r' = true →
  s +:+ String c r = s' +:+ String c r' → s = s' ∧ r = r'.
Proof.
  intros Hr Hr'. revert s'. induction s as [|a s IH]; intros [|a' s'].
  - by intros [= ->].
  - intros [= -> E]. by apply free_not_split in E.
  - intros [= -> E]. symmetry in E. by apply free_not_split in E.
  - intros [= -> E]. by destruct (IH s' E) as [-> ->].
Qed.

(** The characters of a printed integer. *)
Lemma pretty_N_go_forallb p x s :
  (∀ d, p (pretty_N_char d) = true) → string_forallb p s = true → string_forallb p (pretty_N_go x s) = true.
Proof.
  intros Hp. revert s. induction (N.lt_wf_0 x) as [x _ IH]. intros s Hs.
  destruct (decide (0 < x)%N) as [Hx|Hx].
  - rewrite pretty_N_go_step by done. apply IH; [by apply N.div_lt|]. cbn. by rewrite Hp.
  - replace x with 0%N by lia. by rewrite pretty_N_go_0.
Qed.

Lemma pretty_Z_free c (z : Z) :
  c ≠ "-"%char → (∀ d, pretty_N_char d ≠ c) → free c (pretty z) = true.
Proof.
  intros Hm Hd. assert (∀ x : N, free c (pretty x) = true) as HN.
  { assert (∀ d, negb (Ascii.eqb (pretty_N_char d) c) = true) as Hd'.
    { intros d. by apply negb_true_iff, Ascii.eqb_neq. }
    intros x. unfold pretty, pretty_N, free. case_decide; [|by apply pretty_N_go_forallb].
    pose proof (Hd' 0%N) as H0. change (pretty_N_char 0) with "0"%char in H0. cbn [string_forallb]. by rewrite H0. }
  unfold pretty, pretty_Z. destruct z; [apply (HN 0%N)|apply (HN (N.pos p))|].
  rewrite free_app. apply andb_true_iff. split; [|apply (HN (N.pos p))].
  unfold free. cbn [string_forallb]. rewrite andb_true_r. by apply negb_true_iff, Ascii.eqb_neq.
Qed.

Lemma concat_cons c x y l :
  String.concat (String c "") (x :: y :: l) = x +:+ String c (String.concat (String c "") (y :: l)).
Proof. done. Qed.

(** Lists of strings without the separator are determined by their join. *)
Lemma concat_inj c l l' :
  Forall (λ s, free c s = true) l → Forall (λ s, free c s = true) l' → l ≠ [] → l' ≠ [] →
  String.concat (String c "") l = String.concat (String c "") l' → l = l'.
Proof.
  intros Hl. revert l'. induction Hl as [|x l Hx Hl IH]; intros l' Hl' Hne Hne'; [done|].
  destruct Hl' as [|x' l' Hx' Hl']; [done|].
  destruct l as [|y l], l' as [|y' l']; rewrite ?concat_cons.
  - by intros [= ->].
  - intros E. by apply free_not_split in E.
  - intros E. symmetry in E. by apply free_not_split in E.
  - intros [-> E]%free_split; [|done..]. f_equal. by apply IH.
Qed.

(** ** [s.trim()]

    The white space and line terminators of the language, as the bytes of their
    UTF-8 encodings. *)
Definition space1 (b : byte) : bool := existsb (Z.eqb (u8 b)) [0x09; 0x0a; 0x0b; 0x0c; 0x0d; 0x20].
Definition space2 (b c : byte) : bool := (u8 b =? 0xc2) && (u8 c =? 0xa0).
Definition space3 (b c d : byte) : bool :=
  let code := (u8 b * 256 + u8 c) * 256 + u8 d in
  existsb (Z.eqb code) [0xe19a80; 0xe280a8; 0xe280a9; 0xe280af; 0xe2819f; 0xe38080; 0xefbbbf]
  || ((0xe28080 <=? code) && (code <=? 0xe2808a)).

(** Drops white space at the head of a buffer, or of a reversed one. *)
Fixpoint trim_with (s2 : byte → byte → bool) (s3 : byte → byte → byte → bool) (l : list byte) : list byte :=
  match l with
  | [] => []
  | b :: l1 =>
      if space1 b then trim_with s2 s3 l1
      else match l1 with
           | [] => l
           | c :: l2 =>
               if s2 b c then trim_with s2 s3 l2
               else match l2 with
                    | [] => l
                    | d :: l3 => if s3 b c d then trim_with s2 s3 l3 else l
                    end
           end
  end.

Definition js_trim (s : string) : string :=
  let front := trim_with space2 space3 (utf8 s) in
  of_utf8 (reverse (trim_with (λ c b, space2 b c) (λ d c b, space3 b c d) (reverse front))).

(** ** Byte strings as digests *)
Definition bytes_eqb (a b : list byte) : bool := bool_decide (a = b).

#[export] Hint Rewrite be_bytes_length u64be_length blen_app blen_cons blen_nil blen_u64be blen_zeros
  : cove_len.
#[export] Hint Resolve u8_range be_value_range : cove.
