(* ===== verification/Curve.v ===== *)
(** * The 210-stair curve: packages/curve

    [constants.ts], [prices.ts], [fees.ts], [quote.ts] and [raise.ts].  Display
    tokens, satoshis and stages are unbounded integers ([bigint]); a stage is
    an integer by type, so the [Number.isInteger] tests are omitted. *)
From S2P Require Import Prelude.

(** ** constants.ts *)
Definition DECIMALS : Z := 8.
Definition ATOMS_PER_TOKEN : Z := 10 ^ DECIMALS.
Definition TOTAL_SUPPLY_TOKENS : Z := 21000000.
Definition PUBLIC_SUPPLY_TOKENS : Z := 21000000.
Definition GRADUATION_RESERVE_TOKENS : Z := 0.
Definition STAGE_COUNT : Z := 210.
Definition TOKENS_PER_STAGE : Z := 100000.
Definition LOT_TOKENS : Z := 1000.
Definition LOT_BASE_SATS : Z := 27.
Definition LOT_STEP_SATS : Z := 27.
Definition PRICE_UNIT_TOKENS : Z := 1000000.
Definition TOTAL_SUPPLY_ATOMS : Z := TOTAL_SUPPLY_TOKENS * ATOMS_PER_TOKEN.
Definition PUBLIC_SUPPLY_ATOMS : Z := PUBLIC_SUPPLY_TOKENS * ATOMS_PER_TOKEN.
Definition GRADUATION_RESERVE_ATOMS : Z := GRADUATION_RESERVE_TOKENS * ATOMS_PER_TOKEN.
Definition MIN_CONTRIBUTION_SATS : Z := 1000.

Definition STAGE_PRICES_SATS_PER_MILLION : list Z :=
  (λ i, (LOT_BASE_SATS + LOT_STEP_SATS * i) * Z.quot PRICE_UNIT_TOKENS LOT_TOKENS)
    <$> seqZ 0 STAGE_COUNT.

(** [STAGE_PRICES[i]]: [undefined] out of range. *)
Definition stage_price_at (i : Z) : option Z :=
  if i <? 0 then None else STAGE_PRICES_SATS_PER_MILLION !! Z.to_nat i.

(** ** fees.ts *)
Definition ceilDiv (numerator denominator : Z) : result Z :=
  throw_if (denominator =? 0) (js_error "Division by zero.");;
  throw_if ((numerator <? 0) || (denominator <? 0)) (js_error "ceilDiv requires non-negative inputs.");;
  if numerator =? 0 then Ok 0
  else Ok (Z.quot (numerator + denominator - 1) denominator).

Definition computePlatformFee (curveContributionSats feeBps : Z) : result Z :=
  throw_if (feeBps <? 0) (js_error "feeBps must be non-negative.");;
  throw_if (curveContributionSats <? 0) (js_error "curveContributionSats must be non-negative.");;
  if (curveContributionSats =? 0) || (feeBps =? 0) then Ok 0
  else ceilDiv (curveContributionSats * feeBps) 10000.

Definition getMinimumContribution (estimatedMinerFeeSats : Z) : Z :=
  let floor := 1000 in
  let dynamic := estimatedMinerFeeSats * 5 in
  if floor <? dynamic then dynamic else floor.

(** ** prices.ts *)
Definition curve_error := coded ECurveError.

Definition getStageForSupply (supply : Z) : result Z :=
  throw_if (supply <? 0) (curve_error "NEGATIVE_SUPPLY" "Supply cannot be negative.");;
  if PUBLIC_SUPPLY_TOKENS <=? supply then Ok STAGE_COUNT
  else let stage := Z.quot supply TOKENS_PER_STAGE + 1 in
       Ok (Z.min stage STAGE_COUNT).

Definition invalid_stage : exn :=
  curve_error "INVALID_STAGE"
    ("Stage must be an integer between 1 and " +:+ pretty STAGE_COUNT +:+ ".").

Definition getStagePrice (stage : Z) : result Z :=
  throw_if ((stage <? 1) || (STAGE_COUNT <? stage)) invalid_stage;;
  of_option (Exn ETypeError None "undefined price") (stage_price_at (stage - 1)).

Record SupplyRange := { range_start : Z; range_end : Z }.

Definition getStageSupplyRange (stage : Z) : result SupplyRange :=
  throw_if ((stage <? 1) || (STAGE_COUNT <? stage)) invalid_stage;;
  Ok {| range_start := (stage - 1) * TOKENS_PER_STAGE; range_end := stage * TOKENS_PER_STAGE |}.

(** ** quote.ts *)
Record QuoteResult := {
  tokens : Z;
  curveContributionSats : Z;
  startingStage : Z;
  endingStage : Z;
  supplyBefore : Z;
  supplyAfter : Z;
}.

Definition assertSupply (supply : Z) : result unit :=
  throw_if (supply <? 0) (curve_error "NEGATIVE_SUPPLY" "Supply cannot be negative.");;
  throw_if (PUBLIC_SUPPLY_TOKENS <=? supply) (curve_error "MINT_SOLD_OUT" "Public mint is sold out.").

(** The loop of [quoteExactTokens]: one iteration per stair, so 212 iterations
    always suffice (at most 210 stairs, the final test, and one to spare). *)
Definition stair_fuel : nat := 212.

Fixpoint quoteExactTokens_loop (fuel : nat) (supply remaining totalSats ending : Z)
    : result (Z * Z * Z) :=
  match fuel with
  | O => Throw out_of_fuel
  | S fuel' =>
      if 0 <? remaining then
        stage ← getStageForSupply supply;
        let stageEnd := stage * TOKENS_PER_STAGE in
        let remainingInStage := stageEnd - supply in
        let chunk := if remaining <? remainingInStage then remaining else remainingInStage in
        price ← getStagePrice stage;
        cost ← ceilDiv (chunk * price) PRICE_UNIT_TOKENS;
        quoteExactTokens_loop fuel' (supply + chunk) (remaining - chunk) (totalSats + cost) stage
      else Ok (supply, totalSats, ending)
  end.

Definition quoteExactTokens (desiredTokens currentSupply : Z) : result QuoteResult :=
  throw_if (desiredTokens <=? 0) (curve_error "ZERO_QUANTITY" "Desired token quantity must be positive.");;
  assertSupply currentSupply;;
  let remainingPublic := PUBLIC_SUPPLY_TOKENS - currentSupply in
  throw_if (remainingPublic <? desiredTokens)
    (curve_error "EXCEEDS_REMAINING_SUPPLY"
      ("Requested " +:+ pretty desiredTokens +:+ " tokens but only " +:+
       pretty remainingPublic +:+ " remain."));;
  starting ← getStageForSupply currentSupply;
  ' (supply, totalSats, ending) ←
    quoteExactTokens_loop stair_fuel currentSupply desiredTokens 0 starting;
  Ok {| tokens := desiredTokens; curveContributionSats := totalSats;
        startingStage := starting; endingStage := ending;
        supplyBefore := currentSupply; supplyAfter := supply |}.

Fixpoint quoteExactSats_loop (fuel : nat) (supply remainingSats totalTokens ending : Z)
    : result (Z * Z * Z * Z) :=
  match fuel with
  | O => Throw out_of_fuel
  | S fuel' =>
      if (0 <? remainingSats) && (supply <? PUBLIC_SUPPLY_TOKENS) then
        stage ← getStageForSupply supply;
        let stageEnd := stage * TOKENS_PER_STAGE in
        let remainingInStage := stageEnd - supply in
        price ← getStagePrice stage;
        let maxAffordableInStage := Z.quot (remainingSats * PRICE_UNIT_TOKENS) price in
        let chunk := if maxAffordableInStage <? remainingInStage
                     then maxAffordableInStage else remainingInStage in
        if chunk =? 0 then Ok (supply, remainingSats, totalTokens, stage)
        else
          cost ← ceilDiv (chunk * price) PRICE_UNIT_TOKENS;
          quoteExactSats_loop fuel' (supply + chunk) (remainingSats - cost) (totalTokens + chunk) stage
      else Ok (supply, remainingSats, totalTokens, ending)
  end.

Definition quoteExactSats (availableSats currentSupply : Z) : result QuoteResult :=
  throw_if (availableSats <=? 0) (curve_error "ZERO_QUANTITY" "Available sats must be positive.");;
  assertSupply currentSupply;;
  starting ← getStageForSupply currentSupply;
  ' (supply, remainingSats, totalTokens, ending) ←
    quoteExactSats_loop stair_fuel currentSupply availableSats 0 starting;
  Ok {| tokens := totalTokens; curveContributionSats := availableSats - remainingSats;
        startingStage := starting; endingStage := ending;
        supplyBefore := currentSupply; supplyAfter := supply |}.

(** ** raise.ts *)
Definition getTheoreticalFullRaise : Z :=
  foldl (λ total price, total + Z.quot (TOKENS_PER_STAGE * price) 1000000) 0
    STAGE_PRICES_SATS_PER_MILLION.

Definition FULL_RAISE_SATS : Z :=
  foldl (λ acc p, acc + Z.quot (TOKENS_PER_STAGE * p) 1000000) 0
    STAGE_PRICES_SATS_PER_MILLION.

Record PublicMintProgress := { mintedTokens : Z; totalTokens : Z; progress_bps : Z }.

Definition getPublicMintProgress (supply : Z) : PublicMintProgress :=
  let clamped := if supply <? 0 then 0
                 else if PUBLIC_SUPPLY_TOKENS <? supply then PUBLIC_SUPPLY_TOKENS else supply in
  {| mintedTokens := clamped; totalTokens := PUBLIC_SUPPLY_TOKENS;
     progress_bps := Z.quot (clamped * 10000) PUBLIC_SUPPLY_TOKENS |}.

Definition getRemainingPublicSupply (supply : Z) : Z :=
  let remaining := PUBLIC_SUPPLY_TOKENS - supply in
  if remaining <? 0 then 0 else remaining.

Definition FIRST_PRICE : option Z := stage_price_at 0.
Definition LAST_PRICE : option Z := stage_price_at (STAGE_COUNT - 1).

Record CurveConfigInput := {
  cfg_totalSupplyTokens : option Z;
  cfg_publicSupplyTokens : option Z;
  cfg_reserveSupplyTokens : option Z;
  cfg_tokensPerStage : option Z;
  cfg_stagePrices : option (list Z);
}.

(** The messages of the [for] loop over neighbouring prices, from index [i]. *)
Fixpoint price_order_problems (i : Z) (prev : Z) (rest : list Z) : list string :=
  match rest with
  | [] => []
  | cur :: rest' =>
      (if cur <=? prev
       then ["Stage " +:+ pretty (i + 1) +:+ " price must exceed stage " +:+ pretty i +:+ " price."]
       else [])
      ++ price_order_problems (i + 1) cur rest'
  end.

Definition opt_pretty (o : option Z) : string :=
  match o with Some z => pretty z | None => "undefined" end.

Definition validateCurveConfig (input : CurveConfigInput) : list string :=
  let total := default TOTAL_SUPPLY_TOKENS (cfg_totalSupplyTokens input) in
  let publicSupply := default PUBLIC_SUPPLY_TOKENS (cfg_publicSupplyTokens input) in
  let reserve := default GRADUATION_RESERVE_TOKENS (cfg_reserveSupplyTokens input) in
  let tokensPerStage := default TOKENS_PER_STAGE (cfg_tokensPerStage input) in
  let prices := default STAGE_PRICES_SATS_PER_MILLION (cfg_stagePrices input) in
  let fullRaise := foldl (λ acc p, acc + Z.quot (tokensPerStage * p) 1000000) 0 prices in
  (if negb (total =? TOTAL_SUPPLY_TOKENS)
   then ["TOTAL_SUPPLY_TOKENS must be " +:+ pretty TOTAL_SUPPLY_TOKENS +:+ "."] else [])
  ++ (if negb (publicSupply + reserve =? total)
      then ["public + reserve must equal total supply."] else [])
  ++ (if negb (Z.of_nat (length prices) =? STAGE_COUNT)
      then ["Must be exactly " +:+ pretty STAGE_COUNT +:+ " stages."] else [])
  ++ (if negb (bool_decide (prices !! 0%nat = FIRST_PRICE))
      then ["Stage 1 price must be " +:+ opt_pretty FIRST_PRICE +:+ "."] else [])
  ++ (if negb (bool_decide (prices !! 209%nat = LAST_PRICE))
      then ["Stage " +:+ pretty STAGE_COUNT +:+ " price must be " +:+ opt_pretty LAST_PRICE +:+ "."] else [])
  ++ (match prices with [] => [] | p :: rest => price_order_problems 1 p rest end)
  ++ (if negb (fullRaise =? FULL_RAISE_SATS)
      then ["Full raise must be " +:+ pretty FULL_RAISE_SATS +:+ " sats (got " +:+ pretty fullRaise +:+ ")."] else []).

(** ** Facts about one stair *)

(** The price of stair [q], counted from 0. *)
Definition stair_price (q : Z) : Z := 27000 * (q + 1).

Lemma stage_price_at_stair q : 0 ≤ q < STAGE_COUNT → stage_price_at q = Some (stair_price q).
Proof.
  intros Hq. unfold stage_price_at, STAGE_PRICES_SATS_PER_MILLION.
  destruct (Z.ltb_spec q 0) as [?|_]; [lia|].
  rewrite list_lookup_fmap, lookup_seqZ_lt by (unfold STAGE_COUNT in *; lia).
  cbn. f_equal. rewrite Z2Nat.id by lia.
  unfold LOT_BASE_SATS, LOT_STEP_SATS, stair_price.
  change (Z.quot PRICE_UNIT_TOKENS LOT_TOKENS) with 1000. lia.
Qed.

Lemma getStageForSupply_in supply :
  0 ≤ supply < PUBLIC_SUPPLY_TOKENS →
  getStageForSupply supply = Ok (supply `div` TOKENS_PER_STAGE + 1).
Proof.
  unfold getStageForSupply, PUBLIC_SUPPLY_TOKENS, TOKENS_PER_STAGE, STAGE_COUNT. intros H.
  guard_step lia. destruct (Z.leb_spec 21000000 supply); [lia|].
  rewrite quot_div by lia. f_equal. apply Z.min_l.
  pose proof (Z.div_lt_upper_bound supply 100000 210). lia.
Qed.

Lemma getStagePrice_in q :
  0 ≤ q < STAGE_COUNT → getStagePrice (q + 1) = Ok (stair_price q).
Proof.
  intros H. unfold getStagePrice. unfold STAGE_COUNT in *. guard_step lia.
  replace (q + 1 - 1) with q by lia. by rewrite stage_price_at_stair.
Qed.

Lemma ceilDiv_spec n d : 0 ≤ n → 0 < d → ceilDiv n d = Ok (cdiv n d).
Proof.
  intros. unfold ceilDiv. guard_step lia. guard_step lia.
  destruct (Z.eqb_spec n 0) as [->|?].
  - done.
  - f_equal. apply cdiv_quot; lia.
Qed.

(** ** The reserve as a closed form

    [curve_reserve s] is the cost of the first [s] tokens: the full stairs
    below [s] and the rounded-up part of the stair [s] stands on. *)
Definition curve_reserve (s : Z) : Z :=
  let q := s `div` TOKENS_PER_STAGE in
  1350 * q * (q + 1) + cdiv (s `mod` TOKENS_PER_STAGE * stair_price q) PRICE_UNIT_TOKENS.

(** Supplies whose part of the current stair costs a whole number of sats. *)
Definition stair_exact (s : Z) : Prop :=
  (s `mod` TOKENS_PER_STAGE * stair_price (s `div` TOKENS_PER_STAGE)) `mod` PRICE_UNIT_TOKENS = 0.

Lemma lots_exact s : 0 ≤ s → s `mod` LOT_TOKENS = 0 → stair_exact s.
Proof.
  unfold stair_exact, LOT_TOKENS, TOKENS_PER_STAGE, PRICE_UNIT_TOKENS, stair_price. intros Hs Hl.
  set (q := s `div` 100000). set (r := s `mod` 100000).
  assert (s = 100000 * q + r) as E by (apply Z.div_mod; lia).
  assert (r `mod` 1000 = 0) as Hr.
  { rewrite E in Hl. replace (100000 * q + r) with (r + (100 * q) * 1000) in Hl by lia.
    by rewrite Z.mod_add in Hl. }
  apply Z.mod_divide in Hr as [k ->]; [|lia].
  replace (k * 1000 * (27000 * (q + 1))) with ((27 * k * (q + 1)) * 1000000) by lia.
  by rewrite Z.mod_mul.
Qed.

Lemma boundary_exact q : 0 ≤ q → stair_exact (q * TOKENS_PER_STAGE).
Proof.
  intros. apply lots_exact; unfold TOKENS_PER_STAGE, LOT_TOKENS; [lia|].
  replace (q * 100000) with ((q * 100) * 1000) by lia. by rewrite Z.mod_mul.
Qed.

(** Moving [chunk] tokens up a stair from an exact supply costs exactly the
    rounded price of the chunk. *)
Lemma curve_reserve_step s chunk :
  0 ≤ s → 0 ≤ chunk → s `mod` TOKENS_PER_STAGE + chunk ≤ TOKENS_PER_STAGE → stair_exact s →
  curve_reserve (s + chunk)
  = curve_reserve s + cdiv (chunk * stair_price (s `div` TOKENS_PER_STAGE)) PRICE_UNIT_TOKENS.
Proof.
  unfold curve_reserve, stair_exact, TOKENS_PER_STAGE, PRICE_UNIT_TOKENS. intros Hs Hc Hle Hex.
  set (q := s `div` 100000) in *. set (r := s `mod` 100000) in *.
  assert (s = 100000 * q + r) as E by (apply Z.div_mod; lia).
  pose proof (Z.mod_pos_bound s 100000 ltac:(lia)) as Hr. fold r in Hr.
  apply Z.mod_divide in Hex as [k Hk]; [|lia].
  rewrite Hk, cdiv_exact by lia.
  destruct (decide (r + chunk = 100000)) as [Hfull|Hpart].
  - rewrite <-(Z.div_unique (s + chunk) 100000 (q + 1) 0), <-(Z.mod_unique (s + chunk) 100000 (q + 1) 0) by lia.
    assert (chunk * stair_price q = (2700 * (q + 1) - k) * 1000000) as ->.
    { replace chunk with (100000 - r) by lia. unfold stair_price in *. lia. }
    rewrite cdiv_exact by lia.
    change (cdiv (0 * _) 1000000) with (cdiv 0 1000000).
    change (cdiv 0 1000000) with 0. lia.
  - rewrite <-(Z.div_unique (s + chunk) 100000 q (r + chunk)), <-(Z.mod_unique (s + chunk) 100000 q (r + chunk)) by lia.
    rewrite Z.mul_add_distr_r, Hk, (Z.add_comm (k * _)), cdiv_add_exact by lia. lia.
Qed.

(** The cost of [t] tokens from any supply [s]: the rest of the current
    stair, rounded up on its own, then the difference of two reserves. *)
Definition stair_cost (s t : Z) : Z :=
  let q := s `div` TOKENS_PER_STAGE in
  let e := (q + 1) * TOKENS_PER_STAGE in
  if s + t <=? e then cdiv (t * stair_price q) PRICE_UNIT_TOKENS
  else cdiv ((e - s) * stair_price q) PRICE_UNIT_TOKENS + (curve_reserve (s + t) - curve_reserve e).

Lemma stair_bounds s :
  let q := s `div` TOKENS_PER_STAGE in
  q * TOKENS_PER_STAGE ≤ s < (q + 1) * TOKENS_PER_STAGE
  ∧ s `mod` TOKENS_PER_STAGE = s - q * TOKENS_PER_STAGE.
Proof.
  unfold TOKENS_PER_STAGE. cbn zeta.
  pose proof (Z.div_mod s 100000 ltac:(lia)). pose proof (Z.mod_pos_bound s 100000 ltac:(lia)). lia.
Qed.

Lemma stair_next s :
  0 ≤ s → ((s `div` TOKENS_PER_STAGE + 1) * TOKENS_PER_STAGE) `div` TOKENS_PER_STAGE
          = s `div` TOKENS_PER_STAGE + 1.
Proof. intros. by rewrite Z.div_mul. Qed.

Lemma stair_cost_exact s t :
  0 ≤ s → 0 ≤ t → stair_exact s → stair_cost s t = curve_reserve (s + t) - curve_reserve s.
Proof.
  intros Hs Ht Hex. unfold stair_cost. destruct (stair_bounds s) as [Hb Hm].
  destruct (Z.leb_spec (s + t) ((s `div` TOKENS_PER_STAGE + 1) * TOKENS_PER_STAGE)).
  - rewrite curve_reserve_step by (done || lia). lia.
  - set (e := (s `div` TOKENS_PER_STAGE + 1) * TOKENS_PER_STAGE) in *.
    assert (e = s `div` TOKENS_PER_STAGE * TOKENS_PER_STAGE + TOKENS_PER_STAGE) as He by (unfold e; lia).
    pose proof (curve_reserve_step s (e - s) Hs) as Hstep.
    replace (s + (e - s)) with e in Hstep by lia.
    rewrite Hstep by (done || lia). lia.
Qed.

Lemma stair_cost_next s t :
  0 ≤ s → 0 ≤ t →
  let e := (s `div` TOKENS_PER_STAGE + 1) * TOKENS_PER_STAGE in
  e ≤ s + t → stair_cost s t
              = cdiv ((e - s) * stair_price (s `div` TOKENS_PER_STAGE)) PRICE_UNIT_TOKENS
                + stair_cost e (s + t - e).
Proof.
  intros Hs Ht e He. destruct (stair_bounds s) as [Hb _].
  rewrite (stair_cost_exact e) by (try (apply boundary_exact); unfold e in *; unfold TOKENS_PER_STAGE in *; lia).
  replace (e + (s + t - e)) with (s + t) by lia.
  unfold stair_cost. fold e. destruct (Z.leb_spec (s + t) e); [|done].
  replace (s + t) with e by lia. replace t with (e - s) by lia. lia.
Qed.

Lemma stair_cost_zero s : stair_cost s 0 = 0.
Proof.
  unfold stair_cost. destruct (stair_bounds s) as [Hb _].
  destruct (Z.leb_spec (s + 0) ((s `div` TOKENS_PER_STAGE + 1) * TOKENS_PER_STAGE)); [|lia].
  rewrite Z.mul_0_l. done.
Qed.

Lemma stair_index s : 0 ≤ s < PUBLIC_SUPPLY_TOKENS → 0 ≤ s `div` TOKENS_PER_STAGE < STAGE_COUNT.
Proof.
  intros H. destruct (stair_bounds s) as [Hb _].
  unfold TOKENS_PER_STAGE, STAGE_COUNT, PUBLIC_SUPPLY_TOKENS in *. lia.
Qed.

Lemma stair_price_pos q : 0 ≤ q → 0 < stair_price q.
Proof. unfold stair_price. lia. Qed.

(** One iteration of the quote loop, with the stage helpers evaluated. *)
Lemma quoteExactTokens_loop_step fuel s rem cost en :
  0 ≤ s < PUBLIC_SUPPLY_TOKENS → 0 < rem →
  let q := s `div` TOKENS_PER_STAGE in
  let e := (q + 1) * TOKENS_PER_STAGE in
  let chunk := Z.min rem (e - s) in
  quoteExactTokens_loop (S fuel) s rem cost en
  = quoteExactTokens_loop fuel (s + chunk) (rem - chunk)
      (cost + cdiv (chunk * stair_price q) PRICE_UNIT_TOKENS) (q + 1).
Proof.
  intros Hs Hr q e chunk. pose proof (stair_index s Hs) as Hq. fold q in Hq.
  pose proof (stair_price_pos q ltac:(lia)). destruct (stair_bounds s) as [Hb _]. fold q e in Hb.
  cbn [quoteExactTokens_loop]. destruct (Z.ltb_spec 0 rem); [|lia].
  rewrite getStageForSupply_in by done. fold q. step_ok.
  rewrite getStagePrice_in by done. step_ok. fold e.
  assert ((if rem <? e - s then rem else e - s) = chunk) as ->.
  { unfold chunk. destruct (Z.ltb_spec rem (e - s)); lia. }
  rewrite ceilDiv_spec by (unfold PRICE_UNIT_TOKENS; nia). done.
Qed.

Lemma quoteExactTokens_loop_spec fuel s rem cost en :
  0 ≤ s → 0 ≤ rem → s + rem ≤ PUBLIC_SUPPLY_TOKENS →
  211 - s `div` TOKENS_PER_STAGE ≤ Z.of_nat fuel ∨ (rem = 0 ∧ fuel ≠ O) →
  quoteExactTokens_loop fuel s rem cost en
  = Ok (s + rem, cost + stair_cost s rem,
        if rem =? 0 then en else (s + rem - 1) `div` TOKENS_PER_STAGE + 1).
Proof.
  revert s rem cost en. induction fuel as [|fuel IH]; intros s rem cost en Hs Hr Hmax Hf.
  { destruct Hf as [Hf|[_ Hf]]; [|done].
    pose proof (Z.div_le_upper_bound s TOKENS_PER_STAGE 210) as B.
    unfold TOKENS_PER_STAGE, PUBLIC_SUPPLY_TOKENS in *. lia. }
  destruct (decide (rem = 0)) as [->|Hne].
  { cbn. rewrite stair_cost_zero. repeat f_equal; lia. }
  destruct Hf as [Hf|[? _]]; [|lia].
  rewrite quoteExactTokens_loop_step by lia.
  set (q := s `div` TOKENS_PER_STAGE) in *. set (e := (q + 1) * TOKENS_PER_STAGE) in *.
  destruct (stair_bounds s) as [Hb _]. fold q e in Hb.
  destruct (decide (rem ≤ e - s)) as [Hlast|Hmore].
  - rewrite Z.min_l by lia. rewrite IH; [|lia..|].
    2:{ right. split; [lia|]. pose proof (stair_index s ltac:(lia)).
        unfold q, STAGE_COUNT in *. lia. }
    replace (rem - rem) with 0 by lia. rewrite Z.add_0_r, stair_cost_zero, Z.add_0_r.
    rewrite Z.eqb_refl. destruct (Z.eqb_spec rem 0); [lia|].
    unfold stair_cost. fold q e. destruct (Z.leb_spec (s + rem) e); [|lia].
    assert ((s + rem - 1) `div` TOKENS_PER_STAGE = q) as ->; [|done].
    symmetry. apply Z.div_unique with (r := s + rem - 1 - q * TOKENS_PER_STAGE);
      unfold e, TOKENS_PER_STAGE in *; lia.
  - rewrite Z.min_r by lia. replace (s + (e - s)) with e by lia.
    rewrite IH; [|unfold e, TOKENS_PER_STAGE in *; lia..|].
    2:{ left. unfold e. rewrite Z.div_mul by done. lia. }
    rewrite (stair_cost_next s rem) by (done || (fold q e; lia)). fold q e.
    replace (s + rem - e) with (rem - (e - s)) by lia.
    destruct (Z.eqb_spec (rem - (e - s)) 0); [lia|]. destruct (Z.eqb_spec rem 0); [lia|].
    replace (e + (rem - (e - s))) with (s + rem) by lia. by rewrite Z.add_assoc.
Qed.

Lemma stair_fuel_enough s : 0 ≤ s → 211 - s `div` TOKENS_PER_STAGE ≤ Z.of_nat stair_fuel.
Proof.
  intros. pose proof (Z.div_pos s TOKENS_PER_STAGE ltac:(lia) ltac:(done)).
  change (Z.of_nat stair_fuel) with 212. lia.
Qed.

(** Proofs about the loops never unfold the fuel. *)
#[global] Opaque stair_fuel.

Lemma quoteExactTokens_valid t s :
  0 < t → 0 ≤ s → s + t ≤ PUBLIC_SUPPLY_TOKENS →
  quoteExactTokens t s
  = Ok {| tokens := t; curveContributionSats := stair_cost s t;
          startingStage := s `div` TOKENS_PER_STAGE + 1;
          endingStage := (s + t - 1) `div` TOKENS_PER_STAGE + 1;
          supplyBefore := s; supplyAfter := s + t |}.
Proof.
  intros Ht Hs Hmax. unfold quoteExactTokens, assertSupply.
  repeat guard_step lia.
  rewrite getStageForSupply_in by lia. step_ok.
  rewrite quoteExactTokens_loop_spec by (lia || (left; by apply stair_fuel_enough)).
  step_ok. destruct (Z.eqb_spec t 0); [lia|]. by rewrite Z.add_0_l.
Qed.

(** ** quoteExactSats *)

Lemma stair_index_nonneg s : 0 ≤ s → 0 ≤ s `div` TOKENS_PER_STAGE.
Proof. intros. by apply Z.div_pos. Qed.

Lemma stair_index_unique a q :
  q * TOKENS_PER_STAGE ≤ a < (q + 1) * TOKENS_PER_STAGE →
  a `div` TOKENS_PER_STAGE = q ∧ a `mod` TOKENS_PER_STAGE = a - q * TOKENS_PER_STAGE.
Proof.
  intros H. split; symmetry.
  - apply Z.div_unique with (r := a - q * TOKENS_PER_STAGE); unfold TOKENS_PER_STAGE in *; lia.
  - apply Z.mod_unique with (q := q); unfold TOKENS_PER_STAGE in *; lia.
Qed.

Lemma curve_reserve_succ a : 0 ≤ a → curve_reserve a ≤ curve_reserve (a + 1).
Proof.
  intros Ha. unfold curve_reserve. destruct (stair_bounds a) as [Hb Hm]. rewrite Hm.
  pose proof (stair_index_nonneg a Ha) as Hq0.
  set (q := a `div` TOKENS_PER_STAGE) in *. pose proof (stair_price_pos q Hq0).
  destruct (decide (a + 1 = (q + 1) * TOKENS_PER_STAGE)) as [->|Hne].
  - rewrite Z.div_mul, Z.mod_mul by done.
    change (cdiv (0 * _) PRICE_UNIT_TOKENS) with 0.
    assert (cdiv ((a - q * TOKENS_PER_STAGE) * stair_price q) PRICE_UNIT_TOKENS ≤ 2700 * (q + 1)).
    { apply cdiv_le; [done|]. unfold stair_price, TOKENS_PER_STAGE, PRICE_UNIT_TOKENS in *. nia. }
    lia.
  - destruct (stair_index_unique (a + 1) q) as [-> ->]; [lia|].
    assert (cdiv ((a - q * TOKENS_PER_STAGE) * stair_price q) PRICE_UNIT_TOKENS
            ≤ cdiv ((a + 1 - q * TOKENS_PER_STAGE) * stair_price q) PRICE_UNIT_TOKENS); [|lia].
    apply cdiv_mono; [done|]. nia.
Qed.

Lemma curve_reserve_mono a b : 0 ≤ a ≤ b → curve_reserve a ≤ curve_reserve b.
Proof.
  intros [Ha Hab]. replace b with (a + (b - a)) by lia.
  generalize (b - a) (Zle_minus_le_0 _ _ Hab). clear b Hab.
  refine (natlike_ind _ _ _); [by rewrite Z.add_0_r|].
  intros n Hn IH. etransitivity; [exact IH|].
  replace (a + Z.succ n) with (a + n + 1) by lia. apply curve_reserve_succ. lia.
Qed.

(** The first token of a stair costs at least one satoshi. *)
Lemma curve_reserve_boundary q : 0 ≤ q →
  curve_reserve (q * TOKENS_PER_STAGE) < curve_reserve (q * TOKENS_PER_STAGE + 1).
Proof.
  intros Hq. pose proof (stair_price_pos q Hq).
  rewrite curve_reserve_step; [|unfold TOKENS_PER_STAGE; lia|lia| |by apply boundary_exact].
  2:{ by rewrite Z.mod_mul. }
  rewrite Z.div_mul by done. rewrite Z.mul_1_l.
  enough (0 < cdiv (stair_price q) PRICE_UNIT_TOKENS) by lia.
  pose proof (cdiv_bounds (stair_price q) PRICE_UNIT_TOKENS eq_refl).
  unfold PRICE_UNIT_TOKENS in *. lia.
Qed.

(** One iteration of the loop, on a supply that is not sold out. *)
Lemma quoteExactSats_loop_step fuel s rs tot en :
  0 ≤ s < PUBLIC_SUPPLY_TOKENS → 0 < rs →
  let q := s `div` TOKENS_PER_STAGE in
  let e := (q + 1) * TOKENS_PER_STAGE in
  let chunk := Z.min ((rs * PRICE_UNIT_TOKENS) `div` stair_price q) (e - s) in
  quoteExactSats_loop (S fuel) s rs tot en
  = if chunk =? 0 then Ok (s, rs, tot, q + 1)
    else quoteExactSats_loop fuel (s + chunk)
           (rs - cdiv (chunk * stair_price q) PRICE_UNIT_TOKENS) (tot + chunk) (q + 1).
Proof.
  intros Hs Hr q e chunk. pose proof (stair_index s Hs) as Hq. fold q in Hq.
  pose proof (stair_price_pos q ltac:(lia)). destruct (stair_bounds s) as [Hb _]. fold q e in Hb.
  cbn [quoteExactSats_loop]. destruct (Z.ltb_spec 0 rs); [|lia].
  destruct (Z.ltb_spec s PUBLIC_SUPPLY_TOKENS); [|lia]. cbn [andb].
  rewrite getStageForSupply_in by done. fold q. step_ok.
  rewrite getStagePrice_in by done. step_ok. fold e.
  rewrite quot_div by (unfold PRICE_UNIT_TOKENS; lia).
  set (aff := (rs * PRICE_UNIT_TOKENS) `div` stair_price q) in *.
  assert (0 ≤ aff) by (apply Z.div_pos; unfold PRICE_UNIT_TOKENS; lia).
  assert ((if aff <? e - s then aff else e - s) = chunk) as ->.
  { unfold chunk. destruct (Z.ltb_spec aff (e - s)); lia. }
  destruct (Z.eqb_spec chunk 0); [done|].
  rewrite ceilDiv_spec by (unfold PRICE_UNIT_TOKENS; nia). done.
Qed.

(** The chunk the loop takes is the largest the remaining satoshis pay for. *)
Lemma affordable_spec rs p t :
  0 < p → 0 ≤ rs → t ≤ (rs * PRICE_UNIT_TOKENS) `div` p ↔ cdiv (t * p) PRICE_UNIT_TOKENS ≤ rs.
Proof.
  intros Hp Hrs. rewrite cdiv_le by done.
  pose proof (Z.div_mod (rs * PRICE_UNIT_TOKENS) p ltac:(lia)).
  pose proof (Z.mod_pos_bound (rs * PRICE_UNIT_TOKENS) p Hp). split; nia.
Qed.

(** What the loop promises from supply [s] with [rs] satoshis: it stops at
    [s + t] having spent exactly the cost of [t] tokens, and one token more
    would cost more than [rs]. *)
Definition sats_outcome (s rs : Z) (tot : Z) (r : result (Z * Z * Z * Z)) : Prop :=
  ∃ t en', r = Ok (s + t, rs - stair_cost s t, tot + t, en')
    ∧ 0 ≤ t ∧ s + t ≤ PUBLIC_SUPPLY_TOKENS ∧ 0 ≤ rs - stair_cost s t
    ∧ (s + t < PUBLIC_SUPPLY_TOKENS → rs < stair_cost s (t + 1)).

Lemma stair_cost_within s t :
  s + t ≤ (s `div` TOKENS_PER_STAGE + 1) * TOKENS_PER_STAGE →
  stair_cost s t = cdiv (t * stair_price (s `div` TOKENS_PER_STAGE)) PRICE_UNIT_TOKENS.
Proof. intros H. unfold stair_cost. by destruct (Z.leb_spec (s + t) ((s `div` TOKENS_PER_STAGE + 1) * TOKENS_PER_STAGE)); [|lia]. Qed.

(** A loop entered with nothing it can buy stops at once. *)
Lemma quoteExactSats_loop_stop fuel s rs tot en :
  0 ≤ s < PUBLIC_SUPPLY_TOKENS → 0 ≤ rs →
  rs * PRICE_UNIT_TOKENS < stair_price (s `div` TOKENS_PER_STAGE) →
  ∃ en', quoteExactSats_loop (S fuel) s rs tot en = Ok (s, rs, tot, en').
Proof.
  intros Hs Hrs Hlt. destruct (decide (rs = 0)) as [->|].
  { exists en. cbn [quoteExactSats_loop]. done. }
  rewrite quoteExactSats_loop_step by lia.
  rewrite Z.div_small by (unfold PRICE_UNIT_TOKENS in *; lia).
  destruct (stair_bounds s) as [Hb _].
  rewrite Z.min_l by lia. rewrite Z.eqb_refl. eauto.
Qed.

Lemma quoteExactSats_loop_spec fuel s rs tot en :
  0 ≤ s ≤ PUBLIC_SUPPLY_TOKENS → 0 ≤ rs →
  212 - s `div` TOKENS_PER_STAGE ≤ Z.of_nat fuel →
  sats_outcome s rs tot (quoteExactSats_loop fuel s rs tot en).
Proof.
  revert s rs tot en. induction fuel as [|fuel IH]; intros s rs tot en Hs Hrs Hf.
  { pose proof (Z.div_le_upper_bound s TOKENS_PER_STAGE 210).
    unfold TOKENS_PER_STAGE, PUBLIC_SUPPLY_TOKENS in *. lia. }
  assert (∀ en', (s = PUBLIC_SUPPLY_TOKENS ∨ rs < stair_cost s 1) →
    sats_outcome s rs tot (Ok (s, rs, tot, en'))) as Hstop.
  { intros en' H. exists 0, en'. rewrite stair_cost_zero, !Z.add_0_r, Z.sub_0_r, Z.add_0_l.
    repeat split; try lia. }
  destruct (decide (s = PUBLIC_SUPPLY_TOKENS)) as [->|Hlt].
  { cbn [quoteExactSats_loop]. rewrite Z.ltb_irrefl, andb_false_r. auto. }
  pose proof (stair_index s ltac:(lia)) as Hq. destruct (stair_bounds s) as [Hb _].
  pose proof (stair_price_pos (s `div` TOKENS_PER_STAGE) ltac:(lia)) as Hp.
  pose proof (stair_cost_within s) as Hin.
  destruct (decide (rs = 0)) as [->|Hne].
  { cbn [quoteExactSats_loop]. cbn [Z.ltb andb Z.compare]. apply Hstop. right.
    rewrite Hin by lia. pose proof (cdiv_bounds (1 * stair_price (s `div` TOKENS_PER_STAGE)) PRICE_UNIT_TOKENS eq_refl).
    unfold PRICE_UNIT_TOKENS in *. lia. }
  rewrite quoteExactSats_loop_step by lia.
  pose proof (affordable_spec rs _ 1 Hp Hrs) as Ha1.
  set (q := s `div` TOKENS_PER_STAGE) in *. set (e := (q + 1) * TOKENS_PER_STAGE) in *.
  set (aff := (rs * PRICE_UNIT_TOKENS) `div` stair_price q) in *.
  assert (0 ≤ aff) by (apply Z.div_pos; unfold PRICE_UNIT_TOKENS; lia).
  pose proof (affordable_spec rs _ (aff + 1) Hp Hrs) as Hanext.
  pose proof (affordable_spec rs _ aff Hp Hrs) as Haff. fold aff in Ha1, Hanext, Haff.
  destruct (Z.eqb_spec (Z.min aff (e - s)) 0).
  { apply Hstop. right. rewrite Hin by lia. lia. }
  destruct (decide (aff < e - s)) as [Hpart|Hfull].
  - rewrite Z.min_l by lia.
    assert (e ≤ PUBLIC_SUPPLY_TOKENS) by (unfold e, STAGE_COUNT, TOKENS_PER_STAGE, PUBLIC_SUPPLY_TOKENS in *; lia).
    destruct (stair_index_unique (s + aff) q) as [Hidx _]; [fold e; lia|].
    destruct fuel as [|fuel]; [unfold q, STAGE_COUNT in *; lia|].
    set (c := cdiv (aff * stair_price q) PRICE_UNIT_TOKENS) in *.
    destruct (quoteExactSats_loop_stop fuel (s + aff) (rs - c) (tot + aff) (q + 1)) as [en' ->]; [lia|lia| |].
    { rewrite Hidx. unfold c. pose proof (cdiv_bounds (aff * stair_price q) PRICE_UNIT_TOKENS eq_refl).
      rewrite cdiv_le in Hanext by done. unfold PRICE_UNIT_TOKENS in *. nia. }
    exists aff, en'. rewrite !Hin by lia. fold c. repeat split; lia.
  - rewrite Z.min_r by lia. replace (s + (e - s)) with e by lia.
    assert (e ≤ PUBLIC_SUPPLY_TOKENS) by (unfold e, STAGE_COUNT, TOKENS_PER_STAGE, PUBLIC_SUPPLY_TOKENS in *; lia).
    pose proof (affordable_spec rs _ (e - s) Hp Hrs) as Hes. fold aff in Hes.
    set (c := cdiv ((e - s) * stair_price q) PRICE_UNIT_TOKENS) in *.
    destruct (IH e (rs - c) (tot + (e - s)) (q + 1)) as (t & en' & -> & Ht & Hmax & Hpos & Hnext); [lia|lia| |].
    { unfold e. rewrite Z.div_mul by done. lia. }
    assert (∀ k, 0 ≤ k → stair_cost s (e - s + k) = c + stair_cost e k) as Hsplit.
    { intros k Hk. rewrite stair_cost_next by (try fold q e; lia). fold q e c.
      replace (s + (e - s + k) - e) with k by lia. done. }
    exists (e - s + t), en'. rewrite <-(Z.add_assoc (e - s)), !Hsplit by lia.
    replace (s + (e - s + t)) with (e + t) by lia.
    replace (tot + (e - s + t)) with (tot + (e - s) + t) by lia.
    replace (rs - (c + stair_cost e t)) with (rs - c - stair_cost e t) by lia.
    repeat split; lia.
Qed.

Lemma quoteExactSats_valid a s :
  0 < a → 0 ≤ s < PUBLIC_SUPPLY_TOKENS →
  ∃ t en, quoteExactSats a s
    = Ok {| tokens := t; curveContributionSats := stair_cost s t;
            startingStage := s `div` TOKENS_PER_STAGE + 1; endingStage := en;
            supplyBefore := s; supplyAfter := s + t |}
    ∧ 0 ≤ t ≤ PUBLIC_SUPPLY_TOKENS - s ∧ stair_cost s t ≤ a
    ∧ (s + t < PUBLIC_SUPPLY_TOKENS → a < stair_cost s (t + 1)).
Proof.
  intros Ha Hs. unfold quoteExactSats, assertSupply. repeat guard_step lia.
  rewrite getStageForSupply_in by lia. step_ok.
  assert (212 - s `div` TOKENS_PER_STAGE ≤ 212) as Hfuel by (pose proof (stair_index_nonneg s); lia).
  destruct (quoteExactSats_loop_spec stair_fuel s a 0 (s `div` TOKENS_PER_STAGE + 1))
    as (t & en & -> & ? & ? & ? & ?); [lia|lia|exact Hfuel|].
  step_ok. exists t, en. split; [|repeat split; lia].
  rewrite Z.add_0_l. by replace (a - (a - stair_cost s t)) with (stair_cost s t) by lia.
Qed.

(** ** The curve's properties *)

(** [quoteExactTokens] on every branch: each error code exactly where the code
    raises it, and otherwise a total cost and stages in range. *)
Theorem quoteExactTokens_total t s :
  match quoteExactTokens t s with
  | Ok r => 0 < t ∧ 0 ≤ s ∧ s + t ≤ PUBLIC_SUPPLY_TOKENS
            ∧ curveContributionSats r = stair_cost s t ∧ supplyAfter r = s + t
            ∧ startingStage r ≤ endingStage r ≤ STAGE_COUNT
  | Throw e =>
      (t ≤ 0 ∧ exn_code e = Some "ZERO_QUANTITY")
      ∨ (0 < t ∧ s < 0 ∧ exn_code e = Some "NEGATIVE_SUPPLY")
      ∨ (0 < t ∧ PUBLIC_SUPPLY_TOKENS ≤ s ∧ exn_code e = Some "MINT_SOLD_OUT")
      ∨ (0 ≤ s < PUBLIC_SUPPLY_TOKENS ∧ PUBLIC_SUPPLY_TOKENS - s < t
         ∧ exn_code e = Some "EXCEEDS_REMAINING_SUPPLY")
  end.
Proof.
  destruct (decide (0 < t ∧ 0 ≤ s ∧ s + t ≤ PUBLIC_SUPPLY_TOKENS)) as [(Ht & Hs & Hmax)|Hbad].
  - rewrite quoteExactTokens_valid by done. cbn.
    assert (0 < s + t - 1 + 1 ≤ PUBLIC_SUPPLY_TOKENS) by lia.
    pose proof (stair_index (s + t - 1) ltac:(lia)).
    pose proof (Z.div_le_mono s (s + t - 1) TOKENS_PER_STAGE ltac:(done) ltac:(lia)).
    repeat split; lia.
  - unfold quoteExactTokens, assertSupply.
    destruct (Z.leb_spec t 0); [cbn; left; split; done|]. cbn [throw_if]. step_ok.
    destruct (Z.ltb_spec s 0); [cbn; right; left; repeat split; done|]. cbn [throw_if]. step_ok.
    destruct (Z.leb_spec PUBLIC_SUPPLY_TOKENS s); [cbn; do 2 right; left; repeat split; done|].
    cbn [throw_if]. step_ok.
    destruct (Z.ltb_spec (PUBLIC_SUPPLY_TOKENS - s) t); [cbn; do 3 right; repeat split; done|]. lia.
Qed.

(** An exact-sats quote never spends more than the buyer has, costs exactly
    what the exact-tokens quote charges for the same tokens, and is the largest
    such quote: one token more would cost more than the buyer has. *)
Theorem quoteExactSats_optimal a s r :
  quoteExactSats a s = Ok r →
  curveContributionSats r ≤ a
  ∧ (0 < tokens r → ∃ r', quoteExactTokens (tokens r) s = Ok r'
       ∧ curveContributionSats r' = curveContributionSats r ∧ supplyAfter r' = supplyAfter r)
  ∧ (supplyAfter r < PUBLIC_SUPPLY_TOKENS →
     ∃ r', quoteExactTokens (tokens r + 1) s = Ok r' ∧ a < curveContributionSats r').
Proof.
  intros H. assert (0 < a ∧ 0 ≤ s < PUBLIC_SUPPLY_TOKENS) as [Ha Hs].
  { unfold quoteExactSats, assertSupply in H. res_inv H. to_prop. lia. }
  destruct (quoteExactSats_valid a s Ha Hs) as (t & en & E & Ht & Hle & Hmax).
  rewrite E in H. injection H as <-. cbn. split; [done|]. split; intros Hpos.
  - eexists. rewrite quoteExactTokens_valid by lia. done.
  - eexists. rewrite quoteExactTokens_valid by lia. split; [done|]. cbn. auto.
Qed.

Lemma quoteExactSats_optimal_witness :
  ∃ r, quoteExactSats 1000000 1999950 = Ok r ∧ curveContributionSats r ≤ 1000000
    ∧ ∃ r', quoteExactTokens (tokens r + 1) 1999950 = Ok r' ∧ 1000000 < curveContributionSats r'.
Proof.
  eexists. split; [vm_compute; reflexivity|].
  edestruct (quoteExactSats_optimal 1000000 1999950) as (H & _ & H'); [vm_compute; reflexivity|].
  split; [exact H|]. apply H'. vm_compute. reflexivity.
Defined.

(** The full raise and the first and last stair prices of the committed curve. *)
Theorem full_raise_value :
  getTheoreticalFullRaise = 59818500 ∧ FULL_RAISE_SATS = 59818500
  ∧ curve_reserve PUBLIC_SUPPLY_TOKENS = 59818500
  ∧ stage_price_at 0 = Some 27000 ∧ stage_price_at 209 = Some 5670000.
Proof. by vm_compute. Qed.
