(* ===== verification/Economics.v ===== *)
(** * Curve candidates, reserve, fees and dust: packages/cove-economics

    [curve.ts], [backing.ts], [fee.ts], [redeemPayout.ts], [feeSettlement.ts]
    and [dust.ts]. *)
From S2P Require Import Prelude Bytes Curve.

(** ** curve.ts *)
Definition PUBLIC_SUPPLY : Z := PUBLIC_SUPPLY_TOKENS.
Definition TOTAL_SUPPLY : Z := PUBLIC_SUPPLY_TOKENS.
Definition PRICE_UNIT : Z := 1000000.

Record CurveImpl := {
  curve_id : string;
  curve_name : string;
  priceAt : Z → option Z;
  costToBuy : Z → Z → result Z;
}.

Definition ceilDiv (n d : Z) : result Z :=
  throw_if (d =? 0) (js_error "division by zero");;
  if n <=? 0 then Ok 0 else Ok (Z.quot (n + d - 1) d).

Definition sumRange (a b : Z) : Z :=
  let n := b - a + 1 in Z.quot ((a + b) * n) 2.

Definition stageAt (supply : Z) : Z :=
  if PUBLIC_SUPPLY <=? supply then Z.of_nat (length STAGE_PRICES_SATS_PER_MILLION) - 1
  else Z.quot supply TOKENS_PER_STAGE.

Definition undefined_price : exn := Exn ETypeError None "Cannot mix BigInt and other types".

Definition beyond_supply (amount supply : Z) : exn :=
  js_error ("cannot price " +:+ pretty amount +:+ " tokens from " +:+ pretty supply
            +:+ ": beyond the public supply").

(** The [while] loop of [stairs210.costToBuy]; [amount] and [supply] are the
    arguments of the call, for the error message. *)
Fixpoint stairs210_loop (fuel : nat) (amount supply : Z) (remaining s cost : Z) : result Z :=
  match fuel with
  | O => Throw out_of_fuel
  | S fuel' =>
      if 0 <? remaining then
        let stage := stageAt s in
        let stageEnd := (stage + 1) * TOKENS_PER_STAGE in
        let inStage := stageEnd - s in
        let chunk := if remaining <? inStage then remaining else inStage in
        throw_if (chunk <=? 0) (beyond_supply amount supply);;
        price ← of_option undefined_price (stage_price_at stage);
        c ← ceilDiv (chunk * price) PRICE_UNIT;
        stairs210_loop fuel' amount supply (remaining - chunk) (s + chunk) (cost + c)
      else Ok cost
  end.

Definition stairs210_costToBuy (supply amount : Z) : result Z :=
  stairs210_loop stair_fuel amount supply amount supply 0.

Definition stairs210 : CurveImpl := {|
  curve_id := "stairs210";
  curve_name := "210 even stairs of 100,000 tokens";
  priceAt supply := stage_price_at (stageAt supply);
  costToBuy := stairs210_costToBuy;
|}.

Definition P0 : Z := 500.
Definition P1 : Z := 150000.
Definition RAMP : Z := P1 - P0.

Definition linearRamp_num (s n : Z) : Z :=
  P0 * n * 2 * PUBLIC_SUPPLY + RAMP * (n * n + 2 * s * n).

Definition linearRamp : CurveImpl := {|
  curve_id := "linear";
  curve_name := "piecewise-linear ramp (500 → 150k sats/M)";
  priceAt supply :=
    let capped := if PUBLIC_SUPPLY <? supply then PUBLIC_SUPPLY else supply in
    Some (P0 + Z.quot (RAMP * capped) PUBLIC_SUPPLY);
  costToBuy supply amount :=
    ceilDiv (linearRamp_num supply amount) (2 * PUBLIC_SUPPLY * PRICE_UNIT);
|}.

Definition QK : Z := RAMP.

Definition quadratic_num (s n : Z) : Z :=
  let sCube := s * s * s in
  let eCube := (s + n) * (s + n) * (s + n) in
  P0 * n * 3 * PUBLIC_SUPPLY * PUBLIC_SUPPLY + QK * (eCube - sCube).

Definition quadratic : CurveImpl := {|
  curve_id := "quadratic";
  curve_name := "quadratic convex (500 → 150k sats/M)";
  priceAt supply :=
    let capped := if PUBLIC_SUPPLY <? supply then PUBLIC_SUPPLY else supply in
    Some (P0 + Z.quot (QK * capped * capped) (PUBLIC_SUPPLY * PUBLIC_SUPPLY));
  costToBuy supply amount :=
    ceilDiv (quadratic_num supply amount) (3 * PUBLIC_SUPPLY * PUBLIC_SUPPLY * PRICE_UNIT);
|}.

Definition KINK : Z := Z.quot PUBLIC_SUPPLY 2.
Definition SEG0_START : Z := 500.
Definition SEG0_END : Z := 20000.
Definition SEG1_START : Z := 20000.
Definition SEG1_END : Z := 150000.

Definition twoSegPriceAt (supply : Z) : Z :=
  if supply <=? KINK then SEG0_START + Z.quot ((SEG0_END - SEG0_START) * supply) KINK
  else let beyond := supply - KINK in
       SEG1_START + Z.quot ((SEG1_END - SEG1_START) * beyond) (PUBLIC_SUPPLY - KINK).

Definition twoSegmentLinear_costToBuy (supply amount : Z) : result Z :=
  let end_ := supply + amount in
  let s0 := if supply <? KINK then supply else KINK in
  let e0 := if end_ <? KINK then end_ else KINK in
  cost ← (if s0 <? e0 then
            let n := e0 - s0 in
            let m := SEG0_END - SEG0_START in
            let num := SEG0_START * n * 2 * KINK + m * (n * n + 2 * s0 * n) in
            ceilDiv num (2 * KINK * PRICE_UNIT)
          else Ok 0);
  if KINK <? end_ then
    let s1 := if supply <? KINK then KINK else supply in
    let n := end_ - s1 in
    let m := SEG1_END - SEG1_START in
    let segLen := PUBLIC_SUPPLY - KINK in
    let beyond := s1 - KINK in
    let num := SEG1_START * n * 2 * segLen + m * (n * n + 2 * beyond * n) in
    c ← ceilDiv num (2 * segLen * PRICE_UNIT);
    Ok (cost + c)
  else Ok cost.

Definition twoSegmentLinear : CurveImpl := {|
  curve_id := "twoSegLinear";
  curve_name := "two-segment linear (kink at 50%)";
  priceAt supply := Some (twoSegPriceAt supply);
  costToBuy := twoSegmentLinear_costToBuy;
|}.

Definition CURVES : list CurveImpl := [stairs210; linearRamp; quadratic; twoSegmentLinear].

(** ** fee.ts *)
Record CoveFeeConfig := {
  buyFeeBps : Z;
  buyFeeFlatSats : Z;
  buyFeeLotSats : Z;
  creatorFeeBps : Z;
  redeemFeeBps : Z;
  redeemFeeFlatSats : Z;
  redeemFeeMinSats : Z;
  p2pFeeBps : Z;
  p2pFeeFlatSats : Z;
  p2pFeeMinSats : Z;
}.

Definition COVE_FEE_CONFIG : CoveFeeConfig := {|
  buyFeeBps := 750;
  buyFeeFlatSats := 5000;
  buyFeeLotSats := 10;
  creatorFeeBps := 5000;
  redeemFeeBps := 750;
  redeemFeeFlatSats := 0;
  redeemFeeMinSats := 1000;
  p2pFeeBps := 750;
  p2pFeeFlatSats := 0;
  p2pFeeMinSats := 1000;
|}.

Definition BPS_DENOM : Z := 10000.

Definition deterministicFee (grossSats feeBps flatSats minSats : Z) : result Z :=
  throw_if (grossSats <? 0) (js_error "grossSats must be non-negative");;
  throw_if (feeBps <? 0) (js_error "feeBps must be non-negative");;
  throw_if (flatSats <? 0) (js_error "flatSats must be non-negative");;
  throw_if (minSats <? 0) (js_error "minSats must be non-negative");;
  if grossSats =? 0 then Ok 0
  else
    let pct := if feeBps =? 0 then 0
               else Z.quot (grossSats * feeBps + BPS_DENOM - 1) BPS_DENOM in
    let fee := flatSats + pct in
    Ok (if fee <? minSats then minSats else fee).

Definition mintFeeSats (grossSats amountAtoms feeBps flatPerMintSats perLotSats : Z) : result Z :=
  let lots := Z.quot amountAtoms (LOT_TOKENS * ATOMS_PER_TOKEN) in
  deterministicFee grossSats feeBps (flatPerMintSats + perLotSats * lots) 0.

Definition CREATOR_RECORD_SATS : Z := 1000.
Definition CREATOR_MIN_SATS : Z := 546.

Definition creatorFeeSats (grossSats creatorBps : Z) : result Z :=
  deterministicFee grossSats creatorBps 0 CREATOR_MIN_SATS.

Definition redeemFeeSats (grossSats feeBps flatSats minSats : Z) : result Z :=
  deterministicFee grossSats feeBps flatSats minSats.

Definition at_is (s : list byte) (i v : Z) : bool := bool_decide (byte_at s i = Some v).

Definition isCreatorScript (script : list byte) : bool :=
  let p2wpkh := (blen script =? 22) && at_is script 0 0x00 && at_is script 1 0x14 in
  let p2tr := (blen script =? 34) && at_is script 0 0x51 && at_is script 1 0x20 in
  let p2sh := (blen script =? 23) && at_is script 0 0xa9 && at_is script 1 0x14 && at_is script 22 0x87 in
  p2wpkh || p2tr || p2sh.

(** ** dust.ts *)
Definition DUST_RELAY_FEE_SAT_PER_KVB : Z := 3000.

Definition isWitnessProgram (script : list byte) : bool :=
  if blen script <? 4 then false else
  match byte_at script 0, byte_at script 1 with
  | Some first, Some len =>
      let isVersion := (first =? 0x00) || ((0x51 <=? first) && (first <=? 0x60)) in
      if negb isVersion then false
      else (2 <=? len) && (len <=? 40) && (blen script =? 2 + len)
  | _, _ => false
  end.

Definition isP2TR (script : list byte) : bool :=
  (blen script =? 34) && at_is script 0 0x51 && at_is script 1 0x20.

Definition isP2WPKH (script : list byte) : bool :=
  (blen script =? 22) && at_is script 0 0x00 && at_is script 1 0x14.

Definition dustThreshold (script : list byte) (dustRelayFeeSatPerKvB : Z) : Z :=
  if at_is script 0 0x6a then 0
  else
    let nSize := 8 + 1 + blen script in
    let nSize := nSize + (if isWitnessProgram script then 67 else 148) in
    Z.quot (nSize * dustRelayFeeSatPerKvB) 1000.

Definition isDustSafe (netSats : Z) (script : list byte) : bool :=
  dustThreshold script DUST_RELAY_FEE_SAT_PER_KVB <=? netSats.

(** ** feeSettlement.ts *)
Record FeeSettlementCheck := {
  nominalFeeSats : Z;
  fsc_feeScript : list byte;
  dustThresholdSats : Z;
  isStandard : bool;
  minimumGrossForStandardFeeOutput : option Z;
}.

Definition checkFeeSettlement (nominal : Z) (feeScript : list byte) (feeBps : Z)
    : result FeeSettlementCheck :=
  throw_if (nominal <? 0) (js_error "nominalFeeSats must be non-negative");;
  let dust := dustThreshold feeScript DUST_RELAY_FEE_SAT_PER_KVB in
  let isStd := (nominal =? 0) || (dust <=? nominal) in
  let minimumGross :=
    if feeBps =? 0 then None else Some (Z.quot ((dust - 1) * BPS_DENOM) feeBps + 1) in
  Ok {| nominalFeeSats := nominal; fsc_feeScript := feeScript; dustThresholdSats := dust;
        isStandard := isStd; minimumGrossForStandardFeeOutput := minimumGross |}.

(** ** redeemPayout.ts *)
Record RedeemPayoutCheck := {
  rpc_grossSats : Z;
  rpc_feeSats : Z;
  rpc_netSats : Z;
  rpc_dustThresholdSats : Z;
  isPayable : bool;
  minimumGrossSats : Z;
}.

Definition checkRedeemPayout (grossSats feeSats : Z) (payoutScript : list byte)
    : result RedeemPayoutCheck :=
  throw_if (grossSats <? 0) (js_error "grossSats must be non-negative");;
  throw_if (feeSats <? 0) (js_error "feeSats must be non-negative");;
  let dust := dustThreshold payoutScript DUST_RELAY_FEE_SAT_PER_KVB in
  let netSats := grossSats - feeSats in
  Ok {| rpc_grossSats := grossSats; rpc_feeSats := feeSats; rpc_netSats := netSats;
        rpc_dustThresholdSats := dust; isPayable := dust <=? netSats;
        minimumGrossSats := feeSats + dust |}.

(** ** backing.ts *)
Record Quote := { gross : Z; fee : Z; net : Z }.

Definition backing_error := coded EBackingError.

Definition assertSupplyInRange (supply : Z) : result unit :=
  throw_if (supply <? 0) (backing_error "INVALID_SUPPLY" "supply must be non-negative");;
  throw_if (PUBLIC_SUPPLY <? supply) (backing_error "PUBLIC_CAP_EXCEEDED" "supply exceeds public cap").

Definition requiredBackingSats (supply : Z) : result Z :=
  assertSupplyInRange supply;;
  costToBuy stairs210 0 supply.

Definition assertPositiveDelta (g : Z) : result unit :=
  throw_if (g <? 1)
    (backing_error "ECONOMIC_DUST" "zero backing delta: positive quantity produced a 0-sat R-delta").

Definition grossBuy (supply amount : Z) : result Z :=
  assertSupplyInRange supply;;
  throw_if (amount <=? 0) (backing_error "INVALID_AMOUNT" "amount must be positive");;
  throw_if (PUBLIC_SUPPLY <? supply + amount) (backing_error "PUBLIC_CAP_EXCEEDED" "public cap exceeded");;
  after ← requiredBackingSats (supply + amount);
  before ← requiredBackingSats supply;
  let g := after - before in
  assertPositiveDelta g;;
  Ok g.

Definition grossRedeem (supply amount : Z) : result Z :=
  assertSupplyInRange supply;;
  throw_if (amount <=? 0) (backing_error "INVALID_AMOUNT" "amount must be positive");;
  throw_if (supply <? amount)
    (backing_error "INSUFFICIENT_TOKEN_BALANCE" "redeem amount exceeds issued supply");;
  before ← requiredBackingSats supply;
  after ← requiredBackingSats (supply - amount);
  let g := before - after in
  assertPositiveDelta g;;
  Ok g.

Definition quoteBuy (supply amount : Z) (feeConfig : CoveFeeConfig) : result Quote :=
  g ← grossBuy supply amount;
  f ← mintFeeSats g (amount * ATOMS_PER_TOKEN) (buyFeeBps feeConfig)
        (buyFeeFlatSats feeConfig) (buyFeeLotSats feeConfig);
  Ok {| gross := g; fee := f; net := g + f |}.

Definition quoteRedeem (supply amount : Z) (feeConfig : CoveFeeConfig) : result Quote :=
  g ← grossRedeem supply amount;
  f ← redeemFeeSats g (redeemFeeBps feeConfig) (redeemFeeFlatSats feeConfig)
        (redeemFeeMinSats feeConfig);
  Ok {| gross := g; fee := f; net := g - f |}.

(** ** The stairs *)

Lemma ceilDiv_pos n d : 0 ≤ n → 0 < d → ceilDiv n d = Ok (cdiv n d).
Proof.
  intros. unfold ceilDiv. guard_step lia.
  destruct (Z.leb_spec n 0).
  - by replace n with 0 by lia.
  - by rewrite cdiv_quot.
Qed.

Lemma stageAt_in s : 0 ≤ s < PUBLIC_SUPPLY → stageAt s = s `div` TOKENS_PER_STAGE.
Proof.
  intros. unfold stageAt. destruct (Z.leb_spec PUBLIC_SUPPLY s); [lia|].
  by rewrite quot_div by (done || lia).
Qed.

(** One iteration below the public supply. *)
Lemma stairs210_loop_step fuel a0 s0 rem s cost :
  0 ≤ s < PUBLIC_SUPPLY → 0 < rem →
  let q := s `div` TOKENS_PER_STAGE in
  let chunk := Z.min rem ((q + 1) * TOKENS_PER_STAGE - s) in
  stairs210_loop (S fuel) a0 s0 rem s cost
  = stairs210_loop fuel a0 s0 (rem - chunk) (s + chunk)
      (cost + cdiv (chunk * stair_price q) PRICE_UNIT).
Proof.
  intros Hs Hr q chunk. pose proof (stair_index s Hs) as Hq. fold q in Hq.
  pose proof (stair_price_pos q ltac:(lia)). destruct (stair_bounds s) as [Hb _]. fold q in Hb.
  cbn [stairs210_loop]. destruct (Z.ltb_spec 0 rem); [|lia].
  rewrite stageAt_in by done. fold q. set (e := (q + 1) * TOKENS_PER_STAGE) in *.
  assert ((if rem <? e - s then rem else e - s) = chunk) as ->.
  { unfold chunk. destruct (Z.ltb_spec rem (e - s)); lia. }
  guard_step lia. rewrite stage_price_at_stair by done. cbn [of_option]. step_ok.
  rewrite ceilDiv_pos by (unfold PRICE_UNIT; nia). done.
Qed.

(** The loop of [stairs210.costToBuy] and the loop of [quoteExactTokens] are
    the same walk. *)
Lemma stairs210_loop_quote fuel a0 s0 rem s cost en :
  0 ≤ s → 0 ≤ rem → s + rem ≤ PUBLIC_SUPPLY →
  stairs210_loop fuel a0 s0 rem s cost
  = (λ r, r.1.2) <$> quoteExactTokens_loop fuel s rem cost en.
Proof.
  revert rem s cost en. induction fuel as [|fuel IH]; intros rem s cost en Hs Hr Hmax; [done|].
  destruct (decide (rem = 0)) as [->|]; [done|].
  rewrite stairs210_loop_step, quoteExactTokens_loop_step by (unfold PUBLIC_SUPPLY in *; lia).
  destruct (stair_bounds s) as [Hb _]. apply IH; lia.
Qed.

Lemma stairs210_costToBuy_valid s a :
  0 ≤ s → 0 ≤ a → s + a ≤ PUBLIC_SUPPLY → costToBuy stairs210 s a = Ok (stair_cost s a).
Proof.
  intros Hs Ha Hmax. cbn [costToBuy stairs210]. unfold stairs210_costToBuy.
  rewrite (stairs210_loop_quote _ _ _ _ _ _ 0) by done.
  rewrite quoteExactTokens_loop_spec by (done || (left; by apply stair_fuel_enough)).
  done.
Qed.

Lemma stairs210_loop_sold_out fuel a0 s0 rem s cost :
  PUBLIC_SUPPLY ≤ s → 0 < rem →
  stairs210_loop (S fuel) a0 s0 rem s cost = Throw (beyond_supply a0 s0).
Proof.
  intros Hs Hr. cbn [stairs210_loop]. destruct (Z.ltb_spec 0 rem); [|lia].
  unfold stageAt. destruct (Z.leb_spec PUBLIC_SUPPLY s); [|lia].
  change (Z.of_nat (length STAGE_PRICES_SATS_PER_MILLION)) with 210.
  apply throw_if_true. to_prop. unfold PUBLIC_SUPPLY, PUBLIC_SUPPLY_TOKENS, TOKENS_PER_STAGE in *.
  destruct (Z.ltb_spec rem ((210 - 1 + 1) * 100000 - s)); lia.
Qed.

(** Past the last stair the walk ends in the explicit refusal. *)
Lemma stairs210_loop_beyond fuel a0 s0 rem s cost :
  0 ≤ s → 0 < rem → PUBLIC_SUPPLY < s + rem →
  (s < PUBLIC_SUPPLY ∧ 211 - s `div` TOKENS_PER_STAGE ≤ Z.of_nat fuel) ∨ (PUBLIC_SUPPLY ≤ s ∧ fuel ≠ O) →
  stairs210_loop fuel a0 s0 rem s cost = Throw (beyond_supply a0 s0).
Proof.
  revert rem s cost. induction fuel as [|fuel IH]; intros rem s cost Hs Hr Hgt Hf.
  { destruct Hf as [[Hlt Hf]|[_ Hf]]; [|done].
    pose proof (stair_index s ltac:(split; [lia|exact Hlt])). unfold STAGE_COUNT in *. lia. }
  destruct Hf as [[Hlt Hf]|[Hge _]]; [|by apply stairs210_loop_sold_out].
  rewrite stairs210_loop_step by lia. destruct (stair_bounds s) as [Hb _].
  pose proof (stair_index s ltac:(split; [lia|exact Hlt])) as Hq.
  set (q := s `div` TOKENS_PER_STAGE) in *. set (e := (q + 1) * TOKENS_PER_STAGE) in *.
  assert (e ≤ PUBLIC_SUPPLY).
  { unfold e, STAGE_COUNT, TOKENS_PER_STAGE, PUBLIC_SUPPLY, PUBLIC_SUPPLY_TOKENS in *. lia. }
  rewrite Z.min_r by lia. replace (s + (e - s)) with e by lia.
  apply IH; [lia|lia|lia|]. destruct (decide (e < PUBLIC_SUPPLY)) as [He|He].
  - left. split; [done|]. unfold e. rewrite Z.div_mul by done. lia.
  - right. split; [lia|]. unfold STAGE_COUNT in *. lia.
Qed.

Lemma stairs210_loop_done fuel a0 s0 rem s cost :
  rem ≤ 0 → stairs210_loop (S fuel) a0 s0 rem s cost = Ok cost.
Proof. intros. cbn [stairs210_loop]. destruct (Z.ltb_spec 0 rem); [lia|done]. Qed.

(** With fuel for the stairs above [s], the loop runs to an answer of the code. *)
Lemma stairs210_loop_terminates fuel a0 s0 rem s cost :
  0 ≤ s → 211 ≤ Z.of_nat fuel → stairs210_loop fuel a0 s0 rem s cost ≠ Throw out_of_fuel.
Proof.
  intros Hs Hf. destruct fuel as [|fuel]; [done|].
  destruct (decide (0 < rem)) as [Hr|]; [|by rewrite stairs210_loop_done by lia].
  pose proof (stair_index_nonneg s Hs).
  destruct (decide (s + rem ≤ PUBLIC_SUPPLY)) as [Hin|Hout].
  - rewrite (stairs210_loop_quote _ _ _ _ _ _ 0) by lia.
    rewrite quoteExactTokens_loop_spec by first [done|lia|left; lia]. done.
  - rewrite stairs210_loop_beyond; [done|lia..|].
    destruct (decide (s < PUBLIC_SUPPLY)); [left; lia|right; split; [lia|done]].
Qed.

(** A negative supply reaches stair 0 (or no stair at all) in one iteration. *)
Lemma stairs210_loop_negative fuel a0 s0 rem s cost :
  s < 0 → 212 ≤ Z.of_nat fuel → stairs210_loop fuel a0 s0 rem s cost ≠ Throw out_of_fuel.
Proof.
  intros Hs Hf. destruct fuel as [|fuel]; [done|].
  destruct (decide (0 < rem)) as [Hr|]; [|by rewrite stairs210_loop_done by lia].
  cbn [stairs210_loop]. destruct (Z.ltb_spec 0 rem); [|lia].
  unfold stageAt. destruct (Z.leb_spec PUBLIC_SUPPLY s) as [Hbig|_].
  { unfold PUBLIC_SUPPLY, PUBLIC_SUPPLY_TOKENS in *. lia. }
  assert (∃ k, 0 ≤ k ∧ s ÷ TOKENS_PER_STAGE = - k ∧ k * TOKENS_PER_STAGE ≤ - s) as (k & Hk0 & -> & Hb).
  { exists ((- s) `div` TOKENS_PER_STAGE).
    pose proof (quot_div (- s) TOKENS_PER_STAGE ltac:(lia) eq_refl) as E.
    rewrite Z.quot_opp_l in E by done. destruct (stair_bounds (- s)) as [Hb _].
    pose proof (stair_index_nonneg (- s)). lia. }
  set (inStage := (- k + 1) * TOKENS_PER_STAGE - s).
  assert (0 < inStage) by (unfold inStage, TOKENS_PER_STAGE in *; lia).
  rewrite throw_if_false by (to_prop; destruct (Z.ltb_spec rem inStage); lia).
  unfold stage_price_at. destruct (Z.ltb_spec (- k) 0) as [|Hk]; [done|].
  assert (k = 0) as -> by lia. cbn [of_option].
  change (STAGE_PRICES_SATS_PER_MILLION !! Z.to_nat (- 0)) with (Some 27000).
  cbn [of_option]. step_ok.
  set (chunk := if rem <? inStage then rem else inStage).
  assert (chunk = Z.min rem inStage) as ->.
  { unfold chunk. destruct (Z.ltb_spec rem inStage); lia. }
  rewrite ceilDiv_pos by (done || lia). step_ok.
  destruct (decide (rem ≤ inStage)).
  - rewrite Z.min_l by lia. destruct fuel; [cbn in Hf; lia|]. by rewrite stairs210_loop_done by lia.
  - rewrite Z.min_r by lia. apply stairs210_loop_terminates; unfold inStage, TOKENS_PER_STAGE; lia.
Qed.

(** ** The reserve *)

Lemma requiredBackingSats_valid s :
  0 ≤ s ≤ PUBLIC_SUPPLY → requiredBackingSats s = Ok (curve_reserve s).
Proof.
  intros Hs. unfold requiredBackingSats, assertSupplyInRange. repeat guard_step lia.
  rewrite stairs210_costToBuy_valid by lia. f_equal.
  rewrite stair_cost_exact; [|done|lia|by apply lots_exact]. rewrite Z.add_0_l.
  change (curve_reserve 0) with 0. lia.
Qed.

Lemma requiredBackingSats_Ok s v :
  requiredBackingSats s = Ok v ↔ 0 ≤ s ≤ PUBLIC_SUPPLY ∧ v = curve_reserve s.
Proof.
  split.
  - intros H. assert (0 ≤ s ≤ PUBLIC_SUPPLY) as Hs.
    { unfold requiredBackingSats, assertSupplyInRange in H. apply bind_Ok in H as (u & H & _).
      res_inv H. to_prop. lia. }
    rewrite requiredBackingSats_valid in H by done. naive_solver.
  - intros [? ->]. by apply requiredBackingSats_valid.
Qed.

Ltac reserve_inv :=
  repeat match goal with
  | H : requiredBackingSats _ = Ok _ |- _ => apply requiredBackingSats_Ok in H as [? ->]
  end.

Lemma grossBuy_Ok s a g :
  grossBuy s a = Ok g ↔
  0 ≤ s ∧ 0 < a ∧ s + a ≤ PUBLIC_SUPPLY ∧ g = curve_reserve (s + a) - curve_reserve s ∧ 1 ≤ g.
Proof.
  split.
  - intros H. unfold grossBuy, assertSupplyInRange, assertPositiveDelta in H.
    res_inv H. reserve_inv. to_prop. lia.
  - intros (Hs & Ha & Hmax & -> & Hg). unfold grossBuy, assertSupplyInRange, assertPositiveDelta.
    repeat guard_step lia. rewrite !requiredBackingSats_valid by lia. do 2 step_ok.
    by guard_step lia.
Qed.

Lemma grossRedeem_Ok s a g :
  grossRedeem s a = Ok g ↔
  0 < a ∧ a ≤ s ∧ s ≤ PUBLIC_SUPPLY ∧ g = curve_reserve s - curve_reserve (s - a) ∧ 1 ≤ g.
Proof.
  split.
  - intros H. unfold grossRedeem, assertSupplyInRange, assertPositiveDelta in H.
    res_inv H. reserve_inv. to_prop. lia.
  - intros (Ha & Hs & Hmax & -> & Hg). unfold grossRedeem, assertSupplyInRange, assertPositiveDelta.
    repeat guard_step lia. rewrite !requiredBackingSats_valid by lia. do 2 step_ok.
    by guard_step lia.
Qed.

(** Every lot costs whole satoshis: the reserve of [k] lots, lot by lot. *)
Lemma curve_reserve_lot s :
  0 ≤ s → s `mod` LOT_TOKENS = 0 →
  curve_reserve (s + LOT_TOKENS) = curve_reserve s + 27 * (s `div` TOKENS_PER_STAGE + 1).
Proof.
  intros Hs Hl. pose proof (stair_index_nonneg s Hs).
  rewrite curve_reserve_step; [|done|done| |by apply lots_exact].
  - f_equal. apply cdiv_spec; [done|]. unfold stair_price, LOT_TOKENS, PRICE_UNIT_TOKENS. lia.
  - destruct (stair_bounds s) as [Hb Hm]. rewrite Hm.
    set (q := s `div` TOKENS_PER_STAGE) in *.
    unfold LOT_TOKENS, TOKENS_PER_STAGE in *.
    apply Z.mod_divide in Hl as [k ->]; [|done].
    enough (k < 100 * (q + 1)) by lia. lia.
Qed.

Lemma curve_reserve_lots_strict s n :
  0 ≤ s → s `mod` LOT_TOKENS = 0 → 0 < n → n `mod` LOT_TOKENS = 0 →
  curve_reserve s + 27 ≤ curve_reserve (s + n).
Proof.
  intros Hs Hl Hn Hnl. assert (LOT_TOKENS ≤ n).
  { apply Z.mod_divide in Hnl as [k ->]; [|done]. unfold LOT_TOKENS in *. lia. }
  etransitivity; [|apply (curve_reserve_mono (s + LOT_TOKENS)); unfold LOT_TOKENS in *; lia].
  rewrite curve_reserve_lot by done. pose proof (stair_index_nonneg s Hs). lia.
Qed.

Lemma curve_reserve_nonneg s : 0 ≤ s → 0 ≤ curve_reserve s.
Proof. intros. change 0 with (curve_reserve 0). apply curve_reserve_mono. lia. Qed.

Lemma curve_reserve_max s : 0 ≤ s ≤ PUBLIC_SUPPLY → curve_reserve s ≤ 59818500.
Proof.
  intros. change 59818500 with (curve_reserve PUBLIC_SUPPLY_TOKENS).
  apply curve_reserve_mono. unfold PUBLIC_SUPPLY in *. lia.
Qed.

(** ** Fees *)

Definition bps_part (g bps : Z) : Z := cdiv (g * bps) BPS_DENOM.

Lemma deterministicFee_Ok g bps flat mn f :
  deterministicFee g bps flat mn = Ok f ↔
  0 ≤ g ∧ 0 ≤ bps ∧ 0 ≤ flat ∧ 0 ≤ mn ∧
  f = if g =? 0 then 0 else Z.max mn (flat + bps_part g bps).
Proof.
  unfold deterministicFee. split.
  - intros H. res_inv H. to_prop.
    destruct (Z.eqb_spec g 0); [injection H as <-; lia|]. injection H as <-.
    split_and!; try lia. unfold bps_part.
    destruct (Z.eqb_spec bps 0) as [->|].
    + rewrite Z.mul_0_r. change (cdiv 0 BPS_DENOM) with 0.
      destruct (Z.ltb_spec (flat + 0) mn); lia.
    + rewrite cdiv_quot by (unfold BPS_DENOM; nia).
      destruct (Z.ltb_spec (flat + cdiv (g * bps) BPS_DENOM) mn); lia.
  - intros (? & ? & ? & ? & ->). repeat guard_step lia.
    destruct (Z.eqb_spec g 0); [done|]. f_equal. unfold bps_part.
    destruct (Z.eqb_spec bps 0) as [->|].
    + rewrite Z.mul_0_r. change (cdiv 0 BPS_DENOM) with 0.
      destruct (Z.ltb_spec (flat + 0) mn); lia.
    + rewrite cdiv_quot by (unfold BPS_DENOM; nia).
      destruct (Z.ltb_spec (flat + cdiv (g * bps) BPS_DENOM) mn); lia.
Qed.

Lemma deterministicFee_valid g bps flat mn :
  0 ≤ g → 0 ≤ bps → 0 ≤ flat → 0 ≤ mn →
  deterministicFee g bps flat mn
  = Ok (if g =? 0 then 0 else Z.max mn (flat + bps_part g bps)).
Proof. intros. by apply deterministicFee_Ok. Qed.

Lemma bps_part_bounds g bps : 0 ≤ g → 0 ≤ bps →
  0 ≤ bps_part g bps ∧ g * bps ≤ bps_part g bps * BPS_DENOM < g * bps + BPS_DENOM.
Proof.
  intros. pose proof (cdiv_bounds (g * bps) BPS_DENOM eq_refl).
  pose proof (cdiv_nonneg (g * bps) BPS_DENOM eq_refl ltac:(nia)). unfold bps_part. lia.
Qed.

Lemma bps_part_mono g h bps : 0 ≤ bps → g ≤ h → bps_part g bps ≤ bps_part h bps.
Proof. intros. apply cdiv_mono; [done|]. nia. Qed.

(** ** Dust *)

Lemma at_is_first s i v : at_is s i v = true → byte_at s i = Some v.
Proof. unfold at_is. by rewrite bool_decide_eq_true. Qed.

Lemma dustThreshold_creator script :
  isCreatorScript script = true →
  dustThreshold script DUST_RELAY_FEE_SAT_PER_KVB ∈ [294; 330; 540].
Proof.
  unfold isCreatorScript, dustThreshold, isWitnessProgram. intros H.
  apply orb_true_iff in H as [H|H]; [apply orb_true_iff in H as [H|H]|].
  - apply andb_true_iff in H as [H H1]. apply andb_true_iff in H as [Hl H0].
    apply Z.eqb_eq in Hl. rewrite Hl. unfold at_is in *. to_prop. rewrite H0, H1.
    rewrite bool_decide_eq_false_2 by congruence. set_solver.
  - apply andb_true_iff in H as [H H1]. apply andb_true_iff in H as [Hl H0].
    apply Z.eqb_eq in Hl. rewrite Hl. unfold at_is in *. to_prop. rewrite H0, H1.
    rewrite bool_decide_eq_false_2 by congruence. set_solver.
  - apply andb_true_iff in H as [H _]. apply andb_true_iff in H as [H H1].
    apply andb_true_iff in H as [Hl H0].
    apply Z.eqb_eq in Hl. rewrite Hl. unfold at_is in *. to_prop. rewrite H0, H1.
    rewrite bool_decide_eq_false_2 by congruence. set_solver.
Qed.

(** ** Properties of the economics *)

(** C38: [stairs210.costToBuy] terminates on every supply and amount, negative
    and oversized ones included: 212 iterations of its [while] loop always reach
    a price or an explicit error. *)
Theorem stairs210_terminates supply amount :
  costToBuy stairs210 supply amount ≠ Throw out_of_fuel.
Proof.
  cbn [costToBuy stairs210]. unfold stairs210_costToBuy.
  destruct (decide (0 ≤ supply)) as [H|H].
  - by apply stairs210_loop_terminates.
  - apply stairs210_loop_negative; [lia|done].
Qed.

(** C35: The two implementations of the staircase agree: for every supply and
    every positive amount the economics package's [stairs210.costToBuy] returns
    exactly the contribution that the curve package's [quoteExactTokens] quotes,
    and where the quote refuses a purchase beyond the public supply the walk
    refuses it too. *)
Theorem stairs210_agrees_with_quote supply amount :
  0 ≤ supply → 0 < amount →
  costToBuy stairs210 supply amount =
  match quoteExactTokens amount supply with
  | Ok r => Ok (curveContributionSats r)
  | Throw _ => Throw (beyond_supply amount supply)
  end.
Proof.
  intros Hs Ha. destruct (decide (supply + amount ≤ PUBLIC_SUPPLY)) as [Hin|Hout].
  - rewrite stairs210_costToBuy_valid, quoteExactTokens_valid by (done || lia). done.
  - pose proof (quoteExactTokens_total amount supply) as T.
    destruct (quoteExactTokens amount supply) as [r|e].
    + destruct T as (_ & _ & T & _). unfold PUBLIC_SUPPLY in *. lia.
    + cbn [costToBuy stairs210]. unfold stairs210_costToBuy.
      apply stairs210_loop_beyond; [done|done|lia|].
      destruct (decide (supply < PUBLIC_SUPPLY)).
      * left. split; [done|]. by apply stair_fuel_enough.
      * right. split; [lia|done].
Qed.

Lemma stairs210_agrees_with_quote_witness :
  costToBuy stairs210 199500 1000 = Ok 68 ∧ costToBuy stairs210 20999000 2000 = Throw (beyond_supply 2000 20999000).
Proof.
  split.
  - rewrite (stairs210_agrees_with_quote 199500 1000); [vm_compute; reflexivity|lia|lia].
  - rewrite (stairs210_agrees_with_quote 20999000 2000); [vm_compute; reflexivity|lia|lia].
Defined.

(** On whole lots the price is path independent: buying [a] then [b] tokens
    costs exactly what buying [a + b] at once costs (no rounding is gained or
    lost by splitting), and each lot costs 27 sats times the number of its
    stair. *)
Theorem stairs210_lots_path_independent s a b :
  0 ≤ s → 0 ≤ a → 0 ≤ b → s + a + b ≤ PUBLIC_SUPPLY →
  s `mod` LOT_TOKENS = 0 → a `mod` LOT_TOKENS = 0 →
  (∃ x y, costToBuy stairs210 s a = Ok x ∧ costToBuy stairs210 (s + a) b = Ok y
          ∧ costToBuy stairs210 s (a + b) = Ok (x + y))
  ∧ (s + LOT_TOKENS ≤ PUBLIC_SUPPLY →
     costToBuy stairs210 s LOT_TOKENS = Ok (27 * (s `div` TOKENS_PER_STAGE + 1))).
Proof.
  intros Hs Ha Hb Hmax Hsl Hal.
  assert ((s + a) `mod` LOT_TOKENS = 0) as Hsal.
  { rewrite Z.add_mod, Hsl, Hal by done. done. }
  split.
  - do 2 eexists. rewrite !stairs210_costToBuy_valid by lia. split_and!; [done..|].
    rewrite !stair_cost_exact by (first [lia|by apply lots_exact; try lia]).
    f_equal. rewrite Z.add_assoc. lia.
  - intros Hlot. rewrite stairs210_costToBuy_valid by (done || lia).
    rewrite stair_cost_exact by (first [done|by apply lots_exact]).
    rewrite curve_reserve_lot by done. f_equal. lia.
Qed.

Lemma stairs210_lots_path_independent_witness :
  ∃ x y, costToBuy stairs210 98000 3000 = Ok x ∧ costToBuy stairs210 (98000 + 3000) 5000 = Ok y
         ∧ costToBuy stairs210 98000 (3000 + 5000) = Ok (x + y).
Proof.
  apply (stairs210_lots_path_independent 98000 3000 5000); vm_compute; congruence.
Defined.

(** Buying and redeeming move along one reserve function: [grossRedeem]
    from the supply a buy reaches pays back exactly what [grossBuy] charged,
    and a sequence of two buys moves exactly the same backing as one buy of the
    total. *)
Theorem grossBuy_grossRedeem_inverse s a g :
  0 ≤ s →
  (grossBuy s a = Ok g ↔ grossRedeem (s + a) a = Ok g)
  ∧ (∀ b h, grossBuy s a = Ok g → grossBuy (s + a) b = Ok h → grossBuy s (a + b) = Ok (g + h)).
Proof.
  intros Hs. split.
  - rewrite grossBuy_Ok, grossRedeem_Ok. replace (s + a - a) with s by lia. intuition lia.
  - intros b h. rewrite !grossBuy_Ok, Z.add_assoc. intuition lia.
Qed.

Lemma grossBuy_grossRedeem_inverse_witness :
  grossBuy 99000 2000 = Ok 81 ∧ grossRedeem (99000 + 2000) 2000 = Ok 81.
Proof.
  assert (grossBuy 99000 2000 = Ok 81) as H by (vm_compute; reflexivity).
  split; [exact H|].
  exact (proj1 (proj1 (grossBuy_grossRedeem_inverse 99000 2000 81 ltac:(lia))) H).
Defined.

(** Nobody profits from a round trip: redeeming a purchase at the supply it
    reached returns at most the curve price paid, and the loss is exactly the
    two fees; under the committed fee schedule it is at least 6,000 sats. *)
Theorem round_trip_loses_fees s a cfg b r :
  0 ≤ s → quoteBuy s a cfg = Ok b → quoteRedeem (s + a) a cfg = Ok r →
  gross r = gross b ∧ net b - net r = fee b + fee r ∧ 0 ≤ fee b ∧ 0 ≤ fee r
  ∧ (cfg = COVE_FEE_CONFIG → 6000 ≤ net b - net r).
Proof.
  intros Hs Hb Hr. unfold quoteBuy in Hb. unfold quoteRedeem in Hr. res_inv Hb. res_inv Hr.
  subst b r. cbn. apply grossBuy_Ok in Hv as (_ & Ha & Hmax & -> & Hg).
  apply grossRedeem_Ok in Hv1 as (_ & _ & _ & -> & _).
  replace (s + a - a) with s in * by lia.
  set (g := curve_reserve (s + a) - curve_reserve s) in *.
  unfold mintFeeSats in Hv0. unfold redeemFeeSats in Hv2.
  apply deterministicFee_Ok in Hv0 as (_ & Hbps & Hflat & _ & ->).
  apply deterministicFee_Ok in Hv2 as (_ & Hrbps & Hrflat & Hmin & ->).
  destruct (Z.eqb_spec g 0); [lia|].
  pose proof (bps_part_bounds g (buyFeeBps cfg)). pose proof (bps_part_bounds g (redeemFeeBps cfg)).
  split; [done|]. split; [lia|]. split; [lia|]. split; [lia|]. intros ->.
  cbn [buyFeeBps buyFeeFlatSats buyFeeLotSats redeemFeeBps redeemFeeFlatSats redeemFeeMinSats COVE_FEE_CONFIG] in *.
  assert (0 ≤ Z.quot (a * ATOMS_PER_TOKEN) (LOT_TOKENS * ATOMS_PER_TOKEN)).
  { apply Z.quot_pos; unfold LOT_TOKENS; vm_compute (ATOMS_PER_TOKEN); lia. }
  lia.
Qed.

Lemma round_trip_loses_fees_witness :
  ∃ b r, quoteBuy 1000000 50000 COVE_FEE_CONFIG = Ok b ∧ quoteRedeem (1000000 + 50000) 50000 COVE_FEE_CONFIG = Ok r
    ∧ 6000 ≤ net b - net r.
Proof.
  eexists _, _. split; [vm_compute; reflexivity|]. split; [vm_compute; reflexivity|].
  eapply (round_trip_loses_fees 1000000 50000 COVE_FEE_CONFIG);
    [lia|vm_compute; reflexivity|vm_compute; reflexivity|reflexivity].
Defined.

(** The integer fee on every branch: it is refused exactly when an argument
    is negative, is zero on a zero gross, and otherwise is the flat part plus the
    percentage rounded up to a satoshi, floored at the minimum; it never
    under-charges the percentage and over-charges it by less than one satoshi,
    and it grows with the gross. *)
Theorem deterministicFee_correct g bps flat mn :
  match deterministicFee g bps flat mn with
  | Throw _ => g < 0 ∨ bps < 0 ∨ flat < 0 ∨ mn < 0
  | Ok f =>
      0 ≤ g ∧ 0 ≤ f ∧ (g = 0 → f = 0)
      ∧ (0 < g → mn ≤ f ∧ flat * BPS_DENOM + g * bps ≤ f * BPS_DENOM
                 ∧ (mn < f → f * BPS_DENOM < flat * BPS_DENOM + g * bps + BPS_DENOM))
      ∧ (∀ h f', g ≤ h → deterministicFee h bps flat mn = Ok f' → f ≤ f')
  end.
Proof.
  destruct (decide (0 ≤ g ∧ 0 ≤ bps ∧ 0 ≤ flat ∧ 0 ≤ mn)) as [(Hg & Hb & Hf & Hm)|Hneg].
  - rewrite deterministicFee_valid by done. pose proof (bps_part_bounds g bps Hg Hb).
    split; [done|]. split; [destruct (Z.eqb_spec g 0); lia|].
    split; [intros ->; done|]. split.
    + intros ?. destruct (Z.eqb_spec g 0); [lia|]. unfold BPS_DENOM in *. lia.
    + intros h f' Hle E. apply deterministicFee_Ok in E as (_ & _ & _ & _ & ->).
      pose proof (bps_part_mono g h bps Hb Hle). pose proof (bps_part_bounds h bps ltac:(lia) Hb).
      destruct (Z.eqb_spec g 0), (Z.eqb_spec h 0); lia.
  - destruct (deterministicFee g bps flat mn) as [f|e] eqn:E; [|lia].
    apply deterministicFee_Ok in E. lia.
Qed.

(** The creator's share of any mint is an output every relay carries: for
    each script shape a creator may record, the payment is at least that script's
    dust threshold. *)
Theorem creatorFee_never_dust g bps script f :
  isCreatorScript script = true → 0 < g → creatorFeeSats g bps = Ok f →
  isDustSafe f script = true ∧ isDustSafe CREATOR_RECORD_SATS script = true.
Proof.
  intros Hs Hg Hf. apply dustThreshold_creator in Hs. unfold creatorFeeSats in Hf.
  apply deterministicFee_Ok in Hf as (_ & Hb & _ & _ & ->).
  destruct (Z.eqb_spec g 0); [lia|]. unfold isDustSafe. rewrite !Z.leb_le.
  assert (dustThreshold script DUST_RELAY_FEE_SAT_PER_KVB ≤ 540) by (set_unfold; lia).
  unfold CREATOR_MIN_SATS, CREATOR_RECORD_SATS in *. lia.
Qed.

Lemma creatorFee_never_dust_witness :
  isDustSafe 546 ([xa9; x14] ++ replicate 20 x07 ++ [x87]) = true.
Proof.
  apply (creatorFee_never_dust 81 5000); [vm_compute; reflexivity|lia|vm_compute; reflexivity].
Defined.

Lemma dustThreshold_nonneg script : 0 ≤ dustThreshold script DUST_RELAY_FEE_SAT_PER_KVB.
Proof.
  unfold dustThreshold, DUST_RELAY_FEE_SAT_PER_KVB, blen.
  destruct (at_is script 0 0x6a); [done|]. apply Z.quot_pos; [|done].
  destruct (isWitnessProgram script); lia.
Qed.

(** The fee-settlement check is exact: its verdict says whether the fee
    output is absent or at least the destination's dust threshold, and the
    minimum gross it reports is the smallest gross whose percentage fee reaches
    that threshold. *)
Theorem checkFeeSettlement_exact nominal script bps c :
  0 < bps → 1 ≤ dustThreshold script DUST_RELAY_FEE_SAT_PER_KVB →
  checkFeeSettlement nominal script bps = Ok c →
  (isStandard c = true ↔ nominal = 0 ∨ isDustSafe nominal script = true)
  ∧ ∃ m, minimumGrossForStandardFeeOutput c = Some m
    ∧ ∀ g f, 0 < g → deterministicFee g bps 0 0 = Ok f →
             (isDustSafe f script = true ↔ m ≤ g).
Proof.
  intros Hb Hd H. unfold checkFeeSettlement in H. res_inv H. subst c. cbn.
  unfold isDustSafe. split.
  { rewrite orb_true_iff, Z.eqb_eq. done. }
  destruct (Z.eqb_spec bps 0); [lia|]. eexists. split; [done|].
  intros g f Hg Hf. apply deterministicFee_Ok in Hf as (_ & _ & _ & _ & ->).
  destruct (Z.eqb_spec g 0); [lia|]. pose proof (bps_part_bounds g bps ltac:(lia) ltac:(lia)) as B.
  set (d := dustThreshold script DUST_RELAY_FEE_SAT_PER_KVB) in *.
  rewrite Z.leb_le, quot_div by (unfold BPS_DENOM; lia).
  pose proof (Z.div_mod ((d - 1) * BPS_DENOM) bps ltac:(lia)).
  pose proof (Z.mod_pos_bound ((d - 1) * BPS_DENOM) bps ltac:(lia)).
  rewrite Z.add_0_l, Z.max_r by lia. unfold BPS_DENOM in *. split; nia.
Qed.

Lemma checkFeeSettlement_exact_witness :
  ∃ c m, checkFeeSettlement 290 ([x00; x14] ++ replicate 20 x07) 750 = Ok c
    ∧ minimumGrossForStandardFeeOutput c = Some m ∧ m = 3907.
Proof.
  eexists _, _. split; [vm_compute; reflexivity|].
  destruct (checkFeeSettlement_exact 290 ([x00; x14] ++ replicate 20 x07) 750 _
    ltac:(lia) ltac:(vm_compute; congruence) ltac:(vm_compute; reflexivity)) as (_ & m & Hm & _).
  split; [vm_compute; reflexivity|vm_compute; reflexivity].
Defined.

(** Two rounded-up pieces of one exact integral. *)
Lemma cdiv_split x y d : 0 < d → cdiv (x + y) d ≤ cdiv x d + cdiv y d ≤ cdiv (x + y) d + 1.
Proof.
  intros Hd. pose proof (cdiv_bounds x d Hd). pose proof (cdiv_bounds y d Hd).
  pose proof (cdiv_bounds (x + y) d Hd). split; nia.
Qed.

(** The two smooth curve candidates price an exact integral, rounded up once
    per purchase: splitting a purchase in two never costs less than buying it at
    once and never more than one extra satoshi. *)
Theorem smooth_curves_split s a b :
  0 ≤ s → 0 ≤ a → 0 ≤ b →
  (∃ x y z, costToBuy linearRamp s a = Ok x ∧ costToBuy linearRamp (s + a) b = Ok y
     ∧ costToBuy linearRamp s (a + b) = Ok z ∧ z ≤ x + y ≤ z + 1)
  ∧ (∃ x y z, costToBuy quadratic s a = Ok x ∧ costToBuy quadratic (s + a) b = Ok y
     ∧ costToBuy quadratic s (a + b) = Ok z ∧ z ≤ x + y ≤ z + 1).
Proof.
  intros Hs Ha Hb.
  assert (∀ s n, 0 ≤ s → 0 ≤ n → 0 ≤ linearRamp_num s n) as Hlin.
  { intros. unfold linearRamp_num, RAMP, P0, P1, PUBLIC_SUPPLY, PUBLIC_SUPPLY_TOKENS. nia. }
  assert (∀ s n, 0 ≤ s → 0 ≤ n → 0 ≤ quadratic_num s n) as Hquad.
  { intros s' n ? ?. unfold quadratic_num, QK, RAMP, P0, P1, PUBLIC_SUPPLY, PUBLIC_SUPPLY_TOKENS.
    assert (0 ≤ (s' + n) * (s' + n) * (s' + n) - s' * s' * s'); [|nia].
    replace ((s' + n) * (s' + n) * (s' + n) - s' * s' * s')
      with (n * (3 * s' * s' + 3 * s' * n + n * n)) by ring. nia. }
  split.
  - do 3 eexists. cbn [costToBuy linearRamp]. rewrite !ceilDiv_pos by (done || apply Hlin; lia).
    split_and!; [done..| |].
    all: replace (linearRamp_num s (a + b)) with (linearRamp_num s a + linearRamp_num (s + a) b)
      by (unfold linearRamp_num; ring); by apply cdiv_split.
  - do 3 eexists. cbn [costToBuy quadratic]. rewrite !ceilDiv_pos by (done || apply Hquad; lia).
    split_and!; [done..| |].
    all: replace (quadratic_num s (a + b)) with (quadratic_num s a + quadratic_num (s + a) b)
      by (unfold quadratic_num; ring); by apply cdiv_split.
Qed.

Lemma smooth_curves_split_witness :
  ∃ x y z, costToBuy linearRamp 1000 10 = Ok x ∧ costToBuy linearRamp (1000 + 10) 15 = Ok y
     ∧ costToBuy linearRamp 1000 (10 + 15) = Ok z ∧ z ≤ x + y ≤ z + 1.
Proof. apply (smooth_curves_split 1000 10 15); lia. Defined.
