(* ===== verification/Wire.v ===== *)
(** * The wire: packages/cove-wire

    [opcodes.ts], [ticker.ts], [codecV2.ts], [codec.ts] (the version 1
    transport), [tokenId.ts] and [discovery.ts] without its JSON reader.
    SHA-256 is a parameter of the token identity. *)
From S2P Require Import Prelude Bytes.

(** ** opcodes.ts *)
Definition COVE_PROTOCOL_ID : string := "crc-20".
Definition COVE_WIRE_VERSION : Z := 1.
Definition COVE_WIRE_MAGIC : Z := 0x4356.
Definition OP_DEPLOY : Z := 0x01.
Definition OP_TRANSFER : Z := 0x02.
Definition OP_MINT : Z := 0x03.
Definition OP_REDEEM : Z := 0x04.
Definition MAX_TICKER_BYTES : Z := 16.
Definition DATACARRIER_PAYLOAD_LIMIT : Z := 80.
Definition COVE_POLICY_V3 : Z := 3.

(** [op.toString(16)] of a byte. *)
Definition byte_toString16 (z : Z) : string :=
  if z <? 16 then String (hex_digit z) ""
  else String (hex_digit (z `div` 16)) (String (hex_digit (z `mod` 16)) "").

Definition opName (op : Z) : string :=
  if op =? OP_DEPLOY then "deploy"
  else if op =? OP_TRANSFER then "transfer"
  else if op =? OP_MINT then "mint"
  else if op =? OP_REDEEM then "redeem"
  else "unknown(0x" +:+ byte_toString16 op +:+ ")".

(** ** ticker.ts *)
Definition is_alpha (a : ascii) : bool :=
  let c := Z.of_nat (nat_of_ascii a) in
  ((65 <=? c) && (c <=? 90)) || ((97 <=? c) && (c <=? 122)).
Definition is_alnum (a : ascii) : bool :=
  let c := Z.of_nat (nat_of_ascii a) in is_alpha a || ((48 <=? c) && (c <=? 57)).

(** [/^[A-Za-z][A-Za-z0-9]{0,15}$/.test(ticker)] *)
Definition ticker_regex (s : string) : bool :=
  match s with
  | EmptyString => false
  | String a s' => is_alpha a && string_forallb is_alnum s' && (String.length s' <=? 15)%nat
  end.

Definition upper (a : ascii) : ascii :=
  let c := Z.of_nat (nat_of_ascii a) in
  if (97 <=? c) && (c <=? 122) then ascii_of_nat (Z.to_nat (c - 32)) else a.
(** [s.toUpperCase()] of an ASCII string, the only ones the pattern admits. *)
Fixpoint toUpperCase (s : string) : string :=
  match s with EmptyString => EmptyString | String a s' => String (upper a) (toUpperCase s') end.

Definition ticker_error : exn := js_error "ticker must be 1..16 alphanumeric, starting with a letter".

Definition canonicalTicker (ticker : string) : result string :=
  throw_if (negb (ticker_regex ticker)) ticker_error;;
  Ok (toUpperCase ticker).

(** ** codecV2.ts: data *)
Definition COVE_WIRE_V2 : Z := 2.
Definition MAX_TRANSFER_ALLOCATIONS : Z := 4.
Definition MAX_REDEEM_ALLOCATIONS : Z := 3.

Record TokenAllocation := Alloc { vout : Z; amount : Z }.

Inductive ParsedEnvelopeV2 :=
  | DeployV2 (policyVersion : Z) (ticker : string) (tokenNonce : list byte)
  | MintV2 (tokenId : list byte) (amount : Z) (recipientVout : Z)
  | TransferV2 (tokenId : list byte) (allocations : list TokenAllocation)
  | RedeemV2 (tokenId : list byte) (redeemAmount : Z) (changeAllocations : list TokenAllocation).

#[export] Instance TokenAllocation_eq_dec : EqDecision TokenAllocation.
Proof. solve_decision. Defined.
#[export] Instance ParsedEnvelopeV2_eq_dec : EqDecision ParsedEnvelopeV2.
Proof. solve_decision. Defined.

(** The [op] field of the union. *)
Definition envelope_op (e : ParsedEnvelopeV2) : Z :=
  match e with
  | DeployV2 _ _ _ => OP_DEPLOY
  | MintV2 _ _ _ => OP_MINT
  | TransferV2 _ _ => OP_TRANSFER
  | RedeemV2 _ _ _ => OP_REDEEM
  end.

Definition WireV2Error (code msg : string) : exn := coded EWireV2Error code msg.

(** ** codecV2.ts: encoding *)
Definition headerV2 (op : Z) : list byte :=
  u16be COVE_WIRE_MAGIC ++ [to_byte COVE_WIRE_V2; to_byte op].

Definition tokenIdBuffer (tokenId : list byte) : result (list byte) :=
  throw_if (negb (blen tokenId =? 32)) (WireV2Error "INVALID_TOKEN_ID" "tokenId must be 32 bytes");;
  throw_if (bytes_eqb tokenId (zeros 32)) (WireV2Error "INVALID_TOKEN_ID" "tokenId must be nonzero");;
  Ok tokenId.

Definition amountBuf (amount : Z) : result (list byte) :=
  throw_if (amount <=? 0) (WireV2Error "ZERO_AMOUNT" "amount must be positive");;
  throw_if (U64_MAX <? amount) (WireV2Error "AMOUNT_OVERFLOW" "amount exceeds u64");;
  Ok (u64be amount).

Definition voutBuf (vout : Z) : result (list byte) :=
  throw_if ((vout <? 0) || (255 <? vout)) (WireV2Error "INVALID_VOUT" "vout out of range");;
  Ok [to_byte vout].

Fixpoint assertAllocations_loop (l : list TokenAllocation) (seen : gset Z) (total : Z) : result unit :=
  match l with
  | [] => Ok tt
  | a :: l' =>
      throw_if (bool_decide (vout a ∈ seen))
        (WireV2Error "DUPLICATE_VOUT" ("duplicate vout " +:+ pretty (vout a)));;
      throw_if (amount a <=? 0) (WireV2Error "ZERO_AMOUNT" "allocation amount must be positive");;
      throw_if (U64_MAX <? total + amount a)
        (WireV2Error "AMOUNT_OVERFLOW" "allocation total overflows u64");;
      assertAllocations_loop l' ({[vout a]} ∪ seen) (total + amount a)
  end.

Definition assertAllocations (l : list TokenAllocation) (max min : Z) : result unit :=
  throw_if (Z.of_nat (length l) <? min)
    (WireV2Error "ZERO_ALLOCATIONS" ("at least " +:+ pretty min +:+ " allocations required"));;
  throw_if (max <? Z.of_nat (length l))
    (WireV2Error "TOO_MANY_ALLOCATIONS" ("max " +:+ pretty max +:+ " allocations"));;
  assertAllocations_loop l ∅ 0.

Definition encodeDeployV2 (policyVersion : Z) (ticker : string) (tokenNonce : list byte)
    : result (list byte) :=
  throw_if (negb (policyVersion =? 3)) (WireV2Error "BAD_POLICY_VERSION" "policyVersion must be 3");;
  throw_if (negb (blen tokenNonce =? 32)) (WireV2Error "INVALID_NONCE" "nonce must be 32 bytes");;
  tick ← canonicalTicker ticker;
  let tickBuf := utf8 tick in
  Ok (headerV2 OP_DEPLOY ++ [to_byte policyVersion; to_byte (blen tickBuf)] ++ tickBuf ++ tokenNonce).

Definition encodeMintV2 (tokenId : list byte) (amount recipientVout : Z) : result (list byte) :=
  t ← tokenIdBuffer tokenId;
  a ← amountBuf amount;
  v ← voutBuf recipientVout;
  Ok (headerV2 OP_MINT ++ t ++ a ++ v).

(** [for (const a of allocations) parts.push(voutBuf(a.vout), amountBuf(a.amount))] *)
Fixpoint allocationParts (l : list TokenAllocation) : result (list byte) :=
  match l with
  | [] => Ok []
  | x :: l' =>
      v ← voutBuf (vout x);
      a ← amountBuf (amount x);
      rest ← allocationParts l';
      Ok (v ++ a ++ rest)
  end.

Definition encodeTransferV2 (tokenId : list byte) (allocations : list TokenAllocation)
    : result (list byte) :=
  assertAllocations allocations MAX_TRANSFER_ALLOCATIONS 1;;
  t ← tokenIdBuffer tokenId;
  rest ← allocationParts allocations;
  Ok (headerV2 OP_TRANSFER ++ t ++ [to_byte (Z.of_nat (length allocations))] ++ rest).

Definition encodeRedeemV2 (tokenId : list byte) (redeemAmount : Z)
    (changeAllocations : list TokenAllocation) : result (list byte) :=
  assertAllocations changeAllocations MAX_REDEEM_ALLOCATIONS 0;;
  t ← tokenIdBuffer tokenId;
  a ← amountBuf redeemAmount;
  rest ← allocationParts changeAllocations;
  Ok (headerV2 OP_REDEEM ++ t ++ a ++ [to_byte (Z.of_nat (length changeAllocations))] ++ rest).

Definition reencodeV2 (e : ParsedEnvelopeV2) : result (list byte) :=
  match e with
  | DeployV2 pv ticker nonce => encodeDeployV2 pv ticker nonce
  | MintV2 tokenId amount recipientVout => encodeMintV2 tokenId amount recipientVout
  | TransferV2 tokenId allocations => encodeTransferV2 tokenId allocations
  | RedeemV2 tokenId redeemAmount change => encodeRedeemV2 tokenId redeemAmount change
  end.

Definition withinDatacarrier (payload : list byte) : bool :=
  blen payload <=? DATACARRIER_PAYLOAD_LIMIT.

(** ** codecV2.ts: decoding *)

(** [payload[i]!]: reading past the end gives [undefined], which no caller
    accepts; the length guards make it unreachable. *)
Definition undefined_byte : exn := Exn ETypeError None "undefined".
Definition byte_bang (payload : list byte) (i : Z) : result Z :=
  of_option undefined_byte (byte_at payload i).

Definition readUInt16BE0 (payload : list byte) : Z := be_value (subarray payload 0 2).

Definition readHeaderV2 (payload : list byte) : result Z :=
  throw_if (blen payload <? 4) (WireV2Error "TRUNCATED" "payload shorter than header");;
  throw_if (negb (readUInt16BE0 payload =? COVE_WIRE_MAGIC)) (WireV2Error "BAD_MAGIC" "bad magic");;
  v ← byte_bang payload 2;
  throw_if (negb (v =? COVE_WIRE_V2)) (WireV2Error "BAD_VERSION" ("expected v2, got " +:+ pretty v));;
  byte_bang payload 3.

Definition assertCanonicalTokenId (tokenId : list byte) : result unit :=
  throw_if (negb (blen tokenId =? 32)) (WireV2Error "INVALID_TOKEN_ID" "tokenId must be 32 bytes");;
  throw_if (bytes_eqb tokenId (zeros 32)) (WireV2Error "INVALID_TOKEN_ID" "zero tokenId").

Definition assertCanonicalTicker (ticker : string) : result unit :=
  c ← canonicalTicker ticker;
  throw_if (negb (String.eqb ticker c))
    (WireV2Error "NONCANONICAL_TICKER" "ticker is not canonical uppercase").

Definition readTokenId (payload : list byte) (offset : Z) : result (list byte) :=
  let tokenId := subarray payload offset (offset + 32) in
  assertCanonicalTokenId tokenId;;
  Ok tokenId.

Definition readAmount (payload : list byte) (offset : Z) : result Z := readU64 payload offset.

Fixpoint readAllocations_loop (n : nat) (payload : list byte) (offset : Z)
    (seen : gset Z) (total : Z) : result (list TokenAllocation) :=
  match n with
  | O => Ok []
  | S n' =>
      v ← byte_bang payload offset;
      a ← readAmount payload (offset + 1);
      throw_if (a =? 0) (WireV2Error "ZERO_AMOUNT" "zero allocation amount");;
      throw_if (bool_decide (v ∈ seen)) (WireV2Error "DUPLICATE_VOUT" "duplicate vout");;
      throw_if (U64_MAX <? total + a)
        (WireV2Error "AMOUNT_OVERFLOW" "allocation sum overflows u64");;
      out ← readAllocations_loop n' payload (offset + 9) ({[v]} ∪ seen) (total + a);
      Ok (Alloc v a :: out)
  end.

Definition readAllocations (payload : list byte) (offset count max : Z)
    : result (list TokenAllocation) :=
  throw_if (max <? count) (WireV2Error "TOO_MANY_ALLOCATIONS" "too many allocations");;
  readAllocations_loop (Z.to_nat count) payload offset ∅ 0.

Definition decodeV2 (payload : list byte) : result ParsedEnvelopeV2 :=
  op ← readHeaderV2 payload;
  if op =? OP_DEPLOY then
    throw_if (blen payload <? 6) (WireV2Error "TRUNCATED" "deploy too short");;
    policyVersion ← byte_bang payload 4;
    throw_if (negb (policyVersion =? 3))
      (WireV2Error "BAD_POLICY_VERSION" "policyVersion must be 3");;
    tickLen ← byte_bang payload 5;
    throw_if ((tickLen =? 0) || (16 <? tickLen))
      (WireV2Error "NONCANONICAL_TICKER" "ticker length out of range");;
    throw_if (negb (blen payload =? 6 + tickLen + 32))
      (WireV2Error "TRUNCATED" "deploy length mismatch");;
    let ticker := toString_utf8 (subarray payload 6 (6 + tickLen)) in
    assertCanonicalTicker ticker;;
    Ok (DeployV2 policyVersion ticker (subarray payload (6 + tickLen) (6 + tickLen + 32)))
  else if op =? OP_MINT then
    throw_if (negb (blen payload =? 4 + 32 + 8 + 1)) (WireV2Error "TRUNCATED" "mint length mismatch");;
    tokenId ← readTokenId payload 4;
    amount ← readAmount payload 36;
    throw_if (amount =? 0) (WireV2Error "ZERO_AMOUNT" "zero mint amount");;
    recipientVout ← byte_bang payload 44;
    Ok (MintV2 tokenId amount recipientVout)
  else if op =? OP_TRANSFER then
    throw_if (blen payload <? 4 + 32 + 1) (WireV2Error "TRUNCATED" "transfer too short");;
    tokenId ← readTokenId payload 4;
    count ← byte_bang payload 36;
    throw_if (count =? 0) (WireV2Error "ZERO_ALLOCATIONS" "zero allocations");;
    throw_if (negb (blen payload =? 4 + 32 + 1 + count * 9))
      (WireV2Error "TRUNCATED" "transfer length mismatch");;
    allocations ← readAllocations payload 37 count MAX_TRANSFER_ALLOCATIONS;
    Ok (TransferV2 tokenId allocations)
  else if op =? OP_REDEEM then
    throw_if (blen payload <? 4 + 32 + 8 + 1) (WireV2Error "TRUNCATED" "redeem too short");;
    tokenId ← readTokenId payload 4;
    redeemAmount ← readAmount payload 36;
    throw_if (redeemAmount =? 0) (WireV2Error "ZERO_AMOUNT" "zero redeem amount");;
    count ← byte_bang payload 44;
    throw_if (negb (blen payload =? 4 + 32 + 8 + 1 + count * 9))
      (WireV2Error "TRUNCATED" "redeem length mismatch");;
    changeAllocations ← readAllocations payload 45 count MAX_REDEEM_ALLOCATIONS;
    Ok (RedeemV2 tokenId redeemAmount changeAllocations)
  else Throw (WireV2Error "BAD_OPCODE" ("unknown op 0x" +:+ byte_toString16 op)).

(** ** codec.ts: the version 1 transport *)
Inductive ParsedEnvelope :=
  | DeployV1 (version : Z) (tick : string)
  | AmountV1 (version op amount : Z).

Definition WireError (code msg : string) : exn := coded EWireError code msg.

Definition header (op : Z) : list byte :=
  u16be COVE_WIRE_MAGIC ++ [to_byte COVE_WIRE_VERSION; to_byte op].

Definition encodeDeploy (tick : string) : result (list byte) :=
  let t := utf8 tick in
  throw_if ((blen t =? 0) || (MAX_TICKER_BYTES <? blen t))
    (WireError "INVALID_TICKER" ("ticker must be 1.." +:+ pretty MAX_TICKER_BYTES +:+ " bytes"));;
  throw_if (negb (string_forallb is_alnum tick && negb (String.eqb tick "")))
    (WireError "INVALID_TICKER" "ticker must be alphanumeric");;
  Ok (header OP_DEPLOY ++ [to_byte (blen t)] ++ t).

Definition encodeAmount (op amount : Z) : result (list byte) :=
  throw_if ((amount <=? 0) || (U64_MAX <? amount)) (WireError "INVALID_AMOUNT" "amount out of u64 range");;
  Ok (header op ++ u64be amount).

Fixpoint toString16_fuel (fuel : nat) (z : Z) (acc : string) : string :=
  match fuel with
  | O => acc
  | S f => let acc' := String (hex_digit (z `mod` 16)) acc in
           if z <? 16 then acc' else toString16_fuel f (z `div` 16) acc'
  end.
(** [n.toString(16)] of a two-byte number. *)
Definition u16_toString16 (z : Z) : string := toString16_fuel 4 z "".

Definition readHeader (payload : list byte) : result Z :=
  throw_if (blen payload <? 4) (WireError "TRUNCATED" "payload shorter than header");;
  let magic := readUInt16BE0 payload in
  throw_if (negb (magic =? COVE_WIRE_MAGIC))
    (WireError "BAD_MAGIC" ("unexpected magic 0x" +:+ u16_toString16 magic));;
  version ← byte_bang payload 2;
  throw_if (negb (version =? COVE_WIRE_VERSION))
    (WireError "BAD_VERSION" ("unsupported version " +:+ pretty version));;
  byte_bang payload 3.

Definition decode (payload : list byte) : result ParsedEnvelope :=
  op ← readHeader payload;
  if op =? OP_DEPLOY then
    throw_if (blen payload <? 5) (WireError "TRUNCATED" "deploy payload too short");;
    tickLen ← byte_bang payload 4;
    throw_if (negb (blen payload =? 5 + tickLen))
      (WireError "TRUNCATED" "deploy ticker length mismatch");;
    Ok (DeployV1 COVE_WIRE_VERSION (toString_utf8 (subarray payload 5 (5 + tickLen))))
  else if (op =? OP_MINT) || (op =? OP_REDEEM) || (op =? OP_TRANSFER) then
    throw_if (negb (blen payload =? 12)) (WireError "TRUNCATED" "amount payload must be exactly 12 bytes");;
    amount ← readU64 payload 4;
    Ok (AmountV1 COVE_WIRE_VERSION op amount)
  else Throw (WireError "BAD_OPCODE" ("unknown op 0x" +:+ byte_toString16 op)).

(** ** tokenId.ts *)
Definition CHAIN_BITCOIN_MAINNET : string := "bitcoin-mainnet".
Definition CHAIN_BITCOIN_REGTEST : string := "bitcoin-regtest".
Definition CHAIN_BITCOIN_SIGNET : string := "bitcoin-signet".
Definition CHAIN_BITCOIN_TESTNET : string := "bitcoin-testnet".

Record TokenIdentityInput := {
  chainIdentity : string;
  policyVersion : Z;
  ticker : string;
  tokenNonce : list byte;
  creatorScript : list byte;
}.

(** The bytes [computeTokenId] hashes, under the canonical ticker. *)
Definition tokenIdMessage (i : TokenIdentityInput) (tick : string) : list byte :=
  utf8 (chainIdentity i) ++ [to_byte (policyVersion i)] ++ utf8 tick ++ tokenNonce i
  ++ [to_byte (blen (creatorScript i))] ++ creatorScript i.

Section TokenId.
(** SHA-256 of [node:crypto]. *)
Context (sha256 : list byte → list byte).

Definition taggedHash (tag : string) (msg : list byte) : list byte :=
  let tagHash := sha256 (utf8 tag) in
  sha256 (tagHash ++ tagHash ++ msg).

Definition computeTokenId (i : TokenIdentityInput) : result (list byte) :=
  tick ← canonicalTicker (ticker i);
  throw_if (negb (blen (tokenNonce i) =? 32)) (js_error "tokenNonce must be 32 bytes");;
  throw_if (policyVersion i <? 1) (js_error "policyVersion must be a positive integer");;
  throw_if ((blen (creatorScript i) =? 0) || (255 <? blen (creatorScript i)))
    (js_error "creatorScript must be 1..255 bytes");;
  Ok (taggedHash "CoveToken" (tokenIdMessage i tick)).

Definition tokenIdHex (i : TokenIdentityInput) : result string :=
  h ← computeTokenId i; Ok (toHex h).
End TokenId.

(** ** discovery.ts *)
Record DiscoveryEnvelope := {
  d_p : string;
  d_op : string;
  d_tick : option string;
  d_amt : option string;
}.

Definition KEY_ORDER : list string := ["p"; "op"; "tick"; "amt"]%string.

(** [env[k]] *)
Definition env_field (env : DiscoveryEnvelope) (k : string) : option string :=
  if String.eqb k "p" then Some (d_p env)
  else if String.eqb k "op" then Some (d_op env)
  else if String.eqb k "tick" then d_tick env
  else if String.eqb k "amt" then d_amt env
  else None.

Definition dquote : ascii := ascii_of_nat 34.
Definition backslash : ascii := ascii_of_nat 92.

Definition json_escape (a : ascii) : string :=
  let c := nat_of_ascii a in
  if decide (c = 34 ∨ c = 92)%nat then String backslash (String a "")
  else if decide (c = 8)%nat then String backslash "b"
  else if decide (c = 9)%nat then String backslash "t"
  else if decide (c = 10)%nat then String backslash "n"
  else if decide (c = 12)%nat then String backslash "f"
  else if decide (c = 13)%nat then String backslash "r"
  else if decide (c < 32)%nat then
    String backslash "u00" +:+ String (hex_digit (Z.of_nat c `div` 16))
                                 (String (hex_digit (Z.of_nat c `mod` 16)) "")
  else String a "".

Fixpoint json_escapes (s : string) : string :=
  match s with EmptyString => EmptyString | String a s' => json_escape a +:+ json_escapes s' end.

(** [JSON.stringify(s)] of a string. *)
Definition json_stringify (s : string) : string :=
  String dquote (json_escapes s +:+ String dquote "").

(** [parts.join(",")] *)
Definition join_comma (parts : list string) : string := String.concat "," parts.

Definition serializeDiscovery_string (env : DiscoveryEnvelope) : string :=
  let part k := match env_field env k with
                | None => []
                | Some v => [json_stringify k +:+ ":" +:+ json_stringify v]
                end in
  "{" +:+ join_comma (KEY_ORDER ≫= part) +:+ "}".

Definition serializeDiscovery (env : DiscoveryEnvelope) : list byte :=
  utf8 (serializeDiscovery_string env).

Definition DiscoveryError (code msg : string) : exn := coded EDiscoveryError code msg.

Definition discoveryFor (binary : ParsedEnvelopeV2) : result DiscoveryEnvelope :=
  let op := opName (envelope_op binary) in
  let with_amt a := {| d_p := COVE_PROTOCOL_ID; d_op := op; d_tick := Some ""%string;
                       d_amt := Some (pretty a) |} in
  match binary with
  | DeployV2 _ ticker _ =>
      tick ← canonicalTicker ticker;
      Ok {| d_p := COVE_PROTOCOL_ID; d_op := op; d_tick := Some tick; d_amt := None |}
  | MintV2 _ amount _ => Ok (with_amt amount)
  | TransferV2 _ allocations => Ok (with_amt (foldl (λ a x, a + amount x) 0 allocations))
  | RedeemV2 _ redeemAmount _ => Ok (with_amt redeemAmount)
  end.

Definition env_with_tick (env : DiscoveryEnvelope) (t : option string) : DiscoveryEnvelope :=
  {| d_p := d_p env; d_op := d_op env; d_tick := t; d_amt := d_amt env |}.

Definition encodeDiscovery (binary : ParsedEnvelopeV2) (ticker : option string) : result (list byte) :=
  env ← discoveryFor binary;
  env ← match ticker with
        | Some t => if bool_decide (d_tick env = Some ""%string)
                    then c ← canonicalTicker t; Ok (env_with_tick env (Some c))
                    else Ok env
        | None => Ok env
        end;
  let env := if bool_decide (d_tick env = Some ""%string) then env_with_tick env None else env in
  let bytes := serializeDiscovery env in
  throw_if (DATACARRIER_PAYLOAD_LIMIT <? blen bytes)
    (DiscoveryError "DISCOVERY_TOO_LARGE"
       ("discovery envelope is " +:+ pretty (blen bytes) +:+ "B, limit "
        +:+ pretty DATACARRIER_PAYLOAD_LIMIT +:+ "B"));;
  Ok bytes.

Definition discoveryAgreesWithBinary (payload : list byte) (binary : ParsedEnvelopeV2)
    (ticker : option string) : bool :=
  match encodeDiscovery binary ticker with
  | Ok expected => bytes_eqb payload expected
  | Throw _ => false
  end.

(** ** What a well-formed message is *)
Definition valid_vout (v : Z) : Prop := 0 ≤ v ≤ 255.
Definition valid_amount (a : Z) : Prop := 0 < a ≤ U64_MAX.
Definition valid_tokenId (t : list byte) : Prop := blen t = 32 ∧ t ≠ zeros 32.

(** Distinct outputs, positive amounts and a total within 64 bits; [seen] and
    [total] are what a loop met before. *)
Definition valid_from (seen : gset Z) (total : Z) (l : list TokenAllocation) : Prop :=
  NoDup (vout <$> l) ∧ Forall (λ a, vout a ∉ seen) l ∧ Forall (λ a, 0 < amount a) l
  ∧ (l = [] ∨ total + zsum (amount <$> l) ≤ U64_MAX).

Definition valid_allocations (l : list TokenAllocation) : Prop :=
  NoDup (vout <$> l) ∧ Forall (λ a, valid_vout (vout a) ∧ 0 < amount a) l
  ∧ zsum (amount <$> l) ≤ U64_MAX.

(** The messages the protocol admits, as a reader of the wire would list them. *)
Definition valid_envelope (e : ParsedEnvelopeV2) : Prop :=
  match e with
  | DeployV2 pv ticker nonce => pv = 3 ∧ canonicalTicker ticker = Ok ticker ∧ blen nonce = 32
  | MintV2 tokenId amount v => valid_tokenId tokenId ∧ valid_amount amount ∧ valid_vout v
  | TransferV2 tokenId l =>
      valid_tokenId tokenId ∧ (1 ≤ length l ≤ 4)%nat ∧ valid_allocations l
  | RedeemV2 tokenId amount l =>
      valid_tokenId tokenId ∧ valid_amount amount ∧ (length l ≤ 3)%nat ∧ valid_allocations l
  end.

(** ** Allocations *)
Definition allocation_bytes (l : list TokenAllocation) : list byte :=
  l ≫= λ a, to_byte (vout a) :: u64be (amount a).

Lemma allocation_bytes_cons a l :
  allocation_bytes (a :: l) = to_byte (vout a) :: u64be (amount a) ++ allocation_bytes l.
Proof. done. Qed.

Lemma blen_allocation_bytes l : blen (allocation_bytes l) = 9 * Z.of_nat (length l).
Proof.
  induction l as [|a l IH]; [done|]. rewrite allocation_bytes_cons.
  autorewrite with cove_len. rewrite IH. cbn [length]. lia.
Qed.

Lemma zsum_amounts_nonneg l : Forall (λ a, 0 < amount a) l → 0 ≤ zsum (amount <$> l).
Proof. intros H. apply zsum_nonneg, Forall_fmap. eapply Forall_impl; [exact H|]. cbn. lia. Qed.

Lemma valid_from_nil seen total : valid_from seen total [].
Proof. repeat split; [constructor..|by left]. Qed.

Lemma valid_from_cons seen total a l :
  valid_from seen total (a :: l) ↔
  vout a ∉ seen ∧ 0 < amount a ∧ total + amount a ≤ U64_MAX
  ∧ valid_from ({[vout a]} ∪ seen) (total + amount a) l.
Proof.
  unfold valid_from. rewrite fmap_cons, NoDup_cons, !Forall_cons. cbn [fmap list_fmap zsum foldr].
  fold (zsum (amount <$> l)). split.
  - intros ([Hn Hd] & [Hs Hf] & [Ha Hp] & [|Ht]); [done|].
    pose proof (zsum_amounts_nonneg l Hp). unfold zsum in *. cbn [fmap list_fmap foldr] in Ht.
    split_and!; auto with lia.
    apply Forall_forall. intros x Hx. pose proof (proj1 (Forall_forall _ _) Hf x Hx).
    assert (vout x ≠ vout a) by (intros E; apply Hn; rewrite <-E; by apply list_elem_of_fmap_2).
    set_solver.
  - intros (Hs & Ha & Ht & Hd & Hf & Hp & Hl).
    split_and!; [|done|done| |done|done|right].
    + rewrite list_elem_of_fmap. intros (x & E & Hx).
      pose proof (proj1 (Forall_forall _ _) Hf x Hx). set_solver.
    + eapply Forall_impl; [exact Hf|]. set_solver.
    + destruct Hl as [->|Hl]; cbn; unfold zsum in *; cbn [fmap list_fmap foldr] in *; lia.
Qed.

Lemma valid_from_start l :
  valid_from ∅ 0 l ↔ NoDup (vout <$> l) ∧ Forall (λ a, 0 < amount a) l ∧ zsum (amount <$> l) ≤ U64_MAX.
Proof.
  unfold valid_from. split.
  - intros (? & _ & ? & [->|?]); split_and!; auto; done.
  - intros (? & ? & ?). split_and!; auto. apply Forall_forall. set_solver.
Qed.

Lemma assertAllocations_loop_Ok l seen total :
  assertAllocations_loop l seen total = Ok tt ↔ valid_from seen total l.
Proof.
  revert seen total. induction l as [|a l IH]; intros seen total.
  - split; [intros; apply valid_from_nil|done].
  - rewrite valid_from_cons, <-IH. cbn [assertAllocations_loop]. split.
    + intros H. res_inv H. to_prop. done.
    + intros (? & ? & ? & ?). repeat guard_step ltac:(done || lia). done.
Qed.

Lemma voutBuf_Ok v b : voutBuf v = Ok b ↔ valid_vout v ∧ b = [to_byte v].
Proof.
  unfold voutBuf, valid_vout. split.
  - intros H. res_inv H. to_prop. split; [lia|done].
  - intros [? ->]. by repeat guard_step lia.
Qed.

Lemma amountBuf_Ok a b : amountBuf a = Ok b ↔ valid_amount a ∧ b = u64be a.
Proof.
  unfold amountBuf, valid_amount. split.
  - intros H. res_inv H. to_prop. split; [lia|done].
  - intros [? ->]. by repeat guard_step lia.
Qed.

Lemma tokenIdBuffer_Ok t b : tokenIdBuffer t = Ok b ↔ valid_tokenId t ∧ b = t.
Proof.
  unfold tokenIdBuffer, valid_tokenId, bytes_eqb. split.
  - intros H. res_inv H. to_prop. done.
  - intros [[? ?] ->]. by repeat guard_step done.
Qed.

Lemma allocationParts_Ok l b :
  allocationParts l = Ok b ↔
  Forall (λ a, valid_vout (vout a) ∧ valid_amount (amount a)) l ∧ b = allocation_bytes l.
Proof.
  revert b. induction l as [|a l IH]; intros b; cbn [allocationParts].
  - split; [by intros [= <-]|by intros [_ ->]].
  - rewrite Forall_cons, allocation_bytes_cons. split.
    + intros H. res_inv H. apply voutBuf_Ok in Hv as [? ->]. apply amountBuf_Ok in Hv0 as [? ->].
      apply IH in Hv1 as [? ->]. by subst b.
    + intros [[[? ?] ?] ->]. rewrite (proj2 (voutBuf_Ok _ _)) by done. step_ok.
      rewrite (proj2 (amountBuf_Ok _ _)) by done. step_ok.
      rewrite (proj2 (IH _)) by done. done.
Qed.

Lemma byte_bang_at p pre v post i :
  p = pre ++ to_byte v :: post → i = blen pre → 0 ≤ v < 256 → byte_bang p i = Ok v.
Proof. intros. unfold byte_bang. by rewrite (byte_at_at p pre v post). Qed.

Lemma byte_bang_Ok p i v :
  byte_bang p i = Ok v → 0 ≤ i < blen p ∧ 0 ≤ v < 256 ∧ subarray p i (i + 1) = [to_byte v].
Proof.
  unfold byte_bang. intros H. apply of_option_Ok in H. split_and!.
  1-4: pose proof (byte_at_Some _ _ _ H); lia. by apply subarray_byte_at.
Qed.

Lemma readAllocations_loop_at l p pre post off seen total :
  p = pre ++ allocation_bytes l ++ post → off = blen pre → 0 ≤ total →
  valid_from seen total l → Forall (λ a, valid_vout (vout a)) l →
  readAllocations_loop (length l) p off seen total = Ok l.
Proof.
  revert pre off seen total. induction l as [|a l IH]; intros pre off seen total E Hoff Ht Hv Hf; [done|].
  apply valid_from_cons in Hv as (? & ? & ? & Hv). apply Forall_cons in Hf as [Ha Hf].
  unfold valid_vout in Ha. rewrite allocation_bytes_cons in E. cbn [length readAllocations_loop].
  rewrite (byte_bang_at p pre (vout a) (u64be (amount a) ++ allocation_bytes l ++ post));
    [|by rewrite E, <-?app_assoc|done|lia]. step_ok. unfold readAmount.
  rewrite (readU64_at p (pre ++ [to_byte (vout a)]) (amount a) (allocation_bytes l ++ post));
    [|by rewrite E, <-!app_assoc|autorewrite with cove_len; lia|lia]. step_ok.
  repeat guard_step ltac:(done || lia).
  rewrite (IH (pre ++ to_byte (vout a) :: u64be (amount a))); [step_ok| | |lia|done|done].
  - by destruct a.
  - by rewrite E, <-!app_assoc.
  - autorewrite with cove_len. lia.
Qed.

Lemma readAllocations_loop_Ok n p off seen total l :
  0 ≤ off → readAllocations_loop n p off seen total = Ok l →
  length l = n ∧ valid_from seen total l ∧ Forall (λ a, valid_vout (vout a)) l
  ∧ subarray p off (off + 9 * Z.of_nat n) = allocation_bytes l.
Proof.
  revert off seen total l. induction n as [|n IH]; intros off seen total l Hoff H;
    cbn [readAllocations_loop] in H.
  - injection H as <-. split_and!; [done|apply valid_from_nil|done|].
    unfold subarray. by replace (Z.to_nat (off + 9 * Z.of_nat 0 - off)) with 0%nat by lia.
  - res_inv H. subst l. apply byte_bang_Ok in Hv as (? & ? & Sv). unfold readAmount in Hv0.
    apply readU64_Ok in Hv0 as (? & ? & Sa & ?). apply IH in Hv4 as (El & Hval & Hf & Sr); [|lia].
    to_prop. split_and!; [by cbn; rewrite El| | |].
    + apply valid_from_cons. cbn [vout amount]. split_and!; try done; lia.
    + constructor; [|done]. unfold valid_vout. cbn. lia.
    + rewrite allocation_bytes_cons. cbn [vout amount].
      rewrite (subarray_split p off (off + 1)) by lia.
      rewrite (subarray_split p (off + 1) (off + 9)) by lia.
      replace (subarray p (off + 1) (off + 9)) with (u64be v0) by (rewrite <-Sa; f_equal; lia).
      replace (off + 9 * Z.of_nat (S n)) with (off + 9 + 9 * Z.of_nat n) by lia.
      by rewrite Sv, Sr.
Qed.

Lemma readHeaderV2_at p op rest :
  p = headerV2 op ++ rest → 0 ≤ op < 256 → readHeaderV2 p = Ok op.
Proof.
  intros E Hop. unfold readHeaderV2, readUInt16BE0.
  assert (blen p = 4 + blen rest) as L
    by (rewrite E; unfold headerV2; autorewrite with cove_len; reflexivity).
  pose proof (blen_nonneg rest).
  rewrite (subarray_at p [] (u16be COVE_WIRE_MAGIC) ([to_byte COVE_WIRE_V2; to_byte op] ++ rest))
    by (rewrite ?E; done).
  guard_step lia. guard_step ltac:(vm_compute; reflexivity).
  rewrite (byte_bang_at p (u16be COVE_WIRE_MAGIC) COVE_WIRE_V2 ([to_byte op] ++ rest) 2)
    by (rewrite ?E; reflexivity || (unfold COVE_WIRE_V2; lia)). step_ok.
  guard_step ltac:(reflexivity).
  by rewrite (byte_bang_at p (u16be COVE_WIRE_MAGIC ++ [to_byte COVE_WIRE_V2]) op rest)
    by (rewrite ?E; reflexivity || lia).
Qed.

Lemma readHeaderV2_Ok p op :
  readHeaderV2 p = Ok op → 4 ≤ blen p ∧ 0 ≤ op < 256 ∧ subarray p 0 4 = headerV2 op.
Proof.
  unfold readHeaderV2. intros H. res_inv H. to_prop.
  apply byte_bang_Ok in Hv1 as (? & ? & S2). apply byte_bang_Ok in H as (? & ? & S3).
  split_and!; try lia. subst.
  rewrite (subarray_split p 0 2), (subarray_split p 2 3) by lia.
  replace (subarray p 2 3) with [to_byte COVE_WIRE_V2] by (symmetry; exact S2).
  replace (subarray p 3 4) with [to_byte op] by (symmetry; exact S3).
  unfold headerV2. f_equal. unfold readUInt16BE0 in Hv0. unfold u16be. rewrite <-Hv0.
  symmetry. rewrite <-(be_bytes_value (subarray p 0 2)) at 2.
  by rewrite subarray_length by lia.
Qed.

Lemma assertCanonicalTokenId_Ok t : assertCanonicalTokenId t = Ok tt ↔ valid_tokenId t.
Proof.
  unfold assertCanonicalTokenId, valid_tokenId, bytes_eqb. split.
  - intros H. res_inv H. to_prop. done.
  - intros [? ?]. guard_step done. unfold throw_if. by rewrite bool_decide_false.
Qed.

Lemma readTokenId_at p pre t post off :
  p = pre ++ t ++ post → off = blen pre → valid_tokenId t → readTokenId p off = Ok t.
Proof.
  intros E Hoff Ht. unfold readTokenId.
  rewrite (subarray_at p pre t post) by (destruct Ht; done || lia).
  by rewrite (proj2 (assertCanonicalTokenId_Ok t)).
Qed.

Lemma readTokenId_Ok p off t :
  readTokenId p off = Ok t → subarray p off (off + 32) = t ∧ valid_tokenId t.
Proof.
  unfold readTokenId. intros H. res_inv H. subst t. split; [done|].
  apply assertCanonicalTokenId_Ok. by destruct v.
Qed.

(** ** Tickers *)
Lemma upper_alnum a :
  is_alnum a = true → is_alnum (upper a) = true ∧ upper (upper a) = upper a
  ∧ u8 (byte_of_ascii (upper a)) < 128.
Proof.
  intros H. destruct a as [[] [] [] [] [] [] [] []]; vm_compute in H; try discriminate H;
    split_and!; vm_compute; reflexivity.
Qed.

Lemma upper_alpha a : is_alpha a = true → is_alpha (upper a) = true ∧ is_alnum a = true.
Proof.
  intros H. destruct a as [[] [] [] [] [] [] [] []]; vm_compute in H; try discriminate H;
    split; vm_compute; reflexivity.
Qed.

Lemma toUpperCase_alnum s :
  string_forallb is_alnum s = true →
  string_forallb is_alnum (toUpperCase s) = true ∧ toUpperCase (toUpperCase s) = toUpperCase s
  ∧ ascii_bytes (utf8 (toUpperCase s)) ∧ String.length (toUpperCase s) = String.length s.
Proof.
  induction s as [|a s IH]; cbn [string_forallb toUpperCase]; intros H.
  - split_and!; try done. constructor.
  - apply andb_true_iff in H as [Ha Hs]. destruct (upper_alnum a Ha) as (-> & -> & ?).
    destruct (IH Hs) as (-> & -> & ? & E). cbn [String.length]. rewrite E.
    split_and!; try done. by constructor.
Qed.

Lemma canonicalTicker_Ok s t :
  canonicalTicker s = Ok t →
  t = toUpperCase s ∧ canonicalTicker t = Ok t ∧ ascii_bytes (utf8 t) ∧ 1 ≤ blen (utf8 t) ≤ 16.
Proof.
  unfold canonicalTicker. intros H. res_inv H. to_prop. subst t.
  destruct s as [|a s]; [done|]. cbn [ticker_regex] in Hv. to_prop. destruct Hv as [[Ha Hs] Hl].
  destruct (upper_alpha a Ha) as [Ha' Hn]. destruct (upper_alnum a Hn) as (? & Hu & ?).
  destruct (toUpperCase_alnum s Hs) as (Hs' & Hu' & Hb & Hlen).
  split_and!; [done| | | |].
  - cbn [toUpperCase ticker_regex]. rewrite Ha', Hs', Hlen, (proj2 (Nat.leb_le _ _) Hl).
    unfold throw_if. cbn [negb andb]. step_ok. cbn [toUpperCase]. by rewrite Hu, Hu'.
  - change (Forall (λ b, u8 b < 128) (byte_of_ascii (upper a) :: utf8 (toUpperCase s))). by constructor.
  - unfold blen. rewrite utf8_length. cbn [toUpperCase String.length]. lia.
  - unfold blen. rewrite utf8_length. cbn [toUpperCase String.length]. rewrite Hlen. lia.
Qed.

Lemma toString_utf8_ascii s : ascii_bytes (utf8 s) → toString_utf8 (utf8 s) = s.
Proof. intros H. unfold toString_utf8. by rewrite utf8_decode_ascii, of_utf8_utf8. Qed.

Lemma assertCanonicalTicker_Ok s : assertCanonicalTicker s = Ok tt ↔ canonicalTicker s = Ok s.
Proof.
  unfold assertCanonicalTicker. split.
  - intros H. res_inv H. to_prop. by subst.
  - intros ->. step_ok. by rewrite String.eqb_refl.
Qed.

(** An accepted ticker is the text of the very bytes on the wire. *)
Lemma canonical_ticker_bytes l :
  canonicalTicker (toString_utf8 l) = Ok (toString_utf8 l) → utf8 (toString_utf8 l) = l.
Proof.
  intros H. apply canonicalTicker_Ok in H as (_ & _ & Ha & _).
  unfold toString_utf8 in *. rewrite utf8_of_utf8 in *. by apply utf8_decode_ascii_inv.
Qed.

(** ** Encoding *)
Lemma assertAllocations_Ok l max min :
  assertAllocations l max min = Ok tt ↔
  min ≤ Z.of_nat (length l) ≤ max ∧ valid_from ∅ 0 l.
Proof.
  unfold assertAllocations. rewrite <-assertAllocations_loop_Ok. split.
  - intros H. res_inv H. to_prop. split; [lia|done].
  - intros [? ?]. by repeat guard_step lia.
Qed.

Lemma zsum_amount_le l a :
  Forall (λ a, 0 < amount a) l → a ∈ l → amount a ≤ zsum (amount <$> l).
Proof.
  intros H. revert a. induction H as [|b l Hb Hl IH]; intros a; [set_solver|].
  pose proof (zsum_amounts_nonneg l Hl). intros Ha. apply elem_of_cons in Ha as [->|Ha].
  - cbn [fmap list_fmap zsum foldr]. unfold zsum in *. lia.
  - specialize (IH a Ha). cbn [fmap list_fmap zsum foldr]. unfold zsum in *. lia.
Qed.

Lemma valid_allocations_spec l :
  valid_allocations l ↔
  valid_from ∅ 0 l ∧ Forall (λ a, valid_vout (vout a) ∧ valid_amount (amount a)) l.
Proof.
  rewrite valid_from_start. unfold valid_allocations. split.
  - intros (Hn & Hf & Hs).
    assert (Forall (λ a, 0 < amount a) l) as Hp by (eapply Forall_impl; [exact Hf|]; naive_solver).
    split; [done|]. apply Forall_forall. intros a Ha. unfold valid_amount.
    pose proof (proj1 (Forall_forall _ _) Hf a Ha) as [? ?].
    pose proof (zsum_amount_le l a Hp Ha). split; [done|lia].
  - intros ((Hn & Hp & Hs) & Hf). split_and!; [done| |done].
    eapply Forall_impl; [exact Hf|]. unfold valid_amount. naive_solver.
Qed.

Lemma encodeTransferV2_Ok t l p :
  encodeTransferV2 t l = Ok p ↔ valid_envelope (TransferV2 t l)
  ∧ p = headerV2 OP_TRANSFER ++ t ++ [to_byte (Z.of_nat (length l))] ++ allocation_bytes l.
Proof.
  unfold encodeTransferV2. cbn [valid_envelope]. rewrite valid_allocations_spec. split.
  - intros H. res_inv H. subst p. destruct v. apply assertAllocations_Ok in Hv as [? ?].
    apply tokenIdBuffer_Ok in Hv0 as [? ->]. apply allocationParts_Ok in Hv1 as [? ->].
    unfold MAX_TRANSFER_ALLOCATIONS in *. split_and!; done || lia.
  - intros ((? & ? & ? & ?) & ->).
    rewrite (proj2 (assertAllocations_Ok l _ _)) by (unfold MAX_TRANSFER_ALLOCATIONS; split; [lia|done]).
    step_ok. rewrite (proj2 (tokenIdBuffer_Ok t t)) by done. step_ok.
    by rewrite (proj2 (allocationParts_Ok l _)) by done.
Qed.

Lemma encodeRedeemV2_Ok t a l p :
  encodeRedeemV2 t a l = Ok p ↔ valid_envelope (RedeemV2 t a l)
  ∧ p = headerV2 OP_REDEEM ++ t ++ u64be a ++ [to_byte (Z.of_nat (length l))] ++ allocation_bytes l.
Proof.
  unfold encodeRedeemV2. cbn [valid_envelope]. rewrite valid_allocations_spec. split.
  - intros H. res_inv H. subst p. destruct v. apply assertAllocations_Ok in Hv as [? ?].
    apply tokenIdBuffer_Ok in Hv0 as [? ->]. apply amountBuf_Ok in Hv1 as [? ->].
    apply allocationParts_Ok in Hv2 as [? ->].
    unfold MAX_REDEEM_ALLOCATIONS in *. split_and!; done || lia.
  - intros ((? & ? & ? & ? & ?) & ->).
    rewrite (proj2 (assertAllocations_Ok l _ _)) by (unfold MAX_REDEEM_ALLOCATIONS; split; [lia|done]).
    step_ok. rewrite (proj2 (tokenIdBuffer_Ok t t)) by done. step_ok.
    rewrite (proj2 (amountBuf_Ok a _)) by done. step_ok.
    by rewrite (proj2 (allocationParts_Ok l _)) by done.
Qed.

Lemma encodeMintV2_Ok t a v p :
  encodeMintV2 t a v = Ok p ↔ valid_envelope (MintV2 t a v)
  ∧ p = headerV2 OP_MINT ++ t ++ u64be a ++ [to_byte v].
Proof.
  unfold encodeMintV2. cbn [valid_envelope]. split.
  - intros H. res_inv H. subst p. apply tokenIdBuffer_Ok in Hv as [? ->].
    apply amountBuf_Ok in Hv0 as [? ->]. by apply voutBuf_Ok in Hv1 as [? ->].
  - intros ((? & ? & ?) & ->). rewrite (proj2 (tokenIdBuffer_Ok t t)) by done. step_ok.
    rewrite (proj2 (amountBuf_Ok a _)) by done. step_ok.
    by rewrite (proj2 (voutBuf_Ok v _)) by done.
Qed.

Lemma encodeDeployV2_Ok pv tick nonce p :
  encodeDeployV2 pv tick nonce = Ok p ↔
  ∃ c, canonicalTicker tick = Ok c ∧ valid_envelope (DeployV2 pv c nonce)
  ∧ p = headerV2 OP_DEPLOY ++ [to_byte pv; to_byte (blen (utf8 c))] ++ utf8 c ++ nonce.
Proof.
  unfold encodeDeployV2. cbn [valid_envelope]. split.
  - intros H. res_inv H. to_prop. subst p. exists v1.
    pose proof (canonicalTicker_Ok _ _ Hv1) as (_ & ? & _). done.
  - intros (c & Hc & (-> & ? & ?) & ->). rewrite Hc. by repeat guard_step ltac:(done || lia).
Qed.

(** The only bytes of a message. *)
Definition envelope_bytes (e : ParsedEnvelopeV2) : list byte :=
  headerV2 (envelope_op e) ++
  match e with
  | DeployV2 pv c nonce => [to_byte pv; to_byte (blen (utf8 c))] ++ utf8 c ++ nonce
  | MintV2 t a v => t ++ u64be a ++ [to_byte v]
  | TransferV2 t l => t ++ [to_byte (Z.of_nat (length l))] ++ allocation_bytes l
  | RedeemV2 t a l => t ++ u64be a ++ [to_byte (Z.of_nat (length l))] ++ allocation_bytes l
  end.

Lemma reencodeV2_valid e : valid_envelope e → reencodeV2 e = Ok (envelope_bytes e).
Proof.
  intros H. destruct e as [pv c nonce| | |]; cbn [reencodeV2].
  - apply encodeDeployV2_Ok. exists c. destruct H as (? & ? & ?). by split_and!.
  - by apply encodeMintV2_Ok.
  - by apply encodeTransferV2_Ok.
  - by apply encodeRedeemV2_Ok.
Qed.

(** Encoding normalises the ticker and nothing else. *)
Lemma reencodeV2_Ok e p :
  reencodeV2 e = Ok p →
  ∃ e', valid_envelope e' ∧ p = envelope_bytes e' ∧
    match e with
    | DeployV2 pv t n => canonicalTicker t ≫= (λ c, Ok (DeployV2 pv c n)) = Ok e'
    | _ => e' = e
    end.
Proof.
  destruct e; cbn [reencodeV2]; intros H.
  - apply encodeDeployV2_Ok in H as (c & Hc & ? & ->). eexists; split; [done|].
    split; [done|]. by rewrite Hc.
  - apply encodeMintV2_Ok in H as [? ->]. by eexists.
  - apply encodeTransferV2_Ok in H as [? ->]. by eexists.
  - apply encodeRedeemV2_Ok in H as [? ->]. by eexists.
Qed.

Lemma blen_envelope_bytes e :
  valid_envelope e →
  blen (envelope_bytes e) =
    match e with
    | DeployV2 _ c _ => 38 + blen (utf8 c)
    | MintV2 _ _ _ => 45
    | TransferV2 _ l => 37 + 9 * Z.of_nat (length l)
    | RedeemV2 _ _ l => 45 + 9 * Z.of_nat (length l)
    end.
Proof.
  unfold envelope_bytes, headerV2, u16be, valid_envelope, valid_tokenId.
  intros H. destruct e; autorewrite with cove_len; rewrite ?blen_allocation_bytes;
    change (blen (be_bytes 2 COVE_WIRE_MAGIC)) with 2; intuition lia.
Qed.

Lemma blen_envelope_small e : valid_envelope e → 4 ≤ blen (envelope_bytes e) ≤ 80.
Proof.
  intros Hv. rewrite blen_envelope_bytes by done.
  destruct e as [pv c n|t a v|t l|t a l]; cbn [valid_envelope] in Hv; try lia.
  destruct Hv as (_ & Hc & _). apply canonicalTicker_Ok in Hc as (_ & _ & _ & ?). lia.
Qed.

Lemma blen_headerV2 op : blen (headerV2 op) = 4.
Proof. done. Qed.
#[local] Hint Rewrite blen_headerV2 : cove_len.

(** Solves the layout and offset conditions of the reading lemmas. *)
Ltac layout :=
  first [done | lia
  | unfold envelope_bytes; rewrite <-?app_assoc; reflexivity
  | autorewrite with cove_len; lia].

Lemma readAllocations_at l p pre off max :
  p = pre ++ allocation_bytes l → off = blen pre → Z.of_nat (length l) ≤ max →
  valid_allocations l → readAllocations p off (Z.of_nat (length l)) max = Ok l.
Proof.
  intros E Hoff Hmax Hv. apply valid_allocations_spec in Hv as [Hv Hf].
  unfold readAllocations. guard_step lia. rewrite Nat2Z.id.
  apply (readAllocations_loop_at l p pre []); [by rewrite app_nil_r|done|lia|done|].
  eapply Forall_impl; [exact Hf|]. naive_solver.
Qed.

Lemma readHeaderV2_envelope e : readHeaderV2 (envelope_bytes e) = Ok (envelope_op e).
Proof.
  unfold envelope_bytes. eapply readHeaderV2_at; [reflexivity|].
  destruct e; cbn; unfold OP_DEPLOY, OP_MINT, OP_TRANSFER, OP_REDEEM; lia.
Qed.

(** Takes the branch of a known opcode. *)
Ltac op_cases :=
  repeat match goal with
  | |- context [if ?a =? ?b then _ else _] =>
      is_const a; is_const b;
      let v := eval vm_compute in (a =? b) in change (a =? b) with v; cbn iota
  end.

Lemma decodeV2_envelope_bytes e : valid_envelope e → decodeV2 (envelope_bytes e) = Ok e.
Proof.
  intros H. pose proof (blen_envelope_bytes e H) as L. unfold decodeV2.
  rewrite readHeaderV2_envelope. step_ok.
  destruct e as [pv c nonce|t a v|t l|t a l]; cbn [envelope_op valid_envelope] in *;
    op_cases; set (p := envelope_bytes _) in *.
  - destruct H as (-> & Hc & Hn). pose proof (canonicalTicker_Ok _ _ Hc) as (_ & _ & Ha & ?).
    guard_step lia.
    rewrite (byte_bang_at p (headerV2 OP_DEPLOY) 3 (to_byte (blen (utf8 c)) :: utf8 c ++ nonce) 4) by layout.
    step_ok. guard_step done.
    rewrite (byte_bang_at p (headerV2 OP_DEPLOY ++ [to_byte 3]) (blen (utf8 c)) (utf8 c ++ nonce) 5) by layout.
    step_ok. repeat guard_step lia. cbn beta zeta.
    rewrite (subarray_at p (headerV2 OP_DEPLOY ++ [to_byte 3; to_byte (blen (utf8 c))]) (utf8 c) nonce)
      by layout.
    rewrite (subarray_at p (headerV2 OP_DEPLOY ++ [to_byte 3; to_byte (blen (utf8 c))] ++ utf8 c) nonce [])
      by (rewrite ?app_nil_r; layout).
    rewrite toString_utf8_ascii by done.
    by rewrite (proj2 (assertCanonicalTicker_Ok c)) by done.
  - destruct H as (Ht & Ha & Hv). pose proof (proj1 Ht). guard_step lia.
    rewrite (readTokenId_at p (headerV2 OP_MINT) t (u64be a ++ [to_byte v])) by layout. step_ok.
    unfold readAmount, valid_amount, valid_vout in *.
    rewrite (readU64_at p (headerV2 OP_MINT ++ t) a [to_byte v]) by layout. step_ok.
    guard_step lia.
    by rewrite (byte_bang_at p (headerV2 OP_MINT ++ t ++ u64be a) v [] 44) by layout.
  - destruct H as (Ht & ? & Hl). pose proof (proj1 Ht). guard_step lia.
    rewrite (readTokenId_at p (headerV2 OP_TRANSFER) t
      ([to_byte (Z.of_nat (length l))] ++ allocation_bytes l)) by layout. step_ok.
    rewrite (byte_bang_at p (headerV2 OP_TRANSFER ++ t) (Z.of_nat (length l)) (allocation_bytes l) 36)
      by layout. step_ok. repeat guard_step lia.
    by rewrite (readAllocations_at l p (headerV2 OP_TRANSFER ++ t ++ [to_byte (Z.of_nat (length l))]))
      by (unfold MAX_TRANSFER_ALLOCATIONS; layout).
  - destruct H as (Ht & Ha & ? & Hl). pose proof (proj1 Ht). guard_step lia.
    rewrite (readTokenId_at p (headerV2 OP_REDEEM) t
      (u64be a ++ [to_byte (Z.of_nat (length l))] ++ allocation_bytes l)) by layout. step_ok.
    unfold readAmount, valid_amount in *.
    rewrite (readU64_at p (headerV2 OP_REDEEM ++ t) a
      ([to_byte (Z.of_nat (length l))] ++ allocation_bytes l)) by layout. step_ok.
    guard_step lia.
    rewrite (byte_bang_at p (headerV2 OP_REDEEM ++ t ++ u64be a) (Z.of_nat (length l))
      (allocation_bytes l) 44) by layout. step_ok. repeat guard_step lia.
    by rewrite (readAllocations_at l p
      (headerV2 OP_REDEEM ++ t ++ u64be a ++ [to_byte (Z.of_nat (length l))]))
      by (unfold MAX_REDEEM_ALLOCATIONS; layout).
Qed.

Lemma readAllocations_Ok p off count max l :
  0 ≤ off → 0 ≤ count → readAllocations p off count max = Ok l →
  Z.of_nat (length l) = count ∧ count ≤ max ∧ valid_allocations l
  ∧ subarray p off (off + count * 9) = allocation_bytes l.
Proof.
  intros Hoff Hc H. unfold readAllocations in H. res_inv H. to_prop.
  apply readAllocations_loop_Ok in H as (El & Hval & Hf & Hs); [|done].
  split_and!; [lia|done| |by rewrite <-Hs; f_equal; lia].
  apply valid_allocations_spec. split; [done|]. apply valid_from_start in Hval as (_ & Hp & Hsum).
  apply Forall_forall. intros a Ha.
  pose proof (zsum_amount_le l a Hp Ha). pose proof (proj1 (Forall_forall _ _) Hp a Ha).
  pose proof (proj1 (Forall_forall _ _) Hf a Ha). unfold valid_amount. cbn in *. split; [done|lia].
Qed.

(** The payload is its fields in order. *)
Lemma decodeV2_Ok p e : decodeV2 p = Ok e → valid_envelope e ∧ p = envelope_bytes e.
Proof.
  unfold decodeV2. intros H. res_inv H. rename v into op.
  apply readHeaderV2_Ok in Hv as (? & _ & H4).
  rewrite <-(subarray_all p (blen p) eq_refl).
  rewrite (subarray_split p 0 4), H4 by lia.
  repeat match type of H with
  | (if ?b then _ else _) = Ok _ => destruct b eqn:?; to_prop; [subst op|]
  end; res_inv H; to_prop; subst e; unfold envelope_bytes; cbn [envelope_op valid_envelope].
  - apply byte_bang_Ok in Hv0 as (_ & _ & S4). apply byte_bang_Ok in Hv2 as (_ & ? & S5).
    destruct v5. apply assertCanonicalTicker_Ok in Hv5. subst.
    pose proof (canonical_ticker_bytes _ Hv5) as Et.
    assert (blen (subarray p 6 (6 + v2)) = v2) as El
      by (unfold blen; rewrite subarray_length; lia).
    rewrite Et, El. split.
    + split_and!; [done|done|]. unfold blen. rewrite subarray_length; lia.
    + rewrite (subarray_split p 4 5), (subarray_split p 5 6) by lia.
      replace (subarray p 4 5) with [to_byte 3] by (symmetry; exact S4).
      replace (subarray p 5 6) with [to_byte v2] by (symmetry; exact S5).
      by rewrite (subarray_split p 6 (6 + v2) (blen p)), Hv4 by lia.
  - apply readTokenId_Ok in Hv0 as [<- ?]. apply readU64_Ok in Hv1 as (_ & _ & S36 & ?).
    apply byte_bang_Ok in Hv3 as (_ & ? & S44). unfold valid_amount, valid_vout.
    split; [split_and!; done || lia|]. rewrite Hv.
    rewrite (subarray_split p 4 36), (subarray_split p 36 44) by lia.
    change (4 + 32 + 8 + 1) with (44 + 1). rewrite S44.
    by replace (subarray p 36 44) with (u64be v1) by (symmetry; exact S36).
  - apply readTokenId_Ok in Hv0 as [<- ?]. apply byte_bang_Ok in Hv1 as (_ & ? & S36).
    apply readAllocations_Ok in Hv4 as (El & ? & ? & S37); [|lia|lia].
    unfold MAX_TRANSFER_ALLOCATIONS in *.
    split; [split_and!; done || lia|]. rewrite Hv3.
    rewrite (subarray_split p 4 36), (subarray_split p 36 37) by lia.
    replace (subarray p 36 37) with [to_byte v1] by (symmetry; exact S36).
    change (4 + 32 + 1) with 37. by rewrite S37, El.
  - apply readTokenId_Ok in Hv0 as [<- ?]. apply readU64_Ok in Hv1 as (_ & _ & S36 & ?).
    apply byte_bang_Ok in Hv3 as (_ & ? & S44).
    apply readAllocations_Ok in Hv5 as (El & ? & ? & S45); [|lia|lia].
    unfold MAX_REDEEM_ALLOCATIONS, valid_amount in *.
    split; [split_and!; done || lia|]. rewrite Hv4.
    rewrite (subarray_split p 4 36), (subarray_split p 36 44), (subarray_split p 44 45) by lia.
    replace (subarray p 36 44) with (u64be v1) by (symmetry; exact S36).
    replace (subarray p 44 45) with [to_byte v3] by (symmetry; exact S44).
    change (4 + 32 + 8 + 1) with 45. by rewrite S45, El.
Qed.

(** ** The version 2 codec is canonical *)

(** C34: the decoder accepts exactly the encodings of well-formed messages: a
    payload decodes to [e] if and only if [e] satisfies the protocol's rules
    (nonzero 32-byte token id, 1..4 or 0..3 allocations to distinct outputs,
    positive amounts totalling at most 2^64-1, an upper-case ticker, policy
    version 3) and [reencodeV2 e] is that payload, byte for byte. *)
Theorem decodeV2_spec p e : decodeV2 p = Ok e ↔ valid_envelope e ∧ reencodeV2 e = Ok p.
Proof.
  split.
  - intros H. apply decodeV2_Ok in H as [Hv ->]. split; [done|]. by apply reencodeV2_valid.
  - intros [Hv H]. rewrite (reencodeV2_valid e Hv) in H. injection H as <-.
    by apply decodeV2_envelope_bytes.
Qed.

(** whatever an encoder emits decodes back: MINT, TRANSFER and REDEEM to
    the very message, DEPLOY to the message with its ticker in upper case. *)
Theorem decodeV2_reencodeV2 e p :
  reencodeV2 e = Ok p →
  decodeV2 p = match e with
               | DeployV2 pv t n => c ← canonicalTicker t; Ok (DeployV2 pv c n)
               | _ => Ok e
               end.
Proof.
  intros H. apply reencodeV2_Ok in H as (e' & Hv & -> & He).
  rewrite decodeV2_envelope_bytes by done. by destruct e; subst.
Qed.

Lemma decodeV2_reencodeV2_witness :
  decodeV2 (envelope_bytes (MintV2 (to_byte 7 :: zeros 31) 500 2))
  = Ok (MintV2 (to_byte 7 :: zeros 31) 500 2).
Proof. refine (decodeV2_reencodeV2 (MintV2 (to_byte 7 :: zeros 31) 500 2) _ _). reflexivity. Defined.

(** a message has one payload only and it fits the 80-byte datacarrier
    limit of Bitcoin Core. *)
Theorem decodeV2_unique_and_small p q e :
  decodeV2 p = Ok e → decodeV2 q = Ok e → p = q ∧ withinDatacarrier p = true.
Proof.
  intros Hp Hq. apply decodeV2_Ok in Hp as [Hv ->]. apply decodeV2_Ok in Hq as [_ ->].
  split; [done|]. unfold withinDatacarrier, DATACARRIER_PAYLOAD_LIMIT. apply Z.leb_le.
  by apply blen_envelope_small.
Qed.

Lemma decodeV2_unique_and_small_witness :
  let e := TransferV2 (to_byte 7 :: zeros 31) [Alloc 1 10; Alloc 4 20] in
  withinDatacarrier (envelope_bytes e) = true.
Proof.
  intros e. refine (proj2 (decodeV2_unique_and_small (envelope_bytes e) (envelope_bytes e) e _ _));
    vm_compute; reflexivity.
Defined.

(** The exceptions a decoder may raise. *)
Definition wire_exn (x : exn) : Prop := exn_class x = EWireV2Error ∨ x = ticker_error.

Lemma assertCanonicalTokenId_wire t x : assertCanonicalTokenId t = Throw x → wire_exn x.
Proof.
  unfold assertCanonicalTokenId, throw_if. intros H.
  destruct (negb _); [|destruct (bytes_eqb _ _)]; cbn in H; simplify_eq; by left.
Qed.

Lemma readTokenId_wire p off x : readTokenId p off = Throw x → wire_exn x.
Proof.
  unfold readTokenId. intros H. apply bind_Throw in H as [H|(? & _ & H)]; [|done].
  by apply assertCanonicalTokenId_wire in H.
Qed.

Lemma assertCanonicalTicker_wire s x : assertCanonicalTicker s = Throw x → wire_exn x.
Proof.
  unfold assertCanonicalTicker, canonicalTicker, throw_if. intros H.
  destruct (negb (ticker_regex s)); [cbn in H; simplify_eq; by right|].
  cbn in H. destruct (negb _); [|done]. injection H as <-. by left.
Qed.

Lemma readAllocations_wire n p off seen total x :
  0 ≤ off → off + 9 * Z.of_nat n ≤ blen p →
  readAllocations_loop n p off seen total = Throw x → wire_exn x.
Proof.
  revert off seen total. induction n as [|n IH]; intros off seen total Ho Hb H; [done|].
  cbn [readAllocations_loop] in H. unfold byte_bang, readAmount in H.
  destruct (byte_at_Ok p off) as (v & Ev & _); [lia|].
  destruct (readU64_in p (off + 1)) as (a & Ea & _); [lia..|].
  rewrite Ev, Ea in H. cbn [of_option] in H. rewrite !bind_of_Ok in H. unfold throw_if in H.
  repeat match type of H with
  | ((if ?b then _ else _) ≫= _) = _ =>
      destruct b; [rewrite bind_of_Throw in H; injection H as <-; by left|rewrite bind_of_Ok in H]
  end.
  apply bind_Throw in H as [H|(? & _ & H)]; [|done]. eapply IH; [| |exact H]; lia.
Qed.

(** Decides a step of the decoder: a guard raises a wire error or passes. *)
Ltac wire_step H :=
  unfold byte_bang, readAmount, readAllocations in H;
  lazymatch type of H with
  | (throw_if ?b _ ≫= _) = _ =>
      destruct b eqn:?; cbn [throw_if] in H;
      [rewrite bind_of_Throw in H; injection H as <-; by left|rewrite bind_of_Ok in H]
  | (of_option _ (byte_at ?p ?i) ≫= _) = _ =>
      let v := fresh "v" in let E := fresh in
      to_prop; destruct (byte_at_Ok p i) as (v & E & ?); [lia|rewrite E in H];
      cbn [of_option] in H; rewrite bind_of_Ok in H
  | (readU64 ?p ?i ≫= _) = _ =>
      let v := fresh "v" in let E := fresh in
      to_prop; destruct (readU64_in p i) as (v & E & ?); [lia..|rewrite E in H];
      rewrite bind_of_Ok in H
  | ((throw_if _ _ ≫= _) ≫= _) = _ => rewrite bind_assoc in H
  | (readTokenId _ _ ≫= _) = _ =>
      apply bind_Throw in H as [H|(? & _ & H)]; [by apply readTokenId_wire in H|]
  | (assertCanonicalTicker _ ≫= _) = _ =>
      apply bind_Throw in H as [H|(? & _ & H)]; [by apply assertCanonicalTicker_wire in H|]
  end.

Lemma readHeaderV2_wire p x : readHeaderV2 p = Throw x → wire_exn x.
Proof.
  unfold readHeaderV2. intros H. repeat wire_step H.
  unfold byte_bang in H. to_prop. destruct (byte_at_Ok p 3) as (w & E & ?); [lia|].
  by rewrite E in H.
Qed.

(** on any byte string the decoder returns a message or raises a
    [WireV2Error] (or the plain ticker error): no read leaves the payload. *)
Theorem decodeV2_errors p x :
  decodeV2 p = Throw x → exn_class x = EWireV2Error ∨ x = ticker_error.
Proof.
  change (decodeV2 p = Throw x → wire_exn x). unfold decodeV2. intros H.
  apply bind_Throw in H as [H|(op & Hop & H)]; [by eapply readHeaderV2_wire|].
  repeat match type of H with
  | (if ?b then _ else _) = Throw _ => destruct b eqn:?
  end.
  5: by injection H as <-; left.
  all: repeat wire_step H; try done.
  all: apply bind_Throw in H as [H|(? & _ & H)]; [|done].
  all: eapply readAllocations_wire; [| |exact H]; to_prop; lia.
Qed.

Lemma decodeV2_errors_witness :
  exn_class (WireV2Error "TRUNCATED" "payload shorter than header") = EWireV2Error
  ∨ WireV2Error "TRUNCATED" "payload shorter than header" = ticker_error.
Proof. refine (decodeV2_errors [x43] _ _). vm_compute. reflexivity. Defined.

(** ** Version 1 *)
Lemma readHeader_at p op rest :
  p = header op ++ rest → 0 ≤ op < 256 → readHeader p = Ok op.
Proof.
  intros E Hop. unfold readHeader, readUInt16BE0.
  assert (blen p = 4 + blen rest) as L
    by (rewrite E; unfold header; autorewrite with cove_len; reflexivity).
  pose proof (blen_nonneg rest).
  rewrite (subarray_at p [] (u16be COVE_WIRE_MAGIC) ([to_byte COVE_WIRE_VERSION; to_byte op] ++ rest))
    by (rewrite ?E; done).
  guard_step lia. cbn zeta. guard_step ltac:(vm_compute; reflexivity).
  rewrite (byte_bang_at p (u16be COVE_WIRE_MAGIC) COVE_WIRE_VERSION ([to_byte op] ++ rest) 2)
    by (rewrite ?E; reflexivity || (unfold COVE_WIRE_VERSION; lia)). step_ok.
  guard_step ltac:(reflexivity).
  by rewrite (byte_bang_at p (u16be COVE_WIRE_MAGIC ++ [to_byte COVE_WIRE_VERSION]) op rest)
    by (rewrite ?E; reflexivity || lia).
Qed.

Lemma blen_header op : blen (header op) = 4.
Proof. done. Qed.
#[local] Hint Rewrite blen_header : cove_len.

(** An alphanumeric string is ASCII. *)
Lemma alnum_ascii s : string_forallb is_alnum s = true → ascii_bytes (utf8 s).
Proof.
  induction s as [|a s IH]; cbn [string_forallb]; intros H; [constructor|].
  apply andb_true_iff in H as [Ha Hs].
  change (Forall (λ b, u8 b < 128) (byte_of_ascii a :: utf8 s)). constructor; [|by apply IH].
  destruct a as [[] [] [] [] [] [] [] []]; vm_compute in Ha; try discriminate Ha; reflexivity.
Qed.

(** what the version 1 encoders emit, the version 1 decoder reads back:
    the ticker of a DEPLOY with its case kept, the opcode and amount of the
    others. *)
Theorem decode_encode_v1 :
  (∀ tick p, encodeDeploy tick = Ok p → decode p = Ok (DeployV1 COVE_WIRE_VERSION tick))
  ∧ (∀ op amount p, op ∈ [OP_MINT; OP_REDEEM; OP_TRANSFER] → encodeAmount op amount = Ok p →
     decode p = Ok (AmountV1 COVE_WIRE_VERSION op amount)).
Proof.
  split.
  - intros tick p H. unfold encodeDeploy in H. res_inv H. to_prop. unfold MAX_TICKER_BYTES in *.
    assert (p = header OP_DEPLOY ++ [to_byte (blen (utf8 tick))] ++ utf8 tick) as E by done.
    assert (blen p = 5 + blen (utf8 tick)) as L by (rewrite E; autorewrite with cove_len; lia).
    clear H. pose proof (blen_nonneg (utf8 tick)). unfold decode.
    rewrite (readHeader_at p OP_DEPLOY _ E) by (unfold OP_DEPLOY; lia). step_ok. op_cases.
    guard_step lia.
    rewrite (byte_bang_at p (header OP_DEPLOY) (blen (utf8 tick)) (utf8 tick)) by (done || lia).
    step_ok. guard_step lia.
    rewrite (subarray_at p (header OP_DEPLOY ++ [to_byte (blen (utf8 tick))]) (utf8 tick) [])
      by (rewrite ?app_nil_r; done || (autorewrite with cove_len; lia)).
    by rewrite toString_utf8_ascii by (apply alnum_ascii, Hv0).
  - intros op amount p Hop H. unfold encodeAmount in H. res_inv H. to_prop.
    assert (p = header op ++ u64be amount) as E by done. clear H.
    assert (blen p = 12) as L by (rewrite E; autorewrite with cove_len; lia).
    assert (0 ≤ op < 256) by (unfold OP_MINT, OP_REDEEM, OP_TRANSFER in *; set_solver by lia).
    unfold decode. rewrite (readHeader_at p op _ E) by done. step_ok.
    assert (((op =? OP_MINT) || (op =? OP_REDEEM) || (op =? OP_TRANSFER)) = true ∧ (op =? OP_DEPLOY) = false)
      as [-> ->].
    { unfold OP_MINT, OP_REDEEM, OP_TRANSFER in *. set_unfold.
      destruct Hop as [->|[->|[->|[]]]]; done. }
    guard_step lia.
    by rewrite (readU64_at p (header op) amount []) by (rewrite ?app_nil_r; done || lia).
Qed.

(** ** The token identity *)

(** Two different inputs of [h] with one image. *)
Definition clash (h : list byte → list byte) (m n : list byte) : Prop := m ≠ n ∧ h m = h n.

Definition tokenIdPreimage (sha256 : list byte → list byte) (i : TokenIdentityInput) (tick : string)
    : list byte :=
  let t := sha256 (utf8 "CoveToken") in t ++ t ++ tokenIdMessage i tick.

Lemma computeTokenId_Ok sha256 i h :
  computeTokenId sha256 i = Ok h →
  ∃ tick, canonicalTicker (ticker i) = Ok tick ∧ blen (tokenNonce i) = 32 ∧ 1 ≤ policyVersion i
  ∧ 1 ≤ blen (creatorScript i) ≤ 255 ∧ h = sha256 (tokenIdPreimage sha256 i tick).
Proof.
  unfold computeTokenId. intros H. res_inv H. to_prop. subst h. pose proof (blen_nonneg (creatorScript i)).
  eexists. split_and!; done || lia.
Qed.

Lemma computeTokenId_intro sha256 i tick :
  canonicalTicker (ticker i) = Ok tick → blen (tokenNonce i) = 32 → 1 ≤ policyVersion i →
  1 ≤ blen (creatorScript i) ≤ 255 →
  computeTokenId sha256 i = Ok (taggedHash sha256 "CoveToken" (tokenIdMessage i tick)).
Proof. intros Ht ? ? ?. unfold computeTokenId. rewrite Ht. step_ok. by repeat guard_step lia. Qed.

Lemma app_inj_blen (a b c d : list byte) : blen a = blen c → a ++ b = c ++ d → a = c ∧ b = d.
Proof. unfold blen. intros H E. apply app_inj_1 in E; [done|lia]. Qed.

(** on one chain, and among tickers of one length, a token id commits its
    policy version, ticker, nonce and creator script: equal ids mean equal
    identities, or the two preimages themselves are a SHA-256 collision. *)
Theorem tokenId_binds sha256 i j h ti tj :
  computeTokenId sha256 i = Ok h → computeTokenId sha256 j = Ok h →
  canonicalTicker (ticker i) = Ok ti → canonicalTicker (ticker j) = Ok tj →
  chainIdentity i = chainIdentity j → String.length ti = String.length tj →
  policyVersion i ≤ 255 → policyVersion j ≤ 255 →
  (policyVersion i = policyVersion j ∧ ti = tj ∧ tokenNonce i = tokenNonce j
   ∧ creatorScript i = creatorScript j)
  ∨ clash sha256 (tokenIdPreimage sha256 i ti) (tokenIdPreimage sha256 j tj).
Proof.
  intros Hi Hj Hti Htj Hc Hl ? ?.
  apply computeTokenId_Ok in Hi as (? & E & ? & ? & ? & ->). rewrite Hti in E. injection E as <-.
  apply computeTokenId_Ok in Hj as (? & E & ? & ? & ? & Eh). rewrite Htj in E. injection E as <-.
  destruct (decide (tokenIdPreimage sha256 i ti = tokenIdPreimage sha256 j tj)) as [Ep|]; [left|by right].
  unfold tokenIdPreimage, tokenIdMessage in Ep. apply app_inv_head, app_inv_head in Ep.
  rewrite Hc in Ep. apply app_inv_head in Ep. apply app_inj_blen in Ep as [Epv Ep]; [|done].
  apply app_inj_blen in Ep as [Et Ep]; [|unfold blen; rewrite !utf8_length; lia].
  apply app_inj_blen in Ep as [En Ep]; [|lia].
  apply app_inj_blen in Ep as [_ Es]; [|done].
  injection Epv as Epv. apply to_byte_inj in Epv; [|lia..]. apply utf8_inj in Et. done.
Qed.

Definition identity_example : TokenIdentityInput := {|
  chainIdentity := CHAIN_BITCOIN_REGTEST; policyVersion := 3; ticker := "cove";
  tokenNonce := zeros 32; creatorScript := [x51] |}.

Lemma tokenId_binds_witness :
  let sha := λ l, take 32 (l ++ zeros 32) in
  (policyVersion identity_example = policyVersion identity_example ∧ "COVE"%string = "COVE"%string
   ∧ tokenNonce identity_example = tokenNonce identity_example
   ∧ creatorScript identity_example = creatorScript identity_example)
  ∨ clash sha (tokenIdPreimage sha identity_example "COVE") (tokenIdPreimage sha identity_example "COVE").
Proof.
  intros sha.
  refine (tokenId_binds sha identity_example identity_example
    (match computeTokenId sha identity_example with Ok h => h | Throw _ => [] end) _ _ _ _ _ _ _ _ _ _);
    vm_compute; (reflexivity || discriminate).
Defined.

(** The four chains of the program: no name is a prefix of another. *)
Definition known_chains : list string :=
  [CHAIN_BITCOIN_MAINNET; CHAIN_BITCOIN_REGTEST; CHAIN_BITCOIN_SIGNET; CHAIN_BITCOIN_TESTNET].

(** an id computed for one of the four chains is never the id of an
    identity of another of them, whatever the other fields, unless the two
    preimages are a SHA-256 collision. *)
Theorem tokenId_separates_chains sha256 i j h ti tj :
  computeTokenId sha256 i = Ok h → computeTokenId sha256 j = Ok h →
  canonicalTicker (ticker i) = Ok ti → canonicalTicker (ticker j) = Ok tj →
  chainIdentity i ∈ known_chains → chainIdentity j ∈ known_chains →
  chainIdentity i ≠ chainIdentity j →
  clash sha256 (tokenIdPreimage sha256 i ti) (tokenIdPreimage sha256 j tj).
Proof.
  intros Hi Hj Hti Htj Ci Cj Hne.
  apply computeTokenId_Ok in Hi as (? & E & _ & _ & _ & ->). rewrite Hti in E. injection E as <-.
  apply computeTokenId_Ok in Hj as (? & E & _ & _ & _ & Eh). rewrite Htj in E. injection E as <-.
  split; [|done]. intros Ep.
  unfold tokenIdPreimage, tokenIdMessage in Ep. apply app_inv_head, app_inv_head in Ep.
  apply (f_equal (take 12)) in Ep. revert Ep. clear -Ci Cj Hne. unfold known_chains in *.
  set_unfold. destruct i as [ci pi ti' ni si], j as [cj pj tj' nj sj]; cbn [chainIdentity] in *.
  destruct Ci as [->|[->|[->|[->|[]]]]], Cj as [->|[->|[->|[->|[]]]]]; try done;
    intros Ep; vm_compute in Ep; discriminate Ep.
Qed.

Lemma tokenId_separates_chains_witness :
  let sha := λ _ : list byte, zeros 32 in
  let other := {| chainIdentity := CHAIN_BITCOIN_MAINNET; policyVersion := 3; ticker := "cove";
                  tokenNonce := zeros 32; creatorScript := [x51] |} in
  clash sha (tokenIdPreimage sha identity_example "COVE") (tokenIdPreimage sha other "COVE").
Proof.
  intros sha other.
  refine (tokenId_separates_chains sha identity_example other (zeros 32) "COVE" "COVE" _ _ _ _ _ _ _);
    [reflexivity..| | |done]; unfold known_chains; set_solver.
Defined.

(** the ticker inside the preimage carries no length, so across tickers of
    different lengths the id does not commit the creator: the identity of a
    ticker [c] paying a version 0 witness program [00 14 h], whose nonce
    begins with two ticker characters [ab], has the id of the identity of the
    ticker [c ab] paying the bare script [h], under every hash function. *)
Theorem tokenId_not_delimited sha256 chain pv c a b nonce h :
  canonicalTicker c = Ok c →
  canonicalTicker (c +:+ of_utf8 [a; b]) = Ok (c +:+ of_utf8 [a; b]) →
  blen nonce = 30 → blen h = 20 → 1 ≤ pv →
  let i := {| chainIdentity := chain; policyVersion := pv; ticker := c;
              tokenNonce := a :: b :: nonce; creatorScript := x00 :: x14 :: h |} in
  let j := {| chainIdentity := chain; policyVersion := pv; ticker := c +:+ of_utf8 [a; b];
              tokenNonce := nonce ++ [x16; x00]; creatorScript := h |} in
  is_ok (computeTokenId sha256 i) = true ∧ computeTokenId sha256 i = computeTokenId sha256 j.
Proof.
  intros Hc Hab Hn Hh Hpv i j.
  rewrite (computeTokenId_intro sha256 i c), (computeTokenId_intro sha256 j (c +:+ of_utf8 [a; b]))
    by (done || (subst i j; cbn [ticker tokenNonce policyVersion creatorScript];
                 autorewrite with cove_len; lia)).
  split; [done|]. do 2 f_equal. unfold tokenIdMessage. subst i j.
  cbn [chainIdentity policyVersion tokenNonce creatorScript].
  autorewrite with cove_len. rewrite Hh, utf8_app, utf8_of_utf8, <-!app_assoc. done.
Qed.

Lemma tokenId_not_delimited_witness :
  let sha := λ l, take 32 (l ++ zeros 32) in
  let i := {| chainIdentity := CHAIN_BITCOIN_REGTEST; policyVersion := 3; ticker := "COVE";
              tokenNonce := x41 :: x42 :: zeros 30; creatorScript := x00 :: x14 :: zeros 20 |} in
  let j := {| chainIdentity := CHAIN_BITCOIN_REGTEST; policyVersion := 3; ticker := "COVEAB";
              tokenNonce := zeros 30 ++ [x16; x00]; creatorScript := zeros 20 |} in
  is_ok (computeTokenId sha i) = true ∧ computeTokenId sha i = computeTokenId sha j.
Proof.
  intros sha. refine (tokenId_not_delimited sha _ 3 "COVE" x41 x42 (zeros 30) (zeros 20) _ _ _ _ _);
    reflexivity || lia.
Defined.

(** ** The discovery envelope *)

(** Reads one escaped character back. *)
Definition unescape_head (s : string) : option (ascii * string) :=
  match s with
  | EmptyString => None
  | String a s' =>
      if Ascii.eqb a backslash then
        match s' with
        | EmptyString => None
        | String b r =>
            if Ascii.eqb b dquote || Ascii.eqb b backslash then Some (b, r)
            else if Ascii.eqb b "b" then Some (ascii_of_nat 8, r)
            else if Ascii.eqb b "t" then Some (ascii_of_nat 9, r)
            else if Ascii.eqb b "n" then Some (ascii_of_nat 10, r)
            else if Ascii.eqb b "f" then Some (ascii_of_nat 12, r)
            else if Ascii.eqb b "r" then Some (ascii_of_nat 13, r)
            else match r with
            | String _ (String _ (String x (String y r'))) =>
                match hex_val x, hex_val y with
                | Some hx, Some hy => Some (ascii_of_nat (Z.to_nat (hx * 16 + hy)), r')
                | _, _ => None
                end
            | _ => None
            end
        end
      else Some (a, s')
  end.

Lemma unescape_head_escape a s : unescape_head (json_escape a +:+ s) = Some (a, s).
Proof. by destruct a as [[] [] [] [] [] [] [] []]. Qed.

Lemma json_escape_nonempty a s : json_escape a +:+ s ≠ EmptyString.
Proof. intros E. pose proof (unescape_head_escape a s) as H. by rewrite E in H. Qed.

Lemma json_escapes_inj s t : json_escapes s = json_escapes t → s = t.
Proof.
  revert t. induction s as [|a s IH]; intros [|b t]; cbn [json_escapes]; intros E; [done| | |].
  - by symmetry in E; apply json_escape_nonempty in E.
  - by apply json_escape_nonempty in E.
  - apply (f_equal unescape_head) in E. rewrite !unescape_head_escape in E.
    injection E as -> E. by rewrite (IH t).
Qed.

(** The part of the envelope after the opcode. *)
Definition discovery_rest (tick amt : option string) : string :=
  match tick with Some t => "," +:+ json_stringify "tick" +:+ ":" +:+ json_stringify t | None => "" end
  +:+ match amt with Some a => "," +:+ json_stringify "amt" +:+ ":" +:+ json_stringify a | None => "" end
  +:+ "}".

Definition discovery_start : string :=
  "{" +:+ json_stringify "p" +:+ ":" +:+ json_stringify COVE_PROTOCOL_ID
  +:+ "," +:+ json_stringify "op" +:+ ":".

Lemma serializeDiscovery_string_eq env :
  d_p env = COVE_PROTOCOL_ID →
  serializeDiscovery_string env
  = discovery_start +:+ json_stringify (d_op env) +:+ discovery_rest (d_tick env) (d_amt env).
Proof.
  destruct env as [p op tick amt]. cbn [d_p d_op d_tick d_amt]. intros ->.
  unfold serializeDiscovery_string, discovery_start, discovery_rest, KEY_ORDER, join_comma.
  destruct tick as [t|], amt as [a|]; cbn [env_field d_op d_tick d_amt]; cbn;
    rewrite ?string_app_assoc; reflexivity.
Qed.

(** The amount a discovery envelope states, in atoms. *)
Definition disclosed_amount (e : ParsedEnvelopeV2) : option Z :=
  match e with
  | DeployV2 _ _ _ => None
  | MintV2 _ a _ => Some a
  | TransferV2 _ l => Some (zsum (amount <$> l))
  | RedeemV2 _ a _ => Some a
  end.

(** The ticker it states: the message's own, or the one the caller knows. *)
Definition disclosed_ticker (e : ParsedEnvelopeV2) (known : option string) : result (option string) :=
  match e, known with
  | DeployV2 _ t _, _ | _, Some t => c ← canonicalTicker t; Ok (Some c)
  | _, None => Ok None
  end.

Lemma canonicalTicker_nonempty s c : canonicalTicker s = Ok c → c ≠ ""%string.
Proof. intros H ->. apply canonicalTicker_Ok in H as (_ & _ & _ & H). unfold blen in H. rewrite utf8_length in H. cbn [String.length] in H. lia. Qed.

Definition is_deploy (e : ParsedEnvelopeV2) : bool :=
  match e with DeployV2 _ _ _ => true | _ => false end.

Lemma discoveryFor_amount e :
  is_deploy e = false →
  discoveryFor e = Ok {| d_p := COVE_PROTOCOL_ID; d_op := opName (envelope_op e);
                         d_tick := Some ""%string; d_amt := pretty <$> disclosed_amount e |}.
Proof. destruct e; [done| |unfold discoveryFor; rewrite foldl_add_zsum|]; done. Qed.

(** The encoder, with the size check left out: its ticker is never empty. *)
Lemma encodeDiscovery_Ok e known p :
  encodeDiscovery e known = Ok p →
  ∃ tick, disclosed_ticker e known = Ok tick ∧ blen p ≤ 80
  ∧ p = utf8 (discovery_start +:+ json_stringify (opName (envelope_op e))
              +:+ discovery_rest tick (pretty <$> disclosed_amount e)).
Proof.
  unfold encodeDiscovery. intros H. res_inv H. to_prop. unfold DATACARRIER_PAYLOAD_LIMIT in *.
  assert (blen p ≤ 80) as Hs by (by rewrite <-H). clear Hv1 v1. destruct (is_deploy e) eqn:D.
  - destruct e as [pv t n| | |]; try done. cbn [discoveryFor disclosed_ticker] in *. res_inv Hv. subst v.
    pose proof (canonicalTicker_nonempty _ _ Hv1). exists (Some v1). rewrite Hv1.
    split; [done|]. split; [done|]. subst p. unfold serializeDiscovery. f_equal.
    assert (v0 = {| d_p := COVE_PROTOCOL_ID; d_op := opName (envelope_op (DeployV2 pv t n));
                    d_tick := Some v1; d_amt := None |}) as ->.
    { destruct known; cbn [d_tick] in Hv0; [|by injection Hv0 as <-].
      rewrite bool_decide_false in Hv0 by congruence. by injection Hv0 as <-. }
    cbn [d_tick]. rewrite bool_decide_false by congruence. by rewrite serializeDiscovery_string_eq.
  - rewrite discoveryFor_amount in Hv by done. injection Hv as <-. cbn [d_tick] in Hv0.
    destruct known as [k|].
    + rewrite bool_decide_true in Hv0 by done. res_inv Hv0. subst v0.
      pose proof (canonicalTicker_nonempty _ _ Hv). exists (Some v).
      split; [destruct e; try done; cbn [disclosed_ticker]; by rewrite Hv|]. split; [done|].
      subst p. cbn [env_with_tick d_tick]. rewrite bool_decide_false by congruence.
      unfold serializeDiscovery. by rewrite serializeDiscovery_string_eq.
    + injection Hv0 as <-. exists None. split; [by destruct e|]. split; [done|].
      subst p. cbn [d_tick]. rewrite bool_decide_true by done.
      unfold serializeDiscovery. by rewrite serializeDiscovery_string_eq.
Qed.

Lemma json_stringify_inj s t : json_stringify s = json_stringify t → s = t.
Proof.
  unfold json_stringify. intros E. injection E as E.
  apply string_app_cancel_r in E. by apply json_escapes_inj.
Qed.

(** With the ticker fixed, the rest of the envelope determines the amount. *)
Lemma discovery_rest_amount_inj tick a b :
  discovery_rest tick (Some a) = discovery_rest tick (Some b) → a = b.
Proof.
  unfold discovery_rest. intros E. apply string_app_cancel_l, string_app_cancel_r in E.
  do 3 apply string_app_cancel_l in E. by apply json_stringify_inj.
Qed.

Lemma discovery_rest_ticker_inj t u :
  discovery_rest (Some t) None = discovery_rest (Some u) None → t = u.
Proof.
  unfold discovery_rest. intros E. apply string_app_cancel_r in E.
  do 3 apply string_app_cancel_l in E. by apply json_stringify_inj.
Qed.

Lemma discovery_op_inj e e' r r' :
  json_stringify (opName (envelope_op e)) +:+ r = json_stringify (opName (envelope_op e')) +:+ r' →
  envelope_op e = envelope_op e' ∧ r = r'.
Proof.
  intros E. destruct e, e'; try discriminate E; split; try done;
    by apply string_app_cancel_l in E.
Qed.

(** a discovery payload that agrees with two binary messages (under one
    known ticker) says the same of both: the same operation, the same amount
    in atoms and, for a DEPLOY, the same ticker.  A lying payload therefore
    agrees with no other message. *)
Theorem discovery_binds p e e' known :
  discoveryAgreesWithBinary p e known = true → discoveryAgreesWithBinary p e' known = true →
  envelope_op e = envelope_op e' ∧ disclosed_amount e = disclosed_amount e'
  ∧ disclosed_ticker e known = disclosed_ticker e' known ∧ blen p ≤ 80.
Proof.
  unfold discoveryAgreesWithBinary, bytes_eqb. intros H H'.
  destruct (encodeDiscovery e known) as [q|] eqn:Q; [|done].
  destruct (encodeDiscovery e' known) as [q'|] eqn:Q'; [|done]. to_prop. subst q q'.
  apply encodeDiscovery_Ok in Q as (t & Ht & Hs & E). apply encodeDiscovery_Ok in Q' as (t' & Ht' & _ & E').
  rewrite Ht, Ht'. rewrite E in E'. apply utf8_inj, string_app_cancel_l, discovery_op_inj in E' as [Eo Er].
  destruct (is_deploy e) eqn:D.
  - destruct e as [pv k n| | |]; try done. destruct e' as [pv' k' n'| | |]; try done.
    cbn [disclosed_ticker disclosed_amount] in *. res_inv Ht. res_inv Ht'. subst t t'.
    apply discovery_rest_ticker_inj in Er. by subst.
  - assert (disclosed_ticker e' known = disclosed_ticker e known) as Ek by (by destruct e, e').
    rewrite Ht, Ht' in Ek. injection Ek as ->.
    destruct e, e'; try done; apply discovery_rest_amount_inj in Er;
      cbn [disclosed_amount]; apply (inj pretty) in Er; by rewrite Er.
Qed.

Lemma discovery_binds_witness :
  let e := MintV2 (to_byte 7 :: zeros 31) 500 2 in
  let e' := MintV2 (to_byte 9 :: zeros 31) 500 3 in
  envelope_op e = envelope_op e' ∧ disclosed_amount e = disclosed_amount e'
  ∧ disclosed_ticker e (Some "abc"%string) = disclosed_ticker e' (Some "abc"%string)
  ∧ blen (match encodeDiscovery e (Some "abc"%string) with Ok p => p | Throw _ => [] end) ≤ 80.
Proof. intros e e'. refine (discovery_binds _ e e' (Some "abc"%string) _ _); vm_compute; reflexivity. Defined.

(** the discovery envelope of a TRANSFER of ten million tokens of a
    sixteen-letter ticker, an amount within the supply, exceeds the datacarrier
    limit: the encoder refuses it, and no payload agrees with that message. *)
Theorem discovery_too_large :
  let e := TransferV2 (to_byte 7 :: zeros 31) [Alloc 1 1000000000000000] in
  encodeDiscovery e (Some "ABCDEFGHIJKLMNOP"%string)
    = Throw (DiscoveryError "DISCOVERY_TOO_LARGE" "discovery envelope is 81B, limit 80B")
  ∧ ∀ p, discoveryAgreesWithBinary p e (Some "ABCDEFGHIJKLMNOP"%string) = false.
Proof. split; [vm_compute; reflexivity|]. intros p. vm_compute. reflexivity. Qed.
