(* ===== verification/Discovery.v ===== *)
(** * Reading the discovery envelope: packages/cove-wire/src/discovery.ts

    [decodeDiscovery], and the part of the language it relies on: [JSON.parse].
    Strings are kept as bytes; a surrogate that an escape leaves without its
    pair takes three bytes, so that distinct JavaScript strings stay distinct.
    A number is kept as its literal: the program reads strings only, here. *)
From S2P Require Import Prelude Bytes Wire.

(** ** JSON.parse *)
#[local] Set Warnings "-register-all".
Inductive json :=
  | JNull
  | JBool (b : bool)
  | JNumber (literal : string)
  | JString (s : string)
  | JArray (l : list json)
  | JObject (fields : list (string * json)).

Definition syntax_error : exn := js_error "Unexpected token in JSON".

Definition is_ws (a : ascii) : bool :=
  bool_decide (nat_of_ascii a ∈ [32; 9; 10; 13]%nat).

Fixpoint skip_ws (s : string) : string :=
  match s with
  | String a r => if is_ws a then skip_ws r else s
  | EmptyString => s
  end.

(** [s] without the prefix [p]. *)
Fixpoint strip (p s : string) : option string :=
  match p, s with
  | EmptyString, _ => Some s
  | String a p, String b s => if Ascii.eqb a b then strip p s else None
  | _, EmptyString => None
  end.

(** The escapes of one character. *)
Definition simple_escape (e : ascii) : option ascii :=
  if Ascii.eqb e dquote || Ascii.eqb e backslash || Ascii.eqb e "/" then Some e
  else if Ascii.eqb e "b" then Some (ascii_of_nat 8)
  else if Ascii.eqb e "f" then Some (ascii_of_nat 12)
  else if Ascii.eqb e "n" then Some (ascii_of_nat 10)
  else if Ascii.eqb e "r" then Some (ascii_of_nat 13)
  else if Ascii.eqb e "t" then Some (ascii_of_nat 9)
  else None.

Definition hex4 (a b c d : ascii) : option Z :=
  x ← hex_val a; y ← hex_val b; z ← hex_val c; w ← hex_val d;
  Some (((x * 16 + y) * 16 + z) * 16 + w).

Definition push_item (i : ascii + Z) (o : option (list (ascii + Z) * string))
    : option (list (ascii + Z) * string) :=
  match o with Some (l, r) => Some (i :: l, r) | None => None end.

(** The body of a string literal up to its closing quote: bytes of the text
    and code units of escapes. *)
Fixpoint string_items (s : string) : option (list (ascii + Z) * string) :=
  match s with
  | EmptyString => None
  | String a r =>
      if Ascii.eqb a dquote then Some ([], r)
      else if Ascii.eqb a backslash then
        match r with
        | EmptyString => None
        | String e r' =>
            if Ascii.eqb e "u" then
              match r' with
              | String h1 (String h2 (String h3 (String h4 r''))) =>
                  match hex4 h1 h2 h3 h4 with
                  | Some v => push_item (inr v) (string_items r'')
                  | None => None
                  end
              | _ => None
              end
            else match simple_escape e with
                 | Some c => push_item (inl c) (string_items r')
                 | None => None
                 end
        end
      else if (nat_of_ascii a <? 32)%nat then None
      else push_item (inl a) (string_items r)
  end.

Definition chr (z : Z) : ascii := ascii_of_nat (Z.to_nat z).

(** The bytes of a code point. *)
Definition code_point (c : Z) : list ascii :=
  if c <? 0x80 then [chr c]
  else if c <? 0x800 then [chr (0xc0 + c `div` 64); chr (0x80 + c `mod` 64)]
  else if c <? 0x10000 then
    [chr (0xe0 + c `div` 4096); chr (0x80 + (c `div` 64) `mod` 64); chr (0x80 + c `mod` 64)]
  else
    [chr (0xf0 + c `div` 262144); chr (0x80 + (c `div` 4096) `mod` 64);
     chr (0x80 + (c `div` 64) `mod` 64); chr (0x80 + c `mod` 64)].

Definition high_surrogate (u : Z) : bool := (0xd800 <=? u) && (u <=? 0xdbff).
Definition low_surrogate (u : Z) : bool := (0xdc00 <=? u) && (u <=? 0xdfff).

Fixpoint render_items (l : list (ascii + Z)) : list ascii :=
  match l with
  | [] => []
  | inl a :: r => a :: render_items r
  | inr u :: r =>
      match r with
      | inr v :: r' =>
          if high_surrogate u && low_surrogate v
          then code_point (0x10000 + (u - 0xd800) * 1024 + (v - 0xdc00)) ++ render_items r'
          else code_point u ++ render_items r
      | _ => code_point u ++ render_items r
      end
  end.

(** A string literal after its opening quote. *)
Definition parse_string (s : string) : result (string * string) :=
  match string_items s with
  | Some (l, r) => Ok (String.string_of_list_ascii (render_items l), r)
  | None => Throw syntax_error
  end.

Definition is_digit (a : ascii) : bool :=
  let n := nat_of_ascii a in (48 <=? n)%nat && (n <=? 57)%nat.

Fixpoint skip_digits (s : string) : string :=
  match s with
  | String a r => if is_digit a then skip_digits r else s
  | EmptyString => s
  end.

(** One digit or more. *)
Definition digits1 (s : string) : option string :=
  match s with
  | String a r => if is_digit a then Some (skip_digits r) else None
  | EmptyString => None
  end.

Definition parse_number (s : string) : option string :=
  let s := match s with String a r => if Ascii.eqb a "-" then r else s | _ => s end in
  s ← match s with
      | String a r => if Ascii.eqb a "0" then Some r else digits1 s
      | EmptyString => None
      end;
  s ← match s with
      | String a r => if Ascii.eqb a "." then digits1 r else Some s
      | EmptyString => Some s
      end;
  match s with
  | String a r =>
      if Ascii.eqb a "e" || Ascii.eqb a "E" then
        match r with
        | String b r' => if Ascii.eqb b "+" || Ascii.eqb b "-" then digits1 r' else digits1 r
        | EmptyString => None
        end
      else Some s
  | EmptyString => Some s
  end.

(** What was read of [s] when [rest] is left. *)
Definition read_text (s rest : string) : string :=
  String.substring 0 (String.length s - String.length rest) s.

(** A value after its white space; [parse_elements] and [parse_members] read
    the rest of an array and of an object that is not empty. *)
Fixpoint parse_value (fuel : nat) (s : string) : result (json * string) :=
  match fuel with
  | O => Throw out_of_fuel
  | S fuel =>
      match skip_ws s with
      | EmptyString => Throw syntax_error
      | String a r =>
          if Ascii.eqb a dquote then '(t, r) ← parse_string r; Ok (JString t, r)
          else if Ascii.eqb a "{" then
            match strip "}" (skip_ws r) with
            | Some r => Ok (JObject [], r)
            | None => '(f, r) ← parse_members fuel r; Ok (JObject f, r)
            end
          else if Ascii.eqb a "[" then
            match strip "]" (skip_ws r) with
            | Some r => Ok (JArray [], r)
            | None => '(l, r) ← parse_elements fuel r; Ok (JArray l, r)
            end
          else match strip "null" (String a r), strip "true" (String a r), strip "false" (String a r) with
               | Some r, _, _ => Ok (JNull, r)
               | _, Some r, _ => Ok (JBool true, r)
               | _, _, Some r => Ok (JBool false, r)
               | _, _, _ =>
                   match parse_number (String a r) with
                   | Some rest => Ok (JNumber (read_text (String a r) rest), rest)
                   | None => Throw syntax_error
                   end
               end
      end
  end
with parse_elements (fuel : nat) (s : string) : result (list json * string) :=
  match fuel with
  | O => Throw out_of_fuel
  | S fuel =>
      '(v, r) ← parse_value fuel s;
      match skip_ws r with
      | String a r =>
          if Ascii.eqb a "]" then Ok ([v], r)
          else if Ascii.eqb a "," then '(l, r) ← parse_elements fuel r; Ok (v :: l, r)
          else Throw syntax_error
      | EmptyString => Throw syntax_error
      end
  end
with parse_members (fuel : nat) (s : string) : result (list (string * json) * string) :=
  match fuel with
  | O => Throw out_of_fuel
  | S fuel =>
      match strip (String dquote "") (skip_ws s) with
      | None => Throw syntax_error
      | Some r =>
          '(k, r) ← parse_string r;
          match strip ":" (skip_ws r) with
          | None => Throw syntax_error
          | Some r =>
              '(v, r) ← parse_value fuel r;
              match skip_ws r with
              | String a r =>
                  if Ascii.eqb a "}" then Ok ([(k, v)], r)
                  else if Ascii.eqb a "," then '(f, r) ← parse_members fuel r; Ok ((k, v) :: f, r)
                  else Throw syntax_error
              | EmptyString => Throw syntax_error
              end
          end
      end
  end.

(** Two rounds for each character are enough. *)
Definition JSON_parse (text : string) : result json :=
  '(v, r) ← parse_value (2 * String.length text + 2) text;
  match skip_ws r with EmptyString => Ok v | _ => Throw syntax_error end.

(** [o[k]] of a parsed object: of a repeated key the last value counts. *)
Definition json_get (fields : list (string * json)) (k : string) : option json :=
  snd <$> last (filter (λ kv, kv.1 = k) fields).

(** ** decodeDiscovery *)
Definition json_string (o : option json) : option string :=
  match o with Some (JString s) => Some s | _ => None end.

Definition decodeDiscovery (payload : list byte) : option DiscoveryEnvelope :=
  match JSON_parse (toString_utf8 payload) with
  | Ok (JObject o) =>
      if negb (bool_decide (json_string (json_get o "p") = Some COVE_PROTOCOL_ID)) then None
      else match json_string (json_get o "op") with
           | None => None
           | Some op =>
               Some {| d_p := COVE_PROTOCOL_ID; d_op := op;
                       d_tick := match json_string (json_get o "tick") with
                                 | None | Some EmptyString => None
                                 | Some t => Some t
                                 end;
                       d_amt := json_string (json_get o "amt") |}
           end
  | _ => None
  end.

(** ** The parser terminates *)
Notation len := String.length.

Lemma skip_ws_len s : (len (skip_ws s) ≤ len s)%nat.
Proof. induction s as [|a s IH]; cbn; [done|]. destruct (is_ws a); cbn; lia. Qed.

Lemma strip_len p s r : strip p s = Some r → len s = (len p + len r)%nat.
Proof.
  revert s. induction p as [|a p IH]; intros [|b s]; cbn [strip len]; try congruence.
  - intros [= <-]. done.
  - intros [= <-]. done.
  - destruct (Ascii.eqb a b); [|done]. intros ->%IH. lia.
Qed.

Lemma push_item_Some i o l r :
  push_item i o = Some (l, r) → ∃ l', o = Some (l', r) ∧ l = i :: l'.
Proof. destruct o as [[l' r']|]; cbn; naive_solver. Qed.

Lemma string_items_len s l r : string_items s = Some (l, r) → (len r < len s)%nat.
Proof.
  revert l. remember (len s) as n eqn:En. revert s En.
  induction (lt_wf n) as [n _ IH]. intros [|a s] -> l; cbn [string_items]; [done|].
  destruct (Ascii.eqb a dquote); [intros [= <- <-]; cbn; lia|].
  destruct (Ascii.eqb a backslash).
  - destruct s as [|e s]; [done|]. destruct (Ascii.eqb e "u").
    + destruct s as [|h1 [|h2 [|h3 [|h4 s]]]]; try done. destruct (hex4 h1 h2 h3 h4); [|done].
      intros (l' & H & _)%push_item_Some. apply (IH (len s)) in H; cbn; lia || done.
    + destruct (simple_escape e); [|done].
      intros (l' & H & _)%push_item_Some. apply (IH (len s)) in H; cbn; lia || done.
  - destruct (nat_of_ascii a <? 32)%nat; [done|].
    intros (l' & H & _)%push_item_Some. apply (IH (len s)) in H; cbn; lia || done.
Qed.

Lemma skip_digits_len s : (len (skip_digits s) ≤ len s)%nat.
Proof. induction s as [|a s IH]; cbn; [done|]. destruct (is_digit a); cbn; lia. Qed.

Lemma digits1_len s r : digits1 s = Some r → (len r < len s)%nat.
Proof.
  destruct s as [|a s]; cbn; [done|]. destruct (is_digit a); [|done]. intros [= <-].
  pose proof (skip_digits_len s). lia.
Qed.

Lemma parse_number_len s r : parse_number s = Some r → (len r < len s)%nat.
Proof.
  unfold parse_number. set (s0 := match s with String a r => if Ascii.eqb a "-" then r else s | _ => s end).
  assert (len s0 ≤ len s)%nat as H0 by (unfold s0; destruct s as [|a s']; cbn; [done|]; destruct (Ascii.eqb a "-"); cbn; lia).
  clearbody s0. intros (s1 & H1 & (s2 & H2 & H3)%bind_Some)%bind_Some.
  assert (len s1 < len s0)%nat.
  { destruct s0 as [|a t]; [done|]. destruct (Ascii.eqb a "0"); [injection H1 as ->; cbn; lia|by apply digits1_len]. }
  assert (len s2 ≤ len s1)%nat.
  { destruct s1 as [|a t]; [by injection H2 as <-|]. destruct (Ascii.eqb a "."); [|by injection H2 as <-].
    apply digits1_len in H2. cbn. lia. }
  enough (len r ≤ len s2)%nat by lia.
  destruct s2 as [|a t]; [by injection H3 as <-|]. destruct (_ || _); [|by injection H3 as <-].
  destruct t as [|b t]; [done|]. destruct (_ || _); apply digits1_len in H3; cbn in *; lia.
Qed.

(** A run of the parser: it has fuel left and leaves less text. *)
Definition consumes {A} (s : string) (m : result (A * string)) : Prop :=
  match m with Ok (_, r) => (len r < len s)%nat | Throw e => e ≠ out_of_fuel end.

Lemma consumes_bind {A B} s t (m : result (A * string)) (f : A * string → result (B * string)) :
  consumes t m → (∀ a r, m = Ok (a, r) → (len r < len t)%nat → consumes s (f (a, r))) → consumes s (m ≫= f).
Proof. destruct m as [[a r]|e]; intros H Hf; [by apply Hf|done]. Qed.

Lemma consumes_parse_string s : consumes s (parse_string s).
Proof.
  unfold parse_string. destruct (string_items s) as [[l r]|] eqn:E; [|done].
  by apply string_items_len in E.
Qed.

Lemma consumes_error {A} s : consumes s (Throw syntax_error : result (A * string)).
Proof. done. Qed.

Lemma parser_consumes fuel :
  (∀ s, (2 * len s + 1 ≤ fuel)%nat → consumes s (parse_value fuel s))
  ∧ (∀ s, (2 * len s + 2 ≤ fuel)%nat → consumes s (parse_elements fuel s))
  ∧ (∀ s, (2 * len s + 2 ≤ fuel)%nat → consumes s (parse_members fuel s)).
Proof.
  induction fuel as [|fuel (IHv & IHe & IHm)]; [split_and!; intros; lia|].
  split_and!; intros s Hs.
  - cbn [parse_value]. pose proof (skip_ws_len s). destruct (skip_ws s) as [|a r]; [done|]. cbn [len] in *.
    destruct (Ascii.eqb a dquote).
    { eapply consumes_bind; [apply consumes_parse_string|]. intros t r' _ Hr. cbn. lia. }
    pose proof (skip_ws_len r). destruct (Ascii.eqb a "{").
    { destruct (strip _ _) as [r'|] eqn:E; [apply strip_len in E; cbn in *; lia|].
      eapply consumes_bind; [apply IHm; lia|]. intros f r' _ Hr. cbn. lia. }
    destruct (Ascii.eqb a "[").
    { destruct (strip _ _) as [r'|] eqn:E; [apply strip_len in E; cbn in *; lia|].
      eapply consumes_bind; [apply IHe; lia|]. intros f r' _ Hr. cbn. lia. }
    destruct (strip "null" _) eqn:E1; [apply strip_len in E1; cbn in *; lia|].
    destruct (strip "true" _) eqn:E2; [apply strip_len in E2; cbn in *; lia|].
    destruct (strip "false" _) eqn:E3; [apply strip_len in E3; cbn in *; lia|].
    destruct (parse_number _) eqn:E4; [apply parse_number_len in E4; cbn in *; lia|done].
  - cbn [parse_elements]. eapply consumes_bind; [apply IHv; lia|]. intros v r _ Hr.
    pose proof (skip_ws_len r). destruct (skip_ws r) as [|a r']; [done|]. cbn [len] in *.
    destruct (Ascii.eqb a "]"); [cbn; lia|]. destruct (Ascii.eqb a ","); [|done].
    eapply consumes_bind; [apply IHe; lia|]. intros l r'' _ Hr'. cbn. lia.
  - cbn [parse_members]. pose proof (skip_ws_len s).
    destruct (strip _ (skip_ws s)) as [r|] eqn:E; [|done]. apply strip_len in E. cbn in E.
    eapply consumes_bind; [apply consumes_parse_string|]. intros k r0 _ Hr0.
    pose proof (skip_ws_len r0). destruct (strip _ (skip_ws r0)) as [r1|] eqn:E1; [|done].
    apply strip_len in E1. cbn in E1.
    eapply consumes_bind; [apply IHv; lia|]. intros v r2 _ Hr2.
    pose proof (skip_ws_len r2). destruct (skip_ws r2) as [|a r3]; [done|]. cbn [len] in *.
    destruct (Ascii.eqb a "}"); [cbn; lia|]. destruct (Ascii.eqb a ","); [|done].
    eapply consumes_bind; [apply IHm; lia|]. intros l r'' _ Hr'. cbn. lia.
Qed.

(** the parser of discovery payloads always ends: its fuel never runs out. *)
Lemma JSON_parse_terminates text : JSON_parse text ≠ Throw out_of_fuel.
Proof.
  unfold JSON_parse. intros H.
  pose proof (proj1 (parser_consumes (2 * len text + 2)) text ltac:(lia)) as Hc.
  destruct (parse_value _ text) as [[v r]|e]; cbn in *; [|congruence].
  by destruct (skip_ws r).
Qed.

(** ** Reading what the encoder writes *)
Definition escape_item (a : ascii) : ascii + Z :=
  let c := nat_of_ascii a in
  if bool_decide (c ∈ [8; 9; 10; 12; 13]%nat) || negb (c <? 32)%nat then inl a else inr (Z.of_nat c).

Lemma string_items_escape a t :
  string_items (json_escape a +:+ t) = push_item (escape_item a) (string_items t).
Proof. by destruct a as [[] [] [] [] [] [] [] []]. Qed.

Lemma render_escape_item a l :
  render_items (escape_item a :: l) = a :: render_items l.
Proof.
  destruct (escape_item a) as [b|u] eqn:E.
  - unfold escape_item in E. destruct (_ || _); [|done]. by injection E as ->.
  - assert (high_surrogate u = false ∧ code_point u = [a]) as [H1 H2].
    { revert E. destruct a as [[] [] [] [] [] [] [] []]; intros [= <-]; vm_compute; by split. }
    cbn [render_items]. rewrite H1, H2. by destruct l as [|[|]].
Qed.

Lemma parse_string_escapes s r :
  parse_string (json_escapes s +:+ String dquote r) = Ok (s, r).
Proof.
  unfold parse_string.
  enough (∃ l, string_items (json_escapes s +:+ String dquote r) = Some (l, r)
               ∧ render_items l = String.list_ascii_of_string s) as (l & -> & ->).
  { by rewrite String.string_of_list_ascii_of_string. }
  induction s as [|a s (l & IH & Hr)]; [by exists []|].
  exists (escape_item a :: l). cbn [json_escapes]. rewrite string_app_assoc, string_items_escape, IH.
  split; [done|]. rewrite render_escape_item. cbn [String.list_ascii_of_string]. by rewrite Hr.
Qed.

Lemma json_stringify_app s t :
  json_stringify s +:+ t = String dquote (json_escapes s +:+ String dquote t).
Proof.
  unfold json_stringify. change (String dquote (json_escapes s +:+ String dquote "") +:+ t)
    with (String dquote ((json_escapes s +:+ String dquote "") +:+ t)).
  by rewrite string_app_assoc.
Qed.

Lemma parse_value_string fuel s t : parse_value (S fuel) (json_stringify s +:+ t) = Ok (JString s, t).
Proof.
  rewrite json_stringify_app. cbn [parse_value]. change (skip_ws (String dquote ?r)) with (String dquote r).
  cbn [skip_ws is_ws]. change (is_ws dquote) with false. cbn iota. rewrite Ascii.eqb_refl.
  by rewrite parse_string_escapes.
Qed.

(** One member of an object, and what follows it. *)
Lemma parse_member fuel k v t :
  parse_members (S (S fuel)) (json_stringify k +:+ ":" +:+ json_stringify v +:+ t)
  = match skip_ws t with
    | String a r =>
        if Ascii.eqb a "}" then Ok ([(k, JString v)], r)
        else if Ascii.eqb a "," then '(f, r) ← parse_members (S fuel) r; Ok ((k, JString v) :: f, r)
        else Throw syntax_error
    | EmptyString => Throw syntax_error
    end.
Proof.
  rewrite json_stringify_app. remember (S fuel) as f1 eqn:E1. cbn [parse_members skip_ws].
  change (is_ws dquote) with false. cbn iota. cbn [strip]. rewrite Ascii.eqb_refl, parse_string_escapes.
  rewrite bind_of_Ok. cbn beta iota.
  change (skip_ws (":" +:+ json_stringify v +:+ t)) with (String ":" (json_stringify v +:+ t)).
  cbn [strip]. rewrite Ascii.eqb_refl. subst f1. rewrite parse_value_string. by rewrite bind_of_Ok.
Qed.

Definition discovery_fields (op : string) (tick amt : option string) : list (string * json) :=
  [("p", JString COVE_PROTOCOL_ID); ("op", JString op)]%string
  ++ match tick with Some t => [("tick"%string, JString t)] | None => [] end
  ++ match amt with Some a => [("amt"%string, JString a)] | None => [] end.

Lemma parse_member_next fuel k v t f r :
  parse_members (S fuel) t = Ok (f, r) →
  parse_members (S (S fuel)) (json_stringify k +:+ ":" +:+ json_stringify v +:+ "," +:+ t)
  = Ok ((k, JString v) :: f, r).
Proof.
  intros H. rewrite parse_member. change (skip_ws ("," +:+ t)) with (String "," t).
  cbn iota. change (Ascii.eqb "," "}") with false. change (Ascii.eqb "," ",") with true. cbn iota.
  by rewrite H.
Qed.

Lemma parse_member_last fuel k v :
  parse_members (S (S fuel)) (json_stringify k +:+ ":" +:+ json_stringify v +:+ "}")
  = Ok ([(k, JString v)], ""%string).
Proof. by rewrite parse_member. Qed.

Lemma parse_discovery fuel op tick amt :
  parse_value (7 + fuel) (discovery_start +:+ json_stringify op +:+ discovery_rest tick amt)
  = Ok (JObject (discovery_fields op tick amt), ""%string).
Proof.
  assert (parse_members (6 + fuel) (json_stringify "p" +:+ ":" +:+ json_stringify COVE_PROTOCOL_ID
    +:+ "," +:+ json_stringify "op" +:+ ":" +:+ json_stringify op +:+ discovery_rest tick amt)
    = Ok (discovery_fields op tick amt, ""%string)) as Hm.
  { apply parse_member_next. unfold discovery_rest, discovery_fields.
    destruct tick as [t|], amt as [a|]; rewrite ?string_app_assoc; cbn [app].
    - apply parse_member_next, parse_member_next, parse_member_last.
    - apply parse_member_next, parse_member_last.
    - apply parse_member_next, parse_member_last.
    - apply parse_member_last. }
  unfold discovery_start. rewrite !string_app_assoc.
  match goal with |- context [parse_value _ ("{" +:+ ?m)] => set (text := m) in * end.
  change (7 + fuel)%nat with (S (6 + fuel)). cbn [parse_value].
  change (skip_ws ("{" +:+ text)) with (String "{" text).
  change (Ascii.eqb "{" dquote) with false. change (Ascii.eqb "{" "{") with true. cbn iota.
  replace (strip "}" (skip_ws text)) with (@None string) by (unfold text; by rewrite json_stringify_app).
  fold (6 + fuel)%nat. by rewrite Hm.
Qed.

(** The digits of an amount. *)
Lemma pretty_N_char_ascii d : u8 (byte_of_ascii (pretty_N_char d)) < 128.
Proof. unfold pretty_N_char. repeat case_match; vm_compute; reflexivity. Qed.

Lemma pretty_N_go_ascii x s :
  ascii_bytes (utf8 s) → ascii_bytes (utf8 (pretty_N_go x s)).
Proof.
  revert s. induction (N.lt_wf_0 x) as [x _ IH]. intros s Hs.
  destruct (decide (0 < x)%N) as [Hx|Hx].
  - rewrite pretty_N_go_step by done. apply IH; [apply N.div_lt; lia|].
    rewrite utf8_cons. constructor; [apply pretty_N_char_ascii|done].
  - replace x with 0%N by lia. by rewrite pretty_N_go_0.
Qed.

Lemma pretty_N_ascii (x : N) : ascii_bytes (utf8 (pretty x)).
Proof. unfold pretty, pretty_N. case_decide; [by repeat constructor|]. apply pretty_N_go_ascii. constructor. Qed.

Lemma pretty_Z_ascii (z : Z) : ascii_bytes (utf8 (pretty z)).
Proof.
  unfold pretty, pretty_Z. destruct z as [|x|x]; [by repeat constructor|apply (pretty_N_ascii (N.pos x))|].
  rewrite utf8_app. apply Forall_app. split; [by repeat constructor|apply (pretty_N_ascii (N.pos x))].
Qed.

Lemma json_escapes_ascii s : ascii_bytes (utf8 s) → ascii_bytes (utf8 (json_escapes s)).
Proof.
  induction s as [|a s IH]; cbn [json_escapes]; [done|]. rewrite utf8_cons.
  intros [Ha Hs]%Forall_cons. rewrite utf8_app. apply Forall_app. split; [|by apply IH].
  clear - Ha. revert Ha. destruct a as [[] [] [] [] [] [] [] []]; intros Ha;
    first [discriminate Ha|apply (bool_decide_unpack _); vm_compute; reflexivity].
Qed.

Lemma json_stringify_ascii s : ascii_bytes (utf8 s) → ascii_bytes (utf8 (json_stringify s)).
Proof.
  intros H. unfold json_stringify. rewrite utf8_cons, utf8_app.
  constructor; [done|]. apply Forall_app. split; [by apply json_escapes_ascii|by repeat constructor].
Qed.

Lemma opName_ascii e : ascii_bytes (utf8 (opName (envelope_op e))).
Proof. destruct e; apply (bool_decide_unpack _); vm_compute; reflexivity. Qed.

Lemma disclosed_ticker_Ok e known tick t :
  disclosed_ticker e known = Ok tick → tick = Some t → ascii_bytes (utf8 t) ∧ t ≠ ""%string.
Proof.
  intros H ->. assert (∃ s, canonicalTicker s = Ok t) as [s Hs].
  { destruct e, known; cbn in H; try discriminate H;
      apply bind_Ok in H as (c & Hc & [= <-]); by eexists. }
  split; [by apply canonicalTicker_Ok in Hs as (_ & _ & ? & _)|by eapply canonicalTicker_nonempty].
Qed.

Lemma discovery_text_ascii op tick amt :
  ascii_bytes (utf8 op) → (∀ t, tick = Some t → ascii_bytes (utf8 t)) →
  (∀ a, amt = Some a → ascii_bytes (utf8 a)) →
  ascii_bytes (utf8 (discovery_start +:+ json_stringify op +:+ discovery_rest tick amt)).
Proof.
  intros Ho Ht Ha. unfold discovery_rest.
  assert (ascii_bytes (utf8 discovery_start)) as Hs by (apply (bool_decide_unpack _); vm_compute; reflexivity).
  assert (∀ k v, ascii_bytes (utf8 k) → ascii_bytes (utf8 v) →
    ascii_bytes (utf8 ("," +:+ json_stringify k +:+ ":" +:+ json_stringify v))) as Hm.
  { intros k v Hk Hv. rewrite !utf8_app. repeat (apply Forall_app; split);
      [by repeat constructor|by apply json_stringify_ascii|by repeat constructor|by apply json_stringify_ascii]. }
  rewrite !utf8_app. repeat (apply Forall_app; split); [done|by apply json_stringify_ascii| | |by repeat constructor].
  - destruct tick as [t|]; [|constructor]. apply Hm; [by repeat constructor|by apply Ht].
  - destruct amt as [a|]; [|constructor]. apply Hm; [by repeat constructor|by apply Ha].
Qed.

Lemma decodeDiscovery_encoded e known p :
  encodeDiscovery e known = Ok p →
  ∃ tick, disclosed_ticker e known = Ok tick
  ∧ decodeDiscovery p = Some {| d_p := COVE_PROTOCOL_ID; d_op := opName (envelope_op e);
                               d_tick := tick; d_amt := pretty <$> disclosed_amount e |}.
Proof.
  intros (tick & Ht & _ & ->)%encodeDiscovery_Ok. exists tick. split; [done|].
  assert (∀ t, tick = Some t → ascii_bytes (utf8 t) ∧ t ≠ ""%string) as Htk
    by (intros t; by apply disclosed_ticker_Ok with e known).
  unfold decodeDiscovery. rewrite toString_utf8_ascii.
  2:{ apply discovery_text_ascii; [apply opName_ascii|by intros t [? _]%Htk|].
      intros a. destruct (disclosed_amount e); cbn; [|done]. intros [= <-]. apply pretty_Z_ascii. }
  unfold JSON_parse. set (text := _ +:+ _ +:+ discovery_rest _ _).
  replace (2 * len text + 2)%nat with (7 + (2 * len text + 2 - 7))%nat.
  2:{ assert (4 ≤ len text)%nat; [|lia]. unfold text. rewrite <-utf8_length, utf8_app, length_app.
      change (length (utf8 discovery_start)) with 19%nat. lia. }
  generalize (2 * len text + 2 - 7)%nat. intros fuel. unfold text. clear text.
  rewrite parse_discovery, bind_of_Ok. cbn [skip_ws]. cbn beta iota.
  set (op := opName _). unfold discovery_fields.
  destruct tick as [t|], (pretty <$> disclosed_amount e) as [a|]; cbn -[String.eqb]; try done;
    destruct (Htk t eq_refl) as [_ Hne]; by destruct t.
Qed.

(** every discovery payload the encoder writes is read back, by the JSON
    parser and the checks of the decoder, as the envelope of its message: its
    operation, its ticker where one is known, and its amount. *)
Theorem decodeDiscovery_encodeDiscovery e known p :
  encodeDiscovery e known = Ok p →
  ∃ tick, disclosed_ticker e known = Ok tick
  ∧ decodeDiscovery p = Some {| d_p := COVE_PROTOCOL_ID; d_op := opName (envelope_op e);
                               d_tick := tick; d_amt := pretty <$> disclosed_amount e |}.
Proof. apply decodeDiscovery_encoded. Qed.

Lemma decodeDiscovery_encodeDiscovery_witness :
  let e := MintV2 (to_byte 7 :: zeros 31) 500 2 in
  let p := match encodeDiscovery e (Some "abc"%string) with Ok p => p | Throw _ => [] end in
  ∃ tick, disclosed_ticker e (Some "abc"%string) = Ok tick
  ∧ decodeDiscovery p = Some {| d_p := COVE_PROTOCOL_ID; d_op := opName (envelope_op e);
                               d_tick := tick; d_amt := pretty <$> disclosed_amount e |}.
Proof. intros e p. apply (decodeDiscovery_encodeDiscovery e (Some "abc"%string)). vm_compute. reflexivity. Defined.
