(* ===== verification/Covenant.v ===== *)
(** * The covenant state and its transitions: packages/cove-covenant

    [types.ts], [state.ts] and [transition.ts] (version 1), [stateV2.ts] and
    [transitionV2.ts] (the production state), [tokenUtxo.ts], [carrier.ts],
    [anchor.ts] and the commitment of [taproot.ts].  SHA-256 and the curve
    point addition are parameters. *)
From S2P Require Import Prelude Bytes Curve Economics Wire.

(** ** types.ts *)
Inductive CovePhase := PUBLIC_MINT | GRADUATED | LIQUIDITY.

Definition PHASE_PUBLIC_MINT : Z := 0x00.
Definition PHASE_GRADUATED : Z := 0x01.
Definition PHASE_LIQUIDITY : Z := 0x02.

Record CoveState := {
  version : Z;
  tokenId : string;
  phase : CovePhase;
  publicSupplyAtoms : Z;
  reserveSats : Z;
  curveStage : Z;
}.

#[export] Instance CovePhase_eq_dec : EqDecision CovePhase.
Proof. solve_decision. Defined.
#[export] Instance CoveState_eq_dec : EqDecision CoveState.
Proof. solve_decision. Defined.

Definition phaseToByte (p : CovePhase) : Z :=
  match p with
  | PUBLIC_MINT => PHASE_PUBLIC_MINT
  | GRADUATED => PHASE_GRADUATED
  | LIQUIDITY => PHASE_LIQUIDITY
  end.

Definition byteToPhase (b : Z) : result CovePhase :=
  if b =? PHASE_PUBLIC_MINT then Ok PUBLIC_MINT
  else if b =? PHASE_GRADUATED then Ok GRADUATED
  else if b =? PHASE_LIQUIDITY then Ok LIQUIDITY
  else Throw (js_error ("Unknown Cove phase byte " +:+ pretty b)).

(** ** state.ts *)
Definition COVE_STATE_BYTES : Z := 51.
Definition COVE_STATE_VERSION : Z := 1.
Definition STATE_DOMAIN : string := "Cove/State/v1".

Definition writeU64BE (value : Z) : result (list byte) :=
  throw_if ((value <? 0) || (U64_MAX <? value))
    (js_error ("value " +:+ pretty value +:+ " does not fit in u64"));;
  Ok (u64be value).

(** [readU64BE(bytes, offset)] of an array whose length is checked. *)
Definition readU64BE (bytes : list byte) (offset : Z) : result Z := readU64 bytes offset.

Definition serializeState (state : CoveState) : result (list byte) :=
  throw_if (negb (version state =? COVE_STATE_VERSION))
    (js_error ("Unsupported state version " +:+ pretty (version state) +:+ " (expected "
               +:+ pretty COVE_STATE_VERSION +:+ ")"));;
  throw_if (negb (is_hex64 (tokenId state)))
    (js_error ("tokenId must be 64 hex chars, got " +:+ json_stringify (tokenId state)));;
  throw_if ((publicSupplyAtoms state <? 0) || (U64_MAX <? publicSupplyAtoms state))
    (js_error "publicSupplyAtoms does not fit in u64");;
  throw_if ((reserveSats state <? 0) || (U64_MAX <? reserveSats state))
    (js_error "reserveSats does not fit in u64");;
  throw_if ((curveStage state <? 1) || (20 <? curveStage state))
    (js_error ("curveStage must be an integer 1..20, got " +:+ pretty (curveStage state)));;
  supply ← writeU64BE (publicSupplyAtoms state);
  reserve ← writeU64BE (reserveSats state);
  Ok ([to_byte (version state)] ++ fromHex (tokenId state)
      ++ [to_byte (phaseToByte (phase state))] ++ supply ++ reserve ++ [to_byte (curveStage state)]).

Definition deserializeState (bytes : list byte) : result CoveState :=
  throw_if (negb (blen bytes =? COVE_STATE_BYTES))
    (js_error ("Expected " +:+ pretty COVE_STATE_BYTES +:+ " bytes, got " +:+ pretty (blen bytes)));;
  v ← byte_bang bytes 0;
  throw_if (negb (v =? COVE_STATE_VERSION))
    (js_error ("Unsupported state version " +:+ pretty v +:+ " (expected "
               +:+ pretty COVE_STATE_VERSION +:+ ")"));;
  p ← byte_bang bytes 33;
  ph ← byteToPhase p;
  supply ← readU64BE bytes 34;
  reserve ← readU64BE bytes 42;
  stage ← byte_bang bytes 50;
  Ok {| version := v; tokenId := toHex (subarray bytes 1 33); phase := ph;
        publicSupplyAtoms := supply; reserveSats := reserve; curveStage := stage |}.

(** ** stateV2.ts *)
Definition COVE_STATE_V2_BYTES : Z := 51.
Definition COVE_STATE_V2_VERSION : Z := 2.
Definition COVE_STATE_V2_DOMAIN : string := "Cove/State/v2".

Record CoveStateV2 := {
  stateVersion : Z;
  policyVersionV2 : Z;
  tokenIdV2 : string;
  issuedPublicSupplyAtoms : Z;
  backingSats : Z;
  curveStageV2 : Z;
}.

#[export] Instance CoveStateV2_eq_dec : EqDecision CoveStateV2.
Proof. solve_decision. Defined.

(** [/^0{64}$/.test(s)] *)
Definition is_zero64 (s : string) : bool :=
  (String.length s =? 64)%nat && string_forallb (Ascii.eqb "0") s.

Definition writeU64BE_V2 (value : Z) : result (list byte) :=
  throw_if ((value <? 0) || (U64_MAX <? value)) (js_error "value does not fit in u64");;
  Ok (u64be value).

Definition serializeStateV2 (state : CoveStateV2) : result (list byte) :=
  throw_if (negb (stateVersion state =? COVE_STATE_V2_VERSION))
    (js_error ("unsupported stateVersion " +:+ pretty (stateVersion state)));;
  throw_if (negb (is_hex64 (tokenIdV2 state))) (js_error "tokenId must be 64 hex chars");;
  throw_if (is_zero64 (tokenIdV2 state)) (js_error "tokenId must be nonzero");;
  throw_if ((issuedPublicSupplyAtoms state <? 0)
            || (PUBLIC_SUPPLY_ATOMS <? issuedPublicSupplyAtoms state))
    (js_error "issuedPublicSupplyAtoms out of range");;
  throw_if ((backingSats state <? 0) || (U64_MAX <? backingSats state))
    (js_error "backingSats out of range");;
  supply ← writeU64BE_V2 (issuedPublicSupplyAtoms state);
  backing ← writeU64BE_V2 (backingSats state);
  Ok ([to_byte (stateVersion state); to_byte (policyVersionV2 state)] ++ fromHex (tokenIdV2 state)
      ++ supply ++ backing ++ [to_byte (curveStageV2 state)]).

Definition deserializeStateV2 (bytes : list byte) : result CoveStateV2 :=
  throw_if (negb (blen bytes =? COVE_STATE_V2_BYTES))
    (js_error ("expected " +:+ pretty COVE_STATE_V2_BYTES +:+ " bytes, got " +:+ pretty (blen bytes)));;
  v ← byte_bang bytes 0;
  throw_if (negb (v =? COVE_STATE_V2_VERSION)) (js_error ("unsupported stateVersion " +:+ pretty v));;
  pv ← byte_bang bytes 1;
  supply ← readU64BE bytes 34;
  backing ← readU64BE bytes 42;
  stage ← byte_bang bytes 50;
  Ok {| stateVersion := 2; policyVersionV2 := pv; tokenIdV2 := toHex (subarray bytes 2 34);
        issuedPublicSupplyAtoms := supply; backingSats := backing; curveStageV2 := stage |}.

Definition impliedStageV2 (supplyAtoms : Z) : result Z :=
  getStageForSupply (Z.quot supplyAtoms ATOMS_PER_TOKEN).

(** ** transition.ts *)
Definition CovenantError (code msg : string) : exn := coded ECovenantError code msg.

(** [catch (e) { if (e instanceof BackingError) throw f(e); throw e; }] *)
Definition catch_backing {A} (m : result A) (f : string → string) : result A :=
  try_catch m (λ e,
    match exn_class e, exn_code e with
    | EBackingError, Some code => Throw (CovenantError (f code) (exn_message e))
    | _, _ => Throw e
    end).

Record MintResult := { mint_nextState : CoveState; curveContributionSats : Z }.
Record RedeemResult := { redeem_nextState : CoveState; grossRedeemSats : Z }.

(** [{ ...prev, publicSupplyAtoms, reserveSats, curveStage }] *)
Definition state_with (prev : CoveState) (supply reserve stage : Z) : CoveState :=
  {| version := version prev; tokenId := tokenId prev; phase := phase prev;
     publicSupplyAtoms := supply; reserveSats := reserve; curveStage := stage |}.

Definition applyMint (prev : CoveState) (amountAtoms : Z) : result MintResult :=
  throw_if (amountAtoms <=? 0) (CovenantError "ZERO_MINT" "Minted amount must be positive.");;
  throw_if (negb (Z.rem amountAtoms ATOMS_PER_TOKEN =? 0))
    (CovenantError "SUBTOKEN_MINT" "Minted amount must be a whole display token.");;
  let amountTokens := Z.quot amountAtoms ATOMS_PER_TOKEN in
  let supplyTokens := Z.quot (publicSupplyAtoms prev) ATOMS_PER_TOKEN in
  let nextSupplyAtoms := publicSupplyAtoms prev + amountAtoms in
  throw_if (PUBLIC_SUPPLY_ATOMS <? nextSupplyAtoms)
    (CovenantError "OVERMINT" ("Mint would exceed public supply (" +:+ pretty nextSupplyAtoms
       +:+ " > " +:+ pretty PUBLIC_SUPPLY_ATOMS +:+ ")."));;
  contribution ← catch_backing (grossBuy supplyTokens amountTokens)
    (λ code, if String.eqb code "ECONOMIC_DUST" then "ECONOMIC_DUST"%string else "OVERMINT"%string);
  stage ← getStageForSupply (Z.quot nextSupplyAtoms ATOMS_PER_TOKEN);
  Ok {| curveContributionSats := contribution;
        mint_nextState :=
          state_with prev nextSupplyAtoms (reserveSats prev + contribution) stage |}.

Definition applyRedeem (prev : CoveState) (amountAtoms : Z) : result RedeemResult :=
  throw_if (amountAtoms <=? 0) (CovenantError "ZERO_REDEEM" "Redeemed amount must be positive.");;
  throw_if (negb (Z.rem amountAtoms ATOMS_PER_TOKEN =? 0))
    (CovenantError "SUBTOKEN_REDEEM" "Redeemed amount must be a whole display token.");;
  let amountTokens := Z.quot amountAtoms ATOMS_PER_TOKEN in
  let supplyTokens := Z.quot (publicSupplyAtoms prev) ATOMS_PER_TOKEN in
  throw_if (publicSupplyAtoms prev <? amountAtoms)
    (CovenantError "INSUFFICIENT_TOKEN_BALANCE" "Redeem exceeds issued supply.");;
  gross ← catch_backing (grossRedeem supplyTokens amountTokens) (λ code, code);
  let nextSupplyAtoms := publicSupplyAtoms prev - amountAtoms in
  stage ← getStageForSupply (Z.quot nextSupplyAtoms ATOMS_PER_TOKEN);
  Ok {| grossRedeemSats := gross;
        redeem_nextState := state_with prev nextSupplyAtoms (reserveSats prev - gross) stage |}.

Definition serializeCoveStateEq (a b : CoveState) : bool :=
  (version a =? version b) && String.eqb (tokenId a) (tokenId b)
  && bool_decide (phase a = phase b) && (publicSupplyAtoms a =? publicSupplyAtoms b)
  && (reserveSats a =? reserveSats b) && (curveStage a =? curveStage b).

Definition isCorrectMintSuccessor (prev : CoveState) (amountAtoms : Z) (proposed : CoveState) : bool :=
  match applyMint prev amountAtoms with
  | Ok r => serializeCoveStateEq (mint_nextState r) proposed
  | Throw _ => false
  end.

(** ** transitionV2.ts *)
Definition LOT_ATOMS : Z := LOT_TOKENS * ATOMS_PER_TOKEN.

Definition validateStateV2 (state : CoveStateV2) : result unit :=
  throw_if (negb (stateVersion state =? 2)) (CovenantError "BAD_STATE_VERSION" "stateVersion must be 2");;
  throw_if (negb (policyVersionV2 state =? COVE_POLICY_V3))
    (CovenantError "BAD_POLICY_VERSION" ("policyVersion must be " +:+ pretty COVE_POLICY_V3));;
  throw_if (negb (is_hex64 (tokenIdV2 state)) || is_zero64 (tokenIdV2 state))
    (CovenantError "INVALID_TOKEN_ID" "tokenId must be nonzero 32 bytes");;
  throw_if ((issuedPublicSupplyAtoms state <? 0)
            || (PUBLIC_SUPPLY_ATOMS <? issuedPublicSupplyAtoms state))
    (CovenantError "SUPPLY_OUT_OF_RANGE" "issued supply out of range");;
  throw_if (negb (Z.rem (issuedPublicSupplyAtoms state) ATOMS_PER_TOKEN =? 0))
    (CovenantError "SUPPLY_NOT_ATOMIC" "issued supply is not a whole display token");;
  throw_if (negb (Z.rem (issuedPublicSupplyAtoms state) LOT_ATOMS =? 0))
    (CovenantError "SUPPLY_NOT_LOTS" "issued supply is not a whole number of lots");;
  implied ← impliedStageV2 (issuedPublicSupplyAtoms state);
  throw_if (negb (curveStageV2 state =? implied))
    (CovenantError "CURVE_STAGE_MISMATCH"
       ("curveStage " +:+ pretty (curveStageV2 state) +:+ " != implied " +:+ pretty implied));;
  backing ← requiredBackingSats (Z.quot (issuedPublicSupplyAtoms state) ATOMS_PER_TOKEN);
  throw_if (negb (backingSats state =? backing))
    (CovenantError "BACKING_MISMATCH"
       ("backingSats " +:+ pretty (backingSats state) +:+ " != R(supply) " +:+ pretty backing)).

Record TransitionV2Result := { nextState : CoveStateV2; grossSats : Z }.

Definition s0StateV2 (tokenId : string) : result CoveStateV2 :=
  stage ← impliedStageV2 0;
  Ok {| stateVersion := 2; policyVersionV2 := COVE_POLICY_V3; tokenIdV2 := tokenId;
        issuedPublicSupplyAtoms := 0; backingSats := 0; curveStageV2 := stage |}.

(** [{ ...prev, issuedPublicSupplyAtoms, backingSats, curveStage }] *)
Definition stateV2_with (prev : CoveStateV2) (supply backing stage : Z) : CoveStateV2 :=
  {| stateVersion := stateVersion prev; policyVersionV2 := policyVersionV2 prev;
     tokenIdV2 := tokenIdV2 prev; issuedPublicSupplyAtoms := supply; backingSats := backing;
     curveStageV2 := stage |}.

Definition applyMintV2 (prev : CoveStateV2) (amountAtoms : Z) : result TransitionV2Result :=
  validateStateV2 prev;;
  throw_if (amountAtoms <=? 0) (CovenantError "ZERO_MINT" "amount must be positive");;
  throw_if (negb (Z.rem amountAtoms ATOMS_PER_TOKEN =? 0))
    (CovenantError "SUBTOKEN_MINT" "amount must be whole token");;
  throw_if (negb (Z.rem amountAtoms LOT_ATOMS =? 0))
    (CovenantError "NOT_WHOLE_LOTS" ("mint whole lots of " +:+ pretty LOT_TOKENS +:+ " tokens"));;
  let nextSupply := issuedPublicSupplyAtoms prev + amountAtoms in
  throw_if (PUBLIC_SUPPLY_ATOMS <? nextSupply) (CovenantError "OVERMINT" "exceeds public cap");;
  let prevTokens := Z.quot (issuedPublicSupplyAtoms prev) ATOMS_PER_TOKEN in
  let nextTokens := Z.quot nextSupply ATOMS_PER_TOKEN in
  after ← requiredBackingSats nextTokens;
  before ← requiredBackingSats prevTokens;
  let gross := after - before in
  throw_if (gross <? 1) (CovenantError "ECONOMIC_DUST" "zero R-delta");;
  backing ← requiredBackingSats nextTokens;
  stage ← impliedStageV2 nextSupply;
  Ok {| grossSats := gross; nextState := stateV2_with prev nextSupply backing stage |}.

Definition applyRedeemV2 (prev : CoveStateV2) (amountAtoms : Z) : result TransitionV2Result :=
  validateStateV2 prev;;
  throw_if (amountAtoms <=? 0) (CovenantError "ZERO_REDEEM" "amount must be positive");;
  throw_if (negb (Z.rem amountAtoms ATOMS_PER_TOKEN =? 0))
    (CovenantError "SUBTOKEN_REDEEM" "amount must be whole token");;
  throw_if (negb (Z.rem amountAtoms LOT_ATOMS =? 0))
    (CovenantError "NOT_WHOLE_LOTS" ("redeem whole lots of " +:+ pretty LOT_TOKENS +:+ " tokens"));;
  throw_if (issuedPublicSupplyAtoms prev <? amountAtoms)
    (CovenantError "REDEEM_EXCEEDS_SUPPLY" "amount exceeds issued supply");;
  let nextSupply := issuedPublicSupplyAtoms prev - amountAtoms in
  let prevTokens := Z.quot (issuedPublicSupplyAtoms prev) ATOMS_PER_TOKEN in
  let nextTokens := Z.quot nextSupply ATOMS_PER_TOKEN in
  before ← requiredBackingSats prevTokens;
  after ← requiredBackingSats nextTokens;
  let gross := before - after in
  throw_if (gross <? 1) (CovenantError "ECONOMIC_DUST" "zero R-delta");;
  backing ← requiredBackingSats nextTokens;
  stage ← impliedStageV2 nextSupply;
  Ok {| grossSats := gross; nextState := stateV2_with prev nextSupply backing stage |}.

(** ** tokenUtxo.ts *)
Record TokenInput := { ti_outpoint : string; ti_amountAtoms : Z }.
Record TxOutputView := { out_script : list byte; out_value : Z }.
(** [{ ok, reason, changeAtoms }] *)
Inductive TokenTransferValidation :=
  | Valid (changeAtoms : Z)
  | Invalid (reason : string).

Definition isOpReturn (script : list byte) : bool :=
  bool_decide (byte_at script 0 = Some 0x6a).

(** [for (const input of tokenInputs) ...]: the total, or the early return. *)
Fixpoint sum_inputs (inputs : list TokenInput) (inputTotal : Z) : Z + string :=
  match inputs with
  | [] => inl inputTotal
  | i :: rest =>
      if ti_amountAtoms i <=? 0 then inr "INVALID_INPUT_AMOUNT"%string
      else sum_inputs rest (inputTotal + ti_amountAtoms i)
  end.

(** The allocation loop; [outputs[vout]!] of a negative index is [undefined],
    whose [script] cannot be read.  [check] is the loop's overflow test, which
    only the transfer has. *)
Fixpoint check_allocations (overflow : bool) (outputs : list TxOutputView)
    (l : list TokenAllocation) (seen : gset Z) (total : Z) : result (Z + string) :=
  match l with
  | [] => Ok (inl total)
  | a :: rest =>
      if amount a <=? 0 then Ok (inr "ZERO_AMOUNT"%string)
      else if Z.of_nat (length outputs) <=? vout a then Ok (inr "ALLOCATION_VOUT_OUT_OF_RANGE"%string)
      else
        out ← of_option (Exn ETypeError None "Cannot read properties of undefined")
                (if vout a <? 0 then None else outputs !! Z.to_nat (vout a));
        if isOpReturn (out_script out) then Ok (inr "ALLOCATION_TO_OP_RETURN"%string)
        else if bool_decide (vout a ∈ seen) then Ok (inr "DUPLICATE_VOUT"%string)
        else if overflow && (U64_MAX <? total + amount a) then Ok (inr "AMOUNT_OVERFLOW"%string)
        else check_allocations overflow outputs rest ({[vout a]} ∪ seen) (total + amount a)
  end.

Definition validateTokenTransfer (tokenInputs : list TokenInput)
    (allocations : list TokenAllocation) (outputs : list TxOutputView)
    : result TokenTransferValidation :=
  if (length tokenInputs =? 0)%nat then Ok (Invalid "NO_TOKEN_INPUT")
  else match sum_inputs tokenInputs 0 with
  | inr reason => Ok (Invalid reason)
  | inl inputTotal =>
      if (length allocations =? 0)%nat then Ok (Invalid "ZERO_ALLOCATIONS")
      else
        checked ← check_allocations true outputs allocations ∅ 0;
        match checked with
        | inr reason => Ok (Invalid reason)
        | inl outputTotal =>
            if inputTotal <? outputTotal then Ok (Invalid "INFLATION")
            else if negb (outputTotal =? inputTotal) then Ok (Invalid "BURN_OR_INCONSISTENT_CHANGE")
            else Ok (Valid 0)
        end
  end.

Definition validateRedeemTokenAccounting (tokenInputs : list TokenInput) (redeemAmountAtoms : Z)
    (changeAllocations : list TokenAllocation) (outputs : list TxOutputView)
    : result TokenTransferValidation :=
  if (length tokenInputs =? 0)%nat then Ok (Invalid "NO_TOKEN_INPUT")
  else match sum_inputs tokenInputs 0 with
  | inr reason => Ok (Invalid reason)
  | inl inputTotal =>
      if redeemAmountAtoms <=? 0 then Ok (Invalid "ZERO_AMOUNT")
      else if inputTotal <? redeemAmountAtoms then Ok (Invalid "REDEEM_EXCEEDS_OWNERSHIP")
      else
        checked ← check_allocations false outputs changeAllocations ∅ 0;
        match checked with
        | inr reason => Ok (Invalid reason)
        | inl changeTotal =>
            if negb (redeemAmountAtoms + changeTotal =? inputTotal)
            then Ok (Invalid "BURN_OR_INCONSISTENT_CHANGE")
            else Ok (Valid changeTotal)
        end
  end.

(** ** carrier.ts and anchor.ts *)
Definition TOKEN_CARRIER_SATS : Z := 1000.
Definition isCarrierValue (valueSats : Z) : bool := TOKEN_CARRIER_SATS <=? valueSats.
Definition RESERVE_ANCHOR_SATS : Z := 10000.

(** ** State hashes and the state-committed output: state.ts, stateV2.ts, taproot.ts *)
Section Hashes.
(** SHA-256 of [node:crypto]; [xOnlyPointAddTweak] of tiny-secp256k1; the
    bech32 encoder of bitcoinjs-lib, by the network's prefix. *)
Context (sha256 : list byte → list byte).
Context (xOnlyPointAddTweak : list byte → list byte → option (list byte)).
Context (toBech32 : list byte → string → string).

Definition stateHash (state : CoveState) : result string :=
  bytes ← serializeState state;
  Ok (toHex (sha256 (utf8 STATE_DOMAIN ++ [x00] ++ bytes))).

Definition stateHashV2 (state : CoveStateV2) : result string :=
  bytes ← serializeStateV2 state;
  Ok (toHex (sha256 (utf8 COVE_STATE_V2_DOMAIN ++ [x00] ++ bytes))).

Definition COVE_STATE_TAG : string := "CoveState".

Definition stateCommitment (state : CoveState) : result (list byte) :=
  h ← stateHash state;
  Ok (taggedHash sha256 COVE_STATE_TAG (fromHex h)).

Definition bad_internal_key (internalKey : list byte) : exn :=
  js_error ("internalKey must be 32 bytes (x-only), got " +:+ pretty (blen internalKey)).

Definition stateTweak (internalKey : list byte) (state : CoveState) : result (list byte) :=
  throw_if (negb (blen internalKey =? 32)) (bad_internal_key internalKey);;
  c ← stateCommitment state;
  Ok (taggedHash sha256 "TapTweak" (internalKey ++ c)).

Record StateCommitment := { outputKey : list byte; scriptPubKeyHex : string; address : string }.

Definition deriveStateOutput (internalKey : list byte) (state : CoveState) (network : string)
    : result StateCommitment :=
  throw_if (negb (blen internalKey =? 32)) (bad_internal_key internalKey);;
  tweak ← stateTweak internalKey state;
  q ← of_option (js_error "State tweak produced the point at infinity (invalid for this internal key + state).")
        (xOnlyPointAddTweak internalKey tweak);
  Ok {| outputKey := q; scriptPubKeyHex := toHex ([x51; x20] ++ q); address := toBech32 q network |}.

Definition stateOutputScript (state : CoveState) (internalKey : list byte) (network : string)
    : result (list byte) :=
  o ← deriveStateOutput internalKey state network;
  Ok (fromHex (scriptPubKeyHex o)).
End Hashes.

(** ** The valid states are the lots of the curve

    A production state is determined by its token and the number of lots
    issued: [state_at t k]. *)
Definition MAX_LOTS : Z := 21000.
Definition lot_reserve (k : Z) : Z := curve_reserve (k * LOT_TOKENS).
Definition lot_stage (k : Z) : Z :=
  if MAX_LOTS <=? k then STAGE_COUNT else (k * LOT_TOKENS) `div` TOKENS_PER_STAGE + 1.
Definition valid_tokenIdV2 (t : string) : Prop := is_hex64 t = true ∧ is_zero64 t = false.

Definition state_at (t : string) (k : Z) : CoveStateV2 :=
  {| stateVersion := 2; policyVersionV2 := 3; tokenIdV2 := t;
     issuedPublicSupplyAtoms := k * LOT_ATOMS; backingSats := lot_reserve k;
     curveStageV2 := lot_stage k |}.

Lemma quot_lots k : Z.quot (k * LOT_ATOMS) ATOMS_PER_TOKEN = k * LOT_TOKENS.
Proof. unfold LOT_ATOMS. rewrite Z.mul_assoc. by apply Z.quot_mul. Qed.

Lemma rem_lots_token k : Z.rem (k * LOT_ATOMS) ATOMS_PER_TOKEN = 0.
Proof. unfold LOT_ATOMS. rewrite Z.mul_assoc. by apply Z.rem_mul. Qed.

Lemma rem_lots k : Z.rem (k * LOT_ATOMS) LOT_ATOMS = 0.
Proof. by apply Z.rem_mul. Qed.

Lemma rem_lots_inv x : Z.rem x LOT_ATOMS = 0 → ∃ k, x = k * LOT_ATOMS.
Proof. intros H. apply Z.rem_divide in H; [|done]. destruct H as [k ->]. by exists k. Qed.

Lemma lots_range k : 0 ≤ k * LOT_ATOMS ≤ PUBLIC_SUPPLY_ATOMS ↔ 0 ≤ k ≤ MAX_LOTS.
Proof.
  unfold PUBLIC_SUPPLY_ATOMS, MAX_LOTS.
  change (PUBLIC_SUPPLY_TOKENS * ATOMS_PER_TOKEN) with (21000 * LOT_ATOMS).
  assert (0 < LOT_ATOMS) by reflexivity. nia.
Qed.

Lemma lot_tokens_range k : 0 ≤ k ≤ MAX_LOTS → 0 ≤ k * LOT_TOKENS ≤ PUBLIC_SUPPLY.
Proof. unfold MAX_LOTS, LOT_TOKENS, PUBLIC_SUPPLY, PUBLIC_SUPPLY_TOKENS. lia. Qed.

Lemma lot_mod k : (k * LOT_TOKENS) `mod` LOT_TOKENS = 0.
Proof. by apply Z.mod_mul. Qed.

Lemma impliedStageV2_lots k :
  0 ≤ k ≤ MAX_LOTS → impliedStageV2 (k * LOT_ATOMS) = Ok (lot_stage k).
Proof.
  intros Hk. unfold impliedStageV2, lot_stage. rewrite quot_lots.
  pose proof (lot_tokens_range k Hk). destruct (Z.leb_spec MAX_LOTS k).
  - assert (k = MAX_LOTS) as -> by lia. done.
  - apply getStageForSupply_in. unfold MAX_LOTS, LOT_TOKENS, PUBLIC_SUPPLY_TOKENS in *. lia.
Qed.

Lemma requiredBackingSats_lots k :
  0 ≤ k ≤ MAX_LOTS →
  requiredBackingSats (Z.quot (k * LOT_ATOMS) ATOMS_PER_TOKEN) = Ok (lot_reserve k).
Proof. intros Hk. rewrite quot_lots. by apply requiredBackingSats_valid, lot_tokens_range. Qed.

Lemma lot_reserve_strict k q : 0 ≤ k → 0 < q → lot_reserve k + 27 ≤ lot_reserve (k + q).
Proof.
  intros. unfold lot_reserve. rewrite Z.mul_add_distr_r.
  apply curve_reserve_lots_strict; rewrite ?lot_mod; unfold LOT_TOKENS; lia.
Qed.

Lemma lot_reserve_range k : 0 ≤ k ≤ MAX_LOTS → 0 ≤ lot_reserve k ≤ 59818500.
Proof.
  intros Hk. pose proof (lot_tokens_range k Hk). unfold lot_reserve. split.
  - apply curve_reserve_nonneg. lia.
  - by apply curve_reserve_max.
Qed.

Lemma lot_stage_range k : 0 ≤ k ≤ MAX_LOTS → 1 ≤ lot_stage k ≤ 210.
Proof.
  unfold lot_stage, MAX_LOTS, LOT_TOKENS, TOKENS_PER_STAGE, STAGE_COUNT. intros ?.
  destruct (Z.leb_spec 21000 k); [lia|].
  pose proof (Z.div_mod (k * 1000) 100000 ltac:(lia)).
  pose proof (Z.mod_pos_bound (k * 1000) 100000 ltac:(lia)). lia.
Qed.

(** The validator accepts exactly the states of the curve. *)
Lemma validateStateV2_Ok s :
  validateStateV2 s = Ok tt ↔
  valid_tokenIdV2 (tokenIdV2 s) ∧ ∃ k, 0 ≤ k ≤ MAX_LOTS ∧ s = state_at (tokenIdV2 s) k.
Proof.
  unfold validateStateV2, valid_tokenIdV2, COVE_POLICY_V3. split.
  - intros H. res_inv H. to_prop. destruct Hv1 as [? ?].
    split; [done|]. apply rem_lots_inv in Hv4 as [k Ek]. exists k.
    assert (0 ≤ k ≤ MAX_LOTS) as Hk by (apply lots_range; lia). split; [done|].
    rewrite Ek in Hv5, Hv7. rewrite impliedStageV2_lots in Hv5 by done. injection Hv5 as <-.
    rewrite requiredBackingSats_lots in Hv7 by done. injection Hv7 as <-.
    destruct s. cbn in *. unfold state_at. by subst.
  - intros ([Hx Hz] & k & Hk & ->). cbn [stateVersion policyVersionV2 tokenIdV2 issuedPublicSupplyAtoms
      curveStageV2 backingSats state_at] in *.
    pose proof (proj2 (lots_range k) Hk). rewrite Hx, Hz, rem_lots_token, rem_lots.
    repeat guard_step ltac:(done || lia).
    rewrite impliedStageV2_lots by done. step_ok. guard_step lia.
    rewrite requiredBackingSats_lots by done. step_ok.
    unfold throw_if. by rewrite Z.eqb_refl.
Qed.

Lemma validateStateV2_state_at t k :
  valid_tokenIdV2 t → 0 ≤ k ≤ MAX_LOTS → validateStateV2 (state_at t k) = Ok tt.
Proof. intros Ht Hk. apply validateStateV2_Ok. split; [done|]. by exists k. Qed.

(** A MINT of [q] lots moves a state up the curve by [q] lots. *)
Lemma applyMintV2_Ok s a r :
  applyMintV2 s a = Ok r ↔
  ∃ k q, valid_tokenIdV2 (tokenIdV2 s) ∧ 0 ≤ k ∧ 0 < q ∧ k + q ≤ MAX_LOTS
  ∧ s = state_at (tokenIdV2 s) k ∧ a = q * LOT_ATOMS
  ∧ r = {| nextState := state_at (tokenIdV2 s) (k + q);
           grossSats := lot_reserve (k + q) - lot_reserve k |}.
Proof.
  assert (0 < LOT_ATOMS) as HL by reflexivity. unfold applyMintV2. split.
  - intros H. apply bind_Ok in H as ([] & Hval & H). apply validateStateV2_Ok in Hval as (Ht & k & Hk & Es).
    res_inv H. to_prop. apply rem_lots_inv in Hv1 as [q ->].
    rewrite Es in Hv2, Hv3, Hv4, Hv6, Hv7, H.
    cbn [issuedPublicSupplyAtoms state_at] in Hv2, Hv3, Hv4, Hv6, Hv7, H.
    rewrite <-Z.mul_add_distr_r in *.
    assert (0 ≤ k + q ≤ MAX_LOTS) by (apply lots_range; nia).
    rewrite requiredBackingSats_lots in Hv3, Hv4, Hv6 by done.
    rewrite impliedStageV2_lots in Hv7 by done. simplify_eq.
    exists k, q. split_and!; try done; try lia; nia.
  - intros (k & q & Ht & ? & ? & ? & Es & -> & ->). rewrite Es at 1.
    rewrite validateStateV2_state_at by (done || lia). step_ok.
    rewrite rem_lots_token, rem_lots. guard_step nia. do 2 guard_step lia.
    rewrite Es. cbn [issuedPublicSupplyAtoms state_at tokenIdV2]. rewrite <-Z.mul_add_distr_r.
    pose proof (proj2 (lots_range (k + q)) ltac:(lia)). guard_step lia.
    rewrite !requiredBackingSats_lots by lia. do 2 step_ok.
    pose proof (lot_reserve_strict k q). guard_step lia. step_ok.
    rewrite impliedStageV2_lots by lia. by step_ok.
Qed.

(** A REDEEM of [q] lots moves it down by [q] lots. *)
Lemma applyRedeemV2_Ok s a r :
  applyRedeemV2 s a = Ok r ↔
  ∃ k q, valid_tokenIdV2 (tokenIdV2 s) ∧ k ≤ MAX_LOTS ∧ 0 < q ≤ k
  ∧ s = state_at (tokenIdV2 s) k ∧ a = q * LOT_ATOMS
  ∧ r = {| nextState := state_at (tokenIdV2 s) (k - q);
           grossSats := lot_reserve k - lot_reserve (k - q) |}.
Proof.
  assert (0 < LOT_ATOMS) as HL by reflexivity. unfold applyRedeemV2. split.
  - intros H. apply bind_Ok in H as ([] & Hval & H). apply validateStateV2_Ok in Hval as (Ht & k & Hk & Es).
    res_inv H. to_prop. apply rem_lots_inv in Hv1 as [q ->].
    rewrite Es in Hv2, Hv3, Hv4, Hv6, Hv7, H.
    cbn [issuedPublicSupplyAtoms state_at] in Hv2, Hv3, Hv4, Hv6, Hv7, H.
    rewrite <-Z.mul_sub_distr_r in *.
    assert (0 ≤ k - q ≤ MAX_LOTS) by nia.
    rewrite requiredBackingSats_lots in Hv3, Hv4, Hv6 by done.
    rewrite impliedStageV2_lots in Hv7 by done. simplify_eq.
    exists k, q. split_and!; try done; try lia; nia.
  - intros (k & q & Ht & ? & ? & Es & -> & ->). rewrite Es at 1.
    rewrite validateStateV2_state_at by (done || lia). step_ok.
    rewrite rem_lots_token, rem_lots. guard_step nia. do 2 guard_step lia.
    rewrite Es. cbn [issuedPublicSupplyAtoms state_at tokenIdV2]. rewrite <-Z.mul_sub_distr_r.
    guard_step nia.
    rewrite !requiredBackingSats_lots by lia. do 2 step_ok.
    pose proof (lot_reserve_strict (k - q) q) as Hs. rewrite Z.sub_add in Hs. guard_step lia. step_ok.
    rewrite impliedStageV2_lots by lia. by step_ok.
Qed.

(** ** Histories of a covenant *)
Inductive covenant_op := OpMint (amountAtoms : Z) | OpRedeem (amountAtoms : Z).

(** One transition and the satoshis it moves into the vault. *)
Definition apply_op (s : CoveStateV2) (o : covenant_op) : result (CoveStateV2 * Z) :=
  match o with
  | OpMint a => r ← applyMintV2 s a; Ok (nextState r, grossSats r)
  | OpRedeem a => r ← applyRedeemV2 s a; Ok (nextState r, - grossSats r)
  end.

Fixpoint run_ops (s : CoveStateV2) (ops : list covenant_op) : result (CoveStateV2 * list Z) :=
  match ops with
  | [] => Ok (s, [])
  | o :: rest =>
      '(s1, d) ← apply_op s o;
      '(s2, ds) ← run_ops s1 rest;
      Ok (s2, d :: ds)
  end.

Definition op_atoms (o : covenant_op) : Z :=
  match o with OpMint a => a | OpRedeem a => - a end.

Lemma apply_op_Ok s o s' d :
  apply_op s o = Ok (s', d) →
  validateStateV2 s = Ok tt ∧ validateStateV2 s' = Ok tt ∧ tokenIdV2 s' = tokenIdV2 s
  ∧ issuedPublicSupplyAtoms s' = issuedPublicSupplyAtoms s + op_atoms o
  ∧ backingSats s' = backingSats s + d.
Proof.
  destruct o as [a|a]; cbn [apply_op op_atoms]; intros H; res_inv H; simplify_eq.
  - apply applyMintV2_Ok in Hv as (k & q & Ht & ? & ? & ? & Es & -> & ->). rewrite Es.
    cbn [nextState grossSats tokenIdV2 issuedPublicSupplyAtoms backingSats state_at].
    rewrite !validateStateV2_state_at by (done || lia). split_and!; try done; lia.
  - apply applyRedeemV2_Ok in Hv as (k & q & Ht & ? & ? & Es & -> & ->). rewrite Es.
    cbn [nextState grossSats tokenIdV2 issuedPublicSupplyAtoms backingSats state_at].
    rewrite !validateStateV2_state_at by (done || lia). split_and!; try done; lia.
Qed.

Lemma run_ops_Ok s ops s' ds :
  run_ops s ops = Ok (s', ds) → validateStateV2 s = Ok tt →
  validateStateV2 s' = Ok tt ∧ tokenIdV2 s' = tokenIdV2 s
  ∧ issuedPublicSupplyAtoms s' = issuedPublicSupplyAtoms s + zsum (op_atoms <$> ops)
  ∧ backingSats s' = backingSats s + zsum ds.
Proof.
  revert s ds. induction ops as [|o ops IH]; intros s ds; cbn [run_ops]; intros H Hval.
  - simplify_eq. cbn. split_and!; try done; lia.
  - res_inv H. destruct v as [s1 d]. res_inv H. destruct v as [s2 ds']. simplify_eq.
    apply apply_op_Ok in Hv as (_ & ? & ? & ? & ?).
    apply IH in Hv0 as (? & ? & ? & ?); [|done].
    cbn [fmap list_fmap zsum foldr]. unfold zsum in *. split_and!; try done; congruence || lia.
Qed.

Lemma s0StateV2_state_at t : s0StateV2 t = Ok (state_at t 0).
Proof. reflexivity. Qed.

(** The state of a token is determined by its supply. *)
Lemma valid_state_determined s s' :
  validateStateV2 s = Ok tt → validateStateV2 s' = Ok tt → tokenIdV2 s = tokenIdV2 s' →
  issuedPublicSupplyAtoms s = issuedPublicSupplyAtoms s' → s = s'.
Proof.
  intros (_ & k & _ & E)%validateStateV2_Ok (_ & k' & _ & E')%validateStateV2_Ok Et Ei.
  rewrite E, E' in Ei. cbn in Ei. assert (LOT_ATOMS ≠ 0) by done.
  apply Z.mul_reg_r in Ei; [|done]. rewrite E, E', Et, Ei. done.
Qed.

(** C39: a transition keeps the validator's invariant: the successor is again a
    whole number of lots with backing R(supply) and its stage, of the same
    token; the supply moves by the amount and the backing by the gross
    satoshis, which are at least 27. *)
Theorem transitionsV2_preserve_validity s a r :
  (applyMintV2 s a = Ok r →
   validateStateV2 (nextState r) = Ok tt ∧ tokenIdV2 (nextState r) = tokenIdV2 s
   ∧ issuedPublicSupplyAtoms (nextState r) = issuedPublicSupplyAtoms s + a
   ∧ backingSats (nextState r) = backingSats s + grossSats r ∧ 27 ≤ grossSats r)
  ∧ (applyRedeemV2 s a = Ok r →
   validateStateV2 (nextState r) = Ok tt ∧ tokenIdV2 (nextState r) = tokenIdV2 s
   ∧ issuedPublicSupplyAtoms (nextState r) = issuedPublicSupplyAtoms s - a
   ∧ backingSats (nextState r) = backingSats s - grossSats r ∧ 27 ≤ grossSats r).
Proof.
  split.
  - intros H. pose proof (apply_op_Ok s (OpMint a) (nextState r) (grossSats r)) as A.
    cbn [apply_op op_atoms] in A. rewrite H in A. destruct (A eq_refl) as (_ & ? & ? & ? & ?).
    apply applyMintV2_Ok in H as (k & q & _ & ? & ? & _ & _ & _ & ->). cbn [grossSats] in *.
    pose proof (lot_reserve_strict k q). split_and!; try done; lia.
  - intros H. pose proof (apply_op_Ok s (OpRedeem a) (nextState r) (- grossSats r)) as A.
    cbn [apply_op op_atoms] in A. rewrite H in A. destruct (A eq_refl) as (_ & ? & ? & ? & ?).
    apply applyRedeemV2_Ok in H as (k & q & _ & ? & ? & _ & _ & ->). cbn [grossSats] in *.
    pose proof (lot_reserve_strict (k - q) q) as Hs. rewrite Z.sub_add in Hs. split_and!; try done; lia.
Qed.

(** redeeming what was minted undoes the mint, state and satoshis exactly,
    and minting what was redeemed undoes the redemption. *)
Theorem mint_redeem_inverse s a r :
  (applyMintV2 s a = Ok r →
   applyRedeemV2 (nextState r) a = Ok {| nextState := s; grossSats := grossSats r |})
  ∧ (applyRedeemV2 s a = Ok r →
     applyMintV2 (nextState r) a = Ok {| nextState := s; grossSats := grossSats r |}).
Proof.
  split.
  - intros (k & q & Ht & ? & ? & ? & Es & -> & ->)%applyMintV2_Ok.
    apply applyRedeemV2_Ok. exists (k + q), q. cbn [nextState grossSats tokenIdV2 state_at].
    rewrite Z.add_simpl_r. rewrite <-Es. split_and!; try done; lia.
  - intros (k & q & Ht & ? & ? & Es & -> & ->)%applyRedeemV2_Ok.
    apply applyMintV2_Ok. exists (k - q), q. cbn [nextState grossSats tokenIdV2 state_at].
    rewrite Z.sub_add. rewrite <-Es. split_and!; try done; lia.
Qed.

(** on a valid state nothing but the documented guards refuses: every
    positive number of whole lots that fits under the cap can be minted, and
    every one up to the issued supply redeemed. *)
Theorem transitionsV2_total s q :
  validateStateV2 s = Ok tt → 0 < q →
  is_ok (applyMintV2 s (q * LOT_ATOMS))
    = (issuedPublicSupplyAtoms s + q * LOT_ATOMS <=? PUBLIC_SUPPLY_ATOMS)
  ∧ is_ok (applyRedeemV2 s (q * LOT_ATOMS)) = (q * LOT_ATOMS <=? issuedPublicSupplyAtoms s).
Proof.
  intros (Ht & k & Hk & Es)%validateStateV2_Ok Hq. assert (0 < LOT_ATOMS) as HL by reflexivity.
  rewrite Es at 2 4. cbn [issuedPublicSupplyAtoms state_at]. rewrite <-Z.mul_add_distr_r.
  split; apply eq_bool_prop_intro.
  - rewrite Is_true_true, is_ok_true, Is_true_true, Z.leb_le. pose proof (lots_range (k + q)). split.
    + intros [r Hr]. apply applyMintV2_Ok in Hr as (k' & q' & _ & ? & ? & ? & E & Eq & _).
      rewrite Es in E. cbn in E. injection E as E _ _. apply Z.mul_reg_r in E, Eq; [|lia..]. lia.
    + intros ?. eexists. apply applyMintV2_Ok. exists k, q. split_and!; try done; lia.
  - rewrite Is_true_true, is_ok_true, Is_true_true, Z.leb_le. split.
    + intros [r Hr]. apply applyRedeemV2_Ok in Hr as (k' & q' & _ & ? & ? & E & Eq & _).
      rewrite Es in E. cbn in E. injection E as E _ _. apply Z.mul_reg_r in E, Eq; [|lia..]. nia.
    + intros ?. eexists. apply applyRedeemV2_Ok. exists k, q. split_and!; try done; nia.
Qed.

Definition example_id : string := toHex (to_byte 7 :: zeros 31).

Lemma transitionsV2_total_witness :
  is_ok (applyMintV2 (state_at example_id 5) (3 * LOT_ATOMS))
    = (issuedPublicSupplyAtoms (state_at example_id 5) + 3 * LOT_ATOMS <=? PUBLIC_SUPPLY_ATOMS)
  ∧ is_ok (applyRedeemV2 (state_at example_id 5) (3 * LOT_ATOMS))
    = (3 * LOT_ATOMS <=? issuedPublicSupplyAtoms (state_at example_id 5)).
Proof.
  refine (transitionsV2_total (state_at example_id 5) 3 _ _); [|lia].
  apply validateStateV2_state_at; [by split|unfold MAX_LOTS; lia].
Defined.

(** C26: over every history of mints and redemptions from the deployment of a
    token, the backing is the sum of the satoshis moved and the reserve R of
    the supply: it is never negative nor above 59,818,500, and two histories
    that issue the same net supply end in the same state. *)
Theorem covenant_solvency t s0 ops s ds ops' s' ds' :
  s0StateV2 t = Ok s0 → valid_tokenIdV2 t →
  run_ops s0 ops = Ok (s, ds) → run_ops s0 ops' = Ok (s', ds') →
  validateStateV2 s = Ok tt
  ∧ backingSats s = zsum ds
  ∧ requiredBackingSats (Z.quot (zsum (op_atoms <$> ops)) ATOMS_PER_TOKEN) = Ok (zsum ds)
  ∧ 0 ≤ zsum ds ≤ 59818500
  ∧ (zsum (op_atoms <$> ops) = zsum (op_atoms <$> ops') → s = s' ∧ zsum ds = zsum ds').
Proof.
  intros H0 Ht H H'. rewrite s0StateV2_state_at in H0. injection H0 as <-.
  assert (validateStateV2 (state_at t 0) = Ok tt) as V0
    by (apply validateStateV2_state_at; [done|unfold MAX_LOTS; lia]).
  destruct (run_ops_Ok _ _ _ _ H V0) as (V & Et & Ei & Eb).
  destruct (run_ops_Ok _ _ _ _ H' V0) as (V' & Et' & Ei' & Eb').
  change (backingSats (state_at t 0)) with 0 in *. rewrite Z.add_0_l in Eb, Eb'.
  change (issuedPublicSupplyAtoms (state_at t 0)) with 0 in *. rewrite Z.add_0_l in Ei, Ei'.
  rewrite <-Ei, <-Ei', <-Eb, <-Eb'.
  pose proof (proj1 (validateStateV2_Ok _) V) as (_ & k & Hk & Es).
  split; [done|]. split; [done|]. split.
  { rewrite Es. cbn [issuedPublicSupplyAtoms backingSats state_at]. by apply requiredBackingSats_lots. }
  split; [rewrite Es; by apply lot_reserve_range|].
  intros E. assert (s = s') as ->; [|done].
  apply valid_state_determined; [done|done|congruence|done].
Qed.

Lemma covenant_solvency_witness :
  let ops := [OpMint (150 * LOT_ATOMS); OpRedeem (30 * LOT_ATOMS)] in
  let ops' := [OpMint (120 * LOT_ATOMS)] in
  let run o := match run_ops (state_at example_id 0) o with Ok x => x | Throw _ => (state_at "" 0, []) end in
  validateStateV2 (fst (run ops)) = Ok tt ∧ backingSats (fst (run ops)) = zsum (snd (run ops))
  ∧ requiredBackingSats (Z.quot (zsum (op_atoms <$> ops)) ATOMS_PER_TOKEN) = Ok (zsum (snd (run ops)))
  ∧ 0 ≤ zsum (snd (run ops)) ≤ 59818500
  ∧ (zsum (op_atoms <$> ops) = zsum (op_atoms <$> ops') →
     fst (run ops) = fst (run ops') ∧ zsum (snd (run ops)) = zsum (snd (run ops'))).
Proof.
  intros ops ops' run.
  refine (covenant_solvency example_id (state_at example_id 0) ops _ _ ops' _ _ _ _ _ _);
    [reflexivity|by split|vm_compute; reflexivity..].
Defined.

(** ** Encodings *)

(** The numbers a state must hold for its bytes to be read back: each field in
    its width. *)
Definition encodableV2 (s : CoveStateV2) : Prop :=
  stateVersion s = 2 ∧ 0 ≤ policyVersionV2 s ≤ 255 ∧ valid_tokenIdV2 (tokenIdV2 s)
  ∧ 0 ≤ issuedPublicSupplyAtoms s ≤ PUBLIC_SUPPLY_ATOMS
  ∧ 0 ≤ backingSats s ≤ U64_MAX ∧ 0 ≤ curveStageV2 s ≤ 255.

Definition stateV2_bytes (s : CoveStateV2) : list byte :=
  [to_byte 2; to_byte (policyVersionV2 s)] ++ fromHex (tokenIdV2 s)
  ++ u64be (issuedPublicSupplyAtoms s) ++ u64be (backingSats s) ++ [to_byte (curveStageV2 s)].

Lemma serializeStateV2_Ok s : encodableV2 s → serializeStateV2 s = Ok (stateV2_bytes s).
Proof.
  intros (Hv & ? & [Hx Hz] & ? & ? & ?).
  assert (PUBLIC_SUPPLY_ATOMS ≤ U64_MAX) by done.
  unfold serializeStateV2, writeU64BE_V2, COVE_STATE_V2_VERSION. rewrite Hv, Hx, Hz.
  by repeat first [guard_step ltac:(done || lia) | step_ok].
Qed.

Lemma serializeStateV2_inv s b :
  serializeStateV2 s = Ok b → 0 ≤ policyVersionV2 s ≤ 255 → 0 ≤ curveStageV2 s ≤ 255 → encodableV2 s.
Proof.
  intros H ? ?. unfold serializeStateV2, COVE_STATE_V2_VERSION in H. res_inv H. to_prop.
  unfold encodableV2, valid_tokenIdV2. split_and!; done || lia.
Qed.

Lemma fromHex64_blen s : is_hex64 s = true → blen (fromHex s) = 32.
Proof. intros H. unfold blen. by rewrite (proj2 (toHex_fromHex64 s H)). Qed.

Lemma deserializeStateV2_bytes s : encodableV2 s → deserializeStateV2 (stateV2_bytes s) = Ok s.
Proof.
  intros (Hv & ? & [Hx Hz] & ? & ? & ?).
  pose proof (fromHex64_blen _ Hx) as Hb. pose proof (proj1 (toHex_fromHex64 _ Hx)) as Ht.
  assert (PUBLIC_SUPPLY_ATOMS ≤ U64_MAX) by done.
  set (p := stateV2_bytes s).
  assert (blen p = 51) as L by (unfold p, stateV2_bytes; autorewrite with cove_len; lia).
  unfold deserializeStateV2, COVE_STATE_V2_BYTES, readU64BE. guard_step lia.
  rewrite (byte_bang_at p [] 2 (to_byte (policyVersionV2 s) :: fromHex (tokenIdV2 s)
    ++ u64be (issuedPublicSupplyAtoms s) ++ u64be (backingSats s) ++ [to_byte (curveStageV2 s)]) 0)
    by (done || lia). step_ok. guard_step done.
  rewrite (byte_bang_at p [to_byte 2] (policyVersionV2 s) (fromHex (tokenIdV2 s)
    ++ u64be (issuedPublicSupplyAtoms s) ++ u64be (backingSats s) ++ [to_byte (curveStageV2 s)]) 1)
    by (done || lia). step_ok.
  rewrite (readU64_at p ([to_byte 2; to_byte (policyVersionV2 s)] ++ fromHex (tokenIdV2 s))
    (issuedPublicSupplyAtoms s) (u64be (backingSats s) ++ [to_byte (curveStageV2 s)]) 34)
    by (lia || (autorewrite with cove_len; lia) || (rewrite <-?app_assoc; reflexivity)). step_ok.
  rewrite (readU64_at p ([to_byte 2; to_byte (policyVersionV2 s)] ++ fromHex (tokenIdV2 s)
    ++ u64be (issuedPublicSupplyAtoms s)) (backingSats s) [to_byte (curveStageV2 s)] 42)
    by (lia || (autorewrite with cove_len; lia) || (rewrite <-?app_assoc; reflexivity)). step_ok.
  rewrite (byte_bang_at p ([to_byte 2; to_byte (policyVersionV2 s)] ++ fromHex (tokenIdV2 s)
    ++ u64be (issuedPublicSupplyAtoms s) ++ u64be (backingSats s)) (curveStageV2 s) [] 50)
    by (lia || (autorewrite with cove_len; lia) || (rewrite <-?app_assoc; reflexivity)). step_ok.
  rewrite (subarray_at p [to_byte 2; to_byte (policyVersionV2 s)] (fromHex (tokenIdV2 s))
    (u64be (issuedPublicSupplyAtoms s) ++ u64be (backingSats s) ++ [to_byte (curveStageV2 s)]))
    by (lia || (autorewrite with cove_len; lia) || reflexivity).
  rewrite Ht. destruct s. cbn in Hv. by subst.
Qed.

(** The bytes of a state that was read are the bytes it is written to. *)
Lemma deserializeStateV2_Ok b s :
  deserializeStateV2 b = Ok s →
  b = stateV2_bytes s ∧ is_hex64 (tokenIdV2 s) = true ∧ 0 ≤ policyVersionV2 s ≤ 255
  ∧ 0 ≤ curveStageV2 s ≤ 255 ∧ 0 ≤ issuedPublicSupplyAtoms s ≤ U64_MAX
  ∧ 0 ≤ backingSats s ≤ U64_MAX ∧ stateVersion s = 2.
Proof.
  unfold deserializeStateV2, COVE_STATE_V2_BYTES, COVE_STATE_V2_VERSION, readU64BE. intros H.
  res_inv H. to_prop. subst s. cbn [tokenIdV2 policyVersionV2 curveStageV2 issuedPublicSupplyAtoms
    backingSats stateVersion].
  apply byte_bang_Ok in Hv0 as (_ & ? & S0). apply byte_bang_Ok in Hv2 as (_ & ? & S1).
  apply readU64_Ok in Hv3 as (_ & _ & S34 & ?). apply readU64_Ok in Hv4 as (_ & _ & S42 & ?).
  apply byte_bang_Ok in Hv5 as (_ & ? & S50).
  assert (length (subarray b 2 34) = 32%nat) as L by (rewrite subarray_length; lia).
  split_and!; try lia; [|by apply is_hex64_toHex].
  unfold stateV2_bytes. cbn [tokenIdV2 policyVersionV2 curveStageV2 issuedPublicSupplyAtoms backingSats].
  rewrite fromHex_toHex. etransitivity; [symmetry; exact (subarray_all b (blen b) eq_refl)|].
  rewrite Hv, (subarray_split b 0 1), (subarray_split b 1 2), (subarray_split b 2 34),
    (subarray_split b 34 42), (subarray_split b 42 50) by lia.
  replace (subarray b 0 1) with [to_byte 2] by (rewrite <-Hv1; symmetry; exact S0).
  replace (subarray b 1 2) with [to_byte v2] by (symmetry; exact S1).
  replace (subarray b 34 42) with (u64be v3) by (symmetry; exact S34).
  replace (subarray b 42 50) with (u64be v4) by (symmetry; exact S42).
  by replace (subarray b 50 51) with [to_byte v5] by (symmetry; exact S50).
Qed.

Lemma valid_encodable s : validateStateV2 s = Ok tt → encodableV2 s.
Proof.
  intros (Ht & k & Hk & E)%validateStateV2_Ok. rewrite E.
  pose proof (lot_reserve_range k Hk). pose proof (lot_stage_range k Hk).
  pose proof (proj2 (lots_range k) Hk).
  unfold encodableV2, U64_MAX. cbn [stateVersion policyVersionV2 tokenIdV2 issuedPublicSupplyAtoms backingSats
    curveStageV2 state_at]. split_and!; done || lia.
Qed.

Lemma serializeStateV2_blen s b : encodableV2 s → serializeStateV2 s = Ok b → blen b = 51.
Proof.
  intros He H. rewrite serializeStateV2_Ok in H by done. injection H as <-.
  destruct He as (_ & _ & [Hx _] & _). unfold stateV2_bytes. autorewrite with cove_len.
  rewrite fromHex64_blen by done. lia.
Qed.

(** every valid state has a 51-byte encoding, which decodes to that state;
    and any 51 bytes that decode, to a nonzero token and a supply within the
    cap, are the encoding of what they decode to. *)
Theorem stateV2_roundtrip :
  (∀ s, validateStateV2 s = Ok tt →
     ∃ b, serializeStateV2 s = Ok b ∧ blen b = 51 ∧ deserializeStateV2 b = Ok s)
  ∧ (∀ b s, deserializeStateV2 b = Ok s → is_zero64 (tokenIdV2 s) = false →
     issuedPublicSupplyAtoms s ≤ PUBLIC_SUPPLY_ATOMS → serializeStateV2 s = Ok b).
Proof.
  split.
  - intros s V. pose proof (valid_encodable s V) as He. pose proof (serializeStateV2_Ok s He) as Hs.
    eexists. split; [exact Hs|]. split; [by apply (serializeStateV2_blen s)|].
    by apply deserializeStateV2_bytes.
  - intros b s H Hz Hi. apply deserializeStateV2_Ok in H as (-> & ? & ? & ? & ? & ? & ?).
    apply serializeStateV2_Ok. unfold encodableV2, valid_tokenIdV2. split_and!; done || lia.
Qed.

Definition stateV2_preimage (b : list byte) : list byte := utf8 COVE_STATE_V2_DOMAIN ++ [x00] ++ b.

(** a state hash commits the whole state: two valid states with one hash
    are equal, or their encodings are a SHA-256 collision. *)
Theorem stateHashV2_binds sha256 s s' h :
  validateStateV2 s = Ok tt → validateStateV2 s' = Ok tt →
  stateHashV2 sha256 s = Ok h → stateHashV2 sha256 s' = Ok h →
  s = s' ∨ ∃ b b', serializeStateV2 s = Ok b ∧ serializeStateV2 s' = Ok b'
                   ∧ clash sha256 (stateV2_preimage b) (stateV2_preimage b').
Proof.
  intros V V' H H'. apply valid_encodable in V, V'.
  pose proof (serializeStateV2_Ok s V) as E. pose proof (serializeStateV2_Ok s' V') as E'.
  unfold stateHashV2 in *. rewrite E in H. rewrite E' in H'. rewrite bind_of_Ok in H, H'.
  rewrite <-H in H'. injection H' as H'. apply (inj toHex) in H'.
  destruct (decide (stateV2_bytes s = stateV2_bytes s')) as [Eb|Ne].
  - left. pose proof (deserializeStateV2_bytes s V) as D. rewrite Eb in D.
    rewrite deserializeStateV2_bytes in D by done. by injection D as ->.
  - right. do 2 eexists. split; [exact E|]. split; [exact E'|]. split; [|done].
    unfold stateV2_preimage. intros C. by do 2 apply app_inv_head in C.
Qed.

Lemma stateHashV2_binds_witness :
  let sha := λ l, take 32 (l ++ zeros 32) in
  let s := state_at example_id 5 in
  s = s ∨ ∃ b b', serializeStateV2 s = Ok b ∧ serializeStateV2 s = Ok b'
                  ∧ clash sha (stateV2_preimage b) (stateV2_preimage b').
Proof.
  intros sha s.
  refine (stateHashV2_binds sha s s (match stateHashV2 sha s with Ok h => h | Throw _ => "" end) _ _ _ _).
  1-2: apply validateStateV2_state_at; [by split|unfold MAX_LOTS; lia].
  all: vm_compute; reflexivity.
Defined.

(** ** Version 1 *)
Lemma catch_backing_Ok {A} (m : result A) f a : catch_backing m f = Ok a ↔ m = Ok a.
Proof.
  unfold catch_backing, try_catch. destruct m as [|e]; [done|].
  split; [|done]. by destruct (exn_class e), (exn_code e).
Qed.

Definition state_bytes (s : CoveState) : list byte :=
  [to_byte 1] ++ fromHex (tokenId s) ++ [to_byte (phaseToByte (phase s))]
  ++ u64be (publicSupplyAtoms s) ++ u64be (reserveSats s) ++ [to_byte (curveStage s)].

Definition encodable (s : CoveState) : Prop :=
  version s = 1 ∧ is_hex64 (tokenId s) = true ∧ 0 ≤ publicSupplyAtoms s ≤ U64_MAX
  ∧ 0 ≤ reserveSats s ≤ U64_MAX ∧ 1 ≤ curveStage s ≤ 20.

Lemma serializeState_Ok s b : serializeState s = Ok b ↔ encodable s ∧ b = state_bytes s.
Proof.
  unfold serializeState, writeU64BE, COVE_STATE_VERSION, encodable. split.
  - intros H. res_inv H. to_prop. subst. split; [split_and!; done || lia|].
    unfold state_bytes. do 2 f_equal. by rewrite Hv.
  - intros ((Hv & Hx & ? & ? & ?) & ->). rewrite Hv, Hx.
    by repeat first [guard_step ltac:(done || lia) | step_ok].
Qed.

Lemma byteToPhase_phaseToByte p : byteToPhase (phaseToByte p) = Ok p.
Proof. by destruct p. Qed.

Lemma phaseToByte_byteToPhase b p : byteToPhase b = Ok p → phaseToByte p = b.
Proof.
  unfold byteToPhase. intros H.
  repeat match type of H with (if ?c then _ else _) = _ => destruct c eqn:?; to_prop end;
    simplify_eq; done.
Qed.

Lemma phaseToByte_range p : 0 ≤ phaseToByte p < 256.
Proof. by destruct p. Qed.

Lemma deserializeState_bytes s : encodable s → deserializeState (state_bytes s) = Ok s.
Proof.
  intros (Hv & Hx & ? & ? & ?).
  pose proof (fromHex64_blen _ Hx) as Hb. pose proof (proj1 (toHex_fromHex64 _ Hx)) as Ht.
  set (p := state_bytes s). pose proof (phaseToByte_range (phase s)).
  assert (blen p = 51) as L by (unfold p, state_bytes; autorewrite with cove_len; lia).
  unfold deserializeState, COVE_STATE_BYTES, readU64BE. guard_step lia.
  set (tail := u64be (publicSupplyAtoms s) ++ u64be (reserveSats s) ++ [to_byte (curveStage s)]).
  rewrite (byte_bang_at p [] 1 (fromHex (tokenId s) ++ [to_byte (phaseToByte (phase s))] ++ tail) 0)
    by (done || lia). step_ok. guard_step done.
  rewrite (byte_bang_at p ([to_byte 1] ++ fromHex (tokenId s)) (phaseToByte (phase s)) tail 33)
    by (lia || (autorewrite with cove_len; lia) || (rewrite <-?app_assoc; reflexivity)). step_ok.
  rewrite byteToPhase_phaseToByte. step_ok.
  set (pre := [to_byte 1] ++ fromHex (tokenId s) ++ [to_byte (phaseToByte (phase s))]).
  assert (blen pre = 34) as Lp by (unfold pre; autorewrite with cove_len; lia).
  assert (p = pre ++ tail) as E by (unfold p, pre, tail, state_bytes; by rewrite <-!app_assoc).
  rewrite (readU64_at p pre (publicSupplyAtoms s) (u64be (reserveSats s) ++ [to_byte (curveStage s)]) 34)
    by done. step_ok.
  rewrite (readU64_at p (pre ++ u64be (publicSupplyAtoms s)) (reserveSats s) [to_byte (curveStage s)] 42)
    by (lia || (autorewrite with cove_len; lia) || (rewrite E, <-!app_assoc; reflexivity)). step_ok.
  rewrite (byte_bang_at p (pre ++ u64be (publicSupplyAtoms s) ++ u64be (reserveSats s)) (curveStage s) [] 50)
    by (lia || (autorewrite with cove_len; lia) || (rewrite E, <-!app_assoc; reflexivity)). step_ok.
  rewrite (subarray_at p [to_byte 1] (fromHex (tokenId s)) ([to_byte (phaseToByte (phase s))] ++ tail))
    by (lia || reflexivity).
  rewrite Ht. destruct s. cbn in Hv. by subst.
Qed.

Lemma deserializeState_Ok b s :
  deserializeState b = Ok s → b = state_bytes s ∧ (1 ≤ curveStage s ≤ 20 → encodable s).
Proof.
  unfold deserializeState, COVE_STATE_BYTES, COVE_STATE_VERSION, readU64BE. intros H.
  res_inv H. to_prop. subst s.
  apply byte_bang_Ok in Hv0 as (_ & ? & S0). apply byte_bang_Ok in Hv2 as (_ & ? & S33).
  apply phaseToByte_byteToPhase in Hv3.
  apply readU64_Ok in Hv4 as (_ & _ & S34 & ?). apply readU64_Ok in Hv5 as (_ & _ & S42 & ?).
  apply byte_bang_Ok in Hv6 as (_ & ? & S50).
  assert (length (subarray b 1 33) = 32%nat) as L by (rewrite subarray_length; lia).
  unfold encodable, state_bytes. cbn [version tokenId phase publicSupplyAtoms reserveSats curveStage].
  split; [|intros ?; split_and!; try done; try lia; by apply is_hex64_toHex].
  rewrite fromHex_toHex, Hv3. etransitivity; [symmetry; exact (subarray_all b (blen b) eq_refl)|].
  rewrite Hv, (subarray_split b 0 1), (subarray_split b 1 33), (subarray_split b 33 34),
    (subarray_split b 34 42), (subarray_split b 42 50) by lia.
  rewrite Hv1 in S0. replace (subarray b 0 1) with [to_byte 1] by (symmetry; exact S0).
  replace (subarray b 33 34) with [to_byte v2] by (symmetry; exact S33).
  replace (subarray b 34 42) with (u64be v4) by (symmetry; exact S34).
  replace (subarray b 42 50) with (u64be v5) by (symmetry; exact S42).
  by replace (subarray b 50 51) with [to_byte v6] by (symmetry; exact S50).
Qed.

(** the frozen version 1 encoding: a state that serialises gives 51 bytes
    which deserialise to it, and bytes that deserialise to a stage the
    serialiser admits are the encoding of what they hold. *)
Theorem stateV1_roundtrip :
  (∀ s b, serializeState s = Ok b → blen b = COVE_STATE_BYTES ∧ deserializeState b = Ok s)
  ∧ (∀ b s, deserializeState b = Ok s → 1 ≤ curveStage s ≤ 20 → serializeState s = Ok b).
Proof.
  split.
  - intros s b (He & ->)%serializeState_Ok. split; [|by apply deserializeState_bytes].
    destruct He as (_ & Hx & _). unfold state_bytes. autorewrite with cove_len.
    rewrite fromHex64_blen by done. unfold COVE_STATE_BYTES. lia.
  - intros b s H ?. apply deserializeState_Ok in H as [-> He]. apply serializeState_Ok. auto.
Qed.

Lemma quot_add_tokens x a :
  0 ≤ x → 0 ≤ a → Z.rem a ATOMS_PER_TOKEN = 0 →
  Z.quot (x + a) ATOMS_PER_TOKEN = Z.quot x ATOMS_PER_TOKEN + Z.quot a ATOMS_PER_TOKEN.
Proof.
  intros Hx Ha Hr. apply Z.rem_divide in Hr as [q ->]; [|done].
  rewrite Z.quot_mul by done. rewrite !Z.quot_div_nonneg by (done || lia). by rewrite Z.div_add.
Qed.

Lemma quot_nonneg x : 0 ≤ Z.quot x ATOMS_PER_TOKEN ↔ - ATOMS_PER_TOKEN < x.
Proof.
  assert (0 < ATOMS_PER_TOKEN) by done. split; intros H1.
  - destruct (Z.le_gt_cases 0 x); [lia|].
    pose proof (Z.quot_opp_l x ATOMS_PER_TOKEN ltac:(lia)) as E.
    destruct (Z.le_gt_cases ATOMS_PER_TOKEN (- x)); [|lia].
    rewrite (Z.quot_div_nonneg (- x)) in E by lia.
    pose proof (Z.div_le_lower_bound (- x) ATOMS_PER_TOKEN 1 ltac:(lia) ltac:(lia)). lia.
  - destruct (Z.le_gt_cases 0 x); [apply Z.quot_pos; lia|].
    pose proof (Z.quot_opp_l x ATOMS_PER_TOKEN ltac:(lia)) as E.
    rewrite (Z.quot_small (- x)) in E by lia. lia.
Qed.

Lemma applyMint_Ok prev a r :
  applyMint prev a = Ok r → 0 ≤ publicSupplyAtoms prev →
  let s := Z.quot (publicSupplyAtoms prev) ATOMS_PER_TOKEN in
  let n := Z.quot a ATOMS_PER_TOKEN in
  0 < a ∧ Z.rem a ATOMS_PER_TOKEN = 0 ∧ 0 < n ∧ s + n ≤ PUBLIC_SUPPLY
  ∧ curveContributionSats r = curve_reserve (s + n) - curve_reserve s ∧ 1 ≤ curveContributionSats r
  ∧ ∃ stage, getStageForSupply (s + n) = Ok stage
  ∧ mint_nextState r = state_with prev (publicSupplyAtoms prev + a)
      (reserveSats prev + curveContributionSats r) stage.
Proof.
  intros H Hs s n. unfold applyMint in H. res_inv H. to_prop. subst r.
  apply catch_backing_Ok, grossBuy_Ok in Hv2 as (? & ? & ? & -> & ?).
  rewrite quot_add_tokens in Hv3 by (done || lia).
  cbn [curveContributionSats mint_nextState]. split_and!; try done. by eexists.
Qed.

(** a redemption inverts a version 1 mint: from a state whose stage is the
    one its supply implies, redeeming the minted amount gives the same
    satoshis back and the very state the mint left. *)
Theorem applyMint_applyRedeem prev a r :
  applyMint prev a = Ok r → 0 ≤ publicSupplyAtoms prev →
  getStageForSupply (Z.quot (publicSupplyAtoms prev) ATOMS_PER_TOKEN) = Ok (curveStage prev) →
  applyRedeem (mint_nextState r) a
  = Ok {| redeem_nextState := prev; grossRedeemSats := curveContributionSats r |}.
Proof.
  intros H Hs Hst. apply applyMint_Ok in H as (Ha & Hr & Hn & Hmax & Hg & ? & stage & _ & Hnext); [|done].
  unfold applyRedeem. rewrite Hnext. cbn [publicSupplyAtoms state_with reserveSats].
  repeat guard_step ltac:(done || lia). cbn zeta. rewrite quot_add_tokens by (done || lia).
  assert (grossRedeem (Z.quot (publicSupplyAtoms prev) ATOMS_PER_TOKEN + Z.quot a ATOMS_PER_TOKEN)
    (Z.quot a ATOMS_PER_TOKEN) = Ok (curveContributionSats r)) as G.
  { apply grossRedeem_Ok. rewrite Z.add_simpl_r. pose proof (proj2 (quot_nonneg (publicSupplyAtoms prev))).
    assert (0 < ATOMS_PER_TOKEN) by done. split_and!; try done; lia. }
  rewrite (proj2 (catch_backing_Ok _ _ _) G). step_ok.
  rewrite !Z.add_simpl_r, Hst. step_ok. by destruct prev.
Qed.

Definition stateV1_example : CoveState :=
  {| version := 1; tokenId := example_id; phase := PUBLIC_MINT;
     publicSupplyAtoms := 1900000 * ATOMS_PER_TOKEN; reserveSats := curve_reserve 1900000;
     curveStage := 20 |}.

Lemma applyMint_applyRedeem_witness :
  let a := 200000 * ATOMS_PER_TOKEN in
  let r := match applyMint stateV1_example a with Ok r => r
           | Throw _ => {| mint_nextState := stateV1_example; curveContributionSats := 0 |} end in
  applyRedeem (mint_nextState r) a
  = Ok {| redeem_nextState := stateV1_example; grossRedeemSats := curveContributionSats r |}.
Proof.
  intros a r. refine (applyMint_applyRedeem stateV1_example a r _ _ _); vm_compute; try reflexivity.
  discriminate.
Defined.

(** the version 1 serialiser admits twenty stages only, while the curve has
    210: whatever mint takes the supply to two million tokens or more yields a
    successor that has no encoding, hence no state hash and no output. *)
Theorem applyMint_successor_not_serializable prev a r :
  applyMint prev a = Ok r → 0 ≤ publicSupplyAtoms prev →
  2000000 * ATOMS_PER_TOKEN ≤ publicSupplyAtoms prev + a →
  is_ok (serializeState (mint_nextState r)) = false.
Proof.
  intros H Hs Hbig. apply applyMint_Ok in H as (Ha & Hr & Hn & Hmax & _ & _ & stage & Hst & Hnext); [|done].
  destruct (serializeState (mint_nextState r)) as [b|] eqn:E; [|done]. exfalso.
  apply serializeState_Ok in E as [(_ & _ & _ & _ & Hstage) _]. rewrite Hnext in Hstage. cbn in Hstage.
  rewrite <-quot_add_tokens in Hst, Hmax by (done || lia).
  assert (2000000 ≤ Z.quot (publicSupplyAtoms prev + a) ATOMS_PER_TOKEN) as Hq
    by (apply Z.quot_le_lower_bound; [done|lia]).
  unfold PUBLIC_SUPPLY in Hmax.
  destruct (decide (Z.quot (publicSupplyAtoms prev + a) ATOMS_PER_TOKEN = PUBLIC_SUPPLY_TOKENS)) as [Eq|].
  - rewrite Eq in Hst. injection Hst as <-. unfold STAGE_COUNT in *. lia.
  - rewrite getStageForSupply_in in Hst by lia. injection Hst as <-.
    pose proof (Z.div_le_lower_bound (Z.quot (publicSupplyAtoms prev + a) ATOMS_PER_TOKEN)
      TOKENS_PER_STAGE 20 ltac:(done) ltac:(unfold TOKENS_PER_STAGE; lia)). lia.
Qed.

Lemma applyMint_successor_not_serializable_witness :
  let a := 200000 * ATOMS_PER_TOKEN in
  let r := match applyMint stateV1_example a with Ok r => r
           | Throw _ => {| mint_nextState := stateV1_example; curveContributionSats := 0 |} end in
  is_ok (serializeState (mint_nextState r)) = false.
Proof.
  intros a r. refine (applyMint_successor_not_serializable stateV1_example a r _ _ _);
    vm_compute; try reflexivity; discriminate.
Defined.

(** ** Token accounting *)

(** An allocation that names an existing output which can carry tokens. *)
Definition carries (outputs : list TxOutputView) (a : TokenAllocation) : Prop :=
  0 < amount a ∧ 0 ≤ vout a ∧ ∃ o, outputs !! Z.to_nat (vout a) = Some o ∧ isOpReturn (out_script o) = false.

Definition allocated (l : list TokenAllocation) : Z := zsum (amount <$> l).
Definition input_total (l : list TokenInput) : Z := zsum (ti_amountAtoms <$> l).

Lemma allocated_cons a l : allocated (a :: l) = amount a + allocated l.
Proof. done. Qed.

Lemma sum_inputs_inl l acc t :
  sum_inputs l acc = inl t ↔ Forall (λ i, 0 < ti_amountAtoms i) l ∧ t = acc + input_total l.
Proof.
  revert acc. induction l as [|i l IH]; intros acc; cbn [sum_inputs].
  - unfold input_total. cbn. rewrite Z.add_0_r. split; [by intros [= ->]|by intros [_ ->]].
  - rewrite Forall_cons. change (input_total (i :: l)) with (ti_amountAtoms i + input_total l).
    destruct (Z.leb_spec (ti_amountAtoms i) 0) as [Hi|Hi].
    + split; [done|]. intros [[? _] _]. lia.
    + rewrite IH. rewrite Z.add_assoc. naive_solver.
Qed.

Lemma check_allocations_inl ov outputs l seen total t :
  check_allocations ov outputs l seen total = Ok (inl t) ↔
  Forall (carries outputs) l ∧ NoDup (vout <$> l) ∧ Forall (λ a, vout a ∉ seen) l
  ∧ t = total + allocated l ∧ (ov = true → l = [] ∨ total + allocated l ≤ U64_MAX).
Proof.
  revert seen total. induction l as [|a l IH]; intros seen total; cbn [check_allocations].
  - unfold allocated. cbn. rewrite Z.add_0_r. split.
    + intros [= ->]. split_and!; try done; [constructor|by left].
    + by intros (_ & _ & _ & -> & _).
  - rewrite fmap_cons, NoDup_cons, !Forall_cons, allocated_cons, Z.add_assoc.
    destruct (Z.leb_spec (amount a) 0) as [Ha|Ha].
    { split; [done|]. intros ([[? _] _] & _). lia. }
    destruct (Z.leb_spec (Z.of_nat (length outputs)) (vout a)) as [Hv|Hv].
    { split; [done|]. intros ([(_ & ? & o & Ho & _) _] & _). apply lookup_lt_Some in Ho. lia. }
    destruct (Z.ltb_spec (vout a) 0) as [Hn|Hn].
    { split; [done|]. intros ([(_ & ? & _) _] & _). lia. }
    destruct (outputs !! Z.to_nat (vout a)) as [o|] eqn:Ho; [|apply lookup_ge_None in Ho; lia].
    cbn [of_option]. rewrite bind_of_Ok. destruct (isOpReturn (out_script o)) eqn:Hop.
    { split; [done|]. intros ([(_ & _ & o' & Ho' & ?) _] & _). congruence. }
    assert (carries outputs a) as Hc by (split_and!; [done|done|by exists o]).
    destruct (decide (vout a ∈ seen)) as [Hin|Hin].
    { rewrite bool_decide_true by done. split; [done|]. naive_solver. }
    rewrite bool_decide_false by done.
    assert (Forall (carries outputs) l → 0 ≤ allocated l) as Hnn.
    { intros Hf. apply zsum_nonneg, Forall_fmap. eapply Forall_impl; [exact Hf|]. unfold carries. cbn. lia. }
    destruct (ov && (U64_MAX <? total + amount a)) eqn:Hov.
    { to_prop. destruct Hov as [-> Hov]. split; [done|]. intros ([_ Hf] & _ & _ & _ & [|]%(λ f, f eq_refl)); [done|].
      specialize (Hnn Hf). lia. }
    rewrite IH. split.
    + intros (Hf & Hnd & Hs & -> & Ho'). split_and!; try done.
      * rewrite list_elem_of_fmap. intros (x & E & Hx).
        pose proof (proj1 (Forall_forall _ _) Hs x Hx). set_solver.
      * eapply Forall_impl; [exact Hs|]. set_solver.
      * intros ->. right. destruct (Ho' eq_refl) as [->|]; [|done]. unfold allocated. cbn in *. to_prop. lia.
    + intros ([_ Hf] & [Hx Hnd] & [_ Hs] & -> & Ho'). split_and!; try done.
      * apply Forall_forall. intros x Hx'. pose proof (proj1 (Forall_forall _ _) Hs x Hx').
        assert (vout x ≠ vout a) by (intros E; apply Hx; rewrite <-E; by apply list_elem_of_fmap_2).
        set_solver.
      * intros E. right. by destruct (Ho' E).
Qed.

Lemma check_allocations_start ov outputs l t :
  check_allocations ov outputs l ∅ 0 = Ok (inl t) ↔
  Forall (carries outputs) l ∧ NoDup (vout <$> l) ∧ t = allocated l
  ∧ (ov = true → allocated l ≤ U64_MAX).
Proof.
  rewrite check_allocations_inl, Z.add_0_l. split.
  - intros (? & ? & _ & -> & Ho). split_and!; try done.
    intros E. destruct (Ho E) as [->|]; [done|done].
  - intros (? & ? & -> & Ho). split_and!; try done; [|auto]. apply Forall_forall. set_solver.
Qed.

(** a transfer is accepted exactly when it conserves the tokens: positive
    inputs whose total is the total allocated (at most 2^64-1), at least one
    allocation, and each allocation positive and on its own existing output
    that is no OP_RETURN. *)
Theorem validateTokenTransfer_spec inputs l outputs c :
  validateTokenTransfer inputs l outputs = Ok (Valid c) ↔
  c = 0 ∧ inputs ≠ [] ∧ Forall (λ i, 0 < ti_amountAtoms i) inputs ∧ l ≠ []
  ∧ Forall (carries outputs) l ∧ NoDup (vout <$> l)
  ∧ allocated l = input_total inputs ∧ allocated l ≤ U64_MAX.
Proof.
  unfold validateTokenTransfer. destruct inputs as [|i inputs]; [cbn; naive_solver|].
  cbn [length Nat.eqb]. destruct (sum_inputs _ _) as [t|] eqn:Hs.
  - apply sum_inputs_inl in Hs as [Hp ->]. rewrite Z.add_0_l. destruct l as [|a l]; [cbn; naive_solver|].
    cbn [length Nat.eqb]. destruct (check_allocations _ _ _ _ _) as [[t|]|] eqn:Hc.
    + apply check_allocations_start in Hc as (? & ? & -> & Ho). specialize (Ho eq_refl).
      rewrite bind_of_Ok. destruct (Z.ltb_spec (input_total (i :: inputs)) (allocated (a :: l))).
      { split; [done|]. lia. }
      destruct (Z.eqb_spec (allocated (a :: l)) (input_total (i :: inputs))); cbn [negb].
      * split; [intros [= <-]; by split_and!|by intros (-> & _)].
      * naive_solver.
    + rewrite bind_of_Ok. split; [done|]. intros (-> & _ & _ & _ & ? & ? & _ & ?).
      enough (check_allocations true outputs (a :: l) ∅ 0 = Ok (inl (allocated (a :: l)))) by congruence.
      by apply check_allocations_start.
    + split; [done|]. intros (-> & _ & _ & _ & ? & ? & _ & ?).
      enough (check_allocations true outputs (a :: l) ∅ 0 = Ok (inl (allocated (a :: l)))) by congruence.
      by apply check_allocations_start.
  - split; [done|]. intros (_ & _ & Hp & _).
    enough (sum_inputs (i :: inputs) 0 = inl (0 + input_total (i :: inputs))) by congruence.
    by apply sum_inputs_inl.
Qed.

(** the accounting of a redemption is accepted exactly when the redeemed
    amount and the change together are the inputs: nothing is created and
    nothing burned beyond what is redeemed. *)
Theorem validateRedeemTokenAccounting_spec inputs a l outputs c :
  validateRedeemTokenAccounting inputs a l outputs = Ok (Valid c) ↔
  c = allocated l ∧ inputs ≠ [] ∧ Forall (λ i, 0 < ti_amountAtoms i) inputs ∧ 0 < a
  ∧ Forall (carries outputs) l ∧ NoDup (vout <$> l) ∧ a + allocated l = input_total inputs.
Proof.
  unfold validateRedeemTokenAccounting. destruct inputs as [|i inputs]; [cbn; naive_solver|].
  cbn [length Nat.eqb]. destruct (sum_inputs _ _) as [t|] eqn:Hs.
  2:{ split; [done|]. intros (_ & _ & Hp & _).
      enough (sum_inputs (i :: inputs) 0 = inl (0 + input_total (i :: inputs))) by congruence.
      by apply sum_inputs_inl. }
  apply sum_inputs_inl in Hs as [Hp ->]. rewrite Z.add_0_l.
  assert (Forall (carries outputs) l → 0 ≤ allocated l) as Hnn.
  { intros Hf. apply zsum_nonneg, Forall_fmap. eapply Forall_impl; [exact Hf|]. unfold carries. cbn. lia. }
  destruct (Z.leb_spec a 0) as [|Ha]; [split; [done|lia]|].
  destruct (Z.ltb_spec (input_total (i :: inputs)) a) as [Hlt|Hle].
  { split; [done|]. intros (_ & _ & _ & _ & Hf & _ & E). specialize (Hnn Hf). lia. }
  assert (∀ x, check_allocations false outputs l ∅ 0 = x → x ≠ Ok (inl (allocated l)) →
    ¬ (Forall (carries outputs) l ∧ NoDup (vout <$> l))) as Hno.
  { intros x <- Hne [? ?]. apply Hne. by apply check_allocations_start. }
  destruct (check_allocations _ _ _ _ _) as [[t|]|] eqn:Hc.
  - apply check_allocations_start in Hc as (? & ? & -> & _). rewrite bind_of_Ok.
    destruct (Z.eqb_spec (a + allocated l) (input_total (i :: inputs))); cbn [negb].
    + split; [intros [= <-]; by split_and!|by intros (-> & _)].
    + split; [done|]. naive_solver.
  - rewrite bind_of_Ok. split; [done|]. intros (_ & _ & _ & _ & ? & ? & _). exfalso. by apply (Hno _ eq_refl).
  - split; [done|]. intros (_ & _ & _ & _ & ? & ? & _). exfalso. by apply (Hno _ eq_refl).
Qed.

(** the Guardian's test of a proposed successor accepts exactly the state
    [applyMint] computes, field by field. *)
Theorem isCorrectMintSuccessor_spec prev a proposed :
  isCorrectMintSuccessor prev a proposed = true ↔
  ∃ r, applyMint prev a = Ok r ∧ mint_nextState r = proposed.
Proof.
  unfold isCorrectMintSuccessor, serializeCoveStateEq. destruct (applyMint prev a) as [r|].
  - to_prop. split.
    + intros [[[[[? ?] ?] ?] ?] ?]. exists r. split; [done|].
      destruct (mint_nextState r), proposed. cbn in *. by subst.
    + intros (? & [= <-] & ->). by split_and!.
  - naive_solver.
Qed.
