(* ===== verification/Simplicity.v ===== *)
(** * Simplicity pre-execution: packages/cove-simplicity

    [witness.ts] (the canonical witness constructors), [simplicity.ts] (the
    strict executor, with the child process as a parameter) and the two frozen
    policies [mint.simf] and [redeem.simf] as predicates on 64-bit words. *)
From S2P Require Import Prelude Bytes Curve Economics Wire Covenant.

(** ** simplicity.ts: data *)
Definition MINT_CMR_V1 : string := "118425967f4aed4fb528bd06a0f7a99a318675e819e837a2c452df6199d359b2".
Definition REDEEM_CMR_V2 : string := "a15ac4cbc450ac2dd113b1a9de178450ccc893a5213d8a2f56471fcd9aa274b7".
Definition MINT_CMR_CAP840 : string := "0b594eb3fadec17b45bb1d245ae18f8c512a1ba42751f820cd28351ced6c8377".
Definition MINT_CMR_CAP1B : string := "ccdb02000fdb372bfa2e166b9fe0192715d555fc5720f8008ee741fe1a0d58ec".
Definition MINT_CMR : string := "7fb27adf2db5458882daf976ba9325815f111b2f3b16eedb72e75f96de4269b2".
Definition REDEEM_CMR : string := "37e681b3e70a34acc3b38680c06fbe4f1b2799bede2607c6c9ed7fcac8c95d56".

Record MintWitness := {
  mw_amount : Z; mw_prevSupply : Z; mw_nextSupply : Z;
  mw_prevReserve : Z; mw_nextReserve : Z; mw_contribution : Z;
}.

Record RedeemWitness := {
  rw_amount : Z; rw_oldSupply : Z; rw_newSupply : Z;
  rw_oldBacking : Z; rw_newBacking : Z; rw_payout : Z;
}.

Inductive SimplicityFailureCode :=
  | SIMPLICITY_BINARY_MISSING | SIMPLICITY_EXECUTION_ERROR | SIMPLICITY_TIMEOUT
  | SIMPLICITY_MALFORMED_RESULT | CMR_MISMATCH | SIMPLICITY_REJECTED.

Inductive SimplicityPolicy := POLICY_MINT | POLICY_REDEEM.

Record SimplicityExecutionResult := {
  policy : SimplicityPolicy;
  expectedCmr : string;
  actualCmr : option string;
  pass : bool;
  failure : option SimplicityFailureCode;
}.

Definition SIMPLICITY_TIMEOUT_MS : Z := 10000.

Definition mintWitnessString (w : MintWitness) : string :=
  "mod witness { const AMOUNT: u64 = " +:+ pretty (mw_amount w)
  +:+ "; const PREV_SUPPLY: u64 = " +:+ pretty (mw_prevSupply w)
  +:+ "; const NEXT_SUPPLY: u64 = " +:+ pretty (mw_nextSupply w)
  +:+ "; const PREV_RESERVE: u64 = " +:+ pretty (mw_prevReserve w)
  +:+ "; const NEXT_RESERVE: u64 = " +:+ pretty (mw_nextReserve w)
  +:+ "; const CONTRIBUTION: u64 = " +:+ pretty (mw_contribution w) +:+ "; }".

Definition redeemWitnessString (w : RedeemWitness) : string :=
  "mod witness { const AMOUNT: u64 = " +:+ pretty (rw_amount w)
  +:+ "; const OLD_SUPPLY: u64 = " +:+ pretty (rw_oldSupply w)
  +:+ "; const NEW_SUPPLY: u64 = " +:+ pretty (rw_newSupply w)
  +:+ "; const OLD_BACKING: u64 = " +:+ pretty (rw_oldBacking w)
  +:+ "; const NEW_BACKING: u64 = " +:+ pretty (rw_newBacking w)
  +:+ "; const PAYOUT: u64 = " +:+ pretty (rw_payout w) +:+ "; }".

(** ** simplicity.ts: the strict executor

    What [execFile] settles with: an error, with the fields of [ErrnoException]
    the code reads, or the standard output as [JSON.parse] sees it. *)
Inductive parsed_stdout :=
  | NotJson
  | JsonNull
  (** Any other JSON value: its [cmr] and [result] fields, when strings. *)
  | JsonValue (cmr result : option string).

Inductive exec_outcome :=
  | ExecFailed (killed : bool) (signal code : option string)
  | ExecStdout (out : parsed_stdout).

Definition with_failure (base : SimplicityExecutionResult) (actual : option string)
    (f : SimplicityFailureCode) : SimplicityExecutionResult :=
  {| policy := policy base; expectedCmr := expectedCmr base; actualCmr := actual;
     pass := false; failure := Some f |}.

Section Executor.
(** The child process: the program, its arguments and the timeout. *)
Context (execFile : string → list string → Z → exec_outcome).

Definition executeStrict (p : SimplicityPolicy) (rustPolicy witness expected : string)
    (bin : option string) (timeoutMs : option Z) : result SimplicityExecutionResult :=
  let base := {| policy := p; expectedCmr := expected; actualCmr := None; pass := false;
                 failure := None |} in
  match bin with
  | None => Ok (with_failure base None SIMPLICITY_BINARY_MISSING)
  | Some bin =>
      match execFile bin ["exec"%string; rustPolicy; witness] (default SIMPLICITY_TIMEOUT_MS timeoutMs) with
      | ExecFailed killed signal code =>
          if killed || bool_decide (signal = Some "SIGTERM"%string)
             || bool_decide (code = Some "ETIMEDOUT"%string)
          then Ok (with_failure base None SIMPLICITY_TIMEOUT)
          else Ok (with_failure base None SIMPLICITY_EXECUTION_ERROR)
      | ExecStdout NotJson => Ok (with_failure base None SIMPLICITY_MALFORMED_RESULT)
      | ExecStdout JsonNull => Throw (Exn ETypeError None "Cannot read properties of null (reading 'cmr')")
      | ExecStdout (JsonValue (Some cmr) (Some result)) =>
          if negb (String.eqb result "PASS") && negb (String.eqb result "FAIL")
          then Ok (with_failure base None SIMPLICITY_MALFORMED_RESULT)
          else if negb (String.eqb cmr expected) then Ok (with_failure base (Some cmr) CMR_MISMATCH)
          else if String.eqb result "PASS"
          then Ok {| policy := p; expectedCmr := expected; actualCmr := Some cmr; pass := true;
                     failure := None |}
          else Ok (with_failure base (Some cmr) SIMPLICITY_REJECTED)
      | ExecStdout (JsonValue _ _) => Ok (with_failure base None SIMPLICITY_MALFORMED_RESULT)
      end
  end.

Definition executeMintV3 (w : MintWitness) (bin : option string) (timeoutMs : option Z) :=
  executeStrict POLICY_MINT "mint" (mintWitnessString w) MINT_CMR bin timeoutMs.

Definition executeRedeemV3 (w : RedeemWitness) (bin : option string) (timeoutMs : option Z) :=
  executeStrict POLICY_REDEEM "redeem" (redeemWitnessString w) REDEEM_CMR bin timeoutMs.
End Executor.

(** ** witness.ts *)
Definition atomsToDisplayTokensExact (atoms : Z) : result Z :=
  throw_if (atoms <? 0) (js_error "NEGATIVE_ATOMS");;
  throw_if (negb (Z.rem atoms ATOMS_PER_TOKEN =? 0))
    (js_error ("SUBTOKEN_AMOUNT: " +:+ pretty atoms +:+ " is not a whole number of display tokens"));;
  Ok (Z.quot atoms ATOMS_PER_TOKEN).

Section WitnessBuilders.
Context (sha256 : list byte → list byte).

Definition buildMintSimplicityWitness (prevState nextState' : CoveStateV2)
    (amountAtoms canonicalGrossSats : Z) : result MintWitness :=
  amount ← atomsToDisplayTokensExact amountAtoms;
  canonical ← applyMintV2 prevState amountAtoms;
  given ← stateHashV2 sha256 nextState';
  computed ← stateHashV2 sha256 (nextState canonical);
  throw_if (negb (String.eqb given computed))
    (js_error "NEXT_STATE_MISMATCH: successor is not the canonical applyMintV2 result");;
  throw_if (negb (canonicalGrossSats =? grossSats canonical))
    (js_error "GROSS_MISMATCH: canonicalGrossSats != R(nextSupply) - R(prevSupply)");;
  prevSupply ← atomsToDisplayTokensExact (issuedPublicSupplyAtoms prevState);
  nextSupply ← atomsToDisplayTokensExact (issuedPublicSupplyAtoms (nextState canonical));
  Ok {| mw_amount := amount; mw_prevSupply := prevSupply; mw_nextSupply := nextSupply;
        mw_prevReserve := backingSats prevState;
        mw_nextReserve := backingSats (nextState canonical);
        mw_contribution := grossSats canonical |}.

Definition buildRedeemSimplicityWitness (prevState nextState' : CoveStateV2)
    (amountAtoms canonicalGrossSats : Z) : result RedeemWitness :=
  amount ← atomsToDisplayTokensExact amountAtoms;
  canonical ← applyRedeemV2 prevState amountAtoms;
  given ← stateHashV2 sha256 nextState';
  computed ← stateHashV2 sha256 (nextState canonical);
  throw_if (negb (String.eqb given computed))
    (js_error "NEXT_STATE_MISMATCH: successor is not the canonical applyRedeemV2 result");;
  throw_if (negb (canonicalGrossSats =? grossSats canonical))
    (js_error "GROSS_MISMATCH: canonicalGrossSats != R(prevSupply) - R(nextSupply)");;
  oldSupply ← atomsToDisplayTokensExact (issuedPublicSupplyAtoms prevState);
  newSupply ← atomsToDisplayTokensExact (issuedPublicSupplyAtoms (nextState canonical));
  Ok {| rw_amount := amount; rw_oldSupply := oldSupply; rw_newSupply := newSupply;
        rw_oldBacking := backingSats prevState;
        rw_newBacking := backingSats (nextState canonical);
        rw_payout := grossSats canonical |}.
End WitnessBuilders.

(** ** The policies: jets on 64-bit words *)
Definition u64_wrap (z : Z) : Z := z `mod` 2 ^ 64.
Definition is_u64 (z : Z) : bool := (0 <=? z) && (z <=? U64_MAX).

(** [mint.simf]: the carries are discarded; the comparisons are the program's. *)
Definition mint_simf (w : MintWitness) : bool :=
  let sum_supply := u64_wrap (mw_prevSupply w + mw_amount w) in
  let sum_reserve := u64_wrap (mw_prevReserve w + mw_contribution w) in
  (mw_prevSupply w <=? sum_supply) && (sum_supply =? mw_nextSupply w)
  && (mw_nextSupply w <=? 21000000) && (0 <? mw_amount w)
  && (mw_prevReserve w <=? sum_reserve) && (sum_reserve =? mw_nextReserve w).

(** [redeem.simf] *)
Definition redeem_simf (w : RedeemWitness) : bool :=
  (0 <? rw_amount w) && (rw_amount w <=? rw_oldSupply w)
  && (u64_wrap (rw_oldSupply w - rw_amount w) =? rw_newSupply w)
  && (rw_payout w <=? rw_oldBacking w)
  && (u64_wrap (rw_oldBacking w - rw_payout w) =? rw_newBacking w).

Definition mint_words (w : MintWitness) : bool :=
  forallb is_u64 [mw_amount w; mw_prevSupply w; mw_nextSupply w; mw_prevReserve w;
                  mw_nextReserve w; mw_contribution w].
Definition redeem_words (w : RedeemWitness) : bool :=
  forallb is_u64 [rw_amount w; rw_oldSupply w; rw_newSupply w; rw_oldBacking w;
                  rw_newBacking w; rw_payout w].

(** ** Arithmetic of the words *)
Lemma is_u64_true z : is_u64 z = true ↔ 0 ≤ z < 2 ^ 64.
Proof. unfold is_u64, U64_MAX. to_prop. lia. Qed.

(** A wrapped sum that is not below its first term did not wrap. *)
Lemma u64_add_no_carry x y :
  0 ≤ x < 2 ^ 64 → 0 ≤ y < 2 ^ 64 → (x ≤ u64_wrap (x + y) ↔ x + y < 2 ^ 64).
Proof.
  unfold u64_wrap. intros Hx Hy. split; intros H.
  - destruct (Z.lt_ge_cases (x + y) (2 ^ 64)) as [|Hge]; [done|exfalso].
    rewrite <-(Z.mod_unique (x + y) (2 ^ 64) 1 (x + y - 2 ^ 64)) in H by lia. lia.
  - rewrite Z.mod_small by lia. lia.
Qed.

Lemma u64_wrap_small z : 0 ≤ z < 2 ^ 64 → u64_wrap z = z.
Proof. apply Z.mod_small. Qed.

Lemma mint_simf_conserves w :
  mint_words w = true →
  mint_simf w = true ↔
  0 < mw_amount w ∧ mw_nextSupply w = mw_prevSupply w + mw_amount w
  ∧ mw_nextSupply w ≤ PUBLIC_SUPPLY_TOKENS
  ∧ mw_nextReserve w = mw_prevReserve w + mw_contribution w.
Proof.
  intros Hw. unfold mint_words in Hw. cbn [forallb] in Hw. to_prop. rewrite !is_u64_true in Hw.
  destruct Hw as (? & ? & ? & ? & ? & ? & _). unfold mint_simf, PUBLIC_SUPPLY_TOKENS. to_prop.
  pose proof (u64_add_no_carry (mw_prevSupply w) (mw_amount w)) as Hs.
  pose proof (u64_add_no_carry (mw_prevReserve w) (mw_contribution w)) as Hr.
  pose proof (u64_wrap_small (mw_prevSupply w + mw_amount w)).
  pose proof (u64_wrap_small (mw_prevReserve w + mw_contribution w)).
  split; lia.
Qed.

Lemma redeem_simf_conserves w :
  redeem_words w = true →
  redeem_simf w = true ↔
  0 < rw_amount w ≤ rw_oldSupply w ∧ rw_newSupply w = rw_oldSupply w - rw_amount w
  ∧ rw_payout w ≤ rw_oldBacking w ∧ rw_newBacking w = rw_oldBacking w - rw_payout w.
Proof.
  intros Hw. unfold redeem_words in Hw. cbn [forallb] in Hw. to_prop. rewrite !is_u64_true in Hw.
  destruct Hw as (? & ? & ? & ? & ? & ? & _). unfold redeem_simf. to_prop.
  pose proof (u64_wrap_small (rw_oldSupply w - rw_amount w)).
  pose proof (u64_wrap_small (rw_oldBacking w - rw_payout w)).
  split; lia.
Qed.

(** C37: on 64-bit witnesses the two policies mean their equations over the
    integers, with no wrap-around: [mint.simf] accepts exactly when supply and
    reserve grow by the amount and the contribution, the amount is positive and
    the cap of 21,000,000 holds; [redeem.simf] exactly when they shrink by the
    amount and the payout without borrowing. *)
Theorem policies_enforce_conservation :
  (∀ w, mint_words w = true →
     mint_simf w = true ↔
     0 < mw_amount w ∧ mw_nextSupply w = mw_prevSupply w + mw_amount w
     ∧ mw_nextSupply w ≤ PUBLIC_SUPPLY_TOKENS
     ∧ mw_nextReserve w = mw_prevReserve w + mw_contribution w)
  ∧ (∀ w, redeem_words w = true →
     redeem_simf w = true ↔
     0 < rw_amount w ≤ rw_oldSupply w ∧ rw_newSupply w = rw_oldSupply w - rw_amount w
     ∧ rw_payout w ≤ rw_oldBacking w ∧ rw_newBacking w = rw_oldBacking w - rw_payout w).
Proof. split; [apply mint_simf_conserves|apply redeem_simf_conserves]. Qed.

(** ** The canonical witness *)
Lemma atomsToDisplayTokensExact_lots k :
  0 ≤ k → atomsToDisplayTokensExact (k * LOT_ATOMS) = Ok (k * LOT_TOKENS).
Proof.
  intros Hk. unfold atomsToDisplayTokensExact. rewrite rem_lots_token, quot_lots.
  assert (0 < LOT_ATOMS) by done. by repeat guard_step ltac:(done || nia).
Qed.

Lemma stateHashV2_state_at sha256 t k :
  valid_tokenIdV2 t → 0 ≤ k ≤ MAX_LOTS → ∃ h, stateHashV2 sha256 (state_at t k) = Ok h.
Proof.
  intros Ht Hk. unfold stateHashV2. rewrite serializeStateV2_Ok.
  - by eexists.
  - by apply valid_encodable, validateStateV2_state_at.
Qed.

Lemma canonical_mint_witness sha256 prev a r :
  applyMintV2 prev a = Ok r →
  ∃ w, buildMintSimplicityWitness sha256 prev (nextState r) a (grossSats r) = Ok w
  ∧ mint_words w = true ∧ mint_simf w = true ∧ mw_contribution w = grossSats r.
Proof.
  intros Hr. pose proof Hr as Hr'.
  apply applyMintV2_Ok in Hr' as (k & q & Ht & ? & ? & ? & Es & -> & ->). cbn [nextState grossSats] in *.
  destruct (stateHashV2_state_at sha256 (tokenIdV2 prev) (k + q) Ht) as [h Hh]; [lia|].
  pose proof (lot_reserve_range k). pose proof (lot_reserve_range (k + q)).
  pose proof (lot_reserve_strict k q). eexists. split.
  { unfold buildMintSimplicityWitness. rewrite atomsToDisplayTokensExact_lots by lia. step_ok.
    rewrite Hr. step_ok. cbn [nextState grossSats]. rewrite Hh. do 2 step_ok.
    rewrite String.eqb_refl, Z.eqb_refl. repeat guard_step done.
    rewrite Es at 1. cbn [issuedPublicSupplyAtoms state_at].
    repeat first [rewrite atomsToDisplayTokensExact_lots by lia | step_ok]. reflexivity. }
  assert (mint_words {| mw_amount := q * LOT_TOKENS; mw_prevSupply := k * LOT_TOKENS;
    mw_nextSupply := (k + q) * LOT_TOKENS; mw_prevReserve := backingSats prev;
    mw_nextReserve := lot_reserve (k + q);
    mw_contribution := lot_reserve (k + q) - lot_reserve k |} = true) as Hw.
  { unfold mint_words. cbn [forallb mw_amount mw_prevSupply mw_nextSupply mw_prevReserve mw_nextReserve
      mw_contribution]. to_prop. rewrite !is_u64_true, Es. cbn [backingSats state_at].
    unfold LOT_TOKENS, MAX_LOTS in *. lia. }
  split; [exact Hw|]. split; [|done]. apply mint_simf_conserves; [exact Hw|].
  cbn [mw_amount mw_prevSupply mw_nextSupply mw_prevReserve mw_nextReserve mw_contribution].
  rewrite Es. cbn [backingSats state_at]. unfold LOT_TOKENS, MAX_LOTS, PUBLIC_SUPPLY_TOKENS in *. lia.
Qed.

Lemma canonical_redeem_witness sha256 prev a r :
  applyRedeemV2 prev a = Ok r →
  ∃ w, buildRedeemSimplicityWitness sha256 prev (nextState r) a (grossSats r) = Ok w
  ∧ redeem_words w = true ∧ redeem_simf w = true ∧ rw_payout w = grossSats r.
Proof.
  intros Hr. pose proof Hr as Hr'.
  apply applyRedeemV2_Ok in Hr' as (k & q & Ht & ? & ? & Es & -> & ->). cbn [nextState grossSats] in *.
  destruct (stateHashV2_state_at sha256 (tokenIdV2 prev) (k - q) Ht) as [h Hh]; [lia|].
  pose proof (lot_reserve_range k). pose proof (lot_reserve_range (k - q)).
  pose proof (lot_reserve_strict (k - q) q) as Hs. rewrite Z.sub_add in Hs. eexists. split.
  { unfold buildRedeemSimplicityWitness. rewrite atomsToDisplayTokensExact_lots by lia. step_ok.
    rewrite Hr. step_ok. cbn [nextState grossSats]. rewrite Hh. do 2 step_ok.
    rewrite String.eqb_refl, Z.eqb_refl. repeat guard_step done.
    rewrite Es at 1. cbn [issuedPublicSupplyAtoms state_at].
    repeat first [rewrite atomsToDisplayTokensExact_lots by lia | step_ok]. reflexivity. }
  assert (redeem_words {| rw_amount := q * LOT_TOKENS; rw_oldSupply := k * LOT_TOKENS;
    rw_newSupply := (k - q) * LOT_TOKENS; rw_oldBacking := backingSats prev;
    rw_newBacking := lot_reserve (k - q);
    rw_payout := lot_reserve k - lot_reserve (k - q) |} = true) as Hw.
  { unfold redeem_words. cbn [forallb rw_amount rw_oldSupply rw_newSupply rw_oldBacking rw_newBacking
      rw_payout]. to_prop. rewrite !is_u64_true, Es. cbn [backingSats state_at].
    unfold LOT_TOKENS, MAX_LOTS in *. lia. }
  split; [exact Hw|]. split; [|done]. apply redeem_simf_conserves; [exact Hw|].
  cbn [rw_amount rw_oldSupply rw_newSupply rw_oldBacking rw_newBacking rw_payout].
  rewrite Es. cbn [backingSats state_at]. unfold LOT_TOKENS, MAX_LOTS in *. lia.
Qed.

(** for every mint the covenant accepts, the canonical witness exists, all
    its words fit 64 bits, and the MINT policy accepts it; likewise for every
    redemption and the REDEEM policy.  The caller's successor and gross must be
    the computed ones. *)
Theorem canonical_witness_accepted sha256 prev a r :
  (applyMintV2 prev a = Ok r →
   ∃ w, buildMintSimplicityWitness sha256 prev (nextState r) a (grossSats r) = Ok w
   ∧ mint_words w = true ∧ mint_simf w = true ∧ mw_contribution w = grossSats r)
  ∧ (applyRedeemV2 prev a = Ok r →
   ∃ w, buildRedeemSimplicityWitness sha256 prev (nextState r) a (grossSats r) = Ok w
   ∧ redeem_words w = true ∧ redeem_simf w = true ∧ rw_payout w = grossSats r).
Proof. split; [apply canonical_mint_witness|apply canonical_redeem_witness]. Qed.

(** the executor reports PASS only for a run that reported PASS with the
    frozen commitment root, and every other run as a typed failure; the only
    exception is a child that prints the JSON value [null]. *)
Theorem executeStrict_fail_closed execFile p rust w expected bin timeout :
  match executeStrict execFile p rust w expected bin timeout with
  | Ok r =>
      (pass r = true ↔ ∃ b, bin = Some b ∧
         execFile b ["exec"%string; rust; w] (default SIMPLICITY_TIMEOUT_MS timeout)
         = ExecStdout (JsonValue (Some expected) (Some "PASS"%string)))
      ∧ (pass r = true ↔ failure r = None) ∧ (pass r = true → actualCmr r = Some expected)
  | Throw x => exn_class x = ETypeError ∧ ∃ b, bin = Some b ∧
      execFile b ["exec"%string; rust; w] (default SIMPLICITY_TIMEOUT_MS timeout) = ExecStdout JsonNull
  end.
Proof.
  assert (∀ r, pass r = false → failure r ≠ None →
    (∀ b, bin = Some b →
       execFile b ["exec"%string; rust; w] (default SIMPLICITY_TIMEOUT_MS timeout)
       ≠ ExecStdout (JsonValue (Some expected) (Some "PASS"%string))) →
    (pass r = true ↔ ∃ b, bin = Some b ∧
       execFile b ["exec"%string; rust; w] (default SIMPLICITY_TIMEOUT_MS timeout)
       = ExecStdout (JsonValue (Some expected) (Some "PASS"%string)))
    ∧ (pass r = true ↔ failure r = None) ∧ (pass r = true → actualCmr r = Some expected)) as Hfail.
  { intros r -> Hf Hno. split_and!; [|by split|done]. split; [done|]. intros (b & Hb & E). by apply Hno in E. }
  unfold executeStrict. destruct bin as [b|]; [|by apply Hfail].
  destruct (execFile _ _ _) as [k s c|[| |[cmr|] [res|]]] eqn:E;
    try (apply Hfail; try done; intros ? [= <-]; congruence).
  - destruct (_ || _); apply Hfail; try done; intros ? [= <-]; congruence.
  - split; [done|]. by exists b.
  - destruct (String.eqb_spec res "PASS") as [->|Hp]; cbn [negb andb].
    + destruct (String.eqb_spec cmr expected) as [->|Hc]; cbn [negb].
      * cbn. split_and!; try done. split; [|done]. intros _. by exists b.
      * apply Hfail; try done. intros ? [= <-]. congruence.
    + destruct (String.eqb res "FAIL"); cbn [negb];
        [destruct (String.eqb cmr expected); cbn [negb]|];
        apply Hfail; try done; intros ? [= <-]; congruence.
Qed.
