(* ===== verification/Vault.v ===== *)
(** * The backing vault: packages/cove-vault

    [taproot.ts] (tagged hashes, the merkle root and paths of a tapscript
    tree), [nums.ts], [policyIdentity.ts], [leaves.ts], [vaultProfile.ts],
    [vault.ts] and [backingVault.ts].  Hashing, the curve and the script and
    address encoders of bitcoinjs-lib are the operations of [Crypto]. *)
From S2P Require Import Prelude Bytes Curve Economics Wire Covenant.

(** ** Third-party operations *)

(** [bitcoin.script.compile] takes opcodes and data pushes. *)
Inductive script_chunk := Opcode (op : Z) | Push (data : list byte).
Inductive btc_network := NetRegtest | NetBitcoin | NetTestnet.

Class Crypto := {
  (** [createHash("sha256")] of node:crypto *)
  sha256 : list byte → list byte;
  (** tiny-secp256k1 *)
  isXOnlyPoint : list byte → bool;
  xOnlyPointAddTweak : list byte → list byte → option (list byte * Z);
  (** bitcoinjs-lib *)
  script_compile : list script_chunk → list byte;
  script_number_encode : Z → list byte;
  toBech32 : list byte → btc_network → string;
}.

(** ** Lexicographic order of buffers: [Buffer.compare(a, b) <= 0] *)
Fixpoint bytes_le (a b : list byte) : bool :=
  match a, b with
  | [], _ => true
  | _ :: _, [] => false
  | x :: a', y :: b' => if u8 x <? u8 y then true else if u8 y <? u8 x then false else bytes_le a' b'
  end.

Definition bytes_leP (a b : list byte) : Prop := bytes_le a b = true.
#[export] Instance bytes_leP_dec : RelDecision bytes_leP.
Proof. unfold RelDecision, bytes_leP. intros. apply _. Defined.

(** [[...l].sort((a, b) => Buffer.compare(a, b))] *)
Definition sort_buffers (l : list (list byte)) : list (list byte) := merge_sort bytes_leP l.

Section Vault.
Context {C : Crypto}.

(** ** taproot.ts *)
Definition LEAF_VERSION_TAPSCRIPT : Z := 0xc0.

Definition vault_taggedHash (tag : string) (msg : list byte) : list byte :=
  let tagHash := sha256 (utf8 tag) in sha256 (tagHash ++ tagHash ++ msg).

Definition tapleafHash (script : list byte) (version : Z) : list byte :=
  let len := blen script in
  let lenBuf :=
    if len <? 0xfd then [to_byte len]
    else if len <=? 0xffff then
      [to_byte 0xfd; to_byte (Z.land len 0xff); to_byte (Z.land (Z.shiftr len 8) 0xff)]
    else to_byte 0xfe :: reverse (be_bytes 4 len) in
  vault_taggedHash "TapLeaf" ([to_byte version] ++ lenBuf ++ script).

Definition tapBranchHash (a b : list byte) : list byte :=
  let left := if bytes_le a b then a else b in
  let right := if bytes_le a b then b else a in
  vault_taggedHash "TapBranch" (left ++ right).

(** One pass of the [for] loop: neighbours are combined, an odd last node is
    carried up. *)
Fixpoint combine_level (level : list (list byte)) : list (list byte) :=
  match level with
  | a :: b :: rest => tapBranchHash a b :: combine_level rest
  | _ => level
  end.

(** [while (level.length > 1)]: a pass halves the level. *)
Fixpoint merkle_levels (fuel : nat) (level : list (list byte)) : list (list byte) :=
  match fuel with
  | O => level
  | S f => if (1 <? length level)%nat then merkle_levels f (combine_level level) else level
  end.

Definition taprootMerkleRoot (leafHashes : list (list byte)) : result (list byte) :=
  throw_if (length leafHashes =? 0)%nat (js_error "empty leaf set");;
  of_option (Exn ETypeError None "undefined")
    (head (merkle_levels (length leafHashes) (sort_buffers leafHashes))).

Record Node := { node_hash : list byte; node_leaves : list (list byte) }.

(** [for (const leaf of leaves) paths.get(leaf.toString("hex"))!.push(hash)] *)
Definition push_all (leaves : list (list byte)) (hash : list byte)
    (paths : gmap string (list (list byte))) : gmap string (list (list byte)) :=
  foldl (λ ps leaf, alter (λ p, p ++ [hash]) (toHex leaf) ps) paths leaves.

Fixpoint merge_nodes (level : list Node) (paths : gmap string (list (list byte)))
    : list Node * gmap string (list (list byte)) :=
  match level with
  | a :: b :: rest =>
      let parent := {| node_hash := tapBranchHash (node_hash a) (node_hash b);
                       node_leaves := node_leaves a ++ node_leaves b |} in
      let paths := push_all (node_leaves a) (node_hash b) paths in
      let paths := push_all (node_leaves b) (node_hash a) paths in
      let '(next, paths) := merge_nodes rest paths in
      (parent :: next, paths)
  | _ => (level, paths)
  end.

Fixpoint merge_levels (fuel : nat) (level : list Node) (paths : gmap string (list (list byte)))
    : list Node * gmap string (list (list byte)) :=
  match fuel with
  | O => (level, paths)
  | S f => if (1 <? length level)%nat
           then let '(next, paths) := merge_nodes level paths in merge_levels f next paths
           else (level, paths)
  end.

Definition leaf_node (h : list byte) : Node := {| node_hash := h; node_leaves := [h] |}.

Definition merklePaths (leafHashes : list (list byte)) : gmap string (list (list byte)) :=
  let paths := foldl (λ m h, <[toHex h := []]> m) ∅ leafHashes in
  snd (merge_levels (length leafHashes) (leaf_node <$> sort_buffers leafHashes) paths).

Definition tapTweak (internalKey merkleRoot : list byte) : list byte :=
  vault_taggedHash "TapTweak" (internalKey ++ merkleRoot).

Definition tweakKey (internalKey merkleRoot : list byte) : result (list byte * Z) :=
  of_option (js_error "Taproot tweak produced the point at infinity")
    (xOnlyPointAddTweak internalKey (tapTweak internalKey merkleRoot)).

(** ** nums.ts *)
Definition COVE_NUMS_X_ONLY : string :=
  "50929b74c1a04954b78b4b6035e97a5e078a5a0f28ec96d547bfee9ace803ac0".
Definition numsInternalKey : list byte := fromHex COVE_NUMS_X_ONLY.

(** ** policyIdentity.ts *)
Definition COVE_PROTOCOL_VERSION : Z := 1.
Definition COVE_POLICY_V1 : Z := 1.
Definition COVE_POLICY_V2 : Z := 2.

Record PolicyCmrs := { cmr_mint : string; cmr_redeem : option string }.

Definition COVE_POLICY_CMRS (version : Z) : option PolicyCmrs :=
  if version =? 1 then Some {|
    cmr_mint := "118425967f4aed4fb528bd06a0f7a99a318675e819e837a2c452df6199d359b2"; cmr_redeem := None |}
  else if version =? 2 then Some {|
    cmr_mint := "118425967f4aed4fb528bd06a0f7a99a318675e819e837a2c452df6199d359b2";
    cmr_redeem := Some "a15ac4cbc450ac2dd113b1a9de178450ccc893a5213d8a2f56471fcd9aa274b7"%string |}
  else if version =? 3 then Some {|
    cmr_mint := "7fb27adf2db5458882daf976ba9325815f111b2f3b16eedb72e75f96de4269b2";
    cmr_redeem := Some "37e681b3e70a34acc3b38680c06fbe4f1b2799bede2607c6c9ed7fcac8c95d56"%string |}
  else None.

Record PolicyIdentity := {
  pi_version : Z;
  pi_operation : Z;
  pi_tokenId : string;
  pi_currentStateHash : list byte;
  pi_cmr : list byte;
}.

(** The bytes [policyIdentityHash] commits. *)
Definition policy_message (p : PolicyIdentity) : list byte :=
  [to_byte (pi_version p)] ++ [to_byte (pi_operation p)] ++ fromHex (pi_tokenId p)
  ++ pi_currentStateHash p ++ pi_cmr p.

Definition policyIdentityHash (p : PolicyIdentity) : result (list byte) :=
  throw_if (negb (is_hex64 (pi_tokenId p))) (js_error "tokenId must be 64 hex chars");;
  throw_if (negb (blen (pi_currentStateHash p) =? 32)) (js_error "currentStateHash must be 32 bytes");;
  throw_if (negb (blen (pi_cmr p) =? 32)) (js_error "cmr must be 32 bytes");;
  Ok (vault_taggedHash "CovePolicy" (policy_message p)).

(** ** leaves.ts *)
Definition OP_EQUALVERIFY : Z := 0x88.
Definition OP_CHECKSIG : Z := 0xac.
Definition OP_CHECKSEQUENCEVERIFY : Z := 0xb2.
Definition OP_2DROP : Z := 0x6d.
Definition RECOVERY_CSV_BLOCKS : Z := 144.

Definition buildExecutionLeaf (policyIdentityHash guardianXOnly : list byte) : result (list byte) :=
  throw_if (negb (blen policyIdentityHash =? 32))
    (js_error ("policyIdentityHash must be 32 bytes, got " +:+ pretty (blen policyIdentityHash)));;
  throw_if (negb (blen guardianXOnly =? 32))
    (js_error ("guardianXOnly must be 32 bytes, got " +:+ pretty (blen guardianXOnly)));;
  throw_if (negb (isXOnlyPoint guardianXOnly))
    (js_error "guardianXOnly is not on the secp256k1 curve");;
  Ok (script_compile [Push policyIdentityHash; Opcode OP_EQUALVERIFY; Push guardianXOnly;
                      Opcode OP_CHECKSIG]).

Definition buildRecoveryLeaf (ownerXOnly : list byte) : result (list byte) :=
  throw_if (negb (blen ownerXOnly =? 32))
    (js_error ("ownerXOnly must be 32 bytes, got " +:+ pretty (blen ownerXOnly)));;
  Ok (script_compile [Push (script_number_encode RECOVERY_CSV_BLOCKS); Opcode OP_CHECKSEQUENCEVERIFY;
                      Opcode OP_2DROP; Push ownerXOnly; Opcode OP_CHECKSIG]).

(** ** vaultProfile.ts *)
Inductive VaultProfileVersion := DEV1 | MAINNET1.

Record VaultRecoveryProfile := {
  profileVersion : VaultProfileVersion;
  recoveryCsvBlocks : Z;
  recoveryThreshold : Z;
  recoveryPubkeys : list (list byte);
}.

Definition OP_DROP : Z := 0x75.
Definition OP_CHECKSIGADD : Z := 0xba.
Definition OP_NUMEQUAL : Z := 0x9c.

Fixpoint check_recovery_keys (pubkeys : list (list byte)) (seen : gset string) : result unit :=
  match pubkeys with
  | [] => Ok tt
  | k :: rest =>
      throw_if (negb (blen k =? 32)) (js_error "recovery pubkeys must be 32-byte x-only keys");;
      throw_if (negb (isXOnlyPoint k)) (js_error "recovery pubkey is not on the secp256k1 curve");;
      throw_if (bool_decide (toHex k ∈ seen)) (js_error ("duplicate recovery pubkey " +:+ toHex k));;
      check_recovery_keys rest ({[toHex k]} ∪ seen)
  end.

Definition sortRecoveryPubkeys (pubkeys : list (list byte)) : result (list (list byte)) :=
  check_recovery_keys pubkeys ∅;;
  Ok (sort_buffers pubkeys).

(** [for (let i ...) { ops.push(keys[i]); ops.push(i === 0 ? CHECKSIG : CHECKSIGADD) }] *)
Definition threshold_key_ops (keys : list (list byte)) : list script_chunk :=
  match keys with
  | [] => []
  | k :: rest => [Push k; Opcode OP_CHECKSIG] ++ (rest ≫= λ k, [Push k; Opcode OP_CHECKSIGADD])
  end.

Definition buildThresholdRecoveryLeaf (csvBlocks threshold : Z) (pubkeys : list (list byte))
    : result (list byte) :=
  throw_if (csvBlocks <=? 0) (js_error "csvBlocks must be positive");;
  throw_if ((threshold <? 1) || (16 <? threshold)) (js_error "threshold must be 1..16");;
  throw_if (Z.of_nat (length pubkeys) <? threshold) (js_error "threshold exceeds pubkey count");;
  keys ← sortRecoveryPubkeys pubkeys;
  Ok (script_compile
    ([Push (script_number_encode csvBlocks); Opcode OP_CHECKSEQUENCEVERIFY; Opcode OP_DROP]
     ++ threshold_key_ops keys ++ [Opcode (0x50 + threshold); Opcode OP_NUMEQUAL])).

(** [l.slice(0, n)]: a negative bound counts from the end. *)
Definition slice0 {A} (n : Z) (l : list A) : list A :=
  if n <? 0 then take (Z.to_nat (Z.of_nat (length l) + n)) l else take (Z.to_nat n) l.

Definition buildThresholdRecoveryWitness (pubkeys : list (list byte))
    (signatures : gmap string (list byte)) (threshold : Z) : result (list (list byte)) :=
  keys ← sortRecoveryPubkeys pubkeys;
  let present := filter (λ k, is_Some (signatures !! toHex k)) keys in
  throw_if (Z.of_nat (length present) <? threshold)
    (js_error ("recovery threshold not met: " +:+ pretty (Z.of_nat (length present)) +:+ "/"
               +:+ pretty threshold +:+ " signatures"));;
  let used : gset string := list_to_set (toHex <$> slice0 threshold present) in
  Ok ((λ k, if bool_decide (toHex k ∈ used) then default [] (signatures !! toHex k) else [])
        <$> reverse keys).

Definition buildDev1RecoveryLeaf (ownerXOnly : list byte) : result (list byte) :=
  throw_if (negb (blen ownerXOnly =? 32)) (js_error "ownerXOnly must be 32 bytes");;
  Ok (script_compile [Push (script_number_encode 144); Opcode OP_CHECKSEQUENCEVERIFY; Opcode 0x6d;
                      Push ownerXOnly; Opcode OP_CHECKSIG]).

Definition buildRecoveryLeafForProfile (profile : VaultRecoveryProfile) : result (list byte) :=
  match profileVersion profile with
  | DEV1 =>
      throw_if (negb (length (recoveryPubkeys profile) =? 1)%nat)
        (js_error "DEV1 requires exactly one recovery key");;
      key ← of_option (Exn ETypeError None "undefined") (head (recoveryPubkeys profile));
      buildDev1RecoveryLeaf key
  | MAINNET1 =>
      buildThresholdRecoveryLeaf (recoveryCsvBlocks profile) (recoveryThreshold profile)
        (recoveryPubkeys profile)
  end.

Definition dev1RecoveryProfile (ownerXOnly : list byte) : VaultRecoveryProfile :=
  {| profileVersion := DEV1; recoveryCsvBlocks := 144; recoveryThreshold := 1;
     recoveryPubkeys := [ownerXOnly] |}.

(** ** vault.ts *)
Record CoveVaultLeaf := { leaf_script : list byte; leaf_tapleafHash : list byte }.

Record CoveVault := {
  v1_numsKey : list byte;
  v1_executionLeaf : CoveVaultLeaf;
  v1_recoveryLeaf : CoveVaultLeaf;
  v1_merkleRoot : list byte;
  v1_outputKey : list byte;
  v1_outputParity : Z;
  v1_scriptPubKey : list byte;
  v1_address : string;
  v1_executionControlBlock : list byte;
  v1_recoveryControlBlock : list byte;
}.

Definition buildCoveVault (policyIdentityHash guardianXOnly ownerXOnly : list byte)
    (network : option btc_network) : result CoveVault :=
  let numsKey := numsInternalKey in
  executionScript ← buildExecutionLeaf policyIdentityHash guardianXOnly;
  recoveryScript ← buildRecoveryLeaf ownerXOnly;
  let executionTapleaf := tapleafHash executionScript LEAF_VERSION_TAPSCRIPT in
  let recoveryTapleaf := tapleafHash recoveryScript LEAF_VERSION_TAPSCRIPT in
  let merkleRoot := tapBranchHash executionTapleaf recoveryTapleaf in
  '(outputKey, parity) ← tweakKey numsKey merkleRoot;
  let controlBlockVersion := Z.lor LEAF_VERSION_TAPSCRIPT parity in
  Ok {| v1_numsKey := numsKey;
        v1_executionLeaf := {| leaf_script := executionScript; leaf_tapleafHash := executionTapleaf |};
        v1_recoveryLeaf := {| leaf_script := recoveryScript; leaf_tapleafHash := recoveryTapleaf |};
        v1_merkleRoot := merkleRoot; v1_outputKey := outputKey; v1_outputParity := parity;
        v1_scriptPubKey := [x51; x20] ++ outputKey;
        v1_address := toBech32 outputKey (default NetRegtest network);
        v1_executionControlBlock := [to_byte controlBlockVersion] ++ numsKey ++ recoveryTapleaf;
        v1_recoveryControlBlock := [to_byte controlBlockVersion] ++ numsKey ++ executionTapleaf |}.

Record CoveVaultV3 := {
  v3_numsKey : list byte;
  v3_mintLeaf : CoveVaultLeaf;
  v3_redeemLeaf : CoveVaultLeaf;
  v3_recoveryLeaf : CoveVaultLeaf;
  v3_merkleRoot : list byte;
  v3_outputKey : list byte;
  v3_outputParity : Z;
  v3_scriptPubKey : list byte;
  v3_address : string;
  v3_mintControlBlock : list byte;
  v3_redeemControlBlock : list byte;
  v3_recoveryControlBlock : list byte;
}.

Definition control_block (versionByte : Z) (numsKey : list byte)
    (paths : gmap string (list (list byte))) (tapleaf : list byte) : result (list byte) :=
  path ← of_option (Exn ETypeError None "undefined is not iterable") (paths !! toHex tapleaf);
  Ok ([to_byte versionByte] ++ numsKey ++ concat path).

Definition buildCoveVaultV3 (mintPolicyIdentityHash redeemPolicyIdentityHash guardianXOnly
    ownerXOnly : list byte) (recoveryProfile : option VaultRecoveryProfile)
    (network : option btc_network) : result CoveVaultV3 :=
  let numsKey := numsInternalKey in
  mintScript ← buildExecutionLeaf mintPolicyIdentityHash guardianXOnly;
  redeemScript ← buildExecutionLeaf redeemPolicyIdentityHash guardianXOnly;
  let recoveryProfile := default (dev1RecoveryProfile ownerXOnly) recoveryProfile in
  recoveryScript ← buildRecoveryLeafForProfile recoveryProfile;
  let mintTapleaf := tapleafHash mintScript LEAF_VERSION_TAPSCRIPT in
  let redeemTapleaf := tapleafHash redeemScript LEAF_VERSION_TAPSCRIPT in
  let recoveryTapleaf := tapleafHash recoveryScript LEAF_VERSION_TAPSCRIPT in
  merkleRoot ← taprootMerkleRoot [mintTapleaf; redeemTapleaf; recoveryTapleaf];
  '(outputKey, parity) ← tweakKey numsKey merkleRoot;
  let paths := merklePaths [mintTapleaf; redeemTapleaf; recoveryTapleaf] in
  let versionByte := Z.lor LEAF_VERSION_TAPSCRIPT parity in
  mintCb ← control_block versionByte numsKey paths mintTapleaf;
  redeemCb ← control_block versionByte numsKey paths redeemTapleaf;
  recoveryCb ← control_block versionByte numsKey paths recoveryTapleaf;
  Ok {| v3_numsKey := numsKey;
        v3_mintLeaf := {| leaf_script := mintScript; leaf_tapleafHash := mintTapleaf |};
        v3_redeemLeaf := {| leaf_script := redeemScript; leaf_tapleafHash := redeemTapleaf |};
        v3_recoveryLeaf := {| leaf_script := recoveryScript; leaf_tapleafHash := recoveryTapleaf |};
        v3_merkleRoot := merkleRoot; v3_outputKey := outputKey; v3_outputParity := parity;
        v3_scriptPubKey := [x51; x20] ++ outputKey;
        v3_address := toBech32 outputKey (default NetRegtest network);
        v3_mintControlBlock := mintCb; v3_redeemControlBlock := redeemCb;
        v3_recoveryControlBlock := recoveryCb |}.

(** ** backingVault.ts *)

(** The two policy identities of a state. *)
Definition state_policy (operation : Z) (cmr : string) (state : CoveStateV2) (h : list byte)
    : PolicyIdentity :=
  {| pi_version := COVE_POLICY_V3; pi_operation := operation; pi_tokenId := tokenIdV2 state;
     pi_currentStateHash := h; pi_cmr := fromHex cmr |}.

Definition backingPolicies (state : CoveStateV2) : result (list byte * list byte) :=
  hash ← stateHashV2 sha256 state;
  let currentStateHash := fromHex hash in
  cmrs ← of_option (Exn ETypeError None "undefined") (COVE_POLICY_CMRS COVE_POLICY_V3);
  mintPi ← policyIdentityHash (state_policy OP_MINT (cmr_mint cmrs) state currentStateHash);
  redeemCmr ← of_option (Exn ETypeError None "undefined") (cmr_redeem cmrs);
  redeemPi ← policyIdentityHash (state_policy OP_REDEEM redeemCmr state currentStateHash);
  Ok (mintPi, redeemPi).

Definition buildBackingVaultV3 (state : CoveStateV2) (guardianXOnly recoveryKeyXOnly : list byte)
    (recoveryProfile : option VaultRecoveryProfile) (network : option btc_network)
    : result CoveVaultV3 :=
  '(mintPi, redeemPi) ← backingPolicies state;
  buildCoveVaultV3 mintPi redeemPi guardianXOnly recoveryKeyXOnly recoveryProfile network.
End Vault.

(** ** The order of buffers *)
Lemma bytes_le_refl a : bytes_le a a = true.
Proof. induction a as [|x a IH]; [done|]. cbn [bytes_le]. by rewrite Z.ltb_irrefl. Qed.

Lemma bytes_le_antisym a b : bytes_le a b = true → bytes_le b a = true → a = b.
Proof.
  revert b. induction a as [|x a IH]; intros [|y b]; cbn [bytes_le]; try done.
  destruct (Z.ltb_spec (u8 x) (u8 y)), (Z.ltb_spec (u8 y) (u8 x)); try done; try lia.
  intros ? ?. rewrite (IH b) by done. f_equal. apply u8_inj. lia.
Qed.

Lemma bytes_le_total a b : bytes_le a b = true ∨ bytes_le b a = true.
Proof.
  revert b. induction a as [|x a IH]; intros [|y b]; cbn [bytes_le]; auto.
  destruct (Z.ltb_spec (u8 x) (u8 y)), (Z.ltb_spec (u8 y) (u8 x)); auto.
Qed.

Lemma bytes_le_trans a b c : bytes_le a b = true → bytes_le b c = true → bytes_le a c = true.
Proof.
  revert b c. induction a as [|x a IH]; intros [|y b] [|z c]; cbn [bytes_le]; try done.
  destruct (Z.ltb_spec (u8 x) (u8 y)), (Z.ltb_spec (u8 y) (u8 x)),
    (Z.ltb_spec (u8 y) (u8 z)), (Z.ltb_spec (u8 z) (u8 y)),
    (Z.ltb_spec (u8 x) (u8 z)), (Z.ltb_spec (u8 z) (u8 x)); try done; try lia. eauto.
Qed.

#[export] Instance bytes_leP_trans : Transitive bytes_leP.
Proof. intros a b c. apply bytes_le_trans. Qed.
#[export] Instance bytes_leP_total : Total bytes_leP.
Proof. intros a b. apply bytes_le_total. Qed.
#[export] Instance bytes_leP_antisym : AntiSymm (=) bytes_leP.
Proof. intros a b. apply bytes_le_antisym. Qed.

Lemma sort_buffers_perm l : sort_buffers l ≡ₚ l.
Proof. apply merge_sort_Permutation. Qed.

(** Sorting forgets the order of its input. *)
Lemma sort_buffers_unique l k : l ≡ₚ k → sort_buffers l = sort_buffers k.
Proof.
  intros H. apply (Sorted_unique bytes_leP).
  - apply Sorted_merge_sort, _.
  - apply Sorted_merge_sort, _.
  - by rewrite !sort_buffers_perm.
Qed.

(** ** Merkle paths *)
Section Merkle.
Context {C : Crypto}.

Lemma tapBranchHash_comm a b : tapBranchHash a b = tapBranchHash b a.
Proof.
  unfold tapBranchHash. destruct (bytes_le a b) eqn:E, (bytes_le b a) eqn:E'; try done.
  - by rewrite (bytes_le_antisym a b).
  - destruct (bytes_le_total a b); congruence.
Qed.

(** What a verifier computes from a leaf and its path (BIP341). *)
Definition fold_path (leaf : list byte) (path : list (list byte)) : list byte :=
  foldl tapBranchHash leaf path.

(** The paths collected so far lead from each leaf to the hash of its node. *)
Definition node_ok (P : gmap string (list (list byte))) (n : Node) : Prop :=
  ∀ x, x ∈ node_leaves n → ∃ p, P !! toHex x = Some p ∧ fold_path x p = node_hash n.

Definition all_leaves (level : list Node) : list (list byte) := level ≫= node_leaves.

Lemma push_all_lookup leaves hash P x :
  NoDup leaves →
  push_all leaves hash P !! toHex x
  = if bool_decide (x ∈ leaves) then (λ p, p ++ [hash]) <$> P !! toHex x else P !! toHex x.
Proof.
  unfold push_all. revert P. induction leaves as [|l leaves IH]; intros P Hnd; [done|].
  apply NoDup_cons in Hnd as [Hl Hnd]. cbn [foldl]. rewrite IH by done.
  destruct (decide (x = l)) as [->|Hne].
  - rewrite (bool_decide_false (l ∈ leaves)), (bool_decide_true (l ∈ l :: leaves)) by set_solver.
    by rewrite lookup_alter_eq.
  - assert (toHex l ≠ toHex x) by (intros E; apply Hne; by apply (inj toHex) in E).
    rewrite lookup_alter_ne by done.
    by rewrite (bool_decide_ext (x ∈ leaves) (x ∈ l :: leaves)) by set_solver.
Qed.

Lemma push_all_other leaves hash P x :
  x ∉ leaves → push_all leaves hash P !! toHex x = P !! toHex x.
Proof.
  unfold push_all. revert P. induction leaves as [|l leaves IH]; intros P Hx; [done|].
  cbn [foldl]. rewrite IH by set_solver.
  assert (toHex l ≠ toHex x) by (intros E; apply Hx; apply (inj toHex) in E; set_solver).
  by rewrite lookup_alter_ne.
Qed.

(** One pass: the nodes stay correct, the hashes are those of
    [combine_level] and paths of other leaves are untouched. *)
Lemma merge_nodes_spec n level P next P' :
  (length level ≤ n)%nat → merge_nodes level P = (next, P') → NoDup (all_leaves level) →
  (∀ m, m ∈ level → node_ok P m) →
  (∀ m, m ∈ next → node_ok P' m) ∧ all_leaves next = all_leaves level
  ∧ node_hash <$> next = combine_level (node_hash <$> level)
  ∧ (∀ x, x ∉ all_leaves level → P' !! toHex x = P !! toHex x).
Proof.
  revert level P next P'. induction n as [|n IH]; intros level P next P' Hn H Hnd Hok.
  { destruct level; [|cbn in Hn; lia]. cbn in H. injection H as <- <-. split_and!; set_solver. }
  destruct level as [|a [|b rest]]; cbn [merge_nodes] in H; [injection H as <- <-; split_and!; set_solver| |].
  { injection H as <- <-. by split_and!. }
  destruct (merge_nodes rest _) as [next0 P0] eqn:Hrest. injection H as <- <-.
  set (P1 := push_all (node_leaves b) (node_hash a) (push_all (node_leaves a) (node_hash b) P)) in *.
  unfold all_leaves in Hnd. cbn [mbind list_bind] in Hnd. rewrite !NoDup_app in Hnd.
  destruct Hnd as (Hna & Hdab & Hnb & Hdb & Hnr). fold (all_leaves rest) in *.
  assert (∀ x, x ∈ node_leaves a → x ∉ node_leaves b ∧ x ∉ all_leaves rest) as Ha by set_solver.
  assert (∀ x, x ∈ node_leaves b → x ∉ node_leaves a) as Hb by set_solver.
  assert (∀ x, x ∉ node_leaves a → x ∉ node_leaves b → P1 !! toHex x = P !! toHex x) as Hother.
  { intros x ? ?. unfold P1. by rewrite !push_all_other. }
  destruct (IH rest P1 next0 P0) as (Hok0 & Hl0 & Hh0 & Ho0); [cbn in Hn; lia|done|done| |].
  { intros m Hm x Hx. assert (x ∈ all_leaves rest) by (unfold all_leaves; set_solver).
    rewrite Hother by set_solver. apply (Hok m); [set_solver|done]. }
  split_and!.
  - intros m Hm. apply elem_of_cons in Hm as [->|Hm]; [|by apply Hok0].
    intros x Hx. cbn [node_leaves node_hash] in *. apply elem_of_app in Hx as [Hx|Hx].
    + destruct (Ha x Hx) as [Hnxb Hnxr]. rewrite Ho0 by done. unfold P1.
      rewrite push_all_other, push_all_lookup, bool_decide_true by done.
      destruct (Hok a ltac:(set_solver) x Hx) as (p & -> & Hp). eexists. split; [done|].
      unfold fold_path in *. rewrite foldl_app. cbn. by rewrite Hp.
    + rewrite Ho0 by (intros ?; by eapply Hdb). unfold P1.
      rewrite push_all_lookup, bool_decide_true, push_all_other by auto.
      destruct (Hok b ltac:(set_solver) x Hx) as (p & -> & Hp). eexists. split; [done|].
      unfold fold_path in *. rewrite foldl_app. cbn. rewrite Hp. apply tapBranchHash_comm.
  - unfold all_leaves in *. cbn [mbind list_bind node_leaves]. by rewrite Hl0, app_assoc.
  - rewrite !fmap_cons. cbn [combine_level node_hash]. by rewrite Hh0.
  - intros x Hx. unfold all_leaves in Hx. cbn [mbind list_bind] in Hx. fold (all_leaves rest) in Hx.
    rewrite Ho0 by set_solver. apply Hother; set_solver.
Qed.

Lemma combine_level_length level :
  (1 < length level → length (combine_level level) < length level)%nat
  ∧ (0 < length level → 0 < length (combine_level level))%nat
  ∧ (length (combine_level level) ≤ length level)%nat.
Proof.
  induction level as [level IH] using (induction_ltof1 _ length). unfold ltof in IH.
  destruct level as [|a [|b rest]]; cbn; [lia..|].
  destruct (IH rest) as (? & ? & ?); [cbn; lia|]. lia.
Qed.

(** The levels of nodes and of hashes go together, down to a single node. *)
Lemma merge_levels_spec fuel level P :
  (length level ≤ S fuel)%nat → level ≠ [] → NoDup (all_leaves level) →
  (∀ m, m ∈ level → node_ok P m) →
  ∃ root P', merge_levels fuel level P = ([root], P') ∧ node_ok P' root
  ∧ node_leaves root = all_leaves level
  ∧ merkle_levels fuel (node_hash <$> level) = [node_hash root].
Proof.
  revert level P. induction fuel as [|fuel IH]; intros level P Hlen Hne Hnd Hok;
    cbn [merge_levels merkle_levels].
  - destruct level as [|a [|]]; [done| |cbn in Hlen; lia].
    exists a, P. unfold all_leaves. cbn. rewrite app_nil_r. split_and!; try done. apply Hok. set_solver.
  - rewrite length_fmap. destruct (Nat.ltb_spec 1 (length level)) as [Hlt|Hle].
    + destruct (merge_nodes level P) as [next P1] eqn:E.
      destruct (merge_nodes_spec (length level) level P next P1) as (Hok1 & Hl1 & Hh1 & _); try done.
      assert (length next = length (combine_level (node_hash <$> level))) as Hlen1
        by (by rewrite <-Hh1, length_fmap).
      pose proof (combine_level_length (node_hash <$> level)) as (H1 & H2 & _). rewrite length_fmap in *.
      destruct (IH next P1) as (root & P' & -> & ? & Hr & Hm); [lia| |by rewrite Hl1|done|].
      { intros ->. cbn in *. lia. }
      exists root, P'. split_and!; try done; [by rewrite Hr, Hl1|by rewrite <-Hh1].
    + destruct level as [|a [|]]; [done| |cbn in Hle; lia].
      exists a, P. unfold all_leaves. cbn. rewrite app_nil_r. split_and!; try done. apply Hok. set_solver.
Qed.

Lemma init_paths_lookup l x :
  x ∈ l → foldl (λ m h, <[toHex h := []]> m) (∅ : gmap string (list (list byte))) l !! toHex x = Some [].
Proof.
  intros Hx.
  assert (∀ m : gmap string (list (list byte)), x ∈ l ∨ m !! toHex x = Some [] →
    foldl (λ m h, <[toHex h := []]> m) m l !! toHex x = Some []) as G; [|by apply G; left].
  clear Hx. induction l as [|h l IH]; intros m [Hx|Hm]; cbn [foldl]; [set_solver|done| |].
  - apply IH. apply elem_of_cons in Hx as [->|Hx]; [right; by rewrite lookup_insert_eq|by left].
  - apply IH. right. destruct (decide (toHex h = toHex x)) as [->|]; [by rewrite lookup_insert_eq|].
    by rewrite lookup_insert_ne.
Qed.

(** The tree of distinct leaves has a root, and the path recorded for each
    leaf leads to it. *)
Lemma merklePaths_verify leafHashes :
  leafHashes ≠ [] → NoDup leafHashes →
  ∃ root, taprootMerkleRoot leafHashes = Ok root ∧
  ∀ h, h ∈ leafHashes → ∃ p, merklePaths leafHashes !! toHex h = Some p ∧ fold_path h p = root.
Proof.
  intros Hne Hnd. set (sorted := sort_buffers leafHashes).
  pose proof (sort_buffers_perm leafHashes) as Hp. fold sorted in Hp.
  assert (all_leaves (leaf_node <$> sorted) = sorted) as Hl.
  { unfold all_leaves. clear. induction sorted; [done|]. cbn. by f_equal. }
  assert (node_hash <$> (leaf_node <$> sorted) = sorted) as Hh.
  { clear. induction sorted; [done|]. cbn. by f_equal. }
  set (P := foldl (λ m h, <[toHex h := []]> m) (∅ : gmap string (list (list byte))) leafHashes).
  destruct (merge_levels_spec (length leafHashes) (leaf_node <$> sorted) P)
    as (root & P' & E & Hok & Hlr & Hm).
  - rewrite length_fmap, Hp. lia.
  - intros E. apply fmap_nil_inv in E. rewrite E in Hp. by apply Permutation_nil in Hp.
  - rewrite Hl. by rewrite Hp.
  - intros m Hm x Hx. apply list_elem_of_fmap in Hm as (y & -> & Hy). cbn in Hx.
    apply list_elem_of_singleton in Hx as ->. exists []. split; [|done].
    apply init_paths_lookup. by rewrite <-Hp.
  - exists (node_hash root). split.
    + unfold taprootMerkleRoot. rewrite throw_if_false by (by destruct leafHashes).
      fold sorted. rewrite Hh in Hm. by rewrite Hm.
    + intros h Hx. unfold merklePaths. fold sorted P. rewrite E. cbn [snd]. apply Hok.
      rewrite Hlr, Hl. by rewrite Hp.
Qed.
End Merkle.

(** ** Spending the leaves of a vault *)
Section Spending.
Context {C : Crypto}.

(** What the consensus rule checks of a script-path spend: the control block
    names the parity of the output key and the internal key, and its path
    leads from the script to the root the output key commits. *)
Definition opens (numsKey merkleRoot outputKey : list byte) (parity : Z) (leaf : CoveVaultLeaf)
    (controlBlock : list byte) : Prop :=
  leaf_tapleafHash leaf = tapleafHash (leaf_script leaf) LEAF_VERSION_TAPSCRIPT
  ∧ tweakKey numsKey merkleRoot = Ok (outputKey, parity)
  ∧ ∃ path, controlBlock = [to_byte (Z.lor LEAF_VERSION_TAPSCRIPT parity)] ++ numsKey ++ concat path
          ∧ fold_path (leaf_tapleafHash leaf) path = merkleRoot.

Lemma control_block_opens leafHashes script numsKey root key parity cb :
  NoDup leafHashes → tapleafHash script LEAF_VERSION_TAPSCRIPT ∈ leafHashes →
  taprootMerkleRoot leafHashes = Ok root → tweakKey numsKey root = Ok (key, parity) →
  control_block (Z.lor LEAF_VERSION_TAPSCRIPT parity) numsKey (merklePaths leafHashes)
    (tapleafHash script LEAF_VERSION_TAPSCRIPT) = Ok cb →
  opens numsKey root key parity
    {| leaf_script := script; leaf_tapleafHash := tapleafHash script LEAF_VERSION_TAPSCRIPT |} cb.
Proof.
  intros Hnd Hin Hroot Htweak Hcb.
  destruct (merklePaths_verify leafHashes) as (root' & Hroot' & Hpath); [set_solver|done|].
  rewrite Hroot in Hroot'. injection Hroot' as <-. destruct (Hpath _ Hin) as (p & Hp & Hf).
  unfold control_block in Hcb. rewrite Hp in Hcb. cbn [of_option] in Hcb. res_inv Hcb.
  split; [done|]. split; [done|]. exists p. split; [|done]. by simplify_eq.
Qed.

(** C33: every leaf of a production vault can be spent: whenever the three
    tapleaf hashes differ, the MINT, REDEEM and recovery control blocks each
    prove their script against the vault's output key, which is the tweak of
    the NUMS key alone, so that no key-path key exists. *)
Theorem vaultV3_leaves_spendable mintPi redeemPi guardian owner profile net v :
  buildCoveVaultV3 mintPi redeemPi guardian owner profile net = Ok v →
  NoDup [leaf_tapleafHash (v3_mintLeaf v); leaf_tapleafHash (v3_redeemLeaf v);
         leaf_tapleafHash (v3_recoveryLeaf v)] →
  let ok := opens (v3_numsKey v) (v3_merkleRoot v) (v3_outputKey v) (v3_outputParity v) in
  v3_numsKey v = numsInternalKey ∧ v3_scriptPubKey v = [x51; x20] ++ v3_outputKey v
  ∧ ok (v3_mintLeaf v) (v3_mintControlBlock v) ∧ ok (v3_redeemLeaf v) (v3_redeemControlBlock v)
  ∧ ok (v3_recoveryLeaf v) (v3_recoveryControlBlock v).
Proof.
  intros H Hnd ok. subst ok. unfold buildCoveVaultV3 in H. res_inv H. destruct v4 as [key parity]. res_inv H.
  subst v. cbn [v3_mintLeaf v3_redeemLeaf v3_recoveryLeaf leaf_tapleafHash v3_numsKey v3_merkleRoot
    v3_outputKey v3_outputParity v3_scriptPubKey v3_mintControlBlock v3_redeemControlBlock
    v3_recoveryControlBlock] in *.
  split_and!; [done|done|..]; (eapply control_block_opens; [exact Hnd|set_solver|done|done|done]).
Qed.

(** the two leaves of the Phase 3 vault can be spent as well, each by the
    control block that carries the other leaf's hash. *)
Theorem vaultV1_leaves_spendable pi guardian owner net v :
  buildCoveVault pi guardian owner net = Ok v →
  let ok := opens (v1_numsKey v) (v1_merkleRoot v) (v1_outputKey v) (v1_outputParity v) in
  v1_numsKey v = numsInternalKey ∧ v1_scriptPubKey v = [x51; x20] ++ v1_outputKey v
  ∧ ok (v1_executionLeaf v) (v1_executionControlBlock v)
  ∧ ok (v1_recoveryLeaf v) (v1_recoveryControlBlock v).
Proof.
  intros H ok. subst ok. unfold buildCoveVault in H. res_inv H. destruct v2 as [key parity]. res_inv H.
  subst v. cbn [v1_executionLeaf v1_recoveryLeaf v1_numsKey v1_merkleRoot v1_outputKey v1_outputParity
    v1_scriptPubKey v1_executionControlBlock v1_recoveryControlBlock].
  unfold opens. cbn [leaf_tapleafHash leaf_script]. split_and!; try done.
  - eexists [_]. split; [cbn; by rewrite app_nil_r|done].
  - eexists [_]. split; [cbn; by rewrite app_nil_r|]. apply tapBranchHash_comm.
Qed.

(** ** Recovery keys *)
Lemma check_recovery_keys_Ok keys seen :
  check_recovery_keys keys seen = Ok tt ↔
  Forall (λ k, blen k = 32 ∧ isXOnlyPoint k = true ∧ toHex k ∉ seen) keys ∧ NoDup keys.
Proof.
  revert seen. induction keys as [|k keys IH]; intros seen; cbn [check_recovery_keys].
  - split; [|done]. intros _. split; constructor.
  - rewrite Forall_cons, NoDup_cons. split.
    + intros H. res_inv H. to_prop. apply IH in H as [Hf Hnd].
      assert (k ∉ keys) as Hk.
      { intros Hin. destruct (proj1 (Forall_forall _ _) Hf k Hin) as (_ & _ & Hs). set_solver. }
      split_and!; try done. eapply Forall_impl; [exact Hf|]. cbn. set_solver.
    + intros [[(? & ? & ?) Hf] [Hk Hnd]]. repeat guard_step done. apply IH. split; [|done].
      apply Forall_forall. intros x Hx. destruct (proj1 (Forall_forall _ _) Hf x Hx) as (? & ? & ?).
      split_and!; try done. apply not_elem_of_union. split; [|done].
      apply not_elem_of_singleton. intros E. apply (inj toHex) in E. congruence.
Qed.

Definition good_recovery_keys (keys : list (list byte)) : Prop :=
  Forall (λ k, blen k = 32 ∧ isXOnlyPoint k = true) keys ∧ NoDup keys.

Lemma sortRecoveryPubkeys_Ok keys sorted :
  sortRecoveryPubkeys keys = Ok sorted ↔ good_recovery_keys keys ∧ sorted = sort_buffers keys.
Proof.
  assert (check_recovery_keys keys ∅ = Ok tt ↔ good_recovery_keys keys) as E.
  { rewrite check_recovery_keys_Ok. unfold good_recovery_keys.
    assert (∀ k, (blen k = 32 ∧ isXOnlyPoint k = true ∧ toHex k ∉ (∅ : gset string))
            ↔ (blen k = 32 ∧ isXOnlyPoint k = true)) as F by set_solver.
    by setoid_rewrite F. }
  unfold sortRecoveryPubkeys. rewrite <-E. split.
  - intros H. res_inv H. by destruct v.
  - by intros [-> ->].
Qed.

(** the recovery leaf, hence the vault's address, does not depend on the
    order in which the recovery keys are configured. *)
Theorem recovery_leaf_order_independent csv threshold keys keys' :
  keys ≡ₚ keys' → is_ok (buildThresholdRecoveryLeaf csv threshold keys) = true →
  buildThresholdRecoveryLeaf csv threshold keys = buildThresholdRecoveryLeaf csv threshold keys'.
Proof.
  intros Hp (s & H)%is_ok_true. rewrite H. unfold buildThresholdRecoveryLeaf in *. res_inv H.
  rewrite <-(Permutation_length Hp), Hv, Hv0, Hv1. repeat guard_step done.
  apply sortRecoveryPubkeys_Ok in Hv2 as [[Hf Hnd] ->].
  rewrite (proj2 (sortRecoveryPubkeys_Ok keys' (sort_buffers keys))); [by rewrite bind_of_Ok; f_equal|].
  split; [|by apply sort_buffers_unique]. split; by rewrite <-Hp.
Qed.

(** The keys whose signatures a witness uses. *)
Definition signers (keys : list (list byte)) (signatures : gmap string (list byte)) : list (list byte) :=
  filter (λ k, is_Some (signatures !! toHex k)) keys.

Lemma filter_take_length `{EqDecision A} (P : A → Prop) `{∀ x, Decision (P x)} (l : list A) n :
  NoDup l → length (filter (λ x, x ∈ take n (filter P l)) l) = (n `min` length (filter P l))%nat.
Proof.
  intros Hnd. rewrite <-length_take. apply Permutation_length, NoDup_Permutation.
  - by apply NoDup_filter.
  - apply (sublist_NoDup _ (filter P l)); [by apply NoDup_filter|apply sublist_take].
  - intros x. rewrite list_elem_of_filter. split; [tauto|]. intros Hx. split; [done|].
    eapply elem_of_submseteq in Hx; [|by apply sublist_submseteq, sublist_take].
    by apply list_elem_of_filter in Hx as [_ Hx].
Qed.

Lemma filter_fmap_length {A B} (f : A → B) (P : B → Prop) `{∀ x, Decision (P x)} (l : list A) :
  length (filter P (f <$> l)) = length (filter (λ x, P (f x)) l).
Proof.
  induction l as [|x l IH]; [done|]. rewrite fmap_cons, !filter_cons.
  destruct (decide (P (f x))); cbn; by rewrite IH.
Qed.

(** a recovery witness carries exactly the threshold of signatures, never
    more: one slot per key, in reverse sorted order, each slot the signature
    supplied for that key or empty.  It is refused exactly when too few keys
    have signed. *)
Theorem recovery_witness_exact_threshold keys signatures threshold :
  good_recovery_keys keys → 0 ≤ threshold →
  (∀ k s, signatures !! k = Some s → s ≠ []) →
  (is_ok (buildThresholdRecoveryWitness keys signatures threshold) = true
     ↔ threshold ≤ Z.of_nat (length (signers keys signatures)))
  ∧ ∀ stack, buildThresholdRecoveryWitness keys signatures threshold = Ok stack →
    length stack = length keys
    ∧ Z.of_nat (length (filter (λ s, s ≠ []) stack)) = threshold
    ∧ Forall2 (λ k s, s = [] ∨ signatures !! toHex k = Some s) (reverse (sort_buffers keys)) stack.
Proof.
  intros Hgood Ht Hsig. unfold buildThresholdRecoveryWitness.
  rewrite (proj2 (sortRecoveryPubkeys_Ok keys (sort_buffers keys))) by done. step_ok.
  set (sorted := sort_buffers keys). pose proof (sort_buffers_perm keys) as Hp. fold sorted in Hp.
  assert (length (filter (λ k, is_Some (signatures !! toHex k)) sorted) = length (signers keys signatures))
    as Hlen by (unfold signers; by rewrite Hp).
  rewrite Hlen. destruct (Z.ltb_spec (Z.of_nat (length (signers keys signatures))) threshold) as [Hlt|Hle].
  { rewrite throw_if_true by done. split; [|done]. split; [done|lia]. }
  rewrite throw_if_false by done. split; [done|]. intros stack [= <-].
  destruct Hgood as [_ Hnd]. rewrite <-Hp in Hnd.
  set (present := filter (λ k, is_Some (signatures !! toHex k)) sorted).
  set (used := slice0 threshold present).
  assert (∀ k, toHex k ∈ (list_to_set (toHex <$> used) : gset string) ↔ k ∈ used) as Hused.
  { intros k. rewrite elem_of_list_to_set, list_elem_of_fmap. split; [|by exists k].
    intros (y & E & Hy). by apply (inj toHex) in E as ->. }
  set (slot := λ k, if bool_decide (toHex k ∈ (list_to_set (toHex <$> used) : gset string))
                    then default [] (signatures !! toHex k) else []).
  assert (used = take (Z.to_nat threshold) present) as Htake.
  { unfold used, slice0. by rewrite (proj2 (Z.ltb_ge _ _) Ht). }
  assert (∀ k, slot k ≠ [] ↔ k ∈ used) as Hslot.
  { intros k. unfold slot. rewrite (bool_decide_ext _ _ (Hused k)). split.
    - by case_bool_decide.
    - intros Hk. rewrite bool_decide_true by done.
      assert (k ∈ present) as Hpr.
      { rewrite Htake in Hk. eapply elem_of_submseteq; [exact Hk|]. apply sublist_submseteq, sublist_take. }
      apply list_elem_of_filter in Hpr as [[s Hs] _]. rewrite Hs. by eapply Hsig. }
  split_and!.
  - by rewrite length_fmap, length_reverse, Hp.
  - rewrite filter_fmap_length, (list_filter_iff _ (λ k, k ∈ take (Z.to_nat threshold) present)).
    + rewrite (Permutation_length (filter_Permutation _ _ _ (reverse_Permutation sorted))).
      unfold present. rewrite filter_take_length by done. rewrite Hlen. lia.
    + intros k. by rewrite Hslot, Htake.
  - apply Forall2_fmap_r, Forall_Forall2_diag, Forall_true. intros k. cbn. unfold slot.
    destruct (bool_decide _); [|by left]. destruct (signatures !! toHex k); [by right|by left].
Qed.
End Spending.

(** ** What the leaves commit *)
Section Policies.
Context {C : Crypto}.

Definition policy_preimage (p : PolicyIdentity) : list byte :=
  let t := sha256 (utf8 "CovePolicy") in t ++ t ++ policy_message p.

Lemma policyIdentityHash_Ok p h :
  policyIdentityHash p = Ok h →
  is_hex64 (pi_tokenId p) = true ∧ blen (pi_currentStateHash p) = 32 ∧ blen (pi_cmr p) = 32
  ∧ h = sha256 (policy_preimage p).
Proof. unfold policyIdentityHash. intros H. res_inv H. to_prop. by subst. Qed.

Lemma policy_message_inj p q :
  policy_message p = policy_message q →
  is_hex64 (pi_tokenId p) = true → is_hex64 (pi_tokenId q) = true →
  blen (pi_currentStateHash p) = 32 → blen (pi_currentStateHash q) = 32 →
  0 ≤ pi_version p ≤ 255 → 0 ≤ pi_version q ≤ 255 →
  0 ≤ pi_operation p ≤ 255 → 0 ≤ pi_operation q ≤ 255 → p = q.
Proof.
  unfold policy_message. intros E Hp Hq ? ? ? ? ? ?.
  apply app_inj_blen in E as [Ev E]; [|done]. apply app_inj_blen in E as [Eo E]; [|done].
  apply app_inj_blen in E as [Et E]; [|by rewrite !fromHex64_blen].
  apply app_inj_blen in E as [Es Ec]; [|lia].
  injection Ev as Ev. injection Eo as Eo. apply to_byte_inj in Ev, Eo; [|lia..].
  apply (f_equal toHex) in Et. rewrite (proj1 (toHex_fromHex64 _ Hp)), (proj1 (toHex_fromHex64 _ Hq)) in Et.
  destruct p, q. cbn in *. by subst.
Qed.

(** an execution leaf commits one policy: equal identity hashes mean the
    same version, operation, token, state hash and Simplicity root, or the two
    preimages are a SHA-256 collision. *)
Theorem policyIdentity_binds p q h :
  policyIdentityHash p = Ok h → policyIdentityHash q = Ok h →
  0 ≤ pi_version p ≤ 255 → 0 ≤ pi_version q ≤ 255 →
  0 ≤ pi_operation p ≤ 255 → 0 ≤ pi_operation q ≤ 255 →
  p = q ∨ clash sha256 (policy_preimage p) (policy_preimage q).
Proof.
  intros (? & ? & ? & ->)%policyIdentityHash_Ok (? & ? & ? & E)%policyIdentityHash_Ok ? ? ? ?.
  destruct (decide (policy_preimage p = policy_preimage q)) as [Ep|]; [left|by right].
  unfold policy_preimage in Ep. do 2 apply app_inv_head in Ep. by apply policy_message_inj.
Qed.

Lemma backingPolicies_Ok s m r :
  backingPolicies s = Ok (m, r) →
  ∃ h b, serializeStateV2 s = Ok b ∧ h = sha256 (stateV2_preimage b)
  ∧ (∃ c, policyIdentityHash (state_policy OP_MINT c s h) = Ok m)
  ∧ (∃ c, policyIdentityHash (state_policy OP_REDEEM c s h) = Ok r).
Proof.
  unfold backingPolicies. intros H. res_inv H. simplify_eq.
  unfold stateHashV2 in Hv. res_inv Hv. subst. rewrite fromHex_toHex in *. cbn in Hv0. injection Hv0 as <-.
  cbn in Hv2. injection Hv2 as <-. do 2 eexists. split; [exact Hv4|].
  split; [reflexivity|]. split; eexists; [exact Hv1|exact Hv3].
Qed.

(** The collisions that two states with one leaf would exhibit. *)
Definition state_clash (s s' : CoveStateV2) : Prop :=
  ∃ b b', serializeStateV2 s = Ok b ∧ serializeStateV2 s' = Ok b'
  ∧ clash sha256 (stateV2_preimage b) (stateV2_preimage b').

(** the MINT leaf of a vault belongs to one state and is never a REDEEM
    leaf: two valid states with the same MINT identity (or the same REDEEM
    identity) are equal, and a MINT identity equal to a REDEEM identity, of
    whatever states, is a SHA-256 collision. *)
Theorem backing_policies_bind s s' m r m' r' :
  backingPolicies s = Ok (m, r) → backingPolicies s' = Ok (m', r') →
  validateStateV2 s = Ok tt → validateStateV2 s' = Ok tt →
  (m = m' ∨ r = r' → s = s' ∨ state_clash s s' ∨ ∃ p q, clash sha256 (policy_preimage p) (policy_preimage q))
  ∧ (m = r' → ∃ p q, clash sha256 (policy_preimage p) (policy_preimage q)).
Proof.
  intros (h & b & Hb & -> & [c Hc] & [d Hd])%backingPolicies_Ok
    (h' & b' & Hb' & -> & [c' Hc'] & [d' Hd'])%backingPolicies_Ok V V'.
  assert (∀ op op' e e' g,
    policyIdentityHash (state_policy op e s (sha256 (stateV2_preimage b))) = Ok g →
    policyIdentityHash (state_policy op' e' s' (sha256 (stateV2_preimage b'))) = Ok g →
    0 ≤ op ≤ 255 → 0 ≤ op' ≤ 255 →
    (op = op' ∧ sha256 (stateV2_preimage b) = sha256 (stateV2_preimage b'))
    ∨ ∃ p q, clash sha256 (policy_preimage p) (policy_preimage q)) as G.
  { intros op op' e e' g (? & ? & ? & ->)%policyIdentityHash_Ok (? & ? & ? & E)%policyIdentityHash_Ok ? ?.
    set (p := state_policy op e s _) in *. set (q := state_policy op' e' s' _) in *.
    destruct (decide (policy_preimage p = policy_preimage q)) as [Ep|Hne]; [left|right; by exists p, q].
    unfold policy_preimage in Ep. do 2 apply app_inv_head in Ep.
    apply policy_message_inj in Ep; [|done..|cbn; unfold COVE_POLICY_V3; lia|cbn; unfold COVE_POLICY_V3; lia|done|done].
    by injection Ep. }
  assert (sha256 (stateV2_preimage b) = sha256 (stateV2_preimage b') → s = s' ∨ state_clash s s') as St.
  { intros E. apply valid_encodable in V, V'.
    destruct (decide (b = b')) as [->|Ne].
    - left. rewrite serializeStateV2_Ok in Hb, Hb' by done. assert (stateV2_bytes s = stateV2_bytes s') as Eb by congruence.
      pose proof (deserializeStateV2_bytes s V) as D. rewrite Eb in D.
      rewrite deserializeStateV2_bytes in D by done. by injection D as ->.
    - right. exists b, b'. split_and!; try done. split; [|done]. unfold stateV2_preimage.
      intros Eb. by do 2 apply app_inv_head in Eb. }
  split.
  - intros [<-|<-]; [destruct (G _ _ _ _ _ Hc Hc') as [[_ E]|?]|destruct (G _ _ _ _ _ Hd Hd') as [[_ E]|?]];
      try (unfold OP_MINT, OP_REDEEM; lia); try (by right; right); destruct (St E); auto.
  - intros <-. destruct (G _ _ _ _ _ Hc Hd') as [[E _]|?]; try (unfold OP_MINT, OP_REDEEM; lia); done.
Qed.
End Policies.

(** ** A concrete instance, for the examples *)
Definition toy_hash (l : list byte) : list byte :=
  zeros 30 ++ be_bytes 2 (foldl (λ a b, (a * 263 + u8 b + 1) `mod` 65521) 7 l).
Definition toy_compile (ops : list script_chunk) : list byte :=
  ops ≫= λ o, match o with Opcode z => [to_byte z] | Push d => to_byte (blen d) :: d end.

#[local] Instance toy_crypto : Crypto := {|
  sha256 := toy_hash;
  isXOnlyPoint k := true;
  xOnlyPointAddTweak k t := Some (toy_hash (k ++ t), 1);
  script_compile := toy_compile;
  script_number_encode z := [to_byte z];
  toBech32 k n := toHex k;
|}.

Definition toy_key (z : Z) : list byte := zeros 31 ++ [to_byte z].

Definition toy_vault (s : CoveStateV2) : result CoveVaultV3 :=
  buildBackingVaultV3 s (toy_key 5) (toy_key 6) None (Some NetRegtest).

Definition get_ok {A} (d : A) (m : result A) : A := match m with Ok a => a | Throw _ => d end.

Definition example_profile : VaultRecoveryProfile :=
  {| profileVersion := MAINNET1; recoveryCsvBlocks := 4032; recoveryThreshold := 2;
     recoveryPubkeys := [toy_key 30; toy_key 20; toy_key 10] |}.

Definition no_leaf : CoveVaultLeaf := {| leaf_script := []; leaf_tapleafHash := [] |}.
Definition no_vault : CoveVault := {|
  v1_numsKey := []; v1_executionLeaf := no_leaf; v1_recoveryLeaf := no_leaf; v1_merkleRoot := [];
  v1_outputKey := []; v1_outputParity := 0; v1_scriptPubKey := []; v1_address := "";
  v1_executionControlBlock := []; v1_recoveryControlBlock := [] |}.
Definition no_vault3 : CoveVaultV3 := {|
  v3_numsKey := []; v3_mintLeaf := no_leaf; v3_redeemLeaf := no_leaf; v3_recoveryLeaf := no_leaf;
  v3_merkleRoot := []; v3_outputKey := []; v3_outputParity := 0; v3_scriptPubKey := []; v3_address := "";
  v3_mintControlBlock := []; v3_redeemControlBlock := []; v3_recoveryControlBlock := [] |}.

Lemma vaultV3_leaves_spendable_witness :
  let v := get_ok no_vault3 (buildCoveVaultV3 (toy_key 1) (toy_key 2) (toy_key 5) (toy_key 6)
             (Some example_profile) (Some NetRegtest)) in
  opens (v3_numsKey v) (v3_merkleRoot v) (v3_outputKey v) (v3_outputParity v)
    (v3_recoveryLeaf v) (v3_recoveryControlBlock v).
Proof.
  intros v.
  refine (proj2 (proj2 (proj2 (proj2 (vaultV3_leaves_spendable (toy_key 1) (toy_key 2) (toy_key 5)
    (toy_key 6) (Some example_profile) (Some NetRegtest) v _ _))))).
  - vm_compute. reflexivity.
  - apply (bool_decide_unpack _). vm_compute. reflexivity.
Defined.

Lemma vaultV1_leaves_spendable_witness :
  let v := get_ok no_vault (buildCoveVault (toy_key 1) (toy_key 2) (toy_key 3) None) in
  opens (v1_numsKey v) (v1_merkleRoot v) (v1_outputKey v) (v1_outputParity v)
    (v1_recoveryLeaf v) (v1_recoveryControlBlock v).
Proof.
  intros v. refine (proj2 (proj2 (proj2 (vaultV1_leaves_spendable (toy_key 1) (toy_key 2) (toy_key 3)
    None v _)))). vm_compute. reflexivity.
Defined.

Lemma recovery_leaf_order_independent_witness :
  buildThresholdRecoveryLeaf 4032 2 [toy_key 30; toy_key 20; toy_key 10]
  = buildThresholdRecoveryLeaf 4032 2 [toy_key 10; toy_key 30; toy_key 20].
Proof.
  refine (recovery_leaf_order_independent 4032 2 _ _ _ _); [|vm_compute; reflexivity].
  apply (bool_decide_unpack _). vm_compute. reflexivity.
Defined.

Lemma recovery_witness_exact_threshold_witness :
  let keys := [toy_key 30; toy_key 20; toy_key 10] in
  let sigs : gmap string (list byte) :=
    {[ toHex (toy_key 10) := [x01]; toHex (toy_key 20) := [x02]; toHex (toy_key 30) := [x03] ]} in
  is_ok (buildThresholdRecoveryWitness keys sigs 2) = true ↔ 2 ≤ Z.of_nat (length (signers keys sigs)).
Proof.
  intros keys sigs. refine (proj1 (recovery_witness_exact_threshold keys sigs 2 _ _ _)); [|lia|].
  - split; apply (bool_decide_unpack _); vm_compute; reflexivity.
  - intros k s Hk.
    assert (map_Forall (λ _ s, s ≠ []) sigs) as Hs by (apply (bool_decide_unpack _); vm_compute; reflexivity).
    exact (Hs k s Hk).
Defined.

Definition example_policy : PolicyIdentity :=
  state_policy OP_MINT "7fb27adf2db5458882daf976ba9325815f111b2f3b16eedb72e75f96de4269b2"
    (state_at example_id 5) (toy_key 9).

Lemma policyIdentity_binds_witness :
  example_policy = example_policy ∨ clash sha256 (policy_preimage example_policy) (policy_preimage example_policy).
Proof.
  refine (policyIdentity_binds example_policy example_policy (get_ok [] (policyIdentityHash example_policy))
    _ _ _ _ _ _); vm_compute; try reflexivity; split; discriminate.
Defined.

Lemma backing_policies_bind_witness :
  let s := state_at example_id 5 in
  let m := fst (get_ok ([], []) (backingPolicies s)) in
  s = s ∨ state_clash s s ∨ ∃ p q, clash sha256 (policy_preimage p) (policy_preimage q).
Proof.
  intros s m.
  refine (proj1 (backing_policies_bind s s m (snd (get_ok ([], []) (backingPolicies s))) m
    (snd (get_ok ([], []) (backingPolicies s))) _ _ _ _) (or_introl eq_refl)).
  1-2: vm_compute; reflexivity.
  all: apply validateStateV2_state_at; [by split|unfold MAX_LOTS; lia].
Defined.
