(* ===== verification/Indexer.v ===== *)
(** * The canonical indexer: packages/cove-indexer/src/v3

    [types.ts], [constants.ts], [parser.ts], [root.ts] and [state.ts]: parsing
    of a block's transactions, the state machine with its undo journal and the
    state root.

    The maps of the source are finite maps: the only loops over a [Map] are
    [getBackingStateByOutpoint] and the state root, which takes the values in
    some order and sorts them.  Objects are immutable values: the source never
    writes into an object that a map, an event or an undo record holds. *)
From S2P Require Import Prelude Bytes Curve Economics Wire Covenant Vault.

(** ** Third-party operations *)

(** What the program reads of a [bitcoin.Transaction]. *)
Record TxIn := { in_hash : list byte; in_index : Z }.
Record TxOut := { txo_script : list byte; txo_value : Z }.
Record Tx := { tx_ins : list TxIn; tx_outs : list TxOut }.

Class Bitcoin := {
  (** [bitcoin.Transaction.fromHex], which throws on malformed text *)
  tx_fromHex : string → option Tx;
  (** [tx.getId()]: the 64 hex digits of the transaction hash *)
  getId : Tx → string;
  getId_length tx : String.length (getId tx) = 64%nat;
}.

(** [l.sort((a, b) => key(a).localeCompare(key(b)))]: some permutation. *)
Class Locale := {
  sort_by_locale {A : Type} : (A → string) → list A → list A;
  sort_by_locale_perm {A : Type} (key : A → string) (l : list A) : sort_by_locale key l ≡ₚ l;
}.

(** ** types.ts *)
Record OutPoint := { op_txid : string; op_vout : Z }.

Record V3TokenMeta := {
  tm_tokenId : string;
  tm_ticker : string;
  tm_policyVersion : Z;
  tm_tokenNonce : string;
  tm_deployTxid : string;
  tm_deployHeight : Z;
  tm_deployBlockHash : string;
  tm_creatorScript : string;
}.

Record V3Backing := {
  bk_tokenId : string;
  bk_state : CoveStateV2;
  bk_stateHash : string;
  bk_outpoint : OutPoint;
  bk_scriptPubKey : string;
  bk_btcValue : Z;
  bk_updatedTxid : string;
  bk_updatedHeight : Z;
  bk_updatedBlockHash : string;
}.

Record V3TokenUtxo := {
  tu_txid : string;
  tu_vout : Z;
  tu_tokenId : string;
  tu_amountAtoms : Z;
  tu_scriptPubKey : string;
  tu_createdHeight : Z;
  tu_createdBlockHash : string;
}.

Inductive V3Operation := DEPLOY | MINT | TRANSFER | REDEEM.

Record V3CurveTrade := {
  ct_amountAtoms : Z;
  ct_grossSats : Z;
  ct_protocolFeeSats : Z;
  ct_supplyAfterAtoms : Z;
  ct_backingAfterSats : Z;
}.

Record V3Event := {
  ev_txid : string;
  ev_blockHeight : Z;
  ev_blockHash : string;
  ev_txIndex : Z;
  ev_operation : option V3Operation;
  ev_valid : bool;
  ev_reason : option string;
  ev_tokenId : option string;
  ev_curve : option V3CurveTrade;
}.

Inductive V3Network := Regtest | Signet | Testnet | Mainnet.
#[export] Instance V3Network_eq_dec : EqDecision V3Network.
Proof. solve_decision. Defined.

Record V3Cursor := {
  cur_network : V3Network;
  cur_height : Z;
  cur_blockHash : string;
  cur_stateRoot : string;
}.

Record V3BlockInput := {
  blk_height : Z;
  blk_hash : string;
  blk_parentHash : string;
  blk_txs : list string;
}.

Record V3IndexerConfig := {
  cfg_network : V3Network;
  cfg_chainIdentity : string;
  cfg_guardianXOnly : list byte;
  cfg_recoveryKeyXOnly : list byte;
  cfg_recoveryProfile : option VaultRecoveryProfile;
  cfg_feeScript : list byte;
  cfg_genesisHeight : Z;
  cfg_buyFeeBps : option Z;
  cfg_buyFeeFlatSats : option Z;
  cfg_creatorFeeBps : option Z;
  cfg_redeemFeeBps : option Z;
  cfg_redeemFeeFlatSats : option Z;
}.

Inductive UndoOp :=
  | UndoDeploy (tokenId : string)
  | UndoMint (tokenId : string) (priorBacking : V3Backing) (createdUtxo : V3TokenUtxo)
  | UndoRedeem (tokenId spendingTxid : string) (priorBacking : V3Backing)
      (spentUtxos createdUtxos : list V3TokenUtxo)
  | UndoTransfer (spendingTxid : string) (spentUtxos createdUtxos : list V3TokenUtxo)
  | UndoBurn (spendingTxid : string) (spentUtxos : list V3TokenUtxo).

Record BlockUndo := { bu_height : Z; bu_blockHash : string; bu_ops : list UndoOp }.

(** ** constants.ts *)
Definition INDEXER_RESERVE_ANCHOR_SATS : Z := 10000.

(** ** parser.ts *)
Inductive ParsedCoveTx :=
  | NonCove
  | InvalidCove (reason : string)
  | Cove (envelope : ParsedEnvelopeV2).

Section Parser.
Context {B : Bitcoin}.

Definition bad_tx_hex : exn := js_error "invalid transaction".

Definition parseCoveTx (rawHex : string) : ParsedCoveTx :=
  match tx_fromHex rawHex with
  | None => InvalidCove "BAD_TX"
  | Some tx =>
      match tx_outs tx !! 0%nat with
      | None => NonCove
      | Some out0 =>
          let script := txo_script out0 in
          if (blen script <? 2) || negb (bool_decide (byte_at script 0 = Some 0x6a)) then NonCove
          else
            let len := default 0 (byte_at script 1) in
            if negb (blen script =? 2 + len) then InvalidCove "BAD_OP_RETURN_LENGTH"
            else
              let payload := subarray script 2 (blen script) in
              if (blen payload <? 4) || negb (readUInt16BE0 payload =? COVE_WIRE_MAGIC) then NonCove
              else match decodeV2 payload with
                   | Ok envelope => Cove envelope
                   | Throw e => InvalidCove (default "MALFORMED_WIRE"%string (exn_code e))
                   end
      end
  end.

Definition txidOf (rawHex : string) : result string :=
  tx ← of_option bad_tx_hex (tx_fromHex rawHex); Ok (getId tx).
End Parser.

(** ** root.ts *)
Definition V3_STATE_ROOT_DOMAIN : string := "Cove/IndexerState/v3".

Definition outpointKey (txid : string) (vout : Z) : string := txid +:+ ":" +:+ pretty vout.

Definition line (parts : list string) : string := String.concat "|" parts.

Definition newline : string := String (ascii_of_nat 10) "".

Definition string_leP (a b : string) : Prop := bytes_leP (utf8 a) (utf8 b).
#[export] Instance string_leP_dec : RelDecision string_leP.
Proof. unfold RelDecision, string_leP. intros. apply _. Defined.

(** [lines.sort()]: by code units, which on the ASCII text of the lines is the
    order of the bytes. *)
Definition sort_strings (l : list string) : list string := merge_sort string_leP l.

Definition token_line (t : V3TokenMeta) : string :=
  line ["TOKEN"%string; tm_tokenId t; tm_ticker t; pretty (tm_policyVersion t); tm_tokenNonce t;
        tm_deployTxid t; pretty (tm_deployHeight t); tm_creatorScript t].
Definition backing_line (b : V3Backing) : string :=
  line ["BACKING"%string; bk_tokenId b; bk_stateHash b; op_txid (bk_outpoint b);
        pretty (op_vout (bk_outpoint b)); pretty (bk_btcValue b)].
Definition utxo_line (u : V3TokenUtxo) : string :=
  line ["UTXO"%string; tu_txid u; pretty (tu_vout u); tu_tokenId u; pretty (tu_amountAtoms u);
        tu_scriptPubKey u].

Section Root.
Context {C : Crypto} {L : Locale}.

(** The three arguments are the [values()] of the maps. *)
Definition computeStateRoot (tokens : list V3TokenMeta) (backing : list V3Backing)
    (tokenUtxos : list V3TokenUtxo) : string :=
  let tokenLines := token_line <$> sort_by_locale tm_tokenId tokens in
  let backingLines := backing_line <$> sort_by_locale bk_tokenId backing in
  let utxoLines :=
    utxo_line <$> sort_by_locale (λ u, outpointKey (tu_txid u) (tu_vout u)) tokenUtxos in
  let body := String.concat newline (sort_strings (tokenLines ++ backingLines ++ utxoLines)) in
  toHex (sha256 (utf8 V3_STATE_ROOT_DOMAIN ++ utf8 newline ++ utf8 body)).
End Root.

(** ** state.ts: the state *)
Record V3IndexerState := {
  tokens : gmap string V3TokenMeta;
  backing : gmap string V3Backing;
  tokenUtxos : gmap string V3TokenUtxo;
  events : list V3Event;
  undoByHeight : gmap Z BlockUndo;
  cursor : V3Cursor;
}.

Definition isStandardCarrier (script : list byte) : bool := isP2TR script || isP2WPKH script.

Record ApplyResult := {
  ar_op : option V3Operation;
  ar_valid : bool;
  ar_reason : option string;
  ar_tokenId : option string;
  ar_undo : option UndoOp;
  ar_curve : option V3CurveTrade;
}.

(** [{ op, valid: false, reason, tokenId, undo: null }] *)
Definition rejected (op : V3Operation) (reason : string) (tokenId : option string) : ApplyResult :=
  {| ar_op := Some op; ar_valid := false; ar_reason := Some reason; ar_tokenId := tokenId;
     ar_undo := None; ar_curve := None |}.

(** [out && p(out)] *)
Definition out_is (o : option TxOut) (p : TxOut → bool) : bool :=
  match o with Some x => p x | None => false end.

Definition carrier_out (o : TxOut) : bool :=
  (txo_value o =? TOKEN_CARRIER_SATS) && isStandardCarrier (txo_script o).

Definition in_txid (i : TxIn) : string := toHex (reverse (in_hash i)).
Definition in_key (i : TxIn) : string := outpointKey (in_txid i) (in_index i).

Section State.
Context {C : Crypto} {B : Bitcoin} {L : Locale}.
Context (config : V3IndexerConfig).

Definition stateRoot (st : V3IndexerState) : string :=
  computeStateRoot (map_to_list (tokens st)).*2 (map_to_list (backing st)).*2
    (map_to_list (tokenUtxos st)).*2.

Definition with_cursor (st : V3IndexerState) (height : Z) (hash : string) : V3IndexerState :=
  {| tokens := tokens st; backing := backing st; tokenUtxos := tokenUtxos st; events := events st;
     undoByHeight := undoByHeight st;
     cursor := {| cur_network := cfg_network config; cur_height := height; cur_blockHash := hash;
                  cur_stateRoot := stateRoot st |} |}.

Definition with_tables (st : V3IndexerState) (t : gmap string V3TokenMeta) (b : gmap string V3Backing)
    (u : gmap string V3TokenUtxo) : V3IndexerState :=
  {| tokens := t; backing := b; tokenUtxos := u; events := events st;
     undoByHeight := undoByHeight st; cursor := cursor st |}.

(** [new V3IndexerState(config)] *)
Definition new_state : V3IndexerState :=
  with_cursor {| tokens := ∅; backing := ∅; tokenUtxos := ∅; events := []; undoByHeight := ∅;
                 cursor := {| cur_network := cfg_network config; cur_height := 0; cur_blockHash := "";
                              cur_stateRoot := "" |} |} 0 "".

(** *** The view the Guardian reads *)
Definition getBackingStateByOutpoint (st : V3IndexerState) (o : OutPoint) : option CoveStateV2 :=
  bk_state <$> head (filter (λ b, op_txid (bk_outpoint b) = op_txid o ∧ op_vout (bk_outpoint b) = op_vout o)
                       (map_to_list (backing st)).*2).
Definition getCurrentBackingState (st : V3IndexerState) (tokenId : list byte) : option CoveStateV2 :=
  bk_state <$> backing st !! toHex tokenId.
Definition getBackingOutpoint (st : V3IndexerState) (tokenId : list byte) : option OutPoint :=
  bk_outpoint <$> backing st !! toHex tokenId.
Definition getTokenCreatorScript (st : V3IndexerState) (tokenId : list byte) : option (list byte) :=
  match tm_creatorScript <$> tokens st !! toHex tokenId with
  | None | Some EmptyString => None
  | Some c => Some (fromHex c)
  end.

Record TokenUtxo := {
  vu_outpoint : OutPoint; vu_tokenId : list byte; vu_amountAtoms : Z; vu_scriptPubKey : list byte
}.
Definition getTokenUtxo (st : V3IndexerState) (o : OutPoint) : option TokenUtxo :=
  u ← tokenUtxos st !! outpointKey (op_txid o) (op_vout o);
  Some {| vu_outpoint := {| op_txid := tu_txid u; op_vout := tu_vout u |};
          vu_tokenId := fromHex (tu_tokenId u); vu_amountAtoms := tu_amountAtoms u;
          vu_scriptPubKey := fromHex (tu_scriptPubKey u) |}.

Definition bitcoinNetwork : btc_network :=
  match cfg_network config with
  | Regtest => NetRegtest
  | Mainnet => NetBitcoin
  | _ => NetTestnet
  end.

Definition vault_script (s : CoveStateV2) : result (list byte) :=
  v ← buildBackingVaultV3 s (cfg_guardianXOnly config) (cfg_recoveryKeyXOnly config)
        (cfg_recoveryProfile config) (Some bitcoinNetwork);
  Ok (v3_scriptPubKey v).

(** *** The four operations

    Each returns its result and the state after it; the source writes to the
    maps only after its last check, so a throw leaves the state as it was. *)
Definition applyDeploy (st : V3IndexerState) (txid rawHex : string) (pv : Z) (ticker : string)
    (tokenNonce : list byte) (block : V3BlockInput) : result (ApplyResult * V3IndexerState) :=
  tx ← of_option bad_tx_hex (tx_fromHex rawHex);
  match tx_outs tx !! 2%nat with
  | None => Ok (rejected DEPLOY "CREATOR_OUTPUT_MISSING" None, st)
  | Some creatorOut =>
  if negb (txo_value creatorOut =? CREATOR_RECORD_SATS) || negb (isCreatorScript (txo_script creatorOut))
  then Ok (rejected DEPLOY "CREATOR_OUTPUT_MISSING" None, st)
  else
  tokenId ← computeTokenId sha256
    {| chainIdentity := cfg_chainIdentity config; policyVersion := pv; Wire.ticker := ticker;
       Wire.tokenNonce := tokenNonce; creatorScript := txo_script creatorOut |};
  let tokenIdHex := toHex tokenId in
  if bool_decide (is_Some (tokens st !! tokenIdHex))
  then Ok (rejected DEPLOY "DUPLICATE_TOKEN_ID" (Some tokenIdHex), st)
  else
  s0 ← s0StateV2 tokenIdHex;
  script ← vault_script s0;
  if negb (out_is (tx_outs tx !! 1%nat) (λ o, bytes_eqb (txo_script o) script))
  then Ok (rejected DEPLOY "S0_VAULT_MISMATCH" (Some tokenIdHex), st)
  else if negb (out_is (tx_outs tx !! 1%nat) (λ o, txo_value o =? INDEXER_RESERVE_ANCHOR_SATS))
  then Ok (rejected DEPLOY "S0_ANCHOR_MISMATCH" (Some tokenIdHex), st)
  else
  let meta := {| tm_tokenId := tokenIdHex; tm_ticker := ticker; tm_policyVersion := pv;
                 tm_tokenNonce := toHex tokenNonce; tm_deployTxid := txid;
                 tm_deployHeight := blk_height block; tm_deployBlockHash := blk_hash block;
                 tm_creatorScript := toHex (txo_script creatorOut) |} in
  stateHash ← stateHashV2 sha256 s0;
  let b := {| bk_tokenId := tokenIdHex; bk_state := s0; bk_stateHash := stateHash;
              bk_outpoint := {| op_txid := txid; op_vout := 1 |}; bk_scriptPubKey := toHex script;
              bk_btcValue := INDEXER_RESERVE_ANCHOR_SATS; bk_updatedTxid := txid;
              bk_updatedHeight := blk_height block; bk_updatedBlockHash := blk_hash block |} in
  Ok ({| ar_op := Some DEPLOY; ar_valid := true; ar_reason := None; ar_tokenId := Some tokenIdHex;
         ar_undo := Some (UndoDeploy tokenIdHex); ar_curve := None |},
      with_tables st (<[tokenIdHex := meta]> (tokens st)) (<[tokenIdHex := b]> (backing st)) (tokenUtxos st))
  end.

(** The backing record of a successor state. *)
Definition next_backing (tokenIdHex : string) (nextState : CoveStateV2) (stateHash : string)
    (script : list byte) (txid : string) (block : V3BlockInput) : V3Backing :=
  {| bk_tokenId := tokenIdHex; bk_state := nextState; bk_stateHash := stateHash;
     bk_outpoint := {| op_txid := txid; op_vout := 1 |}; bk_scriptPubKey := toHex script;
     bk_btcValue := INDEXER_RESERVE_ANCHOR_SATS + backingSats nextState;
     bk_updatedTxid := txid; bk_updatedHeight := blk_height block; bk_updatedBlockHash := blk_hash block |}.

Definition spends_backing (tx : Tx) (b : V3Backing) : option bool :=
  (λ i, String.eqb (in_txid i) (op_txid (bk_outpoint b)) && (in_index i =? op_vout (bk_outpoint b)))
    <$> tx_ins tx !! 0%nat.

Definition applyMint (st : V3IndexerState) (txid rawHex : string) (tokenId : list byte)
    (amount recipientVout : Z) (block : V3BlockInput) : result (ApplyResult * V3IndexerState) :=
  let tokenIdHex := toHex tokenId in
  let no reason := Ok (rejected MINT reason (Some tokenIdHex), st) in
  match tokens st !! tokenIdHex, backing st !! tokenIdHex with
  | Some meta, Some priorBacking =>
  tx ← of_option bad_tx_hex (tx_fromHex rawHex);
  match spends_backing tx priorBacking with
  | None => no "BAD_TX"%string
  | Some false => no "STALE_BACKING"%string
  | Some true =>
  match applyMintV2 (bk_state priorBacking) amount with
  | Throw e => no ("REFERENCE_REJECTED: " +:+ exn_message e)
  | Ok canonical =>
  let nextState := nextState canonical in
  let grossSats := grossSats canonical in
  feeSats ← mintFeeSats grossSats amount (default (buyFeeBps COVE_FEE_CONFIG) (cfg_buyFeeBps config))
    (default (buyFeeFlatSats COVE_FEE_CONFIG) (cfg_buyFeeFlatSats config)) (buyFeeLotSats COVE_FEE_CONFIG);
  script ← vault_script nextState;
  if negb (out_is (tx_outs tx !! 1%nat) (λ o, bytes_eqb (txo_script o) script))
  then no "SUCCESSOR_VAULT_MISMATCH"%string
  else if negb (out_is (tx_outs tx !! 1%nat)
                  (λ o, txo_value o =? INDEXER_RESERVE_ANCHOR_SATS + backingSats nextState))
  then no "SUCCESSOR_VALUE_MISMATCH"%string
  else if negb (recipientVout =? 2) then no "CARRIER_VOUT_MISMATCH"%string
  else match tx_outs tx !! 2%nat with
  | None => no "CARRIER_MISMATCH"%string
  | Some carrier =>
  if negb (carrier_out carrier) then no "CARRIER_MISMATCH"%string
  else if negb (out_is (tx_outs tx !! 3%nat)
                  (λ o, (txo_value o =? feeSats) && bytes_eqb (txo_script o) (cfg_feeScript config)))
  then no "FEE_MISMATCH"%string
  else
  match tx_outs tx !! 4%nat with
  | None => no "CREATOR_FEE_MISMATCH"%string
  | Some creatorOut =>
  creatorFee ← creatorFeeSats grossSats
    (default (creatorFeeBps COVE_FEE_CONFIG) (cfg_creatorFeeBps config));
  if negb (txo_value creatorOut =? creatorFee)
     || negb (String.eqb (toHex (txo_script creatorOut)) (tm_creatorScript meta))
  then no "CREATOR_FEE_MISMATCH"%string
  else
  stateHash ← stateHashV2 sha256 nextState;
  let createdUtxo := {| tu_txid := txid; tu_vout := 2; tu_tokenId := tokenIdHex;
                        tu_amountAtoms := amount; tu_scriptPubKey := toHex (txo_script carrier);
                        tu_createdHeight := blk_height block; tu_createdBlockHash := blk_hash block |} in
  Ok ({| ar_op := Some MINT; ar_valid := true; ar_reason := None; ar_tokenId := Some tokenIdHex;
         ar_undo := Some (UndoMint tokenIdHex priorBacking createdUtxo);
         ar_curve := Some {| ct_amountAtoms := amount; ct_grossSats := grossSats;
           ct_protocolFeeSats := feeSats; ct_supplyAfterAtoms := issuedPublicSupplyAtoms nextState;
           ct_backingAfterSats := backingSats nextState |} |},
      with_tables st (tokens st)
        (<[tokenIdHex := next_backing tokenIdHex nextState stateHash script txid block]> (backing st))
        (<[outpointKey txid 2 := createdUtxo]> (tokenUtxos st)))
  end end end end
  | _, _ => no "UNKNOWN_TOKEN"%string
  end.

(** The token inputs of a transaction, or why they do not fit the token. *)
Fixpoint resolve_inputs (utxos : gmap string V3TokenUtxo) (ins : list TxIn) (tokenIdHex : string)
    (spent : list V3TokenUtxo) : list V3TokenUtxo + string :=
  match ins with
  | [] => inl spent
  | i :: rest =>
      match utxos !! in_key i with
      | None => resolve_inputs utxos rest tokenIdHex spent
      | Some u =>
          if negb (String.eqb (tu_tokenId u) tokenIdHex) then inr "MIXED_TOKEN_INPUT"%string
          else resolve_inputs utxos rest tokenIdHex (spent ++ [u])
      end
  end.

Definition resolveTokenInputs (st : V3IndexerState) (tx : Tx) (tokenIdHex : string)
    : list V3TokenUtxo + string :=
  match resolve_inputs (tokenUtxos st) (tx_ins tx) tokenIdHex [] with
  | inr reason => inr reason
  | inl [] => inr "FORGED_TOKEN_INPUT"%string
  | inl spent => inl spent
  end.

Definition utxo_key (u : V3TokenUtxo) : string := outpointKey (tu_txid u) (tu_vout u).

(** [for (const u of us) this.tokenUtxos.delete(outpointKey(u.txid, u.vout))] *)
Definition delete_utxos (us : list V3TokenUtxo) (m : gmap string V3TokenUtxo) : gmap string V3TokenUtxo :=
  foldl (λ m u, delete (utxo_key u) m) m us.
(** [for (const u of us) this.tokenUtxos.set(outpointKey(u.txid, u.vout), u)] *)
Definition set_utxos (us : list V3TokenUtxo) (m : gmap string V3TokenUtxo) : gmap string V3TokenUtxo :=
  foldl (λ m u, <[utxo_key u := u]> m) m us.

Definition sum_utxos (us : list V3TokenUtxo) : Z := foldl (λ s u, s + tu_amountAtoms u) 0 us.
Definition sum_allocations (l : list TokenAllocation) : Z := foldl (λ s a, s + amount a) 0 l.

(** The carriers of a transfer, or the first allocation that has none. *)
Fixpoint transfer_outputs (tx : Tx) (l : list TokenAllocation) (txid tokenIdHex : string)
    (block : V3BlockInput) (created : list V3TokenUtxo) : list V3TokenUtxo + string :=
  match l with
  | [] => inl created
  | a :: rest =>
      match (if vout a <? 0 then None else tx_outs tx !! Z.to_nat (vout a)) with
      | None => inr "ALLOCATION_VOUT_MISSING"%string
      | Some out =>
          if negb (carrier_out out) then inr "CARRIER_MISMATCH"%string
          else transfer_outputs tx rest txid tokenIdHex block
                 (created ++ [{| tu_txid := txid; tu_vout := vout a; tu_tokenId := tokenIdHex;
                                 tu_amountAtoms := amount a; tu_scriptPubKey := toHex (txo_script out);
                                 tu_createdHeight := blk_height block;
                                 tu_createdBlockHash := blk_hash block |}])
      end
  end.

Definition applyTransfer (st : V3IndexerState) (txid rawHex : string) (tokenId : list byte)
    (allocations : list TokenAllocation) (block : V3BlockInput) : result (ApplyResult * V3IndexerState) :=
  let tokenIdHex := toHex tokenId in
  let no reason := Ok (rejected TRANSFER reason (Some tokenIdHex), st) in
  if negb (bool_decide (is_Some (tokens st !! tokenIdHex))) then no "UNKNOWN_TOKEN"%string
  else
  tx ← of_option bad_tx_hex (tx_fromHex rawHex);
  match resolveTokenInputs st tx tokenIdHex with
  | inr reason => no reason
  | inl spentUtxos =>
  let inSum := sum_utxos spentUtxos in
  let outSum := sum_allocations allocations in
  if negb (inSum =? outSum)
  then no ("TOKEN_CONSERVATION: in=" +:+ pretty inSum +:+ " out=" +:+ pretty outSum)
  else
  match transfer_outputs tx allocations txid tokenIdHex block [] with
  | inr reason => no reason
  | inl createdUtxos =>
  Ok ({| ar_op := Some TRANSFER; ar_valid := true; ar_reason := None; ar_tokenId := Some tokenIdHex;
         ar_undo := Some (UndoTransfer txid spentUtxos createdUtxos); ar_curve := None |},
      with_tables st (tokens st) (backing st)
        (set_utxos createdUtxos (delete_utxos spentUtxos (tokenUtxos st))))
  end end.

(** The change carrier of a redemption: output 4, if there is change. *)
Definition redeem_change (tx : Tx) (change : list TokenAllocation) (changeAtoms : Z)
    (txid tokenIdHex : string) (block : V3BlockInput) : list V3TokenUtxo + string :=
  if 0 <? changeAtoms then
    match tx_outs tx !! 4%nat with
    | None => inr "CHANGE_CARRIER_MISMATCH"%string
    | Some changeOut =>
        if negb (carrier_out changeOut) then inr "CHANGE_CARRIER_MISMATCH"%string
        else match change with
        | [a] =>
            if negb (vout a =? 4) || negb (amount a =? changeAtoms) then inr "TOKEN_CHANGE_MISMATCH"%string
            else inl [{| tu_txid := txid; tu_vout := 4; tu_tokenId := tokenIdHex;
                         tu_amountAtoms := changeAtoms; tu_scriptPubKey := toHex (txo_script changeOut);
                         tu_createdHeight := blk_height block; tu_createdBlockHash := blk_hash block |}]
        | _ => inr "TOKEN_CHANGE_MISMATCH"%string
        end
    end
  else if negb (length change =? 0)%nat then inr "TOKEN_INFLATION"%string
  else inl [].

Definition applyRedeem (st : V3IndexerState) (txid rawHex : string) (tokenId : list byte)
    (redeemAmount : Z) (changeAllocations : list TokenAllocation) (block : V3BlockInput)
    : result (ApplyResult * V3IndexerState) :=
  let tokenIdHex := toHex tokenId in
  let no reason := Ok (rejected REDEEM reason (Some tokenIdHex), st) in
  match tokens st !! tokenIdHex, backing st !! tokenIdHex with
  | Some meta, Some priorBacking =>
  tx ← of_option bad_tx_hex (tx_fromHex rawHex);
  match spends_backing tx priorBacking with
  | None => no "BAD_TX"%string
  | Some false => no "STALE_BACKING"%string
  | Some true =>
  match resolveTokenInputs st tx tokenIdHex with
  | inr reason => no reason
  | inl spentUtxos =>
  let changeAtoms := sum_utxos spentUtxos - redeemAmount in
  if changeAtoms <? 0 then no "INSUFFICIENT_OWNERSHIP"%string
  else if negb (sum_allocations changeAllocations =? changeAtoms) then no "TOKEN_CHANGE_MISMATCH"%string
  else
  match applyRedeemV2 (bk_state priorBacking) redeemAmount with
  | Throw e => no ("REFERENCE_REJECTED: " +:+ exn_message e)
  | Ok canonical =>
  let nextState := nextState canonical in
  let grossSats := grossSats canonical in
  feeSats ← redeemFeeSats grossSats (default (redeemFeeBps COVE_FEE_CONFIG) (cfg_redeemFeeBps config))
    (default (redeemFeeFlatSats COVE_FEE_CONFIG) (cfg_redeemFeeFlatSats config))
    (redeemFeeMinSats COVE_FEE_CONFIG);
  let netPayoutSats := grossSats - feeSats in
  script ← vault_script nextState;
  if negb (out_is (tx_outs tx !! 1%nat) (λ o, bytes_eqb (txo_script o) script))
  then no "SUCCESSOR_VAULT_MISMATCH"%string
  else if negb (out_is (tx_outs tx !! 1%nat)
                  (λ o, txo_value o =? INDEXER_RESERVE_ANCHOR_SATS + backingSats nextState))
  then no "SUCCESSOR_VALUE_MISMATCH"%string
  else if negb (out_is (tx_outs tx !! 2%nat) (λ o, txo_value o =? netPayoutSats))
  then no "PAYOUT_MISMATCH"%string
  else if negb (out_is (tx_outs tx !! 3%nat)
                  (λ o, (txo_value o =? feeSats) && bytes_eqb (txo_script o) (cfg_feeScript config)))
  then no "FEE_MISMATCH"%string
  else
  match redeem_change tx changeAllocations changeAtoms txid tokenIdHex block with
  | inr reason => no reason
  | inl createdUtxos =>
  stateHash ← stateHashV2 sha256 nextState;
  Ok ({| ar_op := Some REDEEM; ar_valid := true; ar_reason := None; ar_tokenId := Some tokenIdHex;
         ar_undo := Some (UndoRedeem tokenIdHex txid priorBacking spentUtxos createdUtxos);
         ar_curve := Some {| ct_amountAtoms := redeemAmount; ct_grossSats := grossSats;
           ct_protocolFeeSats := feeSats; ct_supplyAfterAtoms := issuedPublicSupplyAtoms nextState;
           ct_backingAfterSats := backingSats nextState |} |},
      with_tables st (tokens st)
        (<[tokenIdHex := next_backing tokenIdHex nextState stateHash script txid block]> (backing st))
        (set_utxos createdUtxos (delete_utxos spentUtxos (tokenUtxos st))))
  end end end end
  | _, _ => no "UNKNOWN_TOKEN"%string
  end.

Definition applyCove (st : V3IndexerState) (txid rawHex : string) (envelope : ParsedEnvelopeV2)
    (block : V3BlockInput) : result (ApplyResult * V3IndexerState) :=
  match envelope with
  | DeployV2 pv ticker nonce => applyDeploy st txid rawHex pv ticker nonce block
  | MintV2 tokenId amount recipientVout => applyMint st txid rawHex tokenId amount recipientVout block
  | TransferV2 tokenId allocations => applyTransfer st txid rawHex tokenId allocations block
  | RedeemV2 tokenId redeemAmount change => applyRedeem st txid rawHex tokenId redeemAmount change block
  end.

(** *** Burns: the live carriers a transaction still spends *)
Fixpoint burn_inputs (ins : list TxIn) (m : gmap string V3TokenUtxo) (spent : list V3TokenUtxo)
    : gmap string V3TokenUtxo * list V3TokenUtxo :=
  match ins with
  | [] => (m, spent)
  | i :: rest =>
      match m !! in_key i with
      | None => burn_inputs rest m spent
      | Some live => burn_inputs rest (delete (in_key i) m) (spent ++ [live])
      end
  end.

Definition burnUnaccountedInputs (st : V3IndexerState) (txid rawHex : string)
    : result (list UndoOp * V3IndexerState) :=
  tx ← of_option bad_tx_hex (tx_fromHex rawHex);
  let '(m, spent) := burn_inputs (tx_ins tx) (tokenUtxos st) [] in
  Ok (if (0 <? length spent)%nat then [UndoBurn txid spent] else [],
      with_tables st (tokens st) (backing st) m).

Definition record (st : V3IndexerState) (e : V3Event) : V3IndexerState :=
  {| tokens := tokens st; backing := backing st; tokenUtxos := tokenUtxos st;
     events := events st ++ [e]; undoByHeight := undoByHeight st; cursor := cursor st |}.

(** *** Blocks *)

(** The body of the loop over the transactions: the undo records it pushes,
    its event, and the state after it. *)
Definition apply_tx (st : V3IndexerState) (block : V3BlockInput) (txIndex : Z) (rawHex : string)
    : result (list UndoOp * list V3Event * V3IndexerState) :=
  txid ← txidOf rawHex;
  match parseCoveTx rawHex with
  | NonCove =>
      '(burn, st) ← burnUnaccountedInputs st txid rawHex;
      Ok (burn, [], st)
  | parsed =>
      '(r, st) ← match parsed with
                 | Cove envelope => applyCove st txid rawHex envelope block
                 | InvalidCove reason =>
                     Ok ({| ar_op := None; ar_valid := false; ar_reason := Some reason;
                            ar_tokenId := None; ar_undo := None; ar_curve := None |}, st)
                 | NonCove => Throw out_of_fuel
                 end;
      '(burn, st) ← burnUnaccountedInputs st txid rawHex;
      let event := {| ev_txid := txid; ev_blockHeight := blk_height block; ev_blockHash := blk_hash block;
                      ev_txIndex := txIndex; ev_operation := ar_op r; ev_valid := ar_valid r;
                      ev_reason := ar_reason r; ev_tokenId := ar_tokenId r; ev_curve := ar_curve r |} in
      let undo := if ar_valid r then option_list (ar_undo r) else [] in
      Ok (undo ++ burn, [event], record st event)
  end.

Fixpoint apply_txs (st : V3IndexerState) (block : V3BlockInput) (txIndex : Z) (txs : list string)
    (ops : list UndoOp) (evs : list V3Event)
    : V3IndexerState * result (list UndoOp * list V3Event) :=
  match txs with
  | [] => (st, Ok (ops, evs))
  | rawHex :: rest =>
      match apply_tx st block txIndex rawHex with
      | Throw e => (st, Throw e)
      | Ok (ops', evs', st') => apply_txs st' block (txIndex + 1) rest (ops ++ ops') (evs ++ evs')
      end
  end.

(** The state after [applyBlock] (also when it throws) and what it returns. *)
Definition applyBlock (st : V3IndexerState) (block : V3BlockInput)
    : V3IndexerState * result (list V3Event) :=
  if blk_height block <? cfg_genesisHeight config then (st, Ok [])
  else
    match apply_txs st block 0 (blk_txs block) [] [] with
    | (st, Throw e) => (st, Throw e)
    | (st, Ok (ops, evs)) =>
        let st := {| tokens := tokens st; backing := backing st; tokenUtxos := tokenUtxos st;
                     events := events st;
                     undoByHeight :=
                       <[blk_height block := {| bu_height := blk_height block;
                           bu_blockHash := blk_hash block; bu_ops := ops |}]> (undoByHeight st);
                     cursor := cursor st |} in
        (with_cursor st (blk_height block) (blk_hash block), Ok evs)
    end.

(** *** Reorganisations *)
Definition undo_op (st : V3IndexerState) (op : UndoOp) : V3IndexerState :=
  match op with
  | UndoDeploy t => with_tables st (delete t (tokens st)) (delete t (backing st)) (tokenUtxos st)
  | UndoMint t prior created =>
      with_tables st (tokens st) (<[t := prior]> (backing st)) (delete (utxo_key created) (tokenUtxos st))
  | UndoRedeem t _ prior spent created =>
      with_tables st (tokens st) (<[t := prior]> (backing st))
        (set_utxos spent (delete_utxos created (tokenUtxos st)))
  | UndoTransfer _ spent created =>
      with_tables st (tokens st) (backing st) (set_utxos spent (delete_utxos created (tokenUtxos st)))
  | UndoBurn _ spent =>
      with_tables st (tokens st) (backing st) (set_utxos spent (tokenUtxos st))
  end.

Definition undoBlock (st : V3IndexerState) (height : Z) : result V3IndexerState :=
  undo ← of_option (js_error ("no undo journal for height " +:+ pretty height)) (undoByHeight st !! height);
  let st := foldl undo_op st (reverse (bu_ops undo)) in
  let st := {| tokens := tokens st; backing := backing st; tokenUtxos := tokenUtxos st;
               events := filter (λ e, ev_blockHeight e ≠ height) (events st);
               undoByHeight := delete height (undoByHeight st); cursor := cursor st |} in
  Ok (match undoByHeight st !! (height - 1) with
      | Some prior => with_cursor st (height - 1) (bu_blockHash prior)
      | None => with_cursor st 0 ""
      end).

(** ** reorg.ts *)

(** What the reorganisation engine asks of Bitcoin Core. *)
Record CoreBlock := { cb_hash : string; cb_previousBlockHash : string; cb_rawTxs : list string }.
Record CoreRpcProvider := {
  getBlockchainInfo : result Z;
  getBlockHash : Z → result string;
  getBlock : string → result CoreBlock;
}.

Record ReorgReport := {
  commonAncestor : Z; orphanedBlocks : list Z; replayedBlocks : list Z; finalRoot : string
}.

(** The walk back to the highest block both chains have. *)
Fixpoint walk_back (fuel : nat) (provider : CoreRpcProvider) (st : V3IndexerState) (ancestor : Z)
    : result Z :=
  if 0 <? ancestor then
    match fuel with
    | O => Throw out_of_fuel
    | S fuel =>
        coreHash ← getBlockHash provider ancestor;
        match undoByHeight st !! ancestor with
        | Some local =>
            if String.eqb (bu_blockHash local) coreHash then Ok ancestor
            else walk_back fuel provider st (ancestor - 1)
        | None => walk_back fuel provider st (ancestor - 1)
        end
    end
  else Ok ancestor.

(** [n] blocks undone from height [h] down. *)
Fixpoint undo_down (n : nat) (st : V3IndexerState) (h : Z) (orphaned : list Z)
    : V3IndexerState * result (list Z) :=
  match n with
  | O => (st, Ok orphaned)
  | S n =>
      match undoBlock st h with
      | Throw e => (st, Throw e)
      | Ok st' => undo_down n st' (h - 1) (orphaned ++ [h])
      end
  end.

(** [n] blocks applied from height [h] up. *)
Fixpoint replay_up (n : nat) (provider : CoreRpcProvider) (st : V3IndexerState) (h : Z) (replayed : list Z)
    : V3IndexerState * result (list Z) :=
  match n with
  | O => (st, Ok replayed)
  | S n =>
      match (hash ← getBlockHash provider h; getBlock provider hash) with
      | Throw e => (st, Throw e)
      | Ok block =>
          match applyBlock st {| blk_height := h; blk_hash := cb_hash block;
                                 blk_parentHash := cb_previousBlockHash block;
                                 blk_txs := cb_rawTxs block |} with
          | (st', Throw e) => (st', Throw e)
          | (st', Ok _) => replay_up n provider st' (h + 1) (replayed ++ [h])
          end
      end
  end.

(** The number of rounds of a loop from [a] up to [b]. *)
Definition rounds (a b : Z) : nat := Z.to_nat (b - a + 1).

Definition reorgToTip (provider : CoreRpcProvider) (st : V3IndexerState)
    : V3IndexerState * result ReorgReport :=
  match getBlockchainInfo provider with
  | Throw e => (st, Throw e)
  | Ok tipHeight =>
      let height := cur_height (cursor st) in
      match walk_back (Z.to_nat height) provider st height with
      | Throw e => (st, Throw e)
      | Ok ancestor =>
          match undo_down (rounds (ancestor + 1) height) st height [] with
          | (st1, Throw e) => (st1, Throw e)
          | (st1, Ok orphaned) =>
              match replay_up (rounds (ancestor + 1) tipHeight) provider st1 (ancestor + 1) [] with
              | (st2, Throw e) => (st2, Throw e)
              | (st2, Ok replayed) =>
                  (st2, Ok {| commonAncestor := ancestor; orphanedBlocks := orphaned;
                              replayedBlocks := replayed; finalRoot := stateRoot st2 |})
              end
          end
      end
  end.
End State.
