(* ===== verification/IndexerInv.v ===== *)
(** * What the indexer guarantees

    The invariant of the state machine of [Indexer], that blocks preserve it,
    the conditions under which each operation is accepted, the burning of stray
    inputs, the undo journal and reorganisations, and the state root. *)
From S2P Require Import Prelude Bytes Curve Economics Wire Covenant Vault Indexer.

(** ** The live supply of a token *)
Definition contrib (t : string) (u : V3TokenUtxo) : Z :=
  if String.eqb (tu_tokenId u) t then tu_amountAtoms u else 0.

Definition live (m : gmap string V3TokenUtxo) (t : string) : Z :=
  map_fold (λ _ u s, contrib t u + s) 0 m.

Lemma live_insert_fresh m k u t :
  m !! k = None → live (<[k := u]> m) t = contrib t u + live m t.
Proof. intros H. unfold live. rewrite map_fold_insert_L; [done| |done]. intros. lia. Qed.

Lemma live_delete m k u t : m !! k = Some u → live m t = contrib t u + live (delete k m) t.
Proof.
  intros H. rewrite <-(live_insert_fresh (delete k m) k) by apply lookup_delete_eq.
  by rewrite insert_delete_id.
Qed.

Definition positive_utxos (m : gmap string V3TokenUtxo) : Prop :=
  ∀ k u, m !! k = Some u → 0 < tu_amountAtoms u.

Lemma contrib_nonneg t u : 0 < tu_amountAtoms u → 0 ≤ contrib t u.
Proof. unfold contrib. destruct String.eqb; lia. Qed.

(** Overwriting a live carrier can only lose tokens. *)
Lemma live_insert_le m k u t :
  positive_utxos m → live (<[k := u]> m) t ≤ contrib t u + live m t.
Proof.
  intros Hpos. destruct (m !! k) as [v|] eqn:E.
  - rewrite <-insert_delete_eq. rewrite live_insert_fresh by apply lookup_delete_eq.
    rewrite (live_delete m k v t E). pose proof (contrib_nonneg t v (Hpos k v E)). lia.
  - by rewrite live_insert_fresh.
Qed.

Lemma live_empty t : live ∅ t = 0.
Proof. done. Qed.

Lemma live_delete_le m k t : positive_utxos m → live (delete k m) t ≤ live m t.
Proof.
  intros Hpos. destruct (m !! k) as [v|] eqn:E; [|by rewrite delete_id].
  rewrite (live_delete m k v t E). pose proof (contrib_nonneg t v (Hpos k v E)). lia.
Qed.

Lemma live_nonneg m t : positive_utxos m → 0 ≤ live m t.
Proof.
  induction m as [|k u m Hk IH] using map_ind; intros Hpos; [done|].
  rewrite live_insert_fresh by done.
  assert (0 ≤ contrib t u) by (eapply contrib_nonneg, Hpos, lookup_insert_eq).
  enough (positive_utxos m) as Hm by (specialize (IH Hm); lia).
  intros k' v Hv. eapply (Hpos k'). rewrite lookup_insert_ne; [done|]. by intros ->; simplify_eq.
Qed.

Lemma live_unknown m t : (∀ k u, m !! k = Some u → tu_tokenId u ≠ t) → live m t = 0.
Proof.
  induction m as [|k u m Hk IH] using map_ind; intros Hne; [done|].
  rewrite live_insert_fresh by done. rewrite IH.
  - unfold contrib. destruct (String.eqb_spec (tu_tokenId u) t) as [Et|]; [|done].
    by destruct (Hne k u (lookup_insert_eq _ _ _)).
  - intros k' v Hv. apply (Hne k'). rewrite lookup_insert_ne; [done|]. by intros ->; simplify_eq.
Qed.

(** ** Carriers spent and created *)
Definition total (t : string) (us : list V3TokenUtxo) : Z := zsum (contrib t <$> us).

Lemma total_one_token t us :
  Forall (λ u, tu_tokenId u = t) us → total t us = zsum (tu_amountAtoms <$> us).
Proof.
  unfold total. induction 1 as [|u us Hu _ IH]; [done|]. cbn. unfold zsum in *. rewrite IH.
  unfold contrib. by rewrite Hu, String.eqb_refl.
Qed.

Lemma total_other_token t t' us :
  Forall (λ u, tu_tokenId u = t) us → t ≠ t' → total t' us = 0.
Proof.
  unfold total. intros H Ht. induction H as [|u us Hu _ IH]; [done|]. cbn. unfold zsum in *. rewrite IH.
  unfold contrib. rewrite Hu. by destruct (String.eqb_spec t t').
Qed.

Lemma lookup_delete_utxos us m k :
  delete_utxos us m !! k = if decide (k ∈ utxo_key <$> us) then None else m !! k.
Proof.
  unfold delete_utxos. revert m. induction us as [|u us IH]; intros m; cbn; [done|].
  rewrite IH. destruct (decide (k = utxo_key u)) as [->|].
  - rewrite lookup_delete_eq. repeat case_decide; try done; set_solver.
  - rewrite lookup_delete_ne by done. repeat case_decide; try done; set_solver.
Qed.

Lemma lookup_set_utxos us m k :
  k ∉ utxo_key <$> us → set_utxos us m !! k = m !! k.
Proof.
  unfold set_utxos. revert m. induction us as [|u us IH]; intros m Hk; cbn; [done|].
  rewrite fmap_cons, not_elem_of_cons in Hk. destruct Hk. rewrite IH by done.
  by rewrite lookup_insert_ne.
Qed.

(** A lookup after setting carriers finds one of them or an old one. *)
Lemma lookup_set_utxos_Some us m k u :
  set_utxos us m !! k = Some u → (u ∈ us ∧ utxo_key u = k) ∨ (m !! k = Some u ∧ k ∉ utxo_key <$> us).
Proof.
  unfold set_utxos. revert m. induction us as [|v us IH]; intros m Hk; cbn in *; [right; set_solver|].
  apply IH in Hk as [[? ?]|[Hk Hni]]; [left; set_solver|].
  destruct (decide (k = utxo_key v)) as [->|].
  - rewrite lookup_insert_eq in Hk. left. set_solver.
  - rewrite lookup_insert_ne in Hk by done. right. set_solver.
Qed.

Definition carriers_in (m : gmap string V3TokenUtxo) (us : list V3TokenUtxo) : Prop :=
  Forall (λ u, m !! utxo_key u = Some u) us.

Lemma live_delete_utxos us m t :
  NoDup (utxo_key <$> us) → carriers_in m us → live (delete_utxos us m) t = live m t - total t us.
Proof.
  unfold carriers_in, total, delete_utxos. revert m.
  induction us as [|u us IH]; intros m Hnd Hin; cbn in *; [lia|].
  apply NoDup_cons in Hnd as [Hni Hnd]. apply Forall_cons in Hin as [Hu Hin].
  rewrite IH; [|done|].
  - rewrite (live_delete m (utxo_key u) u t Hu). unfold zsum. lia.
  - apply Forall_forall. intros v Hv. rewrite Forall_forall in Hin.
    rewrite lookup_delete_ne; [by apply Hin|]. intros E. apply Hni. rewrite E.
    by apply list_elem_of_fmap_2.
Qed.

Lemma live_set_utxos us m t :
  positive_utxos m → Forall (λ u, 0 < tu_amountAtoms u) us →
  live (set_utxos us m) t ≤ live m t + total t us.
Proof.
  unfold total, set_utxos. revert m. induction us as [|u us IH]; intros m Hm Hus; cbn in *; [lia|].
  apply Forall_cons in Hus as [Hu Hus]. etrans; [apply IH; [|done]|].
  - intros k v. rewrite lookup_insert_Some. intros [[_ <-]|[_ ?]]; [done|by eapply Hm].
  - pose proof (live_insert_le m (utxo_key u) u t Hm). unfold zsum in *. lia.
Qed.

(** ** Resolving and burning inputs *)
Lemma resolve_inputs_Ok m ins t acc us :
  resolve_inputs m ins t acc = inl us →
  ∃ new, us = acc ++ new ∧ Forall (λ u, tu_tokenId u = t) new
  ∧ new = omap (λ i, m !! in_key i) ins.
Proof.
  revert acc. induction ins as [|i ins IH]; intros acc; cbn [resolve_inputs omap list_omap].
  - intros [= <-]. exists []. by rewrite app_nil_r.
  - destruct (m !! in_key i) as [u|].
    + destruct (String.eqb_spec (tu_tokenId u) t) as [Et|]; cbn [negb]; [|done].
      intros (new & -> & Hn & ->)%IH. eexists. rewrite <-app_assoc. cbn. by rewrite Forall_cons.
    + intros (new & -> & Hn & ->)%IH. eauto.
Qed.

Definition keyed (m : gmap string V3TokenUtxo) : Prop := ∀ k u, m !! k = Some u → utxo_key u = k.

Lemma keyed_inputs m ins :
  keyed m → carriers_in m (omap (λ i, m !! in_key i) ins).
Proof.
  intros Hk. apply Forall_forall. intros u (i & _ & Hi)%list_elem_of_omap.
  by rewrite (Hk _ _ Hi).
Qed.

Lemma keyed_inputs_NoDup m ins :
  keyed m → NoDup (in_key <$> ins) → NoDup (utxo_key <$> omap (λ i, m !! in_key i) ins).
Proof.
  intros Hk. induction ins as [|i ins IH]; cbn; [constructor|].
  intros [Hni Hnd]%NoDup_cons. destruct (m !! in_key i) as [u|] eqn:Ei; [|by apply IH].
  cbn. apply NoDup_cons. split; [|by apply IH]. rewrite (Hk _ _ Ei).
  intros (v & Ev & (j & Hj & Hv)%list_elem_of_omap)%list_elem_of_fmap.
  apply Hni. rewrite Ev, (Hk _ _ Hv). by apply list_elem_of_fmap_2.
Qed.

Lemma burn_inputs_spec ins m acc m' spent :
  keyed m → burn_inputs ins m acc = (m', spent) →
  ∃ new, spent = acc ++ new ∧ carriers_in m new ∧ m' = delete_utxos new m
  ∧ (∀ i, i ∈ ins → m' !! in_key i = None) ∧ (∀ u, u ∈ new → ∃ i, i ∈ ins ∧ utxo_key u = in_key i).
Proof.
  unfold carriers_in. revert m acc. induction ins as [|i ins IH]; intros m acc Hk; cbn [burn_inputs].
  - intros [= <- <-]. exists []. rewrite app_nil_r. split_and!; try done; set_solver.
  - destruct (m !! in_key i) as [u|] eqn:Ei.
    + pose proof (Hk _ _ Ei) as Eu.
      intros (new & -> & Hin & -> & Hnone & Hsub)%IH.
      2:{ intros k v [_ ?]%lookup_delete_Some. by apply Hk. }
      exists (u :: new). rewrite <-app_assoc. split_and!; [done| | | |].
      * apply Forall_cons. split; [by rewrite Eu|]. eapply Forall_impl; [exact Hin|].
        intros v [_ ?]%lookup_delete_Some. done.
      * unfold delete_utxos. cbn. by rewrite Eu.
      * intros j [->|Hj]%elem_of_cons; [|by apply Hnone].
        rewrite lookup_delete_utxos, lookup_delete_eq. by case_decide.
      * intros v [->|Hv]%elem_of_cons; [exists i; set_solver|].
        destruct (Hsub v Hv) as (j & ? & ?). exists j. set_solver.
    + intros (new & -> & Hin & -> & Hnone & Hsub)%IH; [|done].
      exists new. split_and!; try done.
      * intros j [->|Hj]%elem_of_cons; [|by apply Hnone].
        rewrite lookup_delete_utxos, Ei. by case_decide.
      * intros v Hv. destruct (Hsub v Hv) as (j & ? & ?). exists j. set_solver.
Qed.

Lemma transfer_outputs_Ok tx l txid t b acc us :
  transfer_outputs tx l txid t b acc = inl us →
  ∃ new, us = acc ++ new ∧ length new = length l
  ∧ Forall2 (λ a u, tu_txid u = txid ∧ tu_vout u = vout a ∧ tu_tokenId u = t
      ∧ tu_amountAtoms u = amount a ∧ 0 ≤ vout a
      ∧ ∃ out, tx_outs tx !! Z.to_nat (vout a) = Some out ∧ carrier_out out = true
        ∧ tu_scriptPubKey u = toHex (txo_script out)) l new.
Proof.
  revert acc. induction l as [|a l IH]; intros acc; cbn [transfer_outputs].
  - intros [= <-]. exists []. by rewrite app_nil_r.
  - destruct (Z.ltb_spec (vout a) 0); [done|].
    destruct (tx_outs tx !! Z.to_nat (vout a)) as [out|] eqn:Eo; [|done].
    destruct (carrier_out out) eqn:Ec; cbn [negb]; [|done].
    intros (new & -> & Hl & Hf)%IH. eexists. rewrite <-app_assoc. split; [done|]. cbn.
    split; [by rewrite Hl|]. constructor; [|done]. cbn. split_and!; eauto.
Qed.

(** ** When an operation is accepted

    [*_accepted] lists the conditions of the protocol and the effect, without
    the order in which the code looks at them. *)

(** Walks down a run of an operation that returned. *)
Ltac op_inv H :=
  repeat (cbv beta zeta in H;
    lazymatch type of H with
    | (_ ≫= _) = Ok _ =>
        let a := fresh "v" in let Ha := fresh "Hv" in
        apply bind_Ok in H; destruct H as (a & Ha & H); try apply of_option_Ok in Ha
    | (if negb ?b then _ else _) = Ok _ =>
        let E := fresh "E" in destruct b eqn:E; cbn [negb] in H
    | (if ?b then _ else _) = Ok _ => let E := fresh "E" in destruct b eqn:E
    | (match ?x with _ => _ end) = Ok _ => let E := fresh "E" in destruct x eqn:E
    end).

(** Output [i] pays [value] to [script]. *)
Definition pays (tx : Tx) (i : nat) (script : list byte) (value : Z) : Prop :=
  tx_outs tx !! i = Some {| txo_script := script; txo_value := value |}.

Lemma out_is_true o p : out_is o p = true ↔ ∃ x, o = Some x ∧ p x = true.
Proof. destruct o; cbn; naive_solver. Qed.

Lemma pays_out_is tx i script value :
  out_is (tx_outs tx !! i) (λ o, bytes_eqb (txo_script o) script) = true →
  out_is (tx_outs tx !! i) (λ o, txo_value o =? value) = true ↔ pays tx i script value.
Proof.
  intros (o & E & Hs)%out_is_true. apply bool_decide_eq_true in Hs. unfold pays. rewrite E. cbn.
  rewrite Z.eqb_eq. destruct o. cbn in *. subst. naive_solver.
Qed.

Lemma pays_out_is_both tx i script value :
  out_is (tx_outs tx !! i) (λ o, (txo_value o =? value) && bytes_eqb (txo_script o) script) = true
  ↔ pays tx i script value.
Proof.
  unfold pays. rewrite out_is_true. split.
  - intros (o & E & Hv). apply andb_true_iff in Hv as [Hv Hs]. apply bool_decide_eq_true in Hs.
    apply Z.eqb_eq in Hv. destruct o. cbn in *. by subst.
  - intros E. eexists. split; [exact E|]. cbn. rewrite Z.eqb_refl. by apply bool_decide_eq_true.
Qed.

Section Spec.
Context {C : Crypto} {B : Bitcoin} {L : Locale}.
Context (config : V3IndexerConfig).
Implicit Types (st : V3IndexerState) (block : V3BlockInput) (r : ApplyResult).

(** The result of an accepted operation. *)
Definition accepted (op : V3Operation) (t : string) (undo : UndoOp) (curve : option V3CurveTrade)
    : ApplyResult :=
  {| ar_op := Some op; ar_valid := true; ar_reason := None; ar_tokenId := Some t;
     ar_undo := Some undo; ar_curve := curve |}.

Definition carrier_utxo (txid : string) (v : Z) (t : string) (amount : Z) (script : list byte)
    (block : V3BlockInput) : V3TokenUtxo :=
  {| tu_txid := txid; tu_vout := v; tu_tokenId := t; tu_amountAtoms := amount;
     tu_scriptPubKey := toHex script; tu_createdHeight := blk_height block;
     tu_createdBlockHash := blk_hash block |}.

Definition trade (amount gross fee : Z) (s : CoveStateV2) : V3CurveTrade :=
  {| ct_amountAtoms := amount; ct_grossSats := gross; ct_protocolFeeSats := fee;
     ct_supplyAfterAtoms := issuedPublicSupplyAtoms s; ct_backingAfterSats := backingSats s |}.

Definition deploy_accepted st txid rawHex pv ticker nonce block r st' : Prop :=
  ∃ tx creator tokenId script stateHash,
    let t := toHex tokenId in
    tx_fromHex rawHex = Some tx
    ∧ pays tx 2 creator CREATOR_RECORD_SATS ∧ isCreatorScript creator = true
    ∧ computeTokenId sha256 {| chainIdentity := cfg_chainIdentity config; policyVersion := pv;
        Wire.ticker := ticker; Wire.tokenNonce := nonce; creatorScript := creator |} = Ok tokenId
    ∧ tokens st !! t = None
    ∧ vault_script config (state_at t 0) = Ok script
    ∧ pays tx 1 script INDEXER_RESERVE_ANCHOR_SATS
    ∧ stateHashV2 sha256 (state_at t 0) = Ok stateHash
    ∧ r = accepted DEPLOY t (UndoDeploy t) None
    ∧ st' = with_tables st
        (<[t := {| tm_tokenId := t; tm_ticker := ticker; tm_policyVersion := pv;
                   tm_tokenNonce := toHex nonce; tm_deployTxid := txid;
                   tm_deployHeight := blk_height block; tm_deployBlockHash := blk_hash block;
                   tm_creatorScript := toHex creator |}]> (tokens st))
        (<[t := next_backing t (state_at t 0) stateHash script txid block]> (backing st))
        (tokenUtxos st).

Definition mint_accepted st txid rawHex tokenId amount recipientVout block r st' : Prop :=
  ∃ tx meta prior next gross fee creatorFee script carrier creator stateHash,
    let t := toHex tokenId in
    tokens st !! t = Some meta ∧ backing st !! t = Some prior ∧ tx_fromHex rawHex = Some tx
    ∧ spends_backing tx prior = Some true
    ∧ applyMintV2 (bk_state prior) amount = Ok {| nextState := next; grossSats := gross |}
    ∧ mintFeeSats gross amount (default (buyFeeBps COVE_FEE_CONFIG) (cfg_buyFeeBps config))
        (default (buyFeeFlatSats COVE_FEE_CONFIG) (cfg_buyFeeFlatSats config))
        (buyFeeLotSats COVE_FEE_CONFIG) = Ok fee
    ∧ creatorFeeSats gross (default (creatorFeeBps COVE_FEE_CONFIG) (cfg_creatorFeeBps config))
        = Ok creatorFee
    ∧ vault_script config next = Ok script
    ∧ pays tx 1 script (INDEXER_RESERVE_ANCHOR_SATS + backingSats next)
    ∧ recipientVout = 2 ∧ pays tx 2 carrier TOKEN_CARRIER_SATS ∧ isStandardCarrier carrier = true
    ∧ pays tx 3 (cfg_feeScript config) fee
    ∧ pays tx 4 creator creatorFee ∧ toHex creator = tm_creatorScript meta
    ∧ stateHashV2 sha256 next = Ok stateHash
    ∧ r = accepted MINT t (UndoMint t prior (carrier_utxo txid 2 t amount carrier block))
            (Some (trade amount gross fee next))
    ∧ st' = with_tables st (tokens st)
        (<[t := next_backing t next stateHash script txid block]> (backing st))
        (<[outpointKey txid 2 := carrier_utxo txid 2 t amount carrier block]> (tokenUtxos st)).

Definition transfer_accepted st txid rawHex tokenId allocations block r st' : Prop :=
  ∃ tx spent created,
    let t := toHex tokenId in
    is_Some (tokens st !! t) ∧ tx_fromHex rawHex = Some tx
    ∧ spent = omap (λ i, tokenUtxos st !! in_key i) (tx_ins tx) ∧ spent ≠ []
    ∧ Forall (λ u, tu_tokenId u = t) spent
    ∧ sum_utxos spent = sum_allocations allocations
    ∧ transfer_outputs tx allocations txid t block [] = inl created
    ∧ r = accepted TRANSFER t (UndoTransfer txid spent created) None
    ∧ st' = with_tables st (tokens st) (backing st)
        (set_utxos created (delete_utxos spent (tokenUtxos st))).

(** The change of a redemption: none, or output 4. *)
Definition change_accepted tx change changeAtoms txid t block created : Prop :=
  (changeAtoms = 0 ∧ change = [] ∧ created = [])
  ∨ ∃ script, 0 < changeAtoms ∧ change = [{| vout := 4; amount := changeAtoms |}]
    ∧ pays tx 4 script TOKEN_CARRIER_SATS ∧ isStandardCarrier script = true
    ∧ created = [carrier_utxo txid 4 t changeAtoms script block].

Definition redeem_accepted st txid rawHex tokenId redeemAmount change block r st' : Prop :=
  ∃ tx prior spent created next gross fee payout script stateHash,
    let t := toHex tokenId in
    is_Some (tokens st !! t) ∧ backing st !! t = Some prior ∧ tx_fromHex rawHex = Some tx
    ∧ spends_backing tx prior = Some true
    ∧ spent = omap (λ i, tokenUtxos st !! in_key i) (tx_ins tx) ∧ spent ≠ []
    ∧ Forall (λ u, tu_tokenId u = t) spent
    ∧ redeemAmount ≤ sum_utxos spent
    ∧ change_accepted tx change (sum_utxos spent - redeemAmount) txid t block created
    ∧ applyRedeemV2 (bk_state prior) redeemAmount = Ok {| nextState := next; grossSats := gross |}
    ∧ redeemFeeSats gross (default (redeemFeeBps COVE_FEE_CONFIG) (cfg_redeemFeeBps config))
        (default (redeemFeeFlatSats COVE_FEE_CONFIG) (cfg_redeemFeeFlatSats config))
        (redeemFeeMinSats COVE_FEE_CONFIG) = Ok fee
    ∧ vault_script config next = Ok script
    ∧ pays tx 1 script (INDEXER_RESERVE_ANCHOR_SATS + backingSats next)
    ∧ pays tx 2 payout (gross - fee)
    ∧ pays tx 3 (cfg_feeScript config) fee
    ∧ stateHashV2 sha256 next = Ok stateHash
    ∧ r = accepted REDEEM t (UndoRedeem t txid prior spent created)
            (Some (trade redeemAmount gross fee next))
    ∧ st' = with_tables st (tokens st)
        (<[t := next_backing t next stateHash script txid block]> (backing st))
        (set_utxos created (delete_utxos spent (tokenUtxos st))).

Lemma carrier_out_pays tx i o :
  tx_outs tx !! i = Some o → carrier_out o = true →
  pays tx i (txo_script o) TOKEN_CARRIER_SATS ∧ isStandardCarrier (txo_script o) = true.
Proof.
  unfold carrier_out, pays. intros E Hc. apply andb_true_iff in Hc as [Hv Hs]. apply Z.eqb_eq in Hv.
  rewrite E, <-Hv. by destruct o.
Qed.

Lemma carrier_out_true script :
  isStandardCarrier script = true →
  carrier_out {| txo_script := script; txo_value := TOKEN_CARRIER_SATS |} = true.
Proof. unfold carrier_out. intros H. cbn [txo_script txo_value]. by rewrite H, Z.eqb_refl. Qed.

Lemma pays_script tx i script value :
  pays tx i script value →
  out_is (tx_outs tx !! i) (λ o, bytes_eqb (txo_script o) script) = true.
Proof. intros E. apply out_is_true. eexists. split; [exact E|]. by apply bool_decide_eq_true. Qed.

Lemma pays_value tx i script value :
  pays tx i script value → out_is (tx_outs tx !! i) (λ o, txo_value o =? value) = true.
Proof. intros E. apply out_is_true. eexists. split; [exact E|]. apply Z.eqb_refl. Qed.

(** A deployment is accepted exactly under [deploy_accepted]. *)
Lemma applyDeploy_accepted st txid rawHex pv ticker nonce block r st' :
  applyDeploy config st txid rawHex pv ticker nonce block = Ok (r, st') ∧ ar_valid r = true
  ↔ deploy_accepted st txid rawHex pv ticker nonce block r st'.
Proof.
  unfold applyDeploy, deploy_accepted. split.
  - intros [H Hr]. op_inv H; simplify_eq; try discriminate Hr.
    rewrite s0StateV2_state_at in Hv1. simplify_eq. to_prop. destruct E0 as [Hval Hcr].
    apply (pays_out_is _ _ _ INDEXER_RESERVE_ANCHOR_SATS E2) in E3.
    exists v, (txo_script t), v0, v2, v3. cbn zeta. split_and!; try done.
    + unfold pays. rewrite E, <-Hval. by destruct t.
    + by apply eq_None_not_Some.
  - intros (tx & creator & tokenId & script & stateHash & Htx & Hc & Hcs & Hid & Hnew & Hvs & Hp & Hh & -> & ->).
    split; [|done]. rewrite Htx. cbn [of_option]. step_ok. rewrite Hc. cbn [txo_value txo_script]. rewrite Hcs.
    change (CREATOR_RECORD_SATS =? CREATOR_RECORD_SATS) with true. cbn [negb orb].
    rewrite Hid. step_ok. rewrite bool_decide_eq_false_2 by (rewrite Hnew; by intros []).
    rewrite s0StateV2_state_at. step_ok. rewrite Hvs. step_ok.
    rewrite (pays_script _ _ _ _ Hp), (pays_value _ _ _ _ Hp). cbn [negb]. rewrite Hh. by step_ok.
Qed.

(** A mint is accepted exactly under [mint_accepted]. *)
Lemma applyMint_accepted st txid rawHex tokenId amount rv block r st' :
  applyMint config st txid rawHex tokenId amount rv block = Ok (r, st') ∧ ar_valid r = true
  ↔ mint_accepted st txid rawHex tokenId amount rv block r st'.
Proof.
  unfold applyMint, mint_accepted. split.
  - intros [H Hr]. op_inv H; simplify_eq; try discriminate Hr.
    destruct a as [next gross]. cbn [nextState grossSats] in *.
    apply orb_false_iff in E11 as [Hfee%negb_false_iff Hcr%negb_false_iff].
    apply (pays_out_is _ _ _ _ E4) in E5. apply pays_out_is_both in E9. to_prop.
    destruct (carrier_out_pays _ 2 t E7 E8) as [Hp2 Hc2].
    exists v1, v, v0, next, gross, v2, v4, v3, (txo_script t), (txo_script t0), v5. cbn zeta.
    split_and!; try done. unfold pays. rewrite E10, <-Hfee. by destruct t0.
  - intros (tx & meta & prior & next & gross & fee & cfee & script & carrier & creator & hash & Hm & Hb
      & Htx & Hsp & Hap & Hfee & Hcfee & Hvs & Hp1 & -> & Hp2 & Hc2 & Hp3 & Hp4 & Hcr & Hh & -> & ->).
    split; [|done]. rewrite Hm, Hb, Htx. cbn [of_option]. step_ok. rewrite Hsp, Hap.
    cbn [nextState grossSats]. rewrite Hfee. step_ok. rewrite Hvs. step_ok.
    rewrite (pays_script _ _ _ _ Hp1), (pays_value _ _ _ _ Hp1). cbn [negb].
    change (2 =? 2) with true. cbn [negb]. rewrite Hp2, (carrier_out_true _ Hc2). cbn [negb].
    rewrite (proj2 (pays_out_is_both _ _ _ _) Hp3). cbn [negb]. rewrite Hp4, Hcfee. step_ok.
    cbn [txo_value txo_script]. rewrite Z.eqb_refl, Hcr, String.eqb_refl. cbn [negb orb].
    rewrite Hh. by step_ok.
Qed.

Lemma resolveTokenInputs_Ok st tx t us :
  resolveTokenInputs st tx t = inl us ↔
  us = omap (λ i, tokenUtxos st !! in_key i) (tx_ins tx) ∧ us ≠ []
  ∧ Forall (λ u, tu_tokenId u = t) us.
Proof.
  unfold resolveTokenInputs. split.
  - destruct (resolve_inputs _ _ _ []) as [l|] eqn:E; [|done].
    apply resolve_inputs_Ok in E as (new & El & Hn & Hnew). cbn in El. subst l.
    destruct new; [done|]. intros [= <-]. by rewrite <-Hnew.
  - intros (Hus & Hne & Hf).
    enough (∀ ins acc, Forall (λ u, tu_tokenId u = t) (omap (λ i, tokenUtxos st !! in_key i) ins) →
      resolve_inputs (tokenUtxos st) ins t acc = inl (acc ++ omap (λ i, tokenUtxos st !! in_key i) ins)) as HR.
    { rewrite HR by by rewrite <-Hus. rewrite <-Hus. by destruct us. }
    induction ins as [|i ins IH]; intros acc; cbn [resolve_inputs omap list_omap];
      [by rewrite app_nil_r|].
    destruct (tokenUtxos st !! in_key i) as [u|]; [|by apply IH].
    intros [Hu Hr]%Forall_cons. rewrite Hu, String.eqb_refl. cbn [negb].
    rewrite IH by done. by rewrite <-app_assoc.
Qed.

(** A transfer is accepted exactly under [transfer_accepted]. *)
Lemma applyTransfer_accepted st txid rawHex tokenId l block r st' :
  applyTransfer st txid rawHex tokenId l block = Ok (r, st') ∧ ar_valid r = true
  ↔ transfer_accepted st txid rawHex tokenId l block r st'.
Proof.
  unfold applyTransfer, transfer_accepted. split.
  - intros [H Hr]. op_inv H; simplify_eq; try discriminate Hr.
    apply resolveTokenInputs_Ok in E0 as (Hl & Hne & Hf). to_prop.
    exists v, l0, l1. by cbn zeta.
  - intros (tx & spent & created & Ht & Htx & Hsp & Hne & Hf & Hsum & Hcr & -> & ->).
    split; [|done]. rewrite bool_decide_eq_true_2 by done. cbn [negb]. rewrite Htx. cbn [of_option].
    step_ok. rewrite (proj2 (resolveTokenInputs_Ok _ _ _ spent) ltac:(done)).
    rewrite Hsum, Z.eqb_refl. cbn [negb]. by rewrite Hcr.
Qed.

Lemma redeem_change_Ok tx change c txid t block created :
  0 ≤ c → sum_allocations change = c →
  redeem_change tx change c txid t block = inl created
  ↔ change_accepted tx change c txid t block created.
Proof.
  intros Hc Hsum. unfold redeem_change, change_accepted. split.
  - destruct (Z.ltb_spec 0 c).
    + destruct (tx_outs tx !! 4%nat) as [o|] eqn:Eo; [|done].
      destruct (carrier_out o) eqn:Ec; cbn [negb]; [|done].
      destruct change as [|[v a] [|]]; [done| |done]. cbn [vout amount].
      destruct (Z.eqb_spec v 4) as [->|], (Z.eqb_spec a c) as [->|]; cbn [negb orb]; try done.
      intros [= <-]. destruct (carrier_out_pays tx 4 o Eo Ec). right. by exists (txo_script o).
    + destruct change; cbn [length Nat.eqb negb]; [|done]. intros [= <-]. left. split_and!; [lia|done..].
  - intros [(-> & -> & ->)|(script & Hpos & -> & Hp & Hs & ->)]; [done|].
    rewrite (proj2 (Z.ltb_lt 0 c) Hpos), Hp, (carrier_out_true _ Hs). cbn [negb vout amount].
    by rewrite !Z.eqb_refl.
Qed.

Lemma sum_change_accepted tx change c txid t block created :
  change_accepted tx change c txid t block created → sum_allocations change = c.
Proof. by intros [(-> & -> & _)|(s & _ & -> & _)]. Qed.

(** A redemption is accepted exactly under [redeem_accepted]. *)
Lemma applyRedeem_accepted st txid rawHex tokenId a change block r st' :
  applyRedeem config st txid rawHex tokenId a change block = Ok (r, st') ∧ ar_valid r = true
  ↔ redeem_accepted st txid rawHex tokenId a change block r st'.
Proof.
  unfold applyRedeem, redeem_accepted. split.
  - intros [H Hr]. op_inv H; simplify_eq; try discriminate Hr.
    destruct a0 as [next gross]. cbn [nextState grossSats] in *.
    apply (pays_out_is _ _ _ _ E7) in E8. apply pays_out_is_both in E10.
    apply out_is_true in E9 as (payout & Ep & Hpv).
    apply resolveTokenInputs_Ok in E3 as (Hl & Hne & Hf). to_prop.
    apply redeem_change_Ok in E11; [|lia|done].
    eexists _, _, _, _, next, gross, _, (txo_script payout), _, _. cbn zeta.
    split_and!; try done; [lia|]. unfold pays. rewrite Ep, <-Hpv. by destruct payout.
  - intros (tx & prior & spent & created & next & gross & fee & payout & script & hash & [meta Hm] & Hb
      & Htx & Hsp & Hin & Hne & Hf & Hle & Hch & Hap & Hfee & Hvs & Hp1 & Hp2 & Hp3 & Hh & -> & ->).
    split; [|done]. rewrite Hm, Hb, Htx. cbn [of_option]. step_ok. rewrite Hsp.
    rewrite (proj2 (resolveTokenInputs_Ok _ _ _ spent) ltac:(done)).
    pose proof (sum_change_accepted _ _ _ _ _ _ _ Hch) as Hsum.
    destruct (Z.ltb_spec (sum_utxos spent - a) 0); [lia|]. rewrite Hsum, Z.eqb_refl. cbn [negb]. rewrite Hap.
    cbn [nextState grossSats]. rewrite Hfee. step_ok. rewrite Hvs. step_ok.
    rewrite (pays_script _ _ _ _ Hp1), (pays_value _ _ _ _ Hp1), (pays_value _ _ _ _ Hp2). cbn [negb].
    rewrite (proj2 (pays_out_is_both _ _ _ _) Hp3). cbn [negb].
    rewrite (proj2 (redeem_change_Ok _ _ (sum_utxos spent - a) _ _ _ _ ltac:(lia) Hsum) Hch), Hh. by step_ok.
Qed.

(** A rejected operation leaves the state as it was and has no undo record. *)
Lemma applyCove_rejected st txid rawHex e block r st' :
  applyCove config st txid rawHex e block = Ok (r, st') → ar_valid r = false →
  st' = st ∧ ar_undo r = None ∧ ar_curve r = None.
Proof.
  destruct e; cbn [applyCove]; unfold applyDeploy, applyMint, applyTransfer, applyRedeem;
    intros H Hr; op_inv H; simplify_eq; try discriminate Hr; done.
Qed.

(** *** The invariant *)
Record backing_ok (t : string) (b : V3Backing) : Prop := {
  bo_tokenId : bk_tokenId b = t;
  bo_state : tokenIdV2 (bk_state b) = t;
  bo_valid : validateStateV2 (bk_state b) = Ok tt;
  bo_value : bk_btcValue b = INDEXER_RESERVE_ANCHOR_SATS + backingSats (bk_state b);
  bo_hash : stateHashV2 sha256 (bk_state b) = Ok (bk_stateHash b);
  bo_script : toHex <$> vault_script config (bk_state b) = Ok (bk_scriptPubKey b);
}.

(** The carriers [m] against the reserves [bs]: the live tokens are issued. *)
Record utxos_ok (bs : gmap string V3Backing) (m : gmap string V3TokenUtxo) : Prop := {
  uo_keyed : keyed m;
  uo_positive : positive_utxos m;
  uo_known : ∀ k u, m !! k = Some u → is_Some (bs !! tu_tokenId u);
  uo_supply : ∀ t b, bs !! t = Some b → live m t ≤ issuedPublicSupplyAtoms (bk_state b);
}.

Record wf st : Prop := {
  wf_backing : ∀ t b, backing st !! t = Some b → backing_ok t b;
  wf_tokens : ∀ t, is_Some (tokens st !! t) ↔ is_Some (backing st !! t);
  wf_meta : ∀ t m, tokens st !! t = Some m → tm_tokenId m = t ∧ ∃ s, tm_creatorScript m = toHex s;
  wf_utxos : utxos_ok (backing st) (tokenUtxos st);
}.

Lemma utxos_ok_delete bs m us : utxos_ok bs m → utxos_ok bs (delete_utxos us m).
Proof.
  intros [Hk Hp Hkn Hs].
  assert (∀ k u, delete_utxos us m !! k = Some u → m !! k = Some u) as Hsub.
  { intros k u. rewrite lookup_delete_utxos. by case_decide. }
  split; [by intros k u ?%Hsub; apply Hk|by intros k u ?%Hsub; eapply Hp|
    by intros k u ?%Hsub; eapply Hkn|].
  intros t b Hb. etrans; [|by eapply Hs]. clear Hs Hkn Hsub Hb. unfold delete_utxos. revert m Hk Hp.
  induction us as [|u us IH]; intros m Hk Hp; cbn; [done|].
  etrans; [apply IH|by apply live_delete_le]; intros k v [_ ?]%lookup_delete_Some; [by apply Hk|by eapply Hp].
Qed.

(** Spent carriers of one token are replaced by new ones and the reserve of
    the token by one that has issued enough for them. *)
Lemma utxos_ok_move bs m ins t spent created b b' :
  utxos_ok bs m → NoDup (in_key <$> ins) → spent = omap (λ i, m !! in_key i) ins →
  Forall (λ u, tu_tokenId u = t) spent →
  Forall (λ u, tu_tokenId u = t ∧ 0 < tu_amountAtoms u) created →
  bs !! t = Some b →
  zsum (tu_amountAtoms <$> created) + issuedPublicSupplyAtoms (bk_state b)
    ≤ zsum (tu_amountAtoms <$> spent) + issuedPublicSupplyAtoms (bk_state b') →
  utxos_ok (<[t := b']> bs) (set_utxos created (delete_utxos spent m)).
Proof.
  intros [Hk Hp Hkn Hs] Hnd Hsp Hts Hcr Hb Hle.
  assert (∀ k u, delete_utxos spent m !! k = Some u → m !! k = Some u) as Hsub.
  { intros k u. rewrite lookup_delete_utxos. by case_decide. }
  pose proof Hcr as Hcr'. rewrite Forall_forall in Hcr'.
  split.
  - intros k u [[_ ?]|[?%Hsub _]]%lookup_set_utxos_Some; [done|by apply Hk].
  - intros k u [[Hu _]|[?%Hsub _]]%lookup_set_utxos_Some; [by apply Hcr'|by eapply Hp].
  - intros k u [[Hu _]|[Hu%Hsub _]]%lookup_set_utxos_Some; rewrite lookup_insert_is_Some'.
    + left. symmetry. by apply Hcr'.
    + right. by eapply Hkn.
  - intros t' b''. etrans; [apply live_set_utxos|].
    + by intros k u ?%Hsub; eapply Hp.
    + by eapply Forall_impl; [exact Hcr|by intros ? [? ?]].
    + assert (Forall (λ u, tu_tokenId u = t) created) as Hct
        by by eapply Forall_impl; [exact Hcr|by intros ? [? ?]].
      rewrite live_delete_utxos by (subst; by (apply keyed_inputs_NoDup || apply keyed_inputs)).
      revert H. rewrite lookup_insert_Some. intros [[<- <-]|[Hne Hb'']].
      * rewrite !total_one_token by done. pose proof (Hs t b Hb). lia.
      * rewrite !(total_other_token t t') by done. pose proof (Hs t' b'' Hb''). lia.
Qed.

Lemma wf_deploy st txid rawHex pv ticker nonce block r st' :
  wf st → deploy_accepted st txid rawHex pv ticker nonce block r st' → wf st'.
Proof.
  intros [Hb Ht Hmeta [Hk Hp Hkn Hs]]
    (tx & creator & tokenId & script & hash & Htx & _ & _ & _ & Hnew & Hvs & _ & Hh & _ & ->).
  set (t := toHex tokenId) in *.
  assert (backing st !! t = None) as Hnb.
  { apply eq_None_not_Some. intros [x Hx]%Ht. congruence. }
  split; cbn [tokens backing tokenUtxos with_tables].
  - intros t' b. rewrite lookup_insert_Some. intros [[<- <-]|[_ Hb']]; [|by apply Hb].
    assert (valid_tokenIdV2 t) as Hv.
    { unfold stateHashV2 in Hh. res_inv Hh. by apply serializeStateV2_inv in Hv as (_ & _ & ? & _). }
    split; try done; cbn [bk_state next_backing bk_scriptPubKey].
    + by apply validateStateV2_state_at; [|unfold MAX_LOTS; lia].
    + by rewrite Hvs.
  - intros t'. rewrite !lookup_insert_is_Some'. by rewrite Ht.
  - intros t' m. rewrite lookup_insert_Some. intros [[<- <-]|[_ ?]]; [by split; [|eexists]|by apply Hmeta].
  - split; [done|done| |].
    + intros k u Hu. rewrite lookup_insert_is_Some'. right. by eapply Hkn.
    + intros t' b. rewrite lookup_insert_Some. intros [[<- <-]|[_ ?]]; [|by eapply Hs].
      rewrite live_unknown; [done|]. intros k u Hu <-. destruct (Hkn k u Hu). congruence.
Qed.

Lemma next_backing_ok t s hash script txid block :
  validateStateV2 s = Ok tt → tokenIdV2 s = t → vault_script config s = Ok script →
  stateHashV2 sha256 s = Ok hash → backing_ok t (next_backing t s hash script txid block).
Proof. intros ?? Hv ?. split; try done. cbn. by rewrite Hv. Qed.

(** The reserve of a known token moves to a successor with its carriers. *)
Lemma wf_move st ins t spent created b s hash script txid block :
  wf st → NoDup (in_key <$> ins) → spent = omap (λ i, tokenUtxos st !! in_key i) ins →
  Forall (λ u, tu_tokenId u = t) spent →
  Forall (λ u, tu_tokenId u = t ∧ 0 < tu_amountAtoms u) created →
  backing st !! t = Some b →
  validateStateV2 s = Ok tt → tokenIdV2 s = tokenIdV2 (bk_state b) →
  vault_script config s = Ok script → stateHashV2 sha256 s = Ok hash →
  zsum (tu_amountAtoms <$> created) + issuedPublicSupplyAtoms (bk_state b)
    ≤ zsum (tu_amountAtoms <$> spent) + issuedPublicSupplyAtoms s →
  wf (with_tables st (tokens st)
        (<[t := next_backing t s hash script txid block]> (backing st))
        (set_utxos created (delete_utxos spent (tokenUtxos st)))).
Proof.
  intros [Hb Ht Hmeta Hu] Hnd Hsp Hts Hcr Hbt Hval Htid Hvs Hh Hle.
  split; cbn [tokens backing tokenUtxos with_tables]; [| |done|].
  - intros t' b'. rewrite lookup_insert_Some. intros [[<- <-]|[_ ?]]; [|by apply Hb].
    apply next_backing_ok; try done. rewrite Htid. by apply (bo_state _ _ (Hb _ _ Hbt)).
  - intros t'. rewrite Ht, lookup_insert_is_Some'. split; [by right|]. intros [->|]; [by eexists|done].
  - by eapply utxos_ok_move.
Qed.

Lemma wf_mint st txid rawHex tokenId amount rv block r st' :
  wf st → mint_accepted st txid rawHex tokenId amount rv block r st' → wf st'.
Proof.
  intros Hwf (tx & meta & prior & next & gross & fee & cfee & script & carrier & creator & hash & Hm & Hb
      & Htx & Hsp & Hap & Hfee & Hcfee & Hvs & Hp1 & -> & Hp2 & Hc2 & Hp3 & Hp4 & Hcr & Hh & -> & ->).
  destruct (apply_op_Ok (bk_state prior) (OpMint amount) next gross) as (_ & Hval & Htid & Hi & _).
  { cbn [apply_op]. rewrite Hap. by step_ok. }
  apply applyMintV2_Ok in Hap as (k & q & _ & _ & Hq & _ & _ & Ea & _).
  assert (0 < amount) by (rewrite Ea; assert (0 < LOT_ATOMS) by done; nia).
  apply (wf_move st [] (toHex tokenId) [] [carrier_utxo txid 2 (toHex tokenId) amount carrier block] prior);
    try done; [constructor|by repeat constructor|]. cbn [op_atoms] in Hi. rewrite Hi. cbn. lia.
Qed.

Lemma wf_redeem st txid rawHex tokenId a change block r st' :
  wf st → (∀ tx, tx_fromHex rawHex = Some tx → NoDup (in_key <$> tx_ins tx)) →
  redeem_accepted st txid rawHex tokenId a change block r st' → wf st'.
Proof.
  intros Hwf Hnd (tx & prior & spent & created & next & gross & fee & payout & script & hash & Hm & Hb
      & Htx & _ & Hin & _ & Hf & _ & Hch & Hap & _ & Hvs & _ & _ & _ & Hh & -> & ->).
  destruct (apply_op_Ok (bk_state prior) (OpRedeem a) next (- gross)) as (_ & Hval & Htid & Hi & _).
  { cbn [apply_op]. rewrite Hap. by step_ok. }
  cbn [op_atoms] in Hi. unfold sum_utxos in Hch. rewrite foldl_add_zsum in Hch.
  apply (wf_move st (tx_ins tx) (toHex tokenId) spent created prior); try done; [by apply Hnd| |].
  - destruct Hch as [(_ & _ & ->)|(s & ? & _ & _ & _ & ->)]; [constructor|].
    by apply Forall_singleton.
  - rewrite Hi. destruct Hch as [(? & _ & ->)|(s & _ & _ & _ & _ & ->)]; cbn; lia.
Qed.

Lemma transfer_outputs_created tx l txid t block us :
  transfer_outputs tx l txid t block [] = inl us → Forall (λ a, 0 < amount a) l →
  Forall (λ u, tu_tokenId u = t ∧ 0 < tu_amountAtoms u) us
  ∧ zsum (tu_amountAtoms <$> us) = sum_allocations l
  ∧ Forall (λ u, tu_txid u = txid) us.
Proof.
  intros (new & Enew & _ & Hf)%transfer_outputs_Ok. cbn in Enew. subst us.
  unfold sum_allocations. rewrite foldl_add_zsum. unfold zsum.
  induction Hf as [|a u l us (? & ? & ? & Ha & _) _ IH]; [intros _; split; [constructor|split; [done|constructor]]|].
  intros [? Hl]%Forall_cons. destruct (IH Hl) as (? & ? & ?). cbn.
  split_and!; [by constructor; [split; [|lia]|]|lia|by constructor].
Qed.

Lemma wf_transfer st txid rawHex tokenId l block r st' :
  wf st → (∀ tx, tx_fromHex rawHex = Some tx → NoDup (in_key <$> tx_ins tx)) →
  valid_envelope (TransferV2 tokenId l) →
  transfer_accepted st txid rawHex tokenId l block r st' → wf st'.
Proof.
  intros [Hb Ht Hmeta Hu] Hnd (_ & _ & _ & Hpos & _)
    (tx & spent & created & Htk & Htx & Hin & _ & Hf & Hsum & Hcr & _ & ->).
  split; cbn [tokens backing tokenUtxos with_tables]; [done..|].
  apply Ht in Htk as [b Hbt].
  apply transfer_outputs_created in Hcr as (Hcr & Hcs & _).
  2:{ eapply Forall_impl; [exact Hpos|]. by intros ? [? ?]. }
  unfold sum_utxos in Hsum. rewrite foldl_add_zsum in Hsum.
  rewrite <-(insert_id (backing st) (toHex tokenId) b Hbt).
  eapply utxos_ok_move; try done; [by apply Hnd|lia].
Qed.

(** *** Transactions and blocks *)
Definition cove_accepted st txid rawHex e block r st' : Prop :=
  match e with
  | DeployV2 pv ticker nonce => deploy_accepted st txid rawHex pv ticker nonce block r st'
  | MintV2 t a v => mint_accepted st txid rawHex t a v block r st'
  | TransferV2 t l => transfer_accepted st txid rawHex t l block r st'
  | RedeemV2 t a l => redeem_accepted st txid rawHex t a l block r st'
  end.

Lemma applyCove_accepted st txid rawHex e block r st' :
  applyCove config st txid rawHex e block = Ok (r, st') ∧ ar_valid r = true
  ↔ cove_accepted st txid rawHex e block r st'.
Proof.
  destruct e; cbn [applyCove cove_accepted].
  - apply applyDeploy_accepted.
  - apply applyMint_accepted.
  - apply applyTransfer_accepted.
  - apply applyRedeem_accepted.
Qed.

Definition distinct_inputs (rawHex : string) : Prop :=
  ∀ tx, tx_fromHex rawHex = Some tx → NoDup (in_key <$> tx_ins tx).

Lemma wf_cove st txid rawHex e block r st' :
  wf st → distinct_inputs rawHex → valid_envelope e →
  cove_accepted st txid rawHex e block r st' → wf st'.
Proof.
  destruct e; cbn [cove_accepted]; intros.
  - by eapply wf_deploy.
  - by eapply wf_mint.
  - by eapply wf_transfer.
  - by eapply wf_redeem.
Qed.

Lemma parseCoveTx_Cove rawHex e :
  parseCoveTx rawHex = Cove e → valid_envelope e.
Proof.
  unfold parseCoveTx. intros H. repeat case_match; simplify_eq.
  match goal with H : decodeV2 _ = Ok _ |- _ => by apply decodeV2_Ok in H as [? _] end.
Qed.

(** What a transaction's message does: nothing, or an accepted operation. *)
Inductive op_step st (txid rawHex : string) block : V3IndexerState → list UndoOp → Prop :=
  | op_none : op_step st txid rawHex block st []
  | op_accepted e r st' :
      parseCoveTx rawHex = Cove e → cove_accepted st txid rawHex e block r st' →
      op_step st txid rawHex block st' (option_list (ar_undo r)).

Definition burn_undo (txid : string) (spent : list V3TokenUtxo) : list UndoOp :=
  if (0 <? length spent)%nat then [UndoBurn txid spent] else [].

Definition with_utxos st (m : gmap string V3TokenUtxo) : V3IndexerState :=
  with_tables st (tokens st) (backing st) m.

Lemma apply_tx_Ok st block i rawHex ops evs st' :
  apply_tx config st block i rawHex = Ok (ops, evs, st') →
  ∃ tx st1 ops1 m spent,
    tx_fromHex rawHex = Some tx ∧ op_step st (getId tx) rawHex block st1 ops1
    ∧ burn_inputs (tx_ins tx) (tokenUtxos st1) [] = (m, spent)
    ∧ ops = ops1 ++ burn_undo (getId tx) spent
    ∧ st' = foldl record (with_utxos st1 m) evs
    ∧ Forall (λ e, ev_blockHeight e = blk_height block ∧ ev_txIndex e = i ∧ ev_txid e = getId tx) evs
    ∧ (length evs ≤ 1)%nat.
Proof.
  unfold apply_tx, txidOf, burnUnaccountedInputs. intros H. apply bind_Ok in H as (txid & Hid & H).
  apply bind_Ok in Hid as (tx & Htx%of_option_Ok & Eid). injection Eid as <-.
  rewrite Htx in H. cbn [of_option] in H.
  destruct (parseCoveTx rawHex) as [|reason|e] eqn:Hp; rewrite ?bind_of_Ok in H; cbn beta iota in H.
  - destruct (burn_inputs (tx_ins tx) (tokenUtxos st) []) as [m spent] eqn:Hb.
    rewrite bind_of_Ok in H. simplify_eq. exists tx, st, [], m, spent.
    split_and!; try done; [apply op_none|cbn; lia].
  - destruct (burn_inputs (tx_ins tx) (tokenUtxos st) []) as [m spent] eqn:Hb.
    rewrite bind_of_Ok in H. simplify_eq. exists tx, st, [], m, spent.
    split_and!; try done; [apply op_none|by apply Forall_singleton].
  - apply bind_Ok in H as ([r st1] & Hr & H). rewrite bind_of_Ok in H. cbn beta iota in H.
    destruct (burn_inputs (tx_ins tx) (tokenUtxos st1) []) as [m spent] eqn:Hb.
    rewrite bind_of_Ok in H. cbn beta iota in H. simplify_eq.
    exists tx, st1, (if ar_valid r then option_list (ar_undo r) else []), m, spent.
    split_and!; try done; [|by apply Forall_singleton].
    destruct (ar_valid r) eqn:Hval.
    + apply (op_accepted _ _ _ _ e); [done|]. by apply applyCove_accepted.
    + apply applyCove_rejected in Hr as [-> _]; [|done]. constructor.
Qed.

Lemma foldl_record_tables evs st :
  tokens (foldl record st evs) = tokens st ∧ backing (foldl record st evs) = backing st
  ∧ tokenUtxos (foldl record st evs) = tokenUtxos st
  ∧ undoByHeight (foldl record st evs) = undoByHeight st
  ∧ events (foldl record st evs) = events st ++ evs
  ∧ cursor (foldl record st evs) = cursor st.
Proof.
  revert st. induction evs as [|e evs IH]; intros st; cbn; [by rewrite app_nil_r|].
  destruct (IH (record st e)) as (-> & -> & -> & -> & -> & ->). cbn. by rewrite <-app_assoc.
Qed.

(** The invariant depends on the tables only. *)
Lemma wf_tables st st' :
  tokens st' = tokens st → backing st' = backing st → tokenUtxos st' = tokenUtxos st → wf st → wf st'.
Proof. intros Et Eb Eu [????]. split; by rewrite ?Et, ?Eb, ?Eu. Qed.

Lemma wf_op_step st txid rawHex block st' ops :
  wf st → distinct_inputs rawHex → op_step st txid rawHex block st' ops → wf st'.
Proof.
  intros Hwf Hd [|e r st1 Hp Hacc]; [done|]. eapply wf_cove; [done..| |done]. by eapply parseCoveTx_Cove.
Qed.

Lemma wf_apply_tx st block i rawHex ops evs st' :
  wf st → distinct_inputs rawHex → apply_tx config st block i rawHex = Ok (ops, evs, st') → wf st'.
Proof.
  intros Hwf Hd (tx & st1 & ops1 & m & spent & Htx & Hop & Hb & _ & -> & _)%apply_tx_Ok.
  destruct (foldl_record_tables evs (with_utxos st1 m)) as (Et & Eb & Eu & _).
  eapply wf_tables; [exact Et|exact Eb|exact Eu|].
  pose proof (wf_op_step _ _ _ _ _ _ Hwf Hd Hop) as [? ? ? Hu].
  apply burn_inputs_spec in Hb as (new & _ & _ & -> & _); [|by destruct Hu].
  split; cbn; try done. by apply utxos_ok_delete.
Qed.

Lemma wf_apply_txs txs st block i ops evs :
  wf st → Forall distinct_inputs txs → wf (apply_txs config st block i txs ops evs).1.
Proof.
  revert st i ops evs. induction txs as [|raw txs IH]; intros st i ops evs Hwf; cbn [apply_txs]; [done|].
  intros [Hd Hds]%Forall_cons. destruct (apply_tx config st block i raw) as [[[ops' evs'] st']|e] eqn:E; [|done].
  apply IH; [|done]. by eapply wf_apply_tx.
Qed.

Lemma wf_applyBlock st block :
  wf st → Forall distinct_inputs (blk_txs block) → wf (applyBlock config st block).1.
Proof.
  intros Hwf Hd. unfold applyBlock. case_match; [done|].
  pose proof (wf_apply_txs (blk_txs block) st block 0 [] [] Hwf Hd) as H'.
  destruct (apply_txs _ _ _ _ _ _) as [st' [[ops evs]|e]]; cbn [fst] in *; [|done].
  by eapply wf_tables; [| | |exact H'].
Qed.

Lemma wf_new_state : wf (new_state config).
Proof. split; [by intros ? ? [=]| | |split]; by try (intros ? ? [=]); try (split; intros [? [=]]). Qed.

(** *** The undo journal *)
Lemma lookup_restore us m0 m k :
  carriers_in m0 us →
  set_utxos us m !! k = if decide (k ∈ utxo_key <$> us) then m0 !! k else m !! k.
Proof.
  unfold carriers_in. rewrite Forall_forall. intros Hin. case_decide as Hk; [|by apply lookup_set_utxos].
  destruct (set_utxos us m !! k) as [u|] eqn:E.
  - apply lookup_set_utxos_Some in E as [[Hu <-]|[_ ?]]; [|done]. symmetry. by apply Hin.
  - exfalso. revert m Hk E. clear Hin. unfold set_utxos.
    induction us as [|u us IH]; intros m; cbn; [set_solver|]. intros Hk.
    destruct (decide (k ∈ utxo_key <$> us)) as [|Hni]; [by apply IH|].
    apply elem_of_cons in Hk as [->|]; [|done]. fold (set_utxos us (<[utxo_key u := u]> m)).
    by rewrite lookup_set_utxos, lookup_insert_eq.
Qed.

(** Freshness of a transaction: none of its outputs carries a token yet. *)
Definition fresh (m : gmap string V3TokenUtxo) (txid : string) : Prop :=
  ∀ v, m !! outpointKey txid v = None.

Lemma restore_carriers m spent created txid :
  carriers_in m spent → Forall (λ u, tu_txid u = txid) created → fresh m txid →
  set_utxos spent (delete_utxos created (set_utxos created (delete_utxos spent m))) = m.
Proof.
  intros Hin Hcr Hf. apply map_eq. intros k. rewrite (lookup_restore spent m) by done.
  case_decide as Hk; [done|]. rewrite lookup_delete_utxos. case_decide as Hk'.
  - apply list_elem_of_fmap in Hk' as (u & -> & Hu). rewrite Forall_forall in Hcr.
    unfold utxo_key. by rewrite (Hcr u Hu), Hf.
  - rewrite lookup_set_utxos by done. rewrite lookup_delete_utxos. by case_decide.
Qed.

Lemma with_tables_id st : with_tables st (tokens st) (backing st) (tokenUtxos st) = st.
Proof. by destruct st. Qed.

Lemma with_tables_restore st t b u t' b' u' :
  t' = tokens st → b' = backing st → u' = tokenUtxos st →
  with_tables (with_tables st t b u) t' b' u' = st.
Proof. intros -> -> ->. by destruct st. Qed.

(** Undoing the record of an accepted operation restores the state. *)
Lemma undo_op_step st txid rawHex block st' ops :
  wf st → fresh (tokenUtxos st) txid → op_step st txid rawHex block st' ops →
  foldl undo_op st' (reverse ops) = st.
Proof.
  intros [_ Ht _ [Hk _ _ _]] Hf [|e r st1 Hp Hacc]; [done|].
  apply parseCoveTx_Cove in Hp.
  destruct e; cbn [cove_accepted] in Hacc.
  - destruct Hacc as (tx & cr & tid & scr & hash & _ & _ & _ & _ & Hnew & _ & _ & _ & -> & ->).
    apply with_tables_restore; cbn; [|rewrite delete_insert_id; [done|]|done].
    + by rewrite delete_insert_id.
    + apply eq_None_not_Some. intros [x Hx]%Ht. congruence.
  - destruct Hacc as (tx & meta & prior & next & gross & fee & cfee & scr & car & cr & hash & _ & Hb
      & _ & _ & _ & _ & _ & _ & _ & _ & _ & _ & _ & _ & _ & _ & -> & ->).
    apply with_tables_restore; cbn; [done| |].
    + by rewrite insert_insert_eq, insert_id.
    + unfold utxo_key. cbn. by rewrite delete_insert_id.
  - destruct Hacc as (tx & spent & created & _ & _ & Hin & _ & _ & _ & Hcr & -> & ->).
    apply transfer_outputs_created in Hcr as (_ & _ & Hcr).
    2:{ destruct Hp as (_ & _ & _ & Hpos & _). eapply Forall_impl; [exact Hpos|]. by intros ? [? ?]. }
    apply with_tables_restore; cbn; [done..|].
    apply (restore_carriers _ _ _ txid); [|done..]. rewrite Hin. by apply keyed_inputs.
  - destruct Hacc as (tx & prior & spent & created & next & gross & fee & payout & scr & hash & _ & Hb
      & _ & _ & Hin & _ & _ & _ & Hch & _ & _ & _ & _ & _ & _ & _ & -> & ->).
    apply with_tables_restore; cbn; [done|by rewrite insert_insert_eq, insert_id|].
    apply (restore_carriers _ _ _ txid); [rewrite Hin; by apply keyed_inputs| |done].
    destruct Hch as [(_ & _ & ->)|(s & _ & _ & _ & _ & ->)]; [constructor|by apply Forall_singleton].
Qed.

Lemma undo_op_record st e op : undo_op (record st e) op = record (undo_op st op) e.
Proof. by destruct op. Qed.

Lemma undo_ops_record evs st ops :
  foldl undo_op (foldl record st evs) ops = foldl record (foldl undo_op st ops) evs.
Proof.
  revert st. induction ops as [|op ops IH]; intros st; cbn; [done|]. rewrite <-IH. f_equal.
  clear IH. revert st. induction evs as [|e evs IH]; intros st; cbn; [done|].
  by rewrite IH, undo_op_record.
Qed.

Lemma restore_spent m spent :
  carriers_in m spent → set_utxos spent (delete_utxos spent m) = m.
Proof.
  intros Hin. apply map_eq. intros k. rewrite (lookup_restore spent m) by done.
  case_decide as Hk; [done|]. rewrite lookup_delete_utxos. by case_decide.
Qed.

Lemma undo_burn st txid ins m spent :
  keyed (tokenUtxos st) → burn_inputs ins (tokenUtxos st) [] = (m, spent) →
  foldl undo_op (with_utxos st m) (reverse (burn_undo txid spent)) = st.
Proof.
  intros Hk (new & Enew & Hin & -> & _)%burn_inputs_spec; [|done]. cbn in Enew. subst new.
  unfold burn_undo, with_utxos. destruct spent as [|u us]; cbn [length Nat.ltb Nat.leb].
  - apply with_tables_id.
  - apply with_tables_restore; [done..|]. by apply (restore_spent (tokenUtxos st) (u :: us)).
Qed.

(** The carriers after an operation: the old ones and outputs of its own. *)
Lemma op_step_keys st txid rawHex block st' ops k u :
  op_step st txid rawHex block st' ops → tokenUtxos st' !! k = Some u →
  tokenUtxos st !! k = Some u ∨ ∃ v, k = outpointKey txid v.
Proof.
  assert (∀ spent created, Forall (λ u, tu_txid u = txid) created →
    set_utxos created (delete_utxos spent (tokenUtxos st)) !! k = Some u →
    tokenUtxos st !! k = Some u ∨ ∃ v, k = outpointKey txid v) as Hmove.
  { intros spent created Hcr [[Hu <-]|[Hu _]]%lookup_set_utxos_Some.
    - right. exists (tu_vout u). rewrite Forall_forall in Hcr. unfold utxo_key. by rewrite Hcr.
    - left. rewrite lookup_delete_utxos in Hu. by case_decide. }
  intros [|e r st1 Hp Hacc]; [by left|]. apply parseCoveTx_Cove in Hp.
  destruct e; cbn [cove_accepted] in Hacc.
  - destruct Hacc as (tx & cr & tid & scr & hash & _ & _ & _ & _ & _ & _ & _ & _ & _ & ->). by left.
  - destruct Hacc as (tx & meta & prior & next & gross & fee & cfee & scr & car & cr & hash & _ & _
      & _ & _ & _ & _ & _ & _ & _ & _ & _ & _ & _ & _ & _ & _ & _ & ->). cbn [tokenUtxos with_tables].
    rewrite lookup_insert_Some. intros [[<- _]|[_ ?]]; [right; by eexists|by left].
  - destruct Hacc as (tx & spent & created & _ & _ & _ & _ & _ & _ & Hcr & _ & ->). apply Hmove.
    apply transfer_outputs_created in Hcr as (_ & _ & Hcr); [done|].
    destruct Hp as (_ & _ & _ & Hpos & _). eapply Forall_impl; [exact Hpos|]. by intros ? [? ?].
  - destruct Hacc as (tx & prior & spent & created & next & gross & fee & payout & scr & hash & _ & _
      & _ & _ & _ & _ & _ & _ & Hch & _ & _ & _ & _ & _ & _ & _ & _ & ->). apply Hmove.
    destruct Hch as [(_ & _ & ->)|(s & _ & _ & _ & _ & ->)]; [constructor|by apply Forall_singleton].
Qed.

Lemma outpointKey_inj tx tx' v v' :
  outpointKey (getId tx) v = outpointKey (getId tx') v' → getId tx = getId tx'.
Proof.
  unfold outpointKey. intros E. apply (f_equal utf8) in E. rewrite !utf8_app in E.
  apply app_inj_1 in E as [E _]; [by apply utf8_inj|].
  by rewrite !utf8_length, !getId_length.
Qed.

(** One transaction: undoing its records restores the tables, and fresh
    transactions stay fresh. *)
Lemma undo_apply_tx st block i rawHex ops evs st' :
  wf st → distinct_inputs rawHex →
  (∀ tx, tx_fromHex rawHex = Some tx → fresh (tokenUtxos st) (getId tx)) →
  apply_tx config st block i rawHex = Ok (ops, evs, st') →
  foldl undo_op st' (reverse ops) = foldl record st evs
  ∧ Forall (λ e, ev_blockHeight e = blk_height block) evs
  ∧ (∀ tx tx', tx_fromHex rawHex = Some tx → getId tx' ≠ getId tx →
      fresh (tokenUtxos st) (getId tx') → fresh (tokenUtxos st') (getId tx')).
Proof.
  intros Hwf Hd Hf (tx & st1 & ops1 & m & spent & Htx & Hop & Hb & -> & -> & Hev & _)%apply_tx_Ok.
  pose proof (wf_op_step _ _ _ _ _ _ Hwf Hd Hop) as Hwf1.
  pose proof (uo_keyed _ _ (wf_utxos _ Hwf1)) as Hk.
  split_and!.
  - rewrite undo_ops_record, reverse_app, foldl_app, (undo_burn st1 _ _ _ _ Hk Hb).
    by rewrite (undo_op_step _ _ _ _ _ _ Hwf (Hf tx Htx) Hop).
  - eapply Forall_impl; [exact Hev|]. by intros ? (? & _).
  - intros tx0 tx' Htx0 Hne Hf' v. simplify_eq.
    destruct (foldl_record_tables evs (with_utxos st1 m)) as (_ & _ & -> & _). cbn.
    apply burn_inputs_spec in Hb as (new & _ & _ & -> & _); [|done].
    rewrite lookup_delete_utxos. case_decide; [done|].
    destruct (tokenUtxos st1 !! outpointKey (getId tx') v) as [u|] eqn:E; [|done].
    eapply op_step_keys in E as [E|[v' E]]; [|by apply outpointKey_inj in E|exact Hop].
    by rewrite Hf' in E.
Qed.

Lemma undo_apply_txs txs st block i ops evs st' ops' evs' :
  wf st → Forall distinct_inputs txs →
  (∀ raw tx, raw ∈ txs → tx_fromHex raw = Some tx → fresh (tokenUtxos st) (getId tx)) →
  NoDup (omap (λ raw, getId <$> tx_fromHex raw) txs) →
  apply_txs config st block i txs ops evs = (st', Ok (ops', evs')) →
  ∃ new newevs, ops' = ops ++ new ∧ evs' = evs ++ newevs
  ∧ foldl undo_op st' (reverse new) = foldl record st newevs
  ∧ Forall (λ e, ev_blockHeight e = blk_height block) newevs.
Proof.
  revert st i ops evs. induction txs as [|raw txs IH]; intros st i ops evs Hwf Hd Hf Hnd; cbn [apply_txs].
  { intros [= <- <- <-]. exists [], []. rewrite !app_nil_r. by split_and!. }
  apply Forall_cons in Hd as [Hd Hds].
  destruct (apply_tx config st block i raw) as [[[ops1 evs1] st1]|e] eqn:E; [|done].
  pose proof (wf_apply_tx _ _ _ _ _ _ _ Hwf Hd E) as Hwf1.
  assert (∃ tx, tx_fromHex raw = Some tx) as [tx Htx].
  { apply apply_tx_Ok in E as (tx & ? & ? & ? & ? & ? & _). by exists tx. }
  apply undo_apply_tx in E as (Hu & Hh & Hfr); [|done..|by intros; apply (Hf raw); [left|]].
  cbn [omap list_omap] in Hnd. rewrite Htx in Hnd. cbn in Hnd. apply NoDup_cons in Hnd as [Hni Hnd].
  intros (new & newevs & -> & -> & Hu' & Hh')%IH; [|done..| |done].
  - exists (ops1 ++ new), (evs1 ++ newevs). rewrite !app_assoc. split_and!; [done..| |by apply Forall_app].
    rewrite reverse_app, foldl_app, Hu', undo_ops_record, Hu. by rewrite foldl_app.
  - intros raw' tx' Hin Htx'. apply (Hfr tx tx' Htx); [|by eapply Hf; [right|]].
    intros Eid. apply Hni, list_elem_of_omap. exists raw'. split; [done|]. rewrite Htx'. cbn. by rewrite Eid.
Qed.

(** What a chain guarantees of the next block: activated, no transaction
    spends an outpoint twice, its transactions are new, and the height is the
    one after the cursor. *)
Record next_block st block : Prop := {
  nb_active : cfg_genesisHeight config ≤ blk_height block;
  nb_inputs : Forall distinct_inputs (blk_txs block);
  nb_distinct : NoDup (omap (λ raw, getId <$> tx_fromHex raw) (blk_txs block));
  nb_fresh : ∀ raw tx, raw ∈ blk_txs block → tx_fromHex raw = Some tx →
    fresh (tokenUtxos st) (getId tx);
  nb_height : undoByHeight st !! blk_height block = None;
  nb_events : Forall (λ e, ev_blockHeight e ≠ blk_height block) (events st);
  nb_cursor : cursor st =
    match undoByHeight st !! (blk_height block - 1) with
    | Some prior => {| cur_network := cfg_network config; cur_height := blk_height block - 1;
                       cur_blockHash := bu_blockHash prior; cur_stateRoot := stateRoot st |}
    | None => {| cur_network := cfg_network config; cur_height := 0; cur_blockHash := "";
                 cur_stateRoot := stateRoot st |}
    end;
}.

Lemma stateRoot_tables st st' :
  tokens st' = tokens st → backing st' = backing st → tokenUtxos st' = tokenUtxos st →
  stateRoot st' = stateRoot st.
Proof. unfold stateRoot. by intros -> -> ->. Qed.

Definition with_journal st (j : gmap Z BlockUndo) (c : V3Cursor) : V3IndexerState :=
  {| tokens := tokens st; backing := backing st; tokenUtxos := tokenUtxos st; events := events st;
     undoByHeight := j; cursor := c |}.

Lemma undo_ops_journal st j c ops :
  foldl undo_op (with_journal st j c) ops = with_journal (foldl undo_op st ops) j c.
Proof.
  revert st. induction ops as [|op ops IH]; intros st; cbn; [done|]. rewrite <-IH. by destruct op.
Qed.

Lemma undo_ops_frame st ops :
  undoByHeight (foldl undo_op st ops) = undoByHeight st ∧ cursor (foldl undo_op st ops) = cursor st.
Proof.
  revert st. induction ops as [|op ops IH]; intros st; cbn; [done|].
  destruct (IH (undo_op st op)) as [-> ->]. by destruct op.
Qed.

Lemma filter_events_height (evs newevs : list V3Event) h :
  Forall (λ e, ev_blockHeight e ≠ h) evs → Forall (λ e, ev_blockHeight e = h) newevs →
  filter (λ e, ev_blockHeight e ≠ h) (evs ++ newevs) = evs.
Proof.
  intros H1 H2. induction H1 as [|e evs He _ IH]; cbn [app].
  - induction H2 as [|e evs He _ IH]; [done|]. rewrite filter_cons. case_decide; [by destruct He|done].
  - rewrite filter_cons, IH. case_decide; [done|by destruct He].
Qed.

(** Undoing the block just applied restores the whole state. *)
Lemma undoBlock_applyBlock_eq st block st' evs :
  wf st → next_block st block → applyBlock config st block = (st', Ok evs) →
  undoBlock config st' (blk_height block) = Ok st.
Proof.
  intros Hwf [Hact Hd Hnd Hf Hh He Hc]. unfold applyBlock.
  destruct (Z.ltb_spec (blk_height block) (cfg_genesisHeight config)); [lia|].
  destruct (apply_txs config st block 0 (blk_txs block) [] []) as [st1 [[ops evs1]|e]] eqn:E; [|done].
  intros [= <- <-]. apply undo_apply_txs in E as (new & newevs & Eo & Ee & Hu & Hev); [|done..].
  cbn in Eo, Ee. subst new newevs.
  unfold undoBlock. cbn [undoByHeight with_cursor]. rewrite lookup_insert_eq. cbn [of_option]. step_ok.
  cbn [bu_ops]. destruct (undo_ops_frame st1 (reverse ops)) as [Ej _].
  destruct (foldl_record_tables evs1 st) as (Et & Eb & Eu & Ejr & Eev & _).
  rewrite Hu, Ejr in Ej.
  match goal with |- context [foldl undo_op ?s _] =>
    change s with (with_journal st1 (<[blk_height block := {| bu_height := blk_height block;
      bu_blockHash := blk_hash block; bu_ops := ops |}]> (undoByHeight st1)) (cursor s)) end.
  rewrite undo_ops_journal, Hu, <-Ej. unfold with_journal. cbn [tokens backing tokenUtxos events undoByHeight cursor].
  rewrite Et, Eb, Eu, Eev, delete_insert_id by done.
  rewrite filter_events_height by done.
  f_equal. destruct st as [t b u ev j c]. cbn in *. clear - Hc.
  destruct (j !! (blk_height block - 1)); unfold with_cursor; cbn; by f_equal.
Qed.

(** *** Chains of blocks *)
Fixpoint index_blocks st (bs : list V3BlockInput) : result V3IndexerState :=
  match bs with
  | [] => Ok st
  | b :: bs =>
      match applyBlock config st b with
      | (st', Ok _) => index_blocks st' bs
      | (_, Throw e) => Throw e
      end
  end.

(** [bs] are the next blocks of the chain from height [h] on. *)
Fixpoint follows st (h : Z) (bs : list V3BlockInput) : Prop :=
  match bs with
  | [] => True
  | b :: bs => blk_height b = h ∧ next_block st b ∧ follows (applyBlock config st b).1 (h + 1) bs
  end.

Lemma index_blocks_app st bs bs' :
  index_blocks st (bs ++ bs') = (index_blocks st bs ≫= λ st', index_blocks st' bs').
Proof.
  revert st. induction bs as [|b bs IH]; intros st; cbn [index_blocks app]; [done|].
  destruct (applyBlock config st b) as [st' [evs|e]]; [apply IH|done].
Qed.

Lemma follows_app st h bs bs' st' :
  index_blocks st bs = Ok st' →
  follows st h (bs ++ bs') → follows st h bs ∧ follows st' (h + Z.of_nat (length bs)) bs'.
Proof.
  revert st h. induction bs as [|b bs IH]; intros st h; cbn [index_blocks app follows length].
  { intros [= ->]. rewrite Z.add_0_r. by split. }
  destruct (applyBlock config st b) as [st1 [evs|e]]; [|done]. cbn [fst].
  intros Hi (? & ? & Hf). apply IH in Hf as [? ?]; [|done]. rewrite Nat2Z.inj_succ.
  replace (h + Z.succ (Z.of_nat (length bs))) with (h + 1 + Z.of_nat (length bs)) by lia. by split_and!.
Qed.

Lemma wf_index_blocks st h bs st' :
  wf st → follows st h bs → index_blocks st bs = Ok st' → wf st'.
Proof.
  revert st h. induction bs as [|b bs IH]; intros st h Hwf; cbn [index_blocks follows]; [by intros _ [= <-]|].
  intros (_ & Hn & Hf). pose proof (wf_applyBlock st b Hwf (nb_inputs _ _ Hn)) as Hwf'.
  destruct (applyBlock config st b) as [st1 [evs|e]]; [|done]. by eapply IH.
Qed.

Lemma op_step_frame st txid rawHex block st' ops :
  op_step st txid rawHex block st' ops →
  undoByHeight st' = undoByHeight st ∧ cursor st' = cursor st ∧ events st' = events st.
Proof.
  intros [|e r st1 _ Hacc]; [done|].
  destruct e; cbn [cove_accepted] in Hacc.
  all: unfold deploy_accepted, mint_accepted, transfer_accepted, redeem_accepted in Hacc; cbn zeta in Hacc.
  all: repeat match goal with
    | H : ∃ _, _ |- _ => destruct H
    | H : _ ∧ _ |- _ => destruct H
    end; by subst.
Qed.

Lemma apply_txs_frame txs st block i ops evs st' res :
  apply_txs config st block i txs ops evs = (st', res) → undoByHeight st' = undoByHeight st.
Proof.
  revert st i ops evs. induction txs as [|raw txs IH]; intros st i ops evs; cbn [apply_txs]; [by intros [= <- _]|].
  destruct (apply_tx config st block i raw) as [[[ops1 evs1] st1]|e] eqn:E; [|by intros [= <- _]].
  intros ->%IH. apply apply_tx_Ok in E as (tx & st2 & ops2 & m & spent & _ & Hop & _ & _ & -> & _).
  destruct (foldl_record_tables evs1 (with_utxos st2 m)) as (_ & _ & _ & -> & _).
  cbn [with_utxos with_tables undoByHeight]. by destruct (op_step_frame _ _ _ _ _ _ Hop) as (-> & _).
Qed.

Lemma applyBlock_frame st b st' evs :
  cfg_genesisHeight config ≤ blk_height b → applyBlock config st b = (st', Ok evs) →
  (∃ local, bu_blockHash local = blk_hash b ∧ undoByHeight st' = <[blk_height b := local]> (undoByHeight st))
  ∧ cur_height (cursor st') = blk_height b.
Proof.
  intros Ha. unfold applyBlock. destruct (Z.ltb_spec (blk_height b) (cfg_genesisHeight config)); [lia|].
  destruct (apply_txs _ _ _ _ _ _) as [st1 [[ops evs1]|e]] eqn:E; [|done].
  intros [= <- _]. rewrite <-(apply_txs_frame _ _ _ _ _ _ _ _ E). split; [|done].
  eexists. split; [|done]. done.
Qed.

(** The journal and the cursor after a chain of blocks. *)
Lemma index_blocks_frame st h bs st' :
  follows st h bs → index_blocks st bs = Ok st' →
  (∀ k, k < h → undoByHeight st' !! k = undoByHeight st !! k)
  ∧ (∀ i b, bs !! i = Some b →
      ∃ local, undoByHeight st' !! (h + Z.of_nat i) = Some local ∧ bu_blockHash local = blk_hash b
        ∧ blk_height b = h + Z.of_nat i)
  ∧ (cur_height (cursor st) = h - 1 → cur_height (cursor st') = h - 1 + Z.of_nat (length bs)).
Proof.
  revert st h. induction bs as [|b bs IH]; intros st h; cbn [index_blocks follows].
  { intros _ [= <-]. split_and!; [done|done|]. cbn. lia. }
  intros (Eh & Hn & Hf) Hi. destruct (applyBlock config st b) as [st1 [evs|e]] eqn:E; [|done].
  cbn [fst] in Hf. apply applyBlock_frame in E as [(local & El & Ej) Ec]; [|by apply (nb_active st)].
  destruct (IH _ _ Hf Hi) as (H1 & H2 & H3). split_and!.
  - intros k Hk. rewrite H1, Ej by lia. rewrite lookup_insert_ne by lia. done.
  - intros [|i] b'; cbn [lookup list_lookup].
    + intros [= <-]. exists local. rewrite H1, Ej, <-Eh by lia. rewrite Z.add_0_r, lookup_insert_eq. done.
    + intros (l' & E1 & E2 & E3)%H2. exists l'. by replace (h + Z.of_nat (S i)) with (h + 1 + Z.of_nat i) by lia.
  - intros _. rewrite H3 by lia. cbn [length]. lia.
Qed.

(** *** The reorganisation engine *)
Lemma walk_back_finds provider st a n fuel u :
  0 < a → (n < fuel)%nat →
  (∀ h, a < h ≤ a + Z.of_nat n → ∃ hash local, getBlockHash provider h = Ok hash
     ∧ undoByHeight st !! h = Some local ∧ bu_blockHash local ≠ hash) →
  undoByHeight st !! a = Some u → getBlockHash provider a = Ok (bu_blockHash u) →
  walk_back fuel provider st (a + Z.of_nat n) = Ok a.
Proof.
  intros Ha Hfuel Hst Hu Hcore. revert n Hfuel Hst.
  induction fuel as [|fuel IH]; intros n Hfuel Hst; [lia|]. cbn [walk_back].
  destruct (Z.ltb_spec 0 (a + Z.of_nat n)); [|lia]. destruct n as [|n].
  - rewrite Z.add_0_r, Hcore, Hu. step_ok. by rewrite String.eqb_refl.
  - destruct (Hst (a + Z.of_nat (S n))) as (hash & local & -> & -> & Hne); [lia|]. step_ok.
    destruct (String.eqb_spec (bu_blockHash local) hash); [done|].
    replace (a + Z.of_nat (S n) - 1) with (a + Z.of_nat n) by lia.
    apply IH; [lia|]. intros h Hh. apply Hst. lia.
Qed.

Lemma undo_down_chain st h bs st' acc :
  wf st → follows st h bs → index_blocks st bs = Ok st' →
  undo_down config (length bs) st' (h + Z.of_nat (length bs) - 1) acc
  = (st, Ok (acc ++ reverse (blk_height <$> bs))).
Proof.
  intros Hwf. revert st' acc. induction bs as [|b bs IH] using rev_ind; intros st' acc Hf Hi.
  - cbn in Hi. injection Hi as ->. cbn. by rewrite app_nil_r.
  - rewrite index_blocks_app in Hi. apply bind_Ok in Hi as (stM & HM & Hb).
    destruct (follows_app _ _ _ _ stM HM Hf) as [Hf' Hfb]. clear Hf. rename Hf' into Hf.
    pose proof (wf_index_blocks _ _ _ _ Hwf Hf HM) as HwfM.
    cbn [index_blocks follows] in Hb, Hfb. destruct Hfb as (Eh & Hn & _).
    destruct (applyBlock config stM b) as [stB [evs|e]] eqn:E; [|done]. injection Hb as ->.
    apply undoBlock_applyBlock_eq in E; [|done..].
    rewrite length_app. cbn [length]. rewrite Nat.add_comm. cbn [Nat.add undo_down].
    replace (h + Z.of_nat (S (length bs)) - 1) with (blk_height b) by lia. rewrite E.
    replace (blk_height b - 1) with (h + Z.of_nat (length bs) - 1) by lia.
    rewrite IH by done. by rewrite fmap_app, reverse_app, <-app_assoc.
Qed.

(** Bitcoin Core has these blocks from height [h] on. *)
Fixpoint serves (provider : CoreRpcProvider) (h : Z) (bs : list V3BlockInput) : Prop :=
  match bs with
  | [] => True
  | b :: bs =>
      blk_height b = h
      ∧ (∃ hash, getBlockHash provider h = Ok hash
         ∧ getBlock provider hash = Ok {| cb_hash := blk_hash b;
             cb_previousBlockHash := blk_parentHash b; cb_rawTxs := blk_txs b |})
      ∧ serves provider (h + 1) bs
  end.

Lemma replay_up_chain provider st h bs st' acc :
  serves provider h bs → index_blocks st bs = Ok st' →
  replay_up config (length bs) provider st h acc = (st', Ok (acc ++ (blk_height <$> bs))).
Proof.
  revert st h acc. induction bs as [|b bs IH]; intros st h acc; cbn [serves index_blocks length replay_up].
  { intros _ [= ->]. by rewrite app_nil_r. }
  intros (Eh & (hash & -> & Eb) & Hs) Hi. rewrite bind_of_Ok, Eb.
  cbn [cb_hash cb_previousBlockHash cb_rawTxs].
  replace ({| blk_height := h; blk_hash := blk_hash b; blk_parentHash := blk_parentHash b;
              blk_txs := blk_txs b |}) with b by (rewrite <-Eh; by destruct b).
  destruct (applyBlock config st b) as [st1 [evs|e]]; [|done].
  rewrite (IH _ _ _ Hs Hi). cbn. by rewrite <-app_assoc, Eh.
Qed.

Lemma reorgToTip_chain provider a st stale new stB stC u :
  wf st → 0 < a → cur_height (cursor st) = a →
  undoByHeight st !! a = Some u → getBlockHash provider a = Ok (bu_blockHash u) →
  follows st (a + 1) stale → index_blocks st stale = Ok stB →
  Forall (λ b, ∃ hash, getBlockHash provider (blk_height b) = Ok hash ∧ blk_hash b ≠ hash) stale →
  getBlockchainInfo provider = Ok (a + Z.of_nat (length new)) →
  serves provider (a + 1) new → index_blocks st new = Ok stC →
  reorgToTip config provider stB
  = (stC, Ok {| commonAncestor := a; orphanedBlocks := reverse (blk_height <$> stale);
                replayedBlocks := blk_height <$> new; finalRoot := stateRoot stC |}).
Proof.
  intros Hwf Ha Hc Hu Hcore Hf Hstale Hne Htip Hserve Hnew.
  destruct (index_blocks_frame _ _ _ _ Hf Hstale) as (H1 & H2 & H3). specialize (H3 ltac:(lia)).
  unfold reorgToTip. rewrite Htip, H3. replace (a + 1 - 1) with a in * by lia.
  rewrite (walk_back_finds provider stB a (length stale) _ u); [|lia|lia| |by rewrite H1 by lia|done].
  - replace (rounds (a + 1) (a + Z.of_nat (length stale))) with (length stale) by (unfold rounds; lia).
    replace (a + Z.of_nat (length stale)) with (a + 1 + Z.of_nat (length stale) - 1) by lia.
    rewrite (undo_down_chain st) by done. cbn [app].
    replace (rounds (a + 1) (a + Z.of_nat (length new))) with (length new) by (unfold rounds; lia).
    by rewrite (replay_up_chain provider st _ _ stC).
  - intros h Hh. destruct (lookup_lt_is_Some_2 stale (Z.to_nat (h - a - 1))) as [b Hb]; [lia|].
    destruct (H2 _ _ Hb) as (local & E1 & E2 & E3).
    replace (a + 1 + Z.of_nat (Z.to_nat (h - a - 1))) with h in * by lia.
    rewrite Forall_forall in Hne. destruct (Hne b) as (hash & Eh & Hh').
    { by eapply list_elem_of_lookup_2. }
    exists hash, local. rewrite E3 in Eh. by rewrite E2.
Qed.

(** *** Stray carriers *)
Lemma op_step_other st txid rawHex block st' ops tx k :
  wf st → tx_fromHex rawHex = Some tx → op_step st txid rawHex block st' ops →
  k ∉ in_key <$> tx_ins tx → (∀ v, k ≠ outpointKey txid v) →
  tokenUtxos st' !! k = tokenUtxos st !! k.
Proof.
  intros Hwf Htx Hop Hk Hv. pose proof (uo_keyed _ _ (wf_utxos _ Hwf)) as Hkey.
  assert (∀ created, Forall (λ u, tu_txid u = txid) created →
    set_utxos created (delete_utxos (omap (λ i, tokenUtxos st !! in_key i) (tx_ins tx)) (tokenUtxos st)) !! k
    = tokenUtxos st !! k) as Hmove.
  { intros created Hcr. rewrite lookup_set_utxos, lookup_delete_utxos.
    - case_decide as Hin; [|done].
      apply list_elem_of_fmap in Hin as (u & -> & (i & Hi & Hu)%list_elem_of_omap).
      rewrite (Hkey _ _ Hu) in Hk. destruct Hk. by apply list_elem_of_fmap_2.
    - intros (u & -> & Hu)%list_elem_of_fmap. rewrite Forall_forall in Hcr.
      apply (Hv (tu_vout u)). unfold utxo_key. by rewrite (Hcr u Hu). }
  destruct Hop as [|e r st1 Hp Hacc]; [done|]. apply parseCoveTx_Cove in Hp.
  destruct e; cbn [cove_accepted] in Hacc.
  - destruct Hacc as (tx' & cr & tid & scr & hash & _ & _ & _ & _ & _ & _ & _ & _ & _ & ->). done.
  - destruct Hacc as (tx' & meta & prior & next & gross & fee & cfee & scr & car & cr & hash & _ & _
      & _ & _ & _ & _ & _ & _ & _ & _ & _ & _ & _ & _ & _ & _ & _ & ->). cbn [tokenUtxos with_tables].
    rewrite lookup_insert_ne; [done|]. intros <-. by apply (Hv 2).
  - destruct Hacc as (tx' & spent & created & _ & Htx' & -> & _ & _ & _ & Hcr & _ & ->). simplify_eq.
    apply transfer_outputs_created in Hcr as (_ & _ & Hcr); [by apply Hmove|].
    destruct Hp as (_ & _ & _ & Hpos & _). eapply Forall_impl; [exact Hpos|]. by intros ? [? ?].
  - destruct Hacc as (tx' & prior & spent & created & next & gross & fee & payout & scr & hash & _ & _
      & Htx' & _ & -> & _ & _ & _ & Hch & _ & _ & _ & _ & _ & _ & _ & _ & ->). simplify_eq. apply Hmove.
    destruct Hch as [(_ & _ & ->)|(s & _ & _ & _ & _ & ->)]; [constructor|by apply Forall_singleton].
Qed.

(** ** The theorems *)

(** The states the indexer reaches on the blocks of a chain. *)
Inductive reachable : V3IndexerState → Prop :=
  | reach_new : reachable (new_state config)
  | reach_block st b :
      reachable st → Forall distinct_inputs (blk_txs b) → reachable (applyBlock config st b).1.

Lemma reachable_wf st : reachable st → wf st.
Proof. induction 1; [apply wf_new_state|by apply wf_applyBlock]. Qed.

(** C1: whatever blocks the indexer applies (blocks that throw halfway
    included), every token's reserve is a state of the curve: its vault holds
    the anchor and exactly R(issued), at most 21,000 lots are issued, the live
    carriers never hold more than what is issued, and any whole number of live
    lots is accepted for redemption. *)
Theorem indexer_solvent st t b :
  reachable st → backing st !! t = Some b →
  ∃ k, 0 ≤ k ≤ MAX_LOTS ∧ bk_state b = state_at t k
  ∧ bk_btcValue b = INDEXER_RESERVE_ANCHOR_SATS + lot_reserve k
  ∧ 0 ≤ live (tokenUtxos st) t ≤ k * LOT_ATOMS
  ∧ ∀ q, 0 < q → q * LOT_ATOMS ≤ live (tokenUtxos st) t →
      applyRedeemV2 (bk_state b) (q * LOT_ATOMS)
      = Ok {| nextState := state_at t (k - q); grossSats := lot_reserve k - lot_reserve (k - q) |}.
Proof.
  intros [Hb _ _ Hu]%reachable_wf Hbt. pose proof (Hb t b Hbt) as [_ Ht Hv Hval _ _].
  apply validateStateV2_Ok in Hv as (Htid & k & Hk & Es). rewrite Ht in Htid, Es.
  exists k. rewrite Es in Hval. pose proof (uo_supply _ _ Hu t b Hbt) as Hs. rewrite Es in Hs. cbn in Hs.
  pose proof (live_nonneg _ t (uo_positive _ _ Hu)) as Hn.
  split_and!; [lia..|done|done|done|done|]. intros q Hq Hle. apply applyRedeemV2_Ok.
  exists k, q. rewrite Es. cbn [tokenIdV2 state_at].
  assert (0 < LOT_ATOMS) by done. split_and!; try done; nia.
Qed.

(** C28: undoing the block just applied gives back exactly the state before it:
    tables, events, journal, cursor and state root. *)
Theorem undoBlock_applyBlock st block st' evs :
  reachable st → next_block st block → applyBlock config st block = (st', Ok evs) →
  undoBlock config st' (blk_height block) = Ok st.
Proof. intros Hr. by apply undoBlock_applyBlock_eq, reachable_wf. Qed.

(** C2: a reorganisation is indistinguishable from indexing the new chain from
    the start.  The indexer has indexed [common ++ stale], where [common] ends
    with a block it has a journal for; Bitcoin Core is on [common ++ new], with
    another hash at each stale height; then [reorgToTip] undoes the stale
    blocks downwards, replays the new ones, and ends in the state of a fresh
    index of [common ++ new], with its root. *)
Theorem reorgToTip_is_fresh_index provider h common stale new st stB stC a u :
  follows (new_state config) h common → index_blocks (new_state config) common = Ok st →
  0 < a → cur_height (cursor st) = a →
  undoByHeight st !! a = Some u → getBlockHash provider a = Ok (bu_blockHash u) →
  follows st (a + 1) stale → index_blocks st stale = Ok stB →
  Forall (λ b, ∃ hash, getBlockHash provider (blk_height b) = Ok hash ∧ blk_hash b ≠ hash) stale →
  getBlockchainInfo provider = Ok (a + Z.of_nat (length new)) →
  serves provider (a + 1) new → index_blocks (new_state config) (common ++ new) = Ok stC →
  reorgToTip config provider stB
  = (stC, Ok {| commonAncestor := a; orphanedBlocks := reverse (blk_height <$> stale);
                replayedBlocks := blk_height <$> new; finalRoot := stateRoot stC |}).
Proof.
  intros Hfc Hc. rewrite index_blocks_app, Hc, bind_of_Ok. intros. eapply reorgToTip_chain; try done.
  by eapply wf_index_blocks; [apply wf_new_state| |].
Qed.

(** C30: the indexer's operations implement the protocol's acceptance rules:
    an operation is accepted, with its result, undo record and effect on the
    tables, exactly under the declarative conditions of [cove_accepted];
    otherwise, if it returns at all, the state is untouched. *)
Theorem applyCove_spec st txid rawHex e block r st' :
  (applyCove config st txid rawHex e block = Ok (r, st') ∧ ar_valid r = true
   ↔ cove_accepted st txid rawHex e block r st')
  ∧ (applyCove config st txid rawHex e block = Ok (r, st') → ar_valid r = false →
     st' = st ∧ ar_undo r = None ∧ ar_curve r = None).
Proof. split; [apply applyCove_accepted|apply applyCove_rejected]. Qed.

(** no carrier survives the transaction that spends it: after a transaction
    of any kind none of its inputs holds a token, and the carriers that are
    neither its inputs nor its outputs are untouched. *)
Theorem apply_tx_consumes_inputs st block i rawHex ops evs st' tx :
  reachable st → distinct_inputs rawHex → tx_fromHex rawHex = Some tx →
  apply_tx config st block i rawHex = Ok (ops, evs, st') →
  (∀ inp, inp ∈ tx_ins tx → tokenUtxos st' !! in_key inp = None)
  ∧ ∀ k, k ∉ in_key <$> tx_ins tx → (∀ v, k ≠ outpointKey (getId tx) v) →
      tokenUtxos st' !! k = tokenUtxos st !! k.
Proof.
  intros Hwf%reachable_wf Hd Htx (tx' & st1 & ops1 & m & spent & Htx' & Hop & Hb & _ & -> & _)%apply_tx_Ok.
  simplify_eq. pose proof (wf_op_step _ _ _ _ _ _ Hwf Hd Hop) as Hwf1.
  destruct (foldl_record_tables evs (with_utxos st1 m)) as (_ & _ & -> & _). cbn.
  apply burn_inputs_spec in Hb as (new & _ & _ & -> & Hnone & Hsub); [|apply (uo_keyed _ _ (wf_utxos _ Hwf1))].
  split; [done|]. intros k Hk Hv. rewrite lookup_delete_utxos. case_decide as Hin.
  - apply list_elem_of_fmap in Hin as (u & -> & (j & Hj & Ej)%Hsub). destruct Hk.
    rewrite Ej. by apply list_elem_of_fmap_2.
  - by eapply op_step_other.
Qed.

Lemma envelope_magic e : readUInt16BE0 (envelope_bytes e) = COVE_WIRE_MAGIC.
Proof.
  pose proof (readHeaderV2_envelope e) as H. unfold readHeaderV2 in H. res_inv H. by to_prop.
Qed.

Lemma subarray_push b0 b1 payload :
  subarray (b0 :: b1 :: payload) 2 (blen (b0 :: b1 :: payload)) = payload.
Proof. rewrite (subarray_app_r [b0; b1] payload) by done. by apply subarray_all; cbn; autorewrite with cove_len; lia. Qed.

(** a transaction is a Cove message exactly when its first output is one
    direct push after OP_RETURN of the canonical bytes of a valid envelope. *)
Theorem parseCoveTx_spec rawHex e :
  parseCoveTx rawHex = Cove e ↔
  ∃ tx out, tx_fromHex rawHex = Some tx ∧ tx_outs tx !! 0%nat = Some out ∧ valid_envelope e
  ∧ txo_script out = to_byte 0x6a :: to_byte (blen (envelope_bytes e)) :: envelope_bytes e.
Proof.
  unfold parseCoveTx. split.
  - intros H. destruct (tx_fromHex rawHex) as [tx|]; [|done].
    destruct (tx_outs tx !! 0%nat) as [out|] eqn:Eo; [|done]. exists tx, out.
    split_and!; [done..| |]; destruct (txo_script out) as [|b0 [|b1 payload]]; try done;
      rewrite ?subarray_push in H; change (byte_at (b0 :: b1 :: payload) 0) with (Some (u8 b0)) in H;
      change (byte_at (b0 :: b1 :: payload) 1) with (Some (u8 b1)) in H;
      repeat case_match; simplify_eq; to_prop; cbn [default] in *;
      match goal with Hd : decodeV2 _ = Ok _ |- _ => apply decodeV2_Ok in Hd as [Hv ->] end; [done|].
    autorewrite with cove_len in *. f_equal; [|f_equal].
    + rewrite <-(to_byte_u8 b0). f_equal. naive_solver.
    + rewrite <-(to_byte_u8 b1). f_equal. unfold id in *. lia.
  - intros (tx & out & -> & -> & Hv & ->). pose proof (blen_envelope_small e Hv) as Hl.
    rewrite subarray_push. set (p := envelope_bytes e) in *.
    change (byte_at (to_byte 0x6a :: to_byte (blen p) :: p) 0) with (Some 0x6a).
    change (byte_at (to_byte 0x6a :: to_byte (blen p) :: p) 1) with (Some (u8 (to_byte (blen p)))).
    rewrite u8_to_byte_small by lia. rewrite bool_decide_eq_true_2 by done. cbn [default negb]. unfold id.
    destruct (Z.ltb_spec (blen (to_byte 0x6a :: to_byte (blen p) :: p)) 2) as [Hlt|_];
      [autorewrite with cove_len in Hlt; lia|]. cbn [orb].
    destruct (Z.eqb_spec (blen (to_byte 0x6a :: to_byte (blen p) :: p)) (2 + blen p)) as [_|Hne];
      [|autorewrite with cove_len in Hne; lia]. cbn [negb].
    destruct (Z.ltb_spec (blen p) 4); [lia|]. change (readUInt16BE0 p) with (readUInt16BE0 (envelope_bytes e)). rewrite envelope_magic, Z.eqb_refl.
    cbn [negb orb]. unfold p. by rewrite decodeV2_envelope_bytes.
Qed.
End Spec.
