(* ===== verification/IndexerExamples.v ===== *)
(** * A concrete chain

    Instances of the indexer's parameters and a small chain, on which the
    hypotheses of the indexer's theorems hold. *)
From S2P Require Import Prelude Bytes Curve Economics Wire Covenant Vault Indexer IndexerInv.

(** ** Checking the hypotheses by computation *)
#[export] Instance V3Cursor_eq_dec : EqDecision V3Cursor.
Proof. solve_decision. Defined.

Section Checks.
Context {C : Crypto} {B : Bitcoin} {L : Locale}.

Definition distinctb (raw : string) : bool :=
  match tx_fromHex raw with
  | Some tx => bool_decide (NoDup (in_key <$> tx_ins tx))
  | None => true
  end.

Lemma distinctb_ok txs : forallb distinctb txs = true → Forall distinct_inputs txs.
Proof.
  intros H. apply Forall_forall. intros raw Hin tx Htx.
  rewrite forallb_forall in H. specialize (H raw (proj1 (list_elem_of_In _ _) Hin)).
  unfold distinctb in H. rewrite Htx in H. by apply bool_decide_eq_true in H.
Qed.

(** No carrier of the map is an output of the transaction. *)
Definition freshb (m : gmap string V3TokenUtxo) (txid : string) : bool :=
  bool_decide (Forall (λ kv, kv.1 = utxo_key kv.2 ∧ String.length (tu_txid kv.2) = 64%nat
                             ∧ tu_txid kv.2 ≠ txid) (map_to_list m)).

Lemma freshb_ok m tx : freshb m (getId tx) = true → fresh m (getId tx).
Proof.
  intros H%bool_decide_eq_true v. destruct (m !! outpointKey (getId tx) v) as [u|] eqn:E; [|done].
  rewrite Forall_forall in H. apply elem_of_map_to_list, H in E as (Ek & Hl & Hne). exfalso. cbn in *.
  apply Hne. unfold utxo_key, outpointKey in Ek. apply (f_equal utf8) in Ek. rewrite !utf8_app in Ek.
  apply app_inj_1 in Ek as [Ek _]; [symmetry; by apply utf8_inj|].
  by rewrite !utf8_length, getId_length.
Qed.

Definition prior_cursor (config : V3IndexerConfig) (st : V3IndexerState) (h : Z) : V3Cursor :=
  match undoByHeight st !! (h - 1) with
  | Some prior => {| cur_network := cfg_network config; cur_height := h - 1;
                     cur_blockHash := bu_blockHash prior; cur_stateRoot := stateRoot st |}
  | None => {| cur_network := cfg_network config; cur_height := 0; cur_blockHash := "";
               cur_stateRoot := stateRoot st |}
  end.

Definition nextb (config : V3IndexerConfig) (st : V3IndexerState) (b : V3BlockInput) : bool :=
  (cfg_genesisHeight config <=? blk_height b) && forallb distinctb (blk_txs b)
  && bool_decide (NoDup (omap (λ raw, getId <$> tx_fromHex raw) (blk_txs b)))
  && forallb (λ raw, match tx_fromHex raw with
                     | Some tx => freshb (tokenUtxos st) (getId tx)
                     | None => true
                     end) (blk_txs b)
  && match undoByHeight st !! blk_height b with None => true | Some _ => false end
  && bool_decide (Forall (λ e, ev_blockHeight e ≠ blk_height b) (events st))
  && bool_decide (cursor st = prior_cursor config st (blk_height b)).

Lemma nextb_ok config st b : nextb config st b = true → next_block config st b.
Proof.
  unfold nextb. rewrite !andb_true_iff, !bool_decide_eq_true. intros ((((((H1 & H2) & H3) & H4) & H6) & H7) & H8).
  split; [lia|by apply distinctb_ok|done| | |done|done].
  - intros raw tx Hin Htx. rewrite forallb_forall in H4.
    specialize (H4 raw (proj1 (list_elem_of_In _ _) Hin)). rewrite Htx in H4. by apply freshb_ok.
  - by destruct (undoByHeight st !! blk_height b).
Qed.

Fixpoint followsb (config : V3IndexerConfig) (st : V3IndexerState) (h : Z) (bs : list V3BlockInput) : bool :=
  match bs with
  | [] => true
  | b :: bs => (blk_height b =? h) && nextb config st b
               && followsb config (applyBlock config st b).1 (h + 1) bs
  end.

Lemma followsb_ok config st h bs : followsb config st h bs = true → follows config st h bs.
Proof.
  revert st h. induction bs as [|b bs IH]; intros st h; cbn; [done|].
  rewrite !andb_true_iff. intros [[? ?] ?]. split_and!; [lia|by apply nextb_ok|by apply IH].
Qed.
End Checks.

(** ** The chain

    A deployment, a mint of two lots, a transfer that splits them, and a
    redemption of one lot, with a stale and a new branch. *)
#[local] Existing Instance toy_crypto.

Definition toy_getId (tx : Tx) : string :=
  toHex (zeros 28 ++ be_bytes 4 (zsum (txo_value <$> tx_outs tx) * 1000 + zsum (in_index <$> tx_ins tx))).

Lemma toy_getId_length tx : String.length (toy_getId tx) = 64%nat.
Proof. unfold toy_getId. by rewrite toHex_length, length_app, be_bytes_length. Qed.

Definition toy_p2tr (z : Z) : list byte := [to_byte 0x51; to_byte 0x20] ++ toy_key z.
Definition toy_config : V3IndexerConfig := {|
  cfg_network := Regtest; cfg_chainIdentity := "regtest"; cfg_guardianXOnly := toy_key 5;
  cfg_recoveryKeyXOnly := toy_key 6; cfg_recoveryProfile := None; cfg_feeScript := toy_p2tr 9;
  cfg_genesisHeight := 1; cfg_buyFeeBps := None; cfg_buyFeeFlatSats := None;
  cfg_creatorFeeBps := None; cfg_redeemFeeBps := None; cfg_redeemFeeFlatSats := None |}.

Definition toy_out (script : list byte) (value : Z) : TxOut := {| txo_script := script; txo_value := value |}.
Definition toy_in (txid : string) (i : Z) : TxIn := {| in_hash := reverse (fromHex txid); in_index := i |}.
Definition toy_message (e : ParsedEnvelopeV2) : TxOut :=
  toy_out (to_byte 0x6a :: to_byte (blen (envelope_bytes e)) :: envelope_bytes e) 0.
Definition no_txid : string := toHex (zeros 32).

Definition toy_token : list byte :=
  get_ok [] (computeTokenId toy_hash {| chainIdentity := "regtest"; policyVersion := 3;
    Wire.ticker := "COVE"; Wire.tokenNonce := toy_key 1; creatorScript := toy_p2tr 3 |}).
Definition toy_state (k : Z) : CoveStateV2 := state_at (toHex toy_token) k.
Definition toy_vault_out (k : Z) : TxOut :=
  toy_out (v3_scriptPubKey (get_ok no_vault3 (toy_vault (toy_state k)))) (10000 + lot_reserve k).
Definition LOT : Z := LOT_ATOMS.

Definition toy_deploy : Tx := {|
  tx_ins := [toy_in no_txid 1];
  tx_outs := [toy_message (DeployV2 3 "COVE" (toy_key 1)); toy_vault_out 0; toy_out (toy_p2tr 3) 1000] |}.

Definition toy_mint_of (funding : Z) (backingTx : Tx) (k q : Z) : Tx :=
  let gross := lot_reserve (k + q) - lot_reserve k in {|
  tx_ins := [toy_in (toy_getId backingTx) 1; toy_in no_txid funding];
  tx_outs := [toy_message (MintV2 toy_token (q * LOT) 2); toy_vault_out (k + q); toy_out (toy_p2tr 4) 1000;
    toy_out (toy_p2tr 9) (get_ok 0 (mintFeeSats gross (q * LOT) (buyFeeBps COVE_FEE_CONFIG)
      (buyFeeFlatSats COVE_FEE_CONFIG) (buyFeeLotSats COVE_FEE_CONFIG)));
    toy_out (toy_p2tr 3) (get_ok 0 (creatorFeeSats gross (creatorFeeBps COVE_FEE_CONFIG)))] |}.

Definition toy_mint : Tx := toy_mint_of 2 toy_deploy 0 400.
Definition toy_mint_bis : Tx := toy_mint_of 7 toy_mint 400 1.

Definition toy_transfer : Tx := {|
  tx_ins := [toy_in (toy_getId toy_mint) 2];
  tx_outs := [toy_message (TransferV2 toy_token [Alloc 1 (399 * LOT); Alloc 2 LOT]);
    toy_out (toy_p2tr 5) 1000; toy_out (toy_p2tr 6) 1000] |}.

Definition toy_redeem : Tx :=
  let gross := lot_reserve 400 - lot_reserve 200 in
  let fee := get_ok 0 (redeemFeeSats gross (redeemFeeBps COVE_FEE_CONFIG)
    (redeemFeeFlatSats COVE_FEE_CONFIG) (redeemFeeMinSats COVE_FEE_CONFIG)) in {|
  tx_ins := [toy_in (toy_getId toy_mint) 1; toy_in (toy_getId toy_transfer) 1];
  tx_outs := [toy_message (RedeemV2 toy_token (200 * LOT) [Alloc 4 (199 * LOT)]); toy_vault_out 200;
    toy_out (toy_p2tr 5) (gross - fee); toy_out (toy_p2tr 9) fee; toy_out (toy_p2tr 5) 1000] |}.

(** An ordinary wallet spends the carrier of one lot: a burn. *)
Definition toy_sweep : Tx := {|
  tx_ins := [toy_in (toy_getId toy_transfer) 2]; tx_outs := [toy_out (toy_p2tr 8) 900] |}.

(** The carrier of one lot is sold for 100000 sats. *)
Definition toy_sale : Tx := {|
  tx_ins := [toy_in (toy_getId toy_transfer) 2; toy_in no_txid 11];
  tx_outs := [toy_message (TransferV2 toy_token [Alloc 1 LOT]); toy_out (toy_p2tr 7) 1000;
    toy_out (toy_p2tr 6) 100000; toy_out (toy_p2tr 9) 7500; toy_out (toy_p2tr 8) 48000] |}.

#[local] Instance toy_bitcoin : Bitcoin := {|
  tx_fromHex s :=
    if String.eqb s "deploy" then Some toy_deploy else if String.eqb s "mint" then Some toy_mint
    else if String.eqb s "mint-bis" then Some toy_mint_bis
    else if String.eqb s "transfer" then Some toy_transfer else if String.eqb s "redeem" then Some toy_redeem
    else if String.eqb s "sweep" then Some toy_sweep else if String.eqb s "sale" then Some toy_sale else None;
  getId := toy_getId;
  getId_length := toy_getId_length;
|}.

#[local] Instance toy_locale : Locale := {|
  sort_by_locale A key l := l;
  sort_by_locale_perm A key l := reflexivity l;
|}.

Definition toy_block (h : Z) (hash : string) (txs : list string) : V3BlockInput :=
  {| blk_height := h; blk_hash := hash; blk_parentHash := ""; blk_txs := txs |}.

Definition toy_b1 := toy_block 1 "b1" ["deploy"%string].
Definition toy_b2 := toy_block 2 "b2" ["mint"%string; "transfer"%string].
Definition toy_b3 := toy_block 3 "b3" ["redeem"%string; "sweep"%string].
Definition toy_c3 := toy_block 3 "c3" ["mint-bis"%string].
Definition toy_c4 := toy_block 4 "c4" ["sweep"%string].

Definition toy_after (bs : list V3BlockInput) : V3IndexerState :=
  get_ok (new_state toy_config) (index_blocks toy_config (new_state toy_config) bs).

(** ** Witnesses *)
Lemma toy_reachable bs :
  forallb (λ b, forallb distinctb (blk_txs b)) bs = true →
  reachable toy_config (foldl (λ st b, (applyBlock toy_config st b).1) (new_state toy_config) bs).
Proof.
  induction bs as [|b bs IH] using rev_ind; [intros _; apply reach_new|].
  rewrite forallb_app, foldl_app, andb_true_iff. cbn. intros [H1 H2%andb_true_iff].
  apply reach_block; [by apply IH|]. apply distinctb_ok, H2.
Qed.

Definition toy_chain (bs : list V3BlockInput) : V3IndexerState :=
  foldl (λ st b, (applyBlock toy_config st b).1) (new_state toy_config) bs.

Definition no_backing : V3Backing :=
  next_backing "" (state_at "" 0) "" [] "" toy_b1.

Lemma indexer_solvent_witness :
  let st := toy_chain [toy_b1; toy_b2; toy_b3] in
  let t := toHex toy_token in
  live (tokenUtxos st) t = 199 * LOT_ATOMS
  ∧ ∃ k, 0 ≤ k ≤ MAX_LOTS ∧ 0 ≤ live (tokenUtxos st) t ≤ k * LOT_ATOMS.
Proof.
  intros st t. split; [vm_compute; reflexivity|].
  destruct (indexer_solvent toy_config st t (default no_backing (backing st !! t))) as (k & Hk & _ & _ & Hl & _).
  - apply toy_reachable. vm_compute. reflexivity.
  - vm_compute. reflexivity.
  - exists k. split; [exact Hk|exact Hl].
Defined.

Definition no_events (r : result (list V3Event)) : list V3Event := match r with Ok e => e | Throw _ => [] end.

Lemma undoBlock_applyBlock_witness :
  let st := toy_chain [toy_b1; toy_b2] in
  undoBlock toy_config (applyBlock toy_config st toy_b3).1 3 = Ok st.
Proof.
  intros st.
  apply (undoBlock_applyBlock toy_config st toy_b3 (applyBlock toy_config st toy_b3).1
    (no_events (applyBlock toy_config st toy_b3).2)).
  - apply toy_reachable. vm_compute. reflexivity.
  - apply nextb_ok. vm_compute. reflexivity.
  - vm_compute. reflexivity.
Defined.

Definition toy_provider : CoreRpcProvider := {|
  getBlockchainInfo := Ok 4;
  getBlockHash h := if h =? 1 then Ok "b1"%string else if h =? 2 then Ok "b2"%string
                    else if h =? 3 then Ok "c3"%string else Ok "c4"%string;
  getBlock hash := if String.eqb hash "c3"
                   then Ok {| cb_hash := "c3"; cb_previousBlockHash := ""; cb_rawTxs := ["mint-bis"%string] |}
                   else Ok {| cb_hash := "c4"; cb_previousBlockHash := ""; cb_rawTxs := ["sweep"%string] |};
|}.

Definition no_undo : BlockUndo := {| bu_height := 0; bu_blockHash := ""; bu_ops := [] |}.

Lemma reorgToTip_is_fresh_index_witness :
  reorgToTip toy_config toy_provider (toy_after [toy_b1; toy_b2; toy_b3])
  = (toy_after [toy_b1; toy_b2; toy_c3; toy_c4],
     Ok {| commonAncestor := 2; orphanedBlocks := reverse (blk_height <$> [toy_b3]);
           replayedBlocks := blk_height <$> [toy_c3; toy_c4];
           finalRoot := stateRoot (toy_after [toy_b1; toy_b2; toy_c3; toy_c4]) |}).
Proof.
  apply (reorgToTip_is_fresh_index toy_config toy_provider 1 [toy_b1; toy_b2] [toy_b3] [toy_c3; toy_c4]
    (toy_after [toy_b1; toy_b2]) (toy_after [toy_b1; toy_b2; toy_b3])
    (toy_after [toy_b1; toy_b2; toy_c3; toy_c4]) 2
    (default no_undo (undoByHeight (toy_after [toy_b1; toy_b2]) !! 2))).
  - apply followsb_ok. vm_compute. reflexivity.
  - vm_compute. reflexivity.
  - vm_compute. reflexivity.
  - vm_compute. reflexivity.
  - vm_compute. reflexivity.
  - vm_compute. reflexivity.
  - apply followsb_ok. vm_compute. reflexivity.
  - vm_compute. reflexivity.
  - constructor; [|constructor]. exists "c3"%string. split; [vm_compute; reflexivity|discriminate].
  - reflexivity.
  - cbn. split_and!; try reflexivity; eexists; split; reflexivity.
  - vm_compute. reflexivity.
Defined.

Definition toy_sweep_run : list UndoOp * list V3Event * V3IndexerState :=
  get_ok ([], [], new_state toy_config)
    (apply_tx toy_config (toy_chain [toy_b1; toy_b2]) toy_b3 1 "sweep").

Lemma apply_tx_consumes_inputs_witness :
  let k := outpointKey (toy_getId toy_transfer) 2 in
  tu_amountAtoms <$> tokenUtxos (toy_chain [toy_b1; toy_b2]) !! k = Some LOT_ATOMS
  ∧ tokenUtxos toy_sweep_run.2 !! k = None.
Proof.
  intros k. split; [vm_compute; reflexivity|].
  refine (proj1 (apply_tx_consumes_inputs toy_config (toy_chain [toy_b1; toy_b2]) toy_b3 1 "sweep"
    toy_sweep_run.1.1 toy_sweep_run.1.2 toy_sweep_run.2 toy_sweep _ _ _ _)
    (toy_in (toy_getId toy_transfer) 2) _).
  - apply toy_reachable. vm_compute. reflexivity.
  - apply (proj1 (Forall_singleton _ _)). apply distinctb_ok. vm_compute. reflexivity.
  - reflexivity.
  - vm_compute. reflexivity.
  - left.
Defined.
