(* ===== verification/StateRoot.v ===== *)
(** * The state root of the indexer

    What [computeStateRoot] commits to: the root does not depend on the order
    of the maps or of the locale, and it determines every field it prints. *)
From S2P Require Import Prelude Bytes Vault Indexer.

(** ** Sorting *)
#[export] Instance string_leP_total : Total string_leP.
Proof. intros a b. apply bytes_le_total. Qed.
#[export] Instance string_leP_trans : Transitive string_leP.
Proof. intros a b c. apply bytes_le_trans. Qed.
#[export] Instance string_leP_antisymm : AntiSymm (=) string_leP.
Proof. intros a b ? ?. by apply utf8_inj, bytes_le_antisym. Qed.

Lemma sort_strings_perm l : sort_strings l ≡ₚ l.
Proof. apply merge_sort_Permutation. Qed.

Lemma sort_strings_unique l l' : l ≡ₚ l' → sort_strings l = sort_strings l'.
Proof.
  intros H. apply (Sorted_unique string_leP).
  - apply Sorted_merge_sort, _.
  - apply Sorted_merge_sort, _.
  - by rewrite !sort_strings_perm.
Qed.

(** ** The facts of a state *)

(** The fields that one line prints. *)
Definition token_fields (t : V3TokenMeta) : list string :=
  ["TOKEN"%string; tm_tokenId t; tm_ticker t; pretty (tm_policyVersion t); tm_tokenNonce t;
   tm_deployTxid t; pretty (tm_deployHeight t); tm_creatorScript t].
Definition backing_fields (b : V3Backing) : list string :=
  ["BACKING"%string; bk_tokenId b; bk_stateHash b; op_txid (bk_outpoint b);
   pretty (op_vout (bk_outpoint b)); pretty (bk_btcValue b)].
Definition utxo_fields (u : V3TokenUtxo) : list string :=
  ["UTXO"%string; tu_txid u; pretty (tu_vout u); tu_tokenId u; pretty (tu_amountAtoms u);
   tu_scriptPubKey u].

Definition facts (ts : list V3TokenMeta) (bs : list V3Backing) (us : list V3TokenUtxo)
    : list (list string) :=
  (token_fields <$> ts) ++ (backing_fields <$> bs) ++ (utxo_fields <$> us).

Definition pipe : ascii := "|".
Definition lf : ascii := ascii_of_nat 10.
(** No field holds a separator (hex, digits and canonical tickers do not). *)
Definition printable (f : list string) : bool :=
  forallb (λ s, free pipe s && free lf s) f && negb (bool_decide (f = [])).

Lemma printable_line f :
  printable f = true →
  Forall (λ s, free pipe s = true) f ∧ f ≠ [] ∧ free lf (line f) = true.
Proof.
  unfold printable. rewrite andb_true_iff, negb_true_iff, bool_decide_eq_false, forallb_forall.
  intros [Hf Hne]. split_and!; [|done|].
  - apply Forall_forall. intros s Hs. apply list_elem_of_In, Hf in Hs. by apply andb_true_iff in Hs as [? _].
  - clear Hne. unfold line. induction f as [|s [|s' f] IH]; [done| |].
    + specialize (Hf s (or_introl eq_refl)). by apply andb_true_iff in Hf as [_ ?].
    + change "|"%string with (String pipe ""). rewrite concat_cons, free_app.
      rewrite (proj2 (proj1 (andb_true_iff _ _) (Hf s (or_introl eq_refl)))). cbn [andb].
      apply free_cons. split; [done|]. apply IH. intros x Hx. apply Hf. by right.
Qed.

Lemma line_inj f f' : printable f = true → printable f' = true → line f = line f' → f = f'.
Proof.
  intros (? & ? & _)%printable_line (? & ? & _)%printable_line. by apply (concat_inj pipe).
Qed.

Section Root.
Context {C : Crypto}.

Definition root_body (ts : list V3TokenMeta) (bs : list V3Backing) (us : list V3TokenUtxo) : string :=
  String.concat newline (sort_strings (line <$> facts ts bs us)).

Lemma computeStateRoot_facts (L : Locale) ts bs us :
  computeStateRoot ts bs us
  = toHex (sha256 (utf8 V3_STATE_ROOT_DOMAIN ++ utf8 newline ++ utf8 (root_body ts bs us))).
Proof.
  unfold computeStateRoot, root_body. do 6 f_equal. apply sort_strings_unique.
  unfold facts. rewrite !fmap_app, !sort_by_locale_perm. by rewrite <-!list_fmap_compose.
Qed.

Lemma root_body_perm ts bs us ts' bs' us' :
  facts ts bs us ≡ₚ facts ts' bs' us' → root_body ts bs us = root_body ts' bs' us'.
Proof. intros H. unfold root_body. f_equal. apply sort_strings_unique. by rewrite H. Qed.

Lemma map_inj_perm (l l' : list (list string)) :
  Forall (λ f, printable f = true) l → Forall (λ f, printable f = true) l' →
  line <$> l ≡ₚ line <$> l' → l ≡ₚ l'.
Proof.
  intros Hl Hl' HP. destruct (Permutation_map_inv _ _ HP) as (k & E & Hk). rewrite Hk.
  assert (Forall (λ f, printable f = true) k) as Hpk by by rewrite <-Hk.
  clear HP Hk Hl'. enough (l = k) as -> by done.
  revert k E Hpk. induction Hl as [|f l Hf _ IH]; intros [|f' k] E; try done.
  injection E as E1 E2. intros [Hf' Hk]%Forall_cons. f_equal; [by apply line_inj|by apply IH].
Qed.

Definition printable_facts ts bs us : Prop := Forall (λ f, printable f = true) (facts ts bs us).

(** C36: the state root commits to the state: it does not depend on the order
    in which the maps list their entries nor on the locale's collation, and
    two states with one root print the same facts (tokens, reserves with their
    outpoints and values, carriers with their amounts and owners), or SHA-256
    has a collision. *)
Theorem stateRoot_commits (L L' : Locale) ts bs us ts' bs' us' :
  (facts ts bs us ≡ₚ facts ts' bs' us' →
   @computeStateRoot C L ts bs us = @computeStateRoot C L' ts' bs' us')
  ∧ (printable_facts ts bs us → printable_facts ts' bs' us' →
     facts ts bs us ≠ [] → facts ts' bs' us' ≠ [] →
     @computeStateRoot C L ts bs us = @computeStateRoot C L' ts' bs' us' →
     facts ts bs us ≡ₚ facts ts' bs' us'
     ∨ ∃ a b, a ≠ b ∧ sha256 a = sha256 b).
Proof.
  rewrite !computeStateRoot_facts. split.
  - intros H. by rewrite (root_body_perm _ _ _ _ _ _ H).
  - intros Hp Hp' Hne Hne' E. apply toHex_inj in E.
    destruct (decide (root_body ts bs us = root_body ts' bs' us')) as [Eb|Nb].
    + left. apply map_inj_perm; [done..|].
      rewrite <-(sort_strings_perm (line <$> facts ts bs us)), <-(sort_strings_perm (line <$> facts ts' bs' us')).
      apply reflexive_eq. apply (concat_inj lf); try done.
      * rewrite sort_strings_perm. apply Forall_fmap. eapply Forall_impl; [exact Hp|]. by intros f (_ & _ & ?)%printable_line.
      * rewrite sort_strings_perm. apply Forall_fmap. eapply Forall_impl; [exact Hp'|]. by intros f (_ & _ & ?)%printable_line.
      * intros En. apply (f_equal length) in En. rewrite sort_strings_perm, length_fmap in En.
        by destruct (facts ts bs us).
      * intros En. apply (f_equal length) in En. rewrite sort_strings_perm, length_fmap in En.
        by destruct (facts ts' bs' us').
    + right. eexists _, _. split; [|exact E]. intros Ea. apply Nb.
      by apply utf8_inj, (app_inv_head (utf8 V3_STATE_ROOT_DOMAIN ++ utf8 newline)); rewrite <-!app_assoc.
Qed.
End Root.

(** A state's root, listed backwards. *)
#[local] Existing Instance toy_crypto.
#[local] Instance locale_id : Locale := {|
  sort_by_locale A key l := l; sort_by_locale_perm A key l := reflexivity l |}.
#[local] Instance locale_rev : Locale := {|
  sort_by_locale A key l := reverse l; sort_by_locale_perm A key l := reverse_Permutation l |}.

Definition example_utxo (v : Z) : V3TokenUtxo := {|
  tu_txid := "aa"; tu_vout := v; tu_tokenId := "bb"; tu_amountAtoms := 5; tu_scriptPubKey := "5120";
  tu_createdHeight := 1; tu_createdBlockHash := "cc" |}.

Lemma stateRoot_commits_witness :
  let us := [example_utxo 1; example_utxo 2] in
  printable_facts [] [] us
  ∧ @computeStateRoot toy_crypto locale_id [] [] us = @computeStateRoot toy_crypto locale_rev [] [] (reverse us).
Proof.
  intros us. split; [apply (bool_decide_unpack _); vm_compute; reflexivity|].
  apply (proj1 (stateRoot_commits locale_id locale_rev [] [] us [] [] (reverse us))).
  unfold facts. cbn [fmap list_fmap app]. apply fmap_Permutation. symmetry. apply reverse_Permutation.
Defined.
