(* ===== verification/Spend.v ===== *)
(** * PSBTs, spends and miner fees: packages/bitcoin/src

    [spend.ts] (what a wallet needs to sign an input, and the check of its
    signature) and [fees.ts] (sizes and miner fees).

    bitcoinjs-lib's payments, transaction hashes and signature checks are the
    class [BitcoinJs]; its PSBT is its fields. *)
From S2P Require Import Prelude Bytes Curve Economics Wire Vault Indexer.

(** ** What the program reads and writes of a [bitcoin.Psbt]

    [psbt.txInputs[i]] and [psbt.data.inputs[i]] are one record: the library
    keeps one PSBT input per transaction input. *)
Record TapLeafScript := {
  tls_leafVersion : Z; tls_script : list byte; tls_controlBlock : list byte
}.
Record PartialSig := { ps_pubkey : list byte; ps_signature : list byte }.

Record PsbtInput := {
  psi_txin : TxIn;
  psi_sequence : option Z;
  psi_witnessUtxo : option TxOut;
  psi_redeemScript : option (list byte);
  psi_partialSig : option (list PartialSig);
  psi_tapKeySig : option (list byte);
  psi_tapInternalKey : option (list byte);
  psi_tapMerkleRoot : option (list byte);
  psi_tapLeafScript : option (list TapLeafScript);
  psi_finalScriptWitness : option (list byte);
}.

Record Psbt := { psbt_inputs : list PsbtInput; psbt_outputs : list TxOut }.

(** A transaction without signatures. *)
Record UnsignedIn := { ui_txin : TxIn; ui_sequence : Z }.
Record UnsignedTx := { utx_version : Z; utx_ins : list UnsignedIn; utx_outs : list TxOut }.

Class BitcoinJs := {
  (** [payments.p2wpkh({ pubkey }).output], [payments.p2sh({ redeem }).output]
      of the redeem script, [payments.p2tr({ internalPubkey }).output] *)
  p2wpkh_output : list byte → result (list byte);
  p2sh_output : list byte → result (list byte);
  p2tr_output : list byte → result (list byte);
  (** the unsigned transaction of a PSBT's global map *)
  globalTx : Psbt → UnsignedTx;
  (** [tx.hashForWitnessV1(index, prevOutScripts, values, hashType, leafHash)] *)
  hashForWitnessV1 : UnsignedTx → Z → list (list byte) → list Z → Z → option (list byte) → result (list byte);
  (** [ecc.verifySchnorr(hash, xOnly, signature)] *)
  verifySchnorr : list byte → list byte → list byte → result bool;
  (** [psbt.validateSignaturesOfInput(index, ecc.verify)] *)
  validateSignaturesOfInput : Psbt → Z → result bool;
  (** [tx.getId()] *)
  unsigned_getId : UnsignedTx → string;
}.

Definition undefined_prop : exn := Exn ETypeError None "Cannot read properties of undefined".

(** ** spend.ts *)
Inductive SpendKind := KindP2wpkh | KindP2shP2wpkh | KindP2tr.

Definition isP2SH (script : list byte) : bool :=
  (blen script =? 23) && at_is script 0 0xa9 && at_is script 1 0x14 && at_is script 22 0x87.

Definition spendKindOf (script : list byte) : option SpendKind :=
  if isP2WPKH script then Some KindP2wpkh
  else if isP2TR script then Some KindP2tr
  else if isP2SH script then Some KindP2shP2wpkh
  else None.

Definition xOnly (publicKey : list byte) : list byte :=
  if blen publicKey =? 32 then publicKey else subarray publicKey 1 33.

Definition kind_name (k : SpendKind) : string :=
  match k with KindP2wpkh => "p2wpkh" | KindP2shP2wpkh => "p2sh-p2wpkh" | KindP2tr => "p2tr" end.

Record SpendableInput := {
  si_txid : string; si_vout : Z; si_script : list byte; si_valueSats : Z; si_publicKey : option (list byte)
}.

(** [psbt.addInput({ hash, index, witnessUtxo })]: the hash of an id is its
    bytes in reverse. *)
Definition base_input (txid : string) (vout : Z) (script : list byte) (valueSats : Z) : PsbtInput := {|
  psi_txin := {| in_hash := reverse (fromHex txid); in_index := vout |}; psi_sequence := None;
  psi_witnessUtxo := Some {| txo_script := script; txo_value := valueSats |};
  psi_redeemScript := None; psi_partialSig := None; psi_tapKeySig := None; psi_tapInternalKey := None;
  psi_tapMerkleRoot := None; psi_tapLeafScript := None; psi_finalScriptWitness := None |}.

Definition with_redeemScript (i : PsbtInput) (s : list byte) : PsbtInput := {|
  psi_txin := psi_txin i; psi_sequence := psi_sequence i; psi_witnessUtxo := psi_witnessUtxo i;
  psi_redeemScript := Some s; psi_partialSig := psi_partialSig i; psi_tapKeySig := psi_tapKeySig i;
  psi_tapInternalKey := psi_tapInternalKey i; psi_tapMerkleRoot := psi_tapMerkleRoot i;
  psi_tapLeafScript := psi_tapLeafScript i; psi_finalScriptWitness := psi_finalScriptWitness i |}.

Definition with_tap (i : PsbtInput) (key root : option (list byte)) (leaves : option (list TapLeafScript))
    : PsbtInput := {|
  psi_txin := psi_txin i; psi_sequence := psi_sequence i; psi_witnessUtxo := psi_witnessUtxo i;
  psi_redeemScript := psi_redeemScript i; psi_partialSig := psi_partialSig i; psi_tapKeySig := psi_tapKeySig i;
  psi_tapInternalKey := key; psi_tapMerkleRoot := root; psi_tapLeafScript := leaves;
  psi_finalScriptWitness := psi_finalScriptWitness i |}.

(** The first [n] characters of a text of ASCII digits. *)
Definition slice_text (n : nat) (s : string) : string := String.substring 0 n s.

Section Spend.
Context {J : BitcoinJs}.

Definition scriptForKind (kind : SpendKind) (publicKey : list byte) : result (list byte) :=
  match kind with
  | KindP2wpkh => p2wpkh_output publicKey
  | KindP2shP2wpkh => redeem ← p2wpkh_output publicKey; p2sh_output redeem
  | KindP2tr => p2tr_output (xOnly publicKey)
  end.

Definition cannot_spend (input : SpendableInput) (why : string) : exn :=
  js_error ("cannot spend " +:+ si_txid input +:+ ":" +:+ pretty (si_vout input) +:+ ": " +:+ why).

Definition psbtInputFor (input : SpendableInput) : result PsbtInput :=
  kind ← of_option (cannot_spend input ("unsupported address type (script "
           +:+ slice_text 16 (toHex (si_script input)) +:+ "…)")) (spendKindOf (si_script input));
  let base := base_input (si_txid input) (si_vout input) (si_script input) (si_valueSats input) in
  match kind with
  | KindP2wpkh => Ok base
  | _ =>
      publicKey ← of_option (cannot_spend input ("a " +:+ kind_name kind +:+ " input needs the owner's public key"))
        (si_publicKey input);
      derived ← scriptForKind kind publicKey;
      throw_if (negb (bytes_eqb derived (si_script input)))
        (cannot_spend input "the supplied public key does not control it");;
      match kind with
      | KindP2shP2wpkh => redeem ← p2wpkh_output publicKey; Ok (with_redeemScript base redeem)
      | _ => Ok (with_tap base (Some (xOnly publicKey)) None None)
      end
  end.

Definition WITNESS_VBYTES (kind : SpendKind) : Z :=
  match kind with KindP2wpkh => 27 | KindP2shP2wpkh => 50 | KindP2tr => 17 end.

Definition inputVbytes (kind : SpendKind) : Z := 41 + WITNESS_VBYTES kind.

Inductive SignatureFailure := UNSIGNED | NOT_SIGHASH_ALL | INVALID | UNSUPPORTED.
Inductive SignatureProblem := SigOk | SigBad (reason : SignatureFailure) (detail : string).

Definition SIGHASH_ALL : Z := 1.
Definition SIGHASH_DEFAULT : Z := 0.

(** [psbt.data.inputs.map((i) => i.witnessUtxo!)] *)
Fixpoint witness_utxos (inputs : list PsbtInput) : result (list TxOut) :=
  match inputs with
  | [] => Ok []
  | i :: rest => u ← of_option undefined_prop (psi_witnessUtxo i); us ← witness_utxos rest; Ok (u :: us)
  end.

(** The last byte of a buffer. *)
Definition last_byte (l : list byte) : option Z := byte_at l (blen l - 1).

Definition input_msg (index : Z) (what : string) : string := "input " +:+ pretty index +:+ what.

(** [try { ok = m } catch { ok = false }] and the answer for [ok]. *)
Definition signature_verdict (index : Z) (m : result bool) : SignatureProblem :=
  match m with Ok true => SigOk | _ => SigBad INVALID (input_msg index " signature invalid") end.

Definition check_taproot_signature (psbt : Psbt) (index : Z) (script : list byte) (sig : option (list byte))
    : SignatureProblem :=
  match sig with
  | None | Some [] => SigBad UNSIGNED (input_msg index " unsigned")
  | Some sig =>
      if (blen sig =? 65) && negb (at_is sig 64 SIGHASH_ALL)
      then SigBad NOT_SIGHASH_ALL (input_msg index (" taproot sighash 0x" +:+ byte_toString16 (default 0 (byte_at sig 64))
                                                +:+ " is not SIGHASH_ALL"))
      else if negb (blen sig =? 64) && negb (blen sig =? 65)
      then SigBad INVALID (input_msg index " taproot signature is malformed")
      else signature_verdict index
        (us ← witness_utxos (psbt_inputs psbt);
         let hashType := if blen sig =? 65 then default 0 (byte_at sig 64) else SIGHASH_DEFAULT in
         sighash ← hashForWitnessV1 (globalTx psbt) index (txo_script <$> us) (txo_value <$> us) hashType None;
         verifySchnorr sighash (subarray script 2 34) (subarray sig 0 64))
  end.

Definition check_ecdsa_signature (psbt : Psbt) (index : Z) (input : PsbtInput) (kind : SpendKind)
    : SignatureProblem :=
  match psi_partialSig input with
  | None | Some [] => SigBad UNSIGNED (input_msg index " unsigned")
  | Some (p :: _) =>
      if negb (bool_decide (last_byte (ps_signature p) = Some SIGHASH_ALL))
      then SigBad NOT_SIGHASH_ALL (input_msg index " is not SIGHASH_ALL")
      else match kind, psi_redeemScript input with
      | KindP2shP2wpkh, None =>
          SigBad INVALID (input_msg index " is nested segwit but carries no redeemScript")
      | _, _ => signature_verdict index (validateSignaturesOfInput psbt index)
      end
  end.

Definition checkSpendSignature (psbt : Psbt) (index : Z) : SignatureProblem :=
  match (if index <? 0 then None else psbt_inputs psbt !! Z.to_nat index) with
  | None => SigBad UNSIGNED (input_msg index " does not exist")
  | Some input =>
      match psi_witnessUtxo input with
      | None => SigBad UNSUPPORTED (input_msg index " has an unsupported script")
      | Some utxo =>
          match spendKindOf (txo_script utxo) with
          | None => SigBad UNSUPPORTED (input_msg index " has an unsupported script")
          | Some KindP2tr => check_taproot_signature psbt index (txo_script utxo) (psi_tapKeySig input)
          | Some kind => check_ecdsa_signature psbt index input kind
          end
      end
  end.

(** *** Serialized witness stacks *)
Definition range_error : exn := Exn ERangeError None "The value of offset is out of range".

Definition le_value (l : list byte) : Z := be_value (reverse l).

(** [buf.readUInt16LE(off)], [buf.readUInt32LE(off)], [buf.readBigUInt64LE(off)] *)
Definition readLE (n : nat) (buf : list byte) (off : Z) : result Z :=
  if (0 <=? off) && (off + Z.of_nat n <=? blen buf)
  then Ok (le_value (subarray buf off (off + Z.of_nat n))) else Throw range_error.

(** The number at offset [o] and the offset after it. *)
Definition varint (buf : list byte) (o : Z) : result (Z * Z) :=
  match byte_at buf o with
  | None => Throw range_error
  | Some b =>
      if b <? 0xfd then Ok (b, o + 1)
      else if b =? 0xfd then v ← readLE 2 buf (o + 1); Ok (v, o + 3)
      else v ← readLE 4 buf (o + 1); Ok (v, o + 5)
  end.

Fixpoint stack_items (n : nat) (buf : list byte) (o : Z) : result (list (list byte)) :=
  match n with
  | O => Ok []
  | S n =>
      '(len, o) ← varint buf o;
      items ← stack_items n buf (o + len);
      Ok (subarray buf o (o + len) :: items)
  end.

Definition witnessStack (buf : list byte) : result (list (list byte)) :=
  '(n, o) ← varint buf 0;
  stack_items (Z.to_nat n) buf o.

Definition with_signatures (i : PsbtInput) (redeem : option (list byte)) (partialSig : option (list PartialSig))
    (tapKeySig : option (list byte)) : PsbtInput := {|
  psi_txin := psi_txin i; psi_sequence := psi_sequence i; psi_witnessUtxo := psi_witnessUtxo i;
  psi_redeemScript := redeem; psi_partialSig := partialSig; psi_tapKeySig := tapKeySig;
  psi_tapInternalKey := psi_tapInternalKey i; psi_tapMerkleRoot := psi_tapMerkleRoot i;
  psi_tapLeafScript := psi_tapLeafScript i; psi_finalScriptWitness := None |}.

Definition is_empty {A} (o : option (list A)) : bool := match o with None | Some [] => true | _ => false end.

(** One round of the loop over the inputs. *)
Definition unfinalize_input (input : PsbtInput) : result PsbtInput :=
  match psi_finalScriptWitness input, psi_witnessUtxo input with
  | Some witness, Some utxo =>
      if negb (is_empty (psi_partialSig input)) || bool_decide (is_Some (psi_tapKeySig input)) then Ok input
      else
        stack ← witnessStack witness;
        match spendKindOf (txo_script utxo), stack with
        | Some KindP2wpkh, [sig; pubkey] =>
            Ok (with_signatures input (psi_redeemScript input)
                  (Some [{| ps_pubkey := pubkey; ps_signature := sig |}]) (psi_tapKeySig input))
        | Some KindP2shP2wpkh, [sig; pubkey] =>
            redeem ← p2wpkh_output pubkey;
            Ok (with_signatures input (Some redeem)
                  (Some [{| ps_pubkey := pubkey; ps_signature := sig |}]) (psi_tapKeySig input))
        | Some KindP2tr, [sig] =>
            if (blen sig =? 64) || (blen sig =? 65)
            then Ok (with_signatures input (psi_redeemScript input) (psi_partialSig input) (Some sig))
            else Ok input
        | _, _ => Ok input
        end
  | _, _ => Ok input
  end.

Fixpoint unfinalize_inputs (inputs : list PsbtInput) : result (list PsbtInput) :=
  match inputs with
  | [] => Ok []
  | i :: rest => i ← unfinalize_input i; rest ← unfinalize_inputs rest; Ok (i :: rest)
  end.

Definition unfinalizeKeyInputs (psbt : Psbt) : result Psbt :=
  inputs ← unfinalize_inputs (psbt_inputs psbt);
  Ok {| psbt_inputs := inputs; psbt_outputs := psbt_outputs psbt |}.
End Spend.

(** ** fees.ts *)
Inductive FeeErrorCode := MINER_FEE_TOO_LOW | MINER_FEE_TOO_HIGH.

Definition FeeError (code : FeeErrorCode) (message : string) : exn :=
  let c := match code with MINER_FEE_TOO_LOW => "MINER_FEE_TOO_LOW" | MINER_FEE_TOO_HIGH => "MINER_FEE_TOO_HIGH" end%string in
  Exn EFeeError (Some c) ("[" +:+ c +:+ "] " +:+ message).

Definition VB_TX_OVERHEAD : Z := 11.
Definition VB_INPUT_P2WPKH : Z := 68.
Definition VB_INPUT_P2TR_KEYPATH : Z := 58.
Definition VB_INPUT_P2SH_P2WPKH : Z := 91.
Definition VB_INPUT_VAULT : Z := 100.
Definition outputVbytes (scriptBytes : Z) : Z := 9 + scriptBytes.
Definition SCRIPT_BYTES_P2TR : Z := 34.

Record CoveTxShape := {
  vaultInputs : Z; p2wpkhInputs : Z; p2trInputs : option Z; p2shP2wpkhInputs : option Z;
  outputScriptBytes : list Z
}.

Definition estimateVsize (shape : CoveTxShape) : Z :=
  let inputs := vaultInputs shape * VB_INPUT_VAULT + p2wpkhInputs shape * VB_INPUT_P2WPKH
    + default 0 (p2trInputs shape) * VB_INPUT_P2TR_KEYPATH
    + default 0 (p2shP2wpkhInputs shape) * VB_INPUT_P2SH_P2WPKH in
  let outputs := foldl (λ sum len, sum + outputVbytes len) 0 (outputScriptBytes shape) in
  VB_TX_OVERHEAD + inputs + outputs.

Inductive FeeTierKey := Eco | Standard | Priority.
Record FeeTier := { ft_key : FeeTierKey; ft_label : string; ft_blocks : Z; ft_satPerVb : Z }.
Record FeeRates := {
  fr_floorSatPerVb : Z; fr_ceilingSatPerVb : Z; fr_tiers : list FeeTier; fr_estimated : bool
}.

Definition ABSOLUTE_FLOOR_SAT_PER_VB : Z := 1.
Definition ABSOLUTE_CEILING_SAT_PER_VB : Z := 500.

Definition TIER_TARGETS : list (FeeTierKey * string * Z) :=
  [(Eco, "Eco"%string, 12); (Standard, "Standard"%string, 3); (Priority, "Priority"%string, 1)].

Definition FALLBACK_SAT_PER_VB (k : FeeTierKey) : Z :=
  match k with Eco => 2 | Standard => 5 | Priority => 10 end.

(** What the node answers: the relay floor, and an estimate for a target. *)
Record FeeProvider := {
  getMempoolMinFeeSatPerVb : result Z;
  estimateFeeRateAt : Z → result (option Z);
}.

Definition safeMempoolFloor (provider : FeeProvider) : Z :=
  match getMempoolMinFeeSatPerVb provider with Ok f => f | Throw _ => ABSOLUTE_FLOOR_SAT_PER_VB end.

Definition safeEstimate (provider : FeeProvider) (blocks : Z) : option Z :=
  match estimateFeeRateAt provider blocks with Ok r => r | Throw _ => None end.

Fixpoint load_tiers (provider : FeeProvider) (floor : Z) (targets : list (FeeTierKey * string * Z))
    (previous : Z) (estimated : bool) : list FeeTier * bool :=
  match targets with
  | [] => ([], estimated)
  | (key, label, blocks) :: rest =>
      let estimate := safeEstimate provider blocks in
      let estimated := estimated || bool_decide (estimate = None) in
      let rate := default (FALLBACK_SAT_PER_VB key) estimate in
      let rate := if rate <? floor then floor else rate in
      let rate := if ABSOLUTE_CEILING_SAT_PER_VB <? rate then ABSOLUTE_CEILING_SAT_PER_VB else rate in
      let rate := if rate <? previous then previous else rate in
      let '(tiers, estimated) := load_tiers provider floor rest rate estimated in
      ({| ft_key := key; ft_label := label; ft_blocks := blocks; ft_satPerVb := rate |} :: tiers, estimated)
  end.

Definition loadFeeRates (provider : FeeProvider) : FeeRates :=
  let floorRaw := safeMempoolFloor provider in
  let floor := if ABSOLUTE_FLOOR_SAT_PER_VB <? floorRaw then floorRaw else ABSOLUTE_FLOOR_SAT_PER_VB in
  let '(tiers, estimated) := load_tiers provider floor TIER_TARGETS 0 false in
  {| fr_floorSatPerVb := floor; fr_ceilingSatPerVb := ABSOLUTE_CEILING_SAT_PER_VB; fr_tiers := tiers;
     fr_estimated := estimated |}.

Record ResolveMinerFeeInput := {
  rm_rateSatPerVb : option Z; rm_explicitSats : option Z; rm_vsize : Z; rm_floorSatPerVb : Z;
  rm_ceilingSatPerVb : Z; rm_maxMinerFeeSats : Z
}.
Record ResolvedMinerFee := { rf_minerFeeSats : Z; rf_vsize : Z; rf_effectiveSatPerVb : Z }.

(** Sizes are whole numbers here: [Math.ceil] does nothing. *)
Definition resolveMinerFee (input : ResolveMinerFeeInput) : result ResolvedMinerFee :=
  let vsize := Z.max 1 (rm_vsize input) in
  minerFeeSats ←
    match rm_rateSatPerVb input, rm_explicitSats input with
    | Some rate, _ =>
        throw_if (rate <=? 0) (FeeError MINER_FEE_TOO_LOW "fee rate must be positive");;
        Ok (rate * vsize)
    | None, Some sats => Ok sats
    | None, None => Throw (FeeError MINER_FEE_TOO_LOW "no fee rate or fee amount supplied")
    end;
  let effectiveSatPerVb := Z.quot minerFeeSats vsize in
  let what := pretty minerFeeSats +:+ " sats over " +:+ pretty vsize +:+ " vbytes is "
              +:+ pretty effectiveSatPerVb +:+ " sat/vB, " in
  throw_if (effectiveSatPerVb <? rm_floorSatPerVb input)
    (FeeError MINER_FEE_TOO_LOW (what +:+ "below the network's current relay floor of "
       +:+ pretty (rm_floorSatPerVb input) +:+ " sat/vB. This transaction would not confirm. "
       +:+ "Raise the fee to at least " +:+ pretty (rm_floorSatPerVb input * vsize) +:+ " sats."));;
  throw_if (rm_ceilingSatPerVb input <? effectiveSatPerVb)
    (FeeError MINER_FEE_TOO_HIGH (what +:+ "above the " +:+ pretty (rm_ceilingSatPerVb input)
       +:+ " sat/vB ceiling. Nothing on Bitcoin needs that rate."));;
  throw_if (rm_maxMinerFeeSats input <? minerFeeSats)
    (FeeError MINER_FEE_TOO_HIGH ("miner fee " +:+ pretty minerFeeSats +:+ " sats exceeds the "
       +:+ pretty (rm_maxMinerFeeSats input) +:+ "-sat cap"));;
  Ok {| rf_minerFeeSats := minerFeeSats; rf_vsize := vsize; rf_effectiveSatPerVb := effectiveSatPerVb |}.

(** ** The miner fee *)
Definition tiers_ok (floor previous : Z) (tiers : list FeeTier) : Prop :=
  Forall (λ t, Z.min floor ABSOLUTE_CEILING_SAT_PER_VB ≤ ft_satPerVb t ≤ ABSOLUTE_CEILING_SAT_PER_VB
               ∧ previous ≤ ft_satPerVb t) tiers
  ∧ StronglySorted (λ t u, ft_satPerVb t ≤ ft_satPerVb u) tiers.

Lemma load_tiers_ok provider floor targets previous estimated :
  previous ≤ ABSOLUTE_CEILING_SAT_PER_VB → tiers_ok floor previous (load_tiers provider floor targets previous estimated).1.
Proof.
  revert previous estimated. induction targets as [|[[key label] blocks] targets IH]; intros prev est Hp;
    cbn [load_tiers]; [by split; constructor|].
  set (rate0 := default _ (safeEstimate provider blocks)). clearbody rate0.
  set (rate1 := if rate0 <? floor then floor else rate0).
  set (rate2 := if ABSOLUTE_CEILING_SAT_PER_VB <? rate1 then ABSOLUTE_CEILING_SAT_PER_VB else rate1).
  set (rate3 := if rate2 <? prev then prev else rate2).
  assert (Z.min floor ABSOLUTE_CEILING_SAT_PER_VB ≤ rate3 ≤ ABSOLUTE_CEILING_SAT_PER_VB ∧ prev ≤ rate3) as H3.
  { unfold rate3, rate2, rate1. repeat case_match; to_prop; lia. }
  clearbody rate3. clear rate1 rate2.
  specialize (IH rate3 (est || bool_decide (safeEstimate provider blocks = None)) ltac:(lia)).
  destruct (load_tiers _ _ _ rate3 _) as [tiers e]. cbn in *. destruct IH as [Hf Hs]. split.
  - constructor; [cbn; lia|]. eapply Forall_impl; [exact Hf|]. cbn. lia.
  - constructor; [done|]. eapply Forall_impl; [exact Hf|]. cbn. lia.
Qed.

(** C40: the fee rates offered are usable: the tiers never decrease from Eco to
    Priority and none is above the ceiling; when the node's relay floor is not
    above the ceiling none is below the floor, and a fee computed from any tier
    is accepted, as that rate times the size, unless it breaks the cap in sats. *)
Theorem fee_tiers_accepted provider :
  let rates := loadFeeRates provider in
  StronglySorted (λ t u, ft_satPerVb t ≤ ft_satPerVb u) (fr_tiers rates)
  ∧ Forall (λ t, ft_satPerVb t ≤ fr_ceilingSatPerVb rates) (fr_tiers rates)
  ∧ (fr_floorSatPerVb rates ≤ fr_ceilingSatPerVb rates →
     ∀ t vsize cap, t ∈ fr_tiers rates →
       fr_floorSatPerVb rates ≤ ft_satPerVb t
       ∧ (ft_satPerVb t * Z.max 1 vsize ≤ cap →
          resolveMinerFee {| rm_rateSatPerVb := Some (ft_satPerVb t); rm_explicitSats := None;
            rm_vsize := vsize; rm_floorSatPerVb := fr_floorSatPerVb rates;
            rm_ceilingSatPerVb := fr_ceilingSatPerVb rates; rm_maxMinerFeeSats := cap |}
          = Ok {| rf_minerFeeSats := ft_satPerVb t * Z.max 1 vsize; rf_vsize := Z.max 1 vsize;
                  rf_effectiveSatPerVb := ft_satPerVb t |})).
Proof.
  cbn zeta. unfold loadFeeRates. set (floor := if ABSOLUTE_FLOOR_SAT_PER_VB <? _ then _ else _).
  assert (1 ≤ floor) as Hfl by (unfold floor, ABSOLUTE_FLOOR_SAT_PER_VB; case_match; to_prop; lia).
  clearbody floor. pose proof (load_tiers_ok provider floor TIER_TARGETS 0 false ltac:(done)) as [Hf Hs].
  destruct (load_tiers provider floor TIER_TARGETS 0 false) as [tiers e]. cbn in *. split_and!.
  - done.
  - eapply Forall_impl; [exact Hf|]. cbn. lia.
  - intros Hle t vsize cap Ht. rewrite Forall_forall in Hf. specialize (Hf t Ht). cbn in Hf.
    split; [lia|]. intros Hcap. unfold resolveMinerFee. cbn [rm_rateSatPerVb rm_vsize rm_floorSatPerVb
      rm_ceilingSatPerVb rm_maxMinerFeeSats]. guard_step lia. cbn beta. step_ok.
    rewrite Z.quot_mul by lia. guard_step lia. cbn beta. guard_step lia. cbn beta. by guard_step lia.
Qed.

(** a fee that is let through relays and is no mistake: its rate, truncated
    as Bitcoin Core truncates it, is between the floor and the ceiling and the
    fee is within the cap; a given rate is charged exactly, and a given fee is
    never changed. *)
Theorem resolveMinerFee_bounds input r :
  resolveMinerFee input = Ok r →
  rf_vsize r = Z.max 1 (rm_vsize input)
  ∧ rf_effectiveSatPerVb r = Z.quot (rf_minerFeeSats r) (rf_vsize r)
  ∧ rm_floorSatPerVb input ≤ rf_effectiveSatPerVb r ≤ rm_ceilingSatPerVb input
  ∧ rf_minerFeeSats r ≤ rm_maxMinerFeeSats input
  ∧ match rm_rateSatPerVb input with
    | Some rate => 0 < rate ∧ rf_minerFeeSats r = rate * rf_vsize r ∧ rf_effectiveSatPerVb r = rate
    | None => rm_explicitSats input = Some (rf_minerFeeSats r)
    end.
Proof.
  unfold resolveMinerFee. intros H. apply bind_Ok in H as (fee & Hfee & H). res_inv H. to_prop. subst r.
  cbn [rf_vsize rf_effectiveSatPerVb rf_minerFeeSats]. split_and!; try done; try lia.
  destruct (rm_rateSatPerVb input) as [rate|]; [|by destruct (rm_explicitSats input); simplify_eq].
  res_inv Hfee. to_prop. subst fee. split_and!; [lia|done|]. apply Z.quot_mul. lia.
Qed.

Lemma resolveMinerFee_bounds_witness :
  let input := {| rm_rateSatPerVb := Some 5; rm_explicitSats := None; rm_vsize := 370;
                  rm_floorSatPerVb := 1; rm_ceilingSatPerVb := 500; rm_maxMinerFeeSats := 20000 |} in
  1 ≤ rf_effectiveSatPerVb {| rf_minerFeeSats := 1850; rf_vsize := 370; rf_effectiveSatPerVb := 5 |} ≤ 500.
Proof.
  intros input. refine (proj1 (proj2 (proj2 (resolveMinerFee_bounds input
    {| rf_minerFeeSats := 1850; rf_vsize := 370; rf_effectiveSatPerVb := 5 |} _)))).
  vm_compute. reflexivity.
Defined.
