(* ===== verification/Guardian.v ===== *)
(** * The Guardian: packages/cove-guardian/src/v3

    [resolve.ts], [analyze.ts], [discoveryOutput.ts], [funding.ts],
    [witness.ts] and [validate.ts]: the Guardian reads a candidate transaction
    out of a PSBT, recomputes the covenant's transition from its view of the
    chain and decides whether to sign.

    The funding checks and the Simplicity program are parameters. *)
From S2P Require Import Prelude Bytes Curve Economics Wire Discovery Covenant Simplicity Vault Indexer Spend.

(** ** resolve.ts *)
Record PsbtInputView := {
  piv_index : Z; piv_outpoint : OutPoint; piv_script : list byte; piv_valueSats : Z
}.
Record PsbtOutputView := { pov_vout : Z; pov_script : list byte; pov_value : Z }.

Definition txin_outpoint (i : TxIn) : OutPoint := {| op_txid := in_txid i; op_vout := in_index i |}.

Definition readPsbtInputs (psbt : Psbt) : list PsbtInputView :=
  imap (λ i inp, {| piv_index := Z.of_nat i; piv_outpoint := txin_outpoint (psi_txin inp);
                    piv_script := default [] (txo_script <$> psi_witnessUtxo inp);
                    piv_valueSats := default 0 (txo_value <$> psi_witnessUtxo inp) |})
    (psbt_inputs psbt).

Definition readPsbtOutputs (psbt : Psbt) : list PsbtOutputView :=
  imap (λ v o, {| pov_vout := Z.of_nat v; pov_script := txo_script o; pov_value := txo_value o |})
    (psbt_outputs psbt).

(** The message in output 0's script. *)
Definition decode_push (script : list byte) : result ParsedEnvelopeV2 :=
  throw_if ((blen script <? 2) || negb (at_is script 0 0x6a)) (js_error "NO_COVE_OP_RETURN");;
  let len := default 0 (byte_at script 1) in
  throw_if (negb (blen script =? 2 + len)) (js_error "NONCANONICAL_WIRE");;
  decodeV2 (subarray script 2 (blen script)).

Definition decodeCoveOpReturn (psbt : Psbt) : result ParsedEnvelopeV2 :=
  out0 ← of_option (js_error "NO_OUTPUT_0") (psbt_outputs psbt !! 0%nat);
  decode_push (txo_script out0).

Definition decodeCoveOpReturnTx (tx : Tx) : result ParsedEnvelopeV2 :=
  match tx_outs tx !! 0%nat with
  | None => Throw (js_error "NO_COVE_OP_RETURN")
  | Some out0 => decode_push (txo_script out0)
  end.

(** Version 2, the default sequence where the PSBT gives none, empty input
    scripts. *)
Definition unsignedTransaction (psbt : Psbt) : UnsignedTx :=
  {| utx_version := 2;
     utx_ins := (λ i, {| ui_txin := psi_txin i; ui_sequence := default 0xffffffff (psi_sequence i) |})
                  <$> psbt_inputs psbt;
     utx_outs := psbt_outputs psbt |}.

(** ** resolver.ts of cove-covenant: the canonical view *)
Record CoveCanonicalView := {
  view_getBackingStateByOutpoint : OutPoint → option CoveStateV2;
  view_getCurrentBackingState : list byte → option CoveStateV2;
  view_getBackingOutpoint : list byte → option OutPoint;
  view_getTokenUtxo : OutPoint → option TokenUtxo;
  (** an optional method *)
  view_getTokenCreatorScript : option (list byte → option (list byte));
}.

(** The view an indexer state gives. *)
Definition indexer_view (st : V3IndexerState) : CoveCanonicalView := {|
  view_getBackingStateByOutpoint := getBackingStateByOutpoint st;
  view_getCurrentBackingState := getCurrentBackingState st;
  view_getBackingOutpoint := getBackingOutpoint st;
  view_getTokenUtxo := getTokenUtxo st;
  view_getTokenCreatorScript := Some (getTokenCreatorScript st);
|}.

(** ** types.ts *)
Record MintAnalysis := {
  ma_tokenId : list byte; ma_amountAtoms : Z; ma_recipientVout : Z;
  ma_currentState : CoveStateV2; ma_backingOutpoint : OutPoint; ma_nextState : CoveStateV2;
  ma_grossSats : Z; ma_protocolFeeSats : Z; ma_creatorFeeSats : Z; ma_creatorScript : list byte;
  ma_minerFeeSats : Z; ma_backingInputIndex : Z; ma_buyerInputIndices : list Z;
}.

Record RedeemAnalysis := {
  ra_tokenId : list byte; ra_redeemAmountAtoms : Z; ra_changeAllocations : list TokenAllocation;
  ra_currentState : CoveStateV2; ra_backingOutpoint : OutPoint;
  ra_tokenInputOutpoints : list OutPoint; ra_tokenInputTotalAtoms : Z; ra_nextState : CoveStateV2;
  ra_grossSats : Z; ra_protocolFeeSats : Z; ra_netPayoutSats : Z; ra_minerFeeSats : Z;
  ra_backingInputIndex : Z; ra_tokenInputIndices : list Z;
}.

Inductive CoveAnalysis := AMint (a : MintAnalysis) | ARedeem (a : RedeemAnalysis).

Inductive ValidationResult :=
  | VOk (analysis : CoveAnalysis) (simplicity : SimplicityExecutionResult)
  | VReject (reason detail : string).

(** ** analyze.ts *)
Definition CoveAnalyzeError (code msg : string) : exn := coded EAnalyzeError code msg.

(** The optional fee schedule the parameters of every Guardian entry carry. *)
Record FeeSchedule := {
  fs_buyFeeBps : option Z; fs_buyFeeFlatSats : option Z; fs_creatorFeeBps : option Z;
  fs_redeemFeeBps : option Z; fs_redeemFeeFlatSats : option Z;
}.

Definition show_outpoint (o : OutPoint) : string := op_txid o +:+ ":" +:+ pretty (op_vout o).

(** Input 0 of a transition spends the vault the view knows. *)
Definition check_backing_input (inputs : list PsbtInputView) (backingOutpoint : OutPoint) : result unit :=
  backingInput ← of_option (CoveAnalyzeError "BAD_PSBT" "no inputs") (inputs !! 0%nat);
  throw_if (negb (String.eqb (op_txid (piv_outpoint backingInput)) (op_txid backingOutpoint))
            || negb (op_vout (piv_outpoint backingInput) =? op_vout backingOutpoint))
    (CoveAnalyzeError "BACKING_VOUT_MISMATCH"
       ("input 0 spends " +:+ show_outpoint (piv_outpoint backingInput) +:+ ", expected "
        +:+ show_outpoint backingOutpoint)).

(** [inputs.reduce(valueSats) - outputs.reduce(value)] *)
Definition miner_fee (psbt : Psbt) : Z :=
  foldl (λ s i, s + piv_valueSats i) 0 (readPsbtInputs psbt)
  - foldl (λ s o, s + pov_value o) 0 (readPsbtOutputs psbt).

(** [try { ... } catch (e) { throw new CoveAnalyzeError("REFERENCE_POLICY_REJECTED", e.message) }] *)
Definition reference_policy {A} (m : result A) : result A :=
  try_catch m (λ e, Throw (CoveAnalyzeError "REFERENCE_POLICY_REJECTED" (exn_message e))).

Definition wrong_opcode (expected : string) (e : ParsedEnvelopeV2) : exn :=
  CoveAnalyzeError "WRONG_OPCODE"
    ("expected " +:+ expected +:+ ", got op 0x" +:+ byte_toString16 (envelope_op e)).

Definition analyzeMintTransitionV3 (psbt : Psbt) (view : CoveCanonicalView) (fees : FeeSchedule)
    : result MintAnalysis :=
  wire ← decodeCoveOpReturn psbt;
  match wire with
  | MintV2 tokenId amountAtoms recipientVout =>
      currentState ← of_option (CoveAnalyzeError "UNKNOWN_TOKEN" "token not deployed in view")
        (view_getCurrentBackingState view tokenId);
      backingOutpoint ← of_option (CoveAnalyzeError "UNKNOWN_TOKEN" "no canonical backing outpoint")
        (view_getBackingOutpoint view tokenId);
      let inputs := readPsbtInputs psbt in
      check_backing_input inputs backingOutpoint;;
      canonical ← reference_policy (applyMintV2 currentState amountAtoms);
      protocolFeeSats ← mintFeeSats (grossSats canonical) amountAtoms
        (default (buyFeeBps COVE_FEE_CONFIG) (fs_buyFeeBps fees))
        (default (buyFeeFlatSats COVE_FEE_CONFIG) (fs_buyFeeFlatSats fees))
        (buyFeeLotSats COVE_FEE_CONFIG);
      creatorScript ← of_option (CoveAnalyzeError "CREATOR_UNKNOWN" "the view has no creator for this token")
        (f ← view_getTokenCreatorScript view; f tokenId);
      creatorFee ← creatorFeeSats (grossSats canonical)
        (default (creatorFeeBps COVE_FEE_CONFIG) (fs_creatorFeeBps fees));
      Ok {| ma_tokenId := tokenId; ma_amountAtoms := amountAtoms; ma_recipientVout := recipientVout;
            ma_currentState := currentState; ma_backingOutpoint := backingOutpoint;
            ma_nextState := nextState canonical; ma_grossSats := grossSats canonical;
            ma_protocolFeeSats := protocolFeeSats; ma_creatorFeeSats := creatorFee;
            ma_creatorScript := creatorScript; ma_minerFeeSats := miner_fee psbt;
            ma_backingInputIndex := 0; ma_buyerInputIndices := piv_index <$> tail inputs |}
  | e => Throw (wrong_opcode "MINT" e)
  end.

(** The seller's carriers among the inputs after the first. *)
Fixpoint token_inputs (view : CoveCanonicalView) (tokenId : list byte) (inputs : list PsbtInputView)
    : result (list (Z * TokenUtxo)) :=
  match inputs with
  | [] => Ok []
  | i :: rest =>
      match view_getTokenUtxo view (piv_outpoint i) with
      | None => token_inputs view tokenId rest
      | Some tok =>
          throw_if (negb (bytes_eqb (vu_tokenId tok) tokenId))
            (CoveAnalyzeError "MIXED_TOKEN_INPUT"
               ("input " +:+ pretty (piv_index i) +:+ " is a different token"));;
          toks ← token_inputs view tokenId rest;
          Ok ((piv_index i, tok) :: toks)
      end
  end.

Definition analyzeRedeemTransitionV3 (psbt : Psbt) (view : CoveCanonicalView) (fees : FeeSchedule)
    : result RedeemAnalysis :=
  wire ← decodeCoveOpReturn psbt;
  match wire with
  | RedeemV2 tokenId redeemAmountAtoms changeAllocations =>
      currentState ← of_option (CoveAnalyzeError "UNKNOWN_TOKEN" "token not deployed in view")
        (view_getCurrentBackingState view tokenId);
      backingOutpoint ← of_option (CoveAnalyzeError "UNKNOWN_TOKEN" "no canonical backing outpoint")
        (view_getBackingOutpoint view tokenId);
      let inputs := readPsbtInputs psbt in
      check_backing_input inputs backingOutpoint;;
      toks ← token_inputs view tokenId (tail inputs);
      throw_if (length toks =? 0)%nat
        (CoveAnalyzeError "FORGED_TOKEN_INPUT" "no canonical token input resolves");;
      canonical ← reference_policy (applyRedeemV2 currentState redeemAmountAtoms);
      protocolFeeSats ← redeemFeeSats (grossSats canonical)
        (default (redeemFeeBps COVE_FEE_CONFIG) (fs_redeemFeeBps fees))
        (default (redeemFeeFlatSats COVE_FEE_CONFIG) (fs_redeemFeeFlatSats fees))
        (redeemFeeMinSats COVE_FEE_CONFIG);
      Ok {| ra_tokenId := tokenId; ra_redeemAmountAtoms := redeemAmountAtoms;
            ra_changeAllocations := changeAllocations; ra_currentState := currentState;
            ra_backingOutpoint := backingOutpoint; ra_tokenInputOutpoints := (vu_outpoint ∘ snd) <$> toks;
            ra_tokenInputTotalAtoms := foldl (λ s t, s + vu_amountAtoms t.2) 0 toks;
            ra_nextState := nextState canonical; ra_grossSats := grossSats canonical;
            ra_protocolFeeSats := protocolFeeSats;
            ra_netPayoutSats := grossSats canonical - protocolFeeSats;
            ra_minerFeeSats := miner_fee psbt; ra_backingInputIndex := 0;
            ra_tokenInputIndices := fst <$> toks |}
  | e => Throw (wrong_opcode "REDEEM" e)
  end.

(** ** discoveryOutput.ts *)
Record DiscoveryOutputCheck := {
  doc_present : bool; doc_agrees : bool; doc_allowance : Z; doc_reason : option string
}.

Definition opReturnPayload (script : list byte) : option (list byte) :=
  if (blen script <? 2) || negb (at_is script 0 0x6a) then None
  else
    let len := default 0 (byte_at script 1) in
    if (0x4b <? len) || negb (blen script =? 2 + len) then None
    else Some (subarray script 2 (blen script)).

Definition no_discovery : DiscoveryOutputCheck :=
  {| doc_present := false; doc_agrees := false; doc_allowance := 0; doc_reason := None |}.

(** The message's [slice(0, 96)] keeps the whole payload, which is at most 75
    bytes. *)
Definition checkDiscoveryOutput (outputs : list PsbtOutputView) (binary : ParsedEnvelopeV2)
    (ticker : option string) : DiscoveryOutputCheck :=
  let disagrees reason :=
    {| doc_present := true; doc_agrees := false; doc_allowance := 1; doc_reason := Some reason |} in
  match last outputs with
  | None => no_discovery
  | Some out =>
      if (length outputs <? 2)%nat then no_discovery
      else match opReturnPayload (pov_script out) with
      | None => no_discovery
      | Some payload =>
          match decodeDiscovery payload with
          | None => no_discovery
          | Some _ =>
              if negb (pov_value out =? 0)
              then disagrees ("discovery output carries " +:+ pretty (pov_value out) +:+ " sats; must be 0")
              else if negb (discoveryAgreesWithBinary payload binary ticker)
              then disagrees ("discovery envelope contradicts the binary envelope: "
                              +:+ toString_utf8 payload)
              else {| doc_present := true; doc_agrees := true; doc_allowance := 1; doc_reason := None |}
          end
      end
  end.

(** ** funding.ts *)
Inductive FundingInputVerdict := FundingOk | FundingRefused (code detail : string).

(** [FundingInputChecker.check] *)
Notation FundingInputChecker := (OutPoint → result FundingInputVerdict).

(** [getTxout], [isCoveCarrier] and [describeAssets] reject by throwing. *)
Definition chainFundingChecker (getTxout : OutPoint → result (option Z))
    (isCoveCarrier : OutPoint → result bool) (assets : option (OutPoint → result (option string)))
    (minConfirmations : option Z) : FundingInputChecker := λ o,
  let minConf := default 1 minConfirmations in
  let at_ := show_outpoint o in
  let refuse code detail := Ok (FundingRefused code detail) in
  match getTxout o with
  | Throw e => refuse "FUNDING_CHECK_UNAVAILABLE"%string ("could not look up " +:+ at_ +:+ ": " +:+ exn_message e)
  | Ok None => refuse "FUNDING_UNCONFIRMED"%string ("funding input " +:+ at_ +:+ " is spent or unknown")
  | Ok (Some confirmations) =>
  if confirmations <? minConf
  then refuse "FUNDING_UNCONFIRMED"%string
         ("funding input " +:+ at_ +:+ " is unconfirmed; wait for it to confirm")
  else match isCoveCarrier o with
  | Throw e => refuse "FUNDING_CHECK_UNAVAILABLE"%string
                 ("could not check " +:+ at_ +:+ " for Cove tokens: " +:+ exn_message e)
  | Ok true => refuse "FUNDING_HOLDS_TOKEN"%string ("funding input " +:+ at_ +:+ " holds Cove tokens")
  | Ok false =>
  match assets with
  | None => Ok FundingOk
  | Some describeAssets =>
  match describeAssets o with
  | Throw e => refuse "FUNDING_CHECK_UNAVAILABLE"%string
                 ("could not check " +:+ at_ +:+ " for inscriptions and runes: " +:+ exn_message e)
  | Ok (None | Some EmptyString) => Ok FundingOk
  | Ok (Some held) =>
      refuse "FUNDING_HOLDS_TOKEN"%string ("funding input " +:+ at_ +:+ " holds " +:+ held)
  end end end end.

(** ** validate.ts *)
Definition MINT_CARRIER_VOUT : nat := 2.
Definition MINT_FEE_VOUT : nat := 3.
Definition MINT_CREATOR_VOUT : nat := 4.
Definition REDEEM_SUCCESSOR_VOUT : nat := 1.
Definition REDEEM_PAYOUT_VOUT : nat := 2.
Definition REDEEM_FEE_VOUT : nat := 3.
Definition REDEEM_CHANGE_CARRIER_VOUT : nat := 4.

#[export] Instance VaultProfileVersion_eq_dec : EqDecision VaultProfileVersion.
Proof. solve_decision. Defined.

Definition reject (reason detail : string) : result ValidationResult := Ok (VReject reason detail).

(** [if (b) return reject(reason, detail);] and then [k]. *)
Definition reject_if (b : bool) (reason detail : string) (k : result ValidationResult)
    : result ValidationResult :=
  if b then reject reason detail else k.

(** [const x = o; if (!x) return reject(reason, detail);] and then [k x]. *)
Definition or_reject {A} (o : option A) (reason detail : string) (k : A → result ValidationResult)
    : result ValidationResult :=
  match o with Some x => k x | None => reject reason detail end.

Definition guardian_network (network : V3Network) : btc_network :=
  match network with
  | Regtest => NetRegtest
  | Mainnet => NetBitcoin
  | Testnet => NetTestnet
  | Signet => NetTestnet
  end.

(** [/^<prefix>[0-9a-f]{n}$/.test(hex)] *)
Fixpoint hex_pattern (prefix : string) (n : nat) (hex : string) : bool :=
  match prefix, hex with
  | String p prefix, String h hex => Ascii.eqb p h && hex_pattern prefix n hex
  | String _ _, EmptyString => false
  | EmptyString, _ => (String.length hex =? n)%nat && string_forallb is_lower_hex hex
  end.

(** The carrier test of [validate.ts], on the script's hex text. *)
Definition hexStandardCarrier (script : list byte) : bool :=
  let hex := toHex script in
  hex_pattern "5120" 64 hex || hex_pattern "0014" 40 hex.

Record ValidateParams := {
  vp_psbt : Psbt;
  vp_view : CoveCanonicalView;
  vp_network : V3Network;
  vp_guardianXOnly : list byte;
  vp_recoveryKeyXOnly : list byte;
  vp_recoveryProfile : option VaultRecoveryProfile;
  vp_feeScript : list byte;
  vp_maxMinerFeeSats : option Z;
  vp_fees : FeeSchedule;
  vp_discoveryTicker : option string;
  vp_fundingChecker : FundingInputChecker;
}.

(** [None] when every input at [indices] passes. *)
Fixpoint checkFundingInputs (params : ValidateParams) (indices : list Z) : result (option ValidationResult) :=
  match indices with
  | [] => Ok None
  | i :: rest =>
      txIn ← of_option (Exn ETypeError None "undefined") (psbt_inputs (vp_psbt params) !! Z.to_nat i);
      let outpoint := txin_outpoint (psi_txin txIn) in
      match view_getTokenUtxo (vp_view params) outpoint with
      | Some _ =>
          Ok (Some (VReject "FUNDING_HOLDS_TOKEN"
                      ("funding input " +:+ show_outpoint outpoint +:+ " holds Cove tokens")))
      | None =>
          verdict ← vp_fundingChecker params outpoint;
          match verdict with
          | FundingRefused code detail => Ok (Some (VReject code detail))
          | FundingOk => checkFundingInputs params rest
          end
      end
  end.

(** [(compiled | expected)Cmr] in a message *)
Definition show_cmr (o : option string) : string := default "null"%string o.

Definition failure_name (f : option SimplicityFailureCode) : string :=
  match f with
  | None => "undefined"
  | Some SIMPLICITY_BINARY_MISSING => "SIMPLICITY_BINARY_MISSING"
  | Some SIMPLICITY_EXECUTION_ERROR => "SIMPLICITY_EXECUTION_ERROR"
  | Some SIMPLICITY_TIMEOUT => "SIMPLICITY_TIMEOUT"
  | Some SIMPLICITY_MALFORMED_RESULT => "SIMPLICITY_MALFORMED_RESULT"
  | Some CMR_MISMATCH => "CMR_MISMATCH"
  | Some SIMPLICITY_REJECTED => "SIMPLICITY_REJECTED"
  end.

Definition is_cmr_mismatch (f : option SimplicityFailureCode) : bool :=
  match f with Some CMR_MISMATCH => true | _ => false end.

Section Validate.
Context {C : Crypto}.
(** The child process of the executor and the path of its program. *)
Context (execFile : string → list string → Z → exec_outcome) (bin : option string).

Definition transition_vault (params : ValidateParams) (state : CoveStateV2) : result CoveVaultV3 :=
  buildBackingVaultV3 state (vp_guardianXOnly params) (vp_recoveryKeyXOnly params)
    (vp_recoveryProfile params) (Some (guardian_network (vp_network params))).

(** Mainnet needs the MAINNET1 recovery profile. *)
Definition mainnet_without_profile (params : ValidateParams) : bool :=
  bool_decide (vp_network params = Mainnet)
  && negb (bool_decide (profileVersion <$> vp_recoveryProfile params = Some MAINNET1)).

(** [try { analysis = ... } catch (e) { return reject(...) }] *)
Definition analyzed {A} (m : result A) (k : A → result ValidationResult) : result ValidationResult :=
  match m with
  | Ok analysis => k analysis
  | Throw e =>
      match exn_class e, exn_code e with
      | EAnalyzeError, Some code => reject code (exn_message e)
      | _, _ => reject "REFERENCE_POLICY_REJECTED" (exn_message e)
      end
  end.

(** Input 0 is the vault of the current state, spent through [leaf]. *)
Definition check_backing_leaf (input0 : PsbtInput) (prevVault : CoveVaultV3) (leaf : CoveVaultLeaf)
    (controlBlock : list byte) (name : string) (k : result ValidationResult) : result ValidationResult :=
  reject_if (negb (bool_decide (psi_tapInternalKey input0 = Some (v3_numsKey prevVault))))
    "BACKING_SCRIPT_MISMATCH" "input 0 tapInternalKey != canonical NUMS key" $
  reject_if (negb (bool_decide (psi_tapMerkleRoot input0 = Some (v3_merkleRoot prevVault))))
    "BACKING_SCRIPT_MISMATCH" "input 0 tapMerkleRoot != canonical MAST root" $
  or_reject (leaves ← psi_tapLeafScript input0; head leaves)
    "WRONG_LEAF" "no tap leaf script on input 0" $ λ given,
  reject_if (negb (bytes_eqb (tls_script given) (leaf_script leaf)))
    "WRONG_LEAF" ("input 0 leaf is not the canonical " +:+ name +:+ " execution leaf") $
  reject_if (negb (bytes_eqb (tls_controlBlock given) controlBlock))
    "BAD_CONTROL_BLOCK" "input 0 control block is wrong" k.

(** Input 0 holds the anchor and the reserve; [k] takes the value. *)
Definition check_backing_value (input0 : PsbtInput) (currentState : CoveStateV2)
    (k : Z → result ValidationResult) : result ValidationResult :=
  utxo ← of_option (Exn ETypeError None "undefined") (psi_witnessUtxo input0);
  let expectedPrevValue := RESERVE_ANCHOR_SATS + backingSats currentState in
  let prevValue := txo_value utxo in
  reject_if (negb (prevValue =? expectedPrevValue))
    "BACKING_VALUE_MISMATCH" ("input 0 value " +:+ pretty prevValue +:+ " != anchor + R(old) "
                              +:+ pretty expectedPrevValue) (k prevValue).

(** Output 1 is the successor vault. *)
Definition check_successor (outputs : list PsbtOutputView) (nextVault : CoveVaultV3)
    (nextState : CoveStateV2) (k : result ValidationResult) : result ValidationResult :=
  let expected := RESERVE_ANCHOR_SATS + backingSats nextState in
  match outputs !! REDEEM_SUCCESSOR_VOUT with
  | None => reject "SUCCESSOR_SCRIPT_MISMATCH" "output 1 is not the canonical successor vault"
  | Some successor =>
      reject_if (negb (bytes_eqb (pov_script successor) (v3_scriptPubKey nextVault)))
        "SUCCESSOR_SCRIPT_MISMATCH" "output 1 is not the canonical successor vault" $
      reject_if (negb (pov_value successor =? expected))
        "SUCCESSOR_VALUE_MISMATCH" ("output 1 value " +:+ pretty (pov_value successor)
                                    +:+ " != anchor + R(next) " +:+ pretty expected) k
  end.

(** A carrier output: its value and its script. *)
Definition check_carrier (carrier : PsbtOutputView) (value_detail script_detail : string)
    (k : result ValidationResult) : result ValidationResult :=
  reject_if (negb (pov_value carrier =? TOKEN_CARRIER_SATS)) "CARRIER_VALUE_MISMATCH" value_detail $
  reject_if (negb (hexStandardCarrier (pov_script carrier))) "CARRIER_NOT_STANDARD" script_detail k.

(** Output 3 pays the protocol fee, which must not be dust. *)
Definition check_protocol_fee (params : ValidateParams) (outputs : list PsbtOutputView)
    (protocolFeeSats feeBps : Z) (k : result ValidationResult) : result ValidationResult :=
  or_reject (outputs !! MINT_FEE_VOUT) "FEE_MISMATCH" "no fee output at vout 3" $ λ feeOut,
  reject_if (negb (pov_value feeOut =? protocolFeeSats))
    "FEE_MISMATCH" ("fee " +:+ pretty (pov_value feeOut) +:+ " != " +:+ pretty protocolFeeSats) $
  reject_if (negb (bytes_eqb (pov_script feeOut) (vp_feeScript params)))
    "FEE_DESTINATION_MISMATCH" "fee output script is not the configured fee destination" $
  settlement ← checkFeeSettlement protocolFeeSats (vp_feeScript params) feeBps;
  reject_if (negb (isStandard settlement))
    "PROTOCOL_FEE_DUST" ("fee " +:+ pretty protocolFeeSats +:+ " < dust "
      +:+ pretty (dustThresholdSats settlement) +:+ "; minimum gross "
      +:+ from_option pretty "null" (minimumGrossForStandardFeeOutput settlement)) k.

(** The advisory message agrees, and there is no output past the last known one. *)
Definition check_outputs_end (params : ValidateParams) (outputs : list PsbtOutputView) (max : Z)
    (k : result ValidationResult) : result ValidationResult :=
  binary ← decodeCoveOpReturn (vp_psbt params);
  let discovery := checkDiscoveryOutput outputs binary (vp_discoveryTicker params) in
  reject_if (doc_present discovery && negb (doc_agrees discovery))
    "DISCOVERY_MISMATCH" (default "discovery envelope mismatch"%string (doc_reason discovery)) $
  reject_if (max + doc_allowance discovery <? Z.of_nat (length outputs))
    "UNEXPECTED_OUTPUT" ("too many outputs (" +:+ pretty (Z.of_nat (length outputs)) +:+ ")") k.

Definition check_miner_fee (params : ValidateParams) (minerFeeSats : Z) (k : result ValidationResult)
    : result ValidationResult :=
  let maxMinerFee := default 20000 (vp_maxMinerFeeSats params) in
  reject_if (minerFeeSats <? 0)
    "NEGATIVE_MINER_FEE" ("miner fee " +:+ pretty minerFeeSats +:+ " is negative") $
  reject_if (maxMinerFee <? minerFeeSats)
    "MINER_FEE_EXCEEDED" ("miner fee " +:+ pretty minerFeeSats +:+ " > " +:+ pretty maxMinerFee) k.

Definition funding_checked (params : ValidateParams) (indices : list Z) (k : result ValidationResult)
    : result ValidationResult :=
  rejection ← checkFundingInputs params indices;
  match rejection with Some r => Ok r | None => k end.

(** *** witness.ts *)
Definition buildCanonicalMintWitness (prevState nextState : CoveStateV2) (amountAtoms gross : Z)
    : MintWitness + string :=
  match buildMintSimplicityWitness sha256 prevState nextState amountAtoms gross with
  | Ok witness => inl witness
  | Throw e => inr (exn_message e)
  end.

Definition buildCanonicalRedeemWitness (prevState nextState : CoveStateV2) (amountAtoms gross : Z)
    : RedeemWitness + string :=
  match buildRedeemSimplicityWitness sha256 prevState nextState amountAtoms gross with
  | Ok witness => inl witness
  | Throw e => inr (exn_message e)
  end.

(** The verdict on the program's run. *)
Definition accept_execution (analysis : CoveAnalysis) (run : result SimplicityExecutionResult)
    : result ValidationResult :=
  sim ← run;
  reject_if (is_cmr_mismatch (failure sim))
    "CMR_MISMATCH" ("compiled CMR " +:+ show_cmr (actualCmr sim) +:+ " != " +:+ expectedCmr sim) $
  reject_if (negb (pass sim))
    "SIMPLICITY_REJECTED" ("Simplicity result: FAIL (" +:+ failure_name (failure sim) +:+ ")") $
  Ok (VOk analysis sim).

Definition validateMintTransitionV3 (params : ValidateParams) : result ValidationResult :=
  reject_if (mainnet_without_profile params)
    "MAINNET_PROFILE_REQUIRED" "mainnet requires the MAINNET1 recovery profile" $
  analyzed (analyzeMintTransitionV3 (vp_psbt params) (vp_view params) (vp_fees params)) $ λ analysis,
  prevVault ← transition_vault params (ma_currentState analysis);
  nextVault ← transition_vault params (ma_nextState analysis);
  input0 ← of_option (Exn ETypeError None "undefined") (psbt_inputs (vp_psbt params) !! 0%nat);
  check_backing_leaf input0 prevVault (v3_mintLeaf prevVault) (v3_mintControlBlock prevVault) "MINT" $
  check_backing_value input0 (ma_currentState analysis) $ λ _,
  let outputs := readPsbtOutputs (vp_psbt params) in
  reject_if (negb (ma_recipientVout analysis =? Z.of_nat MINT_CARRIER_VOUT))
    "CARRIER_MISSING" "canonical MINT carrier must be at vout 2" $
  check_successor outputs nextVault (ma_nextState analysis) $
  or_reject (outputs !! MINT_CARRIER_VOUT) "CARRIER_MISSING" "no carrier output at vout 2" $ λ carrier,
  check_carrier carrier
    ("carrier value " +:+ pretty (pov_value carrier) +:+ " != " +:+ pretty TOKEN_CARRIER_SATS)
    "carrier is not P2TR/P2WPKH" $
  check_protocol_fee params outputs (ma_protocolFeeSats analysis)
    (default (buyFeeBps COVE_FEE_CONFIG) (fs_buyFeeBps (vp_fees params))) $
  reject_if (negb match outputs !! MINT_CREATOR_VOUT with
                  | Some creatorOut => (pov_value creatorOut =? ma_creatorFeeSats analysis)
                                       && bytes_eqb (pov_script creatorOut) (ma_creatorScript analysis)
                  | None => false
                  end)
    "CREATOR_FEE_MISMATCH" ("vout 4 must pay the creator " +:+ pretty (ma_creatorFeeSats analysis) +:+ " sats") $
  check_outputs_end params outputs 6 $
  check_miner_fee params (ma_minerFeeSats analysis) $
  funding_checked params (ma_buyerInputIndices analysis) $
  match buildCanonicalMintWitness (ma_currentState analysis) (ma_nextState analysis)
          (ma_amountAtoms analysis) (ma_grossSats analysis) with
  | inr detail => reject "WITNESS_CONSTRUCTION_FAILED" detail
  | inl witness => accept_execution (AMint analysis) (executeMintV3 execFile witness bin None)
  end.

(** The change carrier of a redemption (output 4), or none. *)
Definition check_change (analysis : RedeemAnalysis) (outputs : list PsbtOutputView) (changeAtoms : Z)
    (k : result ValidationResult) : result ValidationResult :=
  if 0 <? changeAtoms then
    or_reject (outputs !! REDEEM_CHANGE_CARRIER_VOUT)
      "TOKEN_CHANGE_MISMATCH" "missing change carrier at vout 4" $ λ changeOut,
    check_carrier changeOut ("change carrier value " +:+ pretty (pov_value changeOut))
      "change carrier is not P2TR/P2WPKH" $
    reject_if (negb match ra_changeAllocations analysis with
                    | [a] => (vout a =? Z.of_nat REDEEM_CHANGE_CARRIER_VOUT) && (amount a =? changeAtoms)
                    | _ => false
                    end)
      "TOKEN_CHANGE_MISMATCH" "wire change allocation does not match vout 4" k
  else
    reject_if (negb (length (ra_changeAllocations analysis) =? 0)%nat)
      "TOKEN_INFLATION" "change allocations present on a full redeem" k.

(** Every input except the vault and the token carriers. *)
Definition funding_indices (analysis : RedeemAnalysis) (psbt : Psbt) : list Z :=
  filter (λ i, i ≠ 0 ∧ i ∉ ra_tokenInputIndices analysis) (imap (λ i _, Z.of_nat i) (psbt_inputs psbt)).

Definition validateRedeemTransitionV3 (params : ValidateParams) : result ValidationResult :=
  reject_if (mainnet_without_profile params)
    "MAINNET_PROFILE_REQUIRED" "mainnet requires the MAINNET1 recovery profile" $
  analyzed (analyzeRedeemTransitionV3 (vp_psbt params) (vp_view params) (vp_fees params)) $ λ analysis,
  prevVault ← transition_vault params (ra_currentState analysis);
  nextVault ← transition_vault params (ra_nextState analysis);
  input0 ← of_option (Exn ETypeError None "undefined") (psbt_inputs (vp_psbt params) !! 0%nat);
  check_backing_leaf input0 prevVault (v3_redeemLeaf prevVault) (v3_redeemControlBlock prevVault) "REDEEM" $
  check_backing_value input0 (ra_currentState analysis) $ λ prevValue,
  reject_if (ra_tokenInputTotalAtoms analysis <? ra_redeemAmountAtoms analysis)
    "TOKEN_OWNERSHIP_INSUFFICIENT" ("redeem " +:+ pretty (ra_redeemAmountAtoms analysis)
      +:+ " > token inputs " +:+ pretty (ra_tokenInputTotalAtoms analysis)) $
  let changeAtoms := ra_tokenInputTotalAtoms analysis - ra_redeemAmountAtoms analysis in
  let wireChangeSum := sum_allocations (ra_changeAllocations analysis) in
  reject_if (negb (wireChangeSum =? changeAtoms))
    "TOKEN_CHANGE_MISMATCH" ("wire change sum " +:+ pretty wireChangeSum +:+ " != token change "
                             +:+ pretty changeAtoms) $
  let outputs := readPsbtOutputs (vp_psbt params) in
  check_successor outputs nextVault (ra_nextState analysis) $
  or_reject (outputs !! REDEEM_PAYOUT_VOUT) "PAYOUT_MISMATCH" "no payout output at vout 2" $ λ payout,
  reject_if (negb (pov_value payout =? ra_netPayoutSats analysis))
    "PAYOUT_MISMATCH" ("payout " +:+ pretty (pov_value payout) +:+ " != net "
                       +:+ pretty (ra_netPayoutSats analysis)) $
  check_protocol_fee params outputs (ra_protocolFeeSats analysis)
    (default (redeemFeeBps COVE_FEE_CONFIG) (fs_redeemFeeBps (vp_fees params))) $
  check_change analysis outputs changeAtoms $
  check_outputs_end params outputs (if 0 <? changeAtoms then 6 else 5) $
  let backingOut := RESERVE_ANCHOR_SATS + backingSats (ra_nextState analysis)
                    + ra_netPayoutSats analysis + ra_protocolFeeSats analysis in
  reject_if (negb (prevValue =? backingOut))
    "BACKING_DECREASE_MISMATCH" ("backing input " +:+ pretty prevValue
      +:+ " != successor+payout+fee " +:+ pretty backingOut) $
  check_miner_fee params (ra_minerFeeSats analysis) $
  funding_checked params (funding_indices analysis (vp_psbt params)) $
  match buildCanonicalRedeemWitness (ra_currentState analysis) (ra_nextState analysis)
          (ra_redeemAmountAtoms analysis) (ra_grossSats analysis) with
  | inr detail => reject "WITNESS_CONSTRUCTION_FAILED" detail
  | inl witness => accept_execution (ARedeem analysis) (executeRedeemV3 execFile witness bin None)
  end.
End Validate.
