(* ===== verification/GuardianInv.v ===== *)
(** * What the Guardian signs

    The validator's checks as conditions ([mint_valid], [redeem_valid]), and
    the agreement of the Guardian with the indexer: what the Guardian signs,
    the indexer accepts with the same successor state. *)
From S2P Require Import Prelude Bytes Curve Economics Wire Discovery Covenant Simplicity Vault Indexer IndexerInv Spend Guardian.

(** ** The two carrier tests *)
Lemma hex_byte_pattern (h l : ascii) (v : Z) b :
  (h, l) ∈ [("5", "1"); ("2", "0"); ("0", "0"); ("1", "4")]%char →
  v = default 0 (hex_val h) * 16 + default 0 (hex_val l) →
  Ascii.eqb h (hex_digit (u8 b `div` 16)) && Ascii.eqb l (hex_digit (u8 b `mod` 16)) = (u8 b =? v).
Proof.
  intros Hin ->. apply list_elem_of_In in Hin. cbn in Hin.
  destruct Hin as [[= <- <-]|[[= <- <-]|[[= <- <-]|[[= <- <-]|[]]]]]; by destruct b.
Qed.

Lemma hex_pattern_any n l : hex_pattern "" n (toHex l) = (2 * length l =? n)%nat.
Proof. cbn [hex_pattern]. rewrite toHex_length, toHex_lower. by rewrite andb_true_r. Qed.

Lemma hex_pattern_two p0 p1 p2 p3 n b0 b1 l :
  hex_pattern (String p0 (String p1 (String p2 (String p3 "")))) n (toHex (b0 :: b1 :: l))
  = (Ascii.eqb p0 (hex_digit (u8 b0 `div` 16)) && Ascii.eqb p1 (hex_digit (u8 b0 `mod` 16)))
    && ((Ascii.eqb p2 (hex_digit (u8 b1 `div` 16)) && Ascii.eqb p3 (hex_digit (u8 b1 `mod` 16)))
    && (2 * length l =? n)%nat).
Proof. cbn [toHex]. cbn [hex_pattern]. rewrite <-hex_pattern_any. by rewrite <-!andb_assoc. Qed.

Lemma program_length b0 b1 l n :
  (2 * length l =? 2 * n)%nat = (blen (b0 :: b1 :: l) =? 2 + Z.of_nat n).
Proof.
  autorewrite with cove_len. unfold blen.
  destruct (Nat.eqb_spec (2 * length l) (2 * n)), (Z.eqb_spec (1 + (1 + Z.of_nat (length l))) (2 + Z.of_nat n)); lia.
Qed.

Lemma at_is_0 b l v : at_is (b :: l) 0 v = (u8 b =? v).
Proof.
  unfold at_is. change (byte_at (b :: l) 0) with (Some (u8 b)).
  destruct (Z.eqb_spec (u8 b) v) as [->|Hn]; [by apply bool_decide_eq_true|].
  apply bool_decide_eq_false. congruence.
Qed.
Lemma at_is_1 a b l v : at_is (a :: b :: l) 1 v = (u8 b =? v).
Proof. apply (at_is_0 b l v). Qed.

Lemma hexStandardCarrier_eq script : hexStandardCarrier script = isStandardCarrier script.
Proof.
  unfold hexStandardCarrier, isStandardCarrier, isP2TR, isP2WPKH.
  destruct script as [|b0 [|b1 l]]; [done|by destruct b0|].
  rewrite !hex_pattern_two, !at_is_0, !at_is_1.
  rewrite (hex_byte_pattern "5" "1" 0x51), (hex_byte_pattern "2" "0" 0x20),
    (hex_byte_pattern "0" "0" 0x00), (hex_byte_pattern "1" "4" 0x14) by (set_solver || done).
  change 64%nat with (2 * 32)%nat. change 40%nat with (2 * 20)%nat.
  rewrite !(program_length b0 b1). cbn [Z.of_nat Pos.of_succ_nat].
  change (2 + Z.of_nat 32) with 34. change (2 + Z.of_nat 20) with 22.
  f_equal; destruct (_ =? _), (_ =? _), (_ =? _); done.
Qed.

(** ** The checks as conditions *)
Definition signs (m : result ValidationResult) (a : CoveAnalysis) (s : SimplicityExecutionResult) : Prop :=
  m = Ok (VOk a s).

Lemma reject_if_signs b r d k a s : signs (reject_if b r d k) a s ↔ b = false ∧ signs k a s.
Proof. unfold signs, reject_if, reject. destruct b; naive_solver. Qed.

Lemma reject_if_not_signs b r d k a s : signs (reject_if (negb b) r d k) a s ↔ b = true ∧ signs k a s.
Proof. by rewrite reject_if_signs, negb_false_iff. Qed.

Lemma or_reject_signs {A} (o : option A) r d k a s :
  signs (or_reject o r d k) a s ↔ ∃ x, o = Some x ∧ signs (k x) a s.
Proof. unfold signs, or_reject, reject. destruct o; naive_solver. Qed.

Lemma bind_signs {A} (m : result A) k a s : signs (m ≫= k) a s ↔ ∃ x, m = Ok x ∧ signs (k x) a s.
Proof. apply bind_Ok. Qed.

Lemma analyzed_signs {A} (m : result A) k a s : signs (analyzed m k) a s ↔ ∃ x, m = Ok x ∧ signs (k x) a s.
Proof.
  unfold signs, analyzed, reject. destruct m as [x|e]; [naive_solver|].
  destruct (exn_class e), (exn_code e); naive_solver.
Qed.

(** Output [i] of a PSBT pays [value] to [script]. *)
Definition psbt_pays (psbt : Psbt) (i : nat) (script : list byte) (value : Z) : Prop :=
  psbt_outputs psbt !! i = Some {| txo_script := script; txo_value := value |}.

Lemma readPsbtOutputs_lookup psbt i o :
  readPsbtOutputs psbt !! i = Some o ↔
  psbt_pays psbt i (pov_script o) (pov_value o) ∧ pov_vout o = Z.of_nat i.
Proof.
  unfold readPsbtOutputs, psbt_pays. rewrite list_lookup_imap. destruct (psbt_outputs psbt !! i) as [[sc v]|]; cbn.
  - destruct o as [vo sc' v']. cbn. naive_solver.
  - naive_solver.
Qed.

Definition psbt_view (i : nat) (script : list byte) (value : Z) : PsbtOutputView :=
  {| pov_vout := Z.of_nat i; pov_script := script; pov_value := value |}.

Lemma psbt_pays_view psbt i script value :
  psbt_pays psbt i script value → readPsbtOutputs psbt !! i = Some (psbt_view i script value).
Proof. intros H. by apply readPsbtOutputs_lookup. Qed.

Lemma bytes_eqb_true a b : bytes_eqb a b = true ↔ a = b.
Proof. apply bool_decide_eq_true. Qed.

(** Input 0 spends the vault [v] through [leaf]. *)
Definition spends_leaf (input0 : PsbtInput) (v : CoveVaultV3) (leaf : CoveVaultLeaf)
    (controlBlock : list byte) : Prop :=
  psi_tapInternalKey input0 = Some (v3_numsKey v)
  ∧ psi_tapMerkleRoot input0 = Some (v3_merkleRoot v)
  ∧ ∃ given rest, psi_tapLeafScript input0 = Some (given :: rest)
    ∧ tls_script given = leaf_script leaf ∧ tls_controlBlock given = controlBlock.

Lemma check_backing_leaf_signs i v leaf cb name k a s :
  signs (check_backing_leaf i v leaf cb name k) a s ↔ spends_leaf i v leaf cb ∧ signs k a s.
Proof.
  unfold check_backing_leaf, spends_leaf.
  rewrite !reject_if_not_signs, or_reject_signs, !bool_decide_eq_true. split.
  - intros (? & ? & given & Hg & H). rewrite !reject_if_not_signs, !bytes_eqb_true in H.
    destruct (psi_tapLeafScript i) as [[|g l]|]; cbn in Hg; simplify_eq. naive_solver.
  - intros [(? & ? & given & rest & E & ? & ?) ?]. split_and!; try done. exists given. rewrite E.
    by rewrite !reject_if_not_signs, !bytes_eqb_true.
Qed.

Lemma check_backing_value_signs i st k a s :
  signs (check_backing_value i st k) a s ↔
  ∃ utxo, psi_witnessUtxo i = Some utxo ∧ txo_value utxo = RESERVE_ANCHOR_SATS + backingSats st
  ∧ signs (k (txo_value utxo)) a s.
Proof.
  unfold check_backing_value. rewrite bind_signs. setoid_rewrite of_option_Ok.
  setoid_rewrite reject_if_not_signs. by setoid_rewrite Z.eqb_eq.
Qed.

Lemma check_successor_signs psbt v st k a s :
  signs (check_successor (readPsbtOutputs psbt) v st k) a s ↔
  psbt_pays psbt 1 (v3_scriptPubKey v) (RESERVE_ANCHOR_SATS + backingSats st) ∧ signs k a s.
Proof.
  unfold check_successor, REDEEM_SUCCESSOR_VOUT. split.
  - destruct (readPsbtOutputs psbt !! 1%nat) as [o|] eqn:E; [|done].
    apply readPsbtOutputs_lookup in E as [E _]. rewrite !reject_if_not_signs, bytes_eqb_true, Z.eqb_eq.
    intros (<- & <- & ?). done.
  - intros [->%psbt_pays_view ?]. cbn. by rewrite !reject_if_not_signs, bytes_eqb_true, Z.eqb_eq.
Qed.

Lemma check_carrier_signs o d d' k a s :
  signs (check_carrier o d d' k) a s ↔
  pov_value o = TOKEN_CARRIER_SATS ∧ isStandardCarrier (pov_script o) = true ∧ signs k a s.
Proof. unfold check_carrier. by rewrite !reject_if_not_signs, Z.eqb_eq, hexStandardCarrier_eq. Qed.

(** The fee output is a standard output. *)
Definition fee_settles (fee : Z) (script : list byte) : Prop :=
  0 ≤ fee ∧ (fee = 0 ∨ dustThreshold script DUST_RELAY_FEE_SAT_PER_KVB ≤ fee).

Lemma check_protocol_fee_signs params fee bps k a s :
  signs (check_protocol_fee params (readPsbtOutputs (vp_psbt params)) fee bps k) a s ↔
  psbt_pays (vp_psbt params) 3 (vp_feeScript params) fee ∧ fee_settles fee (vp_feeScript params) ∧ signs k a s.
Proof.
  unfold check_protocol_fee, MINT_FEE_VOUT, fee_settles. rewrite or_reject_signs. unfold checkFeeSettlement. split.
  - intros (o & [E _]%readPsbtOutputs_lookup & H).
    rewrite !reject_if_not_signs, Z.eqb_eq, bytes_eqb_true, bind_signs in H.
    destruct H as (<- & <- & c & Hc & H). res_inv Hc. subst c. cbn [isStandard] in H.
    rewrite reject_if_not_signs in H. destruct H as [Hstd H]. to_prop. by split_and!.
  - intros (E & [Hf Hstd] & H). exists (psbt_view 3 (vp_feeScript params) fee).
    split; [by apply psbt_pays_view|]. cbn [pov_value pov_script psbt_view].
    rewrite !reject_if_not_signs, Z.eqb_eq, bytes_eqb_true. split_and!; [done..|].
    guard_step lia. step_ok. cbn [isStandard]. rewrite reject_if_not_signs. split; [|done]. by to_prop.
Qed.

(** No output follows the known ones but one agreeing discovery message. *)
Definition outputs_end (params : ValidateParams) (max : Z) : Prop :=
  ∃ binary, decodeCoveOpReturn (vp_psbt params) = Ok binary
  ∧ let d := checkDiscoveryOutput (readPsbtOutputs (vp_psbt params)) binary (vp_discoveryTicker params) in
    (doc_present d = true → doc_agrees d = true)
    ∧ Z.of_nat (length (psbt_outputs (vp_psbt params))) ≤ max + doc_allowance d.

Lemma readPsbtOutputs_length psbt : length (readPsbtOutputs psbt) = length (psbt_outputs psbt).
Proof. apply length_imap. Qed.

Lemma check_outputs_end_signs params max k a s :
  signs (check_outputs_end params (readPsbtOutputs (vp_psbt params)) max k) a s ↔
  outputs_end params max ∧ signs k a s.
Proof.
  unfold check_outputs_end, outputs_end. rewrite bind_signs. rewrite readPsbtOutputs_length. split.
  - intros (b & Hb & H). rewrite !reject_if_signs in H. destruct H as (Hd & Hl & H). split; [|done].
    exists b. split; [done|]. cbn zeta. to_prop.
    destruct (doc_present _); [|split; [done|lia]]. split; [naive_solver|lia].
  - intros [(b & Hb & Hd & Hl) H]. exists b. split; [done|]. rewrite !reject_if_signs.
    cbn zeta in Hd, Hl. split_and!; [|to_prop; lia|done].
    destruct (doc_present _); [by rewrite Hd|done].
Qed.

Lemma check_miner_fee_signs params fee k a s :
  signs (check_miner_fee params fee k) a s ↔
  0 ≤ fee ≤ default 20000 (vp_maxMinerFeeSats params) ∧ signs k a s.
Proof. unfold check_miner_fee. rewrite !reject_if_signs. to_prop. naive_solver lia. Qed.

(** An input passes the funding checks. *)
Definition funding_ok (params : ValidateParams) (i : Z) : Prop :=
  ∃ inp, psbt_inputs (vp_psbt params) !! Z.to_nat i = Some inp
  ∧ view_getTokenUtxo (vp_view params) (txin_outpoint (psi_txin inp)) = None
  ∧ vp_fundingChecker params (txin_outpoint (psi_txin inp)) = Ok FundingOk.

Lemma checkFundingInputs_Ok params l :
  checkFundingInputs params l = Ok None ↔ Forall (funding_ok params) l.
Proof.
  induction l as [|i l IH]; cbn [checkFundingInputs]; [by split|].
  rewrite Forall_cons, <-IH. unfold funding_ok. rewrite bind_Ok. setoid_rewrite of_option_Ok. split.
  - intros (inp & E & H). destruct (view_getTokenUtxo _ _) eqn:Ev; [done|]. res_inv H.
    destruct v; [|done]. split; [by exists inp|done].
  - intros [(inp & E & Ev & Hc) Hr]. exists inp. split; [done|]. rewrite Ev, Hc. by step_ok.
Qed.

Lemma checkFundingInputs_rejects params l r : checkFundingInputs params l = Ok (Some r) → ∃ c d, r = VReject c d.
Proof.
  induction l as [|i l IH]; cbn [checkFundingInputs]; [done|]. intros H. res_inv H.
  destruct (view_getTokenUtxo _ _); [naive_solver|]. res_inv H. destruct v0; naive_solver.
Qed.

Lemma funding_checked_signs params l k a s :
  signs (funding_checked params l k) a s ↔ Forall (funding_ok params) l ∧ signs k a s.
Proof.
  unfold funding_checked. rewrite bind_signs, <-checkFundingInputs_Ok. split.
  - intros ([r|] & Hr & H); [|done]. apply checkFundingInputs_rejects in Hr as (? & ? & ->). done.
  - intros [-> H]. by exists None.
Qed.

Lemma accept_execution_signs a run a' s :
  signs (accept_execution a run) a' s ↔
  run = Ok s ∧ is_cmr_mismatch (failure s) = false ∧ pass s = true ∧ a' = a.
Proof.
  unfold accept_execution. rewrite bind_signs. unfold signs. split.
  - intros (r & -> & H). apply reject_if_signs in H as [Hc H]. apply reject_if_not_signs in H as [Hp H].
    injection H as <- <-. done.
  - intros (-> & Hc & Hp & ->). exists s. split; [done|]. apply reject_if_signs. split; [done|].
    by apply reject_if_not_signs.
Qed.

Section Valid.
Context {C : Crypto}.
Context (execFile : string → list string → Z → exec_outcome) (bin : option string).

(** The program ran and passed. *)
Definition executed (m : result SimplicityExecutionResult) (s : SimplicityExecutionResult) : Prop :=
  m = Ok s ∧ is_cmr_mismatch (failure s) = false ∧ pass s = true.

(** What the Guardian signs as a mint. *)
Definition mint_valid (params : ValidateParams) (a : MintAnalysis) (s : SimplicityExecutionResult) : Prop :=
  let psbt := vp_psbt params in
  mainnet_without_profile params = false
  ∧ analyzeMintTransitionV3 psbt (vp_view params) (vp_fees params) = Ok a
  ∧ ∃ prevVault nextVault input0 utxo carrier w,
    transition_vault params (ma_currentState a) = Ok prevVault
    ∧ transition_vault params (ma_nextState a) = Ok nextVault
    ∧ psbt_inputs psbt !! 0%nat = Some input0
    ∧ spends_leaf input0 prevVault (v3_mintLeaf prevVault) (v3_mintControlBlock prevVault)
    ∧ psi_witnessUtxo input0 = Some utxo
    ∧ txo_value utxo = RESERVE_ANCHOR_SATS + backingSats (ma_currentState a)
    ∧ ma_recipientVout a = 2
    ∧ psbt_pays psbt 1 (v3_scriptPubKey nextVault) (RESERVE_ANCHOR_SATS + backingSats (ma_nextState a))
    ∧ psbt_pays psbt 2 carrier TOKEN_CARRIER_SATS ∧ isStandardCarrier carrier = true
    ∧ psbt_pays psbt 3 (vp_feeScript params) (ma_protocolFeeSats a)
    ∧ fee_settles (ma_protocolFeeSats a) (vp_feeScript params)
    ∧ psbt_pays psbt 4 (ma_creatorScript a) (ma_creatorFeeSats a)
    ∧ outputs_end params 6
    ∧ 0 ≤ ma_minerFeeSats a ≤ default 20000 (vp_maxMinerFeeSats params)
    ∧ Forall (funding_ok params) (ma_buyerInputIndices a)
    ∧ buildMintSimplicityWitness sha256 (ma_currentState a) (ma_nextState a) (ma_amountAtoms a)
        (ma_grossSats a) = Ok w
    ∧ executed (executeMintV3 execFile w bin None) s.

Lemma creator_output_match psbt i script value :
  match readPsbtOutputs psbt !! i with
  | Some o => (pov_value o =? value) && bytes_eqb (pov_script o) script
  | None => false
  end = true ↔ psbt_pays psbt i script value.
Proof.
  split.
  - destruct (readPsbtOutputs psbt !! i) as [o|] eqn:E; [|done].
    apply readPsbtOutputs_lookup in E as [E _]. rewrite andb_true_iff, Z.eqb_eq, bytes_eqb_true. by intros [<- <-].
  - intros ->%psbt_pays_view. cbn. by rewrite andb_true_iff, Z.eqb_eq, bytes_eqb_true.
Qed.

Lemma validateMint_valid params a s :
  validateMintTransitionV3 execFile bin params = Ok (VOk (AMint a) s) ↔ mint_valid params a s.
Proof.
  change (validateMintTransitionV3 execFile bin params = Ok (VOk (AMint a) s))
    with (signs (validateMintTransitionV3 execFile bin params) (AMint a) s).
  unfold validateMintTransitionV3, mint_valid. rewrite reject_if_signs, analyzed_signs. split.
  - intros (Hm & a' & Ha & H). apply bind_signs in H as (pv & Hpv & H). apply bind_signs in H as (nv & Hnv & H).
    apply bind_signs in H as (i0 & Hi0%of_option_Ok & H).
    apply check_backing_leaf_signs in H as [Hl H]. apply check_backing_value_signs in H as (u & Hu & Hv & H).
    apply reject_if_not_signs in H as [Hr H]. apply check_successor_signs in H as [Hs H].
    apply or_reject_signs in H as (c & [Hc _]%readPsbtOutputs_lookup & H).
    apply check_carrier_signs in H as (Hcv & Hcs & H). rewrite Hcv in Hc.
    apply check_protocol_fee_signs in H as (Hf & Hfs & H). apply reject_if_not_signs in H as [Hcr H].
    apply creator_output_match in Hcr.
    apply check_outputs_end_signs in H as [Ho H]. apply check_miner_fee_signs in H as [Hmf H].
    apply funding_checked_signs in H as [Hfu H].
    unfold buildCanonicalMintWitness in H. destruct (buildMintSimplicityWitness _ _ _ _ _) as [w|] eqn:Ew; [|done].
    apply accept_execution_signs in H as (Hx & Hxc & Hxp & Ea). injection Ea as <-. apply Z.eqb_eq in Hr.
    split_and!; [done..|]. exists pv, nv, i0, u, (pov_script c), w. split_and!; try done; try lia.
  - intros (Hm & Ha & pv & nv & i0 & u & c & w & Hpv & Hnv & Hi0 & Hl & Hu & Hv & Hr & Hs & Hc & Hcs & Hf
      & Hfs & Hcr & Ho & Hmf & Hfu & Ew & Hx).
    split; [done|]. exists a. split; [done|]. apply bind_signs. exists pv. split; [done|].
    apply bind_signs. exists nv. split; [done|]. apply bind_signs. exists i0. split; [by rewrite Hi0|].
    apply check_backing_leaf_signs. split; [done|]. apply check_backing_value_signs. exists u. split_and!; [done..|].
    apply reject_if_not_signs. split; [by rewrite Hr|]. apply check_successor_signs. split; [done|].
    apply or_reject_signs. exists (psbt_view 2 c TOKEN_CARRIER_SATS). split; [by apply psbt_pays_view|].
    apply check_carrier_signs. split_and!; [done..|]. apply check_protocol_fee_signs. split_and!; [done..|].
    apply reject_if_not_signs. split; [by apply creator_output_match|].
    apply check_outputs_end_signs. split; [done|]. apply check_miner_fee_signs. split; [done|].
    apply funding_checked_signs. split; [done|]. unfold buildCanonicalMintWitness. rewrite Ew.
    apply accept_execution_signs. destruct Hx as (? & ? & ?). by split_and!.
Qed.

(** The change of a redemption: none, or output 4. *)
Definition change_ok (psbt : Psbt) (change : list TokenAllocation) (changeAtoms : Z) : Prop :=
  (changeAtoms ≤ 0 ∧ change = [])
  ∨ (0 < changeAtoms ∧ change = [Alloc 4 changeAtoms]
     ∧ ∃ script, psbt_pays psbt 4 script TOKEN_CARRIER_SATS ∧ isStandardCarrier script = true).

Lemma check_change_signs psbt an changeAtoms k a s :
  signs (check_change an (readPsbtOutputs psbt) changeAtoms k) a s ↔
  change_ok psbt (ra_changeAllocations an) changeAtoms ∧ signs k a s.
Proof.
  unfold check_change, change_ok, REDEEM_CHANGE_CARRIER_VOUT. change (Z.of_nat 4) with 4.
  destruct (Z.ltb_spec 0 changeAtoms) as [Hpos|Hneg].
  - rewrite or_reject_signs. split.
    + intros (o & [E _]%readPsbtOutputs_lookup & H). apply check_carrier_signs in H as (Hv & Hs & H).
      apply reject_if_not_signs in H as [Hc H]. split; [right|done]. split; [done|].
      destruct (ra_changeAllocations an) as [|[v x] [|]]; try done. cbn in Hc. to_prop.
      destruct Hc as [-> ->]. split; [done|]. exists (pov_script o). by rewrite Hv in E.
    + intros [[[? _]|(_ & -> & sc & E & Hs)] Hk]; [lia|]. exists (psbt_view 4 sc TOKEN_CARRIER_SATS).
      split; [by apply psbt_pays_view|]. apply check_carrier_signs. split_and!; [done..|].
      apply reject_if_not_signs. split; [|done]. cbn. to_prop. done.
  - rewrite reject_if_not_signs, Nat.eqb_eq. split.
    + intros [->%nil_length_inv ?]. split; [by left|done].
    + intros [[[_ ->]|[? _]] Hk]; [done|lia].
Qed.

(** What the Guardian signs as a redemption. *)
Definition redeem_valid (params : ValidateParams) (a : RedeemAnalysis) (s : SimplicityExecutionResult) : Prop :=
  let psbt := vp_psbt params in
  let changeAtoms := ra_tokenInputTotalAtoms a - ra_redeemAmountAtoms a in
  mainnet_without_profile params = false
  ∧ analyzeRedeemTransitionV3 psbt (vp_view params) (vp_fees params) = Ok a
  ∧ ∃ prevVault nextVault input0 utxo payout w,
    transition_vault params (ra_currentState a) = Ok prevVault
    ∧ transition_vault params (ra_nextState a) = Ok nextVault
    ∧ psbt_inputs psbt !! 0%nat = Some input0
    ∧ spends_leaf input0 prevVault (v3_redeemLeaf prevVault) (v3_redeemControlBlock prevVault)
    ∧ psi_witnessUtxo input0 = Some utxo
    ∧ txo_value utxo = RESERVE_ANCHOR_SATS + backingSats (ra_currentState a)
    ∧ ra_redeemAmountAtoms a ≤ ra_tokenInputTotalAtoms a
    ∧ sum_allocations (ra_changeAllocations a) = changeAtoms
    ∧ psbt_pays psbt 1 (v3_scriptPubKey nextVault) (RESERVE_ANCHOR_SATS + backingSats (ra_nextState a))
    ∧ psbt_pays psbt 2 payout (ra_netPayoutSats a)
    ∧ psbt_pays psbt 3 (vp_feeScript params) (ra_protocolFeeSats a)
    ∧ fee_settles (ra_protocolFeeSats a) (vp_feeScript params)
    ∧ change_ok psbt (ra_changeAllocations a) changeAtoms
    ∧ outputs_end params (if 0 <? changeAtoms then 6 else 5)
    ∧ txo_value utxo = RESERVE_ANCHOR_SATS + backingSats (ra_nextState a) + ra_netPayoutSats a
                       + ra_protocolFeeSats a
    ∧ 0 ≤ ra_minerFeeSats a ≤ default 20000 (vp_maxMinerFeeSats params)
    ∧ Forall (funding_ok params) (funding_indices a psbt)
    ∧ buildRedeemSimplicityWitness sha256 (ra_currentState a) (ra_nextState a) (ra_redeemAmountAtoms a)
        (ra_grossSats a) = Ok w
    ∧ executed (executeRedeemV3 execFile w bin None) s.

Lemma validateRedeem_valid params a s :
  validateRedeemTransitionV3 execFile bin params = Ok (VOk (ARedeem a) s) ↔ redeem_valid params a s.
Proof.
  change (validateRedeemTransitionV3 execFile bin params = Ok (VOk (ARedeem a) s))
    with (signs (validateRedeemTransitionV3 execFile bin params) (ARedeem a) s).
  unfold validateRedeemTransitionV3, redeem_valid. rewrite reject_if_signs, analyzed_signs. split.
  - intros (Hm & a' & Ha & H). apply bind_signs in H as (pv & Hpv & H). apply bind_signs in H as (nv & Hnv & H).
    apply bind_signs in H as (i0 & Hi0%of_option_Ok & H).
    apply check_backing_leaf_signs in H as [Hl H]. apply check_backing_value_signs in H as (u & Hu & Hv & H).
    apply reject_if_signs in H as [Hown H]. apply reject_if_not_signs in H as [Hsum H].
    apply check_successor_signs in H as [Hs H].
    apply or_reject_signs in H as (p & [Hp _]%readPsbtOutputs_lookup & H).
    apply reject_if_not_signs in H as [Hpv2 H]. apply Z.eqb_eq in Hpv2. rewrite Hpv2 in Hp.
    apply check_protocol_fee_signs in H as (Hf & Hfs & H). apply check_change_signs in H as [Hch H].
    apply check_outputs_end_signs in H as [Ho H]. apply reject_if_not_signs in H as [Hbd H].
    apply check_miner_fee_signs in H as [Hmf H]. apply funding_checked_signs in H as [Hfu H].
    unfold buildCanonicalRedeemWitness in H.
    destruct (buildRedeemSimplicityWitness _ _ _ _ _) as [w|] eqn:Ew; [|done].
    apply accept_execution_signs in H as (Hx & Hxc & Hxp & Ea). injection Ea as <-. to_prop.
    split_and!; [done..|]. exists pv, nv, i0, u, (pov_script p), w. split_and!; try done; lia.
  - intros (Hm & Ha & pv & nv & i0 & u & p & w & Hpv & Hnv & Hi0 & Hl & Hu & Hv & Hown & Hsum & Hs & Hp & Hf
      & Hfs & Hch & Ho & Hbd & Hmf & Hfu & Ew & Hx).
    split; [done|]. exists a. split; [done|]. apply bind_signs. exists pv. split; [done|].
    apply bind_signs. exists nv. split; [done|]. apply bind_signs. exists i0. split; [by rewrite Hi0|].
    apply check_backing_leaf_signs. split; [done|]. apply check_backing_value_signs. exists u. split_and!; [done..|].
    apply reject_if_signs. split; [to_prop; lia|]. apply reject_if_not_signs. split; [by apply Z.eqb_eq|].
    apply check_successor_signs. split; [done|].
    apply or_reject_signs. exists (psbt_view 2 p (ra_netPayoutSats a)). split; [by apply psbt_pays_view|].
    apply reject_if_not_signs. split; [by apply Z.eqb_eq|]. apply check_protocol_fee_signs. split_and!; [done..|].
    apply check_change_signs. split; [done|]. apply check_outputs_end_signs. split; [done|].
    apply reject_if_not_signs. split; [by apply Z.eqb_eq|]. apply check_miner_fee_signs. split; [done|].
    apply funding_checked_signs. split; [done|]. unfold buildCanonicalRedeemWitness. rewrite Ew.
    apply accept_execution_signs. destruct Hx as (? & ? & ?). by split_and!.
Qed.
(** The validator of an operation signs analyses of its kind only. *)
Lemma validateMint_kind params a s :
  validateMintTransitionV3 execFile bin params = Ok (VOk a s) → ∃ m, a = AMint m.
Proof.
  change (validateMintTransitionV3 execFile bin params = Ok (VOk a s))
    with (signs (validateMintTransitionV3 execFile bin params) a s).
  unfold validateMintTransitionV3. rewrite reject_if_signs, analyzed_signs.
  intros (_ & a' & _ & H). apply bind_signs in H as (pv & _ & H). apply bind_signs in H as (nv & _ & H).
  apply bind_signs in H as (i0 & _ & H).
  apply check_backing_leaf_signs in H as [_ H]. apply check_backing_value_signs in H as (u & _ & _ & H).
  apply reject_if_not_signs in H as [_ H]. apply check_successor_signs in H as [_ H].
  apply or_reject_signs in H as (c & _ & H). apply check_carrier_signs in H as (_ & _ & H).
  apply check_protocol_fee_signs in H as (_ & _ & H). apply reject_if_not_signs in H as [_ H].
  apply check_outputs_end_signs in H as [_ H]. apply check_miner_fee_signs in H as [_ H].
  apply funding_checked_signs in H as [_ H]. destruct (buildCanonicalMintWitness _ _ _ _); [|done].
  apply accept_execution_signs in H as (_ & _ & _ & ->). by eexists.
Qed.

Lemma validateRedeem_kind params a s :
  validateRedeemTransitionV3 execFile bin params = Ok (VOk a s) → ∃ m, a = ARedeem m.
Proof.
  change (validateRedeemTransitionV3 execFile bin params = Ok (VOk a s))
    with (signs (validateRedeemTransitionV3 execFile bin params) a s).
  unfold validateRedeemTransitionV3. rewrite reject_if_signs, analyzed_signs.
  intros (_ & a' & _ & H). apply bind_signs in H as (pv & _ & H). apply bind_signs in H as (nv & _ & H).
  apply bind_signs in H as (i0 & _ & H).
  apply check_backing_leaf_signs in H as [_ H]. apply check_backing_value_signs in H as (u & _ & _ & H).
  apply reject_if_signs in H as [_ H]. apply reject_if_not_signs in H as [_ H].
  apply check_successor_signs in H as [_ H]. apply or_reject_signs in H as (p & _ & H).
  apply reject_if_not_signs in H as [_ H]. apply check_protocol_fee_signs in H as (_ & _ & H).
  apply check_change_signs in H as [_ H]. apply check_outputs_end_signs in H as [_ H].
  apply reject_if_not_signs in H as [_ H]. apply check_miner_fee_signs in H as [_ H].
  apply funding_checked_signs in H as [_ H]. destruct (buildCanonicalRedeemWitness _ _ _ _); [|done].
  apply accept_execution_signs in H as (_ & _ & _ & ->). by eexists.
Qed.
End Valid.

(** ** The analyses *)
Definition mint_analysis_of (psbt : Psbt) (view : CoveCanonicalView) (fees : FeeSchedule) (a : MintAnalysis) : Prop :=
  decodeCoveOpReturn psbt = Ok (MintV2 (ma_tokenId a) (ma_amountAtoms a) (ma_recipientVout a))
  ∧ view_getCurrentBackingState view (ma_tokenId a) = Some (ma_currentState a)
  ∧ view_getBackingOutpoint view (ma_tokenId a) = Some (ma_backingOutpoint a)
  ∧ (∃ i, psbt_inputs psbt !! 0%nat = Some i ∧ txin_outpoint (psi_txin i) = ma_backingOutpoint a)
  ∧ applyMintV2 (ma_currentState a) (ma_amountAtoms a)
    = Ok {| nextState := ma_nextState a; grossSats := ma_grossSats a |}
  ∧ mintFeeSats (ma_grossSats a) (ma_amountAtoms a) (default (buyFeeBps COVE_FEE_CONFIG) (fs_buyFeeBps fees))
      (default (buyFeeFlatSats COVE_FEE_CONFIG) (fs_buyFeeFlatSats fees)) (buyFeeLotSats COVE_FEE_CONFIG)
    = Ok (ma_protocolFeeSats a)
  ∧ (f ← view_getTokenCreatorScript view; f (ma_tokenId a)) = Some (ma_creatorScript a)
  ∧ creatorFeeSats (ma_grossSats a) (default (creatorFeeBps COVE_FEE_CONFIG) (fs_creatorFeeBps fees))
    = Ok (ma_creatorFeeSats a)
  ∧ ma_minerFeeSats a = miner_fee psbt ∧ ma_backingInputIndex a = 0
  ∧ ma_buyerInputIndices a = piv_index <$> tail (readPsbtInputs psbt).

Lemma check_backing_input_Ok psbt o u :
  check_backing_input (readPsbtInputs psbt) o = Ok u ↔
  ∃ i, psbt_inputs psbt !! 0%nat = Some i ∧ txin_outpoint (psi_txin i) = o.
Proof.
  unfold check_backing_input, readPsbtInputs. rewrite bind_Ok. setoid_rewrite of_option_Ok.
  rewrite list_lookup_imap. destruct (psbt_inputs psbt !! 0%nat) as [i|]; cbn; [|naive_solver].
  setoid_rewrite throw_if_Ok. destruct o as [t v]. split.
  - intros (v' & [= <-] & H). cbn in H. to_prop. destruct H as [H1 H2]. exists i. split; [done|].
    unfold txin_outpoint. by rewrite H1, H2.
  - intros (? & [= <-] & E). eexists. split; [done|]. cbn. injection E as -> ->.
    by rewrite String.eqb_refl, Z.eqb_refl.
Qed.

Lemma reference_policy_Ok {A} (m : result A) a : reference_policy m = Ok a ↔ m = Ok a.
Proof. unfold reference_policy. destruct m; naive_solver. Qed.

Lemma analyzeMint_Ok psbt view fees a :
  analyzeMintTransitionV3 psbt view fees = Ok a ↔ mint_analysis_of psbt view fees a.
Proof.
  unfold analyzeMintTransitionV3, mint_analysis_of. split.
  - intros H. apply bind_Ok in H as (w & Hw & H). destruct w as [|tok am rv| |]; try done.
    res_inv H. subst a. apply check_backing_input_Ok in Hv1. rewrite reference_policy_Ok in Hv2.
    destruct v2 as [n g]. cbn. split_and!; done.
  - destruct a as [tok am rv cur o n g pf cf cs mf bi ix]. cbn.
    intros (-> & Hc & Ho & Hi & Hap & Hpf & Hcs & Hcf & -> & -> & ->). step_ok.
    rewrite Hc, Ho. cbn [of_option]. do 2 step_ok.
    apply (check_backing_input_Ok psbt o tt) in Hi. rewrite Hi. step_ok. rewrite Hap. cbn [reference_policy try_catch].
    step_ok. cbn [grossSats nextState]. rewrite Hpf. step_ok. rewrite Hcs. cbn [of_option]. step_ok.
    rewrite Hcf. by step_ok.
Qed.

(** The carriers of a redemption, with the indices of their inputs. *)
Definition token_inputs_of (view : CoveCanonicalView) (psbt : Psbt) : list (Z * TokenUtxo) :=
  omap (λ i, (λ tok, (piv_index i, tok)) <$> view_getTokenUtxo view (piv_outpoint i))
    (tail (readPsbtInputs psbt)).

Lemma token_inputs_Ok view t l toks :
  token_inputs view t l = Ok toks ↔
  toks = omap (λ i, (λ tok, (piv_index i, tok)) <$> view_getTokenUtxo view (piv_outpoint i)) l
  ∧ Forall (λ it, vu_tokenId it.2 = t) toks.
Proof.
  revert toks. induction l as [|i l IH]; intros toks; cbn.
  - split; [intros [= <-]; by split|by intros [-> _]].
  - destruct (view_getTokenUtxo view (piv_outpoint i)) as [tok|]; cbn; [|apply IH].
    rewrite bind_Ok. setoid_rewrite throw_if_Ok. setoid_rewrite negb_false_iff. setoid_rewrite bytes_eqb_true. split.
    + intros (_ & Ht & H). apply bind_Ok in H as (ts & Hts & [= <-]). apply IH in Hts as [-> Hf].
      split; [done|]. by constructor.
    + intros [-> [Ht Hf]%Forall_cons]. exists tt. split; [done|]. apply bind_Ok. eexists. split; [|done].
      by apply IH.
Qed.

Definition redeem_analysis_of (psbt : Psbt) (view : CoveCanonicalView) (fees : FeeSchedule) (a : RedeemAnalysis) : Prop :=
  let toks := token_inputs_of view psbt in
  decodeCoveOpReturn psbt = Ok (RedeemV2 (ra_tokenId a) (ra_redeemAmountAtoms a) (ra_changeAllocations a))
  ∧ view_getCurrentBackingState view (ra_tokenId a) = Some (ra_currentState a)
  ∧ view_getBackingOutpoint view (ra_tokenId a) = Some (ra_backingOutpoint a)
  ∧ (∃ i, psbt_inputs psbt !! 0%nat = Some i ∧ txin_outpoint (psi_txin i) = ra_backingOutpoint a)
  ∧ toks ≠ [] ∧ Forall (λ it, vu_tokenId it.2 = ra_tokenId a) toks
  ∧ applyRedeemV2 (ra_currentState a) (ra_redeemAmountAtoms a)
    = Ok {| nextState := ra_nextState a; grossSats := ra_grossSats a |}
  ∧ redeemFeeSats (ra_grossSats a) (default (redeemFeeBps COVE_FEE_CONFIG) (fs_redeemFeeBps fees))
      (default (redeemFeeFlatSats COVE_FEE_CONFIG) (fs_redeemFeeFlatSats fees))
      (redeemFeeMinSats COVE_FEE_CONFIG) = Ok (ra_protocolFeeSats a)
  ∧ ra_netPayoutSats a = ra_grossSats a - ra_protocolFeeSats a
  ∧ ra_minerFeeSats a = miner_fee psbt ∧ ra_backingInputIndex a = 0
  ∧ ra_tokenInputOutpoints a = (vu_outpoint ∘ snd) <$> toks
  ∧ ra_tokenInputTotalAtoms a = zsum ((vu_amountAtoms ∘ snd) <$> toks)
  ∧ ra_tokenInputIndices a = fst <$> toks.

Lemma analyzeRedeem_Ok psbt view fees a :
  analyzeRedeemTransitionV3 psbt view fees = Ok a ↔ redeem_analysis_of psbt view fees a.
Proof.
  unfold analyzeRedeemTransitionV3, redeem_analysis_of. split.
  - intros H. apply bind_Ok in H as (w & Hw & H). destruct w as [| | |tok am ch]; try done.
    res_inv H. subst a. apply check_backing_input_Ok in Hv1. rewrite reference_policy_Ok in Hv4.
    apply token_inputs_Ok in Hv2 as [-> Ht]. apply Nat.eqb_neq in Hv3. destruct v4 as [n g]. cbn.
    rewrite (foldl_add_zsum (λ t : Z * TokenUtxo, vu_amountAtoms t.2)). split_and!; try done.
    by destruct (token_inputs_of view psbt) eqn:E; [unfold token_inputs_of in E; rewrite E in Hv3|].
  - destruct a as [tok am ch cur o tio tot n g pf np mf bi ix]. cbn.
    intros (-> & Hc & Ho & Hi & Hne & Ht & Hap & Hpf & -> & -> & -> & -> & -> & ->). step_ok.
    rewrite Hc, Ho. cbn [of_option]. do 2 step_ok.
    apply (check_backing_input_Ok psbt o tt) in Hi. rewrite Hi. step_ok.
    assert (token_inputs view tok (tail (readPsbtInputs psbt)) = Ok (token_inputs_of view psbt)) as ->
      by by apply token_inputs_Ok.
    step_ok. guard_step ltac:(by intros ?%nil_length_inv). cbn beta. rewrite Hap. cbn [reference_policy try_catch].
    step_ok. cbn [grossSats nextState]. rewrite Hpf. step_ok.
    by rewrite (foldl_add_zsum (λ t : Z * TokenUtxo, vu_amountAtoms t.2)).
Qed.

(** ** The Guardian and the indexer *)
Section Agreement.
Context {C : Crypto} {B : Bitcoin} {L : Locale}.
Context (config : V3IndexerConfig).
Context (execFile : string → list string → Z → exec_outcome) (bin : option string).

Definition config_fees : FeeSchedule := {|
  fs_buyFeeBps := cfg_buyFeeBps config; fs_buyFeeFlatSats := cfg_buyFeeFlatSats config;
  fs_creatorFeeBps := cfg_creatorFeeBps config; fs_redeemFeeBps := cfg_redeemFeeBps config;
  fs_redeemFeeFlatSats := cfg_redeemFeeFlatSats config |}.

(** The Guardian's view shows the indexer's state. *)
Record shows (view : CoveCanonicalView) (st : V3IndexerState) : Prop := {
  sh_state t : view_getCurrentBackingState view t = getCurrentBackingState st t;
  sh_outpoint t : view_getBackingOutpoint view t = getBackingOutpoint st t;
  sh_utxo o : view_getTokenUtxo view o = getTokenUtxo st o;
  sh_creator : ∃ f, view_getTokenCreatorScript view = Some f ∧ ∀ t, f t = getTokenCreatorScript st t;
}.

Lemma indexer_view_shows st : shows (indexer_view st) st.
Proof. split; try done. by eexists. Qed.

(** The Guardian runs with the indexer's configuration on its state. *)
Record watches (params : ValidateParams) (st : V3IndexerState) : Prop := {
  w_view : shows (vp_view params) st;
  w_network : vp_network params = cfg_network config;
  w_guardian : vp_guardianXOnly params = cfg_guardianXOnly config;
  w_recovery : vp_recoveryKeyXOnly params = cfg_recoveryKeyXOnly config;
  w_profile : vp_recoveryProfile params = cfg_recoveryProfile config;
  w_feeScript : vp_feeScript params = cfg_feeScript config;
  w_fees : vp_fees params = config_fees;
}.

(** [rawHex] is the PSBT's transaction. *)
Record finalizes (psbt : Psbt) (rawHex : string) (tx : Tx) : Prop := {
  fz_parses : tx_fromHex rawHex = Some tx;
  fz_ins : tx_ins tx = psi_txin <$> psbt_inputs psbt;
  fz_outs : tx_outs tx = psbt_outputs psbt;
  fz_acyclic : Forall (λ i, ∀ v, in_key i ≠ outpointKey (getId tx) v) (tx_ins tx);
}.

(** The parser of the indexer finds the message the Guardian decodes. *)
Lemma decode_push_parse rawHex tx out e :
  tx_fromHex rawHex = Some tx → tx_outs tx !! 0%nat = Some out → decode_push (txo_script out) = Ok e →
  parseCoveTx rawHex = Cove e.
Proof.
  intros Htx Ho H. unfold decode_push in H. unfold parseCoveTx. rewrite Htx, Ho.
  apply bind_Ok in H as (_ & Hp%throw_if_Ok & H). apply bind_Ok in H as (_ & Hl%throw_if_Ok & H).
  unfold at_is in Hp. cbn zeta. rewrite Hp, Hl.
  pose proof H as [Hv Ep]%decodeV2_Ok. rewrite Ep, envelope_magic.
  pose proof (blen_envelope_small e Hv). rewrite Z.eqb_refl. cbn [negb].
  destruct (Z.ltb_spec (blen (envelope_bytes e)) 4); [lia|]. cbn [orb]. by rewrite decodeV2_envelope_bytes.
Qed.

Lemma decodeCoveOpReturn_parse psbt rawHex tx e :
  finalizes psbt rawHex tx → decodeCoveOpReturn psbt = Ok e → parseCoveTx rawHex = Cove e.
Proof.
  intros [Htx _ Ho _] H. unfold decodeCoveOpReturn in H. apply bind_Ok in H as (out & Hout%of_option_Ok & H).
  eapply decode_push_parse; [done|by rewrite Ho|done].
Qed.

Lemma watches_vault params st s v :
  watches params st → transition_vault params s = Ok v → vault_script config s = Ok (v3_scriptPubKey v).
Proof.
  intros [_ Hn Hg Hr Hp _ _]. unfold transition_vault, vault_script. rewrite Hn, Hg, Hr, Hp.
  assert (guardian_network (cfg_network config) = bitcoinNetwork config) as ->
    by (unfold bitcoinNetwork; by destruct (cfg_network config)).
  intros ->. by step_ok.
Qed.

Lemma psbt_pays_tx psbt rawHex tx i script value :
  finalizes psbt rawHex tx → psbt_pays psbt i script value → pays tx i script value.
Proof. intros [_ _ Ho _]. unfold pays, psbt_pays. by rewrite Ho. Qed.

Lemma shows_utxo view st i :
  shows view st → view_getTokenUtxo view (txin_outpoint i) = None ↔ tokenUtxos st !! in_key i = None.
Proof.
  intros Hs. rewrite (sh_utxo _ _ Hs). unfold getTokenUtxo. cbn. fold (in_key i).
  destruct (tokenUtxos st !! in_key i); naive_solver.
Qed.

Lemma burn_inputs_none ins m acc :
  Forall (λ i, m !! in_key i = None) ins → burn_inputs ins m acc = (m, acc).
Proof. induction 1 as [|i ins Hi _ IH]; cbn [burn_inputs]; [done|]. by rewrite Hi. Qed.

(** The vault of a token is no carrier. *)
Definition vault_not_carrier st (t : list byte) : Prop :=
  ∀ o, getBackingOutpoint st t = Some o → tokenUtxos st !! outpointKey (op_txid o) (op_vout o) = None.

Lemma spends_backing_true psbt rawHex tx st t o i :
  finalizes psbt rawHex tx → getBackingOutpoint st t = Some o →
  psbt_inputs psbt !! 0%nat = Some i → txin_outpoint (psi_txin i) = o →
  ∃ b, backing st !! toHex t = Some b ∧ bk_outpoint b = o ∧ spends_backing tx b = Some true.
Proof.
  intros [_ Hi _ _] Ho Hi0 Ei. unfold getBackingOutpoint in Ho.
  apply fmap_Some in Ho as (b & Hb & Eo). exists b. split_and!; [done..|].
  unfold spends_backing. rewrite Hi, list_lookup_fmap, Hi0. cbn. rewrite <-Eo, <-Ei. cbn.
  by rewrite String.eqb_refl, Z.eqb_refl.
Qed.

Lemma tail_inputs psbt :
  piv_index <$> tail (readPsbtInputs psbt) = imap (λ i _, Z.of_nat (S i)) (tail (psbt_inputs psbt)).
Proof.
  unfold readPsbtInputs. destruct (psbt_inputs psbt) as [|i l]; [done|]. cbn.
  rewrite fmap_imap. apply imap_ext. done.
Qed.

Lemma funding_not_carrier params st l :
  watches params st → Forall (funding_ok params) (imap (λ i _, Z.of_nat (S i)) l) →
  l = tail (psbt_inputs (vp_psbt params)) →
  Forall (λ inp, tokenUtxos st !! in_key (psi_txin inp) = None) l.
Proof.
  intros Hw Hf ->. apply Forall_lookup. intros i inp Hi. rewrite Forall_lookup in Hf.
  destruct (Hf i (Z.of_nat (S i))) as (inp' & Hi' & Hn & _); [by rewrite list_lookup_imap, Hi|].
  rewrite Nat2Z.id in Hi'. rewrite lookup_tail in Hi. simplify_eq.
  by apply (shows_utxo _ _ _ (w_view _ _ Hw)).
Qed.

(** The event of an accepted message. *)
Definition accepted_event (tx : Tx) (block : V3BlockInput) (i : Z) (r : ApplyResult) : V3Event :=
  {| ev_txid := getId tx; ev_blockHeight := blk_height block; ev_blockHash := blk_hash block;
     ev_txIndex := i; ev_operation := ar_op r; ev_valid := ar_valid r; ev_reason := ar_reason r;
     ev_tokenId := ar_tokenId r; ev_curve := ar_curve r |}.

(** An accepted message whose inputs hold no carrier afterwards burns nothing. *)
Lemma apply_tx_accepted st block i rawHex tx e r st1 :
  parseCoveTx rawHex = Cove e → tx_fromHex rawHex = Some tx →
  cove_accepted config st (getId tx) rawHex e block r st1 →
  Forall (λ inp, tokenUtxos st1 !! in_key inp = None) (tx_ins tx) →
  apply_tx config st block i rawHex
  = Ok (option_list (ar_undo r), [accepted_event tx block i r], record st1 (accepted_event tx block i r)).
Proof.
  intros Hp Htx Hacc Hn. apply applyCove_accepted in Hacc as [Hc Hv].
  unfold apply_tx, txidOf. rewrite Htx. cbn [of_option]. do 2 step_ok. rewrite Hp, Hc. step_ok.
  unfold burnUnaccountedInputs. rewrite Htx. cbn [of_option]. step_ok.
  rewrite burn_inputs_none by done. cbn [length Nat.ltb Nat.leb]. step_ok. rewrite Hv, app_nil_r.
  unfold accepted_event. by rewrite Hv, with_tables_id.
Qed.

Lemma transition_hash s a r :
  applyMintV2 s a = Ok r ∨ applyRedeemV2 s a = Ok r → ∃ h, stateHashV2 sha256 (nextState r) = Ok h.
Proof.
  intros [H|H].
  - apply applyMintV2_Ok in H as (k & q & Ht & ? & ? & ? & _ & _ & ->). apply stateHashV2_state_at; [done|lia].
  - apply applyRedeemV2_Ok in H as (k & q & Ht & ? & ? & _ & _ & ->). apply stateHashV2_state_at; [done|lia].
Qed.

Lemma shows_creator view st t c :
  wf config st → shows view st → (f ← view_getTokenCreatorScript view; f t) = Some c →
  ∃ m, tokens st !! toHex t = Some m ∧ toHex c = tm_creatorScript m.
Proof.
  intros Hwf [_ _ _ (f & -> & Hf)]. cbn. rewrite Hf. unfold getTokenCreatorScript.
  destruct (tokens st !! toHex t) as [m|] eqn:Em; cbn; [|done].
  destruct (wf_meta _ _ Hwf _ _ Em) as (_ & s & Es). rewrite Es. intros H. exists m. split; [done|].
  assert (fromHex (toHex s) = c) as <-; [|by rewrite fromHex_toHex].
  destruct (toHex s); [done|]. by injection H.
Qed.

(** The mint the Guardian signs satisfies the indexer's acceptance rules. *)
Lemma mint_valid_accepted params st a s rawHex tx block :
  wf config st → watches params st → finalizes (vp_psbt params) rawHex tx →
  mint_valid execFile bin params a s →
  ∃ prior hash script carrier,
    let t := toHex (ma_tokenId a) in
    let created := carrier_utxo (getId tx) 2 t (ma_amountAtoms a) carrier block in
    cove_accepted config st (getId tx) rawHex (MintV2 (ma_tokenId a) (ma_amountAtoms a) (ma_recipientVout a))
      block
      (accepted MINT t (UndoMint t prior created)
         (Some (trade (ma_amountAtoms a) (ma_grossSats a) (ma_protocolFeeSats a) (ma_nextState a))))
      (with_tables st (tokens st)
         (<[t := next_backing t (ma_nextState a) hash script (getId tx) block]> (backing st))
         (<[outpointKey (getId tx) 2 := created]> (tokenUtxos st)))
    ∧ backing st !! t = Some prior ∧ bk_state prior = ma_currentState a
    ∧ vault_script config (ma_nextState a) = Ok script.
Proof.
  intros Hwf Hw Hfz (_ & Ha & pv & nv & i0 & u & c & w & _ & Hnv & _ & _ & _ & _ & Hr & Hs & Hc & Hcs & Hf
    & _ & Hcr & _).
  apply analyzeMint_Ok in Ha as (Hd & Hcur & Hop & (i & Hi & Ei) & Hap & Hpf & Hcreator & Hcf & _).
  pose proof (w_view _ _ Hw) as Hsh. rewrite (sh_state _ _ Hsh) in Hcur. rewrite (sh_outpoint _ _ Hsh) in Hop.
  destruct (spends_backing_true _ _ _ _ _ _ _ Hfz Hop Hi Ei) as (b & Hb & Eo & Hsp).
  unfold getCurrentBackingState in Hcur. rewrite Hb in Hcur. injection Hcur as Hbs.
  destruct (shows_creator _ _ _ _ Hwf Hsh Hcreator) as (m & Hm & Ecr).
  destruct (transition_hash _ _ _ (or_introl Hap)) as [hash Hh]. cbn [nextState] in Hh.
  exists b, hash, (v3_scriptPubKey nv), c. cbn zeta. split_and!; [|done..|by eapply watches_vault].
  exists tx, m, b, (ma_nextState a), (ma_grossSats a), (ma_protocolFeeSats a), (ma_creatorFeeSats a),
    (v3_scriptPubKey nv), c, (ma_creatorScript a), hash. cbn zeta.
  rewrite (w_fees _ _ Hw) in Hpf, Hcf. rewrite (w_feeScript _ _ Hw) in Hf. rewrite Hbs.
  split_and!; try done; try (by eapply psbt_pays_tx); [apply (fz_parses _ _ _ Hfz)|by eapply watches_vault].
Qed.

(** C7: a mint the Guardian signs is the mint the indexer records.  For a
    Guardian that runs with the indexer's configuration on the indexer's state,
    any transaction made from a PSBT it accepts is parsed as that mint, applied
    with the successor state, the gross and the fee the Guardian computed, and
    burns no carrier. *)
Theorem guardian_mint_indexed params st a s rawHex tx block i :
  reachable config st → watches params st → vault_not_carrier st (ma_tokenId a) →
  validateMintTransitionV3 execFile bin params = Ok (VOk (AMint a) s) →
  finalizes (vp_psbt params) rawHex tx →
  ∃ prior hash script carrier,
    let t := toHex (ma_tokenId a) in
    let created := carrier_utxo (getId tx) 2 t (ma_amountAtoms a) carrier block in
    let r := accepted MINT t (UndoMint t prior created)
      (Some (trade (ma_amountAtoms a) (ma_grossSats a) (ma_protocolFeeSats a) (ma_nextState a))) in
    backing st !! t = Some prior ∧ bk_state prior = ma_currentState a
    ∧ vault_script config (ma_nextState a) = Ok script
    ∧ apply_tx config st block i rawHex
      = Ok ([UndoMint t prior created], [accepted_event tx block i r],
            record (with_tables st (tokens st)
              (<[t := next_backing t (ma_nextState a) hash script (getId tx) block]> (backing st))
              (<[outpointKey (getId tx) 2 := created]> (tokenUtxos st))) (accepted_event tx block i r)).
Proof.
  intros Hwf%reachable_wf Hw Hvn Hval%validateMint_valid Hfz.
  destruct (mint_valid_accepted _ _ _ _ _ _ block Hwf Hw Hfz Hval) as (b & hash & sc & c & Hacc & Hb & Hbs & Hvs).
  exists b, hash, sc, c. cbn zeta. split_and!; [done..|].
  destruct Hval as (_ & (Hd & _ & Hop & (inp & Hi & Ei) & _ & _ & _ & _ & _ & _ & Hix)%analyzeMint_Ok & pv & nv & i0 & u & c'
    & w & _ & _ & _ & _ & _ & _ & _ & _ & _ & _ & _ & _ & _ & _ & _ & Hfu & _).
  eapply apply_tx_accepted in Hacc; [exact Hacc|by eapply decodeCoveOpReturn_parse|apply (fz_parses _ _ _ Hfz)|].
  cbn [tokenUtxos with_tables]. pose proof (fz_acyclic _ _ _ Hfz) as Hac.
  assert (Forall (λ i, tokenUtxos st !! in_key i = None) (tx_ins tx)) as Hn.
  { rewrite (fz_ins _ _ _ Hfz). rewrite Hix, tail_inputs in Hfu. eapply funding_not_carrier in Hfu; [|done..].
    destruct (psbt_inputs (vp_psbt params)) as [|i1 l]; [done|]. cbn in Hi. injection Hi as ->.
    cbn [fmap list_fmap tail] in *. constructor; [|by apply Forall_fmap].
    rewrite (sh_outpoint _ _ (w_view _ _ Hw)) in Hop. rewrite <-Ei in Hop. by apply Hvn in Hop. }
  eapply Forall_impl; [apply Forall_and; split; [exact Hn|exact Hac]|]. cbn.
  intros j [Hj Hjv]. rewrite lookup_insert_ne; [done|]. intros E. by apply (Hjv 2).
Qed.

(** *** Redemptions *)
Definition utxo_view (u : V3TokenUtxo) : TokenUtxo :=
  {| vu_outpoint := {| op_txid := tu_txid u; op_vout := tu_vout u |};
     vu_tokenId := fromHex (tu_tokenId u); vu_amountAtoms := tu_amountAtoms u;
     vu_scriptPubKey := fromHex (tu_scriptPubKey u) |}.

Lemma getTokenUtxo_view st i : getTokenUtxo st (txin_outpoint i) = utxo_view <$> tokenUtxos st !! in_key i.
Proof. unfold getTokenUtxo, in_key. cbn. by destruct (tokenUtxos st !! _). Qed.

Lemma token_inputs_of_shows view st psbt :
  shows view st →
  snd <$> token_inputs_of view psbt
  = utxo_view <$> omap (λ i, tokenUtxos st !! in_key i) (psi_txin <$> tail (psbt_inputs psbt)).
Proof.
  intros Hsh. unfold token_inputs_of, readPsbtInputs.
  assert (∀ (l : list PsbtInput) (g : nat → Z),
    snd <$> omap (λ i, (λ tok, (piv_index i, tok)) <$> view_getTokenUtxo view (piv_outpoint i))
      (imap (λ i inp, {| piv_index := g i; piv_outpoint := txin_outpoint (psi_txin inp);
               piv_script := default [] (txo_script <$> psi_witnessUtxo inp);
               piv_valueSats := default 0 (txo_value <$> psi_witnessUtxo inp) |}) l)
    = utxo_view <$> omap (λ i, tokenUtxos st !! in_key i) (psi_txin <$> l)) as H.
  { induction l as [|i l IH]; intros g; [done|]. rewrite imap_cons. cbn [omap list_omap fmap list_fmap piv_outpoint].
    rewrite (sh_utxo _ _ Hsh), getTokenUtxo_view.
    destruct (tokenUtxos st !! in_key (psi_txin i)); cbn [fmap option_fmap option_map list_fmap];
      [cbn [fmap list_fmap snd]; f_equal|]; exact (IH (g ∘ S)). }
  destruct (psbt_inputs psbt) as [|i l]; [done|]. rewrite imap_cons. cbn [tail]. exact (H l (Z.of_nat ∘ S)).
Qed.

Lemma utxo_token st k u t :
  wf config st → tokenUtxos st !! k = Some u → fromHex (tu_tokenId u) = t → tu_tokenId u = toHex t.
Proof.
  intros Hwf Hu <-. destruct (uo_known _ _ (wf_utxos _ _ Hwf) _ _ Hu) as [b Hb].
  destruct (wf_backing _ _ Hwf _ _ Hb) as [_ Hs Hv _ _ _].
  apply validateStateV2_Ok in Hv as ([Hh _] & _). rewrite Hs in Hh. symmetry. by apply toHex_fromHex64.
Qed.

Lemma change_ok_accepted psbt rawHex tx change c block t :
  finalizes psbt rawHex tx → 0 ≤ c → change_ok psbt change c →
  ∃ created, change_accepted tx change c (getId tx) t block created
  ∧ Forall (λ u, utxo_key u = outpointKey (getId tx) 4 ∧ tu_amountAtoms u = c) created.
Proof.
  intros Hfz Hc [[? ->]|(? & -> & sc & Hp & Hs)].
  - exists []. split; [left; split_and!; try done; lia|constructor].
  - exists [carrier_utxo (getId tx) 4 t c sc block]. split; [|by apply Forall_singleton].
    right. exists sc. split_and!; try done. by eapply psbt_pays_tx.
Qed.

Lemma sum_change_created tx change c txid t block created :
  change_accepted tx change c txid t block created → sum_utxos created = c.
Proof. by intros [(-> & _ & ->)|(s & _ & _ & _ & _ & ->)]. Qed.

(** The redemption the Guardian signs satisfies the indexer's acceptance rules. *)
Lemma redeem_valid_accepted params st a s rawHex tx block :
  wf config st → watches params st → vault_not_carrier st (ra_tokenId a) → finalizes (vp_psbt params) rawHex tx →
  redeem_valid execFile bin params a s →
  ∃ prior hash script spent created,
    let t := toHex (ra_tokenId a) in
    cove_accepted config st (getId tx) rawHex
      (RedeemV2 (ra_tokenId a) (ra_redeemAmountAtoms a) (ra_changeAllocations a)) block
      (accepted REDEEM t (UndoRedeem t (getId tx) prior spent created)
         (Some (trade (ra_redeemAmountAtoms a) (ra_grossSats a) (ra_protocolFeeSats a) (ra_nextState a))))
      (with_tables st (tokens st)
         (<[t := next_backing t (ra_nextState a) hash script (getId tx) block]> (backing st))
         (set_utxos created (delete_utxos spent (tokenUtxos st))))
    ∧ backing st !! t = Some prior ∧ bk_state prior = ra_currentState a
    ∧ vault_script config (ra_nextState a) = Ok script
    ∧ spent = omap (λ i, tokenUtxos st !! in_key i) (tx_ins tx)
    ∧ sum_utxos spent = ra_tokenInputTotalAtoms a
    ∧ Forall (λ u, utxo_key u = outpointKey (getId tx) 4
                   ∧ tu_amountAtoms u = ra_tokenInputTotalAtoms a - ra_redeemAmountAtoms a) created.
Proof.
  intros Hwf Hw Hvn Hfz (_ & Ha & pv & nv & i0 & u & p & w & _ & Hnv & _ & _ & _ & _ & Hown & _ & Hs & Hp & Hf
    & _ & Hch & _).
  apply analyzeRedeem_Ok in Ha as (Hd & Hcur & Hop & (i & Hi & Ei) & Hne & Hall & Hap & Hpf & Enp & _ & _ & _ & Etot & _).
  pose proof (w_view _ _ Hw) as Hsh. rewrite (sh_state _ _ Hsh) in Hcur. rewrite (sh_outpoint _ _ Hsh) in Hop.
  destruct (spends_backing_true _ _ _ _ _ _ _ Hfz Hop Hi Ei) as (b & Hb & Eo & Hsp).
  unfold getCurrentBackingState in Hcur. rewrite Hb in Hcur. injection Hcur as Hbs.
  destruct (transition_hash _ _ _ (or_intror Hap)) as [hash Hh]. cbn [nextState] in Hh.
  set (spent := omap (λ i, tokenUtxos st !! in_key i) (tx_ins tx)).
  assert (utxo_view <$> spent = snd <$> token_inputs_of (vp_view params) (vp_psbt params)) as Esp.
  { rewrite (token_inputs_of_shows _ st) by done. unfold spent. rewrite (fz_ins _ _ _ Hfz).
    destruct (psbt_inputs (vp_psbt params)) as [|i1 l]; [done|]. cbn in Hi. injection Hi as ->. cbn.
    rewrite <-Ei in Hop. apply Hvn in Hop. cbn in Hop. fold (in_key (psi_txin i)) in Hop. by rewrite Hop. }
  assert (sum_utxos spent = ra_tokenInputTotalAtoms a) as Esum.
  { rewrite Etot, list_fmap_compose, <-Esp, <-list_fmap_compose. unfold sum_utxos. by rewrite foldl_add_zsum. }
  assert (0 ≤ ra_tokenInputTotalAtoms a - ra_redeemAmountAtoms a) as Hpos by lia.
  destruct (change_ok_accepted _ _ _ _ _ block (toHex (ra_tokenId a)) Hfz Hpos Hch) as (created & Hca & Hcr).
  exists b, hash, (v3_scriptPubKey nv), spent, created. cbn zeta.
  split_and!; [|done..|by eapply watches_vault|done|done|done].
  exists tx, b, spent, created, (ra_nextState a), (ra_grossSats a), (ra_protocolFeeSats a), p, (v3_scriptPubKey nv), hash.
  cbn zeta. rewrite (w_fees _ _ Hw) in Hpf. rewrite (w_feeScript _ _ Hw) in Hf. rewrite Hbs, Esum, <-Enp.
  split_and!; try done; try (by eapply psbt_pays_tx).
  - by apply (wf_tokens _ _ Hwf).
  - apply (fz_parses _ _ _ Hfz).
  - intros E. rewrite E in Esp. by destruct (token_inputs_of _ _).
  - apply Forall_forall. intros v Hv. pose proof Hv as (j & _ & Hj)%list_elem_of_omap.
    eapply utxo_token; [done..|]. apply (list_elem_of_fmap_2 utxo_view) in Hv. rewrite Esp in Hv.
    apply list_elem_of_fmap in Hv as (it & Eit & Hit). rewrite Forall_forall in Hall.
    change (fromHex (tu_tokenId v)) with (vu_tokenId (utxo_view v)). rewrite Eit. by apply Hall.
  - by eapply watches_vault.
Qed.

(** C8: the same for redemptions: what the Guardian signs, the indexer applies;
    the seller's carriers are exactly the ones spent, the change carrier holds
    the rest, and nothing is burned. *)
Theorem guardian_redeem_indexed params st a s rawHex tx block i :
  reachable config st → watches params st → vault_not_carrier st (ra_tokenId a) →
  validateRedeemTransitionV3 execFile bin params = Ok (VOk (ARedeem a) s) →
  finalizes (vp_psbt params) rawHex tx →
  ∃ prior hash script spent created,
    let t := toHex (ra_tokenId a) in
    let r := accepted REDEEM t (UndoRedeem t (getId tx) prior spent created)
      (Some (trade (ra_redeemAmountAtoms a) (ra_grossSats a) (ra_protocolFeeSats a) (ra_nextState a))) in
    backing st !! t = Some prior ∧ bk_state prior = ra_currentState a
    ∧ vault_script config (ra_nextState a) = Ok script
    ∧ spent = omap (λ i, tokenUtxos st !! in_key i) (tx_ins tx)
    ∧ sum_utxos spent = ra_redeemAmountAtoms a + sum_utxos created
    ∧ apply_tx config st block i rawHex
      = Ok ([UndoRedeem t (getId tx) prior spent created], [accepted_event tx block i r],
            record (with_tables st (tokens st)
              (<[t := next_backing t (ra_nextState a) hash script (getId tx) block]> (backing st))
              (set_utxos created (delete_utxos spent (tokenUtxos st)))) (accepted_event tx block i r)).
Proof.
  intros Hwf%reachable_wf Hw Hvn Hval%validateRedeem_valid Hfz.
  destruct (redeem_valid_accepted _ _ _ _ _ _ block Hwf Hw Hvn Hfz Hval)
    as (b & hash & sc & spent & created & Hacc & Hb & Hbs & Hvs & Esp & Esum & Hcr).
  exists b, hash, sc, spent, created. cbn zeta.
  pose proof (uo_keyed _ _ (wf_utxos _ _ Hwf)) as Hk. split_and!; [done..| |].
  - pose proof Hacc as (tx' & b' & sp & cr & n & g & f & p & scr & h & _ & _ & _ & _ & _ & _ & _ & _ & Hca & _
      & _ & _ & _ & _ & _ & _ & Er & _).
    injection Er as _ <- <- _. rewrite (sum_change_created _ _ _ _ _ _ _ Hca). lia.
  - destruct Hval as (_ & (Hd & _)%analyzeRedeem_Ok & _).
    eapply apply_tx_accepted in Hacc; [exact Hacc|by eapply decodeCoveOpReturn_parse|apply (fz_parses _ _ _ Hfz)|].
    cbn [tokenUtxos with_tables]. apply Forall_forall. intros j Hj.
    pose proof (fz_acyclic _ _ _ Hfz) as Hac. rewrite Forall_forall in Hac.
    rewrite lookup_set_utxos, lookup_delete_utxos.
    + case_decide as Hin; [done|]. apply eq_None_not_Some. intros [v Hv]. apply Hin.
      rewrite <-(Hk _ _ Hv). apply list_elem_of_fmap_2. rewrite Esp. apply list_elem_of_omap. by exists j.
    + intros (v & E & Hv)%list_elem_of_fmap. rewrite Forall_forall in Hcr.
      destruct (Hcr v Hv) as [E' _]. rewrite E' in E. by apply (Hac j Hj 4).
Qed.
End Agreement.
