(* ===== verification/Finalize.v ===== *)
(** * Finalized transactions

    packages/cove-guardian/src/v3/finalize.ts and broadcast.ts: the checks on
    the raw bytes that are about to be sent, and the one path to the node. *)
From S2P Require Import Prelude Bytes Economics Wire Covenant Simplicity Vault Indexer Guardian.

(** ** finalize.ts *)

(** Only the validators below make one. *)
Record ValidatedCoveTransaction := {
  vt_rawTxHex : string;
  vt_txid : string;
  vt_operation : V3Operation;
  vt_tokenId : string;
  vt_validationDigest : string;
}.

Inductive FinalValidationResult :=
  | FinalOk (v : ValidatedCoveTransaction)
  | FinalReject (reason : string).

Record ResolvedPrevout := { rsp_script : list byte; rsp_valueSats : Z }.
#[export] Instance ResolvedPrevout_eq_dec : EqDecision ResolvedPrevout.
Proof. solve_decision. Defined.

Record FinalizeParams := {
  fp_rawTxHex : string;
  fp_view : CoveCanonicalView;
  fp_network : V3Network;
  fp_guardianXOnly : list byte;
  fp_recoveryKeyXOnly : list byte;
  fp_recoveryProfile : option VaultRecoveryProfile;
  fp_feeScript : list byte;
  fp_maxMinerFeeSats : option Z;
  fp_prevouts : option (gmap string ResolvedPrevout);
  fp_fees : FeeSchedule;
}.

Definition MAX_MINER_FEE : Z := 20000.

Definition freject (reason : string) : result FinalValidationResult := Ok (FinalReject reason).

(** [if (b) return reject(reason);] and then [k]. *)
Definition freject_if (b : bool) (reason : string) (k : result FinalValidationResult)
    : result FinalValidationResult :=
  if b then freject reason else k.

(** [const x = o; if (!x) return reject(reason);] and then [k x]. *)
Definition or_freject {A} (o : option A) (reason : string) (k : A → result FinalValidationResult)
    : result FinalValidationResult :=
  match o with Some x => k x | None => freject reason end.

(** [!out || !p(out)] *)
Definition no_out (tx : Tx) (i : nat) (p : TxOut → bool) : bool := negb (out_is (tx_outs tx !! i) p).

Section Finalize.
Context {C : Crypto} {B : Bitcoin}.
(** The child process of the executor, the path of its program, and what
    [Transaction.fromHex] says of malformed text. *)
Context (execFile : string → list string → Z → exec_outcome) (bin : option string).
Context (bad_tx_message : string → string).

Definition validated (rawTxHex txid : string) (operation : V3Operation) (tokenId : string)
    : ValidatedCoveTransaction :=
  {| vt_rawTxHex := rawTxHex; vt_txid := txid; vt_operation := operation; vt_tokenId := tokenId;
     vt_validationDigest := toHex (sha256 (fromHex rawTxHex)) |}.

Definition parseTx (rawTxHex : string) (k : Tx → result FinalValidationResult) : result FinalValidationResult :=
  match tx_fromHex rawTxHex with
  | None => freject ("BAD_TX: " +:+ bad_tx_message rawTxHex)
  | Some tx => k tx
  end.

Definition decodeWire (tx : Tx) (k : ParsedEnvelopeV2 → result FinalValidationResult)
    : result FinalValidationResult :=
  match decodeCoveOpReturnTx tx with
  | Throw e => freject (exn_message e)
  | Ok wire => k wire
  end.

(** The values of the inputs, or the first one that does not resolve. *)
Fixpoint resolved_total (prevouts : gmap string ResolvedPrevout) (ins : list TxIn) (totalIn : Z) : Z + string :=
  match ins with
  | [] => inl totalIn
  | i :: rest =>
      match prevouts !! in_key i with
      | None => inr (in_key i)
      | Some p => resolved_total prevouts rest (totalIn + rsp_valueSats p)
      end
  end.

Definition checkMinerFee (tx : Tx) (prevouts : option (gmap string ResolvedPrevout)) (maxMinerFee : Z)
    (k : result FinalValidationResult) : result FinalValidationResult :=
  match prevouts with
  | None => k
  | Some prevouts =>
      match resolved_total prevouts (tx_ins tx) 0 with
      | inr key => freject ("UNRESOLVED_PREVOUT: " +:+ key)
      | inl totalIn =>
          let totalOut := foldl (λ s o, s + txo_value o) 0 (tx_outs tx) in
          let minerFee := totalIn - totalOut in
          freject_if (minerFee <? 0) ("NEGATIVE_MINER_FEE: " +:+ pretty minerFee) $
          freject_if (maxMinerFee <? minerFee)
            ("MINER_FEE_EXCEEDED: " +:+ pretty minerFee +:+ " > " +:+ pretty maxMinerFee) k
      end
  end.

Record FinalizeDeployParams := {
  fd_rawTxHex : string;
  fd_network : V3Network;
  fd_chainIdentity : string;
  fd_guardianXOnly : list byte;
  fd_recoveryKeyXOnly : list byte;
  fd_recoveryProfile : option VaultRecoveryProfile;
}.

Definition validateFinalizedDeployTransaction (params : FinalizeDeployParams) : result FinalValidationResult :=
  parseTx (fd_rawTxHex params) $ λ tx,
  decodeWire tx $ λ wire,
  match wire with
  | DeployV2 policyVersion ticker tokenNonce =>
      or_freject (tx_outs tx !! 2%nat) "CREATOR_OUTPUT_MISSING" $ λ creatorOut,
      freject_if (negb (txo_value creatorOut =? CREATOR_RECORD_SATS) || negb (isCreatorScript (txo_script creatorOut)))
        "CREATOR_OUTPUT_MISSING" $
      tokenId ← computeTokenId sha256
        {| chainIdentity := fd_chainIdentity params; Wire.policyVersion := policyVersion; Wire.ticker := ticker;
           Wire.tokenNonce := tokenNonce; creatorScript := txo_script creatorOut |};
      s0 ← s0StateV2 (toHex tokenId);
      vault ← buildBackingVaultV3 s0 (fd_guardianXOnly params) (fd_recoveryKeyXOnly params)
        (fd_recoveryProfile params) (Some (guardian_network (fd_network params)));
      freject_if (no_out tx 1 (λ o, bytes_eqb (txo_script o) (v3_scriptPubKey vault))) "S0_VAULT_MISMATCH" $
      freject_if (no_out tx 1 (λ o, txo_value o =? RESERVE_ANCHOR_SATS)) "S0_ANCHOR_MISMATCH" $
      Ok (FinalOk (validated (fd_rawTxHex params) (getId tx) DEPLOY (toHex tokenId)))
  | _ => freject "WRONG_OPCODE"
  end.

Definition final_vault (params : FinalizeParams) (state : CoveStateV2) : result CoveVaultV3 :=
  buildBackingVaultV3 state (fp_guardianXOnly params) (fp_recoveryKeyXOnly params)
    (fp_recoveryProfile params) (Some (guardian_network (fp_network params))).

(** Input 0 spends the token's vault, whose prevout, when it is given, is the
    one of the current state; [k] takes that state. *)
Definition spends_current_vault (params : FinalizeParams) (tx : Tx) (tokenId : list byte)
    (k : CoveStateV2 → result FinalValidationResult) : result FinalValidationResult :=
  or_freject (view_getCurrentBackingState (fp_view params) tokenId) "UNKNOWN_TOKEN" $ λ currentState,
  or_freject (view_getBackingOutpoint (fp_view params) tokenId) "UNKNOWN_TOKEN" $ λ backingOutpoint,
  or_freject (tx_ins tx !! 0%nat) "BAD_TX" $ λ ins0,
  freject_if (negb (String.eqb (in_txid ins0) (op_txid backingOutpoint))
              || negb (in_index ins0 =? op_vout backingOutpoint)) "BACKING_VOUT_MISMATCH" $
  prevVault ← final_vault params currentState;
  let expectedPrevValue := RESERVE_ANCHOR_SATS + backingSats currentState in
  match (m ← fp_prevouts params; m !! in_key ins0) with
  | None => k currentState
  | Some prev0 =>
      freject_if (negb (bytes_eqb (rsp_script prev0) (v3_scriptPubKey prevVault))) "BACKING_SCRIPT_MISMATCH" $
      freject_if (negb (rsp_valueSats prev0 =? expectedPrevValue)) "BACKING_VALUE_MISMATCH" $
      k currentState
  end.

(** Output 1 is the vault of the successor state. *)
Definition pays_successor (params : FinalizeParams) (tx : Tx) (nextState : CoveStateV2)
    (k : result FinalValidationResult) : result FinalValidationResult :=
  nextVault ← final_vault params nextState;
  freject_if (no_out tx 1 (λ o, bytes_eqb (txo_script o) (v3_scriptPubKey nextVault)))
    "SUCCESSOR_SCRIPT_MISMATCH" $
  freject_if (no_out tx 1 (λ o, txo_value o =? RESERVE_ANCHOR_SATS + backingSats nextState))
    "SUCCESSOR_VALUE_MISMATCH" k.

Definition carrier_fits (o : TxOut) (k : result FinalValidationResult) : result FinalValidationResult :=
  freject_if (negb (txo_value o =? TOKEN_CARRIER_SATS)) "CARRIER_VALUE_MISMATCH" $
  freject_if (negb (isStandardCarrier (txo_script o))) "CARRIER_NOT_STANDARD" k.

(** Output 3 pays the protocol fee, which is no dust. *)
Definition pays_fee_output (params : FinalizeParams) (tx : Tx) (protocolFeeSats feeBps : Z)
    (k : result FinalValidationResult) : result FinalValidationResult :=
  freject_if (no_out tx 3 (λ o, (txo_value o =? protocolFeeSats)
                                && bytes_eqb (txo_script o) (fp_feeScript params))) "FEE_MISMATCH" $
  settlement ← checkFeeSettlement protocolFeeSats (fp_feeScript params) feeBps;
  freject_if (negb (isStandard settlement)) "PROTOCOL_FEE_DUST" k.

(** One more output for the advisory message, when it is the last one. *)
Definition discovery_outputs (tx : Tx) : nat :=
  if (5 <? length (tx_outs tx))%nat && out_is (last (tx_outs tx)) (λ o, at_is (txo_script o) 0 0x6a)
  then 1 else 0.

(** The verdict of the run of the program. *)
Definition program_passes (run : result SimplicityExecutionResult) (k : result FinalValidationResult)
    : result FinalValidationResult :=
  sim ← run;
  freject_if (negb (pass sim))
    (match failure sim with Some f => failure_name (Some f) | None => "SIMPLICITY_REJECTED"%string end) k.

Definition maxMinerFee (params : FinalizeParams) : Z := default MAX_MINER_FEE (fp_maxMinerFeeSats params).

Definition validateFinalizedMintTransaction (params : FinalizeParams) : result FinalValidationResult :=
  parseTx (fp_rawTxHex params) $ λ tx,
  decodeWire tx $ λ wire,
  match wire with
  | MintV2 tokenId amount recipientVout =>
      spends_current_vault params tx tokenId $ λ currentState,
      match applyMintV2 currentState amount with
      | Throw e => freject ("REFERENCE_POLICY_REJECTED: " +:+ exn_message e)
      | Ok canonical =>
      let nextState := nextState canonical in
      let grossSats := grossSats canonical in
      let feeBps := default (buyFeeBps COVE_FEE_CONFIG) (fs_buyFeeBps (fp_fees params)) in
      protocolFeeSats ← mintFeeSats grossSats amount feeBps
        (default (buyFeeFlatSats COVE_FEE_CONFIG) (fs_buyFeeFlatSats (fp_fees params)))
        (buyFeeLotSats COVE_FEE_CONFIG);
      pays_successor params tx nextState $
      freject_if (negb (recipientVout =? 2)) "CARRIER_MISSING" $
      or_freject (tx_outs tx !! 2%nat) "CARRIER_MISSING" $ λ carrier,
      carrier_fits carrier $
      pays_fee_output params tx protocolFeeSats feeBps $
      or_freject (f ← view_getTokenCreatorScript (fp_view params); f tokenId) "CREATOR_UNKNOWN" $ λ creatorScript,
      or_freject (tx_outs tx !! 4%nat) "CREATOR_FEE_MISMATCH" $ λ creatorOut,
      creatorFee ← creatorFeeSats grossSats
        (default (creatorFeeBps COVE_FEE_CONFIG) (fs_creatorFeeBps (fp_fees params)));
      freject_if (negb (txo_value creatorOut =? creatorFee)
                  || negb (bytes_eqb (txo_script creatorOut) creatorScript)) "CREATOR_FEE_MISMATCH" $
      freject_if (6 + discovery_outputs tx <? length (tx_outs tx))%nat "UNEXPECTED_OUTPUT" $
      checkMinerFee tx (fp_prevouts params) (maxMinerFee params) $
      match buildCanonicalMintWitness currentState nextState amount grossSats with
      | inr _ => freject "WITNESS_CONSTRUCTION_FAILED"
      | inl witness =>
          program_passes (executeMintV3 execFile witness bin None) $
          Ok (FinalOk (validated (fp_rawTxHex params) (getId tx) MINT (toHex tokenId)))
      end
      end
  | _ => freject "WRONG_OPCODE"
  end.

(** The tokens of [tokenId] the inputs hold; nothing when one holds another token. *)
Fixpoint token_total (view : CoveCanonicalView) (tokenId : list byte) (ins : list TxIn) (total : Z) : option Z :=
  match ins with
  | [] => Some total
  | i :: rest =>
      match view_getTokenUtxo view (txin_outpoint i) with
      | None => token_total view tokenId rest total
      | Some tok =>
          if bytes_eqb (vu_tokenId tok) tokenId
          then token_total view tokenId rest (total + vu_amountAtoms tok)
          else None
      end
  end.

(** The layout of a redemption's last outputs. *)
Definition change_layout (tx : Tx) (changeAllocations : list TokenAllocation) (changeAtoms : Z)
    (k : result FinalValidationResult) : result FinalValidationResult :=
  if 0 <? changeAtoms then
    or_freject (tx_outs tx !! 4%nat) "TOKEN_CHANGE_MISMATCH" $ λ changeOut,
    carrier_fits changeOut $
    freject_if (negb match changeAllocations with
                     | [a] => (vout a =? 4) && (amount a =? changeAtoms)
                     | _ => false
                     end) "TOKEN_CHANGE_MISMATCH" $
    freject_if (6 <? length (tx_outs tx))%nat "UNEXPECTED_OUTPUT" k
  else
    freject_if (negb (length changeAllocations =? 0)%nat) "TOKEN_INFLATION" $
    freject_if (5 <? length (tx_outs tx))%nat "UNEXPECTED_OUTPUT" k.

Definition validateFinalizedRedeemTransaction (params : FinalizeParams) : result FinalValidationResult :=
  parseTx (fp_rawTxHex params) $ λ tx,
  decodeWire tx $ λ wire,
  match wire with
  | RedeemV2 tokenId redeemAmount changeAllocations =>
      spends_current_vault params tx tokenId $ λ currentState,
      or_freject (token_total (fp_view params) tokenId (tail (tx_ins tx)) 0) "MIXED_TOKEN_INPUT" $ λ tokenInputTotalAtoms,
      freject_if (tokenInputTotalAtoms =? 0) "FORGED_TOKEN_INPUT" $
      let changeAtoms := tokenInputTotalAtoms - redeemAmount in
      freject_if (changeAtoms <? 0) "TOKEN_OWNERSHIP_INSUFFICIENT" $
      freject_if (negb (sum_allocations changeAllocations =? changeAtoms)) "TOKEN_CHANGE_MISMATCH" $
      match applyRedeemV2 currentState redeemAmount with
      | Throw e => freject ("REFERENCE_POLICY_REJECTED: " +:+ exn_message e)
      | Ok canonical =>
      let nextState := nextState canonical in
      let grossSats := grossSats canonical in
      let feeBps := default (redeemFeeBps COVE_FEE_CONFIG) (fs_redeemFeeBps (fp_fees params)) in
      protocolFeeSats ← redeemFeeSats grossSats feeBps
        (default (redeemFeeFlatSats COVE_FEE_CONFIG) (fs_redeemFeeFlatSats (fp_fees params)))
        (redeemFeeMinSats COVE_FEE_CONFIG);
      let netPayoutSats := grossSats - protocolFeeSats in
      pays_successor params tx nextState $
      freject_if (no_out tx 2 (λ o, txo_value o =? netPayoutSats)) "PAYOUT_MISMATCH" $
      pays_fee_output params tx protocolFeeSats feeBps $
      change_layout tx changeAllocations changeAtoms $
      checkMinerFee tx (fp_prevouts params) (maxMinerFee params) $
      match buildCanonicalRedeemWitness currentState nextState redeemAmount grossSats with
      | inr _ => freject "WITNESS_CONSTRUCTION_FAILED"
      | inl witness =>
          program_passes (executeRedeemV3 execFile witness bin None) $
          Ok (FinalOk (validated (fp_rawTxHex params) (getId tx) REDEEM (toHex tokenId)))
      end
      end
  | _ => freject "WRONG_OPCODE"
  end.

(** The loop over the allocations' outputs. *)
Fixpoint allocations_fit (tx : Tx) (l : list TokenAllocation) (k : result FinalValidationResult)
    : result FinalValidationResult :=
  match l with
  | [] => k
  | a :: rest =>
      or_freject (if vout a <? 0 then None else tx_outs tx !! Z.to_nat (vout a)) "ALLOCATION_VOUT_MISSING" $ λ out,
      carrier_fits out $ allocations_fit tx rest k
  end.

Record FinalizeTransferParams := {
  ft_rawTxHex : string;
  ft_view : CoveCanonicalView;
  ft_prevouts : option (gmap string ResolvedPrevout);
  ft_maxMinerFeeSats : option Z;
}.

Definition validateFinalizedTransferTransaction (params : FinalizeTransferParams) : result FinalValidationResult :=
  parseTx (ft_rawTxHex params) $ λ tx,
  decodeWire tx $ λ wire,
  match wire with
  | TransferV2 tokenId allocations =>
      or_freject (token_total (ft_view params) tokenId (tx_ins tx) 0) "MIXED_TOKEN_INPUT" $ λ tokenIn,
      freject_if (tokenIn =? 0) "FORGED_TOKEN_INPUT" $
      let allocSum := sum_allocations allocations in
      freject_if (negb (allocSum =? tokenIn))
        ("TOKEN_CONSERVATION: in=" +:+ pretty tokenIn +:+ " out=" +:+ pretty allocSum) $
      allocations_fit tx allocations $
      checkMinerFee tx (ft_prevouts params) (default MAX_MINER_FEE (ft_maxMinerFeeSats params)) $
      Ok (FinalOk (validated (ft_rawTxHex params) (getId tx) TRANSFER (toHex tokenId)))
  | _ => freject "WRONG_OPCODE"
  end.
End Finalize.

(** ** broadcast.ts *)
Record MempoolVerdict := { mv_allowed : bool; mv_rejectReason : option string }.

(** The answers of the node: [getBlockchainInfo().chain], [testMempoolAccept]
    and [broadcastTransaction]. *)
Record BroadcastNode := {
  bn_chain : result string;
  bn_testMempoolAccept : string → result MempoolVerdict;
  bn_broadcastTransaction : string → result string;
}.

(** The calls the node sees. *)
Inductive NodeCall := CallChainInfo | CallTestAccept (rawTxHex : string) | CallBroadcast (rawTxHex : string).

Record BroadcastResult := { br_txid : string; br_mempoolAcceptAllowed : bool }.

(** The mempool check and the broadcast, after [calls]. *)
Definition check_and_send (v : ValidatedCoveTransaction) (provider : BroadcastNode) (calls : list NodeCall)
    : result BroadcastResult * list NodeCall :=
  let raw := vt_rawTxHex v in
  match bn_testMempoolAccept provider raw with
  | Throw e => (Throw e, calls ++ [CallTestAccept raw])
  | Ok accept =>
      if negb (mv_allowed accept)
      then (Throw (js_error ("testmempoolaccept rejected: " +:+ default "unknown"%string (mv_rejectReason accept))),
            calls ++ [CallTestAccept raw])
      else
        let calls := calls ++ [CallTestAccept raw; CallBroadcast raw] in
        match bn_broadcastTransaction provider raw with
        | Throw e => (Throw e, calls)
        | Ok txid =>
            if negb (String.eqb txid (vt_txid v))
            then (Throw (js_error ("TXID_MISMATCH: broadcast " +:+ txid +:+ " != validated " +:+ vt_txid v)), calls)
            else (Ok {| br_txid := txid; br_mempoolAcceptAllowed := mv_allowed accept |}, calls)
        end
  end.

Definition broadcastValidatedCoveTransaction (v : ValidatedCoveTransaction) (network : V3Network)
    (provider : BroadcastNode) : result BroadcastResult * list NodeCall :=
  match network with
  | Mainnet =>
      match bn_chain provider with
      | Throw e => (Throw e, [CallChainInfo])
      | Ok chain =>
          if negb (String.eqb chain "main")
          then (Throw (js_error ("WRONG_CHAIN: mainnet broadcast, but the node is on " +:+ String dquote chain
                                 +:+ String dquote "")), [CallChainInfo])
          else check_and_send v provider [CallChainInfo]
      end
  | _ => check_and_send v provider []
  end.
