(* ===== verification/FinalizeInv.v ===== *)
(** * What is broadcast

    The final checks as conditions, and their agreement with the two parties
    around them: a transaction made from a PSBT the Guardian accepts passes
    them, and what passes them the indexer applies. *)
From S2P Require Import Prelude Bytes Economics Wire Discovery Covenant Simplicity Vault Indexer IndexerInv Spend Guardian GuardianInv Finalize.

(** ** The checks as conditions *)
Definition final (m : result FinalValidationResult) (v : ValidatedCoveTransaction) : Prop := m = Ok (FinalOk v).

Lemma freject_if_final b r k v : final (freject_if b r k) v ↔ b = false ∧ final k v.
Proof. unfold final, freject_if, freject. destruct b; naive_solver. Qed.

Lemma freject_if_not_final b r k v : final (freject_if (negb b) r k) v ↔ b = true ∧ final k v.
Proof. by rewrite freject_if_final, negb_false_iff. Qed.

Lemma or_freject_final {A} (o : option A) r k v : final (or_freject o r k) v ↔ ∃ x, o = Some x ∧ final (k x) v.
Proof. unfold final, or_freject, freject. destruct o; naive_solver. Qed.

Lemma bind_final {A} (m : result A) k v : final (m ≫= k) v ↔ ∃ x, m = Ok x ∧ final (k x) v.
Proof. apply bind_Ok. Qed.

Lemma Ok_final v w : final (Ok (FinalOk w)) v ↔ w = v.
Proof. unfold final. naive_solver. Qed.

Lemma carrier_fits_final o k v :
  final (carrier_fits o k) v ↔ txo_value o = TOKEN_CARRIER_SATS ∧ isStandardCarrier (txo_script o) = true ∧ final k v.
Proof. unfold carrier_fits. by rewrite !freject_if_not_final, Z.eqb_eq. Qed.

(** An output with its two fields. *)
Lemma pays_fields tx i o value :
  tx_outs tx !! i = Some o → txo_value o = value → pays tx i (txo_script o) value.
Proof. intros E <-. unfold pays. rewrite E. by destruct o. Qed.

Section Conditions.
Context {C : Crypto} {B : Bitcoin}.

Lemma parseTx_final msg raw k v : final (parseTx msg raw k) v ↔ ∃ tx, tx_fromHex raw = Some tx ∧ final (k tx) v.
Proof. unfold final, parseTx, freject. destruct (tx_fromHex raw); naive_solver. Qed.

Lemma decodeWire_final tx k v : final (decodeWire tx k) v ↔ ∃ e, decodeCoveOpReturnTx tx = Ok e ∧ final (k e) v.
Proof. unfold final, decodeWire, freject. destruct (decodeCoveOpReturnTx tx); naive_solver. Qed.

(** The inputs' values, when every input resolves. *)
Definition resolved (prevouts : gmap string ResolvedPrevout) (ins : list TxIn) (total : Z) : Prop :=
  ∃ ps, Forall2 (λ i p, prevouts !! in_key i = Some p) ins ps ∧ total = zsum (rsp_valueSats <$> ps).

Lemma resolved_total_inl prevouts ins acc total :
  resolved_total prevouts ins acc = inl total ↔ resolved prevouts ins (total - acc).
Proof.
  unfold resolved. revert acc. induction ins as [|i ins IH]; intros acc; cbn [resolved_total].
  - split.
    + intros [= <-]. exists []. split; [constructor|]. cbn. lia.
    + intros (ps & ->%Forall2_nil_inv_l & E). cbn in E. f_equal. lia.
  - destruct (prevouts !! in_key i) as [p|] eqn:E; [rewrite IH; split|].
    + intros (ps & Hf & Et). exists (p :: ps). split; [by constructor|]. cbn. unfold zsum in *. cbn. lia.
    + intros (ps & (q & ps' & Hq & Hf & ->)%Forall2_cons_inv_l & Et). rewrite E in Hq. injection Hq as <-.
      exists ps'. split; [done|]. cbn in Et. unfold zsum in *. lia.
    + split; [done|]. intros (ps & (q & ps' & Hq & _)%Forall2_cons_inv_l & _). congruence.
Qed.

(** The miner's fee is known and within bounds, where the prevouts are given. *)
Definition miner_fee_ok (tx : Tx) (prevouts : option (gmap string ResolvedPrevout)) (max : Z) : Prop :=
  ∀ m, prevouts = Some m →
  ∃ total, resolved m (tx_ins tx) total ∧ 0 ≤ total - zsum (txo_value <$> tx_outs tx) ≤ max.

Lemma checkMinerFee_final tx prevouts max k v :
  final (checkMinerFee tx prevouts max k) v ↔ miner_fee_ok tx prevouts max ∧ final k v.
Proof.
  unfold checkMinerFee, miner_fee_ok. destruct prevouts as [m|]; [|naive_solver].
  destruct (resolved_total m (tx_ins tx) 0) as [total|key] eqn:E.
  - cbn zeta. rewrite !freject_if_final, !Z.ltb_ge, foldl_add_zsum. apply resolved_total_inl in E.
    rewrite Z.sub_0_r in E. split.
    + intros (? & ? & ?). split; [|done]. intros ? [= <-]. exists total. split; [done|]. lia.
    + intros [H ?]. destruct (H m eq_refl) as (t & Ht & ?).
      assert (t = total) as ->; [|split_and!; [lia..|done]].
      destruct E as (ps & Hp & ->), Ht as (qs & Hq & ->). do 2 f_equal.
      clear -Hp Hq. revert qs Hq. induction Hp as [|i p l ps E _ IH]; intros qs Hq; inversion Hq as [|? q ? qs' E']; subst; [done|].
      f_equal; [congruence|by apply IH].
  - split; [done|]. intros [H _]. destruct (H m eq_refl) as (t & Ht & _).
    assert (resolved m (tx_ins tx) (t - 0)) as Ht' by by rewrite Z.sub_0_r. apply resolved_total_inl in Ht'. congruence.
Qed.

(** Input 0 of [tx] spends the vault of [state]. *)
Definition spends_vault (params : FinalizeParams) (tx : Tx) (t : list byte) (state : CoveStateV2) : Prop :=
  view_getCurrentBackingState (fp_view params) t = Some state
  ∧ ∃ i prevVault, tx_ins tx !! 0%nat = Some i
    ∧ view_getBackingOutpoint (fp_view params) t = Some (txin_outpoint i)
    ∧ final_vault params state = Ok prevVault
    ∧ ∀ m p, fp_prevouts params = Some m → m !! in_key i = Some p →
        p = {| rsp_script := v3_scriptPubKey prevVault; rsp_valueSats := RESERVE_ANCHOR_SATS + backingSats state |}.

Lemma spends_current_vault_final params tx t k v :
  final (spends_current_vault params tx t k) v ↔ ∃ state, spends_vault params tx t state ∧ final (k state) v.
Proof.
  unfold spends_current_vault, spends_vault. rewrite or_freject_final. apply exist_proper. intros state.
  rewrite or_freject_final. split.
  - intros (Hs & o & Ho & H). apply or_freject_final in H as (i & Hi & H). apply freject_if_final in H as [Hio H].
    apply bind_final in H as (pv & Hpv & H). to_prop. destruct Hio as [Et Ev].
    assert (o = txin_outpoint i) as -> by (destruct o; unfold txin_outpoint; cbn in *; by subst).
    destruct (fp_prevouts params) as [m|] eqn:Em; cbn [mbind option_bind] in H.
    + destruct (m !! in_key i) as [p|] eqn:Ep.
      * apply freject_if_not_final in H as [Hsc%bytes_eqb_true H]. apply freject_if_not_final in H as [Hv%Z.eqb_eq H].
        split; [|done]. split; [done|]. exists i, pv. split_and!; try done. intros ? q [= <-] Hq.
        rewrite Ep in Hq. injection Hq as <-. destruct p; cbn in *; by subst.
      * split; [|done]. split; [done|]. exists i, pv. split_and!; try done. intros ? q [= <-] Hq. congruence.
    + split; [|done]. split; [done|]. exists i, pv. by split_and!.
  - intros [(Hs & i & pv & Hi & Ho & Hpv & Hp) H]. split; [done|]. exists (txin_outpoint i). split; [done|].
    apply or_freject_final. exists i. split; [done|]. apply freject_if_final. split.
    { unfold txin_outpoint. cbn. by rewrite String.eqb_refl, Z.eqb_refl. }
    apply bind_final. exists pv. split; [done|]. destruct (fp_prevouts params) as [m|] eqn:Em; cbn [mbind option_bind]; [|done].
    destruct (m !! in_key i) as [p|] eqn:Ep; [|done]. rewrite (Hp m p eq_refl Ep). cbn.
    rewrite !freject_if_not_final, bytes_eqb_true, Z.eqb_eq. done.
Qed.

Lemma no_out_false tx i p : no_out tx i p = false ↔ out_is (tx_outs tx !! i) p = true.
Proof. apply negb_false_iff. Qed.

Lemma pays_successor_final params tx next k v :
  final (pays_successor params tx next k) v ↔
  (∃ nv, final_vault params next = Ok nv ∧ pays tx 1 (v3_scriptPubKey nv) (RESERVE_ANCHOR_SATS + backingSats next))
  ∧ final k v.
Proof.
  unfold pays_successor. rewrite bind_final. split.
  - intros (nv & Hnv & H). rewrite !freject_if_final, !no_out_false in H. destruct H as (Hs & Hv & H).
    split; [|done]. exists nv. split; [done|]. by apply (pays_out_is _ _ _ _ Hs).
  - intros [(nv & Hnv & Hp) H]. exists nv. split; [done|]. rewrite !freject_if_final, !no_out_false.
    split_and!; [by eapply pays_script|by eapply pays_value|done].
Qed.

Lemma pays_fee_output_final params tx fee bps k v :
  final (pays_fee_output params tx fee bps k) v ↔
  pays tx 3 (fp_feeScript params) fee ∧ fee_settles fee (fp_feeScript params) ∧ final k v.
Proof.
  unfold pays_fee_output, fee_settles, checkFeeSettlement. rewrite freject_if_final, no_out_false, pays_out_is_both, bind_final.
  split.
  - intros (Hp & c & Hc & H). res_inv Hc. subst c. cbn [isStandard] in H. rewrite freject_if_not_final in H.
    destruct H as [Hstd H]. to_prop. by split_and!.
  - intros (Hp & [Hf Hstd] & H). split; [done|]. eexists. split; [guard_step lia; reflexivity|]. cbn [isStandard].
    rewrite freject_if_not_final. split; [|done]. by to_prop.
Qed.

(** The program ran and passed. *)
Definition passed (m : result SimplicityExecutionResult) (s : SimplicityExecutionResult) : Prop :=
  m = Ok s ∧ pass s = true.

Lemma program_passes_final m k v : final (program_passes m k) v ↔ (∃ s, passed m s) ∧ final k v.
Proof.
  unfold program_passes, passed. rewrite bind_final. setoid_rewrite freject_if_not_final. naive_solver.
Qed.

Lemma final_mint_witness cur next a g w :
  buildCanonicalMintWitness cur next a g = inl w ↔ buildMintSimplicityWitness sha256 cur next a g = Ok w.
Proof. unfold buildCanonicalMintWitness. destruct (buildMintSimplicityWitness _ _ _ _ _); naive_solver. Qed.

Lemma final_redeem_witness cur next a g w :
  buildCanonicalRedeemWitness cur next a g = inl w ↔ buildRedeemSimplicityWitness sha256 cur next a g = Ok w.
Proof. unfold buildCanonicalRedeemWitness. destruct (buildRedeemSimplicityWitness _ _ _ _ _); naive_solver. Qed.
End Conditions.

(** ** The four validators *)
Section Validators.
Context {C : Crypto} {B : Bitcoin}.
Context (execFile : string → list string → Z → exec_outcome) (bin : option string) (msg : string → string).

Definition final_deploy (params : FinalizeDeployParams) v : Prop :=
  ∃ tx pv ticker nonce creator t vault,
    tx_fromHex (fd_rawTxHex params) = Some tx ∧ decodeCoveOpReturnTx tx = Ok (DeployV2 pv ticker nonce)
    ∧ pays tx 2 creator CREATOR_RECORD_SATS ∧ isCreatorScript creator = true
    ∧ computeTokenId sha256
        {| chainIdentity := fd_chainIdentity params; Wire.policyVersion := pv; Wire.ticker := ticker;
           Wire.tokenNonce := nonce; creatorScript := creator |} = Ok t
    ∧ buildBackingVaultV3 (state_at (toHex t) 0) (fd_guardianXOnly params) (fd_recoveryKeyXOnly params)
        (fd_recoveryProfile params) (Some (guardian_network (fd_network params))) = Ok vault
    ∧ pays tx 1 (v3_scriptPubKey vault) RESERVE_ANCHOR_SATS
    ∧ v = validated (fd_rawTxHex params) (getId tx) DEPLOY (toHex t).

Lemma validateFinalizedDeploy_Ok params v :
  validateFinalizedDeployTransaction msg params = Ok (FinalOk v) ↔ final_deploy params v.
Proof.
  fold (final (validateFinalizedDeployTransaction msg params) v).
  unfold validateFinalizedDeployTransaction, final_deploy. rewrite parseTx_final. split.
  - intros (tx & Htx & H). apply decodeWire_final in H as (e & He & H).
    destruct e as [pv ticker nonce| | |]; try (by unfold final, freject in H; simplify_eq).
    apply or_freject_final in H as (o & Ho & H). apply freject_if_final in H as [Hc H].
    apply bind_final in H as (t & Ht & H). apply bind_final in H as (s0 & Hs & H).
    rewrite s0StateV2_state_at in Hs. injection Hs as <-. apply bind_final in H as (vault & Hv & H).
    rewrite !freject_if_final, !no_out_false, Ok_final in H. destruct H as (H1 & H2 & <-). to_prop.
    destruct Hc as [Hval Hcs]. exists tx, pv, ticker, nonce, (txo_script o), t, vault. split_and!; try done.
    + by eapply pays_fields.
    + by apply (pays_out_is _ _ _ _ H1).
  - intros (tx & pv & ticker & nonce & creator & t & vault & Htx & He & Hp2 & Hcs & Ht & Hv & Hp1 & ->).
    exists tx. split; [done|]. apply decodeWire_final. eexists. split; [exact He|].
    apply or_freject_final. eexists. split; [exact Hp2|]. cbn [txo_value txo_script].
    rewrite Hcs, Z.eqb_refl. apply freject_if_final. split; [done|]. apply bind_final. exists t. split; [done|].
    apply bind_final. eexists. split; [apply s0StateV2_state_at|]. apply bind_final. exists vault. split; [done|].
    rewrite !freject_if_final, !no_out_false, Ok_final. split_and!; [by eapply pays_script|by eapply pays_value|done].
Qed.

Definition final_mint (params : FinalizeParams) v : Prop :=
  ∃ tx t amount cur next gross fee cfee creator carrier nv w s,
    let feeBps := default (buyFeeBps COVE_FEE_CONFIG) (fs_buyFeeBps (fp_fees params)) in
    tx_fromHex (fp_rawTxHex params) = Some tx ∧ decodeCoveOpReturnTx tx = Ok (MintV2 t amount 2)
    ∧ spends_vault params tx t cur
    ∧ applyMintV2 cur amount = Ok {| nextState := next; grossSats := gross |}
    ∧ mintFeeSats gross amount feeBps (default (buyFeeFlatSats COVE_FEE_CONFIG) (fs_buyFeeFlatSats (fp_fees params)))
        (buyFeeLotSats COVE_FEE_CONFIG) = Ok fee
    ∧ final_vault params next = Ok nv
    ∧ pays tx 1 (v3_scriptPubKey nv) (RESERVE_ANCHOR_SATS + backingSats next)
    ∧ pays tx 2 carrier TOKEN_CARRIER_SATS ∧ isStandardCarrier carrier = true
    ∧ pays tx 3 (fp_feeScript params) fee ∧ fee_settles fee (fp_feeScript params)
    ∧ (f ← view_getTokenCreatorScript (fp_view params); f t) = Some creator
    ∧ creatorFeeSats gross (default (creatorFeeBps COVE_FEE_CONFIG) (fs_creatorFeeBps (fp_fees params))) = Ok cfee
    ∧ pays tx 4 creator cfee
    ∧ (length (tx_outs tx) ≤ 6 + discovery_outputs tx)%nat
    ∧ miner_fee_ok tx (fp_prevouts params) (maxMinerFee params)
    ∧ buildMintSimplicityWitness sha256 cur next amount gross = Ok w
    ∧ passed (executeMintV3 execFile w bin None) s
    ∧ v = validated (fp_rawTxHex params) (getId tx) MINT (toHex t).

Lemma validateFinalizedMint_Ok params v :
  validateFinalizedMintTransaction execFile bin msg params = Ok (FinalOk v) ↔ final_mint params v.
Proof.
  fold (final (validateFinalizedMintTransaction execFile bin msg params) v).
  unfold validateFinalizedMintTransaction, final_mint. rewrite parseTx_final. split.
  - intros (tx & Htx & H). apply decodeWire_final in H as (e & He & H).
    destruct e as [|t amount rv| |]; try (by unfold final, freject in H; simplify_eq).
    apply spends_current_vault_final in H as (cur & Hsp & H).
    destruct (applyMintV2 cur amount) as [[next gross]|] eqn:Hap; [|by unfold final, freject in H; simplify_eq].
    cbn [nextState grossSats] in H. apply bind_final in H as (fee & Hfee & H).
    apply pays_successor_final in H as [(nv & Hnv & Hp1) H]. apply freject_if_not_final in H as [->%Z.eqb_eq H].
    apply or_freject_final in H as (c & Hc & H). apply carrier_fits_final in H as (Hcv & Hcs & H).
    apply pays_fee_output_final in H as (Hp3 & Hset & H). apply or_freject_final in H as (creator & Hcr & H).
    apply or_freject_final in H as (o & Ho & H). apply bind_final in H as (cfee & Hcf & H).
    apply freject_if_final in H as [Hoc H]. apply freject_if_final in H as [Hlen H].
    apply checkMinerFee_final in H as [Hmf H].
    destruct (buildCanonicalMintWitness cur next amount gross) as [w|] eqn:Ew; [|by unfold final, freject in H; simplify_eq].
    apply final_mint_witness in Ew. apply program_passes_final in H as [(s & Hx) <-%Ok_final].
    apply orb_false_iff in Hoc as [Hov%negb_false_iff%Z.eqb_eq Hos%negb_false_iff%bytes_eqb_true]. subst creator.
    exists tx, t, amount, cur, next, gross, fee, cfee, (txo_script o), (txo_script c), nv, w, s.
    apply Nat.ltb_ge in Hlen. cbn zeta. split_and!; try done; by eapply pays_fields.
  - intros (tx & t & amount & cur & next & gross & fee & cfee & creator & carrier & nv & w & s & Htx & He & Hsp & Hap
      & Hfee & Hnv & Hp1 & Hp2 & Hcs & Hp3 & Hset & Hcr & Hcf & Hp4 & Hlen & Hmf & Hw & Hx & ->).
    exists tx. split; [done|]. apply decodeWire_final. eexists. split; [exact He|].
    apply spends_current_vault_final. exists cur. split; [done|]. rewrite Hap. cbn [nextState grossSats].
    apply bind_final. exists fee. split; [done|]. apply pays_successor_final. split; [by exists nv|].
    apply freject_if_not_final. split; [done|]. apply or_freject_final. eexists. split; [exact Hp2|].
    apply carrier_fits_final. split_and!; [done..|]. apply pays_fee_output_final. split_and!; [done..|].
    apply or_freject_final. exists creator. split; [done|]. apply or_freject_final. eexists. split; [exact Hp4|].
    apply bind_final. exists cfee. split; [done|]. apply freject_if_final. cbn [txo_value txo_script]. split.
    { by rewrite Z.eqb_refl, (proj2 (bytes_eqb_true _ _)). }
    apply freject_if_final. split; [by apply Nat.ltb_ge|]. apply checkMinerFee_final. split; [done|].
    rewrite (proj2 (final_mint_witness _ _ _ _ _) Hw). apply program_passes_final. split; [by exists s|].
    by apply Ok_final.
Qed.

(** The carriers among [ins], when they all hold [t]. *)
Definition tokens_in (view : CoveCanonicalView) (ins : list TxIn) : list TokenUtxo :=
  omap (λ i, view_getTokenUtxo view (txin_outpoint i)) ins.

Lemma token_total_Some view t ins acc total :
  token_total view t ins acc = Some total ↔
  Forall (λ tok, vu_tokenId tok = t) (tokens_in view ins)
  ∧ total = acc + zsum (vu_amountAtoms <$> tokens_in view ins).
Proof.
  unfold tokens_in. revert acc. induction ins as [|i ins IH]; intros acc; cbn [token_total omap list_omap].
  - cbn. split; [intros [= <-]; split; [constructor|lia]|intros [_ ->]; f_equal; lia].
  - destruct (view_getTokenUtxo view (txin_outpoint i)) as [tok|]; [|apply IH].
    rewrite Forall_cons. cbn [fmap list_fmap]. unfold bytes_eqb. case_bool_decide as Ht.
    + rewrite IH. unfold zsum. cbn [foldr]. split; [intros [? ->]; by split_and!; [| |lia]|].
      intros [[_ ?] ->]. split; [done|lia].
    + split; [done|]. by intros [[? _] _].
Qed.

(** Where a redemption's change goes, and how many outputs there are. *)
Definition change_final (tx : Tx) (change : list TokenAllocation) (changeAtoms : Z) : Prop :=
  (changeAtoms ≤ 0 ∧ change = [] ∧ (length (tx_outs tx) ≤ 5)%nat)
  ∨ (0 < changeAtoms ∧ change = [Alloc 4 changeAtoms] ∧ (length (tx_outs tx) ≤ 6)%nat
     ∧ ∃ script, pays tx 4 script TOKEN_CARRIER_SATS ∧ isStandardCarrier script = true).

Lemma change_layout_final tx change changeAtoms k v :
  final (change_layout tx change changeAtoms k) v ↔ change_final tx change changeAtoms ∧ final k v.
Proof.
  unfold change_layout, change_final. destruct (Z.ltb_spec 0 changeAtoms) as [Hpos|Hneg].
  - rewrite or_freject_final. split.
    + intros (o & Ho & H). apply carrier_fits_final in H as (Hv & Hs & H).
      apply freject_if_not_final in H as [Hc H]. apply freject_if_final in H as [Hl%Nat.ltb_ge H].
      split; [right|done]. destruct change as [|[vt x] [|]]; try done. cbn in Hc. to_prop. destruct Hc as [-> ->].
      split_and!; try done. exists (txo_script o). split; [by eapply pays_fields|done].
    + intros [[[? _]|(_ & -> & Hl & sc & Hp & Hs)] Hk]; [lia|]. eexists. split; [exact Hp|].
      apply carrier_fits_final. split_and!; [done..|]. apply freject_if_not_final.
      split; [cbn; by rewrite !Z.eqb_refl|]. apply freject_if_final. split; [by apply Nat.ltb_ge|done].
  - rewrite freject_if_not_final, freject_if_final, Nat.eqb_eq, Nat.ltb_ge. split.
    + intros (->%nil_length_inv & ? & ?). split; [by left|done].
    + intros [[(_ & -> & ?)|[? _]] Hk]; [done|lia].
Qed.

Definition final_redeem (params : FinalizeParams) v : Prop :=
  ∃ tx t amount change cur next gross fee payout nv w s,
    let feeBps := default (redeemFeeBps COVE_FEE_CONFIG) (fs_redeemFeeBps (fp_fees params)) in
    let toks := tokens_in (fp_view params) (tail (tx_ins tx)) in
    let total := zsum (vu_amountAtoms <$> toks) in
    tx_fromHex (fp_rawTxHex params) = Some tx ∧ decodeCoveOpReturnTx tx = Ok (RedeemV2 t amount change)
    ∧ spends_vault params tx t cur
    ∧ Forall (λ tok, vu_tokenId tok = t) toks ∧ total ≠ 0 ∧ amount ≤ total
    ∧ sum_allocations change = total - amount
    ∧ applyRedeemV2 cur amount = Ok {| nextState := next; grossSats := gross |}
    ∧ redeemFeeSats gross feeBps (default (redeemFeeFlatSats COVE_FEE_CONFIG) (fs_redeemFeeFlatSats (fp_fees params)))
        (redeemFeeMinSats COVE_FEE_CONFIG) = Ok fee
    ∧ final_vault params next = Ok nv
    ∧ pays tx 1 (v3_scriptPubKey nv) (RESERVE_ANCHOR_SATS + backingSats next)
    ∧ pays tx 2 payout (gross - fee)
    ∧ pays tx 3 (fp_feeScript params) fee ∧ fee_settles fee (fp_feeScript params)
    ∧ change_final tx change (total - amount)
    ∧ miner_fee_ok tx (fp_prevouts params) (maxMinerFee params)
    ∧ buildRedeemSimplicityWitness sha256 cur next amount gross = Ok w
    ∧ passed (executeRedeemV3 execFile w bin None) s
    ∧ v = validated (fp_rawTxHex params) (getId tx) REDEEM (toHex t).

Lemma validateFinalizedRedeem_Ok params v :
  validateFinalizedRedeemTransaction execFile bin msg params = Ok (FinalOk v) ↔ final_redeem params v.
Proof.
  fold (final (validateFinalizedRedeemTransaction execFile bin msg params) v).
  unfold validateFinalizedRedeemTransaction, final_redeem. rewrite parseTx_final. split.
  - intros (tx & Htx & H). apply decodeWire_final in H as (e & He & H).
    destruct e as [| | |t amount change]; try (by unfold final, freject in H; simplify_eq).
    apply spends_current_vault_final in H as (cur & Hsp & H). apply or_freject_final in H as (total & Htot & H).
    apply token_total_Some in Htot as [Hall Htot]. rewrite Z.add_0_l in Htot.
    apply freject_if_final in H as [Hne%Z.eqb_neq H]. apply freject_if_final in H as [Hle%Z.ltb_ge H].
    apply freject_if_not_final in H as [Hsum%Z.eqb_eq H].
    destruct (applyRedeemV2 cur amount) as [[next gross]|] eqn:Hap; [|by unfold final, freject in H; simplify_eq].
    cbn [nextState grossSats] in H. apply bind_final in H as (fee & Hfee & H).
    apply pays_successor_final in H as [(nv & Hnv & Hp1) H]. apply freject_if_final in H as [Hp2 H].
    apply no_out_false, out_is_true in Hp2 as (o & Ho & Hov%Z.eqb_eq).
    apply pays_fee_output_final in H as (Hp3 & Hset & H). apply change_layout_final in H as [Hch H].
    apply checkMinerFee_final in H as [Hmf H].
    destruct (buildCanonicalRedeemWitness cur next amount gross) as [w|] eqn:Ew; [|by unfold final, freject in H; simplify_eq].
    apply final_redeem_witness in Ew. apply program_passes_final in H as [(s & Hx) <-%Ok_final].
    exists tx, t, amount, change, cur, next, gross, fee, (txo_script o), nv, w, s. subst total.
    cbn zeta. split_and!; try done; [lia|by eapply pays_fields].
  - intros (tx & t & amount & change & cur & next & gross & fee & payout & nv & w & s & Htx & He & Hsp & Hall & Hne
      & Hle & Hsum & Hap & Hfee & Hnv & Hp1 & Hp2 & Hp3 & Hset & Hch & Hmf & Hw & Hx & ->).
    exists tx. split; [done|]. apply decodeWire_final. eexists. split; [exact He|].
    apply spends_current_vault_final. exists cur. split; [done|]. apply or_freject_final. eexists.
    split; [by apply token_total_Some|]. rewrite Z.add_0_l.
    apply freject_if_final. split; [by apply Z.eqb_neq|]. apply freject_if_final. split; [apply Z.ltb_ge; lia|].
    apply freject_if_not_final. split; [by apply Z.eqb_eq|]. rewrite Hap. cbn [nextState grossSats].
    apply bind_final. exists fee. split; [done|]. apply pays_successor_final. split; [by exists nv|].
    apply freject_if_final. split; [apply no_out_false; by eapply pays_value|].
    apply pays_fee_output_final. split_and!; [done..|]. apply change_layout_final. split; [done|].
    apply checkMinerFee_final. split; [done|]. rewrite (proj2 (final_redeem_witness _ _ _ _ _) Hw).
    apply program_passes_final. split; [by exists s|]. by apply Ok_final.
Qed.

(** Every allocation has its carrier. *)
Definition allocation_fits (tx : Tx) (a : TokenAllocation) : Prop :=
  0 ≤ vout a ∧ ∃ script, pays tx (Z.to_nat (vout a)) script TOKEN_CARRIER_SATS ∧ isStandardCarrier script = true.

Lemma allocations_fit_final tx l k v :
  final (allocations_fit tx l k) v ↔ Forall (allocation_fits tx) l ∧ final k v.
Proof.
  induction l as [|a l IH]; cbn [allocations_fit]; [naive_solver|].
  rewrite Forall_cons, or_freject_final. unfold allocation_fits at 1. split.
  - intros (o & Ho & H). apply carrier_fits_final in H as (Hv & Hs & H). apply IH in H as [Hf H].
    destruct (Z.ltb_spec (vout a) 0); [done|]. split_and!; try done. exists (txo_script o).
    split; [by eapply pays_fields|done].
  - intros [[(Hz & sc & Hp & Hs) Hf] H]. destruct (Z.ltb_spec (vout a) 0); [lia|]. eexists. split; [exact Hp|].
    apply carrier_fits_final. split_and!; [done..|]. by apply IH.
Qed.

Definition final_transfer (params : FinalizeTransferParams) v : Prop :=
  ∃ tx t l,
    let toks := tokens_in (ft_view params) (tx_ins tx) in
    tx_fromHex (ft_rawTxHex params) = Some tx ∧ decodeCoveOpReturnTx tx = Ok (TransferV2 t l)
    ∧ Forall (λ tok, vu_tokenId tok = t) toks ∧ zsum (vu_amountAtoms <$> toks) ≠ 0
    ∧ sum_allocations l = zsum (vu_amountAtoms <$> toks)
    ∧ Forall (allocation_fits tx) l
    ∧ miner_fee_ok tx (ft_prevouts params) (default MAX_MINER_FEE (ft_maxMinerFeeSats params))
    ∧ v = validated (ft_rawTxHex params) (getId tx) TRANSFER (toHex t).

Lemma validateFinalizedTransfer_Ok params v :
  validateFinalizedTransferTransaction msg params = Ok (FinalOk v) ↔ final_transfer params v.
Proof.
  fold (final (validateFinalizedTransferTransaction msg params) v).
  unfold validateFinalizedTransferTransaction, final_transfer. rewrite parseTx_final. split.
  - intros (tx & Htx & H). apply decodeWire_final in H as (e & He & H).
    destruct e as [| |t l|]; try (by unfold final, freject in H; simplify_eq).
    apply or_freject_final in H as (total & Htot & H). apply token_total_Some in Htot as [Hall ->].
    rewrite Z.add_0_l in H. apply freject_if_final in H as [Hne%Z.eqb_neq H].
    apply freject_if_not_final in H as [Hsum%Z.eqb_eq H]. apply allocations_fit_final in H as [Hf H].
    apply checkMinerFee_final in H as [Hmf <-%Ok_final]. exists tx, t, l. by split_and!.
  - intros (tx & t & l & Htx & He & Hall & Hne & Hsum & Hf & Hmf & ->). exists tx. split; [done|].
    apply decodeWire_final. eexists. split; [exact He|]. apply or_freject_final.
    exists (zsum (vu_amountAtoms <$> tokens_in (ft_view params) (tx_ins tx))).
    split; [by apply token_total_Some|]. apply freject_if_final. split; [by apply Z.eqb_neq|].
    apply freject_if_not_final. split; [by apply Z.eqb_eq|]. apply allocations_fit_final. split; [done|].
    apply checkMinerFee_final. split; [done|]. by apply Ok_final.
Qed.
End Validators.

(** ** What reaches the node *)
Lemma send_calls v node pre r calls raw :
  CallBroadcast raw ∉ pre → check_and_send v node pre = (r, calls) → CallBroadcast raw ∈ calls →
  raw = vt_rawTxHex v ∧ (∃ m, bn_testMempoolAccept node raw = Ok m ∧ mv_allowed m = true)
  ∧ calls = pre ++ [CallTestAccept raw; CallBroadcast raw] ∧ (∀ b, r = Ok b → br_txid b = vt_txid v).
Proof.
  intros Hpre. unfold check_and_send. destruct (bn_testMempoolAccept node (vt_rawTxHex v)) as [m|] eqn:Em; [|intros [= <- <-]; set_solver].
  destruct (mv_allowed m) eqn:Ea; cbn [negb]; [|intros [= <- <-]; set_solver].
  assert (CallBroadcast raw ∈ pre ++ [CallTestAccept (vt_rawTxHex v); CallBroadcast (vt_rawTxHex v)] → raw = vt_rawTxHex v)
    as Hraw by set_solver.
  destruct (bn_broadcastTransaction node (vt_rawTxHex v)) as [txid|e];
    [destruct (String.eqb_spec txid (vt_txid v)) as [->|]; cbn [negb]|];
    intros [= <- <-] ->%Hraw; (split_and!; [done|by exists m|done|]); [by intros ? [= <-]|done|done].
Qed.

Lemma broadcast_calls v network node r calls raw :
  broadcastValidatedCoveTransaction v network node = (r, calls) → CallBroadcast raw ∈ calls →
  raw = vt_rawTxHex v
  ∧ (∃ m, bn_testMempoolAccept node raw = Ok m ∧ mv_allowed m = true)
  ∧ (network = Mainnet → bn_chain node = Ok "main"%string)
  ∧ (∃ pre, calls = pre ++ [CallTestAccept raw; CallBroadcast raw] ∧ CallBroadcast raw ∉ pre)
  ∧ (∀ b, r = Ok b → br_txid b = vt_txid v).
Proof.
  unfold broadcastValidatedCoveTransaction. intros H Hin.
  assert (∃ pre, (network = Mainnet → bn_chain node = Ok "main"%string) ∧ CallBroadcast raw ∉ pre
            ∧ check_and_send v node pre = (r, calls)) as (pre & Hm & Hpre & Hs).
  { destruct network; try (exists []; split_and!; [done|set_solver|done]).
    destruct (bn_chain node) as [chain|]; [|injection H as <- <-; set_solver].
    destruct (String.eqb chain "main") eqn:E; cbn [negb] in H; [|injection H as <- <-; set_solver].
    apply String.eqb_eq in E. subst chain.
    exists [CallChainInfo]. split_and!; [done|set_solver|done]. }
  destruct (send_calls _ _ _ _ _ _ Hpre Hs Hin) as (? & ? & ? & ?). split_and!; try done. by exists pre.
Qed.

(** ** The final checks and the indexer *)
Section Indexed.
Context {C : Crypto} {B : Bitcoin} {L : Locale}.
Context (config : V3IndexerConfig).

(** The final checks run with the indexer's configuration on its state. *)
Record final_watches (params : FinalizeParams) (st : V3IndexerState) : Prop := {
  fw_view : shows (fp_view params) st;
  fw_network : fp_network params = cfg_network config;
  fw_guardian : fp_guardianXOnly params = cfg_guardianXOnly config;
  fw_recovery : fp_recoveryKeyXOnly params = cfg_recoveryKeyXOnly config;
  fw_profile : fp_recoveryProfile params = cfg_recoveryProfile config;
  fw_feeScript : fp_feeScript params = cfg_feeScript config;
  fw_fees : fp_fees params = config_fees config;
}.

Record deploy_watches (params : FinalizeDeployParams) : Prop := {
  dw_network : fd_network params = cfg_network config;
  dw_chain : fd_chainIdentity params = cfg_chainIdentity config;
  dw_guardian : fd_guardianXOnly params = cfg_guardianXOnly config;
  dw_recovery : fd_recoveryKeyXOnly params = cfg_recoveryKeyXOnly config;
  dw_profile : fd_recoveryProfile params = cfg_recoveryProfile config;
}.

Lemma guardian_network_config : guardian_network (cfg_network config) = bitcoinNetwork config.
Proof. unfold bitcoinNetwork. by destruct (cfg_network config). Qed.

Lemma final_vault_script params st s nv :
  final_watches params st → final_vault params s = Ok nv → vault_script config s = Ok (v3_scriptPubKey nv).
Proof.
  intros [_ Hn Hg Hr Hp _ _]. unfold final_vault, vault_script. rewrite Hn, Hg, Hr, Hp, guardian_network_config.
  intros ->. by step_ok.
Qed.

Lemma decodeTx_parse rawHex tx e :
  tx_fromHex rawHex = Some tx → decodeCoveOpReturnTx tx = Ok e → parseCoveTx rawHex = Cove e.
Proof.
  unfold decodeCoveOpReturnTx. destruct (tx_outs tx !! 0%nat) as [out|] eqn:Ho; [|done].
  intros Htx H. by eapply decode_push_parse.
Qed.

(** The vault a final transaction spends is the one the indexer holds. *)
Lemma spends_vault_backing params st tx t cur :
  final_watches params st → spends_vault params tx t cur →
  ∃ prior i, backing st !! toHex t = Some prior ∧ bk_state prior = cur ∧ spends_backing tx prior = Some true
  ∧ tx_ins tx !! 0%nat = Some i ∧ getBackingOutpoint st t = Some (txin_outpoint i).
Proof.
  intros Hw (Hcur & i & pv & Hi & Ho & _). rewrite (sh_state _ _ (fw_view _ _ Hw)) in Hcur.
  rewrite (sh_outpoint _ _ (fw_view _ _ Hw)) in Ho.
  pose proof Ho as (b & Hb & Eo)%fmap_Some. unfold getCurrentBackingState in Hcur. rewrite Hb in Hcur.
  injection Hcur as <-. exists b, i. split_and!; try done. unfold spends_backing. rewrite Hi. cbn. rewrite <-Eo. cbn.
  by rewrite String.eqb_refl, Z.eqb_refl.
Qed.

Lemma tokens_in_shows view st ins :
  shows view st → tokens_in view ins = utxo_view <$> omap (λ i, tokenUtxos st !! in_key i) ins.
Proof.
  intros Hsh. unfold tokens_in. induction ins as [|i ins IH]; [done|]. cbn [omap list_omap].
  rewrite (sh_utxo _ _ Hsh), getTokenUtxo_view.
  destruct (tokenUtxos st !! in_key i); cbn [fmap option_fmap option_map list_fmap]; [f_equal|]; apply IH.
Qed.

(** The carriers of one token among the inputs, as the indexer resolves them. *)
Lemma tokens_in_spent st view ins t :
  wf config st → shows view st → Forall (λ tok, vu_tokenId tok = t) (tokens_in view ins) →
  let spent := omap (λ i, tokenUtxos st !! in_key i) ins in
  Forall (λ u, tu_tokenId u = toHex t) spent
  ∧ sum_utxos spent = zsum (vu_amountAtoms <$> tokens_in view ins)
  ∧ (zsum (vu_amountAtoms <$> tokens_in view ins) ≠ 0 → spent ≠ []).
Proof.
  intros Hwf Hsh Hall. cbn zeta. rewrite (tokens_in_shows _ st) in * by done. split_and!.
  - apply Forall_forall. intros u Hu. pose proof Hu as (j & _ & Hj)%list_elem_of_omap.
    eapply utxo_token; [done..|]. rewrite Forall_fmap, Forall_forall in Hall. exact (Hall u Hu).
  - unfold sum_utxos. by rewrite foldl_add_zsum, <-list_fmap_compose.
  - intros Hne E. by rewrite E in Hne.
Qed.

(** The indexer applies [v] as the operation it was validated for. *)
Definition indexed (st : V3IndexerState) (v : ValidatedCoveTransaction) : Prop :=
  ∀ block, ∃ e r st',
    parseCoveTx (vt_rawTxHex v) = Cove e
    ∧ applyCove config st (vt_txid v) (vt_rawTxHex v) e block = Ok (r, st')
    ∧ ar_valid r = true ∧ ar_op r = Some (vt_operation v) ∧ ar_tokenId r = Some (vt_tokenId v).

Lemma accepted_indexed st v e :
  parseCoveTx (vt_rawTxHex v) = Cove e →
  (∀ block, ∃ undo curve st',
     cove_accepted config st (vt_txid v) (vt_rawTxHex v) e block (accepted (vt_operation v) (vt_tokenId v) undo curve) st') →
  indexed st v.
Proof.
  intros Hp H block. destruct (H block) as (undo & curve & st' & [Hap _]%applyCove_accepted).
  by exists e, (accepted (vt_operation v) (vt_tokenId v) undo curve), st'.
Qed.

(** A state with a vault has a hash. *)
Lemma vault_hash s g r p n v : buildBackingVaultV3 s g r p n = Ok v → ∃ h, stateHashV2 sha256 s = Ok h.
Proof.
  unfold buildBackingVaultV3, backingPolicies. intros H. apply bind_Ok in H as (? & H & _).
  apply bind_Ok in H as (h & Hh & _). by exists h.
Qed.

Lemma final_deploy_indexed params st v :
  deploy_watches params → final_deploy params v → tokens st !! vt_tokenId v = None → indexed st v.
Proof.
  intros [Hn Hc Hg Hr Hp] (tx & pv & ticker & nonce & creator & t & vault & Htx & He & Hp2 & Hcs & Ht & Hv & Hp1 & ->) Hnew.
  apply (accepted_indexed _ _ (DeployV2 pv ticker nonce)); [by eapply decodeTx_parse|]. intros block.
  cbn [vt_rawTxHex vt_txid vt_operation vt_tokenId validated cove_accepted] in *.
  destruct (vault_hash _ _ _ _ _ _ Hv) as [hash Hh].
  do 3 eexists. exists tx, creator, t, (v3_scriptPubKey vault), hash. cbn zeta.
  split_and!; try done; [by rewrite <-Hc|]. unfold vault_script.
  rewrite <-Hg, <-Hr, <-Hp, <-guardian_network_config, <-Hn, Hv. by step_ok.
Qed.

Context (execFile : string → list string → Z → exec_outcome) (bin : option string) (msg : string → string).

Lemma final_mint_indexed params st v :
  wf config st → final_watches params st → final_mint execFile bin params v → indexed st v.
Proof.
  intros Hwf Hw (tx & t & amount & cur & next & gross & fee & cfee & creator & carrier & nv & w & s & Htx & He & Hsp
    & Hap & Hfee & Hnv & Hp1 & Hp2 & Hcs & Hp3 & _ & Hcr & Hcf & Hp4 & _ & _ & _ & _ & ->).
  apply (accepted_indexed _ _ (MintV2 t amount 2)); [by eapply decodeTx_parse|]. intros block.
  cbn [vt_rawTxHex vt_txid vt_operation vt_tokenId validated cove_accepted].
  destruct (spends_vault_backing _ _ _ _ _ Hw Hsp) as (prior & i & Hb & <- & Hspb & _ & _).
  destruct (shows_creator _ _ _ _ _ Hwf (fw_view _ _ Hw) Hcr) as (m & Hm & Ecr).
  destruct (vault_hash _ _ _ _ _ _ Hnv) as [hash Hh]. rewrite (fw_fees _ _ Hw) in *. rewrite (fw_feeScript _ _ Hw) in *.
  do 3 eexists. exists tx, m, prior, next, gross, fee, cfee, (v3_scriptPubKey nv), carrier, creator, hash. cbn zeta.
  split_and!; try done. by eapply final_vault_script.
Qed.

Lemma change_final_accepted tx change c txid t block :
  0 ≤ c → change_final tx change c → ∃ created, change_accepted tx change c txid t block created.
Proof.
  intros Hc [(? & -> & _)|(? & -> & _ & sc & Hp & Hs)].
  - exists []. left. split_and!; [lia|done..].
  - eexists. right. exists sc. by split_and!.
Qed.

Lemma final_redeem_indexed params st v :
  wf config st → final_watches params st → (∀ t, toHex t = vt_tokenId v → vault_not_carrier st t) →
  final_redeem execFile bin params v → indexed st v.
Proof.
  intros Hwf Hw Hvn (tx & t & amount & change & cur & next & gross & fee & payout & nv & w & s & Htx & He & Hsp & Hall
    & Hne & Hle & Hsum & Hap & Hfee & Hnv & Hp1 & Hp2 & Hp3 & _ & Hch & _ & _ & _ & ->).
  apply (accepted_indexed _ _ (RedeemV2 t amount change)); [by eapply decodeTx_parse|]. intros block.
  cbn [vt_rawTxHex vt_txid vt_operation vt_tokenId validated cove_accepted] in *.
  destruct (spends_vault_backing _ _ _ _ _ Hw Hsp) as (prior & i & Hb & <- & Hspb & Hi & Ho).
  destruct (vault_hash _ _ _ _ _ _ Hnv) as [hash Hh].
  destruct (tokens_in_spent _ _ _ _ Hwf (fw_view _ _ Hw) Hall) as (Hf & Es & Hn).
  assert (omap (λ i, tokenUtxos st !! in_key i) (tx_ins tx)
          = omap (λ i, tokenUtxos st !! in_key i) (tail (tx_ins tx))) as E.
  { destruct (tx_ins tx) as [|i' l]; [done|]. cbn in Hi. injection Hi as ->. cbn [omap list_omap tail].
    pose proof (Hvn t eq_refl _ Ho) as E. cbn in E. fold (in_key i) in E. by rewrite E. }
  rewrite <-E in Hf, Es, Hn. rewrite <-Es in *.
  destruct (change_final_accepted tx change (sum_utxos (omap (λ i, tokenUtxos st !! in_key i) (tx_ins tx)) - amount) (getId tx) (toHex t) block) as [created Hca];
    [lia|done|].
  rewrite (fw_fees _ _ Hw) in *. rewrite (fw_feeScript _ _ Hw) in *.
  do 3 eexists. exists tx, prior, (omap (λ i, tokenUtxos st !! in_key i) (tx_ins tx)), created, next, gross, fee, payout,
    (v3_scriptPubKey nv), hash. cbn zeta.
  split_and!; try done; [by apply (wf_tokens _ _ Hwf)|by apply Hn|by eapply final_vault_script].
Qed.

Lemma allocation_fits_outputs tx l txid t block acc :
  Forall (allocation_fits tx) l → ∃ created, transfer_outputs tx l txid t block acc = inl created.
Proof.
  intros H. revert acc. induction H as [|a l (Hz & sc & Hp & Hs) _ IH]; intros acc; cbn [transfer_outputs]; [by eexists|].
  destruct (Z.ltb_spec (vout a) 0); [lia|]. rewrite Hp, (carrier_out_true _ Hs). cbn [negb]. apply IH.
Qed.

Lemma final_transfer_indexed params st v :
  wf config st → shows (ft_view params) st → final_transfer params v → indexed st v.
Proof.
  intros Hwf Hsh (tx & t & l & Htx & He & Hall & Hne & Hsum & Hf & _ & ->).
  apply (accepted_indexed _ _ (TransferV2 t l)); [by eapply decodeTx_parse|]. intros block.
  cbn [vt_rawTxHex vt_txid vt_operation vt_tokenId validated cove_accepted] in *.
  destruct (tokens_in_spent _ _ _ _ Hwf Hsh Hall) as (Hft & Es & Hn). specialize (Hn Hne).
  destruct (allocation_fits_outputs tx l (getId tx) (toHex t) block [] Hf) as [created Hcr].
  do 3 eexists. exists tx, (omap (λ i, tokenUtxos st !! in_key i) (tx_ins tx)), created. cbn zeta.
  split_and!; try done; [|by rewrite Es].
  apply (wf_tokens _ _ Hwf). destruct (omap _ _) as [|u us] eqn:E; [done|].
  apply Forall_cons in Hft as [<- _].
  assert (u ∈ omap (λ i, tokenUtxos st !! in_key i) (tx_ins tx)) as (j & _ & Hj)%list_elem_of_omap by (rewrite E; set_solver).
  by eapply (uo_known _ _ (wf_utxos _ _ Hwf)).
Qed.

(** A deployment of a token the indexer already has: refused, and the state
    stays as it is. *)
Definition repeated_deploy (st : V3IndexerState) (v : ValidatedCoveTransaction) : Prop :=
  vt_operation v = DEPLOY ∧ is_Some (tokens st !! vt_tokenId v)
  ∧ ∀ block, ∃ e r,
      parseCoveTx (vt_rawTxHex v) = Cove e
      ∧ applyCove config st (vt_txid v) (vt_rawTxHex v) e block = Ok (r, st)
      ∧ ar_valid r = false ∧ ar_reason r = Some "DUPLICATE_TOKEN_ID"%string.

Lemma final_deploy_repeated params st v :
  deploy_watches params → final_deploy params v → is_Some (tokens st !! vt_tokenId v) → repeated_deploy st v.
Proof.
  intros [Hn Hc Hg Hr Hp] (tx & pv & ticker & nonce & creator & t & vault & Htx & He & Hp2 & Hcs & Ht & Hv & Hp1 & ->) Hold.
  cbn [vt_tokenId validated] in Hold. split_and!; [done..|]. intros block.
  exists (DeployV2 pv ticker nonce), (rejected DEPLOY "DUPLICATE_TOKEN_ID" (Some (toHex t))).
  cbn [vt_rawTxHex vt_txid validated]. split_and!; [by eapply decodeTx_parse| |done..].
  cbn [applyCove]. unfold applyDeploy. rewrite Htx. cbn [of_option]. step_ok. unfold pays in Hp2. rewrite Hp2.
  cbn [txo_value txo_script]. rewrite Z.eqb_refl, Hcs. cbn [negb orb].
  rewrite <-Hc, Ht. step_ok. cbv zeta. by rewrite bool_decide_eq_true_2.
Qed.

(** The transactions the four validators let through when they run with the
    indexer's configuration on its state. *)
Inductive admitted (st : V3IndexerState) (v : ValidatedCoveTransaction) : Prop :=
  | admitted_deploy params :
      deploy_watches params → validateFinalizedDeployTransaction msg params = Ok (FinalOk v) → admitted st v
  | admitted_mint params :
      final_watches params st → validateFinalizedMintTransaction execFile bin msg params = Ok (FinalOk v) →
      admitted st v
  | admitted_redeem params :
      final_watches params st → (∀ t, toHex t = vt_tokenId v → vault_not_carrier st t) →
      validateFinalizedRedeemTransaction execFile bin msg params = Ok (FinalOk v) → admitted st v
  | admitted_transfer params :
      shows (ft_view params) st → validateFinalizedTransferTransaction msg params = Ok (FinalOk v) →
      admitted st v.

Lemma admitted_indexed st v : wf config st → admitted st v → indexed st v ∨ repeated_deploy st v.
Proof.
  intros Hwf [p Hw H|p Hw H|p Hw Hv H|p Hw H].
  - apply validateFinalizedDeploy_Ok in H. destruct (tokens st !! vt_tokenId v) eqn:Et.
    + right. by eapply final_deploy_repeated.
    + left. by eapply final_deploy_indexed.
  - left. apply validateFinalizedMint_Ok in H. by eapply final_mint_indexed.
  - left. apply validateFinalizedRedeem_Ok in H. by eapply final_redeem_indexed.
  - left. apply validateFinalizedTransfer_Ok in H. by eapply final_transfer_indexed.
Qed.

(** C9: what a final validator lets through, run with the indexer's own
    configuration and a view of its state, and the node is asked to broadcast,
    the indexer applies on that state as the operation, the token and the txid
    it was validated for.  One exception is part of the statement: the deploy
    validator does not look whether the token exists, and a deployment of a
    token the indexer has is refused as a duplicate, the state untouched.  For
    a redemption it is assumed that the vault's outpoint is not a carrier's
    (they are outputs of one transaction with different indices, or of
    transactions with different ids).  The node is asked only for the validated
    bytes, only after its mempool check accepted them, and on mainnet only when
    it is on the main chain; a broadcast that succeeds has the validated txid. *)
Theorem broadcast_is_indexed st v network node r calls raw :
  reachable config st → admitted st v →
  broadcastValidatedCoveTransaction v network node = (r, calls) → CallBroadcast raw ∈ calls →
  raw = vt_rawTxHex v ∧ (indexed st v ∨ repeated_deploy st v)
  ∧ (∃ pre, calls = pre ++ [CallTestAccept raw; CallBroadcast raw] ∧ CallBroadcast raw ∉ pre)
  ∧ (∃ m, bn_testMempoolAccept node raw = Ok m ∧ mv_allowed m = true)
  ∧ (network = Mainnet → bn_chain node = Ok "main"%string)
  ∧ (∀ b, r = Ok b → br_txid b = vt_txid v).
Proof.
  intros Hwf%reachable_wf Hv H Hin. destruct (broadcast_calls _ _ _ _ _ _ H Hin) as (? & ? & ? & ? & ?).
  split_and!; try done. by apply admitted_indexed.
Qed.
End Indexed.

(** ** What the Guardian signs can be sent *)
Section Sent.
Context {C : Crypto} {B : Bitcoin}.
Context (execFile : string → list string → Z → exec_outcome) (bin : option string) (msg : string → string).

(** The prevout of an input, as the PSBT gives it. *)
Definition input_prevout (inp : PsbtInput) : ResolvedPrevout :=
  {| rsp_script := default [] (txo_script <$> psi_witnessUtxo inp);
     rsp_valueSats := default 0 (txo_value <$> psi_witnessUtxo inp) |}.

(** The final checks get the bytes of the signed PSBT, its prevouts, and the
    parameters the Guardian had. *)
Record sends (params : ValidateParams) (fp : FinalizeParams) : Prop := {
  sd_view : fp_view fp = vp_view params;
  sd_network : fp_network fp = vp_network params;
  sd_guardian : fp_guardianXOnly fp = vp_guardianXOnly params;
  sd_recovery : fp_recoveryKeyXOnly fp = vp_recoveryKeyXOnly params;
  sd_profile : fp_recoveryProfile fp = vp_recoveryProfile params;
  sd_feeScript : fp_feeScript fp = vp_feeScript params;
  sd_max : fp_maxMinerFeeSats fp = vp_maxMinerFeeSats params;
  sd_fees : fp_fees fp = vp_fees params;
  sd_prevouts : ∃ m, fp_prevouts fp = Some m
    ∧ Forall (λ inp, m !! in_key (psi_txin inp) = Some (input_prevout inp)) (psbt_inputs (vp_psbt params));
}.

(** The prevout of input 0 has the script of the vault that is spent. *)
Definition vault_prevout (params : ValidateParams) (state : CoveStateV2) : Prop :=
  ∀ inp v, psbt_inputs (vp_psbt params) !! 0%nat = Some inp → transition_vault params state = Ok v →
  rsp_script (input_prevout inp) = v3_scriptPubKey v.

Lemma sends_vault params fp s v :
  sends params fp → transition_vault params s = Ok v → final_vault fp s = Ok v.
Proof. intros [_ Hn Hg Hr Hp _ _ _ _]. unfold final_vault, transition_vault. by rewrite Hn, Hg, Hr, Hp. Qed.

Lemma decodeCoveOpReturnTx_psbt psbt rawHex tx e :
  finalizes psbt rawHex tx → decodeCoveOpReturn psbt = Ok e → decodeCoveOpReturnTx tx = Ok e.
Proof.
  intros [_ _ Ho _]. unfold decodeCoveOpReturn, decodeCoveOpReturnTx. rewrite Ho.
  destruct (psbt_outputs psbt !! 0%nat); [|done]. cbn [of_option]. by step_ok.
Qed.

Lemma sends_spends_vault params fp rawHex tx t o inp u v state :
  sends params fp → finalizes (vp_psbt params) rawHex tx →
  view_getCurrentBackingState (vp_view params) t = Some state →
  view_getBackingOutpoint (vp_view params) t = Some o →
  psbt_inputs (vp_psbt params) !! 0%nat = Some inp → txin_outpoint (psi_txin inp) = o →
  psi_witnessUtxo inp = Some u → txo_value u = RESERVE_ANCHOR_SATS + backingSats state →
  transition_vault params state = Ok v → vault_prevout params state →
  spends_vault fp tx t state.
Proof.
  intros Hs Hfz Hc Ho Hi <- Hu Hval Hv Hvp. pose proof Hs as [Ev _ _ _ _ _ _ _ (m & Em & Hm)]. unfold spends_vault. rewrite Ev.
  split; [done|]. exists (psi_txin inp), v. split_and!; [by rewrite (fz_ins _ _ _ Hfz), list_lookup_fmap, Hi|done|by eapply sends_vault|].
  intros m' p Em' Hp. rewrite Em in Em'. injection Em' as <-. rewrite Forall_lookup in Hm.
  rewrite (Hm _ _ Hi) in Hp. injection Hp as <-. pose proof (Hvp _ _ Hi Hv) as Esc. unfold input_prevout in *.
  rewrite Hu in *. cbn in *. by rewrite Esc, Hval.
Qed.

Lemma miner_fee_sums psbt :
  miner_fee psbt = zsum (rsp_valueSats <$> (input_prevout <$> psbt_inputs psbt)) - zsum (txo_value <$> psbt_outputs psbt).
Proof.
  unfold miner_fee, readPsbtInputs, readPsbtOutputs. rewrite !foldl_add_zsum, !fmap_imap, <-list_fmap_compose, !Z.add_0_l.
  f_equal; f_equal; [apply (imap_const (rsp_valueSats ∘ input_prevout))|apply (imap_const txo_value)].
Qed.

Lemma sends_miner_fee params fp rawHex tx :
  sends params fp → finalizes (vp_psbt params) rawHex tx →
  0 ≤ miner_fee (vp_psbt params) ≤ default 20000 (vp_maxMinerFeeSats params) →
  miner_fee_ok tx (fp_prevouts fp) (maxMinerFee fp).
Proof.
  intros [_ _ _ _ _ _ Emax _ (m & Em & Hm)] Hfz Hfee m' E. rewrite Em in E. injection E as <-.
  exists (zsum (rsp_valueSats <$> (input_prevout <$> psbt_inputs (vp_psbt params)))). split.
  - eexists. split; [|done]. rewrite (fz_ins _ _ _ Hfz). apply Forall2_fmap. by apply Forall_Forall2_diag.
  - unfold maxMinerFee, MAX_MINER_FEE. rewrite Emax, (fz_outs _ _ _ Hfz). by rewrite <-miner_fee_sums.
Qed.

(** An advisory message is an OP_RETURN in the last output. *)
Lemma discovery_allowance outs binary ticker :
  let d := checkDiscoveryOutput outs binary ticker in
  doc_allowance d = 0 ∨ (doc_allowance d = 1 ∧ doc_present d = true
    ∧ ∃ o, last outs = Some o ∧ at_is (pov_script o) 0 0x6a = true).
Proof.
  cbn zeta. unfold checkDiscoveryOutput, opReturnPayload. destruct (last outs) as [o|]; [|by left].
  destruct (length outs <? 2)%nat; [by left|]. destruct (_ || _) eqn:E; [by left|].
  apply orb_false_iff in E as [_ Eo%negb_false_iff].
  cbn zeta. destruct (_ || negb (blen _ =? _)); [by left|]. destruct (decodeDiscovery _) as [j|]; [|by left].
  repeat case_match; right; (split_and!; [done|done|by exists o]).
Qed.

Lemma last_readPsbtOutputs psbt o :
  last (readPsbtOutputs psbt) = Some o → ∃ x, last (psbt_outputs psbt) = Some x ∧ txo_script x = pov_script o.
Proof.
  rewrite !last_lookup, readPsbtOutputs_length. intros [Hp _]%readPsbtOutputs_lookup. eexists. by split; [exact Hp|].
Qed.

Lemma outputs_end_length params rawHex tx max :
  finalizes (vp_psbt params) rawHex tx → outputs_end params (Z.of_nat max) → (5 ≤ max)%nat →
  (length (tx_outs tx) ≤ max + discovery_outputs tx)%nat.
Proof.
  intros Hfz (e & _ & _ & Hl) Hmax. rewrite (fz_outs _ _ _ Hfz). unfold discovery_outputs. rewrite (fz_outs _ _ _ Hfz).
  destruct (discovery_allowance (readPsbtOutputs (vp_psbt params)) e (vp_discoveryTicker params)) as [E|(E & _ & o & Ho & Hs)].
  - rewrite E in Hl. lia.
  - rewrite E in Hl. apply last_readPsbtOutputs in Ho as (x & Hx & Es). rewrite Hx. cbn [out_is]. rewrite Es, Hs.
    destruct (Nat.ltb_spec 5 (length (psbt_outputs (vp_psbt params)))); cbn [andb]; lia.
Qed.

(** The tokens of a redemption's inputs, as the two validators see them. *)
Lemma tokens_in_of view psbt :
  tokens_in view (psi_txin <$> tail (psbt_inputs psbt)) = snd <$> token_inputs_of view psbt.
Proof.
  unfold token_inputs_of, readPsbtInputs, tokens_in.
  assert (∀ (l : list PsbtInput) (g : nat → Z),
    omap (λ i, view_getTokenUtxo view (txin_outpoint i)) (psi_txin <$> l)
    = snd <$> omap (λ i, (λ tok, (piv_index i, tok)) <$> view_getTokenUtxo view (piv_outpoint i))
        (imap (λ i inp, {| piv_index := g i; piv_outpoint := txin_outpoint (psi_txin inp);
               piv_script := default [] (txo_script <$> psi_witnessUtxo inp);
               piv_valueSats := default 0 (txo_value <$> psi_witnessUtxo inp) |}) l)) as H.
  { induction l as [|i l IH]; intros g; [done|]. rewrite imap_cons. cbn [omap list_omap fmap list_fmap piv_outpoint].
    destruct (view_getTokenUtxo view (txin_outpoint (psi_txin i))); cbn [fmap option_fmap option_map list_fmap];
      [cbn [fmap list_fmap snd]; f_equal|]; exact (IH (g ∘ S)). }
  destruct (psbt_inputs psbt) as [|i l]; [done|]. rewrite imap_cons. cbn [tail]. exact (H l (Z.of_nat ∘ S)).
Qed.

Lemma signed_mint_sent params a s fp tx :
  validateMintTransitionV3 execFile bin params = Ok (VOk (AMint a) s) →
  finalizes (vp_psbt params) (fp_rawTxHex fp) tx → sends params fp → vault_prevout params (ma_currentState a) →
  validateFinalizedMintTransaction execFile bin msg fp
  = Ok (FinalOk (validated (fp_rawTxHex fp) (getId tx) MINT (toHex (ma_tokenId a)))).
Proof.
  intros (_ & Ha & pv & nv & i0 & u & c & w & Hpv & Hnv & Hi0 & _ & Hu & Huv & Hr & Hs & Hc & Hcs & Hf & Hfs & Hcr & Ho
    & Hmf & _ & Hw & Hx & _ & Hps)%validateMint_valid Hfz Hsd Hvp.
  apply analyzeMint_Ok in Ha as (Hd & Hcur & Hop & (i & Hi & Ei) & Hap & Hpf & Hcreator & Hcf & Emf & _).
  apply validateFinalizedMint_Ok. rewrite Hi0 in Hi. injection Hi as <-.
  exists tx, (ma_tokenId a), (ma_amountAtoms a), (ma_currentState a), (ma_nextState a), (ma_grossSats a),
    (ma_protocolFeeSats a), (ma_creatorFeeSats a), (ma_creatorScript a), c, nv, w, s. cbn zeta.
  rewrite (sd_fees _ _ Hsd), (sd_feeScript _ _ Hsd), (sd_view _ _ Hsd). rewrite Emf in Hmf. rewrite Hr in Hd.
  split_and!; try done; try (by eapply psbt_pays_tx).
  - apply (fz_parses _ _ _ Hfz).
  - by eapply decodeCoveOpReturnTx_psbt.
  - by eapply sends_spends_vault.
  - by eapply sends_vault.
  - by eapply (outputs_end_length params _ _ 6); [| |lia].
  - by eapply sends_miner_fee.
Qed.

(** The outputs a redemption may have at the end. *)
Definition redeem_outputs (a : RedeemAnalysis) : nat :=
  if 0 <? ra_tokenInputTotalAtoms a - ra_redeemAmountAtoms a then 6 else 5.

Lemma signed_redeem_sent params a s fp tx :
  validateRedeemTransitionV3 execFile bin params = Ok (VOk (ARedeem a) s) →
  finalizes (vp_psbt params) (fp_rawTxHex fp) tx → sends params fp → vault_prevout params (ra_currentState a) →
  let v := validated (fp_rawTxHex fp) (getId tx) REDEEM (toHex (ra_tokenId a)) in
  (length (tx_outs tx) ≤ redeem_outputs a)%nat ↔
  validateFinalizedRedeemTransaction execFile bin msg fp = Ok (FinalOk v).
Proof.
  intros (_ & Ha & pv & nv & i0 & u & p & w & Hpv & Hnv & Hi0 & _ & Hu & Huv & Hown & Hsum & Hs & Hp & Hf & Hfs & Hch & Ho
    & _ & Hmf & _ & Hw & Hx & _ & Hps)%validateRedeem_valid Hfz Hsd Hvp.
  apply analyzeRedeem_Ok in Ha as (Hd & Hcur & Hop & (i & Hi & Ei) & _ & Hall & Hap & Hpf & Enp & Emf & _ & _ & Etot & _).
  rewrite Hi0 in Hi. injection Hi as <-. cbn zeta. rewrite validateFinalizedRedeem_Ok.
  assert (tokens_in (fp_view fp) (tail (tx_ins tx)) = snd <$> token_inputs_of (vp_view params) (vp_psbt params)) as Et.
  { rewrite (sd_view _ _ Hsd), <-tokens_in_of, (fz_ins _ _ _ Hfz). by destruct (psbt_inputs (vp_psbt params)). }
  assert (0 < ra_redeemAmountAtoms a) as Hpos.
  { apply applyRedeemV2_Ok in Hap as (k & q & _ & _ & ? & _ & -> & _). assert (0 < LOT_ATOMS) by done. nia. }
  rewrite list_fmap_compose, <-Et in Etot. unfold redeem_outputs. split.
  - intros Hlen.
    exists tx, (ra_tokenId a), (ra_redeemAmountAtoms a), (ra_changeAllocations a), (ra_currentState a), (ra_nextState a),
      (ra_grossSats a), (ra_protocolFeeSats a), p, nv, w, s. cbn zeta. rewrite <-Etot.
    rewrite (sd_fees _ _ Hsd), (sd_feeScript _ _ Hsd). rewrite Emf in Hmf. rewrite <-Enp.
    split_and!; try done; try (by eapply psbt_pays_tx).
    + apply (fz_parses _ _ _ Hfz).
    + by eapply decodeCoveOpReturnTx_psbt.
    + by eapply sends_spends_vault.
    + rewrite Et. by rewrite Forall_fmap.
    + lia.
    + by eapply sends_vault.
    + destruct Hch as [[Hc ->]|(Hc & -> & sc & Hp4 & Hs4)].
      * left. rewrite (proj2 (Z.ltb_ge 0 _)) in Hlen by lia. by split_and!.
      * right. rewrite (proj2 (Z.ltb_lt 0 _)) in Hlen by lia. split_and!; try done. exists sc.
        split; [by eapply psbt_pays_tx|done].
    + by eapply sends_miner_fee.
  - intros (tx' & t & amount & change & cur & next & gross & fee & payout & nv' & w' & s' & Htx & He & _ & _ & _ & _ & _ & _
      & _ & _ & _ & _ & _ & _ & Hchf & _).
    rewrite (fz_parses _ _ _ Hfz) in Htx. injection Htx as <-.
    rewrite (decodeCoveOpReturnTx_psbt _ _ _ _ Hfz Hd) in He. injection He as <- <- <-. rewrite <-Etot in Hchf.
    destruct Hchf as [(Hc & _ & Hl)|(Hc & _ & Hl & _)];
      [rewrite (proj2 (Z.ltb_ge 0 _))|rewrite (proj2 (Z.ltb_lt 0 _))]; done || lia.
Qed.

(** C32: the Guardian's answer and the last check before the node agree.  A
    transaction made from a mint the Guardian accepts always passes the final
    checks; one made from a redemption passes them exactly when it has no
    output after its change, so a redemption with an advisory message and
    change is signed and can never be broadcast. *)
Theorem signed_is_sendable :
  (∀ params a s fp tx,
     validateMintTransitionV3 execFile bin params = Ok (VOk (AMint a) s) →
     finalizes (vp_psbt params) (fp_rawTxHex fp) tx → sends params fp → vault_prevout params (ma_currentState a) →
     validateFinalizedMintTransaction execFile bin msg fp
     = Ok (FinalOk (validated (fp_rawTxHex fp) (getId tx) MINT (toHex (ma_tokenId a)))))
  ∧ (∀ params a s fp tx,
     validateRedeemTransitionV3 execFile bin params = Ok (VOk (ARedeem a) s) →
     finalizes (vp_psbt params) (fp_rawTxHex fp) tx → sends params fp → vault_prevout params (ra_currentState a) →
     (length (tx_outs tx) ≤ redeem_outputs a)%nat ↔
     validateFinalizedRedeemTransaction execFile bin msg fp
     = Ok (FinalOk (validated (fp_rawTxHex fp) (getId tx) REDEEM (toHex (ra_tokenId a))))).
Proof. split; intros; [by eapply signed_mint_sent|by eapply signed_redeem_sent]. Qed.
End Sent.
