(* ===== verification/View.v ===== *)
(** * The in-memory chain view: packages/cove-covenant/src/resolver.ts

    [CoveChainView], and its agreement with the indexer: driven by the
    operations the indexer accepts, it shows the Guardian the indexer's state. *)
From S2P Require Import Prelude Bytes Wire Covenant Vault Indexer IndexerInv IndexerExamples Spend Guardian GuardianInv.

(** ** resolver.ts *)
Record ViewTokenMeta := {
  vm_tokenId : list byte;
  vm_ticker : string;
  vm_policyVersion : Z;
  vm_deployTxid : string;
  vm_tokenNonce : list byte;
  vm_creatorScript : option (list byte);
}.

Record BackingView := { bv_state : CoveStateV2; bv_outpoint : OutPoint }.

Definition opKey (o : OutPoint) : string := op_txid o +:+ ":" +:+ pretty (op_vout o).

(** The object; a method returns it with its result, since a method that
    throws keeps what it wrote before. *)
Record CoveChainView := {
  cv_tokens : gmap string ViewTokenMeta;
  cv_tokenUtxos : gmap string TokenUtxo;
  cv_backing : gmap string BackingView;
}.

Definition new_view : CoveChainView := {| cv_tokens := ∅; cv_tokenUtxos := ∅; cv_backing := ∅ |}.

Definition with_view_utxos (v : CoveChainView) (m : gmap string TokenUtxo) : CoveChainView :=
  {| cv_tokens := cv_tokens v; cv_tokenUtxos := m; cv_backing := cv_backing v |}.
Definition with_view_backing (v : CoveChainView) (m : gmap string BackingView) : CoveChainView :=
  {| cv_tokens := cv_tokens v; cv_tokenUtxos := cv_tokenUtxos v; cv_backing := m |}.

Definition deploy (v : CoveChainView) (meta : ViewTokenMeta) (backingOutpoint : OutPoint) (s0 : CoveStateV2)
    : CoveChainView * result unit :=
  let key := toHex (vm_tokenId meta) in
  if bool_decide (is_Some (cv_tokens v !! key)) then (v, Throw (js_error "duplicate tokenId deploy"))
  else ({| cv_tokens := <[key := meta]> (cv_tokens v); cv_tokenUtxos := cv_tokenUtxos v;
           cv_backing := <[key := {| bv_state := s0; bv_outpoint := backingOutpoint |}]> (cv_backing v) |}, Ok tt).

(** The token is known and its vault is at [prev]. *)
Definition check_view_backing (v : CoveChainView) (key : string) (prev : OutPoint) : result unit :=
  throw_if (negb (bool_decide (is_Some (cv_tokens v !! key)))) (js_error "token not found");;
  b ← of_option (Exn ETypeError None "undefined") (cv_backing v !! key);
  throw_if (negb (String.eqb (opKey (bv_outpoint b)) (opKey prev))) (js_error "stale backing outpoint").

Record ViewMint := {
  vmi_tokenId : list byte;
  vmi_nextState : CoveStateV2;
  vmi_prevBackingOutpoint : OutPoint;
  vmi_nextBackingOutpoint : OutPoint;
  vmi_recipientOutpoint : OutPoint;
  vmi_recipientScript : list byte;
  vmi_amountAtoms : Z;
}.

Definition mint (v : CoveChainView) (params : ViewMint) : CoveChainView * result unit :=
  let key := toHex (vmi_tokenId params) in
  match check_view_backing v key (vmi_prevBackingOutpoint params) with
  | Throw e => (v, Throw e)
  | Ok _ =>
      ({| cv_tokens := cv_tokens v;
          cv_tokenUtxos := <[opKey (vmi_recipientOutpoint params) :=
            {| vu_outpoint := vmi_recipientOutpoint params; vu_tokenId := vmi_tokenId params;
               vu_amountAtoms := vmi_amountAtoms params; vu_scriptPubKey := vmi_recipientScript params |}]> (cv_tokenUtxos v);
          cv_backing := <[key := {| bv_state := vmi_nextState params;
                                    bv_outpoint := vmi_nextBackingOutpoint params |}]> (cv_backing v) |}, Ok tt)
  end.

(** The loop over the spent inputs. *)
Fixpoint spend_outpoints (m : gmap string TokenUtxo) (tokenId : list byte) (spent : list OutPoint)
    : gmap string TokenUtxo * result unit :=
  match spent with
  | [] => (m, Ok tt)
  | o :: rest =>
      match m !! opKey o with
      | None => (m, Throw (js_error ("token input " +:+ opKey o +:+ " not in canonical set")))
      | Some u =>
          if negb (bytes_eqb (vu_tokenId u) tokenId) then (m, Throw (js_error "mixed token input"))
          else spend_outpoints (delete (opKey o) m) tokenId rest
      end
  end.

Record ViewOutput := { vo_outpoint : OutPoint; vo_script : list byte; vo_amountAtoms : Z }.

(** The loop over the created outputs. *)
Definition create_outputs (m : gmap string TokenUtxo) (tokenId : list byte) (created : list ViewOutput)
    : gmap string TokenUtxo :=
  foldl (λ m c, <[opKey (vo_outpoint c) :=
    {| vu_outpoint := vo_outpoint c; vu_tokenId := tokenId; vu_amountAtoms := vo_amountAtoms c;
       vu_scriptPubKey := vo_script c |}]> m) m created.

Definition transfer (v : CoveChainView) (tokenId : list byte) (spentOutpoints : list OutPoint)
    (created : list ViewOutput) : CoveChainView * result unit :=
  if negb (bool_decide (is_Some (cv_tokens v !! toHex tokenId))) then (v, Throw (js_error "token not found"))
  else
    let '(m, r) := spend_outpoints (cv_tokenUtxos v) tokenId spentOutpoints in
    match r with
    | Throw e => (with_view_utxos v m, Throw e)
    | Ok _ => (with_view_utxos v (create_outputs m tokenId created), Ok tt)
    end.

Record ViewRedeem := {
  vr_tokenId : list byte;
  vr_nextState : CoveStateV2;
  vr_prevBackingOutpoint : OutPoint;
  vr_nextBackingOutpoint : OutPoint;
  vr_spentTokenOutpoints : list OutPoint;
  vr_change : list ViewOutput;
}.

(** The successor is recorded before the token inputs are looked up. *)
Definition redeem (v : CoveChainView) (params : ViewRedeem) : CoveChainView * result unit :=
  let key := toHex (vr_tokenId params) in
  match check_view_backing v key (vr_prevBackingOutpoint params) with
  | Throw e => (v, Throw e)
  | Ok _ =>
      let v := with_view_backing v
        (<[key := {| bv_state := vr_nextState params; bv_outpoint := vr_nextBackingOutpoint params |}]> (cv_backing v)) in
      let '(m, r) := spend_outpoints (cv_tokenUtxos v) (vr_tokenId params) (vr_spentTokenOutpoints params) in
      match r with
      | Throw e => (with_view_utxos v m, Throw e)
      | Ok _ => (with_view_utxos v (create_outputs m (vr_tokenId params) (vr_change params)), Ok tt)
      end
  end.

Definition cv_getCurrentBackingState (v : CoveChainView) (tokenId : list byte) : option CoveStateV2 :=
  bv_state <$> cv_backing v !! toHex tokenId.

Definition cv_getBackingOutpoint (v : CoveChainView) (tokenId : list byte) : option OutPoint :=
  bv_outpoint <$> cv_backing v !! toHex tokenId.

Definition cv_getBackingStateByOutpoint (v : CoveChainView) (o : OutPoint) : option CoveStateV2 :=
  bv_state <$> head (filter (λ b, opKey (bv_outpoint b) = opKey o) (map_to_list (cv_backing v)).*2).

Definition cv_getTokenCreatorScript (v : CoveChainView) (tokenId : list byte) : option (list byte) :=
  m ← cv_tokens v !! toHex tokenId; vm_creatorScript m.

Definition cv_getTokenUtxo (v : CoveChainView) (o : OutPoint) : option TokenUtxo := cv_tokenUtxos v !! opKey o.

Definition cv_resolveTokenInputs (v : CoveChainView) (ins : list OutPoint) : list TokenUtxo :=
  omap (λ i, cv_tokenUtxos v !! opKey i) ins.

Definition balanceOf (v : CoveChainView) (tokenId : list byte) : Z :=
  foldl (λ total u, if bytes_eqb (vu_tokenId u) tokenId then total + vu_amountAtoms u else total) 0
    (map_to_list (cv_tokenUtxos v)).*2.

(** The class implements [CoveCanonicalView]. *)
Definition chain_view (v : CoveChainView) : CoveCanonicalView := {|
  view_getBackingStateByOutpoint := cv_getBackingStateByOutpoint v;
  view_getCurrentBackingState := cv_getCurrentBackingState v;
  view_getBackingOutpoint := cv_getBackingOutpoint v;
  view_getTokenUtxo := cv_getTokenUtxo v;
  view_getTokenCreatorScript := Some (cv_getTokenCreatorScript v);
|}.

(** ** The view and the indexer *)

(** The view holds what the indexer holds. *)
Record mirrors (v : CoveChainView) (st : V3IndexerState) : Prop := {
  mi_tokens k : (λ m, (vm_creatorScript m, toHex (vm_tokenId m))) <$> cv_tokens v !! k
    = (λ m, (match tm_creatorScript m with EmptyString => None | c => Some (fromHex c) end, k)) <$> tokens st !! k;
  mi_backing k : cv_backing v !! k
    = (λ b, {| bv_state := bk_state b; bv_outpoint := bk_outpoint b |}) <$> backing st !! k;
  mi_utxos k : cv_tokenUtxos v !! k = utxo_view <$> tokenUtxos st !! k;
}.

(** A script that is not empty, as it is recorded. *)
Lemma recorded_script c :
  c ≠ [] → match toHex c with EmptyString => None | h => Some (fromHex h) end = Some c.
Proof. intros Hc. rewrite <-(fromHex_toHex c) at 2. by destruct c as [|x c]; [|cbn [toHex]]. Qed.

Lemma mirrors_shows v st : mirrors v st → shows (chain_view v) st.
Proof.
  intros [Ht Hb Hu]. split; cbn.
  - intros t. unfold cv_getCurrentBackingState, getCurrentBackingState. rewrite Hb. by destruct (backing st !! _).
  - intros t. unfold cv_getBackingOutpoint, getBackingOutpoint. rewrite Hb. by destruct (backing st !! _).
  - intros o. unfold cv_getTokenUtxo, getTokenUtxo. rewrite Hu. change (opKey o) with (outpointKey (op_txid o) (op_vout o)).
    by destruct (tokenUtxos st !! _).
  - eexists. split; [done|]. intros t. unfold cv_getTokenCreatorScript, getTokenCreatorScript.
    pose proof (Ht (toHex t)) as E. destruct (cv_tokens v !! toHex t) as [vm|], (tokens st !! toHex t) as [m|];
      cbn in *; [|done..]. injection E as -> _. by destruct (tm_creatorScript m).
Qed.

(** *** The tables of carriers *)
Definition mirrors_utxos (m : gmap string TokenUtxo) (m' : gmap string V3TokenUtxo) : Prop :=
  ∀ k, m !! k = utxo_view <$> m' !! k.

Definition utxo_outpoint (u : V3TokenUtxo) : OutPoint := {| op_txid := tu_txid u; op_vout := tu_vout u |}.
Definition utxo_output (u : V3TokenUtxo) : ViewOutput :=
  {| vo_outpoint := utxo_outpoint u; vo_script := fromHex (tu_scriptPubKey u); vo_amountAtoms := tu_amountAtoms u |}.

Lemma opKey_utxo u : opKey (utxo_outpoint u) = utxo_key u.
Proof. done. Qed.

Lemma mirrors_insert m m' u :
  mirrors_utxos m m' → mirrors_utxos (<[utxo_key u := utxo_view u]> m) (<[utxo_key u := u]> m').
Proof.
  intros H k. destruct (decide (k = utxo_key u)) as [->|].
  - by rewrite !lookup_insert_eq.
  - by rewrite !lookup_insert_ne.
Qed.

Lemma spend_outpoints_mirrors m m' t us :
  mirrors_utxos m m' → Forall (λ u, m' !! utxo_key u = Some u ∧ fromHex (tu_tokenId u) = t) us →
  NoDup (utxo_key <$> us) →
  ∃ m1, spend_outpoints m t (utxo_outpoint <$> us) = (m1, Ok tt) ∧ mirrors_utxos m1 (delete_utxos us m').
Proof.
  intros Hm Hus Hnd. revert m m' Hm Hus. induction us as [|u us IH]; intros m m' Hm Hus; [by exists m|].
  apply Forall_cons in Hus as [[Hu Ht] Hus]. apply NoDup_cons in Hnd as [Hni Hnd].
  cbn [fmap list_fmap spend_outpoints]. rewrite opKey_utxo, Hm, Hu. cbn [fmap option_fmap option_map].
  rewrite (proj2 (bytes_eqb_true _ _)) by exact Ht. cbn [negb].
  apply (IH Hnd _ (delete (utxo_key u) m')).
  - intros k. destruct (decide (k = utxo_key u)) as [->|]; [by rewrite !lookup_delete_eq|by rewrite !lookup_delete_ne].
  - apply Forall_forall. intros w Hw. rewrite Forall_forall in Hus. destruct (Hus w Hw). split; [|done].
    rewrite lookup_delete_ne; [done|]. intros E. apply Hni. rewrite E. by apply list_elem_of_fmap_2.
Qed.

Lemma create_outputs_mirrors m m' t us :
  mirrors_utxos m m' → Forall (λ u, fromHex (tu_tokenId u) = t) us →
  mirrors_utxos (create_outputs m t (utxo_output <$> us)) (set_utxos us m').
Proof.
  intros Hm Hus. revert m m' Hm. induction Hus as [|u us Hu _ IH]; intros m m' Hm; [done|].
  apply IH. rewrite <-Hu. by apply mirrors_insert.
Qed.

(** The carriers among the inputs, spent and replaced. *)
Lemma move_mirrors m m' t ins spent created :
  mirrors_utxos m m' → keyed m' → NoDup (in_key <$> ins) →
  spent = omap (λ i, m' !! in_key i) ins → Forall (λ u, tu_tokenId u = toHex t) spent →
  Forall (λ u, tu_tokenId u = toHex t) created →
  ∃ m1, spend_outpoints m t (utxo_outpoint <$> spent) = (m1, Ok tt)
  ∧ mirrors_utxos (create_outputs m1 t (utxo_output <$> created)) (set_utxos created (delete_utxos spent m')).
Proof.
  intros Hm Hk Hnd -> Hsp Hcr.
  destruct (spend_outpoints_mirrors m m' t (omap (λ i, m' !! in_key i) ins)) as (m1 & Hs & Hm1).
  - done.
  - apply Forall_forall. intros u Hu. rewrite Forall_forall in Hsp. split; [|by rewrite (Hsp u Hu), fromHex_toHex].
    apply list_elem_of_omap in Hu as (i & _ & Hi). by rewrite (Hk _ _ Hi).
  - by apply keyed_inputs_NoDup.
  - exists m1. split; [done|]. apply create_outputs_mirrors; [done|].
    eapply Forall_impl; [exact Hcr|]. intros u ->. apply fromHex_toHex.
Qed.

(** *** One operation *)

(** The call the view gets for an operation of transaction [txid]. *)
Inductive view_call (txid : string) : ParsedEnvelopeV2 → CoveChainView → CoveChainView → Prop :=
  | call_deploy pv ticker nonce meta s0 v v' :
      deploy v meta {| op_txid := txid; op_vout := 1 |} s0 = (v', Ok tt) →
      vm_ticker meta = ticker → vm_policyVersion meta = pv → vm_tokenNonce meta = nonce → vm_deployTxid meta = txid →
      view_call txid (DeployV2 pv ticker nonce) v v'
  | call_mint t a rv next prev script v v' :
      mint v {| vmi_tokenId := t; vmi_nextState := next; vmi_prevBackingOutpoint := prev;
                vmi_nextBackingOutpoint := {| op_txid := txid; op_vout := 1 |};
                vmi_recipientOutpoint := {| op_txid := txid; op_vout := rv |};
                vmi_recipientScript := script; vmi_amountAtoms := a |} = (v', Ok tt) →
      view_call txid (MintV2 t a rv) v v'
  | call_transfer t l spent created v v' :
      transfer v t spent created = (v', Ok tt) → length created = length l →
      view_call txid (TransferV2 t l) v v'
  | call_redeem t a change spent created next prev v v' :
      redeem v {| vr_tokenId := t; vr_nextState := next; vr_prevBackingOutpoint := prev;
                  vr_nextBackingOutpoint := {| op_txid := txid; op_vout := 1 |};
                  vr_spentTokenOutpoints := spent; vr_change := created |} = (v', Ok tt) →
      length created = length change →
      view_call txid (RedeemV2 t a change) v v'.

Lemma mirrors_token v st t : mirrors v st → is_Some (tokens st !! t) → is_Some (cv_tokens v !! t).
Proof. intros [Ht _ _] [m Hm]. pose proof (Ht t) as E. rewrite Hm in E. apply fmap_Some in E as (x & -> & _). by eexists. Qed.

Lemma mirrors_check v st t prior :
  mirrors v st → is_Some (tokens st !! t) → backing st !! t = Some prior →
  check_view_backing v t (bk_outpoint prior) = Ok tt.
Proof.
  intros Hm Ht Hb. unfold check_view_backing. rewrite bool_decide_eq_true_2 by by eapply mirrors_token.
  cbn [negb]. guard_step done. rewrite (mi_backing _ _ Hm), Hb. cbn. by rewrite String.eqb_refl.
Qed.

Section Simulation.
Context {C : Crypto} {B : Bitcoin} {L : Locale}.
Context (config : V3IndexerConfig).

Lemma mirrors_deploy v st txid rawHex pv ticker nonce block r st' :
  mirrors v st → deploy_accepted config st txid rawHex pv ticker nonce block r st' →
  ∃ v', view_call txid (DeployV2 pv ticker nonce) v v' ∧ mirrors v' st'.
Proof.
  intros Hm (tx & creator & t & script & hash & _ & _ & Hcs & _ & Hnew & _ & _ & _ & _ & ->).
  set (meta := {| vm_tokenId := t; vm_ticker := ticker; vm_policyVersion := pv; vm_deployTxid := txid;
                  vm_tokenNonce := nonce; vm_creatorScript := Some creator |}).
  eexists. split.
  - apply (call_deploy _ _ _ _ meta (state_at (toHex t) 0)); [|done..]. unfold deploy. cbn [vm_tokenId meta].
    rewrite bool_decide_eq_false_2; [reflexivity|]. intros [m Hmt]. pose proof (mi_tokens _ _ Hm (toHex t)) as E.
    by rewrite Hmt, Hnew in E.
  - destruct Hm as [Ht Hb Hu]. split; cbn; [| |exact Hu]; intros k; destruct (decide (k = toHex t)) as [->|].
    + rewrite !lookup_insert_eq. cbn [fmap option_fmap option_map vm_creatorScript vm_tokenId tm_creatorScript meta].
      by rewrite recorded_script by by destruct creator.
    + by rewrite !lookup_insert_ne.
    + by rewrite !lookup_insert_eq.
    + by rewrite !lookup_insert_ne.
Qed.

Lemma mirrors_mint v st txid rawHex t a rv block r st' :
  mirrors v st → mint_accepted config st txid rawHex t a rv block r st' →
  ∃ v', view_call txid (MintV2 t a rv) v v' ∧ mirrors v' st'.
Proof.
  intros Hm (tx & meta & prior & next & gross & fee & cfee & script & carrier & creator & hash & Htk & Hb & _ & _ & _ & _
    & _ & _ & _ & -> & _ & _ & _ & _ & _ & _ & _ & ->).
  eexists. split.
  - apply (call_mint _ _ _ _ next (bk_outpoint prior) carrier). unfold mint. cbn [vmi_tokenId vmi_prevBackingOutpoint].
    by rewrite (mirrors_check _ _ _ _ Hm (mk_is_Some _ _ Htk) Hb).
  - destruct Hm as [Ht Hbk Hu]. split; cbn; [exact Ht| |]; intros k.
    + destruct (decide (k = toHex t)) as [->|]; [by rewrite !lookup_insert_eq|by rewrite !lookup_insert_ne].
    + pose proof (mirrors_insert _ _ (carrier_utxo txid 2 (toHex t) a carrier block) Hu k) as E.
      unfold utxo_view in E. cbn in E. rewrite !fromHex_toHex in E. exact E.
Qed.

Lemma mirrors_transfer v st txid rawHex t l block r st' :
  mirrors v st → wf config st → distinct_inputs rawHex → transfer_accepted st txid rawHex t l block r st' →
  ∃ v', view_call txid (TransferV2 t l) v v' ∧ mirrors v' st'.
Proof.
  intros Hm Hwf Hd (tx & spent & created & Htk & Htx & Hsp & _ & Hf & _ & Hcr & _ & ->).
  apply transfer_outputs_Ok in Hcr as (new & Enew & Hlen & Hcr). cbn in Enew. subst new.
  destruct (move_mirrors (cv_tokenUtxos v) (tokenUtxos st) t (tx_ins tx) spent created) as (m1 & Hs & Hm1); try done.
  - exact (mi_utxos _ _ Hm).
  - exact (uo_keyed _ _ (wf_utxos _ _ Hwf)).
  - by apply Hd.
  - clear -Hcr. induction Hcr as [|a u l us (? & ? & ? & ? & _) _ IH]; by constructor.
  - eexists. split.
    + eapply (call_transfer _ _ _ (utxo_outpoint <$> spent) (utxo_output <$> created)); [|by rewrite length_fmap].
      unfold transfer. rewrite bool_decide_eq_true_2 by by eapply mirrors_token. cbn [negb]. by rewrite Hs.
    + destruct Hm as [Ht Hbk Hu]. by split.
Qed.

Lemma change_accepted_created tx change c txid t block created :
  change_accepted tx change c txid t block created →
  length created = length change ∧ Forall (λ u, tu_tokenId u = t) created.
Proof. intros [(_ & -> & ->)|(s & _ & -> & _ & _ & ->)]; [done|]. split; [done|by apply Forall_singleton]. Qed.

Lemma mirrors_redeem v st txid rawHex t a change block r st' :
  mirrors v st → wf config st → distinct_inputs rawHex → redeem_accepted config st txid rawHex t a change block r st' →
  ∃ v', view_call txid (RedeemV2 t a change) v v' ∧ mirrors v' st'.
Proof.
  intros Hm Hwf Hd (tx & prior & spent & created & next & gross & fee & payout & script & hash & Htk & Hb & Htx & _ & Hsp & _
    & Hf & _ & Hch & _ & _ & _ & _ & _ & _ & _ & _ & ->).
  apply change_accepted_created in Hch as [Hlen Hcr].
  destruct (move_mirrors (cv_tokenUtxos v) (tokenUtxos st) t (tx_ins tx) spent created) as (m1 & Hs & Hm1); try done.
  - exact (mi_utxos _ _ Hm).
  - exact (uo_keyed _ _ (wf_utxos _ _ Hwf)).
  - by apply Hd.
  - eexists. split.
    + eapply (call_redeem _ _ _ _ (utxo_outpoint <$> spent) (utxo_output <$> created) next (bk_outpoint prior));
        [|by rewrite length_fmap].
      unfold redeem. cbn [vr_tokenId vr_prevBackingOutpoint vr_spentTokenOutpoints].
      rewrite (mirrors_check _ _ _ _ Hm Htk Hb). cbn [cv_tokenUtxos with_view_backing]. by rewrite Hs.
    + destruct Hm as [Ht Hbk Hu]. split; cbn; [exact Ht| |exact Hm1]. intros k.
      destruct (decide (k = toHex t)) as [->|]; [by rewrite !lookup_insert_eq|by rewrite !lookup_insert_ne].
Qed.

(** An operation the indexer accepts. *)
Inductive accepts : string * ParsedEnvelopeV2 → V3IndexerState → V3IndexerState → Prop :=
  | accepts_tx rawHex tx e block r st st' :
      tx_fromHex rawHex = Some tx → distinct_inputs rawHex → parseCoveTx rawHex = Cove e →
      cove_accepted config st (getId tx) rawHex e block r st' →
      accepts (getId tx, e) st st'.

Lemma accepts_mirrored op v st st' :
  mirrors v st → wf config st → accepts op st st' →
  wf config st' ∧ ∃ v', view_call op.1 op.2 v v' ∧ mirrors v' st'.
Proof.
  intros Hm Hwf Hop. revert Hm Hwf. destruct Hop as [rawHex tx e block r st st' Htx Hd Hp Hacc]. intros Hm Hwf. split.
  { by refine (wf_cove config _ _ _ _ _ _ _ Hwf Hd (parseCoveTx_Cove _ _ Hp) Hacc). }
  destruct e; cbn [cove_accepted fst snd] in *.
  - by eapply mirrors_deploy.
  - by eapply mirrors_mint.
  - by eapply mirrors_transfer.
  - by eapply mirrors_redeem.
Qed.

(** The states after a history of operations. *)
Inductive history {S} (step : string * ParsedEnvelopeV2 → S → S → Prop) : list (string * ParsedEnvelopeV2) → S → S → Prop :=
  | history_nil s : history step [] s s
  | history_cons op ops s s1 s2 : step op s s1 → history step ops s1 s2 → history step (op :: ops) s s2.

Lemma history_mirrored ops v st st' :
  mirrors v st → wf config st → history accepts ops st st' →
  ∃ v', history (λ op, view_call op.1 op.2) ops v v' ∧ mirrors v' st'.
Proof.
  intros Hm Hwf H. revert v Hm. induction H as [st|op ops st st1 st2 Hop _ IH]; intros v Hm; [by exists v; split; [constructor|]|].
  destruct (accepts_mirrored _ _ _ _ Hm Hwf Hop) as (Hwf1 & v1 & Hv1 & Hm1).
  destruct (IH Hwf1 v1 Hm1) as (v2 & Hv2 & Hm2). exists v2. split; [by econstructor|done].
Qed.

(** the chain view simulates the indexer: whatever history of operations
    the indexer accepts, the corresponding calls of the view, made in the same
    order, all succeed, and the view then holds the indexer's state: it shows
    the Guardian the same vaults, carriers and creators. *)
Theorem chain_view_simulates ops st :
  history accepts ops (new_state config) st →
  ∃ v, history (λ op, view_call op.1 op.2) ops new_view v ∧ mirrors v st ∧ shows (chain_view v) st.
Proof.
  intros H. destruct (history_mirrored ops new_view (new_state config) st) as (v & Hv & Hm); [|apply wf_new_state|done|].
  - split; intros k; by rewrite ?lookup_empty.
  - exists v. split_and!; [done..|]. by apply mirrors_shows.
Qed.
End Simulation.

(** ** The example chain's four operations *)
Fixpoint apply_raws `{Crypto} `{Bitcoin} (config : V3IndexerConfig) (block : V3BlockInput) (raws : list string)
    (st : V3IndexerState) : option (list (string * ParsedEnvelopeV2) * V3IndexerState) :=
  match raws with
  | [] => Some ([], st)
  | raw :: raws =>
      match tx_fromHex raw, parseCoveTx raw with
      | Some tx, Cove e =>
          match applyCove config st (getId tx) raw e block with
          | Ok (r, st1) =>
              if ar_valid r && distinctb raw
              then '(ops, st2) ← apply_raws config block raws st1; Some ((getId tx, e) :: ops, st2)
              else None
          | Throw _ => None
          end
      | _, _ => None
      end
  end.

Lemma apply_raws_history `{Crypto} `{Bitcoin} config block raws st ops st' :
  apply_raws config block raws st = Some (ops, st') → history (accepts config) ops st st'.
Proof.
  revert st ops. induction raws as [|raw raws IH]; intros st ops; cbn [apply_raws]; [intros [= <- <-]; constructor|].
  destruct (tx_fromHex raw) as [tx|] eqn:Htx; [|done]. destruct (parseCoveTx raw) as [| |e] eqn:Hp; [done..|].
  destruct (applyCove config st (getId tx) raw e block) as [[r st1]|] eqn:Hap; [|done].
  destruct (ar_valid r && distinctb raw) eqn:E; [|done]. apply andb_true_iff in E as [Hr Hd].
  intros Hrest. apply bind_Some in Hrest as ([ops' st2] & Hrest & [= <- <-]).
  econstructor; [|by apply IH]. eapply accepts_tx; [done| |done|by apply applyCove_accepted].
  assert (Forall distinct_inputs [raw]) as Hds by (apply distinctb_ok; cbn; by rewrite Hd). by apply Forall_cons in Hds as [? _].
Qed.

#[local] Existing Instance toy_crypto.
#[local] Existing Instance toy_bitcoin.
#[local] Existing Instance toy_locale.

Definition toy_history : list (string * ParsedEnvelopeV2) * V3IndexerState :=
  default ([], new_state toy_config)
    (apply_raws toy_config toy_b1 ["deploy"; "mint"; "transfer"; "redeem"]%string (new_state toy_config)).

Lemma chain_view_simulates_witness :
  length toy_history.1 = 4%nat
  ∧ ∃ v, history (λ op, view_call op.1 op.2) toy_history.1 new_view v ∧ mirrors v toy_history.2
    ∧ shows (chain_view v) toy_history.2.
Proof.
  split; [vm_compute; reflexivity|]. apply (chain_view_simulates toy_config toy_history.1 toy_history.2).
  apply (apply_raws_history toy_config toy_b1 ["deploy"; "mint"; "transfer"; "redeem"]%string).
  assert (is_Some (apply_raws toy_config toy_b1 ["deploy"; "mint"; "transfer"; "redeem"]%string (new_state toy_config))) as [[ops st] E]
    by (eexists; vm_compute; reflexivity).
  unfold toy_history. by rewrite E.
Defined.
