(* ===== verification/Journal.v ===== *)
(** * The signing journal

    packages/cove-guardian/src/v3/journal.ts and packages/cove-app/src/journal.ts:
    the two stores behind the Guardian's double-sign protection, the interface
    they implement, and what signers that share one may sign.

    A store grants leases: while a lease on a vault outpoint runs, only the
    transaction it names is signed.  Time is the millisecond clock. *)
From S2P Require Import Prelude Bytes Indexer.

(** ** journal.ts *)
Inductive SigningReservation := RESERVED | IDEMPOTENT | CONFLICT.

Definition SIGNING_JOURNAL_TTL_MS : Z := 30 * 60 * 1000.

Definition network_name (n : V3Network) : string :=
  match n with Regtest => "regtest" | Signet => "signet" | Testnet => "testnet" | Mainnet => "mainnet" end.

(** The outpoint a reservation is for. *)
Record JournalKey := { jk_network : V3Network; jk_backingTxid : string; jk_backingVout : Z }.

#[export] Instance JournalKey_eq_dec : EqDecision JournalKey.
Proof. solve_decision. Defined.

#[export] Instance V3Network_countable : Countable V3Network.
Proof.
  refine (inj_countable' (λ n, match n with Regtest => 0 | Signet => 1 | Testnet => 2 | Mainnet => 3 end)
    (λ z, if z =? 0 then Regtest else if z =? 1 then Signet else if z =? 2 then Testnet else Mainnet) _).
  by intros [].
Defined.

#[export] Instance JournalKey_countable : Countable JournalKey.
Proof.
  refine (inj_countable' (λ k, (jk_network k, jk_backingTxid k, jk_backingVout k))
    (λ '(n, t, v), {| jk_network := n; jk_backingTxid := t; jk_backingVout := v |}) _).
  by intros [].
Defined.

Record Reservation := { rs_digest : string; rs_expiresAt : Z }.

(** *** InMemorySigningJournal *)
Notation InMemoryJournal := (gmap string Reservation).

Definition journal_key (k : JournalKey) : string :=
  network_name (jk_network k) +:+ ":" +:+ jk_backingTxid k +:+ ":" +:+ pretty (jk_backingVout k).

(** [now] and [later] are the two readings of the clock. *)
Definition mem_reserve (m : InMemoryJournal) (now later : Z) (k : JournalKey) (digest : string)
    : SigningReservation * InMemoryJournal :=
  let key := journal_key k in
  let granted := (RESERVED, <[key := {| rs_digest := digest; rs_expiresAt := later + SIGNING_JOURNAL_TTL_MS |}]> m) in
  match m !! key with
  | Some existing =>
      if now <? rs_expiresAt existing
      then (if String.eqb (rs_digest existing) digest then IDEMPOTENT else CONFLICT, m)
      else granted
  | None => granted
  end.

Definition mem_committedDigest (m : InMemoryJournal) (now : Z) (k : JournalKey)
    : option string * InMemoryJournal :=
  let key := journal_key k in
  match m !! key with
  | Some existing => if rs_expiresAt existing <=? now then (None, delete key m) else (Some (rs_digest existing), m)
  | None => (None, m)
  end.

Definition mem_release (m : InMemoryJournal) (k : JournalKey) (digest : string) : InMemoryJournal :=
  let key := journal_key k in
  match m !! key with
  | Some existing => if String.eqb (rs_digest existing) digest then delete key m else m
  | None => m
  end.

(** *** PostgresSigningJournal: the table, whose unique index is the outpoint *)
Notation PostgresJournal := (gmap JournalKey Reservation).

(** [INSERT ... ON CONFLICT DO UPDATE ... WHERE expires_at <= now RETURNING],
    and the read of the row that holds the outpoint when nothing is returned.
    [now] is one reading of the clock. *)
Definition pg_upsert (m : PostgresJournal) (now : Z) (k : JournalKey) (digest : string)
    : bool * PostgresJournal :=
  let row := {| rs_digest := digest; rs_expiresAt := now + SIGNING_JOURNAL_TTL_MS |} in
  match m !! k with
  | None => (true, <[k := row]> m)
  | Some existing => if rs_expiresAt existing <=? now then (true, <[k := row]> m) else (false, m)
  end.

Definition pg_reserve (m : PostgresJournal) (now : Z) (k : JournalKey) (digest : string)
    : SigningReservation * PostgresJournal :=
  let '(claimed, m) := pg_upsert m now k digest in
  if claimed then (RESERVED, m)
  else match m !! k with
       | None => (CONFLICT, m)
       | Some row => (if String.eqb (rs_digest row) digest then IDEMPOTENT else CONFLICT, m)
       end.

Definition pg_committedDigest (m : PostgresJournal) (now : Z) (k : JournalKey) : option string :=
  row ← m !! k;
  if rs_expiresAt row <=? now then None else Some (rs_digest row).

Definition pg_release (m : PostgresJournal) (k : JournalKey) (digest : string) : PostgresJournal :=
  match m !! k with
  | Some row => if String.eqb (rs_digest row) digest then delete k m else m
  | None => m
  end.

(** ** The interface: [SigningJournalStore]

    [lease] is the reservation on an outpoint, expired or not.  A reservation
    takes two readings of the clock; the lease it grants runs from a moment
    between them. *)
Class SigningJournalStore (J : Type) := {
  reserve : J → Z → Z → JournalKey → string → SigningReservation * J;
  release : J → JournalKey → string → J;
  committedDigest : J → Z → JournalKey → option string * J;
  lease : J → JournalKey → option Reservation;
}.

(** A lease that still runs. *)
Definition live_lease `{SigningJournalStore J} (s : J) (now : Z) (k : JournalKey) : option Reservation :=
  match lease s k with
  | Some l => if now <? rs_expiresAt l then Some l else None
  | None => None
  end.

(** What the store promises. *)
Class SigningJournalLaws (J : Type) `{SigningJournalStore J} := {
  reserve_live s now later k d l :
    live_lease s now k = Some l →
    reserve s now later k d = (if String.eqb (rs_digest l) d then IDEMPOTENT else CONFLICT, s);
  reserve_free s now later k d :
    now ≤ later → live_lease s now k = None →
    ∃ s' at_, reserve s now later k d = (RESERVED, s')
    ∧ now ≤ at_ ≤ later
    ∧ lease s' k = Some {| rs_digest := d; rs_expiresAt := at_ + SIGNING_JOURNAL_TTL_MS |}
    ∧ ∀ k', k' ≠ k → lease s' k' = lease s k';
  release_own s k d l :
    lease s k = Some l → rs_digest l = d → lease (release s k d) k = None;
  release_other s k d l :
    lease s k = Some l → rs_digest l ≠ d → lease (release s k d) k = Some l;
  release_none s k d : lease s k = None → lease (release s k d) k = None;
  release_frame s k d k' : k' ≠ k → lease (release s k d) k' = lease s k';
  committed_live s now k :
    (committedDigest s now k).1 = rs_digest <$> live_lease s now k;
  committed_frame s now k now' k' :
    now ≤ now' → live_lease (committedDigest s now k).2 now' k' = live_lease s now' k';
  committed_less s now k k' l : lease (committedDigest s now k).2 k' = Some l → lease s k' = Some l;
}.

#[export] Instance mem_store : SigningJournalStore InMemoryJournal := {|
  reserve := mem_reserve; release := mem_release; committedDigest := mem_committedDigest;
  lease m k := m !! journal_key k |}.

#[export] Instance pg_store : SigningJournalStore PostgresJournal := {|
  reserve s now _ := pg_reserve s now; release := pg_release;
  committedDigest s now k := (pg_committedDigest s now k, s);
  lease m k := m !! k |}.

(** *** Both stores keep it *)
Lemma network_name_free n : free ":" (network_name n) = true.
Proof. by destruct n. Qed.

#[export] Instance network_name_inj : Inj (=) (=) network_name.
Proof. by intros [] []. Qed.

#[export] Instance journal_key_inj : Inj (=) (=) journal_key.
Proof.
  intros [n t v] [n' t' v']. unfold journal_key. cbn [jk_network jk_backingTxid jk_backingVout].
  intros [En E]%free_split; [|apply network_name_free..].
  apply free_split_last in E as [-> Ev]; [|by apply pretty_Z_free; [done|intros d; unfold pretty_N_char; repeat case_match]..].
  apply (inj network_name) in En as ->. by apply (inj pretty) in Ev as ->.
Qed.

Lemma live_lease_Some `{SigningJournalStore J} (s : J) now k l :
  live_lease s now k = Some l ↔ lease s k = Some l ∧ now < rs_expiresAt l.
Proof.
  unfold live_lease. destruct (lease s k) as [l'|]; [|naive_solver].
  destruct (Z.ltb_spec now (rs_expiresAt l')); [naive_solver|]. split; [done|]. intros [[= <-] ?]. lia.
Qed.

Lemma live_lease_None `{SigningJournalStore J} (s : J) now k :
  live_lease s now k = None ↔ ∀ l, lease s k = Some l → rs_expiresAt l ≤ now.
Proof.
  unfold live_lease. destruct (lease s k) as [l'|]; [|naive_solver].
  destruct (Z.ltb_spec now (rs_expiresAt l')) as [Hl|Hl]; [|naive_solver].
  split; [done|]. intros Hf. specialize (Hf l' eq_refl). lia.
Qed.

#[export] Instance mem_laws : SigningJournalLaws InMemoryJournal.
Proof.
  split.
  - intros s now later k d l [Hl ?]%live_lease_Some. cbn in *. unfold mem_reserve. rewrite Hl.
    rewrite (proj2 (Z.ltb_lt now _)); done.
  - intros s now later k d ? Hl. exists (<[journal_key k := {| rs_digest := d; rs_expiresAt := later + SIGNING_JOURNAL_TTL_MS |}]> s), later.
    split_and!; try lia; cbn.
    + rewrite live_lease_None in Hl. cbn in Hl. unfold mem_reserve. destruct (s !! journal_key k) as [l|]; [|done].
      rewrite (proj2 (Z.ltb_ge now _)); [done|by apply Hl].
    + by rewrite lookup_insert_eq.
    + intros k' ?. rewrite lookup_insert_ne; [done|]. by intros ->%(inj journal_key).
  - intros s k d l Hl Hd. cbn in *. unfold mem_release. rewrite Hl, Hd, String.eqb_refl. by rewrite lookup_delete_eq.
  - intros s k d l Hl Hd. cbn in *. unfold mem_release. rewrite Hl. by rewrite (proj2 (String.eqb_neq _ _) Hd).
  - intros s k d Hl. cbn in *. unfold mem_release. by rewrite Hl.
  - intros s k d k' Hk. cbn. unfold mem_release. repeat case_match; [|done..].
    rewrite lookup_delete_ne; [done|]. by intros ->%(inj journal_key).
  - intros s now k. cbn. unfold mem_committedDigest, live_lease. cbn. destruct (s !! journal_key k) as [l|]; [|done].
    rewrite Z.leb_antisym. by destruct (now <? rs_expiresAt l).
  - intros s now k now' k' ?. cbn. unfold mem_committedDigest, live_lease. cbn.
    destruct (s !! journal_key k) as [l|] eqn:E; [|done].
    destruct (Z.leb_spec (rs_expiresAt l) now); [|done]. cbn.
    destruct (decide (k' = k)) as [->|Hk].
    + rewrite lookup_delete_eq, E. by rewrite (proj2 (Z.ltb_ge _ _)) by lia.
    + rewrite lookup_delete_ne; [done|]. by intros ->%(inj journal_key).
  - intros s now k k' l. cbn. unfold mem_committedDigest. repeat case_match; [|done..].
    cbn. by intros [_ ?]%lookup_delete_Some.
Qed.

#[export] Instance pg_laws : SigningJournalLaws PostgresJournal.
Proof.
  split.
  - intros s now later k d l [Hl ?]%live_lease_Some. cbn in *. unfold pg_reserve, pg_upsert. rewrite Hl.
    rewrite (proj2 (Z.leb_gt _ now)) by done. by rewrite Hl.
  - intros s now later k d ? Hl. exists (<[k := {| rs_digest := d; rs_expiresAt := now + SIGNING_JOURNAL_TTL_MS |}]> s), now.
    split_and!; try lia; cbn.
    + rewrite live_lease_None in Hl. cbn in Hl. unfold pg_reserve, pg_upsert. destruct (s !! k) as [l|]; [|done].
      rewrite (proj2 (Z.leb_le _ now)); [done|by apply Hl].
    + by rewrite lookup_insert_eq.
    + intros k' ?. by rewrite lookup_insert_ne.
  - intros s k d l Hl Hd. cbn in *. unfold pg_release. rewrite Hl, Hd, String.eqb_refl. by rewrite lookup_delete_eq.
  - intros s k d l Hl Hd. cbn in *. unfold pg_release. rewrite Hl. by rewrite (proj2 (String.eqb_neq _ _) Hd).
  - intros s k d Hl. cbn in *. unfold pg_release. by rewrite Hl.
  - intros s k d k' Hk. cbn. unfold pg_release. repeat case_match; [|done..]. by rewrite lookup_delete_ne.
  - intros s now k. cbn. unfold pg_committedDigest, live_lease. cbn. destruct (s !! k) as [l|]; [|done].
    cbn. rewrite Z.leb_antisym. by destruct (now <? rs_expiresAt l).
  - done.
  - done.
Qed.

(** ** Signers that share a store

    The steps of [LocalGuardianTransitionSigner.sign] that touch the journal,
    in any interleaving: reserve; sign, or fail and release what this call
    reserved.  The clock never goes back. *)

(** A reservation a call holds: what it got, when, and when its lease ends. *)
Record Grant := {
  gr_key : JournalKey; gr_digest : string; gr_fresh : bool; gr_at : Z; gr_until : Z
}.

Record Signers (J : Type) := {
  sn_store : J; sn_now : Z; sn_held : list Grant; sn_signed : list Grant
}.
Arguments sn_store {_} _.
Arguments sn_now {_} _.
Arguments sn_held {_} _.
Arguments sn_signed {_} _.

Definition no_signers {J} (s : J) (now : Z) : Signers J :=
  {| sn_store := s; sn_now := now; sn_held := []; sn_signed := [] |}.

Section Signers.
Context {J : Type} {SJ : SigningJournalStore J} {SL : SigningJournalLaws J}.
#[local] Set Default Proof Using "Type*".

Definition is_reserved (r : SigningReservation) : bool := match r with RESERVED => true | _ => false end.

(** Nobody else holds, or has signed under, a running lease on the same digest. *)
Definition alone (now : Z) (g : Grant) (others : list Grant) : Prop :=
  Forall (λ h, gr_key h = gr_key g → gr_digest h = gr_digest g → gr_until h ≤ now) others.

(** With [careful], a call that made a reservation fails only while it is
    alone with it. *)
Inductive signer_step (careful : bool) : Signers J → Signers J → Prop :=
  | step_reserve s k d later r j l :
      sn_now s ≤ later → reserve (sn_store s) (sn_now s) later k d = (r, j) → r ≠ CONFLICT →
      lease j k = Some l →
      signer_step careful s {| sn_store := j; sn_now := later;
        sn_held := {| gr_key := k; gr_digest := d; gr_fresh := is_reserved r; gr_at := sn_now s;
                      gr_until := rs_expiresAt l |} :: sn_held s;
        sn_signed := sn_signed s |}
  | step_refused s k d later j :
      sn_now s ≤ later → reserve (sn_store s) (sn_now s) later k d = (CONFLICT, j) →
      signer_step careful s {| sn_store := j; sn_now := later; sn_held := sn_held s; sn_signed := sn_signed s |}
  | step_sign s g before after later :
      sn_now s ≤ later → sn_held s = before ++ g :: after →
      signer_step careful s {| sn_store := sn_store s; sn_now := later; sn_held := before ++ after;
                       sn_signed := g :: sn_signed s |}
  | step_fail s g before after later :
      sn_now s ≤ later → sn_held s = before ++ g :: after →
      (careful = true → gr_fresh g = true → alone later g (before ++ after ++ sn_signed s)) →
      signer_step careful s {| sn_store := if gr_fresh g then release (sn_store s) (gr_key g) (gr_digest g) else sn_store s;
                       sn_now := later; sn_held := before ++ after; sn_signed := sn_signed s |}
  | step_read s k later :
      sn_now s ≤ later →
      signer_step careful s {| sn_store := (committedDigest (sn_store s) (sn_now s) k).2; sn_now := later;
                       sn_held := sn_held s; sn_signed := sn_signed s |}
  | step_tick s later :
      sn_now s ≤ later →
      signer_step careful s {| sn_store := sn_store s; sn_now := later; sn_held := sn_held s;
                               sn_signed := sn_signed s |}.

(** *** What holds of the calls that got a reservation *)

(** A grant whose lease still runs is the one in the store. *)
Definition granted_live (s : Signers J) (g : Grant) : Prop :=
  gr_at g ≤ sn_now s
  ∧ (gr_at g < gr_until g)
  ∧ (gr_fresh g = true → gr_at g + SIGNING_JOURNAL_TTL_MS ≤ gr_until g)
  ∧ (sn_now s < gr_until g →
     lease (sn_store s) (gr_key g) = Some {| rs_digest := gr_digest g; rs_expiresAt := gr_until g |}).

(** Grants of different transactions for one outpoint have disjoint leases. *)
Definition apart (g h : Grant) : Prop :=
  gr_key g = gr_key h → gr_digest g ≠ gr_digest h →
  gr_until g ≤ gr_at h ∨ gr_until h ≤ gr_at g.

Definition all_grants (s : Signers J) : list Grant := sn_held s ++ sn_signed s.

Record exclusive (s : Signers J) : Prop := {
  ex_live : Forall (granted_live s) (all_grants s);
  ex_apart : ∀ g h, g ∈ all_grants s → h ∈ all_grants s → apart g h;
}.

Lemma apart_sym g h : apart g h → apart h g.
Proof. unfold apart. intros Ha ? ?. destruct Ha as [?|?]; [done|by intros E|by right|by left]. Qed.

(** A step that adds no grant, keeps the running leases of the grants that are
    left. *)
Lemma exclusive_shrink s s' :
  sn_now s ≤ sn_now s' → exclusive s → all_grants s' ⊆ all_grants s →
  (∀ g, g ∈ all_grants s' → sn_now s' < gr_until g →
     lease (sn_store s) (gr_key g) = Some {| rs_digest := gr_digest g; rs_expiresAt := gr_until g |} →
     lease (sn_store s') (gr_key g) = lease (sn_store s) (gr_key g)) →
  exclusive s'.
Proof.
  intros Hnow [Hl Ha] Hsub Hkeep. split.
  - apply Forall_forall. intros g Hg. rewrite Forall_forall in Hl.
    destruct (Hl g (Hsub g Hg)) as (H1 & H2 & H3 & H4).
    split_and!; [lia|done|done|]. intros ?. rewrite Hkeep; auto with lia.
  - intros g h Hg Hh. apply Ha; by apply Hsub.
Qed.

Lemma exclusive_reserve s k d later r j l :
  exclusive s → sn_now s ≤ later → reserve (sn_store s) (sn_now s) later k d = (r, j) → r ≠ CONFLICT →
  lease j k = Some l →
  let g := {| gr_key := k; gr_digest := d; gr_fresh := is_reserved r; gr_at := sn_now s;
              gr_until := rs_expiresAt l |} in
  exclusive {| sn_store := j; sn_now := later; sn_held := g :: sn_held s; sn_signed := sn_signed s |}.
Proof.
  intros [Hl Ha] Hnow Hr Hc Hj g. rewrite Forall_forall in Hl.
  assert (gr_until g = gr_until g ∧ sn_now s < gr_until g
    ∧ (gr_fresh g = true → gr_at g + SIGNING_JOURNAL_TTL_MS ≤ gr_until g)
    ∧ lease j k = Some {| rs_digest := d; rs_expiresAt := gr_until g |}
    ∧ (∀ k', k' ≠ k → lease j k' = lease (sn_store s) k')
    ∧ ∀ h, h ∈ all_grants s → gr_key h = k → sn_now s < gr_until h →
        gr_digest h = d ∧ gr_until h = gr_until g) as (_ & H1 & H2 & H3 & H4 & H5).
  { destruct (live_lease (sn_store s) (sn_now s) k) as [l0|] eqn:El.
    - rewrite (reserve_live _ _ _ _ _ _ El) in Hr. apply live_lease_Some in El as [El Hlt].
      destruct (String.eqb_spec (rs_digest l0) d) as [Hd|Hd]; injection Hr as <- <-; [|done].
      rewrite Hj in El. injection El as ->. subst g d. cbn. split_and!; try done; try lia.
      + by rewrite Hj; destruct l0.
      + intros h Hh Hk Hu. destruct (Hl h Hh) as (_ & _ & _ & Hs). rewrite Hk in Hs.
        rewrite (Hs Hu) in Hj. by injection Hj as <-.
    - destruct (reserve_free _ _ _ k d Hnow El) as (s' & t & E & Ht' & Hs' & Hf). rewrite E in Hr.
      injection Hr as <- <-. rewrite Hj in Hs'. injection Hs' as ->. unfold SIGNING_JOURNAL_TTL_MS in *.
      subst g. cbn in *. split_and!; try done; try lia.
      intros h Hh Hk Hu. destruct (Hl h Hh) as (_ & _ & _ & Hs). rewrite Hk in Hs.
      rewrite live_lease_None in El. specialize (El _ (Hs Hu)). cbn in El. lia. }
  assert (∀ h, h ∈ all_grants s → apart g h) as Hg.
  { intros h Hh Hk Hd. destruct (Z.le_gt_cases (gr_until h) (sn_now s)) as [|Hu]; [by right|].
    destruct (H5 h Hh) as [E _]; [done|lia|done]. }
  split.
  - apply Forall_forall. intros h [->|Hh]%elem_of_cons; [split_and!; cbn; auto with lia|].
    destruct (Hl h Hh) as (? & ? & ? & Hs). split_and!; cbn; [lia|done|done|]. intros Hu.
    destruct (decide (gr_key h = k)) as [Hk|Hk]; [|rewrite H4 by done; apply Hs; lia].
    destruct (H5 h Hh Hk) as [-> ->]; [lia|]. by rewrite Hk.
  - intros a b [->|Ha']%elem_of_cons [->|Hb]%elem_of_cons; [by intros ? []|by apply Hg|by apply apart_sym, Hg|by apply Ha].
Qed.

Lemma refused_same (s : J) now later k d j :
  now ≤ later → reserve s now later k d = (CONFLICT, j) → j = s.
Proof.
  intros Hn Hr. destruct (live_lease s now k) as [l0|] eqn:El.
  - rewrite (reserve_live _ _ _ _ _ _ El) in Hr. by injection Hr.
  - destruct (reserve_free _ _ _ k d Hn El) as (s' & t & E & _). by rewrite E in Hr.
Qed.

Lemma release_lease (s : J) k d k' l : lease (release s k d) k' = Some l → lease s k' = Some l.
Proof.
  intros Hk. destruct (decide (k' = k)) as [->|Hne]; [|by rewrite release_frame in Hk].
  destruct (lease s k) as [l0|] eqn:E; [|by rewrite release_none in Hk].
  destruct (decide (rs_digest l0 = d)) as [Hd|Hd].
  - by rewrite (release_own _ _ _ _ E Hd) in Hk.
  - by rewrite (release_other _ _ _ _ E Hd) in Hk.
Qed.

Lemma exclusive_step s s' : signer_step true s s' → exclusive s → exclusive s'.
Proof.
  intros Hs He. destruct Hs as [s k d later r j l Hn Hr Hc Hj|s k d later j Hn Hr|s g before after later Hn Hg
    |s g before after later Hn Hg Halone|s k later Hn|s later Hn].
  - by eapply exclusive_reserve.
  - apply refused_same in Hr as ->; [|done]. by apply (exclusive_shrink s).
  - apply (exclusive_shrink s); try done. unfold all_grants. cbn. rewrite Hg. set_solver.
  - apply (exclusive_shrink s); try done; cbn [sn_store all_grants sn_held sn_signed].
    + unfold all_grants. cbn. rewrite Hg. set_solver.
    + intros h Hh Hu Hl. cbn in Hu. destruct (gr_fresh g); [|done].
      destruct (decide (gr_key h = gr_key g)) as [Hk|Hne]; [|by apply release_frame].
      destruct (decide (gr_digest h = gr_digest g)) as [Hd|Hd].
      * specialize (Halone eq_refl eq_refl). unfold alone in Halone. rewrite Forall_forall in Halone.
        unfold all_grants in Hh. cbn in Hh. rewrite <-app_assoc in Hh. specialize (Halone h Hh Hk Hd). lia.
      * rewrite Hk in Hl |- *. rewrite Hl. apply release_other; done.
  - apply (exclusive_shrink s); try done; cbn [sn_store sn_now].
    intros g Hg Hu Hl. cbn in Hu.
    assert (live_lease (sn_store s) later (gr_key g) = Some {| rs_digest := gr_digest g; rs_expiresAt := gr_until g |}) as E
      by by apply live_lease_Some.
    rewrite <-(committed_frame _ _ k _ _ Hn) in E. apply live_lease_Some in E as [E _]. by rewrite E, Hl.
  - by apply (exclusive_shrink s).
Qed.

(** No lease runs longer than the TTL. *)
Definition leases_end (s : J) (now : Z) : Prop :=
  ∀ k l, lease s k = Some l → rs_expiresAt l ≤ now + SIGNING_JOURNAL_TTL_MS.

Lemma leases_end_step c s s' :
  signer_step c s s' → leases_end (sn_store s) (sn_now s) → leases_end (sn_store s') (sn_now s').
Proof.
  intros Hs He k' l' Hk'. destruct Hs as [s k d later r j l Hn Hr Hc Hj|s k d later j Hn Hr|s g before after later Hn Hg
    |s g before after later Hn Hg Halone|s k later Hn|s later Hn]; cbn in *.
  - destruct (live_lease (sn_store s) (sn_now s) k) as [l0|] eqn:El.
    + rewrite (reserve_live _ _ _ _ _ _ El) in Hr. injection Hr as _ <-. specialize (He _ _ Hk'). lia.
    + destruct (reserve_free _ _ _ k d Hn El) as (s' & t & E & Ht & Hs' & Hf). rewrite E in Hr. injection Hr as _ <-.
      destruct (decide (k' = k)) as [->|Hne].
      * rewrite Hs' in Hk'. injection Hk' as <-. cbn. lia.
      * rewrite Hf in Hk' by done. specialize (He _ _ Hk'). lia.
  - apply refused_same in Hr as ->; [|done]. specialize (He _ _ Hk'). lia.
  - specialize (He _ _ Hk'). lia.
  - destruct (gr_fresh g); [apply release_lease in Hk'|]; specialize (He _ _ Hk'); lia.
  - apply committed_less in Hk'. specialize (He _ _ Hk'). lia.
  - specialize (He _ _ Hk'). lia.
Qed.

(** *** One call at a time *)
Definition serial_step (s s' : Signers J) : Prop :=
  sn_held s = [] ∧ sn_held s' = []
  ∧ ∃ s1, signer_step false s s1 ∧ (s1 = s' ∨ signer_step false s1 s').

Lemma careful_serial s s' : exclusive s → serial_step s s' → rtc (signer_step true) s s'.
Proof.
  intros He (Hs & Hs' & s1 & H1 & H2).
  assert (∀ u u', signer_step false u u' → sn_held u = [] → signer_step true u u') as Hcare.
  { intros u u' Hu Hnil. destruct Hu; [by econstructor..| | |by constructor|by constructor];
      exfalso; rewrite Hnil in *; by eapply app_cons_not_nil. }
  assert (signer_step true s s1) as H1' by by apply Hcare. destruct H2 as [<-|H2]; [by apply rtc_once|].
  eapply rtc_l; [exact H1'|]. apply rtc_once. pose proof (exclusive_step _ _ H1' He) as He1.
  destruct H2 as [u k d later r j l Hn Hr Hc Hj| | |u g before after later Hn Hg Halone| |]; [done|by econstructor..| |by constructor|by constructor].
  econstructor; [done..|]. intros _ Hf. cbn in Hs'. destruct before, after; try done. cbn in Hg |- *.
  inversion H1 as [s0 k d later0 r j l Hn0 Hr Hc Hj| | | | |]; subst; cbn in Hg; try (rewrite Hs in Hg; done);
    try match goal with Hx : sn_held s = _ ++ _ :: _ |- _ => rewrite Hs in Hx; by apply app_cons_not_nil in Hx end.
  rewrite Hs in Hg. injection Hg as <-. cbn in Hf |- *. destruct r; try done.
  apply Forall_forall. intros h Hh Hk _. cbn in Hk. destruct (Z.le_gt_cases (gr_until h) later) as [|Hgt]; [done|].
  exfalso. destruct He as [Hl _]. rewrite Forall_forall in Hl.
  destruct (Hl h) as (_ & _ & _ & Hlease); [unfold all_grants; set_solver|]. cbn in Hn.
  assert (live_lease (sn_store s) (sn_now s) k = Some {| rs_digest := gr_digest h; rs_expiresAt := gr_until h |}) as El.
  { apply live_lease_Some. cbn. rewrite <-Hk. split; [apply Hlease|]; lia. }
  rewrite (reserve_live _ _ _ _ _ _ El) in Hr. cbn in Hr. by destruct (String.eqb _ _).
Qed.

(** *** The promises *)
Lemma exclusive_start (s0 : J) now : exclusive (no_signers s0 now).
Proof. split; [constructor|]. intros g h Hg. by apply elem_of_nil in Hg. Qed.

Lemma exclusive_run s s' : rtc (signer_step true) s s' → exclusive s → exclusive s'.
Proof. induction 1; eauto using exclusive_step. Qed.

Lemma serial_run s s' : rtc serial_step s s' → exclusive s → rtc (signer_step true) s s'.
Proof.
  induction 1 as [|s s1 s' Hs Hr IH]; [done|]. intros He. pose proof (careful_serial _ _ He Hs) as H1.
  etrans; [exact H1|]. apply IH. by eapply exclusive_run.
Qed.

Lemma leases_end_run c s s' :
  rtc (signer_step c) s s' → leases_end (sn_store s) (sn_now s) → leases_end (sn_store s') (sn_now s').
Proof. induction 1; eauto using leases_end_step. Qed.

(** Two signatures of an exclusive history. *)
Lemma grants_exclude s a b :
  exclusive s → a ∈ sn_signed s → b ∈ sn_signed s → gr_key a = gr_key b → gr_digest a ≠ gr_digest b →
  gr_at a ≤ gr_at b →
  gr_at a < gr_until a ≤ gr_at b
  ∧ (gr_fresh a = true → gr_at a + SIGNING_JOURNAL_TTL_MS ≤ gr_at b).
Proof.
  intros [Hl Hap] Ha Hb Hk Hd Hle.
  assert (∀ g, g ∈ sn_signed s → g ∈ all_grants s) as Hin by (unfold all_grants; set_solver).
  rewrite Forall_forall in Hl. destruct (Hl a (Hin a Ha)) as (_ & Ha1 & Ha2 & _).
  destruct (Hl b (Hin b Hb)) as (_ & Hb1 & _). destruct (Hap a b (Hin a Ha) (Hin b Hb) Hk Hd); [|lia].
  split; [lia|]. intros Hf. specialize (Ha2 Hf). lia.
Qed.

(** signers that share a journal and run one call at a time, or in any
    interleaving in which a failing call is alone with what it reserved, never
    sign two transactions for one vault outpoint under overlapping leases: the
    second was reserved after the lease of the first had ended, which is at
    least thirty minutes when the first call made the reservation. *)
Theorem journal_excludes (s0 : J) now s a b :
  rtc (signer_step true) (no_signers s0 now) s ∨ rtc serial_step (no_signers s0 now) s →
  a ∈ sn_signed s → b ∈ sn_signed s → gr_key a = gr_key b → gr_digest a ≠ gr_digest b →
  gr_at a ≤ gr_at b →
  gr_at a < gr_until a ≤ gr_at b
  ∧ (gr_fresh a = true → gr_at a + SIGNING_JOURNAL_TTL_MS ≤ gr_at b).
Proof.
  intros Hrun. apply grants_exclude. eapply exclusive_run; [|apply exclusive_start].
  destruct Hrun as [Hr|Hr]; [exact Hr|]. apply serial_run; [exact Hr|apply exclusive_start].
Qed.

(** no call, failed or abandoned, blocks a vault outpoint for good: in any
    interleaving, thirty minutes after the last step every reservation of every
    outpoint succeeds, for any transaction. *)
Theorem journal_unblocks c (s0 : J) now s k d t later :
  rtc (signer_step c) (no_signers s0 now) s → leases_end s0 now →
  sn_now s + SIGNING_JOURNAL_TTL_MS ≤ t ≤ later →
  ∃ j, reserve (sn_store s) t later k d = (RESERVED, j).
Proof.
  intros Hr He [Ht Hl]. apply leases_end_run in Hr; [|exact He].
  destruct (reserve_free (sn_store s) t later k d Hl) as (s' & at_ & E & _); [|by eexists].
  apply live_lease_None. intros l Hk. apply Hr in Hk. lia.
Qed.
End Signers.

(** ** What a shared reservation costs

    Two calls for the same transaction share a reservation; the first fails and
    releases it while the second is still signing; a third call then reserves
    the outpoint for another transaction. *)
Definition race_key : JournalKey := {| jk_network := Mainnet; jk_backingTxid := "ab"; jk_backingVout := 1 |}.
Definition race_grant (digest : string) (fresh : bool) : Grant :=
  {| gr_key := race_key; gr_digest := digest; gr_fresh := fresh; gr_at := 0; gr_until := SIGNING_JOURNAL_TTL_MS |}.
Definition raced (J : Type) (s : J) : Signers J :=
  {| sn_store := s; sn_now := 0; sn_held := []; sn_signed := [race_grant "t2" true; race_grant "t1" false] |}.

Lemma race_run J `{SigningJournalLaws J} (s0 : J) :
  live_lease s0 0 race_key = None → ∃ s, rtc (signer_step false) (no_signers s0 0) (raced J s).
Proof.
  intros Hfree.
  destruct (reserve_free s0 0 0 race_key "t1" ltac:(done) Hfree) as (s1 & t & H1 & Ht & L1 & _).
  replace t with 0 in L1 by lia. clear t Ht.
  assert (reserve s1 0 0 race_key "t1" = (IDEMPOTENT, s1)) as H2.
  { apply (reserve_live s1 0 0 race_key "t1" {| rs_digest := "t1"; rs_expiresAt := SIGNING_JOURNAL_TTL_MS |}).
    by apply live_lease_Some. }
  assert (live_lease (release s1 race_key "t1") 0 race_key = None) as Hr.
  { unfold live_lease. by rewrite (release_own s1 race_key "t1" _ L1 eq_refl). }
  destruct (reserve_free _ 0 0 race_key "t2" ltac:(done) Hr) as (s2 & t & H3 & Ht & L2 & _).
  replace t with 0 in L2 by lia. exists s2.
  pose (held := λ store gs signed, {| sn_store := store : J; sn_now := 0; sn_held := gs; sn_signed := signed |}).
  eapply (rtc_l _ _ (held s1 [race_grant "t1" true] [])).
  { apply (step_reserve false (no_signers s0 0) race_key "t1" 0 RESERVED s1 _ ltac:(done) H1 ltac:(done) L1). }
  eapply (rtc_l _ _ (held s1 [race_grant "t1" false; race_grant "t1" true] [])).
  { apply (step_reserve false (held s1 _ _) race_key "t1" 0 IDEMPOTENT s1 _ ltac:(done) H2 ltac:(done) L1). }
  eapply (rtc_l _ _ (held (release s1 race_key "t1") [race_grant "t1" false] [])).
  { apply (step_fail false (held s1 _ _) (race_grant "t1" true) [race_grant "t1" false] [] 0 ltac:(done) ltac:(done) ltac:(done)). }
  eapply (rtc_l _ _ (held s2 [race_grant "t2" true; race_grant "t1" false] [])).
  { apply (step_reserve false (held _ _ _) race_key "t2" 0 RESERVED s2 _ ltac:(done) H3 ltac:(done) L2). }
  eapply (rtc_l _ _ (held s2 [race_grant "t2" true] [race_grant "t1" false])).
  { apply (step_sign false (held s2 _ _) (race_grant "t1" false) [race_grant "t2" true] [] 0 ltac:(done) ltac:(done)). }
  apply rtc_once.
  apply (step_sign false (held s2 _ _) (race_grant "t2" true) [] [] 0 ltac:(done) ltac:(done)).
Qed.

(** with both stores, two different transactions for one vault outpoint can
    be signed in the same millisecond: the release of a failing call also ends
    the lease a concurrent call for the same transaction relies on. *)
Theorem journal_race :
  (∃ s, rtc (signer_step false) (no_signers (∅ : InMemoryJournal) 0) (raced InMemoryJournal s))
  ∧ (∃ s, rtc (signer_step false) (no_signers (∅ : PostgresJournal) 0) (raced PostgresJournal s)).
Proof. split; [apply (race_run InMemoryJournal)|apply (race_run PostgresJournal)]; vm_compute; reflexivity. Qed.

(** ** Witnesses *)
Definition mem_row (digest : string) (at_ : Z) : InMemoryJournal :=
  {[ journal_key race_key := {| rs_digest := digest; rs_expiresAt := at_ + SIGNING_JOURNAL_TTL_MS |} ]}.
Definition mem_grant (digest : string) (at_ : Z) : Grant :=
  {| gr_key := race_key; gr_digest := digest; gr_fresh := true; gr_at := at_;
     gr_until := at_ + SIGNING_JOURNAL_TTL_MS |}.

(** One call that reserves and signs, the clock going from [now] to [later]. *)
Lemma mem_call m now later signed digest :
  now ≤ later → mem_reserve m now now race_key digest = (RESERVED, mem_row digest now) →
  serial_step {| sn_store := m; sn_now := now; sn_held := []; sn_signed := signed |}
    {| sn_store := mem_row digest now; sn_now := later; sn_held := [];
       sn_signed := mem_grant digest now :: signed |}.
Proof.
  intros Hn Hr. split_and!; [done..|]. eexists. split.
  - apply (step_reserve false {| sn_store := m; sn_now := now; sn_held := []; sn_signed := signed |}
      race_key digest now RESERVED (mem_row digest now) {| rs_digest := digest; rs_expiresAt := now + SIGNING_JOURNAL_TTL_MS |});
      [done|exact Hr|done|]. cbn. unfold mem_row. by rewrite lookup_singleton_eq.
  - right. by apply (step_sign false {| sn_store := mem_row digest now; sn_now := now; sn_held := [mem_grant digest now];
      sn_signed := signed |} (mem_grant digest now) [] [] later).
Qed.

Lemma journal_excludes_witness :
  let a := mem_grant "t1" 0 in
  let b := mem_grant "t2" SIGNING_JOURNAL_TTL_MS in
  gr_at a < gr_until a ≤ gr_at b ∧ (gr_fresh a = true → gr_at a + SIGNING_JOURNAL_TTL_MS ≤ gr_at b).
Proof.
  intros a b.
  apply (journal_excludes (∅ : InMemoryJournal) 0
    {| sn_store := mem_row "t2" SIGNING_JOURNAL_TTL_MS; sn_now := SIGNING_JOURNAL_TTL_MS; sn_held := [];
       sn_signed := [b; a] |}).
  - right. eapply rtc_l; [apply (mem_call ∅ 0 SIGNING_JOURNAL_TTL_MS [] "t1"); [done|vm_compute; reflexivity]|].
    apply rtc_once. apply mem_call; [done|vm_compute; reflexivity].
  - right. left.
  - left.
  - reflexivity.
  - discriminate.
  - discriminate.
Defined.

Lemma journal_unblocks_witness :
  ∃ s : InMemoryJournal, sn_signed (raced InMemoryJournal s) ≠ []
  ∧ ∃ j, reserve s SIGNING_JOURNAL_TTL_MS SIGNING_JOURNAL_TTL_MS race_key "t3" = (RESERVED, j).
Proof.
  assert (live_lease (∅ : InMemoryJournal) 0 race_key = None) as H0 by (vm_compute; reflexivity).
  destruct (race_run InMemoryJournal ∅ H0) as [s Hs]. exists s. split; [discriminate|].
  apply (journal_unblocks false (∅ : InMemoryJournal) 0 (raced InMemoryJournal s)).
  - exact Hs.
  - intros k l Hk. cbn in Hk. by apply lookup_empty_Some in Hk.
  - split; discriminate.
Defined.
