(* ===== verification/AuditLog.v ===== *)
(** * The Guardian's audit history

    packages/cove-guardian/src/v3/journal.ts (the canonical bytes of a record
    and the hash chain), types.ts ([AuditRecord]) and
    packages/cove-app/src/audit.ts (the table that holds the chain). *)
From S2P Require Import Prelude Bytes Wire Covenant Indexer.

(** ** journal.ts: the hash chain *)
Definition GUARDIAN_AUDIT_DOMAIN : string := "Cove/GuardianAudit/v1".

Inductive GuardianOperation := OpMint | OpRedeem.
Inductive AuditDecision := VALID_TO_SIGN | REJECTED.

Definition operation_name (o : GuardianOperation) : string :=
  match o with OpMint => "MINT" | OpRedeem => "REDEEM" end.
Definition decision_name (d : AuditDecision) : string :=
  match d with VALID_TO_SIGN => "VALID_TO_SIGN" | REJECTED => "REJECTED" end.

Record GuardianAuditDigestFields := {
  af_requestId : string;
  af_operation : GuardianOperation;
  af_tokenId : string;
  af_backingTxid : string;
  af_backingVout : Z;
  af_prevStateHash : string;
  af_nextStateHash : string;
  af_amountAtoms : Z;
  af_grossSats : Z;
  af_protocolFeeSats : Z;
  af_minerFeeSats : Z;
  af_expectedCmr : string;
  af_actualCmr : string;
  af_unsignedTxDigest : string;
  af_decision : AuditDecision;
  af_rejectionReason : option string;
}.

(** [Buffer.from(s.replace(/^0x/, ""), "hex")] *)
Definition h64 (s : string) : list byte :=
  match s with
  | String a (String b rest) => if Ascii.eqb a "0" && Ascii.eqb b "x" then fromHex rest else fromHex s
  | _ => fromHex s
  end.

Definition out_of_range : exn := Exn ERangeError (Some "ERR_OUT_OF_RANGE"%string) "The value is out of range".

(** [writeBigUInt64BE] *)
Definition audit_u64 (n : Z) : result (list byte) :=
  throw_if ((n <? 0) || (U64_MAX <? n)) out_of_range;;
  Ok (u64be n).

(** The bytes after their length, which [writeUInt16BE] takes. *)
Definition audit_str (s : string) : result (list byte) :=
  let b := utf8 s in
  throw_if (0xffff <? blen b) out_of_range;;
  Ok (u16be (blen b) ++ b).

Definition canonicalAuditRecordBytes (f : GuardianAuditDigestFields) : result (list byte) :=
  requestId ← audit_str (af_requestId f);
  operation ← audit_str (operation_name (af_operation f));
  backingVout ← audit_u64 (af_backingVout f);
  amountAtoms ← audit_u64 (af_amountAtoms f);
  grossSats ← audit_u64 (af_grossSats f);
  protocolFeeSats ← audit_u64 (af_protocolFeeSats f);
  minerFeeSats ← audit_u64 (af_minerFeeSats f);
  decision ← audit_str (decision_name (af_decision f));
  rejectionReason ← audit_str (default ""%string (af_rejectionReason f));
  Ok (requestId ++ operation ++ h64 (af_tokenId f) ++ h64 (af_backingTxid f) ++ backingVout
      ++ h64 (af_prevStateHash f) ++ h64 (af_nextStateHash f)
      ++ amountAtoms ++ grossSats ++ protocolFeeSats ++ minerFeeSats
      ++ h64 (af_expectedCmr f) ++ h64 (af_actualCmr f) ++ h64 (af_unsignedTxDigest f)
      ++ decision ++ rejectionReason).

(** ["0".repeat(64)] *)
Definition ZERO_HASH : string := toHex (zeros 32).

Section Chain.
Context (sha256 : list byte → list byte).

Definition audit_preimage (previous : string) (bytes : list byte) : list byte :=
  utf8 GUARDIAN_AUDIT_DOMAIN
  ++ h64 (if String.eqb previous "" then ZERO_HASH else previous) ++ bytes.

Definition computeGuardianAuditHash (previousAuditHash : string) (fields : GuardianAuditDigestFields)
    : result string :=
  bytes ← canonicalAuditRecordBytes fields;
  Ok (toHex (sha256 (audit_preimage previousAuditHash bytes))).

Record AuditLink := {
  al_previousAuditHash : string; al_auditHash : string; al_fields : GuardianAuditDigestFields
}.

(** The loop over the links, from the hash the next one must follow. *)
Fixpoint verify_links (previous : string) (links : list AuditLink) : result bool :=
  match links with
  | [] => Ok true
  | link :: rest =>
      expected ← computeGuardianAuditHash (al_previousAuditHash link) (al_fields link);
      if negb (String.eqb expected (al_auditHash link)) then Ok false
      else if negb (String.eqb (al_previousAuditHash link) previous) then Ok false
      else verify_links (al_auditHash link) rest
  end.

Definition verifyGuardianAuditChain (head : list AuditLink) : result bool := verify_links ZERO_HASH head.
End Chain.

(** ** types.ts *)
Record AuditRecord := {
  aud_requestId : string;
  aud_operation : GuardianOperation;
  aud_tokenId : string;
  aud_prevStateHash : string;
  aud_nextStateHash : string;
  aud_backingOutpoint : OutPoint;
  aud_tokenInputOutpoints : list OutPoint;
  aud_amountAtoms : Z;
  aud_grossSats : Z;
  aud_protocolFeeSats : Z;
  aud_minerFeeSats : Z;
  aud_policyVersion : Z;
  aud_expectedCmr : string;
  aud_actualCmr : string;
  aud_simplicityPass : bool;
  aud_referencePolicyPass : bool;
  aud_unsignedTxDigest : string;
  aud_network : V3Network;
  aud_decision : AuditDecision;
  aud_rejectionReason : option string;
  aud_timestamp : string;
}.

(** ** audit.ts of cove-app *)
Definition digestFields (r : AuditRecord) : GuardianAuditDigestFields := {|
  af_requestId := aud_requestId r;
  af_operation := aud_operation r;
  af_tokenId := aud_tokenId r;
  af_backingTxid := op_txid (aud_backingOutpoint r);
  af_backingVout := op_vout (aud_backingOutpoint r);
  af_prevStateHash := aud_prevStateHash r;
  af_nextStateHash := aud_nextStateHash r;
  af_amountAtoms := aud_amountAtoms r;
  af_grossSats := aud_grossSats r;
  af_protocolFeeSats := aud_protocolFeeSats r;
  af_minerFeeSats := aud_minerFeeSats r;
  af_expectedCmr := aud_expectedCmr r;
  af_actualCmr := aud_actualCmr r;
  af_unsignedTxDigest := aud_unsignedTxDigest r;
  af_decision := aud_decision r;
  af_rejectionReason := aud_rejectionReason r;
|}.

(** A row of [cove_v3_guardian_audit]; the other columns copy the record. *)
Record AuditRow := {
  row_record : AuditRecord;
  row_vaultProfileVersion : string;
  row_beforeSignPersistedAt : Z;
  row_signedAt : option Z;
  row_previousAuditHash : string;
  row_auditHash : string;
}.

Definition row_network (r : AuditRow) : V3Network := aud_network (row_record r).

Definition unique_violation : exn :=
  js_error "duplicate key value violates unique constraint cove_v3_guardian_audit_hash_uq".

Section Table.
Context (sha256 : list byte → list byte).
(** [ORDER BY before_sign_persisted_at DESC LIMIT 1]: which of several rows
    with one timestamp comes first is the database's choice. *)
Context (latest : list AuditRow → option AuditRow).

Definition headHash (rows : list AuditRow) (network : V3Network) : string :=
  default ZERO_HASH (row_auditHash <$> latest (filter (λ r, row_network r = network) rows)).

(** The row of a record chained to [previous], at the clock's [now]. *)
Definition audit_row (version previous : string) (now : Z) (record : AuditRecord) : result AuditRow :=
  auditHash ← computeGuardianAuditHash sha256 previous (digestFields record);
  Ok {| row_record := record; row_vaultProfileVersion := version; row_beforeSignPersistedAt := now;
        row_signedAt := None; row_previousAuditHash := previous; row_auditHash := auditHash |}.

Definition insert_row (rows : list AuditRow) (row : AuditRow) : result (list AuditRow) :=
  throw_if (existsb (λ r, bool_decide (row_network r = row_network row)
                          && String.eqb (row_auditHash r) (row_auditHash row)) rows)
    unique_violation;;
  Ok (rows ++ [row]).

Definition writeBeforeSign (version : string) (rows : list AuditRow) (now : Z) (record : AuditRecord)
    : result (string * list AuditRow) :=
  let previousAuditHash := headHash rows (aud_network record) in
  row ← audit_row version previousAuditHash now record;
  rows ← insert_row rows row;
  Ok (row_auditHash row, rows).

Definition writeAfterSign (rows : list AuditRow) (now : Z) (record : AuditRecord) : list AuditRow :=
  (λ r, if String.eqb (aud_requestId (row_record r)) (aud_requestId record)
        then {| row_record := row_record r; row_vaultProfileVersion := row_vaultProfileVersion r;
                row_beforeSignPersistedAt := row_beforeSignPersistedAt r; row_signedAt := Some now;
                row_previousAuditHash := row_previousAuditHash r; row_auditHash := row_auditHash r |}
        else r) <$> rows.
End Table.

(** The links of a network, in the order they were written. *)
Definition audit_links (network : V3Network) (rows : list AuditRow) : list AuditLink :=
  (λ r, {| al_previousAuditHash := row_previousAuditHash r; al_auditHash := row_auditHash r;
           al_fields := digestFields (row_record r) |})
    <$> filter (λ r, row_network r = network) rows.

(** ** The canonical bytes *)
Lemma audit_u64_Ok n b : audit_u64 n = Ok b ↔ 0 ≤ n ≤ U64_MAX ∧ b = u64be n.
Proof.
  unfold audit_u64. rewrite bind_Ok. setoid_rewrite throw_if_Ok. split.
  - intros (_ & H & [= <-]). to_prop. split; [lia|done].
  - intros [? ->]. exists tt. split; [to_prop; lia|done].
Qed.

Lemma audit_str_Ok s b : audit_str s = Ok b ↔ blen (utf8 s) ≤ 0xffff ∧ b = u16be (blen (utf8 s)) ++ utf8 s.
Proof.
  unfold audit_str. rewrite bind_Ok. setoid_rewrite throw_if_Ok. split.
  - intros (_ & H & [= <-]). to_prop. split; [lia|done].
  - intros [? ->]. exists tt. split; [to_prop; lia|done].
Qed.

(** A framed text at the head of two equal buffers. *)
Lemma audit_str_app_inj s t b c r r' :
  audit_str s = Ok b → audit_str t = Ok c → b ++ r = c ++ r' → s = t ∧ r = r'.
Proof.
  intros [Hs ->]%audit_str_Ok [Ht ->]%audit_str_Ok E. rewrite <-!app_assoc in E.
  apply app_inj_blen in E as [El E]; [|unfold blen, u16be; by rewrite !be_bytes_length].
  assert (blen (utf8 s) = blen (utf8 t)) as Hb.
  { apply (f_equal be_value) in El. unfold u16be in El. rewrite !be_value_bytes in El.
    pose proof (blen_nonneg (utf8 s)). pose proof (blen_nonneg (utf8 t)).
    rewrite !Z.mod_small in El by (cbn; lia). done. }
  apply app_inj_blen in E as [Eu ->]; [|done]. by apply utf8_inj in Eu as ->.
Qed.

Lemma audit_u64_app_inj n m b c r r' :
  audit_u64 n = Ok b → audit_u64 m = Ok c → b ++ r = c ++ r' → n = m ∧ r = r'.
Proof.
  intros [Hn ->]%audit_u64_Ok [Hm ->]%audit_u64_Ok E.
  apply app_inj_blen in E as [E ->]; [|by rewrite !blen_u64be]. split; [|done]. by apply u64be_inj.
Qed.

Lemma h64_hex s : is_hex64 s = true → h64 s = fromHex s.
Proof.
  intros H. destruct s as [|a [|b rest]]; [done..|]. cbn [h64].
  destruct (Ascii.eqb_spec a "0"), (Ascii.eqb_spec b "x"); try done. subst.
  unfold is_hex64 in H. apply andb_true_iff in H as [_ H]. cbn in H. done.
Qed.

Lemma h64_app_inj s t r r' :
  is_hex64 s = true → is_hex64 t = true → h64 s ++ r = h64 t ++ r' → s = t ∧ r = r'.
Proof.
  intros Hs Ht E. rewrite !h64_hex in E by done.
  apply toHex_fromHex64 in Hs as [Es Ls], Ht as [Et Lt].
  apply app_inj_blen in E as [E ->]; [|unfold blen; by rewrite Ls, Lt]. split; [|done]. by rewrite <-Es, <-Et, E.
Qed.

(** What the fields of a record of the Guardian are: 64 hex digits for the
    digests; a missing reason is not the empty text. *)
Definition audit_fields_ok (f : GuardianAuditDigestFields) : Prop :=
  Forall (λ s, is_hex64 s = true)
    [af_tokenId f; af_backingTxid f; af_prevStateHash f; af_nextStateHash f; af_expectedCmr f;
     af_actualCmr f; af_unsignedTxDigest f]
  ∧ af_rejectionReason f ≠ Some ""%string.

Lemma operation_name_inj o o' : operation_name o = operation_name o' → o = o'.
Proof. by destruct o, o'. Qed.
Lemma decision_name_inj d d' : decision_name d = decision_name d' → d = d'.
Proof. by destruct d, d'. Qed.

(** Splits the first field off an equation of two records' bytes. *)
Ltac peel_field E :=
  lazymatch type of E with
  | ?b ++ _ = ?c ++ _ =>
      let X := fresh "E" in
      first
        [ match goal with Hs : audit_str _ = Ok b, Ht : audit_str _ = Ok c |- _ =>
            apply (audit_str_app_inj _ _ _ _ _ _ Hs Ht) in E end
        | match goal with Hs : audit_u64 _ = Ok b, Ht : audit_u64 _ = Ok c |- _ =>
            apply (audit_u64_app_inj _ _ _ _ _ _ Hs Ht) in E end
        | apply h64_app_inj in E; [|done..] ];
      destruct E as [X E]
  end.

Lemma canonicalAuditRecordBytes_inj f g b :
  audit_fields_ok f → audit_fields_ok g →
  canonicalAuditRecordBytes f = Ok b → canonicalAuditRecordBytes g = Ok b → f = g.
Proof.
  intros [Hf Rf] [Hg Rg] Ef Eg. rewrite !Forall_cons in Hf, Hg.
  destruct Hf as (? & ? & ? & ? & ? & ? & ? & _), Hg as (? & ? & ? & ? & ? & ? & ? & _).
  unfold canonicalAuditRecordBytes in Ef, Eg. res_inv Ef. res_inv Eg. subst b. symmetry in Eg.
  rewrite <-(app_nil_r v7), <-(app_nil_r v16) in Eg. repeat peel_field Eg.
  destruct f as [? ? ? ? ? ? ? ? ? ? ? ? ? ? ? rf], g as [? ? ? ? ? ? ? ? ? ? ? ? ? ? ? rg]. cbn in *.
  repeat match goal with
         | H : operation_name _ = operation_name _ |- _ => apply operation_name_inj in H
         | H : decision_name _ = decision_name _ |- _ => apply decision_name_inj in H
         end.
  subst. f_equal. destruct rf, rg; cbn in *; congruence.
Qed.

(** ** The chain *)
Section Verify.
Context (sha256 : list byte → list byte).

Definition link_ok (previous : string) (link : AuditLink) : Prop :=
  al_previousAuditHash link = previous
  ∧ computeGuardianAuditHash sha256 previous (al_fields link) = Ok (al_auditHash link).

(** The hash the next link must follow. *)
Definition chain_head (links : list AuditLink) : string :=
  default ZERO_HASH (al_auditHash <$> last links).

Lemma verify_snoc links link :
  verifyGuardianAuditChain sha256 (links ++ [link]) = Ok true ↔
  verifyGuardianAuditChain sha256 links = Ok true ∧ link_ok (chain_head links) link.
Proof.
  unfold verifyGuardianAuditChain, chain_head. generalize ZERO_HASH as p.
  induction links as [|l links IH]; intros p; cbn [app verify_links].
  - unfold link_ok. cbn. split.
    + intros H. apply bind_Ok in H as (e & He & H).
      destruct (String.eqb_spec e (al_auditHash link)) as [->|]; [|done].
      destruct (String.eqb_spec (al_previousAuditHash link) p) as [<-|]; done.
    + intros [_ [<- ->]]. step_ok. by rewrite !String.eqb_refl.
  - rewrite last_cons. replace (default p (al_auditHash <$> match last links with Some y => Some y | None => Some l end))
      with (default (al_auditHash l) (al_auditHash <$> last links)) by by destruct (last links).
    rewrite !bind_Ok. specialize (IH (al_auditHash l)). split.
    + intros (e & He & H). repeat case_match; try done. apply IH in H as [H Hl]. split; [|done].
      exists e. split; [done|]. by repeat case_match.
    + intros [(e & He & H) Hl]. exists e. split; [done|]. repeat case_match; try done. by apply IH.
Qed.

(** What the hash of a link is taken of. *)
Definition link_preimage (link : AuditLink) : list byte :=
  match canonicalAuditRecordBytes (al_fields link) with
  | Ok bytes => audit_preimage (al_previousAuditHash link) bytes
  | Throw _ => []
  end.

Lemma link_ok_hash previous link :
  link_ok previous link → ∃ b, canonicalAuditRecordBytes (al_fields link) = Ok b
  ∧ link_preimage link = audit_preimage previous b
  ∧ al_auditHash link = toHex (sha256 (link_preimage link)).
Proof.
  intros [Hp H]. unfold computeGuardianAuditHash in H. res_inv H. exists v. unfold link_preimage.
  by rewrite Hv, Hp.
Qed.

Lemma audit_preimage_inj p p' b b' :
  is_hex64 p = true → is_hex64 p' = true →
  audit_preimage p b = audit_preimage p' b' → p = p' ∧ b = b'.
Proof.
  intros Hp Hp' E. unfold audit_preimage in E. apply app_inv_head in E.
  by destruct p, p'; try done; apply h64_app_inj in E.
Qed.

(** What a second history with the same head exhibits: a collision, or a record
    that hashes to the zero hash every chain starts from. *)
Definition forged (l l' : list AuditLink) : Prop :=
  (∃ x y, x ∈ l ∧ y ∈ l' ∧ clash sha256 (link_preimage x) (link_preimage y))
  ∨ ∃ x, x ∈ l ++ l' ∧ toHex (sha256 (link_preimage x)) = ZERO_HASH.

Lemma forged_app l l' x y : forged l l' → forged (l ++ [x]) (l' ++ [y]).
Proof. intros [(a & b & ? & ? & ?)|(a & ? & ?)]; [left; exists a, b|right; exists a]; set_solver. Qed.

Lemma verified_snoc_zero links link :
  verifyGuardianAuditChain sha256 (links ++ [link]) = Ok true → chain_head (links ++ [link]) = ZERO_HASH →
  toHex (sha256 (link_preimage link)) = ZERO_HASH.
Proof.
  intros [_ Hl]%verify_snoc Hz. apply link_ok_hash in Hl as (_ & _ & _ & E). unfold chain_head in Hz.
  rewrite last_snoc in Hz. cbn in Hz. by rewrite <-E.
Qed.

Hypothesis sha256_length : ∀ m, length (sha256 m) = 32%nat.

Lemma chain_head_hex links :
  verifyGuardianAuditChain sha256 links = Ok true → is_hex64 (chain_head links) = true.
Proof using sha256_length.
  destruct links as [|links link _] using rev_ind; [by vm_compute|].
  intros [_ Hl]%verify_snoc. apply link_ok_hash in Hl as (_ & _ & _ & E). unfold chain_head.
  rewrite last_snoc. cbn. rewrite E. by apply is_hex64_toHex.
Qed.

(** the head hash commits the whole audit history: two histories of the
    Guardian's records that verify and have one head are the same history, or
    two of their records are a SHA-256 collision, or one of them hashes to
    zero. *)
Theorem audit_chain_tamper_evident l l' :
  verifyGuardianAuditChain sha256 l = Ok true → verifyGuardianAuditChain sha256 l' = Ok true →
  Forall (λ x, audit_fields_ok (al_fields x)) (l ++ l') → chain_head l = chain_head l' →
  l = l' ∨ forged l l'.
Proof using sha256_length.
  revert l'. induction l as [|x l IH] using rev_ind; intros l'; destruct l' as [|y l' _] using rev_ind; intros Hl Hl' Hf Hh.
  - by left.
  - right. right. exists y. split; [set_solver|]. eapply verified_snoc_zero; [exact Hl'|]. by rewrite <-Hh.
  - right. right. exists x. split; [set_solver|]. by eapply verified_snoc_zero.
  - apply verify_snoc in Hl as [Hl Hx], Hl' as [Hl' Hy].
    unfold chain_head in Hh. rewrite !last_snoc in Hh. cbn in Hh.
    pose proof (link_ok_hash _ _ Hx) as (b & Hb & Px & Ex). pose proof (link_ok_hash _ _ Hy) as (c & Hc & Py & Ey).
    assert (sha256 (link_preimage x) = sha256 (link_preimage y)) as Es by (apply (inj toHex); congruence).
    destruct (decide (link_preimage x = link_preimage y)) as [E|Hne].
    2:{ right. left. exists x, y. split_and!; [set_solver..|by split]. }
    rewrite Px, Py in E. apply audit_preimage_inj in E as [Ep ->]; [|by apply chain_head_hex..].
    rewrite !Forall_app, !Forall_singleton in Hf. destruct Hf as [[Hf Fx] [Hf' Fy]].
    pose proof (canonicalAuditRecordBytes_inj _ _ _ Fx Fy Hb Hc) as Ef.
    destruct (IH l' Hl Hl') as [->|Hforged]; [by apply Forall_app|done| |right; by apply forged_app].
    left. destruct x, y, Hx as [Hx _], Hy as [Hy _]. cbn in *. congruence.
Qed.
End Verify.

(** ** The table *)
Lemma writeAfterSign_links rows now record network :
  audit_links network (writeAfterSign rows now record) = audit_links network rows
  ∧ row_beforeSignPersistedAt <$> filter (λ r, row_network r = network) (writeAfterSign rows now record)
    = row_beforeSignPersistedAt <$> filter (λ r, row_network r = network) rows.
Proof.
  unfold audit_links, writeAfterSign. induction rows as [|r rows [IH1 IH2]]; [done|].
  rewrite fmap_cons, !filter_cons.
  match goal with |- context [decide (row_network (if ?b then _ else _) = _)] => destruct b end;
    unfold row_network in *; cbn [row_record]; case_decide; rewrite ?fmap_cons, ?IH1, ?IH2; done.
Qed.

Section Written.
Context (sha256 : list byte → list byte) (latest : list AuditRow → option AuditRow).
Context (latest_spec : ∀ rows,
  match latest rows with
  | None => rows = []
  | Some r => r ∈ rows ∧ ∀ r', r' ∈ rows → row_beforeSignPersistedAt r' ≤ row_beforeSignPersistedAt r
  end).

(** Calls one after the other, on a clock that advances between two records. *)
Inductive audit_step : list AuditRow * Z → list AuditRow * Z → Prop :=
  | audit_before version record rows now t h rows' :
      now < t → writeBeforeSign sha256 latest version rows t record = Ok (h, rows') →
      audit_step (rows, now) (rows', t)
  | audit_after record rows now t :
      now ≤ t → audit_step (rows, now) (writeAfterSign rows t record, t).

Definition written_ok (st : list AuditRow * Z) : Prop :=
  ∀ network,
    verifyGuardianAuditChain sha256 (audit_links network st.1) = Ok true
    ∧ let times := row_beforeSignPersistedAt <$> filter (λ r, row_network r = network) st.1 in
      Forall (λ t, t ≤ st.2) times ∧ ∀ before t, times = before ++ [t] → Forall (λ t', t' < t) before.

Lemma headHash_chain rows now network :
  written_ok (rows, now) → headHash latest rows network = chain_head (audit_links network rows).
Proof using latest_spec.
  intros Hw. destruct (Hw network) as (_ & _ & Hlast). unfold headHash, audit_links, chain_head.
  pose proof (latest_spec (filter (λ r, row_network r = network) rows)) as Hs. cbn [fst] in Hlast.
  destruct (filter _ rows) as [|r f _] using rev_ind; cbn [snd] in *.
  - destruct (latest []) as [r|]; [|done]. destruct Hs as [Hr _]. by apply elem_of_nil in Hr.
  - rewrite fmap_app, list_fmap_singleton, last_snoc. destruct (latest (f ++ [r])) as [r0|]; [|by destruct f].
    destruct Hs as [Hr Hmax]. cbn. f_equal. apply elem_of_app in Hr as [Hr|Hr%list_elem_of_singleton]; [|by subst].
    exfalso. rewrite fmap_app in Hlast. specialize (Hlast _ _ eq_refl). rewrite Forall_fmap, Forall_forall in Hlast.
    specialize (Hlast r0 Hr). specialize (Hmax r ltac:(set_solver)). cbn in Hlast. lia.
Qed.

Lemma written_step st st' : audit_step st st' → written_ok st → written_ok st'.
Proof using latest_spec.
  intros Hs Hw. destruct Hs as [version record rows now t h rows' Hn Hwr|record rows now t Hn]; intros network.
  - pose proof (headHash_chain rows now (aud_network record) Hw) as Hh.
    unfold writeBeforeSign in Hwr. apply bind_Ok in Hwr as (row & Hrow & Hwr).
    apply bind_Ok in Hwr as (rows1 & Hins & Hwr). injection Hwr as <- <-.
    unfold insert_row in Hins. apply bind_Ok in Hins as (_ & _ & Hins). injection Hins as <-.
    unfold audit_row in Hrow. apply bind_Ok in Hrow as (hash & Hhash & Hrow). rewrite Hh in Hhash.
    destruct (Hw network) as (Hv & Ht & Hl). cbn [fst snd] in *.
    assert (row_network row = aud_network record) as Hnet by by injection Hrow as <-.
    unfold audit_links. rewrite filter_app, filter_cons, filter_nil, Hnet. case_decide as Hd.
    + rewrite !fmap_app. subst network. split_and!.
      * apply verify_snoc. split; [exact Hv|]. injection Hrow as <-. split; [by rewrite Hh|]. exact Hhash.
      * apply Forall_app. split; [eapply Forall_impl; [exact Ht|cbn; lia]|]. injection Hrow as <-. by repeat constructor.
      * intros before t' E. apply app_inj_tail in E as [<- E]. injection Hrow as <-. cbn in E. subst t'.
        eapply Forall_impl; [exact Ht|cbn; lia].
    + rewrite app_nil_r. split_and!; [done|eapply Forall_impl; [exact Ht|cbn; lia]|done].
  - destruct (Hw network) as (Hv & Ht & Hl). destruct (writeAfterSign_links rows t record network) as [E1 E2].
    cbn [fst snd] in *. rewrite E1, E2. split_and!; [done|eapply Forall_impl; [exact Ht|cbn; lia]|done].
Qed.

(** the audit store writes one chain per network: after any sequence of
    writes before and after signatures, one call at a time on an advancing
    clock, the rows of every network verify and the head the store reports is
    the hash of the last of them. *)
Theorem audit_writes_verify now st network :
  rtc audit_step ([], now) st →
  verifyGuardianAuditChain sha256 (audit_links network st.1) = Ok true
  ∧ headHash latest st.1 network = chain_head (audit_links network st.1).
Proof using latest_spec.
  intros Hr. assert (written_ok st) as Hw.
  { assert (written_ok ([], now)) as H0.
    { intros n. cbn. split_and!; [done|constructor|]. intros before t E. by destruct before. }
    remember ([] : list AuditRow, now) as st0. clear Heqst0. induction Hr; eauto using written_step. }
  destruct st as [rows t]. split; [apply (Hw network)|by eapply headHash_chain].
Qed.
End Written.

(** Two calls that both read the head before either inserts its row: the
    history no longer verifies. *)
Lemma audit_fork sha256 version rows previous now1 now2 r1 r2 row1 row2 :
  verifyGuardianAuditChain sha256 (audit_links (aud_network r1) rows) = Ok true →
  previous = chain_head (audit_links (aud_network r1) rows) → aud_network r1 = aud_network r2 →
  audit_row sha256 version previous now1 r1 = Ok row1 → audit_row sha256 version previous now2 r2 = Ok row2 →
  row_auditHash row1 ≠ previous →
  verifyGuardianAuditChain sha256 (audit_links (aud_network r1) (rows ++ [row1; row2])) ≠ Ok true.
Proof.
  intros Hv -> Hn H1 H2 Hne Hbad. unfold audit_row in H1, H2.
  apply bind_Ok in H1 as (h1 & _ & [= <-]). apply bind_Ok in H2 as (h2 & _ & [= <-]).
  unfold audit_links in Hbad. rewrite filter_app, !filter_cons, filter_nil in Hbad.
  unfold row_network in Hbad. cbn [row_record] in Hbad. rewrite <-Hn in Hbad.
  rewrite !decide_True in Hbad by done. rewrite fmap_app in Hbad.
  rewrite !fmap_cons, fmap_nil, cons_middle, app_assoc in Hbad.
  apply verify_snoc in Hbad as [_ [E _]]. cbn in E. unfold chain_head in E at 2. rewrite last_snoc in E. cbn in E.
  apply Hne. cbn. symmetry. exact E.
Qed.

(** ** Witnesses *)
Definition audit_example (id : string) : AuditRecord := {|
  aud_requestId := id; aud_operation := OpMint; aud_tokenId := ZERO_HASH; aud_prevStateHash := ZERO_HASH;
  aud_nextStateHash := ZERO_HASH; aud_backingOutpoint := {| op_txid := ZERO_HASH; op_vout := 1 |};
  aud_tokenInputOutpoints := []; aud_amountAtoms := 5; aud_grossSats := 7; aud_protocolFeeSats := 1;
  aud_minerFeeSats := 2; aud_policyVersion := 3; aud_expectedCmr := ZERO_HASH; aud_actualCmr := ZERO_HASH;
  aud_simplicityPass := true; aud_referencePolicyPass := true; aud_unsignedTxDigest := ZERO_HASH;
  aud_network := Mainnet; aud_decision := VALID_TO_SIGN; aud_rejectionReason := None; aud_timestamp := "" |}.

(** A stand-in for SHA-256 that copies a part of the input. *)
Definition toy_digest (l : list byte) : list byte := take 32 (drop 40 l ++ zeros 32).

Lemma toy_digest_length l : length (toy_digest l) = 32%nat.
Proof. unfold toy_digest, zeros. rewrite length_take, length_app, length_replicate. lia. Qed.

Definition latest_row (rows : list AuditRow) : option AuditRow :=
  foldr (λ r best, match best with
                   | None => Some r
                   | Some b => if row_beforeSignPersistedAt b <? row_beforeSignPersistedAt r then Some r else Some b
                   end) None rows.

Lemma latest_row_spec rows :
  match latest_row rows with
  | None => rows = []
  | Some r => r ∈ rows ∧ ∀ r', r' ∈ rows → row_beforeSignPersistedAt r' ≤ row_beforeSignPersistedAt r
  end.
Proof.
  induction rows as [|r rows IH]; [done|]. cbn. fold (latest_row rows).
  destruct (latest_row rows) as [b|].
  - destruct IH as [Hb Hmax]. destruct (Z.ltb_spec (row_beforeSignPersistedAt b) (row_beforeSignPersistedAt r));
      (split; [set_solver|]); intros r' [->|Hr']%elem_of_cons; try lia; specialize (Hmax r' Hr'); lia.
  - subst. split; [set_solver|]. intros r' ->%list_elem_of_singleton. lia.
Qed.

Definition audit_rows_example : list AuditRow :=
  match writeBeforeSign toy_digest latest_row "DEV1" [] 1 (audit_example "a") with
  | Ok (_, rows) =>
      match writeBeforeSign toy_digest latest_row "DEV1" rows 2 (audit_example "b") with
      | Ok (_, rows) => rows
      | Throw _ => []
      end
  | Throw _ => []
  end.

Lemma audit_chain_tamper_evident_witness :
  let l := audit_links Mainnet audit_rows_example in
  length l = 2%nat ∧ (l = l ∨ forged toy_digest l l).
Proof.
  intros l. split; [vm_compute; reflexivity|].
  apply (audit_chain_tamper_evident toy_digest toy_digest_length l l); try (vm_compute; reflexivity).
  repeat constructor; cbn; try discriminate; vm_compute; reflexivity.
Defined.

Lemma audit_writes_verify_witness :
  let rows := audit_rows_example in
  verifyGuardianAuditChain toy_digest (audit_links Mainnet (rows, 2).1) = Ok true
  ∧ headHash latest_row (rows, 2).1 Mainnet = chain_head (audit_links Mainnet (rows, 2).1).
Proof.
  intros rows. apply (audit_writes_verify toy_digest latest_row latest_row_spec 0 (rows, 2) Mainnet).
  eapply rtc_l.
  { eapply (audit_before toy_digest latest_row "DEV1" (audit_example "a") [] 0 1); [done|vm_compute; reflexivity]. }
  eapply rtc_l; [|apply rtc_refl].
  eapply (audit_before toy_digest latest_row "DEV1" (audit_example "b") _ 1 2); [done|vm_compute; reflexivity].
Defined.
