(* ===== verification/Number.v ===== *)
(** * Numbers of the language

    What a JSON file's numbers are to the program: the double nearest to a
    literal, whether it is an integer ([Number.isInteger]), and its text
    ([String(x)]); and [BigInt(s)] of a text.  Zero has one sign here: the
    program never tells the two apart. *)
From S2P Require Import Prelude Bytes.

(** A double: [m * 2^e], or an infinity. *)
Inductive number := Finite (m e : Z) | Infinite (negative : bool).

(** [round(p / q)] to an integer, ties to even ([q] positive). *)
Definition round_even (p q : Z) : Z :=
  let d := p `div` q in
  let r := p `mod` q in
  if 2 * r <? q then d else if q <? 2 * r then d + 1 else if Z.even d then d else d + 1.

(** [floor(log2(p / q))] of positive integers. *)
Definition log2_ratio (p q : Z) : Z :=
  let k := Z.log2 p - Z.log2 q in
  if p * 2 ^ Z.max 0 (- k) <? q * 2 ^ Z.max 0 k then k - 1 else k.

(** The double nearest to [p / q], of 53 significant bits. *)
Definition to_double (negative : bool) (p q : Z) : number :=
  if p =? 0 then Finite 0 0
  else
    let s := Z.max (-1074) (log2_ratio p q - 52) in
    let m := round_even (p * 2 ^ Z.max 0 (- s)) (q * 2 ^ Z.max 0 s) in
    if (0 <=? s) && (2 ^ 1024 <=? m * 2 ^ s) then Infinite negative
    else Finite (if negative then - m else m) s.

(** The value of an integer double: [BigInt(x)] when [Number.isInteger(x)]. *)
Definition to_integer (x : number) : option Z :=
  match x with
  | Finite m e =>
      if 0 <=? e then Some (m * 2 ^ e)
      else if m mod 2 ^ (- e) =? 0 then Some (m `div` 2 ^ (- e)) else None
  | Infinite _ => None
  end.

Definition digit_of (a : ascii) : option Z :=
  let c := Z.of_nat (nat_of_ascii a) in if (48 <=? c) && (c <=? 57) then Some (c - 48) else None.

(** The digits at the head of a text: their value after [acc], how many, and
    the rest. *)
Fixpoint take_digits (s : string) (acc count : Z) : Z * Z * string :=
  match s with
  | String a r =>
      match digit_of a with
      | Some d => take_digits r (acc * 10 + d) (count + 1)
      | None => (acc, count, s)
      end
  | EmptyString => (acc, count, s)
  end.

(** The double of a number literal of JSON. *)
Definition number_of_literal (s : string) : number :=
  let '(negative, s) := match s with
    | String a r => if Ascii.eqb a "-" then (true, r) else (false, s)
    | EmptyString => (false, s) end in
  let '(whole, _, s) := take_digits s 0 0 in
  let '(m, places, s) := match s with
    | String a r => if Ascii.eqb a "." then take_digits r whole 0 else (whole, 0, s)
    | EmptyString => (whole, 0, s) end in
  let e := match s with
    | String _ (String b r) =>
        if Ascii.eqb b "-" then - (take_digits r 0 0).1.1
        else if Ascii.eqb b "+" then (take_digits r 0 0).1.1
        else (take_digits (String b r) 0 0).1.1
    | _ => 0 end in
  let t := e - places in
  to_double negative (m * 10 ^ Z.max 0 t) (10 ^ Z.max 0 (- t)).

(** ** [String(x)] *)

(** [10^t] as a fraction. *)
Definition pow10_num (t : Z) : Z := 10 ^ Z.max 0 t.
Definition pow10_den (t : Z) : Z := 10 ^ Z.max 0 (- t).

(** The number of digits of the integer part of [p / q], or minus the number
    of zeros after the point. *)
Fixpoint exponent10 (fuel : nat) (p q n : Z) : Z :=
  match fuel with
  | O => n
  | S fuel =>
      if p * pow10_den n <? q * pow10_num n
      then if q * pow10_num (n - 1) <=? p * pow10_den (n - 1) then n else exponent10 fuel p q (n - 1)
      else exponent10 fuel p q (n + 1)
  end.

Definition is_number (x : number) (p q : Z) : bool :=
  match to_double false p q, x with
  | Finite m e, Finite m' e' => m * 2 ^ Z.max 0 (e - e') =? m' * 2 ^ Z.max 0 (e' - e)
  | _, _ => false
  end.

(** The shortest decimal [s * 10^(n-k)] that reads back as [x = p / q]; of two
    of one length the nearer. *)
Fixpoint shortest (rounds : nat) (x : number) (p q n k : Z) : Z * Z :=
  let num := p * pow10_den (n - k) in
  let den := q * pow10_num (n - k) in
  let d := num `div` den in
  let reads s := is_number x (s * pow10_num (n - k)) (pow10_den (n - k)) in
  let nearest := round_even num den in
  if reads nearest then (nearest, n - k)
  else if reads d then (d, n - k)
  else if reads (d + 1) then (d + 1, n - k)
  else match rounds with
       | O => (nearest, n - k)
       | S rounds => shortest rounds x p q n (k + 1)
       end.

(** Without the zeros at its end. *)
Fixpoint trim_zeros (fuel : nat) (s t : Z) : Z * Z :=
  match fuel with
  | O => (s, t)
  | S fuel => if s mod 10 =? 0 then trim_zeros fuel (s `div` 10) (t + 1) else (s, t)
  end.

Definition zeros_text (n : Z) : string := String.concat "" (replicate (Z.to_nat n) "0"%string).
Definition text_take (n : Z) (s : string) : string := String.substring 0 (Z.to_nat n) s.
Definition text_drop (n : Z) (s : string) : string :=
  String.substring (Z.to_nat n) (String.length s - Z.to_nat n) s.

(** The digits of [s] with the decimal point [n] places in. *)
Definition decimal_text (s n : Z) : string :=
  let digits : string := pretty s in
  let k := Z.of_nat (String.length digits) in
  if (k <=? n) && (n <=? 21) then digits +:+ zeros_text (n - k)
  else if (0 <? n) && (n <=? 21) then text_take n digits +:+ "." +:+ text_drop n digits
  else if (-6 <? n) && (n <=? 0) then "0." +:+ zeros_text (- n) +:+ digits
  else
    let e := n - 1 in
    let exponent : string := (if e <? 0 then "e-" else "e+") +:+ pretty (Z.abs e) in
    if k =? 1 then digits +:+ exponent
    else text_take 1 digits +:+ "." +:+ text_drop 1 digits +:+ exponent.

Definition number_text (x : number) : string :=
  match x with
  | Infinite negative => if negative then "-Infinity" else "Infinity"
  | Finite m e =>
      if m =? 0 then "0"%string
      else
        let p := Z.abs m * 2 ^ Z.max 0 e in
        let q := 2 ^ Z.max 0 (- e) in
        let n := exponent10 800 p q 0 in
        let '(s, t) := shortest 17 (Finite (Z.abs m) e) p q n 1 in
        let '(s, t) := trim_zeros 40 s t in
        let digits : string := pretty s in
        (if m <? 0 then "-"%string else ""%string) +:+ decimal_text s (Z.of_nat (String.length digits) + t)
  end.

(** [`${n}`] of an integer number. *)
Definition int_text (z : Z) : string := number_text (Finite z 0).

(** ** [BigInt(s)] *)
Definition digit_in (radix : Z) (a : ascii) : option Z :=
  match hex_val a with Some d => if d <? radix then Some d else None | None => None end.

Fixpoint digits_value (radix : Z) (s : string) (acc : Z) : option Z :=
  match s with
  | EmptyString => Some acc
  | String a r => d ← digit_in radix a; digits_value radix r (acc * radix + d)
  end.

(** One digit or more. *)
Definition digits_of (radix : Z) (s : string) : option Z :=
  match s with EmptyString => None | _ => digits_value radix s 0 end.

(** The radix of a prefix ["0x"], ["0o"] or ["0b"]. *)
Definition radix_of (a : ascii) : option Z :=
  if Ascii.eqb a "x" || Ascii.eqb a "X" then Some 16
  else if Ascii.eqb a "o" || Ascii.eqb a "O" then Some 8
  else if Ascii.eqb a "b" || Ascii.eqb a "B" then Some 2
  else None.

Definition decimal_of (s : string) : option Z :=
  match s with
  | String a r =>
      if Ascii.eqb a "-" then Z.opp <$> digits_of 10 r
      else if Ascii.eqb a "+" then digits_of 10 r
      else digits_of 10 s
  | EmptyString => Some 0
  end.

Definition StringToBigInt (s : string) : option Z :=
  let s := js_trim s in
  match s with
  | String a (String b r) =>
      match (if Ascii.eqb a "0" then radix_of b else None) with
      | Some radix => digits_of radix r
      | None => decimal_of s
      end
  | _ => decimal_of s
  end.

Definition BigInt_of_string (s : string) : result Z :=
  of_option (js_error ("Cannot convert " +:+ s +:+ " to a BigInt")) (StringToBigInt s).

(** ** [Number(s)]: [None] is NaN *)

(** A decimal numeral without its sign: digits, a point, an exponent. *)
Definition unsigned_decimal (negative : bool) (s : string) : option number :=
  let '(whole, n, r) := take_digits s 0 0 in
  let '(m, places, r) := match r with
    | String a r' => if Ascii.eqb a "." then take_digits r' whole 0 else (whole, 0, r)
    | EmptyString => (whole, 0, r) end in
  if n + places =? 0 then None
  else
    e ← match r with
        | EmptyString => Some 0
        | String a r' =>
            if Ascii.eqb a "e" || Ascii.eqb a "E"
            then match r' with String _ _ => decimal_of r' | EmptyString => None end
            else None
        end;
    let t := e - places in
    Some (to_double negative (m * 10 ^ Z.max 0 t) (10 ^ Z.max 0 (- t))).

Definition signed_decimal (negative : bool) (s : string) : option number :=
  if String.eqb s "Infinity" then Some (Infinite negative) else unsigned_decimal negative s.

Definition StringToNumber (s : string) : option number :=
  let s := js_trim s in
  match s with
  | EmptyString => Some (Finite 0 0)
  | String a r =>
      match (if Ascii.eqb a "0" then match r with String b _ => radix_of b | _ => None end else None), r with
      | Some radix, String _ r' => v ← digits_of radix r'; Some (to_double false v 1)
      | _, _ =>
          if Ascii.eqb a "-" then signed_decimal true r
          else if Ascii.eqb a "+" then signed_decimal false r
          else signed_decimal false s
      end
  end.

Definition is_finite (x : number) : bool := match x with Finite _ _ => true | Infinite _ => false end.
Definition is_positive (x : number) : bool :=
  match x with Finite m _ => 0 <? m | Infinite negative => negb negative end.

(** ** On the values the language defines *)
Example number_text_examples :
  number_text <$> (number_of_literal <$>
    ["1e21"; "123456789012345680000"; "0.1"; "5e-324"; "1.7976931348623157e308"; "0.000001"; "1e-7";
     "-12.50"; "9007199254740993"; "1e400"; "2.0"; "0.30000000000000004"; "-0"; "4.35"; "95e-1"]%string)
  = ["1e+21"; "123456789012345680000"; "0.1"; "5e-324"; "1.7976931348623157e+308"; "0.000001"; "1e-7";
     "-12.5"; "9007199254740992"; "Infinity"; "2"; "0.30000000000000004"; "0"; "4.35"; "9.5"]%string.
Proof. vm_compute. reflexivity. Qed.

Example StringToBigInt_examples :
  StringToBigInt <$> ["12"; " -5 "; "0x1F"; ""; "1e3"; "+7"; "-0x1"; "0b102"; "1.0"]%string
  = [Some 12; Some (-5); Some 31; Some 0; None; Some 7; None; None; None].
Proof. vm_compute. reflexivity. Qed.

Example StringToNumber_examples :
  (λ s, number_text <$> StringToNumber s) <$>
    [" 1500 "; ".5"; "5."; "."; "1e3"; "1e"; "0x1F"; "-Infinity"; "12px"; ""; "-.5e+1"; "0b12"]%string
  = [Some "1500"; Some "0.5"; Some "5"; None; Some "1000"; None; Some "31"; Some "-Infinity"; None;
     Some "0"; Some "-5"; None]%string.
Proof. vm_compute. reflexivity. Qed.
