(* ===== verification/Profile.v ===== *)
(** * The mainnet profile: packages/cove-mainnet/src

    [profile.ts] (the owner's decisions, their validation, the canonical bytes
    and hash, the JSON format), [committed-profile.ts] and [test-keys.ts].

    The hash and the curve are [Crypto], bitcoinjs-lib's scripts [BitcoinJs];
    the two operations only the test keys need are [TestKeys].  A [number] of a
    profile is an integer here: the parser refuses any other. *)
From S2P Require Import Prelude Bytes Curve Economics Wire Discovery Covenant Simplicity Vault Indexer Spend AuditLog Number.

(** ** test-keys.ts *)
Definition KNOWN_TEST_KEY_BYTES : list Z := [0x42; 0x43; 0x44; 0x46; 0x47; 0x48; 0x49; 0x51; 0x52; 0x53].

Definition isKnownTestPrivateKeyHex (hex : string) : bool :=
  let h := toLowerCase hex in
  existsb (λ b, String.eqb h (toHex (replicate 32 (to_byte b)))) KNOWN_TEST_KEY_BYTES.

Class TestKeys := {
  (** [ecc.pointFromScalar(d, true)] *)
  pointFromScalar : list byte → option (list byte);
  (** [payments.p2pkh({ pubkey }).output] *)
  p2pkh_output : list byte → result (list byte);
}.

(** ** profile.ts: the types *)
Definition MAINNET_PROFILE_DOMAIN : string := "Cove/MainnetProfile/v1".
Definition MAINNET_VAULT_PROFILE : string := "COVE_V3_VAULT_PROFILE_MAINNET1".

Record MainnetRecoveryProfile := {
  mr_threshold : Z;
  mr_pubkeys : list string;
  mr_csvBlocks : option Z;
}.

Record MainnetCanary := {
  mc_allowedWalletScripts : list string;
  mc_allowedTokenIds : list string;
  mc_maxBackingSats : option Z;
  mc_maxSingleBuySats : option Z;
  mc_maxSingleRedeemPayoutSats : option Z;
  mc_maxP2pSettlementSats : option Z;
  mc_maxMintAtoms : option Z;
  mc_minMintGrossSats : option Z;
}.

Record MainnetProfile := {
  mp_profileVersion : Z;
  mp_chainIdentity : string;
  mp_activationHeight : option Z;
  mp_policyVersion : Z;
  mp_vaultProfileVersion : string;
  mp_guardianXOnly : option string;
  mp_recovery : MainnetRecoveryProfile;
  mp_feeScript : option string;
  mp_buyFeeBps : option Z;
  mp_redeemFeeBps : option Z;
  mp_p2pFeeBps : option Z;
  mp_carrierSats : Z;
  mp_anchorSats : Z;
  mp_maxProtocolSupplyAtoms : Z;
  mp_reserveAllocationAtoms : Z;
  mp_mintCmr : string;
  mp_redeemCmr : string;
  mp_canary : MainnetCanary;
}.

(** [{ ok: errors.length === 0, errors }] *)
Record MainnetProfileValidationResult := { mv_ok : bool; mv_errors : list string }.

(** [[...pubkeys].sort((a, b) => ...)] on the keys in lower case: equal keys
    keep their order. *)
Definition key_le (a b : string) : bool := bytes_le (utf8 (toLowerCase a)) (utf8 (toLowerCase b)).
Fixpoint insert_key (k : string) (l : list string) : list string :=
  match l with
  | [] => [k]
  | x :: r => if key_le k x then k :: l else x :: insert_key k r
  end.
Definition normalizePubkeys (pubkeys : list string) : list string := foldr insert_key [] pubkeys.

(** [l.map((s) => s.toLowerCase()).sort()] *)
Definition sort_lower (l : list string) : list string :=
  of_utf8 <$> sort_buffers ((λ s, utf8 (toLowerCase s)) <$> l).

Definition isStandardMainnetScript (hex : string) : bool :=
  if negb (is_any_hex hex) then false
  else
    let s := fromHex hex in
    if (blen s =? 22) && at_is s 0 0x00 && at_is s 1 0x14 then true
    else if (blen s =? 34) && at_is s 0 0x51 && at_is s 1 0x20 then true
    else if (blen s =? 34) && at_is s 0 0x00 && at_is s 1 0x20 then true
    else if (blen s =? 25) && at_is s 0 0x76 && at_is s 1 0xa9 && at_is s 2 0x14 && at_is s 23 0x88
            && at_is s 24 0xac then true
    else if (blen s =? 23) && at_is s 0 0xa9 && at_is s 1 0x14 && at_is s 22 0x87 then true
    else false.

Definition bpsValid (bps : option Z) : bool :=
  match bps with None => true | Some b => (0 <=? b) && (b <=? 10000) end.

Definition csvValid (csv : option Z) : bool :=
  match csv with None => false | Some c => (1 <=? c) && (c <=? 65535) end.

Definition option_text (o : option Z) : string := match o with Some z => int_text z | None => "null" end.

(** [if (b) fail(e);] *)
Definition fail_if (b : bool) (e : string) : list string := if b then [e] else [].
(** [if (o === null) fail("OWNER_DECISION_REQUIRED: " + name); else ...] *)
Definition decided {A} (o : option A) (name : string) (check : A → list string) : list string :=
  match o with None => ["OWNER_DECISION_REQUIRED: " +:+ name] | Some a => check a end.
Definition first12 (s : string) : string := slice_text 12 s +:+ "…".

(** [RECOVERY_KEYS_FOR[threshold]] *)
Definition RECOVERY_KEYS_FOR (threshold : Z) : option Z :=
  if threshold =? 2 then Some 3 else if threshold =? 1 then Some 1 else None.

Definition contains_key (pubkeys : list string) (k : string) : bool :=
  existsb (λ x, String.eqb (toLowerCase x) (toLowerCase k)) pubkeys.

(** [new Set(pubkeys.map((k) => k.toLowerCase())).size] *)
Definition distinct_keys (pubkeys : list string) : nat :=
  size (list_to_set (toLowerCase <$> pubkeys) : gset string).

Definition version_errors (p : MainnetProfile) : list string :=
  fail_if (negb (mp_profileVersion p =? 1)) ("PROFILE_VERSION_UNKNOWN: " +:+ int_text (mp_profileVersion p))
  ++ fail_if (negb (String.eqb (mp_chainIdentity p) CHAIN_BITCOIN_MAINNET))
       ("CHAIN_IDENTITY_MISMATCH: " +:+ mp_chainIdentity p +:+ " != " +:+ CHAIN_BITCOIN_MAINNET)
  ++ fail_if (negb (mp_policyVersion p =? COVE_POLICY_V3))
       ("POLICY_VERSION_MISMATCH: " +:+ int_text (mp_policyVersion p) +:+ " != " +:+ pretty COVE_POLICY_V3)
  ++ fail_if (negb (String.eqb (mp_vaultProfileVersion p) MAINNET_VAULT_PROFILE))
       ("VAULT_PROFILE_MISMATCH: " +:+ mp_vaultProfileVersion p).

Definition frozen_error (name : string) (value expected : Z) : list string :=
  fail_if (negb (value =? expected))
    ("PROFILE_PROTOCOL_MISMATCH: " +:+ name +:+ " " +:+ pretty value +:+ " != " +:+ pretty expected).

Definition protocol_errors (p : MainnetProfile) : list string :=
  frozen_error "carrierSats" (mp_carrierSats p) TOKEN_CARRIER_SATS
  ++ frozen_error "anchorSats" (mp_anchorSats p) RESERVE_ANCHOR_SATS
  ++ frozen_error "maxProtocolSupplyAtoms" (mp_maxProtocolSupplyAtoms p) PUBLIC_SUPPLY_ATOMS
  ++ frozen_error "reserveAllocationAtoms" (mp_reserveAllocationAtoms p) GRADUATION_RESERVE_ATOMS
  ++ fail_if (negb (String.eqb (toLowerCase (mp_mintCmr p)) (toLowerCase MINT_CMR)))
       "PROFILE_PROTOCOL_MISMATCH: mintCmr"
  ++ fail_if (negb (String.eqb (toLowerCase (mp_redeemCmr p)) (toLowerCase REDEEM_CMR)))
       "PROFILE_PROTOCOL_MISMATCH: redeemCmr".

Definition fee_errors (p : MainnetProfile) : list string :=
  decided (mp_feeScript p) "feeScript" (λ s, fail_if (negb (isStandardMainnetScript s)) "INVALID_FEE_SCRIPT")
  ++ decided (mp_buyFeeBps p) "buyFeeBps"
       (λ b, fail_if (negb (bpsValid (Some b))) ("INVALID_BUY_FEE_BPS: " +:+ int_text b))
  ++ decided (mp_redeemFeeBps p) "redeemFeeBps"
       (λ b, fail_if (negb (bpsValid (Some b))) ("INVALID_REDEEM_FEE_BPS: " +:+ int_text b))
  ++ decided (mp_p2pFeeBps p) "p2pFeeBps"
       (λ b, fail_if (negb (bpsValid (Some b))) ("INVALID_P2P_FEE_BPS: " +:+ int_text b)).

Definition is_empty {A} (l : list A) : bool := (length l =? 0)%nat.

Definition cap_errors (name : string) (cap : option Z) : list string :=
  decided cap ("canary." +:+ name)
    (λ c, fail_if (c <=? 0) ("INVALID_CANARY_CAP: " +:+ name +:+ " " +:+ pretty c)).

Definition canary_errors (c : MainnetCanary) : list string :=
  (mc_allowedWalletScripts c ≫= λ s,
     fail_if (negb (is_any_hex s)) ("INVALID_CANARY_WALLET_SCRIPT: " +:+ first12 s))
  ++ (mc_allowedTokenIds c ≫= λ t,
     fail_if (negb (is_any_hex64 t)) ("INVALID_CANARY_TOKEN_ID: " +:+ first12 t))
  ++ fail_if (is_empty (mc_allowedWalletScripts c)) "OWNER_DECISION_REQUIRED: canary.allowedWalletScripts"
  ++ fail_if (is_empty (mc_allowedTokenIds c)) "OWNER_DECISION_REQUIRED: canary.allowedTokenIds"
  ++ cap_errors "maxBackingSats" (mc_maxBackingSats c)
  ++ cap_errors "maxSingleBuySats" (mc_maxSingleBuySats c)
  ++ cap_errors "maxSingleRedeemPayoutSats" (mc_maxSingleRedeemPayoutSats c)
  ++ cap_errors "maxP2pSettlementSats" (mc_maxP2pSettlementSats c)
  ++ cap_errors "maxMintAtoms" (mc_maxMintAtoms c)
  ++ cap_errors "minMintGrossSats" (mc_minMintGrossSats c).

Definition supply_errors (p : MainnetProfile) : list string :=
  match mc_maxMintAtoms (mp_canary p) with
  | Some cap => fail_if (mp_maxProtocolSupplyAtoms p <? cap)
      ("INVALID_CANARY_CAP: maxMintAtoms " +:+ pretty cap +:+ " exceeds the protocol supply")
  | None => []
  end.

Section Validate.
Context {C : Crypto} {J : BitcoinJs} {T : TestKeys}.

(** *** test-keys.ts: the keys and scripts of the public test keys *)
Definition test_key_material1 (b : Z) : result (list byte * list (list byte)) :=
  pubkey ← of_option (Exn ETypeError (Some "ERR_INVALID_ARG_TYPE"%string) "The first argument must not be null")
    (pointFromScalar (replicate 32 (to_byte b)));
  let x := subarray pubkey 1 (blen pubkey) in
  p2wpkh ← p2wpkh_output pubkey;
  p2tr ← p2tr_output x;
  p2pkh ← p2pkh_output pubkey;
  p2sh ← p2sh_output p2wpkh;
  Ok (x, [p2wpkh; p2tr; p2pkh; p2sh]).

Fixpoint test_key_materials (bs : list Z) : result (list string * list string) :=
  match bs with
  | [] => Ok ([], [])
  | b :: rest =>
      '(x, scripts) ← test_key_material1 b;
      '(xs, ss) ← test_key_materials rest;
      Ok (toHex x :: xs, (toHex <$> scripts) ++ ss)
  end.

(** [testKeyMaterial()]: its x-only keys and its scripts, computed once. *)
Definition testKeyMaterial : result (list string * list string) := test_key_materials KNOWN_TEST_KEY_BYTES.

Definition isKnownTestXOnly (hex : string) : result bool :=
  m ← testKeyMaterial; Ok (bool_decide (toLowerCase hex ∈ m.1)).

Definition isKnownTestScript (hex : string) : result bool :=
  m ← testKeyMaterial; Ok (bool_decide (toLowerCase hex ∈ m.2)).

(** *** profile.ts *)
Definition isXOnlyKey (hex : string) : bool :=
  if negb (is_any_hex64 hex) then false else isXOnlyPoint (fromHex hex).

Definition recovery_errors (p : MainnetProfile) : list string :=
  let r := mp_recovery p in
  let n := Z.of_nat (length (mr_pubkeys r)) in
  let wantKeys := RECOVERY_KEYS_FOR (mr_threshold r) in
  fail_if (bool_decide (wantKeys = None))
    ("INVALID_RECOVERY_THRESHOLD: " +:+ int_text (mr_threshold r) +:+ " (allowed: 2-of-3 or 1-of-1)")
  ++ (if n =? 0 then ["OWNER_DECISION_REQUIRED: recovery.pubkeys"%string]
      else match wantKeys with
           | Some want => fail_if (negb (n =? want))
               ("INVALID_RECOVERY_KEYS: threshold " +:+ int_text (mr_threshold r) +:+ " needs " +:+ pretty want
                +:+ " key(s), got " +:+ pretty n)
           | None => []
           end)
  ++ (mr_pubkeys r ≫= λ k, fail_if (negb (isXOnlyKey k)) ("INVALID_RECOVERY_KEY: " +:+ first12 k))
  ++ match mp_guardianXOnly p with
     | Some g => fail_if (contains_key (mr_pubkeys r) g) "GUARDIAN_KEY_IN_RECOVERY_SET"
     | None => []
     end
  ++ fail_if (negb (distinct_keys (mr_pubkeys r) =? length (mr_pubkeys r))%nat) "DUPLICATE_RECOVERY_KEYS"
  ++ fail_if (negb (csvValid (mr_csvBlocks r)))
       (match mr_csvBlocks r with
        | None => "OWNER_DECISION_REQUIRED: recovery.csvBlocks"%string
        | Some _ => "INVALID_RECOVERY_CSV: " +:+ option_text (mr_csvBlocks r)
        end).

(** The checks that do not look at the test keys, up to those that do. *)
Definition static_errors (p : MainnetProfile) : list string :=
  version_errors p ++ protocol_errors p
  ++ decided (mp_activationHeight p) "activationHeight"
       (λ h, fail_if (h <=? 0) ("INVALID_ACTIVATION_HEIGHT: " +:+ pretty h))
  ++ decided (mp_guardianXOnly p) "guardianXOnly" (λ g, fail_if (negb (isXOnlyKey g)) "INVALID_GUARDIAN_KEY")
  ++ recovery_errors p ++ fee_errors p ++ canary_errors (mp_canary p).

Definition list_of {A} (o : option A) : list A := match o with Some a => [a] | None => [] end.

(** [for (const x of l) if (known(x)) fail(e(x));] *)
Fixpoint known_errors (known : string → result bool) (e : string → string) (l : list string)
    : result (list string) :=
  match l with
  | [] => Ok []
  | x :: rest => b ← known x; errors ← known_errors known e rest; Ok (fail_if b (e x) ++ errors)
  end.

Definition test_key_errors (p : MainnetProfile) : result (list string) :=
  guardian ← known_errors isKnownTestXOnly (λ _, "TEST_KEY_IN_PROFILE: guardianXOnly"%string)
    (list_of (mp_guardianXOnly p));
  recovery ← known_errors isKnownTestXOnly (λ k, "TEST_KEY_IN_PROFILE: recovery key " +:+ first12 k)
    (mr_pubkeys (mp_recovery p));
  fee ← known_errors isKnownTestScript (λ _, "TEST_KEY_IN_PROFILE: feeScript"%string)
    (list_of (mp_feeScript p));
  wallets ← known_errors isKnownTestScript (λ w, "TEST_KEY_IN_PROFILE: canary wallet " +:+ first12 w)
    (mc_allowedWalletScripts (mp_canary p));
  Ok (guardian ++ recovery ++ fee ++ wallets).

Definition validateMainnetProfile (p : MainnetProfile) (allowTestKeys : bool)
    : result MainnetProfileValidationResult :=
  test ← (if negb allowTestKeys then test_key_errors p else Ok []);
  let errors := static_errors p ++ test ++ supply_errors p in
  Ok {| mv_ok := is_empty errors; mv_errors := errors |}.
End Validate.

(** ** The canonical bytes *)
Definition write_uint (n : nat) (v : Z) : result (list byte) :=
  throw_if ((v <? 0) || (256 ^ Z.of_nat n <=? v)) out_of_range;;
  Ok (be_bytes n v).

Definition pf_u8 (v : Z) : result (list byte) := write_uint 1 v.
Definition pf_u16 (v : Z) : result (list byte) := write_uint 2 v.
Definition pf_u32 (v : Z) : result (list byte) := write_uint 4 v.
Definition pf_u64 (v : Z) : result (list byte) := write_uint 8 v.
Definition pf_bytes (b : list byte) : result (list byte) := len ← pf_u16 (blen b); Ok (len ++ b).
Definition pf_str (s : string) : result (list byte) := pf_bytes (utf8 s).
Definition h32 (hex : string) : list byte := h64 hex.

Definition pf_opt {A} (write : A → result (list byte)) (o : option A) : result (list byte) :=
  match o with
  | None => pf_u8 0
  | Some v => tag ← pf_u8 1; bytes ← write v; Ok (tag ++ bytes)
  end.
Definition optU64 : option Z → result (list byte) := pf_opt pf_u64.
Definition optU16 : option Z → result (list byte) := pf_opt pf_u16.
Definition optStr : option string → result (list byte) := pf_opt pf_str.
Definition optBytes : option (list byte) → result (list byte) := pf_opt pf_bytes.

Fixpoint write_all {A} (write : A → result (list byte)) (l : list A) : result (list byte) :=
  match l with
  | [] => Ok []
  | x :: r => bytes ← write x; rest ← write_all write r; Ok (bytes ++ rest)
  end.

(** [p.guardianXOnly ? p.guardianXOnly.toLowerCase() : null] *)
Definition lower_or_null (o : option string) : option string :=
  match o with None | Some EmptyString => None | Some s => Some (toLowerCase s) end.

Definition recovery_bytes (r : MainnetRecoveryProfile) : result (list byte) :=
  threshold ← pf_u8 (mr_threshold r);
  csv ← pf_opt pf_u32 (mr_csvBlocks r);
  count ← pf_u8 (Z.of_nat (length (mr_pubkeys r)));
  Ok (threshold ++ csv ++ count ++ concat (h32 <$> normalizePubkeys (mr_pubkeys r))).

Definition canary_bytes (c : MainnetCanary) : result (list byte) :=
  maxBacking ← optU64 (mc_maxBackingSats c);
  maxBuy ← optU64 (mc_maxSingleBuySats c);
  maxRedeem ← optU64 (mc_maxSingleRedeemPayoutSats c);
  maxP2p ← optU64 (mc_maxP2pSettlementSats c);
  maxMint ← optU64 (mc_maxMintAtoms c);
  minMint ← optU64 (mc_minMintGrossSats c);
  wallets ← pf_u16 (Z.of_nat (length (mc_allowedWalletScripts c)));
  walletScripts ← write_all pf_str (sort_lower (mc_allowedWalletScripts c));
  tokens ← pf_u16 (Z.of_nat (length (mc_allowedTokenIds c)));
  Ok (maxBacking ++ maxBuy ++ maxRedeem ++ maxP2p ++ maxMint ++ minMint
      ++ wallets ++ walletScripts ++ tokens ++ concat (h32 <$> sort_lower (mc_allowedTokenIds c))).

Definition canonicalMainnetProfileBytes (p : MainnetProfile) : result (list byte) :=
  version ← pf_u32 (mp_profileVersion p);
  chain ← pf_str (mp_chainIdentity p);
  activation ← optU64 (mp_activationHeight p);
  policy ← pf_u32 (mp_policyVersion p);
  vault ← pf_str (mp_vaultProfileVersion p);
  guardian ← optStr (lower_or_null (mp_guardianXOnly p));
  recovery ← recovery_bytes (mp_recovery p);
  fee ← optBytes (fromHex <$> mp_feeScript p);
  buyFee ← optU16 (mp_buyFeeBps p);
  redeemFee ← optU16 (mp_redeemFeeBps p);
  p2pFee ← optU16 (mp_p2pFeeBps p);
  carrier ← pf_u64 (mp_carrierSats p);
  anchor ← pf_u64 (mp_anchorSats p);
  supply ← pf_u64 (mp_maxProtocolSupplyAtoms p);
  reserve ← pf_u64 (mp_reserveAllocationAtoms p);
  canary ← canary_bytes (mp_canary p);
  Ok (version ++ chain ++ activation ++ policy ++ vault ++ guardian ++ recovery
      ++ fee ++ buyFee ++ redeemFee ++ p2pFee ++ carrier ++ anchor ++ supply ++ reserve
      ++ h32 (mp_mintCmr p) ++ h32 (mp_redeemCmr p) ++ canary).

(** What the hash is taken of. *)
Definition profile_preimage (bytes : list byte) : list byte := utf8 MAINNET_PROFILE_DOMAIN ++ bytes.

Definition hashMainnetProfile {C : Crypto} (p : MainnetProfile) : result string :=
  bytes ← canonicalMainnetProfileBytes p;
  Ok (toHex (sha256 (profile_preimage bytes))).

(** ** The JSON format *)
Definition PROFILE_KEYS : list string :=
  ["profileVersion"; "chainIdentity"; "activationHeight"; "policyVersion"; "vaultProfileVersion";
   "guardianXOnly"; "recovery"; "feeScript"; "buyFeeBps"; "redeemFeeBps"; "p2pFeeBps";
   "carrierSats"; "anchorSats"; "maxProtocolSupplyAtoms"; "reserveAllocationAtoms";
   "mintCmr"; "redeemCmr"; "canary"]%string.
Definition RECOVERY_KEYS : list string := ["threshold"; "pubkeys"; "csvBlocks"]%string.
Definition CANARY_KEYS : list string :=
  ["allowedWalletScripts"; "allowedTokenIds"; "maxBackingSats";
   "maxSingleBuySats"; "maxSingleRedeemPayoutSats"; "maxP2pSettlementSats";
   "maxMintAtoms"; "minMintGrossSats"]%string.

Definition not_an_object : exn := Exn ETypeError None "Cannot convert undefined or null to object".

(** The own properties of a parsed value, as [Object.keys] and [o[k]] see them:
    a text and an array have one property per index. *)
Definition json_entries (v : json) : result (list (string * json)) :=
  match v with
  | JNull => Throw not_an_object
  | JBool _ | JNumber _ => Ok []
  | JString s => Ok (if String.eqb s "" then [] else [("0"%string, v)])
  | JArray l => Ok (imap (λ i x, (pretty (Z.of_nat i), x)) l)
  | JObject fields => Ok fields
  end.

(** [(v ?? {})] *)
Definition json_or_empty (v : option json) : json := match v with None | Some JNull => JObject [] | Some v => v end.

(** A key that [Object.keys] lists before the others: an array index. *)
Definition array_index (k : string) : option Z :=
  n ← digits_of 10 k; if String.eqb (pretty n) k && (n <? 0xffffffff) then Some n else None.

Definition index_le (a b : string) : Prop := default 0 (array_index a) ≤ default 0 (array_index b).
#[export] Instance index_le_dec : RelDecision index_le.
Proof. unfold RelDecision, index_le. intros. apply _. Defined.

Fixpoint first_occurrences (seen l : list string) : list string :=
  match l with
  | [] => []
  | k :: r => if bool_decide (k ∈ seen) then first_occurrences seen r else k :: first_occurrences (k :: seen) r
  end.

Definition Object_keys (fields : list (string * json)) : list string :=
  let keys := first_occurrences [] (fst <$> fields) in
  merge_sort index_le (filter (λ k, is_Some (array_index k)) keys)
  ++ filter (λ k, array_index k = None) keys.

Fixpoint assert_known (keys allowed : list string) (scope : string) : result unit :=
  match keys with
  | [] => Ok tt
  | k :: rest =>
      throw_if (negb (bool_decide (k ∈ allowed)))
        (js_error ("unknown " +:+ scope +:+ " key: " +:+ String dquote k +:+ String dquote ""));;
      assert_known rest allowed scope
  end.
Definition assertNoUnknownKeys (fields : list (string * json)) (allowed : list string) (scope : string)
    : result unit :=
  assert_known (Object_keys fields) allowed scope.

Definition field_error (key what : string) : exn :=
  js_error ("profile field " +:+ String dquote key +:+ String dquote (" must be " +:+ what)).

Definition requiredString (value : option json) (key : string) : result string :=
  match value with Some (JString s) => Ok s | _ => Throw (field_error key "a string") end.

Definition json_integer (value : option json) : option Z :=
  match value with Some (JNumber n) => to_integer (number_of_literal n) | _ => None end.

Definition requiredInt (value : option json) (key : string) : result Z :=
  of_option (field_error key "an integer") (json_integer value).

(** [BigInt(value)] of a text that is not empty, or of an integer. *)
Definition json_bigint (value : option json) (e : result Z) : result Z :=
  match value with
  | Some (JString s) => if String.eqb s "" then e else BigInt_of_string s
  | _ => match json_integer value with Some z => Ok z | None => e end
  end.

Definition requiredBigint (value : option json) (key : string) : result Z :=
  json_bigint value (Throw (field_error key "a bigint")).

(** [String(v)]: an object's own [toString] is never a function. *)
Fixpoint json_text (v : json) : result string :=
  match v with
  | JNull => Ok "null"%string
  | JBool b => Ok (if b then "true" else "false")%string
  | JNumber n => Ok (number_text (number_of_literal n))
  | JString s => Ok s
  | JArray l =>
      let fix texts l := match l with
        | [] => Ok []
        | JNull :: r => ts ← texts r; Ok (""%string :: ts)
        | x :: r => t ← json_text x; ts ← texts r; Ok (t :: ts)
        end in
      ts ← texts l; Ok (String.concat "," ts)
  | JObject fields =>
      if bool_decide (("toString"%string) ∈ fst <$> fields)
      then Throw (Exn ETypeError None "Cannot convert object to primitive value")
      else Ok "[object Object]"%string
  end.

Definition null_or {A} (value : option json) (f : json → result A) : result (option A) :=
  match value with None | Some JNull => Ok None | Some v => a ← f v; Ok (Some a) end.

(** The message of [String(value)], or what [String] throws. *)
Definition invalid_value {A} (what : string) (v : json) : result A :=
  t ← json_text v; Throw (js_error ("invalid " +:+ what +:+ " value: " +:+ t)).

Definition optBigint (value : option json) : result (option Z) :=
  null_or value (λ v, json_bigint (Some v) (invalid_value "bigint" v)).

Definition optNum (value : option json) : result (option Z) :=
  null_or value (λ v, match json_integer (Some v) with Some z => Ok z | None => invalid_value "integer" v end).

Definition optText (value : option json) : result (option string) := null_or value json_text.

Fixpoint json_texts (l : list json) : result (list string) :=
  match l with [] => Ok [] | v :: r => t ← json_text v; ts ← json_texts r; Ok (t :: ts) end.
Definition strArray (value : option json) : result (list string) :=
  match value with Some (JArray l) => json_texts l | _ => Ok [] end.

Definition must_be (what expected got : string) : exn :=
  js_error (what +:+ " must be " +:+ expected +:+ ", got " +:+ got).
Definition quoted (s : string) : string := String dquote s +:+ String dquote "".

Definition parse_recovery (r : list (string * json)) : result MainnetRecoveryProfile :=
  threshold ← requiredInt (json_get r "threshold") "recovery.threshold";
  pubkeys ← strArray (json_get r "pubkeys");
  csvBlocks ← optNum (json_get r "csvBlocks");
  Ok {| mr_threshold := threshold; mr_pubkeys := normalizePubkeys pubkeys; mr_csvBlocks := csvBlocks |}.

Definition parse_canary (c : list (string * json)) : result MainnetCanary :=
  allowedWalletScripts ← strArray (json_get c "allowedWalletScripts");
  allowedTokenIds ← strArray (json_get c "allowedTokenIds");
  maxBackingSats ← optBigint (json_get c "maxBackingSats");
  maxSingleBuySats ← optBigint (json_get c "maxSingleBuySats");
  maxSingleRedeemPayoutSats ← optBigint (json_get c "maxSingleRedeemPayoutSats");
  maxP2pSettlementSats ← optBigint (json_get c "maxP2pSettlementSats");
  maxMintAtoms ← optBigint (json_get c "maxMintAtoms");
  minMintGrossSats ← optBigint (json_get c "minMintGrossSats");
  Ok {| mc_allowedWalletScripts := allowedWalletScripts; mc_allowedTokenIds := allowedTokenIds;
        mc_maxBackingSats := maxBackingSats; mc_maxSingleBuySats := maxSingleBuySats;
        mc_maxSingleRedeemPayoutSats := maxSingleRedeemPayoutSats;
        mc_maxP2pSettlementSats := maxP2pSettlementSats;
        mc_maxMintAtoms := maxMintAtoms; mc_minMintGrossSats := minMintGrossSats |}.

Definition parseMainnetProfileJson (text : string) : result MainnetProfile :=
  value ← JSON_parse text;
  raw ← json_entries value;
  assertNoUnknownKeys raw PROFILE_KEYS "profile";;
  r ← json_entries (json_or_empty (json_get raw "recovery"));
  c ← json_entries (json_or_empty (json_get raw "canary"));
  assertNoUnknownKeys r RECOVERY_KEYS "recovery";;
  assertNoUnknownKeys c CANARY_KEYS "canary";;
  profileVersion ← requiredInt (json_get raw "profileVersion") "profileVersion";
  throw_if (negb (profileVersion =? 1)) (must_be "profileVersion" "1" (int_text profileVersion));;
  chainIdentity ← requiredString (json_get raw "chainIdentity") "chainIdentity";
  throw_if (negb (String.eqb chainIdentity "bitcoin-mainnet"))
    (must_be "chainIdentity" (quoted "bitcoin-mainnet") (quoted chainIdentity));;
  policyVersion ← requiredInt (json_get raw "policyVersion") "policyVersion";
  throw_if (negb (policyVersion =? 3)) (must_be "policyVersion" "3" (int_text policyVersion));;
  vaultProfileVersion ← requiredString (json_get raw "vaultProfileVersion") "vaultProfileVersion";
  throw_if (negb (String.eqb vaultProfileVersion MAINNET_VAULT_PROFILE))
    (must_be "vaultProfileVersion" (quoted MAINNET_VAULT_PROFILE) (quoted vaultProfileVersion));;
  activationHeight ← optBigint (json_get raw "activationHeight");
  guardianXOnly ← optText (json_get raw "guardianXOnly");
  recovery ← parse_recovery r;
  feeScript ← optText (json_get raw "feeScript");
  buyFeeBps ← optNum (json_get raw "buyFeeBps");
  redeemFeeBps ← optNum (json_get raw "redeemFeeBps");
  p2pFeeBps ← optNum (json_get raw "p2pFeeBps");
  carrierSats ← requiredBigint (json_get raw "carrierSats") "carrierSats";
  anchorSats ← requiredBigint (json_get raw "anchorSats") "anchorSats";
  maxProtocolSupplyAtoms ← requiredBigint (json_get raw "maxProtocolSupplyAtoms") "maxProtocolSupplyAtoms";
  reserveAllocationAtoms ← requiredBigint (json_get raw "reserveAllocationAtoms") "reserveAllocationAtoms";
  mintCmr ← requiredString (json_get raw "mintCmr") "mintCmr";
  redeemCmr ← requiredString (json_get raw "redeemCmr") "redeemCmr";
  canary ← parse_canary c;
  Ok {| mp_profileVersion := 1; mp_chainIdentity := "bitcoin-mainnet";
        mp_activationHeight := activationHeight; mp_policyVersion := 3;
        mp_vaultProfileVersion := MAINNET_VAULT_PROFILE; mp_guardianXOnly := guardianXOnly;
        mp_recovery := recovery; mp_feeScript := feeScript; mp_buyFeeBps := buyFeeBps;
        mp_redeemFeeBps := redeemFeeBps; mp_p2pFeeBps := p2pFeeBps; mp_carrierSats := carrierSats;
        mp_anchorSats := anchorSats; mp_maxProtocolSupplyAtoms := maxProtocolSupplyAtoms;
        mp_reserveAllocationAtoms := reserveAllocationAtoms; mp_mintCmr := mintCmr;
        mp_redeemCmr := redeemCmr; mp_canary := canary |}.

(** ** committed-profile.ts *)

(** The text with each ['] for a double quote. *)
Fixpoint requote (s : string) : string :=
  match s with
  | EmptyString => EmptyString
  | String a r => String (if Ascii.eqb a "'" then dquote else a) (requote r)
  end.

Definition COMMITTED_MAINNET_PROFILE_JSON : string := requote
"{
  'profileVersion': 1,
  'chainIdentity': 'bitcoin-mainnet',
  'activationHeight': null,
  'guardianXOnly': null,
  'recovery': {
    'threshold': 2,
    'csvBlocks': null,
    'pubkeys': []
  },
  'feeScript': null,
  'buyFeeBps': null,
  'redeemFeeBps': null,
  'p2pFeeBps': null,
  'canary': {
    'allowedWalletScripts': [],
    'allowedTokenIds': [],
    'maxBackingSats': null,
    'maxSingleBuySats': '200000',
    'maxSingleRedeemPayoutSats': null,
    'maxP2pSettlementSats': null,
    'maxMintAtoms': '2100000000000000',
    'minMintGrossSats': '5000'
  },
  'policyVersion': 3,
  'vaultProfileVersion': 'COVE_V3_VAULT_PROFILE_MAINNET1',
  'carrierSats': '1000',
  'anchorSats': '10000',
  'maxProtocolSupplyAtoms': '2100000000000000',
  'reserveAllocationAtoms': '0',
  'mintCmr': '7fb27adf2db5458882daf976ba9325815f111b2f3b16eedb72e75f96de4269b2',
  'redeemCmr': '37e681b3e70a34acc3b38680c06fbe4f1b2799bede2607c6c9ed7fcac8c95d56'
}".

Record CommittedMainnetProfile := {
  cm_profile : MainnetProfile;
  cm_validation : MainnetProfileValidationResult;
  cm_profileHash : string;
}.

Definition FEE_ADDRESS_ENV : string := "COVE_FEE_ADDRESS".

Definition with_feeScript (p : MainnetProfile) (feeScript : option string) : MainnetProfile := {|
  mp_profileVersion := mp_profileVersion p; mp_chainIdentity := mp_chainIdentity p;
  mp_activationHeight := mp_activationHeight p; mp_policyVersion := mp_policyVersion p;
  mp_vaultProfileVersion := mp_vaultProfileVersion p; mp_guardianXOnly := mp_guardianXOnly p;
  mp_recovery := mp_recovery p; mp_feeScript := feeScript; mp_buyFeeBps := mp_buyFeeBps p;
  mp_redeemFeeBps := mp_redeemFeeBps p; mp_p2pFeeBps := mp_p2pFeeBps p; mp_carrierSats := mp_carrierSats p;
  mp_anchorSats := mp_anchorSats p; mp_maxProtocolSupplyAtoms := mp_maxProtocolSupplyAtoms p;
  mp_reserveAllocationAtoms := mp_reserveAllocationAtoms p; mp_mintCmr := mp_mintCmr p;
  mp_redeemCmr := mp_redeemCmr p; mp_canary := mp_canary p |}.

Inductive ProfileSource := SourceCommitted | SourceTestOnly.

Section Committed.
Context {C : Crypto} {J : BitcoinJs} {T : TestKeys}.
(** [bitcoin.address.toOutputScript(address, network)] *)
Context (toOutputScript : string → btc_network → result (list byte)).
(** [readFileSync(path, "utf8")]; [resolvePath(baseDir, path)] *)
Context (readFile : string → result string) (resolvePath : string → string → string).

Definition feeScriptFromAddress (address : string) (network : btc_network) : result string :=
  match toOutputScript (js_trim address) network with
  | Ok script => Ok (toHex script)
  | Throw _ => Throw (js_error (FEE_ADDRESS_ENV +:+ " " +:+ quoted address +:+ " is not a valid address for this network"))
  end.

Definition committedMainnetProfile (feeAddress : option string) : result CommittedMainnetProfile :=
  profile ← parseMainnetProfileJson COMMITTED_MAINNET_PROFILE_JSON;
  profile ← match feeAddress with
    | None | Some EmptyString => Ok profile
    | Some a => script ← feeScriptFromAddress a NetBitcoin; Ok (with_feeScript profile (Some script))
    end;
  validation ← validateMainnetProfile profile false;
  profileHash ← hashMainnetProfile profile;
  Ok {| cm_profile := profile; cm_validation := validation; cm_profileHash := profileHash |}.

Definition loadMainnetProfile (path : string) (allowTestKeys : bool)
    : result (MainnetProfile * MainnetProfileValidationResult) :=
  text ← readFile path;
  profile ← parseMainnetProfileJson text;
  validation ← validateMainnetProfile profile allowTestKeys;
  Ok (profile, validation).

Definition resolveMainnetProfile (network : string) (testOnlyPath baseDir feeAddress : option string)
    : result (CommittedMainnetProfile * ProfileSource) :=
  match testOnlyPath with
  | None | Some EmptyString => c ← committedMainnetProfile feeAddress; Ok (c, SourceCommitted)
  | Some testOnly =>
      throw_if (String.eqb network "mainnet")
        (js_error "COVE_TEST_ONLY_PROFILE_PATH is refused on mainnet: mainnet runs only the committed profile");;
      let path := match baseDir with None | Some EmptyString => testOnly | Some d => resolvePath d testOnly end in
      '(profile, validation) ← loadMainnetProfile path true;
      profileHash ← hashMainnetProfile profile;
      Ok ({| cm_profile := profile; cm_validation := validation; cm_profileHash := profileHash |}, SourceTestOnly)
  end.
End Committed.
