(* ===== verification/ProfileInv.v ===== *)
(** * What a valid mainnet profile is, and what its hash commits

    The facts [validateMainnetProfile] establishes, the injectivity of the
    canonical bytes, and the state of the committed profile. *)
From S2P Require Import Prelude Bytes Curve Economics Wire Discovery Covenant Simplicity Vault Indexer Spend AuditLog Number Profile.

(** ** Lists of errors *)
Lemma fail_if_nil b e : fail_if b e = [] ↔ b = false.
Proof. by destruct b. Qed.

Lemma decided_nil {A} (o : option A) name f : decided o name f = [] ↔ ∃ a, o = Some a ∧ f a = [].
Proof. destruct o; cbn; naive_solver. Qed.

Lemma bind_nil {A B} (l : list A) (f : A → list B) : l ≫= f = [] ↔ Forall (λ x, f x = []) l.
Proof.
  induction l as [|x l IH]; [by split|]. rewrite Forall_cons, <-IH. cbn. apply app_nil.
Qed.

Lemma is_empty_true {A} (l : list A) : is_empty l = true ↔ l = [].
Proof. by destruct l. Qed.

(** Splits a list of checks that found nothing. *)
Ltac no_errors H :=
  repeat (rewrite ?app_nil, ?fail_if_nil, ?bind_nil in H);
  repeat match type of H with _ ∧ _ => let H' := fresh "N" in destruct H as [H' H] end.

(** ** Text *)
Lemma lower_hex_digit a : is_hex_digit (lower a) = is_hex_digit a.
Proof. by destruct a as [[] [] [] [] [] [] [] []]. Qed.

Lemma hex_val_lower_eq a : hex_val (lower a) = hex_val a.
Proof. by destruct a as [[] [] [] [] [] [] [] []]. Qed.

Lemma fromHex_lower s : fromHex (toLowerCase s) = fromHex s.
Proof.
  revert s. fix IH 1. intros [|a [|b s]]; [done|done|]. cbn [toLowerCase fromHex].
  by rewrite !hex_val_lower_eq, IH.
Qed.

Lemma lower_any_hex64 s : is_any_hex64 (toLowerCase s) = is_any_hex64 s.
Proof.
  unfold is_any_hex64. f_equal.
  - f_equal. induction s; cbn; congruence.
  - induction s as [|a s IH]; [done|]. cbn. by rewrite lower_hex_digit, IH.
Qed.

Lemma toLowerCase_idem s : toLowerCase (toLowerCase s) = toLowerCase s.
Proof.
  induction s as [|a s IH]; [done|]. cbn. rewrite IH. f_equal. by destruct a as [[] [] [] [] [] [] [] []].
Qed.

Lemma h64_any_hex s : is_any_hex64 s = true → h64 s = fromHex s.
Proof.
  intros H. destruct s as [|a [|b rest]]; [done..|]. cbn [h64].
  destruct (Ascii.eqb_spec a "0"), (Ascii.eqb_spec b "x"); try done. subst.
  unfold is_any_hex64 in H. apply andb_true_iff in H as [_ H]. cbn in H. done.
Qed.

(** The bytes of a key or an id determine it up to case. *)
Lemma h64_lower s t :
  is_any_hex64 s = true → is_any_hex64 t = true → h64 s = h64 t → toLowerCase s = toLowerCase t.
Proof.
  intros Hs Ht. rewrite !h64_any_hex by done. apply toLowerCase_fromHex64 in Hs as [-> _], Ht as [-> _].
  by intros ->.
Qed.

Lemma h64_length s : is_any_hex64 s = true → blen (h64 s) = 32.
Proof. intros H. rewrite h64_any_hex by done. apply toLowerCase_fromHex64 in H as [_ H]. unfold blen. by rewrite H. Qed.

(** ** Sorted keys *)
Lemma insert_key_perm k l : insert_key k l ≡ₚ k :: l.
Proof. induction l as [|x l IH]; [done|]. cbn. destruct (key_le k x); [done|]. rewrite IH. apply Permutation_swap. Qed.

Lemma normalizePubkeys_perm l : normalizePubkeys l ≡ₚ l.
Proof. induction l as [|x l IH]; [done|]. cbn [normalizePubkeys foldr]. by rewrite insert_key_perm, IH. Qed.

Lemma sort_lower_perm l : sort_lower l ≡ₚ toLowerCase <$> l.
Proof.
  unfold sort_lower. rewrite sort_buffers_perm. rewrite <-list_fmap_compose.
  erewrite list_fmap_ext; [done|]. intros. cbn. apply of_utf8_utf8.
Qed.

(** ** Prefix codes

    The fields of the canonical bytes follow each other without separators: a
    field's encoder is a prefix code when what follows can be told from it. *)
Class PrefixCode {A} (write : A → result (list byte)) : Prop :=
  prefix_code a b x y r r' : write a = Ok x → write b = Ok y → x ++ r = y ++ r' → a = b ∧ r = r'.

#[export] Instance write_uint_code n : PrefixCode (write_uint n).
Proof.
  intros a b x y r r' Ha Hb E. unfold write_uint in Ha, Hb. res_inv Ha. res_inv Hb. subst. to_prop.
  apply app_inj_blen in E as [E ->]; [|unfold blen; by rewrite !be_bytes_length]. split; [|done].
  apply (f_equal be_value) in E. rewrite !be_value_bytes, !Z.mod_small in E by lia. done.
Qed.

#[export] Instance pf_bytes_code : PrefixCode pf_bytes.
Proof.
  intros a b x y r r' Ha Hb E. unfold pf_bytes in Ha, Hb. res_inv Ha. res_inv Hb. subst.
  rewrite <-!app_assoc in E. apply (prefix_code _ _ _ _ _ _ Hv Hv0) in E as [El E].
  by apply app_inj_blen in E.
Qed.

#[export] Instance pf_str_code : PrefixCode pf_str.
Proof.
  intros a b x y r r' Ha Hb E. apply (prefix_code (write := pf_bytes) _ _ _ _ _ _ Ha Hb) in E as [E ->].
  by apply utf8_inj in E.
Qed.

#[export] Instance pf_opt_code {A} (write : A → result (list byte)) : PrefixCode write → PrefixCode (pf_opt write).
Proof.
  intros W [a|] [b|] x y r r' Ha Hb E; cbn [pf_opt] in Ha, Hb.
  - res_inv Ha. res_inv Hb. subst. rewrite <-!app_assoc in E.
    apply (prefix_code _ _ _ _ _ _ Hv Hv1) in E as [_ E]. by apply (prefix_code _ _ _ _ _ _ Hv0 Hv2) in E as [-> ->].
  - res_inv Ha. subst. rewrite <-app_assoc in E. by apply (prefix_code _ _ _ _ _ _ Hv Hb) in E as [E _].
  - res_inv Hb. subst. rewrite <-app_assoc in E. by apply (prefix_code _ _ _ _ _ _ Ha Hv) in E as [E _].
  - by apply (prefix_code _ _ _ _ _ _ Ha Hb) in E as [_ ->].
Qed.

Lemma write_all_code {A} (write : A → result (list byte)) `{!PrefixCode write} l k x y r r' :
  write_all write l = Ok x → write_all write k = Ok y → length l = length k → x ++ r = y ++ r' → l = k ∧ r = r'.
Proof.
  revert k x y. induction l as [|a l IH]; intros [|b k] x y Hl Hk Hlen E; try done; cbn [write_all] in Hl, Hk.
  - by simplify_eq.
  - res_inv Hl. res_inv Hk. subst. rewrite <-!app_assoc in E.
    apply (prefix_code _ _ _ _ _ _ Hv Hv1) in E as [-> E].
    by eapply IH in E as [-> ->]; [|done|done|by injection Hlen].
Qed.

(** Keys and ids of 32 bytes need no frame. *)
Lemma h32_all_code l k r r' :
  Forall (λ s, is_any_hex64 s = true) l → Forall (λ s, is_any_hex64 s = true) k → length l = length k →
  concat (h32 <$> l) ++ r = concat (h32 <$> k) ++ r' → toLowerCase <$> l = toLowerCase <$> k ∧ r = r'.
Proof.
  intros Hl. revert k. induction Hl as [|a l Ha _ IH]; intros [|b k] Hk Hlen E; try done.
  apply Forall_cons in Hk as [Hb Hk]. rewrite !fmap_cons. cbn [fmap list_fmap concat] in E. rewrite <-!app_assoc in E.
  apply app_inj_blen in E as [E1 E]; [|unfold h32; by rewrite !h64_length].
  apply IH in E as [-> ->]; [|done|by injection Hlen]. split; [|done]. f_equal. by apply h64_lower.
Qed.

(** ** A valid profile *)
Record valid_recovery (r : MainnetRecoveryProfile) (xonly : string → bool) : Prop := {
  vr_shape : (mr_threshold r = 2 ∧ length (mr_pubkeys r) = 3%nat) ∨ (mr_threshold r = 1 ∧ length (mr_pubkeys r) = 1%nat);
  vr_keys : Forall (λ k, xonly k = true) (mr_pubkeys r);
  vr_distinct : NoDup (toLowerCase <$> mr_pubkeys r);
  vr_csv : ∃ c, mr_csvBlocks r = Some c ∧ 1 ≤ c ≤ 65535;
}.

Definition valid_bps (o : option Z) : Prop := ∃ b, o = Some b ∧ 0 ≤ b ≤ 10000.
Definition valid_cap (o : option Z) : Prop := ∃ c, o = Some c ∧ 0 < c.

Record valid_canary (c : MainnetCanary) : Prop := {
  vc_wallets : Forall (λ s, is_any_hex s = true) (mc_allowedWalletScripts c) ∧ mc_allowedWalletScripts c ≠ [];
  vc_tokens : Forall (λ t, is_any_hex64 t = true) (mc_allowedTokenIds c) ∧ mc_allowedTokenIds c ≠ [];
  vc_caps : Forall valid_cap [mc_maxBackingSats c; mc_maxSingleBuySats c; mc_maxSingleRedeemPayoutSats c;
                              mc_maxP2pSettlementSats c; mc_maxMintAtoms c; mc_minMintGrossSats c];
}.

Record valid_profile `{Crypto} (p : MainnetProfile) : Prop := {
  pv_identity : mp_profileVersion p = 1 ∧ mp_chainIdentity p = CHAIN_BITCOIN_MAINNET
                ∧ mp_policyVersion p = COVE_POLICY_V3 ∧ mp_vaultProfileVersion p = MAINNET_VAULT_PROFILE;
  pv_frozen : mp_carrierSats p = TOKEN_CARRIER_SATS ∧ mp_anchorSats p = RESERVE_ANCHOR_SATS
              ∧ mp_maxProtocolSupplyAtoms p = PUBLIC_SUPPLY_ATOMS
              ∧ mp_reserveAllocationAtoms p = GRADUATION_RESERVE_ATOMS;
  pv_cmrs : toLowerCase (mp_mintCmr p) = MINT_CMR ∧ toLowerCase (mp_redeemCmr p) = REDEEM_CMR;
  pv_activation : valid_cap (mp_activationHeight p);
  pv_guardian : ∃ g, mp_guardianXOnly p = Some g ∧ isXOnlyKey g = true
                ∧ toLowerCase g ∉ toLowerCase <$> mr_pubkeys (mp_recovery p);
  pv_recovery : valid_recovery (mp_recovery p) isXOnlyKey;
  pv_fee : ∃ s, mp_feeScript p = Some s ∧ isStandardMainnetScript s = true;
  pv_bps : Forall valid_bps [mp_buyFeeBps p; mp_redeemFeeBps p; mp_p2pFeeBps p];
  pv_canary : valid_canary (mp_canary p);
}.

Lemma contains_key_false l k : contains_key l k = false ↔ toLowerCase k ∉ toLowerCase <$> l.
Proof.
  unfold contains_key. induction l as [|x l IH]; cbn; [set_solver|].
  rewrite orb_false_iff, IH, String.eqb_neq, elem_of_cons. naive_solver.
Qed.

Lemma distinct_keys_NoDup l : (distinct_keys l =? length l)%nat = true ↔ NoDup (toLowerCase <$> l).
Proof.
  unfold distinct_keys. rewrite Nat.eqb_eq, <-(length_fmap toLowerCase l).
  generalize (toLowerCase <$> l) as k. clear l. intros k. split.
  - induction k as [|x k IH]; [by constructor|]. cbn [list_to_set length]. intros E.
    destruct (decide (x ∈ k)) as [Hin|Hin].
    + rewrite subseteq_union_1_L in E by set_solver.
      assert (size (list_to_set k : gset string) ≤ length k)%nat; [|lia].
      clear. induction k as [|x k IH]; [done|]. cbn [list_to_set length].
      rewrite size_union_alt, size_singleton.
      pose proof (subseteq_size (list_to_set k ∖ {[x]}) (list_to_set k : gset string) ltac:(set_solver)). lia.
    + rewrite size_union, size_singleton in E by set_solver. constructor; [done|]. apply IH. lia.
  - intros Hnd. by apply size_list_to_set.
Qed.

Section Valid.
Context {C : Crypto} {J : BitcoinJs} {T : TestKeys}.

Lemma recovery_errors_nil p :
  recovery_errors p = [] → valid_recovery (mp_recovery p) isXOnlyKey
  ∧ (∀ g, mp_guardianXOnly p = Some g → toLowerCase g ∉ toLowerCase <$> mr_pubkeys (mp_recovery p)).
Proof.
  unfold recovery_errors. set (r := mp_recovery p). intros H. no_errors H.
  apply bool_decide_eq_false in N. apply negb_false_iff in N3, H.
  apply distinct_keys_NoDup in N3. split; [split|].
  - unfold RECOVERY_KEYS_FOR in N, N0. destruct (Z.eqb_spec (Z.of_nat (length (mr_pubkeys r))) 0); [done|].
    destruct (Z.eqb_spec (mr_threshold r) 2); [|destruct (Z.eqb_spec (mr_threshold r) 1); [|done]];
      apply fail_if_nil in N0; to_prop; lia.
  - eapply Forall_impl; [exact N1|]. cbn. intros k. rewrite fail_if_nil. apply negb_false_iff.
  - done.
  - unfold csvValid in H. destruct (mr_csvBlocks r) as [c|]; [|done]. exists c. to_prop. split; [done|lia].
  - intros g Hg. rewrite Hg in N2. apply fail_if_nil in N2. by apply contains_key_false.
Qed.

Lemma cap_errors_nil name cap : cap_errors name cap = [] → valid_cap cap.
Proof. unfold cap_errors. intros (c & -> & H)%decided_nil. apply fail_if_nil in H. exists c. to_prop. split; [done|lia]. Qed.

Lemma canary_errors_nil c : canary_errors c = [] → valid_canary c.
Proof.
  unfold canary_errors. intros H. no_errors H. apply cap_errors_nil in N3, N4, N5, N6, N7, H.
  split; [split|split|by repeat constructor].
  - eapply Forall_impl; [exact N|]. cbn. intros k. rewrite fail_if_nil. apply negb_false_iff.
  - intros E. by rewrite E in N1.
  - eapply Forall_impl; [exact N0|]. cbn. intros k. rewrite fail_if_nil. apply negb_false_iff.
  - intros E. by rewrite E in N2.
Qed.

Lemma bps_decided_nil o name e :
  decided o name (λ b, fail_if (negb (bpsValid (Some b))) (e b)) = [] → valid_bps o.
Proof.
  intros (b & -> & H)%decided_nil. apply fail_if_nil, negb_false_iff in H. exists b. cbn in H. to_prop.
  split; [done|lia].
Qed.

Lemma static_errors_nil p : static_errors p = [] → valid_profile p.
Proof.
  unfold static_errors, version_errors, protocol_errors, frozen_error, fee_errors. intros H. no_errors H.
  to_prop. destruct N0 as (? & ? & ? & ? & Em & Er), N4 as (Hfee & B1 & B2 & B3).
  apply recovery_errors_nil in N3 as [Hr Hg].
  apply decided_nil in N2 as (g & Eg & Hk), Hfee as (s & Es & Hs). apply fail_if_nil, negb_false_iff in Hk, Hs.
  constructor; [done|by split_and!| | |by exists g; auto|done|by exists s| |by apply canary_errors_nil].
  - rewrite Em, Er. by split; vm_compute.
  - apply decided_nil in N1 as (a & -> & Ha). apply fail_if_nil in Ha. exists a. to_prop. split; [done|lia].
  - apply bps_decided_nil in B1, B2, B3. by repeat constructor.
Qed.

Lemma validated_valid p allowTestKeys v :
  validateMainnetProfile p allowTestKeys = Ok v → mv_ok v = true → valid_profile p.
Proof.
  unfold validateMainnetProfile. intros H Hok. apply bind_Ok in H as (test & _ & H). injection H as <-.
  apply is_empty_true, app_nil in Hok as [Hok _]. by apply static_errors_nil.
Qed.

(** ** What the hash commits *)

(** A profile up to what its hash ignores: the case of hex digits and the
    order of keys, wallets and tokens. *)
Definition canonical_profile (p : MainnetProfile) : MainnetProfile :=
  let r := mp_recovery p in
  let c := mp_canary p in {|
  mp_profileVersion := mp_profileVersion p; mp_chainIdentity := mp_chainIdentity p;
  mp_activationHeight := mp_activationHeight p; mp_policyVersion := mp_policyVersion p;
  mp_vaultProfileVersion := mp_vaultProfileVersion p; mp_guardianXOnly := toLowerCase <$> mp_guardianXOnly p;
  mp_recovery := {| mr_threshold := mr_threshold r; mr_pubkeys := toLowerCase <$> normalizePubkeys (mr_pubkeys r);
                    mr_csvBlocks := mr_csvBlocks r |};
  mp_feeScript := (λ s, toHex (fromHex s)) <$> mp_feeScript p;
  mp_buyFeeBps := mp_buyFeeBps p; mp_redeemFeeBps := mp_redeemFeeBps p; mp_p2pFeeBps := mp_p2pFeeBps p;
  mp_carrierSats := mp_carrierSats p; mp_anchorSats := mp_anchorSats p;
  mp_maxProtocolSupplyAtoms := mp_maxProtocolSupplyAtoms p;
  mp_reserveAllocationAtoms := mp_reserveAllocationAtoms p;
  mp_mintCmr := toLowerCase (mp_mintCmr p); mp_redeemCmr := toLowerCase (mp_redeemCmr p);
  mp_canary := {|
    mc_allowedWalletScripts := sort_lower (mc_allowedWalletScripts c);
    mc_allowedTokenIds := sort_lower (mc_allowedTokenIds c);
    mc_maxBackingSats := mc_maxBackingSats c; mc_maxSingleBuySats := mc_maxSingleBuySats c;
    mc_maxSingleRedeemPayoutSats := mc_maxSingleRedeemPayoutSats c;
    mc_maxP2pSettlementSats := mc_maxP2pSettlementSats c; mc_maxMintAtoms := mc_maxMintAtoms c;
    mc_minMintGrossSats := mc_minMintGrossSats c |} |}.

Lemma any_hex64_key k : isXOnlyKey k = true → is_any_hex64 k = true.
Proof. unfold isXOnlyKey. by destruct (is_any_hex64 k). Qed.

Lemma recovery_keys_hex p :
  valid_profile p → Forall (λ k, is_any_hex64 k = true) (normalizePubkeys (mr_pubkeys (mp_recovery p))).
Proof.
  intros [_ _ _ _ _ [_ Hk _ _] _ _ _]. rewrite normalizePubkeys_perm. eapply Forall_impl; [exact Hk|].
  intros k. apply any_hex64_key.
Qed.

Lemma tokens_hex c : valid_canary c → Forall (λ k, is_any_hex64 k = true) (sort_lower (mc_allowedTokenIds c)).
Proof.
  intros [_ [Ht _] _]. rewrite sort_lower_perm. apply Forall_fmap. eapply Forall_impl; [exact Ht|].
  intros k. cbn. by rewrite lower_any_hex64.
Qed.

Lemma sort_lower_lower l : toLowerCase <$> sort_lower l = sort_lower l.
Proof.
  apply list_eq_same_length with (length (sort_lower l)); [done|by rewrite length_fmap|].
  intros i x y _. rewrite list_lookup_fmap. intros Hx Hy. apply fmap_Some in Hx as (z & Hz & ->).
  rewrite Hz in Hy. injection Hy as <-. apply list_elem_of_lookup_2 in Hz. rewrite sort_lower_perm in Hz.
  apply list_elem_of_fmap in Hz as (s & -> & _). apply toLowerCase_idem.
Qed.

Lemma lower_or_null_hex g : is_any_hex64 g = true → lower_or_null (Some g) = Some (toLowerCase g).
Proof. by destruct g. Qed.

Lemma cmr_hex s cmr : toLowerCase s = cmr → is_any_hex64 cmr = true → is_any_hex64 s = true.
Proof. intros <-. by rewrite lower_any_hex64. Qed.

(** Splits the first fields off an equation of two encodings. *)
Ltac peel_codes E :=
  repeat (rewrite <-?app_assoc in E;
    lazymatch type of E with
    | ?b ++ _ = ?c ++ _ =>
        match goal with
        | Hs : ?w _ = Ok b, Ht : ?w _ = Ok c |- _ =>
            let F := fresh "F" in
            apply (prefix_code (write := w) _ _ _ _ _ _ Hs Ht) in E; destruct E as [F E]
        end
    end).

Lemma recovery_bytes_code p q x y r r' :
  valid_profile p → valid_profile q →
  recovery_bytes (mp_recovery p) = Ok x → recovery_bytes (mp_recovery q) = Ok y → x ++ r = y ++ r' →
  mp_recovery (canonical_profile p) = mp_recovery (canonical_profile q) ∧ r = r'.
Proof.
  intros Hp Hq Ex Ey E. unfold recovery_bytes in Ex, Ey. res_inv Ex. res_inv Ey. subst x y. peel_codes E.
  apply h32_all_code in E as [Ek ->]; [|by apply recovery_keys_hex..|rewrite !normalizePubkeys_perm; lia].
  split; [|done]. cbn. by rewrite F, F0, Ek.
Qed.

Lemma canary_bytes_code p q x :
  valid_profile p → valid_profile q →
  canary_bytes (mp_canary p) = Ok x → canary_bytes (mp_canary q) = Ok x →
  mp_canary (canonical_profile p) = mp_canary (canonical_profile q).
Proof.
  intros [_ _ _ _ _ _ _ _ Hp] [_ _ _ _ _ _ _ _ Hq] Ex Ey. unfold canary_bytes in Ex, Ey.
  res_inv Ex. res_inv Ey. subst x. rename Ey into E. peel_codes E. apply Nat2Z.inj in F5.
  eapply (write_all_code pf_str) in E as [Ew E]; [|done..|rewrite !sort_lower_perm, !length_fmap; lia].
  peel_codes E. apply Nat2Z.inj in F6.
  rewrite <-(app_nil_r (concat (h32 <$> sort_lower (mc_allowedTokenIds (mp_canary p))))) in E.
  rewrite <-(app_nil_r (concat (h32 <$> sort_lower (mc_allowedTokenIds (mp_canary q))))) in E.
  apply h32_all_code in E as [Et _]; [|by apply tokens_hex..|rewrite !sort_lower_perm, !length_fmap; lia].
  rewrite !sort_lower_lower in Et. cbn. congruence.
Qed.

Lemma canonical_bytes_inj p q b :
  valid_profile p → valid_profile q →
  canonicalMainnetProfileBytes p = Ok b → canonicalMainnetProfileBytes q = Ok b →
  canonical_profile p = canonical_profile q.
Proof.
  intros Hp Hq Ep Eq. unfold canonicalMainnetProfileBytes in Ep, Eq.
  res_inv Ep. res_inv Eq. subst b. rename Eq into E. peel_codes E.
  eapply (recovery_bytes_code q p) in E as [Er E]; [|done..]. peel_codes E.
  destruct (pv_cmrs p Hp) as [Pm Pr], (pv_cmrs q Hq) as [Qm Qr].
  apply app_inj_blen in E as [_ E]; [|unfold h32; rewrite !h64_length; [done|by eapply cmr_hex..]].
  apply app_inj_blen in E as [_ E]; [|unfold h32; rewrite !h64_length; [done|by eapply cmr_hex..]].
  subst. eapply (canary_bytes_code p q) in Hv14; [|done..].
  destruct (pv_guardian p Hp) as (g & Eg & Kg & _), (pv_guardian q Hq) as (g' & Eg' & Kg' & _).
  rewrite Eg, Eg', !lower_or_null_hex in F4 by by apply any_hex64_key.
  cbn in Er, Hv14. unfold canonical_profile. cbn zeta. rewrite Eg, Eg'. cbn [fmap option_fmap option_map].
  assert ((λ s, toHex (fromHex s)) <$> mp_feeScript q = (λ s, toHex (fromHex s)) <$> mp_feeScript p) as Ef.
  { destruct (mp_feeScript p), (mp_feeScript q); cbn in *; congruence. }
  f_equal; congruence.
Qed.

Lemma h32_map_lower l k : toLowerCase <$> l = toLowerCase <$> k →
  Forall (λ s, is_any_hex64 s = true) l → Forall (λ s, is_any_hex64 s = true) k → h32 <$> l = h32 <$> k.
Proof.
  intros E Hl Hk. assert (∀ l, Forall (λ s, is_any_hex64 s = true) l → h32 <$> l = fromHex <$> (toLowerCase <$> l)) as X.
  { clear. induction 1 as [|a l Ha _ IH]; [done|]. rewrite !fmap_cons, IH, fromHex_lower. f_equal. by apply h64_any_hex. }
  by rewrite !X, E.
Qed.

Lemma recovery_bytes_ext p q :
  valid_profile p → valid_profile q → mp_recovery (canonical_profile p) = mp_recovery (canonical_profile q) →
  recovery_bytes (mp_recovery p) = recovery_bytes (mp_recovery q).
Proof.
  intros Hp Hq E. injection E as Et Ek Ec. unfold recovery_bytes. rewrite Et, Ec.
  rewrite (h32_map_lower _ _ Ek) by by apply recovery_keys_hex.
  apply (f_equal length) in Ek. rewrite !length_fmap, !normalizePubkeys_perm in Ek. by rewrite Ek.
Qed.

Lemma canary_bytes_ext p q :
  mp_canary (canonical_profile p) = mp_canary (canonical_profile q) →
  canary_bytes (mp_canary p) = canary_bytes (mp_canary q).
Proof.
  intros E. injection E as Ew Et E1 E2 E3 E4 E5 E6. unfold canary_bytes. rewrite Ew, Et, E1, E2, E3, E4, E5, E6.
  apply (f_equal length) in Ew, Et. rewrite !sort_lower_perm, !length_fmap in Ew, Et. by rewrite Ew, Et.
Qed.

Lemma canonical_bytes_ext p q :
  valid_profile p → valid_profile q → canonical_profile p = canonical_profile q →
  canonicalMainnetProfileBytes p = canonicalMainnetProfileBytes q.
Proof.
  intros Hp Hq E. destruct (pv_cmrs p Hp) as [Pm Pr], (pv_cmrs q Hq) as [Qm Qr].
  pose proof (recovery_bytes_ext p q Hp Hq (f_equal mp_recovery E)) as Er.
  pose proof (canary_bytes_ext p q (f_equal mp_canary E)) as Ec.
  assert (h32 (mp_mintCmr p) = h32 (mp_mintCmr q) ∧ h32 (mp_redeemCmr p) = h32 (mp_redeemCmr q)) as [Em Ed].
  { unfold h32. rewrite !h64_any_hex by by eapply cmr_hex.
    by rewrite <-(fromHex_lower (mp_mintCmr p)), <-(fromHex_lower (mp_redeemCmr p)), Pm, Pr, <-Qm, <-Qr, !fromHex_lower. }
  destruct (pv_guardian p Hp) as (g & Eg & Kg & _), (pv_guardian q Hq) as (g' & Eg' & Kg' & _).
  assert (lower_or_null (mp_guardianXOnly p) = lower_or_null (mp_guardianXOnly q)) as El.
  { apply (f_equal mp_guardianXOnly) in E. cbn in E. rewrite Eg, Eg' in E |- *. injection E as E.
    rewrite !lower_or_null_hex by by apply any_hex64_key. by rewrite E. }
  assert (fromHex <$> mp_feeScript p = fromHex <$> mp_feeScript q) as Ef.
  { apply (f_equal mp_feeScript) in E. cbn in E. destruct (mp_feeScript p), (mp_feeScript q); try done.
    cbn in E |- *. injection E as E. by apply (inj toHex) in E as ->. }
  unfold canonicalMainnetProfileBytes. rewrite Er, Ec, Em, Ed, El, Ef. by injection E as -> -> -> -> -> _ _ _ _ _ -> -> -> -> -> -> ->.
Qed.

(** C24: the profile hash that the application and the Guardian compare commits
    the whole profile: valid profiles with equal hashes agree in every owner
    decision, up to the case of hex digits and the order of keys, wallets and
    tokens, or their canonical bytes are a SHA-256 collision; and profiles that
    agree so have equal hashes. *)
Theorem profile_hash_binds p q allow allow' v w :
  validateMainnetProfile p allow = Ok v → mv_ok v = true →
  validateMainnetProfile q allow' = Ok w → mv_ok w = true →
  (∀ h, hashMainnetProfile p = Ok h → hashMainnetProfile q = Ok h →
     canonical_profile p = canonical_profile q
     ∨ ∃ b c, clash sha256 (profile_preimage b) (profile_preimage c))
  ∧ (canonical_profile p = canonical_profile q → hashMainnetProfile p = hashMainnetProfile q).
Proof.
  intros Hp Vp Hq Vq. apply validated_valid in Hp; [|done]. apply validated_valid in Hq; [|done]. split.
  - unfold hashMainnetProfile. intros h Ep Eq. res_inv Ep. res_inv Eq. subst h. apply (inj toHex) in Eq.
    destruct (decide (v0 = v1)) as [->|Hne]; [left; by eapply canonical_bytes_inj|right].
    exists v1, v0. split; [|done]. unfold profile_preimage. intros E%app_inv_head. congruence.
  - intros E. unfold hashMainnetProfile. by rewrite (canonical_bytes_ext p q).
Qed.
End Valid.
