(* ===== verification/Builder.v ===== *)
(** * The transaction builders: packages/cove-guardian/src/v3/builder.ts

    Each builder makes the PSBT of one protocol operation and reports the miner
    fee it really pays.  [psbt.addInput] and [psbt.addOutput] of bitcoinjs-lib
    are a class: they append, or throw (a duplicate input, an amount that is no
    amount of satoshis). *)
From S2P Require Import Prelude Bytes Curve Economics Wire Discovery Covenant Simplicity Vault Indexer Spend Guardian.

Definition psbt_with (p : Psbt) (ins : list PsbtInput) (outs : list TxOut) : Psbt :=
  {| psbt_inputs := psbt_inputs p ++ ins; psbt_outputs := psbt_outputs p ++ outs |}.

Class PsbtBuilder := {
  addInput : Psbt → PsbtInput → result Psbt;
  addInput_appends p i p' : addInput p i = Ok p' → p' = psbt_with p [i] [];
  addOutput : Psbt → list byte → Z → result Psbt;
  addOutput_appends p s v p' :
    addOutput p s v = Ok p' → p' = psbt_with p [] [{| txo_script := s; txo_value := v |}];
}.

Definition new_psbt : Psbt := {| psbt_inputs := []; psbt_outputs := [] |}.

Notation ResolvedInput := SpendableInput (only parsing).

(** [inputs.reduce((s, i) => s + i.valueSats, 0n)] *)
Definition inputs_value (inputs : list ResolvedInput) : Z := foldl (λ s i, s + si_valueSats i) 0 inputs.

(** [Buffer.concat([Buffer.from([0x6a, payload.length]), payload])]: a byte is
    the length modulo 256. *)
Definition op_return (payload : list byte) : list byte :=
  [to_byte 0x6a; to_byte (blen payload)] ++ payload.

Section Builder.
Context {C : Crypto} {J : BitcoinJs} {P : PsbtBuilder}.

Record Settled := { st_minerFeeSats : Z; st_changeSats : Z; st_absorbedSats : Z }.

Definition addChangeOrAbsorb (psbt : Psbt) (changeScript : list byte) (changeSats minerFeeSats : Z)
    : result (Psbt * Settled) :=
  if changeSats <=? 0
  then Ok (psbt, {| st_minerFeeSats := minerFeeSats; st_changeSats := 0; st_absorbedSats := 0 |})
  else if dustThreshold changeScript DUST_RELAY_FEE_SAT_PER_KVB <=? changeSats
  then psbt ← addOutput psbt changeScript changeSats;
       Ok (psbt, {| st_minerFeeSats := minerFeeSats; st_changeSats := changeSats; st_absorbedSats := 0 |})
  else Ok (psbt, {| st_minerFeeSats := minerFeeSats + changeSats; st_changeSats := 0;
                    st_absorbedSats := changeSats |}).

Fixpoint add_inputs (psbt : Psbt) (inputs : list ResolvedInput) : result Psbt :=
  match inputs with
  | [] => Ok psbt
  | i :: rest => inp ← psbtInputFor i; psbt ← addInput psbt inp; add_inputs psbt rest
  end.

(** [psbt.addOutput(...)] for each of [outs] in turn. *)
Fixpoint add_outputs (psbt : Psbt) (outs : list (list byte * Z)) : result Psbt :=
  match outs with
  | [] => Ok psbt
  | (script, value) :: rest => psbt ← addOutput psbt script value; add_outputs psbt rest
  end.

(** The vault input, spent through an execution leaf. *)
Definition vault_input (prevBacking : ResolvedInput) (v : CoveVaultV3) (leaf : CoveVaultLeaf)
    (controlBlock : list byte) : PsbtInput :=
  with_tap (base_input (si_txid prevBacking) (si_vout prevBacking) (si_script prevBacking)
              (si_valueSats prevBacking))
    (Some (v3_numsKey v)) (Some (v3_merkleRoot v))
    (Some [{| tls_leafVersion := 0xc0; tls_script := leaf_script leaf; tls_controlBlock := controlBlock |}]).

Record DeployParams := {
  dp_network : btc_network; dp_chainIdentity : string; dp_policyVersion : Z; dp_ticker : string;
  dp_tokenNonce : list byte; dp_guardianXOnly : list byte; dp_recoveryKeyXOnly : list byte;
  dp_recoveryProfile : option VaultRecoveryProfile; dp_deployerInputs : list ResolvedInput;
  dp_deployerChangeScript : list byte; dp_creatorScript : option (list byte); dp_minerFeeSats : Z;
}.
Record DeployResult := {
  dr_psbt : Psbt; dr_tokenId : list byte; dr_s0 : CoveStateV2; dr_vault : CoveVaultV3;
  dr_wire : list byte; dr_minerFeeSats : Z;
}.

Definition buildDeployPsbtV3 (params : DeployParams) : result DeployResult :=
  let creator := default (dp_deployerChangeScript params) (dp_creatorScript params) in
  tokenId ← computeTokenId sha256
    {| chainIdentity := dp_chainIdentity params; policyVersion := dp_policyVersion params;
       Wire.ticker := dp_ticker params; Wire.tokenNonce := dp_tokenNonce params; creatorScript := creator |};
  s0 ← s0StateV2 (toHex tokenId);
  vault ← buildBackingVaultV3 s0 (dp_guardianXOnly params) (dp_recoveryKeyXOnly params)
            (dp_recoveryProfile params) (Some (dp_network params));
  wire ← encodeDeployV2 COVE_POLICY_V3 (dp_ticker params) (dp_tokenNonce params);
  psbt ← add_inputs new_psbt (dp_deployerInputs params);
  psbt ← add_outputs psbt [(op_return wire, 0); (v3_scriptPubKey vault, RESERVE_ANCHOR_SATS);
                           (creator, CREATOR_RECORD_SATS)];
  let totalIn := inputs_value (dp_deployerInputs params) in
  let change := totalIn - RESERVE_ANCHOR_SATS - CREATOR_RECORD_SATS - dp_minerFeeSats params in
  throw_if (change <? 0) (js_error "insufficient deployer funds");;
  '(psbt, settled) ← addChangeOrAbsorb psbt (dp_deployerChangeScript params) change (dp_minerFeeSats params);
  Ok {| dr_psbt := psbt; dr_tokenId := tokenId; dr_s0 := s0; dr_vault := vault; dr_wire := wire;
        dr_minerFeeSats := st_minerFeeSats settled |}.

Record MintParams := {
  mp_network : btc_network; mp_tokenId : list byte; mp_prevState : CoveStateV2;
  mp_prevBacking : ResolvedInput; mp_mintAmountAtoms : Z; mp_guardianXOnly : list byte;
  mp_recoveryKeyXOnly : list byte; mp_recoveryProfile : option VaultRecoveryProfile;
  mp_buyerInputs : list ResolvedInput; mp_buyerCarrierScript : list byte;
  mp_buyerChangeScript : list byte; mp_feeScript : list byte; mp_creatorScript : list byte;
  mp_creatorFeeBps : option Z; mp_minerFeeSats : Z; mp_buyFeeBps : option Z;
  mp_buyFeeFlatSats : option Z; mp_discoveryEnvelope : option string;
}.
Record MintBuilt := {
  mb_psbt : Psbt; mb_prevVault : CoveVaultV3; mb_nextState : CoveStateV2; mb_nextVault : CoveVaultV3;
  mb_grossSats : Z; mb_buyFeeSats : Z; mb_creatorFeeSats : Z; mb_wire : list byte;
  mb_stateInputIndex : Z; mb_minerFeeSats : Z;
}.

(** The advisory message, last. *)
Definition add_discovery (psbt : Psbt) (wire : list byte) (ticker : option string) : result Psbt :=
  match ticker with
  | None => Ok psbt
  | Some ticker =>
      envelope ← decodeV2 wire;
      discovery ← encodeDiscovery envelope (Some ticker);
      addOutput psbt (op_return discovery) 0
  end.

Definition buildMintPsbtV3 (params : MintParams) : result MintBuilt :=
  canonical ← applyMintV2 (mp_prevState params) (mp_mintAmountAtoms params);
  let vault state := buildBackingVaultV3 state (mp_guardianXOnly params) (mp_recoveryKeyXOnly params)
                       (mp_recoveryProfile params) (Some (mp_network params)) in
  prevVault ← vault (mp_prevState params);
  nextVault ← vault (nextState canonical);
  buyFeeSats ← mintFeeSats (grossSats canonical) (mp_mintAmountAtoms params)
    (default (buyFeeBps COVE_FEE_CONFIG) (mp_buyFeeBps params))
    (default (buyFeeFlatSats COVE_FEE_CONFIG) (mp_buyFeeFlatSats params)) (buyFeeLotSats COVE_FEE_CONFIG);
  wire ← encodeMintV2 (mp_tokenId params) (mp_mintAmountAtoms params) 2;
  psbt ← addInput new_psbt (vault_input (mp_prevBacking params) prevVault (v3_mintLeaf prevVault)
                              (v3_mintControlBlock prevVault));
  psbt ← add_inputs psbt (mp_buyerInputs params);
  let successorValue := RESERVE_ANCHOR_SATS + backingSats (nextState canonical) in
  psbt ← add_outputs psbt [(op_return wire, 0); (v3_scriptPubKey nextVault, successorValue);
                           (mp_buyerCarrierScript params, TOKEN_CARRIER_SATS);
                           (mp_feeScript params, buyFeeSats)];
  creatorFee ← creatorFeeSats (grossSats canonical)
    (default (creatorFeeBps COVE_FEE_CONFIG) (mp_creatorFeeBps params));
  psbt ← add_outputs psbt [(mp_creatorScript params, creatorFee)];
  let totalIn := si_valueSats (mp_prevBacking params) + inputs_value (mp_buyerInputs params) in
  let change := totalIn - successorValue - TOKEN_CARRIER_SATS - buyFeeSats - creatorFee
                - mp_minerFeeSats params in
  throw_if (change <? 0) (js_error "insufficient buyer funds");;
  '(psbt, settled) ← addChangeOrAbsorb psbt (mp_buyerChangeScript params) change (mp_minerFeeSats params);
  psbt ← add_discovery psbt wire (mp_discoveryEnvelope params);
  Ok {| mb_psbt := psbt; mb_prevVault := prevVault; mb_nextState := nextState canonical;
        mb_nextVault := nextVault; mb_grossSats := grossSats canonical; mb_buyFeeSats := buyFeeSats;
        mb_creatorFeeSats := creatorFee; mb_wire := wire; mb_stateInputIndex := 0;
        mb_minerFeeSats := st_minerFeeSats settled |}.

Record TransferOutput := { xo_script : list byte; xo_amountAtoms : Z }.
Record BtcOutput := { bo_script : list byte; bo_valueSats : Z }.
Record TransferParams := {
  tp_tokenId : list byte; tp_tokenInputs : list ResolvedInput; tp_tokenInputTotalAtoms : Z;
  tp_tokenOutputs : list TransferOutput; tp_funderInputs : list ResolvedInput;
  tp_funderChangeScript : list byte; tp_btcOutputs : list BtcOutput; tp_minerFeeSats : Z;
}.
Record TransferBuilt := {
  tb_psbt : Psbt; tb_wire : list byte; tb_allocations : list TokenAllocation;
  tb_tokenOutputs : list (Z * TransferOutput); tb_minerFeeSats : Z;
}.

(** [tokenOutputs.map((o, i) => ({ vout: i + 1, amount: o.amountAtoms }))] *)
Definition transfer_allocations (outs : list TransferOutput) : list TokenAllocation :=
  imap (λ i o, Alloc (Z.of_nat i + 1) (xo_amountAtoms o)) outs.

Definition buildTransferPsbtV2 (params : TransferParams) : result TransferBuilt :=
  let outs := tp_tokenOutputs params in
  throw_if (length outs =? 0)%nat (js_error "no token outputs");;
  throw_if (4 <? length outs)%nat (js_error "max 4 token outputs");;
  let tokenOutTotal := foldl (λ s o, s + xo_amountAtoms o) 0 outs in
  throw_if (negb (tokenOutTotal =? tp_tokenInputTotalAtoms params))
    (js_error ("token conservation violated: in=" +:+ pretty (tp_tokenInputTotalAtoms params)
               +:+ " out=" +:+ pretty tokenOutTotal));;
  wire ← encodeTransferV2 (tp_tokenId params) (transfer_allocations outs);
  let inputs := tp_tokenInputs params ++ tp_funderInputs params in
  psbt ← add_inputs new_psbt inputs;
  psbt ← add_outputs psbt [(op_return wire, 0)];
  let tokenOutputs := imap (λ i o, (Z.of_nat (length (psbt_outputs psbt) + i), o)) outs in
  psbt ← add_outputs psbt ((λ o, (xo_script o, TOKEN_CARRIER_SATS)) <$> outs);
  psbt ← add_outputs psbt ((λ o, (bo_script o, bo_valueSats o)) <$> tp_btcOutputs params);
  let totalIn := inputs_value inputs in
  let carriersOut := Z.of_nat (length outs) * TOKEN_CARRIER_SATS in
  let btcOut := foldl (λ s o, s + bo_valueSats o) 0 (tp_btcOutputs params) in
  let change := totalIn - carriersOut - btcOut - tp_minerFeeSats params in
  throw_if (change <? 0) (js_error "insufficient transfer funds");;
  '(psbt, settled) ← addChangeOrAbsorb psbt (tp_funderChangeScript params) change (tp_minerFeeSats params);
  Ok {| tb_psbt := psbt; tb_wire := wire; tb_allocations := transfer_allocations outs;
        tb_tokenOutputs := tokenOutputs; tb_minerFeeSats := st_minerFeeSats settled |}.

Record RedeemParams := {
  rp_network : btc_network; rp_tokenId : list byte; rp_prevState : CoveStateV2;
  rp_prevBacking : ResolvedInput; rp_redeemAmountAtoms : Z; rp_tokenInputs : list ResolvedInput;
  rp_tokenInputTotalAtoms : Z; rp_guardianXOnly : list byte; rp_recoveryKeyXOnly : list byte;
  rp_recoveryProfile : option VaultRecoveryProfile; rp_sellerPayoutScript : list byte;
  rp_sellerChangeScript : list byte; rp_feeScript : list byte; rp_minerFeeSats : Z;
  rp_funderInputs : option (list ResolvedInput); rp_funderChangeScript : option (list byte);
  rp_redeemFeeBps : option Z; rp_redeemFeeFlatSats : option Z;
}.
Record RedeemBuilt := {
  rb_psbt : Psbt; rb_prevVault : CoveVaultV3; rb_nextState : CoveStateV2; rb_nextVault : CoveVaultV3;
  rb_grossSats : Z; rb_redeemFeeSats : Z; rb_netSats : Z; rb_changeAtoms : Z; rb_wire : list byte;
  rb_minerFeeSats : Z;
}.

Definition insufficient_redeem (short : Z) (carriers : list ResolvedInput) : exn :=
  js_error ("insufficient redeem funds: need " +:+ pretty short
            +:+ " more sats; add a BTC funding input (carriers alone cover only "
            +:+ pretty (Z.of_nat (length carriers) * 1000) +:+ " sats)").

Definition buildRedeemPsbtV3 (params : RedeemParams) : result RedeemBuilt :=
  canonical ← applyRedeemV2 (rp_prevState params) (rp_redeemAmountAtoms params);
  let vault state := buildBackingVaultV3 state (rp_guardianXOnly params) (rp_recoveryKeyXOnly params)
                       (rp_recoveryProfile params) (Some (rp_network params)) in
  prevVault ← vault (rp_prevState params);
  nextVault ← vault (nextState canonical);
  redeemFee ← redeemFeeSats (grossSats canonical)
    (default (redeemFeeBps COVE_FEE_CONFIG) (rp_redeemFeeBps params))
    (default (redeemFeeFlatSats COVE_FEE_CONFIG) (rp_redeemFeeFlatSats params))
    (redeemFeeMinSats COVE_FEE_CONFIG);
  let netSats := grossSats canonical - redeemFee in
  let changeAtoms := rp_tokenInputTotalAtoms params - rp_redeemAmountAtoms params in
  throw_if (changeAtoms <? 0) (js_error "redeem exceeds token input");;
  wire ← encodeRedeemV2 (rp_tokenId params) (rp_redeemAmountAtoms params)
    (if 0 <? changeAtoms then [Alloc 4 changeAtoms] else []);
  psbt ← addInput new_psbt (vault_input (rp_prevBacking params) prevVault (v3_redeemLeaf prevVault)
                              (v3_redeemControlBlock prevVault));
  psbt ← add_inputs psbt (rp_tokenInputs params);
  let funders := default [] (rp_funderInputs params) in
  psbt ← add_inputs psbt funders;
  let successorValue := RESERVE_ANCHOR_SATS + backingSats (nextState canonical) in
  psbt ← add_outputs psbt
    ([(op_return wire, 0); (v3_scriptPubKey nextVault, successorValue);
      (rp_sellerPayoutScript params, netSats); (rp_feeScript params, redeemFee)]
     ++ (if 0 <? changeAtoms then [(rp_sellerChangeScript params, TOKEN_CARRIER_SATS)] else []));
  let totalIn := si_valueSats (rp_prevBacking params) + inputs_value (rp_tokenInputs params)
                 + inputs_value funders in
  let changeCarrierValue := if 0 <? changeAtoms then TOKEN_CARRIER_SATS else 0 in
  let change := totalIn - successorValue - netSats - redeemFee - changeCarrierValue
                - rp_minerFeeSats params in
  throw_if (change <? 0) (insufficient_redeem (- change) (rp_tokenInputs params));;
  '(psbt, settled) ← addChangeOrAbsorb psbt
    (default (rp_sellerChangeScript params) (rp_funderChangeScript params)) change (rp_minerFeeSats params);
  Ok {| rb_psbt := psbt; rb_prevVault := prevVault; rb_nextState := nextState canonical;
        rb_nextVault := nextVault; rb_grossSats := grossSats canonical; rb_redeemFeeSats := redeemFee;
        rb_netSats := netSats; rb_changeAtoms := changeAtoms; rb_wire := wire;
        rb_minerFeeSats := st_minerFeeSats settled |}.
End Builder.
