(* ===== verification/BuilderInv.v ===== *)
(** * What the builders build

    The PSBTs of [Builder] in closed form, the miner fee they report, and the
    agreement of the mint builder with the Guardian's validator. *)
From S2P Require Import Prelude Bytes Curve Economics Wire Discovery Covenant Simplicity Vault Indexer IndexerInv Spend Guardian GuardianInv Builder.

Section Built.
Context {C : Crypto} {J : BitcoinJs} {P : PsbtBuilder}.

Definition to_out (o : list byte * Z) : TxOut := {| txo_script := o.1; txo_value := o.2 |}.

Lemma psbt_with_nil p : psbt_with p [] [] = p.
Proof. unfold psbt_with. rewrite !app_nil_r. by destruct p. Qed.

Lemma psbt_with_with p a b c d : psbt_with (psbt_with p a b) c d = psbt_with p (a ++ c) (b ++ d).
Proof. unfold psbt_with. cbn. by rewrite !app_assoc. Qed.

Lemma add_outputs_Ok outs p p' : add_outputs p outs = Ok p' → p' = psbt_with p [] (to_out <$> outs).
Proof.
  revert p. induction outs as [|[s v] outs IH]; intros p H; cbn [add_outputs] in H.
  - injection H as <-. by rewrite psbt_with_nil.
  - apply bind_Ok in H as (p1 & ->%addOutput_appends & ->%IH). by rewrite psbt_with_with.
Qed.

(** The output a wallet input spends. *)
Definition resolved_utxo (i : SpendableInput) : TxOut :=
  {| txo_script := si_script i; txo_value := si_valueSats i |}.

(** A PSBT input made from a resolved input. *)
Definition input_of (i : SpendableInput) (inp : PsbtInput) : Prop :=
  psi_txin inp = {| in_hash := reverse (fromHex (si_txid i)); in_index := si_vout i |}
  ∧ psi_witnessUtxo inp = Some (resolved_utxo i).

Lemma psbtInputFor_Ok i inp : psbtInputFor i = Ok inp → input_of i inp.
Proof.
  unfold psbtInputFor, input_of. intros H. res_inv H. destruct v; res_inv H; by subst inp.
Qed.

Lemma add_inputs_Ok ins p p' :
  add_inputs p ins = Ok p' → ∃ l, p' = psbt_with p l [] ∧ Forall2 input_of ins l.
Proof.
  revert p. induction ins as [|i ins IH]; intros p H; cbn [add_inputs] in H.
  - injection H as <-. exists []. split; [by rewrite psbt_with_nil|constructor].
  - apply bind_Ok in H as (inp & Hi%psbtInputFor_Ok & H).
    apply bind_Ok in H as (p1 & ->%addInput_appends & (l & -> & Hl)%IH).
    exists (inp :: l). rewrite psbt_with_with. split; [done|]. by constructor.
Qed.

Definition outs_value (l : list TxOut) : Z := zsum (txo_value <$> l).
Definition ins_value (l : list PsbtInput) : Z := zsum ((λ i, default 0 (txo_value <$> psi_witnessUtxo i)) <$> l).

Lemma outs_value_app l k : outs_value (l ++ k) = outs_value l + outs_value k.
Proof. unfold outs_value. by rewrite fmap_app, zsum_app. Qed.

Lemma ins_value_app l k : ins_value (l ++ k) = ins_value l + ins_value k.
Proof. unfold ins_value. by rewrite fmap_app, zsum_app. Qed.

Lemma ins_value_of ins l : Forall2 input_of ins l → ins_value l = inputs_value ins.
Proof.
  unfold ins_value, inputs_value. intros H. rewrite foldl_add_zsum, Z.add_0_l. f_equal.
  induction H as [|i inp ins l [_ Hu] _ IH]; [done|]. rewrite !fmap_cons, Hu, IH. done.
Qed.

Lemma miner_fee_value psbt : miner_fee psbt = ins_value (psbt_inputs psbt) - outs_value (psbt_outputs psbt).
Proof.
  unfold miner_fee, readPsbtInputs, readPsbtOutputs, ins_value, outs_value.
  rewrite !foldl_add_zsum, !fmap_imap, !Z.add_0_l. f_equal; f_equal; by rewrite <-imap_const.
Qed.

(** The change output, if any. *)
Definition change_outs (script : list byte) (settled : Settled) : list TxOut :=
  if 0 <? st_changeSats settled then [{| txo_script := script; txo_value := st_changeSats settled |}] else [].

(** The change is paid out or absorbed; less than the dust threshold is absorbed. *)
Lemma addChangeOrAbsorb_Ok p script change fee p' s :
  0 ≤ change → addChangeOrAbsorb p script change fee = Ok (p', s) →
  p' = psbt_with p [] (change_outs script s)
  ∧ st_minerFeeSats s + outs_value (change_outs script s) = fee + change
  ∧ fee ≤ st_minerFeeSats s ≤ fee + Z.max 0 (dustThreshold script DUST_RELAY_FEE_SAT_PER_KVB - 1).
Proof.
  unfold addChangeOrAbsorb, change_outs. intros Hc H. pose proof (dustThreshold_nonneg script).
  destruct (Z.leb_spec change 0) as [Hle|Hgt].
  - injection H as <- <-. cbn. rewrite psbt_with_nil. split_and!; [done|lia..].
  - destruct (Z.leb_spec (dustThreshold script DUST_RELAY_FEE_SAT_PER_KVB) change) as [Hd|Hd].
    + apply bind_Ok in H as (p1 & ->%addOutput_appends & H). injection H as <- <-. cbn [st_changeSats st_minerFeeSats].
      destruct (Z.ltb_spec 0 change); [|lia]. unfold outs_value. cbn. split_and!; [done|lia..].
    + injection H as <- <-. cbn. rewrite psbt_with_nil. split_and!; [done|lia..].
Qed.

Definition op_return_out (payload : list byte) : TxOut := {| txo_script := op_return payload; txo_value := 0 |}.

Lemma outs_value_cons o l : outs_value (o :: l) = txo_value o + outs_value l.
Proof. done. Qed.

(** The advisory message of a mint: none, or one last output. *)
Definition discovery_outs (wire : list byte) (ticker : option string) (outs : list TxOut) : Prop :=
  match ticker with
  | None => outs = []
  | Some t => ∃ e d, decodeV2 wire = Ok e ∧ encodeDiscovery e (Some t) = Ok d ∧ outs = [op_return_out d]
  end.

Lemma add_discovery_Ok p wire ticker p' :
  add_discovery p wire ticker = Ok p' → ∃ outs, p' = psbt_with p [] outs ∧ discovery_outs wire ticker outs.
Proof.
  unfold add_discovery, discovery_outs. destruct ticker as [t|].
  - intros H. apply bind_Ok in H as (e & He & H). apply bind_Ok in H as (d & Hd & ->%addOutput_appends).
    eexists. split; [done|]. by exists e, d.
  - intros [= <-]. exists []. by rewrite psbt_with_nil.
Qed.

(** The fee a builder reports: what the transaction pays, at least what was
    asked for, and above it by less than the dust threshold of the change. *)
Definition pays_fee (psbt : Psbt) (asked reported : Z) (changeScript : list byte) : Prop :=
  reported = miner_fee psbt
  ∧ asked ≤ reported ≤ asked + Z.max 0 (dustThreshold changeScript DUST_RELAY_FEE_SAT_PER_KVB - 1).

(** The vaults of a built transition. *)
Definition mint_vault (params : MintParams) (s : CoveStateV2) : result CoveVaultV3 :=
  buildBackingVaultV3 s (mp_guardianXOnly params) (mp_recoveryKeyXOnly params) (mp_recoveryProfile params)
    (Some (mp_network params)).

Record mint_built (params : MintParams) (r : MintBuilt) : Prop := {
  mbt_transition : applyMintV2 (mp_prevState params) (mp_mintAmountAtoms params)
                   = Ok {| nextState := mb_nextState r; grossSats := mb_grossSats r |};
  mbt_prevVault : mint_vault params (mp_prevState params) = Ok (mb_prevVault r);
  mbt_nextVault : mint_vault params (mb_nextState r) = Ok (mb_nextVault r);
  mbt_fee : mintFeeSats (mb_grossSats r) (mp_mintAmountAtoms params)
      (default (buyFeeBps COVE_FEE_CONFIG) (mp_buyFeeBps params))
      (default (buyFeeFlatSats COVE_FEE_CONFIG) (mp_buyFeeFlatSats params)) (buyFeeLotSats COVE_FEE_CONFIG)
    = Ok (mb_buyFeeSats r);
  mbt_creatorFee : creatorFeeSats (mb_grossSats r)
      (default (creatorFeeBps COVE_FEE_CONFIG) (mp_creatorFeeBps params)) = Ok (mb_creatorFeeSats r);
  mbt_wire : encodeMintV2 (mp_tokenId params) (mp_mintAmountAtoms params) 2 = Ok (mb_wire r);
  mbt_psbt : ∃ buyers settled discovery,
    Forall2 input_of (mp_buyerInputs params) buyers
    ∧ discovery_outs (mb_wire r) (mp_discoveryEnvelope params) discovery
    ∧ mb_psbt r = {|
        psbt_inputs := vault_input (mp_prevBacking params) (mb_prevVault r) (v3_mintLeaf (mb_prevVault r))
                         (v3_mintControlBlock (mb_prevVault r)) :: buyers;
        psbt_outputs :=
          [op_return_out (mb_wire r);
           to_out (v3_scriptPubKey (mb_nextVault r), RESERVE_ANCHOR_SATS + backingSats (mb_nextState r));
           to_out (mp_buyerCarrierScript params, TOKEN_CARRIER_SATS);
           to_out (mp_feeScript params, mb_buyFeeSats r);
           to_out (mp_creatorScript params, mb_creatorFeeSats r)]
          ++ change_outs (mp_buyerChangeScript params) settled ++ discovery |};
  mbt_minerFee : pays_fee (mb_psbt r) (mp_minerFeeSats params) (mb_minerFeeSats r) (mp_buyerChangeScript params);
}.

Lemma vault_input_value b v leaf cb l :
  ins_value (vault_input b v leaf cb :: l) = si_valueSats b + ins_value l.
Proof. done. Qed.

Lemma discovery_outs_value wire t outs : discovery_outs wire t outs → outs_value outs = 0.
Proof. destruct t; cbn; [intros (e & d & _ & _ & ->)|intros ->]; done. Qed.

(** The reported fee from the parts of a built PSBT. *)
Ltac built_fee :=
  rewrite ?psbt_with_with, miner_fee_value; unfold psbt_with;
  cbn [psbt_inputs psbt_outputs new_psbt]; rewrite ?app_nil_r; cbn [app fmap list_fmap];
  rewrite ?vault_input_value, ?ins_value_app;
  repeat match goal with H : Forall2 input_of _ _ |- _ => rewrite (ins_value_of _ _ H); clear H end;
  repeat (rewrite outs_value_cons || rewrite outs_value_app);
  repeat match goal with H : discovery_outs _ _ _ |- _ => rewrite (discovery_outs_value _ _ _ H); clear H end;
  cbn [txo_value to_out op_return_out fst snd] in *; lia.

Lemma buildMint_Ok params r : buildMintPsbtV3 params = Ok r → mint_built params r.
Proof.
  unfold buildMintPsbtV3. intros H.
  apply bind_Ok in H as ([next gross] & Hap & H). apply bind_Ok in H as (pv & Hpv & H).
  apply bind_Ok in H as (nv & Hnv & H). apply bind_Ok in H as (fee & Hfee & H).
  apply bind_Ok in H as (wire & Hw & H). apply bind_Ok in H as (p1 & ->%addInput_appends & H).
  apply bind_Ok in H as (p2 & (l & -> & Hl)%add_inputs_Ok & H). cbn [nextState grossSats] in *.
  apply bind_Ok in H as (p3 & ->%add_outputs_Ok & H). apply bind_Ok in H as (cfee & Hcf & H).
  apply bind_Ok in H as (p4 & ->%add_outputs_Ok & H). apply bind_Ok in H as (_ & Hc%throw_if_Ok & H).
  apply bind_Ok in H as ([p5 s] & Hs & H). apply Z.ltb_ge in Hc.
  apply addChangeOrAbsorb_Ok in Hs as (-> & Hval & Hb); [|done]. cbn beta iota in H.
  apply bind_Ok in H as (p6 & (d & -> & Hd)%add_discovery_Ok & H). injection H as <-.
  split; try done; cbn [mb_psbt mb_wire mb_prevVault mb_nextVault mb_buyFeeSats mb_creatorFeeSats mb_nextState
    mb_minerFeeSats].
  - exists l, s, d. rewrite !psbt_with_with. unfold psbt_with. rewrite !app_nil_r. done.
  - split; [built_fee|done].
Qed.

Lemma buildDeploy_fee params r :
  buildDeployPsbtV3 params = Ok r →
  pays_fee (dr_psbt r) (dp_minerFeeSats params) (dr_minerFeeSats r) (dp_deployerChangeScript params).
Proof.
  unfold buildDeployPsbtV3. intros H.
  apply bind_Ok in H as (t & _ & H). apply bind_Ok in H as (s0 & _ & H). apply bind_Ok in H as (v & _ & H).
  apply bind_Ok in H as (w & _ & H). apply bind_Ok in H as (p1 & (l & -> & Hl)%add_inputs_Ok & H).
  apply bind_Ok in H as (p2 & ->%add_outputs_Ok & H). apply bind_Ok in H as (_ & Hc%throw_if_Ok & H).
  apply bind_Ok in H as ([p3 s] & Hs & H). apply Z.ltb_ge in Hc.
  apply addChangeOrAbsorb_Ok in Hs as (-> & Hval & Hb); [|done]. injection H as <-.
  split; [cbn [dr_psbt dr_minerFeeSats]; built_fee|done].
Qed.

Lemma outs_value_transfer (outs : list TransferOutput) :
  outs_value (to_out <$> ((λ o, (xo_script o, TOKEN_CARRIER_SATS)) <$> outs))
  = Z.of_nat (length outs) * TOKEN_CARRIER_SATS.
Proof. induction outs as [|o outs IH]; [done|]. rewrite !fmap_cons, outs_value_cons, IH. cbn [txo_value to_out snd length]. lia. Qed.

Lemma outs_value_btc (outs : list BtcOutput) :
  outs_value (to_out <$> ((λ o, (bo_script o, bo_valueSats o)) <$> outs)) = foldl (λ s o, s + bo_valueSats o) 0 outs.
Proof.
  rewrite foldl_add_zsum, Z.add_0_l. induction outs as [|o outs IH]; [done|].
  rewrite !fmap_cons, outs_value_cons, IH. done.
Qed.

Lemma buildTransfer_fee params r :
  buildTransferPsbtV2 params = Ok r →
  pays_fee (tb_psbt r) (tp_minerFeeSats params) (tb_minerFeeSats r) (tp_funderChangeScript params).
Proof.
  unfold buildTransferPsbtV2. intros H. do 3 (apply bind_Ok in H as (_ & _ & H)).
  apply bind_Ok in H as (w & _ & H). apply bind_Ok in H as (p1 & (l & -> & Hl)%add_inputs_Ok & H).
  apply bind_Ok in H as (p2 & ->%add_outputs_Ok & H). apply bind_Ok in H as (p3 & ->%add_outputs_Ok & H).
  apply bind_Ok in H as (p4 & ->%add_outputs_Ok & H). apply bind_Ok in H as (_ & Hc%throw_if_Ok & H).
  apply bind_Ok in H as ([p5 s] & Hs & H). apply Z.ltb_ge in Hc.
  apply addChangeOrAbsorb_Ok in Hs as (-> & Hval & Hb); [|done]. injection H as <-.
  split; [|done]. cbn [tb_psbt tb_minerFeeSats]. rewrite !psbt_with_with, miner_fee_value. unfold psbt_with.
  cbn [psbt_inputs psbt_outputs new_psbt]. rewrite !app_nil_r. cbn [app].
  rewrite (ins_value_of _ _ Hl), outs_value_cons, !outs_value_app, outs_value_transfer, outs_value_btc.
  cbn [txo_value to_out snd]. lia.
Qed.

Definition redeem_vault (params : RedeemParams) (s : CoveStateV2) : result CoveVaultV3 :=
  buildBackingVaultV3 s (rp_guardianXOnly params) (rp_recoveryKeyXOnly params) (rp_recoveryProfile params)
    (Some (rp_network params)).

Definition redeem_change_script (params : RedeemParams) : list byte :=
  default (rp_sellerChangeScript params) (rp_funderChangeScript params).

Record redeem_built (params : RedeemParams) (r : RedeemBuilt) : Prop := {
  rbt_transition : applyRedeemV2 (rp_prevState params) (rp_redeemAmountAtoms params)
                   = Ok {| nextState := rb_nextState r; grossSats := rb_grossSats r |};
  rbt_prevVault : redeem_vault params (rp_prevState params) = Ok (rb_prevVault r);
  rbt_nextVault : redeem_vault params (rb_nextState r) = Ok (rb_nextVault r);
  rbt_fee : redeemFeeSats (rb_grossSats r)
      (default (redeemFeeBps COVE_FEE_CONFIG) (rp_redeemFeeBps params))
      (default (redeemFeeFlatSats COVE_FEE_CONFIG) (rp_redeemFeeFlatSats params))
      (redeemFeeMinSats COVE_FEE_CONFIG) = Ok (rb_redeemFeeSats r);
  rbt_net : rb_netSats r = rb_grossSats r - rb_redeemFeeSats r;
  rbt_change : rb_changeAtoms r = rp_tokenInputTotalAtoms params - rp_redeemAmountAtoms params ∧ 0 ≤ rb_changeAtoms r;
  rbt_wire : encodeRedeemV2 (rp_tokenId params) (rp_redeemAmountAtoms params)
      (if 0 <? rb_changeAtoms r then [Alloc 4 (rb_changeAtoms r)] else []) = Ok (rb_wire r);
  rbt_psbt : ∃ carriers funders settled,
    Forall2 input_of (rp_tokenInputs params) carriers
    ∧ Forall2 input_of (default [] (rp_funderInputs params)) funders
    ∧ rb_psbt r = {|
        psbt_inputs := vault_input (rp_prevBacking params) (rb_prevVault r) (v3_redeemLeaf (rb_prevVault r))
                         (v3_redeemControlBlock (rb_prevVault r)) :: carriers ++ funders;
        psbt_outputs :=
          [op_return_out (rb_wire r);
           to_out (v3_scriptPubKey (rb_nextVault r), RESERVE_ANCHOR_SATS + backingSats (rb_nextState r));
           to_out (rp_sellerPayoutScript params, rb_netSats r);
           to_out (rp_feeScript params, rb_redeemFeeSats r)]
          ++ (if 0 <? rb_changeAtoms r then [to_out (rp_sellerChangeScript params, TOKEN_CARRIER_SATS)] else [])
          ++ change_outs (redeem_change_script params) settled |};
  rbt_minerFee : pays_fee (rb_psbt r) (rp_minerFeeSats params) (rb_minerFeeSats r) (redeem_change_script params);
}.

Lemma buildRedeem_Ok params r : buildRedeemPsbtV3 params = Ok r → redeem_built params r.
Proof.
  unfold buildRedeemPsbtV3. intros H.
  apply bind_Ok in H as ([next gross] & Hap & H). apply bind_Ok in H as (pv & Hpv & H).
  apply bind_Ok in H as (nv & Hnv & H). apply bind_Ok in H as (fee & Hfee & H). cbn [nextState grossSats] in *.
  apply bind_Ok in H as (_ & Hch%throw_if_Ok & H). apply Z.ltb_ge in Hch.
  apply bind_Ok in H as (wire & Hw & H). apply bind_Ok in H as (p1 & ->%addInput_appends & H).
  apply bind_Ok in H as (p2 & (l & -> & Hl)%add_inputs_Ok & H).
  apply bind_Ok in H as (p3 & (k & -> & Hk)%add_inputs_Ok & H).
  apply bind_Ok in H as (p4 & ->%add_outputs_Ok & H). apply bind_Ok in H as (_ & Hc%throw_if_Ok & H).
  apply bind_Ok in H as ([p5 s] & Hs & H). apply Z.ltb_ge in Hc.
  apply addChangeOrAbsorb_Ok in Hs as (-> & Hval & Hb); [|done]. injection H as <-.
  split; try done; cbn [rb_psbt rb_wire rb_prevVault rb_nextVault rb_redeemFeeSats rb_nextState rb_grossSats
    rb_minerFeeSats rb_netSats rb_changeAtoms].
  - exists l, k, s. split_and!; [done..|]. rewrite !psbt_with_with. unfold psbt_with. rewrite !app_nil_r.
    destruct (0 <? _); done.
  - split; [|done]. destruct (0 <? _); built_fee.
Qed.

(** the miner fee a builder reports is the fee its transaction pays (inputs
    minus outputs), for all four operations: never less than the fee asked for,
    and more only by a change below the dust threshold of its script. *)
Theorem builders_report_fee :
  (∀ params r, buildDeployPsbtV3 params = Ok r →
     pays_fee (dr_psbt r) (dp_minerFeeSats params) (dr_minerFeeSats r) (dp_deployerChangeScript params))
  ∧ (∀ params r, buildMintPsbtV3 params = Ok r →
     pays_fee (mb_psbt r) (mp_minerFeeSats params) (mb_minerFeeSats r) (mp_buyerChangeScript params))
  ∧ (∀ params r, buildTransferPsbtV2 params = Ok r →
     pays_fee (tb_psbt r) (tp_minerFeeSats params) (tb_minerFeeSats r) (tp_funderChangeScript params))
  ∧ (∀ params r, buildRedeemPsbtV3 params = Ok r →
     pays_fee (rb_psbt r) (rp_minerFeeSats params) (rb_minerFeeSats r) (redeem_change_script params)).
Proof.
  split_and!.
  - apply buildDeploy_fee.
  - intros. by apply mbt_minerFee, buildMint_Ok.
  - apply buildTransfer_fee.
  - intros. by apply rbt_minerFee, buildRedeem_Ok.
Qed.
End Built.

(** ** A built transition is signed *)
Section Signable.
Context {C : Crypto} {J : BitcoinJs} {P : PsbtBuilder}.
Context (execFile : string → list string → Z → exec_outcome) (bin : option string).

(** A message in an OP_RETURN output is read back. *)
Lemma decode_push_op_return e p :
  valid_envelope e → p = envelope_bytes e → decode_push (op_return p) = Ok e.
Proof.
  intros Hv ->. pose proof (blen_envelope_small e Hv) as Hl. unfold decode_push, op_return. cbn [app].
  rewrite subarray_push, at_is_0.
  change (byte_at (to_byte 0x6a :: to_byte (blen (envelope_bytes e)) :: envelope_bytes e) 1)
    with (Some (u8 (to_byte (blen (envelope_bytes e))))). cbn [default]. unfold id.
  rewrite !u8_to_byte_small by lia.
  guard_step ltac:(autorewrite with cove_len; lia). guard_step ltac:(autorewrite with cove_len; lia).
  by apply decodeV2_envelope_bytes.
Qed.

Lemma opReturnPayload_op_return p : blen p ≤ 75 → opReturnPayload (op_return p) = Some p.
Proof.
  intros Hl. pose proof (blen_nonneg p). unfold opReturnPayload, op_return. cbn [app].
  rewrite subarray_push, at_is_0.
  change (byte_at (to_byte 0x6a :: to_byte (blen p) :: p) 1) with (Some (u8 (to_byte (blen p)))).
  cbn [default]. unfold id. rewrite !u8_to_byte_small by lia.
  destruct (Z.ltb_spec (blen (to_byte 106 :: to_byte (blen p) :: p)) 2) as [Hlt|_];
    [autorewrite with cove_len in Hlt; lia|].
  destruct (Z.ltb_spec 0x4b (blen p)); [lia|].
  destruct (Z.eqb_spec (blen (to_byte 106 :: to_byte (blen p) :: p)) (2 + blen p)) as [_|Hne];
    [|autorewrite with cove_len in Hne; lia]. done.
Qed.

Lemma opReturnPayload_other script : at_is script 0 0x6a = false → opReturnPayload script = None.
Proof. unfold opReturnPayload. intros ->. by rewrite orb_true_r. Qed.

Lemma last_outputs psbt o :
  last (psbt_outputs psbt) = Some o → ∃ v, last (readPsbtOutputs psbt) = Some {| pov_vout := v;
    pov_script := txo_script o; pov_value := txo_value o |}.
Proof.
  rewrite !last_lookup, readPsbtOutputs_length. unfold readPsbtOutputs. rewrite list_lookup_imap.
  intros ->. by eexists.
Qed.

(** Without a discovery message at the end, none is found. *)
Lemma no_discovery_output psbt e t o :
  last (psbt_outputs psbt) = Some o → at_is (txo_script o) 0 0x6a = false →
  checkDiscoveryOutput (readPsbtOutputs psbt) e t = no_discovery.
Proof.
  intros (v & Hv)%last_outputs Ho. unfold checkDiscoveryOutput. rewrite Hv. cbn [pov_script].
  rewrite opReturnPayload_other by done. by destruct (_ <? 2)%nat.
Qed.

Lemma agreeing_discovery_output psbt e t d outs :
  psbt_outputs psbt = outs ++ [op_return_out d] → outs ≠ [] → encodeDiscovery e (Some t) = Ok d → blen d ≤ 75 →
  checkDiscoveryOutput (readPsbtOutputs psbt) e (Some t)
  = {| doc_present := true; doc_agrees := true; doc_allowance := 1; doc_reason := None |}.
Proof.
  intros Eo Hne He Hl. destruct (last_outputs psbt (op_return_out d)) as (v & Hv).
  { by rewrite Eo, last_snoc. }
  unfold checkDiscoveryOutput. rewrite Hv, readPsbtOutputs_length, Eo, length_app. cbn [pov_script pov_value].
  cbn [op_return_out txo_script txo_value]. rewrite opReturnPayload_op_return by done.
  destruct outs as [|o0 outs]; [done|]. cbn [length]. destruct (Nat.ltb_spec (S (length outs) + 1) 2); [lia|].
  destruct (decodeDiscovery_encoded _ _ _ He) as (tick & _ & ->). cbn [negb Z.eqb].
  unfold discoveryAgreesWithBinary. rewrite He. by rewrite (proj2 (bytes_eqb_true d d)).
Qed.

(** A transaction id as the node writes it. *)
Definition txid_text (t : string) : Prop := toHex (fromHex t) = t.

Definition resolved_outpoint (i : SpendableInput) : OutPoint :=
  {| op_txid := si_txid i; op_vout := si_vout i |}.

Lemma input_of_outpoint i inp :
  txid_text (si_txid i) → input_of i inp → txin_outpoint (psi_txin inp) = resolved_outpoint i.
Proof.
  intros Ht [E _]. unfold txin_outpoint, in_txid, resolved_outpoint. rewrite E. cbn [in_hash in_index].
  by rewrite reverse_involutive, Ht.
Qed.

Definition funder_ok (vp : ValidateParams) (i : SpendableInput) : Prop :=
  txid_text (si_txid i) ∧ view_getTokenUtxo (vp_view vp) (resolved_outpoint i) = None
  ∧ vp_fundingChecker vp (resolved_outpoint i) = Ok FundingOk.

Lemma length_change_outs script s : (length (change_outs script s) ≤ 1)%nat.
Proof. unfold change_outs. destruct (0 <? _); cbn; lia. Qed.

Lemma last_change_outs l o script s :
  at_is script 0 0x6a = false → at_is (txo_script o) 0 0x6a = false →
  ∃ o', last (l ++ [o] ++ change_outs script s) = Some o' ∧ at_is (txo_script o') 0 0x6a = false.
Proof.
  intros Hs Ho. unfold change_outs. destruct (0 <? _).
  - eexists. by rewrite app_assoc, last_snoc.
  - exists o. rewrite app_nil_r. by rewrite last_snoc.
Qed.

(** The transaction is built for the Guardian that is asked to sign it. *)
Record mint_request (vp : ValidateParams) (params : MintParams) : Prop := {
  mr_network : guardian_network (vp_network vp) = mp_network params;
  mr_profile : mainnet_without_profile vp = false;
  mr_guardian : vp_guardianXOnly vp = mp_guardianXOnly params;
  mr_recovery : vp_recoveryKeyXOnly vp = mp_recoveryKeyXOnly params;
  mr_recoveryProfile : vp_recoveryProfile vp = mp_recoveryProfile params;
  mr_feeScript : vp_feeScript vp = mp_feeScript params;
  mr_buyFeeBps : fs_buyFeeBps (vp_fees vp) = mp_buyFeeBps params;
  mr_buyFeeFlat : fs_buyFeeFlatSats (vp_fees vp) = mp_buyFeeFlatSats params;
  mr_creatorFeeBps : fs_creatorFeeBps (vp_fees vp) = mp_creatorFeeBps params;
  mr_ticker : vp_discoveryTicker vp = mp_discoveryEnvelope params;
  mr_state : view_getCurrentBackingState (vp_view vp) (mp_tokenId params) = Some (mp_prevState params);
  mr_outpoint : view_getBackingOutpoint (vp_view vp) (mp_tokenId params)
                = Some (resolved_outpoint (mp_prevBacking params));
  mr_creator : (f ← view_getTokenCreatorScript (vp_view vp); f (mp_tokenId params))
               = Some (mp_creatorScript params);
  mr_txid : txid_text (si_txid (mp_prevBacking params));
  mr_value : si_valueSats (mp_prevBacking params) = RESERVE_ANCHOR_SATS + backingSats (mp_prevState params);
  mr_funders : Forall (funder_ok vp) (mp_buyerInputs params);
  mr_carrier : isStandardCarrier (mp_buyerCarrierScript params) = true;
  mr_scripts : at_is (mp_creatorScript params) 0 0x6a = false ∧ at_is (mp_buyerChangeScript params) 0 0x6a = false;
}.

Definition mint_analysis (params : MintParams) (r : MintBuilt) : MintAnalysis := {|
  ma_tokenId := mp_tokenId params; ma_amountAtoms := mp_mintAmountAtoms params; ma_recipientVout := 2;
  ma_currentState := mp_prevState params; ma_backingOutpoint := resolved_outpoint (mp_prevBacking params);
  ma_nextState := mb_nextState r; ma_grossSats := mb_grossSats r; ma_protocolFeeSats := mb_buyFeeSats r;
  ma_creatorFeeSats := mb_creatorFeeSats r; ma_creatorScript := mp_creatorScript params;
  ma_minerFeeSats := mb_minerFeeSats r; ma_backingInputIndex := 0;
  ma_buyerInputIndices := piv_index <$> tail (readPsbtInputs (mb_psbt r)) |}.

Lemma built_outputs_end vp params r binary :
  mint_built params r → vp_psbt vp = mb_psbt r → vp_discoveryTicker vp = mp_discoveryEnvelope params →
  decodeCoveOpReturn (mb_psbt r) = Ok binary → decodeV2 (mb_wire r) = Ok binary →
  at_is (mp_creatorScript params) 0 0x6a = false → at_is (mp_buyerChangeScript params) 0 0x6a = false →
  (∀ t d, mp_discoveryEnvelope params = Some t → encodeDiscovery binary (Some t) = Ok d → blen d ≤ 75) →
  outputs_end vp 6.
Proof.
  intros Hb Ep Et Hd Hw Hc1 Hc2 Hs. exists binary. rewrite Ep, Et. split; [done|]. cbn zeta.
  destruct (mbt_psbt _ _ Hb) as (l & s & disc & _ & Hdisc & E).
  pose proof (length_change_outs (mp_buyerChangeScript params) s) as Hl.
  destruct (mp_discoveryEnvelope params) as [t|]; cbn in Hdisc.
  - destruct Hdisc as (e & d & He & Hd' & ->). assert (e = binary) as -> by congruence.
    erewrite (agreeing_discovery_output _ _ _ d);
      [|by rewrite E; cbn [psbt_outputs]; rewrite app_assoc|done|done|by eapply Hs].
    cbn [doc_present doc_agrees doc_allowance]. split; [done|]. rewrite E. cbn [psbt_outputs].
    rewrite !length_app. cbn [length]. lia.
  - subst disc. rewrite app_nil_r in E.
    destruct (last_change_outs [op_return_out (mb_wire r);
      to_out (v3_scriptPubKey (mb_nextVault r), RESERVE_ANCHOR_SATS + backingSats (mb_nextState r));
      to_out (mp_buyerCarrierScript params, TOKEN_CARRIER_SATS); to_out (mp_feeScript params, mb_buyFeeSats r)]
      (to_out (mp_creatorScript params, mb_creatorFeeSats r)) (mp_buyerChangeScript params) s Hc2 Hc1)
      as (o & Ho & Hno).
    erewrite no_discovery_output; [|by rewrite E|done]. cbn [doc_present doc_allowance no_discovery].
    split; [done|]. rewrite E. cbn [psbt_outputs]. rewrite length_app. cbn [length]. lia.
Qed.

Lemma funders_pass vp params vi l :
  psbt_inputs (vp_psbt vp) = vi :: l → Forall2 input_of params l → Forall (funder_ok vp) params →
  Forall (funding_ok vp) (imap (λ i _, Z.of_nat (S i)) l).
Proof.
  intros E Hl Hf. apply Forall_lookup. intros k z Hk. rewrite list_lookup_imap in Hk.
  destruct (l !! k) as [inp|] eqn:Ek; [|done]. injection Hk as <-.
  destruct (Forall2_lookup_r _ _ _ _ _ Hl Ek) as (i & Hi & Hof).
  rewrite Forall_lookup in Hf. destruct (Hf _ _ Hi) as (Ht & Hu & Hc).
  exists inp. rewrite Nat2Z.id, E. cbn. rewrite (input_of_outpoint _ _ Ht Hof). by split_and!.
Qed.

(** C31: what the mint builder builds, the Guardian signs.  A mint built on the
    state, the vault and the creator of the Guardian's view, with its keys and
    fees, whose fee output is no dust, whose funding inputs pass the funding
    checks and whose reported miner fee is within the limit, is accepted, with
    the analysis the builder computed: for every run of the program that
    passes.  Discovery messages are at most one direct push long. *)
Theorem built_mint_signed vp params r sim :
  buildMintPsbtV3 params = Ok r → vp_psbt vp = mb_psbt r → mint_request vp params →
  fee_settles (mb_buyFeeSats r) (mp_feeScript params) →
  0 ≤ mp_minerFeeSats params → mb_minerFeeSats r ≤ default 20000 (vp_maxMinerFeeSats vp) →
  (∀ t d, mp_discoveryEnvelope params = Some t →
     encodeDiscovery (MintV2 (mp_tokenId params) (mp_mintAmountAtoms params) 2) (Some t) = Ok d → blen d ≤ 75) →
  (∀ w, executed (executeMintV3 execFile w bin None) sim) →
  validateMintTransitionV3 execFile bin vp = Ok (VOk (AMint (mint_analysis params r)) sim).
Proof.
  intros Hb%buildMint_Ok Ep Hr Hfs Hm0 Hmax Hdisc Hx. apply validateMint_valid.
  pose proof (mbt_wire _ _ Hb) as [Hve Ew]%encodeMintV2_Ok.
  set (e := MintV2 (mp_tokenId params) (mp_mintAmountAtoms params) 2) in *.
  assert (mb_wire r = envelope_bytes e) as Ew' by done.
  destruct (mbt_psbt _ _ Hb) as (l & s & disc & Hl & Hd & E).
  assert (decodeCoveOpReturn (mb_psbt r) = Ok e) as Hdec.
  { unfold decodeCoveOpReturn. rewrite E. cbn. by apply decode_push_op_return. }
  assert (decodeV2 (mb_wire r) = Ok e) as Hdw by (rewrite Ew'; by apply decodeV2_envelope_bytes).
  destruct (mbt_minerFee _ _ Hb) as [Efee Hfee].
  assert (∀ st, transition_vault vp st = mint_vault params st) as Hvault.
  { intros st. unfold transition_vault, mint_vault.
    by rewrite (mr_guardian _ _ Hr), (mr_recovery _ _ Hr), (mr_recoveryProfile _ _ Hr), (mr_network _ _ Hr). }
  split; [by apply (mr_profile _ _ Hr)|]. split.
  { apply analyzeMint_Ok. rewrite Ep. unfold mint_analysis_of. cbn [mint_analysis ma_tokenId ma_amountAtoms
      ma_recipientVout ma_currentState ma_backingOutpoint ma_nextState ma_grossSats ma_protocolFeeSats
      ma_creatorFeeSats ma_creatorScript ma_minerFeeSats ma_backingInputIndex ma_buyerInputIndices].
    rewrite (mr_buyFeeBps _ _ Hr), (mr_buyFeeFlat _ _ Hr), (mr_creatorFeeBps _ _ Hr).
    split_and!; try done; try by destruct Hr; try by destruct Hb.
    rewrite E. eexists. split; [done|]. apply (input_of_outpoint (mp_prevBacking params)); [apply (mr_txid _ _ Hr)|done]. }
  destruct (canonical_mint_witness sha256 _ _ _ (mbt_transition _ _ Hb)) as (w & Hw & _).
  exists (mb_prevVault r), (mb_nextVault r),
    (vault_input (mp_prevBacking params) (mb_prevVault r) (v3_mintLeaf (mb_prevVault r)) (v3_mintControlBlock (mb_prevVault r))),
    (resolved_utxo (mp_prevBacking params)), (mp_buyerCarrierScript params), w.
  cbn [mint_analysis ma_tokenId ma_amountAtoms ma_recipientVout ma_currentState ma_backingOutpoint ma_nextState
    ma_grossSats ma_protocolFeeSats ma_creatorFeeSats ma_creatorScript ma_minerFeeSats ma_buyerInputIndices].
  rewrite !Hvault, Ep, (mr_feeScript _ _ Hr).
  split_and!; try done; try by destruct Hb; try (by destruct Hr); try (by rewrite E).
  - split; [done|]. split; [done|]. by eexists _, [].
  - eapply built_outputs_end; try done; apply (mr_ticker _ _ Hr) || apply (mr_scripts _ _ Hr).
  - lia.
  - rewrite tail_inputs. eapply funders_pass; [by rewrite Ep, E|by rewrite E|apply (mr_funders _ _ Hr)].
Qed.
End Signable.
