(* ===== verification/GuardianExamples.v ===== *)
(** * The Guardian on the example chain

    The mint and the redemption of the example chain as PSBTs: built, signed
    and indexed.  Witnesses of the Guardian's and the builders' theorems. *)
From S2P Require Import Prelude Bytes Curve Economics Wire Discovery Covenant Simplicity Vault Indexer IndexerInv IndexerExamples Spend Guardian GuardianInv Builder BuilderInv.

#[local] Existing Instance toy_crypto.
#[local] Existing Instance toy_bitcoin.
#[local] Existing Instance toy_locale.

Definition toy_p2wpkh (z : Z) : list byte := [to_byte 0x00; to_byte 0x14] ++ zeros 19 ++ [to_byte z].

#[local] Instance toy_bitcoinjs : BitcoinJs := {|
  p2wpkh_output k := Ok (toy_p2wpkh (blen k));
  p2sh_output r := Ok r;
  p2tr_output k := Ok (to_byte 0x51 :: to_byte 0x20 :: k);
  globalTx p := {| utx_version := 2; utx_ins := []; utx_outs := psbt_outputs p |};
  hashForWitnessV1 tx i scripts values t leaf := Ok (zeros 32);
  verifySchnorr h k s := Ok true;
  validateSignaturesOfInput p i := Ok true;
  unsigned_getId tx := toHex (zeros 32);
|}.

Definition toy_addInput (p : Psbt) (i : PsbtInput) : result Psbt := Ok (psbt_with p [i] []).
Definition toy_addOutput (p : Psbt) (s : list byte) (v : Z) : result Psbt :=
  if v <? 0 then Throw (js_error "Invalid value") else Ok (psbt_with p [] [{| txo_script := s; txo_value := v |}]).

Lemma toy_addInput_appends p i p' : toy_addInput p i = Ok p' → p' = psbt_with p [i] [].
Proof. by intros [= <-]. Qed.
Lemma toy_addOutput_appends p s v p' :
  toy_addOutput p s v = Ok p' → p' = psbt_with p [] [{| txo_script := s; txo_value := v |}].
Proof. unfold toy_addOutput. destruct (v <? 0); [done|by intros [= <-]]. Qed.

#[local] Instance toy_builder : PsbtBuilder := {|
  addInput := toy_addInput; addInput_appends := toy_addInput_appends;
  addOutput := toy_addOutput; addOutput_appends := toy_addOutput_appends;
|}.

(** The program of the executor always passes. *)
Definition toy_exec (b : string) (args : list string) (t : Z) : exec_outcome :=
  match args with
  | [_; policy; _] =>
      ExecStdout (JsonValue (Some (if String.eqb policy "mint" then MINT_CMR else REDEEM_CMR)) (Some "PASS"%string))
  | _ => ExecStdout NotJson
  end.
Definition toy_bin : option string := Some "cove-simplicity"%string.
Definition toy_sim (p : SimplicityPolicy) (cmr : string) : SimplicityExecutionResult :=
  {| policy := p; expectedCmr := cmr; actualCmr := Some cmr; pass := true; failure := None |}.

Definition toy_deployed : V3IndexerState := toy_chain [toy_b1].

(** The mint of 400 lots, paid from one input of [value] sats. *)
Definition toy_mint_params (value : Z) (ticker : option string) : MintParams := {|
  mp_network := NetRegtest; mp_tokenId := toy_token; mp_prevState := toy_state 0;
  mp_prevBacking := {| si_txid := toy_getId toy_deploy; si_vout := 1;
    si_script := txo_script (toy_vault_out 0); si_valueSats := 10000; si_publicKey := None |};
  mp_mintAmountAtoms := 400 * LOT; mp_guardianXOnly := toy_key 5; mp_recoveryKeyXOnly := toy_key 6;
  mp_recoveryProfile := None;
  mp_buyerInputs := [{| si_txid := no_txid; si_vout := 2; si_script := toy_p2wpkh 1; si_valueSats := value;
                        si_publicKey := None |}];
  mp_buyerCarrierScript := toy_p2tr 4; mp_buyerChangeScript := toy_p2wpkh 1; mp_feeScript := toy_p2tr 9;
  mp_creatorScript := toy_p2tr 3; mp_creatorFeeBps := None; mp_minerFeeSats := 500; mp_buyFeeBps := None;
  mp_buyFeeFlatSats := None; mp_discoveryEnvelope := ticker |}.

Definition no_mint : MintBuilt := {|
  mb_psbt := new_psbt; mb_prevVault := no_vault3; mb_nextState := toy_state 0; mb_nextVault := no_vault3;
  mb_grossSats := 0; mb_buyFeeSats := 0; mb_creatorFeeSats := 0; mb_wire := []; mb_stateInputIndex := 0;
  mb_minerFeeSats := 0 |}.

(** Exactly what the mint costs, and more with a discovery message. *)
Definition toy_cost : Z := zsum (txo_value <$> tx_outs toy_mint) - 10000 + 500.
Definition toy_exact : MintParams := toy_mint_params toy_cost None.
Definition toy_change : MintParams := toy_mint_params (toy_cost + 5000) (Some "COVE"%string).

Definition toy_request (st : V3IndexerState) (psbt : Psbt) (ticker : option string) : ValidateParams := {|
  vp_psbt := psbt; vp_view := indexer_view st; vp_network := Regtest; vp_guardianXOnly := toy_key 5;
  vp_recoveryKeyXOnly := toy_key 6; vp_recoveryProfile := None; vp_feeScript := toy_p2tr 9;
  vp_maxMinerFeeSats := None; vp_fees := config_fees toy_config; vp_discoveryTicker := ticker;
  vp_fundingChecker := λ _, Ok FundingOk |}.

Definition toy_mint_built (params : MintParams) : MintBuilt := get_ok no_mint (buildMintPsbtV3 params).

Lemma toy_deployed_reachable : reachable toy_config toy_deployed.
Proof. apply toy_reachable. vm_compute. reflexivity. Qed.

Lemma toy_watches psbt t st : watches toy_config (toy_request st psbt t) st.
Proof. split; try done. apply indexer_view_shows. Qed.

Lemma vault_not_carrierb st t :
  match getBackingOutpoint st t with
  | Some o => bool_decide (tokenUtxos st !! outpointKey (op_txid o) (op_vout o) = None)
  | None => true
  end = true → vault_not_carrier st t.
Proof. unfold vault_not_carrier. intros H o Ho. rewrite Ho in H. by apply bool_decide_eq_true in H. Qed.

Definition toy_mint_analysis : MintAnalysis := mint_analysis toy_exact (toy_mint_built toy_exact).

Lemma built_mint_signed_witness :
  let r := toy_mint_built toy_change in
  mb_minerFeeSats r = 500 ∧ length (psbt_outputs (mb_psbt r)) = 7%nat
  ∧ validateMintTransitionV3 toy_exec toy_bin (toy_request toy_deployed (mb_psbt r) (Some "COVE"%string))
    = Ok (VOk (AMint (mint_analysis toy_change r)) (toy_sim POLICY_MINT MINT_CMR)).
Proof.
  intros r. split; [vm_compute; reflexivity|]. split; [vm_compute; reflexivity|].
  apply (built_mint_signed toy_exec toy_bin (toy_request toy_deployed (mb_psbt r) (Some "COVE"%string)) toy_change r).
  - vm_compute. reflexivity.
  - reflexivity.
  - split; try reflexivity; try (vm_compute; reflexivity).
    + constructor; [|constructor]. split; [|split]; vm_compute; reflexivity.
    + split; vm_compute; reflexivity.
  - split; [vm_compute; discriminate|]. right. vm_compute. discriminate.
  - discriminate.
  - vm_compute. discriminate.
  - intros t d [= <-] Hd.
    replace d with (get_ok [] (encodeDiscovery (MintV2 toy_token (400 * LOT) 2) (Some "COVE"%string)))
      by exact (f_equal (get_ok []) Hd).
    vm_compute. discriminate.
  - intros w. split; [|split]; reflexivity.
Defined.

(** The transaction of the exactly funded PSBT is the chain's mint. *)
Lemma toy_mint_finalizes : finalizes (mb_psbt (toy_mint_built toy_exact)) "mint" toy_mint.
Proof.
  split; [reflexivity|vm_compute; reflexivity|vm_compute; reflexivity|].
  constructor; [|constructor; [|constructor]]; intros v E; apply (f_equal (String.substring 0 64)) in E;
    vm_compute in E; discriminate E.
Qed.

Lemma guardian_mint_indexed_witness :
  let a := toy_mint_analysis in
  let t := toHex (ma_tokenId a) in
  ∃ prior hash script carrier,
    let created := carrier_utxo (getId toy_mint) 2 t (ma_amountAtoms a) carrier toy_b2 in
    let r := accepted MINT t (UndoMint t prior created)
      (Some (trade (ma_amountAtoms a) (ma_grossSats a) (ma_protocolFeeSats a) (ma_nextState a))) in
    backing toy_deployed !! t = Some prior ∧ bk_state prior = ma_currentState a
    ∧ vault_script toy_config (ma_nextState a) = Ok script
    ∧ apply_tx toy_config toy_deployed toy_b2 0 "mint"
      = Ok ([UndoMint t prior created], [accepted_event toy_mint toy_b2 0 r],
            record (with_tables toy_deployed (tokens toy_deployed)
              (<[t := next_backing t (ma_nextState a) hash script (getId toy_mint) toy_b2]> (backing toy_deployed))
              (<[outpointKey (getId toy_mint) 2 := created]> (tokenUtxos toy_deployed)))
              (accepted_event toy_mint toy_b2 0 r)).
Proof.
  apply (guardian_mint_indexed toy_config toy_exec toy_bin
    (toy_request toy_deployed (mb_psbt (toy_mint_built toy_exact)) None) toy_deployed toy_mint_analysis
    (toy_sim POLICY_MINT MINT_CMR) "mint" toy_mint toy_b2 0).
  - exact toy_deployed_reachable.
  - apply toy_watches.
  - apply vault_not_carrierb. vm_compute. reflexivity.
  - vm_compute. reflexivity.
  - exact toy_mint_finalizes.
Defined.

(** The redemption of 200 of 399 lots. *)
Definition toy_traded : V3IndexerState := toy_chain [toy_b1; toy_b2].

Definition toy_redeem_params : RedeemParams := {|
  rp_network := NetRegtest; rp_tokenId := toy_token; rp_prevState := toy_state 400;
  rp_prevBacking := {| si_txid := toy_getId toy_mint; si_vout := 1; si_script := txo_script (toy_vault_out 400);
    si_valueSats := 10000 + lot_reserve 400; si_publicKey := None |};
  rp_redeemAmountAtoms := 200 * LOT;
  rp_tokenInputs := [{| si_txid := toy_getId toy_transfer; si_vout := 1; si_script := toy_p2tr 5;
                        si_valueSats := 1000; si_publicKey := Some (toy_key 5) |}];
  rp_tokenInputTotalAtoms := 399 * LOT; rp_guardianXOnly := toy_key 5; rp_recoveryKeyXOnly := toy_key 6;
  rp_recoveryProfile := None; rp_sellerPayoutScript := toy_p2tr 5; rp_sellerChangeScript := toy_p2tr 5;
  rp_feeScript := toy_p2tr 9; rp_minerFeeSats := 0; rp_funderInputs := None; rp_funderChangeScript := None;
  rp_redeemFeeBps := None; rp_redeemFeeFlatSats := None |}.

Definition no_redeem : RedeemBuilt := {|
  rb_psbt := new_psbt; rb_prevVault := no_vault3; rb_nextState := toy_state 0; rb_nextVault := no_vault3;
  rb_grossSats := 0; rb_redeemFeeSats := 0; rb_netSats := 0; rb_changeAtoms := 0; rb_wire := [];
  rb_minerFeeSats := 0 |}.

Definition toy_redeem_psbt : Psbt := rb_psbt (get_ok no_redeem (buildRedeemPsbtV3 toy_redeem_params)).

Definition no_redemption : RedeemAnalysis := {|
  ra_tokenId := []; ra_redeemAmountAtoms := 0; ra_changeAllocations := []; ra_currentState := toy_state 0;
  ra_backingOutpoint := {| op_txid := ""; op_vout := 0 |}; ra_tokenInputOutpoints := [];
  ra_tokenInputTotalAtoms := 0; ra_nextState := toy_state 0; ra_grossSats := 0; ra_protocolFeeSats := 0;
  ra_netPayoutSats := 0; ra_minerFeeSats := 0; ra_backingInputIndex := 0; ra_tokenInputIndices := [] |}.

Definition toy_redeem_analysis : RedeemAnalysis :=
  get_ok no_redemption (analyzeRedeemTransitionV3 toy_redeem_psbt (indexer_view toy_traded) (config_fees toy_config)).

Lemma toy_redeem_finalizes : finalizes toy_redeem_psbt "redeem" toy_redeem.
Proof.
  split; [reflexivity|vm_compute; reflexivity|vm_compute; reflexivity|].
  constructor; [|constructor; [|constructor]]; intros v E; apply (f_equal (String.substring 0 64)) in E;
    vm_compute in E; discriminate E.
Qed.

Lemma guardian_redeem_indexed_witness :
  let a := toy_redeem_analysis in
  let st := toy_traded in
  let tx := toy_redeem in
  ∃ prior hash script spent created,
    let t := toHex (ra_tokenId a) in
    let r := accepted REDEEM t (UndoRedeem t (getId tx) prior spent created)
      (Some (trade (ra_redeemAmountAtoms a) (ra_grossSats a) (ra_protocolFeeSats a) (ra_nextState a))) in
    backing st !! t = Some prior ∧ bk_state prior = ra_currentState a
    ∧ vault_script toy_config (ra_nextState a) = Ok script
    ∧ spent = omap (λ i, tokenUtxos st !! in_key i) (tx_ins tx)
    ∧ sum_utxos spent = ra_redeemAmountAtoms a + sum_utxos created
    ∧ apply_tx toy_config st toy_b3 0 "redeem"
      = Ok ([UndoRedeem t (getId tx) prior spent created], [accepted_event tx toy_b3 0 r],
            record (with_tables st (tokens st)
              (<[t := next_backing t (ra_nextState a) hash script (getId tx) toy_b3]> (backing st))
              (set_utxos created (delete_utxos spent (tokenUtxos st)))) (accepted_event tx toy_b3 0 r)).
Proof.
  apply (guardian_redeem_indexed toy_config toy_exec toy_bin (toy_request toy_traded toy_redeem_psbt None)
    toy_traded toy_redeem_analysis (toy_sim POLICY_REDEEM REDEEM_CMR) "redeem" toy_redeem toy_b3 0).
  - apply toy_reachable. vm_compute. reflexivity.
  - apply toy_watches.
  - apply vault_not_carrierb. vm_compute. reflexivity.
  - vm_compute. reflexivity.
  - exact toy_redeem_finalizes.
Defined.
