(* ===== verification/FinalizeExamples.v ===== *)
(** * The final checks on the example chain

    The mint and the redemption of the example chain as raw transactions:
    checked, broadcast and indexed. *)
From S2P Require Import Prelude Bytes Economics Wire Discovery Covenant Simplicity Vault Indexer IndexerInv IndexerExamples Spend Guardian GuardianInv Builder BuilderInv GuardianExamples Finalize FinalizeInv.

#[local] Existing Instance toy_crypto.
#[local] Existing Instance toy_bitcoin.
#[local] Existing Instance toy_locale.
#[local] Existing Instance toy_bitcoinjs.
#[local] Existing Instance toy_builder.

(** The prevouts of a PSBT, by outpoint. *)
Definition toy_prevouts (psbt : Psbt) : gmap string ResolvedPrevout :=
  list_to_map ((λ i, (in_key (psi_txin i), input_prevout i)) <$> psbt_inputs psbt).

Definition toy_final (st : V3IndexerState) (raw : string) (psbt : Psbt) : FinalizeParams := {|
  fp_rawTxHex := raw; fp_view := indexer_view st; fp_network := Regtest; fp_guardianXOnly := toy_key 5;
  fp_recoveryKeyXOnly := toy_key 6; fp_recoveryProfile := None; fp_feeScript := toy_p2tr 9;
  fp_maxMinerFeeSats := None; fp_prevouts := Some (toy_prevouts psbt); fp_fees := config_fees toy_config |}.

Definition toy_msg (raw : string) : string := "superfluous data".

Lemma toy_final_watches st raw psbt : final_watches toy_config (toy_final st raw psbt) st.
Proof. split; try done. apply indexer_view_shows. Qed.

(** A node that accepts everything, on [chain]. *)
Definition toy_node (chain txid : string) : BroadcastNode := {|
  bn_chain := Ok chain;
  bn_testMempoolAccept _ := Ok {| mv_allowed := true; mv_rejectReason := None |};
  bn_broadcastTransaction _ := Ok txid |}.

Lemma toy_sends st psbt raw t :
  (forallb (λ i, bool_decide (toy_prevouts psbt !! in_key (psi_txin i) = Some (input_prevout i))) (psbt_inputs psbt)) = true →
  sends (toy_request st psbt t) (toy_final st raw psbt).
Proof.
  intros H. split; try done. exists (toy_prevouts psbt). split; [done|].
  apply Forall_forall. intros i Hi. rewrite forallb_forall in H.
  eapply bool_decide_eq_true_1, H. by apply list_elem_of_In.
Qed.

Definition toy_mint_psbt : Psbt := mb_psbt (toy_mint_built toy_exact).
Definition toy_mint_valid : ValidatedCoveTransaction :=
  validated "mint" (toy_getId toy_mint) MINT (toHex toy_token).
Definition toy_redeem_valid : ValidatedCoveTransaction :=
  validated "redeem" (toy_getId toy_redeem) REDEEM (toHex toy_token).

Lemma toy_mint_admitted : admitted toy_config toy_exec toy_bin toy_msg toy_deployed toy_mint_valid.
Proof.
  apply (admitted_mint _ _ _ _ _ _ (toy_final toy_deployed "mint" toy_mint_psbt)); [apply toy_final_watches|].
  vm_compute. reflexivity.
Qed.

Lemma broadcast_is_indexed_witness :
  let node := toy_node "regtest" (toy_getId toy_mint) in
  let sent := broadcastValidatedCoveTransaction toy_mint_valid Regtest node in
  indexed toy_config toy_deployed toy_mint_valid.
Proof.
  intros node sent.
  assert (CallBroadcast "mint" ∈ sent.2) as Hin by (vm_compute; right; left).
  assert (indexed toy_config toy_deployed toy_mint_valid ∨ repeated_deploy toy_config toy_deployed toy_mint_valid) as [H|[H _]];
    [|exact H|discriminate H].
  refine (proj1 (proj2 (broadcast_is_indexed toy_config toy_exec toy_bin toy_msg toy_deployed toy_mint_valid Regtest node
    sent.1 sent.2 "mint" _ _ _ Hin))).
  - exact toy_deployed_reachable.
  - exact toy_mint_admitted.
  - apply surjective_pairing.
Defined.

Lemma signed_is_sendable_witness :
  validateFinalizedMintTransaction toy_exec toy_bin toy_msg (toy_final toy_deployed "mint" toy_mint_psbt)
  = Ok (FinalOk toy_mint_valid).
Proof.
  refine (proj1 (signed_is_sendable toy_exec toy_bin toy_msg) (toy_request toy_deployed toy_mint_psbt None)
    toy_mint_analysis (toy_sim POLICY_MINT MINT_CMR) (toy_final toy_deployed "mint" toy_mint_psbt) toy_mint _ _ _ _).
  - vm_compute. reflexivity.
  - exact toy_mint_finalizes.
  - apply toy_sends. vm_compute. reflexivity.
  - intros inp v Hi Hv. apply (f_equal (from_option (λ i, rsp_script (input_prevout i)) [])) in Hi.
    apply (f_equal (λ r, v3_scriptPubKey (get_ok no_vault3 r))) in Hv. cbn [from_option get_ok] in Hi, Hv.
    rewrite <-Hi, <-Hv. vm_compute. reflexivity.
Defined.
