(* ===== verification/Signing.v ===== *)
(** * Guardian signing: packages/cove-guardian/src/v3

    [signer.ts] and [custody.ts] (the signature over a vault's execution leaf),
    [transitionSigner.ts] (risk policy, durable audit, journal, signature) and
    [guardianApi.ts] (the service's answer and its remote client).

    Keys and the secp256k1 library are the class [Ecc]; the audit sink and the
    clock answer each call through its [SignEnv]. *)
From S2P Require Import Prelude Bytes Curve Economics Wire Discovery Covenant Simplicity Vault Indexer Spend Guardian Journal AuditLog Profile.

(** ** signer.ts *)

(** [buf.writeUInt16LE], [buf.writeUInt32LE] *)
Definition le_bytes (n : nat) (v : Z) : list byte := reverse (be_bytes n v).

(** The varint of a length: [writeUInt32LE] refuses what does not fit. *)
Definition varInt (n : Z) : result (list byte) :=
  if n <? 0xfd then Ok [to_byte n]
  else if n <=? 0xffff then Ok (to_byte 0xfd :: le_bytes 2 n)
  else throw_if (0xffffffff <? n) range_error;; Ok (to_byte 0xfe :: le_bytes 4 n).

Fixpoint witness_items (items : list (list byte)) : result (list byte) :=
  match items with
  | [] => Ok []
  | it :: rest =>
      len ← varInt (blen it);
      parts ← witness_items rest;
      Ok (len ++ it ++ parts)
  end.

Definition scriptWitness (items : list (list byte)) : result (list byte) :=
  count ← varInt (Z.of_nat (length items));
  parts ← witness_items items;
  Ok (count ++ parts).

(** bitcoinjs-lib, tiny-secp256k1 and ecpair, as the signers use them. *)
Class Ecc := {
  (** [psbt.signTaprootInput(index, key, leafHash)] and the signature it puts
      first in [tapScriptSig] *)
  signTaprootInput : Psbt → Z → list byte → list byte → result (list byte);
  (** [ecc.signSchnorr(hash, privateKey)] *)
  signSchnorr : list byte → list byte → result (list byte);
  (** [ECPair.fromPrivateKey(priv).publicKey] *)
  publicKey_of : list byte → result (list byte);
  (** [ecc.isPrivate(priv)] *)
  isPrivate : list byte → bool;
  (** [psbt.updateInput(index, { finalScriptWitness })] *)
  updateFinalWitness : Psbt → Z → list byte → result Psbt;
  updateFinalWitness_sets p i w p' :
    updateFinalWitness p i w = Ok p' →
    psbt_outputs p' = psbt_outputs p
    ∧ ∃ before input after, psbt_inputs p = before ++ input :: after ∧ Z.of_nat (length before) = i
      ∧ psbt_inputs p' = before ++ {|
          psi_txin := psi_txin input; psi_sequence := psi_sequence input;
          psi_witnessUtxo := psi_witnessUtxo input; psi_redeemScript := psi_redeemScript input;
          psi_partialSig := psi_partialSig input; psi_tapKeySig := psi_tapKeySig input;
          psi_tapInternalKey := psi_tapInternalKey input; psi_tapMerkleRoot := psi_tapMerkleRoot input;
          psi_tapLeafScript := psi_tapLeafScript input; psi_finalScriptWitness := Some w |} :: after;
}.

Section Signer.
Context {J : BitcoinJs} {E : Ecc}.

(** The hash a taproot signature over a leaf of input [inputIndex] signs. *)
Definition leaf_sighash (psbt : Psbt) (inputIndex hashType : Z) (leafHash : list byte) : result (list byte) :=
  utxos ← witness_utxos (psbt_inputs psbt);
  hashForWitnessV1 (unsignedTransaction psbt) inputIndex (txo_script <$> utxos) (txo_value <$> utxos)
    hashType (Some leafHash).

Definition computeVaultExecutionSighash (psbt : Psbt) (inputIndex : Z) (leaf : CoveVaultLeaf) : result (list byte) :=
  leaf_sighash psbt inputIndex 0 (leaf_tapleafHash leaf).

Definition verifyVaultExecutionSignature (psbt : Psbt) (inputIndex : Z) (leaf : CoveVaultLeaf)
    (sig xOnlyKey : list byte) : result unit :=
  let '(sig64, hashType) :=
    if blen sig =? 65 then (subarray sig 0 64, default 0 (last_byte sig)) else (sig, 0) in
  sighash ← leaf_sighash psbt inputIndex hashType (leaf_tapleafHash leaf);
  ok ← verifySchnorr sighash xOnlyKey sig64;
  throw_if (negb ok) (js_error "SCHNORR_VERIFY_FAILED: signature failed independent verification").

(** The witness reveals the policy identity hash, bytes 1 to 32 of the leaf's
    script. *)
Definition commitVaultExecutionWitness (psbt : Psbt) (inputIndex : Z) (leaf : CoveVaultLeaf)
    (controlBlock sig : list byte) : result Psbt :=
  let reveal := subarray (leaf_script leaf) 1 33 in
  w ← scriptWitness [sig; reveal; leaf_script leaf; controlBlock];
  updateFinalWitness psbt inputIndex w.

(** [class GuardianV3Signer]: its key and its public key's x coordinate *)
Record GuardianV3Signer := { g3_key : list byte; g3_xOnly : list byte }.

Definition GuardianV3Signer_fromPrivateKey (priv : list byte) : result GuardianV3Signer :=
  publicKey ← publicKey_of priv;
  Ok {| g3_key := priv; g3_xOnly := subarray publicKey 1 (blen publicKey) |}.

Definition signVaultExecutionLeaf (s : GuardianV3Signer) (psbt : Psbt) (inputIndex : Z)
    (leaf : CoveVaultLeaf) (controlBlock : list byte) : result (Psbt * list byte) :=
  sig ← signTaprootInput psbt inputIndex (g3_key s) (leaf_tapleafHash leaf);
  verifyVaultExecutionSignature psbt inputIndex leaf sig (g3_xOnly s);;
  psbt ← commitVaultExecutionWitness psbt inputIndex leaf controlBlock sig;
  Ok (psbt, sig).

(** ** custody.ts *)
Record GuardianCustodyBackend := {
  cb_xOnlyPubkey : result (list byte);
  (** [signTaprootScriptPath({ sighash, leafTapleafHash })] *)
  cb_signTaprootScriptPath : list byte → list byte → result (list byte);
}.

Definition key_custody (priv : list byte) (xOnlyKey : list byte) : GuardianCustodyBackend :=
  {| cb_xOnlyPubkey := Ok xOnlyKey; cb_signTaprootScriptPath sighash _ := signSchnorr sighash priv |}.

Definition TestGuardianCustodyBackend (priv : list byte) : result GuardianCustodyBackend :=
  publicKey ← publicKey_of priv;
  Ok (key_custody priv (subarray publicKey 1 (blen publicKey))).

Definition EnvGuardianCustodyBackend_fromHex (hex : option string) : result GuardianCustodyBackend :=
  let h := js_trim (default ""%string hex) in
  throw_if (negb (is_any_hex64 h)) (js_error "GUARDIAN_KEY_HEX must be exactly 64 hex characters");;
  throw_if (isKnownTestPrivateKeyHex h)
    (js_error "GUARDIAN_KEY_HEX is one of the repo's public test keys; generate a real key");;
  let priv := fromHex h in
  throw_if (negb (isPrivate priv)) (js_error "GUARDIAN_KEY_HEX is not a valid secp256k1 private key");;
  publicKey ← publicKey_of priv;
  Ok (key_custody priv (subarray publicKey 1 (blen publicKey))).

Definition no_custody : exn := js_error "CUSTODY_BACKEND_NOT_CONFIGURED: no production custody backend selected".

Definition UnconfiguredGuardianCustodyBackend : GuardianCustodyBackend :=
  {| cb_xOnlyPubkey := Throw no_custody; cb_signTaprootScriptPath _ _ := Throw no_custody |}.

Definition signVaultExecutionLeafWithCustody (psbt : Psbt) (inputIndex : Z) (leaf : CoveVaultLeaf)
    (controlBlock : list byte) (backend : GuardianCustodyBackend) : result (Psbt * list byte) :=
  sighash ← computeVaultExecutionSighash psbt inputIndex leaf;
  sig ← cb_signTaprootScriptPath backend sighash (leaf_tapleafHash leaf);
  xOnlyKey ← cb_xOnlyPubkey backend;
  verifyVaultExecutionSignature psbt inputIndex leaf sig xOnlyKey;;
  psbt ← commitVaultExecutionWitness psbt inputIndex leaf controlBlock sig;
  Ok (psbt, sig).

Record GuardianSigningBackend := {
  sb_xOnlyPubkey : result (list byte);
  sb_signVaultExecutionLeaf : Psbt → Z → CoveVaultLeaf → list byte → result (Psbt * list byte);
}.

Definition localSigningBackend (signer : GuardianV3Signer) : GuardianSigningBackend :=
  {| sb_xOnlyPubkey := Ok (g3_xOnly signer); sb_signVaultExecutionLeaf := signVaultExecutionLeaf signer |}.

Definition custodySigningBackend (backend : GuardianCustodyBackend) : GuardianSigningBackend :=
  {| sb_xOnlyPubkey := cb_xOnlyPubkey backend;
     sb_signVaultExecutionLeaf psbt inputIndex leaf controlBlock :=
       signVaultExecutionLeafWithCustody psbt inputIndex leaf controlBlock backend |}.
End Signer.

(** ** transitionSigner.ts *)
Record TransitionSignRequest := {
  tr_psbt : Psbt;
  tr_view : CoveCanonicalView;
  tr_network : V3Network;
  tr_recoveryKeyXOnly : list byte;
  tr_recoveryProfile : option VaultRecoveryProfile;
  tr_feeScript : list byte;
  tr_maxMinerFeeSats : option Z;
  tr_fees : FeeSchedule;
  tr_discoveryTicker : option string;
  tr_fundingChecker : FundingInputChecker;
}.

(** [{ ...req, guardianXOnly }] *)
Definition validate_params (req : TransitionSignRequest) (guardianXOnly : list byte) : ValidateParams := {|
  vp_psbt := tr_psbt req; vp_view := tr_view req; vp_network := tr_network req;
  vp_guardianXOnly := guardianXOnly; vp_recoveryKeyXOnly := tr_recoveryKeyXOnly req;
  vp_recoveryProfile := tr_recoveryProfile req; vp_feeScript := tr_feeScript req;
  vp_maxMinerFeeSats := tr_maxMinerFeeSats req; vp_fees := tr_fees req;
  vp_discoveryTicker := tr_discoveryTicker req; vp_fundingChecker := tr_fundingChecker req |}.

Record SignedTransitionResult := {
  sr_operation : GuardianOperation;
  sr_tokenId : string;
  sr_prevStateHash : string;
  sr_nextStateHash : string;
  sr_expectedCmr : string;
  sr_actualCmr : string;
  sr_simplicityPass : bool;
  sr_backingOutpoint : OutPoint;
  sr_signedInputIndex : Z;
  sr_audit : AuditRecord;
  sr_auditFinalizationError : option string;
}.

Inductive TransitionSignOutcome :=
  | Signed (r : SignedTransitionResult)
  | Refused (reason detail : string) (audit : option AuditRecord).

Record GuardianRiskPolicy := {
  rp_maxGrossSats : Z;
  rp_maxMintAtoms : Z;
  rp_minMintGrossSats : Z;
  rp_maxRedeemPayoutSats : Z;
  rp_maxBackingSats : Z;
  rp_maxMinerFeeSats : Z;
  rp_allowedTokenIds : list string;
  rp_enforceTokenAllowlist : bool;
}.

(** What both analyses have. *)
Definition an_tokenId (a : CoveAnalysis) : list byte :=
  match a with AMint a => ma_tokenId a | ARedeem a => ra_tokenId a end.
Definition an_grossSats (a : CoveAnalysis) : Z :=
  match a with AMint a => ma_grossSats a | ARedeem a => ra_grossSats a end.
Definition an_protocolFeeSats (a : CoveAnalysis) : Z :=
  match a with AMint a => ma_protocolFeeSats a | ARedeem a => ra_protocolFeeSats a end.
Definition an_minerFeeSats (a : CoveAnalysis) : Z :=
  match a with AMint a => ma_minerFeeSats a | ARedeem a => ra_minerFeeSats a end.
Definition an_currentState (a : CoveAnalysis) : CoveStateV2 :=
  match a with AMint a => ma_currentState a | ARedeem a => ra_currentState a end.
Definition an_nextState (a : CoveAnalysis) : CoveStateV2 :=
  match a with AMint a => ma_nextState a | ARedeem a => ra_nextState a end.
Definition an_backingOutpoint (a : CoveAnalysis) : OutPoint :=
  match a with AMint a => ma_backingOutpoint a | ARedeem a => ra_backingOutpoint a end.
Definition an_amountAtoms (a : CoveAnalysis) : Z :=
  match a with AMint a => ma_amountAtoms a | ARedeem a => ra_redeemAmountAtoms a end.
Definition an_tokenInputOutpoints (a : CoveAnalysis) : list OutPoint :=
  match a with AMint _ => [] | ARedeem a => ra_tokenInputOutpoints a end.

(** The two limits on a mint. *)
Definition check_mint_limits (policy : GuardianRiskPolicy) (a : MintAnalysis) : option string :=
  if rp_maxMintAtoms policy <? ma_amountAtoms a
  then Some ("mint of " +:+ pretty (Z.quot (ma_amountAtoms a) 100000000)
             +:+ " tokens exceeds the per-mint limit of " +:+ pretty (Z.quot (rp_maxMintAtoms policy) 100000000))
  else if ma_grossSats a <? rp_minMintGrossSats policy
  then Some ("mint of " +:+ pretty (ma_grossSats a) +:+ " sats is below the minimum of "
             +:+ pretty (rp_minMintGrossSats policy))
  else None.

Definition checkRiskPolicy (policy : GuardianRiskPolicy) (analysis : CoveAnalysis) : option string :=
  let tokenId := toHex (an_tokenId analysis) in
  if rp_enforceTokenAllowlist policy && negb (bool_decide (tokenId ∈ rp_allowedTokenIds policy))
  then Some ("token " +:+ tokenId +:+ " is not in the canary allowlist")
  else if rp_maxGrossSats policy <? an_grossSats analysis
  then Some ("gross " +:+ pretty (an_grossSats analysis) +:+ " exceeds cap " +:+ pretty (rp_maxGrossSats policy))
  else match (match analysis with AMint a => check_mint_limits policy a | ARedeem _ => None end) with
  | Some why => Some why
  | None =>
      if rp_maxBackingSats policy <? backingSats (an_nextState analysis)
      then Some ("next backing " +:+ pretty (backingSats (an_nextState analysis)) +:+ " exceeds cap "
                 +:+ pretty (rp_maxBackingSats policy))
      else if rp_maxMinerFeeSats policy <? an_minerFeeSats analysis
      then Some ("miner fee " +:+ pretty (an_minerFeeSats analysis) +:+ " exceeds cap "
                 +:+ pretty (rp_maxMinerFeeSats policy))
      else match analysis with
           | ARedeem a =>
               if rp_maxRedeemPayoutSats policy <? ra_netPayoutSats a
               then Some ("redeem payout exceeds cap " +:+ pretty (rp_maxRedeemPayoutSats policy))
               else None
           | AMint _ => None
           end
  end.

(** What one call gets from outside: a fresh id and time stamp, the answers of
    the audit sink, the readings of the clock. *)
Record SignEnv := {
  env_requestId : string;
  env_timestamp : string;
  env_writeBeforeSign : AuditRecord → result string;
  env_writeAfterSign : AuditRecord → string → result unit;
  env_now : Z;
  env_later : Z;
}.

(** What a call did, in order. *)
Inductive SignEffect :=
  | Audited (record : AuditRecord) (auditHash : string)
  | Reserved (k : JournalKey) (digest : string) (r : SigningReservation)
  | SignedInput (psbt : Psbt)
  | Released (k : JournalKey) (digest : string)
  | Finalized (auditHash : string).

(** A call between its reservation and its signature. *)
Record Prepared := {
  pr_analysis : CoveAnalysis;
  pr_record : AuditRecord;
  pr_auditHash : string;
  pr_reservation : SigningReservation;
  pr_guardianXOnly : list byte;
}.

(** The leaf and the control block of an operation. *)
Definition op_leaf (op : GuardianOperation) (v : CoveVaultV3) : CoveVaultLeaf :=
  match op with OpMint => v3_mintLeaf v | OpRedeem => v3_redeemLeaf v end.
Definition op_control (op : GuardianOperation) (v : CoveVaultV3) : list byte :=
  match op with OpMint => v3_mintControlBlock v | OpRedeem => v3_redeemControlBlock v end.

Section TransitionSigner.
Context {C : Crypto} {B : BitcoinJs}.
Context {J : Type} {SJ : SigningJournalStore J}.
Context (execFile : string → list string → Z → exec_outcome) (bin : option string).
Context (signer : GuardianSigningBackend) (riskPolicy : GuardianRiskPolicy).

Definition unsignedTxDigest (psbt : Psbt) : string := unsigned_getId (unsignedTransaction psbt).

Definition buildAuditRecord (env : SignEnv) (op : GuardianOperation) (network : V3Network) (psbt : Psbt)
    (a : CoveAnalysis) (sim : SimplicityExecutionResult) : result AuditRecord :=
  prevStateHash ← stateHashV2 sha256 (an_currentState a);
  nextStateHash ← stateHashV2 sha256 (an_nextState a);
  Ok {| aud_requestId := env_requestId env; aud_operation := op; aud_tokenId := toHex (an_tokenId a);
        aud_prevStateHash := prevStateHash; aud_nextStateHash := nextStateHash;
        aud_backingOutpoint := an_backingOutpoint a; aud_tokenInputOutpoints := an_tokenInputOutpoints a;
        aud_amountAtoms := an_amountAtoms a; aud_grossSats := an_grossSats a;
        aud_protocolFeeSats := an_protocolFeeSats a; aud_minerFeeSats := an_minerFeeSats a;
        aud_policyVersion := COVE_POLICY_V3; aud_expectedCmr := expectedCmr sim;
        aud_actualCmr := default ""%string (actualCmr sim); aud_simplicityPass := pass sim;
        aud_referencePolicyPass := true; aud_unsignedTxDigest := unsignedTxDigest psbt;
        aud_network := network; aud_decision := VALID_TO_SIGN; aud_rejectionReason := None;
        aud_timestamp := env_timestamp env |}.

(** The outpoint the journal reserves for a record. *)
Definition record_key (r : AuditRecord) : JournalKey :=
  {| jk_network := aud_network r; jk_backingTxid := op_txid (aud_backingOutpoint r);
     jk_backingVout := op_vout (aud_backingOutpoint r) |}.

Definition validate_transition (req : TransitionSignRequest) (op : GuardianOperation) (guardianXOnly : list byte)
    : result ValidationResult :=
  match op with
  | OpMint => validateMintTransitionV3 execFile bin (validate_params req guardianXOnly)
  | OpRedeem => validateRedeemTransitionV3 execFile bin (validate_params req guardianXOnly)
  end.

(** The first half of [sign]: everything up to the reservation.  An answer is
    the outcome of a call that ends here. *)
Definition sign_prepare (req : TransitionSignRequest) (op : GuardianOperation) (env : SignEnv) (j : J)
    : result (TransitionSignOutcome + Prepared) * J * list SignEffect :=
  match
    guardianXOnly ← sb_xOnlyPubkey signer;
    verdict ← validate_transition req op guardianXOnly;
    match verdict with
    | VReject reason detail => Ok (inl (Refused reason detail None))
    | VOk analysis sim =>
        match checkRiskPolicy riskPolicy analysis with
        | Some risk => Ok (inl (Refused "RISK_POLICY_REJECTED" risk None))
        | None =>
            record ← buildAuditRecord env op (tr_network req) (tr_psbt req) analysis sim;
            match env_writeBeforeSign env record with
            | Throw e => Ok (inl (Refused "AUDIT_PERSISTENCE_FAILED" (exn_message e) (Some record)))
            | Ok auditHash => Ok (inr (analysis, record, auditHash, guardianXOnly))
            end
        end
    end
  with
  | Throw e => (Throw e, j, [])
  | Ok (inl outcome) => (Ok (inl outcome), j, [])
  | Ok (inr (analysis, record, auditHash, guardianXOnly)) =>
      let '(reservation, j') :=
        reserve j (env_now env) (env_later env) (record_key record) (aud_unsignedTxDigest record) in
      let effects := [Audited record auditHash;
                      Reserved (record_key record) (aud_unsignedTxDigest record) reservation] in
      match reservation with
      | CONFLICT =>
          (Ok (inl (Refused "BACKING_ALREADY_SIGNED"
                      "backing outpoint already signed with a different digest" (Some record))), j', effects)
      | _ => (Ok (inr {| pr_analysis := analysis; pr_record := record; pr_auditHash := auditHash;
                         pr_reservation := reservation; pr_guardianXOnly := guardianXOnly |}), j', effects)
      end
  end.

(** The second half: the signature, and the release of the call's own
    reservation when it fails.  The PSBT is the caller's. *)
Definition sign_finish (req : TransitionSignRequest) (op : GuardianOperation) (env : SignEnv) (p : Prepared) (j : J)
    : result (TransitionSignOutcome * Psbt) * J * list SignEffect :=
  let record := pr_record p in
  match transition_vault (validate_params req (pr_guardianXOnly p)) (an_currentState (pr_analysis p)) with
  | Throw e => (Throw e, j, [])
  | Ok prevVault =>
      match sb_signVaultExecutionLeaf signer (tr_psbt req) 0 (op_leaf op prevVault) (op_control op prevVault) with
      | Throw e =>
          let refused := Ok (Refused "SIGNING_FAILED" (exn_message e) (Some record), tr_psbt req) in
          match pr_reservation p with
          | RESERVED =>
              (refused, release j (record_key record) (aud_unsignedTxDigest record),
               [Released (record_key record) (aud_unsignedTxDigest record)])
          | _ => (refused, j, [])
          end
      | Ok (psbt, _) =>
          let after := env_writeAfterSign env record (pr_auditHash p) in
          (Ok (Signed {| sr_operation := op; sr_tokenId := aud_tokenId record;
                         sr_prevStateHash := aud_prevStateHash record;
                         sr_nextStateHash := aud_nextStateHash record;
                         sr_expectedCmr := aud_expectedCmr record; sr_actualCmr := aud_actualCmr record;
                         sr_simplicityPass := aud_simplicityPass record;
                         sr_backingOutpoint := aud_backingOutpoint record; sr_signedInputIndex := 0;
                         sr_audit := record;
                         sr_auditFinalizationError :=
                           match after with Ok _ => None | Throw e => Some (exn_message e) end |}, psbt), j,
           SignedInput psbt :: match after with Ok _ => [Finalized (pr_auditHash p)] | Throw _ => [] end)
      end
  end.

Definition sign (req : TransitionSignRequest) (op : GuardianOperation) (env : SignEnv) (j : J)
    : result (TransitionSignOutcome * Psbt) * J * list SignEffect :=
  match sign_prepare req op env j with
  | (Throw e, j, effects) => (Throw e, j, effects)
  | (Ok (inl outcome), j, effects) => (Ok (outcome, tr_psbt req), j, effects)
  | (Ok (inr p), j, effects) =>
      let '(r, j, effects') := sign_finish req op env p j in (r, j, effects ++ effects')
  end.

Definition signMint (req : TransitionSignRequest) := sign req OpMint.
Definition signRedeem (req : TransitionSignRequest) := sign req OpRedeem.
End TransitionSigner.

(** ** guardianApi.ts *)
Record GuardianSignRequestWire := {
  gw_requestId : string; gw_operation : GuardianOperation; gw_network : V3Network;
  gw_psbtBase64 : string; gw_tokenId : string
}.

Record GuardianSignSuccess := {
  gs_sigHex : string; gs_signedPsbtBase64 : string; gs_profileHash : string;
  gs_guardianXOnly : string; gs_resultJson : string
}.

Inductive GuardianSignResponseWire :=
  | SignSuccess (r : GuardianSignSuccess)
  | SignFailure (reason detail : string).

(** The number at [off] and the offset after it; past the end the byte is
    [undefined] and the last read throws. *)
Definition readVarInt (witness : list byte) (off : Z) : result (Z * Z) :=
  let b := byte_at witness off in
  let off := off + 1 in
  if bool_decide (b = Some 0xfd) then v ← readLE 2 witness off; Ok (v, off + 2)
  else if bool_decide (b = Some 0xfe) then v ← readLE 4 witness off; Ok (v, off + 4)
  else match b with
  | Some b => if b <? 0xfd then Ok (b, off) else v ← readLE 8 witness off; Ok (v, off + 8)
  | None => v ← readLE 8 witness off; Ok (v, off + 8)
  end.

Definition extractWitnessSig (witness : list byte) : result (list byte) :=
  '(count, off) ← readVarInt witness 0;
  throw_if (count <? 1) (js_error "empty witness");;
  '(len, off) ← readVarInt witness off;
  Ok (subarray witness off (off + len)).

Section Api.
Context {C : Crypto} {B : BitcoinJs} {Ec : Ecc}.
Context {J : Type} {SJ : SigningJournalStore J}.
(** The text form of a PSBT, and the JSON of a result. *)
Context (toBase64 : Psbt → string) (fromBase64 : string → result Psbt).
Context (stringifyBigint : SignedTransitionResult → string) (parseBigint : string → result SignedTransitionResult).

Record InProcessGuardianTransportOptions := {
  ip_signer : TransitionSignRequest → GuardianOperation → SignEnv → J →
              result (TransitionSignOutcome * Psbt) * J * list SignEffect;
  ip_profileHash : string;
  ip_guardianXOnly : string;
  ip_network : V3Network;
  ip_loadView : string → result CoveCanonicalView;
  ip_recoveryKeyXOnly : list byte;
  ip_recoveryProfile : option VaultRecoveryProfile;
  ip_feeScript : list byte;
  ip_maxMinerFeeSats : option Z;
  ip_buyFeeBps : option Z;
  ip_redeemFeeBps : option Z;
  ip_fundingChecker : FundingInputChecker;
}.

(** What the service asks its signer: its own network, keys, fees and checks. *)
Definition service_request (opts : InProcessGuardianTransportOptions) (psbt : Psbt) (view : CoveCanonicalView)
    : TransitionSignRequest := {|
  tr_psbt := psbt; tr_view := view; tr_network := ip_network opts;
  tr_recoveryKeyXOnly := ip_recoveryKeyXOnly opts; tr_recoveryProfile := ip_recoveryProfile opts;
  tr_feeScript := ip_feeScript opts; tr_maxMinerFeeSats := ip_maxMinerFeeSats opts;
  tr_fees := {| fs_buyFeeBps := ip_buyFeeBps opts; fs_buyFeeFlatSats := None; fs_creatorFeeBps := None;
                fs_redeemFeeBps := ip_redeemFeeBps opts; fs_redeemFeeFlatSats := None |};
  tr_discoveryTicker := None; tr_fundingChecker := ip_fundingChecker opts |}.

Definition signed_response (opts : InProcessGuardianTransportOptions) (r : SignedTransitionResult) (psbt : Psbt)
    : result GuardianSignResponseWire :=
  input0 ← of_option undefined_prop (psbt_inputs psbt !! 0%nat);
  w ← of_option undefined_prop (psi_finalScriptWitness input0);
  sig ← extractWitnessSig w;
  Ok (SignSuccess {| gs_sigHex := toHex sig; gs_signedPsbtBase64 := toBase64 psbt;
                     gs_profileHash := ip_profileHash opts; gs_guardianXOnly := ip_guardianXOnly opts;
                     gs_resultJson := stringifyBigint r |}).

(** [sign] once the PSBT and the view are there; what the signer did comes
    along. *)
Definition answer_sign (opts : InProcessGuardianTransportOptions) (env : SignEnv) (psbt : Psbt)
    (view : CoveCanonicalView) (op : GuardianOperation) (j : J)
    : result GuardianSignResponseWire * J * list SignEffect :=
  let '(outcome, j, effects) := ip_signer opts (service_request opts psbt view) op env j in
  (outcome ← outcome;
   match outcome with
   | (Refused reason detail _, _) => Ok (SignFailure reason detail)
   | (Signed r, psbt) => signed_response opts r psbt
   end, j, effects).

Definition in_process_sign (opts : InProcessGuardianTransportOptions) (env : SignEnv)
    (wire : GuardianSignRequestWire) (j : J) : result GuardianSignResponseWire * J :=
  match (psbt ← fromBase64 (gw_psbtBase64 wire); view ← ip_loadView opts (gw_tokenId wire); Ok (psbt, view)) with
  | Throw e => (Throw e, j)
  | Ok (psbt, view) => (answer_sign opts env psbt view (gw_operation wire) j).1
  end.

(** *** [class RemoteGuardianTransitionSigner] *)
Record RemoteGuardian := { rg_expectedProfileHash : string; rg_expectedGuardianXOnly : string }.

Definition includes (needle s : string) : bool := bool_decide (String.index 0 needle s ≠ None).

Definition transport_failure (e : exn) : TransitionSignOutcome :=
  Refused (if bool_decide (exn_class e = ETimeoutError) || includes "timeout" (exn_message e)
           then "GUARDIAN_TIMEOUT" else "REMOTE_GUARDIAN_UNAVAILABLE") (exn_message e) None.

Definition independentlyVerifySignature (g : RemoteGuardian) (psbt : Psbt) (sig : list byte) : result unit :=
  input0 ← of_option undefined_prop (psbt_inputs psbt !! 0%nat);
  tapLeaf ← of_option (js_error "SIGNATURE_VERIFICATION_FAILED: no tap leaf script on input 0")
    (leaves ← psi_tapLeafScript input0; head leaves);
  let leaf := {| leaf_script := tls_script tapLeaf;
                 leaf_tapleafHash := tapleafHash (tls_script tapLeaf) (tls_leafVersion tapLeaf) |} in
  verifyVaultExecutionSignature psbt 0 leaf sig (fromHex (rg_expectedGuardianXOnly g)).

Record GuardianHealthWire := {
  gh_reachable : bool; gh_releaseId : string; gh_profileHash : string; gh_guardianXOnly : string;
  gh_auditHeadHash : string; gh_auditHealthy : bool; gh_signingJournalHealthy : bool;
  gh_custodyBackendReady : bool; gh_signingEnabled : bool
}.

Record GuardianHealthProbe := {
  hp_releaseId : string; hp_auditHeadHash : string; hp_auditHealthy : bool;
  hp_signingJournalHealthy : bool; hp_custodyBackendReady : bool
}.

(** [healthProbe], where the options have one. *)
Definition in_process_health (opts : InProcessGuardianTransportOptions)
    (healthProbe : option (result GuardianHealthProbe)) : result GuardianHealthWire :=
  p ← default (Ok {| hp_releaseId := "in-process-fixture"; hp_auditHeadHash := ZERO_HASH; hp_auditHealthy := true;
                     hp_signingJournalHealthy := true; hp_custodyBackendReady := true |}) healthProbe;
  Ok {| gh_reachable := true; gh_releaseId := hp_releaseId p; gh_profileHash := ip_profileHash opts;
        gh_guardianXOnly := ip_guardianXOnly opts; gh_auditHeadHash := hp_auditHeadHash p;
        gh_auditHealthy := hp_auditHealthy p; gh_signingJournalHealthy := hp_signingJournalHealthy p;
        gh_custodyBackendReady := hp_custodyBackendReady p;
        gh_signingEnabled := hp_custodyBackendReady p && hp_auditHealthy p && hp_signingJournalHealthy p |}.

(** Why the Guardian does not count as healthy, or [None]. *)
Definition remote_health (g : RemoteGuardian) (answer : result GuardianHealthWire) : option string :=
  match answer with
  | Throw e => Some (exn_message e)
  | Ok h =>
      if negb (gh_reachable h) then Some "guardian unreachable"%string
      else if negb (String.eqb (gh_profileHash h) (rg_expectedProfileHash g))
      then Some ("GUARDIAN_PROFILE_MISMATCH: " +:+ slice_text 8 (gh_profileHash h) +:+ "…")
      else if negb (String.eqb (toLowerCase (gh_guardianXOnly h)) (toLowerCase (rg_expectedGuardianXOnly g)))
      then Some "GUARDIAN_KEY_MISMATCH"%string
      else None
  end.

(** What the client does with the service's answer. *)
Definition remote_accept (g : RemoteGuardian) (req : TransitionSignRequest) (response : GuardianSignSuccess)
    : result (TransitionSignOutcome * Psbt) :=
  let refuse reason detail := Ok (Refused reason detail None, tr_psbt req) in
  if negb (String.eqb (gs_profileHash response) (rg_expectedProfileHash g))
  then refuse "GUARDIAN_PROFILE_MISMATCH"%string "service profile hash differs from the committed profile"%string
  else if negb (String.eqb (toLowerCase (gs_guardianXOnly response)) (toLowerCase (rg_expectedGuardianXOnly g)))
  then refuse "GUARDIAN_KEY_MISMATCH"%string "service Guardian key differs from the committed profile"%string
  else match independentlyVerifySignature g (tr_psbt req) (fromHex (gs_sigHex response)) with
  | Throw e => refuse "SIGNATURE_VERIFICATION_FAILED"%string (exn_message e)
  | Ok _ =>
      signedPsbt ← fromBase64 (gs_signedPsbtBase64 response);
      input0 ← of_option undefined_prop (psbt_inputs signedPsbt !! 0%nat);
      match psi_finalScriptWitness input0 with
      | None => refuse "SIGNATURE_VERIFICATION_FAILED"%string "service returned no final witness"%string
      | Some witness =>
          psbt ← updateFinalWitness (tr_psbt req) 0 witness;
          r ← parseBigint (gs_resultJson response);
          Ok (Signed r, psbt)
      end
  end.

(** [requestId] is fresh; the transport answers or fails, a timeout included. *)
Definition remote_sign {T : Type} (transport : GuardianSignRequestWire → T → result GuardianSignResponseWire * T)
    (g : RemoteGuardian) (requestId : string) (req : TransitionSignRequest) (op : GuardianOperation) (t : T)
    : result (TransitionSignOutcome * Psbt) * T :=
  let refuse reason detail := Ok (Refused reason detail None, tr_psbt req) in
  match decodeCoveOpReturn (tr_psbt req) with
  | Throw e => (Throw e, t)
  | Ok (DeployV2 _ _ _) => (refuse "BAD_PSBT"%string "PSBT envelope is not a MINT/REDEEM"%string, t)
  | Ok (MintV2 tokenId _ _ | TransferV2 tokenId _ | RedeemV2 tokenId _ _) =>
      let wire := {| gw_requestId := requestId; gw_operation := op; gw_network := tr_network req;
                     gw_psbtBase64 := toBase64 (tr_psbt req); gw_tokenId := toHex tokenId |} in
      let '(response, t) := transport wire t in
      (match response with
       | Throw e => Ok (transport_failure e, tr_psbt req)
       | Ok (SignFailure reason detail) => refuse reason detail
       | Ok (SignSuccess response) => remote_accept g req response
       end, t)
  end.
End Api.
