(* ===== verification/SigningInv.v ===== *)
(** * Properties of Guardian signing

    Witness stacks are read back; what a signature implies; the calls of one
    signer and the journal; a remote signer and the signer behind it. *)
From S2P Require Import Prelude Bytes Curve Economics Wire Discovery Covenant Simplicity Vault Indexer Spend Guardian GuardianInv Journal AuditLog Signing.

(** ** Witness stacks *)
Lemma le_value_bytes n v : le_value (le_bytes n v) = v `mod` 256 ^ Z.of_nat n.
Proof. unfold le_value, le_bytes. by rewrite reverse_involutive, be_value_bytes. Qed.

Lemma blen_le_bytes n v : blen (le_bytes n v) = Z.of_nat n.
Proof. unfold blen, le_bytes. by rewrite length_reverse, be_bytes_length. Qed.

Lemma readLE_at p pre n v post off :
  p = pre ++ le_bytes n v ++ post → off = blen pre → 0 ≤ v < 256 ^ Z.of_nat n → readLE n p off = Ok v.
Proof.
  intros Hp Ho Hv. unfold readLE. rewrite (subarray_at p pre (le_bytes n v) post) by (rewrite ?blen_le_bytes; done).
  rewrite le_value_bytes, Z.mod_small by done. pose proof (blen_nonneg pre). pose proof (blen_nonneg post).
  destruct (_ && _) eqn:Hb; [done|]. exfalso. subst p off. rewrite !blen_app, blen_le_bytes in Hb. to_prop. lia.
Qed.

(** The side conditions of reading a field after the one byte of its kind. *)
Ltac field_at :=
  lazymatch goal with
  | |- _ = _ ++ _ ++ _ => rewrite <-app_assoc; assumption
  | |- _ = blen _ => rewrite blen_app; change (blen [?b]) with 1; lia
  | |- _ => change (Z.of_nat 2) with 2; change (Z.of_nat 4) with 4; lia
  end.

(** The three forms of a varint. *)
Lemma varInt_Ok n b :
  0 ≤ n → varInt n = Ok b →
  (n < 0xfd ∧ b = [to_byte n])
  ∨ (0xfd ≤ n < 256 ^ 2 ∧ b = to_byte 0xfd :: le_bytes 2 n)
  ∨ (0xfd ≤ n < 256 ^ 4 ∧ b = to_byte 0xfe :: le_bytes 4 n).
Proof.
  intros Hn H. unfold varInt in H.
  destruct (Z.ltb_spec n 0xfd); [injection H as <-; by left|].
  destruct (Z.leb_spec n 0xffff); [injection H as <-; right; left; split; [lia|done]|].
  res_inv H. to_prop. right. right. split; [lia|done].
Qed.

Lemma varint_at p pre n b post o :
  p = pre ++ b ++ post → o = blen pre → 0 ≤ n → varInt n = Ok b → varint p o = Ok (n, o + blen b).
Proof.
  intros Hp Ho Hn Hb. unfold varint. apply varInt_Ok in Hb as [[? ->]|[[? ->]|[? ->]]]; [..|done].
  - rewrite (byte_at_at p pre n post) by (done || lia). by rewrite (proj2 (Z.ltb_lt _ _)).
  - rewrite (byte_at_at p pre 0xfd (le_bytes 2 n ++ post)) by (done || lia). cbn [Z.ltb Z.eqb Z.compare Pos.compare Pos.eqb].
    rewrite (readLE_at p (pre ++ [to_byte 0xfd]) 2 n post) by field_at.
    step_ok. by rewrite blen_cons, blen_le_bytes.
  - rewrite (byte_at_at p pre 0xfe (le_bytes 4 n ++ post)) by (done || lia). cbn [Z.ltb Z.eqb Z.compare Pos.compare Pos.eqb].
    rewrite (readLE_at p (pre ++ [to_byte 0xfe]) 4 n post) by field_at.
    step_ok. by rewrite blen_cons, blen_le_bytes.
Qed.

Lemma readVarInt_at p pre n b post o :
  p = pre ++ b ++ post → o = blen pre → 0 ≤ n → varInt n = Ok b → readVarInt p o = Ok (n, o + blen b).
Proof.
  intros Hp Ho Hn Hb. unfold readVarInt. apply varInt_Ok in Hb as [[? ->]|[[? ->]|[? ->]]]; [..|done].
  - rewrite (byte_at_at p pre n post) by (done || lia).
    rewrite !bool_decide_false by (intros [= ?]; lia). by rewrite (proj2 (Z.ltb_lt _ _)).
  - rewrite (byte_at_at p pre 0xfd (le_bytes 2 n ++ post)) by (done || lia). rewrite bool_decide_true by done.
    rewrite (readLE_at p (pre ++ [to_byte 0xfd]) 2 n post) by field_at.
    step_ok. rewrite blen_cons, blen_le_bytes. do 2 f_equal. lia.
  - rewrite (byte_at_at p pre 0xfe (le_bytes 4 n ++ post)) by (done || lia).
    rewrite bool_decide_false, bool_decide_true by done.
    rewrite (readLE_at p (pre ++ [to_byte 0xfe]) 4 n post) by field_at.
    step_ok. rewrite blen_cons, blen_le_bytes. do 2 f_equal. lia.
Qed.

Lemma stack_items_at items p pre b post o :
  p = pre ++ b ++ post → o = blen pre → witness_items items = Ok b →
  stack_items (length items) p o = Ok items.
Proof.
  revert pre b o. induction items as [|it items IH]; intros pre b o Hp Ho Hb; [done|].
  cbn [witness_items] in Hb. apply bind_Ok in Hb as (len & Hlen & Hb). apply bind_Ok in Hb as (parts & Hparts & Hb).
  injection Hb as <-. cbn [length stack_items]. rewrite <-!app_assoc in Hp.
  rewrite (varint_at p pre (blen it) len (it ++ parts ++ post) o) by (done || apply blen_nonneg). step_ok.
  rewrite (IH (pre ++ len ++ it) parts); [|by rewrite Hp, <-!app_assoc|rewrite !blen_app; lia|done]. step_ok.
  rewrite (subarray_at p (pre ++ len) it (parts ++ post)); [done|by rewrite Hp, <-!app_assoc|rewrite blen_app; lia|lia].
Qed.

Lemma witnessStack_scriptWitness items w : scriptWitness items = Ok w → witnessStack w = Ok items.
Proof.
  intros H. unfold scriptWitness in H. apply bind_Ok in H as (count & Hc & H). apply bind_Ok in H as (parts & Hp & H).
  injection H as <-. unfold witnessStack.
  rewrite (varint_at _ [] (Z.of_nat (length items)) count parts 0) by (done || lia). step_ok.
  rewrite Nat2Z.id. by apply (stack_items_at items _ count parts []); [rewrite app_nil_r|lia|].
Qed.

Lemma extractWitnessSig_scriptWitness sig items w :
  scriptWitness (sig :: items) = Ok w → extractWitnessSig w = Ok sig.
Proof.
  intros H. unfold scriptWitness in H. apply bind_Ok in H as (count & Hc & H). apply bind_Ok in H as (parts & Hp & H).
  injection H as <-. unfold extractWitnessSig.
  rewrite (readVarInt_at _ [] (Z.of_nat (length (sig :: items))) count parts 0) by (done || lia). step_ok.
  guard_step ltac:(cbn [length]; lia).
  cbn [witness_items] in Hp. apply bind_Ok in Hp as (len & Hlen & Hp). apply bind_Ok in Hp as (rest & Hr & Hp).
  injection Hp as <-.
  rewrite (readVarInt_at _ count (blen sig) len (sig ++ rest)) by (done || apply blen_nonneg || lia). step_ok.
  f_equal. apply (subarray_at _ (count ++ len) sig rest); [by rewrite <-!app_assoc|rewrite blen_app; lia|lia].
Qed.

(** a serialized witness is read back: the wallet's reader returns the items
    and the service's reader the first of them, whatever their number and
    lengths. *)
Theorem witness_stack_roundtrip items w :
  scriptWitness items = Ok w →
  witnessStack w = Ok items ∧ (∀ sig, head items = Some sig → extractWitnessSig w = Ok sig).
Proof.
  intros H. split; [by apply witnessStack_scriptWitness|]. intros sig Hs.
  destruct items as [|it items]; [done|]. injection Hs as ->. by eapply extractWitnessSig_scriptWitness.
Qed.

Lemma witness_stack_roundtrip_witness :
  let items := [zeros 64; zeros 300; []] in
  let w := match scriptWitness items with Ok w => w | Throw _ => [] end in
  witnessStack w = Ok items ∧ (∀ sig, head items = Some sig → extractWitnessSig w = Ok sig).
Proof. intros items w. apply witness_stack_roundtrip. vm_compute. reflexivity. Defined.

(** ** The signature *)
Section Backend.
Context {B : BitcoinJs} {Ec : Ecc}.

(** What a signing backend promises: the signature verifies under its own key,
    over the PSBT it was given, and is committed in the witness. *)
Definition faithful_backend (signer : GuardianSigningBackend) : Prop :=
  ∀ psbt i leaf control psbt' sig,
    sb_signVaultExecutionLeaf signer psbt i leaf control = Ok (psbt', sig) →
    ∃ x, sb_xOnlyPubkey signer = Ok x
    ∧ verifyVaultExecutionSignature psbt i leaf sig x = Ok tt
    ∧ commitVaultExecutionWitness psbt i leaf control sig = Ok psbt'.

Lemma local_backend_faithful s : faithful_backend (localSigningBackend s).
Proof.
  intros psbt i leaf control psbt' sig H. cbn in H. unfold signVaultExecutionLeaf in H.
  apply bind_Ok in H as (sg & Hs & H). apply bind_Ok in H as ([] & Hv & H). apply bind_Ok in H as (p & Hc & H).
  injection H as <- <-. by exists (g3_xOnly s).
Qed.

Lemma custody_backend_faithful b : faithful_backend (custodySigningBackend b).
Proof.
  intros psbt i leaf control psbt' sig H. cbn in H. unfold signVaultExecutionLeafWithCustody in H.
  apply bind_Ok in H as (h & Hh & H). apply bind_Ok in H as (sg & Hs & H). apply bind_Ok in H as (x & Hx & H).
  apply bind_Ok in H as ([] & Hv & H). apply bind_Ok in H as (p & Hc & H). injection H as <- <-. by exists x.
Qed.

(** Committing a witness changes nothing a signature covers. *)
Lemma commit_unsigned psbt i leaf control sig psbt' :
  commitVaultExecutionWitness psbt i leaf control sig = Ok psbt' →
  unsignedTransaction psbt' = unsignedTransaction psbt
  ∧ ∃ w input, psbt_inputs psbt' !! Z.to_nat i = Some input ∧ psi_finalScriptWitness input = Some w
    ∧ updateFinalWitness psbt i w = Ok psbt'
    ∧ scriptWitness [sig; subarray (leaf_script leaf) 1 33; leaf_script leaf; control] = Ok w.
Proof.
  unfold commitVaultExecutionWitness. intros H. apply bind_Ok in H as (w & Hw & H). pose proof H as Hu.
  apply updateFinalWitness_sets in H as (Ho & before & input & after & Hi & Hlen & Hi'). split.
  - unfold unsignedTransaction. by rewrite Ho, Hi, Hi', !fmap_app, !fmap_cons.
  - eexists w, _. split_and!; [rewrite Hi', <-Hlen, Nat2Z.id; by apply list_lookup_middle|done..].
Qed.
End Backend.

Section Calls.
Context {C : Crypto} {B : BitcoinJs}.
Context {J : Type} {SJ : SigningJournalStore J}.
Context (execFile : string → list string → Z → exec_outcome) (bin : option string).
Context (signer : GuardianSigningBackend) (policy : GuardianRiskPolicy).

(** What a call that produced the signature of [psbt'] went through, in order:
    the validator, the risk policy, the durable record, the reservation. *)
Definition signed_by (req : TransitionSignRequest) (op : GuardianOperation) (env : SignEnv) (j j' : J)
    (psbt' : Psbt) (record : AuditRecord) (effects : list SignEffect) : Prop :=
  ∃ x a sim hash r v sig,
    sb_xOnlyPubkey signer = Ok x
    ∧ validate_transition execFile bin req op x = Ok (VOk a sim)
    ∧ checkRiskPolicy policy a = None
    ∧ buildAuditRecord env op (tr_network req) (tr_psbt req) a sim = Ok record
    ∧ env_writeBeforeSign env record = Ok hash
    ∧ reserve j (env_now env) (env_later env) (record_key record) (aud_unsignedTxDigest record) = (r, j')
    ∧ r ≠ CONFLICT
    ∧ transition_vault (validate_params req x) (an_currentState a) = Ok v
    ∧ sb_signVaultExecutionLeaf signer (tr_psbt req) 0 (op_leaf op v) (op_control op v) = Ok (psbt', sig)
    ∧ effects = [Audited record hash; Reserved (record_key record) (aud_unsignedTxDigest record) r; SignedInput psbt']
                ++ match env_writeAfterSign env record hash with Ok _ => [Finalized hash] | Throw _ => [] end.

Lemma sign_prepare_inr req op env j p j' effects :
  sign_prepare execFile bin signer policy req op env j = (Ok (inr p), j', effects) →
  ∃ sim,
    sb_xOnlyPubkey signer = Ok (pr_guardianXOnly p)
    ∧ validate_transition execFile bin req op (pr_guardianXOnly p) = Ok (VOk (pr_analysis p) sim)
    ∧ checkRiskPolicy policy (pr_analysis p) = None
    ∧ buildAuditRecord env op (tr_network req) (tr_psbt req) (pr_analysis p) sim = Ok (pr_record p)
    ∧ env_writeBeforeSign env (pr_record p) = Ok (pr_auditHash p)
    ∧ reserve j (env_now env) (env_later env) (record_key (pr_record p)) (aud_unsignedTxDigest (pr_record p))
      = (pr_reservation p, j')
    ∧ pr_reservation p ≠ CONFLICT
    ∧ effects = [Audited (pr_record p) (pr_auditHash p);
                 Reserved (record_key (pr_record p)) (aud_unsignedTxDigest (pr_record p)) (pr_reservation p)].
Proof.
  unfold sign_prepare. intros H.
  destruct (sb_xOnlyPubkey signer) as [x|e] eqn:Ex; cbn in H; [|done].
  destruct (validate_transition _ _ _ _ _) as [[a sim|]|e] eqn:Ev; cbn in H; [|done..].
  destruct (checkRiskPolicy policy a) eqn:Er; cbn in H; [done|].
  destruct (buildAuditRecord _ _ _ _ _ _) as [record|e] eqn:Eb; cbn in H; [|done].
  destruct (env_writeBeforeSign env record) as [hash|e] eqn:Ew; cbn in H; [|done].
  destruct (reserve _ _ _ _ _) as [r j1] eqn:Ej.
  exists sim. destruct r; simplify_eq; cbn; split_and!; done.
Qed.

Lemma sign_prepare_signs req op env j r j' effects psbt' :
  sign_prepare execFile bin signer policy req op env j = (r, j', effects) → SignedInput psbt' ∉ effects.
Proof.
  unfold sign_prepare. intros H.
  destruct (_ ≫= _) as [[o|[[[a record] hash] x]]|e]; [injection H as _ _ <-; set_solver| |injection H as _ _ <-; set_solver].
  destruct (reserve _ _ _ _ _) as [rv j1]. destruct rv; injection H as _ _ <-; set_solver.
Qed.

Lemma sign_signed_by req op env j r j' effects psbt' :
  sign execFile bin signer policy req op env j = (r, j', effects) →
  SignedInput psbt' ∈ effects ↔
  ∃ res, r = Ok (Signed res, psbt') ∧ signed_by req op env j j' psbt' (sr_audit res) effects.
Proof.
  unfold sign. intros H. destruct (sign_prepare _ _ _ _ _ _ _ _) as [[rp jp] ep] eqn:Ep.
  destruct rp as [[o|p]|e].
  - injection H as <- <- <-. split; [by intros ?%(sign_prepare_signs _ _ _ _ _ _ _ _ Ep)|].
    intros (res & [= ->] & x & a & sim & hash & rv & v & sig & Hs). exfalso.
    destruct Hs as (_ & _ & _ & _ & _ & _ & _ & _ & _ & ->).
    apply (sign_prepare_signs _ _ _ _ _ _ _ psbt') in Ep. set_solver.
  - pose proof (sign_prepare_signs _ _ _ _ _ _ _ psbt' Ep) as Hns.
    apply sign_prepare_inr in Ep as (sim & H1 & H2 & H3 & H4 & H5 & H6 & H7 & ->).
    unfold sign_finish in H.
    destruct (transition_vault _ _) as [v|e] eqn:Ev.
    + destruct (sb_signVaultExecutionLeaf _ _ _ _ _) as [[ps sig]|e] eqn:Es.
      * injection H as <- <- <-. split.
        -- intros Hin. assert (ps = psbt') as ->.
           { destruct (env_writeAfterSign _ _ _); set_solver. }
           eexists. split; [reflexivity|]. by exists (pr_guardianXOnly p), (pr_analysis p), sim, (pr_auditHash p), (pr_reservation p), v, sig.
        -- intros (res & [= _ ->] & _). set_solver.
      * destruct (pr_reservation p); injection H as <- <- <-; (split; [set_solver|by intros (? & ? & _)]).
    + injection H as <- <- <-. split; [set_solver|]. by intros (? & ? & _).
  - injection H as <- <- <-. split; [by intros ?%(sign_prepare_signs _ _ _ _ _ _ _ _ Ep)|]. by intros (? & ? & _).
Qed.

Lemma sign_outcome req op env j res psbt' j' effects :
  sign execFile bin signer policy req op env j = (Ok (Signed res, psbt'), j', effects) →
  SignedInput psbt' ∈ effects.
Proof.
  unfold sign. intros H. destruct (sign_prepare _ _ _ _ _ _ _ _) as [[rp jp] ep] eqn:Ep.
  destruct rp as [[o|p]|e]; [..|done].
  - exfalso. injection H as -> _ _ _. unfold sign_prepare in Ep.
    destruct (sb_xOnlyPubkey signer) as [x|]; cbn in Ep; [|done].
    destruct (validate_transition _ _ _ _ _) as [[a sim|]|]; cbn in Ep; [|done..].
    destruct (checkRiskPolicy policy a); cbn in Ep; [done|].
    destruct (buildAuditRecord _ _ _ _ _ _) as [record|]; cbn in Ep; [|done].
    destruct (env_writeBeforeSign env record); cbn in Ep; [|done].
    by destruct (reserve _ _ _ _ _) as [[] j1].
  - unfold sign_finish in H. destruct (transition_vault _ _); [|done].
    destruct (sb_signVaultExecutionLeaf _ _ _ _ _) as [[ps sig]|].
    + injection H as _ -> _ <-. set_solver.
    + by destruct (pr_reservation p).
Qed.

(** a signature leaves the Guardian only for a transition its validator and
    its risk policy accepted, after the audit sink confirmed the record and the
    journal granted the outpoint, in that order; the call then reports it with
    that record, whatever happens after. *)
Theorem signature_implies req op env j r j' effects psbt' :
  sign execFile bin signer policy req op env j = (r, j', effects) →
  SignedInput psbt' ∈ effects ↔
  ∃ res, r = Ok (Signed res, psbt') ∧ signed_by req op env j j' psbt' (sr_audit res) effects.
Proof. apply sign_signed_by. Qed.

(** ** The calls of one signer *)

(** The validator has derived the vault the signer derives again. *)
Lemma validated_vault req op x a sim :
  validate_transition execFile bin req op x = Ok (VOk a sim) →
  ∃ v, transition_vault (validate_params req x) (an_currentState a) = Ok v.
Proof.
  destruct op; cbn [validate_transition]; intros H.
  - destruct (validateMint_kind _ _ _ _ _ H) as [m ->]. apply validateMint_valid in H as (_ & _ & pv & _ & _ & _ & _ & _ & Hv & _).
    by exists pv.
  - destruct (validateRedeem_kind _ _ _ _ _ H) as [m ->]. apply validateRedeem_valid in H as (_ & _ & pv & _ & _ & _ & _ & _ & Hv & _).
    by exists pv.
Qed.

(** The vault a signed transaction spends, as the journal names it: the outpoint
    of its first input. *)
Definition spent_vault (network : V3Network) (psbt : Psbt) : JournalKey :=
  let o := default {| op_txid := ""; op_vout := 0 |} (txin_outpoint ∘ psi_txin <$> head (psbt_inputs psbt)) in
  {| jk_network := network; jk_backingTxid := op_txid o; jk_backingVout := op_vout o |}.

(** The PSBTs a call signed: what its trace says it signed, and what it answered
    as signed. *)
Definition traced (effects : list SignEffect) : list Psbt :=
  omap (λ e, match e with SignedInput psbt => Some psbt | _ => None end) effects.
Definition signed_psbts (r : result (TransitionSignOutcome * Psbt)) (effects : list SignEffect) : list Psbt :=
  match r with Ok (Signed _, psbt) => [psbt] | _ => [] end ++ traced effects.

(** One signature, read off the PSBT that carries it: the vault it spends and
    the id of its transaction, when its call started, whether no lease ran for
    that vault then, and when the lease the journal holds for that vault
    afterwards ends. *)
Definition signature_grant (network : V3Network) (j j' : J) (env : SignEnv) (psbt : Psbt) : Grant :=
  let k := spent_vault network psbt in
  {| gr_key := k; gr_digest := unsignedTxDigest psbt;
     gr_fresh := match live_lease j (env_now env) k with None => true | Some _ => false end; gr_at := env_now env;
     gr_until := match lease j' k with Some l => rs_expiresAt l | None => env_now env end |}.

(** One call of [sign], later than the call before. *)
Definition call_step (s s' : Signers J) : Prop :=
  ∃ req op env r effects,
    sn_now s ≤ env_now env ≤ env_later env
    ∧ sign execFile bin signer policy req op env (sn_store s) = (r, sn_store s', effects)
    ∧ sn_now s' = env_later env ∧ sn_held s = [] ∧ sn_held s' = []
    ∧ sn_signed s' = (signature_grant (tr_network req) (sn_store s) (sn_store s') env <$> signed_psbts r effects)
                     ++ sn_signed s.

Lemma serial_tick (s : Signers J) later :
  sn_now s ≤ later → sn_held s = [] →
  serial_step s {| sn_store := sn_store s; sn_now := later; sn_held := []; sn_signed := sn_signed s |}.
Proof.
  intros Hn Hh. split_and!; [done..|]. eexists. split; [by apply (step_tick _ s later)|]. left. by rewrite Hh.
Qed.

(** A call that ends before its signature left the journal alone, or was refused
    by it. *)
Lemma sign_prepare_ends req op env j rp jp ep :
  sign_prepare execFile bin signer policy req op env j = (rp, jp, ep) →
  (∃ p, rp = Ok (inr p))
  ∨ ((∀ p, rp ≠ Ok (inr p)) ∧ (∀ res, rp ≠ Ok (inl (Signed res))) ∧ traced ep = []
     ∧ (jp = j ∨ ∃ k d, reserve j (env_now env) (env_later env) k d = (CONFLICT, jp))).
Proof.
  unfold sign_prepare. intros H.
  destruct (sb_xOnlyPubkey signer) as [x|e]; cbn in H; [|right; simplify_eq; by auto].
  destruct (validate_transition _ _ _ _ _) as [[a sim|]|e]; cbn in H; [|right; simplify_eq; by auto..].
  destruct (checkRiskPolicy policy a); cbn in H; [right; simplify_eq; by auto|].
  destruct (buildAuditRecord _ _ _ _ _ _) as [record|e]; cbn in H; [|right; simplify_eq; by auto].
  destruct (env_writeBeforeSign env record) as [hash|e]; cbn in H; [|right; simplify_eq; by auto].
  destruct (reserve _ _ _ _ _) as [rv j1] eqn:Er.
  destruct rv; simplify_eq; [left; by eexists..|]. right. split_and!; [done..|]. right. by do 2 eexists.
Qed.

Lemma traced_in effects psbt : psbt ∈ traced effects ↔ SignedInput psbt ∈ effects.
Proof.
  unfold traced. rewrite list_elem_of_omap. split; [|intros H; by exists (SignedInput psbt)].
  intros (e & He & Hp). destruct e; simplify_eq. exact He.
Qed.

(** What a call signed is what it answered with. *)
Lemma signed_psbts_in req op env (j j' : J) r effects psbt :
  sign execFile bin signer policy req op env j = (r, j', effects) →
  psbt ∈ signed_psbts r effects →
  ∃ res, r = Ok (Signed res, psbt) ∧ signed_by req op env j j' psbt (sr_audit res) effects.
Proof.
  intros Hs Hin. apply (sign_signed_by _ _ _ _ _ _ _ _ Hs). unfold signed_psbts in Hin.
  apply elem_of_app in Hin as [Hin|Hin]; [|by apply traced_in].
  destruct r as [[[res|] ps]|]; [|by apply elem_of_nil in Hin..]. apply list_elem_of_singleton in Hin as ->.
  by eapply sign_outcome.
Qed.

Context {SL : SigningJournalLaws J}.
#[local] Set Default Proof Using "Type*".

Lemma reserved_lease (j : J) now later k d r j' :
  now ≤ later → reserve j now later k d = (r, j') → r ≠ CONFLICT → ∃ l, lease j' k = Some l.
Proof.
  intros Hn Hr Hc. destruct (live_lease j now k) as [l0|] eqn:El.
  - rewrite (reserve_live _ _ _ _ _ _ El) in Hr. apply live_lease_Some in El as [El _].
    injection Hr as _ <-. by exists l0.
  - destruct (reserve_free _ _ _ k d Hn El) as (s' & t & E & _ & Hs & _). rewrite E in Hr.
    injection Hr as _ <-. by eexists.
Qed.

(** A reservation says whether a lease ran. *)
Lemma reserved_fresh (j : J) now later k d r j' :
  now ≤ later → reserve j now later k d = (r, j') →
  is_reserved r = match live_lease j now k with None => true | Some _ => false end.
Proof.
  intros Hn Hr. destruct (live_lease j now k) as [l0|] eqn:El.
  - rewrite (reserve_live _ _ _ _ _ _ El) in Hr. injection Hr as <- _. by destruct (String.eqb _ _).
  - destruct (reserve_free _ _ _ k d Hn El) as (s' & t & E & _). rewrite E in Hr. by injection Hr as <- _.
Qed.

(** The only held grant is signed, or fails. *)
Lemma sign_held (j : J) now g signed :
  signer_step false {| sn_store := j; sn_now := now; sn_held := [g]; sn_signed := signed |}
    {| sn_store := j; sn_now := now; sn_held := []; sn_signed := g :: signed |}.
Proof. by apply (step_sign false {| sn_store := j; sn_now := now; sn_held := [g]; sn_signed := signed |} g [] [] now). Qed.

Lemma fail_held (j : J) now g signed :
  signer_step false {| sn_store := j; sn_now := now; sn_held := [g]; sn_signed := signed |}
    {| sn_store := if gr_fresh g then release j (gr_key g) (gr_digest g) else j; sn_now := now;
       sn_held := []; sn_signed := signed |}.
Proof. by apply (step_fail false {| sn_store := j; sn_now := now; sn_held := [g]; sn_signed := signed |} g [] [] now). Qed.

(** The vault and the transaction of a validated PSBT are those of its audit
    record. *)
Lemma validated_record req op env x a sim record :
  validate_transition execFile bin req op x = Ok (VOk a sim) →
  buildAuditRecord env op (tr_network req) (tr_psbt req) a sim = Ok record →
  record_key record = spent_vault (tr_network req) (tr_psbt req)
  ∧ aud_unsignedTxDigest record = unsignedTxDigest (tr_psbt req).
Proof.
  intros Hv Hr. unfold buildAuditRecord in Hr. apply bind_Ok in Hr as (p & _ & Hr). apply bind_Ok in Hr as (n & _ & Hr).
  injection Hr as <-. split; [|done]. unfold record_key, spent_vault. cbn [aud_network aud_backingOutpoint].
  assert (∃ i, psbt_inputs (tr_psbt req) !! 0%nat = Some i ∧ txin_outpoint (psi_txin i) = an_backingOutpoint a) as (i & Hi & Eo).
  { destruct op; cbn [validate_transition] in Hv.
    - destruct (validateMint_kind _ _ _ _ _ Hv) as [m ->]. apply validateMint_valid in Hv as (_ & Ha & _).
      apply analyzeMint_Ok in Ha as (_ & _ & _ & Hi & _). exact Hi.
    - destruct (validateRedeem_kind _ _ _ _ _ Hv) as [m ->]. apply validateRedeem_valid in Hv as (_ & Ha & _).
      apply analyzeRedeem_Ok in Ha as (_ & _ & _ & Hi & _). exact Hi. }
  destruct (psbt_inputs (tr_psbt req)) as [|i' l]; [done|]. injection Hi as ->. by rewrite <-Eo.
Qed.

(** A faithful backend's signature is for the vault and the transaction of the
    PSBT it was given. *)
Lemma spent_vault_unsigned network psbt psbt' :
  unsignedTransaction psbt' = unsignedTransaction psbt →
  spent_vault network psbt' = spent_vault network psbt ∧ unsignedTxDigest psbt' = unsignedTxDigest psbt.
Proof.
  intros E. split; [|unfold unsignedTxDigest; by rewrite E]. unfold unsignedTransaction in E. injection E as Ei _.
  unfold spent_vault. destruct (psbt_inputs psbt) as [|i l], (psbt_inputs psbt') as [|i' l']; [done|discriminate Ei..|].
  injection Ei as Et. cbn. by rewrite Et.
Qed.

Context {Ec : Ecc} (Hfaithful : faithful_backend signer).

Lemma signed_grant req op env (j j' : J) psbt' record effects :
  env_now env ≤ env_later env →
  signed_by req op env j j' psbt' record effects →
  ∃ r l, reserve j (env_now env) (env_later env) (record_key record) (aud_unsignedTxDigest record) = (r, j')
  ∧ r ≠ CONFLICT ∧ lease j' (record_key record) = Some l
  ∧ signature_grant (tr_network req) j j' env psbt'
    = {| gr_key := record_key record; gr_digest := aud_unsignedTxDigest record; gr_fresh := is_reserved r;
         gr_at := env_now env; gr_until := rs_expiresAt l |}.
Proof.
  intros Hn (x & a & sim & hash & r & v & sig & Hx & Hv & _ & Hb & _ & Hr & Hc & _ & Hs & _).
  destruct (reserved_lease _ _ _ _ _ _ _ Hn Hr Hc) as [l Hl]. exists r, l. split_and!; [done..|].
  apply Hfaithful in Hs as (x' & _ & _ & Hcom). apply commit_unsigned in Hcom as [Hu _].
  destruct (validated_record _ _ _ _ _ _ _ Hv Hb) as [Ek Ed].
  destruct (spent_vault_unsigned (tr_network req) _ _ Hu) as [Ek' Ed'].
  unfold signature_grant. rewrite Ek', Ed', <-Ek, <-Ed, Hl. by rewrite (reserved_fresh _ _ _ _ _ _ _ Hn Hr).
Qed.

(** A run of serial steps with the same store and clock, and at least the same
    signatures. *)
Record follows (s u : Signers J) : Prop := {
  fl_store : sn_store u = sn_store s; fl_now : sn_now u = sn_now s;
  fl_held : sn_held u = []; fl_signed : ∀ g, g ∈ sn_signed s → g ∈ sn_signed u;
}.

(** A call that signed nothing. *)
Lemma unsigned_serial req op env (j j' : J) r effects signed :
  env_now env ≤ env_later env →
  sign execFile bin signer policy req op env j = (r, j', effects) → (∀ res ps, r ≠ Ok (Signed res, ps)) →
  serial_step {| sn_store := j; sn_now := env_now env; sn_held := []; sn_signed := signed |}
    {| sn_store := j'; sn_now := env_later env; sn_held := []; sn_signed := signed |}.
Proof.
  intros Hn Hs Hno. set (u := {| sn_store := j; sn_now := env_now env; sn_held := []; sn_signed := signed |}).
  unfold sign in Hs. destruct (sign_prepare _ _ _ _ _ _ _ _) as [[rp jp] ep] eqn:Ep.
  destruct (sign_prepare_ends _ _ _ _ _ _ _ Ep) as [[p ->]|(Hnp & _ & _ & Hj)].
  - apply sign_prepare_inr in Ep as (sim & Hx & Hv & _ & _ & _ & Hr & Hc & ->).
    destruct (reserved_lease _ _ _ _ _ _ _ Hn Hr Hc) as [l Hl].
    pose proof (step_reserve false u _ _ (env_later env) _ _ l Hn Hr Hc Hl) as H1.
    unfold sign_finish in Hs. destruct (validated_vault _ _ _ _ _ Hv) as [v Hvault]. rewrite Hvault in Hs.
    split_and!; [done..|]. eexists. split; [exact H1|]. right.
    destruct (sb_signVaultExecutionLeaf _ _ _ _ _) as [[ps sig]|e].
    + injection Hs as Er _ _. by destruct (Hno _ _ (eq_sym Er)).
    + pose proof (fail_held jp (env_later env) {| gr_key := record_key (pr_record p);
        gr_digest := aud_unsignedTxDigest (pr_record p); gr_fresh := is_reserved (pr_reservation p);
        gr_at := env_now env; gr_until := rs_expiresAt l |} signed) as Hf. cbn [gr_fresh gr_key gr_digest] in Hf.
      destruct (pr_reservation p); injection Hs as _ <- _; exact Hf.
  - destruct rp as [[o|p]|e]; [|by destruct (Hnp p)|]; injection Hs as _ <- _;
      (destruct Hj as [->|(k & d & Hr)]; [by apply (serial_tick u)|]);
      (split_and!; [done..|]; eexists; split; [by apply (step_refused false u k d (env_later env) jp)|by left]).
Qed.

(** A call that did. *)
Lemma signed_serial req op env (j j' : J) psbt' record effects signed :
  env_now env ≤ env_later env →
  signed_by req op env j j' psbt' record effects →
  serial_step {| sn_store := j; sn_now := env_now env; sn_held := []; sn_signed := signed |}
    {| sn_store := j'; sn_now := env_later env; sn_held := [];
       sn_signed := signature_grant (tr_network req) j j' env psbt' :: signed |}.
Proof.
  intros Hn Hby. destruct (signed_grant _ _ _ _ _ _ _ _ Hn Hby) as (r & l & Hr & Hc & Hl & ->).
  set (u := {| sn_store := j; sn_now := env_now env; sn_held := []; sn_signed := signed |}).
  pose proof (step_reserve false u _ _ (env_later env) _ _ l Hn Hr Hc Hl) as H1.
  split_and!; [done..|]. eexists. split; [exact H1|]. right. apply sign_held.
Qed.

Lemma call_serial s s' u : call_step s s' → follows s u → ∃ u', rtc serial_step u u' ∧ follows s' u'.
Proof.
  intros (req & op & env & r & effects & [Hn1 Hn2] & Hs & Hnow & Hh & Hh' & Hsig) [Eu1 Eu2 Eu3 Eu4].
  destruct s as [j now held signed], s' as [j' now' held' signed'], u as [ju nu hu su]. cbn in *.
  subst held held' now' signed' ju nu hu.
  assert (∃ u', serial_step {| sn_store := j; sn_now := env_now env; sn_held := []; sn_signed := su |} u'
    ∧ follows {| sn_store := j'; sn_now := env_later env; sn_held := [];
         sn_signed := (signature_grant (tr_network req) j j' env <$> signed_psbts r effects) ++ signed |} u')
    as (u' & H1 & H2); [|exists u'; split; [|exact H2]; eapply rtc_l; [by apply (serial_tick _ (env_now env))|by apply rtc_once]].
  destruct (signed_psbts r effects) as [|ps l] eqn:El.
  - eexists. split; [apply (unsigned_serial _ _ _ _ _ _ _ su Hn2 Hs)|by split].
    intros res ps ->. discriminate El.
  - destruct (signed_psbts_in _ _ _ _ _ _ _ ps Hs) as (res & -> & Hby); [rewrite El; left|].
    eexists. split; [apply (signed_serial _ _ _ _ _ _ _ _ su Hn2 Hby)|]. split; [done..|]. cbn [sn_signed]. intros g.
    rewrite <-El, elem_of_app, list_elem_of_fmap. intros [(p & -> & Hp)|Hg]; [|right; by apply Eu4].
    destruct (signed_psbts_in _ _ _ _ _ _ _ p Hs Hp) as (res' & [= _ ->] & _). left.
Qed.

Lemma calls_serial s s' u : rtc call_step s s' → follows s u → ∃ u', rtc serial_step u u' ∧ follows s' u'.
Proof.
  intros Hr. revert u. induction Hr as [s|s s1 s' Hc _ IH]; intros u Hf; [by exists u|].
  destruct (call_serial _ _ _ Hc Hf) as (u1 & H1 & Hf1). destruct (IH _ Hf1) as (u2 & H2 & Hf2).
  exists u2. split; [by etrans|done].
Qed.

(** C21: whatever it is asked, one call at a time, the Guardian never signs two
    different transactions for one vault outpoint under overlapping leases.
    The signatures are read off the signed PSBTs: the outpoint their first
    input spends and the id of their unsigned transaction.  The call for the
    second started after the lease the journal held for that outpoint at the
    first signature had ended, and at least thirty minutes after the first
    call where no lease ran when that one started.  The signing backend signs
    the PSBT it is given, as both backends of the code do. *)
Theorem guardian_signs_one (j : J) now s a b :
  rtc call_step (no_signers j now) s →
  a ∈ sn_signed s → b ∈ sn_signed s → gr_key a = gr_key b → gr_digest a ≠ gr_digest b →
  gr_at a ≤ gr_at b →
  gr_at a < gr_until a ≤ gr_at b
  ∧ (gr_fresh a = true → gr_at a + SIGNING_JOURNAL_TTL_MS ≤ gr_at b).
Proof.
  intros Hr Ha Hb. destruct (calls_serial _ _ (no_signers j now) Hr) as (u & Hu & Hf); [by split|].
  apply (grants_exclude u); [|by apply (fl_signed _ _ Hf)..].
  eapply exclusive_run; [|apply (exclusive_start j now)]. apply serial_run; [exact Hu|apply exclusive_start].
Qed.
End Calls.

(** ** A remote signer and the signer behind it *)
Definition envelope_token (e : ParsedEnvelopeV2) : option (list byte) :=
  match e with
  | DeployV2 _ _ _ => None
  | MintV2 t _ _ | TransferV2 t _ | RedeemV2 t _ _ => Some t
  end.

Section Remote.
Context {C : Crypto} {B : BitcoinJs} {Ec : Ecc}.
Context {J : Type} {SJ : SigningJournalStore J}.
Context (execFile : string → list string → Z → exec_outcome) (bin : option string).
Context (signer : GuardianSigningBackend) (policy : GuardianRiskPolicy).
Context (toBase64 : Psbt → string) (fromBase64 : string → result Psbt).
Context (stringifyBigint : SignedTransitionResult → string) (parseBigint : string → result SignedTransitionResult).

(** The vault's leaves carry their own hashes. *)
Lemma vault_leaf_hash params s v op :
  transition_vault params s = Ok v →
  leaf_tapleafHash (op_leaf op v) = tapleafHash (leaf_script (op_leaf op v)) 0xc0.
Proof.
  unfold transition_vault, buildBackingVaultV3. intros H. apply bind_Ok in H as ([m r] & _ & H).
  unfold buildCoveVaultV3 in H. do 4 apply bind_Ok in H as (? & _ & H).
  apply bind_Ok in H as ([k p] & _ & H). do 3 apply bind_Ok in H as (? & _ & H). injection H as <-. by destruct op.
Qed.

(** The leaf a validated PSBT spends is the vault's, whatever its version byte. *)
Lemma validated_leaf req op x a sim v :
  validate_transition execFile bin req op x = Ok (VOk a sim) →
  transition_vault (validate_params req x) (an_currentState a) = Ok v →
  ∃ input0 given rest, psbt_inputs (tr_psbt req) !! 0%nat = Some input0
  ∧ psi_tapLeafScript input0 = Some (given :: rest) ∧ tls_script given = leaf_script (op_leaf op v).
Proof.
  destruct op; cbn [validate_transition]; intros H Hv.
  - destruct (validateMint_kind _ _ _ _ _ H) as [m ->].
    apply validateMint_valid in H as (_ & _ & pv & _ & i0 & _ & _ & _ & Hpv & _ & Hi & (_ & _ & given & rest & Hl & Hs & _) & _).
    cbn in *. rewrite Hpv in Hv. injection Hv as ->. by exists i0, given, rest.
  - destruct (validateRedeem_kind _ _ _ _ _ H) as [m ->].
    apply validateRedeem_valid in H as (_ & _ & pv & _ & i0 & _ & _ & _ & Hpv & _ & Hi & (_ & _ & given & rest & Hl & Hs & _) & _).
    cbn in *. rewrite Hpv in Hv. injection Hv as ->. by exists i0, given, rest.
Qed.

(** What the client of a remote signer is told. *)
Definition remote_outcome (psbt : Psbt) (r : result (TransitionSignOutcome * Psbt))
    : result (TransitionSignOutcome * Psbt) :=
  match r with
  | Ok (Signed res, psbt') => Ok (Signed res, psbt')
  | Ok (Refused reason detail _, _) => Ok (Refused reason detail None, psbt)
  | Throw e => Ok (transport_failure e, psbt)
  end.

(** The service is the client's: one profile, one key, one request. *)
Record serves (opts : InProcessGuardianTransportOptions (J := J)) (g : RemoteGuardian)
    (req : TransitionSignRequest) (x : list byte) : Prop := {
  sv_signer : ip_signer opts = sign execFile bin signer policy;
  sv_key : sb_xOnlyPubkey signer = Ok x;
  sv_profile : ip_profileHash opts = rg_expectedProfileHash g;
  sv_xOnly : ip_guardianXOnly opts = toHex x;
  sv_expected : rg_expectedGuardianXOnly g = toHex x;
  sv_request : service_request opts (tr_psbt req) (tr_view req) = req;
  sv_view : ∀ e t, decodeCoveOpReturn (tr_psbt req) = Ok e → envelope_token e = Some t →
            ip_loadView opts (toHex t) = Ok (tr_view req);
}.

(** The leaves of the PSBT say the tapscript version. *)
Definition tapscript_leaves (psbt : Psbt) : Prop :=
  ∀ input0 leaf rest, psbt_inputs psbt !! 0%nat = Some input0 →
    psi_tapLeafScript input0 = Some (leaf :: rest) → tls_leafVersion leaf = 0xc0.

(** What the service answers to a signed call, the client accepts. *)
Lemma remote_accepts opts g req x op env j j' psbt' res effects :
  faithful_backend signer → serves opts g req x → tapscript_leaves (tr_psbt req) →
  fromBase64 (toBase64 psbt') = Ok psbt' → parseBigint (stringifyBigint res) = Ok res →
  signed_by execFile bin signer policy req op env j j' psbt' (sr_audit res) effects →
  ∃ success, signed_response toBase64 stringifyBigint opts res psbt' = Ok (SignSuccess success)
  ∧ remote_accept fromBase64 parseBigint g req success = Ok (Signed res, psbt').
Proof.
  intros Hfb Hsv Hts H64 Hjs (x0 & a & sim & hash & rv & v & sig & Hx & Hval & _ & _ & _ & _ & _ & Hv & Hsig & _).
  assert (x0 = x) as -> by (pose proof (sv_key _ _ _ _ Hsv); congruence).
  apply Hfb in Hsig as (x1 & Hx1 & Hver & Hcom). assert (x1 = x) as -> by congruence.
  apply commit_unsigned in Hcom as (_ & w & input' & Hi' & Hw & Hup & Hsw).
  change (Z.to_nat 0) with 0%nat in Hi'. eexists. split.
  { unfold signed_response. rewrite Hi'. cbn [of_option]. rewrite bind_of_Ok, Hw. cbn [of_option].
    by rewrite bind_of_Ok, (extractWitnessSig_scriptWitness _ _ _ Hsw), bind_of_Ok. }
  unfold remote_accept.
  cbn [gs_profileHash gs_guardianXOnly gs_sigHex gs_signedPsbtBase64 gs_resultJson].
  rewrite (sv_profile _ _ _ _ Hsv), String.eqb_refl. cbn [negb].
  rewrite (sv_xOnly _ _ _ _ Hsv), (sv_expected _ _ _ _ Hsv), String.eqb_refl. cbn [negb].
  rewrite fromHex_toHex. unfold independentlyVerifySignature.
  destruct (validated_leaf _ _ _ _ _ _ Hval Hv) as (input0 & given & rest & Hi0 & Hl & Hs).
  rewrite Hi0. cbn [of_option]. rewrite bind_of_Ok, Hl. cbn [of_option head mbind option_bind]. rewrite bind_of_Ok.
  rewrite (Hts _ _ _ Hi0 Hl), Hs, <-(vault_leaf_hash _ _ _ op Hv), (sv_expected _ _ _ _ Hsv), fromHex_toHex.
  replace {| leaf_script := leaf_script (op_leaf op v); leaf_tapleafHash := leaf_tapleafHash (op_leaf op v) |}
    with (op_leaf op v) by by destruct (op_leaf op v).
  rewrite Hver, H64, bind_of_Ok, Hi'. cbn [of_option]. by rewrite bind_of_Ok, Hw, Hup, bind_of_Ok, Hjs.
Qed.

(** asking the Guardian service is asking its signer: over the in-process
    transport the client of a service with its own key and profile gets the
    signer's verdict, and the same signed transaction; the signature it checks
    for itself always passes. *)
Theorem remote_is_local opts g req x op env requestId j e t r j' effects :
  faithful_backend signer → serves opts g req x → tapscript_leaves (tr_psbt req) →
  fromBase64 (toBase64 (tr_psbt req)) = Ok (tr_psbt req) →
  (∀ res psbt', r = Ok (Signed res, psbt') →
     fromBase64 (toBase64 psbt') = Ok psbt' ∧ parseBigint (stringifyBigint res) = Ok res) →
  decodeCoveOpReturn (tr_psbt req) = Ok e → envelope_token e = Some t →
  sign execFile bin signer policy req op env j = (r, j', effects) →
  remote_sign toBase64 fromBase64 parseBigint
    (in_process_sign toBase64 fromBase64 stringifyBigint opts env) g requestId req op j
  = (remote_outcome (tr_psbt req) r, j').
Proof.
  intros Hfb Hsv Hts H64 Hjs He Ht Hsign. unfold remote_sign. rewrite He.
  pose proof (sv_view _ _ _ _ Hsv e t He Ht) as Hview.
  assert (in_process_sign toBase64 fromBase64 stringifyBigint opts env {| gw_requestId := requestId;
    gw_operation := op; gw_network := tr_network req; gw_psbtBase64 := toBase64 (tr_psbt req); gw_tokenId := toHex t |} j
    = (outcome ← r; match outcome with
                    | (Refused reason detail _, _) => Ok (SignFailure reason detail)
                    | (Signed res, psbt) => signed_response toBase64 stringifyBigint opts res psbt
                    end, j')) as Hin.
  { unfold in_process_sign, answer_sign. cbn [gw_psbtBase64 gw_tokenId gw_operation]. rewrite H64, bind_of_Ok, Hview, bind_of_Ok.
    by rewrite (sv_request _ _ _ _ Hsv), (sv_signer _ _ _ _ Hsv), Hsign. }
  assert (∀ d f, match e with
    | DeployV2 _ _ _ => d
    | MintV2 t' _ _ | TransferV2 t' _ | RedeemV2 t' _ _ => f t'
    end = f t :> result (TransitionSignOutcome * Psbt) * J) as -> by (intros; destruct e; naive_solver).
  rewrite Hin. destruct r as [[[res|reason detail audit] psbt']|ex]; [|done..].
  rewrite bind_of_Ok. cbn [remote_outcome].
  assert (signed_by execFile bin signer policy req op env j j' psbt' (sr_audit res) effects) as Hby.
  { pose proof (sign_outcome _ _ _ _ _ _ _ _ _ _ _ _ Hsign) as Hin'.
    apply (sign_signed_by _ _ _ _ _ _ _ _ _ _ _ _ Hsign) in Hin' as (res' & [= <-] & Hby). exact Hby. }
  destruct (Hjs res psbt' eq_refl) as [H64' Hjs'].
  destruct (remote_accepts _ _ _ _ _ _ _ _ _ _ _ Hfb Hsv Hts H64' Hjs' Hby) as (success & -> & ->). done.
Qed.
End Remote.
