(* ===== verification/SigningExamples.v ===== *)
(** * A Guardian at work

    The service of the example chain: its signer, its journal, its clients.
    Witnesses of the signing theorems. *)
From S2P Require Import Prelude Bytes Curve Economics Wire Discovery Covenant Simplicity Vault Indexer IndexerInv IndexerExamples Spend Guardian GuardianInv Builder BuilderInv GuardianExamples Journal AuditLog Signing SigningInv.

#[local] Existing Instance toy_crypto.

(** Transactions of different sizes have different ids. *)
#[local] Instance sign_bitcoinjs : BitcoinJs := {|
  p2wpkh_output k := Ok (toy_p2wpkh (blen k));
  p2sh_output r := Ok r;
  p2tr_output k := Ok (to_byte 0x51 :: to_byte 0x20 :: k);
  globalTx p := {| utx_version := 2; utx_ins := []; utx_outs := psbt_outputs p |};
  hashForWitnessV1 tx i scripts values t leaf := Ok (zeros 32);
  verifySchnorr h k s := Ok true;
  validateSignaturesOfInput p i := Ok true;
  unsigned_getId tx := pretty (Z.of_nat (length (utx_outs tx)));
|}.

Definition with_final (input : PsbtInput) (w : list byte) : PsbtInput := {|
  psi_txin := psi_txin input; psi_sequence := psi_sequence input;
  psi_witnessUtxo := psi_witnessUtxo input; psi_redeemScript := psi_redeemScript input;
  psi_partialSig := psi_partialSig input; psi_tapKeySig := psi_tapKeySig input;
  psi_tapInternalKey := psi_tapInternalKey input; psi_tapMerkleRoot := psi_tapMerkleRoot input;
  psi_tapLeafScript := psi_tapLeafScript input; psi_finalScriptWitness := Some w |}.

Definition toy_update (p : Psbt) (i : Z) (w : list byte) : result Psbt :=
  if i <? 0 then Throw range_error
  else match psbt_inputs p !! Z.to_nat i with
  | None => Throw range_error
  | Some input =>
      Ok {| psbt_inputs := take (Z.to_nat i) (psbt_inputs p) ++ with_final input w
                           :: drop (S (Z.to_nat i)) (psbt_inputs p);
            psbt_outputs := psbt_outputs p |}
  end.

Lemma toy_update_sets p i w p' :
  toy_update p i w = Ok p' →
  psbt_outputs p' = psbt_outputs p
  ∧ ∃ before input after, psbt_inputs p = before ++ input :: after ∧ Z.of_nat (length before) = i
    ∧ psbt_inputs p' = before ++ with_final input w :: after.
Proof.
  unfold toy_update. destruct (Z.ltb_spec i 0); [done|].
  destruct (psbt_inputs p !! Z.to_nat i) as [input|] eqn:E; [|done]. intros [= <-]. cbn. split; [done|].
  eexists _, input, _. split_and!; [symmetry; by apply take_drop_middle| |done].
  apply lookup_lt_Some in E. rewrite length_take. lia.
Qed.

#[local] Instance toy_ecc : Ecc := {|
  signTaprootInput p i k l := Ok (zeros 64);
  signSchnorr h k := Ok (zeros 64);
  publicKey_of k := Ok (to_byte 2 :: toy_key 5);
  isPrivate k := true;
  updateFinalWitness := toy_update;
  updateFinalWitness_sets := toy_update_sets;
|}.

Definition toy_custody : GuardianCustodyBackend := key_custody (toy_key 1) (toy_key 5).
Definition toy_signer : GuardianSigningBackend := custodySigningBackend toy_custody.

Definition toy_policy : GuardianRiskPolicy := {|
  rp_maxGrossSats := 1000000; rp_maxMintAtoms := PUBLIC_SUPPLY_ATOMS; rp_minMintGrossSats := 0;
  rp_maxRedeemPayoutSats := 1000000; rp_maxBackingSats := 1000000; rp_maxMinerFeeSats := 20000;
  rp_allowedTokenIds := [toHex toy_token]; rp_enforceTokenAllowlist := true |}.

Definition toy_env (id : string) (now : Z) : SignEnv := {|
  env_requestId := id; env_timestamp := "2025-01-01T00:00:00.000Z"; env_writeBeforeSign r := Ok id;
  env_writeAfterSign r h := Ok tt; env_now := now; env_later := now |}.

Definition toy_sign_request (psbt : Psbt) : TransitionSignRequest := {|
  tr_psbt := psbt; tr_view := indexer_view toy_deployed; tr_network := Regtest;
  tr_recoveryKeyXOnly := toy_key 6; tr_recoveryProfile := None; tr_feeScript := toy_p2tr 9;
  tr_maxMinerFeeSats := None;
  tr_fees := {| fs_buyFeeBps := None; fs_buyFeeFlatSats := None; fs_creatorFeeBps := None;
                fs_redeemFeeBps := None; fs_redeemFeeFlatSats := None |};
  tr_discoveryTicker := None; tr_fundingChecker := λ _, Ok FundingOk |}.

Definition toy_psbt1 : Psbt := mb_psbt (toy_mint_built toy_exact).
Definition toy_psbt2 : Psbt := mb_psbt (toy_mint_built (toy_mint_params (toy_cost + 5000) None)).

Definition toy_sign (psbt : Psbt) (env : SignEnv) (j : InMemoryJournal) :=
  sign toy_exec toy_bin toy_signer toy_policy (toy_sign_request psbt) OpMint env j.

(** The same outpoint, half an hour later. *)
Definition toy_env1 : SignEnv := toy_env "r1" 0.
Definition toy_env2 : SignEnv := toy_env "r2" SIGNING_JOURNAL_TTL_MS.

Definition signed_psbt (r : result (TransitionSignOutcome * Psbt)) : Psbt :=
  match r with Ok (_, p) => p | Throw _ => new_psbt end.

Lemma triple_eq {A B C} (p : A * B * C) : p = (p.1.1, p.1.2, p.2).
Proof. by destruct p as [[? ?] ?]. Qed.

Lemma signature_implies_witness :
  let run := toy_sign toy_psbt1 toy_env1 ∅ in
  let psbt' := signed_psbt run.1.1 in
  length run.2 = 4%nat
  ∧ (SignedInput psbt' ∈ run.2 ↔
     ∃ res, run.1.1 = Ok (Signed res, psbt')
     ∧ signed_by toy_exec toy_bin toy_signer toy_policy (toy_sign_request toy_psbt1) OpMint toy_env1 ∅ run.1.2
         psbt' (sr_audit res) run.2).
Proof.
  intros run psbt'. split; [vm_compute; reflexivity|].
  apply (signature_implies toy_exec toy_bin toy_signer toy_policy (toy_sign_request toy_psbt1) OpMint toy_env1 ∅
    run.1.1 run.1.2 run.2 psbt').
  exact (triple_eq run).
Defined.

(** Two transactions for the vault, half an hour apart. *)
Definition no_calls : Signers InMemoryJournal := no_signers ∅ 0.

Definition after_call (psbt : Psbt) (env : SignEnv) (s : Signers InMemoryJournal) : Signers InMemoryJournal :=
  let run := toy_sign psbt env (sn_store s) in
  {| sn_store := run.1.2; sn_now := env_later env; sn_held := [];
     sn_signed := (signature_grant Regtest (sn_store s) run.1.2 env <$> signed_psbts run.1.1 run.2) ++ sn_signed s |}.

Lemma after_call_step psbt env s :
  sn_now s ≤ env_now env ≤ env_later env → sn_held s = [] →
  call_step toy_exec toy_bin toy_signer toy_policy s (after_call psbt env s).
Proof.
  intros Hn Hh. exists (toy_sign_request psbt), OpMint, env, (toy_sign psbt env (sn_store s)).1.1, (toy_sign psbt env (sn_store s)).2.
  split; [done|]. split; [apply triple_eq|]. by split_and!.
Qed.

Definition toy_calls : Signers InMemoryJournal := after_call toy_psbt2 toy_env2 (after_call toy_psbt1 toy_env1 no_calls).

Definition toy_grant (digest : string) (at_ : Z) : Grant := {|
  gr_key := {| jk_network := Regtest; jk_backingTxid := toy_getId toy_deploy; jk_backingVout := 1 |};
  gr_digest := digest; gr_fresh := true; gr_at := at_; gr_until := at_ + SIGNING_JOURNAL_TTL_MS |}.

Lemma guardian_signs_one_witness :
  let a := toy_grant "5" 0 in
  let b := toy_grant "6" SIGNING_JOURNAL_TTL_MS in
  sn_signed toy_calls = [b; b; a; a]
  ∧ gr_at a < gr_until a ≤ gr_at b
  ∧ (gr_fresh a = true → gr_at a + SIGNING_JOURNAL_TTL_MS ≤ gr_at b).
Proof.
  intros a b. assert (sn_signed toy_calls = [b; b; a; a]) as E by (vm_compute; reflexivity). split; [exact E|].
  apply (guardian_signs_one toy_exec toy_bin toy_signer toy_policy (custody_backend_faithful toy_custody) (∅ : InMemoryJournal) 0 toy_calls).
  - refine (rtc_l _ no_calls (after_call toy_psbt1 toy_env1 no_calls) toy_calls _ (rtc_once _ _ _)).
    + refine (after_call_step toy_psbt1 toy_env1 no_calls _ eq_refl). split; discriminate.
    + refine (after_call_step toy_psbt2 toy_env2 (after_call toy_psbt1 toy_env1 no_calls) _ eq_refl).
      change (sn_now (after_call toy_psbt1 toy_env1 no_calls)) with 0. split; discriminate.
  - rewrite E. right. right. left.
  - rewrite E. left.
  - reflexivity.
  - discriminate.
  - discriminate.
Defined.

(** A client of the service. *)
Definition toy_opts : InProcessGuardianTransportOptions (J := InMemoryJournal) := {|
  ip_signer := sign toy_exec toy_bin toy_signer toy_policy; ip_profileHash := "profile";
  ip_guardianXOnly := toHex (toy_key 5); ip_network := Regtest;
  ip_loadView t := Ok (indexer_view toy_deployed); ip_recoveryKeyXOnly := toy_key 6;
  ip_recoveryProfile := None; ip_feeScript := toy_p2tr 9; ip_maxMinerFeeSats := None;
  ip_buyFeeBps := None; ip_redeemFeeBps := None; ip_fundingChecker := λ _, Ok FundingOk |}.

Definition toy_client : RemoteGuardian :=
  {| rg_expectedProfileHash := "profile"; rg_expectedGuardianXOnly := toHex (toy_key 5) |}.

Definition toy_run : result (TransitionSignOutcome * Psbt) * InMemoryJournal * list SignEffect :=
  toy_sign toy_psbt1 toy_env1 ∅.

(** A text form that tells the signed PSBT from the other. *)
Definition is_final (p : Psbt) : bool :=
  match psbt_inputs p with i :: _ => bool_decide (is_Some (psi_finalScriptWitness i)) | [] => false end.
Definition toy_base64 (p : Psbt) : string := if is_final p then "signed" else "unsigned".
Definition toy_from64 (s : string) : result Psbt :=
  Ok (if String.eqb s "signed" then signed_psbt toy_run.1.1 else toy_psbt1).

Definition signed_result (r : result (TransitionSignOutcome * Psbt)) : result SignedTransitionResult :=
  match r with Ok (Signed res, _) => Ok res | _ => Throw out_of_range end.

Lemma remote_is_local_witness :
  let remote := remote_sign toy_base64 toy_from64 (λ _, signed_result toy_run.1.1)
    (in_process_sign toy_base64 toy_from64 (λ _, ""%string) toy_opts toy_env1)
    toy_client "c1" (toy_sign_request toy_psbt1) OpMint ∅ in
  is_final (signed_psbt remote.1) = true
  ∧ remote = (remote_outcome (tr_psbt (toy_sign_request toy_psbt1)) toy_run.1.1, toy_run.1.2).
Proof.
  intros remote.
  assert (remote = (remote_outcome (tr_psbt (toy_sign_request toy_psbt1)) toy_run.1.1, toy_run.1.2)) as E.
  { unfold remote.
    assert (Hs : sign toy_exec toy_bin toy_signer toy_policy (toy_sign_request toy_psbt1) OpMint toy_env1 ∅
                 = (toy_run.1.1, toy_run.1.2, toy_run.2)) by apply triple_eq.
    refine (remote_is_local toy_exec toy_bin toy_signer toy_policy toy_base64 toy_from64 (λ _, ""%string)
      (λ _, signed_result toy_run.1.1) toy_opts toy_client (toy_sign_request toy_psbt1) (toy_key 5) OpMint toy_env1
      "c1" ∅ (MintV2 toy_token (400 * LOT) 2) toy_token _ _ _ _ _ _ _ _ _ _ Hs).
    - apply custody_backend_faithful.
    - split; reflexivity.
    - intros i l rest Hi Hl. vm_compute in Hi. injection Hi as <-. vm_compute in Hl. injection Hl as <- _. reflexivity.
    - vm_compute. reflexivity.
    - intros res p Hr. replace p with (signed_psbt toy_run.1.1) by by rewrite Hr. rewrite Hr at 3. split; [|done].
      vm_compute. reflexivity.
    - vm_compute. reflexivity.
    - reflexivity. }
  split; [|exact E]. rewrite E. vm_compute. reflexivity.
Defined.
