(* ===== verification/AppConfig.v ===== *)
(** * The application's configuration

    packages/config/src/cove-networks.ts (the committed settings of each
    network), packages/cove-app/src/config.ts ([loadV3AppConfig]) and
    packages/cove-app/src/errors.ts.  The environment is a finite map; ECPair
    is [Ecc] and bitcoinjs-lib [BitcoinJs]. *)
From S2P Require Import Prelude Bytes Curve Economics Wire Discovery Covenant Simplicity Vault Indexer Spend AuditLog Number Profile Guardian Journal Signing.

(** ** errors.ts *)
Definition AppError (code message : string) : exn :=
  coded EAppError code ("[" +:+ code +:+ "] " +:+ message).

(** ** cove-networks.ts *)
Notation Env := (gmap string string).

Definition COVE_NETWORKS : list (string * V3Network) :=
  [("regtest", Regtest); ("signet", Signet); ("testnet", Testnet); ("mainnet", Mainnet)]%string.

Record CoveNetworkSettings := {
  ns_v3Enabled : bool;
  ns_workerPollMs : number;
  ns_guardianPort : Z;
  ns_explorerUrl : option string;
  ns_esploraUrl : option string;
  ns_ordUrl : option string;
  ns_discoveryEnvelope : bool;
}.

Definition COVE_NETWORK_SETTINGS (network : V3Network) : CoveNetworkSettings :=
  match network with
  | Regtest => {| ns_v3Enabled := true; ns_workerPollMs := Finite 2000 0; ns_guardianPort := 4391;
                  ns_explorerUrl := None; ns_esploraUrl := None; ns_ordUrl := None; ns_discoveryEnvelope := false |}
  | Signet => {| ns_v3Enabled := true; ns_workerPollMs := Finite 5000 0; ns_guardianPort := 4391;
                 ns_explorerUrl := Some "https://mempool.space/signet"%string;
                 ns_esploraUrl := Some "https://mempool.space/signet/api"%string; ns_ordUrl := None;
                 ns_discoveryEnvelope := false |}
  | Testnet => {| ns_v3Enabled := true; ns_workerPollMs := Finite 5000 0; ns_guardianPort := 4391;
                  ns_explorerUrl := Some "https://mempool.space/testnet"%string;
                  ns_esploraUrl := Some "https://mempool.space/testnet/api"%string; ns_ordUrl := None;
                  ns_discoveryEnvelope := false |}
  | Mainnet => {| ns_v3Enabled := true; ns_workerPollMs := Finite 10000 0; ns_guardianPort := 4391;
                  ns_explorerUrl := Some "https://mempool.space"%string;
                  ns_esploraUrl := Some "https://mempool.space/api"%string;
                  ns_ordUrl := Some "https://ordinals.com"%string; ns_discoveryEnvelope := false |}
  end.

Definition CoveNetworkError (msg : string) : exn := Exn ECoveNetworkError None msg.

Definition COVE_NETWORK_NAMES : string := String.concat ", " (fst <$> COVE_NETWORKS).

(** [v || undefined]: a missing text and the empty one are alike. *)
Definition non_empty (o : option string) : option string :=
  match o with None | Some EmptyString => None | Some s => Some s end.

Definition requireCoveNetwork (env : Env) : result V3Network :=
  match non_empty (env !! "COVE_NETWORK"%string) with
  | None => Throw (CoveNetworkError ("COVE_NETWORK is required (one of " +:+ COVE_NETWORK_NAMES
                                     +:+ "); there is no default"))
  | Some raw =>
      of_option (CoveNetworkError ("COVE_NETWORK " +:+ quoted raw +:+ " is not one of " +:+ COVE_NETWORK_NAMES))
        (snd <$> head (filter (λ n, n.1 = raw) COVE_NETWORKS))
  end.

(** [s.replace(/\/+$/, "")] *)
Definition strip_slashes (s : string) : string :=
  let fix drop_slashes l := match l with x2f :: r => drop_slashes r | _ => l end in
  of_utf8 (reverse (drop_slashes (reverse (utf8 s)))).

Definition is_yes (v : string) : bool := bool_decide (toLowerCase v ∈ ["true"; "1"; "yes"; "on"]%string).

Definition coveNetworkSettings (network : V3Network) (env : Env) : CoveNetworkSettings :=
  let base := COVE_NETWORK_SETTINGS network in
  if bool_decide (network = Mainnet) then base
  else
    let get k := non_empty (env !! k) in
    {| ns_v3Enabled := ns_v3Enabled base;
       ns_workerPollMs :=
         match get "COVE_WORKER_POLL_MS"%string ≫= StringToNumber with
         | Some n => if is_finite n && is_positive n then n else ns_workerPollMs base
         | None => ns_workerPollMs base
         end;
       ns_guardianPort := ns_guardianPort base;
       ns_explorerUrl := match get "NEXT_PUBLIC_EXPLORER_URL"%string with
         Some u => Some (strip_slashes u) | None => ns_explorerUrl base end;
       ns_esploraUrl := match get "COVE_ESPLORA_URL"%string with
         Some u => Some (strip_slashes u) | None => ns_esploraUrl base end;
       ns_ordUrl := match get "COVE_ORD_URL"%string with Some u => Some u | None => ns_ordUrl base end;
       ns_discoveryEnvelope := match get "COVE_V3_DISCOVERY_ENVELOPE"%string with
         Some v => is_yes v | None => ns_discoveryEnvelope base end |}.

(** ** config.ts of cove-app *)
Record MintLimits := { ml_maxMintAtoms : Z; ml_maxGrossSats : option Z; ml_minGrossSats : Z }.

Record V3AppConfig := {
  ac_enabled : bool;
  ac_settings : CoveNetworkSettings;
  ac_network : V3Network;
  ac_chainIdentity : string;
  ac_coreRpcUrl : string;
  ac_coreRpcUser : option string;
  ac_coreRpcPassword : option string;
  ac_coreRpcUrlSecondary : option string;
  ac_feeScript : list byte;
  ac_guardianXOnly : list byte;
  ac_recoveryKeyXOnly : list byte;
  ac_recoveryProfile : option VaultRecoveryProfile;
  ac_guardianPrivateKey : option (list byte);
  ac_activationHeight : Z;
  ac_canaryAllowedTokenIds : option (list string);
  ac_canaryAllowedWalletScripts : option (list string);
  ac_p2pFeeBps : option Z;
  ac_buyFeeBps : Z;
  ac_buyFeeFlatSats : Z;
  ac_discoveryEnvelope : bool;
  ac_redeemFeeBps : Z;
  ac_redeemFeeFlatSats : Z;
  ac_maxP2pSettlementSats : option Z;
  ac_mintLimits : option MintLimits;
  ac_maxMinerFeeSats : Z;
  ac_maxListingBlocks : Z;
  ac_reservationTtlSeconds : Z;
  ac_mainnetProfileValid : bool;
  ac_mainnetProfileHash : option string;
  ac_guardianEndpoint : option string;
  ac_guardianAuthToken : option string;
  ac_ordUrl : option string;
}.

Definition REGTEST_GUARDIAN_PRIV : list byte := replicate 32 (to_byte 0x42).
Definition REGTEST_RECOVERY_PRIV : list byte := replicate 32 (to_byte 0x43).
Definition REGTEST_FEE_PRIV : list byte := replicate 32 (to_byte 0x44).

Definition chainIdentityFor (network : V3Network) : string :=
  match network with
  | Regtest => CHAIN_BITCOIN_REGTEST | Signet => CHAIN_BITCOIN_SIGNET
  | Testnet => CHAIN_BITCOIN_TESTNET | Mainnet => CHAIN_BITCOIN_MAINNET
  end.

Definition network_name (network : V3Network) : string :=
  match network with Regtest => "regtest" | Signet => "signet" | Testnet => "testnet" | Mainnet => "mainnet" end.

Definition hexOrNull (v : option string) : result (option (list byte)) :=
  match non_empty v with
  | None => Ok None
  | Some v =>
      let b := fromHex v in
      throw_if (negb (blen b =? 32)) (AppError "GUARDIAN_UNAVAILABLE" "private key hex must be 32 bytes");;
      Ok (Some b)
  end.

Definition recoveryProfileFromMainnetProfile (profile : MainnetProfile) : result VaultRecoveryProfile :=
  let r := mp_recovery profile in
  let n := length (mr_pubkeys r) in
  let shapeOk := ((mr_threshold r =? 2) && (n =? 3)%nat) || ((mr_threshold r =? 1) && (n =? 1)%nat) in
  match mr_csvBlocks r with
  | Some csvBlocks =>
      throw_if (negb shapeOk) (AppError "MAINNET_DISABLED" "mainnet profile recovery is incomplete");;
      Ok {| profileVersion := MAINNET1; recoveryCsvBlocks := csvBlocks; recoveryThreshold := mr_threshold r;
            recoveryPubkeys := fromHex <$> mr_pubkeys r |}
  | None => Throw (AppError "MAINNET_DISABLED" "mainnet profile recovery is incomplete")
  end.

Section Config.
Context {C : Crypto} {J : BitcoinJs} {T : TestKeys} {E : Ecc}.
Context (toOutputScript : string → btc_network → result (list byte)).

(** [xonly(priv)], [p2wpkh(priv)] *)
Definition config_xonly (priv : list byte) : result (list byte) :=
  publicKey ← publicKey_of priv; Ok (subarray publicKey 1 (blen publicKey)).
Definition config_p2wpkh (priv : list byte) : result (list byte) :=
  publicKey ← publicKey_of priv; p2wpkh_output publicKey.

(** [try { m } catch (e) { throw new AppError(code, e.message); }] *)
Definition rethrow_as {A} (code : string) (m : result A) : result A :=
  try_catch m (λ e, Throw (AppError code (exn_message e))).

Definition loadMainnetConfig (env : Env) (testOnlyMainnetProfile : option MainnetProfile) : result MainnetProfile :=
  profile ← rethrow_as "MAINNET_DISABLED"
    (match testOnlyMainnetProfile with
     | Some p => Ok p
     | None => c ← committedMainnetProfile toOutputScript (env !! FEE_ADDRESS_ENV); Ok (cm_profile c)
     end);
  validation ← validateMainnetProfile profile (bool_decide (is_Some testOnlyMainnetProfile));
  throw_if (negb (mv_ok validation))
    (AppError "MAINNET_DISABLED" ("invalid mainnet profile: " +:+ String.concat "; " (mv_errors validation)));;
  throw_if (bool_decide (mp_guardianXOnly profile = None) || bool_decide (mp_feeScript profile = None))
    (AppError "MAINNET_DISABLED"
       ("mainnet profile missing guardianXOnly, or " +:+ FEE_ADDRESS_ENV +:+ " is not set"));;
  Ok profile.

(** The node of a network: url, user, password. *)
Definition core_rpc (network : V3Network) (env : Env) : result (string * option string * option string) :=
  let first keys last := default last (head (omap (λ k, env !! k) keys)) in
  if bool_decide (network = Regtest) then
    Ok (first ["COVE_BITCOIN_RPC_URL"; "COVE_REGTEST_RPC_URL"; "BITCOIN_RPC_URL"]%string "http://127.0.0.1:18443"%string,
        Some (first ["COVE_BITCOIN_RPC_USER"; "COVE_REGTEST_RPC_USER"; "BITCOIN_RPC_USER"]%string "user"%string),
        Some (first ["COVE_BITCOIN_RPC_PASSWORD"; "COVE_REGTEST_RPC_PASSWORD"; "BITCOIN_RPC_PASSWORD"]%string "pass"%string))
  else
    url ← of_option (AppError "CORE_UNAVAILABLE" ("COVE_BITCOIN_RPC_URL is required on " +:+ network_name network))
      (non_empty (env !! "COVE_BITCOIN_RPC_URL"%string));
    Ok (url, non_empty (env !! "COVE_BITCOIN_RPC_USER"%string), non_empty (env !! "COVE_BITCOIN_RPC_PASSWORD"%string)).

Definition LOCAL_KEY_VARS : list string :=
  ["COVE_GUARDIAN_PRIVATE_KEY_HEX"; "COVE_RECOVERY_PRIVATE_KEY_HEX"; "COVE_FEE_PRIVATE_KEY_HEX"]%string.

Definition is_set (env : Env) (k : string) : bool := bool_decide (is_Some (non_empty (env !! k))).

Definition mainnet_config (env : Env) (testOnlyMainnetProfile : option MainnetProfile)
    (settings : CoveNetworkSettings) (core : string * option string * option string) : result V3AppConfig :=
  throw_if (existsb (is_set env) LOCAL_KEY_VARS)
    (AppError "MAINNET_DISABLED" "mainnet must not load local Guardian/recovery/fee private keys");;
  throw_if (negb (bool_decide (is_Some (non_empty (ns_ordUrl settings)))))
    (AppError "MAINNET_DISABLED"
       "mainnet needs an ord server: funding inputs must be checked for inscriptions and runes");;
  profile ← loadMainnetConfig env testOnlyMainnetProfile;
  recoveryProfile ← recoveryProfileFromMainnetProfile profile;
  let null_to_bigint := Exn ETypeError None "Cannot convert null to a BigInt" in
  buyFeeBps ← of_option null_to_bigint (mp_buyFeeBps profile);
  redeemFeeBps ← of_option null_to_bigint (mp_redeemFeeBps profile);
  profileHash ← hashMainnetProfile profile;
  let canary := mp_canary profile in
  Ok {| ac_enabled := ns_v3Enabled settings; ac_settings := settings; ac_network := Mainnet;
        ac_chainIdentity := CHAIN_BITCOIN_MAINNET;
        ac_coreRpcUrl := core.1.1; ac_coreRpcUser := core.1.2; ac_coreRpcPassword := core.2;
        ac_coreRpcUrlSecondary := non_empty (env !! "COVE_BITCOIN_RPC_URL_SECONDARY"%string);
        ac_feeScript := fromHex (default ""%string (mp_feeScript profile));
        ac_guardianXOnly := fromHex (default ""%string (mp_guardianXOnly profile));
        ac_recoveryKeyXOnly := default [] (head (recoveryPubkeys recoveryProfile));
        ac_recoveryProfile := Some recoveryProfile; ac_guardianPrivateKey := None;
        ac_activationHeight := default 0 (mp_activationHeight profile);
        ac_canaryAllowedTokenIds := Some (mc_allowedTokenIds canary);
        ac_canaryAllowedWalletScripts := Some (mc_allowedWalletScripts canary);
        ac_p2pFeeBps := mp_p2pFeeBps profile; ac_buyFeeBps := buyFeeBps;
        ac_buyFeeFlatSats := buyFeeFlatSats COVE_FEE_CONFIG;
        ac_discoveryEnvelope := ns_discoveryEnvelope settings; ac_redeemFeeBps := redeemFeeBps;
        ac_redeemFeeFlatSats := redeemFeeFlatSats COVE_FEE_CONFIG;
        ac_maxP2pSettlementSats := mc_maxP2pSettlementSats canary;
        ac_mintLimits := Some {| ml_maxMintAtoms := default PUBLIC_SUPPLY_ATOMS (mc_maxMintAtoms canary);
                                 ml_maxGrossSats := mc_maxSingleBuySats canary;
                                 ml_minGrossSats := default 0 (mc_minMintGrossSats canary) |};
        ac_maxMinerFeeSats := 20000; ac_maxListingBlocks := 21000; ac_reservationTtlSeconds := 90;
        ac_mainnetProfileValid := true; ac_mainnetProfileHash := Some profileHash;
        ac_guardianEndpoint := env !! "COVE_GUARDIAN_ENDPOINT"%string;
        ac_guardianAuthToken := env !! "COVE_GUARDIAN_AUTH_TOKEN"%string;
        ac_ordUrl := ns_ordUrl settings |}.

(** A key of the environment; regtest has a fixture key. *)
Definition key_or_fixture (network : V3Network) (env : Env) (var : string) (fixture : list byte)
    : result (option (list byte)) :=
  priv ← hexOrNull (env !! var);
  Ok (match priv with Some k => Some k | None => if bool_decide (network = Regtest) then Some fixture else None end).

Definition fee_script (network : V3Network) (feeAddress : option string) (feePriv : option (list byte))
    : result (list byte) :=
  rethrow_as "WRONG_NETWORK"
    (match non_empty feeAddress, feePriv with
     | Some address, _ =>
         hex ← feeScriptFromAddress toOutputScript address
           (if bool_decide (network = Regtest) then NetRegtest else NetTestnet);
         Ok (fromHex hex)
     | None, Some priv => config_p2wpkh priv
     | None, None => Throw (Exn ETypeError None "Expected Buffer")
     end).

Definition test_network_config (network : V3Network) (env : Env) (settings : CoveNetworkSettings)
    (core : string * option string * option string) : result V3AppConfig :=
  guardianPriv ← key_or_fixture network env "COVE_GUARDIAN_PRIVATE_KEY_HEX" REGTEST_GUARDIAN_PRIV;
  guardianKey ← of_option (AppError "GUARDIAN_UNAVAILABLE" "COVE_GUARDIAN_PRIVATE_KEY_HEX is required off regtest")
    guardianPriv;
  recoveryPriv ← key_or_fixture network env "COVE_RECOVERY_PRIVATE_KEY_HEX" REGTEST_RECOVERY_PRIV;
  let feeAddress := env !! FEE_ADDRESS_ENV in
  feePriv ← key_or_fixture network env "COVE_FEE_PRIVATE_KEY_HEX" REGTEST_FEE_PRIV;
  let missing := AppError "GUARDIAN_UNAVAILABLE"
    ("recovery key and " +:+ FEE_ADDRESS_ENV +:+ " (or a fee key) required for non-regtest") in
  recoveryKey ← of_option missing recoveryPriv;
  throw_if (bool_decide (feePriv = None) && bool_decide (non_empty feeAddress = None)) missing;;
  feeScript ← fee_script network feeAddress feePriv;
  guardianXOnly ← config_xonly guardianKey;
  recoveryKeyXOnly ← config_xonly recoveryKey;
  activationHeight ← BigInt_of_string (default "0"%string (env !! "COVE_ACTIVATION_HEIGHT"%string));
  mintLimits ← match (if bool_decide (network = Regtest)
                      then non_empty (env !! "COVE_REGTEST_MAX_MINT_GROSS_SATS"%string) else None) with
    | Some v =>
        maxGross ← BigInt_of_string v;
        Ok (Some {| ml_maxMintAtoms := PUBLIC_SUPPLY_ATOMS; ml_maxGrossSats := Some maxGross; ml_minGrossSats := 0 |})
    | None => Ok None
    end;
  Ok {| ac_enabled := ns_v3Enabled settings; ac_settings := settings; ac_network := network;
        ac_chainIdentity := chainIdentityFor network;
        ac_coreRpcUrl := core.1.1; ac_coreRpcUser := core.1.2; ac_coreRpcPassword := core.2;
        ac_coreRpcUrlSecondary := non_empty (env !! "COVE_BITCOIN_RPC_URL_SECONDARY"%string);
        ac_feeScript := feeScript; ac_guardianXOnly := guardianXOnly; ac_recoveryKeyXOnly := recoveryKeyXOnly;
        ac_recoveryProfile := None; ac_guardianPrivateKey := Some guardianKey;
        ac_activationHeight := activationHeight;
        ac_canaryAllowedTokenIds := None; ac_canaryAllowedWalletScripts := None; ac_p2pFeeBps := None;
        ac_buyFeeBps := buyFeeBps COVE_FEE_CONFIG; ac_buyFeeFlatSats := buyFeeFlatSats COVE_FEE_CONFIG;
        ac_discoveryEnvelope := ns_discoveryEnvelope settings;
        ac_redeemFeeBps := redeemFeeBps COVE_FEE_CONFIG; ac_redeemFeeFlatSats := redeemFeeFlatSats COVE_FEE_CONFIG;
        ac_maxP2pSettlementSats := None; ac_mintLimits := mintLimits;
        ac_maxMinerFeeSats := 20000; ac_maxListingBlocks := 21000; ac_reservationTtlSeconds := 90;
        ac_mainnetProfileValid := false; ac_mainnetProfileHash := None;
        ac_guardianEndpoint := None; ac_guardianAuthToken := None; ac_ordUrl := ns_ordUrl settings |}.

Definition loadV3AppConfig (env : Env) (testOnlyMainnetProfile : option MainnetProfile) : result V3AppConfig :=
  network ← try_catch (requireCoveNetwork env) (λ e,
    if bool_decide (exn_class e = ECoveNetworkError) then Throw (AppError "WRONG_NETWORK" (exn_message e))
    else Throw e);
  let settings := coveNetworkSettings network env in
  core ← core_rpc network env;
  if bool_decide (network = Mainnet) then mainnet_config env testOnlyMainnetProfile settings core
  else test_network_config network env settings core.
End Config.
