(* ===== verification/AppConfigInv.v ===== *)
(** * What a mainnet configuration guarantees

    A configuration that loads on mainnet holds no private key and builds every
    vault; with the committed profile none loads. *)
From S2P Require Import Prelude Bytes Curve Economics Wire Discovery Covenant Simplicity Vault Indexer Spend AuditLog Number Profile ProfileInv Guardian Journal Signing AppConfig.

(** ** Every vault can be built *)
Section Total.
Context {C : Crypto}.

Lemma push_all_dom leaves hash P : dom (push_all leaves hash P) = dom P.
Proof.
  unfold push_all. revert P. induction leaves as [|l leaves IH]; intros P; [done|].
  cbn [foldl]. by rewrite IH, dom_alter_L.
Qed.

Lemma merge_nodes_dom n level P : (length level ≤ n)%nat → dom (merge_nodes level P).2 = dom P.
Proof.
  revert level P. induction n as [|n IH]; intros [|a [|b rest]] P Hn; try done; cbn in Hn; [lia|].
  cbn [merge_nodes]. specialize (IH rest (push_all (node_leaves b) (node_hash a) (push_all (node_leaves a) (node_hash b) P)) ltac:(lia)).
  destruct (merge_nodes rest _) as [next P']. cbn in *. by rewrite IH, !push_all_dom.
Qed.

Lemma merge_levels_dom fuel level P : dom (merge_levels fuel level P).2 = dom P.
Proof.
  revert level P. induction fuel as [|f IH]; intros level P; [done|]. cbn [merge_levels].
  destruct (1 <? length level)%nat; [|done]. pose proof (merge_nodes_dom (length level) level P ltac:(done)) as E.
  destruct (merge_nodes level P) as [next P']. rewrite IH. exact E.
Qed.

(** A control block exists for every leaf. *)
Lemma control_block_total version numsKey leafHashes h :
  h ∈ leafHashes → is_ok (control_block version numsKey (merklePaths leafHashes) h) = true.
Proof.
  intros Hin. unfold control_block, merklePaths.
  assert (toHex h ∈ dom (merge_levels (length leafHashes) (leaf_node <$> sort_buffers leafHashes)
    (foldl (λ m h, <[toHex h := []]> m) (∅ : gmap string (list (list byte))) leafHashes)).2) as Hd.
  { rewrite merge_levels_dom. apply elem_of_dom. exists []. by apply init_paths_lookup. }
  apply elem_of_dom in Hd as [p ->]. done.
Qed.

Lemma buildExecutionLeaf_total pi g :
  blen pi = 32 → blen g = 32 → isXOnlyPoint g = true → ∃ s, buildExecutionLeaf pi g = Ok s.
Proof. intros Hpi Hg Hx. unfold buildExecutionLeaf. rewrite Hpi, Hg, Hx. by eexists. Qed.

(** Documented: SHA-256 has 32 bytes, and the tweak of the NUMS key is not the
    point at infinity. *)
Context (sha256_length : ∀ m, length (sha256 m) = 32%nat).
Context (tweak_defined : ∀ root, is_Some (xOnlyPointAddTweak numsInternalKey (tapTweak numsInternalKey root))).

Lemma merkle_levels_nonempty fuel level : level ≠ [] → merkle_levels fuel level ≠ [].
Proof using.
  revert level. induction fuel as [|f IH]; intros level H; [done|]. cbn [merkle_levels].
  destruct (1 <? length level)%nat; [|done]. apply IH. intros E.
  destruct (combine_level_length level) as (_ & Hp & _). rewrite E in Hp. destruct level; cbn in *; [done|lia].
Qed.

Lemma taprootMerkleRoot_total l : l ≠ [] → ∃ root, taprootMerkleRoot l = Ok root.
Proof using.
  intros H. unfold taprootMerkleRoot. rewrite throw_if_false by by destruct l.
  pose proof (merkle_levels_nonempty (length l) (sort_buffers l)) as Hm.
  destruct (merkle_levels _ _) as [|root ?]; [|by exists root]. exfalso. apply Hm; [|done].
  intros E. pose proof (sort_buffers_perm l) as Hp. rewrite E in Hp. by apply Permutation_nil in Hp.
Qed.

Lemma buildCoveVaultV3_total mintPi redeemPi g owner rp net leaf :
  blen mintPi = 32 → blen redeemPi = 32 → blen g = 32 → isXOnlyPoint g = true →
  buildRecoveryLeafForProfile rp = Ok leaf →
  ∃ v, buildCoveVaultV3 mintPi redeemPi g owner (Some rp) net = Ok v.
Proof using sha256_length tweak_defined.
  intros Hm Hr Hg Hx Hl. unfold buildCoveVaultV3.
  destruct (buildExecutionLeaf_total mintPi g) as [sm ->]; [done..|].
  destruct (buildExecutionLeaf_total redeemPi g) as [sr ->]; [done..|]. do 2 step_ok.
  change (default (dev1RecoveryProfile owner) (Some rp)) with rp. rewrite Hl. step_ok.
  set (leaves := [_; _; _]). destruct (taprootMerkleRoot_total leaves) as [root ->]; [done|]. step_ok.
  unfold tweakKey. destruct (tweak_defined root) as [[key parity] ->]. cbn [of_option]. step_ok.
  destruct (proj1 (is_ok_true _) (control_block_total (Z.lor LEAF_VERSION_TAPSCRIPT parity) numsInternalKey leaves
    (tapleafHash sm LEAF_VERSION_TAPSCRIPT) ltac:(set_solver))) as [cm ->]. step_ok.
  destruct (proj1 (is_ok_true _) (control_block_total (Z.lor LEAF_VERSION_TAPSCRIPT parity) numsInternalKey leaves
    (tapleafHash sr LEAF_VERSION_TAPSCRIPT) ltac:(set_solver))) as [cr ->]. step_ok.
  destruct (proj1 (is_ok_true _) (control_block_total (Z.lor LEAF_VERSION_TAPSCRIPT parity) numsInternalKey leaves
    (tapleafHash leaf LEAF_VERSION_TAPSCRIPT) ltac:(set_solver))) as [cl ->]. by eexists.
Qed.

Lemma policyIdentityHash_total op cmr s h :
  is_hex64 (tokenIdV2 s) = true → blen h = 32 → blen (fromHex cmr) = 32 →
  ∃ pi, policyIdentityHash (state_policy op cmr s h) = Ok pi ∧ blen pi = 32.
Proof using sha256_length.
  intros Ht Hh Hc. unfold policyIdentityHash. cbn [pi_tokenId pi_currentStateHash pi_cmr state_policy].
  rewrite Ht, Hh, Hc. eexists. split; [done|]. unfold blen, vault_taggedHash. by rewrite sha256_length.
Qed.

Lemma backingPolicies_total s :
  validateStateV2 s = Ok tt → ∃ m r, backingPolicies s = Ok (m, r) ∧ blen m = 32 ∧ blen r = 32.
Proof using sha256_length.
  intros V. pose proof (valid_encodable s V) as En. apply validateStateV2_Ok in V as ([Ht _] & _).
  unfold backingPolicies, stateHashV2. rewrite serializeStateV2_Ok by done. step_ok. step_ok.
  rewrite fromHex_toHex. cbn [of_option COVE_POLICY_CMRS COVE_POLICY_V3 Z.eqb Pos.eqb]. step_ok. cbn [cmr_mint cmr_redeem of_option].
  set (h := sha256 _). assert (blen h = 32) as Hh by (unfold blen, h; by rewrite sha256_length).
  destruct (policyIdentityHash_total OP_MINT MINT_CMR s h Ht Hh ltac:(by vm_compute)) as (m & Em & Lm).
  destruct (policyIdentityHash_total OP_REDEEM REDEEM_CMR s h Ht Hh ltac:(by vm_compute)) as (r & Er & Lr).
  unfold MINT_CMR, REDEEM_CMR in *. rewrite Em. step_ok. step_ok. rewrite Er. step_ok. by exists m, r.
Qed.

Lemma buildBackingVaultV3_total s g owner rp net leaf :
  validateStateV2 s = Ok tt → blen g = 32 → isXOnlyPoint g = true → buildRecoveryLeafForProfile rp = Ok leaf →
  ∃ v, buildBackingVaultV3 s g owner (Some rp) net = Ok v.
Proof using sha256_length tweak_defined.
  intros V Hg Hx Hl. unfold buildBackingVaultV3.
  destruct (backingPolicies_total s V) as (m & r & -> & Hm & Hr). step_ok. by eapply buildCoveVaultV3_total.
Qed.

(** ** The recovery profile of a valid profile *)
Lemma xonly_key_bytes k : isXOnlyKey k = true → blen (fromHex k) = 32 ∧ isXOnlyPoint (fromHex k) = true.
Proof using.
  intros H. split; [|unfold isXOnlyKey in H; by destruct (is_any_hex64 k)].
  apply any_hex64_key, toLowerCase_fromHex64 in H as [_ L]. unfold blen. by rewrite L.
Qed.

Lemma recovery_profile_total p :
  valid_profile p →
  ∃ rp leaf, recoveryProfileFromMainnetProfile p = Ok rp ∧ buildRecoveryLeafForProfile rp = Ok leaf
  ∧ recoveryPubkeys rp = fromHex <$> mr_pubkeys (mp_recovery p) ∧ good_recovery_keys (recoveryPubkeys rp).
Proof using.
  intros [_ _ _ _ _ [Hs Hk Hd (csv & Ec & Hc)] _ _ _]. unfold recoveryProfileFromMainnetProfile. rewrite Ec.
  set (r := mp_recovery p) in *.
  assert (((mr_threshold r =? 2) && (length (mr_pubkeys r) =? 3)%nat
           || (mr_threshold r =? 1) && (length (mr_pubkeys r) =? 1)%nat)%bool = true) as -> by (to_prop; tauto).
  assert (good_recovery_keys (fromHex <$> mr_pubkeys r)) as Hgood.
  { split.
    - apply Forall_fmap. eapply Forall_impl; [exact Hk|]. intros k. apply xonly_key_bytes.
    - apply (NoDup_fmap_1 toHex). rewrite <-list_fmap_compose. erewrite list_fmap_ext; [exact Hd|].
      intros i k Hi. cbn. symmetry. apply toLowerCase_fromHex64, any_hex64_key.
      by eapply Forall_lookup_1 in Hk. }
  eexists _, _. split; [done|]. split; [|done].
  unfold buildRecoveryLeafForProfile, buildThresholdRecoveryLeaf.
  cbn [profileVersion recoveryCsvBlocks recoveryThreshold recoveryPubkeys].
  rewrite length_fmap. repeat guard_step lia.
  rewrite (proj2 (sortRecoveryPubkeys_Ok _ (sort_buffers (fromHex <$> mr_pubkeys r)))) by done. by step_ok.
Qed.
End Total.

(** ** Loading a configuration *)
Section Load.
Context {C : Crypto} {J : BitcoinJs} {T : TestKeys} {E : Ecc}.
Context (toOutputScript : string → btc_network → result (list byte)).

(** The committed profile, as the parser reads it. *)
Definition committed_profile : MainnetProfile := {|
  mp_profileVersion := 1; mp_chainIdentity := "bitcoin-mainnet"; mp_activationHeight := None;
  mp_policyVersion := 3; mp_vaultProfileVersion := MAINNET_VAULT_PROFILE; mp_guardianXOnly := None;
  mp_recovery := {| mr_threshold := 2; mr_pubkeys := []; mr_csvBlocks := None |}; mp_feeScript := None;
  mp_buyFeeBps := None; mp_redeemFeeBps := None; mp_p2pFeeBps := None; mp_carrierSats := 1000;
  mp_anchorSats := 10000; mp_maxProtocolSupplyAtoms := 2100000000000000; mp_reserveAllocationAtoms := 0;
  mp_mintCmr := MINT_CMR; mp_redeemCmr := REDEEM_CMR; mp_canary := {|
    mc_allowedWalletScripts := []; mc_allowedTokenIds := []; mc_maxBackingSats := None;
    mc_maxSingleBuySats := Some 200000; mc_maxSingleRedeemPayoutSats := None; mc_maxP2pSettlementSats := None;
    mc_maxMintAtoms := Some 2100000000000000; mc_minMintGrossSats := Some 5000 |} |}.

Lemma committed_profile_parses : parseMainnetProfileJson COMMITTED_MAINNET_PROFILE_JSON = Ok committed_profile.
Proof using. vm_compute. reflexivity. Qed.

(** The owner's decisions that are still open. *)
Definition open_decisions : list string :=
  ["OWNER_DECISION_REQUIRED: activationHeight"; "OWNER_DECISION_REQUIRED: guardianXOnly";
   "OWNER_DECISION_REQUIRED: recovery.pubkeys"; "OWNER_DECISION_REQUIRED: recovery.csvBlocks";
   "OWNER_DECISION_REQUIRED: feeScript"; "OWNER_DECISION_REQUIRED: buyFeeBps";
   "OWNER_DECISION_REQUIRED: redeemFeeBps"; "OWNER_DECISION_REQUIRED: p2pFeeBps";
   "OWNER_DECISION_REQUIRED: canary.allowedWalletScripts"; "OWNER_DECISION_REQUIRED: canary.allowedTokenIds";
   "OWNER_DECISION_REQUIRED: canary.maxBackingSats"; "OWNER_DECISION_REQUIRED: canary.maxSingleRedeemPayoutSats";
   "OWNER_DECISION_REQUIRED: canary.maxP2pSettlementSats"]%string.

Lemma committed_invalid script : ¬ valid_profile (with_feeScript committed_profile script).
Proof using. intros [_ _ _ _ (g & Eg & _) _ _ _ _]. vm_compute in Eg. discriminate Eg. Qed.

Lemma committed_feeScript fee c :
  committedMainnetProfile toOutputScript fee = Ok c →
  ∃ script, cm_profile c = with_feeScript committed_profile script
  ∧ validateMainnetProfile (cm_profile c) false = Ok (cm_validation c)
  ∧ hashMainnetProfile (cm_profile c) = Ok (cm_profileHash c).
Proof using.
  unfold committedMainnetProfile. rewrite committed_profile_parses. step_ok. intros H.
  apply bind_Ok in H as (p & Hp & H). apply bind_Ok in H as (v & Hv & H). apply bind_Ok in H as (h & Hh & H).
  injection H as <-. cbn [cm_profile cm_validation cm_profileHash].
  destruct fee as [[|a fee]|]; [|apply bind_Ok in Hp as (script & _ & Hp)|]; injection Hp as <-.
  all: eexists; split; [|by split].
  - by instantiate (1 := None).
  - by instantiate (1 := Some script).
  - by instantiate (1 := None).
Qed.

(** with the profile as committed, mainnet does not start: its parse is the
    profile whose open decisions are listed, no fee address completes it, and
    loading the application's configuration for mainnet throws whatever the
    environment says. *)
Theorem committed_profile_refused env :
  validateMainnetProfile committed_profile false = Ok {| mv_ok := false; mv_errors := open_decisions |}
  ∧ (∀ fee c, committedMainnetProfile toOutputScript fee = Ok c → mv_ok (cm_validation c) = false)
  ∧ (env !! "COVE_NETWORK"%string = Some "mainnet"%string → is_ok (loadV3AppConfig toOutputScript env None) = false).
Proof.
  assert (∀ fee c v, committedMainnetProfile toOutputScript fee = Ok c →
    validateMainnetProfile (cm_profile c) false = Ok v → mv_ok v = false) as Hbad.
  { intros fee c v Hc Hv. destruct (committed_feeScript fee c Hc) as (script & Ep & _).
    destruct (mv_ok v) eqn:Eok; [|done]. exfalso. apply validated_valid in Hv; [|done].
    rewrite Ep in Hv. by eapply committed_invalid. }
  split; [vm_compute; reflexivity|]. split.
  - intros fee c Hc. destruct (committed_feeScript fee c Hc) as (script & _ & Hv & _). by eapply Hbad.
  - intros Hnet. apply not_true_iff_false. intros (cfg & H)%is_ok_true. unfold loadV3AppConfig in H.
    unfold requireCoveNetwork in H. rewrite Hnet in H. cbn [non_empty] in H.
    change (of_option _ _) with (Ok Mainnet) in H. cbn [try_catch] in H. rewrite bind_of_Ok in H. cbn beta zeta in H.
    apply bind_Ok in H as (core & _ & H). rewrite bool_decide_true in H by done.
    unfold mainnet_config in H. apply bind_Ok in H as (_ & _ & H). apply bind_Ok in H as (_ & _ & H).
    apply bind_Ok in H as (p & Hp & _). unfold loadMainnetConfig, rethrow_as in Hp.
    apply bind_Ok in Hp as (q & Hq & Hp). apply bind_Ok in Hp as (v & Hv & Hp). apply bind_Ok in Hp as (u & Hok & _).
    apply throw_if_Ok, negb_false_iff in Hok. rewrite bool_decide_false in Hv by by intros [? [=]].
    destruct (committedMainnetProfile toOutputScript (env !! FEE_ADDRESS_ENV)) as [c|] eqn:Ec; [|done].
    injection Hq as <-. by rewrite (Hbad _ _ _ Ec Hv) in Hok.
Qed.

Lemma loadMainnetConfig_Ok env test p :
  loadMainnetConfig toOutputScript env test = Ok p →
  ∃ v, validateMainnetProfile p (bool_decide (is_Some test)) = Ok v ∧ mv_ok v = true
  ∧ (test = Some p ∨ test = None ∧ ∃ script, p = with_feeScript committed_profile script).
Proof using.
  unfold loadMainnetConfig, rethrow_as. intros H. apply bind_Ok in H as (q & Hq & H).
  apply bind_Ok in H as (v & Hv & H). apply bind_Ok in H as (u & Hok & H). apply bind_Ok in H as (u' & _ & H).
  injection H as ->. apply throw_if_Ok, negb_false_iff in Hok. exists v. split_and!; [done..|].
  destruct test as [t|]; [left|right].
  - by injection Hq as ->.
  - split; [done|]. destruct (committedMainnetProfile _ _) as [c|] eqn:Ec; [|done]. injection Hq as <-.
    destruct (committed_feeScript _ _ Ec) as (script & Es & _). by exists script.
Qed.

Lemma test_network_config_network network env settings core cfg :
  test_network_config toOutputScript network env settings core = Ok cfg → ac_network cfg = network.
Proof using.
  unfold test_network_config. intros H. repeat (apply bind_Ok in H as (? & _ & H)). by injection H as <-.
Qed.

(** C23: what a configuration that loads on mainnet guarantees: no private key
    is in it nor in the three environment variables for local keys; an ord
    server guards the funding inputs; its profile validated, is the committed
    one unless a test profile was passed, and its hash is the one the Guardian's is compared with; and for every
    valid state of a token the backing vault can be built from its keys, which
    are distinct points of the curve. *)
Theorem mainnet_config_sound env test cfg :
  (∀ m, length (sha256 m) = 32%nat) →
  (∀ root, is_Some (xOnlyPointAddTweak numsInternalKey (tapTweak numsInternalKey root))) →
  loadV3AppConfig toOutputScript env test = Ok cfg → ac_network cfg = Mainnet →
  ac_guardianPrivateKey cfg = None ∧ (∀ k, k ∈ LOCAL_KEY_VARS → is_set env k = false)
  ∧ is_Some (non_empty (ac_ordUrl cfg))
  ∧ (∃ p v rp, validateMainnetProfile p (bool_decide (is_Some test)) = Ok v ∧ mv_ok v = true
     ∧ ac_mainnetProfileHash cfg = (match hashMainnetProfile p with Ok h => Some h | Throw _ => None end)
     ∧ (test = Some p ∨ test = None ∧ ∃ script, p = with_feeScript committed_profile script)
     ∧ ac_recoveryProfile cfg = Some rp ∧ NoDup (ac_guardianXOnly cfg :: recoveryPubkeys rp))
  ∧ ∀ s, validateStateV2 s = Ok tt →
      ∃ v, buildBackingVaultV3 s (ac_guardianXOnly cfg) (ac_recoveryKeyXOnly cfg) (ac_recoveryProfile cfg)
             (Some NetBitcoin) = Ok v.
Proof.
  intros Hsha Htweak H Hnet. unfold loadV3AppConfig in H. apply bind_Ok in H as (network & _ & H). cbn zeta in H.
  apply bind_Ok in H as (core & _ & H). destruct (bool_decide (network = Mainnet)) eqn:Em.
  2:{ exfalso. apply bool_decide_eq_false in Em. apply Em. rewrite <-Hnet. by apply test_network_config_network in H. }
  unfold mainnet_config in H. apply bind_Ok in H as (u1 & Hkeys & H). apply bind_Ok in H as (u2 & Hord & H).
  apply bind_Ok in H as (p & Hp & H). apply bind_Ok in H as (rp & Hrp & H).
  apply bind_Ok in H as (b & _ & H). apply bind_Ok in H as (r & _ & H). apply bind_Ok in H as (h & Hh & H).
  injection H as <-. cbn [ac_guardianPrivateKey ac_ordUrl ac_mainnetProfileHash ac_recoveryProfile
    ac_guardianXOnly ac_recoveryKeyXOnly].
  apply throw_if_Ok in Hkeys, Hord. apply negb_false_iff, bool_decide_eq_true in Hord.
  destruct (loadMainnetConfig_Ok _ _ _ Hp) as (v & Hv & Hok & Hsrc).
  pose proof (validated_valid _ _ _ Hv Hok) as V. destruct (pv_guardian p V) as (g & Eg & Kg & Hfresh).
  destruct (recovery_profile_total p V) as (rp' & leaf & Erp & Hleaf & Ekeys & [Hgood Hnd]).
  rewrite Hrp in Erp. injection Erp as <-. rewrite Eg. change (default ""%string (Some g)) with g.
  destruct (xonly_key_bytes g Kg) as [Lg Xg]. split_and!; [done| |done| |].
  - intros k Hk. apply not_true_iff_false. intros Hset.
    assert (existsb (is_set env) LOCAL_KEY_VARS = true); [|congruence].
    apply existsb_exists. exists k. split; [|done]. by apply list_elem_of_In.
  - exists p, v, rp. rewrite Hh. split_and!; [done..|]. constructor; [|done].
    rewrite Ekeys. intros (k & Ek & Hk)%list_elem_of_fmap. apply Hfresh.
    apply list_elem_of_fmap. exists k. split; [|done].
    destruct (pv_recovery p V) as [_ Hkeys' _ _]. rewrite Forall_forall in Hkeys'. specialize (Hkeys' k Hk).
    apply any_hex64_key, toLowerCase_fromHex64 in Kg as [-> _], Hkeys' as [-> _]. by rewrite Ek.
  - intros s Vs. by eapply buildBackingVaultV3_total.
Qed.
End Load.
