(* ===== verification/Readiness.v ===== *)
(** * Mainnet readiness: packages/cove-app/src

    [mainnet.ts] (the activation stage), [readiness.ts] (the quorum of two Core
    nodes and the readiness aggregator), [readiness-probes.ts] and the gathering
    of the signals in [readiness-cli.ts].  Each probe of a remote part is an
    argument: what it returned or threw. *)
From S2P Require Import Prelude Bytes Curve Economics Wire Discovery Covenant Simplicity Vault Indexer Spend AuditLog Number Profile ProfileInv Guardian Journal Signing AppConfig.

(** ** mainnet.ts *)
Inductive MainnetStage :=
  | DISABLED | READ_ONLY | SHADOW | CANARY_READY | CANARY_ACTIVE | CANARY_COMPLETE | PUBLIC_READY | PUBLIC_ACTIVE.
#[export] Instance MainnetStage_eq_dec : EqDecision MainnetStage.
Proof. solve_decision. Defined.

Record MainnetHealth := {
  mh_primaryCoreHealthy : bool;
  mh_secondaryCoreHealthy : bool;
  mh_coreAgreement : bool;
  mh_indexerHealthy : bool;
  mh_stateRootVerified : bool;
  mh_workerHealthy : bool;
  mh_guardianHealthy : bool;
  mh_guardianProfileHashMatches : bool;
  mh_guardianKeyMatches : bool;
  mh_auditHealthy : bool;
  mh_signingJournalHealthy : bool;
  mh_profileHashMatches : bool;
}.

Definition assertNoLocalGuardianKeyOnMainnet (network : string) (guardianPrivateKey : option (list byte)) : result unit :=
  throw_if (String.eqb network "mainnet" && bool_decide (is_Some guardianPrivateKey))
    (AppError "MAINNET_DISABLED" "mainnet must use the remote Guardian service; local Guardian key is forbidden").

Definition assertNoRecoveryPrivateKeyOnMainnet (network : string) (recoveryPrivateKey : option (list byte)) : result unit :=
  throw_if (String.eqb network "mainnet" && bool_decide (is_Some recoveryPrivateKey))
    (AppError "MAINNET_DISABLED" "mainnet recovery private keys are offline-only and forbidden in the app").

(** ** readiness.ts *)
Definition BITCOIN_MAINNET_GENESIS_HASH : string :=
  "000000000019d6689c085ae165831e934ff763ae46a2a6c172b3f1b60a8ce26f".

(** What the quorum asks of a Core node. *)
Record CoreNode := {
  cn_getBlockchainInfo : result (string * Z);   (* chain, blocks *)
  cn_getBlockHash : Z → result string;
}.

Record CoreAgreementResult := {
  car_agreed : bool;
  car_primaryHeight : option Z;
  car_secondaryHeight : option Z;
  car_comparisonHeight : option Z;
  car_comparisonHash : option string;
  car_detail : option string;
}.

Definition verifyMainnetGenesis (provider : CoreNode) : bool :=
  match cn_getBlockHash provider 0 with
  | Ok h => String.eqb h BITCOIN_MAINNET_GENESIS_HASH
  | Throw _ => false
  end.

Definition no_agreement (primaryHeight secondaryHeight : option Z) (detail : string) : CoreAgreementResult :=
  {| car_agreed := false; car_primaryHeight := primaryHeight; car_secondaryHeight := secondaryHeight;
     car_comparisonHeight := None; car_comparisonHash := None; car_detail := Some detail |}.

(** [Math.abs], [Math.min]; of two failing requests the first one's error. *)
Definition checkCoreAgreement (primary secondary : CoreNode) (maxHeightDelta : option Z) : CoreAgreementResult :=
  let maxDelta := default 3 maxHeightDelta in
  match (pi ← cn_getBlockchainInfo primary; si ← cn_getBlockchainInfo secondary; Ok (pi, si)) with
  | Throw e => no_agreement None None (exn_message e)
  | Ok ((pchain, pblocks), (schain, sblocks)) =>
      if negb (String.eqb pchain schain) then
        no_agreement (Some pblocks) (Some sblocks) ("chain mismatch " +:+ pchain +:+ " vs " +:+ schain)
      else
        let delta := Z.abs (pblocks - sblocks) in
        if maxDelta <? delta then
          no_agreement (Some pblocks) (Some sblocks) ("height delta " +:+ int_text delta +:+ " > " +:+ int_text maxDelta)
        else
          let comparisonHeight := Z.min pblocks sblocks in
          match (ph ← cn_getBlockHash primary comparisonHeight; sh ← cn_getBlockHash secondary comparisonHeight;
                 Ok (ph, sh)) with
          | Ok (ph, sh) =>
              let agreed := String.eqb ph sh in
              {| car_agreed := agreed; car_primaryHeight := Some pblocks; car_secondaryHeight := Some sblocks;
                 car_comparisonHeight := Some comparisonHeight; car_comparisonHash := Some ph;
                 car_detail := if agreed then None else Some ("hash mismatch at height " +:+ int_text comparisonHeight) |}
          | Throw e =>
              {| car_agreed := false; car_primaryHeight := Some pblocks; car_secondaryHeight := Some sblocks;
                 car_comparisonHeight := Some comparisonHeight; car_comparisonHash := None;
                 car_detail := Some (exn_message e) |}
          end
  end.

Record MainnetReadinessInput := {
  ri_profile : MainnetProfile;
  ri_profileHash : string;
  ri_expectedProfileHash : string;
  ri_releaseManifestOk : bool;
  ri_primaryCoreHealthy : bool;
  ri_secondaryCoreHealthy : bool;
  ri_coreAgreement : bool;
  ri_indexerHealthy : bool;
  ri_stateRootVerified : bool;
  ri_workerHealthy : bool;
  ri_guardianHealthy : bool;
  ri_guardianProfileHash : option string;
  ri_guardianXOnly : option string;
  ri_custodyBackendReady : bool;
  ri_auditHealthy : bool;
  ri_signingJournalHealthy : bool;
  ri_canaryActive : bool;
}.

(** The result repeats its input; these are what it adds. *)
Record MainnetReadiness := {
  rd_stage : MainnetStage;
  rd_staticProfileReady : bool;
  rd_profileHashMatches : bool;
  rd_guardianProfileHashMatches : bool;
  rd_guardianKeyMatches : bool;
  rd_input : MainnetReadinessInput;
  rd_mutationsEnabled : bool;
}.

Inductive ReadinessState :=
  | NOT_READY | READY_EXCEPT_FOR_OPERATOR_CEREMONY | READY_FOR_CONTROLLED_MAINNET_CANARY.

Definition key_matches (a b : option string) : bool :=
  match a, b with Some a, Some b => String.eqb (toLowerCase a) (toLowerCase b) | _, _ => false end.

Definition opt_eqb (o : option string) (s : string) : bool := bool_decide (o = Some s).

Section Stage.
Context {C : Crypto} {J : BitcoinJs} {T : TestKeys}.

Definition mainnetProfileComplete (p : MainnetProfile) : result bool :=
  v ← validateMainnetProfile p false; Ok (mv_ok v).

(** [e.startsWith(prefix)] *)
Definition starts_with (prefix s : string) : bool := bool_decide (is_Some (strip prefix s)).

Definition missingOwnerDecisions (p : MainnetProfile) : result (list string) :=
  v ← validateMainnetProfile p false;
  Ok (filter (λ e, starts_with "OWNER_DECISION_REQUIRED" e = true) (mv_errors v)).

Definition deriveMainnetStage (p : MainnetProfile) (canaryActive : bool) (h : MainnetHealth) : result MainnetStage :=
  complete ← mainnetProfileComplete p;
  Ok (if negb complete then DISABLED
      else if negb (mh_profileHashMatches h) then DISABLED
      else if negb (mh_primaryCoreHealthy h) || negb (mh_secondaryCoreHealthy h) || negb (mh_coreAgreement h)
              || negb (mh_indexerHealthy h) then READ_ONLY
      else if negb (mh_stateRootVerified h) || negb (mh_workerHealthy h) then READ_ONLY
      else if negb (mh_guardianHealthy h) || negb (mh_guardianProfileHashMatches h) || negb (mh_guardianKeyMatches h)
              || negb (mh_auditHealthy h) || negb (mh_signingJournalHealthy h) then READ_ONLY
      else if negb canaryActive then CANARY_READY
      else CANARY_ACTIVE).

Definition computeMainnetReadiness (input : MainnetReadinessInput) : result MainnetReadiness :=
  staticProfileReady ← mainnetProfileComplete (ri_profile input);
  let profileHashMatches := String.eqb (ri_profileHash input) (ri_expectedProfileHash input) in
  let guardianProfileHashMatches := opt_eqb (ri_guardianProfileHash input) (ri_expectedProfileHash input) in
  let guardianKeyMatches := key_matches (ri_guardianXOnly input) (mp_guardianXOnly (ri_profile input)) in
  stage ← deriveMainnetStage (ri_profile input) (ri_canaryActive input) {|
    mh_primaryCoreHealthy := ri_primaryCoreHealthy input;
    mh_secondaryCoreHealthy := ri_secondaryCoreHealthy input;
    mh_coreAgreement := ri_coreAgreement input;
    mh_indexerHealthy := ri_indexerHealthy input;
    mh_stateRootVerified := ri_stateRootVerified input;
    mh_workerHealthy := ri_workerHealthy input;
    mh_guardianHealthy := ri_guardianHealthy input;
    mh_guardianProfileHashMatches := guardianProfileHashMatches;
    mh_guardianKeyMatches := guardianKeyMatches;
    mh_auditHealthy := ri_auditHealthy input;
    mh_signingJournalHealthy := ri_signingJournalHealthy input;
    mh_profileHashMatches := profileHashMatches |};
  Ok {| rd_stage := stage; rd_staticProfileReady := staticProfileReady;
        rd_profileHashMatches := profileHashMatches;
        rd_guardianProfileHashMatches := guardianProfileHashMatches;
        rd_guardianKeyMatches := guardianKeyMatches; rd_input := input;
        rd_mutationsEnabled := bool_decide (stage = CANARY_ACTIVE) |}.

Definition deriveReadinessState (r : MainnetReadiness) : ReadinessState :=
  if negb (rd_staticProfileReady r) then READY_EXCEPT_FOR_OPERATOR_CEREMONY
  else match rd_stage r with
       | CANARY_READY | CANARY_ACTIVE => READY_FOR_CONTROLLED_MAINNET_CANARY
       | _ => NOT_READY
       end.
End Stage.

(** ** readiness-probes.ts *)
Definition committedHash (raw : option string) : option string :=
  let s := toLowerCase (js_trim (default ""%string raw)) in
  if is_any_hex64 s then Some s else None.

(** A [HealthReport] of the indexer: its health and its state root. *)
Definition evaluateIndexerProbe (health : option (string * string)) (expectedStateRoot : option string)
    : bool * bool * string :=
  let indexerHealthy := match health with Some (h, _) => String.eqb h "HEALTHY" | None => false end in
  let stateRoot := match health with Some (_, r) => r | None => ""%string end in
  let stateRootVerified :=
    indexerHealthy && negb (String.eqb stateRoot "") && opt_eqb expectedStateRoot (toLowerCase stateRoot) in
  (indexerHealthy, stateRootVerified, stateRoot).

Definition workerLockKey (network : string) : result Z :=
  of_option (js_error ("no worker lock key for network " +:+ quoted network))
    (if String.eqb network "regtest" then Some 1 else if String.eqb network "signet" then Some 2
     else if String.eqb network "testnet" then Some 3 else if String.eqb network "mainnet" then Some 4 else None).

(** ** readiness-cli.ts *)
Record GuardianHealth := {
  gh_reachable : bool; gh_profileHash : string; gh_guardianXOnly : string;
  gh_auditHealthy : bool; gh_signingJournalHealthy : bool; gh_custodyBackendReady : bool;
}.

(** What the probes found; a node or a service that is not configured is
    [None]. *)
Record Probes := {
  pb_primary : CoreNode;
  pb_secondary : option CoreNode;
  pb_indexer : option (result (string * string));
  pb_workerLock : result bool;
  pb_guardian : option (result GuardianHealth);
}.

Record CoreSignals := { cs_primary : bool; cs_secondary : bool; cs_agreement : bool; cs_detail : option string }.

Definition core_signals (pb : Probes) : CoreSignals :=
  let primaryCoreHealthy := is_ok (cn_getBlockchainInfo (pb_primary pb)) in
  match pb_secondary pb with
  | None => {| cs_primary := primaryCoreHealthy; cs_secondary := false; cs_agreement := false;
               cs_detail := Some "no secondary Core configured"%string |}
  | Some secondary =>
      if is_ok (cn_getBlockchainInfo secondary) then
        let agreement := checkCoreAgreement (pb_primary pb) secondary None in
        {| cs_primary := primaryCoreHealthy; cs_secondary := true; cs_agreement := car_agreed agreement;
           cs_detail := car_detail agreement |}
      else {| cs_primary := primaryCoreHealthy; cs_secondary := false; cs_agreement := false;
              cs_detail := Some "secondary unreachable"%string |}
  end.

(** The indexer's flags, its state root and the worker's flag: a throw keeps
    what was set before it. *)
Definition indexer_signals (pb : Probes) (expectedStateRoot : option string) : bool * bool * string * bool :=
  match pb_indexer pb with
  | Some (Ok health) =>
      (evaluateIndexerProbe (Some health) expectedStateRoot,
       match pb_workerLock pb with Ok held => held | Throw _ => false end)
  | _ => (false, false, ""%string, false)
  end.

Record RuntimeReadinessResult := {
  rr_state : ReadinessState;
  rr_readiness : MainnetReadiness;
  rr_profileHash : string;
  rr_expectedProfileHash : option string;
  rr_profileSource : ProfileSource;
  rr_stateRoot : string;
  rr_coreAgreementDetail : option string;
}.

Section Runtime.
Context {C : Crypto} {J : BitcoinJs} {T : TestKeys}.
Context (toOutputScript : string → btc_network → result (list byte)).
Context (readFile : string → result string) (resolvePath : string → string → string).

Definition runRuntimeReadiness (env : Env) (cwd : string) (pb : Probes) : result RuntimeReadinessResult :=
  '(c, source) ← resolveMainnetProfile toOutputScript readFile resolvePath "tooling"
      (env !! "COVE_TEST_ONLY_PROFILE_PATH"%string) (Some cwd) (non_empty (env !! FEE_ADDRESS_ENV));
  let canaryActive := is_yes (default ""%string (env !! "COVE_V3_CANARY_ACTIVE"%string)) in
  let expectedProfileHash := committedHash (env !! "COVE_V3_MAINNET_PROFILE_HASH"%string) in
  let expectedStateRoot := committedHash (env !! "COVE_V3_MAINNET_STATE_ROOT"%string) in
  let releaseManifestOk :=
    bool_decide (is_Some (committedHash (env !! "COVE_V3_MAINNET_RELEASE_MANIFEST_HASH"%string))) in
  let core := core_signals pb in
  let '(indexerHealthy, stateRootVerified, stateRoot, workerHealthy) := indexer_signals pb expectedStateRoot in
  let guardian := match pb_guardian pb with Some (Ok h) => Some h | _ => None end in
  let flag f := match guardian with Some h => f h | None => false end in
  readiness ← computeMainnetReadiness {|
    ri_profile := cm_profile c; ri_profileHash := cm_profileHash c;
    ri_expectedProfileHash := default ""%string expectedProfileHash;
    ri_releaseManifestOk := releaseManifestOk;
    ri_primaryCoreHealthy := cs_primary core; ri_secondaryCoreHealthy := cs_secondary core;
    ri_coreAgreement := cs_agreement core;
    ri_indexerHealthy := indexerHealthy; ri_stateRootVerified := stateRootVerified;
    ri_workerHealthy := workerHealthy; ri_guardianHealthy := flag gh_reachable;
    ri_guardianProfileHash := gh_profileHash <$> guardian; ri_guardianXOnly := gh_guardianXOnly <$> guardian;
    ri_custodyBackendReady := flag gh_custodyBackendReady; ri_auditHealthy := flag gh_auditHealthy;
    ri_signingJournalHealthy := flag gh_signingJournalHealthy; ri_canaryActive := canaryActive |};
  Ok {| rr_state := deriveReadinessState readiness; rr_readiness := readiness;
        rr_profileHash := cm_profileHash c; rr_expectedProfileHash := expectedProfileHash;
        rr_profileSource := source; rr_stateRoot := stateRoot; rr_coreAgreementDetail := cs_detail core |}.
End Runtime.

(** ** What enables mutations *)

(** Two nodes on one chain, at most three blocks apart, with one block at the
    lower height. *)
Definition nodes_agree (primary secondary : CoreNode) : Prop :=
  ∃ chain a b h, cn_getBlockchainInfo primary = Ok (chain, a) ∧ cn_getBlockchainInfo secondary = Ok (chain, b)
  ∧ Z.abs (a - b) ≤ 3 ∧ cn_getBlockHash primary (Z.min a b) = Ok h ∧ cn_getBlockHash secondary (Z.min a b) = Ok h.

Lemma checkCoreAgreement_agreed primary secondary :
  car_agreed (checkCoreAgreement primary secondary None) = true ↔ nodes_agree primary secondary.
Proof.
  unfold checkCoreAgreement, nodes_agree. cbn [default]. split.
  - destruct (cn_getBlockchainInfo primary) as [[pc pb]|], (cn_getBlockchainInfo secondary) as [[sc sb]|];
      try done; cbn [mbind result_bind].
    destruct (String.eqb_spec pc sc) as [->|]; [|done]. cbn [negb].
    destruct (Z.ltb_spec 3 (Z.abs (pb - sb))); [done|].
    destruct (cn_getBlockHash primary _) as [ph|] eqn:Ep, (cn_getBlockHash secondary _) as [sh|] eqn:Es; try done.
    cbn. intros ->%String.eqb_eq. exists sc, pb, sb, sh. done.
  - intros (chain & a & b & h & -> & -> & Hd & Hp & Hs). cbn [mbind result_bind]. rewrite String.eqb_refl. cbn [negb].
    rewrite (proj2 (Z.ltb_ge 3 _)) by done. rewrite Hp, Hs. cbn. apply String.eqb_refl.
Qed.

Lemma core_signals_good pb :
  cs_primary (core_signals pb) = true ∧ cs_secondary (core_signals pb) = true ∧ cs_agreement (core_signals pb) = true
  ↔ ∃ secondary, pb_secondary pb = Some secondary ∧ nodes_agree (pb_primary pb) secondary.
Proof.
  unfold core_signals. destruct (pb_secondary pb) as [s|]; [|cbn; naive_solver]. split.
  - destruct (is_ok (cn_getBlockchainInfo s)); [|cbn; naive_solver]. cbn [cs_primary cs_secondary cs_agreement].
    intros (_ & _ & H). exists s. split; [done|]. by apply checkCoreAgreement_agreed.
  - intros (s' & [= <-] & H). pose proof H as (chain & a & b & h & Hp & Hs & _). rewrite Hp, Hs. cbn.
    split_and!; [done..|]. by apply checkCoreAgreement_agreed.
Qed.

Lemma indexer_signals_good pb root healthy verified r worker :
  indexer_signals pb root = (healthy, verified, r, worker) →
  healthy = true ∧ verified = true ∧ worker = true
  ↔ ∃ sr, pb_indexer pb = Some (Ok ("HEALTHY"%string, sr)) ∧ sr ≠ ""%string ∧ root = Some (toLowerCase sr)
          ∧ pb_workerLock pb = Ok true.
Proof.
  unfold indexer_signals, evaluateIndexerProbe, opt_eqb.
  destruct (pb_indexer pb) as [[[h sr]|e]|]; intros [= <- <- <- <-]; [|naive_solver..].
  rewrite !andb_true_iff, negb_true_iff, String.eqb_eq, String.eqb_neq, bool_decide_eq_true. split.
  - intros (-> & [[_ Hne] Hr] & Hw). exists sr. destruct (pb_workerLock pb); naive_solver.
  - intros (? & [= -> ->] & Hne & -> & ->). done.
Qed.

Section Gate.
Context {C : Crypto} {J : BitcoinJs} {T : TestKeys}.

Lemma mutations_flag input r :
  computeMainnetReadiness input = Ok r →
  rd_mutationsEnabled r = true ↔
    mainnetProfileComplete (ri_profile input) = Ok true ∧ ri_profileHash input = ri_expectedProfileHash input
    ∧ (ri_primaryCoreHealthy input = true ∧ ri_secondaryCoreHealthy input = true ∧ ri_coreAgreement input = true)
    ∧ (ri_indexerHealthy input = true ∧ ri_stateRootVerified input = true ∧ ri_workerHealthy input = true)
    ∧ ri_guardianHealthy input = true ∧ ri_guardianProfileHash input = Some (ri_expectedProfileHash input)
    ∧ (∃ a b, ri_guardianXOnly input = Some a ∧ mp_guardianXOnly (ri_profile input) = Some b
              ∧ toLowerCase a = toLowerCase b)
    ∧ ri_auditHealthy input = true ∧ ri_signingJournalHealthy input = true ∧ ri_canaryActive input = true.
Proof.
  unfold computeMainnetReadiness, deriveMainnetStage. intros H. apply bind_Ok in H as (complete & Ec & H).
  rewrite Ec in H. rewrite bind_of_Ok in H. cbn beta zeta in H. rewrite bind_of_Ok in H. injection H as <-.
  cbn [rd_mutationsEnabled mh_primaryCoreHealthy mh_secondaryCoreHealthy mh_coreAgreement mh_indexerHealthy
    mh_stateRootVerified mh_workerHealthy mh_guardianHealthy mh_guardianProfileHashMatches mh_guardianKeyMatches
    mh_auditHealthy mh_signingJournalHealthy mh_profileHashMatches].
  rewrite bool_decide_eq_true, Ec, <-String.eqb_eq, <-(bool_decide_eq_true (ri_guardianProfileHash input = _)).
  change (bool_decide (ri_guardianProfileHash input = Some (ri_expectedProfileHash input)))
    with (opt_eqb (ri_guardianProfileHash input) (ri_expectedProfileHash input)).
  assert ((∃ a b, ri_guardianXOnly input = Some a ∧ mp_guardianXOnly (ri_profile input) = Some b
            ∧ toLowerCase a = toLowerCase b)
    ↔ key_matches (ri_guardianXOnly input) (mp_guardianXOnly (ri_profile input)) = true) as ->.
  { unfold key_matches. destruct (ri_guardianXOnly input), (mp_guardianXOnly (ri_profile input)); rewrite ?String.eqb_eq; naive_solver. }
  generalize (key_matches (ri_guardianXOnly input) (mp_guardianXOnly (ri_profile input))) as key.
  generalize (opt_eqb (ri_guardianProfileHash input) (ri_expectedProfileHash input)) as ghash.
  generalize (String.eqb (ri_profileHash input) (ri_expectedProfileHash input)) as phash. intros phash ghash key.
  assert (Ok complete = Ok true ↔ complete = true) as -> by (split; congruence). split.
  - intros H. repeat match type of H with
      | (if ?b then _ else _) = _ => destruct b eqn:?; [discriminate H|]
      end. to_prop. naive_solver.
  - intros (-> & -> & (-> & -> & ->) & (-> & -> & ->) & -> & -> & -> & -> & -> & ->). reflexivity.
Qed.

Context (toOutputScript : string → btc_network → result (list byte)).
Context (readFile : string → result string) (resolvePath : string → string → string).

Lemma resolved_hash network path dir fee c source :
  resolveMainnetProfile toOutputScript readFile resolvePath network path dir fee = Ok (c, source) →
  hashMainnetProfile (cm_profile c) = Ok (cm_profileHash c).
Proof using.
  unfold resolveMainnetProfile. assert (∀ x,
    (c' ← committedMainnetProfile toOutputScript fee; Ok (c', SourceCommitted)) = Ok (c, x) →
    hashMainnetProfile (cm_profile c) = Ok (cm_profileHash c)) as Hcommitted.
  { intros x H. apply bind_Ok in H as (c' & Hc & H). injection H as -> _.
    unfold committedMainnetProfile in Hc. apply bind_Ok in Hc as (p & _ & Hc). apply bind_Ok in Hc as (q & _ & Hc).
    apply bind_Ok in Hc as (v & _ & Hc). apply bind_Ok in Hc as (h & Hh & Hc). by injection Hc as <-. }
  destruct path as [[|a path]|]; [apply Hcommitted| |apply Hcommitted].
  intros H. apply bind_Ok in H as (u & _ & H). cbn zeta in H. apply bind_Ok in H as ([p v] & _ & H).
  apply bind_Ok in H as (h & Hh & H). by injection H as <- <-.
Qed.

(** Documented: SHA-256 has 32 bytes. *)
Context (sha256_length : ∀ m, length (sha256 m) = 32%nat).

Lemma resolved_hash_nonempty network path dir fee c source :
  resolveMainnetProfile toOutputScript readFile resolvePath network path dir fee = Ok (c, source) →
  cm_profileHash c ≠ ""%string.
Proof using sha256_length.
  intros H%resolved_hash Ee. unfold hashMainnetProfile in H. apply bind_Ok in H as (b & _ & H).
  injection H as H. rewrite Ee in H. apply (f_equal String.length) in H. rewrite toHex_length, sha256_length in H. done.
Qed.

(** the readiness tool enables mutations exactly when every gate is open:
    the profile in use is valid without the test-key bypass and has the
    committed hash; the Guardian reports that hash and the profile's key, with
    its audit and journal healthy; two Core nodes are on one chain, at most
    three blocks apart, with one block at the lower height; the indexer is
    healthy at the committed state root; the worker holds its lock; and the
    canary is switched on. *)
Theorem readiness_gate env cwd pb r :
  runRuntimeReadiness toOutputScript readFile resolvePath env cwd pb = Ok r →
  rd_mutationsEnabled (rr_readiness r) = true ↔
  ∃ c source g secondary h root key,
    resolveMainnetProfile toOutputScript readFile resolvePath "tooling"
      (env !! "COVE_TEST_ONLY_PROFILE_PATH"%string) (Some cwd) (non_empty (env !! FEE_ADDRESS_ENV)) = Ok (c, source)
    ∧ mainnetProfileComplete (cm_profile c) = Ok true
    ∧ committedHash (env !! "COVE_V3_MAINNET_PROFILE_HASH"%string) = Some (cm_profileHash c)
    ∧ (pb_guardian pb = Some (Ok g) ∧ gh_reachable g = true ∧ gh_profileHash g = cm_profileHash c
       ∧ mp_guardianXOnly (cm_profile c) = Some key ∧ toLowerCase (gh_guardianXOnly g) = toLowerCase key
       ∧ gh_auditHealthy g = true ∧ gh_signingJournalHealthy g = true)
    ∧ (pb_secondary pb = Some secondary ∧ nodes_agree (pb_primary pb) secondary)
    ∧ (pb_indexer pb = Some (Ok (h, root)) ∧ h = "HEALTHY"%string ∧ root ≠ ""%string
       ∧ committedHash (env !! "COVE_V3_MAINNET_STATE_ROOT"%string) = Some (toLowerCase root))
    ∧ pb_workerLock pb = Ok true
    ∧ is_yes (default ""%string (env !! "COVE_V3_CANARY_ACTIVE"%string)) = true.
Proof using sha256_length.
  unfold runRuntimeReadiness. intros H. apply bind_Ok in H as ([c source] & Hc & H). cbn zeta in H.
  destruct (indexer_signals pb _) as [[[healthy verified] sroot] worker] eqn:Ei.
  apply bind_Ok in H as (rd & Hrd & H). injection H as <-. cbn [rr_readiness].
  rewrite (mutations_flag _ _ Hrd).
  cbn [ri_profile ri_profileHash ri_expectedProfileHash ri_primaryCoreHealthy ri_secondaryCoreHealthy
    ri_coreAgreement ri_indexerHealthy ri_stateRootVerified ri_workerHealthy ri_guardianHealthy
    ri_guardianProfileHash ri_guardianXOnly ri_auditHealthy ri_signingJournalHealthy ri_canaryActive].
  rewrite core_signals_good, (indexer_signals_good _ _ _ _ _ _ Ei). split.
  - intros (Hcomplete & Hexp & (secondary & Hsec & Hagree) & (root & Hi & Hroot & Hcommitted & Hw) & Hg & Hgh
      & (a & key & Ha & Hkey & Hlow) & Haudit & Hjournal & Hcanary).
    destruct (pb_guardian pb) as [[g|]|]; try done. cbn in Hgh, Ha. injection Hgh as Hgh. injection Ha as Ha. subst a.
    exists c, source, g, secondary, "HEALTHY"%string, root, key. rewrite Hgh, <-Hexp. split_and!; try done.
    destruct (committedHash (env !! "COVE_V3_MAINNET_PROFILE_HASH"%string)) as [e|]; cbn in Hexp; [by rewrite Hexp|].
    exfalso. by eapply resolved_hash_nonempty.
  - intros (c' & source' & g & secondary & h & root & key & Hc' & Hcomplete & Hexp & (Hg & Hr & Hgh & Hkey & Hlow & Ha & Hj)
      & (Hsec & Hagree) & (Hi & -> & Hroot & Hcommitted) & Hw & Hcanary).
    rewrite Hc in Hc'. injection Hc' as <- <-. rewrite Hg, Hexp. cbn. rewrite Hgh. split_and!; try done.
    + by exists secondary.
    + by exists root.
    + by exists (gh_guardianXOnly g), key.
Qed.
End Gate.
