(* ===== verification/Json.v ===== *)
(** * JSON.stringify, and that JSON.parse reads it back

    The parser is in [Discovery]; here is its inverse on values whose numbers
    are integers printed in decimal, and the round trip. *)
From S2P Require Import Prelude Bytes Wire Discovery Number.

(** ** JSON.stringify *)
Fixpoint JSON_stringify (v : json) : string :=
  match v with
  | JNull => "null"
  | JBool b => if b then "true" else "false"
  | JNumber n => n
  | JString s => json_stringify s
  | JArray l => "[" +:+ join_comma (map JSON_stringify l) +:+ "]"
  | JObject f => "{" +:+ join_comma (map (λ kv, json_stringify kv.1 +:+ ":" +:+ JSON_stringify kv.2) f) +:+ "}"
  end.

(** Induction over a value and what it contains. *)
Lemma json_rect' (P : json → Prop) :
  P JNull → (∀ b, P (JBool b)) → (∀ n, P (JNumber n)) → (∀ s, P (JString s)) →
  (∀ l, Forall P l → P (JArray l)) → (∀ f, Forall (λ kv, P kv.2) f → P (JObject f)) → ∀ v, P v.
Proof.
  intros H1 H2 H3 H4 H5 H6. fix IH 1. intros [|b|n|s|l|f]; [done|apply H2|apply H3|apply H4|apply H5|apply H6].
  - induction l as [|x l IHl]; constructor; [apply IH|exact IHl].
  - induction f as [|[k x] f IHf]; constructor; [apply IH|exact IHf].
Qed.

(** The numbers of a value are printed integers. *)
Fixpoint int_numbers (v : json) : Prop :=
  match v with
  | JNumber n => ∃ z : Z, n = pretty z
  | JArray l => foldr (λ x P, int_numbers x ∧ P) True l
  | JObject f => foldr (λ kv P, int_numbers kv.2 ∧ P) True f
  | _ => True
  end.

(** What may follow a value. *)
Definition delimited (t : string) : Prop :=
  match t with EmptyString => True | String a _ => a = ","%char ∨ a = "]"%char ∨ a = "}"%char end.

Lemma delimited_comma t : delimited ("," +:+ t).
Proof. by left. Qed.
Lemma delimited_array t : delimited ("]" +:+ t).
Proof. right. by left. Qed.
Lemma delimited_object t : delimited ("}" +:+ t).
Proof. right. by right. Qed.

(** ** Printed integers *)
Lemma pretty_N_go_app x s t : pretty_N_go x s +:+ t = pretty_N_go x (s +:+ t).
Proof.
  revert s. induction (N.lt_wf_0 x) as [x _ IH]. intros s. destruct (decide (0 < x)%N) as [Hx|Hx].
  - rewrite !(pretty_N_go_step x) by done. rewrite IH by by apply N.div_lt. done.
  - replace x with 0%N by lia. by rewrite !pretty_N_go_0.
Qed.

Lemma is_digit_N_char d : is_digit (pretty_N_char d) = true.
Proof. unfold pretty_N_char. repeat case_match; vm_compute; reflexivity. Qed.

Lemma skip_digits_go x s : skip_digits (pretty_N_go x s) = skip_digits s.
Proof.
  revert s. induction (N.lt_wf_0 x) as [x _ IH]. intros s. destruct (decide (0 < x)%N) as [Hx|Hx].
  - rewrite pretty_N_go_step by done. rewrite IH by by apply N.div_lt. cbn [skip_digits]. by rewrite is_digit_N_char.
  - replace x with 0%N by lia. by rewrite pretty_N_go_0.
Qed.

(** A positive number starts with a digit that is not zero. *)
Lemma pretty_N_go_head x s :
  (0 < x)%N → ∃ a r, pretty_N_go x s = String a r ∧ is_digit a = true ∧ a ≠ "0"%char
  ∧ skip_digits r = skip_digits s.
Proof.
  revert s. induction (N.lt_wf_0 x) as [x _ IH]. intros s Hx.
  rewrite pretty_N_go_step by done. destruct (decide (x < 10)%N) as [Hs|Hs].
  - rewrite N.div_small, pretty_N_go_0, N.mod_small by done.
    exists (pretty_N_char x), s. split_and!; [done|apply is_digit_N_char| |done].
    assert (x = 1 ∨ x = 2 ∨ x = 3 ∨ x = 4 ∨ x = 5 ∨ x = 6 ∨ x = 7 ∨ x = 8 ∨ x = 9)%N as Hin by lia.
    destruct_or! Hin; by subst.
  - destruct (IH (x / 10)%N (N.div_lt x 10 ltac:(lia) ltac:(lia)) (String (pretty_N_char (x `mod` 10)) s))
      as (a & r & E & Ha & Hz & Hr).
    { apply N.div_str_pos. lia. }
    exists a, r. split_and!; [done..|]. rewrite Hr. cbn [skip_digits]. by rewrite is_digit_N_char.
Qed.

Lemma skip_digits_delimited t : delimited t → skip_digits t = t.
Proof. destruct t as [|a t]; [done|]. cbn. by intros [->|[->| ->]]. Qed.

Definition parse_tail (s : string) : option string :=
  s ← match s with
      | String a r => if Ascii.eqb a "." then digits1 r else Some s
      | EmptyString => Some s
      end;
  match s with
  | String a r =>
      if Ascii.eqb a "e" || Ascii.eqb a "E" then
        match r with
        | String b r' => if Ascii.eqb b "+" || Ascii.eqb b "-" then digits1 r' else digits1 r
        | EmptyString => None
        end
      else Some s
  | EmptyString => Some s
  end.

Lemma parse_tail_delimited t : delimited t → parse_tail t = Some t.
Proof. destruct t as [|a t]; [done|]. cbn. by intros [->|[->| ->]]. Qed.

Lemma parse_number_N (x : N) t : delimited t → parse_number (pretty x +:+ t) = Some t.
Proof.
  intros Ht. unfold pretty, pretty_N. case_decide as Hx.
  - subst. rewrite string_app_cons. unfold parse_number. cbn [Ascii.eqb]. cbn. by apply parse_tail_delimited.
  - rewrite pretty_N_go_app. destruct (pretty_N_go_head x ("" +:+ t)) as (a & r & -> & Ha & Hz & Hr); [lia|].
    unfold parse_number.
    assert (Ascii.eqb a "-" = false) as Hm.
    { destruct (Ascii.eqb_spec a "-") as [->|]; [|done]. by vm_compute in Ha. }
    rewrite Hm. apply Ascii.eqb_neq in Hz. rewrite Hz. cbn [digits1]. rewrite Ha.
    rewrite Hr. change ("" +:+ t) with t. rewrite skip_digits_delimited by done. by apply parse_tail_delimited.
Qed.

Lemma parse_number_pretty (z : Z) t : delimited t → parse_number (pretty z +:+ t) = Some t.
Proof.
  intros Ht. destruct z as [|p|p].
  - by apply (parse_number_N 0).
  - by apply (parse_number_N (N.pos p)).
  - change (pretty (Z.neg p) +:+ t) with (String "-" (pretty (N.pos p) +:+ t)).
    pose proof (parse_number_N (N.pos p) t Ht) as H. revert H. unfold pretty, pretty_N. case_decide; [done|].
    rewrite pretty_N_go_app. destruct (pretty_N_go_head (N.pos p) ("" +:+ t)) as (a & r & -> & Ha & _); [lia|].
    unfold parse_number at 2. change (Ascii.eqb "-" "-") with true. cbn iota.
    unfold parse_number. destruct (Ascii.eqb_spec a "-") as [->|]; [by vm_compute in Ha|]. done.
Qed.

Lemma read_text_app s t : read_text (s +:+ t) t = s.
Proof.
  unfold read_text. assert (∀ s t : string, String.length (s +:+ t) = (String.length s + String.length t)%nat) as L.
  { clear. intros s t. induction s as [|a s IH]; [done|]. rewrite string_app_cons. cbn. by rewrite IH. }
  rewrite L, Nat.add_sub. clear L. induction s as [|a s IH]; [by destruct t|].
  rewrite string_app_cons. cbn [String.length String.substring]. by rewrite IH.
Qed.

(** The first character of a printed integer. *)
Lemma pretty_head (z : Z) : ∃ a r, pretty z = String a r ∧ (is_digit a = true ∨ a = "-"%char).
Proof.
  assert (∀ x : N, ∃ a r, pretty x = String a r ∧ is_digit a = true) as HN.
  { intros x. unfold pretty, pretty_N. case_decide; [by eexists _, _|].
    destruct (pretty_N_go_head x "") as (a & r & -> & Ha & _); [lia|]. by exists a, r. }
  destruct z as [|p|p].
  - destruct (HN 0%N) as (a & r & E & Ha). exists a, r. auto.
  - destruct (HN (N.pos p)) as (a & r & E & Ha). exists a, r. auto.
  - exists "-"%char, (pretty (N.pos p)). auto.
Qed.

Lemma digit_or_minus a : is_digit a = true ∨ a = "-"%char →
  is_ws a = false ∧ Ascii.eqb a dquote = false ∧ Ascii.eqb a "{" = false ∧ Ascii.eqb a "[" = false
  ∧ Ascii.eqb a "]" = false ∧ Ascii.eqb a "}" = false
  ∧ Ascii.eqb "n" a = false ∧ Ascii.eqb "t" a = false ∧ Ascii.eqb "f" a = false.
Proof.
  intros [H| ->]; [|by vm_compute].
  destruct a as [[] [] [] [] [] [] [] []]; vm_compute in H; try discriminate H; by vm_compute.
Qed.

(** The first character of a value. *)
Lemma stringify_head v : int_numbers v →
  ∃ a r, JSON_stringify v = String a r ∧ is_ws a = false ∧ Ascii.eqb a "]" = false ∧ Ascii.eqb a "}" = false.
Proof.
  destruct v as [|[]|n|s|l|f]; cbn [JSON_stringify int_numbers]; intros H; try by eexists _, _.
  destruct H as [z ->]. destruct (pretty_head z) as (a & r & E & Ha).
  apply digit_or_minus in Ha as (? & _ & _ & _ & ? & ? & _). by exists a, r.
Qed.

(** Enough rounds of the parser. *)
Fixpoint need (v : json) : nat :=
  match v with
  | JArray l => S (foldr (λ x n, S (need x + n)) 0 l)%nat
  | JObject f => S (foldr (λ kv n, S (need kv.2 + n)) 0 f)%nat
  | _ => 1%nat
  end.
Definition need_elements (l : list json) : nat := foldr (λ x n, S (need x + n))%nat 0%nat l.
Definition need_members (f : list (string * json)) : nat := foldr (λ kv n, S (need kv.2 + n))%nat 0%nat f.

Definition reads (v : json) : Prop := int_numbers v → ∀ fuel t, delimited t → (need v ≤ fuel)%nat →
  parse_value fuel (JSON_stringify v +:+ t) = Ok (v, t).

Lemma skip_ws_head a r : is_ws a = false → skip_ws (String a r) = String a r.
Proof. intros H. cbn. by rewrite H. Qed.

Lemma reads_number n : reads (JNumber n).
Proof.
  intros [z ->] [|fuel] t Ht Hn; [cbn in Hn; lia|]. cbn [JSON_stringify].
  destruct (pretty_head z) as (a & r & E & Ha). apply digit_or_minus in Ha as (W & Q & B & A & _ & _ & N & T & F).
  pose proof (parse_number_pretty z t Ht) as Hp. pose proof (read_text_app (pretty z) t) as Hr. rewrite E in *.
  rewrite string_app_cons in *. cbn [parse_value]. rewrite skip_ws_head by done. rewrite Q, B, A.
  cbn [strip]. rewrite N, T, F, Hp, Hr. done.
Qed.

Lemma join_comma_cons x y l : join_comma (x :: y :: l) = x +:+ "," +:+ join_comma (y :: l).
Proof. done. Qed.

Lemma skip_ws_delimited a t : a = ","%char ∨ a = "]"%char ∨ a = "}"%char → skip_ws (String a t) = String a t.
Proof. by intros [->|[->| ->]]. Qed.

Lemma reads_elements l : Forall reads l → foldr (λ x P, int_numbers x ∧ P) True l → l ≠ [] →
  ∀ fuel t, (need_elements l ≤ fuel)%nat →
  parse_elements fuel (join_comma (map JSON_stringify l) +:+ "]" +:+ t) = Ok (l, t).
Proof.
  induction 1 as [|x l Hx _ IH]; intros Hi Hne fuel t Hf; [done|]. destruct Hi as [Hix Hi].
  destruct fuel as [|fuel]; [cbn in Hf; lia|]. cbn [need_elements foldr] in Hf. cbn [parse_elements].
  destruct l as [|y l].
  - cbn [map join_comma]. change (join_comma [JSON_stringify x]) with (JSON_stringify x).
    rewrite (Hx Hix fuel); [|by auto using delimited_comma, delimited_array, delimited_object|lia]. step_ok.
    change ("]" +:+ t) with (String "]" t). by rewrite skip_ws_delimited by auto.
  - cbn [map]. rewrite join_comma_cons, !string_app_assoc.
    rewrite (Hx Hix fuel); [|by auto using delimited_comma, delimited_array, delimited_object|lia]. step_ok.
    change ("," +:+ ?r) with (String "," r). rewrite skip_ws_delimited by auto.
    change (Ascii.eqb "," "]") with false. change (Ascii.eqb "," ",") with true. cbn iota.
    cbn [map] in IH. rewrite IH; [done|done|done|]. unfold need_elements. lia.
Qed.

Lemma reads_members f : Forall (λ kv, reads kv.2) f → foldr (λ kv P, int_numbers kv.2 ∧ P) True f → f ≠ [] →
  ∀ fuel t, (need_members f ≤ fuel)%nat →
  parse_members fuel (join_comma (map (λ kv, json_stringify kv.1 +:+ ":" +:+ JSON_stringify kv.2) f) +:+ "}" +:+ t)
  = Ok (f, t).
Proof.
  induction 1 as [|[k x] f Hx _ IH]; intros Hi Hne fuel t Hf; [done|]. destruct Hi as [Hix Hi].
  destruct fuel as [|fuel]; [cbn in Hf; lia|]. cbn [need_members foldr snd] in Hf. cbn [snd] in Hx, Hix.
  assert (∀ r, parse_members (S fuel) (json_stringify k +:+ ":" +:+ JSON_stringify x +:+ r)
    = ('(v, r) ← parse_value fuel (JSON_stringify x +:+ r);
       match skip_ws r with
       | String a r =>
           if Ascii.eqb a "}" then Ok ([(k, v)], r)
           else if Ascii.eqb a "," then '(f, r) ← parse_members fuel r; Ok ((k, v) :: f, r)
           else Throw syntax_error
       | EmptyString => Throw syntax_error
       end)) as Hstep.
  { intros r. rewrite json_stringify_app. cbn [parse_members]. rewrite (skip_ws_head dquote) by done.
    cbn [strip]. rewrite Ascii.eqb_refl, parse_string_escapes. step_ok.
    change (":" +:+ ?r) with (String ":" r). rewrite skip_ws_head by done. cbn [strip]. by rewrite Ascii.eqb_refl. }
  destruct f as [|[k' y] f].
  - cbn [map join_comma fst snd].
    change (join_comma [?s]) with s. rewrite !string_app_assoc, Hstep.
    rewrite (Hx Hix fuel); [|by auto using delimited_comma, delimited_array, delimited_object|lia]. step_ok.
    change ("}" +:+ t) with (String "}" t). by rewrite skip_ws_delimited by auto.
  - cbn [map fst snd]. rewrite join_comma_cons, !string_app_assoc, Hstep.
    rewrite (Hx Hix fuel); [|by auto using delimited_comma, delimited_array, delimited_object|lia]. step_ok.
    change ("," +:+ ?r) with (String "," r). rewrite skip_ws_delimited by auto.
    change (Ascii.eqb "," "}") with false. change (Ascii.eqb "," ",") with true. cbn iota.
    cbn [map fst snd] in IH. rewrite IH; [done|done|done|]. unfold need_members. lia.
Qed.

Lemma all_read v : reads v.
Proof.
  induction v as [|b|n|s|l IH|f IH] using json_rect'.
  - intros _ [|fuel] t Ht Hf; [cbn in Hf; lia|]. done.
  - intros _ [|fuel] t Ht Hf; [cbn in Hf; lia|]. by destruct b.
  - apply reads_number.
  - intros _ [|fuel] t Ht Hf; [cbn in Hf; lia|]. apply parse_value_string.
  - intros Hi [|fuel] t Ht Hf; [cbn in Hf; lia|]. cbn [JSON_stringify]. rewrite !string_app_assoc.
    change ("[" +:+ ?r) with (String "[" r). cbn [parse_value]. rewrite skip_ws_head by done.
    change (Ascii.eqb "[" dquote) with false. change (Ascii.eqb "[" "{") with false.
    change (Ascii.eqb "[" "[") with true. cbn iota. destruct l as [|x l]; [done|].
    destruct (stringify_head x (proj1 Hi)) as (a & r & E & W & A & _).
    replace (strip "]" (skip_ws _)) with (@None string).
    + rewrite reads_elements; [by step_ok|done|done|done|]. cbn in Hf. unfold need_elements. cbn. lia.
    + symmetry. destruct l as [|y l]; cbn [map]; [change (join_comma [JSON_stringify x]) with (JSON_stringify x)|rewrite join_comma_cons, string_app_assoc];
        rewrite E, string_app_cons, skip_ws_head by done; cbn [strip]; rewrite Ascii.eqb_sym; by rewrite A.
  - intros Hi [|fuel] t Ht Hf; [cbn in Hf; lia|]. cbn [JSON_stringify]. rewrite !string_app_assoc.
    change ("{" +:+ ?r) with (String "{" r). cbn [parse_value]. rewrite skip_ws_head by done.
    change (Ascii.eqb "{" dquote) with false. change (Ascii.eqb "{" "{") with true. cbn iota.
    destruct f as [|[k x] f]; [done|].
    replace (strip "}" (skip_ws _)) with (@None string).
    + rewrite reads_members; [by step_ok|done|done|done|]. cbn in Hf. unfold need_members. cbn. lia.
    + symmetry. destruct f as [|[k' y] f]; cbn [map fst snd]; [change (join_comma [?s]) with s|rewrite join_comma_cons];
        rewrite !string_app_assoc, json_stringify_app; rewrite (skip_ws_head dquote) by done; done.
Qed.

Lemma len_app (s t : string) : String.length (s +:+ t) = (String.length s + String.length t)%nat.
Proof. induction s as [|a s IH]; [done|]. rewrite string_app_cons. cbn. by rewrite IH. Qed.

Lemma app_empty_r (s : string) : s +:+ "" = s.
Proof. induction s as [|a s IH]; [done|]. by rewrite string_app_cons, IH. Qed.

(** A list's text is as long as its items and the commas between them. *)
Lemma join_comma_len l : (foldr (λ s n, S (String.length s + n)) 0 l ≤ S (String.length (join_comma l)))%nat.
Proof.
  induction l as [|x [|y l] IH]; [cbn; lia|cbn [foldr]; change (join_comma [x]) with x; lia|].
  rewrite join_comma_cons, !len_app. cbn [foldr] in *. change (String.length ",") with 1%nat. lia.
Qed.

Lemma need_len v : int_numbers v → (need v ≤ 2 * String.length (JSON_stringify v))%nat.
Proof.
  induction v as [|[]|n|s|l IH|f IH] using json_rect'; intros Hi; cbn [need JSON_stringify].
  - cbn. lia.
  - cbn. lia.
  - cbn. lia.
  - destruct Hi as [z ->]. destruct (pretty_head z) as (a & r & -> & _). cbn. lia.
  - unfold json_stringify. cbn [String.length]. lia.
  - rewrite !len_app. pose proof (join_comma_len (map JSON_stringify l)) as Hj.
    enough (foldr (λ x n, S (need x + n)) 0 l ≤ 2 * foldr (λ s n, S (String.length s + n)) 0 (map JSON_stringify l))%nat.
    { change (String.length "[") with 1%nat. change (String.length "]") with 1%nat. lia. }
    clear Hj. induction IH as [|x l Hx _ IHl]; [done|]. destruct Hi as [Hix Hi]. cbn [foldr map].
    specialize (Hx Hix). specialize (IHl Hi). lia.
  - rewrite !len_app. set (text := λ kv : string * json, (json_stringify kv.1 +:+ ":" +:+ JSON_stringify kv.2)%string).
    pose proof (join_comma_len (map text f)) as Hj.
    enough (foldr (λ kv n, S (need kv.2 + n)) 0 f ≤ 2 * foldr (λ s n, S (String.length s + n)) 0 (map text f))%nat.
    { change (String.length "{") with 1%nat. change (String.length "}") with 1%nat. lia. }
    clear Hj. induction IH as [|[k x] f Hx _ IHl]; [done|]. destruct Hi as [Hix Hi]. cbn [foldr map fst snd] in *.
    specialize (Hx Hix). specialize (IHl Hi). unfold text at 1. cbn [fst snd]. rewrite !len_app. lia.
Qed.

(** [JSON.parse(JSON.stringify(v))] is [v]. *)
Lemma JSON_parse_stringify v : int_numbers v → JSON_parse (JSON_stringify v) = Ok v.
Proof.
  intros Hi. unfold JSON_parse. pose proof (all_read v Hi (2 * String.length (JSON_stringify v) + 2)%nat ""%string I) as H.
  rewrite app_empty_r in H. rewrite H; [by step_ok|]. pose proof (need_len v Hi). lia.
Qed.

(** ** Integers as numbers *)
Lemma digit_of_N_char d : (d < 10)%N → digit_of (pretty_N_char d) = Some (Z.of_N d).
Proof.
  intros H. assert (d = 0 ∨ d = 1 ∨ d = 2 ∨ d = 3 ∨ d = 4 ∨ d = 5 ∨ d = 6 ∨ d = 7 ∨ d = 8 ∨ d = 9)%N as Hin by lia.
  destruct_or! Hin; subst; by vm_compute.
Qed.

(** The digits of [x] continue a numeral. *)
Lemma take_digits_go x s acc count :
  (∀ acc count, take_digits s acc count = (acc, count, s)) ∨ True →
  ∃ k, take_digits (pretty_N_go x s) acc count = take_digits s (acc * 10 ^ Z.of_nat k + Z.of_N x) (count + Z.of_nat k)
  ∧ (x = 0%N → k = 0%nat).
Proof.
  intros _. revert s acc count. induction (N.lt_wf_0 x) as [x _ IH]. intros s acc count.
  destruct (decide (0 < x)%N) as [Hx|Hx].
  - rewrite pretty_N_go_step by done.
    destruct (IH (x / 10)%N (N.div_lt x 10 ltac:(lia) ltac:(lia)) (String (pretty_N_char (x `mod` 10)) s) acc count) as (k & E & _).
    exists (S k). split; [|lia]. rewrite E. cbn [take_digits].
    rewrite digit_of_N_char by (apply N.mod_lt; lia). f_equal; [|lia].
    rewrite Nat2Z.inj_succ, Z.pow_succ_r by lia.
    pose proof (N.div_mod x 10 ltac:(lia)). lia.
  - assert (x = 0%N) as -> by lia. exists 0%nat. rewrite pretty_N_go_0. split; [|done]. f_equal; lia.
Qed.

Lemma take_digits_pretty (x : N) : ∃ n, take_digits (pretty x) 0 0 = (Z.of_N x, n, ""%string).
Proof.
  unfold pretty, pretty_N. case_decide; [subst; by eexists|].
  destruct (take_digits_go x "" 0 0) as (k & -> & _); [by right|]. by eexists.
Qed.

(** The number of an integer. *)
Definition js_int (z : Z) : number := to_double (z <? 0) (Z.abs z) 1.

(** An integer below 2^53 is its own double. *)
Lemma to_double_small negative p :
  0 ≤ p < 2 ^ 53 → to_integer (to_double negative p 1) = Some (if negative then - p else p).
Proof.
  intros Hp. unfold to_double. destruct (Z.eqb_spec p 0) as [->|Hne]; [by destruct negative|].
  assert (0 ≤ Z.log2 p ≤ 52) as Hl.
  { split; [apply Z.log2_nonneg|]. assert (Z.log2 p < 53); [|lia]. apply Z.log2_lt_pow2; lia. }
  unfold log2_ratio. change (Z.log2 1) with 0. rewrite Z.sub_0_r.
  destruct (Z.log2_spec p) as [Hlo _]; [lia|].
  rewrite (Z.max_l 0 (- Z.log2 p)), (Z.max_r 0 (Z.log2 p)) by lia. rewrite Z.mul_1_l, Z.pow_0_r, Z.mul_1_r.
  rewrite (proj2 (Z.ltb_ge _ _)) by lia.
  rewrite (Z.max_r (-1074)) by lia. set (s := Z.log2 p - 52).
  rewrite (Z.max_r 0 (- s)), (Z.max_l 0 s) by lia. rewrite Z.pow_0_r, Z.mul_1_l.
  assert (round_even (p * 2 ^ (- s)) 1 = p * 2 ^ (- s)) as ->.
  { unfold round_even. rewrite Z.mod_1_r, Z.div_1_r. done. }
  assert (0 < 2 ^ (- s)) by (apply Z.pow_pos_nonneg; lia).
  assert ((0 <=? s) && (2 ^ 1024 <=? p * 2 ^ (- s) * 2 ^ s) = false) as ->.
  { destruct (Z.leb_spec 0 s); [|done]. assert (s = 0) as -> by lia. apply Z.leb_gt.
    change (- 0) with 0. rewrite Z.pow_0_r.
    assert (2 ^ 53 < 2 ^ 1024) by (apply Z.pow_lt_mono_r; lia). lia. }
  unfold to_integer. destruct (Z.leb_spec 0 s).
  - assert (s = 0) as -> by lia. change (- 0) with 0. rewrite Z.pow_0_r. destruct negative; f_equal; lia.
  - destruct negative.
    + by rewrite <-Z.mul_opp_l, Z_mod_mult, Z.eqb_refl, Z.div_mul by lia.
    + by rewrite Z_mod_mult, Z.eqb_refl, Z.div_mul by lia.
Qed.

Lemma to_integer_js_int z : Z.abs z < 2 ^ 53 → to_integer (js_int z) = Some z.
Proof.
  intros H. unfold js_int. rewrite to_double_small by lia. destruct (Z.ltb_spec z 0); f_equal; lia.
Qed.

(** The literal of a natural number. *)
Lemma unsigned_literal negative (x : N) :
  (let '(whole, _, s) := take_digits (pretty x) 0 0 in
   let '(m, places, s) := match s with
     | String a r => if Ascii.eqb a "." then take_digits r whole 0 else (whole, 0, s)
     | EmptyString => (whole, 0, s) end in
   let e := match s with
     | String _ (String b r) =>
         if Ascii.eqb b "-" then - (take_digits r 0 0).1.1
         else if Ascii.eqb b "+" then (take_digits r 0 0).1.1
         else (take_digits (String b r) 0 0).1.1
     | _ => 0 end in
   let t := e - places in
   to_double negative (m * 10 ^ Z.max 0 t) (10 ^ Z.max 0 (- t)))
  = to_double negative (Z.of_N x) 1.
Proof. destruct (take_digits_pretty x) as [n ->]. cbv iota zeta. by rewrite Z.mul_1_r. Qed.

Lemma pretty_N_head (x : N) : ∃ a r, pretty x = String a r ∧ Ascii.eqb a "-" = false.
Proof.
  unfold pretty, pretty_N. case_decide; [by eexists _, _|].
  destruct (pretty_N_go_head x "") as (a & r & -> & Ha & _); [lia|]. exists a, r. split; [done|].
  destruct (Ascii.eqb_spec a "-") as [->|]; [by vm_compute in Ha|done].
Qed.

(** A printed integer reads back as its number. *)
Lemma number_of_literal_pretty z : number_of_literal (pretty z) = js_int z.
Proof.
  unfold number_of_literal, js_int. destruct z as [|p|p].
  - apply (unsigned_literal false 0%N).
  - change (pretty (Z.pos p)) with (pretty (N.pos p)).
    destruct (pretty_N_head (N.pos p)) as (a & r & E & Ha). pose proof (unsigned_literal false (N.pos p)) as HN.
    rewrite E in *. rewrite Ha. exact HN.
  - change (pretty (Z.neg p)) with (String "-" (pretty (N.pos p))). change (Ascii.eqb "-" "-") with true. cbn iota.
    apply (unsigned_literal true (N.pos p)).
Qed.
