(* ===== verification/Undo.v ===== *)
(** * The undo journal's text: packages/cove-indexer/src/v3/undo.ts

    A block's undo record is kept in the database as JSON, its bigints as
    objects of the one field [__bigint].  [encodeUndo] writes it; [decodeUndo]
    reads it and checks the shape of every operation, field by field as the
    source does: what it does not look at (the fields of a state, further
    fields, whether a vout is an integer) it accepts, so its result is a value
    of the language, and [undo_of_value] is the typed view its callers take. *)
From S2P Require Import Prelude Bytes Wire Discovery Number Json Covenant Vault Indexer.

(** ** Values of the language *)
Inductive jsv :=
  | VNull
  | VBool (b : bool)
  | VNumber (x : number)
  | VBigInt (z : Z)
  | VString (s : string)
  | VArray (l : list jsv)
  | VObject (fields : list (string * jsv)).

Lemma jsv_rect' (P : jsv → Prop) :
  P VNull → (∀ b, P (VBool b)) → (∀ x, P (VNumber x)) → (∀ z, P (VBigInt z)) → (∀ s, P (VString s)) →
  (∀ l, Forall P l → P (VArray l)) → (∀ f, Forall (λ kv, P kv.2) f → P (VObject f)) → ∀ v, P v.
Proof.
  intros H1 H2 H3 H4 H5 H6 H7. fix IH 1.
  intros [|b|x|z|s|l|f]; [done|apply H2|apply H3|apply H4|apply H5|apply H6|apply H7].
  - induction l as [|x l IHl]; constructor; [apply IH|exact IHl].
  - induction f as [|[k x] f IHf]; constructor; [apply IH|exact IHf].
Qed.

(** ** JSON.stringify(v, replacer) *)

(** The text of a number: of an integer a double holds exactly, its digits. *)
Definition json_number (x : number) : json :=
  match x with
  | Infinite _ => JNull
  | Finite _ _ =>
      match to_integer x with
      | Some z => if Z.abs z <? 2 ^ 53 then JNumber (pretty z) else JNumber (number_text x)
      | None => JNumber (number_text x)
      end
  end.

Definition BIGINT_KEY : string := "__bigint".

Fixpoint replaced (v : jsv) : json :=
  match v with
  | VNull => JNull
  | VBool b => JBool b
  | VNumber x => json_number x
  | VBigInt z => JObject [(BIGINT_KEY, JString (pretty z))]
  | VString s => JString s
  | VArray l => JArray (map replaced l)
  | VObject f => JObject (map (λ kv, (kv.1, replaced kv.2)) f)
  end.

(** ** JSON.parse(text, reviver) *)

(** Sets a field: a new one goes last. *)
Fixpoint js_set {A} (f : list (string * A)) (k : string) (x : A) : list (string * A) :=
  match f with
  | [] => [(k, x)]
  | kv :: f => if String.eqb kv.1 k then (k, x) :: f else kv :: js_set f k x
  end.

(** The fields of the object of a text: of a repeated key the last value. *)
Definition js_object {A} (f : list (string * A)) : list (string * A) :=
  foldl (λ o kv, js_set o kv.1 kv.2) [] f.

Fixpoint sequence {A} (l : list (result A)) : result (list A) :=
  match l with [] => Ok [] | m :: l => x ← m; l ← sequence l; Ok (x :: l) end.

Fixpoint sequence_fields {A} (f : list (string * result A)) : result (list (string * A)) :=
  match f with [] => Ok [] | (k, m) :: f => x ← m; f ← sequence_fields f; Ok ((k, x) :: f) end.

(** The reviver on an object: a bigint, if its one field says so. *)
Definition revive_object (f : list (string * jsv)) : result jsv :=
  match f with
  | [(k, VString s)] =>
      if String.eqb k BIGINT_KEY then z ← BigInt_of_string s; Ok (VBigInt z) else Ok (VObject f)
  | _ => Ok (VObject f)
  end.

(** The reviver runs on the innermost values first. *)
Fixpoint revived (v : json) : result jsv :=
  match v with
  | JNull => Ok VNull
  | JBool b => Ok (VBool b)
  | JNumber n => Ok (VNumber (number_of_literal n))
  | JString s => Ok (VString s)
  | JArray l => l ← sequence (map revived l); Ok (VArray l)
  | JObject f => f ← sequence_fields (js_object (map (λ kv, (kv.1, revived kv.2)) f)); revive_object f
  end.

(** ** Types at run time *)
Definition isObj (v : option jsv) : bool :=
  match v with Some (VArray _ | VObject _) => true | _ => false end.
Definition is_string (v : option jsv) : bool := match v with Some (VString _) => true | _ => false end.
Definition is_number_value (v : option jsv) : bool := match v with Some (VNumber _) => true | _ => false end.
Definition is_bigint (v : option jsv) : bool := match v with Some (VBigInt _) => true | _ => false end.

(** [v[k]] *)
Definition js_get (v : option jsv) (k : string) : option jsv :=
  match v with
  | Some (VObject f) => snd <$> find (λ kv, String.eqb kv.1 k) f
  | _ => None
  end.

Definition isUtxo (v : option jsv) : bool :=
  isObj v && is_string (js_get v "txid") && is_number_value (js_get v "vout") && is_string (js_get v "tokenId")
  && is_bigint (js_get v "amountAtoms") && is_string (js_get v "scriptPubKey")
  && is_bigint (js_get v "createdHeight") && is_string (js_get v "createdBlockHash").

Definition isBacking (v : option jsv) : bool :=
  isObj v && is_string (js_get v "tokenId") && isObj (js_get v "state") && is_string (js_get v "stateHash")
  && isObj (js_get v "outpoint") && is_string (js_get (js_get v "outpoint") "txid")
  && is_number_value (js_get (js_get v "outpoint") "vout") && is_string (js_get v "scriptPubKey")
  && is_bigint (js_get v "btcValue") && is_string (js_get v "updatedTxid")
  && is_bigint (js_get v "updatedHeight") && is_string (js_get v "updatedBlockHash").

(** [Array.isArray(v) && v.every(p)] *)
Definition every (p : option jsv → bool) (v : option jsv) : bool :=
  match v with Some (VArray l) => forallb (λ x, p (Some x)) l | _ => false end.

(** [String(v)] *)
Fixpoint js_String (v : jsv) : string :=
  match v with
  | VNull => "null"
  | VBool b => if b then "true" else "false"
  | VNumber x => number_text x
  | VBigInt z => pretty z
  | VString s => s
  | VArray l => String.concat "," (map (λ x, match x with VNull => ""%string | _ => js_String x end) l)
  | VObject _ => "[object Object]"
  end.

Definition malformed (what : string) : exn := js_error ("MALFORMED_UNDO: " +:+ what).

Definition assertOp (op : jsv) : result unit :=
  let v := Some op in
  let s k := is_string (js_get v k) in
  let utxos k := every isUtxo (js_get v k) in
  throw_if (negb (isObj v)) (malformed "op is not an object");;
  let kind := js_get v "kind" in
  let is_kind k := match kind with Some (VString k') => String.eqb k' k | _ => false end in
  if is_kind "DEPLOY"%string then throw_if (negb (s "tokenId"%string)) (malformed "DEPLOY tokenId")
  else if is_kind "MINT"%string then
    throw_if (negb (s "tokenId"%string) || negb (isBacking (js_get v "priorBacking"))
              || negb (isUtxo (js_get v "createdUtxo"))) (malformed "MINT fields")
  else if is_kind "TRANSFER"%string then
    throw_if (negb (s "spendingTxid"%string) || negb (utxos "spentUtxos"%string)
              || negb (utxos "createdUtxos"%string)) (malformed "TRANSFER fields")
  else if is_kind "REDEEM"%string then
    throw_if (negb (s "tokenId"%string) || negb (s "spendingTxid"%string)
              || negb (isBacking (js_get v "priorBacking")) || negb (utxos "spentUtxos"%string)
              || negb (utxos "createdUtxos"%string)) (malformed "REDEEM fields")
  else if is_kind "BURN"%string then
    throw_if (negb (s "spendingTxid"%string) || negb (utxos "spentUtxos"%string)) (malformed "BURN fields")
  else Throw (malformed ("unknown kind " +:+ match kind with Some k => js_String k | None => "undefined"%string end)).

Fixpoint assert_ops (l : list jsv) : result unit :=
  match l with [] => Ok tt | op :: l => assertOp op;; assert_ops l end.

(** ** The objects of a journal *)
Definition utxo_value (u : V3TokenUtxo) : jsv :=
  VObject [("txid", VString (tu_txid u)); ("vout", VNumber (js_int (tu_vout u)));
           ("tokenId", VString (tu_tokenId u)); ("amountAtoms", VBigInt (tu_amountAtoms u));
           ("scriptPubKey", VString (tu_scriptPubKey u)); ("createdHeight", VBigInt (tu_createdHeight u));
           ("createdBlockHash", VString (tu_createdBlockHash u))]%string.

Definition state_value (s : CoveStateV2) : jsv :=
  VObject [("stateVersion", VNumber (js_int (stateVersion s)));
           ("policyVersion", VNumber (js_int (policyVersionV2 s))); ("tokenId", VString (tokenIdV2 s));
           ("issuedPublicSupplyAtoms", VBigInt (issuedPublicSupplyAtoms s));
           ("backingSats", VBigInt (backingSats s)); ("curveStage", VNumber (js_int (curveStageV2 s)))]%string.

Definition backing_value (b : V3Backing) : jsv :=
  VObject [("tokenId", VString (bk_tokenId b)); ("state", state_value (bk_state b));
           ("stateHash", VString (bk_stateHash b));
           ("outpoint", VObject [("txid", VString (op_txid (bk_outpoint b)));
                                 ("vout", VNumber (js_int (op_vout (bk_outpoint b))))]);
           ("scriptPubKey", VString (bk_scriptPubKey b)); ("btcValue", VBigInt (bk_btcValue b));
           ("updatedTxid", VString (bk_updatedTxid b)); ("updatedHeight", VBigInt (bk_updatedHeight b));
           ("updatedBlockHash", VString (bk_updatedBlockHash b))]%string.

Definition op_value (op : UndoOp) : jsv :=
  match op with
  | UndoDeploy t => VObject [("kind", VString "DEPLOY"); ("tokenId", VString t)]
  | UndoMint t prior created =>
      VObject [("kind", VString "MINT"); ("tokenId", VString t); ("priorBacking", backing_value prior);
               ("createdUtxo", utxo_value created)]
  | UndoRedeem t txid prior spent created =>
      VObject [("kind", VString "REDEEM"); ("tokenId", VString t); ("spendingTxid", VString txid);
               ("priorBacking", backing_value prior); ("spentUtxos", VArray (map utxo_value spent));
               ("createdUtxos", VArray (map utxo_value created))]
  | UndoTransfer txid spent created =>
      VObject [("kind", VString "TRANSFER"); ("spendingTxid", VString txid);
               ("spentUtxos", VArray (map utxo_value spent)); ("createdUtxos", VArray (map utxo_value created))]
  | UndoBurn txid spent =>
      VObject [("kind", VString "BURN"); ("spendingTxid", VString txid);
               ("spentUtxos", VArray (map utxo_value spent))]
  end%string.

Definition undo_value (u : BlockUndo) : jsv :=
  VObject [("height", VBigInt (bu_height u)); ("blockHash", VString (bu_blockHash u));
           ("ops", VArray (map op_value (bu_ops u)))]%string.

(** ** encodeUndo, decodeUndo *)
Definition encodeUndo (undo : BlockUndo) : string := JSON_stringify (replaced (undo_value undo)).

Definition decodeUndo (text : string) : result jsv :=
  parsed ← try_catch (v ← JSON_parse text; revived v)
             (λ e, Throw (js_error ("MALFORMED_UNDO_JSON: " +:+ exn_message e)));
  let v := Some parsed in
  match js_get v "ops" with
  | Some (VArray ops) =>
      throw_if (negb (isObj v) || negb (is_bigint (js_get v "height")) || negb (is_string (js_get v "blockHash")))
        (malformed "top-level shape");;
      assert_ops ops;;
      Ok parsed
  | _ => Throw (malformed "top-level shape")
  end.

(** ** The typed view of a value *)
Definition get_string (v : jsv) (k : string) : option string :=
  match js_get (Some v) k with Some (VString s) => Some s | _ => None end.
Definition get_bigint (v : jsv) (k : string) : option Z :=
  match js_get (Some v) k with Some (VBigInt z) => Some z | _ => None end.
Definition get_int (v : jsv) (k : string) : option Z :=
  match js_get (Some v) k with Some (VNumber x) => to_integer x | _ => None end.
Definition get_array (v : jsv) (k : string) : option (list jsv) :=
  match js_get (Some v) k with Some (VArray l) => Some l | _ => None end.

Definition utxo_of_value (v : jsv) : option V3TokenUtxo :=
  txid ← get_string v "txid"; vout ← get_int v "vout"; tokenId ← get_string v "tokenId";
  amount ← get_bigint v "amountAtoms"; script ← get_string v "scriptPubKey";
  height ← get_bigint v "createdHeight"; hash ← get_string v "createdBlockHash";
  Some {| tu_txid := txid; tu_vout := vout; tu_tokenId := tokenId; tu_amountAtoms := amount;
          tu_scriptPubKey := script; tu_createdHeight := height; tu_createdBlockHash := hash |}.

Definition state_of_value (v : jsv) : option CoveStateV2 :=
  version ← get_int v "stateVersion"; policy ← get_int v "policyVersion"; tokenId ← get_string v "tokenId";
  issued ← get_bigint v "issuedPublicSupplyAtoms"; sats ← get_bigint v "backingSats";
  stage ← get_int v "curveStage";
  Some {| stateVersion := version; policyVersionV2 := policy; tokenIdV2 := tokenId;
          issuedPublicSupplyAtoms := issued; backingSats := sats; curveStageV2 := stage |}.

Definition backing_of_value (v : jsv) : option V3Backing :=
  tokenId ← get_string v "tokenId"; s ← js_get (Some v) "state"; state ← state_of_value s;
  hash ← get_string v "stateHash"; o ← js_get (Some v) "outpoint"; txid ← get_string o "txid";
  vout ← get_int o "vout"; script ← get_string v "scriptPubKey"; value ← get_bigint v "btcValue";
  utxid ← get_string v "updatedTxid"; uheight ← get_bigint v "updatedHeight";
  uhash ← get_string v "updatedBlockHash";
  Some {| bk_tokenId := tokenId; bk_state := state; bk_stateHash := hash;
          bk_outpoint := {| op_txid := txid; op_vout := vout |}; bk_scriptPubKey := script;
          bk_btcValue := value; bk_updatedTxid := utxid; bk_updatedHeight := uheight;
          bk_updatedBlockHash := uhash |}.

Fixpoint all_some {A} (l : list (option A)) : option (list A) :=
  match l with [] => Some [] | o :: l => x ← o; l ← all_some l; Some (x :: l) end.

Definition utxos_of_value (v : jsv) (k : string) : option (list V3TokenUtxo) :=
  l ← get_array v k; all_some (map utxo_of_value l).

Definition op_of_value (v : jsv) : option UndoOp :=
  kind ← get_string v "kind";
  if String.eqb kind "DEPLOY" then t ← get_string v "tokenId"; Some (UndoDeploy t)
  else if String.eqb kind "MINT" then
    t ← get_string v "tokenId"; p ← js_get (Some v) "priorBacking"; prior ← backing_of_value p;
    c ← js_get (Some v) "createdUtxo"; created ← utxo_of_value c; Some (UndoMint t prior created)
  else if String.eqb kind "TRANSFER" then
    txid ← get_string v "spendingTxid"; spent ← utxos_of_value v "spentUtxos";
    created ← utxos_of_value v "createdUtxos"; Some (UndoTransfer txid spent created)
  else if String.eqb kind "REDEEM" then
    t ← get_string v "tokenId"; txid ← get_string v "spendingTxid";
    p ← js_get (Some v) "priorBacking"; prior ← backing_of_value p;
    spent ← utxos_of_value v "spentUtxos"; created ← utxos_of_value v "createdUtxos";
    Some (UndoRedeem t txid prior spent created)
  else if String.eqb kind "BURN" then
    txid ← get_string v "spendingTxid"; spent ← utxos_of_value v "spentUtxos"; Some (UndoBurn txid spent)
  else None.

Definition undo_of_value (v : jsv) : option BlockUndo :=
  height ← get_bigint v "height"; hash ← get_string v "blockHash"; l ← get_array v "ops";
  ops ← all_some (map op_of_value l);
  Some {| bu_height := height; bu_blockHash := hash; bu_ops := ops |}.

(** ** Bigints as text *)
Lemma trim_with_plain s2 s3 l :
  (∀ b c, u8 b < 128 → u8 c < 128 → s2 b c = false) →
  (∀ b c d, u8 b < 128 → u8 c < 128 → u8 d < 128 → s3 b c d = false) →
  Forall (λ b, 32 < u8 b < 128) l → trim_with s2 s3 l = l.
Proof.
  intros H2 H3 Hl. destruct Hl as [|b l Hb Hl]; [done|]. cbn [trim_with].
  assert (space1 b = false) as ->.
  { unfold space1. cbn [existsb]. repeat (rewrite (proj2 (Z.eqb_neq _ _)) by lia). done. }
  destruct Hl as [|c l Hc Hl]; [done|]. rewrite H2 by lia.
  destruct Hl as [|d l Hd Hl]; [done|]. by rewrite H3 by lia.
Qed.

Lemma js_trim_plain s : Forall (λ b, 32 < u8 b < 128) (utf8 s) → js_trim s = s.
Proof.
  intros H.
  assert (∀ b c, u8 b < 128 → u8 c < 128 → space2 b c = false) as H2.
  { intros b c Hb Hc. unfold space2. rewrite (proj2 (Z.eqb_neq (u8 b) _)) by lia. done. }
  assert (∀ b c d, u8 b < 128 → u8 c < 128 → u8 d < 128 → space3 b c d = false) as H3.
  { intros b c d Hb Hc Hd. unfold space3.
    pose proof (u8_range b). pose proof (u8_range c). pose proof (u8_range d).
    assert ((u8 b * 256 + u8 c) * 256 + u8 d < 0x800000) by lia. cbn [existsb].
    repeat (rewrite (proj2 (Z.eqb_neq _ _)) by lia). rewrite (proj2 (Z.leb_gt _ _)) by lia. done. }
  unfold js_trim. rewrite (trim_with_plain space2 space3) by done.
  rewrite trim_with_plain; [by rewrite reverse_involutive, of_utf8_utf8|auto|auto|].
  by apply Forall_reverse.
Qed.

Definition is_bigint_char (a : ascii) : bool := is_digit a || Ascii.eqb a "-".

Lemma bigint_chars_plain s :
  Forall (λ a, is_bigint_char a = true) (String.list_ascii_of_string s) → Forall (λ b, 32 < u8 b < 128) (utf8 s).
Proof.
  unfold utf8, String.list_byte_of_string. intros H. rewrite Forall_fmap. eapply Forall_impl; [exact H|].
  intros a Ha. destruct a as [[] [] [] [] [] [] [] []]; try discriminate Ha; by vm_compute.
Qed.

Lemma pretty_N_go_chars x s :
  Forall (λ a, is_bigint_char a = true) (String.list_ascii_of_string s) →
  Forall (λ a, is_bigint_char a = true) (String.list_ascii_of_string (pretty_N_go x s)).
Proof.
  revert s. induction (N.lt_wf_0 x) as [x _ IH]. intros s Hs. destruct (decide (0 < x)%N).
  - rewrite pretty_N_go_step by done. apply IH; [by apply N.div_lt|]. cbn. constructor; [|done].
    unfold is_bigint_char. by rewrite is_digit_N_char.
  - replace x with 0%N by lia. by rewrite pretty_N_go_0.
Qed.

Lemma pretty_N_chars (x : N) : Forall (λ a, is_bigint_char a = true) (String.list_ascii_of_string (pretty x)).
Proof. unfold pretty, pretty_N. case_decide; [by repeat constructor|]. apply pretty_N_go_chars. constructor. Qed.

Lemma pretty_Z_chars (z : Z) : Forall (λ a, is_bigint_char a = true) (String.list_ascii_of_string (pretty z)).
Proof.
  destruct z as [|p|p]; [by repeat constructor|apply (pretty_N_chars (N.pos p))|].
  change (pretty (Z.neg p)) with (String "-" (pretty (N.pos p))). constructor; [done|apply pretty_N_chars].
Qed.

Lemma digit_in_N_char d : (d < 10)%N → digit_in 10 (pretty_N_char d) = Some (Z.of_N d).
Proof.
  intros H. assert (d = 0 ∨ d = 1 ∨ d = 2 ∨ d = 3 ∨ d = 4 ∨ d = 5 ∨ d = 6 ∨ d = 7 ∨ d = 8 ∨ d = 9)%N as Hin by lia.
  destruct_or! Hin; subst; by vm_compute.
Qed.

Lemma digits_value_go x s acc :
  ∃ k, digits_value 10 (pretty_N_go x s) acc = digits_value 10 s (acc * 10 ^ Z.of_nat k + Z.of_N x).
Proof.
  revert s acc. induction (N.lt_wf_0 x) as [x _ IH]. intros s acc. destruct (decide (0 < x)%N) as [Hx|Hx].
  - rewrite pretty_N_go_step by done.
    destruct (IH (x / 10)%N (N.div_lt x 10 ltac:(lia) ltac:(lia)) (String (pretty_N_char (x `mod` 10)) s) acc) as (k & E).
    exists (S k). rewrite E. cbn [digits_value].
    rewrite digit_in_N_char by (apply N.mod_lt; lia). cbn [mbind option_bind]. f_equal.
    rewrite Nat2Z.inj_succ, Z.pow_succ_r by lia. pose proof (N.div_mod x 10 ltac:(lia)). lia.
  - replace x with 0%N by lia. rewrite pretty_N_go_0. exists 0%nat. f_equal. lia.
Qed.

Lemma digits_value_pretty (x : N) : digits_value 10 (pretty x) 0 = Some (Z.of_N x).
Proof.
  unfold pretty, pretty_N. case_decide; [by subst|]. by destruct (digits_value_go x "" 0) as [k ->].
Qed.

Lemma digits_of_pretty (x : N) : digits_of 10 (pretty x) = Some (Z.of_N x).
Proof.
  destruct (pretty_N_head x) as (a & r & E & _). pose proof (digits_value_pretty x) as H. rewrite E in *. exact H.
Qed.

(** The first digit of a number of two digits is no zero. *)
Lemma pretty_N_no_radix (x : N) a b r : pretty x = String a (String b r) → a ≠ "0"%char.
Proof.
  unfold pretty, pretty_N. case_decide; [done|].
  destruct (pretty_N_go_head x "") as (a' & r' & -> & _ & Ha & _); [lia|]. by intros [= -> _].
Qed.

Lemma StringToBigInt_pretty z : StringToBigInt (pretty z) = Some z.
Proof.
  unfold StringToBigInt. rewrite js_trim_plain by (apply bigint_chars_plain, pretty_Z_chars).
  assert (∀ x : N, decimal_of (pretty x) = Some (Z.of_N x)) as Hdec.
  { intros x. pose proof (digits_of_pretty x) as H. destruct (pretty_N_head x) as (a & r & E & Hm). rewrite E in *.
    unfold decimal_of. rewrite Hm. destruct (Ascii.eqb_spec a "+") as [->|]; [|done]. discriminate H. }
  assert (∀ x : N, match pretty x with
    | String a (String b r) =>
        match (if Ascii.eqb a "0" then radix_of b else None) with
        | Some radix => digits_of radix r
        | None => decimal_of (pretty x)
        end
    | _ => decimal_of (pretty x) end = Some (Z.of_N x)) as HN.
  { intros x. specialize (Hdec x). pose proof (pretty_N_no_radix x) as H0.
    destruct (pretty x) as [|a [|b r]]; [done..|]. specialize (H0 a b r eq_refl).
    by rewrite (proj2 (Ascii.eqb_neq _ _) H0). }
  destruct z as [|p|p]; [apply (HN 0%N)|apply (HN (N.pos p))|].
  change (pretty (Z.neg p)) with (String "-" (pretty (N.pos p))).
  destruct (pretty (N.pos p)) as [|b r] eqn:E; [by pose proof (digits_of_pretty (N.pos p)) as H; rewrite E in H|].
  change (Ascii.eqb "-" "0") with false. cbn iota. unfold decimal_of. change (Ascii.eqb "-" "-") with true. cbn iota.
  rewrite <-E, digits_of_pretty. done.
Qed.

(** ** Reviving what was replaced *)
Fixpoint revivable (v : jsv) : Prop :=
  match v with
  | VNumber x => ∃ z, Z.abs z < 2 ^ 53 ∧ x = js_int z
  | VArray l => foldr (λ x P, revivable x ∧ P) True l
  | VObject f => NoDup f.*1 ∧ (∀ s, f ≠ [(BIGINT_KEY, VString s)]) ∧ foldr (λ kv P, revivable kv.2 ∧ P) True f
  | _ => True
  end.

Lemma js_set_fresh {A} (f : list (string * A)) k x : k ∉ f.*1 → js_set f k x = f ++ [(k, x)].
Proof.
  induction f as [|[k' y] f IH]; cbn [fmap list_fmap js_set app]; [done|].
  intros [Hne Hn]%not_elem_of_cons. cbn [fst] in *. rewrite (proj2 (String.eqb_neq _ _)) by done. by rewrite IH.
Qed.

Lemma js_object_NoDup {A} (f : list (string * A)) : NoDup f.*1 → js_object f = f.
Proof.
  unfold js_object.
  assert (∀ o, NoDup (o ++ f).*1 → foldl (λ o kv, js_set o kv.1 kv.2) o f = o ++ f) as H; [|by apply (H [])].
  induction f as [|[k x] f IH]; intros o Hn; cbn [foldl]; [by rewrite app_nil_r|].
  rewrite js_set_fresh.
  - rewrite IH by by rewrite <-app_assoc. by rewrite <-app_assoc.
  - rewrite fmap_app in Hn. apply NoDup_app in Hn as (_ & Hd & _). intros Hin. apply (Hd k Hin). by left.
Qed.

Lemma map_fst_fields {A B} (g : A → B) (f : list (string * A)) : (map (λ kv, (kv.1, g kv.2)) f).*1 = f.*1.
Proof. by induction f as [|[k x] f IH]; cbn; [|f_equal]. Qed.

Lemma revived_replaced v : revivable v → revived (replaced v) = Ok v.
Proof.
  induction v as [|b|x|z|s|l IH|f IH] using jsv_rect'; cbn [revivable replaced]; intros H.
  - done.
  - done.
  - destruct H as (z & Hz & ->). pose proof (to_integer_js_int z Hz) as Hi. unfold json_number.
    destruct (js_int z) as [m e|] eqn:E; [|discriminate Hi]. rewrite Hi, (proj2 (Z.ltb_lt _ _)) by done.
    cbn [revived]. by rewrite number_of_literal_pretty, E.
  - cbn [revived map fst snd]. unfold js_object. cbn [foldl js_set fst snd sequence_fields]. do 3 step_ok.
    unfold revive_object. rewrite String.eqb_refl. unfold BigInt_of_string. rewrite StringToBigInt_pretty. done.
  - done.
  - cbn [revived]. replace (sequence _) with (Ok l); [done|]. symmetry.
    induction IH as [|x l Hx _ IHl]; [done|]. destruct H as [H1 H2]. cbn [map sequence]. rewrite (Hx H1). step_ok.
    rewrite (IHl H2). done.
  - destruct H as (Hn & Hs & H). cbn [revived]. rewrite map_map. cbn [fst snd].
    rewrite js_object_NoDup by (change (map ?g f) with (map (λ kv, (kv.1, revived (replaced kv.2))) f); by rewrite (map_fst_fields (λ v, revived (replaced v)))).
    replace (sequence_fields _) with (Ok f).
    + step_ok. unfold revive_object. destruct f as [|[k [| | | |s| |]] [|]]; try done.
      destruct (String.eqb_spec k BIGINT_KEY) as [->|]; [by destruct (Hs s)|done].
    + symmetry. clear Hn Hs. induction IH as [|[k x] f Hx _ IHf]; [done|]. destruct H as [H1 H2].
      cbn [map sequence_fields fst snd] in *. rewrite (Hx H1). step_ok. rewrite (IHf H2). done.
Qed.

Lemma int_numbers_replaced v : revivable v → int_numbers (replaced v).
Proof.
  induction v as [|b|x|z|s|l IH|f IH] using jsv_rect'; cbn [revivable replaced]; intros H; try done.
  - destruct H as (z & Hz & ->). pose proof (to_integer_js_int z Hz) as Hi. unfold json_number.
    destruct (js_int z) as [m e|]; [|done]. rewrite Hi, (proj2 (Z.ltb_lt _ _)) by done. by exists z.
  - cbn [int_numbers]. induction IH as [|x l Hx _ IHl]; [done|]. destruct H as [H1 H2]. split; auto.
  - destruct H as (_ & _ & H). cbn [int_numbers].
    induction IH as [|[k x] f Hx _ IHf]; [done|]. destruct H as [H1 H2]. split; auto.
Qed.

(** ** Journals *)
Definition safe_int (z : Z) : Prop := Z.abs z < 2 ^ 53.
Definition safe_state (s : CoveStateV2) : Prop :=
  safe_int (stateVersion s) ∧ safe_int (policyVersionV2 s) ∧ safe_int (curveStageV2 s).
Definition safe_backing (b : V3Backing) : Prop := safe_state (bk_state b) ∧ safe_int (op_vout (bk_outpoint b)).
Definition safe_utxo (u : V3TokenUtxo) : Prop := safe_int (tu_vout u).
Definition safe_op (op : UndoOp) : Prop :=
  match op with
  | UndoDeploy _ => True
  | UndoMint _ prior created => safe_backing prior ∧ safe_utxo created
  | UndoRedeem _ _ prior spent created => safe_backing prior ∧ Forall safe_utxo spent ∧ Forall safe_utxo created
  | UndoTransfer _ spent created => Forall safe_utxo spent ∧ Forall safe_utxo created
  | UndoBurn _ spent => Forall safe_utxo spent
  end.
(** The numbers of a journal are doubles exactly. *)
Definition safe_undo (u : BlockUndo) : Prop := Forall safe_op (bu_ops u).

Ltac revivable_step :=
  match goal with
  | |- _ ∧ _ => split
  | |- True => exact I
  | |- NoDup _ => by apply (bool_decide_unpack _); vm_compute
  | |- ∀ s, _ ≠ _ => by intros ?
  | |- ∃ z, _ ∧ VNumber _ = _ => fail 1
  | |- ∃ z, Z.abs z < _ ∧ js_int ?n = _ => by exists n
  | |- revivable (VString _) => exact I
  | |- revivable (VBigInt _) => exact I
  | |- revivable (VNumber _) => cbn [revivable]
  | |- revivable (VObject _) => cbn [revivable foldr snd]
  end.

Lemma revivable_utxo u : safe_utxo u → revivable (utxo_value u).
Proof. intros H. unfold utxo_value. repeat revivable_step. Qed.

Lemma revivable_backing b : safe_backing b → revivable (backing_value b).
Proof. intros [(H1 & H2 & H3) H4]. unfold backing_value, state_value. repeat revivable_step. Qed.

Lemma revivable_utxos l : Forall safe_utxo l → revivable (VArray (map utxo_value l)).
Proof. induction 1 as [|u l Hu _ IH]; [done|]. split; [by apply revivable_utxo|exact IH]. Qed.

Lemma revivable_op op : safe_op op → revivable (op_value op).
Proof.
  destruct op; cbn [safe_op op_value]; intros H; destruct_and? H; repeat revivable_step;
    auto using revivable_utxo, revivable_backing; by apply revivable_utxos.
Qed.

Lemma revivable_undo u : safe_undo u → revivable (undo_value u).
Proof.
  intros H. unfold undo_value. repeat revivable_step. cbn [revivable].
  induction H as [|op ops Hop _ IH]; [done|]. split; [by apply revivable_op|exact IH].
Qed.

Lemma isUtxo_value u : isUtxo (Some (utxo_value u)) = true.
Proof. done. Qed.
Lemma isBacking_value b : isBacking (Some (backing_value b)) = true.
Proof. done. Qed.
Lemma every_utxo_value l : every isUtxo (Some (VArray (map utxo_value l))) = true.
Proof. cbn [every]. induction l as [|u l IH]; [done|]. cbn [map forallb]. by rewrite IH. Qed.

Lemma assertOp_value op : assertOp (op_value op) = Ok tt.
Proof.
  destruct op; unfold assertOp; cbn -[every isUtxo isBacking utxo_value backing_value map];
    rewrite ?every_utxo_value, ?isUtxo_value, ?isBacking_value; done.
Qed.

Lemma utxo_of_value_value u : safe_utxo u → utxo_of_value (utxo_value u) = Some u.
Proof.
  intros H. unfold utxo_of_value, get_string, get_int, get_bigint. cbn [utxo_value js_get find fmap option_fmap option_map
    fst snd String.eqb Ascii.eqb Bool.eqb mbind option_bind]. rewrite to_integer_js_int by done. by destruct u.
Qed.

Lemma state_of_value_value s : safe_state s → state_of_value (state_value s) = Some s.
Proof.
  intros (H1 & H2 & H3). unfold state_of_value, get_string, get_int, get_bigint. cbn [state_value js_get find fmap option_fmap
    option_map fst snd String.eqb Ascii.eqb Bool.eqb mbind option_bind]. rewrite !to_integer_js_int by done. by destruct s.
Qed.

Lemma backing_of_value_value b : safe_backing b → backing_of_value (backing_value b) = Some b.
Proof.
  intros [H1 H2]. unfold backing_of_value, get_string, get_int, get_bigint.
  cbn [backing_value js_get find fmap option_fmap option_map fst snd String.eqb Ascii.eqb Bool.eqb mbind option_bind].
  rewrite state_of_value_value by done. cbn [mbind option_bind]. rewrite to_integer_js_int by done.
  by destruct b as [? ? ? [] ? ? ? ? ?].
Qed.

Lemma all_some_map {A B} (f : A → B) (g : B → option A) (P : A → Prop) l :
  (∀ x, P x → g (f x) = Some x) → Forall P l → all_some (map g (map f l)) = Some l.
Proof. intros Hg. induction 1 as [|x l Hx _ IH]; [done|]. cbn. by rewrite Hg, IH. Qed.

Lemma op_of_value_value op : safe_op op → op_of_value (op_value op) = Some op.
Proof.
  destruct op; cbn [safe_op op_value]; intros H; destruct_and? H;
    unfold op_of_value, utxos_of_value, get_string, get_array;
    cbn [js_get find fmap option_fmap option_map fst snd String.eqb Ascii.eqb Bool.eqb mbind option_bind];
    rewrite ?backing_of_value_value by done; cbn [mbind option_bind];
    rewrite ?utxo_of_value_value by done; rewrite ?(all_some_map _ _ _ _ utxo_of_value_value) by done; done.
Qed.

Lemma undo_of_value_value u : safe_undo u → undo_of_value (undo_value u) = Some u.
Proof.
  intros H. unfold undo_of_value, get_string, get_array, get_bigint.
  cbn [undo_value js_get find fmap option_fmap option_map fst snd String.eqb Ascii.eqb Bool.eqb mbind option_bind].
  rewrite (all_some_map _ _ _ _ op_of_value_value) by done. by destruct u.
Qed.

Lemma assert_ops_values l : assert_ops (map op_value l) = Ok tt.
Proof. induction l as [|op l IH]; [done|]. cbn [map assert_ops]. rewrite assertOp_value. by step_ok. Qed.

(** Reading back what was written. *)
Lemma decodeUndo_encodeUndo_eq u :
  safe_undo u → decodeUndo (encodeUndo u) = Ok (undo_value u) ∧ undo_of_value (undo_value u) = Some u.
Proof.
  intros H. pose proof (revivable_undo u H) as Hr. split; [|by apply undo_of_value_value].
  unfold decodeUndo, encodeUndo. rewrite JSON_parse_stringify by by apply int_numbers_replaced.
  step_ok. rewrite revived_replaced by done. cbn [try_catch]. step_ok.
  cbn [undo_value js_get find fmap option_fmap option_map fst snd String.eqb Ascii.eqb Bool.eqb].
  change (isObj (Some (undo_value u))) with true.
  cbn [is_bigint is_string negb orb throw_if]. step_ok. rewrite assert_ops_values. done.
Qed.

(** ** The theorem *)

(** C29: an undo record survives the database: whatever block was applied, the
    text [encodeUndo] writes is read back by [decodeUndo], which accepts it, as
    the same operations with the same amounts, heights and outpoints (numbers
    other than bigints below 2^53, as all outpoints and versions are). *)
Theorem decodeUndo_encodeUndo u :
  safe_undo u →
  ∃ v, decodeUndo (encodeUndo u) = Ok v ∧ undo_of_value v = Some u.
Proof. intros H. exists (undo_value u). by apply decodeUndo_encodeUndo_eq. Qed.

Definition example_undo_utxo (v : Z) : V3TokenUtxo :=
  {| tu_txid := "dd"; tu_vout := v; tu_tokenId := "ab"; tu_amountAtoms := 4200000000000000;
     tu_scriptPubKey := "0014ff"; tu_createdHeight := 2; tu_createdBlockHash := "b2" |}.

Definition example_undo : BlockUndo :=
  {| bu_height := 9223372036854775807; bu_blockHash := "b3";
     bu_ops := [UndoDeploy "ab"; UndoTransfer "ee" [example_undo_utxo 2] [example_undo_utxo 1];
                UndoBurn "ff" [example_undo_utxo 3]] |}.

Example encodeUndo_text :
  encodeUndo {| bu_height := 3; bu_blockHash := "b3"; bu_ops := [UndoDeploy "ab"] |}
  = of_utf8 (map to_byte [123;34;104;101;105;103;104;116;34;58;123;34;95;95;98;105;103;105;110;116;34;58;34;51;34;125;44;
      34;98;108;111;99;107;72;97;115;104;34;58;34;98;51;34;44;34;111;112;115;34;58;91;123;34;107;105;110;100;34;58;34;68;
      69;80;76;79;89;34;44;34;116;111;107;101;110;73;100;34;58;34;97;98;34;125;93;125]).
Proof. vm_compute. reflexivity. Qed.

(** What is no journal is refused. *)
Example decodeUndo_refuses :
  exn_message <$> match decodeUndo "not json" with Throw e => Some e | Ok _ => None end
  = Some "MALFORMED_UNDO_JSON: Unexpected token in JSON"%string
  ∧ match decodeUndo (JSON_stringify (JObject [("height", JNumber "1"); ("blockHash", JString "x"); ("ops", JArray [])]%string)) with
    | Throw e => exn_message e | Ok _ => ""%string end = "MALFORMED_UNDO: top-level shape"%string
  ∧ match decodeUndo (JSON_stringify (JObject [("height", JObject [("__bigint", JString "1")]); ("blockHash", JString "x");
      ("ops", JArray [JObject [("kind", JString "BOGUS")]])]%string)) with
    | Throw e => exn_message e | Ok _ => ""%string end = "MALFORMED_UNDO: unknown kind BOGUS"%string.
Proof. vm_compute. done. Qed.

Lemma decodeUndo_encodeUndo_witness :
  safe_undo example_undo ∧ ∃ v, decodeUndo (encodeUndo example_undo) = Ok v ∧ undo_of_value v = Some example_undo.
Proof.
  assert (safe_undo example_undo) as H by (unfold safe_undo; repeat constructor).
  split; [exact H|]. exact (decodeUndo_encodeUndo example_undo H).
Defined.
