(* ===== verification/Store.v ===== *)
(** * The persistent indexer's tables: packages/cove-indexer/src/v3

    The tables of packages/db/src/schema.ts and [store.ts], which writes a block
    into them, or takes it back, in one database transaction.

    A table is the list of its rows of one network: every statement of the
    source selects on the network.  The unique indexes are those of
    packages/db/src/schema.ts; a violated one aborts the transaction.  In which
    order a SELECT without ORDER BY returns rows is the database's choice. *)
From S2P Require Import Prelude Bytes Covenant Vault Json Undo Indexer.

(** ** Rows *)
Record BlockRow := { br_height : Z; br_hash : string; br_parentHash : string; br_canonical : bool }.

Record TokenRow := {
  tr_tokenId : string; tr_ticker : string; tr_policyVersion : Z; tr_nonce : string;
  tr_deployTxid : string; tr_deployHeight : Z; tr_deployBlockHash : string; tr_creatorScript : string;
  tr_canonical : bool;
}.

Record BackingRow := {
  kr_tokenId : string; kr_stateHash : string; kr_stateVersion : Z; kr_policyVersion : Z;
  kr_issuedSupplyAtoms : Z; kr_backingSats : Z; kr_curveStage : Z; kr_txid : string; kr_vout : Z;
  kr_scriptPubKey : string; kr_btcValue : Z; kr_blockHeight : Z; kr_blockHash : string;
  kr_canonical : bool;
}.

Record UtxoRow := {
  ur_txid : string; ur_vout : Z; ur_tokenId : string; ur_amountAtoms : Z; ur_scriptPubKey : string;
  ur_createdHeight : Z; ur_createdBlockHash : string; ur_spentByTxid : option string;
  ur_spentHeight : option Z; ur_spentBlockHash : option string; ur_burned : bool; ur_canonical : bool;
}.

Record EventRow := {
  er_txid : string; er_blockHeight : Z; er_blockHash : string; er_txIndex : Z;
  er_operation : option V3Operation; er_valid : bool; er_reason : option string;
  er_tokenId : option string; er_canonical : bool; er_amountAtoms : option Z; er_grossSats : option Z;
  er_feeSats : option Z; er_supplyAfterAtoms : option Z; er_backingAfterSats : option Z;
}.

Record UndoRow := { nr_height : Z; nr_blockHash : string; nr_undoJson : string }.

Record CursorRow := { cr_height : Z; cr_blockHash : string; cr_stateRoot : string; cr_rebuilding : bool }.

Record V3Db := {
  coveV3Blocks : list BlockRow;
  coveV3Tokens : list TokenRow;
  coveV3BackingStates : list BackingRow;
  coveV3TokenUtxos : list UtxoRow;
  coveV3Events : list EventRow;
  coveV3Undo : list UndoRow;
  coveV3Cursor : list CursorRow;
}.

Definition empty_db : V3Db :=
  {| coveV3Blocks := []; coveV3Tokens := []; coveV3BackingStates := []; coveV3TokenUtxos := [];
     coveV3Events := []; coveV3Undo := []; coveV3Cursor := [] |}.

(** ** Statements *)
Definition unique_violation : exn := js_error "duplicate key value violates unique constraint".

Section Table.
Context {R K : Type} `{EqDecision K} (key : R → K).

Definition has_key (k : K) (l : list R) : bool := existsb (λ r, bool_decide (key r = k)) l.

(** [insert(t).values(r)] *)
Definition insert_row (r : R) (l : list R) : result (list R) :=
  if has_key (key r) l then Throw unique_violation else Ok (l ++ [r]).

(** [insert(t).values([r1, r2, ...])] *)
Fixpoint insert_rows (rs : list R) (l : list R) : result (list R) :=
  match rs with [] => Ok l | r :: rs => l ← insert_row r l; insert_rows rs l end.

(** [update(t).set(f).where(key = k)] *)
Definition update_rows (k : K) (f : R → R) (l : list R) : list R :=
  map (λ r, if bool_decide (key r = k) then f r else r) l.

(** [insert(t).values(r).onConflictDoUpdate({ target: key, set: f })] *)
Definition upsert_row (r : R) (f : R → R) (l : list R) : list R :=
  if has_key (key r) l then update_rows (key r) f l else l ++ [r].

(** [delete(t).where(key = k)] *)
Definition delete_rows (k : K) (l : list R) : list R := filter (λ r, key r ≠ k) l.
End Table.

(** The unique indexes. *)
Definition block_key : BlockRow → Z := br_height.
Definition token_key : TokenRow → string := tr_tokenId.
Definition backing_key : BackingRow → string := kr_tokenId.
Definition utxo_row_key (r : UtxoRow) : string * Z := (ur_txid r, ur_vout r).
Definition event_key : EventRow → string := er_txid.
Definition undo_key : UndoRow → Z := nr_height.
Definition cursor_key (_ : CursorRow) : unit := tt.

Definition set_blocks (d : V3Db) l : V3Db :=
  {| coveV3Blocks := l; coveV3Tokens := coveV3Tokens d; coveV3BackingStates := coveV3BackingStates d;
     coveV3TokenUtxos := coveV3TokenUtxos d; coveV3Events := coveV3Events d; coveV3Undo := coveV3Undo d;
     coveV3Cursor := coveV3Cursor d |}.
Definition set_tokens (d : V3Db) l : V3Db :=
  {| coveV3Blocks := coveV3Blocks d; coveV3Tokens := l; coveV3BackingStates := coveV3BackingStates d;
     coveV3TokenUtxos := coveV3TokenUtxos d; coveV3Events := coveV3Events d; coveV3Undo := coveV3Undo d;
     coveV3Cursor := coveV3Cursor d |}.
Definition set_backings (d : V3Db) l : V3Db :=
  {| coveV3Blocks := coveV3Blocks d; coveV3Tokens := coveV3Tokens d; coveV3BackingStates := l;
     coveV3TokenUtxos := coveV3TokenUtxos d; coveV3Events := coveV3Events d; coveV3Undo := coveV3Undo d;
     coveV3Cursor := coveV3Cursor d |}.
Definition set_utxo_rows (d : V3Db) l : V3Db :=
  {| coveV3Blocks := coveV3Blocks d; coveV3Tokens := coveV3Tokens d; coveV3BackingStates := coveV3BackingStates d;
     coveV3TokenUtxos := l; coveV3Events := coveV3Events d; coveV3Undo := coveV3Undo d;
     coveV3Cursor := coveV3Cursor d |}.
Definition set_events (d : V3Db) l : V3Db :=
  {| coveV3Blocks := coveV3Blocks d; coveV3Tokens := coveV3Tokens d; coveV3BackingStates := coveV3BackingStates d;
     coveV3TokenUtxos := coveV3TokenUtxos d; coveV3Events := l; coveV3Undo := coveV3Undo d;
     coveV3Cursor := coveV3Cursor d |}.
Definition set_undos (d : V3Db) l : V3Db :=
  {| coveV3Blocks := coveV3Blocks d; coveV3Tokens := coveV3Tokens d; coveV3BackingStates := coveV3BackingStates d;
     coveV3TokenUtxos := coveV3TokenUtxos d; coveV3Events := coveV3Events d; coveV3Undo := l;
     coveV3Cursor := coveV3Cursor d |}.
Definition set_cursor (d : V3Db) l : V3Db :=
  {| coveV3Blocks := coveV3Blocks d; coveV3Tokens := coveV3Tokens d; coveV3BackingStates := coveV3BackingStates d;
     coveV3TokenUtxos := coveV3TokenUtxos d; coveV3Events := coveV3Events d; coveV3Undo := coveV3Undo d;
     coveV3Cursor := l |}.

(** ** store.ts: rows of the state's objects *)
Definition token_row (tokenId : string) (meta : V3TokenMeta) : TokenRow :=
  {| tr_tokenId := tokenId; tr_ticker := tm_ticker meta; tr_policyVersion := tm_policyVersion meta;
     tr_nonce := tm_tokenNonce meta; tr_deployTxid := tm_deployTxid meta;
     tr_deployHeight := tm_deployHeight meta; tr_deployBlockHash := tm_deployBlockHash meta;
     tr_creatorScript := tm_creatorScript meta; tr_canonical := true |}.

Definition backingRow (b : V3Backing) : BackingRow :=
  {| kr_tokenId := bk_tokenId b; kr_stateHash := bk_stateHash b; kr_stateVersion := stateVersion (bk_state b);
     kr_policyVersion := policyVersionV2 (bk_state b);
     kr_issuedSupplyAtoms := issuedPublicSupplyAtoms (bk_state b); kr_backingSats := backingSats (bk_state b);
     kr_curveStage := curveStageV2 (bk_state b); kr_txid := op_txid (bk_outpoint b);
     kr_vout := op_vout (bk_outpoint b); kr_scriptPubKey := bk_scriptPubKey b; kr_btcValue := bk_btcValue b;
     kr_blockHeight := bk_updatedHeight b; kr_blockHash := bk_updatedBlockHash b; kr_canonical := true |}.

(** The columns an upsert sets: all but the token and the canonical flag. *)
Definition backingSet (b : V3Backing) (r : BackingRow) : BackingRow :=
  {| kr_tokenId := kr_tokenId r; kr_stateHash := bk_stateHash b; kr_stateVersion := stateVersion (bk_state b);
     kr_policyVersion := policyVersionV2 (bk_state b);
     kr_issuedSupplyAtoms := issuedPublicSupplyAtoms (bk_state b); kr_backingSats := backingSats (bk_state b);
     kr_curveStage := curveStageV2 (bk_state b); kr_txid := op_txid (bk_outpoint b);
     kr_vout := op_vout (bk_outpoint b); kr_scriptPubKey := bk_scriptPubKey b; kr_btcValue := bk_btcValue b;
     kr_blockHeight := bk_updatedHeight b; kr_blockHash := bk_updatedBlockHash b; kr_canonical := kr_canonical r |}.

Definition utxoRow (u : V3TokenUtxo) : UtxoRow :=
  {| ur_txid := tu_txid u; ur_vout := tu_vout u; ur_tokenId := tu_tokenId u; ur_amountAtoms := tu_amountAtoms u;
     ur_scriptPubKey := tu_scriptPubKey u; ur_createdHeight := tu_createdHeight u;
     ur_createdBlockHash := tu_createdBlockHash u; ur_spentByTxid := None; ur_spentHeight := None;
     ur_spentBlockHash := None; ur_burned := false; ur_canonical := true |}.

Definition event_row (e : V3Event) : EventRow :=
  {| er_txid := ev_txid e; er_blockHeight := ev_blockHeight e; er_blockHash := ev_blockHash e;
     er_txIndex := ev_txIndex e; er_operation := ev_operation e; er_valid := ev_valid e;
     er_reason := ev_reason e; er_tokenId := ev_tokenId e; er_canonical := true;
     er_amountAtoms := ct_amountAtoms <$> ev_curve e; er_grossSats := ct_grossSats <$> ev_curve e;
     er_feeSats := ct_protocolFeeSats <$> ev_curve e; er_supplyAfterAtoms := ct_supplyAfterAtoms <$> ev_curve e;
     er_backingAfterSats := ct_backingAfterSats <$> ev_curve e |}.

(** The columns of a spend: [burned], where given, as well. *)
Definition spent_set (txid : option string) (height : option Z) (hash : option string) (burned : option bool)
    (r : UtxoRow) : UtxoRow :=
  {| ur_txid := ur_txid r; ur_vout := ur_vout r; ur_tokenId := ur_tokenId r; ur_amountAtoms := ur_amountAtoms r;
     ur_scriptPubKey := ur_scriptPubKey r; ur_createdHeight := ur_createdHeight r;
     ur_createdBlockHash := ur_createdBlockHash r; ur_spentByTxid := txid; ur_spentHeight := height;
     ur_spentBlockHash := hash; ur_burned := default (ur_burned r) burned; ur_canonical := ur_canonical r |}.

(** ** store.ts: persistBlock *)
Definition undefined_read : exn := Exn ETypeError None "Cannot read properties of undefined".

Definition utxo_pair (u : V3TokenUtxo) : string * Z := (tu_txid u, tu_vout u).

(** [for (const u of us) await tx.update(...).set({ spentByTxid, ... })] *)
Definition mark_spent (us : list V3TokenUtxo) (spendingTxid : string) (block : V3BlockInput)
    (burned : option bool) (l : list UtxoRow) : list UtxoRow :=
  foldl (λ l u, update_rows utxo_row_key (utxo_pair u)
                  (spent_set (Some spendingTxid) (Some (blk_height block)) (Some (blk_hash block)) burned) l) l us.

(** The rows an operation writes, from the state after the block. *)
Definition applyForward (st : V3IndexerState) (block : V3BlockInput) (d : V3Db) (op : UndoOp) : result V3Db :=
  match op with
  | UndoDeploy t =>
      meta ← of_option undefined_read (tokens st !! t);
      b ← of_option undefined_read (backing st !! t);
      rows ← insert_row token_key (token_row t meta) (coveV3Tokens d);
      brows ← insert_row backing_key (backingRow b) (coveV3BackingStates d);
      Ok (set_backings (set_tokens d rows) brows)
  | UndoMint t prior created =>
      b ← of_option undefined_read (backing st !! t);
      let d := set_backings d (upsert_row backing_key (backingRow b) (backingSet b) (coveV3BackingStates d)) in
      rows ← insert_row utxo_row_key (utxoRow created) (coveV3TokenUtxos d);
      Ok (set_utxo_rows d rows)
  | UndoTransfer spendingTxid spent created =>
      rows ← insert_rows utxo_row_key (utxoRow <$> created)
               (mark_spent spent spendingTxid block None (coveV3TokenUtxos d));
      Ok (set_utxo_rows d rows)
  | UndoRedeem t spendingTxid prior spent created =>
      b ← of_option undefined_read (backing st !! t);
      let d := set_backings d (upsert_row backing_key (backingRow b) (backingSet b) (coveV3BackingStates d)) in
      rows ← insert_rows utxo_row_key (utxoRow <$> created)
               (mark_spent spent spendingTxid block None (coveV3TokenUtxos d));
      Ok (set_utxo_rows d rows)
  | UndoBurn spendingTxid spent =>
      Ok (set_utxo_rows d (mark_spent spent spendingTxid block (Some true) (coveV3TokenUtxos d)))
  end.

Fixpoint apply_forward_all (st : V3IndexerState) (block : V3BlockInput) (d : V3Db) (ops : list UndoOp)
    : result V3Db :=
  match ops with
  | [] => Ok d
  | op :: ops => d ← applyForward st block d op; apply_forward_all st block d ops
  end.

Section Persist.
Context {C : Crypto} {L : Locale}.

Definition persistBlock (st : V3IndexerState) (block : V3BlockInput) (events : list V3Event)
    (undo : BlockUndo) (rebuilding : bool) (d : V3Db) : result V3Db :=
  rows ← insert_row block_key {| br_height := blk_height block; br_hash := blk_hash block;
                                 br_parentHash := blk_parentHash block; br_canonical := true |} (coveV3Blocks d);
  let d := set_blocks d rows in
  rows ← insert_rows event_key (event_row <$> events) (coveV3Events d);
  let d := set_events d rows in
  rows ← insert_row undo_key {| nr_height := blk_height block; nr_blockHash := blk_hash block;
                                nr_undoJson := encodeUndo undo |} (coveV3Undo d);
  let d := set_undos d rows in
  d ← apply_forward_all st block d (bu_ops undo);
  let row := {| cr_height := blk_height block; cr_blockHash := blk_hash block; cr_stateRoot := stateRoot st;
                cr_rebuilding := rebuilding |} in
  Ok (set_cursor d (upsert_row cursor_key row (λ _, row) (coveV3Cursor d))).
End Persist.

(** ** store.ts: rollback *)

(** [for (const u of us) await tx.delete(...)] *)
Definition delete_utxo_rows (us : list V3TokenUtxo) (l : list UtxoRow) : list UtxoRow :=
  foldl (λ l u, delete_rows utxo_row_key (utxo_pair u) l) l us.

(** [for (const u of us) await tx.insert(...).onConflictDoUpdate(...)] *)
Definition restore_utxo_rows (us : list V3TokenUtxo) (burned : option bool) (l : list UtxoRow) : list UtxoRow :=
  foldl (λ l u, upsert_row utxo_row_key (utxoRow u) (spent_set None None None burned) l) l us.

Definition restore_backing (prior : V3Backing) (d : V3Db) : V3Db :=
  set_backings d (upsert_row backing_key (backingRow prior) (backingSet prior) (coveV3BackingStates d)).

Definition rollback_op (d : V3Db) (op : UndoOp) : V3Db :=
  match op with
  | UndoDeploy t =>
      set_backings (set_tokens d (delete_rows token_key t (coveV3Tokens d)))
        (delete_rows backing_key t (coveV3BackingStates d))
  | UndoMint _ prior created =>
      set_utxo_rows (restore_backing prior d)
        (delete_rows utxo_row_key (utxo_pair created) (coveV3TokenUtxos d))
  | UndoTransfer _ spent created =>
      set_utxo_rows d (restore_utxo_rows spent None (delete_utxo_rows created (coveV3TokenUtxos d)))
  | UndoRedeem _ _ prior spent created =>
      set_utxo_rows (restore_backing prior d)
        (restore_utxo_rows spent None (delete_utxo_rows created (coveV3TokenUtxos d)))
  | UndoBurn _ spent => set_utxo_rows d (restore_utxo_rows spent (Some false) (coveV3TokenUtxos d))
  end.

Definition rollback (undo : BlockUndo) (newCursor : V3Cursor) (d : V3Db) : V3Db :=
  let d := foldl rollback_op d (reverse (bu_ops undo)) in
  let h := bu_height undo in
  let d := set_undos d (delete_rows undo_key h (coveV3Undo d)) in
  let d := set_blocks d (delete_rows block_key h (coveV3Blocks d)) in
  let d := set_events d (filter (λ r, er_blockHeight r ≠ h) (coveV3Events d)) in
  set_cursor d
    (upsert_row cursor_key
       {| cr_height := cur_height newCursor; cr_blockHash := cur_blockHash newCursor;
          cr_stateRoot := cur_stateRoot newCursor; cr_rebuilding := false |}
       (λ r, {| cr_height := cur_height newCursor; cr_blockHash := cur_blockHash newCursor;
                cr_stateRoot := cur_stateRoot newCursor; cr_rebuilding := cr_rebuilding r |})
       (coveV3Cursor d)).
