(* ===== verification/StoreInv.v ===== *)
(** * The tables follow the state

    What a block's operations do to the maps of the state ([delta]) and to the
    rows of the tables, forwards ([persistBlock]) and backwards ([rollback]):
    the tables of a database in step with the state ([stored]) are in step with
    it after every block written and every block taken back. *)
From S2P Require Import Prelude Bytes Curve Economics Wire Covenant Vault Json Undo Indexer IndexerInv Store.

(** ** Tables with a unique index *)
Section Tables.
Context {R K : Type} `{Countable K} (key : R → K).
Implicit Types (l : list R) (m : gmap K R).

(** [l] holds exactly the rows of [m], each once. *)
Record table l m : Prop := {
  tb_nodup : NoDup (key <$> l);
  tb_rows : ∀ r, r ∈ l ↔ m !! key r = Some r;
  tb_keyed : ∀ k r, m !! k = Some r → key r = k;
}.

Lemma table_nil : table [] ∅.
Proof. split; [constructor|intros r; rewrite lookup_empty; split; [by intros ?%elem_of_nil|done]|done]. Qed.

Lemma has_key_table l m k : table l m → has_key key k l = bool_decide (is_Some (m !! k)).
Proof.
  intros [_ Hr Hk]. apply eq_bool_prop_intro. unfold has_key. rewrite Is_true_true, existsb_exists, bool_decide_spec.
  split.
  - intros (r & Hin & E%bool_decide_eq_true). subst. apply list_elem_of_In, Hr in Hin. by eexists.
  - intros [r E]. exists r. pose proof (Hk _ _ E) as <-. split; [|by apply bool_decide_eq_true].
    by apply list_elem_of_In, Hr.
Qed.

Lemma table_insert l m r : table l m → m !! key r = None →
  ∃ l', insert_row key r l = Ok l' ∧ table l' (<[key r := r]> m).
Proof.
  intros Ht Hn. unfold insert_row. rewrite (has_key_table l m) by done. rewrite Hn.
  eexists. split; [by rewrite bool_decide_eq_false_2 by (by intros [? ?])|]. destruct Ht as [Hd Hr Hk]. split.
  - rewrite fmap_app. apply NoDup_app. split_and!; [done| |apply NoDup_singleton].
    intros k (x & -> & Hx)%list_elem_of_fmap [E|?%elem_of_nil]%elem_of_cons; [|done].
    apply Hr in Hx. rewrite E in Hx. congruence.
  - intros x. rewrite elem_of_app, list_elem_of_singleton, lookup_insert_Some, Hr. split.
    + intros [Hx| ->]; [right|by left]. split; [|done]. intros E. congruence.
    + intros [[_ ?]|[_ ?]]; auto.
  - intros k x. rewrite lookup_insert_Some. intros [[<- <-]|[_ ?]]; auto.
Qed.

Lemma update_rows_keys l k f : (∀ r, key (f r) = key r) → key <$> update_rows key k f l = key <$> l.
Proof.
  intros Hf. unfold update_rows. induction l as [|r l IH]; [done|]. cbn. f_equal; [|done]. by case_bool_decide.
Qed.

Lemma table_update l m k f : (∀ r, key (f r) = key r) → table l m → table (update_rows key k f l) (alter f k m).
Proof.
  intros Hf [Hd Hr Hk]. split.
  - by rewrite update_rows_keys.
  - intros x. unfold update_rows. rewrite list_elem_of_In, in_map_iff. split.
    + intros (r & <- & Hin%list_elem_of_In%Hr). case_bool_decide as E.
      * subst. by rewrite Hf, lookup_alter_eq, Hin.
      * rewrite lookup_alter_ne by done. done.
    + destruct (decide (key x = k)) as [<-|E].
      * rewrite lookup_alter_eq. intros (r & E & Ex)%fmap_Some. subst.
        exists r. pose proof (Hk _ _ E) as Ek. rewrite Ek. rewrite bool_decide_eq_true_2 by done.
        split; [done|]. apply list_elem_of_In, Hr. by rewrite Ek.
      * rewrite lookup_alter_ne by done. intros Hx. exists x. rewrite bool_decide_eq_false_2 by done.
        split; [done|]. by apply list_elem_of_In, Hr.
  - intros k' x. destruct (decide (k' = k)) as [->|].
    + rewrite lookup_alter_eq. intros (r & E & ->)%fmap_Some. rewrite Hf. by apply Hk.
    + rewrite lookup_alter_ne by done. apply Hk.
Qed.

Lemma table_upsert l m r f : (∀ r, key (f r) = key r) → table l m →
  table (upsert_row key r f l) (<[key r := from_option f r (m !! key r)]> m).
Proof.
  intros Hf Ht. unfold upsert_row. rewrite (has_key_table l m) by done.
  destruct (m !! key r) as [r0|] eqn:E; cbn [from_option].
  - rewrite bool_decide_eq_true_2 by done. replace (<[key r:=f r0]> m) with (alter f (key r) m).
    + by apply table_update.
    + apply map_eq. intros k. destruct (decide (k = key r)) as [->|].
      * by rewrite lookup_alter_eq, lookup_insert_eq, E.
      * by rewrite lookup_alter_ne, lookup_insert_ne by done.
  - rewrite bool_decide_eq_false_2 by (by intros [? ?]).
    destruct (table_insert l m r Ht E) as (l' & Hi & Ht'). unfold insert_row in Hi.
    rewrite (has_key_table l m), E, bool_decide_eq_false_2 in Hi by (done || by intros [? ?]). by simplify_eq.
Qed.

Lemma table_delete l m k : table l m → table (delete_rows key k l) (delete k m).
Proof.
  intros [Hd Hr Hk]. unfold delete_rows. split.
  - clear Hr Hk. induction l as [|r l IH]; [done|]. cbn in Hd. apply NoDup_cons in Hd as [Hn Hd].
    rewrite filter_cons. case_decide; [|auto]. cbn. apply NoDup_cons. split; [|auto].
    intros (x & E & [_ Hx]%list_elem_of_filter)%list_elem_of_fmap. apply Hn. rewrite E. by apply list_elem_of_fmap_2.
  - intros x. rewrite list_elem_of_filter, lookup_delete_Some, Hr. naive_solver.
  - intros k' x [_ ?]%lookup_delete_Some. auto.
Qed.

(** A table is what its map lists. *)
Lemma table_map_to_list l m : table l m → l ≡ₚ (map_to_list m).*2.
Proof.
  intros [Hd Hr Hk]. apply NoDup_Permutation.
  - by eapply NoDup_fmap_1.
  - apply (NoDup_fmap_1 key). replace (key <$> (map_to_list m).*2) with (map_to_list m).*1; [apply NoDup_fst_map_to_list|].
    rewrite <-list_fmap_compose. apply list_fmap_ext. intros i [k r] E. cbn. symmetry. apply Hk.
    by apply elem_of_map_to_list, list_elem_of_lookup_2 with i.
  - intros r. rewrite Hr, list_elem_of_fmap. split.
    + intros E. exists (key r, r). split; [done|]. by apply elem_of_map_to_list.
    + intros ([k x] & -> & E%elem_of_map_to_list). cbn. by rewrite (Hk _ _ E).
Qed.
End Tables.

(** ** Outpoints *)
Lemma outpointKey_inj_pair t t' v v' : outpointKey t v = outpointKey t' v' → t = t' ∧ v = v'.
Proof.
  assert (∀ z : Z, free ":" (pretty z) = true) as Hf.
  { intros z. apply pretty_Z_free; [done|]. intros d. unfold pretty_N_char. repeat case_match; done. }
  unfold outpointKey. change (":" +:+ ?d) with (String ":" d).
  intros [-> E]%free_split_last; [|done..]. split; [done|]. by apply (inj pretty).
Qed.

Lemma utxo_pair_key u u' : utxo_key u = utxo_key u' → utxo_pair u = utxo_pair u'.
Proof. unfold utxo_key, utxo_pair. intros [-> ->]%outpointKey_inj_pair. done. Qed.

(** ** What an operation does to the maps *)
Record Maps := { mt : gmap string V3TokenMeta; mb : gmap string V3Backing; mu : gmap string V3TokenUtxo }.

Definition maps (st : V3IndexerState) : Maps := {| mt := tokens st; mb := backing st; mu := tokenUtxos st |}.

Notation utxo_rows := (gmap (string * Z) UtxoRow).

Definition op_spent (op : UndoOp) : list V3TokenUtxo :=
  match op with
  | UndoRedeem _ _ _ spent _ | UndoTransfer _ spent _ | UndoBurn _ spent => spent
  | _ => []
  end.
Definition op_created (op : UndoOp) : list V3TokenUtxo :=
  match op with
  | UndoMint _ _ created => [created]
  | UndoRedeem _ _ _ _ created | UndoTransfer _ _ created => created
  | _ => []
  end.

(** The supply of a token, and that an operation keeps the books: what it
    issues beyond what the carriers it spends held is in those it creates. *)
Definition issued (b : option V3Backing) : Z := from_option (λ b, issuedPublicSupplyAtoms (bk_state b)) 0 b.
Definition balanced (bs bs' : gmap string V3Backing) (spent created : list V3TokenUtxo) : Prop :=
  NoDup (utxo_pair <$> spent) ∧ ∀ t, issued (bs !! t) + total t created = total t spent + issued (bs' !! t).

Inductive delta (M : Maps) : UndoOp → Maps → Prop :=
  | delta_deploy t meta b :
      mt M !! t = None → mb M !! t = None → tm_tokenId meta = t → bk_tokenId b = t →
      balanced (mb M) (<[t := b]> (mb M)) [] [] →
      delta M (UndoDeploy t) {| mt := <[t := meta]> (mt M); mb := <[t := b]> (mb M); mu := mu M |}
  | delta_mint t prior b created :
      mb M !! t = Some prior → bk_tokenId b = t → balanced (mb M) (<[t := b]> (mb M)) [] [created] →
      delta M (UndoMint t prior created)
        {| mt := mt M; mb := <[t := b]> (mb M); mu := <[utxo_key created := created]> (mu M) |}
  | delta_transfer txid spent created :
      carriers_in (mu M) spent → balanced (mb M) (mb M) spent created →
      delta M (UndoTransfer txid spent created)
        {| mt := mt M; mb := mb M; mu := set_utxos created (delete_utxos spent (mu M)) |}
  | delta_redeem t txid prior b spent created :
      mb M !! t = Some prior → bk_tokenId b = t → carriers_in (mu M) spent →
      balanced (mb M) (<[t := b]> (mb M)) spent created →
      delta M (UndoRedeem t txid prior spent created)
        {| mt := mt M; mb := <[t := b]> (mb M); mu := set_utxos created (delete_utxos spent (mu M)) |}
  | delta_burn txid spent :
      carriers_in (mu M) spent →
      delta M (UndoBurn txid spent) {| mt := mt M; mb := mb M; mu := delete_utxos spent (mu M) |}.

Lemma balanced_move bs t b spent created :
  NoDup (utxo_pair <$> spent) → Forall (λ u, tu_tokenId u = t) spent → Forall (λ u, tu_tokenId u = t) created →
  issued (bs !! t) + zsum (tu_amountAtoms <$> created) = zsum (tu_amountAtoms <$> spent) + issued (Some b) →
  balanced bs (<[t := b]> bs) spent created.
Proof.
  intros Hn Hs Hc E. split; [done|]. intros t'. destruct (decide (t = t')) as [<-|Hne].
  - by rewrite lookup_insert_eq, !total_one_token.
  - rewrite lookup_insert_ne by done. rewrite !(total_other_token t t') by done. lia.
Qed.

Lemma pairs_NoDup us : NoDup (utxo_key <$> us) → NoDup (utxo_pair <$> us).
Proof.
  change utxo_key with ((λ p, outpointKey p.1 p.2) ∘ utxo_pair). rewrite list_fmap_compose. apply NoDup_fmap_1.
Qed.

(** The rows of the carriers. *)
Definition U_mark (us : list V3TokenUtxo) (txid : string) (block : V3BlockInput) (burned : option bool) (U : utxo_rows)
    : utxo_rows :=
  foldl (λ U u, alter (spent_set (Some txid) (Some (blk_height block)) (Some (blk_hash block)) burned) (utxo_pair u) U)
    U us.
Definition U_insert (us : list V3TokenUtxo) (U : utxo_rows) : utxo_rows :=
  foldl (λ U u, <[utxo_pair u := utxoRow u]> U) U us.
Definition U_delete (us : list V3TokenUtxo) (U : utxo_rows) : utxo_rows :=
  foldl (λ U u, delete (utxo_pair u) U) U us.
Definition U_restore (us : list V3TokenUtxo) (burned : option bool) (U : utxo_rows) : utxo_rows :=
  foldl (λ U u, <[utxo_pair u := from_option (spent_set None None None burned) (utxoRow u) (U !! utxo_pair u)]> U) U us.

Definition U_forward (block : V3BlockInput) (op : UndoOp) (U : utxo_rows) : utxo_rows :=
  match op with
  | UndoDeploy _ => U
  | UndoMint _ _ created => U_insert [created] U
  | UndoTransfer txid spent created | UndoRedeem _ txid _ spent created =>
      U_insert created (U_mark spent txid block None U)
  | UndoBurn txid spent => U_mark spent txid block (Some true) U
  end.

(** The carriers an operation creates have no rows yet. *)
Definition fresh_created (op : UndoOp) (U : utxo_rows) : Prop :=
  NoDup (utxo_pair <$> op_created op) ∧ Forall (λ u, U !! utxo_pair u = None) (op_created op).

(** The operations of a block, one after the other. *)
Inductive run (block : V3BlockInput) : Maps → utxo_rows → list UndoOp → Maps → utxo_rows → Prop :=
  | run_nil M U : run block M U [] M U
  | run_cons M U op M1 ops M2 U2 :
      delta M op M1 → fresh_created op U → run block M1 (U_forward block op U) ops M2 U2 →
      run block M U (op :: ops) M2 U2.

Lemma run_app block M U ops M1 U1 ops' M2 U2 :
  run block M U ops M1 U1 → run block M1 U1 ops' M2 U2 → run block M U (ops ++ ops') M2 U2.
Proof. induction 1; [done|]. intros. cbn [app]. econstructor; eauto. Qed.

(** The rows are a function of the operations. *)
Lemma run_rows block M U ops M' U' : run block M U ops M' U' → U' = foldl (λ U op, U_forward block op U) U ops.
Proof. by induction 1. Qed.

Lemma run_single block M U op M1 :
  delta M op M1 → fresh_created op U → run block M U [op] M1 (U_forward block op U).
Proof. intros. econstructor; [done..|constructor]. Qed.

(** ** Lookups in the rows of the carriers *)
Lemma lookup_U_mark us txid b burned U p :
  U_mark us txid b burned U !! p =
    if decide (p ∈ utxo_pair <$> us)
    then spent_set (Some txid) (Some (blk_height b)) (Some (blk_hash b)) burned <$> U !! p else U !! p.
Proof.
  unfold U_mark. revert U. induction us as [|u us IH]; intros U; cbn [foldl fmap list_fmap]; [done|].
  rewrite IH. destruct (decide (p = utxo_pair u)) as [->|].
  - rewrite lookup_alter_eq. rewrite (decide_True (P := _ ∈ _ :: _)) by set_solver. case_decide; [|done].
    destruct (U !! utxo_pair u) as [[]|]; [|done]. cbn. f_equal. unfold spent_set. cbn. by destruct burned.
  - rewrite lookup_alter_ne by done. repeat case_decide; try done; set_solver.
Qed.

Lemma lookup_U_insert us U p :
  U_insert us U !! p = match last (filter (λ u, utxo_pair u = p) us) with Some u => Some (utxoRow u) | None => U !! p end.
Proof.
  unfold U_insert. revert U. induction us as [|u us IH]; intros U; cbn [foldl]; [done|].
  rewrite IH, filter_cons. case_decide as E.
  - subst. rewrite lookup_insert_eq, last_cons. by destruct (last _).
  - rewrite lookup_insert_ne by done. done.
Qed.

Lemma lookup_U_insert_ne us U p : p ∉ utxo_pair <$> us → U_insert us U !! p = U !! p.
Proof.
  unfold U_insert. revert U. induction us as [|u us IH]; intros U; cbn [foldl fmap list_fmap]; [done|].
  intros [? ?]%not_elem_of_cons. rewrite IH by done. by rewrite lookup_insert_ne.
Qed.

Lemma lookup_U_insert_in us U u : NoDup (utxo_pair <$> us) → u ∈ us → U_insert us U !! utxo_pair u = Some (utxoRow u).
Proof.
  unfold U_insert. revert U. induction us as [|v us IH]; intros U; cbn [foldl fmap list_fmap]; [by intros _ ?%elem_of_nil|].
  intros [Hn Hd]%NoDup_cons [->|Hu]%elem_of_cons; [|by apply IH].
  fold (U_insert us (<[utxo_pair v := utxoRow v]> U)). by rewrite lookup_U_insert_ne, lookup_insert_eq.
Qed.

Lemma lookup_U_delete us U p : U_delete us U !! p = if decide (p ∈ utxo_pair <$> us) then None else U !! p.
Proof.
  unfold U_delete. revert U. induction us as [|u us IH]; intros U; cbn [foldl fmap list_fmap]; [done|].
  rewrite IH. destruct (decide (p = utxo_pair u)) as [->|].
  - rewrite lookup_delete_eq. repeat case_decide; try done; set_solver.
  - rewrite lookup_delete_ne by done. repeat case_decide; try done; set_solver.
Qed.

Lemma U_delete_insert us U :
  NoDup (utxo_pair <$> us) → Forall (λ u, U !! utxo_pair u = None) us → U_delete us (U_insert us U) = U.
Proof.
  intros Hd Hn. apply map_eq. intros p. rewrite lookup_U_delete. case_decide as Hp.
  - apply list_elem_of_fmap in Hp as (u & -> & Hu). rewrite Forall_forall in Hn. symmetry. by apply Hn.
  - by apply lookup_U_insert_ne.
Qed.

(** Rows of live carriers, marked as spent and restored. *)
Lemma U_restore_mark us txid b burned burned' U :
  Forall (λ u, U !! utxo_pair u = Some (utxoRow u)) us →
  (burned = None ∧ burned' = None ∨ ∃ x, burned = Some x ∧ burned' = Some false) →
  U_restore us burned' (U_mark us txid b burned U) = U.
Proof.
  intros Hl Hb. set (s := spent_set (Some txid) (Some (blk_height b)) (Some (blk_hash b)) burned).
  assert (∀ u, spent_set None None None burned' (s (utxoRow u)) = utxoRow u) as Hs.
  { intros u. destruct Hb as [[-> ->]|(x & -> & ->)]; done. }
  assert (∀ u, spent_set None None None burned' (utxoRow u) = utxoRow u) as Hs0.
  { intros u. destruct Hb as [[-> ->]|(x & -> & ->)]; done. }
  assert (∀ us' U', (∀ p, U' !! p = U !! p ∨ p ∈ utxo_pair <$> us' ∧ U' !! p = s <$> U !! p) →
    Forall (λ u, U !! utxo_pair u = Some (utxoRow u)) us' → U_restore us' burned' U' = U) as Hgen.
  { clear Hl us. intros us. unfold U_restore. induction us as [|u us IH]; intros U' HU Hl; cbn [foldl].
    - apply map_eq. intros p. destruct (HU p) as [->|[?%elem_of_nil _]]; done.
    - apply Forall_cons in Hl as [Hu Hl]. apply IH; [|done]. intros p.
      destruct (decide (p = utxo_pair u)) as [->|Hne].
      + left. rewrite lookup_insert_eq, Hu.
        destruct (HU (utxo_pair u)) as [->|[_ ->]]; rewrite Hu; cbn; by rewrite ?Hs, ?Hs0.
      + rewrite lookup_insert_ne by done. destruct (HU p) as [->|[[Ep|Hv]%elem_of_cons E]]; [by left|done|by right]. }
  apply Hgen; [|done]. intros p. rewrite lookup_U_mark. case_decide as Hp; [by right|by left].
Qed.

(** ** Live carriers and their rows *)
Record live_ok (m : gmap string V3TokenUtxo) (U : utxo_rows) : Prop := {
  lo_live : ∀ k u, m !! k = Some u → U !! utxo_pair u = Some (utxoRow u);
  lo_rows : ∀ p r, U !! p = Some r → utxo_row_key r = p ∧ ur_canonical r = true
    ∧ (ur_spentByTxid r = None → ∃ u, r = utxoRow u ∧ m !! utxo_key u = Some u);
  lo_keyed : keyed m;
}.

Lemma key_of_pair u u' : utxo_pair u = utxo_pair u' → utxo_key u = utxo_key u'.
Proof. unfold utxo_pair, utxo_key. by intros [= -> ->]. Qed.

Lemma lookup_set_utxos_in us m u :
  NoDup (utxo_pair <$> us) → u ∈ us → set_utxos us m !! utxo_key u = Some u.
Proof.
  unfold set_utxos. revert m. induction us as [|v us IH]; intros m; cbn [foldl fmap list_fmap]; [by intros _ ?%elem_of_nil|].
  intros [Hn Hd]%NoDup_cons [->|Hu]%elem_of_cons; [|by apply IH].
  fold (set_utxos us (<[utxo_key v := v]> m)). rewrite lookup_set_utxos, lookup_insert_eq; [done|].
  intros (w & E%utxo_pair_key & Hw)%list_elem_of_fmap. apply Hn. rewrite E. by apply list_elem_of_fmap_2.
Qed.

Lemma live_move m U spent created txid b burned :
  live_ok m U → carriers_in m spent → NoDup (utxo_pair <$> created) →
  live_ok (set_utxos created (delete_utxos spent m)) (U_insert created (U_mark spent txid b burned U)).
Proof.
  intros [Hl Hr Hk] Hin Hd. split.
  - intros k u [[Hu <-]|[Hu Hnc]]%lookup_set_utxos_Some; [by apply lookup_U_insert_in|].
    rewrite lookup_delete_utxos in Hu. case_decide as Hns; [done|]. pose proof (Hk _ _ Hu) as <-.
    rewrite lookup_U_insert_ne, lookup_U_mark, decide_False; [by eapply Hl| |].
    + intros (v & E%key_of_pair & Hv)%list_elem_of_fmap. apply Hns. rewrite E. by apply list_elem_of_fmap_2.
    + intros (v & E%key_of_pair & Hv)%list_elem_of_fmap. apply Hnc. rewrite E. by apply list_elem_of_fmap_2.
  - intros p r. destruct (decide (p ∈ utxo_pair <$> created)) as [(u & -> & Hu)%list_elem_of_fmap|Hnc].
    + rewrite lookup_U_insert_in by done. intros [= <-]. split_and!; [done..|]. intros _. exists u.
      split; [done|]. by apply lookup_set_utxos_in.
    + rewrite lookup_U_insert_ne, lookup_U_mark by done. case_decide as Hs.
      * intros (r0 & E & ->)%fmap_Some. destruct (Hr _ _ E) as (? & ? & _). split_and!; try done.
      * intros E. destruct (Hr _ _ E) as (Ep & ? & Hu). split_and!; [done..|]. intros (u & -> & Hm)%Hu.
        exists u. split; [done|]. change (utxo_pair u = p) in Ep. subst p.
        rewrite lookup_set_utxos, lookup_delete_utxos, decide_False; [done| |].
        -- intros (v & Ev%utxo_pair_key & Hv)%list_elem_of_fmap. apply Hs. rewrite Ev. by apply list_elem_of_fmap_2.
        -- intros (v & Ev%utxo_pair_key & Hv)%list_elem_of_fmap. apply Hnc. rewrite Ev. by apply list_elem_of_fmap_2.
  - intros k u [[_ ?]|[Hu _]]%lookup_set_utxos_Some; [done|]. rewrite lookup_delete_utxos in Hu.
    case_decide; [done|]. by apply Hk.
Qed.

Lemma delta_live block M U op M' :
  delta M op M' → fresh_created op U → live_ok (mu M) U → live_ok (mu M') (U_forward block op U).
Proof.
  intros Hd [Hn _] Hl. destruct Hd; cbn [mu U_forward op_created] in *.
  - done.
  - apply (live_move (mu M) U [] [created] "" block None Hl); [constructor|done].
  - by apply live_move.
  - by apply live_move.
  - apply (live_move (mu M) U spent [] txid block (Some true) Hl); [done|constructor].
Qed.

Lemma run_live block M U ops M' U' :
  run block M U ops M' U' → live_ok (mu M) U → live_ok (mu M') U'.
Proof. induction 1; [done|]. intros Hl. apply IHrun. by eapply delta_live. Qed.

(** ** Forwards *)
Definition tok_rows (m : gmap string V3TokenMeta) : gmap string TokenRow := (λ t, token_row (tm_tokenId t) t) <$> m.
Definition back_rows (m : gmap string V3Backing) : gmap string BackingRow := backingRow <$> m.

Definition backing_keyed (m : gmap string V3Backing) : Prop := ∀ t b, m !! t = Some b → bk_tokenId b = t.

Lemma delta_mono M op M' : delta M op M' →
  mt M ⊆ mt M' ∧ (∀ t, is_Some (mb M !! t) → is_Some (mb M' !! t)).
Proof.
  destruct 1; cbn; split; try done; try (by apply insert_subseteq);
    intros t' ?; rewrite lookup_insert_is_Some'; by right.
Qed.

Lemma run_mono block M U ops M' U' : run block M U ops M' U' →
  mt M ⊆ mt M' ∧ (∀ t, is_Some (mb M !! t) → is_Some (mb M' !! t)).
Proof.
  induction 1 as [|M U op M1 ops M2 U2 Hd _ _ [IH1 IH2]]; [done|]. destruct (delta_mono _ _ _ Hd).
  split; [by etrans|auto].
Qed.

(** The tables that an operation writes. *)
Record op_tables (d : V3Db) (T : gmap string TokenRow) (B : gmap string BackingRow) (U : utxo_rows) : Prop := {
  ot_tokens : table token_key (coveV3Tokens d) T;
  ot_backing : table backing_key (coveV3BackingStates d) B;
  ot_utxos : table utxo_row_key (coveV3TokenUtxos d) U;
}.

(** The others, and the cursor. *)
Definition same_frame (d d' : V3Db) : Prop :=
  coveV3Blocks d' = coveV3Blocks d ∧ coveV3Events d' = coveV3Events d ∧ coveV3Undo d' = coveV3Undo d
  ∧ coveV3Cursor d' = coveV3Cursor d.

Lemma table_mark us txid b burned l U :
  table utxo_row_key l U → table utxo_row_key (mark_spent us txid b burned l) (U_mark us txid b burned U).
Proof.
  unfold mark_spent, U_mark. revert l U. induction us as [|u us IH]; intros l U Ht; cbn [foldl]; [done|].
  apply IH. by apply table_update.
Qed.

Lemma table_insert_utxos us l U :
  table utxo_row_key l U → NoDup (utxo_pair <$> us) → Forall (λ u, U !! utxo_pair u = None) us →
  ∃ l', insert_rows utxo_row_key (utxoRow <$> us) l = Ok l' ∧ table utxo_row_key l' (U_insert us U).
Proof.
  unfold U_insert. revert l U. induction us as [|u us IH]; intros l U Ht; cbn [foldl fmap list_fmap insert_rows]; [by eexists|].
  intros [Hn Hd]%NoDup_cons [Hu Hus]%Forall_cons.
  destruct (table_insert utxo_row_key l U (utxoRow u) Ht Hu) as (l' & -> & Ht'). step_ok.
  apply IH; [done..|]. apply Forall_forall. intros v Hv. rewrite Forall_forall in Hus.
  rewrite lookup_insert_ne; [by apply Hus|]. change (utxo_pair u ≠ utxo_pair v). intros E. apply Hn. rewrite E.
  by apply list_elem_of_fmap_2.
Qed.

(** Spent rows marked and created rows inserted. *)
Lemma table_move spent created txid b l U :
  table utxo_row_key l U → NoDup (utxo_pair <$> created) → Forall (λ u, U !! utxo_pair u = None) created →
  ∃ l', insert_rows utxo_row_key (utxoRow <$> created) (mark_spent spent txid b None l) = Ok l'
  ∧ table utxo_row_key l' (U_insert created (U_mark spent txid b None U)).
Proof.
  intros Ht Hd Hn. apply table_insert_utxos; [by apply table_mark|done|].
  eapply Forall_impl; [exact Hn|]. intros u Hu. cbn. rewrite lookup_U_mark, Hu. by case_decide.
Qed.

(** While the operations of a block are written, the tokens and carriers are
    in step; the reserve of a token that an operation has touched is already
    the one after the block. *)
Definition mixed (X : gset string) (m final : gmap string V3Backing) (B : gmap string BackingRow) : Prop :=
  ∀ t, B !! t = backingRow <$> (if decide (t ∈ X) then final !! t else m !! t).

Lemma mixed_touch X m final B t b b' :
  mixed X m final B → final !! t = Some b' →
  mixed ({[t]} ∪ X) (<[t := b]> m) final (<[t := backingRow b']> B).
Proof.
  intros HB Hf t'. destruct (decide (t' = t)) as [->|Hne].
  - rewrite lookup_insert_eq, decide_True by set_solver. by rewrite Hf.
  - rewrite !lookup_insert_ne, HB by done. repeat case_decide; try done; set_solver.
Qed.

Lemma upsert_backing d B X m final t prior b' :
  table backing_key (coveV3BackingStates d) B → mixed X m final B → backing_keyed final → backing_keyed m →
  m !! t = Some prior → final !! t = Some b' →
  table backing_key (upsert_row backing_key (backingRow b') (backingSet b') (coveV3BackingStates d))
    (<[t := backingRow b']> B).
Proof.
  intros Ht HB Hkf Hkm Hm Hf. pose proof (table_upsert backing_key _ _ (backingRow b') (backingSet b') (λ _, eq_refl) Ht) as H.
  change (backing_key (backingRow b')) with (bk_tokenId b') in H. rewrite (Hkf _ _ Hf) in H.
  replace (from_option (backingSet b') (backingRow b') (B !! t)) with (backingRow b') in H; [done|].
  specialize (HB t). assert (∃ b0, bk_tokenId b0 = t ∧ B !! t = Some (backingRow b0)) as (b0 & Eb & E).
  { rewrite HB. case_decide; rewrite ?Hf, ?Hm; eexists; split; try done; by eauto. }
  rewrite E. cbn. unfold backingSet, backingRow. cbn. by rewrite Eb, (Hkf _ _ Hf).
Qed.

Lemma delta_keyed M op M' : delta M op M' → backing_keyed (mb M) → backing_keyed (mb M').
Proof.
  intros Hd Hk t b. destruct Hd; cbn [mb]; try apply Hk; rewrite lookup_insert_Some; intros [[<- <-]|[_ ?]]; auto.
Qed.

Lemma tok_rows_insert t meta m : tm_tokenId meta = t →
  tok_rows (<[t := meta]> m) = <[t := token_row t meta]> (tok_rows m).
Proof. intros <-. unfold tok_rows. by rewrite fmap_insert. Qed.

(** The state after the block knows every token and reserve of a step. *)
Definition reaches (st : V3IndexerState) (M : Maps) : Prop :=
  mt M ⊆ tokens st ∧ (∀ t, is_Some (mb M !! t) → is_Some (backing st !! t)).

(** Between two operations of a block. *)
Definition mid_tables (st : V3IndexerState) (d : V3Db) (M : Maps) (U : utxo_rows) : Prop :=
  ∃ X B, op_tables d (tok_rows (mt M)) B U ∧ mixed X (mb M) (backing st) B
  ∧ (∀ t, t ∈ X → is_Some (mb M !! t)) ∧ backing_keyed (mb M).

(** A token touched: its row in the table of the reserves. *)
Lemma mid_backing st d B X M U t prior b b' T' U' mt' mu' :
  op_tables d (tok_rows (mt M)) B U → mixed X (mb M) (backing st) B → (∀ t, t ∈ X → is_Some (mb M !! t)) →
  backing_keyed (mb M) → backing_keyed (backing st) → mb M !! t = Some prior → bk_tokenId b = t →
  backing st !! t = Some b' → T' = tok_rows mt' →
  ∀ rows, table token_key (coveV3Tokens d) T' → table utxo_row_key rows U' →
  mid_tables st (set_utxo_rows (set_backings d
      (upsert_row backing_key (backingRow b') (backingSet b') (coveV3BackingStates d))) rows)
    {| mt := mt'; mb := <[t := b]> (mb M); mu := mu' |} U'.
Proof.
  intros [_ Hb _] HB HX Hkm Hkf Hp Hbt Hf -> rows Ht Hu.
  exists ({[t]} ∪ X), (<[t := backingRow b']> B). split_and!.
  - split; cbn; [done| |done]. by eapply upsert_backing.
  - by apply mixed_touch.
  - intros t'. cbn [mb]. rewrite lookup_insert_is_Some', elem_of_union, elem_of_singleton. intros [->|?]; auto.
  - intros t' x. cbn [mb]. rewrite lookup_insert_Some. intros [[<- <-]|[_ ?]]; auto.
Qed.

Lemma forward_step st block d op M M1 U :
  delta M op M1 → fresh_created op U → mid_tables st d M U → reaches st M1 → backing_keyed (backing st) →
  ∃ d', applyForward st block d op = Ok d' ∧ mid_tables st d' M1 (U_forward block op U) ∧ same_frame d d'.
Proof.
  intros Hd [Hnd Hfr] (X & B & Ht & HB & HX & Hkm) [Hrt Hrb] Hkf.
  destruct Hd as [t meta b Hn Hnb Hmt Hbt|t prior b cr Hp Hbt|tx sp cr Hc|t tx prior b sp cr Hp Hbt Hc|tx sp Hc];
    cbn [applyForward U_forward op_created mt mb mu] in *.
  - assert (tokens st !! t = Some meta) as Et by (eapply lookup_weaken; [|exact Hrt]; apply lookup_insert_eq).
    destruct (Hrb t) as [b' Eb]; [by rewrite lookup_insert_eq|]. rewrite Et, Eb. cbn [of_option]. do 2 step_ok.
    assert (B !! t = None) as HBt.
    { rewrite HB. case_decide as Hin; [|by rewrite Hnb]. apply HX in Hin. rewrite Hnb in Hin. by destruct Hin. }
    destruct Ht as [Ht1 Ht2 Ht3].
    destruct (table_insert token_key _ _ (token_row t meta) Ht1) as (rows & -> & Hr).
    { change (token_key (token_row t meta)) with t. unfold tok_rows. by rewrite lookup_fmap, Hn. }
    step_ok. destruct (table_insert backing_key _ _ (backingRow b') Ht2) as (brows & -> & Hbr).
    { change (backing_key (backingRow b')) with (bk_tokenId b'). by rewrite (Hkf _ _ Eb). }
    step_ok. eexists. split; [done|]. split; [|done].
    change (backing_key (backingRow b')) with (bk_tokenId b') in Hbr. rewrite (Hkf _ _ Eb) in Hbr.
    exists ({[t]} ∪ X), (<[t := backingRow b']> B). cbn [mt mb]. split_and!.
    + rewrite tok_rows_insert by done. by split.
    + by apply mixed_touch.
    + intros t'. rewrite lookup_insert_is_Some', elem_of_union, elem_of_singleton. intros [->|?]; auto.
    + intros t' x. rewrite lookup_insert_Some. intros [[<- <-]|[_ ?]]; auto.
  - destruct (Hrb t) as [b' Eb]; [by rewrite lookup_insert_eq|]. rewrite Eb. cbn [of_option]. step_ok.
    destruct (table_insert_utxos [cr] _ _ (ot_utxos _ _ _ _ Ht) Hnd Hfr) as (rows & Hi & Hr).
    cbn [fmap list_fmap insert_rows] in Hi. apply bind_Ok in Hi as (rows' & Hi & E). injection E as ->.
    cbn [coveV3TokenUtxos set_backings]. rewrite Hi. step_ok. eexists. split; [done|]. split; [|done].
    eapply mid_backing; try done. by destruct Ht.
  - destruct (table_move sp cr tx block _ _ (ot_utxos _ _ _ _ Ht) Hnd Hfr) as (rows & -> & Hr). step_ok.
    eexists. split; [done|]. split; [|done]. exists X, B. destruct Ht. by split_and!.
  - destruct (Hrb t) as [b' Eb]; [by rewrite lookup_insert_eq|]. rewrite Eb. cbn [of_option]. step_ok.
    cbn [coveV3TokenUtxos set_backings].
    destruct (table_move sp cr tx block _ _ (ot_utxos _ _ _ _ Ht) Hnd Hfr) as (rows & -> & Hr). step_ok.
    eexists. split; [done|]. split; [|done]. eapply mid_backing; try done. by destruct Ht.
  - eexists. split; [done|]. split; [|done]. exists X, B. destruct Ht. split_and!; try done. split; try done.
    by apply table_mark.
Qed.

Lemma same_frame_trans d1 d2 d3 : same_frame d1 d2 → same_frame d2 d3 → same_frame d1 d3.
Proof. unfold same_frame. intros (? & ? & ? & ?) (? & ? & ? & ?). split_and!; congruence. Qed.

Lemma forward_run st block M U ops M' U' d :
  run block M U ops M' U' → mid_tables st d M U → reaches st M' → backing_keyed (backing st) →
  ∃ d', apply_forward_all st block d ops = Ok d' ∧ mid_tables st d' M' U' ∧ same_frame d d'.
Proof.
  intros Hrun. revert d. induction Hrun as [M U|M U op M1 ops M2 U2 Hd Hf Hrun IH]; intros d Hm Hr Hk; cbn [apply_forward_all].
  - by exists d.
  - destruct (run_mono _ _ _ _ _ _ Hrun) as [H1 H2]. destruct Hr as [Hr1 Hr2].
    destruct (forward_step st block d op M M1 U Hd Hf Hm) as (d1 & -> & Hm1 & Hs1); [split; [by etrans|auto]|done|].
    step_ok. destruct (IH d1 Hm1) as (d2 & -> & Hm2 & Hs2); [done..|]. exists d2. split_and!; [done..|].
    by eapply same_frame_trans.
Qed.

(** After the last operation the tables are in step with the state. *)
Lemma mid_tables_end st d M U :
  mid_tables st d M U → mb M = backing st → op_tables d (tok_rows (mt M)) (back_rows (backing st)) U.
Proof.
  intros (X & B & Ht & HB & _ & _) E. replace (back_rows (backing st)) with B; [done|].
  apply map_eq. intros t. rewrite HB, E. unfold back_rows. rewrite lookup_fmap. by case_decide.
Qed.

Lemma mid_tables_start st d M U :
  op_tables d (tok_rows (mt M)) (back_rows (mb M)) U → backing_keyed (mb M) → mid_tables st d M U.
Proof.
  intros Ht Hk. exists ∅, (back_rows (mb M)). split_and!; [done| |set_solver|done].
  intros t. rewrite decide_False by set_solver. unfold back_rows. by rewrite lookup_fmap.
Qed.

(** ** Backwards *)
Lemma table_delete_utxos us l U :
  table utxo_row_key l U → table utxo_row_key (delete_utxo_rows us l) (U_delete us U).
Proof.
  unfold delete_utxo_rows, U_delete. revert l U. induction us as [|u us IH]; intros l U Ht; cbn [foldl]; [done|].
  apply IH. by apply table_delete.
Qed.

Lemma table_restore_utxos us burned l U :
  table utxo_row_key l U → table utxo_row_key (restore_utxo_rows us burned l) (U_restore us burned U).
Proof.
  unfold restore_utxo_rows, U_restore. revert l U. induction us as [|u us IH]; intros l U Ht; cbn [foldl]; [done|].
  apply IH. by apply (table_upsert utxo_row_key _ _ (utxoRow u)).
Qed.

Lemma rows_of_carriers m U us : live_ok m U → carriers_in m us → Forall (λ u, U !! utxo_pair u = Some (utxoRow u)) us.
Proof. intros Hl Hc. eapply Forall_impl; [exact Hc|]. intros u Hu. by apply (lo_live _ _ Hl (utxo_key u)). Qed.

(** The carriers of a move taken back. *)
Lemma table_unmove spent created txid b l U m :
  table utxo_row_key l (U_insert created (U_mark spent txid b None U)) → live_ok m U → carriers_in m spent →
  NoDup (utxo_pair <$> created) → Forall (λ u, U !! utxo_pair u = None) created →
  table utxo_row_key (restore_utxo_rows spent None (delete_utxo_rows created l)) U.
Proof.
  intros Ht Hl Hc Hd Hn. apply (table_delete_utxos created) in Ht. rewrite U_delete_insert in Ht; [|done|].
  - apply (table_restore_utxos spent None) in Ht. rewrite U_restore_mark in Ht; [done|eauto using rows_of_carriers|by left].
  - eapply Forall_impl; [exact Hn|]. intros u Hu. cbn. rewrite lookup_U_mark, Hu. by case_decide.
Qed.

Lemma restore_backing_table d m t prior b :
  table backing_key (coveV3BackingStates d) (back_rows (<[t := b]> m)) → bk_tokenId b = t →
  m !! t = Some prior → bk_tokenId prior = t →
  table backing_key (coveV3BackingStates (restore_backing prior d)) (back_rows m).
Proof.
  intros Ht Hb Hp Hpt. unfold restore_backing. cbn [coveV3BackingStates set_backings].
  apply (table_upsert backing_key _ _ (backingRow prior) (backingSet prior) (λ _, eq_refl)) in Ht.
  change (backing_key (backingRow prior)) with (bk_tokenId prior) in Ht. rewrite Hpt in Ht.
  unfold back_rows in *. rewrite lookup_fmap, lookup_insert_eq in Ht. cbn in Ht.
  rewrite fmap_insert, insert_insert_eq in Ht. replace (backingSet prior (backingRow b)) with (backingRow prior) in Ht.
  - rewrite <-(insert_id m t prior Hp) at 1. by rewrite fmap_insert.
  - unfold backingSet, backingRow. cbn. by rewrite Hpt, Hb.
Qed.

Lemma rollback_step block d op M M1 U :
  delta M op M1 → fresh_created op U → live_ok (mu M) U → backing_keyed (mb M) →
  op_tables d (tok_rows (mt M1)) (back_rows (mb M1)) (U_forward block op U) →
  op_tables (rollback_op d op) (tok_rows (mt M)) (back_rows (mb M)) U ∧ same_frame d (rollback_op d op).
Proof.
  intros Hd [Hnd Hfr] Hl Hk [H1 H2 H3]. split; [|by destruct op].
  destruct Hd as [t meta b Hn Hnb Hmt Hbt|t prior b cr Hp Hbt|tx sp cr Hc|t tx prior b sp cr Hp Hbt Hc|tx sp Hc];
    cbn [rollback_op U_forward op_created mt mb mu] in *.
  - split; cbn; [| |done].
    + apply (table_delete _ _ _ t) in H1. rewrite tok_rows_insert in H1 by done.
      rewrite delete_insert_id in H1; [done|]. unfold tok_rows. by rewrite lookup_fmap, Hn.
    + apply (table_delete _ _ _ t) in H2. unfold back_rows in *. rewrite fmap_insert, delete_insert_id in H2; [done|].
      by rewrite lookup_fmap, Hnb.
  - split; cbn [coveV3Tokens coveV3BackingStates coveV3TokenUtxos set_utxo_rows]; [done| |].
    + eapply restore_backing_table; eauto.
    + apply (table_delete_utxos [cr]) in H3. by rewrite U_delete_insert in H3.
  - split; cbn; [done..|]. by eapply table_unmove.
  - split; cbn [coveV3Tokens coveV3BackingStates coveV3TokenUtxos set_utxo_rows]; [done| |].
    + eapply restore_backing_table; eauto.
    + by eapply table_unmove.
  - split; cbn; [done..|]. apply (table_restore_utxos sp (Some false)) in H3. rewrite U_restore_mark in H3; [done| |].
    + eauto using rows_of_carriers.
    + right. by exists true.
Qed.

Lemma rollback_run block M U ops M' U' d :
  run block M U ops M' U' → live_ok (mu M) U → backing_keyed (mb M) →
  op_tables d (tok_rows (mt M')) (back_rows (mb M')) U' →
  op_tables (foldl rollback_op d (reverse ops)) (tok_rows (mt M)) (back_rows (mb M)) U
  ∧ same_frame d (foldl rollback_op d (reverse ops)).
Proof.
  intros Hrun. induction Hrun as [M U|M U op M1 ops M2 U2 Hd Hf Hrun IH]; intros Hl Hk Ht; [by split|].
  rewrite reverse_cons, foldl_app. cbn [foldl].
  destruct (IH (delta_live _ _ _ _ _ Hd Hf Hl) (delta_keyed _ _ _ Hd Hk) Ht) as [Ht1 Hs1].
  destruct (rollback_step block _ op M M1 U Hd Hf Hl Hk Ht1) as [Ht2 Hs2]. split; [done|]. by eapply same_frame_trans.
Qed.

(** ** The operations of the indexer *)
Lemma U_forward_dom block op U p :
  is_Some (U_forward block op U !! p) → is_Some (U !! p) ∨ p ∈ utxo_pair <$> op_created op.
Proof.
  assert (∀ spent created txid burned, is_Some (U_insert created (U_mark spent txid block burned U) !! p) →
    is_Some (U !! p) ∨ p ∈ utxo_pair <$> created) as H.
  { intros sp cr tx bu. destruct (decide (p ∈ utxo_pair <$> cr)) as [|Hn]; [by right|].
    rewrite lookup_U_insert_ne, lookup_U_mark by done. case_decide; rewrite ?fmap_is_Some; by left. }
  destruct op as [t|t pr cr|t tx pr sp cr|tx sp cr|tx sp]; cbn [U_forward op_created].
  - by left.
  - apply (H [] [cr] ""%string None).
  - apply H.
  - apply H.
  - apply (H sp [] tx (Some true)).
Qed.

(** Outpoints as the indexer makes them. *)
Record good_backing (b : V3Backing) : Prop := {
  gb_vout : op_vout (bk_outpoint b) = 1;
  gb_txid : bk_updatedTxid b = op_txid (bk_outpoint b);
  gb_state : safe_state (bk_state b);
}.

Record shaped (M : Maps) : Prop := {
  sh_backing : ∀ t b, mb M !! t = Some b → good_backing b;
  sh_utxo : ∀ k u, mu M !! k = Some u → 0 ≤ tu_vout u ≤ 255;
}.

Lemma safe_vout v : 0 ≤ v ≤ 255 → safe_int v.
Proof. unfold safe_int. intros. assert (256 < 2 ^ 53) by done. lia. Qed.

Lemma shaped_safe_backing M t b : shaped M → mb M !! t = Some b → safe_backing b.
Proof. intros Hs E. destruct (sh_backing _ Hs t b E) as [Hv _ ?]. split; [done|]. rewrite Hv. by apply safe_vout. Qed.

Lemma shaped_safe_utxos M us : shaped M → carriers_in (mu M) us → Forall safe_utxo us.
Proof. intros Hs Hc. eapply Forall_impl; [exact Hc|]. intros u Hu. by apply safe_vout, (sh_utxo _ Hs (utxo_key u)). Qed.

(** What a transaction may create: outputs of its own, each once. *)
Definition own_outputs (txid : string) (us : list V3TokenUtxo) : Prop :=
  Forall (λ u, tu_txid u = txid ∧ 0 ≤ tu_vout u ≤ 255) us ∧ NoDup (utxo_pair <$> us).

Lemma own_outputs_fresh (txid : string) (us : list V3TokenUtxo) (U : utxo_rows) :
  own_outputs txid us → (∀ p : string * Z, is_Some (U !! p) → p.1 ≠ txid) → Forall (λ u, U !! utxo_pair u = None) us.
Proof.
  intros [Hf _] HU. eapply Forall_impl; [exact Hf|]. intros u [Ht _]. apply eq_None_not_Some. intros H.
  by apply (HU _ H).
Qed.

(** One operation: its effect, the shape it keeps and whose outputs it creates. *)
Record good_step (txid : string) (M : Maps) (op : UndoOp) (M' : Maps) : Prop := {
  gs_delta : delta M op M';
  gs_shaped : shaped M';
  gs_safe : safe_op op;
  gs_own : own_outputs txid (op_created op);
}.

Lemma shaped_move M m' spent created txid :
  shaped M → mu m' = set_utxos created (delete_utxos spent (mu M)) → own_outputs txid created →
  (mb m' = mb M ∨ ∃ t b, mb m' = <[t := b]> (mb M) ∧ good_backing b) → shaped m'.
Proof.
  intros [Hb Hu] Em [Hf _] Hm. split.
  - intros t b. destruct Hm as [-> | (t0 & b0 & -> & ?)]; [apply Hb|].
    rewrite lookup_insert_Some. intros [[<- <-]|[_ ?]]; [done|by eapply Hb].
  - intros k u. rewrite Em. intros [[Hin _]|[Hin _]]%lookup_set_utxos_Some.
    + rewrite Forall_forall in Hf. by apply Hf.
    + rewrite lookup_delete_utxos in Hin. case_decide; [done|]. by eapply Hu.
Qed.

Lemma safe_state_at t k : 0 ≤ k ≤ MAX_LOTS → safe_state (state_at t k).
Proof.
  intros Hk. unfold safe_state, state_at, safe_int. cbn. unfold lot_stage, MAX_LOTS in *.
  assert (1000 < 2 ^ 53) by done. split_and!; [done|done|]. case_match; [done|]. to_prop.
  unfold LOT_TOKENS, TOKENS_PER_STAGE. pose proof (Z.div_pos (k * 1000) 100000). 
  assert ((k * 1000) `div` 100000 ≤ 210) by (apply Z.div_le_upper_bound; lia). lia.
Qed.

Lemma next_backing_good t t' k hash script txid block :
  0 ≤ k ≤ MAX_LOTS → good_backing (next_backing t (state_at t' k) hash script txid block).
Proof. intros. split; [done..|]. by apply safe_state_at. Qed.

Lemma valid_state_safe s : validateStateV2 s = Ok tt → safe_state s.
Proof. intros (_ & k & Hk & ->)%validateStateV2_Ok. by apply safe_state_at. Qed.

Section Steps.
Context {C : Crypto} {B : Bitcoin} {L : Locale}.
Context (config : V3IndexerConfig).

Lemma transfer_own_outputs tx l txid t block us :
  transfer_outputs tx l txid t block [] = inl us → valid_allocations l → own_outputs txid us.
Proof.
  intros (new & -> & _ & Hf)%transfer_outputs_Ok (Hd & Hv & _). cbn [app]. unfold own_outputs. split.
  - clear Hd. induction Hf as [|a u l us (H1 & H2 & _) _ IH]; [done|].
    apply Forall_cons in Hv as [[Hv _] Hvs]. constructor; [|by apply IH]. rewrite H2. by split.
  - clear Hv. induction Hf as [|a u l us (H1 & H2 & _) Hf IH]; [constructor|].
    cbn in *. apply NoDup_cons in Hd as [Hn Hd]. apply NoDup_cons. split; [|by apply IH].
    intros (v & E & Hv)%list_elem_of_fmap. apply Hn. clear IH Hn Hd.
    induction Hf as [|a' u' l us (H1' & H2' & _) Hf IH]; [by apply elem_of_nil in Hv|].
    apply elem_of_cons in Hv as [->|Hv]; [|right; by apply IH].
    apply elem_of_cons. left. unfold utxo_pair in E. injection E as _ E. congruence.
Qed.

Lemma change_own_outputs tx change c txid t block us :
  change_accepted tx change c txid t block us → own_outputs txid us.
Proof.
  intros [(_ & _ & ->)|(s & _ & _ & _ & _ & ->)]; [split; constructor|].
  split; [by apply Forall_singleton|apply NoDup_singleton].
Qed.

(** An accepted operation is one step on the maps. *)
Lemma cove_good_step st txid rawHex e block r st' :
  wf config st → distinct_inputs rawHex → shaped (maps st) → valid_envelope e → cove_accepted config st txid rawHex e block r st' →
  ∃ op, ar_undo r = Some op ∧ good_step txid (maps st) op (maps st').
Proof.
  intros Hwf Hdi Hs He Hacc. pose proof (uo_keyed _ _ (wf_utxos _ _ Hwf)) as Hk.
  destruct e; cbn [cove_accepted] in Hacc.
  - destruct Hacc as (tx & cr & tid & scr & hash & _ & _ & _ & _ & Hnew & _ & _ & _ & -> & ->).
    eexists. split; [done|]. split; [| |done|split; constructor].
    + assert (backing st !! toHex tid = None) as Hnb.
      { apply eq_None_not_Some. intros [x Hx]%(wf_tokens _ _ Hwf). congruence. }
      eapply delta_deploy; cbn; [done..|]. apply balanced_move; [constructor..|]. cbn. by rewrite Hnb.
    + eapply (shaped_move (maps st) _ [] [] txid); [done|done|split; constructor|]. right.
      do 2 eexists. split; [done|]. by apply next_backing_good.
  - destruct Hacc as (tx & meta & prior & next & gross & fee & cfee & scr & car & cr & hash & _ & Hb
      & _ & _ & Hm & _ & _ & _ & _ & _ & _ & _ & _ & _ & _ & _ & -> & ->).
    apply applyMintV2_Ok in Hm as (k & q & _ & ? & ? & ? & Es & Ea & [= -> _]).
    assert (own_outputs txid [carrier_utxo txid 2 (toHex tokenId) amount car block]) as Hown
      by (split; [by apply Forall_singleton|apply NoDup_singleton]).
    eexists. split; [done|]. split; [| | |exact Hown].
    + apply delta_mint; [done..|]. apply balanced_move; [constructor|constructor|by constructor|].
      cbn [maps mb]. rewrite Hb. cbn. rewrite Es. cbn. lia.
    + eapply (shaped_move (maps st) _ [] _ txid); [done| |exact Hown|]; [done|]. right.
      do 2 eexists. split; [done|]. apply next_backing_good. lia.
    + split; [|by apply safe_vout]. by eapply shaped_safe_backing.
  - destruct Hacc as (tx & spent & created & Htk & Htx & -> & _ & Hf & Hsum & Hcr & -> & ->).
    destruct He as (_ & _ & Hal). pose proof (transfer_own_outputs _ _ _ _ _ _ Hcr Hal) as Hown.
    pose proof (keyed_inputs _ (tx_ins tx) Hk) as Hin.
    eexists. split; [done|]. split; [| | |exact Hown].
    + apply delta_transfer; [done|]. apply (wf_tokens _ _ Hwf) in Htk as [b Hbt].
      rewrite <-(insert_id (backing st) (toHex tokenId) b Hbt) at 2. change (mb (maps st)) with (backing st).
      apply transfer_outputs_created in Hcr as (Hct & Hcs & _); [|by eapply Forall_impl; [exact (proj1 (proj2 Hal))|intros ? [? ?]]].
      unfold sum_utxos in Hsum. rewrite foldl_add_zsum in Hsum.
      apply balanced_move; [by apply pairs_NoDup, keyed_inputs_NoDup, Hdi|done|by eapply Forall_impl; [exact Hct|intros ? [? ?]]|].
      rewrite Hbt. cbn in Hsum |- *. lia.
    + eapply (shaped_move (maps st)); [done|done|exact Hown|by left].
    + split; [by apply (shaped_safe_utxos (maps st))|]. eapply Forall_impl; [exact (proj1 Hown)|].
      intros u [_ ?]. by apply safe_vout.
  - destruct Hacc as (tx & prior & spent & created & next & gross & fee & payout & scr & hash & _ & Hb
      & Htx & _ & -> & _ & Hf & _ & Hch & Hr & _ & _ & _ & _ & _ & _ & -> & ->).
    apply applyRedeemV2_Ok in Hr as (k & q & _ & ? & ? & Es & Ea & [= -> _]).
    pose proof (change_own_outputs _ _ _ _ _ _ _ Hch) as Hown.
    pose proof (keyed_inputs _ (tx_ins tx) Hk) as Hin.
    eexists. split; [done|]. split; [| | |exact Hown].
    + apply delta_redeem; [done..|]. unfold sum_utxos in Hch. rewrite foldl_add_zsum in Hch.
      assert (Forall (λ u, tu_tokenId u = toHex tokenId) created) as Hct
        by (destruct Hch as [(_ & _ & ->)|(s & _ & _ & _ & _ & ->)]; by constructor).
      apply balanced_move; [by apply pairs_NoDup, keyed_inputs_NoDup, Hdi|done|done|].
      cbn [maps mb]. rewrite Hb. cbn [issued from_option bk_state next_backing]. rewrite Es. cbn [issuedPublicSupplyAtoms state_at].
      destruct Hch as [(Hz & _ & ->)|(s & _ & _ & _ & _ & ->)]; cbn; lia.
    + eapply (shaped_move (maps st)); [done|done|exact Hown|]. right.
      do 2 eexists. split; [done|]. apply next_backing_good. lia.
    + split; [by eapply shaped_safe_backing|]. split; [by apply (shaped_safe_utxos (maps st))|].
      eapply Forall_impl; [exact (proj1 Hown)|]. intros u [_ ?]. by apply safe_vout.
Qed.

Lemma burn_good_step st txid ins m spent :
  keyed (tokenUtxos st) → shaped (maps st) → burn_inputs ins (tokenUtxos st) [] = (m, spent) →
  good_step txid (maps st) (UndoBurn txid spent) (maps (with_utxos st m)).
Proof.
  intros Hk Hs (new & E & Hin & -> & _)%burn_inputs_spec; [|done]. cbn in E. subst new. split.
  - by apply delta_burn.
  - eapply (shaped_move (maps st) _ spent [] txid); [done|done|split; constructor|by left].
  - by apply (shaped_safe_utxos (maps st)).
  - split; constructor.
Qed.

(** A run of steps of one transaction. *)
Inductive good_run (txid : string) : Maps → list UndoOp → Maps → Prop :=
  | good_nil M : good_run txid M [] M
  | good_cons M op M1 ops M2 : good_step txid M op M1 → good_run txid M1 ops M2 → good_run txid M (op :: ops) M2.

Lemma apply_tx_good st block i rawHex ops evs st' :
  wf config st → shaped (maps st) → distinct_inputs rawHex → apply_tx config st block i rawHex = Ok (ops, evs, st') →
  ∃ tx, tx_fromHex rawHex = Some tx ∧ shaped (maps st') ∧ Forall safe_op ops
  ∧ (length (filter (λ op, op_created op ≠ []) ops) ≤ 1)%nat
  ∧ good_run (getId tx) (maps st) ops (maps st').
Proof.
  intros Hwf Hs Hd (tx & st1 & ops1 & m & spent & Htx & Hop & Hb & -> & -> & _)%apply_tx_Ok.
  pose proof (wf_op_step _ _ _ _ _ _ _ Hwf Hd Hop) as Hwf1.
  exists tx. split; [done|]. destruct (foldl_record_tables evs (with_utxos st1 m)) as (Et & Eb & Eu & _).
  replace (maps (foldl record (with_utxos st1 m) evs)) with (maps (with_utxos st1 m))
    by (unfold maps; by rewrite Et, Eb, Eu).
  assert (shaped (maps st1) ∧ Forall safe_op ops1 ∧ (length ops1 ≤ 1)%nat ∧
    ∀ ops2 M2, good_run (getId tx) (maps st1) ops2 M2 → good_run (getId tx) (maps st) (ops1 ++ ops2) M2) as (Hs1 & Hsafe & Hlen & Hrun).
  { destruct Hop as [|e r st1 Hp Hacc]; [split_and!; try done; cbn; lia|]. apply parseCoveTx_Cove in Hp.
    destruct (cove_good_step _ _ _ _ _ _ _ Hwf Hd Hs Hp Hacc) as (op & Eu' & Hg). rewrite Eu'. cbn [option_list].
    split_and!; [by destruct Hg|by apply Forall_singleton; destruct Hg|cbn; lia|]. intros. by econstructor. }
  pose proof (burn_good_step st1 (getId tx) (tx_ins tx) m spent (uo_keyed _ _ (wf_utxos _ _ Hwf1)) Hs1 Hb) as Hg.
  assert (length (filter (λ op, op_created op ≠ []) ops1) ≤ 1)%nat as Hl1
    by (pose proof (length_filter (λ op, op_created op ≠ []) ops1); lia).
  unfold burn_undo. destruct spent as [|u us]; cbn [length Nat.ltb Nat.leb].
  - assert (m = tokenUtxos st1) as -> by (apply burn_inputs_spec in Hb as (new & E & _ & -> & _);
      [cbn in E; by subst|apply (uo_keyed _ _ (wf_utxos _ _ Hwf1))]).
    unfold with_utxos. rewrite with_tables_id, app_nil_r. split_and!; [done..|].
    rewrite <-(app_nil_r ops1). apply Hrun. constructor.
  - split_and!; [by destruct Hg| | |].
    + apply Forall_app. split; [done|]. apply Forall_singleton. by destruct Hg.
    + rewrite filter_app, length_app, filter_cons_False by (intros H; by apply H). rewrite filter_nil. cbn [length]. lia.
    + apply Hrun. econstructor; [done|constructor].
Qed.
(** A transaction whose outputs have no rows runs on the rows. *)
Lemma good_run_fresh txid block M ops M' U :
  good_run txid M ops M' →
  (length (filter (λ op, op_created op ≠ []) ops) = 0%nat
   ∨ (length (filter (λ op, op_created op ≠ []) ops) ≤ 1)%nat ∧ ∀ p, is_Some (U !! p) → p.1 ≠ txid) →
  ∃ U', run block M U ops M' U' ∧ ∀ p, is_Some (U' !! p) → is_Some (U !! p) ∨ p.1 = txid.
Proof.
  intros Hrun. revert U. induction Hrun as [M|M op M1 ops M2 [Hd _ _ Hown] Hrun IH]; intros U Hc.
  { exists U. split; [constructor|auto]. }
  rewrite filter_cons in Hc. destruct (decide (op_created op ≠ [])) as [Hne|He].
  - destruct Hc as [Hc|[Hc HU]]; cbn [length] in Hc; [lia|].
    destruct (IH (U_forward block op U)) as (U' & Hr & Hdom); [left; lia|].
    exists U'. split.
    + econstructor; [done| |done]. split; [apply Hown|]. by eapply own_outputs_fresh.
    + intros p [[Hp|Hp]%U_forward_dom|?]%Hdom; [by left| |by right]. right.
      apply list_elem_of_fmap in Hp as (u & -> & Hu). destruct Hown as [Hf _]. rewrite Forall_forall in Hf.
      by apply Hf.
  - apply dec_stable in He.
    assert (∀ p, is_Some (U_forward block op U !! p) → is_Some (U !! p)) as HU'.
    { intros p [?|Hp]%U_forward_dom; [done|]. rewrite He in Hp. by apply elem_of_nil in Hp. }
    destruct (IH (U_forward block op U)) as (U' & Hr & Hdom); [naive_solver|].
    exists U'. split.
    + econstructor; [done| |done]. unfold fresh_created. rewrite He. split; constructor.
    + intros p [?|?]%Hdom; auto.
Qed.

Definition txids (txs : list string) : list string := omap (λ raw, getId <$> tx_fromHex raw) txs.

(** The transactions of a block, none of whose outputs has a row yet. *)
Lemma apply_txs_run txs st block i ops evs st' ops' evs' U :
  wf config st → shaped (maps st) → Forall distinct_inputs txs → NoDup (txids txs) →
  (∀ p, is_Some (U !! p) → p.1 ∉ txids txs) →
  apply_txs config st block i txs ops evs = (st', Ok (ops', evs')) →
  ∃ new U', ops' = ops ++ new ∧ run block (maps st) U new (maps st') U'
  ∧ shaped (maps st') ∧ Forall safe_op new
  ∧ ∀ p, is_Some (U' !! p) → is_Some (U !! p) ∨ p.1 ∈ txids txs.
Proof.
  revert st i ops evs U. induction txs as [|raw txs IH]; intros st i ops evs U Hwf Hs Hd Hnd HU; cbn [apply_txs].
  { intros [= <- <- _]. exists [], U. rewrite app_nil_r. split_and!; [done|constructor|done|constructor|auto]. }
  apply Forall_cons in Hd as [Hd Hds].
  destruct (apply_tx config st block i raw) as [[[ops1 evs1] st1]|e] eqn:E; [|done].
  pose proof (wf_apply_tx _ _ _ _ _ _ _ _ Hwf Hd E) as Hwf1.
  apply apply_tx_good in E as (tx & Htx & Hs1 & Hsafe & Hl & Hrun); [|done..].
  unfold txids in Hnd, HU. cbn [omap list_omap] in Hnd, HU. rewrite Htx in Hnd, HU. cbn [fmap option_fmap option_map] in Hnd, HU.
  apply NoDup_cons in Hnd as [Hni Hnd].
  destruct (good_run_fresh (getId tx) block _ _ _ U Hrun) as (U1 & Hr1 & Hdom1).
  { right. split; [done|]. intros p Hp. specialize (HU p Hp). set_solver. }
  intros (new & U' & -> & Hr & Hs' & Hsafe' & Hdom)%(IH _ _ _ _ U1); [|done..|].
  - exists (ops1 ++ new), U'. rewrite app_assoc. split_and!; [done|by eapply run_app|done|by apply Forall_app|].
    intros p [[?|Ep]%Hdom1|?]%Hdom; [by left|right|right]; unfold txids; cbn [omap list_omap]; rewrite Htx; cbn; set_solver.
  - intros p [Hp|Ep]%Hdom1; [specialize (HU p Hp); set_solver|by rewrite Ep].
Qed.
End Steps.
