(* ===== verification/Hydrate.v ===== *)
(** * Reading the tables back: packages/cove-indexer/src/v3

    [hydrate.ts] rebuilds the state from the tables and fails on tables no
    state projects to; [snapshot.ts] is the view of one token the Guardian
    reads; [read-models.ts] and [read-models-db.ts] are the balances and
    holders of the API; [health.ts] the health gate. *)
From S2P Require Import Prelude Bytes Covenant Vault Json Undo Indexer Store.

(** The order in which a SELECT without ORDER BY returns its rows. *)
Class Postgres := {
  select_order {A : Type} : list A → list A;
  select_order_perm {A : Type} (l : list A) : select_order l ≡ₚ l;
}.

(** [db.select().from(t).where(p)] *)
Definition select {PG : Postgres} {A} (p : A → bool) (l : list A) : list A :=
  select_order (List.filter p l).

(** [isNull(spentByTxid)] and the canonical flag *)
Definition live_row (r : UtxoRow) : bool := ur_canonical r && bool_decide (ur_spentByTxid r = None).

(** ** The objects of rows *)
Definition meta_of_row (t : TokenRow) : V3TokenMeta :=
  {| tm_tokenId := tr_tokenId t; tm_ticker := tr_ticker t; tm_policyVersion := tr_policyVersion t;
     tm_tokenNonce := tr_nonce t; tm_deployTxid := tr_deployTxid t; tm_deployHeight := tr_deployHeight t;
     tm_deployBlockHash := tr_deployBlockHash t; tm_creatorScript := tr_creatorScript t |}.

Definition state_of_row (b : BackingRow) : CoveStateV2 :=
  {| stateVersion := kr_stateVersion b; policyVersionV2 := kr_policyVersion b; tokenIdV2 := kr_tokenId b;
     issuedPublicSupplyAtoms := kr_issuedSupplyAtoms b; backingSats := kr_backingSats b;
     curveStageV2 := kr_curveStage b |}.

Definition backing_of_row (b : BackingRow) : V3Backing :=
  {| bk_tokenId := kr_tokenId b; bk_state := state_of_row b; bk_stateHash := kr_stateHash b;
     bk_outpoint := {| op_txid := kr_txid b; op_vout := kr_vout b |}; bk_scriptPubKey := kr_scriptPubKey b;
     bk_btcValue := kr_btcValue b; bk_updatedTxid := kr_txid b; bk_updatedHeight := kr_blockHeight b;
     bk_updatedBlockHash := kr_blockHash b |}.

Definition utxo_of_row (u : UtxoRow) : V3TokenUtxo :=
  {| tu_txid := ur_txid u; tu_vout := ur_vout u; tu_tokenId := ur_tokenId u; tu_amountAtoms := ur_amountAtoms u;
     tu_scriptPubKey := ur_scriptPubKey u; tu_createdHeight := ur_createdHeight u;
     tu_createdBlockHash := ur_createdBlockHash u |}.

(** The trade of an event is not read back. *)
Definition event_of_row (e : EventRow) : V3Event :=
  {| ev_txid := er_txid e; ev_blockHeight := er_blockHeight e; ev_blockHash := er_blockHash e;
     ev_txIndex := er_txIndex e; ev_operation := er_operation e; ev_valid := er_valid e;
     ev_reason := er_reason e; ev_tokenId := er_tokenId e; ev_curve := None |}.

(** ** hydrate.ts *)
Definition hydration_failed (msg : string) : exn := js_error ("HYDRATION_FAILED: " +:+ msg).

Fixpoint hydrate_tokens (rows : list TokenRow) (m : gmap string V3TokenMeta) : result (gmap string V3TokenMeta) :=
  match rows with
  | [] => Ok m
  | t :: rows =>
      throw_if (bool_decide (is_Some (m !! tr_tokenId t))) (hydration_failed ("duplicate tokenId " +:+ tr_tokenId t));;
      hydrate_tokens rows (<[tr_tokenId t := meta_of_row t]> m)
  end.

Fixpoint hydrate_backings (ts : gmap string V3TokenMeta) (rows : list BackingRow) (m : gmap string V3Backing)
    : result (gmap string V3Backing) :=
  match rows with
  | [] => Ok m
  | b :: rows =>
      throw_if (negb (bool_decide (is_Some (ts !! kr_tokenId b))))
        (hydration_failed ("backing without token " +:+ kr_tokenId b));;
      try_catch (validateStateV2 (state_of_row b))
        (λ e, Throw (hydration_failed ("backing R(s) mismatch for " +:+ kr_tokenId b +:+ ": " +:+ exn_message e)));;
      throw_if (bool_decide (is_Some (m !! kr_tokenId b))) (hydration_failed ("duplicate backing " +:+ kr_tokenId b));;
      hydrate_backings ts rows (<[kr_tokenId b := backing_of_row b]> m)
  end.

(** [for (const t of state.tokens.keys())]: in the order of the rows. *)
Fixpoint require_backings (rows : list TokenRow) (m : gmap string V3Backing) : result unit :=
  match rows with
  | [] => Ok tt
  | t :: rows =>
      throw_if (negb (bool_decide (is_Some (m !! tr_tokenId t))))
        (hydration_failed ("missing backing for token " +:+ tr_tokenId t));;
      require_backings rows m
  end.

Fixpoint hydrate_utxos (ts : gmap string V3TokenMeta) (rows : list UtxoRow) (m : gmap string V3TokenUtxo)
    : result (gmap string V3TokenUtxo) :=
  match rows with
  | [] => Ok m
  | u :: rows =>
      let key := outpointKey (ur_txid u) (ur_vout u) in
      throw_if (bool_decide (is_Some (m !! key))) (hydration_failed ("duplicate outpoint " +:+ key));;
      throw_if (negb (bool_decide (is_Some (ts !! ur_tokenId u))))
        (hydration_failed ("utxo for unknown token " +:+ ur_tokenId u));;
      hydrate_utxos ts rows (<[key := utxo_of_row u]> m)
  end.

(** A journal that passes [decodeUndo] and yet is no [BlockUndo]: the source
    puts it into the map as it is; the model stops there. *)
Definition untyped_undo : exn := Exn EFuel None "an undo journal outside its type".

Fixpoint hydrate_undos (rows : list UndoRow) (m : gmap Z BlockUndo) : result (gmap Z BlockUndo) :=
  match rows with
  | [] => Ok m
  | u :: rows =>
      v ← decodeUndo (nr_undoJson u);
      decoded ← of_option untyped_undo (undo_of_value v);
      hydrate_undos rows (<[bu_height decoded := decoded]> m)
  end.

Definition hydrate_cursor (network : V3Network) (rows : list CursorRow) (initial : V3Cursor) : result V3Cursor :=
  match rows with
  | [] => Ok initial
  | [c] =>
      throw_if (negb (is_hex64 (cr_blockHash c)) && negb (cr_height c =? 0))
        (hydration_failed "malformed cursor blockHash");;
      Ok {| cur_network := network; cur_height := cr_height c; cur_blockHash := cr_blockHash c;
            cur_stateRoot := cr_stateRoot c |}
  | _ => Throw (hydration_failed "multiple cursors")
  end.

Section Hydrate.
Context {C : Crypto} {L : Locale} {PG : Postgres}.

Definition hydrateState (d : V3Db) (network : V3Network) (config : V3IndexerConfig) : result V3IndexerState :=
  let st := new_state config in
  let trows := select tr_canonical (coveV3Tokens d) in
  ts ← hydrate_tokens trows ∅;
  bs ← hydrate_backings ts (select kr_canonical (coveV3BackingStates d)) ∅;
  require_backings trows bs;;
  us ← hydrate_utxos ts (select live_row (coveV3TokenUtxos d)) ∅;
  let evs := event_of_row <$> select er_canonical (coveV3Events d) in
  undos ← hydrate_undos (select (λ _, true) (coveV3Undo d)) ∅;
  cur ← hydrate_cursor network (select (λ _, true) (coveV3Cursor d)) (cursor st);
  Ok {| tokens := ts; backing := bs; tokenUtxos := us; events := evs; undoByHeight := undos; cursor := cur |}.

Definition computeStateRootFromDb (d : V3Db) (network : V3Network) (config : V3IndexerConfig) : result string :=
  st ← hydrateState d network config; Ok (stateRoot st).

(** ** health.ts *)
Inductive IndexerHealth := HEALTHY | BEHIND | REBUILDING | DIVERGED | CORE_UNREACHABLE.

Record HealthReport := {
  hr_health : IndexerHealth; hr_cursorHeight : Z; hr_cursorBlockHash : string; hr_coreHeight : Z;
  hr_coreBlockHashAtCursor : option string; hr_lag : Z; hr_stateRoot : string; hr_rebuilding : bool;
}.

Definition computeHealth (d : V3Db) (provider : CoreRpcProvider) : HealthReport :=
  match head (select (λ _, true) (coveV3Cursor d)) with
  | None =>
      {| hr_health := REBUILDING; hr_cursorHeight := 0; hr_cursorBlockHash := ""; hr_coreHeight := 0;
         hr_coreBlockHashAtCursor := None; hr_lag := 0; hr_stateRoot := ""; hr_rebuilding := true |}
  | Some c =>
      match (blocks ← getBlockchainInfo provider;
             if 0 <? cr_height c then hash ← getBlockHash provider (cr_height c); Ok (blocks, Some hash)
             else Ok (blocks, None)) with
      | Throw _ =>
          {| hr_health := CORE_UNREACHABLE; hr_cursorHeight := cr_height c; hr_cursorBlockHash := cr_blockHash c;
             hr_coreHeight := 0; hr_coreBlockHashAtCursor := None; hr_lag := 0; hr_stateRoot := cr_stateRoot c;
             hr_rebuilding := cr_rebuilding c |}
      | Ok (coreHeight, coreHash) =>
          let lag := coreHeight - cr_height c in
          {| hr_health :=
               if cr_rebuilding c then REBUILDING
               else if match coreHash with Some h => negb (String.eqb h (cr_blockHash c)) | None => false end
               then DIVERGED
               else if 2 <? lag then BEHIND else HEALTHY;
             hr_cursorHeight := cr_height c; hr_cursorBlockHash := cr_blockHash c; hr_coreHeight := coreHeight;
             hr_coreBlockHashAtCursor := coreHash; hr_lag := lag; hr_stateRoot := cr_stateRoot c;
             hr_rebuilding := cr_rebuilding c |}
      end
  end.
End Hydrate.

(** ** read-models.ts *)
Definition balanceByScript (us : list V3TokenUtxo) (tokenId scriptPubKey : string) : Z :=
  foldl (λ sum u, if String.eqb (tu_tokenId u) tokenId && String.eqb (tu_scriptPubKey u) scriptPubKey
                  then sum + tu_amountAtoms u else sum) 0 us.

Definition tokenUtxosByScript (us : list V3TokenUtxo) (scriptPubKey : string) : list V3TokenUtxo :=
  List.filter (λ u, String.eqb (tu_scriptPubKey u) scriptPubKey) us.

(** [m.set(k, (m.get(k) ?? 0n) + a)] on a [Map] in insertion order. *)
Fixpoint holder_add (m : list (string * Z)) (script : string) (a : Z) : list (string * Z) :=
  match m with
  | [] => [(script, 0 + a)]
  | (s, x) :: m => if String.eqb s script then (s, x + a) :: m else (s, x) :: holder_add m script a
  end.

Definition tokenHolders (us : list V3TokenUtxo) (tokenId : string) : list (string * Z) :=
  foldl (λ m u, if String.eqb (tu_tokenId u) tokenId then holder_add m (tu_scriptPubKey u) (tu_amountAtoms u) else m)
    [] us.

Record TokenDetail := {
  td_tokenId : string; td_ticker : string; td_deployTxid : string; td_policyVersion : Z;
  td_issuedSupplyAtoms : Z; td_publicCapAtoms : Z; td_backingSats : Z; td_backingOutpoint : OutPoint;
  td_backingStateHash : string; td_curveStage : Z; td_holderCount : Z; td_tokenUtxoCount : Z; td_deployHeight : Z;
}.

Definition currentBacking (token : V3TokenMeta) (b : V3Backing) (us : list V3TokenUtxo) (publicCapAtoms : Z)
    : TokenDetail :=
  {| td_tokenId := tm_tokenId token; td_ticker := tm_ticker token; td_deployTxid := tm_deployTxid token;
     td_policyVersion := tm_policyVersion token; td_issuedSupplyAtoms := issuedPublicSupplyAtoms (bk_state b);
     td_publicCapAtoms := publicCapAtoms; td_backingSats := backingSats (bk_state b);
     td_backingOutpoint := bk_outpoint b; td_backingStateHash := bk_stateHash b;
     td_curveStage := curveStageV2 (bk_state b);
     td_holderCount := Z.of_nat (length (tokenHolders us (tm_tokenId token)));
     td_tokenUtxoCount := Z.of_nat (length (List.filter (λ u, String.eqb (tu_tokenId u) (tm_tokenId token)) us));
     td_deployHeight := tm_deployHeight token |}.

Definition tokenActivity (events : list V3Event) (tokenId : string) : list V3Event :=
  List.filter (λ e, bool_decide (ev_tokenId e = Some tokenId) && bool_decide (is_Some (ev_operation e))) events.

(** [orderBy(desc(blockHeight), desc(txIndex))] *)
Definition newer (a b : EventRow) : Prop :=
  er_blockHeight b < er_blockHeight a ∨ er_blockHeight a = er_blockHeight b ∧ er_txIndex b ≤ er_txIndex a.
#[export] Instance newer_dec : RelDecision newer.
Proof. unfold RelDecision, newer. intros. apply _. Defined.

(** ** read-models-db.ts *)
Section ReadModels.
Context {PG : Postgres}.

Definition getTokenUtxosByScriptDb (d : V3Db) (scriptPubKey : string) : list UtxoRow :=
  select (λ r, String.eqb (ur_scriptPubKey r) scriptPubKey && live_row r) (coveV3TokenUtxos d).

Definition getLiveTokenUtxosAtDb (d : V3Db) (outpoints : list (string * Z)) : list UtxoRow :=
  match outpoints with
  | [] => []
  | _ => select (λ r, live_row r && existsb (λ o, String.eqb (ur_txid r) o.1 && (ur_vout r =? o.2)) outpoints)
           (coveV3TokenUtxos d)
  end.

Definition getBalanceByScriptDb (d : V3Db) (tokenId scriptPubKey : string) : Z :=
  foldl (λ s r, s + ur_amountAtoms r) 0
    (select (λ r, String.eqb (ur_tokenId r) tokenId && String.eqb (ur_scriptPubKey r) scriptPubKey && live_row r)
       (coveV3TokenUtxos d)).

Definition token_utxo_rows (d : V3Db) (tokenId : string) : list UtxoRow :=
  select (λ r, String.eqb (ur_tokenId r) tokenId && live_row r) (coveV3TokenUtxos d).

Definition getTokenHoldersDb (d : V3Db) (tokenId : string) : list (string * Z) :=
  tokenHolders (utxo_of_row <$> token_utxo_rows d tokenId) tokenId.

Definition getCurrentBackingDb (d : V3Db) (tokenId : string) : list BackingRow :=
  select (λ b, String.eqb (kr_tokenId b) tokenId && kr_canonical b) (coveV3BackingStates d).

Definition token_rows (d : V3Db) (tokenId : string) : list TokenRow :=
  select (λ t, String.eqb (tr_tokenId t) tokenId && tr_canonical t) (coveV3Tokens d).

Definition getTokenDetailDb (d : V3Db) (tokenId : string) (publicCapAtoms : Z) : option TokenDetail :=
  match token_rows d tokenId, getCurrentBackingDb d tokenId with
  | t :: _, b :: _ =>
      Some (currentBacking (meta_of_row t) (backing_of_row b) (utxo_of_row <$> token_utxo_rows d tokenId)
              publicCapAtoms)
  | _, _ => None
  end.

Definition getTokenActivityDb (d : V3Db) (tokenId : string) (limit : nat) : list EventRow :=
  take limit (merge_sort newer
    (select (λ e, bool_decide (er_tokenId e = Some tokenId) && er_canonical e) (coveV3Events d))).

(** ** snapshot.ts *)
Record DbSnapshot := {
  ds_tokenId : string;
  ds_cursorHeight : Z; ds_cursorBlockHash : string; ds_stateRoot : string; ds_rebuilding : bool;
  ds_backingByOutpoint : gmap string CoveStateV2;
  ds_currentBacking : option CoveStateV2;
  ds_currentOutpoint : option OutPoint;
  ds_utxoByOutpoint : gmap string TokenUtxo;
  ds_token : option TokenRow;
}.

Definition opKey (o : OutPoint) : string := outpointKey (op_txid o) (op_vout o).

Definition row_outpoint (b : BackingRow) : OutPoint := {| op_txid := kr_txid b; op_vout := kr_vout b |}.

Definition snapshot_utxo (u : UtxoRow) : TokenUtxo :=
  {| vu_outpoint := {| op_txid := ur_txid u; op_vout := ur_vout u |}; vu_tokenId := fromHex (ur_tokenId u);
     vu_amountAtoms := ur_amountAtoms u; vu_scriptPubKey := fromHex (ur_scriptPubKey u) |}.

(** [wanted.size > 0 && !wanted.has(key)]: skipped. *)
Definition wanted (relevantOutpoints : list OutPoint) (u : UtxoRow) : bool :=
  match relevantOutpoints with
  | [] => true
  | _ => existsb (λ o, String.eqb (opKey o) (outpointKey (ur_txid u) (ur_vout u))) relevantOutpoints
  end.

Definition loadCanonicalViewSnapshotFromDb (d : V3Db) (tokenId : string) (relevantOutpoints : list OutPoint)
    : DbSnapshot :=
  let cur := head (select (λ _, true) (coveV3Cursor d)) in
  let backings := getCurrentBackingDb d tokenId in
  let utxos := token_utxo_rows d tokenId in
  {| ds_tokenId := tokenId;
     ds_cursorHeight := default 0 (cr_height <$> cur);
     ds_cursorBlockHash := default ""%string (cr_blockHash <$> cur);
     ds_stateRoot := default ""%string (cr_stateRoot <$> cur);
     ds_rebuilding := default false (cr_rebuilding <$> cur);
     ds_backingByOutpoint :=
       foldl (λ m b, <[opKey (row_outpoint b) := state_of_row b]> m) ∅ backings;
     ds_currentBacking := state_of_row <$> last backings;
     ds_currentOutpoint := row_outpoint <$> last backings;
     ds_utxoByOutpoint :=
       foldl (λ m u, if wanted relevantOutpoints u
                     then <[outpointKey (ur_txid u) (ur_vout u) := snapshot_utxo u]> m else m) ∅ utxos;
     ds_token := head (token_rows d tokenId) |}.
End ReadModels.

(** The functions of a snapshot. *)
Definition snap_getBackingStateByOutpoint (s : DbSnapshot) (o : OutPoint) : option CoveStateV2 :=
  match ds_backingByOutpoint s !! opKey o, ds_currentBacking s with
  | Some st, Some _ => if String.eqb (tokenIdV2 st) (ds_tokenId s) then Some st else None
  | _, _ => None
  end.
Definition snap_getCurrentBackingState (s : DbSnapshot) (tokenId : list byte) : option CoveStateV2 :=
  if String.eqb (toHex tokenId) (ds_tokenId s) then ds_currentBacking s else None.
Definition snap_getBackingOutpoint (s : DbSnapshot) (tokenId : list byte) : option OutPoint :=
  if String.eqb (toHex tokenId) (ds_tokenId s) then ds_currentOutpoint s else None.
Definition snap_getTokenUtxo (s : DbSnapshot) (o : OutPoint) : option TokenUtxo :=
  ds_utxoByOutpoint s !! opKey o.
Definition snap_getTokenCreatorScript (s : DbSnapshot) (tokenId : list byte) : option (list byte) :=
  match tr_creatorScript <$> ds_token s with
  | None | Some EmptyString => None
  | Some c => if String.eqb (toHex tokenId) (ds_tokenId s) then Some (fromHex c) else None
  end.
