(* ===== verification/Persistent.v ===== *)
(** * The persistent worker: packages/cove-indexer/src/v3

    [persistent.ts] applies every block to a clone of the state, writes it in
    one database transaction and adopts the clone after the commit;
    [verify.ts] checks the state against Bitcoin Core; [reindex.ts] rebuilds
    the tables.  A transaction whose body throws, or whose commit fails, leaves
    the tables as they were; when a commit fails is a parameter. *)
From S2P Require Import Prelude Bytes Curve Economics Wire Covenant Vault Json Undo Indexer Store Hydrate.

(** ** Transactions *)
Record Connection := {
  (** why the commit of these tables fails, if it does *)
  commit_error : V3Db → option exn;
}.

(** [db.transaction(body)]: the tables after it. *)
Definition transaction (db : Connection) (d : V3Db) (body : V3Db → result V3Db) : V3Db * result unit :=
  match body d with
  | Throw e => (d, Throw e)
  | Ok d' => match commit_error db d' with Some e => (d, Throw e) | None => (d', Ok tt) end
  end.

Section Worker.
Context {C : Crypto} {B : Bitcoin} {L : Locale} {PG : Postgres}.
Context (config : V3IndexerConfig) (db : Connection).

(** The tables and the state in memory. *)
Notation world := (V3Db * V3IndexerState)%type.

Definition events_at (st : V3IndexerState) (h : Z) : list V3Event := filter (λ e, ev_blockHeight e = h) (events st).

(** A block applied to a clone, written, and adopted after the commit. *)
Definition index_block (w : world) (input : V3BlockInput) (rebuilding : bool) : world * result unit :=
  let '(d, st) := w in
  match applyBlock config st input with
  | (_, Throw e) => (w, Throw e)
  | (staged, Ok _) =>
      match transaction db d (λ d,
        undo ← of_option undefined_read (undoByHeight staged !! blk_height input);
        persistBlock staged input (events_at staged (blk_height input)) undo rebuilding d) with
      | (d, Throw e) => ((d, st), Throw e)
      | (d, Ok _) => ((d, staged), Ok tt)
      end
  end.

Definition fetch_block (provider : CoreRpcProvider) (h : Z) (hash : string) : result V3BlockInput :=
  block ← getBlock provider hash;
  Ok {| blk_height := h; blk_hash := cb_hash block; blk_parentHash := cb_previousBlockHash block;
        blk_txs := cb_rawTxs block |}.

(** [state.undoByHeight.get(h)?.blockHash === hash] *)
Definition already_indexed (st : V3IndexerState) (h : Z) (hash : string) : bool :=
  bool_decide (bu_blockHash <$> undoByHeight st !! h = Some hash).

(** [n] rounds of the worker from height [h]. *)
Fixpoint worker_loop (n : nat) (provider : CoreRpcProvider) (rebuilding : bool) (w : world) (h indexed : Z)
    : world * result Z :=
  match n with
  | O => (w, Ok indexed)
  | S n =>
      match getBlockHash provider h with
      | Throw e => (w, Throw e)
      | Ok hash =>
          if already_indexed w.2 h hash then worker_loop n provider rebuilding w (h + 1) indexed
          else match fetch_block provider h hash with
               | Throw e => (w, Throw e)
               | Ok input =>
                   match index_block w input rebuilding with
                   | (w, Throw e) => (w, Throw e)
                   | (w, Ok _) => worker_loop n provider rebuilding w (h + 1) (indexed + 1)
                   end
               end
      end
  end.

Record WorkerReport := { wr_indexed : Z; wr_finalHeight : Z; wr_stateRoot : string }.

Definition worker_start (st : V3IndexerState) : Z :=
  if cfg_genesisHeight config <? cur_height (cursor st) + 1 then cur_height (cursor st) + 1
  else cfg_genesisHeight config.

Definition persistentWorker (provider : CoreRpcProvider) (rebuilding : bool) (w : world)
    : world * result WorkerReport :=
  match getBlockchainInfo provider with
  | Throw e => (w, Throw e)
  | Ok tip =>
      let start := worker_start w.2 in
      match worker_loop (rounds start tip) provider rebuilding w start 0 with
      | (w, Throw e) => (w, Throw e)
      | (w, Ok indexed) =>
          (w, Ok {| wr_indexed := indexed; wr_finalHeight := cur_height (cursor w.2);
                    wr_stateRoot := stateRoot w.2 |})
      end
  end.

(** ** reorgPersistentToTip *)

(** The walk back to the highest block both chains have, no lower than [floor]. *)
Fixpoint walk_back_to (fuel : nat) (provider : CoreRpcProvider) (st : V3IndexerState) (floor ancestor : Z)
    : result Z :=
  if floor <? ancestor then
    match fuel with
    | O => Throw out_of_fuel
    | S fuel =>
        coreHash ← getBlockHash provider ancestor;
        if already_indexed st ancestor coreHash then Ok ancestor
        else walk_back_to fuel provider st floor (ancestor - 1)
    end
  else Ok ancestor.

(** A block undone on a clone, taken back in the tables, and adopted. *)
Definition unindex_block (w : world) (h : Z) : world * result unit :=
  let '(d, st) := w in
  match undoByHeight st !! h, undoBlock config st h with
  | Some undo, Ok staged =>
      match transaction db d (λ d, Ok (rollback undo (cursor staged) d)) with
      | (d, Throw e) => ((d, st), Throw e)
      | (d, Ok _) => ((d, staged), Ok tt)
      end
  | _, Throw e => (w, Throw e)
  | None, Ok _ => (w, Throw undefined_read)
  end.

Fixpoint unindex_down (n : nat) (w : world) (h : Z) (orphaned : list Z) : world * result (list Z) :=
  match n with
  | O => (w, Ok orphaned)
  | S n =>
      match unindex_block w h with
      | (w, Throw e) => (w, Throw e)
      | (w, Ok _) => unindex_down n w (h - 1) (orphaned ++ [h])
      end
  end.

Fixpoint index_up (n : nat) (provider : CoreRpcProvider) (w : world) (h : Z) (replayed : list Z)
    : world * result (list Z) :=
  match n with
  | O => (w, Ok replayed)
  | S n =>
      match (hash ← getBlockHash provider h; fetch_block provider h hash) with
      | Throw e => (w, Throw e)
      | Ok input =>
          match index_block w input false with
          | (w, Throw e) => (w, Throw e)
          | (w, Ok _) => index_up n provider w (h + 1) (replayed ++ [h])
          end
      end
  end.

Definition reorg_floor : Z := if 0 <? cfg_genesisHeight config then cfg_genesisHeight config - 1 else 0.

Definition reorgPersistentToTip (provider : CoreRpcProvider) (w : world) : world * result ReorgReport :=
  match getBlockchainInfo provider with
  | Throw e => (w, Throw e)
  | Ok tipHeight =>
      let height := cur_height (cursor w.2) in
      let ancestor := if tipHeight <? height then tipHeight else height in
      let ancestor := if ancestor <? reorg_floor then reorg_floor else ancestor in
      match walk_back_to (Z.to_nat (ancestor - reorg_floor)) provider w.2 reorg_floor ancestor with
      | Throw e => (w, Throw e)
      | Ok ancestor =>
          match unindex_down (rounds (ancestor + 1) height) w height [] with
          | (w, Throw e) => (w, Throw e)
          | (w, Ok orphaned) =>
              match index_up (rounds (ancestor + 1) tipHeight) provider w (ancestor + 1) [] with
              | (w, Throw e) => (w, Throw e)
              | (w, Ok replayed) =>
                  (w, Ok {| commonAncestor := ancestor; orphanedBlocks := orphaned;
                            replayedBlocks := replayed; finalRoot := stateRoot w.2 |})
              end
          end
      end
  end.

(** ** verify.ts *)

(** [provider.getPrevout(txid, vout)]: the unspent output, if there is one. *)
Record Prevout := { pv_valueSats : Z; pv_scriptPubKeyHex : string }.
Definition PrevoutLookup : Type := string → Z → result (option Prevout).

(** [{ ok: true }], or why not. *)
Definition VerifyResult : Type := option string.

(** The network of the vaults quickVerify derives. *)
Definition verify_network : btc_network := bitcoinNetwork config.

Definition verify_backing (getPrevout : PrevoutLookup) (b : V3Backing) : result VerifyResult :=
  prevout ← getPrevout (op_txid (bk_outpoint b)) (op_vout (bk_outpoint b));
  match prevout with
  | None =>
      Ok (Some ("backing outpoint not unspent: " +:+ outpointKey (op_txid (bk_outpoint b)) (op_vout (bk_outpoint b))))
  | Some p =>
      if negb (pv_valueSats p =? bk_btcValue b) then
        Ok (Some ("backing value mismatch for " +:+ bk_tokenId b +:+ ": core=" +:+ pretty (pv_valueSats p)
                  +:+ " db=" +:+ pretty (bk_btcValue b)))
      else if negb (String.eqb (pv_scriptPubKeyHex p) (bk_scriptPubKey b)) then
        Ok (Some ("backing script mismatch for " +:+ bk_tokenId b))
      else
        vault ← buildBackingVaultV3 (bk_state b) (cfg_guardianXOnly config) (cfg_recoveryKeyXOnly config) None
                  (Some verify_network);
        if negb (String.eqb (toHex (v3_scriptPubKey vault)) (bk_scriptPubKey b)) then
          Ok (Some ("backing script != derived V3 vault for " +:+ bk_tokenId b))
        else if negb (bk_btcValue b =? INDEXER_RESERVE_ANCHOR_SATS + backingSats (bk_state b)) then
          Ok (Some ("backing value != anchor + R(supply) for " +:+ bk_tokenId b))
        else Ok None
  end.

(** The first reason a loop returns with. *)
Fixpoint verify_each {A} (f : A → result VerifyResult) (l : list A) : result VerifyResult :=
  match l with
  | [] => Ok None
  | x :: l => r ← f x; match r with Some reason => Ok (Some reason) | None => verify_each f l end
  end.

Fixpoint verify_utxos (ts : gmap string V3TokenMeta) (us : list V3TokenUtxo) (seen : gset string) : VerifyResult :=
  match us with
  | [] => None
  | u :: us =>
      let key := utxo_key u in
      if tu_amountAtoms u <=? 0 then Some ("non-positive token amount " +:+ key)
      else if negb (bool_decide (is_Some (ts !! tu_tokenId u))) then Some ("utxo for unknown token " +:+ tu_tokenId u)
      else if bool_decide (key ∈ seen) then Some ("duplicate outpoint " +:+ key)
      else verify_utxos ts us ({[key]} ∪ seen)
  end.

(** Core's hash at the cursor, if it is another one; nothing is compared at
    height 0. *)
Definition cursor_mismatch (st : V3IndexerState) (provider : CoreRpcProvider) : result (option string) :=
  if 0 <? cur_height (cursor st) then
    coreHash ← getBlockHash provider (cur_height (cursor st));
    Ok (if String.eqb coreHash (cur_blockHash (cursor st)) then None else Some coreHash)
  else Ok None.

Definition root_mismatch (st : V3IndexerState) : string :=
  "db root " +:+ stateRoot st +:+ " != cursor root " +:+ cur_stateRoot (cursor st).

Definition quickVerify (st : V3IndexerState) (provider : CoreRpcProvider) (getPrevout : PrevoutLookup)
    : result VerifyResult :=
  mismatch ← cursor_mismatch st provider;
  match mismatch with
  | Some coreHash =>
      Ok (Some ("cursor hash mismatch: db=" +:+ cur_blockHash (cursor st) +:+ " core=" +:+ coreHash))
  | None =>
    r ← verify_each (verify_backing getPrevout) (map_to_list (backing st)).*2;
    match r with
    | Some reason => Ok (Some reason)
    | None =>
        if (0 <? cur_height (cursor st)) && negb (String.eqb (stateRoot st) (cur_stateRoot (cursor st)))
        then Ok (Some (root_mismatch st))
        else Ok (verify_utxos (tokens st) (map_to_list (tokenUtxos st)).*2 ∅)
    end
  end.

(** The replay of [fullVerify], into a fresh state. *)
Fixpoint replay_fresh (n : nat) (provider : CoreRpcProvider) (st : V3IndexerState) (h : Z) : result V3IndexerState :=
  match n with
  | O => Ok st
  | S n =>
      hash ← getBlockHash provider h;
      input ← fetch_block provider h hash;
      match applyBlock config st input with
      | (_, Throw e) => Throw e
      | (st, Ok _) => replay_fresh n provider st (h + 1)
      end
  end.

Definition fullVerify (st : V3IndexerState) (provider : CoreRpcProvider) : result VerifyResult :=
  mismatch ← cursor_mismatch st provider;
  match mismatch with
  | Some _ => Ok (Some ("cursor hash mismatch at " +:+ pretty (cur_height (cursor st))))
  | None =>
    fresh ← replay_fresh (rounds 1 (cur_height (cursor st))) provider (new_state config) 1;
    let dbRoot := stateRoot st in
    if negb (String.eqb dbRoot (cur_stateRoot (cursor st))) then Ok (Some (root_mismatch st))
    else if negb (String.eqb (stateRoot fresh) dbRoot)
    then Ok (Some ("replay root " +:+ stateRoot fresh +:+ " != db root " +:+ dbRoot))
    else Ok None
  end.

(** ** reindex.ts *)
Definition verify_failed (what : string) : exn := js_error ("REINDEX_VERIFY_FAILED: " +:+ what).

(** Transaction 1: the cursor says that a rebuild is under way. *)
Definition start_rebuild (d : V3Db) : V3Db :=
  let row := {| cr_height := 0; cr_blockHash := ""; cr_stateRoot := ""; cr_rebuilding := true |} in
  set_cursor d (upsert_row cursor_key row (λ _, row) (coveV3Cursor d)).

(** Transaction 2: the projection is empty. *)
Definition clear_projection (d : V3Db) : V3Db :=
  {| coveV3Blocks := []; coveV3Tokens := []; coveV3BackingStates := []; coveV3TokenUtxos := [];
     coveV3Events := []; coveV3Undo := []; coveV3Cursor := coveV3Cursor d |}.

(** The last transaction: rebuilt and verified. *)
Definition finish_rebuild (r : WorkerReport) (st : V3IndexerState) (d : V3Db) : V3Db :=
  set_cursor d (update_rows cursor_key tt
    (λ _, {| cr_height := wr_finalHeight r; cr_blockHash := cur_blockHash (cursor st);
             cr_stateRoot := wr_stateRoot r; cr_rebuilding := false |}) (coveV3Cursor d)).

Definition require_ok (what : string) (m : result VerifyResult) : result unit :=
  r ← m; match r with Some reason => Throw (verify_failed (what +:+ " " +:+ reason)) | None => Ok tt end.

(** Step 4: nothing is declared healthy that the checks do not confirm. *)
Definition verify_rebuild (d : V3Db) (st : V3IndexerState) (r : WorkerReport) (network : V3Network)
    (provider : CoreRpcProvider) (getPrevout : PrevoutLookup) : result unit :=
  dbRoot ← computeStateRootFromDb d network config;
  throw_if (negb (String.eqb dbRoot (wr_stateRoot r)))
    (verify_failed ("db root " +:+ dbRoot +:+ " != worker root " +:+ wr_stateRoot r));;
  require_ok "quick" (quickVerify st provider getPrevout);;
  require_ok "full" (fullVerify st provider).

Definition reindexDb (d : V3Db) (network : V3Network) (provider : CoreRpcProvider) (getPrevout : PrevoutLookup)
    : V3Db * result WorkerReport :=
  match transaction db d (λ d, Ok (start_rebuild d)) with
  | (d, Throw e) => (d, Throw e)
  | (d, Ok _) =>
  match transaction db d (λ d, Ok (clear_projection d)) with
  | (d, Throw e) => (d, Throw e)
  | (d, Ok _) =>
  match persistentWorker provider true (d, new_state config) with
  | ((d, _), Throw e) => (d, Throw e)
  | ((d, st), Ok r) =>
  match verify_rebuild d st r network provider getPrevout with
  | Throw e => (d, Throw e)
  | Ok _ =>
  match transaction db d (λ d, Ok (finish_rebuild r st d)) with
  | (d, Throw e) => (d, Throw e)
  | (d, Ok _) => (d, Ok r)
  end end end end end.
End Worker.
