(* ===== verification/Lockstep.v ===== *)
(** * Memory and database in lockstep

    A database that the persistent indexer has written for a chain of blocks
    ([lockstep]) is in step with the state in memory after every block written
    or taken back, whatever fails on the way; hydrating it gives that state. *)
From S2P Require Import Prelude Bytes Curve Economics Wire Covenant Vault Json Undo Indexer IndexerInv.
From S2P Require Import Store StoreInv Hydrate Persistent.

Definition chain_ids {B : Bitcoin} (bs : list V3BlockInput) : list string := bs ≫= λ b, txids (blk_txs b).

Lemma chain_ids_app {B : Bitcoin} bs bs' : chain_ids (bs ++ bs') = chain_ids bs ++ chain_ids bs'.
Proof. unfold chain_ids. by rewrite bind_app. Qed.

Section Lockstep.
Context {C : Crypto} {B : Bitcoin} {L : Locale}.
Context (config : V3IndexerConfig).

(** ** Histories *)

(** The next block of a chain [bs], whose state is [st]. *)
Record extends (bs : list V3BlockInput) (st : V3IndexerState) (b : V3BlockInput) : Prop := {
  ex_next : next_block config st b;
  ex_hash : is_hex64 (blk_hash b) = true;
  ex_ids : NoDup (chain_ids (bs ++ [b]));
}.

(** The state and the rows of the carriers after the blocks [bs]. *)
Inductive history : list V3BlockInput → V3IndexerState → utxo_rows → Prop :=
  | history_nil : history [] (new_state config) ∅
  | history_snoc bs st U b st' evs ops U' :
      history bs st U → extends bs st b → applyBlock config st b = (st', Ok evs) →
      undoByHeight st' = <[blk_height b := {| bu_height := blk_height b; bu_blockHash := blk_hash b; bu_ops := ops |}]>
                           (undoByHeight st) →
      run b (maps st) U ops (maps st') U' → history (bs ++ [b]) st' U'.

Record sound (bs : list V3BlockInput) (st : V3IndexerState) (U : utxo_rows) : Prop := {
  so_wf : wf config st;
  so_shaped : shaped (maps st);
  so_live : live_ok (tokenUtxos st) U;
  so_rows : ∀ p, is_Some (U !! p) → p.1 ∈ chain_ids bs;
  so_events : ∀ e, e ∈ events st → ev_txid e ∈ chain_ids bs;
  so_event_ids : NoDup (ev_txid <$> events st);
  so_journal : ∀ h u, undoByHeight st !! h = Some u → bu_height u = h ∧ safe_undo u;
}.

Lemma apply_txs_events txs st block i ops evs st' ops' evs' :
  apply_txs config st block i txs ops evs = (st', Ok (ops', evs')) →
  ∃ new, evs' = evs ++ new ∧ events st' = events st ++ new
  ∧ Forall (λ e, ev_blockHeight e = blk_height block) new ∧ (ev_txid <$> new) `sublist_of` txids txs.
Proof.
  revert st i ops evs. induction txs as [|raw txs IH]; intros st i ops evs; cbn [apply_txs].
  { intros [= <- _ <-]. exists []. rewrite !app_nil_r. split_and!; [done..|constructor]. }
  destruct (apply_tx config st block i raw) as [[[ops1 evs1] st1]|e] eqn:E; [|done].
  apply apply_tx_Ok in E as (tx & st2 & ops2 & m & spent & Htx & Hop & _ & _ & -> & Hev & Hl).
  intros (new & -> & E & Hh & Hs)%IH. exists (evs1 ++ new). rewrite app_assoc. split_and!; [done| | |].
  - destruct (foldl_record_tables evs1 (with_utxos st2 m)) as (_ & _ & _ & _ & Ee & _). rewrite Ee in E.
    cbn [events with_utxos with_tables] in E. destruct (op_step_frame _ _ _ _ _ _ _ Hop) as (_ & _ & Eo).
    by rewrite E, Eo, <-app_assoc.
  - apply Forall_app. split; [|done]. eapply Forall_impl; [exact Hev|]. by intros ? (? & _).
  - unfold txids. cbn [omap list_omap]. rewrite Htx. cbn [fmap option_fmap option_map].
    destruct evs1 as [|e [|]]; cbn [app length fmap list_fmap] in *; [by apply sublist_cons| |lia].
    apply Forall_cons in Hev as [(_ & _ & ->) _]. by apply sublist_skip.
Qed.

(** A block of the chain, taken apart. *)
Lemma applyBlock_Ok st b st' evs :
  cfg_genesisHeight config ≤ blk_height b → applyBlock config st b = (st', Ok evs) →
  ∃ st1 ops, apply_txs config st b 0 (blk_txs b) [] [] = (st1, Ok (ops, evs))
  ∧ maps st' = maps st1 ∧ events st' = events st1
  ∧ undoByHeight st' = <[blk_height b := {| bu_height := blk_height b; bu_blockHash := blk_hash b; bu_ops := ops |}]>
                         (undoByHeight st)
  ∧ cursor st' = {| cur_network := cfg_network config; cur_height := blk_height b; cur_blockHash := blk_hash b;
                    cur_stateRoot := stateRoot st' |}.
Proof.
  intros Ha. unfold applyBlock. destruct (Z.ltb_spec (blk_height b) (cfg_genesisHeight config)); [lia|].
  destruct (apply_txs config st b 0 (blk_txs b) [] []) as [st1 [[ops evs1]|e]] eqn:E; [|done].
  intros [= <- <-]. exists st1, ops. split_and!; try done.
  cbn [undoByHeight with_cursor]. by rewrite (apply_txs_frame _ _ _ _ _ _ _ _ _ E).
Qed.

(** The chain grows by every block that does not throw. *)
Lemma history_extend bs st U b st' evs :
  history bs st U → sound bs st U → extends bs st b → applyBlock config st b = (st', Ok evs) →
  ∃ U' ops, history (bs ++ [b]) st' U' ∧ sound (bs ++ [b]) st' U'
  ∧ undoByHeight st' = <[blk_height b := {| bu_height := blk_height b; bu_blockHash := blk_hash b; bu_ops := ops |}]>
                         (undoByHeight st)
  ∧ run b (maps st) U ops (maps st') U' ∧ evs = events_at st' (blk_height b) ∧ events st' = events st ++ evs.
Proof.
  intros Hh [Hwf Hsh Hlv Hrows Hevs Heids Hj] Hex E. pose proof Hex as [Hn Hhex Hids].
  pose proof Hids as Hids'. rewrite chain_ids_app in Hids'. unfold chain_ids at 2 in Hids'.
  rewrite bind_cons, app_nil_r in Hids'. apply NoDup_app in Hids' as (Hnd1 & Hdis & Hnd2).
  pose proof (wf_applyBlock config st b Hwf (nb_inputs _ _ _ Hn)) as Hwf'. rewrite E in Hwf'. cbn [fst] in Hwf'.
  destruct (applyBlock_Ok st b st' evs (nb_active _ _ _ Hn) E) as (st1 & ops & Ea & Em & Ee & Eu & Ec).
  destruct (apply_txs_events _ _ _ _ _ _ _ _ _ Ea) as (new & En & Eev & Hhe & Hsub). cbn in En. subst new.
  destruct (apply_txs_run config _ _ _ _ _ _ _ _ _ U Hwf Hsh (nb_inputs _ _ _ Hn) Hnd2
    (λ p Hp, λ Hin, Hdis _ (Hrows p Hp) Hin) Ea)
    as (ops' & U' & Eo & Hrun & Hsh' & Hsafe & Hdom). cbn in Eo. subst ops'.
  rewrite <-Em in Hrun, Hsh'. exists U', ops. split_and!; [| |done|done| |].
  - by eapply history_snoc.
  - assert (∀ x, x ∈ chain_ids (bs ++ [b]) ↔ x ∈ chain_ids bs ∨ x ∈ txids (blk_txs b)) as Hin.
    { intros x. rewrite chain_ids_app. unfold chain_ids at 2. rewrite bind_cons, app_nil_r. apply elem_of_app. }
    rewrite <-Ee in Eev. split.
    + done.
    + done.
    + exact (run_live _ _ _ _ _ _ Hrun Hlv).
    + intros p Hp. apply Hin. destruct (Hdom p Hp) as [?|?]; auto.
    + intros e. rewrite Eev, Hin, elem_of_app. intros [?|He]; [left; auto|right].
      eapply elem_of_sublist; [|exact Hsub]. by apply list_elem_of_fmap_2.
    + rewrite Eev, fmap_app. apply NoDup_app. split_and!; [done| |by eapply sublist_NoDup].
      intros x (e & -> & He)%list_elem_of_fmap Hx. apply (Hdis (ev_txid e)); [by apply Hevs|].
      by eapply elem_of_sublist.
    + intros h u. rewrite Eu, lookup_insert_Some. intros [[<- <-]|[_ Hu]]; [by split|by apply Hj].
  - rewrite <-Ee in Eev. unfold events_at. rewrite Eev, filter_app.
    assert (∀ l : list V3Event, Forall (λ e, ev_blockHeight e ≠ blk_height b) l →
      filter (λ e, ev_blockHeight e = blk_height b) l = []) as Hout.
    { intros l. induction 1 as [|e l He _ IH]; [done|]. by rewrite filter_cons_False. }
    rewrite (Hout (events st)) by apply Hn. cbn [app]. symmetry. clear - Hhe.
    induction Hhe as [|e l He _ IH]; [done|]. by rewrite filter_cons_True, IH.
  - by rewrite Ee.
Qed.

Lemma sound_nil : sound [] (new_state config) ∅.
Proof.
  split; cbn.
  - apply wf_new_state.
  - split; intros ? ?; cbn; rewrite lookup_empty; done.
  - split; intros ? ?; rewrite lookup_empty; done.
  - intros p. rewrite lookup_empty. by intros [? ?].
  - by intros e ?%elem_of_nil.
  - constructor.
  - intros h u. by rewrite lookup_empty.
Qed.

Lemma history_sound bs st U : history bs st U → sound bs st U.
Proof.
  induction 1 as [|bs st U b st' evs ops U' Hh IH Hex E Eu Hrun]; [apply sound_nil|].
  destruct (history_extend _ _ _ _ _ _ Hh IH Hex E) as (U'' & ops'' & _ & Hs & Eu' & Hrun' & _).
  rewrite Eu in Eu'. apply (f_equal (lookup (blk_height b))) in Eu'. rewrite !lookup_insert_eq in Eu'.
  injection Eu' as <-. apply run_rows in Hrun as ->, Hrun' as ->. done.
Qed.

(** ** Tables in step *)
Definition undo_row (u : BlockUndo) : UndoRow :=
  {| nr_height := bu_height u; nr_blockHash := bu_blockHash u; nr_undoJson := encodeUndo u |}.

Definition cursor_row (c : V3Cursor) (rebuilding : bool) : CursorRow :=
  {| cr_height := cur_height c; cr_blockHash := cur_blockHash c; cr_stateRoot := cur_stateRoot c;
     cr_rebuilding := rebuilding |}.

Record stored (d : V3Db) (st : V3IndexerState) (U : utxo_rows) : Prop := {
  sd_tables : op_tables d (tok_rows (tokens st)) (back_rows (backing st)) U;
  sd_blocks : ∃ bl, table block_key (coveV3Blocks d) bl ∧ ∀ h, is_Some (bl !! h) ↔ is_Some (undoByHeight st !! h);
  sd_events : coveV3Events d = event_row <$> events st;
  sd_undo : table undo_key (coveV3Undo d) (undo_row <$> undoByHeight st);
}.

(** The cursor's row: none before the first block is written. *)
Definition cursor_ok (d : V3Db) (st : V3IndexerState) : Prop :=
  (coveV3Cursor d = [] ∧ cursor st = cursor (new_state config))
  ∨ ∃ rebuilding, coveV3Cursor d = [cursor_row (cursor st) rebuilding].

(** The database and the memory of an indexer that has indexed [bs]. *)
Definition lockstep (bs : list V3BlockInput) (d : V3Db) (st : V3IndexerState) : Prop :=
  ∃ U, history bs st U ∧ stored d st U ∧ cursor_ok d st.

Lemma lockstep_new : lockstep [] empty_db (new_state config).
Proof.
  exists ∅. split_and!; [constructor| |by left]. split; cbn.
  - split; cbn; unfold tok_rows, back_rows; rewrite ?fmap_empty; apply table_nil.
  - exists ∅. split; [apply table_nil|]. intros h. by rewrite !lookup_empty.
  - done.
  - rewrite fmap_empty. apply table_nil.
Qed.

Lemma backing_keyed_wf st : wf config st → backing_keyed (backing st).
Proof. intros Hwf t b E. by apply (bo_tokenId config _ _ (wf_backing _ _ Hwf t b E)). Qed.

Lemma insert_event_rows evs l :
  NoDup (er_txid <$> l ++ evs) → insert_rows event_key evs l = Ok (l ++ evs).
Proof.
  revert l. induction evs as [|e evs IH]; intros l Hd; cbn [insert_rows]; [by rewrite app_nil_r|].
  unfold insert_row, has_key. assert (existsb (λ r, bool_decide (event_key r = event_key e)) l = false) as ->.
  { apply not_true_iff_false. rewrite existsb_exists. intros (r & Hr & E%bool_decide_eq_true).
    rewrite fmap_app in Hd. apply NoDup_app in Hd as (_ & Hd & _). apply (Hd (er_txid r)).
    - apply list_elem_of_fmap_2. by apply list_elem_of_In.
    - change (er_txid r) with (event_key r). rewrite E. by left. }
  step_ok. rewrite IH; [by rewrite <-app_assoc|]. by rewrite <-app_assoc.
Qed.

(** One block, written. *)
Lemma lockstep_persist bs d st b st' evs rebuilding :
  lockstep bs d st → extends bs st b → applyBlock config st b = (st', Ok evs) →
  ∃ undo d', undoByHeight st' !! blk_height b = Some undo
  ∧ persistBlock st' b (events_at st' (blk_height b)) undo rebuilding d = Ok d'
  ∧ lockstep (bs ++ [b]) d' st' ∧ coveV3Cursor d' = [cursor_row (cursor st') rebuilding].
Proof.
  intros (U & Hh & [Ht (bl & Hb & Hbl) He Hu] & Hc) Hex E. pose proof (history_sound _ _ _ Hh) as Hs.
  destruct (history_extend _ _ _ _ _ _ Hh Hs Hex E) as (U' & ops & Hh' & Hs' & Eu & Hrun & Ev & Eev).
  pose proof Hex as [Hn _ _].
  destruct (applyBlock_Ok st b st' evs (nb_active _ _ _ Hn) E) as (_ & _ & _ & _ & _ & _ & Ec).
  set (undo := {| bu_height := blk_height b; bu_blockHash := blk_hash b; bu_ops := ops |}) in *.
  exists undo. unfold persistBlock. rewrite Eu, lookup_insert_eq. rewrite <-Ev.
  pose proof (nb_height _ _ _ Hn) as Hnone.
  set (brow := {| br_height := blk_height b; br_hash := blk_hash b; br_parentHash := blk_parentHash b; br_canonical := true |}).
  destruct (table_insert block_key (coveV3Blocks d) bl brow Hb) as (rows & Hi & Hr).
  { change (block_key brow) with (blk_height b). apply eq_None_not_Some. intros [? ?]%Hbl. congruence. }
  fold brow. rewrite Hi. step_ok. cbn [coveV3Events set_blocks]. rewrite insert_event_rows.
  2:{ rewrite He, <-fmap_app, <-Eev, <-list_fmap_compose. exact (so_event_ids _ _ _ Hs'). }
  step_ok. cbn [coveV3Undo set_blocks set_events].
  destruct (table_insert undo_key (coveV3Undo d) _ (undo_row undo) Hu) as (urows & Hi' & Hr').
  { change (undo_key (undo_row undo)) with (blk_height b). by rewrite lookup_fmap, Hnone. }
  change (nr_undoJson (undo_row undo)) with (encodeUndo undo).
  change {| nr_height := blk_height b; nr_blockHash := blk_hash b; nr_undoJson := encodeUndo undo |} with (undo_row undo).
  rewrite Hi'. step_ok.
  match goal with |- context [apply_forward_all st' b ?d0 _] => set (d1 := d0) end.
  destruct (forward_run st' b (maps st) U ops (maps st') U' d1) as (d2 & Hf & Hm & Hfr); [done| | |by apply backing_keyed_wf, Hs'|].
  { apply mid_tables_start; [destruct Ht; by split|]. by apply backing_keyed_wf, Hs. }
  { split; [done|]. auto. }
  change (bu_ops undo) with ops. rewrite Hf. step_ok.
  apply mid_tables_end in Hm; [|done]. destruct Hfr as (F1 & F2 & F3 & F4). cbn in F1, F2, F3, F4.
  assert (coveV3Cursor d2 = [] ∨ ∃ r, coveV3Cursor d2 = [r]) as Hcur.
  { rewrite F4. destruct Hc as [[-> _]|[rb ->]]; [by left|right; by eexists]. }
  set (row := {| cr_height := blk_height b; cr_blockHash := blk_hash b; cr_stateRoot := stateRoot st';
                 cr_rebuilding := rebuilding |}).
  assert (row = cursor_row (cursor st') rebuilding) as Erow by (unfold cursor_row; by rewrite Ec).
  assert (upsert_row cursor_key row (λ _, row) (coveV3Cursor d2) = [row]) as Ecur by by destruct Hcur as [->|[r ->]].
  eexists. split; [done|]. split; [done|]. rewrite Ecur. split; [|by rewrite Erow].
  exists U'. split_and!; [done| |right; exists rebuilding; cbn; by rewrite Erow]. split; cbn.
  - destruct Hm. by split.
  - rewrite F1. eexists. split; [exact Hr|]. intros h. rewrite Eu. change (block_key brow) with (blk_height b).
    rewrite !lookup_insert_is_Some', Hbl. done.
  - by rewrite F2, He, <-fmap_app, <-Eev.
  - rewrite F3, Eu, fmap_insert. exact Hr'.
Qed.

Lemma filter_event_rows h (evs : list V3Event) : filter (λ r, er_blockHeight r ≠ h) (event_row <$> evs)
  = event_row <$> filter (λ e, ev_blockHeight e ≠ h) evs.
Proof.
  induction evs as [|e evs IH]; [done|]. rewrite fmap_cons, !filter_cons. cbn [er_blockHeight event_row].
  case_decide; [by rewrite IH|done].
Qed.

(** The last block, taken back. *)
Lemma lockstep_rollback bs d st b :
  lockstep (bs ++ [b]) d st →
  ∃ undo st0, undoByHeight st !! blk_height b = Some undo ∧ bu_height undo = blk_height b
  ∧ undoBlock config st (blk_height b) = Ok st0 ∧ extends bs st0 b ∧ index_blocks config st0 [b] = Ok st
  ∧ lockstep bs (rollback undo (cursor st0) d) st0.
Proof.
  intros (U' & Hh & [Ht (bl & Hb & Hbl) He Hu] & Hc).
  inversion Hh as [Enil|bs0 st0 U b0 st1 evs ops U1 Hh0 Hex E Eu Hrun Eb]; [by destruct bs|].
  apply app_inj_tail in Eb as [-> ->]. subst st1 U1.
  pose proof (history_sound _ _ _ Hh0) as Hs. pose proof Hex as [Hn _ _].
  destruct (history_extend _ _ _ _ _ _ Hh0 Hs Hex E) as (_ & _ & _ & _ & _ & _ & Ev & Eev).
  pose proof (undoBlock_applyBlock_eq config st0 b st evs (so_wf _ _ _ Hs) Hn E) as Hub.
  destruct (applyBlock_Ok st0 b st evs (nb_active _ _ _ Hn) E) as (_ & _ & _ & _ & _ & _ & Ec).
  set (undo := {| bu_height := blk_height b; bu_blockHash := blk_hash b; bu_ops := ops |}) in *.
  exists undo, st0. split_and!; [by rewrite Eu, lookup_insert_eq|done|done|done|cbn; by rewrite E|].
  destruct (rollback_run b (maps st0) U ops (maps st) U' d Hrun (so_live _ _ _ Hs)) as [[T1 T2 T3] (F1 & F2 & F3 & F4)].
  { by apply backing_keyed_wf, Hs. }
  { destruct Ht. by split. }
  exists U. split; [done|]. unfold rollback. change (bu_ops undo) with ops. change (bu_height undo) with (blk_height b).
  split.
  - split; cbn.
    + by split.
    + rewrite F1. exists (delete (blk_height b) bl). split; [by apply table_delete|]. intros h.
      rewrite !lookup_delete_is_Some, Hbl, Eu, lookup_insert_is_Some'. pose proof (nb_height _ _ _ Hn).
      split; [intros [? [?|?]]; [congruence|done]|]. intros Hsome. split; [|by right]. intros <-.
      rewrite H in Hsome. by destruct Hsome.
    + rewrite F2, He, filter_event_rows. f_equal. rewrite Eev. apply filter_events_height; [apply Hn|].
      rewrite Ev. apply Forall_forall. intros e [? _]%list_elem_of_filter. done.
    + rewrite F3. apply (table_delete _ _ _ (blk_height b)) in Hu. rewrite Eu, fmap_insert, delete_insert_id in Hu; [done|].
      by rewrite lookup_fmap, (nb_height _ _ _ Hn).
  - right. cbn. rewrite F4. destruct Hc as [[-> _]|[rb ->]]; [by exists false|by exists rb].
Qed.

(** ** Reading the state back *)
Lemma foldl_insert_lookup {R A} (k2 : R → string) (g : R → A) (l : list R) (k : string) (x : A) (m : gmap string A) :
  NoDup (k2 <$> l) →
  foldl (λ m r, <[k2 r := g r]> m) m l !! k = Some x ↔
  (∃ r, r ∈ l ∧ k2 r = k ∧ g r = x) ∨ (k ∉ k2 <$> l ∧ m !! k = Some x).
Proof.
  revert m. induction l as [|r l IH]; intros m; cbn [foldl fmap list_fmap].
  { intros _. split; [intros ?; right; split; [by intros ?%elem_of_nil|done]|].
    intros [(r & ?%elem_of_nil & _)|[_ ?]]; done. }
  intros [Hn Hd]%NoDup_cons. rewrite (IH _ Hd), lookup_insert_Some. split.
  - intros [(r' & ? & ? & ?)|[Hk [[<- <-]|[? ?]]]].
    + left. exists r'. split_and!; [by right|done..].
    + left. exists r. split_and!; [by left|done..].
    + right. split; [|done]. intros [?|?]%elem_of_cons; [by subst|done].
  - intros [(r' & [->|Hr']%elem_of_cons & <- & <-)|[[? ?]%not_elem_of_cons ?]].
    + right. split; [done|by left].
    + left. by exists r'.
    + right. split; [done|right; by split].
Qed.

Lemma foldl_insert_empty {R A} (k2 : R → string) (g : R → A) (l : list R) k x :
  NoDup (k2 <$> l) → foldl (λ m r, <[k2 r := g r]> m) (∅ : gmap string A) l !! k = Some x ↔ ∃ r, r ∈ l ∧ k2 r = k ∧ g r = x.
Proof.
  intros Hd. rewrite foldl_insert_lookup by done. rewrite lookup_empty. naive_solver.
Qed.

(** The check of a loop that inserts: no key met before. *)
Lemma fresh_keys {R A} (k2 : R → string) (r : R) l (g : R → A) (m : gmap string A) :
  NoDup (k2 <$> r :: l) → (∀ x, x ∈ r :: l → m !! k2 x = None) →
  m !! k2 r = None ∧ NoDup (k2 <$> l) ∧ ∀ x, x ∈ l → <[k2 r := g r]> m !! k2 x = None.
Proof.
  cbn [fmap list_fmap]. intros [Hn Hd]%NoDup_cons Hm. split_and!; [apply Hm; by left|done|].
  intros x Hx. rewrite lookup_insert_ne; [apply Hm; by right|]. intros E. apply Hn. rewrite E. by apply list_elem_of_fmap_2.
Qed.

Lemma hydrate_tokens_Ok rows m :
  NoDup (tr_tokenId <$> rows) → (∀ r, r ∈ rows → m !! tr_tokenId r = None) →
  hydrate_tokens rows m = Ok (foldl (λ m r, <[tr_tokenId r := meta_of_row r]> m) m rows).
Proof.
  revert m. induction rows as [|r rows IH]; intros m Hd Hm; cbn [hydrate_tokens foldl]; [done|].
  destruct (fresh_keys tr_tokenId r rows meta_of_row m Hd Hm) as (Hr & Hd' & Hm').
  rewrite Hr, (bool_decide_eq_false_2 (is_Some None)) by (by intros [? ?]). cbn [throw_if]. step_ok. by apply IH.
Qed.

Lemma hydrate_backings_Ok ts rows m :
  NoDup (kr_tokenId <$> rows) → (∀ r, r ∈ rows → m !! kr_tokenId r = None) →
  (∀ r, r ∈ rows → is_Some (ts !! kr_tokenId r) ∧ validateStateV2 (state_of_row r) = Ok tt) →
  hydrate_backings ts rows m = Ok (foldl (λ m r, <[kr_tokenId r := backing_of_row r]> m) m rows).
Proof.
  revert m. induction rows as [|r rows IH]; intros m Hd Hm Hv; cbn [hydrate_backings foldl]; [done|].
  destruct (fresh_keys kr_tokenId r rows backing_of_row m Hd Hm) as (Hr & Hd' & Hm').
  destruct (Hv r (list_elem_of_here _ _)) as [Ht Hs]. rewrite (bool_decide_eq_true_2 (is_Some (ts !! _))) by done. cbn [negb throw_if]. step_ok.
  rewrite Hs. cbn [try_catch]. step_ok. rewrite Hr, (bool_decide_eq_false_2 (is_Some None)) by (by intros [? ?]). cbn [throw_if]. step_ok.
  apply IH; [done..|]. intros. apply Hv. by right.
Qed.

Lemma require_backings_Ok rows (m : gmap string V3Backing) :
  (∀ r, r ∈ rows → is_Some (m !! tr_tokenId r)) → require_backings rows m = Ok tt.
Proof.
  induction rows as [|r rows IH]; intros Hm; cbn [require_backings]; [done|].
  rewrite bool_decide_eq_true_2 by (apply Hm, list_elem_of_here). cbn [negb throw_if]. step_ok. apply IH. intros. apply Hm. by right.
Qed.

Definition row_string_key (u : UtxoRow) : string := outpointKey (ur_txid u) (ur_vout u).

Lemma hydrate_utxos_Ok ts rows m :
  NoDup (row_string_key <$> rows) → (∀ r, r ∈ rows → m !! row_string_key r = None) →
  (∀ r, r ∈ rows → is_Some (ts !! ur_tokenId r)) →
  hydrate_utxos ts rows m = Ok (foldl (λ m r, <[row_string_key r := utxo_of_row r]> m) m rows).
Proof.
  revert m. induction rows as [|r rows IH]; intros m Hd Hm Ht; cbn [hydrate_utxos foldl]; [done|].
  destruct (fresh_keys row_string_key r rows utxo_of_row m Hd Hm) as (Hr & Hd' & Hm'). fold (row_string_key r).
  rewrite Hr, (bool_decide_eq_false_2 (is_Some None)) by (by intros [? ?]). cbn [throw_if]. step_ok.
  rewrite (bool_decide_eq_true_2 (is_Some (ts !! _))) by (apply Ht, list_elem_of_here). cbn [negb throw_if]. step_ok.
  apply IH; [done..|]. intros. apply Ht. by right.
Qed.

Lemma hydrate_undos_Ok us m :
  Forall safe_undo us →
  hydrate_undos (undo_row <$> us) m = Ok (foldl (λ m u, <[bu_height u := u]> m) m us).
Proof.
  intros H. revert m. induction H as [|u us Hu _ IH]; intros m; cbn [fmap list_fmap hydrate_undos foldl]; [done|].
  cbn [nr_undoJson undo_row]. destruct (decodeUndo_encodeUndo_eq u Hu) as [-> Ev]. step_ok. rewrite Ev.
  cbn [of_option]. step_ok. apply IH.
Qed.

Lemma journal_foldl us (j m : gmap Z BlockUndo) :
  (∀ u, u ∈ us → j !! bu_height u = Some u) → (∀ h u, m !! h = Some u → j !! h = Some u) →
  (∀ h u, j !! h = Some u → u ∈ us ∧ bu_height u = h ∨ m !! h = Some u) →
  foldl (λ m u, <[bu_height u := u]> m) m us = j.
Proof.
  revert m. induction us as [|u us IH]; intros m Hin Hm Hj; cbn [foldl].
  - apply map_eq. intros h. destruct (j !! h) as [u|] eqn:E.
    + by destruct (Hj _ _ E) as [[?%elem_of_nil _]|?].
    + apply eq_None_not_Some. intros [u Hu]. apply Hm in Hu. congruence.
  - apply IH.
    + intros v Hv. apply Hin. by right.
    + intros h v. rewrite lookup_insert_Some. intros [[<- <-]|[_ ?]]; [apply Hin; by left|by apply Hm].
    + intros h v Hv. destruct (Hj h v Hv) as [[[->|?]%elem_of_cons Eh]|Hmh].
      * right. by rewrite Eh, lookup_insert_eq.
      * by left.
      * right. apply lookup_insert_Some. destruct (decide (bu_height u = h)) as [Eh|]; [|by right].
        left. split; [done|]. assert (j !! bu_height u = Some u) as Hu by (apply Hin; by left).
        rewrite Eh, Hv in Hu. by injection Hu.
Qed.

Section Hydration.
Context {PG : Postgres}.

Lemma select_all {A} (p : A → bool) (l : list A) : (∀ x, x ∈ l → p x = true) → select p l ≡ₚ l.
Proof.
  intros Hp. unfold select. rewrite select_order_perm. replace (List.filter p l) with l; [done|].
  induction l as [|x l IH]; [done|]. cbn. rewrite Hp by by left. f_equal. apply IH. intros. apply Hp. by right.
Qed.

Lemma elem_of_select {A} (p : A → bool) (l : list A) x : x ∈ select p l ↔ x ∈ l ∧ p x = true.
Proof. unfold select. rewrite select_order_perm, !list_elem_of_In. apply filter_In. Qed.

Lemma NoDup_select {A K} (f : A → K) (p : A → bool) (l : list A) : NoDup (f <$> l) → NoDup (f <$> select p l).
Proof.
  intros Hd. unfold select. rewrite select_order_perm. eapply sublist_NoDup; [exact Hd|].
  clear Hd. induction l as [|x l IH]; [constructor|]. cbn. destruct (p x); cbn; by constructor.
Qed.

(** What an event's row keeps. *)
Definition forget_curve (e : V3Event) : V3Event :=
  {| ev_txid := ev_txid e; ev_blockHeight := ev_blockHeight e; ev_blockHash := ev_blockHash e;
     ev_txIndex := ev_txIndex e; ev_operation := ev_operation e; ev_valid := ev_valid e;
     ev_reason := ev_reason e; ev_tokenId := ev_tokenId e; ev_curve := None |}.

(** The same state, but for the events' trades and order. *)
Record recovers (st' st : V3IndexerState) : Prop := {
  rc_tokens : tokens st' = tokens st;
  rc_backing : backing st' = backing st;
  rc_utxos : tokenUtxos st' = tokenUtxos st;
  rc_events : events st' ≡ₚ forget_curve <$> events st;
  rc_journal : undoByHeight st' = undoByHeight st;
  rc_cursor : cursor st' = cursor st;
}.

Lemma history_cursor bs st U : history bs st U →
  cur_network (cursor st) = cfg_network config
  ∧ (is_hex64 (cur_blockHash (cursor st)) = true ∨ cur_height (cursor st) = 0).
Proof.
  destruct 1 as [|bs st U b st' evs ops U' _ [Hn Hhex _] E _ _]; [by split; [|right]|].
  destruct (applyBlock_Ok st b st' evs (nb_active _ _ _ Hn) E) as (_ & _ & _ & _ & _ & _ & ->). by split; [|left].
Qed.

Lemma hydrate_tokens_table l ts :
  table token_key l (tok_rows ts) → (∀ t m, ts !! t = Some m → tm_tokenId m = t) →
  hydrate_tokens (select tr_canonical l) ∅ = Ok ts
  ∧ ∀ r, r ∈ select tr_canonical l → is_Some (ts !! tr_tokenId r).
Proof.
  intros Ht Hk.
  assert (∀ r, r ∈ select tr_canonical l ↔ tok_rows ts !! tr_tokenId r = Some r) as Htr.
  { intros r. rewrite elem_of_select, (tb_rows _ _ _ Ht). split; [by intros [? _]|]. intros E. split; [done|].
    revert E. unfold tok_rows. rewrite lookup_fmap. intros (m & _ & ->)%fmap_Some. done. }
  pose proof (NoDup_select tr_tokenId tr_canonical _ (tb_nodup _ _ _ Ht)) as Htd.
  split.
  - rewrite hydrate_tokens_Ok by (done || by intros; rewrite lookup_empty). f_equal.
    apply map_eq. intros t. apply option_eq. intros m. rewrite foldl_insert_empty by done. split.
    + intros (r & Hr%Htr & Er & Em). rewrite Er in Hr. revert Hr. unfold tok_rows. rewrite lookup_fmap.
      intros (m' & Hm' & ->)%fmap_Some. rewrite Hm'. f_equal. rewrite <-Em. by destruct m'.
    + intros Hm. exists (token_row t m). pose proof (Hk t m Hm) as <-. split_and!; [|done|].
      * apply Htr. cbn. unfold tok_rows. by rewrite lookup_fmap, Hm.
      * by destruct m.
  - intros r Hr%Htr. revert Hr. unfold tok_rows. rewrite lookup_fmap. intros (m & Hm & _)%fmap_Some. by eexists.
Qed.

(** A reserve whose row says all about it. *)
Record rowed (t : string) (b : V3Backing) : Prop := {
  ro_key : bk_tokenId b = t;
  ro_token : tokenIdV2 (bk_state b) = t;
  ro_txid : bk_updatedTxid b = op_txid (bk_outpoint b);
  ro_valid : validateStateV2 (bk_state b) = Ok tt;
}.

Lemma rowed_row t b : rowed t b → state_of_row (backingRow b) = bk_state b ∧ backing_of_row (backingRow b) = b.
Proof.
  intros [E1 E2 E3 _]. assert (state_of_row (backingRow b) = bk_state b) as Es.
  { unfold state_of_row, backingRow. cbn. rewrite E1, <-E2. by destruct (bk_state b). }
  split; [done|]. unfold backing_of_row. rewrite Es. destruct b as [? ? ? [] ? ? ? ? ?]. cbn in *. by rewrite E3.
Qed.

Lemma hydrate_backings_table l bs (ts : gmap string V3TokenMeta) :
  table backing_key l (back_rows bs) → (∀ t b, bs !! t = Some b → rowed t b ∧ is_Some (ts !! t)) →
  hydrate_backings ts (select kr_canonical l) ∅ = Ok bs.
Proof.
  intros Hb Hrow.
  assert (∀ r, r ∈ select kr_canonical l ↔ back_rows bs !! kr_tokenId r = Some r) as Hbr.
  { intros r. rewrite elem_of_select, (tb_rows _ _ _ Hb). split; [by intros [? _]|]. intros E. split; [done|].
    revert E. unfold back_rows. rewrite lookup_fmap. intros (b & _ & ->)%fmap_Some. done. }
  pose proof (NoDup_select kr_tokenId kr_canonical _ (tb_nodup _ _ _ Hb)) as Hbd.
  rewrite hydrate_backings_Ok; [f_equal|done|by intros; rewrite lookup_empty|].
  - apply map_eq. intros t. apply option_eq. intros b. rewrite foldl_insert_empty by done. split.
    + intros (r & Hr%Hbr & Er & Eb). rewrite Er in Hr. revert Hr. unfold back_rows. rewrite lookup_fmap.
      intros (b' & Hb' & ->)%fmap_Some. rewrite Hb'. f_equal. rewrite <-Eb. symmetry.
      apply (rowed_row t). by apply Hrow.
    + intros Eb. destruct (Hrow _ _ Eb) as [Hro _]. exists (backingRow b). split_and!.
      * apply Hbr. cbn. rewrite (ro_key _ _ Hro). unfold back_rows. by rewrite lookup_fmap, Eb.
      * apply (ro_key _ _ Hro).
      * by apply (rowed_row t).
  - intros r Hr%Hbr. revert Hr. unfold back_rows. rewrite lookup_fmap. intros (b & Eb & ->)%fmap_Some.
    destruct (Hrow _ _ Eb) as [Hro ?]. split; [done|]. destruct (rowed_row _ _ Hro) as [-> _]. apply Hro.
Qed.

Lemma live_rows l U m :
  table utxo_row_key l U → live_ok m U →
  ∀ r, r ∈ select live_row l ↔ ∃ u, r = utxoRow u ∧ m !! utxo_key u = Some u.
Proof.
  intros Hu Hl r. rewrite elem_of_select, (tb_rows _ _ _ Hu). unfold live_row. split.
  - intros [Er Hlive]. apply andb_true_iff in Hlive as [_ Hs%bool_decide_eq_true].
    destruct (lo_rows _ _ Hl _ _ Er) as (_ & _ & Hx). by apply Hx.
  - intros (u & -> & Hm). split; [by apply (lo_live _ _ Hl (utxo_key u))|done].
Qed.

Lemma string_keys (l : list UtxoRow) : NoDup (utxo_row_key <$> l) → NoDup (row_string_key <$> l).
Proof.
  induction l as [|r l IH]; [constructor|].
  cbn. intros [Hn Hd]%NoDup_cons. apply NoDup_cons. split; [|by apply IH].
  intros (r' & [E1 E2]%outpointKey_inj_pair & Hr')%list_elem_of_fmap. apply Hn.
  replace (utxo_row_key r) with (utxo_row_key r'); [by apply list_elem_of_fmap_2|]. unfold utxo_row_key. congruence.
Qed.

Lemma hydrate_utxos_table l U m (ts : gmap string V3TokenMeta) :
  table utxo_row_key l U → live_ok m U → (∀ k u, m !! k = Some u → is_Some (ts !! tu_tokenId u)) →
  hydrate_utxos ts (select live_row l) ∅ = Ok m.
Proof.
  intros Hu Hl Ht. pose proof (live_rows l U m Hu Hl) as Hur.
  pose proof (string_keys _ (NoDup_select utxo_row_key live_row _ (tb_nodup _ _ _ Hu))) as Hud.
  rewrite hydrate_utxos_Ok; [f_equal|done|by intros; rewrite lookup_empty|].
  - apply map_eq. intros k. apply option_eq. intros u. rewrite foldl_insert_empty by done. split.
    + intros (r & (u' & -> & Hm)%Hur & <- & <-). destruct u'. done.
    + intros Hm. pose proof (lo_keyed _ _ Hl _ _ Hm) as Ek. exists (utxoRow u). split_and!.
      * apply Hur. exists u. by rewrite Ek.
      * done.
      * by destruct u.
  - intros r (u & -> & Hm)%Hur. cbn. by apply (Ht (utxo_key u)).
Qed.

Lemma hydrate_undos_table l j :
  table undo_key l (undo_row <$> j) → (∀ h u, j !! h = Some u → bu_height u = h ∧ safe_undo u) →
  hydrate_undos (select (λ _, true) l) ∅ = Ok j.
Proof.
  intros Hun Hj.
  assert (∀ r, r ∈ select (λ _, true) l ↔ ∃ u, r = undo_row u ∧ j !! bu_height u = Some u) as H.
  { intros r. rewrite elem_of_select, (tb_rows _ _ _ Hun), lookup_fmap. split.
    - intros [(u & Eu & ->)%fmap_Some _]. exists u. done.
    - intros (u & -> & Eu). split; [|done]. cbn. by rewrite Eu. }
  set (us := (λ r, default {| bu_height := 0; bu_blockHash := ""; bu_ops := [] |} (j !! nr_height r))
               <$> select (λ _, true) l).
  assert (select (λ _, true) l = undo_row <$> us) as ->.
  { unfold us. rewrite <-list_fmap_compose. symmetry. etrans; [|apply list_fmap_id]. apply list_fmap_ext. intros i r Er.
    destruct (proj1 (H r)) as (u & -> & Eu); [by eapply list_elem_of_lookup_2|]. cbn. by rewrite Eu. }
  assert (∀ u, u ∈ us ↔ j !! bu_height u = Some u) as Hus.
  { intros u. unfold us. rewrite list_elem_of_fmap. split.
    + intros (r & -> & (u' & -> & Eu)%H). cbn. rewrite Eu. done.
    + intros Eu. exists (undo_row u). cbn. rewrite Eu. split; [done|]. apply H. by exists u. }
  rewrite hydrate_undos_Ok by (apply Forall_forall; intros u Hu0%Hus; by apply Hj in Hu0 as [_ ?]).
  f_equal. apply journal_foldl; [by intros u ?%Hus|intros h u; by rewrite lookup_empty|].
  intros h u Eu. left. pose proof (Hj _ _ Eu) as [Eh _]. split; [|done]. apply Hus. by rewrite Eh.
Qed.

Lemma hydrate_cursor_history bs d st U :
  history bs st U → cursor_ok d st →
  hydrate_cursor (cfg_network config) (select (λ _, true) (coveV3Cursor d)) (cursor (new_state config)) = Ok (cursor st).
Proof.
  intros Hh Hc. assert (select (λ _, true) (coveV3Cursor d) ≡ₚ coveV3Cursor d) as Hp by by apply select_all.
  destruct (history_cursor _ _ _ Hh) as [En Hcur]. destruct Hc as [[Ec Es]|[rb Ec]]; rewrite Ec in Hp |- *.
  - apply Permutation_nil_r in Hp as ->. cbn. by rewrite Es.
  - apply Permutation_singleton_r in Hp as ->. cbn [hydrate_cursor cr_blockHash cr_height cursor_row].
    replace (negb _ && negb _) with false; [|destruct Hcur as [->| ->]; [done|by rewrite andb_false_r]].
    cbn [throw_if]. step_ok. rewrite <-En. by destruct (cursor st).
Qed.

Lemma hydrate_lockstep bs d st :
  lockstep bs d st → ∃ st', hydrateState d (cfg_network config) config = Ok st' ∧ recovers st' st.
Proof.
  intros (U & Hh & [[Ht Hb Hu] _ He Hun] & Hc). pose proof (history_sound _ _ _ Hh) as [Hwf Hsh Hl _ _ _ Hj].
  unfold hydrateState. destruct (hydrate_tokens_table _ _ Ht) as [-> Htr]; [by intros t m Hm; apply (wf_meta _ _ Hwf)|].
  step_ok. rewrite (hydrate_backings_table _ (backing st)); [|done|].
  2:{ intros t b Eb. destruct (wf_backing _ _ Hwf t b Eb), (sh_backing _ Hsh t b Eb). split; [by split|].
      apply (wf_tokens _ _ Hwf). by eexists. }
  step_ok. rewrite require_backings_Ok by (intros r Hr%Htr; by apply (wf_tokens _ _ Hwf)). step_ok.
  rewrite (hydrate_utxos_table _ U (tokenUtxos st)); [|done|done|].
  2:{ intros k u Hm. apply (wf_tokens _ _ Hwf). by apply (uo_known _ _ (wf_utxos _ _ Hwf) k). }
  step_ok. rewrite (hydrate_undos_table _ (undoByHeight st)) by done. step_ok.
  rewrite (hydrate_cursor_history bs d st U) by done. step_ok.
  eexists. split; [done|]. split; cbn; try done.
  rewrite He. rewrite select_all by (by intros r (e & -> & _)%list_elem_of_fmap).
  by rewrite <-list_fmap_compose.
Qed.
End Hydration.
End Lockstep.
