(* ===== verification/PersistentInv.v ===== *)
(** * The persistent worker keeps memory and database in lockstep

    Whatever Bitcoin Core answers and whichever commits fail, the worker and
    the reorganisation engine end with a database in lockstep with the state in
    memory ([Lockstep]); on a healthy connection they end at Core's tip.  A
    rebuild that fails never looks healthy. *)
From S2P Require Import Prelude Bytes Curve Economics Wire Covenant Vault Json Undo Indexer IndexerInv.
From S2P Require Import Store StoreInv Hydrate Persistent Lockstep.

Section Inv.
Context {C : Crypto} {B : Bitcoin} {L : Locale} {PG : Postgres}.
Context (config : V3IndexerConfig) (db : Connection).

Notation lockstep := (lockstep config).

(** No commit fails. *)
Definition reliable : Prop := ∀ d, commit_error db d = None.

(** ** Chains still to come *)

(** [bs'] are the blocks after the chain [bs], from height [h] on. *)
Record future (bs : list V3BlockInput) (st : V3IndexerState) (h : Z) (bs' : list V3BlockInput) : Prop := {
  fu_follows : follows config st h bs';
  fu_hash : Forall (λ b, is_hex64 (blk_hash b) = true) bs';
  fu_ids : NoDup (chain_ids (bs ++ bs'));
}.

Lemma future_cons bs st h b bs' :
  future bs st h (b :: bs') →
  blk_height b = h ∧ extends config bs st b
  ∧ ∀ st' evs, applyBlock config st b = (st', Ok evs) → future (bs ++ [b]) st' (h + 1) bs'.
Proof.
  intros [(Eh & Hn & Hf) [Hx Hxs]%Forall_cons Hids]. split_and!; [done| |].
  - split; [done..|]. revert Hids. rewrite !chain_ids_app. intros Hids.
    change (b :: bs') with ([b] ++ bs') in Hids. rewrite chain_ids_app, app_assoc in Hids. by apply NoDup_app in Hids as [? _].
  - intros st' evs E. rewrite E in Hf. cbn [fst] in Hf. split; [done..|]. by rewrite <-app_assoc.
Qed.

Lemma history_index bs st U : history config bs st U → index_blocks config (new_state config) bs = Ok st.
Proof.
  induction 1 as [|bs st U b st' evs ops U' Hh IH Hex E _ _]; [done|].
  rewrite index_blocks_app, IH. step_ok. cbn [index_blocks]. by rewrite E.
Qed.

Lemma lockstep_index bs d st : lockstep bs d st → index_blocks config (new_state config) bs = Ok st.
Proof. intros (U & Hh & _). by eapply history_index. Qed.

(** ** One block *)
Lemma index_block_lockstep bs d st b rebuilding :
  lockstep bs d st → extends config bs st b →
  (∃ d' st' evs, index_block config db (d, st) b rebuilding = ((d', st'), Ok tt)
     ∧ applyBlock config st b = (st', Ok evs) ∧ lockstep (bs ++ [b]) d' st'
     ∧ coveV3Cursor d' = [cursor_row (cursor st') rebuilding])
  ∨ (∃ e, index_block config db (d, st) b rebuilding = ((d, st), Throw e)
     ∧ (reliable → ∃ st', applyBlock config st b = (st', Throw e))).
Proof.
  intros Hl Hex. unfold index_block. destruct (applyBlock config st b) as [st' [evs|e]] eqn:E.
  - destruct (lockstep_persist config bs d st b st' evs rebuilding Hl Hex E) as (undo & d' & Eu & Hp & Hl' & Hcur).
    unfold transaction. rewrite Eu. cbn [of_option]. rewrite bind_of_Ok, Hp.
    destruct (commit_error db d') as [e|] eqn:Ec.
    + right. exists e. split; [done|]. intros Hr. by rewrite Hr in Ec.
    + left. by exists d', st', evs.
  - right. exists e. split; [done|]. intros _. by exists st'.
Qed.

Lemma unindex_block_lockstep bs d st b :
  lockstep (bs ++ [b]) d st →
  (∃ d' st', unindex_block config db (d, st) (blk_height b) = ((d', st'), Ok tt) ∧ lockstep bs d' st')
  ∨ (∃ e, unindex_block config db (d, st) (blk_height b) = ((d, st), Throw e) ∧ ¬ reliable).
Proof.
  intros Hl. destruct (lockstep_rollback config bs d st b Hl) as (undo & st0 & Eu & _ & Hub & _ & _ & Hl').
  unfold unindex_block. rewrite Eu, Hub. unfold transaction.
  destruct (commit_error db _) as [e|] eqn:Ec.
  - right. exists e. split; [done|]. intros Hr. by rewrite Hr in Ec.
  - left. by eexists _, _.
Qed.

(** ** The loops *)
Lemma fetch_served provider h b hash :
  blk_height b = h →
  getBlock provider hash = Ok {| cb_hash := blk_hash b; cb_previousBlockHash := blk_parentHash b;
                                 cb_rawTxs := blk_txs b |} →
  fetch_block provider h hash = Ok b.
Proof. intros <- Eb. unfold fetch_block. rewrite Eb. step_ok. by destruct b. Qed.

(** What a loop over the blocks [bs'] ends with. *)
Definition indexed_up_to (bs bs' : list V3BlockInput) (st : V3IndexerState) (w : V3Db * V3IndexerState)
    (done : Prop) : Prop :=
  ∃ pre post, bs' = pre ++ post ∧ lockstep (bs ++ pre) w.1 w.2
  ∧ (done → post = []) ∧ (reliable → is_ok (index_blocks config st bs') = true → done).

Lemma worker_loop_lockstep provider rebuilding bs' bs d st h n w r :
  lockstep bs d st → future bs st h bs' → serves provider h bs' →
  worker_loop config db (length bs') provider rebuilding (d, st) h n = (w, r) →
  indexed_up_to bs bs' st w (∃ k, r = Ok k).
Proof.
  revert bs d st h n. induction bs' as [|b bs' IH]; intros bs d st h n Hl Hf Hs; cbn [length worker_loop].
  { intros [= <- <-]. exists [], []. rewrite (app_nil_r bs). split_and!; [done..|]. intros. by eexists. }
  destruct (future_cons _ _ _ _ _ Hf) as (Eh & Hex & Hnext). cbn [serves] in Hs. destruct Hs as (_ & (hash & -> & Eb) & Hs).
  assert (already_indexed (d, st).2 h hash = false) as ->.
  { apply bool_decide_eq_false_2. rewrite <-Eh. cbn [snd]. by rewrite (nb_height _ _ _ (ex_next _ _ _ _ Hex)). }
  rewrite (fetch_served provider h b hash Eh Eb).
  destruct (index_block_lockstep bs d st b rebuilding Hl Hex)
    as [(d' & st' & evs & -> & E & Hl' & _)|(e & -> & He)].
  - intros Hw. destruct (IH _ _ _ _ _ Hl' (Hnext _ _ E) Hs Hw) as (pre & post & -> & Hlw & Hd & Hr).
    exists (b :: pre), post. rewrite <-app_assoc in Hlw. split_and!; [done..|]. intros Hrel. cbn [index_blocks].
    rewrite E. by apply Hr.
  - intros [= <- <-]. exists [], (b :: bs'). rewrite (app_nil_r bs). split_and!; [done|done|by intros [k Hk]|].
    intros Hrel. cbn [index_blocks]. destruct (He Hrel) as [st' ->]. done.
Qed.

Lemma index_up_lockstep provider bs' bs d st h acc w r :
  lockstep bs d st → future bs st h bs' → serves provider h bs' →
  index_up config db (length bs') provider (d, st) h acc = (w, r) →
  indexed_up_to bs bs' st w (r = Ok (acc ++ (blk_height <$> bs'))) ∧ ∀ x, r = Ok x → r = Ok (acc ++ (blk_height <$> bs')).
Proof.
  revert bs d st h acc. induction bs' as [|b bs' IH]; intros bs d st h acc Hl Hf Hs; cbn [length index_up].
  { intros [= <- <-]. rewrite app_nil_r. split; [|done]. exists [], []. rewrite (app_nil_r bs). by split_and!. }
  destruct (future_cons _ _ _ _ _ Hf) as (Eh & Hex & Hnext). cbn [serves] in Hs. destruct Hs as (_ & (hash & -> & Eb) & Hs).
  rewrite bind_of_Ok, (fetch_served provider h b hash Eh Eb).
  destruct (index_block_lockstep bs d st b false Hl Hex) as [(d' & st' & evs & -> & E & Hl' & _)|(e & -> & He)].
  - intros Hw. destruct (IH _ _ _ _ _ Hl' (Hnext _ _ E) Hs Hw) as [(pre & post & -> & Hlw & Hd & Hr) Hx].
    rewrite fmap_cons, Eh. rewrite <-app_assoc in Hd, Hr, Hx. split; [|done].
    exists (b :: pre), post. rewrite <-app_assoc in Hlw. split_and!; [done..|]. intros Hrel. cbn [index_blocks].
    rewrite E. by apply Hr.
  - intros [= <- <-]. split; [|done]. exists [], (b :: bs'). rewrite (app_nil_r bs). split_and!; [done..|].
    intros Hrel. cbn [index_blocks]. destruct (He Hrel) as [st' ->]. done.
Qed.

(** The blocks [stale] sit at the heights from [h] on. *)
Definition at_heights (h : Z) (stale : list V3BlockInput) : Prop :=
  ∀ i b, stale !! i = Some b → blk_height b = h + Z.of_nat i.

Lemma unindex_down_lockstep stale bs d st h acc w r :
  lockstep (bs ++ stale) d st → at_heights h stale →
  unindex_down config db (length stale) (d, st) (h + Z.of_nat (length stale) - 1) acc = (w, r) →
  ∃ pre post, stale = pre ++ post ∧ lockstep (bs ++ pre) w.1 w.2
  ∧ (∀ x, r = Ok x → pre = [] ∧ x = acc ++ reverse (blk_height <$> stale))
  ∧ (reliable → ∃ x, r = Ok x).
Proof.
  revert d st acc. induction stale as [|b stale IH] using rev_ind; intros d st acc Hl Hh.
  { cbn. intros [= <- <-]. exists [], []. split_and!; [done..| |by eexists]. intros x [= <-]. by rewrite app_nil_r. }
  rewrite length_app. cbn [length]. rewrite Nat.add_1_r. cbn [unindex_down].
  assert (blk_height b = h + Z.of_nat (length stale)) as Eb by (apply Hh, list_lookup_middle; done).
  replace (h + Z.of_nat (S (length stale)) - 1) with (blk_height b) by lia. rewrite app_assoc in Hl.
  destruct (unindex_block_lockstep (bs ++ stale) d st b Hl) as [(d' & st' & -> & Hl')|(e & -> & Hnr)].
  - replace (blk_height b - 1) with (h + Z.of_nat (length stale) - 1) by lia.
    intros Hw. destruct (IH d' st' (acc ++ [blk_height b]) Hl') as (pre & post & -> & Hlw & Hx & Hr); [|done|].
    { intros i b' E. apply Hh. by apply lookup_app_l_Some. }
    exists pre, (post ++ [b]). rewrite app_assoc. split_and!; [done..| |done].
    intros x [Hp ->]%Hx. split; [done|]. rewrite (fmap_app _ (pre ++ post) [b]), (reverse_app _ (_ <$> [b])). by rewrite <-app_assoc.
  - intros [= <- <-]. exists (stale ++ [b]), []. rewrite !app_nil_r, app_assoc. split_and!; [done..|].
    intros Hrel. by destruct Hnr.
Qed.

(** ** The walk back *)
Lemma walk_back_to_finds provider st floor a n fuel :
  (∀ h, a < h ≤ a + Z.of_nat n → ∃ hash, getBlockHash provider h = Ok hash ∧ already_indexed st h hash = false) →
  (a = floor ∨ floor < a ∧ ∃ hash, getBlockHash provider a = Ok hash ∧ already_indexed st a hash = true) →
  a + Z.of_nat n - floor ≤ Z.of_nat fuel →
  walk_back_to fuel provider st floor (a + Z.of_nat n) = Ok a.
Proof.
  intros Hst Ha. revert n Hst. induction fuel as [|fuel IH]; intros n Hst Hfuel.
  - assert (a = floor ∧ n = 0%nat) as [-> ->] by (destruct Ha as [->|[? _]]; lia). cbn [walk_back_to].
    rewrite Z.add_0_r. destruct (Z.ltb_spec floor floor); [lia|done].
  - cbn [walk_back_to]. destruct n as [|n].
    + rewrite Z.add_0_r. destruct (Z.ltb_spec floor a) as [Hlt|]; [|done].
      destruct Ha as [->|[_ (hash & -> & Hi)]]; [lia|]. step_ok. by rewrite Hi.
    + destruct (Z.ltb_spec floor (a + Z.of_nat (S n))); [|destruct Ha as [->|[? _]]; lia].
      destruct (Hst (a + Z.of_nat (S n))) as (hash & -> & Hne); [lia|]. step_ok. rewrite Hne.
      replace (a + Z.of_nat (S n) - 1) with (a + Z.of_nat n) by lia. apply IH; [|lia]. intros h Hh. apply Hst. lia.
Qed.

(** ** The theorems *)

(** the worker never leaves memory and database apart.  From a database in
    lockstep, on blocks that extend its chain, and whichever commits fail, the
    worker ends with the database in lockstep with the adopted state, at some
    prefix of the blocks; if it returns, all are indexed; and it returns if no
    commit fails and no block throws. *)
Theorem persistentWorker_lockstep bs d st bs' provider rebuilding w r :
  lockstep bs d st → future bs st (worker_start config st) bs' →
  getBlockchainInfo provider = Ok (worker_start config st + Z.of_nat (length bs') - 1) →
  serves provider (worker_start config st) bs' →
  persistentWorker config db provider rebuilding (d, st) = (w, r) →
  indexed_up_to bs bs' st w (∃ k, r = Ok {| wr_indexed := k; wr_finalHeight := cur_height (cursor w.2);
                                            wr_stateRoot := stateRoot w.2 |}).
Proof.
  intros Hl Hf Htip Hs. unfold persistentWorker. rewrite Htip. cbn [snd].
  replace (rounds _ _) with (length bs') by (unfold rounds; lia).
  destruct (worker_loop _ _ _ _ _ _ _ _) as [w' r'] eqn:Hw.
  pose proof (worker_loop_lockstep _ _ _ _ _ _ _ _ _ _ Hl Hf Hs Hw) as (pre & post & E & Hlw & Hd & Hr).
  intros Hwr. assert (w' = w) as -> by (destruct r'; by injection Hwr).
  exists pre, post. split_and!; [done..| |].
  - intros [k ->]. apply Hd. destruct r' as [k'|e]; [by exists k'|discriminate Hwr].
  - intros Hrel Hok. destruct (Hr Hrel Hok) as [k ->]. exists k. by injection Hwr.
Qed.

(** The highest block the index and Core agree on. *)
Definition common_height (st : V3IndexerState) : Z := Z.max (reorg_floor config) (cur_height (cursor st)).

(** Where the cursor of a chain stands. *)
Lemma lockstep_height common stale d st stA a :
  index_blocks config (new_state config) common = Ok stA → lockstep (common ++ stale) d st → at_heights (a + 1) stale →
  cur_height (cursor st) = if decide (stale = []) then cur_height (cursor stA) else a + Z.of_nat (length stale).
Proof.
  intros HA Hl Hh. destruct stale as [|b stale _] using rev_ind.
  - rewrite decide_True by done. rewrite app_nil_r in Hl. apply lockstep_index in Hl. congruence.
  - rewrite decide_False by (by destruct stale). rewrite app_assoc in Hl.
    destruct (lockstep_rollback config _ d st b Hl) as (undo & st0 & _ & _ & _ & [Hn _ _] & E & _).
    cbn [index_blocks] in E. destruct (applyBlock config st0 b) as [st' [evs|e]] eqn:Eb; [|done]. injection E as ->.
    apply applyBlock_Ok in Eb as (_ & _ & _ & _ & _ & _ & ->); [|apply Hn]. cbn.
    rewrite (Hh (length stale) b) by (by apply list_lookup_middle). rewrite length_app. cbn [length]. lia.
Qed.

Lemma start_ancestor tip height :
  (let ancestor := if tip <? height then tip else height in
   if ancestor <? reorg_floor config then reorg_floor config else ancestor)
  = Z.max (reorg_floor config) (Z.min tip height).
Proof.
  cbv zeta. destruct (Z.ltb_spec tip height).
  - rewrite Z.min_l by lia. destruct (Z.ltb_spec tip (reorg_floor config)); lia.
  - rewrite Z.min_r by lia. destruct (Z.ltb_spec height (reorg_floor config)); lia.
Qed.

Lemma reorg_run common stA stale d stB new provider w r :
  index_blocks config (new_state config) common = Ok stA →
  lockstep (common ++ stale) d stB →
  at_heights (common_height stA + 1) stale →
  getBlockchainInfo provider = Ok (common_height stA + Z.of_nat (length new)) →
  (common_height stA = reorg_floor config
   ∨ ∃ hash, getBlockHash provider (common_height stA) = Ok hash
       ∧ already_indexed stB (common_height stA) hash = true) →
  (∀ h, common_height stA < h ≤ common_height stA + Z.of_nat (length new) → h ≤ cur_height (cursor stB) →
     ∃ hash, getBlockHash provider h = Ok hash ∧ already_indexed stB h hash = false) →
  future common stA (common_height stA + 1) new → serves provider (common_height stA + 1) new →
  reorgPersistentToTip config db provider (d, stB) = (w, r) →
  (∃ pre post, (stale = pre ++ post ∨ new = pre ++ post) ∧ lockstep (common ++ pre) w.1 w.2)
  ∧ (∀ report, r = Ok report → lockstep (common ++ new) w.1 w.2
       ∧ report = {| commonAncestor := common_height stA; orphanedBlocks := reverse (blk_height <$> stale);
                     replayedBlocks := blk_height <$> new; finalRoot := stateRoot w.2 |})
  ∧ (reliable → is_ok (index_blocks config stA new) = true → is_ok r = true).
Proof.
  set (a := common_height stA). intros HA Hl Hh Htip Hcore Hne Hf Hs.
  pose proof (lockstep_height common stale d stB stA a HA Hl Hh) as Hcur.
  assert (reorg_floor config ≤ a) as Hfl by (unfold a, common_height; lia).
  assert (cur_height (cursor stB) ≤ a → stale = []) as Hst0 by (case_decide; [done|]; destruct stale; cbn in *; [done|lia]).
  unfold reorgPersistentToTip. rewrite Htip. cbn [snd].
  rewrite start_ancestor. set (tip := a + Z.of_nat (length new)) in *.
  set (anc := Z.max (reorg_floor config) (Z.min tip (cur_height (cursor stB)))).
  assert (a ≤ anc ∧ anc ≤ tip ∧ (a < anc → anc ≤ cur_height (cursor stB))) as (Ha1 & Ha2 & Ha3).
  { unfold anc, tip. rewrite Hcur. case_decide; unfold a, common_height in *; lia. }
  assert (rounds (a + 1) (cur_height (cursor stB)) = length stale) as Hrounds.
  { unfold rounds. rewrite Hcur. case_decide as Ed; [|lia]. rewrite Ed. cbn [length]. unfold a, common_height. lia. }
  replace anc with (a + Z.of_nat (Z.to_nat (anc - a))) at 2 by lia.
  rewrite (walk_back_to_finds provider stB (reorg_floor config) a) by
    (try lia; first [intros h Hh'; apply Hne; lia | destruct (decide (a = reorg_floor config)); [by left|right; split; [lia|by destruct Hcore]]]).
  rewrite Hrounds.
  destruct (unindex_down config db (length stale) (d, stB) (cur_height (cursor stB)) []) as [[d1 st1] r1] eqn:Hu.
  destruct (unindex_down_lockstep stale common d stB (a + 1) [] (d1, st1) r1 Hl Hh) as (pre & post & Est & Hl1 & Hx1 & Hr1).
  { rewrite <-Hu. destruct stale as [|b stale]; [done|]. f_equal. rewrite Hcur, decide_False by done. lia. }
  cbn [fst snd] in Hl1. destruct r1 as [orphaned|e].
  2:{ intros [= <- <-]. split_and!; [exists pre, post; split; [by left|done]|done|]. intros Hrel. by destruct (Hr1 Hrel). }
  destruct (Hx1 _ eq_refl) as [-> ->]. rewrite app_nil_r in Hl1.
  assert (st1 = stA) as -> by (apply lockstep_index in Hl1; congruence).
  replace (rounds (a + 1) tip) with (length new) by (unfold rounds, tip; lia).
  destruct (index_up config db (length new) provider (d1, stA) (a + 1) []) as [w2 r2] eqn:Hi.
  pose proof (index_up_lockstep provider new common d1 stA (a + 1) [] w2 r2 Hl1 Hf Hs Hi)
    as [(pre & post' & En & Hl2 & Hd2 & Hr2) Hx2].
  intros Hwr. assert (w2 = w) as -> by (destruct r2; by injection Hwr). split_and!.
  - exists pre, post'. split; [by right|done].
  - intros report ->. destruct r2 as [replayed|e]; [|discriminate Hwr].
    pose proof (Hx2 _ eq_refl) as [= ->]. rewrite (Hd2 eq_refl), app_nil_r in En. subst pre.
    split; [done|]. by injection Hwr as <-.
  - intros Hrel Hok. rewrite (Hr2 Hrel Hok) in Hwr. by injection Hwr as <-.
Qed.

(** C4: a persistent reorganisation, whatever fails on the way.  The index has
    [common ++ stale], Core has [common ++ new].  The engine ends with database
    and memory in lockstep: on a prefix of the stale chain if it was cut short
    while undoing, else on a prefix of the new chain; if it returns, on the whole new chain;
    and it returns if no commit fails and the new blocks do not throw. *)
Theorem reorgPersistentToTip_lockstep common stA stale d stB new provider w r :
  index_blocks config (new_state config) common = Ok stA →
  lockstep (common ++ stale) d stB →
  at_heights (common_height stA + 1) stale →
  getBlockchainInfo provider = Ok (common_height stA + Z.of_nat (length new)) →
  (common_height stA = reorg_floor config
   ∨ ∃ hash, getBlockHash provider (common_height stA) = Ok hash
       ∧ already_indexed stB (common_height stA) hash = true) →
  (∀ h, common_height stA < h ≤ common_height stA + Z.of_nat (length new) → h ≤ cur_height (cursor stB) →
     ∃ hash, getBlockHash provider h = Ok hash ∧ already_indexed stB h hash = false) →
  future common stA (common_height stA + 1) new → serves provider (common_height stA + 1) new →
  reorgPersistentToTip config db provider (d, stB) = (w, r) →
  (∃ pre post, (stale = pre ++ post ∨ new = pre ++ post) ∧ lockstep (common ++ pre) w.1 w.2)
  ∧ (∀ report, r = Ok report → lockstep (common ++ new) w.1 w.2
       ∧ report = {| commonAncestor := common_height stA; orphanedBlocks := reverse (blk_height <$> stale);
                     replayedBlocks := blk_height <$> new; finalRoot := stateRoot w.2 |})
  ∧ (reliable → is_ok (index_blocks config stA new) = true → is_ok r = true).
Proof. apply reorg_run. Qed.

(** ** Restarts *)
Lemma history_root bs st U : history config bs st U → cur_stateRoot (cursor st) = stateRoot st.
Proof.
  destruct 1 as [|bs st U b st' evs ops U' _ [Hn _ _] E _ _]; [done|].
  by destruct (applyBlock_Ok config st b st' evs (nb_active _ _ _ Hn) E) as (_ & _ & _ & _ & _ & _ & ->).
Qed.

(** C5: a restart loses nothing the protocol depends on.  Hydrating a database
    in lockstep succeeds in whatever order the rows come, and gives back the
    tokens, reserves, carriers, undo journal and cursor of the state that was
    in memory, with the same root, equal to the one the cursor stores (the
    events come back without their trades, in some order). *)
Theorem hydrateState_lockstep bs d st :
  lockstep bs d st →
  ∃ st', hydrateState d (cfg_network config) config = Ok st' ∧ recovers st' st
  ∧ stateRoot st' = stateRoot st ∧ cur_stateRoot (cursor st') = stateRoot st'
  ∧ computeStateRootFromDb d (cfg_network config) config = Ok (stateRoot st).
Proof.
  intros Hl. destruct (hydrate_lockstep config bs d st Hl) as (st' & E & Hr). destruct Hl as (U & Hh & _).
  pose proof (history_root _ _ _ Hh) as Hroot. destruct Hr as [Et Eb Eu Ee Ej Ec].
  pose proof (stateRoot_tables st st' Et Eb Eu) as Er. exists st'. split_and!; [done|by split|done|by rewrite Ec, Er|].
  unfold computeStateRootFromDb. rewrite E. step_ok. by rewrite Er.
Qed.

(** ** Verification *)
Lemma verify_each_None {A} (f : A → result VerifyResult) l :
  verify_each f l = Ok None → ∀ x, x ∈ l → f x = Ok None.
Proof.
  induction l as [|y l IH]; cbn [verify_each]; intros H x; [by intros ?%elem_of_nil|].
  apply bind_Ok in H as ([reason|] & Hy & H); [discriminate H|]. intros [->|Hx]%elem_of_cons; [done|by apply IH].
Qed.

(** What [quickVerify] found in order. *)
Record quick_ok (st : V3IndexerState) (provider : CoreRpcProvider) (getPrevout : PrevoutLookup) : Prop := {
  qo_tip : 0 < cur_height (cursor st) → getBlockHash provider (cur_height (cursor st)) = Ok (cur_blockHash (cursor st));
  qo_backing : ∀ t b, backing st !! t = Some b → ∃ p v,
    getPrevout (op_txid (bk_outpoint b)) (op_vout (bk_outpoint b)) = Ok (Some p)
    ∧ pv_valueSats p = bk_btcValue b ∧ pv_scriptPubKeyHex p = bk_scriptPubKey b
    ∧ buildBackingVaultV3 (bk_state b) (cfg_guardianXOnly config) (cfg_recoveryKeyXOnly config) None
        (Some (bitcoinNetwork config)) = Ok v
    ∧ toHex (v3_scriptPubKey v) = bk_scriptPubKey b
    ∧ bk_btcValue b = INDEXER_RESERVE_ANCHOR_SATS + backingSats (bk_state b);
  qo_utxos : ∀ k u, tokenUtxos st !! k = Some u → 0 < tu_amountAtoms u ∧ is_Some (tokens st !! tu_tokenId u);
  qo_distinct : NoDup (utxo_key <$> (map_to_list (tokenUtxos st)).*2);
}.

Lemma verify_backing_None getPrevout b :
  verify_backing config getPrevout b = Ok None → ∃ p v,
    getPrevout (op_txid (bk_outpoint b)) (op_vout (bk_outpoint b)) = Ok (Some p)
    ∧ pv_valueSats p = bk_btcValue b ∧ pv_scriptPubKeyHex p = bk_scriptPubKey b
    ∧ buildBackingVaultV3 (bk_state b) (cfg_guardianXOnly config) (cfg_recoveryKeyXOnly config) None
        (Some (bitcoinNetwork config)) = Ok v
    ∧ toHex (v3_scriptPubKey v) = bk_scriptPubKey b
    ∧ bk_btcValue b = INDEXER_RESERVE_ANCHOR_SATS + backingSats (bk_state b).
Proof.
  intros Hv. unfold verify_backing in Hv. apply bind_Ok in Hv as ([p|] & Hp & Hv); [|discriminate Hv]. cbv beta iota in Hv.
  destruct (Z.eqb_spec (pv_valueSats p) (bk_btcValue b)) as [Ev|]; [|done].
  destruct (String.eqb_spec (pv_scriptPubKeyHex p) (bk_scriptPubKey b)) as [Es|]; [|done]. cbn [negb] in Hv.
  apply bind_Ok in Hv as (v & Hvault & Hv). cbv beta iota in Hv.
  destruct (String.eqb_spec (toHex (v3_scriptPubKey v)) (bk_scriptPubKey b)) as [Ed|]; [|done]. cbn [negb] in Hv.
  destruct (Z.eqb_spec (bk_btcValue b) (INDEXER_RESERVE_ANCHOR_SATS + backingSats (bk_state b))); [|done].
  by exists p, v.
Qed.

Lemma verify_utxos_None ts us seen :
  verify_utxos ts us seen = None →
  (∀ u, u ∈ us → 0 < tu_amountAtoms u ∧ is_Some (ts !! tu_tokenId u) ∧ utxo_key u ∉ seen) ∧ NoDup (utxo_key <$> us).
Proof.
  revert seen. induction us as [|u us IH]; intros seen; cbn [verify_utxos]; intros H.
  { split; [by intros u ?%elem_of_nil|constructor]. }
  destruct (Z.leb_spec (tu_amountAtoms u) 0) as [|Hpos]; [done|].
  destruct (bool_decide (is_Some (ts !! tu_tokenId u))) eqn:Hts; cbn [negb] in H; [|done]. apply bool_decide_eq_true in Hts.
  case_bool_decide as Hin; [done|]. apply IH in H as [Hall Hnd]. split.
  - intros u' [->|Hu']%elem_of_cons; [done|]. destruct (Hall u' Hu') as (H1 & H2 & H3). split_and!; [done..|set_solver].
  - cbn [fmap list_fmap]. constructor; [|done]. intros (u' & E & Hu')%list_elem_of_fmap.
    destruct (Hall u' Hu') as (_ & _ & Hn). rewrite E in Hn. set_solver.
Qed.

Lemma cursor_mismatch_None st provider :
  cursor_mismatch st provider = Ok None →
  0 < cur_height (cursor st) → getBlockHash provider (cur_height (cursor st)) = Ok (cur_blockHash (cursor st)).
Proof.
  unfold cursor_mismatch. intros H Hpos. rewrite (proj2 (Z.ltb_lt _ _)) in H by lia.
  apply bind_Ok in H as (h & Hh & H). destruct (String.eqb_spec h (cur_blockHash (cursor st))) as [<-|]; [done|discriminate H].
Qed.

Lemma quickVerify_Ok st provider getPrevout :
  quickVerify config st provider getPrevout = Ok None → quick_ok st provider getPrevout.
Proof.
  unfold quickVerify. intros H. apply bind_Ok in H as ([c|] & Hc & H); [discriminate H|].
  cbv beta iota in H. apply bind_Ok in H as ([reason|] & Hv & H); [discriminate H|].
  cbv beta iota in H. destruct (_ && _); [discriminate H|]. injection H as H.
  apply verify_utxos_None in H as [Hall Hnd]. split; [by apply cursor_mismatch_None| | |done].
  - intros t b Hb. apply verify_backing_None. apply (verify_each_None _ _ Hv).
    apply list_elem_of_fmap. exists (t, b). split; [done|]. by apply elem_of_map_to_list.
  - intros k u Hu. destruct (Hall u) as (H1 & H2 & _); [|done].
    apply list_elem_of_fmap. exists (k, u). split; [done|]. by apply elem_of_map_to_list.
Qed.

Lemma fullVerify_Ok st provider :
  fullVerify config st provider = Ok None →
  cur_stateRoot (cursor st) = stateRoot st
  ∧ ∃ fresh, replay_fresh config (rounds 1 (cur_height (cursor st))) provider (new_state config) 1 = Ok fresh
  ∧ stateRoot fresh = stateRoot st.
Proof.
  unfold fullVerify. intros H. apply bind_Ok in H as ([c|] & _ & H); [discriminate H|].
  cbv beta iota in H. apply bind_Ok in H as (fresh & Hf & H). cbv zeta in H.
  destruct (String.eqb_spec (stateRoot st) (cur_stateRoot (cursor st))) as [E|]; [|discriminate H]. cbn [negb] in H.
  destruct (String.eqb_spec (stateRoot fresh) (stateRoot st)) as [E'|]; [|discriminate H]. split; [done|]. by exists fresh.
Qed.

(** what [quickVerify] accepts.  If it finds nothing wrong, every reserve
    is an unspent output of Bitcoin Core with the value and script on record,
    worth the anchor and R(supply), and the script on record is the one of the
    vault derived WITHOUT the recovery profile: on a network with one
    (mainnet), a state whose vaults the indexer derives with the profile passes
    only if both derivations give the same script. *)
Theorem quickVerify_sound st provider getPrevout t b :
  wf config st → quickVerify config st provider getPrevout = Ok None → backing st !! t = Some b →
  (∃ p, getPrevout (op_txid (bk_outpoint b)) (op_vout (bk_outpoint b)) = Ok (Some p)
     ∧ pv_valueSats p = INDEXER_RESERVE_ANCHOR_SATS + backingSats (bk_state b)
     ∧ pv_scriptPubKeyHex p = bk_scriptPubKey b)
  ∧ ∃ v v', buildBackingVaultV3 (bk_state b) (cfg_guardianXOnly config) (cfg_recoveryKeyXOnly config) None
              (Some (bitcoinNetwork config)) = Ok v
     ∧ buildBackingVaultV3 (bk_state b) (cfg_guardianXOnly config) (cfg_recoveryKeyXOnly config)
         (cfg_recoveryProfile config) (Some (bitcoinNetwork config)) = Ok v'
     ∧ v3_scriptPubKey v = v3_scriptPubKey v'.
Proof.
  intros Hwf H Hb.
  destruct (qo_backing _ _ _ (quickVerify_Ok _ _ _ H) t b Hb) as (p & v & Hp & Ev & Es & Hvault & Ed & _).
  destruct (wf_backing _ _ Hwf t b Hb) as [_ _ _ Hval _ Hscr].
  split; [exists p; split_and!; congruence|].
  unfold vault_script in Hscr. apply fmap_Ok in Hscr as (s & Hs & Ex). apply bind_Ok in Hs as (v' & Hv' & [= <-]).
  exists v, v'. split_and!; [done..|]. apply (f_equal fromHex) in Ed. rewrite <-Ex, !fromHex_toHex in Ed. done.
Qed.

Lemma replay_fresh_app n m provider st h st' :
  replay_fresh config n provider st h = Ok st' →
  replay_fresh config (n + m) provider st h = replay_fresh config m provider st' (h + Z.of_nat n).
Proof.
  revert st h. induction n as [|n IH]; intros st h; cbn [replay_fresh Nat.add].
  { intros [= ->]. by rewrite Z.add_0_r. }
  destruct (getBlockHash provider h) as [hash|e]; [|done]. rewrite !bind_of_Ok.
  destruct (fetch_block provider h hash) as [b|e]; [|done]. rewrite !bind_of_Ok.
  destruct (applyBlock config st b) as [st1 [evs|e]]; [|done]. intros H. rewrite (IH _ _ H). f_equal. lia.
Qed.

(** The blocks below the activation height change nothing. *)
Lemma replay_fresh_below n provider st h :
  (∀ k, h ≤ k < h + Z.of_nat n → k < cfg_genesisHeight config
    ∧ ∃ hash cb, getBlockHash provider k = Ok hash ∧ getBlock provider hash = Ok cb) →
  replay_fresh config n provider st h = Ok st.
Proof.
  revert h. induction n as [|n IH]; intros h Hk; cbn [replay_fresh]; [done|].
  destruct (Hk h) as (Hlt & hash & cb & -> & Eb); [lia|]. step_ok. unfold fetch_block. rewrite Eb. do 2 step_ok.
  unfold applyBlock. cbn [blk_height]. destruct (Z.ltb_spec h (cfg_genesisHeight config)); [|lia].
  apply IH. intros k ?. apply Hk. lia.
Qed.

Lemma replay_fresh_serves provider bs st h st' :
  serves provider h bs → index_blocks config st bs = Ok st' → replay_fresh config (length bs) provider st h = Ok st'.
Proof.
  revert st h. induction bs as [|b bs IH]; intros st h; cbn [serves index_blocks length replay_fresh]; [done|].
  intros (Eh & (hash & -> & Eb) & Hs) Hi. step_ok. rewrite (fetch_served provider h b hash Eh Eb). step_ok.
  destruct (applyBlock config st b) as [st1 [evs|e]]; [|done]. by apply IH.
Qed.

Lemma serves_app provider h bs bs' :
  serves provider h (bs ++ bs') → serves provider (h + Z.of_nat (length bs)) bs'.
Proof.
  revert h. induction bs as [|b bs IH]; intros h; cbn [serves app length]; [by rewrite Z.add_0_r|].
  intros (_ & _ & H). rewrite Nat2Z.inj_succ. replace (h + Z.succ (Z.of_nat (length bs))) with (h + 1 + Z.of_nat (length bs)) by lia.
  by apply IH.
Qed.

Lemma history_last bs st U b : history config (bs ++ [b]) st U →
  cur_height (cursor st) = blk_height b ∧ cur_blockHash (cursor st) = blk_hash b.
Proof.
  inversion 1 as [Enil|bs0 st0 U0 b0 st1 evs ops U1 _ [Hn _ _] E _ _ Eb]; [by destruct bs|].
  apply app_inj_tail in Eb as [-> ->].
  by destruct (applyBlock_Ok config st0 b st evs (nb_active _ _ _ Hn) E) as (_ & _ & _ & _ & _ & _ & ->).
Qed.

(** full verification accepts every database in lockstep with Core's own
    chain: if Core serves the indexed blocks, at the heights from the first
    indexed one on (the heights below it lie below the activation height, and
    Core has them), the replay from height 1 ends at the same root. *)
Theorem fullVerify_complete bs d st h provider :
  lockstep bs d st → 1 ≤ h → h = 1 ∨ h ≤ cfg_genesisHeight config →
  (∀ k, 1 ≤ k < h → ∃ hash cb, getBlockHash provider k = Ok hash ∧ getBlock provider hash = Ok cb) →
  serves provider h bs → (∀ hash cb, getBlock provider hash = Ok cb → cb_hash cb = hash) →
  fullVerify config st provider = Ok None.
Proof.
  intros (U & Hh & _) Hh1 Hgen Hlow Hs Hcore. pose proof (history_root _ _ _ Hh) as Hroot.
  pose proof (history_index _ _ _ Hh) as Hi. unfold fullVerify.
  destruct bs as [|b bs _] using rev_ind.
  { cbn in Hi. injection Hi as <-. unfold cursor_mismatch. change (rounds 1 _) with 0%nat. cbn [cursor new_state with_cursor cur_height cur_stateRoot Z.ltb Z.compare replay_fresh]. do 2 step_ok. by rewrite !String.eqb_refl. }
  destruct (history_last _ _ _ _ Hh) as [Ech Ecb]. pose proof (serves_app _ _ _ _ Hs) as (Eh & (hash & Ehash & Eb) & _).
  assert (hash = blk_hash b) as -> by (apply Hcore in Eb; cbn in Eb; congruence).
  unfold cursor_mismatch. rewrite Ech, Ecb, Eh. rewrite (proj2 (Z.ltb_lt _ _)) by lia. rewrite Ehash. step_ok.
  rewrite String.eqb_refl. step_ok.
  replace (rounds 1 _) with (Z.to_nat (h - 1) + length (bs ++ [b]))%nat by (unfold rounds; rewrite length_app; cbn [length]; lia).
  rewrite (replay_fresh_app _ _ _ _ _ (new_state config)).
  2:{ apply replay_fresh_below. intros k Hk. split; [lia|]. apply Hlow. lia. }
  replace (1 + Z.of_nat (Z.to_nat (h - 1))) with h by lia. rewrite (replay_fresh_serves provider _ _ _ st Hs Hi).
  step_ok. by rewrite Hroot, !String.eqb_refl.
Qed.

(** ** Rebuilds *)

(** Marked as rebuilding; the row is the one the rebuild starts with, or names
    the last block of the state. *)
Definition rebuilding (d : V3Db) (st : V3IndexerState) : Prop :=
  ∃ r, coveV3Cursor d = [r] ∧ cr_rebuilding r = true
  ∧ (cursor st = cursor (new_state config)
     ∨ cr_height r = cur_height (cursor st) ∧ cr_blockHash r = cur_blockHash (cursor st)).

Lemma apply_forward_cursor st block d ops d' :
  apply_forward_all st block d ops = Ok d' → coveV3Cursor d' = coveV3Cursor d.
Proof.
  revert d. induction ops as [|op ops IH]; intros d; cbn [apply_forward_all]; [by intros [= ->]|].
  intros (d1 & H1 & H2)%bind_Ok. rewrite (IH _ H2). destruct op; cbn [applyForward] in H1; res_inv H1; by subst.
Qed.

Lemma apply_forward_set_cursor st block d ops rows :
  apply_forward_all st block (set_cursor d rows) ops = (λ d, set_cursor d rows) <$> apply_forward_all st block d ops.
Proof.
  revert d. induction ops as [|op ops IH]; intros d; cbn [apply_forward_all]; [done|].
  assert (applyForward st block (set_cursor d rows) op = (λ d, set_cursor d rows) <$> applyForward st block d op) as ->.
  { destruct op; cbn [applyForward]; cbn [coveV3Tokens coveV3BackingStates coveV3TokenUtxos set_cursor set_backings];
      repeat (match goal with |- ?m ≫= _ = _ => destruct m; [rewrite !bind_of_Ok|done] end); reflexivity. }
  destruct (applyForward st block d op) as [d1|e]; cbn [fmap result_fmap]; [|done]. rewrite !bind_of_Ok. apply IH.
Qed.

Lemma upsert_cursor row (rows : list CursorRow) :
  (length rows ≤ 1)%nat → upsert_row cursor_key row (λ _, row) rows = [row].
Proof. destruct rows as [|r [|]]; cbn; [done|done|lia]. Qed.

(** A block overwrites the cursor's row, whatever it was. *)
Lemma persistBlock_set_cursor st block evs undo rb d rows :
  (length (coveV3Cursor d) ≤ 1)%nat → (length rows ≤ 1)%nat →
  persistBlock st block evs undo rb (set_cursor d rows) = persistBlock st block evs undo rb d.
Proof.
  intros Hd Hr. unfold persistBlock. cbn [coveV3Blocks set_cursor].
  destruct (insert_row block_key _ (coveV3Blocks d)) as [bl|e]; [rewrite !bind_of_Ok|done].
  cbn [coveV3Events set_blocks set_cursor]. destruct (insert_rows _ _ (coveV3Events d)) as [el|e]; [rewrite !bind_of_Ok|done].
  cbn [coveV3Undo set_events set_blocks set_cursor]. destruct (insert_row undo_key _ (coveV3Undo d)) as [ul|e]; [rewrite !bind_of_Ok|done].
  change (set_undos (set_events (set_blocks (set_cursor d rows) bl) el) ul)
    with (set_cursor (set_undos (set_events (set_blocks d bl) el) ul) rows).
  rewrite apply_forward_set_cursor. destruct (apply_forward_all _ _ _ _) as [d2|e] eqn:Ef; [|done].
  cbn [fmap result_fmap]. rewrite !bind_of_Ok. apply apply_forward_cursor in Ef. cbn in Ef.
  f_equal. unfold set_cursor. cbn. by rewrite !upsert_cursor by (rewrite ?Ef; done).
Qed.
(** So indexing from an empty projection whose cursor says "rebuilding" does
    what indexing from an empty database does, until a block is written. *)
Lemma index_block_set_cursor d st b rb rows w :
  (length (coveV3Cursor d) ≤ 1)%nat → (length rows ≤ 1)%nat →
  index_block config db (set_cursor d rows, st) b rb = (w, Ok tt) → index_block config db (d, st) b rb = (w, Ok tt).
Proof.
  intros Hd Hr. unfold index_block. destruct (applyBlock config st b) as [st' [evs|e]]; [|done].
  unfold transaction. destruct (of_option undefined_read (undoByHeight st' !! blk_height b)) as [undo|e]; [|done].
  rewrite !bind_of_Ok, persistBlock_set_cursor by done. destruct (persistBlock _ _ _ _ _ d) as [d'|e]; [|done].
  by destruct (commit_error db d').
Qed.

Lemma worker_loop_set_cursor n provider rb d st rows h k w r :
  (length (coveV3Cursor d) ≤ 1)%nat → (length rows ≤ 1)%nat →
  worker_loop config db n provider rb (set_cursor d rows, st) h k = (w, Ok r) →
  ∃ d1 rows1, w.1 = set_cursor d1 rows1 ∧ worker_loop config db n provider rb (d, st) h k = ((d1, w.2), Ok r).
Proof.
  intros Hd Hr. revert h k. induction n as [|n IH]; intros h k; cbn [worker_loop].
  { intros [= <- <-]. by exists d, rows. }
  destruct (getBlockHash provider h) as [hash|e]; [|done]. cbn [snd].
  destruct (already_indexed st h hash); [by apply IH|]. destruct (fetch_block provider h hash) as [b|e]; [|done].
  destruct (index_block config db (set_cursor d rows, st) b rb) as [w1 [[]|e]] eqn:E; [|done].
  rewrite (index_block_set_cursor _ _ _ _ _ _ Hd Hr E). intros Hw. exists w.1, (coveV3Cursor w.1).
  split; [by destruct w as [[] ?]|]. by destruct w.
Qed.

Lemma index_block_rebuilding d st b w r :
  cfg_genesisHeight config ≤ blk_height b → rebuilding d st →
  index_block config db (d, st) b true = (w, r) → rebuilding w.1 w.2.
Proof.
  intros Ha Hd. unfold index_block. destruct (applyBlock config st b) as [st' [evs|e]] eqn:Eb; [|by intros [= <- _]].
  destruct (applyBlock_Ok config st b st' evs Ha Eb) as (_ & _ & _ & _ & _ & _ & Ec).
  unfold transaction. destruct (of_option undefined_read _) as [undo|e]; [rewrite bind_of_Ok|by intros [= <- _]].
  destruct (persistBlock _ _ _ _ _ d) as [d'|e] eqn:E; [|by intros [= <- _]].
  destruct (commit_error db d'); [by intros [= <- _]|]. intros [= <- _]. destruct Hd as (r0 & Er & _).
  unfold persistBlock in E. apply bind_Ok in E as (? & _ & E). apply bind_Ok in E as (? & _ & E).
  apply bind_Ok in E as (? & _ & E). apply bind_Ok in E as (d2 & Hf & E). injection E as <-.
  apply apply_forward_cursor in Hf. cbn in Hf. eexists. cbn. rewrite upsert_cursor by (rewrite Hf, Er; done).
  split_and!; [done..|right; by rewrite Ec].
Qed.

Lemma worker_loop_rebuilding n provider w h k w' r :
  cfg_genesisHeight config ≤ h → rebuilding w.1 w.2 →
  worker_loop config db n provider true w h k = (w', r) → rebuilding w'.1 w'.2.
Proof.
  revert w h k. induction n as [|n IH]; intros [d st] h k Hh Hd; cbn [worker_loop]; [by intros [= <- _]|].
  destruct (getBlockHash provider h) as [hash|e]; [|by intros [= <- _]].
  case_match; [apply IH; [lia|done]|]. destruct (fetch_block provider h hash) as [b|e] eqn:Eb; [|by intros [= <- _]].
  assert (cfg_genesisHeight config ≤ blk_height b) as Hb.
  { unfold fetch_block in Eb. apply bind_Ok in Eb as (cb & _ & Eb). by injection Eb as <-. }
  destruct (index_block config db (d, st) b true) as [w1 [u|e]] eqn:E; pose proof (index_block_rebuilding _ _ _ _ _ Hb Hd E);
    [apply IH; [lia|done]|by intros [= <- _]].
Qed.

Lemma worker_start_active st : cfg_genesisHeight config ≤ worker_start config st.
Proof. unfold worker_start. destruct (Z.ltb_spec (cfg_genesisHeight config) (cur_height (cursor st) + 1)); lia. Qed.

(** The worker of a rebuild. *)
Lemma rebuild_worker provider d st d' st' r :
  rebuilding d st → persistentWorker config db provider true (d, st) = ((d', st'), r) →
  rebuilding d' st' ∧ ∀ report, r = Ok report → wr_finalHeight report = cur_height (cursor st') ∧ wr_stateRoot report = stateRoot st'.
Proof.
  intros Hd. unfold persistentWorker. destruct (getBlockchainInfo provider) as [tip|e]; [|by intros [= <- <- <-]].
  destruct (worker_loop _ _ _ _ _ _ _ _) as [w' r'] eqn:Ew. apply worker_loop_rebuilding in Ew; [|apply worker_start_active|done].
  destruct r' as [k|e]; intros [= -> <-]; split; [done| |done|done]. by intros report [= <-].
Qed.

Lemma rebuilding_health d st provider : rebuilding d st →
  hr_health (computeHealth d provider) = REBUILDING ∨ hr_health (computeHealth d provider) = CORE_UNREACHABLE.
Proof.
  intros (r & Er & Hr & _). unfold computeHealth, select. rewrite Er. cbn [List.filter].
  pose proof (select_order_perm [r]) as Hp. apply Permutation_singleton_r in Hp as ->. cbn [head].
  destruct (_ ≫= _) as [[? ?]|e]; cbn; rewrite ?Hr; auto.
Qed.

(** A cursor row for the state that was rebuilt hydrates as the old one did. *)
Lemma hydrate_set_cursor d st c network root :
  rebuilding d st → cr_height c = cur_height (cursor st) → cr_blockHash c = cur_blockHash (cursor st) →
  computeStateRootFromDb d network config = Ok root → computeStateRootFromDb (set_cursor d [c]) network config = Ok root.
Proof.
  intros (r & Er & _ & Hc) Eh Eb. unfold computeStateRootFromDb, hydrateState.
  cbn [coveV3Tokens coveV3BackingStates coveV3TokenUtxos coveV3Events coveV3Undo coveV3Cursor set_cursor]. rewrite Er.
  assert (∀ x : CursorRow, select (λ _, true) [x] = [x]) as Hone.
  { intros x. unfold select. cbn [List.filter]. by apply Permutation_singleton_r, select_order_perm. }
  rewrite !Hone.
  destruct (hydrate_tokens _ _) as [ts|e]; [rewrite !bind_of_Ok|done].
  destruct (hydrate_backings _ _ _) as [bs|e]; [rewrite !bind_of_Ok|done].
  destruct (require_backings _ _) as [[]|e]; [rewrite !bind_of_Ok|done].
  destruct (hydrate_utxos _ _ _) as [us|e]; [rewrite !bind_of_Ok|done].
  destruct (hydrate_undos _ _) as [undos|e]; [rewrite !bind_of_Ok|done].
  cbn [hydrate_cursor]. intros H. apply bind_Ok in H as (st0 & H & [= <-]). apply bind_Ok in H as (cur & H & [= <-]).
  apply bind_Ok in H as ([] & Hck & [= <-]). apply throw_if_Ok in Hck.
  assert (negb (is_hex64 (cr_blockHash c)) && negb (cr_height c =? 0) = false) as ->.
  { destruct Hc as [E|[E1 E2]]; [|by rewrite Eh, Eb, <-E1, <-E2].
    rewrite Eh, E. change (cur_height (cursor (new_state config)) =? 0) with true. by rewrite andb_false_r. }
  cbn [throw_if]. by do 2 step_ok.
Qed.

(** The tables but for the cursor's row. *)
Lemma lockstep_set_cursor bs d st rb :
  lockstep bs d st → lockstep bs (set_cursor d [cursor_row (cursor st) rb]) st.
Proof.
  intros (U & Hh & [Ht Hb He Hu] & _). exists U. split_and!; [done| |right; by exists rb].
  destruct Ht as [T1 T2 T3]. by split.
Qed.

(** Core's chain, and what the rebuild indexes of it. *)
Definition core_chain (provider : CoreRpcProvider) (bs : list V3BlockInput) : Prop :=
  let start := worker_start config (new_state config) in
  future [] (new_state config) start bs
  ∧ getBlockchainInfo provider = Ok (start + Z.of_nat (length bs) - 1)
  ∧ serves provider start bs.

Lemma rebuild_lockstep provider rows bs d' st' report rb :
  (length rows ≤ 1)%nat → core_chain provider bs →
  persistentWorker config db provider true (set_cursor empty_db rows, new_state config) = ((d', st'), Ok report) →
  lockstep bs (set_cursor d' [cursor_row (cursor st') rb]) st'.
Proof.
  intros Hr (Hf & Htip & Hs) H.
  assert (∃ d1 rows1, d' = set_cursor d1 rows1
    ∧ persistentWorker config db provider true (empty_db, new_state config) = ((d1, st'), Ok report)) as (d1 & rows1 & -> & H1).
  { unfold persistentWorker in H |- *. destruct (getBlockchainInfo provider) as [tip|e]; [|done]. cbn [snd] in H |- *.
    destruct (worker_loop _ _ _ _ _ (set_cursor _ _, _) _ _) as [w [k|e]] eqn:Ew; [|done].
    apply worker_loop_set_cursor in Ew as (d1 & rows1 & E1 & ->); [|cbn; lia|done].
    injection H as -> <-. cbn [fst snd] in *. by exists d1, rows1. }
  destruct (persistentWorker_lockstep [] empty_db (new_state config) bs provider true _ _ (lockstep_new config) Hf Htip Hs H1)
    as (pre & post & -> & Hl & Hd & _). cbn [fst snd app] in Hl.
  assert (post = []) as ->.
  { apply Hd. unfold persistentWorker in H1. destruct (getBlockchainInfo provider) as [tip|e]; [|done].
    destruct (worker_loop _ _ _ _ _ _ _ _) as [w [k|e]]; [|done]. injection H1 as -> <-. by eexists. }
  rewrite app_nil_r. apply lockstep_set_cursor with (rb := rb) in Hl. exact Hl.
Qed.


Lemma transaction_total d (f : V3Db → V3Db) d' r :
  transaction db d (λ d, Ok (f d)) = (d', r) → (d' = d ∧ ∃ e, r = Throw e) ∨ (d' = f d ∧ r = Ok tt).
Proof. unfold transaction. destruct (commit_error db (f d)) as [e|]; intros [= <- <-]; [left; eauto|by right]. Qed.

Lemma verify_rebuild_Ok d st report network provider getPrevout :
  verify_rebuild config d st report network provider getPrevout = Ok tt →
  computeStateRootFromDb d network config = Ok (wr_stateRoot report)
  ∧ quick_ok st provider getPrevout
  ∧ cur_stateRoot (cursor st) = stateRoot st
  ∧ ∃ fresh, replay_fresh config (rounds 1 (cur_height (cursor st))) provider (new_state config) 1 = Ok fresh
    ∧ stateRoot fresh = stateRoot st.
Proof.
  unfold verify_rebuild, require_ok. intros H. apply bind_Ok in H as (root & Hroot & H).
  apply bind_Ok in H as ([] & Heq & H). apply throw_if_Ok, negb_false_iff, String.eqb_eq in Heq as ->.
  apply bind_Ok in H as ([] & Hq & H). apply bind_Ok in Hq as ([|] & Hq & Hq'); [discriminate Hq'|].
  apply bind_Ok in H as ([|] & Hf & Hf'); [discriminate Hf'|].
  split; [done|]. split; [by apply quickVerify_Ok|]. by apply fullVerify_Ok in Hf.
Qed.

(** What a rebuild that returned has checked, of the state it built from what
    Core served: the tip, every reserve against Core's unspent outputs and the
    vault derived for it, every carrier, and a replay of Core's chain. *)
Record verified (st : V3IndexerState) (report : WorkerReport) (provider : CoreRpcProvider)
    (getPrevout : PrevoutLookup) : Prop := {
  ve_root : stateRoot st = wr_stateRoot report;
  ve_height : cur_height (cursor st) = wr_finalHeight report;
  ve_quick : quick_ok st provider getPrevout;
  ve_replay : ∃ fresh, replay_fresh config (rounds 1 (wr_finalHeight report)) provider (new_state config) 1 = Ok fresh
    ∧ stateRoot fresh = wr_stateRoot report;
}.

(** C6: a rebuild fails safe.  Whatever Core answers and whichever commits
    fail, a [reindexDb] that throws leaves the database untouched or marked as
    rebuilding, which the health gate never reports as healthy.  When one
    returns, the tables it leaves hydrate to the root it reports, and their
    cursor names the height, hash and root of the state it built; that state
    has that root, its tip is Core's block at its height, each of its reserves
    is an unspent output of Core with the script of its vault and the value of
    its supply, its carriers are distinct, positive and of known tokens, and
    replaying Core's chain from height 1 ends at the same root.  Where Core
    served one chain throughout, the tables are in lockstep with that state,
    at the end of that chain. *)
Theorem reindexDb_fail_safe d network provider getPrevout d' r :
  (length (coveV3Cursor d) ≤ 1)%nat →
  reindexDb config db d network provider getPrevout = (d', r) →
  match r with
  | Throw e => d' = d ∨ ∀ p, hr_health (computeHealth d' p) = REBUILDING ∨ hr_health (computeHealth d' p) = CORE_UNREACHABLE
  | Ok report => ∃ st,
      computeStateRootFromDb d' network config = Ok (wr_stateRoot report)
      ∧ coveV3Cursor d' = [{| cr_height := wr_finalHeight report; cr_blockHash := cur_blockHash (cursor st);
                              cr_stateRoot := wr_stateRoot report; cr_rebuilding := false |}]
      ∧ verified st report provider getPrevout
      ∧ ∀ bs, core_chain provider bs → lockstep bs d' st
  end.
Proof.
  intros Hlen. unfold reindexDb.
  assert (∃ row, coveV3Cursor (start_rebuild d) = [row] ∧ cr_rebuilding row = true) as (row & Erow & Hrow).
  { unfold start_rebuild. cbn [coveV3Cursor set_cursor]. rewrite upsert_cursor by done. by eexists. }
  assert (rebuilding (start_rebuild d) (new_state config)) as H1 by (exists row; split_and!; [done..|by left]).
  assert (∀ d0 st0 e, rebuilding d0 st0 → (d0, Throw e) = (d', r) →
    match r with Throw _ => d' = d ∨ ∀ p, hr_health (computeHealth d' p) = REBUILDING ∨ hr_health (computeHealth d' p) = CORE_UNREACHABLE
    | Ok _ => False end) as Hfail.
  { intros d0 st0 e Hd [= <- <-]. right. intros p. by eapply rebuilding_health. }
  destruct (transaction db d _) as [d1 r1] eqn:E1. apply transaction_total in E1 as [[-> [e ->]]|[-> ->]];
    [intros [= <- <-]; by left|].
  destruct (transaction db (start_rebuild d) _) as [d2 r2] eqn:E2. apply transaction_total in E2 as [[-> [e ->]]|[-> ->]];
    [intros Hr; specialize (Hfail _ _ _ H1 Hr); by destruct r|].
  assert (rebuilding (clear_projection (start_rebuild d)) (new_state config)) as H2 by exact H1.
  assert (clear_projection (start_rebuild d) = set_cursor empty_db [row]) as Eclear by (by rewrite <-Erow).
  destruct (persistentWorker config db provider true _) as [[d3 st] r3] eqn:E3.
  pose proof (rebuild_worker _ _ _ _ _ _ H2 E3) as [H3 Hrep]. rewrite Eclear in E3.
  destruct r3 as [report|e]; [|intros Hr; specialize (Hfail _ _ _ H3 Hr); by destruct r].
  destruct (verify_rebuild config d3 st report network provider getPrevout) as [[]|e] eqn:Ev;
    [|intros Hr; specialize (Hfail _ _ _ H3 Hr); by destruct r].
  destruct (transaction db d3 _) as [d4 r4] eqn:E4. apply transaction_total in E4 as [[-> [e ->]]|[-> ->]];
    [intros Hr; specialize (Hfail _ _ _ H3 Hr); by destruct r|].
  intros [= <- <-]. destruct (Hrep _ eq_refl) as [Efin Eroot]. apply verify_rebuild_Ok in Ev as (Hroot & Hq & Hcr & Hfull).
  set (c := {| cr_height := wr_finalHeight report; cr_blockHash := cur_blockHash (cursor st);
               cr_stateRoot := wr_stateRoot report; cr_rebuilding := false |}).
  assert (finish_rebuild report st d3 = set_cursor d3 [c]) as ->.
  { unfold finish_rebuild. destruct H3 as (c0 & Ec & _). by rewrite Ec. }
  exists st. split_and!.
  - by eapply hydrate_set_cursor.
  - done.
  - split; [done..|]. by rewrite Efin, Eroot.
  - intros bs Hbs. replace c with (cursor_row (cursor st) false); [by eapply (rebuild_lockstep provider [row])|].
    unfold cursor_row, c. by rewrite Efin, Eroot, Hcr.
Qed.
End Inv.
