(* ===== verification/ReadInv.v ===== *)
(** * What readers of the database see

    On a database in lockstep ([Lockstep]) the balances and holders of the API
    are those of the live carriers, and the snapshot the Guardian reads answers
    like the indexer's own view, on the token it was loaded for. *)
From S2P Require Import Prelude Bytes Curve Economics Wire Covenant Vault Json Undo Indexer IndexerInv.
From S2P Require Import Store StoreInv Hydrate Persistent Lockstep.

#[export] Instance OutPoint_eq_dec : EqDecision OutPoint.
Proof. solve_decision. Defined.

(** ** Sums over carriers *)
Lemma zsum_list_perm {A} (f : A → Z) l l' : l ≡ₚ l' → zsum (f <$> l) = zsum (f <$> l').
Proof. intros H. apply zsum_perm. by rewrite H. Qed.

Lemma live_total m t : live m t = total t (map_to_list m).*2.
Proof.
  induction m as [|k u m Hk IH] using map_ind; [done|]. rewrite live_insert_fresh by done. rewrite IH.
  unfold total. rewrite (zsum_list_perm _ (map_to_list (<[k:=u]> m)).*2 (u :: (map_to_list m).*2)); [done|].
  by rewrite map_to_list_insert.
Qed.

Definition held (t s : string) (u : V3TokenUtxo) : Z :=
  if String.eqb (tu_tokenId u) t && String.eqb (tu_scriptPubKey u) s then tu_amountAtoms u else 0.

Lemma balanceByScript_sum us t s : balanceByScript us t s = zsum (held t s <$> us).
Proof.
  unfold balanceByScript. rewrite <-(Z.add_0_l (zsum _)), <-foldl_add_zsum.
  generalize 0. induction us as [|u us IH]; intros acc; cbn [foldl]; [done|]. rewrite IH. f_equal.
  unfold held. case_match; lia.
Qed.

(** ** tokenHolders *)
Definition holding (m : list (string * Z)) (s : string) : Z := zsum ((λ kv, if String.eqb kv.1 s then kv.2 else 0) <$> m).

Lemma holding_single m s a : NoDup m.*1 → (s, a) ∈ m → holding m s = a.
Proof.
  unfold holding. induction m as [|[s' a'] m IH]; [by intros _ ?%elem_of_nil|]. cbn [fmap list_fmap fst snd].
  intros [Hn Hd]%NoDup_cons [[= <- <-]|Hin]%elem_of_cons; cbn; unfold zsum in *; cbn.
  - rewrite String.eqb_refl. enough (holding m s = 0) as H by (unfold holding, zsum in H; lia). unfold holding.
    clear IH Hd. induction m as [|[s' a'] m IH]; [done|]. cbn in Hn. apply not_elem_of_cons in Hn as [Hne Hn]. cbn.
    rewrite (proj2 (String.eqb_neq _ _)) by done. unfold zsum in *. cbn. by rewrite IH.
  - rewrite (IH Hd Hin). assert (s' ≠ s) as Hne by (intros ->; apply Hn; by apply (list_elem_of_fmap_2 fst _ (s, a))).
    by rewrite (proj2 (String.eqb_neq _ _)).
Qed.

Lemma holder_add_spec m s a :
  (∀ s', s' ∈ (holder_add m s a).*1 ↔ s' = s ∨ s' ∈ m.*1)
  ∧ (NoDup m.*1 → NoDup (holder_add m s a).*1)
  ∧ zsum (holder_add m s a).*2 = zsum m.*2 + a
  ∧ ∀ s', holding (holder_add m s a) s' = holding m s' + if String.eqb s s' then a else 0.
Proof.
  induction m as [|[s0 x] m (H1 & H2 & H3 & H4)]; cbn [holder_add].
  { split_and!.
    - intros s'. cbn. set_solver.
    - intros _. apply NoDup_singleton.
    - cbn. unfold zsum. cbn. lia.
    - intros s'. unfold holding, zsum. cbn. case_match; lia. }
  destruct (String.eqb_spec s0 s) as [->|Hne]; split_and!.
  - intros s'. cbn. set_solver.
  - done.
  - cbn. unfold zsum. cbn. lia.
  - intros s'. unfold holding, zsum. cbn. case_match; lia.
  - intros s'. cbn. specialize (H1 s'). set_solver.
  - cbn. intros [Hn Hd]%NoDup_cons. apply NoDup_cons. split; [|auto]. rewrite H1. by intros [->|?].
  - cbn. unfold zsum in *. cbn. lia.
  - intros s'. specialize (H4 s'). unfold holding, zsum in *. cbn. lia.
Qed.

Lemma tokenHolders_spec us t :
  NoDup (tokenHolders us t).*1
  ∧ zsum (tokenHolders us t).*2 = total t us
  ∧ ∀ s a, (s, a) ∈ tokenHolders us t → a = balanceByScript us t s.
Proof.
  assert (∀ m, NoDup m.*1 → let h := foldl (λ m u, if String.eqb (tu_tokenId u) t
      then holder_add m (tu_scriptPubKey u) (tu_amountAtoms u) else m) m us in
    NoDup h.*1 ∧ zsum h.*2 = zsum m.*2 + total t us
    ∧ ∀ s, holding h s = holding m s + zsum (held t s <$> us)) as H.
  { induction us as [|u us IH]; intros m Hm; cbn [foldl].
    { unfold total, zsum. cbn. split_and!; [done|lia|intros; lia]. }
    destruct (String.eqb (tu_tokenId u) t) eqn:Et.
    - destruct (holder_add_spec m (tu_scriptPubKey u) (tu_amountAtoms u)) as (_ & H2 & H3 & H4).
      destruct (IH _ (H2 Hm)) as (I1 & I2 & I3). split_and!; [done| |].
      + rewrite I2, H3. unfold total, contrib, zsum. cbn. rewrite Et. lia.
      + intros s. rewrite I3, H4. unfold held, zsum. cbn. rewrite Et. cbn. lia.
    - destruct (IH _ Hm) as (I1 & I2 & I3). split_and!; [done| |].
      + rewrite I2. unfold total, contrib, zsum. cbn. rewrite Et. lia.
      + intros s. rewrite I3. unfold held, zsum. cbn. rewrite Et. cbn. lia. }
  destruct (H [] (NoDup_nil_2)) as (H1 & H2 & H3). fold (tokenHolders us t) in *. split_and!; [done|done|].
  intros s a Hin. rewrite balanceByScript_sum. rewrite <-(holding_single _ s a H1 Hin), H3. done.
Qed.

Section Reads.
Context {C : Crypto} {B : Bitcoin} {L : Locale} {PG : Postgres}.
Context (config : V3IndexerConfig).

(** The live rows a query selects are the carriers it asks for. *)
Lemma selected_utxos rows U m (p : V3TokenUtxo → bool) (q : UtxoRow → bool) :
  table utxo_row_key rows U → live_ok m U → (∀ u, q (utxoRow u) = p u) →
  utxo_of_row <$> select (λ r, q r && live_row r) rows ≡ₚ List.filter p (map_to_list m).*2.
Proof.
  intros Ht Hl Hq. pose proof (live_rows rows U m Ht Hl) as Hlive.
  assert (∀ r, r ∈ select (λ r, q r && live_row r) rows ↔ q r = true ∧ r ∈ select live_row rows) as Hsel.
  { intros r. rewrite !elem_of_select, andb_true_iff. tauto. }
  apply NoDup_Permutation.
  - assert (NoDup (utxo_row_key <$> select (λ r, q r && live_row r) rows)) as Hd
      by by apply NoDup_select, (tb_nodup _ _ _ Ht).
    apply (NoDup_fmap_1 utxo_pair). by rewrite <-list_fmap_compose.
  - assert (NoDup (map_to_list m).*2) as Hd.
    { apply (NoDup_fmap_1 utxo_key). replace (utxo_key <$> (map_to_list m).*2) with (map_to_list m).*1;
        [apply NoDup_fst_map_to_list|]. rewrite <-list_fmap_compose. apply list_fmap_ext. intros i [k u] E. cbn.
      symmetry. apply (lo_keyed _ _ Hl). by apply elem_of_map_to_list, list_elem_of_lookup_2 with i. }
    by apply NoDup_ListNoDup, List.NoDup_filter, NoDup_ListNoDup.
  - intros u. rewrite (list_elem_of_In (List.filter p _) u), filter_In, <-(list_elem_of_In _ u), !list_elem_of_fmap. split.
    + intros (r & -> & [Hr (u' & -> & Hm)%Hlive]%Hsel). rewrite Hq in Hr. destruct u' as [a b c d e f g].
      split; [|exact Hr]. exists (utxo_key {| tu_txid := a; tu_vout := b; tu_tokenId := c; tu_amountAtoms := d;
        tu_scriptPubKey := e; tu_createdHeight := f; tu_createdBlockHash := g |}, {| tu_txid := a; tu_vout := b;
        tu_tokenId := c; tu_amountAtoms := d; tu_scriptPubKey := e; tu_createdHeight := f; tu_createdBlockHash := g |}).
      split; [done|]. by apply elem_of_map_to_list.
    + intros [([k u'] & -> & Hm%elem_of_map_to_list) Hp]. cbn in *. pose proof (lo_keyed _ _ Hl _ _ Hm) as <-.
      exists (utxoRow u'). split; [by destruct u'|]. apply Hsel. rewrite Hq. split; [done|]. apply Hlive. by exists u'.
Qed.

(** The row of a key. *)
Lemma selected_row {R} (key : R → string) (p : R → bool) l m k :
  table key l m → (∀ r, r ∈ l → p r = true) →
  select (λ r, String.eqb (key r) k && p r) l = option_list (m !! k).
Proof.
  intros Ht Hp. set (q := λ r, String.eqb (key r) k && p r).
  assert (∀ r, r ∈ select q l ↔ m !! k = Some r) as H.
  { intros r. rewrite elem_of_select. unfold q. split.
    - intros [Hr [E%String.eqb_eq _]%andb_true_iff]. apply (tb_rows _ _ _ Ht) in Hr. by rewrite E in Hr.
    - intros E. pose proof (tb_keyed _ _ _ Ht _ _ E) as <-. rewrite String.eqb_refl. apply (tb_rows _ _ _ Ht) in E. split; [done|]. cbn. by apply Hp. }
  pose proof (NoDup_select key q l (tb_nodup _ _ _ Ht)) as Hd.
  destruct (m !! k) as [r|]; cbn [option_list].
  - apply Permutation_singleton_r, NoDup_Permutation; [by eapply NoDup_fmap_1|apply NoDup_singleton|].
    intros x. rewrite H, list_elem_of_singleton. naive_solver.
  - destruct (select q l) as [|r rs]; [done|]. discriminate (proj1 (H r) (list_elem_of_here _ _)).
Qed.

Lemma token_utxo_rows_carriers d U m t :
  table utxo_row_key (coveV3TokenUtxos d) U → live_ok m U →
  utxo_of_row <$> token_utxo_rows d t ≡ₚ List.filter (λ u, String.eqb (tu_tokenId u) t) (map_to_list m).*2.
Proof. intros Ht Hl. by apply (selected_utxos (coveV3TokenUtxos d) U m _ (λ r, String.eqb (ur_tokenId r) t)). Qed.

Lemma total_filter t us : total t (List.filter (λ u, String.eqb (tu_tokenId u) t) us) = total t us.
Proof.
  unfold total, contrib, zsum. induction us as [|u us IH]; [done|]. cbn [List.filter].
  destruct (String.eqb (tu_tokenId u) t) eqn:E; cbn; rewrite ?E, IH; lia.
Qed.

Lemma balance_filter us t s : balanceByScript (List.filter (λ u, String.eqb (tu_tokenId u) t) us) t s = balanceByScript us t s.
Proof.
  rewrite !balanceByScript_sum. unfold held, zsum. induction us as [|u us IH]; [done|]. cbn [List.filter].
  destruct (String.eqb (tu_tokenId u) t) eqn:E; cbn; rewrite ?E, IH; cbn; lia.
Qed.

Lemma balance_perm us us' t s : us ≡ₚ us' → balanceByScript us t s = balanceByScript us' t s.
Proof. intros H. rewrite !balanceByScript_sum. by apply zsum_list_perm. Qed.

Lemma getBalanceByScriptDb_carriers d U m t s :
  table utxo_row_key (coveV3TokenUtxos d) U → live_ok m U →
  getBalanceByScriptDb d t s = balanceByScript (map_to_list m).*2 t s.
Proof.
  intros Ht Hl. unfold getBalanceByScriptDb. rewrite (foldl_add_zsum ur_amountAtoms), Z.add_0_l.
  pose proof (selected_utxos (coveV3TokenUtxos d) U m (λ u, String.eqb (tu_tokenId u) t && String.eqb (tu_scriptPubKey u) s)
    (λ r, String.eqb (ur_tokenId r) t && String.eqb (ur_scriptPubKey r) s) Ht Hl (λ _, eq_refl)) as Hp.
  rewrite balanceByScript_sum. change ur_amountAtoms with (tu_amountAtoms ∘ utxo_of_row).
  rewrite list_fmap_compose, (zsum_list_perm _ _ _ Hp). unfold held, zsum. clear.
  induction (map_to_list m).*2 as [|u us IH]; [done|]. cbn [List.filter].
  destruct (String.eqb (tu_tokenId u) t && String.eqb (tu_scriptPubKey u) s) eqn:E; cbn [fmap list_fmap foldr]; rewrite E, IH; lia.
Qed.

(** the balances and holders of the API account for the supply.  On a
    database in lockstep, the holders of a token are distinct scripts, each
    with the balance the balance query gives it, which is what its live
    carriers hold; together they hold exactly the live supply, never more than
    is issued. *)
Theorem holders_account_for_supply bs d st t b :
  lockstep config bs d st → backing st !! t = Some b →
  let holders := getTokenHoldersDb d t in
  NoDup holders.*1
  ∧ (∀ s a, (s, a) ∈ holders → a = getBalanceByScriptDb d t s
       ∧ a = balanceByScript (map_to_list (tokenUtxos st)).*2 t s)
  ∧ zsum holders.*2 = live (tokenUtxos st) t
  ∧ zsum holders.*2 ≤ issuedPublicSupplyAtoms (bk_state b).
Proof.
  intros (U & Hh & [[_ _ Hu] _ _ _] & _) Hb. pose proof (history_sound _ _ _ _ Hh) as [Hwf _ Hl _ _ _ _].
  unfold getTokenHoldersDb. pose proof (token_utxo_rows_carriers d U _ t Hu Hl) as Hp.
  destruct (tokenHolders_spec (utxo_of_row <$> token_utxo_rows d t) t) as (H1 & H2 & H3).
  assert (zsum (tokenHolders (utxo_of_row <$> token_utxo_rows d t) t).*2 = live (tokenUtxos st) t) as Hsum.
  { rewrite H2, live_total. unfold total. rewrite (zsum_list_perm _ _ _ Hp). apply total_filter. }
  cbv zeta. split_and!; [done| |done|].
  - intros s a ->%H3. rewrite (getBalanceByScriptDb_carriers d U _ t s Hu Hl).
    rewrite (balance_perm _ _ t s Hp), balance_filter. done.
  - rewrite Hsum. by apply (uo_supply _ _ (wf_utxos _ _ Hwf)).
Qed.

(** ** The Guardian's snapshot *)
Lemma snapshot_utxos us outs k :
  NoDup (row_string_key <$> us) →
  foldl (λ m u, if wanted outs u then <[outpointKey (ur_txid u) (ur_vout u) := snapshot_utxo u]> m else m)
    (∅ : gmap string TokenUtxo) us !! k
  = snapshot_utxo <$> find (λ u, wanted outs u && String.eqb (row_string_key u) k) us.
Proof.
  intros Hd. assert (∀ m : gmap string TokenUtxo, (∀ u, u ∈ us → m !! row_string_key u = None) →
    foldl (λ m u, if wanted outs u then <[outpointKey (ur_txid u) (ur_vout u) := snapshot_utxo u]> m else m) m us !! k
    = match find (λ u, wanted outs u && String.eqb (row_string_key u) k) us with
      | Some u => Some (snapshot_utxo u) | None => m !! k end) as H.
  { induction us as [|u us IH]; intros m Hm; cbn [foldl find]; [done|].
    apply NoDup_cons in Hd as [Hn Hd]. fold (row_string_key u).
    destruct (wanted outs u) eqn:Ew; cbn [andb].
    - rewrite IH; [|done|].
      + destruct (String.eqb_spec (row_string_key u) k) as [Ek|Hne]; [|by rewrite lookup_insert_ne].
        destruct (find _ us) as [v|] eqn:Ef; [|by rewrite Ek, lookup_insert_eq].
        apply find_some in Ef as [Hv [_ Ev%String.eqb_eq]%andb_true_iff]. destruct Hn.
        rewrite Ek, <-Ev. apply list_elem_of_fmap_2. by apply list_elem_of_In.
      + intros v Hv. rewrite lookup_insert_ne; [apply Hm; by right|]. intros E. apply Hn. rewrite E. by apply list_elem_of_fmap_2.
    - apply IH; [done|]. intros v Hv. apply Hm. by right. }
  rewrite H by (intros; by rewrite lookup_empty). rewrite lookup_empty. by destruct (find _ us).
Qed.

(** The carrier at an outpoint, if it holds the token. *)
Definition own_utxo (st : V3IndexerState) (tokenId : list byte) (o : OutPoint) : option TokenUtxo :=
  u ← tokenUtxos st !! opKey o;
  if String.eqb (tu_tokenId u) (toHex tokenId) then getTokenUtxo st o else None.

Lemma wanted_key outs (u : UtxoRow) o :
  row_string_key u = opKey o → (outs = [] ∨ o ∈ outs) → wanted outs u = true.
Proof.
  intros Ek Ho. unfold wanted. destruct outs as [|o' outs]; [done|]. destruct Ho as [|Ho]; [done|].
  apply existsb_exists. exists o. split; [by apply list_elem_of_In|]. unfold row_string_key in Ek. rewrite Ek.
  by apply String.eqb_refl.
Qed.

Lemma snapshot_getTokenUtxo d U st tokenId outs o :
  table utxo_row_key (coveV3TokenUtxos d) U → live_ok (tokenUtxos st) U → (outs = [] ∨ o ∈ outs) →
  snap_getTokenUtxo (loadCanonicalViewSnapshotFromDb d (toHex tokenId) outs) o = own_utxo st tokenId o.
Proof.
  intros Ht Hl Ho. unfold snap_getTokenUtxo, loadCanonicalViewSnapshotFromDb. cbn [ds_utxoByOutpoint].
  set (rows := token_utxo_rows d (toHex tokenId)).
  rewrite snapshot_utxos by (apply string_keys, NoDup_select, (tb_nodup _ _ _ Ht)).
  assert (∀ r, r ∈ rows ↔ ∃ u, r = utxoRow u ∧ tokenUtxos st !! utxo_key u = Some u ∧ tu_tokenId u = toHex tokenId) as Hr.
  { intros r. unfold rows, token_utxo_rows. rewrite elem_of_select, andb_true_iff, String.eqb_eq.
    pose proof (live_rows _ U _ Ht Hl r) as Hlive. rewrite elem_of_select in Hlive. split.
    - intros (Hin & Et & Hlv). destruct (proj1 Hlive (conj Hin Hlv)) as (u & -> & Hm). by exists u.
    - intros (u & -> & Hm & Et). destruct (proj2 Hlive) as [? ?]; [by exists u|]. done. }
  unfold own_utxo, getTokenUtxo. fold (opKey o).
  destruct (find _ rows) as [r|] eqn:Ef.
  - apply find_some in Ef as [Hin%list_elem_of_In [_ Ek%String.eqb_eq]%andb_true_iff].
    apply Hr in Hin as (u & -> & Hm & Et). change (row_string_key (utxoRow u)) with (utxo_key u) in Ek.
    rewrite <-Ek, Hm. cbn [mbind option_bind]. rewrite Et, String.eqb_refl. unfold snapshot_utxo. cbn. by rewrite Et.
  - destruct (tokenUtxos st !! opKey o) as [u|] eqn:Em; [|done]. cbn [mbind option_bind].
    destruct (String.eqb_spec (tu_tokenId u) (toHex tokenId)) as [Et|]; [|done]. exfalso.
    pose proof (lo_keyed _ _ Hl _ _ Em) as Ek.
    assert (utxoRow u ∈ rows) as Hin by (apply Hr; exists u; by rewrite Ek).
    pose proof (find_none _ _ Ef (utxoRow u) (proj1 (list_elem_of_In _ _) Hin)) as Hf. cbv beta in Hf.
    rewrite (wanted_key outs (utxoRow u) o) in Hf by done.
    change (row_string_key (utxoRow u)) with (utxo_key u) in Hf. by rewrite Ek, String.eqb_refl in Hf.
Qed.

(** A token carrier is found exactly where one is. *)
Lemma carriers_at d U st o :
  table utxo_row_key (coveV3TokenUtxos d) U → live_ok (tokenUtxos st) U →
  getLiveTokenUtxosAtDb d [(op_txid o, op_vout o)] ≠ [] ↔ is_Some (tokenUtxos st !! opKey o).
Proof.
  intros Hu Hl. pose proof (live_rows _ U _ Hu Hl) as Hlive. split.
  - destruct (getLiveTokenUtxosAtDb d [(op_txid o, op_vout o)]) as [|r l] eqn:E; [done|]. intros _.
    assert (r ∈ r :: l) as Hr by apply list_elem_of_here. rewrite <-E in Hr. unfold getLiveTokenUtxosAtDb in Hr.
    apply elem_of_select in Hr as [Hin [Hlv Ho]%andb_true_iff]. cbn in Ho.
    rewrite orb_false_r in Ho. apply andb_true_iff in Ho as [E1%String.eqb_eq E2%Z.eqb_eq].
    destruct (proj1 (Hlive r)) as (u & -> & Hm); [by apply elem_of_select|]. exists u. rewrite <-Hm. f_equal.
    unfold opKey, utxo_key. cbn in E1, E2. by rewrite E1, E2.
  - intros [u Hm]. pose proof (lo_keyed _ _ Hl _ _ Hm) as Ek. apply outpointKey_inj_pair in Ek as [E1 E2].
    assert (utxoRow u ∈ getLiveTokenUtxosAtDb d [(op_txid o, op_vout o)]) as Hin.
    { assert (utxoRow u ∈ select live_row (coveV3TokenUtxos d)) as [Hi Hlv]%elem_of_select.
      { apply Hlive. exists u. split; [done|]. unfold utxo_key. by rewrite E1, E2. }
      unfold getLiveTokenUtxosAtDb. apply elem_of_select. split; [done|]. rewrite Hlv. cbn.
      by rewrite E1, E2, String.eqb_refl, Z.eqb_refl. }
    intros E. rewrite E in Hin. by apply elem_of_nil in Hin.
Qed.

(** C15: the Guardian's snapshot is the indexer's view of its token.  On a
    database in lockstep, the snapshot loaded for a token answers every query
    about it (its reserve, the reserve's outpoint, its creator, the carriers of
    it at the outpoints it was loaded for) as the indexer's own state does, it
    holds no carrier of another token, and it stands at the indexer's cursor;
    and the lookup that refuses token carriers as funding finds a carrier
    exactly where the indexer has one, of any token. *)
Theorem snapshot_refines_view bs d st tokenId outs :
  lockstep config bs d st →
  let s := loadCanonicalViewSnapshotFromDb d (toHex tokenId) outs in
  snap_getCurrentBackingState s tokenId = getCurrentBackingState st tokenId
  ∧ snap_getBackingOutpoint s tokenId = getBackingOutpoint st tokenId
  ∧ snap_getTokenCreatorScript s tokenId = getTokenCreatorScript st tokenId
  ∧ (∀ o, outs = [] ∨ o ∈ outs → snap_getTokenUtxo s o = own_utxo st tokenId o)
  ∧ (∀ o, snap_getBackingStateByOutpoint s o =
       b ← backing st !! toHex tokenId; if decide (bk_outpoint b = o) then Some (bk_state b) else None)
  ∧ (ds_cursorHeight s, ds_cursorBlockHash s) = (cur_height (cursor st), cur_blockHash (cursor st))
  ∧ ∀ o, getLiveTokenUtxosAtDb d [(op_txid o, op_vout o)] ≠ [] ↔ is_Some (tokenUtxos st !! opKey o).
Proof.
  intros (U & Hh & [[Ht Hb Hu] _ _ _] & Hc) s. pose proof (history_sound _ _ _ _ Hh) as [Hwf _ Hl _ _ _ _].
  assert (getCurrentBackingDb d (toHex tokenId) = option_list (back_rows (backing st) !! toHex tokenId)) as Ebk.
  { apply (selected_row backing_key kr_canonical _ _ _ Hb). intros r Hr%(tb_rows _ _ _ Hb). revert Hr.
    unfold back_rows. rewrite lookup_fmap. by intros (b & _ & ->)%fmap_Some. }
  assert (token_rows d (toHex tokenId) = option_list (tok_rows (tokens st) !! toHex tokenId)) as Etk.
  { apply (selected_row token_key tr_canonical _ _ _ Ht). intros r Hr%(tb_rows _ _ _ Ht). revert Hr.
    unfold tok_rows. rewrite lookup_fmap. by intros (m & _ & ->)%fmap_Some. }
  unfold back_rows in Ebk. rewrite lookup_fmap in Ebk. unfold tok_rows in Etk. rewrite lookup_fmap in Etk.
  assert (∀ b, backing st !! toHex tokenId = Some b → state_of_row (backingRow b) = bk_state b
    ∧ row_outpoint (backingRow b) = bk_outpoint b ∧ tokenIdV2 (bk_state b) = toHex tokenId) as Hrow.
  { intros b E. destruct (wf_backing _ _ Hwf _ _ E) as [E1 E2 _ _ _ _]. split_and!; [|by destruct b as [? ? ? []]|done].
    unfold state_of_row, backingRow. cbn. rewrite E1, <-E2. by destruct (bk_state b). }
  split_and!.
  - unfold snap_getCurrentBackingState, getCurrentBackingState, s, loadCanonicalViewSnapshotFromDb. cbn [ds_tokenId ds_currentBacking].
    rewrite String.eqb_refl, Ebk. destruct (backing st !! toHex tokenId) as [b|]; [|done]. cbn.
    by destruct (Hrow b eq_refl) as [-> _].
  - unfold snap_getBackingOutpoint, getBackingOutpoint, s, loadCanonicalViewSnapshotFromDb. cbn [ds_tokenId ds_currentOutpoint].
    rewrite String.eqb_refl, Ebk. destruct (backing st !! toHex tokenId) as [b|]; [|done]. cbn.
    by destruct (Hrow b eq_refl) as (_ & -> & _).
  - unfold snap_getTokenCreatorScript, getTokenCreatorScript, s, loadCanonicalViewSnapshotFromDb. cbn [ds_tokenId ds_token].
    rewrite String.eqb_refl, Etk. by destruct (tokens st !! toHex tokenId).
  - intros o Ho. by eapply snapshot_getTokenUtxo.
  - intros o. unfold snap_getBackingStateByOutpoint, s, loadCanonicalViewSnapshotFromDb.
    cbn [ds_backingByOutpoint ds_currentBacking ds_tokenId]. rewrite Ebk.
    destruct (backing st !! toHex tokenId) as [b|] eqn:E; [|done]. cbn [fmap option_fmap option_map mbind option_bind].
    change (option_list (Some (backingRow b))) with [backingRow b]. cbn [foldl last fmap option_fmap option_map].
    destruct (Hrow b eq_refl) as (-> & -> & E2). case_decide as Ed.
    + subst o. rewrite lookup_insert_eq, E2, String.eqb_refl. done.
    + rewrite lookup_insert_ne; [done|]. unfold opKey. intros [E3 E4]%outpointKey_inj_pair. apply Ed.
      destruct (bk_outpoint b), o. cbn in *. congruence.
  - unfold s, loadCanonicalViewSnapshotFromDb. cbn [ds_cursorHeight ds_cursorBlockHash].
    assert (select (λ _, true) (coveV3Cursor d) ≡ₚ coveV3Cursor d) as Hp by by apply select_all.
    destruct Hc as [[Ec Es]|[rb Ec]]; rewrite Ec in Hp |- *.
    + apply Permutation_nil_r in Hp as ->. by rewrite Es.
    + by apply Permutation_singleton_r in Hp as ->.
  - intros o. by apply (carriers_at d U).
Qed.
End Reads.
