(* ===== verification/Monitors.v ===== *)
(** * The invariant monitors: packages/cove-app/src/invariants.ts

    The two checks on the indexer's tables that are to stop trading when they
    fail: a backing holds the reserve of its supply, and the carriers that are
    unspent or burned add up to the supply. *)
From S2P Require Import Prelude Bytes Curve Economics Wire Covenant Vault Json Undo Indexer IndexerInv.
From S2P Require Import Store StoreInv Hydrate Persistent Lockstep.

Record InvariantResult := { iv_tokenId : string; iv_ok : bool; iv_reason : option string }.

Definition invariant_holds (t : string) : InvariantResult := {| iv_tokenId := t; iv_ok := true; iv_reason := None |}.
Definition invariant_fails (t reason : string) : InvariantResult := {| iv_tokenId := t; iv_ok := false; iv_reason := Some reason |}.

(** [new Map(rows.map((b) => [b.tokenId, b]))]: the last row of a token stays. *)
Definition by_token (rows : list BackingRow) : gmap string BackingRow :=
  foldl (λ m b, <[kr_tokenId b := b]> m) ∅ rows.

(** A value as the database driver hands it over. *)
Inductive PgValue := PgBigint (z : Z) | PgText (s : string).

(** [actual === expected] and [`${actual}`] *)
Definition same_bigint (v : PgValue) (z : Z) : bool := match v with PgBigint y => y =? z | PgText _ => false end.
Definition value_text (v : PgValue) : string := match v with PgBigint z => pretty z | PgText s => s end.

Section Monitors.
Context {PG : Postgres}.

Definition monitored_tokens (d : V3Db) : list TokenRow := select tr_canonical (coveV3Tokens d).
Definition monitored_backings (d : V3Db) : gmap string BackingRow := by_token (select kr_canonical (coveV3BackingStates d)).

Definition check_backing (b : option BackingRow) (t : string) : result InvariantResult :=
  match b with
  | None => Ok (invariant_fails t "missing backing")
  | Some b =>
      let supplyTokens := Z.quot (kr_issuedSupplyAtoms b) ATOMS_PER_TOKEN in
      expected ← requiredBackingSats supplyTokens;
      Ok (if negb (kr_backingSats b =? expected) then
            invariant_fails t ("backing " +:+ pretty (kr_backingSats b) +:+ " != R(" +:+ pretty supplyTokens +:+ ") " +:+ pretty expected)
          else if negb (kr_btcValue b =? RESERVE_ANCHOR_SATS + kr_backingSats b) then
            invariant_fails t ("btcValue " +:+ pretty (kr_btcValue b) +:+ " != anchor+backing")
          else invariant_holds t)
  end.

Fixpoint check_backings (backings : gmap string BackingRow) (tokens : list TokenRow) : result (list InvariantResult) :=
  match tokens with
  | [] => Ok []
  | t :: rest =>
      r ← check_backing (backings !! tr_tokenId t) (tr_tokenId t);
      rs ← check_backings backings rest;
      Ok (r :: rs)
  end.

Definition checkBackingInvariant (d : V3Db) : result (list InvariantResult) :=
  check_backings (monitored_backings d) (monitored_tokens d).

(** [or(isNull(spentByTxid), eq(burned, true))] *)
Definition counted_row (r : UtxoRow) : bool :=
  ur_canonical r && (bool_decide (ur_spentByTxid r = None) || ur_burned r).

Definition counted_rows (d : V3Db) (t : string) : list UtxoRow :=
  List.filter (λ r, counted_row r && String.eqb (ur_tokenId r) t) (coveV3TokenUtxos d).

Definition counted_sum (d : V3Db) (t : string) : Z := zsum (ur_amountAtoms <$> counted_rows d t).

(** How the driver hands over a [numeric], the type of the sum of a bigint
    column. *)
Context (numeric : Z → PgValue).

(** The group of a token: none when it has no such row. *)
Definition sum_of_token (d : V3Db) (t : string) : PgValue :=
  match counted_rows d t with [] => PgBigint 0 | _ => numeric (counted_sum d t) end.

Definition check_supply (d : V3Db) (t : string) : InvariantResult :=
  let expected := default 0 (kr_issuedSupplyAtoms <$> monitored_backings d !! t) in
  let actual := sum_of_token d t in
  if same_bigint actual expected then invariant_holds t
  else invariant_fails t ("utxo sum " +:+ value_text actual +:+ " != issued " +:+ pretty expected).

Definition checkSupplyInvariant (d : V3Db) : list InvariantResult :=
  (λ t, check_supply d (tr_tokenId t)) <$> monitored_tokens d.
End Monitors.

(** ** The rows add up *)

(** What a row holds of a token. *)
Definition row_holds (t : string) (r : UtxoRow) : Z :=
  if counted_row r && String.eqb (ur_tokenId r) t then ur_amountAtoms r else 0.
Notation utxo_rows := (gmap (string * Z) UtxoRow).
Definition held (U : utxo_rows) (t : string) : Z := zsum (row_holds t <$> (map_to_list U).*2).

Lemma held_insert U p r t : U !! p = None → held (<[p := r]> U) t = row_holds t r + held U t.
Proof. intros H. unfold held. by rewrite (zsum_perm _ (row_holds t <$> ((p, r) :: map_to_list U).*2)) by by rewrite map_to_list_insert. Qed.

Lemma held_alter U p r f t : U !! p = Some r → held (alter f p U) t + row_holds t r = held U t + row_holds t (f r).
Proof.
  intros H. rewrite <- (insert_delete_id U p r H) at 2. rewrite held_insert by apply lookup_delete_eq.
  replace (alter f p U) with (<[p := f r]> (delete p U)); [rewrite held_insert by apply lookup_delete_eq; lia|].
  apply map_eq. intros q. destruct (decide (q = p)) as [->|].
  - by rewrite lookup_insert_eq, lookup_alter_eq, H.
  - by rewrite lookup_insert_ne, lookup_delete_ne, lookup_alter_ne by done.
Qed.

Lemma row_holds_utxoRow t u : row_holds t (utxoRow u) = contrib t u.
Proof. done. Qed.

Lemma held_insert_all us U t :
  NoDup (utxo_pair <$> us) → Forall (λ u, U !! utxo_pair u = None) us → held (U_insert us U) t = held U t + total t us.
Proof.
  unfold U_insert, total. revert U. induction us as [|u us IH]; intros U Hn Hf; cbn; [lia|].
  apply NoDup_cons in Hn as [Hu Hn]. apply Forall_cons in Hf as [Hfu Hf]. rewrite IH; [|done|].
  - rewrite held_insert, row_holds_utxoRow by done. unfold zsum. cbn. lia.
  - rewrite Forall_forall in Hf |- *. intros v Hv. rewrite lookup_insert_ne; [by apply Hf|].
    intros E. apply Hu. rewrite E. by apply list_elem_of_fmap_2.
Qed.

Lemma held_mark us txid b U t :
  NoDup (utxo_pair <$> us) → Forall (λ u, U !! utxo_pair u = Some (utxoRow u)) us →
  held (U_mark us txid b None U) t = held U t - total t us.
Proof.
  unfold U_mark, total. revert U. induction us as [|u us IH]; intros U Hn Hf; cbn; [lia|].
  apply NoDup_cons in Hn as [Hu Hn]. apply Forall_cons in Hf as [Hfu Hf]. rewrite IH; [|done|].
  - pose proof (held_alter U _ _ (spent_set (Some txid) (Some (blk_height b)) (Some (blk_hash b)) None) t Hfu) as E.
    rewrite row_holds_utxoRow in E. unfold row_holds at 1, counted_row in E. cbn in E. unfold zsum. cbn. lia.
  - rewrite Forall_forall in Hf |- *. intros v Hv. rewrite lookup_alter_ne; [by apply Hf|].
    intros E. apply Hu. rewrite E. by apply list_elem_of_fmap_2.
Qed.

(** Burning a counted row leaves it counted. *)
Lemma held_burn us txid b U t :
  Forall (λ u, ∃ r, U !! utxo_pair u = Some r ∧ counted_row r = true) us → held (U_mark us txid b (Some true) U) t = held U t.
Proof.
  unfold U_mark. revert U. induction us as [|u us IH]; intros U Hf; cbn; [done|].
  apply Forall_cons in Hf as [(r & Hr & Hc) Hf]. set (f := spent_set _ _ _ _).
  assert (∀ x, counted_row x = true → counted_row (f x) = true ∧ row_holds t (f x) = row_holds t x) as Hx.
  { intros x Hcx. assert (counted_row (f x) = true) as Hfx.
    { unfold counted_row in *. apply andb_true_iff in Hcx as [Hcx _]. cbn. by rewrite Hcx, ?orb_true_r. }
    split; [done|]. unfold row_holds. by rewrite Hcx, Hfx. }
  rewrite IH.
  - pose proof (held_alter U _ _ f t Hr) as E. destruct (Hx r Hc) as [_ Ex]. rewrite Ex in E. lia.
  - rewrite Forall_forall in Hf |- *. intros v Hv. destruct (Hf v Hv) as (x & Hxv & Hcx).
    destruct (decide (utxo_pair v = utxo_pair u)) as [->|Hne].
    + rewrite lookup_alter_eq, Hr. exists (f r). split; [done|]. by apply Hx.
    + rewrite lookup_alter_ne by done. by exists x.
Qed.

Lemma fresh_after_mark (us : list V3TokenUtxo) (txid : string) (b : V3BlockInput) (x : option bool) (cr : list V3TokenUtxo) (U : utxo_rows) :
  Forall (λ u, U !! utxo_pair u = None) cr → Forall (λ u, U_mark us txid b x U !! utxo_pair u = None) cr.
Proof. intros Hf. eapply Forall_impl; [exact Hf|]. intros u Hu. rewrite lookup_U_mark. case_decide; by rewrite Hu. Qed.

Lemma total_nil t : total t [] = 0.
Proof. done. Qed.

Lemma run_held block M U ops M' U' : run block M U ops M' U' → live_ok (mu M) U →
  ∀ t, held U' t + issued (mb M !! t) = held U t + issued (mb M' !! t).
Proof.
  induction 1 as [|M U op M1 ops M2 U2 Hd Hfr _ IH]; [done|]. intros Hl t.
  specialize (IH (delta_live _ _ _ _ _ Hd Hfr Hl) t). destruct Hfr as [Hn Hfr].
  assert (held (U_forward block op U) t + issued (mb M !! t) = held U t + issued (mb M1 !! t)) as Hop; [|lia].
  clear IH. destruct Hd as [t' meta b Hnt Hnb Hmt Hbt Hbal|t' prior b cr Hp Hbt Hbal|tx sp cr Hc Hbal|t' tx prior b sp cr Hp Hbt Hc Hbal|tx sp Hc];
    cbn [U_forward op_created mb mu] in *.
  - destruct Hbal as [_ Hbal]. specialize (Hbal t). rewrite total_nil in Hbal. lia.
  - destruct Hbal as [_ Hbal]. specialize (Hbal t). rewrite total_nil in Hbal. rewrite held_insert_all by done. lia.
  - destruct Hbal as [Hns Hbal]. specialize (Hbal t). pose proof (rows_of_carriers _ _ _ Hl Hc) as Hrows.
    rewrite held_insert_all, held_mark by (done || by apply fresh_after_mark).
    lia.
  - destruct Hbal as [Hns Hbal]. specialize (Hbal t). pose proof (rows_of_carriers _ _ _ Hl Hc) as Hrows.
    rewrite held_insert_all, held_mark by (done || by apply fresh_after_mark).
    lia.
  - rewrite held_burn; [done|]. eapply Forall_impl; [by apply (rows_of_carriers _ _ _ Hl Hc)|]. intros u Hu. exists (utxoRow u). by split.
Qed.

Section Lockstep.
Context {C : Crypto} {B : Bitcoin} {L : Locale} {PG : Postgres}.
Context (config : V3IndexerConfig).

Lemma history_held bs st U : history config bs st U → ∀ t, held U t = issued (backing st !! t).
Proof.
  induction 1 as [|bs st U b st' evs ops U' Hh IH _ _ _ Hrun]; intros t; [done|].
  pose proof (run_held _ _ _ _ _ _ Hrun (so_live _ _ _ _ (history_sound config _ _ _ Hh)) t) as E.
  rewrite IH in E. cbn in E. lia.
Qed.

Lemma table_filter_held l U t : table utxo_row_key l U →
  zsum (ur_amountAtoms <$> List.filter (λ r, counted_row r && String.eqb (ur_tokenId r) t) l) = held U t.
Proof.
  intros Ht. unfold held. rewrite <- (zsum_perm _ _ (fmap_Permutation (row_holds t) _ _ (table_map_to_list _ _ _ Ht))).
  clear Ht. induction l as [|r l IH]; [done|]. cbn [List.filter fmap list_fmap]. unfold row_holds at 1.
  destruct (counted_row r && String.eqb (ur_tokenId r) t); cbn; unfold zsum in *; cbn; lia.
Qed.

Lemma monitored_backings_lookup d st U t :
  stored d st U → backing_keyed (backing st) → monitored_backings d !! t = backingRow <$> backing st !! t.
Proof.
  intros [[_ Hb _] _ _ _] Hk. unfold monitored_backings, by_token. apply option_eq. intros r.
  assert (∀ r, r ∈ select kr_canonical (coveV3BackingStates d) ↔ back_rows (backing st) !! kr_tokenId r = Some r) as Hbr.
  { intros x. rewrite elem_of_select, (tb_rows _ _ _ Hb). split; [by intros [? _]|]. intros E. split; [done|].
    revert E. unfold back_rows. rewrite lookup_fmap. intros (b & _ & ->)%fmap_Some. done. }
  rewrite (foldl_insert_empty kr_tokenId (λ r, r)) by (apply NoDup_select, Hb).
  change (backingRow <$> backing st !! t) with (backingRow <$> (backing st !! t)). rewrite <- lookup_fmap. split.
  - intros (x & Hx%Hbr & <- & <-). exact Hx.
  - intros E. exists r. pose proof E as E'. rewrite lookup_fmap in E'. apply fmap_Some in E' as (b & Eb & ->).
    assert (kr_tokenId (backingRow b) = t) as Et by (cbn; by apply Hk).
    split_and!; [apply Hbr; by rewrite Et|done|done].
Qed.

Lemma check_backings_ok (bm : gmap string BackingRow) tokens :
  Forall (λ t, check_backing (bm !! tr_tokenId t) (tr_tokenId t) = Ok (invariant_holds (tr_tokenId t))) tokens →
  check_backings bm tokens = Ok (invariant_holds ∘ tr_tokenId <$> tokens).
Proof. induction 1 as [|t tokens Ht _ IH]; [done|]. cbn [check_backings]. rewrite Ht, bind_of_Ok, IH, bind_of_Ok. done. Qed.

Lemma check_backing_ok t b : backing_ok config t b → check_backing (Some (backingRow b)) t = Ok (invariant_holds t).
Proof.
  intros [_ _ Hv Hval _ _]. apply validateStateV2_Ok in Hv as (_ & k & Hk & Es). unfold check_backing.
  cbn [kr_issuedSupplyAtoms kr_backingSats kr_btcValue backingRow]. rewrite Hval, Es.
  cbn [issuedPublicSupplyAtoms backingSats state_at]. rewrite requiredBackingSats_lots, bind_of_Ok by done.
  by rewrite Z.eqb_refl, Z.eqb_refl.
Qed.

Lemma monitored_known d st U r : stored d st U → (∀ t, is_Some (tokens st !! t) ↔ is_Some (backing st !! t)) →
  r ∈ monitored_tokens d → ∃ b, backing st !! tr_tokenId r = Some b.
Proof.
  intros [[Ht _ _] _ _ _] Hk [Hr _]%elem_of_select. apply (tb_rows _ _ _ Ht) in Hr.
  unfold tok_rows in Hr. rewrite lookup_fmap in Hr. apply fmap_Some in Hr as (m & Hm & _).
  destruct (proj1 (Hk (tr_tokenId r))) as [b Hb]; [by exists m|by exists b].
Qed.

Lemma check_supply_token numeric d t : iv_tokenId (check_supply numeric d t) = t.
Proof. unfold check_supply. by destruct (same_bigint _ _). Qed.

(** C16: on tables in step with the indexer, whatever blocks and reorganisations
    led to them, both figures the monitors compare are equal for every token:
    each backing row holds the anchor and the reserve of its supply, and the
    carriers that are unspent or burned add up to what was issued.  So the
    backing check passes every token; and the supply check would pass every
    token if the driver returned a sum as a bigint, but with the text that
    node-postgres returns for a [numeric] it fails every token that has a
    supply. *)
Theorem monitors_on_index bs d st :
  lockstep config bs d st →
  checkBackingInvariant d = Ok (invariant_holds ∘ tr_tokenId <$> monitored_tokens d)
  ∧ (∀ t, counted_sum d t = issued (backing st !! t))
  ∧ checkSupplyInvariant PgBigint d = invariant_holds ∘ tr_tokenId <$> monitored_tokens d
  ∧ ∀ r, r ∈ checkSupplyInvariant (λ z, PgText (pretty z)) d → issued (backing st !! iv_tokenId r) ≠ 0 → iv_ok r = false.
Proof.
  intros (U & Hh & Hst & _). pose proof (so_wf _ _ _ _ (history_sound config _ _ _ Hh)) as Hwf.
  pose proof (backing_keyed_wf config _ Hwf) as Hk.
  assert (∀ t, monitored_backings d !! t = backingRow <$> backing st !! t) as Hbk by (intros t; by eapply monitored_backings_lookup).
  assert (∀ t, counted_sum d t = issued (backing st !! t)) as Hsum.
  { intros t. rewrite <- (history_held _ _ _ Hh). apply table_filter_held. apply Hst. }
  assert (∀ t, default 0 (kr_issuedSupplyAtoms <$> monitored_backings d !! t) = issued (backing st !! t)) as Hexp.
  { intros t. rewrite Hbk. by destruct (backing st !! t). }
  split_and!; [|done| |].
  - apply check_backings_ok, Forall_forall. intros r Hr.
    destruct (monitored_known _ _ _ _ Hst (wf_tokens _ _ Hwf) Hr) as [b Hb]. rewrite Hbk, Hb.
    apply check_backing_ok. by apply (wf_backing _ _ Hwf).
  - apply list_fmap_ext. intros i r _. unfold check_supply. rewrite Hexp, <- Hsum.
    assert (same_bigint (sum_of_token PgBigint d (tr_tokenId r)) (counted_sum d (tr_tokenId r)) = true) as ->; [|done].
    unfold sum_of_token, counted_sum. destruct (counted_rows d _); [done|]. apply Z.eqb_refl.
  - intros r (x & -> & _)%list_elem_of_fmap. rewrite check_supply_token. intros Hne. rewrite <- Hsum in Hne.
    unfold check_supply, sum_of_token, counted_sum in *. by destruct (counted_rows d (tr_tokenId x)).
Qed.
End Lockstep.
