(* ===== verification/PersistentExamples.v ===== *)
(** * A concrete database

    The chain of [IndexerExamples] indexed into tables, on which the hypotheses
    of the theorems about the persistent indexer, its verification and its read
    models hold. *)
From S2P Require Import Prelude Bytes Curve Economics Wire Covenant Vault Json Undo Indexer IndexerInv IndexerExamples.
From S2P Require Import Store StoreInv Hydrate Persistent Lockstep PersistentInv ReadInv.

#[local] Existing Instance toy_crypto.
#[local] Existing Instance toy_bitcoin.
#[local] Existing Instance toy_locale.

(** A database that returns rows in the order they were written. *)
#[local] Instance toy_postgres : Postgres := {|
  select_order A l := l;
  select_order_perm A l := reflexivity l;
|}.

Definition toy_hash_at (n : Z) : string := toHex (zeros 31 ++ [to_byte n]).
Definition pb1 : V3BlockInput := toy_block 1 (toy_hash_at 1) ["deploy"%string].
Definition pb2 : V3BlockInput := toy_block 2 (toy_hash_at 2) ["mint"%string; "transfer"%string].
Definition pb3 : V3BlockInput := toy_block 3 (toy_hash_at 3) ["redeem"%string; "sweep"%string].
Definition pc3 : V3BlockInput := toy_block 3 (toy_hash_at 4) ["mint-bis"%string].

(** A Core node on a chain of blocks from height 1. *)
Definition node_of (bs : list V3BlockInput) : CoreRpcProvider := {|
  getBlockchainInfo := Ok (Z.of_nat (length bs));
  getBlockHash h := of_option (js_error "no such height") (blk_hash <$> head (filter (λ b, blk_height b = h) bs));
  getBlock hash := of_option (js_error "no such block")
    ((λ b, {| cb_hash := blk_hash b; cb_previousBlockHash := blk_parentHash b; cb_rawTxs := blk_txs b |})
       <$> head (filter (λ b, blk_hash b = hash) bs));
|}.

Definition reliable_db : Connection := {| commit_error _ := None |}.

(** The tables and the state after the worker has indexed [bs]. *)
Definition toy_world (bs : list V3BlockInput) : V3Db * V3IndexerState :=
  (worker_loop toy_config reliable_db (length bs) (node_of bs) false (empty_db, new_state toy_config) 1 0).1.

Definition futureb (bs : list V3BlockInput) (st : V3IndexerState) (h : Z) (bs' : list V3BlockInput) : bool :=
  followsb toy_config st h bs' && forallb (λ b, is_hex64 (blk_hash b)) bs'
  && bool_decide (NoDup (chain_ids (bs ++ bs'))).

Lemma futureb_ok bs st h bs' : futureb bs st h bs' = true → future toy_config bs st h bs'.
Proof.
  unfold futureb. rewrite !andb_true_iff, bool_decide_eq_true. intros [[H1%followsb_ok H2] H3]. split; [done| |done].
  apply Forall_forall. intros b Hb%list_elem_of_In. rewrite forallb_forall in H2. by apply H2.
Qed.

(** The node serves the blocks. *)
Fixpoint servesb (provider : CoreRpcProvider) (h : Z) (bs : list V3BlockInput) : bool :=
  match bs with
  | [] => true
  | b :: bs =>
      (blk_height b =? h)
      && match getBlockHash provider h with
         | Ok hash => match getBlock provider hash with
             | Ok c => String.eqb (cb_hash c) (blk_hash b) && String.eqb (cb_previousBlockHash c) (blk_parentHash b)
                       && bool_decide (cb_rawTxs c = blk_txs b)
             | Throw _ => false
             end
         | Throw _ => false
         end
      && servesb provider (h + 1) bs
  end.

Lemma servesb_ok provider h bs : servesb provider h bs = true → serves provider h bs.
Proof.
  revert h. induction bs as [|b bs IH]; intros h; cbn [servesb serves]; [done|]. rewrite !andb_true_iff.
  intros [[Eh%Z.eqb_eq Hb] Hs]. split_and!; [done| |by apply IH].
  destruct (getBlockHash provider h) as [hash|]; [|done]. exists hash. split; [done|].
  destruct (getBlock provider hash) as [[]|]; [|done]. rewrite !andb_true_iff, bool_decide_eq_true in Hb.
  destruct Hb as [[E1%String.eqb_eq E2%String.eqb_eq] E3]. cbn in E1, E2, E3. by subst.
Qed.

Lemma toy_lockstep bs :
  futureb [] (new_state toy_config) 1 bs = true → servesb (node_of bs) 1 bs = true →
  is_ok (index_blocks toy_config (new_state toy_config) bs) = true →
  lockstep toy_config bs (toy_world bs).1 (toy_world bs).2.
Proof.
  intros Hf%futureb_ok Hs%servesb_ok Hok. unfold toy_world.
  destruct (worker_loop _ _ _ _ _ _ _ _) as [w r] eqn:E.
  apply (worker_loop_lockstep _ _ _ _ _ [] _ _ _ _ _ _ (lockstep_new toy_config) Hf Hs) in E
    as (pre & post & -> & Hl & Hd & Hr).
  assert (post = []) as -> by (apply Hd, Hr; done). by rewrite app_nil_r.
Qed.

Definition toy_world2 : V3Db * V3IndexerState := toy_world [pb1; pb2].
Definition toy_world3 : V3Db * V3IndexerState := toy_world [pb1; pb2; pb3].

Lemma toy_lockstep2 : lockstep toy_config [pb1; pb2] toy_world2.1 toy_world2.2.
Proof. apply toy_lockstep; vm_compute; reflexivity. Qed.

Lemma toy_lockstep3 : lockstep toy_config [pb1; pb2; pb3] toy_world3.1 toy_world3.2.
Proof. apply toy_lockstep; vm_compute; reflexivity. Qed.

(** ** Witnesses *)
Definition toy_new : list V3BlockInput := [pc3].
Definition toy_after2 : V3IndexerState := toy_world2.2.

Lemma reorgPersistentToTip_lockstep_witness :
  let run := reorgPersistentToTip toy_config reliable_db (node_of [pb1; pb2; pc3]) toy_world3 in
  lockstep toy_config ([pb1; pb2] ++ toy_new) run.1.1 run.1.2
  ∧ run.2 = Ok {| commonAncestor := 2; orphanedBlocks := [3]; replayedBlocks := [3]; finalRoot := stateRoot run.1.2 |}.
Proof.
  intros run. assert (is_ok run.2 = true) as Hok by (vm_compute; reflexivity).
  destruct run.2 as [report|] eqn:E; [|discriminate Hok].
  assert (common_height toy_config toy_after2 = 2) as Ea by (vm_compute; reflexivity).
  destruct (reorgPersistentToTip_lockstep toy_config reliable_db [pb1; pb2] toy_after2 [pb3] toy_world3.1 toy_world3.2
    toy_new (node_of [pb1; pb2; pc3]) run.1 run.2) as (_ & H & _).
  - vm_compute. reflexivity.
  - exact toy_lockstep3.
  - intros [|i] x; [intros [= <-]; vm_compute; reflexivity|discriminate].
  - vm_compute. reflexivity.
  - right. exists (toy_hash_at 2). split; vm_compute; reflexivity.
  - intros h Hh _. rewrite Ea in Hh. cbn in Hh. assert (h = 3) as -> by lia.
    exists (toy_hash_at 4). split; vm_compute; reflexivity.
  - apply futureb_ok. vm_compute. reflexivity.
  - apply servesb_ok. vm_compute. reflexivity.
  - unfold run. destruct toy_world3. by destruct (reorgPersistentToTip _ _ _ _).
  - destruct (H report E) as [Hl ->]. split; [exact Hl|]. vm_compute. reflexivity.
Defined.

Lemma hydrateState_lockstep_witness :
  is_ok (hydrateState toy_world3.1 Regtest toy_config) = true
  ∧ ∃ st', hydrateState toy_world3.1 Regtest toy_config = Ok st' ∧ recovers st' toy_world3.2
  ∧ stateRoot st' = stateRoot toy_world3.2 ∧ cur_stateRoot (cursor st') = stateRoot st'
  ∧ computeStateRootFromDb toy_world3.1 Regtest toy_config = Ok (stateRoot toy_world3.2).
Proof.
  split; [vm_compute; reflexivity|].
  exact (hydrateState_lockstep toy_config [pb1; pb2; pb3] toy_world3.1 toy_world3.2 toy_lockstep3).
Defined.

(** Core's answer for the reserve. *)
Definition toy_prevout (st : V3IndexerState) : PrevoutLookup := λ txid vout,
  Ok ((λ b, {| pv_valueSats := bk_btcValue b; pv_scriptPubKeyHex := bk_scriptPubKey b |})
        <$> head (filter (λ b, bk_outpoint b = {| op_txid := txid; op_vout := vout |}) (map_to_list (backing st)).*2)).

Definition toy_blocks3 : list V3BlockInput := [pb1; pb2; pb3].

Lemma toy_core_chain : core_chain toy_config (node_of toy_blocks3) toy_blocks3.
Proof.
  split; [apply futureb_ok; vm_compute; reflexivity|].
  split; [vm_compute; reflexivity|apply servesb_ok; vm_compute; reflexivity].
Qed.

(** The tables are at block 2; Core is at block 3. *)
Lemma reindexDb_fail_safe_witness :
  let run := reindexDb toy_config reliable_db toy_world2.1 Regtest (node_of toy_blocks3) (toy_prevout toy_world3.2) in
  is_ok run.2 = true
  ∧ ∃ st report, run.2 = Ok report ∧ wr_finalHeight report = 3
      ∧ computeStateRootFromDb run.1 Regtest toy_config = Ok (wr_stateRoot report)
      ∧ verified toy_config st report (node_of toy_blocks3) (toy_prevout toy_world3.2)
      ∧ lockstep toy_config toy_blocks3 run.1 st.
Proof.
  intros run. assert (is_ok run.2 = true) as Hok by (vm_compute; reflexivity). split; [exact Hok|].
  assert ((wr_finalHeight <$> run.2) = Ok 3) as Hh by (vm_compute; reflexivity).
  assert (length (coveV3Cursor toy_world2.1) ≤ 1)%nat as Hlen by (vm_compute; lia).
  pose proof (reindexDb_fail_safe toy_config reliable_db toy_world2.1 Regtest (node_of toy_blocks3)
    (toy_prevout toy_world3.2) run.1 run.2 Hlen (surjective_pairing run)) as H.
  clearbody run. destruct run as [d [report|e]]; [|discriminate Hok]. cbn in H, Hh |- *.
  destruct H as (st & Hroot & _ & Hv & Hl). exists st, report. split; [done|]. split; [by injection Hh|].
  split; [exact Hroot|]. split; [exact Hv|]. exact (Hl _ toy_core_chain).
Defined.

Lemma node_of_hash bs hash cb : getBlock (node_of bs) hash = Ok cb → cb_hash cb = hash.
Proof.
  cbn. destruct (filter _ bs) as [|b l] eqn:E; [done|]. cbn. intros [= <-]. cbn.
  assert (b ∈ filter (λ b, blk_hash b = hash) bs) as Hb by (rewrite E; by left).
  by apply list_elem_of_filter in Hb as [? _].
Qed.

Lemma fullVerify_complete_witness : fullVerify toy_config toy_world3.2 (node_of toy_blocks3) = Ok None.
Proof.
  apply (fullVerify_complete toy_config toy_blocks3 toy_world3.1 toy_world3.2 1 (node_of toy_blocks3) toy_lockstep3).
  - lia.
  - by left.
  - lia.
  - apply servesb_ok. vm_compute. reflexivity.
  - apply node_of_hash.
Defined.

Lemma quickVerify_sound_witness :
  let st := toy_world3.2 in
  let b := default no_backing (backing st !! toHex toy_token) in
  ∃ p, toy_prevout st (op_txid (bk_outpoint b)) (op_vout (bk_outpoint b)) = Ok (Some p)
     ∧ pv_valueSats p = INDEXER_RESERVE_ANCHOR_SATS + backingSats (bk_state b)
     ∧ pv_scriptPubKeyHex p = bk_scriptPubKey b.
Proof.
  intros st b. refine (proj1 (quickVerify_sound toy_config st (node_of toy_blocks3) (toy_prevout st) (toHex toy_token) b _ _ _)).
  - destruct toy_lockstep3 as (U & Hh & _). exact (so_wf _ _ _ _ (history_sound _ _ _ _ Hh)).
  - vm_compute. reflexivity.
  - vm_compute. reflexivity.
Defined.

Lemma holders_account_for_supply_witness :
  let t := toHex toy_token in
  getTokenHoldersDb toy_world3.1 t = [(toHex (toy_p2tr 5), 199 * LOT_ATOMS)]
  ∧ zsum (getTokenHoldersDb toy_world3.1 t).*2 = live (tokenUtxos toy_world3.2) t.
Proof.
  intros t. split; [vm_compute; reflexivity|].
  refine (proj1 (proj2 (proj2 (holders_account_for_supply toy_config toy_blocks3 toy_world3.1 toy_world3.2 t
    (default no_backing (backing toy_world3.2 !! t)) toy_lockstep3 _)))).
  vm_compute. reflexivity.
Defined.

Lemma snapshot_refines_view_witness :
  let s := loadCanonicalViewSnapshotFromDb toy_world3.1 (toHex toy_token) [] in
  issuedPublicSupplyAtoms <$> snap_getCurrentBackingState s toy_token = Some (200 * LOT_ATOMS)
  ∧ snap_getCurrentBackingState s toy_token = getCurrentBackingState toy_world3.2 toy_token.
Proof.
  intros s. split; [vm_compute; reflexivity|].
  exact (proj1 (snapshot_refines_view toy_config toy_blocks3 toy_world3.1 toy_world3.2 toy_token [] toy_lockstep3)).
Defined.
