(* ===== verification/ProfileExamples.v ===== *)
(** * A mainnet profile at work

    The profile of test/fixtures/mainnet-profile.json, on which the hypotheses of
    the theorems about the profile, the configuration and the readiness gate
    hold. *)
From S2P Require Import Prelude Bytes Curve Economics Wire Discovery Covenant Simplicity Vault Indexer IndexerInv IndexerExamples Spend Guardian.
From S2P Require Import GuardianInv Builder BuilderInv GuardianExamples Journal AuditLog Number Profile ProfileInv Signing SigningInv SigningExamples.
From S2P Require Import AppConfig AppConfigInv Readiness.

#[local] Existing Instance toy_crypto.
#[local] Existing Instance sign_bitcoinjs.
#[local] Existing Instance toy_ecc.

#[local] Instance toy_test_keys : TestKeys := {|
  pointFromScalar d := Some (to_byte 2 :: d);
  p2pkh_output k := Ok k;
|}.

Definition fixture_json : string := requote
"{
  'profileVersion': 1,
  'chainIdentity': 'bitcoin-mainnet',
  'activationHeight': 101,
  'policyVersion': 3,
  'vaultProfileVersion': 'COVE_V3_VAULT_PROFILE_MAINNET1',
  'guardianXOnly': '24653eac434488002cc06bbfb7f10fe18991e35f9fe4302dbea6d2353dc0ab1c',
  'recovery': {
    'threshold': 2,
    'pubkeys': [
      'baf7689c0a3558fb604589036a8d1e4b685d909f6e0e2c6018a14049ae64ec26',
      '9c1f585aa80762f9f4458f6806978b7befb46c7b68af82d399630793ff1a2b50',
      '1428f3a3532ff4f1cac70f7292bfad06d1037f800ee8839b56ebba917a22e900'
    ],
    'csvBlocks': 2016
  },
  'feeScript': '0014cc1b07838e387deacd0e5232e1e8b49f4c29e484',
  'buyFeeBps': 100,
  'redeemFeeBps': 100,
  'p2pFeeBps': 50,
  'carrierSats': '1000',
  'anchorSats': '10000',
  'maxProtocolSupplyAtoms': '2100000000000000',
  'reserveAllocationAtoms': '0',
  'mintCmr': '7fb27adf2db5458882daf976ba9325815f111b2f3b16eedb72e75f96de4269b2',
  'redeemCmr': '37e681b3e70a34acc3b38680c06fbe4f1b2799bede2607c6c9ed7fcac8c95d56',
  'canary': {
    'allowedWalletScripts': [
      '0014bd92088bb7e82d611a9b94fbb74a0908152b784f',
      '0014c62ec1117fa030b9771639f1e10555cdbeea1dbc'
    ],
    'allowedTokenIds': [
      'fb960b7e43b92b0a9213cf8d0a4534fb8f5776728499af70bf1c3cc8e6d19469'
    ],
    'maxBackingSats': '1000000000',
    'maxSingleBuySats': '200000',
    'maxSingleRedeemPayoutSats': '50000000',
    'maxP2pSettlementSats': '10000000',
    'maxMintAtoms': '2100000000000000',
    'minMintGrossSats': '5000'
  }
}".

Definition fixture_profile : MainnetProfile :=
  get_ok committed_profile (parseMainnetProfileJson fixture_json).

(** The same decisions, the recovery keys in another order and case. *)
Definition fixture_recased : MainnetProfile :=
  let p := fixture_profile in {|
  mp_profileVersion := mp_profileVersion p; mp_chainIdentity := mp_chainIdentity p;
  mp_activationHeight := mp_activationHeight p; mp_policyVersion := mp_policyVersion p;
  mp_vaultProfileVersion := mp_vaultProfileVersion p;
  mp_guardianXOnly := Some "24653EAC434488002CC06BBFB7F10FE18991E35F9FE4302DBEA6D2353DC0AB1C"%string;
  mp_recovery := {| mr_threshold := 2; mr_pubkeys := reverse (mr_pubkeys (mp_recovery p)); mr_csvBlocks := Some 2016 |};
  mp_feeScript := mp_feeScript p; mp_buyFeeBps := mp_buyFeeBps p; mp_redeemFeeBps := mp_redeemFeeBps p;
  mp_p2pFeeBps := mp_p2pFeeBps p; mp_carrierSats := mp_carrierSats p; mp_anchorSats := mp_anchorSats p;
  mp_maxProtocolSupplyAtoms := mp_maxProtocolSupplyAtoms p; mp_reserveAllocationAtoms := mp_reserveAllocationAtoms p;
  mp_mintCmr := mp_mintCmr p; mp_redeemCmr := mp_redeemCmr p; mp_canary := mp_canary p |}.

Definition all_valid : MainnetProfileValidationResult := {| mv_ok := true; mv_errors := [] |}.

Lemma profile_hash_binds_witness :
  is_ok (hashMainnetProfile fixture_profile) = true
  ∧ hashMainnetProfile fixture_profile = hashMainnetProfile fixture_recased.
Proof.
  split; [vm_compute; reflexivity|].
  refine (proj2 (profile_hash_binds fixture_profile fixture_recased false false all_valid all_valid _ _ _ _) _);
    vm_compute; reflexivity.
Defined.

Definition toy_toOutputScript (address : string) (network : btc_network) : result (list byte) := Ok (toy_p2wpkh 1).

Definition mainnet_env : Env :=
  {["COVE_NETWORK"%string := "mainnet"%string; "COVE_BITCOIN_RPC_URL"%string := "http://node"%string;
    "COVE_FEE_ADDRESS"%string := "bc1q"%string ]}.

Lemma committed_profile_refused_witness :
  is_ok (committedMainnetProfile toy_toOutputScript (Some "bc1q"%string)) = true
  ∧ is_ok (loadV3AppConfig toy_toOutputScript mainnet_env None) = false.
Proof.
  split; [vm_compute; reflexivity|].
  refine (proj2 (proj2 (committed_profile_refused toy_toOutputScript mainnet_env)) _). reflexivity.
Defined.

Lemma toy_hash_32 m : length (sha256 m) = 32%nat.
Proof. cbn [sha256 toy_crypto]. unfold toy_hash. by rewrite length_app, be_bytes_length. Qed.

Lemma toy_tweak root : is_Some (xOnlyPointAddTweak numsInternalKey (tapTweak numsInternalKey root)).
Proof. by eexists. Qed.

Lemma mainnet_config_sound_witness :
  ∃ cfg, loadV3AppConfig toy_toOutputScript mainnet_env (Some fixture_profile) = Ok cfg
  ∧ ac_guardianPrivateKey cfg = None
  ∧ is_ok (buildBackingVaultV3 (toy_state 400) (ac_guardianXOnly cfg) (ac_recoveryKeyXOnly cfg)
             (ac_recoveryProfile cfg) (Some NetBitcoin)) = true.
Proof.
  assert (ac_network <$> loadV3AppConfig toy_toOutputScript mainnet_env (Some fixture_profile) = Ok Mainnet) as E
    by (vm_compute; reflexivity).
  pose proof (λ cfg, mainnet_config_sound toy_toOutputScript mainnet_env (Some fixture_profile) cfg toy_hash_32 toy_tweak) as H.
  destruct (loadV3AppConfig toy_toOutputScript mainnet_env (Some fixture_profile)) as [cfg|e]; [|discriminate E].
  exists cfg. injection E as E. destruct (H cfg eq_refl E) as (H1 & _ & _ & _ & Hv). split; [reflexivity|]. split; [exact H1|].
  destruct (Hv (toy_state 400)) as [v Hv']; [vm_compute; reflexivity|]. by rewrite Hv'.
Defined.

(** ** A mainnet that is ready *)
Definition readiness_env : Env :=
  <["COVE_TEST_ONLY_PROFILE_PATH"%string := "profile.json"%string]>
  (<["COVE_V3_MAINNET_PROFILE_HASH"%string := get_ok ""%string (hashMainnetProfile fixture_profile)]>
  (<["COVE_V3_MAINNET_STATE_ROOT"%string := toHex (zeros 32)]>
  (<["COVE_V3_CANARY_ACTIVE"%string := "TRUE"%string]> ∅))).

Definition ready_node (height : Z) : CoreNode := {|
  cn_getBlockchainInfo := Ok ("main"%string, height);
  cn_getBlockHash h := Ok (int_text h);
|}.

Definition ready_guardian : GuardianHealth := {|
  gh_reachable := true; gh_profileHash := get_ok ""%string (hashMainnetProfile fixture_profile);
  gh_guardianXOnly := default ""%string (mp_guardianXOnly fixture_recased);
  gh_auditHealthy := true; gh_signingJournalHealthy := true; gh_custodyBackendReady := true |}.

Definition ready_probes : Probes := {|
  pb_primary := ready_node 900000; pb_secondary := Some (ready_node 899998);
  pb_indexer := Some (Ok ("HEALTHY"%string, toHex (zeros 32))); pb_workerLock := Ok true;
  pb_guardian := Some (Ok ready_guardian) |}.

Definition toy_readFile (_ : string) : result string := Ok fixture_json.
Definition toy_resolve (dir path : string) : string := dir +:+ "/" +:+ path.

Lemma readiness_gate_witness :
  ∃ r, runRuntimeReadiness toy_toOutputScript toy_readFile toy_resolve readiness_env "." ready_probes = Ok r
  ∧ rr_state r = READY_FOR_CONTROLLED_MAINNET_CANARY
  ∧ nodes_agree (pb_primary ready_probes) (ready_node 899998).
Proof.
  assert ((λ r, (rr_state r, rd_mutationsEnabled (rr_readiness r))) <$>
            runRuntimeReadiness toy_toOutputScript toy_readFile toy_resolve readiness_env "." ready_probes
          = Ok (READY_FOR_CONTROLLED_MAINNET_CANARY, true)) as E by (vm_compute; reflexivity).
  pose proof (λ r, readiness_gate toy_toOutputScript toy_readFile toy_resolve toy_hash_32 readiness_env "." ready_probes r) as H.
  destruct (runRuntimeReadiness toy_toOutputScript toy_readFile toy_resolve readiness_env "." ready_probes) as [r|e];
    [|discriminate E].
  exists r. injection E as E1 E2. split; [reflexivity|]. split; [exact E1|].
  destruct (proj1 (H r eq_refl) E2) as (c & source & g & secondary & h & root & key & _ & _ & _ & _ & [Hs Ha] & _).
  injection Hs as <-. exact Ha.
Defined.
