(* ===== verification/Order.v ===== *)
(** * Signed orders: packages/cove-market/src

    [types.ts], [config.ts] and the order directory: the listing a seller
    signs, its canonical bytes and id, its shape, and the BIP-322 signatures
    that authorise a listing, a cancellation and a reservation.

    Message signing of bitcoinjs-lib is the class [MessageSigning]. *)
From S2P Require Import Prelude Bytes Economics Wire Vault Indexer Spend.

(** ** types.ts *)
Definition MARKET_ORDER_VERSION : Z := 1.
Definition MARKET_CANCEL_VERSION : Z := 1.

Record ListingV1 := {
  orderVersion : Z;
  l_chainIdentity : string;
  l_tokenId : string;
  sellerTokenScript : string;
  sellerPayoutScript : string;
  sellerTokenChangeScript : string;
  sourceTxid : string;
  sourceVout : Z;
  sourceAmountAtoms : Z;
  amountAtoms : Z;
  totalPriceSats : Z;
  creationHeight : Z;
  expiryHeight : Z;
  l_nonce : string;
}.

Inductive ListingStatus :=
  | LActive | LReserved | LBroadcast | LFilled | LCancelled | LExpired | LInvalidated | LReorged.
#[export] Instance ListingStatus_eq_dec : EqDecision ListingStatus.
Proof. solve_decision. Defined.

Inductive FillStatus :=
  | FReserved | FPsbtBuilt | FBuyerSigned | FSellerSigned | FBroadcast | FConfirmed | FReorged
  | FFailed | FExpired | FCancelled.
#[export] Instance FillStatus_eq_dec : EqDecision FillStatus.
Proof. solve_decision. Defined.

Record CancellationV1 := { cn_version : Z; cn_listingId : string; cn_cancelNonce : string }.

(** ** errors.ts *)
Definition MarketError (code message : string) : exn :=
  Exn EMarketError (Some code) ("[" +:+ code +:+ "] " +:+ message).

(** ** config.ts *)
Record MarketConfig := {
  mc_enabled : bool;
  mc_network : V3Network;
  mc_chainIdentity : string;
  mc_p2pFeeBps : Z;
  mc_p2pFeeMinSats : Z;
  mc_feeScript : list byte;
  mc_reservationTtlSeconds : Z;
  mc_sellerSignTtlSeconds : Z;
  mc_maxListingBlocks : Z;
  mc_maxMinerFeeSats : Z;
  mc_maxP2pSettlementSats : option Z;
}.

Definition chainIdentityForNetwork (network : V3Network) : string :=
  match network with
  | Regtest => CHAIN_BITCOIN_REGTEST
  | Signet => CHAIN_BITCOIN_SIGNET
  | Testnet => CHAIN_BITCOIN_TESTNET
  | Mainnet => CHAIN_BITCOIN_MAINNET
  end.

Definition defaultMarketConfig (network : V3Network) (feeScript : list byte) (chainIdentity : option string)
    : MarketConfig := {|
  mc_enabled := true; mc_network := network;
  mc_chainIdentity := default (chainIdentityForNetwork network) chainIdentity;
  mc_p2pFeeBps := p2pFeeBps COVE_FEE_CONFIG; mc_p2pFeeMinSats := p2pFeeMinSats COVE_FEE_CONFIG;
  mc_feeScript := feeScript; mc_reservationTtlSeconds := 300; mc_sellerSignTtlSeconds := 24 * 60 * 60;
  mc_maxListingBlocks := 21000; mc_maxMinerFeeSats := 20000; mc_maxP2pSettlementSats := None |}.

Definition mainnetMarketConfig (feeBps : Z) (feeScript : list byte) (maxP2pSettlementSats : Z)
    (chainIdentity : option string) : MarketConfig := {|
  mc_enabled := true; mc_network := Mainnet;
  mc_chainIdentity := default CHAIN_BITCOIN_MAINNET chainIdentity;
  mc_p2pFeeBps := feeBps; mc_p2pFeeMinSats := p2pFeeMinSats COVE_FEE_CONFIG;
  mc_feeScript := feeScript; mc_reservationTtlSeconds := 300; mc_sellerSignTtlSeconds := 24 * 60 * 60;
  mc_maxListingBlocks := 21000; mc_maxMinerFeeSats := 20000;
  mc_maxP2pSettlementSats := Some maxP2pSettlementSats |}.

(** ** serialization.ts *)
Definition ORDER_U32_MAX : Z := 0xffffffff.
Definition u32be (v : Z) : list byte := be_bytes 4 v.

(** [/^[0-9a-f]*$/i.test(s)] *)
Definition hex_text (s : string) : bool := string_forallb is_hex_digit s.

(** The bytes [pushScript] appends. *)
Definition pushScript (scriptHex : string) : result (list byte) :=
  throw_if (negb (hex_text scriptHex)) (MarketError "LISTING_BAD_SOURCE" "script not hex");;
  let script := fromHex scriptHex in
  throw_if (0xffff <? blen script) (MarketError "LISTING_BAD_SOURCE" "script too long");;
  Ok (u16be (blen script) ++ script).

Definition u64_fits (v : Z) : bool := (0 <=? v) && (v <=? U64_MAX).

Definition check_serializable (l : ListingV1) : result unit :=
  throw_if (negb (orderVersion l =? MARKET_ORDER_VERSION))
    (MarketError "LISTING_BAD_VERSION" ("version " +:+ pretty (orderVersion l)));;
  throw_if (negb (is_hex64 (l_tokenId l))) (MarketError "LISTING_TOKEN_MISMATCH" "bad tokenId");;
  throw_if (negb (is_hex64 (sourceTxid l))) (MarketError "LISTING_BAD_SOURCE" "bad sourceTxid");;
  throw_if (negb (is_hex64 (l_nonce l))) (MarketError "LISTING_BAD_SOURCE" "bad nonce");;
  throw_if ((sourceVout l <? 0) || (ORDER_U32_MAX <? sourceVout l)) (MarketError "LISTING_BAD_SOURCE" "bad sourceVout");;
  throw_if (negb (forallb u64_fits [sourceAmountAtoms l; amountAtoms l; totalPriceSats l; creationHeight l; expiryHeight l]))
    (MarketError "LISTING_BAD_SOURCE" "value out of u64 range");;
  throw_if (amountAtoms l <=? 0) (MarketError "LISTING_AMOUNT_INVALID" "zero amount");;
  throw_if (totalPriceSats l <=? 0) (MarketError "LISTING_PRICE_INVALID" "zero price");;
  let chain := utf8 (l_chainIdentity l) in
  throw_if ((blen chain =? 0) || (0xffff <? blen chain)) (MarketError "LISTING_BAD_SOURCE" "bad chainIdentity").

Definition serializeListingV1 (l : ListingV1) : result (list byte) :=
  check_serializable l;;
  let chain := utf8 (l_chainIdentity l) in
  token ← pushScript (sellerTokenScript l);
  payout ← pushScript (sellerPayoutScript l);
  change ← pushScript (sellerTokenChangeScript l);
  Ok ([to_byte (orderVersion l)] ++ u16be (blen chain) ++ chain ++ fromHex (l_tokenId l)
      ++ token ++ payout ++ change
      ++ fromHex (sourceTxid l) ++ u32be (sourceVout l) ++ u64be (sourceAmountAtoms l) ++ u64be (amountAtoms l)
      ++ u64be (totalPriceSats l) ++ u64be (creationHeight l) ++ u64be (expiryHeight l) ++ fromHex (l_nonce l)).

(** ** hash.ts *)
Definition LISTING_DOMAIN : string := "Cove/Market/Listing/v1".
Definition CANCEL_DOMAIN : string := "Cove/Market/Cancel/v1".
Definition RESERVE_DOMAIN : string := "Cove/Market/Reserve/v1".

Record ReservationV1 := {
  rv_version : Z; rv_listingId : string; rv_reserveNonce : string; rv_buyerTokenScript : string
}.

Section Hash.
Context {C : Crypto}.

Definition listingIdOf (l : ListingV1) : result string :=
  bytes ← serializeListingV1 l; Ok (toHex (vault_taggedHash LISTING_DOMAIN bytes)).

Definition cancellationHashOf (c : CancellationV1) : string :=
  toHex (vault_taggedHash CANCEL_DOMAIN
    ([to_byte (cn_version c)] ++ fromHex (cn_listingId c) ++ fromHex (cn_cancelNonce c))).

Definition reservationHashOf (r : ReservationV1) : string :=
  toHex (vault_taggedHash RESERVE_DOMAIN
    ([to_byte (rv_version r)] ++ fromHex (rv_listingId r) ++ fromHex (rv_reserveNonce r)
     ++ fromHex (rv_buyerTokenScript r))).

Definition listingMessageToSign (l : ListingV1) : result string :=
  id ← listingIdOf l; Ok ("COVE_MARKET_LISTING_V1:" +:+ id).

Definition cancellationMessageToSign (c : CancellationV1) : string :=
  "COVE_MARKET_CANCEL_V1:" +:+ cancellationHashOf c.

Definition reservationMessageToSign (r : ReservationV1) : string :=
  "COVE_MARKET_RESERVE_V1:" +:+ reservationHashOf r.
End Hash.

(** ** validate.ts *)
Definition standardCarrierScript (scriptHex : string) : bool :=
  hex_text scriptHex && (let script := fromHex scriptHex in isP2WPKH script || isP2TR script).

Definition standardPayoutScript (scriptHex : string) : bool :=
  hex_text scriptHex && (let script := fromHex scriptHex in isP2WPKH script || isP2TR script || isP2SH script).

Definition validateListingShape (l : ListingV1) : result unit :=
  throw_if (negb (orderVersion l =? MARKET_ORDER_VERSION)) (MarketError "LISTING_BAD_VERSION" "orderVersion != 1");;
  throw_if (negb (is_hex64 (l_tokenId l))) (MarketError "LISTING_TOKEN_MISMATCH" "bad tokenId");;
  throw_if (negb (is_hex64 (sourceTxid l))) (MarketError "LISTING_BAD_SOURCE" "bad sourceTxid");;
  throw_if (negb (is_hex64 (l_nonce l))) (MarketError "LISTING_BAD_SOURCE" "bad nonce");;
  throw_if (negb (standardCarrierScript (sellerTokenScript l)))
    (MarketError "LISTING_BAD_SOURCE" "seller token script not standard");;
  throw_if (negb (standardPayoutScript (sellerPayoutScript l)))
    (MarketError "LISTING_BAD_SOURCE" "seller payout script not standard");;
  throw_if (negb (String.eqb (sellerTokenChangeScript l) (sellerTokenScript l)))
    (MarketError "LISTING_BAD_SOURCE" "V1 requires the change script to equal the token script");;
  throw_if (sourceVout l <? 0) (MarketError "LISTING_BAD_SOURCE" "bad sourceVout");;
  throw_if (amountAtoms l <=? 0) (MarketError "LISTING_AMOUNT_INVALID" "zero amount");;
  throw_if (sourceAmountAtoms l <? amountAtoms l) (MarketError "LISTING_AMOUNT_INVALID" "amount > source amount");;
  throw_if (totalPriceSats l <=? 0) (MarketError "LISTING_PRICE_INVALID" "zero price");;
  throw_if (expiryHeight l <=? creationHeight l) (MarketError "LISTING_EXPIRED" "expiry <= creation").

(** ** signature.ts: BIP-322 simple signatures *)
Record VirtualIn := { vi_hash : list byte; vi_index : Z; vi_sequence : Z; vi_script : list byte }.
Record VirtualTx := { vx_version : Z; vx_locktime : Z; vx_ins : list VirtualIn; vx_outs : list TxOut }.

Class MessageSigning := {
  (** [Buffer.from(s, "base64")] *)
  fromBase64Text : string → list byte;
  (** [crypto.hash160] and [payments.p2pkh({ hash }).output] *)
  hash160 : list byte → list byte;
  p2pkh_output : list byte → result (list byte);
  (** [tx.getHash()], and the digests of a transaction's only input *)
  getHash : VirtualTx → list byte;
  messageHashV0 : VirtualTx → list byte → Z → Z → result (list byte);
  messageHashV1 : VirtualTx → list (list byte) → list Z → Z → result (list byte);
  (** [script.signature.decode]: the signature and its hash type *)
  signature_decode : list byte → result (list byte * Z);
  (** [ecc.verify(hash, publicKey, signature)] *)
  ecdsa_verify : list byte → list byte → list byte → result bool;
}.

Definition truncated : exn := js_error "truncated".

(** The number at an offset and the bytes it takes. *)
Definition readCompactSize (buf : list byte) (offset : Z) : result (Z * Z) :=
  first ← of_option truncated (byte_at buf offset);
  if first <? 0xfd then Ok (first, 1)
  else if first =? 0xfd then v ← readLE 2 buf (offset + 1); Ok (v, 3)
  else if first =? 0xfe then v ← readLE 4 buf (offset + 1); Ok (v, 5)
  else Throw (js_error "oversized").

(** The stack and the offset after it. *)
Fixpoint decode_items (n : nat) (buf : list byte) (offset : Z) : result (list (list byte) * Z) :=
  match n with
  | O => Ok ([], offset)
  | S n =>
      '(value, len) ← readCompactSize buf offset;
      let offset := offset + len in
      throw_if (blen buf <? offset + value) truncated;;
      '(stack, e) ← decode_items n buf (offset + value);
      Ok (subarray buf offset (offset + value) :: stack, e)
  end.

Definition compactSize (n : Z) : list byte :=
  if n <? 0xfd then [to_byte n]
  else if n <=? 0xffff then to_byte 0xfd :: reverse (be_bytes 2 n)
  else to_byte 0xfe :: reverse (be_bytes 4 n).

(** The bytes of [encodeWitness], before base64. *)
Definition witness_bytes (stack : list (list byte)) : list byte :=
  compactSize (Z.of_nat (length stack)) ++ concat ((λ w, compactSize (blen w) ++ w) <$> stack).

Definition decode_witness_bytes (buf : list byte) : result (list (list byte)) :=
  '(count, len) ← readCompactSize buf 0;
  '(stack, e) ← decode_items (Z.to_nat count) buf len;
  throw_if (negb (e =? blen buf)) (js_error "trailing bytes");;
  Ok stack.

Section Bip322.
Context {C : Crypto} {J : BitcoinJs} {MS : MessageSigning}.

Definition decodeWitness (signatureB64 : string) : result (list (list byte)) :=
  decode_witness_bytes (fromBase64Text signatureB64).

Definition bip322MessageHash (message : string) : list byte :=
  let tag := sha256 (utf8 "BIP0322-signed-message") in sha256 (tag ++ tag ++ utf8 message).

Definition toSpendTx (scriptPubKey : list byte) (message : string) : VirtualTx := {|
  vx_version := 0; vx_locktime := 0;
  vx_ins := [{| vi_hash := zeros 32; vi_index := 0xffffffff; vi_sequence := 0;
                vi_script := script_compile [Opcode 0x00; Push (bip322MessageHash message)] |}];
  vx_outs := [{| txo_script := scriptPubKey; txo_value := 0 |}] |}.

Definition toSignTx (scriptPubKey : list byte) (message : string) : VirtualTx := {|
  vx_version := 0; vx_locktime := 0;
  vx_ins := [{| vi_hash := getHash (toSpendTx scriptPubKey message); vi_index := 0; vi_sequence := 0;
                vi_script := [] |}];
  vx_outs := [{| txo_script := script_compile [Opcode 0x6a]; txo_value := 0 |}] |}.

Definition p2wpkhSighash (toSign : VirtualTx) (program : list byte) (hashType : Z) : result (list byte) :=
  scriptCode ← p2pkh_output program; messageHashV0 toSign scriptCode 0 hashType.

Definition p2trSighash (toSign : VirtualTx) (scriptPubKey : list byte) (hashType : Z) : result (list byte) :=
  messageHashV1 toSign [scriptPubKey] [0] hashType.

(** The key-path signature's hash type. *)
Definition tap_hash_type (sigBytes : list byte) : option Z :=
  if blen sigBytes =? 64 then Some SIGHASH_DEFAULT
  else if (blen sigBytes =? 65) && at_is sigBytes 64 SIGHASH_ALL then Some SIGHASH_ALL
  else None.

(** The body of the [try]. *)
Definition verify_witness (scriptPubKey : list byte) (message : string) (signatureB64 : string) : result bool :=
  witness ← decodeWitness signatureB64;
  let toSign := toSignTx scriptPubKey message in
  if isP2WPKH scriptPubKey then
    match witness with
    | [sigBytes; pubkey] =>
        if negb (blen pubkey =? 33) then Ok false
        else if negb (bytes_eqb (hash160 pubkey) (subarray scriptPubKey 2 (blen scriptPubKey))) then Ok false
        else
          '(signature, hashType) ← signature_decode sigBytes;
          if negb (hashType =? SIGHASH_ALL) then Ok false
          else
            sighash ← p2wpkhSighash toSign (subarray scriptPubKey 2 (blen scriptPubKey)) hashType;
            ecdsa_verify sighash pubkey signature
    | _ => Ok false
    end
  else if isP2TR scriptPubKey then
    match witness with
    | [sigBytes] =>
        match tap_hash_type sigBytes with
        | None => Ok false
        | Some hashType =>
            sighash ← p2trSighash toSign scriptPubKey hashType;
            verifySchnorr sighash (subarray scriptPubKey 2 (blen scriptPubKey)) (subarray sigBytes 0 64)
        end
    | _ => Ok false
    end
  else Ok false.

Definition verifyBip322 (scriptPubKey : list byte) (message : string) (signatureB64 : string) : bool :=
  match verify_witness scriptPubKey message signatureB64 with Ok b => b | Throw _ => false end.

Definition requireSupported (scriptHex who : string) : result (list byte) :=
  let script := fromHex scriptHex in
  throw_if (negb (isP2WPKH script) && negb (isP2TR script))
    (MarketError "LISTING_BAD_SIGNATURE" (who +:+ " address must be native segwit (P2WPKH) or taproot (P2TR)"));;
  Ok script.

Definition verifyListingAuthorization (l : ListingV1) (signatureB64 : string) : result bool :=
  script ← requireSupported (sellerTokenScript l) "seller";
  message ← listingMessageToSign l;
  Ok (verifyBip322 script message signatureB64).

Definition verifyCancellationAuthorization (l : ListingV1) (c : CancellationV1) (signatureB64 : string) : result bool :=
  script ← requireSupported (sellerTokenScript l) "seller";
  Ok (verifyBip322 script (cancellationMessageToSign c) signatureB64).

Definition verifyReservationAuthorization (r : ReservationV1) (signatureB64 : string) : result bool :=
  script ← requireSupported (rv_buyerTokenScript r) "buyer";
  Ok (verifyBip322 script (reservationMessageToSign r) signatureB64).
End Bip322.

(** ** An order is what its id says *)

(** Two orders with the same terms: scripts count as bytes, not as text. *)
Record same_order (l m : ListingV1) : Prop := {
  so_version : orderVersion l = orderVersion m;
  so_chain : l_chainIdentity l = l_chainIdentity m;
  so_token : l_tokenId l = l_tokenId m;
  so_tokenScript : fromHex (sellerTokenScript l) = fromHex (sellerTokenScript m);
  so_payoutScript : fromHex (sellerPayoutScript l) = fromHex (sellerPayoutScript m);
  so_changeScript : fromHex (sellerTokenChangeScript l) = fromHex (sellerTokenChangeScript m);
  so_source : (sourceTxid l, sourceVout l) = (sourceTxid m, sourceVout m);
  so_sourceAmount : sourceAmountAtoms l = sourceAmountAtoms m;
  so_amount : amountAtoms l = amountAtoms m;
  so_price : totalPriceSats l = totalPriceSats m;
  so_heights : (creationHeight l, expiryHeight l) = (creationHeight m, expiryHeight m);
  so_nonce : l_nonce l = l_nonce m;
}.

Lemma be_bytes_inj n v w :
  0 ≤ v < 256 ^ Z.of_nat n → 0 ≤ w < 256 ^ Z.of_nat n → be_bytes n v = be_bytes n w → v = w.
Proof.
  intros Hv Hw E%(f_equal be_value). rewrite !be_value_bytes, !Z.mod_small in E by lia. done.
Qed.

(** A field after its length in two bytes. *)
Lemma framed_inj s t a b :
  blen s ≤ 0xffff → blen t ≤ 0xffff →
  (u16be (blen s) ++ s) ++ a = (u16be (blen t) ++ t) ++ b → s = t ∧ a = b.
Proof.
  intros Hs Ht E. pose proof (blen_nonneg s). pose proof (blen_nonneg t).
  rewrite <-!app_assoc in E. apply app_inj_blen in E as [El E]; [|done].
  apply be_bytes_inj in El; [|change (256 ^ Z.of_nat 2) with 65536; lia..]. by apply app_inj_blen in E.
Qed.

Lemma pushScript_Ok s b :
  pushScript s = Ok b ↔ hex_text s = true ∧ blen (fromHex s) ≤ 0xffff ∧ b = u16be (blen (fromHex s)) ++ fromHex s.
Proof.
  unfold pushScript. split.
  - intros H. res_inv H. to_prop. by subst.
  - intros (H1 & H2 & ->). rewrite throw_if_false by (by rewrite H1). guard_step lia. done.
Qed.

Definition serializable (l : ListingV1) : Prop :=
  orderVersion l = MARKET_ORDER_VERSION ∧ is_hex64 (l_tokenId l) = true ∧ is_hex64 (sourceTxid l) = true
  ∧ is_hex64 (l_nonce l) = true ∧ 0 ≤ sourceVout l ≤ ORDER_U32_MAX
  ∧ Forall (λ v, 0 ≤ v ≤ U64_MAX)
      [sourceAmountAtoms l; amountAtoms l; totalPriceSats l; creationHeight l; expiryHeight l]
  ∧ 0 < amountAtoms l ∧ 0 < totalPriceSats l ∧ 1 ≤ blen (utf8 (l_chainIdentity l)) ≤ 0xffff.

Lemma check_serializable_Ok l : check_serializable l = Ok tt ↔ serializable l.
Proof.
  assert (∀ vs, forallb u64_fits vs = true ↔ Forall (λ v, 0 ≤ v ≤ U64_MAX) vs) as Hu.
  { intros vs. induction vs as [|v vs IH]; [done|]. cbn [forallb]. rewrite andb_true_iff, IH, Forall_cons.
    unfold u64_fits. by rewrite andb_true_iff, !Z.leb_le. }
  unfold check_serializable, serializable. pose proof (blen_nonneg (utf8 (l_chainIdentity l))). split.
  - intros E. res_inv E. rewrite negb_false_iff, Hu in *. to_prop. split_and!; done || lia.
  - intros (H1 & H2 & H3 & H4 & H5 & H6%Hu & H7 & H8 & H9). rewrite H2, H3, H4, H6.
    cbn zeta. repeat guard_step ltac:(done || lia). apply throw_if_Ok. to_prop. lia.
Qed.

Lemma serializeListingV1_Ok l b :
  serializeListingV1 l = Ok b →
  serializable l
  ∧ blen (fromHex (sellerTokenScript l)) ≤ 0xffff ∧ blen (fromHex (sellerPayoutScript l)) ≤ 0xffff
  ∧ blen (fromHex (sellerTokenChangeScript l)) ≤ 0xffff
  ∧ b = [to_byte 1] ++ (u16be (blen (utf8 (l_chainIdentity l))) ++ utf8 (l_chainIdentity l)) ++ fromHex (l_tokenId l)
      ++ (u16be (blen (fromHex (sellerTokenScript l))) ++ fromHex (sellerTokenScript l))
      ++ (u16be (blen (fromHex (sellerPayoutScript l))) ++ fromHex (sellerPayoutScript l))
      ++ (u16be (blen (fromHex (sellerTokenChangeScript l))) ++ fromHex (sellerTokenChangeScript l))
      ++ fromHex (sourceTxid l) ++ u32be (sourceVout l) ++ u64be (sourceAmountAtoms l) ++ u64be (amountAtoms l)
      ++ u64be (totalPriceSats l) ++ u64be (creationHeight l) ++ u64be (expiryHeight l) ++ fromHex (l_nonce l).
Proof.
  unfold serializeListingV1. intros (u & Hc & H)%bind_Ok. destruct u. apply check_serializable_Ok in Hc. cbn zeta in H.
  res_inv H. apply pushScript_Ok in Hv as (_ & ? & ->), Hv0 as (_ & ? & ->), Hv1 as (_ & ? & ->).
  destruct (Hc) as (Ev & _). rewrite Ev in H. by split_and!.
Qed.

Lemma hex64_inj s t : is_hex64 s = true → is_hex64 t = true → fromHex s = fromHex t → s = t.
Proof.
  intros [Es _]%toHex_fromHex64 [Et _]%toHex_fromHex64 E. by rewrite <-Es, <-Et, E.
Qed.

Lemma hex64_blen s t : is_hex64 s = true → is_hex64 t = true → blen (fromHex s) = blen (fromHex t).
Proof. intros [_ Hs]%toHex_fromHex64 [_ Ht]%toHex_fromHex64. unfold blen. lia. Qed.

Lemma serializeListingV1_inj l m b : serializeListingV1 l = Ok b → serializeListingV1 m = Ok b → same_order l m.
Proof.
  intros ((Vl & Tl & Sl & Nl & Ol & Ul & _ & _ & Cl) & Al & Bl & Dl & ->)%serializeListingV1_Ok
    ((Vm & Tm & Sm & Nm & Om & Um & _ & _ & Cm) & Am & Bm & Dm & E)%serializeListingV1_Ok.
  apply app_inv_head in E. apply framed_inj in E as [Ec E]; [|lia..].
  apply app_inj_blen in E as [Et E]; [|by apply hex64_blen].
  apply framed_inj in E as [E1 E]; [|lia..]. apply framed_inj in E as [E2 E]; [|lia..].
  apply framed_inj in E as [E3 E]; [|lia..].
  apply app_inj_blen in E as [Es E]; [|by apply hex64_blen].
  apply app_inj_blen in E as [Eo E]; [|done].
  do 4 (apply app_inj_blen in E as [?E E]; [|by rewrite !blen_u64be]).
  apply app_inj_blen in E as [?E En]; [|by rewrite !blen_u64be].
  repeat (apply Forall_cons in Ul as [? Ul]; apply Forall_cons in Um as [? Um]).
  apply be_bytes_inj in Eo; [|change (256 ^ Z.of_nat 4) with 4294967296; unfold ORDER_U32_MAX in *; lia..].
  repeat match goal with H : u64be _ = u64be _ |- _ => apply u64be_inj in H; [|done..] end.
  apply utf8_inj in Ec. apply hex64_inj in Et, Es, En; [|done..].
  split; congruence.
Qed.

Section Ids.
Context {C : Crypto}.

Definition order_preimage (domain : string) (b : list byte) : list byte :=
  let t := sha256 (utf8 domain) in t ++ t ++ b.

(** C25: a listing id is the identity of a whole order.  Two listings with one
    id agree in version, chain, token, source outpoint, amounts, price,
    heights, nonce and the bytes of the three scripts, or their preimages are
    a SHA-256 collision; and listings that agree so, and serialize, have one
    id.  So an order signed for one chain, price or payout script is no order
    for another. *)
Theorem listing_id_binds l m i j :
  listingIdOf l = Ok i → listingIdOf m = Ok j →
  (i = j → same_order l m ∨ ∃ b c, clash sha256 (order_preimage LISTING_DOMAIN b) (order_preimage LISTING_DOMAIN c))
  ∧ (same_order l m → i = j).
Proof.
  unfold listingIdOf. intros Hl Hm. res_inv Hl. res_inv Hm. subst i j. split.
  - intros E%(inj toHex). destruct (decide (v = v0)) as [->|Hne]; [left; by eapply serializeListingV1_inj|right].
    exists v, v0. split; [|done]. unfold order_preimage. intros Ep. do 2 apply app_inv_head in Ep. done.
  - intros [E1 E2 E3 E4 E5 E6 E7 E8 E9 E10 E11 E12]. injection E7 as E7 E7'. injection E11 as E11 E11'.
    apply serializeListingV1_Ok in Hv as ((_ & _) & _ & _ & _ & ->), Hv0 as ((_ & _) & _ & _ & _ & ->).
    by rewrite E2, E3, E4, E5, E6, E7, E7', E8, E9, E10, E11, E11', E12.
Qed.
End Ids.

(** ** What an accepted signature says *)
Section Signatures.
Context {C : Crypto} {J : BitcoinJs} {MS : MessageSigning}.

(** The key of [script] signed [message]: an ECDSA key whose hash the script
    is, or the script's Taproot output key, over the transaction of exactly
    that script and message and with a hash type that covers its outputs. *)
Definition signed_by (script : list byte) (message : string) : Prop :=
  let tx := toSignTx script message in
  let program := subarray script 2 (blen script) in
  (isP2WPKH script = true ∧ ∃ pubkey signature sighash,
     blen pubkey = 33 ∧ hash160 pubkey = program
     ∧ p2wpkhSighash tx program SIGHASH_ALL = Ok sighash ∧ ecdsa_verify sighash pubkey signature = Ok true)
  ∨ (isP2TR script = true ∧ ∃ hashType signature sighash,
     hashType ∈ [SIGHASH_DEFAULT; SIGHASH_ALL] ∧ blen signature = 64
     ∧ p2trSighash tx script hashType = Ok sighash ∧ verifySchnorr sighash program signature = Ok true).

Lemma tap_hash_type_Some s t :
  tap_hash_type s = Some t → t ∈ [SIGHASH_DEFAULT; SIGHASH_ALL] ∧ 64 ≤ blen s.
Proof. unfold tap_hash_type. intros H. repeat case_match; simplify_eq; to_prop; (split; [set_solver|lia]). Qed.

Lemma verifyBip322_signed script message signature :
  verifyBip322 script message signature = true → signed_by script message.
Proof.
  unfold verifyBip322. destruct (verify_witness script message signature) as [[]|] eqn:E; [intros _|done..].
  unfold verify_witness in E. apply bind_Ok in E as (w & _ & E). cbn zeta in E.
  destruct (isP2WPKH script) eqn:Hw; [left|destruct (isP2TR script) eqn:Ht; [right|done]]; (split; [done|]).
  - destruct w as [|s [|p [|]]]; try done. destruct (blen p =? 33) eqn:Ep; [|done]. cbn [negb] in E.
    destruct (bytes_eqb _ _) eqn:Eh; [|done]. cbn [negb] in E. apply bind_Ok in E as ([sg ht] & _ & E).
    destruct (ht =? SIGHASH_ALL) eqn:Et; [|done]. cbn [negb] in E. apply bind_Ok in E as (h & Eh' & E).
    apply Z.eqb_eq in Et as ->. unfold bytes_eqb in Eh. to_prop. by exists p, sg, h.
  - destruct w as [|s [|]]; try done. destruct (tap_hash_type s) as [t|] eqn:Es; [|done].
    apply bind_Ok in E as (h & Eh & E). apply tap_hash_type_Some in Es as [? ?].
    exists t, (subarray s 0 64), h. split_and!; try done. unfold blen in *. rewrite subarray_length by (unfold blen; lia). lia.
Qed.
End Signatures.
