(* ===== verification/Market.v ===== *)
(** * Settlement of an order: packages/cove-market/src

    [health.ts], [psbt.ts], [finalize.ts] and [best-execution.ts], over the
    market's tables of packages/db/src/schema.ts.

    A table is the list of its rows of one network, as in Store.v.  The columns
    these files do not read are left out: the row ids of all tables but the
    fills, [updatedAt], and [createdAt] of all but the fills. *)
From S2P Require Import Prelude Bytes Curve Economics Wire Covenant Vault Indexer Store Hydrate Guardian Finalize Spend Order.

(** ** Rows *)
Record ListingRow := {
  lr_listingId : string;
  lr_order : ListingV1;
  lr_signatureB64 : string;
  lr_sellerTokenPublicKey : option string;
  lr_status : ListingStatus;
}.

Record ListingInputRow := {
  li_listingId : string; li_sourceTxid : string; li_sourceVout : Z; li_amountAtoms : Z; li_scriptPubKey : string
}.

Record BuyerFundInput := { bf_txid : string; bf_vout : Z; bf_script : string; bf_valueSats : Z }.

Record FillRow := {
  fl_id : string;
  fl_listingId : string;
  fl_tokenId : string;
  fl_buyerTokenScript : string;
  fl_buyerChangeScript : string;
  fl_buyerFundInputs : list BuyerFundInput;
  fl_buyerFundPublicKey : option string;
  fl_amountAtoms : Z;
  fl_totalPriceSats : Z;
  fl_marketFeeSats : Z;
  fl_extraCarrierSats : Z;
  fl_minerFeeSats : Z;
  fl_unsignedTxDigest : option string;
  fl_psbtBase64 : option string;
  fl_status : FillStatus;
  fl_txid : option string;
  fl_blockHeight : option Z;
  fl_blockHash : option string;
  fl_canonical : bool;
  fl_failureReason : option string;
  fl_reservationExpiresAt : option Z;
  fl_createdAt : Z;
}.

Record CancellationRow := {
  ca_listingId : string; ca_cancelHash : string; ca_cancelNonce : string; ca_signatureB64 : string
}.

Record TradeRow := {
  mt_tokenId : string; mt_listingId : string; mt_fillId : string; mt_sellerTokenScript : string;
  mt_buyerTokenScript : string; mt_amountAtoms : Z; mt_totalPriceSats : Z; mt_marketFeeSats : Z;
  mt_minerFeeSats : Z; mt_txid : string; mt_blockHeight : Z; mt_blockHash : option string; mt_canonical : bool
}.

(** [payload] holds the strings of the JSON payload. *)
Record MarketEventRow := {
  me_listingId : option string; me_fillId : option string; me_eventType : string; me_payload : list (string * string)
}.

Record MarketDb := {
  md_listings : list ListingRow;
  md_inputs : list ListingInputRow;
  md_fills : list FillRow;
  md_cancellations : list CancellationRow;
  md_trades : list TradeRow;
  md_events : list MarketEventRow;
}.

Definition empty_market : MarketDb :=
  {| md_listings := []; md_inputs := []; md_fills := []; md_cancellations := []; md_trades := []; md_events := [] |}.

(** ** health.ts *)
Definition assertMarketEnabled (config : MarketConfig) : result unit :=
  throw_if (negb (mc_enabled config)) (MarketError "MARKET_DISABLED" "market is disabled").

Definition healthErrorFor (report : HealthReport) : option exn :=
  match hr_health report with
  | HEALTHY => None
  | CORE_UNREACHABLE => Some (MarketError "INDEXER_UNHEALTHY" "Bitcoin Core unreachable")
  | REBUILDING => Some (MarketError "INDEXER_REBUILDING" "indexer is rebuilding")
  | BEHIND => Some (MarketError "INDEXER_BEHIND" ("indexer behind by " +:+ pretty (hr_lag report) +:+ " blocks"))
  | DIVERGED => Some (MarketError "INDEXER_DIVERGED" "indexer cursor diverged from Core tip")
  end.

Definition assertMarketReady {PG : Postgres} (d : V3Db) (config : MarketConfig) (provider : CoreRpcProvider)
    : result HealthReport :=
  assertMarketEnabled config;;
  let report := computeHealth d provider in
  match healthErrorFor report with Some e => Throw e | None => Ok report end.

(** The rows of [feature_flags]: id and value. *)
Definition marketEnabledFlag {PG : Postgres} (flags : list (string * bool)) : bool :=
  match select (λ r, String.eqb r.1 "cove-v3-market") flags with
  | (_, enabled) :: _ => enabled
  | [] => true
  end.

(** ** psbt.ts *)

(** bitcoinjs-lib's encodings of a PSBT and of transactions. *)
Class PsbtCodec := {
  psbt_fromBase64 : string → result Psbt;
  psbt_toBase64 : Psbt → string;
  (** [unsignedTx.toBuffer()] *)
  unsigned_toBuffer : UnsignedTx → list byte;
  (** [psbt.finalizeAllInputs()] and [psbt.extractTransaction().toHex()] *)
  finalizeAllInputs : Psbt → result Psbt;
  extractTransactionHex : Psbt → result string;
}.

Section Psbt.
Context {C : Crypto} {J : BitcoinJs} {PC : PsbtCodec}.

Definition unsignedTxDigest (psbt : Psbt) : string := toHex (sha256 (unsigned_toBuffer (globalTx psbt))).

Definition sighashTypeOf (sig : list byte) : result Z :=
  of_option (MarketError "UNSAFE_SIGHASH" "empty signature") (last_byte sig).

Definition isSighashAll (sig : list byte) : result bool := t ← sighashTypeOf sig; Ok (t =? SIGHASH_ALL).

Definition psbt_input (psbt : Psbt) (inputIndex : Z) : option PsbtInput :=
  if inputIndex <? 0 then None else psbt_inputs psbt !! Z.to_nat inputIndex.

Definition partialSigOfInput (psbt : Psbt) (inputIndex : Z) : option (list byte) :=
  match psbt_input psbt inputIndex with
  | None => None
  | Some input =>
      match psi_tapKeySig input, psi_partialSig input with
      | Some (b :: sig), _ => Some (b :: sig)
      | _, Some (p :: _) => Some (ps_signature p)
      | _, _ => None
      end
  end.

Definition inputMatchesPubkey (psbt : Psbt) (inputIndex : Z) (pubkey : list byte) : result bool :=
  match (input ← psbt_input psbt inputIndex; psi_witnessUtxo input) with
  | None => Ok false
  | Some utxo => expected ← p2wpkh_output pubkey; Ok (bytes_eqb expected (txo_script utxo))
  end.

Definition validateP2wpkhPartialSig (psbt : Psbt) (inputIndex : Z) : result unit :=
  match checkSpendSignature psbt inputIndex with
  | SigOk => Ok tt
  | SigBad NOT_SIGHASH_ALL detail => Throw (MarketError "UNSAFE_SIGHASH" detail)
  | SigBad _ detail => Throw (MarketError "BUYER_SIGNATURE_INVALID" detail)
  end.

Definition parsePsbt (b64 : string) : result Psbt :=
  psbt ← try_catch (psbt_fromBase64 b64)
           (λ e, Throw (MarketError "PSBT_MUTATED" ("cannot parse PSBT: " +:+ exn_message e)));
  unfinalizeKeyInputs psbt.
End Psbt.

(** ** finalize.ts *)
Record ValidatedP2PFill := {
  vf_validatedTransfer : ValidatedCoveTransaction;
  vf_txid : string;
  vf_listingId : string;
  vf_fillId : string;
  vf_tokenId : string;
  vf_validationDigest : string;
}.

Record TermsFund := { tf_txid : string; tf_vout : Z; tf_script : list byte; tf_valueSats : Z }.

Record P2PFillTerms := {
  pt_listingId : string;
  pt_fillId : string;
  pt_tokenId : string;
  pt_sourceTxid : string;
  pt_sourceVout : Z;
  pt_sourceAmountAtoms : Z;
  pt_sellerTokenScript : list byte;
  pt_sellerTokenChangeScript : list byte;
  pt_sellerPayoutScript : list byte;
  pt_amountAtoms : Z;
  pt_totalPriceSats : Z;
  pt_marketFeeSats : Z;
  pt_minerFeeSats : Z;
  pt_buyerTokenScript : list byte;
  pt_buyerChangeScript : list byte;
  pt_feeScript : list byte;
  pt_buyerFundInputs : list TermsFund;
}.

Record P2PFillValidationParams := {
  pf_rawTxHex : string;
  pf_terms : P2PFillTerms;
  pf_view : CoveCanonicalView;
  pf_network : V3Network;
}.

Definition assertSettlementCap (totalPriceSats : Z) (cap : option Z) : result unit :=
  match cap with
  | Some cap =>
      throw_if (cap <? totalPriceSats)
        (MarketError "P2P_SETTLEMENT_CAP_EXCEEDED"
           ("settlement " +:+ pretty totalPriceSats +:+ " > canary cap " +:+ pretty cap))
  | None => Ok tt
  end.

Definition market_reject (code detail : string) : exn :=
  MarketError "MARKET_VALIDATION_FAILED" (code +:+ ": " +:+ detail).

(** The prevouts of the terms: a [Map], the last entry of a key wins. *)
Definition fill_prevouts (terms : P2PFillTerms) : gmap string ResolvedPrevout :=
  foldl (λ m f, <[outpointKey (tf_txid f) (tf_vout f) :=
                   {| rsp_script := tf_script f; rsp_valueSats := tf_valueSats f |}]> m)
    (<[outpointKey (pt_sourceTxid terms) (pt_sourceVout terms) :=
        {| rsp_script := pt_sellerTokenScript terms; rsp_valueSats := TOKEN_CARRIER_SATS |}]> (∅ : gmap string ResolvedPrevout))
    (pt_buyerFundInputs terms).

(** [wire.kind] *)
Definition parsed_kind (p : ParsedCoveTx) : string :=
  match p with
  | NonCove => "NON_COVE"
  | InvalidCove _ => "INVALID"
  | Cove (DeployV2 _ _ _) => "DEPLOY"
  | Cove (MintV2 _ _ _) => "MINT"
  | Cove (TransferV2 _ _) => "TRANSFER"
  | Cove (RedeemV2 _ _ _) => "REDEEM"
  end.

Definition spends_outpoint (i : TxIn) (txid : string) (vout : Z) : bool :=
  String.eqb (in_txid i) txid && (in_index i =? vout).

(** Output [vout] pays [value] to [script]. *)
Definition no_payment (tx : Tx) (vout : nat) (script : list byte) (value : Z) : bool :=
  no_out tx vout (λ o, bytes_eqb (txo_script o) script && (txo_value o =? value)).

Definition no_script (tx : Tx) (vout : nat) (script : list byte) : bool :=
  no_out tx vout (λ o, bytes_eqb (txo_script o) script).

Definition alloc_is (a : TokenAllocation) (at_ amount_ : Z) : bool := (vout a =? at_) && (amount a =? amount_).

Definition alloc_detail (a : TokenAllocation) : string :=
  "vout=" +:+ pretty (vout a) +:+ " amount=" +:+ pretty (amount a).

(** (c) *)
Definition check_allocations (terms : P2PFillTerms) (allocations : list TokenAllocation) : result unit :=
  let changeAtoms := pt_sourceAmountAtoms terms - pt_amountAtoms terms in
  let expectedAllocs := if 0 <? changeAtoms then 2%nat else 1%nat in
  throw_if (negb (length allocations =? expectedAllocs)%nat)
    (market_reject "ALLOCATION_COUNT" (pretty (Z.of_nat (length allocations)) +:+ " != " +:+ pretty (Z.of_nat expectedAllocs)));;
  buyerAlloc ← of_option undefined_prop (allocations !! 0%nat);
  throw_if (negb (alloc_is buyerAlloc 1 (pt_amountAtoms terms))) (market_reject "BUYER_ALLOCATION" (alloc_detail buyerAlloc));;
  if 0 <? changeAtoms then
    changeAlloc ← of_option undefined_prop (allocations !! 1%nat);
    throw_if (negb (alloc_is changeAlloc 2 changeAtoms))
      (market_reject "SELLER_CHANGE_ALLOCATION" (alloc_detail changeAlloc))
  else Ok tt.

(** (d) and (e) *)
Definition check_outputs (terms : P2PFillTerms) (tx : Tx) : result unit :=
  let changeAtoms := pt_sourceAmountAtoms terms - pt_amountAtoms terms in
  let expectedAllocs := if 0 <? changeAtoms then 2%nat else 1%nat in
  let sellerPayoutVout := (1 + expectedAllocs)%nat in
  let feeVout := (sellerPayoutVout + 1)%nat in
  throw_if (no_script tx 1 (pt_buyerTokenScript terms))
    (market_reject "BUYER_CARRIER_SCRIPT" "vout 1 is not the buyer token carrier");;
  throw_if ((0 <? changeAtoms) && no_script tx 2 (pt_sellerTokenChangeScript terms))
    (market_reject "SELLER_CHANGE_CARRIER_SCRIPT" "vout 2 is not the seller change carrier");;
  throw_if (no_payment tx sellerPayoutVout (pt_sellerPayoutScript terms) (pt_totalPriceSats terms))
    (market_reject "SELLER_PAYOUT" "seller payout output mismatch");;
  throw_if (no_payment tx feeVout (pt_feeScript terms) (pt_marketFeeSats terms))
    (market_reject "P2P_FEE" "p2p fee output mismatch");;
  throw_if ((feeVout + 1 <? length (tx_outs tx))%nat && no_script tx (feeVout + 1) (pt_buyerChangeScript terms))
    (market_reject "BUYER_CHANGE" "unexpected buyer change output");;
  throw_if (feeVout + 2 <? length (tx_outs tx))%nat (market_reject "UNEXPECTED_OUTPUT" "too many outputs").

(** (f) *)
Definition check_dust (terms : P2PFillTerms) : result unit :=
  throw_if (pt_totalPriceSats terms <? dustThreshold (pt_sellerPayoutScript terms) DUST_RELAY_FEE_SAT_PER_KVB)
    (market_reject "SELLER_PAYOUT_DUST" ("payout " +:+ pretty (pt_totalPriceSats terms) +:+ " < dust"));;
  throw_if (pt_marketFeeSats terms <? dustThreshold (pt_feeScript terms) DUST_RELAY_FEE_SAT_PER_KVB)
    (market_reject "MARKET_FEE_DUST" ("fee " +:+ pretty (pt_marketFeeSats terms) +:+ " < dust")).

Section Fill.
Context {C : Crypto} {B : Bitcoin}.
Context (bad_tx_message : string → string).

Definition validateFinalizedP2PFill (params : P2PFillValidationParams) : result ValidatedP2PFill :=
  let terms := pf_terms params in
  tx ← of_option (js_error (bad_tx_message (pf_rawTxHex params))) (tx_fromHex (pf_rawTxHex params));
  throw_if (negb match tx_ins tx !! 0%nat with
                 | Some ins0 => spends_outpoint ins0 (pt_sourceTxid terms) (pt_sourceVout terms)
                 | None => false
                 end) (market_reject "SOURCE_INPUT" "input 0 is not the listing source outpoint");;
  let prevouts := fill_prevouts terms in
  res ← validateFinalizedTransferTransaction bad_tx_message
    {| ft_rawTxHex := pf_rawTxHex params; ft_view := pf_view params; ft_prevouts := Some prevouts;
       ft_maxMinerFeeSats := Some (pt_minerFeeSats terms) |};
  base ← match res with FinalOk v => Ok v | FinalReject reason => Throw (market_reject "TRANSFER_VALIDATION" reason) end;
  allocations ← match parseCoveTx (pf_rawTxHex params) with
                | Cove (TransferV2 _ allocations) => Ok allocations
                | p => Throw (market_reject "NOT_TRANSFER" ("kind=" +:+ parsed_kind p))
                end;
  let backingOutpoint := view_getBackingOutpoint (pf_view params) (fromHex (pt_tokenId terms)) in
  throw_if (existsb (λ ins, match backingOutpoint with
                            | Some o => spends_outpoint ins (op_txid o) (op_vout o)
                            | None => false
                            end) (tx_ins tx))
    (market_reject "BACKING_TOUCHED" "P2P fill must never spend the backing UTXO");;
  check_allocations terms allocations;;
  check_outputs terms tx;;
  check_dust terms;;
  let totalIn := zsum (rsp_valueSats <$> (map_to_list prevouts).*2) in
  let totalOut := foldl (λ s o, s + txo_value o) 0 (tx_outs tx) in
  let minerFee := totalIn - totalOut in
  throw_if (negb (minerFee =? pt_minerFeeSats terms))
    (market_reject "MINER_FEE" (pretty minerFee +:+ " != " +:+ pretty (pt_minerFeeSats terms)));;
  Ok {| vf_validatedTransfer := base; vf_txid := vt_txid base; vf_listingId := pt_listingId terms;
        vf_fillId := pt_fillId terms; vf_tokenId := pt_tokenId terms;
        vf_validationDigest := toHex (sha256 (fromHex (pf_rawTxHex params))) |}.
End Fill.

Definition broadcastValidatedP2PFill (v : ValidatedP2PFill) (network : V3Network) (provider : BroadcastNode)
    : result string * list NodeCall :=
  let '(res, calls) := broadcastValidatedCoveTransaction (vf_validatedTransfer v) network provider in
  (br_txid <$> res, calls).

(** ** best-execution.ts *)
Inductive BuyRoute :=
  | BackingRoute (amount totalCostSats grossSats buyFeeSats feeBps : Z)
  | P2PRoute (amount totalCostSats : Z) (listingId : string) (sellerPriceSats marketFeeSats feeBps : Z).

Definition route_cost (r : BuyRoute) : Z :=
  match r with BackingRoute _ c _ _ _ => c | P2PRoute _ c _ _ _ _ => c end.

Record BuyRouteFees := {
  bx_buyFeeBps : Z; bx_p2pFeeBps : Z; bx_buyFeeFlatSats : option Z; bx_p2pFeeMinSats : option Z
}.

Definition default_route_fees : BuyRouteFees := {|
  bx_buyFeeBps := buyFeeBps COVE_FEE_CONFIG; bx_p2pFeeBps := p2pFeeBps COVE_FEE_CONFIG;
  bx_buyFeeFlatSats := None; bx_p2pFeeMinSats := None |}.

(** [routes.sort(...)], which is stable. *)
Fixpoint insert_route (r : BuyRoute) (l : list BuyRoute) : list BuyRoute :=
  match l with
  | [] => [r]
  | x :: l' => if route_cost r <=? route_cost x then r :: l else x :: insert_route r l'
  end.

Definition sort_routes (l : list BuyRoute) : list BuyRoute := foldr insert_route [] l.

Section BestExecution.
Context {PG : Postgres}.

(** [backing[0]?.supplyAtoms ?? 0n] *)
Definition backing_supply (d : V3Db) (tokenId : string) : Z :=
  default 0 (kr_issuedSupplyAtoms <$> head (getCurrentBackingDb d tokenId)).

Definition backing_route (d : V3Db) (tokenId : string) (amount : Z) (fees : BuyRouteFees) : result (list BuyRoute) :=
  if (0 <? amount) && (Z.rem amount ATOMS_PER_TOKEN =? 0) then
    let supplyAtoms := backing_supply d tokenId in
    if supplyAtoms + amount <=? PUBLIC_SUPPLY_ATOMS then
      grossSats ← grossBuy (Z.quot supplyAtoms ATOMS_PER_TOKEN) (Z.quot amount ATOMS_PER_TOKEN);
      buyFee ← mintFeeSats grossSats amount (bx_buyFeeBps fees)
        (default (buyFeeFlatSats COVE_FEE_CONFIG) (bx_buyFeeFlatSats fees)) (buyFeeLotSats COVE_FEE_CONFIG);
      creatorSats ← creatorFeeSats grossSats (creatorFeeBps COVE_FEE_CONFIG);
      Ok [BackingRoute amount (grossSats + buyFee + creatorSats) grossSats buyFee (bx_buyFeeBps fees)]
    else Ok []
  else Ok [].

Fixpoint p2p_routes (rows : list ListingRow) (amount : Z) (fees : BuyRouteFees) : result (list BuyRoute) :=
  match rows with
  | [] => Ok []
  | l :: rows =>
      let price := totalPriceSats (lr_order l) in
      marketFee ← deterministicFee price (bx_p2pFeeBps fees) 0
        (default (p2pFeeMinSats COVE_FEE_CONFIG) (bx_p2pFeeMinSats fees));
      rest ← p2p_routes rows amount fees;
      Ok (P2PRoute amount (price + marketFee) (lr_listingId l) price marketFee (bx_p2pFeeBps fees) :: rest)
  end.

(** The listings of exactly the amount asked for. *)
Definition route_listing (tokenId : string) (amount : Z) (l : ListingRow) : bool :=
  String.eqb (l_tokenId (lr_order l)) tokenId && bool_decide (lr_status l = LActive)
  && (amountAtoms (lr_order l) =? amount).

Definition getBuyRoutes (d : V3Db) (m : MarketDb) (tokenId : string) (amount : Z) (fees : BuyRouteFees)
    : result (list BuyRoute) :=
  backing ← backing_route d tokenId amount fees;
  p2p ← p2p_routes (select (route_listing tokenId amount) (md_listings m)) amount fees;
  Ok (sort_routes (backing ++ p2p)).

Record SellOption := {
  sel_isBacking : bool; sel_amountAtoms : Z; sel_netSats : Z; sel_grossSats : Z; sel_feeSats : Z;
  sel_outpoint : option OutPoint
}.

Definition sell_rows (d : V3Db) (tokenId ownerScript : string) : list UtxoRow :=
  select (λ r, String.eqb (ur_tokenId r) tokenId && String.eqb (ur_scriptPubKey r) ownerScript && live_row r)
    (coveV3TokenUtxos d).

Definition listable (u : UtxoRow) : SellOption := {|
  sel_isBacking := false; sel_amountAtoms := ur_amountAtoms u; sel_netSats := 0; sel_grossSats := 0; sel_feeSats := 0;
  sel_outpoint := Some {| op_txid := ur_txid u; op_vout := ur_vout u |} |}.

Definition redeem_fee_config (feeBps : Z) : CoveFeeConfig := {|
  buyFeeBps := buyFeeBps COVE_FEE_CONFIG; buyFeeFlatSats := buyFeeFlatSats COVE_FEE_CONFIG;
  buyFeeLotSats := buyFeeLotSats COVE_FEE_CONFIG; creatorFeeBps := creatorFeeBps COVE_FEE_CONFIG;
  redeemFeeBps := feeBps; redeemFeeFlatSats := redeemFeeFlatSats COVE_FEE_CONFIG;
  redeemFeeMinSats := redeemFeeMinSats COVE_FEE_CONFIG; p2pFeeBps := p2pFeeBps COVE_FEE_CONFIG;
  p2pFeeFlatSats := p2pFeeFlatSats COVE_FEE_CONFIG; p2pFeeMinSats := p2pFeeMinSats COVE_FEE_CONFIG |}.

Definition getSellOptions (d : V3Db) (tokenId ownerScript : string) (feeBps : Z)
    : result (option SellOption * list SellOption) :=
  let utxos := sell_rows d tokenId ownerScript in
  let balanceAtoms := foldl (λ s u, s + ur_amountAtoms u) 0 utxos in
  redeemQuote ←
    (if (0 <? balanceAtoms) && (Z.rem balanceAtoms ATOMS_PER_TOKEN =? 0) then
       let supplyAtoms := backing_supply d tokenId in
       if balanceAtoms <=? supplyAtoms then
         q ← quoteRedeem (Z.quot supplyAtoms ATOMS_PER_TOKEN) (Z.quot balanceAtoms ATOMS_PER_TOKEN)
               (redeem_fee_config feeBps);
         Ok (Some {| sel_isBacking := true; sel_amountAtoms := balanceAtoms; sel_netSats := net q;
                     sel_grossSats := gross q; sel_feeSats := fee q; sel_outpoint := None |})
       else Ok None
     else Ok None);
  Ok (redeemQuote, listable <$> utxos).
End BestExecution.
