(* ===== verification/MarketService.v ===== *)
(** * The market service: packages/cove-market/src/service.ts

    Each operation of [MarketService] on the market's tables, the indexer's
    tables and the node's answers.  An operation that throws keeps what the
    statements and transactions before it wrote, as the source does; within a
    transaction nothing is kept.

    Operations run one at a time, and during one operation the indexer's
    tables, the clock and the node's answers stand still.  A statement fails
    only when it violates a unique index. *)
From S2P Require Import Prelude Bytes Curve Economics Wire Covenant Vault Indexer Store Hydrate Guardian Finalize Spend Builder Order Market.

(** ** Statements on the market's tables *)
Definition set_listings (m : MarketDb) l : MarketDb :=
  {| md_listings := l; md_inputs := md_inputs m; md_fills := md_fills m; md_cancellations := md_cancellations m;
     md_trades := md_trades m; md_events := md_events m |}.
Definition set_inputs (m : MarketDb) l : MarketDb :=
  {| md_listings := md_listings m; md_inputs := l; md_fills := md_fills m; md_cancellations := md_cancellations m;
     md_trades := md_trades m; md_events := md_events m |}.
Definition set_fills (m : MarketDb) l : MarketDb :=
  {| md_listings := md_listings m; md_inputs := md_inputs m; md_fills := l; md_cancellations := md_cancellations m;
     md_trades := md_trades m; md_events := md_events m |}.
Definition set_cancellations (m : MarketDb) l : MarketDb :=
  {| md_listings := md_listings m; md_inputs := md_inputs m; md_fills := md_fills m; md_cancellations := l;
     md_trades := md_trades m; md_events := md_events m |}.
Definition set_trades (m : MarketDb) l : MarketDb :=
  {| md_listings := md_listings m; md_inputs := md_inputs m; md_fills := md_fills m; md_cancellations := md_cancellations m;
     md_trades := l; md_events := md_events m |}.
Definition add_event (e : MarketEventRow) (m : MarketDb) : MarketDb :=
  {| md_listings := md_listings m; md_inputs := md_inputs m; md_fills := md_fills m; md_cancellations := md_cancellations m;
     md_trades := md_trades m; md_events := md_events m ++ [e] |}.

(** The statuses of the partial unique index on a listing's source. *)
Definition open_listing (s : ListingStatus) : bool := bool_decide (s ∈ [LActive; LReserved; LBroadcast]).
Definition source_of (r : ListingRow) : string * Z := (sourceTxid (lr_order r), sourceVout (lr_order r)).
Definition open_sources (l : list ListingRow) : list (string * Z) :=
  source_of <$> List.filter (λ r, open_listing (lr_status r)) l.

(** The unique indexes, checked on the table a statement leaves. *)
Definition listings_unique (l : list ListingRow) : bool :=
  bool_decide (NoDup (lr_listingId <$> l)) && bool_decide (NoDup (open_sources l)).
Definition fills_unique (l : list FillRow) : bool :=
  bool_decide (NoDup (fl_id <$> l)) && bool_decide (NoDup (omap fl_txid l)).
Definition trades_unique (l : list TradeRow) : bool := bool_decide (NoDup (mt_txid <$> l)).

Definition put_listings (l : list ListingRow) (m : MarketDb) : result MarketDb :=
  if listings_unique l then Ok (set_listings m l) else Throw unique_violation.
Definition put_fills (l : list FillRow) (m : MarketDb) : result MarketDb :=
  if fills_unique l then Ok (set_fills m l) else Throw unique_violation.
Definition put_trades (l : list TradeRow) (m : MarketDb) : result MarketDb :=
  if trades_unique l then Ok (set_trades m l) else Throw unique_violation.

Definition with_listing_status (s : ListingStatus) (r : ListingRow) : ListingRow :=
  {| lr_listingId := lr_listingId r; lr_order := lr_order r; lr_signatureB64 := lr_signatureB64 r;
     lr_sellerTokenPublicKey := lr_sellerTokenPublicKey r; lr_status := s |}.

(** [update(listings).set({ status }).where(listingId = id)] *)
Definition set_listing_status (id : string) (s : ListingStatus) (m : MarketDb) : result MarketDb :=
  put_listings (update_rows lr_listingId id (with_listing_status s) (md_listings m)) m.

(** [update(listings).set({ status: to }).where(listingId = id and status = from)] *)
Definition move_listing (id : string) (from to : ListingStatus) (m : MarketDb) : result MarketDb :=
  put_listings (update_rows (λ r, (lr_listingId r, lr_status r)) (id, from) (with_listing_status to) (md_listings m)) m.

(** A fill with other columns. *)
Definition fill_progress (status : FillStatus) (txid : option string) (blockHeight : option Z) (blockHash : option string)
    (canonical : bool) (failureReason : option string) (expires : option Z) (f : FillRow) : FillRow := {|
  fl_id := fl_id f; fl_listingId := fl_listingId f; fl_tokenId := fl_tokenId f;
  fl_buyerTokenScript := fl_buyerTokenScript f; fl_buyerChangeScript := fl_buyerChangeScript f;
  fl_buyerFundInputs := fl_buyerFundInputs f; fl_buyerFundPublicKey := fl_buyerFundPublicKey f;
  fl_amountAtoms := fl_amountAtoms f; fl_totalPriceSats := fl_totalPriceSats f;
  fl_marketFeeSats := fl_marketFeeSats f; fl_extraCarrierSats := fl_extraCarrierSats f;
  fl_minerFeeSats := fl_minerFeeSats f; fl_unsignedTxDigest := fl_unsignedTxDigest f;
  fl_psbtBase64 := fl_psbtBase64 f; fl_status := status; fl_txid := txid; fl_blockHeight := blockHeight;
  fl_blockHash := blockHash; fl_canonical := canonical; fl_failureReason := failureReason;
  fl_reservationExpiresAt := expires; fl_createdAt := fl_createdAt f |}.

Definition with_fill_status (s : FillStatus) (f : FillRow) : FillRow :=
  fill_progress s (fl_txid f) (fl_blockHeight f) (fl_blockHash f) (fl_canonical f) (fl_failureReason f)
    (fl_reservationExpiresAt f) f.
Definition with_fill_txid (s : FillStatus) (txid : string) (f : FillRow) : FillRow :=
  fill_progress s (Some txid) (fl_blockHeight f) (fl_blockHash f) (fl_canonical f) (fl_failureReason f)
    (fl_reservationExpiresAt f) f.
Definition with_failure (s : FillStatus) (reason : string) (f : FillRow) : FillRow :=
  fill_progress s (fl_txid f) (fl_blockHeight f) (fl_blockHash f) (fl_canonical f) (Some reason)
    (fl_reservationExpiresAt f) f.
Definition with_block (s : FillStatus) (height : Z) (hash : option string) (f : FillRow) : FillRow :=
  fill_progress s (fl_txid f) (Some height) hash (fl_canonical f) (fl_failureReason f) (fl_reservationExpiresAt f) f.
Definition with_canonical (s : FillStatus) (canonical : bool) (f : FillRow) : FillRow :=
  fill_progress s (fl_txid f) (fl_blockHeight f) (fl_blockHash f) canonical (fl_failureReason f)
    (fl_reservationExpiresAt f) f.

Definition with_psbt (s : FillStatus) (psbt : string) (expires : option Z) (f : FillRow) : FillRow := {|
  fl_id := fl_id f; fl_listingId := fl_listingId f; fl_tokenId := fl_tokenId f;
  fl_buyerTokenScript := fl_buyerTokenScript f; fl_buyerChangeScript := fl_buyerChangeScript f;
  fl_buyerFundInputs := fl_buyerFundInputs f; fl_buyerFundPublicKey := fl_buyerFundPublicKey f;
  fl_amountAtoms := fl_amountAtoms f; fl_totalPriceSats := fl_totalPriceSats f;
  fl_marketFeeSats := fl_marketFeeSats f; fl_extraCarrierSats := fl_extraCarrierSats f;
  fl_minerFeeSats := fl_minerFeeSats f; fl_unsignedTxDigest := fl_unsignedTxDigest f;
  fl_psbtBase64 := Some psbt; fl_status := s; fl_txid := fl_txid f; fl_blockHeight := fl_blockHeight f;
  fl_blockHash := fl_blockHash f; fl_canonical := fl_canonical f; fl_failureReason := fl_failureReason f;
  fl_reservationExpiresAt := expires; fl_createdAt := fl_createdAt f |}.

Definition with_built_psbt (psbt digest : string) (minerFee extraCarrier marketFee : Z) (f : FillRow) : FillRow := {|
  fl_id := fl_id f; fl_listingId := fl_listingId f; fl_tokenId := fl_tokenId f;
  fl_buyerTokenScript := fl_buyerTokenScript f; fl_buyerChangeScript := fl_buyerChangeScript f;
  fl_buyerFundInputs := fl_buyerFundInputs f; fl_buyerFundPublicKey := fl_buyerFundPublicKey f;
  fl_amountAtoms := fl_amountAtoms f; fl_totalPriceSats := fl_totalPriceSats f;
  fl_marketFeeSats := marketFee; fl_extraCarrierSats := extraCarrier;
  fl_minerFeeSats := minerFee; fl_unsignedTxDigest := Some digest;
  fl_psbtBase64 := Some psbt; fl_status := FPsbtBuilt; fl_txid := fl_txid f; fl_blockHeight := fl_blockHeight f;
  fl_blockHash := fl_blockHash f; fl_canonical := fl_canonical f; fl_failureReason := fl_failureReason f;
  fl_reservationExpiresAt := fl_reservationExpiresAt f; fl_createdAt := fl_createdAt f |}.

(** [update(fills).set(g).where(id = id)] *)
Definition update_fill (id : string) (g : FillRow → FillRow) (m : MarketDb) : result MarketDb :=
  put_fills (update_rows fl_id id g (md_fills m)) m.

(** The fills of a listing that are still on their way. *)
Definition signing_status (s : FillStatus) : bool := bool_decide (s ∈ [FReserved; FPsbtBuilt; FBuyerSigned; FSellerSigned]).

(** [update(fills).set(g).where(listingId = id and p)] *)
Definition update_fills_of (id : string) (p : FillRow → bool) (g : FillRow → FillRow) (m : MarketDb) : result MarketDb :=
  put_fills (map (λ f, if String.eqb (fl_listingId f) id && p f then g f else f) (md_fills m)) m.

(** ** Operations: state is kept when an operation throws *)
Definition M (A : Type) : Type := MarketDb → MarketDb * result A.

#[export] Instance M_ret : MRet M := λ A a m, (m, Ok a).
#[export] Instance M_bind : MBind M := λ A B f x m,
  match x m with (m', Ok a) => f a m' | (m', Throw e) => (m', Throw e) end.

(** A step that reads only, a step that depends on the tables, and a
    transaction (or a statement, which is one). *)
Definition pureM {A} (r : result A) : M A := λ m, (m, r).
Definition readM {A} (f : MarketDb → result A) : M A := λ m, (m, f m).
Definition transactionM {A} (body : MarketDb → result (MarketDb * A)) : M A := λ m,
  match body m with Ok (m', a) => (m', Ok a) | Throw e => (m, Throw e) end.
Definition statement (body : MarketDb → result MarketDb) : M unit :=
  transactionM (λ m, m' ← body m; Ok (m', tt)).

(** [for (const x of xs) { ... counter++ ... }] *)
Fixpoint for_each {X} (f : X → M Z) (xs : list X) : M Z :=
  match xs with
  | [] => mret 0
  | x :: xs => n ← f x; k ← for_each f xs; mret (n + k)
  end.

(** ** What the service is constructed with *)
Record TxOutInfo := { to_scriptPubKeyHex : string; to_valueSats : Z }.

Record MarketNode := {
  mn_core : CoreRpcProvider;
  mn_getTxout : string → Z → result (option TxOutInfo);
  mn_getBestHeight : result Z;
  mn_getRawTransaction : string → result string;
  mn_fees : FeeProvider;
  mn_broadcast : BroadcastNode;
}.

Record ReserveListingInput := {
  ri_listingId : string; ri_buyerTokenScript : string; ri_buyerChangeScript : string;
  ri_buyerFundInputs : list BuyerFundInput; ri_buyerFundPublicKey : option string; ri_reserveNonce : string;
  ri_signatureB64 : string
}.

Record SourceResolution := { sr_scriptPubKey : list byte; sr_amountAtoms : Z; sr_valueSats : Z }.

Definition listing_status_name (s : ListingStatus) : string :=
  match s with
  | LActive => "ACTIVE" | LReserved => "RESERVED" | LBroadcast => "BROADCAST" | LFilled => "FILLED"
  | LCancelled => "CANCELLED" | LExpired => "EXPIRED" | LInvalidated => "INVALIDATED" | LReorged => "REORGED"
  end.
Definition fill_status_name (s : FillStatus) : string :=
  match s with
  | FReserved => "RESERVED" | FPsbtBuilt => "PSBT_BUILT" | FBuyerSigned => "BUYER_SIGNED"
  | FSellerSigned => "SELLER_SIGNED" | FBroadcast => "BROADCAST" | FConfirmed => "CONFIRMED"
  | FReorged => "REORGED" | FFailed => "FAILED" | FExpired => "EXPIRED" | FCancelled => "CANCELLED"
  end.

(** A text that JavaScript takes for true. *)
Definition truthy (s : option string) : option string := match s with Some EmptyString => None | s => s end.

Definition P2P_OP_RETURN_SCRIPT_BYTES : Z := 57.

Definition find_listing (m : MarketDb) (id : string) : option ListingRow :=
  head (List.filter (λ r, String.eqb (lr_listingId r) id) (md_listings m)).
Definition find_fill (m : MarketDb) (id : string) : option FillRow :=
  head (List.filter (λ f, String.eqb (fl_id f) id) (md_fills m)).

Definition listing_not_found : exn := MarketError "STATE_CHANGED" "listing not found".
Definition fill_not_found : exn := MarketError "STATE_CHANGED" "fill not found".
Definition fill_is (s : FillStatus) : exn := MarketError "STATE_CHANGED" ("fill is " +:+ fill_status_name s).

Definition load_listing (id : string) : M ListingRow := readM (λ m, of_option listing_not_found (find_listing m id)).
Definition load_fill (id : string) : M FillRow := readM (λ m, of_option fill_not_found (find_fill m id)).

(** The snapshot is a canonical view. *)
Definition snapshot_view (s : DbSnapshot) : CoveCanonicalView := {|
  view_getBackingStateByOutpoint := snap_getBackingStateByOutpoint s;
  view_getCurrentBackingState := snap_getCurrentBackingState s;
  view_getBackingOutpoint := snap_getBackingOutpoint s;
  view_getTokenUtxo := snap_getTokenUtxo s;
  view_getTokenCreatorScript := Some (snap_getTokenCreatorScript s) |}.

Definition event_of (listingId fillId : option string) (eventType : string) (payload : list (string * string)) : MarketEventRow :=
  {| me_listingId := listingId; me_fillId := fillId; me_eventType := eventType; me_payload := payload |}.

Section Service.
Context {C : Crypto} {B : Bitcoin} {J : BitcoinJs} {P : PsbtBuilder} {PC : PsbtCodec} {MS : MessageSigning} {PG : Postgres}.
Context (bad_tx_message : string → string).
Context (config : MarketConfig) (d : V3Db) (node : MarketNode) (now : Z).

Definition marketFeeFor (price : Z) : result Z := deterministicFee price (mc_p2pFeeBps config) 0 (mc_p2pFeeMinSats config).

Definition ready : result HealthReport := assertMarketReady d config (mn_core node).

(** The key controls the script, and is there when the script needs it. *)
Definition assertKeyControls (scriptHex : string) (publicKeyHex : option string) (who : string) : result unit :=
  let script := fromHex scriptHex in
  kind ← of_option (MarketError "UNSUPPORTED_ADDRESS" (who +:+ " address type is not supported")) (spendKindOf script);
  match truthy publicKeyHex with
  | None =>
      match kind with
      | KindP2wpkh => Ok tt
      | _ => Throw (MarketError "PUBLIC_KEY_REQUIRED" (who +:+ " public key is required for a " +:+ kind_name kind +:+ " address"))
      end
  | Some key =>
      derived ← try_catch (scriptForKind kind (fromHex key))
        (λ _, Throw (MarketError "PUBLIC_KEY_REQUIRED" (who +:+ " public key is invalid")));
      throw_if (negb (bytes_eqb derived script))
        (MarketError "PUBLIC_KEY_REQUIRED" (who +:+ " public key does not control that address"))
  end.

Definition source_rows (l : ListingV1) : list UtxoRow :=
  select (λ r, String.eqb (ur_txid r) (sourceTxid l) && (ur_vout r =? sourceVout l)
               && String.eqb (ur_tokenId r) (l_tokenId l) && String.eqb (ur_scriptPubKey r) (sellerTokenScript l)
               && live_row r) (coveV3TokenUtxos d).

Definition resolveSource (l : ListingV1) : result SourceResolution :=
  row ← match source_rows l with
        | [row] => Ok row
        | _ => Throw (MarketError "LISTING_BAD_SOURCE" "source token UTXO not canonical/unspent")
        end;
  throw_if (negb (ur_amountAtoms row =? sourceAmountAtoms l))
    (MarketError "LISTING_SOURCE_MISMATCH" "source amount mismatch vs indexer");;
  txout ← mn_getTxout node (sourceTxid l) (sourceVout l);
  txout ← of_option (MarketError "LISTING_SOURCE_SPENT" "source outpoint already spent") txout;
  throw_if (negb (String.eqb (to_scriptPubKeyHex txout) (sellerTokenScript l)))
    (MarketError "LISTING_SOURCE_MISMATCH" "source script mismatch vs Core");;
  Ok {| sr_scriptPubKey := fromHex (sellerTokenScript l); sr_amountAtoms := ur_amountAtoms row;
        sr_valueSats := to_valueSats txout |}.

(** *** createListing *)

(** What is checked before anything is written; the id of the order. *)
Definition check_listing (input : ListingV1) (signatureB64 : string) (publicKey : option string) : result string :=
  throw_if (negb (String.eqb (l_chainIdentity input) (mc_chainIdentity config)))
    (MarketError "CHAIN_IDENTITY_MISMATCH" ("listing chainIdentity " +:+ l_chainIdentity input +:+ " != server "
                                            +:+ mc_chainIdentity config));;
  ready;;
  validateListingShape input;;
  let listingWindow := expiryHeight input - creationHeight input in
  throw_if (mc_maxListingBlocks config <? listingWindow)
    (MarketError "LISTING_EXPIRY_TOO_FAR"
       ("listing would stay open for " +:+ pretty listingWindow +:+ " blocks; the limit is "
        +:+ pretty (mc_maxListingBlocks config) +:+ " (about " +:+ pretty (Z.quot (mc_maxListingBlocks config) 144) +:+ " days)"));;
  assertKeyControls (sellerTokenScript input) publicKey "seller token";;
  signed ← verifyListingAuthorization input signatureB64;
  throw_if (negb signed) (MarketError "LISTING_BAD_SIGNATURE" "listing BIP-322 signature invalid");;
  resolveSource input;;
  throw_if (totalPriceSats input <? dustThreshold (fromHex (sellerPayoutScript input)) DUST_RELAY_FEE_SAT_PER_KVB)
    (MarketError "SELLER_PAYOUT_DUST" "seller payout below relay dust");;
  assertSettlementCap (totalPriceSats input) (mc_maxP2pSettlementSats config);;
  marketFee ← marketFeeFor (totalPriceSats input);
  throw_if (marketFee <? dustThreshold (mc_feeScript config) DUST_RELAY_FEE_SAT_PER_KVB)
    (MarketError "MARKET_FEE_DUST" "p2p fee below relay dust");;
  listingIdOf input.

Definition input_key (r : ListingInputRow) : string * string * Z := (li_listingId r, li_sourceTxid r, li_sourceVout r).

Definition insert_listing (listingId : string) (input : ListingV1) (signatureB64 : string) (publicKey : option string)
    (m : MarketDb) : result MarketDb :=
  throw_if (bool_decide (is_Some (find_listing m listingId))) (MarketError "STATE_CHANGED" "listingId already exists");;
  m ← put_listings (md_listings m ++ [{| lr_listingId := listingId; lr_order := input; lr_signatureB64 := signatureB64;
                                        lr_sellerTokenPublicKey := publicKey; lr_status := LActive |}]) m;
  inputs ← insert_row input_key {| li_listingId := listingId; li_sourceTxid := sourceTxid input;
              li_sourceVout := sourceVout input; li_amountAtoms := sourceAmountAtoms input;
              li_scriptPubKey := sellerTokenScript input |} (md_inputs m);
  Ok (add_event (event_of (Some listingId) None "LISTING_CREATED"
                   [("amountAtoms"%string, pretty (amountAtoms input)); ("totalPriceSats"%string, pretty (totalPriceSats input))])
        (set_inputs m inputs)).

Definition createListing (input : ListingV1) (signatureB64 : string) (publicKey : option string) : M string :=
  listingId ← pureM (check_listing input signatureB64 publicKey);
  statement (insert_listing listingId input signatureB64 publicKey);;
  mret listingId.

(** *** cancelListing *)
Definition cancellation_key (r : CancellationRow) : string * string := (ca_listingId r, ca_cancelHash r).

Definition cancel_rows (listingId cancelNonce signatureB64 cancelHash : string) (m : MarketDb) : result MarketDb :=
  row ← of_option listing_not_found (find_listing m listingId);
  throw_if (bool_decide (lr_status row ∈ [LFilled; LCancelled]))
    (MarketError "LISTING_CANCELLED" ("cannot cancel " +:+ listing_status_name (lr_status row) +:+ " listing"));;
  cs ← insert_row cancellation_key {| ca_listingId := listingId; ca_cancelHash := cancelHash; ca_cancelNonce := cancelNonce;
                                      ca_signatureB64 := signatureB64 |} (md_cancellations m);
  m ← set_listing_status listingId LCancelled (set_cancellations m cs);
  m ← update_fills_of listingId (λ f, signing_status (fl_status f)) (with_fill_status FCancelled) m;
  Ok (add_event (event_of (Some listingId) None "LISTING_CANCELLED" [("cancelHash"%string, cancelHash)]) m).

Definition cancelListing (listingId cancelNonce signatureB64 : string) : M unit :=
  listing ← load_listing listingId;
  let cancellation := {| cn_version := 1; cn_listingId := listingId; cn_cancelNonce := cancelNonce |} in
  signed ← pureM (verifyCancellationAuthorization (lr_order listing) cancellation signatureB64);
  pureM (throw_if (negb signed) (MarketError "LISTING_BAD_SIGNATURE" "cancellation BIP-322 signature invalid"));;
  statement (cancel_rows listingId cancelNonce signatureB64 (cancellationHashOf cancellation)).

(** *** reserveListing *)
Definition buyer_carriers (script : string) : list UtxoRow :=
  select (λ r, bool_decide (ur_spentByTxid r = None) && String.eqb (ur_scriptPubKey r) script) (coveV3TokenUtxos d).

Definition check_reservation (input : ReserveListingInput) : result Z :=
  signed ← verifyReservationAuthorization
    {| rv_version := 1; rv_listingId := ri_listingId input; rv_reserveNonce := ri_reserveNonce input;
       rv_buyerTokenScript := ri_buyerTokenScript input |} (ri_signatureB64 input);
  throw_if (negb signed) (MarketError "LISTING_BAD_SIGNATURE" "reservation BIP-322 signature invalid");;
  ready;;
  throw_if (existsb (λ f, negb (String.eqb (bf_script f) (ri_buyerChangeScript input))) (ri_buyerFundInputs input))
    (MarketError "BUYER_FUNDS_INSUFFICIENT" "every funding coin must belong to the buyer's payment address");;
  assertKeyControls (ri_buyerChangeScript input) (ri_buyerFundPublicKey input) "buyer payment";;
  let carriers := (λ r, outpointKey (ur_txid r) (ur_vout r)) <$> buyer_carriers (ri_buyerChangeScript input) in
  throw_if (existsb (λ f, bool_decide (outpointKey (bf_txid f) (bf_vout f) ∈ carriers)) (ri_buyerFundInputs input))
    (MarketError "BUYER_FUNDS_INSUFFICIENT" "a funding coin holds tokens and cannot pay for a purchase");;
  mn_getBestHeight node.

Definition new_fill (fillId : string) (input : ReserveListingInput) (row : ListingRow) (marketFee : Z) : FillRow := {|
  fl_id := fillId; fl_listingId := ri_listingId input; fl_tokenId := l_tokenId (lr_order row);
  fl_buyerTokenScript := ri_buyerTokenScript input; fl_buyerChangeScript := ri_buyerChangeScript input;
  fl_buyerFundInputs := ri_buyerFundInputs input; fl_buyerFundPublicKey := ri_buyerFundPublicKey input;
  fl_amountAtoms := amountAtoms (lr_order row); fl_totalPriceSats := totalPriceSats (lr_order row);
  fl_marketFeeSats := marketFee; fl_extraCarrierSats := 0; fl_minerFeeSats := 0;
  fl_unsignedTxDigest := None; fl_psbtBase64 := None; fl_status := FReserved; fl_txid := None; fl_blockHeight := None;
  fl_blockHash := None; fl_canonical := true; fl_failureReason := None;
  fl_reservationExpiresAt := Some (now + mc_reservationTtlSeconds config * 1000); fl_createdAt := now |}.

Definition reserve_rows (fillId : string) (input : ReserveListingInput) (tip : Z) (m : MarketDb) : result MarketDb :=
  row ← of_option listing_not_found (find_listing m (ri_listingId input));
  throw_if (negb (bool_decide (lr_status row = LActive)))
    (MarketError "LISTING_RESERVED" ("listing is " +:+ listing_status_name (lr_status row)));;
  (if expiryHeight (lr_order row) <=? tip then
     _ ← set_listing_status (ri_listingId input) LExpired m;
     Throw (MarketError "LISTING_EXPIRED" "listing expired")
   else Ok tt);;
  resolveSource (lr_order row);;
  marketFee ← marketFeeFor (totalPriceSats (lr_order row));
  m ← put_fills (md_fills m ++ [new_fill fillId input row marketFee]) m;
  set_listing_status (ri_listingId input) LReserved m.

(** [fillId] is the identifier the database draws. *)
Definition reserveListing (fillId : string) (input : ReserveListingInput) : M string :=
  tip ← pureM (check_reservation input);
  statement (reserve_rows fillId input tip);;
  mret fillId.

(** *** buildFillPsbt *)
Record FillFee := { fe_feeRateSatPerVb : option Z; fe_minerFeeSats : option Z }.

Definition token_outputs (listing : ListingV1) (fill : FillRow) : list TransferOutput :=
  let changeAtoms := sourceAmountAtoms listing - amountAtoms listing in
  {| xo_script := fromHex (fl_buyerTokenScript fill); xo_amountAtoms := amountAtoms listing |}
  :: (if 0 <? changeAtoms
      then [{| xo_script := fromHex (sellerTokenChangeScript listing); xo_amountAtoms := changeAtoms |}] else []).

Definition funder_inputs (fill : FillRow) : list SpendableInput :=
  (λ f, {| si_txid := bf_txid f; si_vout := bf_vout f; si_script := fromHex (bf_script f); si_valueSats := bf_valueSats f;
           si_publicKey := fromHex <$> truthy (fl_buyerFundPublicKey fill) |}) <$> fl_buyerFundInputs fill.

Definition is_standard_tier (t : FeeTier) : bool := match ft_key t with Standard => true | _ => false end.

Definition fill_vsize (tokenOutputs : list TransferOutput) (btcOutputs : list BtcOutput) (fill : FillRow) : Z :=
  estimateVsize {| vaultInputs := 0; p2wpkhInputs := 1 + Z.of_nat (length (fl_buyerFundInputs fill));
    p2trInputs := None; p2shP2wpkhInputs := None;
    outputScriptBytes := P2P_OP_RETURN_SCRIPT_BYTES :: ((λ o, blen (xo_script o)) <$> tokenOutputs)
      ++ ((λ o, blen (bo_script o)) <$> btcOutputs) ++ [blen (fromHex (fl_buyerChangeScript fill))] |}.

Definition fill_miner_fee (feeInput : FillFee) (vsize : Z) : result Z :=
  let rates := loadFeeRates (mn_fees node) in
  standard ← of_option undefined_prop
    (match List.find is_standard_tier (fr_tiers rates) with Some t => Some t | None => head (fr_tiers rates) end);
  let rate := match fe_feeRateSatPerVb feeInput with
              | Some r => Some r
              | None => match fe_minerFeeSats feeInput with None => Some (ft_satPerVb standard) | Some _ => None end
              end in
  try_catch
    (r ← resolveMinerFee {| rm_rateSatPerVb := rate; rm_explicitSats := fe_minerFeeSats feeInput; rm_vsize := vsize;
           rm_floorSatPerVb := fr_floorSatPerVb rates; rm_ceilingSatPerVb := fr_ceilingSatPerVb rates;
           rm_maxMinerFeeSats := mc_maxMinerFeeSats config |};
     Ok (rf_minerFeeSats r))
    (λ e, Throw (match exn_class e with
                 | EFeeError => MarketError "BUYER_FUNDS_INSUFFICIENT" (exn_message e)
                 | _ => e
                 end)).

(** The PSBT, the fee it pays, the carriers' surplus and the market fee. *)
Definition build_fill (fill : FillRow) (row : ListingRow) (feeInput : FillFee) : result (Psbt * Z * Z * Z) :=
  let listing := lr_order row in
  source ← resolveSource listing;
  let tokenOutputs := token_outputs listing fill in
  let extraCarrierSats := Z.of_nat (length tokenOutputs) * TOKEN_CARRIER_SATS - sr_valueSats source in
  marketFee ← marketFeeFor (totalPriceSats listing);
  let btcOutputs := [{| bo_script := fromHex (sellerPayoutScript listing); bo_valueSats := totalPriceSats listing |};
                     {| bo_script := mc_feeScript config; bo_valueSats := marketFee |}] in
  let funderInputs := funder_inputs fill in
  minerFeeSats ← fill_miner_fee feeInput (fill_vsize tokenOutputs btcOutputs fill);
  result ← buildTransferPsbtV2
    {| tp_tokenId := fromHex (l_tokenId listing);
       tp_tokenInputs := [{| si_txid := sourceTxid listing; si_vout := sourceVout listing; si_script := sr_scriptPubKey source;
                             si_valueSats := sr_valueSats source;
                             si_publicKey := fromHex <$> truthy (lr_sellerTokenPublicKey row) |}];
       tp_tokenInputTotalAtoms := sourceAmountAtoms listing; tp_tokenOutputs := tokenOutputs;
       tp_funderInputs := funderInputs; tp_funderChangeScript := fromHex (fl_buyerChangeScript fill);
       tp_btcOutputs := btcOutputs; tp_minerFeeSats := minerFeeSats |};
  let requiredFunding := totalPriceSats listing + marketFee + extraCarrierSats + minerFeeSats in
  let change := inputs_value funderInputs - requiredFunding in
  throw_if (change <? 0) (MarketError "BUYER_FUNDS_INSUFFICIENT" ("short " +:+ pretty (- change) +:+ " sats"));;
  Ok (tb_psbt result, tb_minerFeeSats result, extraCarrierSats, marketFee).

Definition buildFillPsbt (fillId : string) (fee : FillFee) : M string :=
  pureM ready;;
  fill ← load_fill fillId;
  pureM (throw_if (negb (bool_decide (fl_status fill ∈ [FReserved; FPsbtBuilt]))) (fill_is (fl_status fill)));;
  listing ← load_listing (fl_listingId fill);
  '(psbt, settledMinerFeeSats, extraCarrierSats, marketFee) ← pureM (build_fill fill listing fee);
  let psbtB64 := psbt_toBase64 psbt in
  statement (update_fill fillId (with_built_psbt psbtB64 (unsignedTxDigest psbt) settledMinerFeeSats extraCarrierSats marketFee));;
  mret psbtB64.

(** *** submitBuyerSignedPsbt, submitSellerSignedPsbt *)
Definition digest_mutated (fill : FillRow) (psbt : Psbt) : bool :=
  match truthy (fl_unsignedTxDigest fill) with
  | Some digest => negb (String.eqb (unsignedTxDigest psbt) digest)
  | None => false
  end.

Definition psbt_mutated (fill : FillRow) (psbt : Psbt) : result unit :=
  throw_if (digest_mutated fill psbt) (MarketError "PSBT_MUTATED" "unsigned tx digest mismatch").

(** [for (let i = 1; i <= fundCount; i++) f(i)] *)
Fixpoint each_from (i : Z) (n : nat) (f : Z → result unit) : result unit :=
  match n with O => Ok tt | S n => f i;; each_from (i + 1) n f end.

Definition fund_count (fill : FillRow) : nat := length (fl_buyerFundInputs fill).

Definition check_buyer_psbt (fill : FillRow) (psbtB64 : string) : result unit :=
  psbt ← parsePsbt psbtB64;
  psbt_mutated fill psbt;;
  throw_if (bool_decide (is_Some (partialSigOfInput psbt 0)))
    (MarketError "PSBT_MUTATED" "token input must not be buyer-signed");;
  each_from 1 (fund_count fill) (validateP2wpkhPartialSig psbt).

Definition submitBuyerSignedPsbt (fillId psbtB64 : string) : M unit :=
  fill ← load_fill fillId;
  pureM (throw_if (negb (bool_decide (fl_status fill = FPsbtBuilt))) (fill_is (fl_status fill)));;
  pureM (check_buyer_psbt fill psbtB64);;
  statement (update_fill fillId (with_psbt FBuyerSigned psbtB64 (Some (now + mc_sellerSignTtlSeconds config * 1000)))).

Definition check_seller_psbt (fill : FillRow) (psbtB64 : string) : result unit :=
  psbt ← parsePsbt psbtB64;
  psbt_mutated fill psbt;;
  validateP2wpkhPartialSig psbt 0;;
  each_from 1 (fund_count fill) (λ i,
    throw_if (bool_decide (partialSigOfInput psbt i = None))
      (MarketError "BUYER_SIGNATURE_INVALID" ("buyer input " +:+ pretty i +:+ " signature lost"))).

Definition submitSellerSignedPsbt (fillId psbtB64 : string) : M unit :=
  pureM ready;;
  fill ← load_fill fillId;
  pureM (throw_if (negb (bool_decide (fl_status fill = FBuyerSigned))) (fill_is (fl_status fill)));;
  listing ← load_listing (fl_listingId fill);
  pureM (resolveSource (lr_order listing));;
  pureM (check_seller_psbt fill psbtB64);;
  statement (update_fill fillId (λ f, with_psbt FSellerSigned psbtB64 (fl_reservationExpiresAt f) f)).

(** *** finalizeP2PFill, broadcastP2PFill *)
Definition buildTerms (row : ListingRow) (fill : FillRow) : P2PFillTerms :=
  let l := lr_order row in {|
  pt_listingId := lr_listingId row; pt_fillId := fl_id fill; pt_tokenId := l_tokenId l; pt_sourceTxid := sourceTxid l;
  pt_sourceVout := sourceVout l; pt_sourceAmountAtoms := sourceAmountAtoms l;
  pt_sellerTokenScript := fromHex (sellerTokenScript l); pt_sellerTokenChangeScript := fromHex (sellerTokenChangeScript l);
  pt_sellerPayoutScript := fromHex (sellerPayoutScript l); pt_amountAtoms := amountAtoms l;
  pt_totalPriceSats := totalPriceSats l; pt_marketFeeSats := fl_marketFeeSats fill; pt_minerFeeSats := fl_minerFeeSats fill;
  pt_buyerTokenScript := fromHex (fl_buyerTokenScript fill); pt_buyerChangeScript := fromHex (fl_buyerChangeScript fill);
  pt_feeScript := mc_feeScript config;
  pt_buyerFundInputs := (λ f, {| tf_txid := bf_txid f; tf_vout := bf_vout f; tf_script := fromHex (bf_script f);
                                 tf_valueSats := bf_valueSats f |}) <$> fl_buyerFundInputs fill |}.

Definition loadView (tokenId txid : string) (vout : Z) : CoveCanonicalView :=
  snapshot_view (loadCanonicalViewSnapshotFromDb d tokenId [{| op_txid := txid; op_vout := vout |}]).

(** The transaction of a fill and what the validation makes of it. *)
Definition validate_fill (row : ListingRow) (fill : FillRow) (b64 : string) : result ValidatedP2PFill :=
  assertSettlementCap (totalPriceSats (lr_order row)) (mc_maxP2pSettlementSats config);;
  psbt ← parsePsbt b64;
  psbt ← finalizeAllInputs psbt;
  rawTxHex ← extractTransactionHex psbt;
  let l := lr_order row in
  validateFinalizedP2PFill bad_tx_message
    {| pf_rawTxHex := rawTxHex; pf_terms := buildTerms row fill;
       pf_view := loadView (l_tokenId l) (sourceTxid l) (sourceVout l); pf_network := mc_network config |}.

Definition finalizeP2PFill (fillId : string) : M ValidatedP2PFill :=
  pureM ready;;
  fill ← load_fill fillId;
  pureM (throw_if (negb (bool_decide (fl_status fill ∈ [FSellerSigned; FBroadcast]))) (fill_is (fl_status fill)));;
  b64 ← pureM (of_option (MarketError "STATE_CHANGED" "fill has no PSBT") (truthy (fl_psbtBase64 fill)));
  listing ← load_listing (fl_listingId fill);
  validated ← pureM (validate_fill listing fill b64);
  statement (update_fill fillId (λ f, with_fill_txid (fl_status f) (vf_txid validated) f));;
  mret validated.

Definition broadcast_rows (v : ValidatedP2PFill) (txid : string) (m : MarketDb) : result MarketDb :=
  m ← update_fill (vf_fillId v) (with_fill_txid FBroadcast txid) m;
  m ← set_listing_status (vf_listingId v) LBroadcast m;
  Ok (add_event (event_of (Some (vf_listingId v)) (Some (vf_fillId v)) "FILL_BROADCAST" [("txid"%string, txid)]) m).

Definition broadcastP2PFill (v : ValidatedP2PFill) : M string :=
  txid ← pureM (broadcastValidatedP2PFill v (mc_network config) (mn_broadcast node)).1;
  statement (broadcast_rows v txid);;
  mret txid.

(** The last two steps of the request of packages/cove-app/src/service.ts, after
    guards of its own that only throw. *)
Definition finalizeAndBroadcastFill (fillId : string) : M string :=
  validated ← finalizeP2PFill fillId;
  broadcastP2PFill validated.

(** *** reconcileMarket *)
Definition sourceUtxoRow (l : ListingV1) : option UtxoRow :=
  head (select (λ r, String.eqb (ur_txid r) (sourceTxid l) && (ur_vout r =? sourceVout l)) (coveV3TokenUtxos d)).

(** [utxo && utxo.spentByTxid === fill.txid && utxo.canonical] *)
Definition spent_by_fill (l : ListingV1) (fill : FillRow) : option UtxoRow :=
  match sourceUtxoRow l with
  | Some u => if bool_decide (ur_spentByTxid u = fl_txid fill) && ur_canonical u then Some u else None
  | None => None
  end.

Definition listingFillTxid (m : MarketDb) (listingId spentByTxid : string) : bool :=
  existsb (λ f, String.eqb (fl_listingId f) listingId && bool_decide (fl_txid f = Some spentByTxid)) (md_fills m).

(** [orderBy(desc(createdAt)).limit(1)] *)
Definition later (a b : FillRow) : Prop := fl_createdAt b ≤ fl_createdAt a.
#[local] Instance later_dec : RelDecision later.
Proof. unfold RelDecision, later. intros. apply _. Defined.

Definition latestFillTxid (m : MarketDb) (listingId : string) : option string :=
  f ← head (merge_sort later (select (λ f, String.eqb (fl_listingId f) listingId) (md_fills m))); fl_txid f.

Definition inMempool (txid : string) : bool := is_ok (mn_getRawTransaction node txid).

Definition null_violation : exn := js_error "null value violates not-null constraint".

Definition trade_of (fill : FillRow) (row : ListingRow) (txid : string) (height : Z) (hash : option string) : TradeRow := {|
  mt_tokenId := l_tokenId (lr_order row); mt_listingId := lr_listingId row; mt_fillId := fl_id fill;
  mt_sellerTokenScript := sellerTokenScript (lr_order row); mt_buyerTokenScript := fl_buyerTokenScript fill;
  mt_amountAtoms := fl_amountAtoms fill; mt_totalPriceSats := fl_totalPriceSats fill;
  mt_marketFeeSats := fl_marketFeeSats fill; mt_minerFeeSats := fl_minerFeeSats fill; mt_txid := txid;
  mt_blockHeight := height; mt_blockHash := hash; mt_canonical := true |}.

Definition trade_with (height : Z) (hash : option string) (canonical : bool) (t : TradeRow) : TradeRow := {|
  mt_tokenId := mt_tokenId t; mt_listingId := mt_listingId t; mt_fillId := mt_fillId t;
  mt_sellerTokenScript := mt_sellerTokenScript t; mt_buyerTokenScript := mt_buyerTokenScript t;
  mt_amountAtoms := mt_amountAtoms t; mt_totalPriceSats := mt_totalPriceSats t; mt_marketFeeSats := mt_marketFeeSats t;
  mt_minerFeeSats := mt_minerFeeSats t; mt_txid := mt_txid t; mt_blockHeight := height; mt_blockHash := hash;
  mt_canonical := canonical |}.

Definition ensureTrade (fill : FillRow) (row : ListingRow) (height : Z) (hash : option string) (m : MarketDb) : result MarketDb :=
  txid ← of_option null_violation (fl_txid fill);
  if has_key mt_txid txid (md_trades m)
  then put_trades (update_rows mt_txid txid (trade_with height hash true) (md_trades m)) m
  else put_trades (md_trades m ++ [trade_of fill row txid height hash]) m.

Definition txid_payload (txid : option string) : list (string * string) := [("txid"%string, default "null"%string txid)].

Definition confirm_rows (fill : FillRow) (row : ListingRow) (u : UtxoRow) (tip : Z) (m : MarketDb) : result MarketDb :=
  let height := default tip (ur_spentHeight u) in
  m ← update_fill (fl_id fill) (with_block FConfirmed height (ur_spentBlockHash u)) m;
  m ← set_listing_status (lr_listingId row) LFilled m;
  m ← ensureTrade fill row height (ur_spentBlockHash u) m;
  Ok (add_event (event_of (Some (lr_listingId row)) (Some (fl_id fill)) "FILL_CONFIRMED" (txid_payload (fl_txid fill))) m).

(** (A) *)
Definition promote (tip : Z) (fill : FillRow) : M Z := λ m,
  match find_listing m (fl_listingId fill) with
  | None => (m, Ok 0)
  | Some row =>
      match spent_by_fill (lr_order row) fill with
      | None => (m, Ok 0)
      | Some u => (statement (confirm_rows fill row u tip);; mret 1) m
      end
  end.

Definition set_trade_canonical (txid : option string) (m : MarketDb) : result MarketDb :=
  match txid with
  | Some txid => put_trades (update_rows mt_txid txid (λ t, trade_with (mt_blockHeight t) (mt_blockHash t) false t) (md_trades m)) m
  | None => Ok m
  end.

Definition reorg_rows (fill : FillRow) (row : ListingRow) (m : MarketDb) : result MarketDb :=
  m ← set_trade_canonical (fl_txid fill) m;
  m ← update_fill (fl_id fill) (with_canonical FReorged false) m;
  m ← set_listing_status (lr_listingId row) LReorged m;
  Ok (add_event (event_of (Some (lr_listingId row)) (Some (fl_id fill)) "FILL_REORGED" (txid_payload (fl_txid fill))) m).

(** (B) *)
Definition demote (fill : FillRow) : M Z := λ m,
  match find_listing m (fl_listingId fill) with
  | None => (m, Ok 0)
  | Some row =>
      match spent_by_fill (lr_order row) fill with
      | Some _ => (m, Ok 0)
      | None => (statement (reorg_rows fill row);; mret 1) m
      end
  end.

Definition invalidatable (s : FillStatus) : bool := signing_status s || bool_decide (s = FBroadcast).

Definition invalidate_rows (listingId reason : string) (m : MarketDb) : result MarketDb :=
  m ← set_listing_status listingId LInvalidated m;
  m ← update_fills_of listingId (λ f, invalidatable (fl_status f)) (with_failure FFailed reason) m;
  Ok (add_event (event_of (Some listingId) None "LISTING_INVALIDATED" [("reason"%string, reason)]) m).

Definition invalidateListing (listingId reason : string) : M unit := statement (invalidate_rows listingId reason).

Definition repend_rows (listingId txid : string) (m : MarketDb) : result MarketDb :=
  m ← update_fills_of listingId (λ f, bool_decide (fl_txid f = Some txid)) (with_canonical FBroadcast true) m;
  m ← set_listing_status listingId LBroadcast m;
  Ok (add_event (event_of (Some listingId) None "FILL_REPENDING" [("txid"%string, txid)]) m).

(** A listing whose source no confirmed transaction spends. *)
Definition settle_unspent (row : ListingRow) : M Z := λ m,
  let id := lr_listingId row in
  match mn_getTxout node (sourceTxid (lr_order row)) (sourceVout (lr_order row)) with
  | Throw e => (m, Throw e)
  | Ok (Some _) =>
      if bool_decide (lr_status row = LReorged) then (statement (set_listing_status id LActive);; mret 0) m else (m, Ok 0)
  | Ok None =>
      match latestFillTxid m id with
      | Some ourTxid =>
          if inMempool ourTxid
          then if bool_decide (lr_status row = LReorged) then (statement (repend_rows id ourTxid);; mret 0) m else (m, Ok 0)
          else (invalidateListing id "source spent in mempool by an external tx";; mret 1) m
      | None => (invalidateListing id "source spent in mempool by an external tx";; mret 1) m
      end
  end.

(** (C) *)
Definition settle_listing (row : ListingRow) : M Z := λ m,
  match (u ← sourceUtxoRow (lr_order row); truthy (ur_spentByTxid u)) with
  | Some spender =>
      if listingFillTxid m (lr_listingId row) spender then (m, Ok 0)
      else (invalidateListing (lr_listingId row) ("spent by " +:+ spender);; mret 1) m
  | None => settle_unspent row m
  end.

(** [for (const f of fillFundInputs(fill)) if (!(await getTxout(...))) { dead = true; break; }] *)
Fixpoint funding_spent (inputs : list BuyerFundInput) : result bool :=
  match inputs with
  | [] => Ok false
  | f :: rest =>
      txout ← mn_getTxout node (bf_txid f) (bf_vout f);
      match txout with None => Ok true | Some _ => funding_spent rest end
  end.

Definition release_rows (g : FillRow → FillRow) (fill : FillRow) (m : MarketDb) : result MarketDb :=
  m ← update_fill (fl_id fill) g m;
  move_listing (fl_listingId fill) LReserved LActive m.

(** (C2) *)
Definition release_dead (fill : FillRow) : M Z :=
  dead ← pureM (funding_spent (fl_buyerFundInputs fill));
  if negb dead then mret 0
  else statement (release_rows (with_failure FExpired "buyer funding spent elsewhere") fill);; mret 1.

(** (D) *)
Definition expire_listing (row : ListingRow) : M Z :=
  statement (set_listing_status (lr_listingId row) LExpired);; mret 1.
Definition expire_fill (fill : FillRow) : M Z := statement (release_rows (with_fill_status FExpired) fill);; mret 1.

Definition fill_expired (fill : FillRow) : bool :=
  signing_status (fl_status fill)
  && match fl_reservationExpiresAt fill with Some t => t <=? now | None => false end.

Definition reconcilable (s : ListingStatus) : bool := bool_decide (s ∈ [LActive; LReserved; LBroadcast; LReorged]).

(** The rows that a phase reads at its start. *)
Definition fills_in (s : FillStatus) : M (list FillRow) :=
  readM (λ m, Ok (select (λ f, bool_decide (fl_status f = s)) (md_fills m))).

Record MarketReport := { mr_expired : Z; mr_invalidated : Z; mr_confirmed : Z; mr_reorged : Z }.

Definition reconcileMarket : M MarketReport :=
  tip ← pureM (mn_getBestHeight node);
  broadcastFills ← fills_in FBroadcast;
  confirmed ← for_each (promote tip) broadcastFills;
  confirmedFills ← fills_in FConfirmed;
  reorged ← for_each demote confirmedFills;
  openListings ← readM (λ m, Ok (select (λ r, reconcilable (lr_status r)) (md_listings m)));
  invalidated ← for_each settle_listing openListings;
  waiting ← fills_in FBuyerSigned;
  dead ← for_each release_dead waiting;
  expListings ← readM (λ m, Ok (select (λ r, bool_decide (lr_status r = LActive) && (expiryHeight (lr_order r) <=? tip))
                                  (md_listings m)));
  expiredListings ← for_each expire_listing expListings;
  expFills ← readM (λ m, Ok (select fill_expired (md_fills m)));
  expiredFills ← for_each expire_fill expFills;
  mret {| mr_expired := dead + expiredListings + expiredFills; mr_invalidated := invalidated; mr_confirmed := confirmed;
          mr_reorged := reorged |}.
End Service.
