(* ===== verification/MarketInv.v ===== *)
(** * What the market keeps

    Every operation of MarketService.v keeps the listings and their fills in
    step: a listing is held by at most one fill at a time, and the trades that
    count are the confirmed fills. *)
From S2P Require Import Prelude Bytes Economics Vault Indexer Store Hydrate Guardian Finalize Spend Builder Order Market MarketService.

(** ** Reasoning about operations *)
Section Runs.
Context (I : MarketDb → Prop).

Lemma run_pure {A E} (r : result A) (f : A → M E) m :
  I m → (∀ a, r = Ok a → I (f a m).1) → I ((pureM r ≫= f) m).1.
Proof. intros H Hf. unfold mbind, M_bind, pureM. destruct r; [by apply Hf|done]. Qed.

Lemma run_read {A E} (g : MarketDb → result A) (f : A → M E) m :
  I m → (∀ a, g m = Ok a → I (f a m).1) → I ((readM g ≫= f) m).1.
Proof. intros H Hf. unfold mbind, M_bind, readM. destruct (g m) eqn:E0; [by eapply Hf|done]. Qed.

Lemma run_statement (body : MarketDb → result MarketDb) m :
  I m → (∀ m', body m = Ok m' → I m') → I (statement body m).1.
Proof. intros H Hb. unfold statement, transactionM. destruct (body m) as [m'|] eqn:E; cbn; [by eapply Hb|done]. Qed.

Lemma run_statement_bind {E} (body : MarketDb → result MarketDb) (f : unit → M E) m :
  I m → (∀ m', body m = Ok m' → I (f tt m').1) → I ((statement body ≫= f) m).1.
Proof.
  intros H Hb. unfold mbind, M_bind, statement, transactionM. destruct (body m) as [m'|] eqn:E0; cbn; [by eapply Hb|done].
Qed.

(** A loop whose rounds keep what the remaining rows need. *)
Lemma for_each_inv {X} (Q : list X → MarketDb → Prop) (f : X → M Z) xs m :
  Q xs m → (∀ x xs m, Q (x :: xs) m → Q xs (f x m).1) → (∀ xs m, Q xs m → I m) → I (for_each f xs m).1.
Proof.
  intros HQ Hstep HI. revert m HQ. induction xs as [|x xs IH]; intros m HQ; [by eapply HI|].
  cbn [for_each]. unfold mbind, M_bind. specialize (Hstep x xs m HQ). destruct (f x m) as [m' [n|e]]; cbn in *; [|by eapply HI].
  specialize (IH m' Hstep). by destruct (for_each f xs m') as [m'' [k|e]].
Qed.
End Runs.

(** Runs that returned. *)
Lemma bind_run {A E} (x : M A) (f : A → M E) m m' b :
  (x ≫= f) m = (m', Ok b) → ∃ a m1, x m = (m1, Ok a) ∧ f a m1 = (m', Ok b).
Proof. unfold mbind, M_bind. destruct (x m) as [m1 [a|e]]; [|done]. intros H. by exists a, m1. Qed.

Lemma pure_run {A} (r : result A) m m' a : pureM r m = (m', Ok a) → m' = m ∧ r = Ok a.
Proof. by intros [= -> ->]. Qed.

Lemma read_run {A} (g : MarketDb → result A) m m' a : readM g m = (m', Ok a) → m' = m ∧ g m = Ok a.
Proof. by intros [= -> ?]. Qed.

Lemma statement_run body m m' a : statement body m = (m', Ok a) → body m = Ok m'.
Proof. unfold statement, transactionM. destruct (body m); cbn; [by intros [= -> _]|done]. Qed.

(** ** The invariant *)
Definition engaged (s : FillStatus) : bool := signing_status s || bool_decide (s ∈ [FBroadcast; FConfirmed]).

(** What the status of a fill demands of its listing. *)
Definition allowed (l : ListingStatus) (f : FillStatus) : bool :=
  match f with
  | FReserved | FPsbtBuilt | FBuyerSigned | FSellerSigned => bool_decide (l = LReserved)
  | FBroadcast => bool_decide (l ∈ [LBroadcast; LCancelled])
  | FConfirmed => bool_decide (l = LFilled)
  | _ => true
  end.

Record core (ls : list ListingRow) (fs : list FillRow) : Prop := {
  co_ids : NoDup (lr_listingId <$> ls);
  co_fill_ids : NoDup (fl_id <$> fs);
  co_txids : NoDup (omap fl_txid fs);
  co_listed f : f ∈ fs → ∃ r, r ∈ ls ∧ lr_listingId r = fl_listingId f;
  co_fits f r : f ∈ fs → r ∈ ls → lr_listingId r = fl_listingId f → allowed (lr_status r) (fl_status f) = true;
  co_alone f g : f ∈ fs → g ∈ fs → fl_listingId f = fl_listingId g →
    engaged (fl_status f) = true → engaged (fl_status g) = true → fl_id f = fl_id g;
  co_held r : r ∈ ls → lr_status r = LReserved →
    ∃ f, f ∈ fs ∧ fl_listingId f = lr_listingId r ∧ signing_status (fl_status f) = true;
  co_txid f : f ∈ fs → fl_status f ∈ [FBroadcast; FConfirmed] → is_Some (fl_txid f);
}.

(** The trades that count are the confirmed fills. *)
Record trades_match (fs : list FillRow) (ts : list TradeRow) : Prop := {
  tm_unique : NoDup (mt_txid <$> ts);
  tm_filled t : t ∈ ts → mt_canonical t = true → ∃ f, f ∈ fs ∧ fl_status f = FConfirmed ∧ fl_txid f = Some (mt_txid t);
  tm_traded f : f ∈ fs → fl_status f = FConfirmed →
    ∃ t, t ∈ ts ∧ mt_canonical t = true ∧ fl_txid f = Some (mt_txid t);
}.

Definition market_ok (m : MarketDb) : Prop :=
  core (md_listings m) (md_fills m) ∧ trades_match (md_fills m) (md_trades m).

Lemma market_ok_empty : market_ok empty_market.
Proof. split; split; cbn; try constructor; set_solver. Qed.

(** ** Rows by their key *)
Lemma nodup_key {R K} `{EqDecision K} (key : R → K) (l : list R) x y :
  NoDup (key <$> l) → x ∈ l → y ∈ l → key x = key y → x = y.
Proof.
  intros Hn (i & Hi)%list_elem_of_lookup (j & Hj)%list_elem_of_lookup E.
  assert (i = j) as ->; [|congruence].
  eapply NoDup_lookup; [exact Hn|by rewrite list_lookup_fmap, Hi|by rewrite list_lookup_fmap, Hj, E].
Qed.

Lemma nodup_txid (fs : list FillRow) f g t :
  NoDup (fl_id <$> fs) → NoDup (omap fl_txid fs) → f ∈ fs → g ∈ fs → fl_txid f = Some t → fl_txid g = Some t → f = g.
Proof.
  intros Hi. induction fs as [|x fs IH]; [set_solver|]. intros Hn Hf Hg Ef Eg.
  apply NoDup_cons in Hi as [_ Hi]. cbn [omap list_omap] in Hn. destruct (fl_txid x) as [t'|] eqn:Ex.
  - apply NoDup_cons in Hn as [Hx Hn]. rewrite list_elem_of_omap in Hx.
    apply elem_of_cons in Hf as [->|Hf], Hg as [->|Hg]; try done; [exfalso; apply Hx; exists g; by simplify_eq
      |exfalso; apply Hx; exists f; by simplify_eq|by apply IH].
  - apply elem_of_cons in Hf as [->|Hf], Hg as [->|Hg]; try congruence. by apply IH.
Qed.

Lemma head_filter_Some {A} (p : A → bool) l x : head (List.filter p l) = Some x → x ∈ l ∧ p x = true.
Proof.
  destruct (List.filter p l) as [|y l'] eqn:E; [done|]. intros [= ->].
  assert (In x (List.filter p l)) as Hin by (rewrite E; by left). apply filter_In in Hin. by rewrite list_elem_of_In.
Qed.

Lemma head_filter_None {A} (p : A → bool) l x : head (List.filter p l) = None → x ∈ l → p x = false.
Proof.
  destruct (List.filter p l) eqn:E; [|done]. intros _ Hx%list_elem_of_In. destruct (p x) eqn:Ep; [|done].
  assert (In x (List.filter p l)) as Hin by by apply filter_In. by rewrite E in Hin.
Qed.

Lemma find_listing_Some m id r : find_listing m id = Some r → r ∈ md_listings m ∧ lr_listingId r = id.
Proof. intros [? ?%String.eqb_eq]%head_filter_Some. done. Qed.
Lemma find_fill_Some m id f : find_fill m id = Some f → f ∈ md_fills m ∧ fl_id f = id.
Proof. intros [? ?%String.eqb_eq]%head_filter_Some. done. Qed.

(** ** One listing and its fills change *)
Definition at_id (id : string) (g : FillRow → FillRow) (f : FillRow) : FillRow :=
  if bool_decide (fl_id f = id) then g f else f.
Definition at_listing (id : string) (s : ListingStatus) (r : ListingRow) : ListingRow :=
  if bool_decide (lr_listingId r = id) then with_listing_status s r else r.

(** [gL] and [gF] keep the keys and touch one listing and its fills only. *)
Record local_change (fs : list FillRow) (id : string) (gL : ListingRow → ListingRow) (gF : FillRow → FillRow) : Prop := {
  lc_id r : lr_listingId (gL r) = lr_listingId r;
  lc_fill f : fl_id (gF f) = fl_id f ∧ fl_listingId (gF f) = fl_listingId f;
  lc_else r : lr_listingId r ≠ id → gL r = r;
  lc_fill_else f : f ∈ fs → fl_listingId f ≠ id → gF f = f;
}.

Lemma core_change id gL gF ls fs :
  core ls fs → local_change fs id gL gF → NoDup (omap fl_txid (gF <$> fs)) →
  (∀ r f, r ∈ ls → f ∈ fs → lr_listingId r = id → fl_listingId f = id → allowed (lr_status (gL r)) (fl_status (gF f)) = true) →
  (∀ f g, f ∈ fs → g ∈ fs → fl_listingId f = id → fl_listingId g = id →
    engaged (fl_status (gF f)) = true → engaged (fl_status (gF g)) = true → fl_id f = fl_id g) →
  (∀ r, r ∈ ls → lr_listingId r = id → lr_status (gL r) = LReserved →
    ∃ f, f ∈ fs ∧ fl_listingId f = id ∧ signing_status (fl_status (gF f)) = true) →
  (∀ f, f ∈ fs → fl_listingId f = id → fl_status (gF f) ∈ [FBroadcast; FConfirmed] → is_Some (fl_txid (gF f))) →
  core (gL <$> ls) (gF <$> fs).
Proof.
  intros [C1 C2 C3 C4 C5 C6 C7 C8] [L1 L2 L3 L4] Htx Hfit Halone Hheld Htxid. split.
  - rewrite <-list_fmap_compose. by rewrite (list_fmap_ext _ lr_listingId) by (intros; apply L1).
  - rewrite <-list_fmap_compose. by rewrite (list_fmap_ext _ fl_id) by (intros; apply L2).
  - done.
  - intros ? (f & -> & Hf)%list_elem_of_fmap. destruct (C4 f Hf) as (r & Hr & E). exists (gL r).
    rewrite L1, (proj2 (L2 f)). split; [by apply list_elem_of_fmap_2|done].
  - intros ? ? (f & -> & Hf)%list_elem_of_fmap (r & -> & Hr)%list_elem_of_fmap. rewrite L1, (proj2 (L2 f)). intros E.
    destruct (decide (fl_listingId f = id)); [apply Hfit; congruence|rewrite L3, L4 by (done || congruence); by apply C5].
  - intros ? ? (f & -> & Hf)%list_elem_of_fmap (g & -> & Hg)%list_elem_of_fmap.
    rewrite (proj2 (L2 f)), (proj2 (L2 g)), (proj1 (L2 f)), (proj1 (L2 g)). intros E.
    destruct (decide (fl_listingId f = id)); [apply Halone; congruence|rewrite !L4 by (done || congruence); by apply C6].
  - intros ? (r & -> & Hr)%list_elem_of_fmap Hs. rewrite L1. destruct (decide (lr_listingId r = id)) as [Hid|].
    + destruct (Hheld r Hr Hid Hs) as (f & Hf & El & Es). exists (gF f). rewrite (proj2 (L2 f)).
      split_and!; [by apply list_elem_of_fmap_2|congruence|done].
    + rewrite L3 in Hs by done. destruct (C7 r Hr Hs) as (f & Hf & El & Es). exists f.
      assert (gF f = f) as Ef by (apply L4; [done|congruence]). split_and!; [|done..]. rewrite <-Ef. by apply list_elem_of_fmap_2.
  - intros ? (f & -> & Hf)%list_elem_of_fmap. destruct (decide (fl_listingId f = id)); [by apply Htxid|].
    rewrite L4 by done. by apply C8.
Qed.

(** Trades are left alone by a change that keeps the confirmed fills. *)
Lemma trades_keep gF fs ts :
  trades_match fs ts →
  (∀ f, f ∈ fs → fl_status (gF f) = FConfirmed ↔ fl_status f = FConfirmed) →
  (∀ f, f ∈ fs → fl_status f = FConfirmed → fl_txid (gF f) = fl_txid f) →
  trades_match (gF <$> fs) ts.
Proof.
  intros [T1 T2 T3] Hs Ht. split; [done|..].
  - intros t Hin Hc. destruct (T2 t Hin Hc) as (f & Hf & Es & Et). exists (gF f).
    split_and!; [by apply list_elem_of_fmap_2|by apply Hs|by rewrite Ht].
  - intros ? (f & -> & Hf)%list_elem_of_fmap Es. apply (Hs f Hf) in Es. destruct (T3 f Hf Es) as (t & Hin & Hc & Et).
    exists t. split_and!; [done..|]. by rewrite Ht.
Qed.

Lemma trades_keep_id fs ts : trades_match fs ts → trades_match (id <$> fs) ts.
Proof. by rewrite list_fmap_id. Qed.

Definition keeps_keys (g : FillRow → FillRow) : Prop := ∀ f, fl_id (g f) = fl_id f ∧ fl_listingId (g f) = fl_listingId f.

(** A listing with a status that holds no fill. *)
Lemma core_listing ls fs id s gF :
  core ls fs → s ≠ LReserved → keeps_keys gF → (∀ f, f ∈ fs → fl_listingId f ≠ id → gF f = f) →
  NoDup (omap fl_txid (gF <$> fs)) →
  (∀ f, f ∈ fs → fl_listingId f = id → allowed s (fl_status (gF f)) = true) →
  (∀ f g, f ∈ fs → g ∈ fs → fl_listingId f = id → fl_listingId g = id →
    engaged (fl_status (gF f)) = true → engaged (fl_status (gF g)) = true → fl_id f = fl_id g) →
  (∀ f, f ∈ fs → fl_listingId f = id → fl_status (gF f) ∈ [FBroadcast; FConfirmed] → is_Some (fl_txid (gF f))) →
  core (at_listing id s <$> ls) (gF <$> fs).
Proof.
  intros Hc Hs Hk Helse Hn Hfit Halone Htx. apply (core_change id); try done.
  - split; [|done| |done]; intros r; unfold at_listing; case_bool_decide; done.
  - intros r f Hr Hf E1 E2. unfold at_listing. rewrite bool_decide_eq_true_2 by done. by apply Hfit.
  - intros r Hr E. unfold at_listing. by rewrite bool_decide_eq_true_2.
Qed.

Lemma idle_allowed l s : engaged s = false → allowed l s = true.
Proof. by destruct s. Qed.

Lemma signing_engaged s : signing_status s = true → engaged s = true.
Proof. unfold engaged. by intros ->. Qed.

Lemma at_id_keys id g : keeps_keys g → keeps_keys (at_id id g).
Proof. intros Hk f. unfold at_id. case_bool_decide; [apply Hk|done]. Qed.

Lemma at_id_self x g : at_id (fl_id x) g x = g x.
Proof. unfold at_id. by rewrite bool_decide_eq_true_2. Qed.

Lemma at_id_other fs x f g : NoDup (fl_id <$> fs) → x ∈ fs → f ∈ fs → f ≠ x → at_id (fl_id x) g f = f.
Proof.
  intros Hn Hx Hf Hne. unfold at_id. case_bool_decide as E; [|done]. destruct Hne. by eapply (nodup_key fl_id).
Qed.

(** Two rows of a table, compared by their identifiers. *)
Lemma fill_cases ls fs (f x : FillRow) : core ls fs → f ∈ fs → x ∈ fs → f = x ∨ fl_id f ≠ fl_id x.
Proof.
  intros Hc Hf Hx. destruct (decide (fl_id f = fl_id x)); [left|by right]. by eapply (nodup_key fl_id); [apply Hc|..].
Qed.

(** A fill that holds its listing ends its hold, and the listing moves on. *)
Lemma core_move ls fs x s g :
  core ls fs → x ∈ fs → engaged (fl_status x) = true → s ≠ LReserved → keeps_keys g →
  NoDup (omap fl_txid (at_id (fl_id x) g <$> fs)) → allowed s (fl_status (g x)) = true →
  (fl_status (g x) ∈ [FBroadcast; FConfirmed] → is_Some (fl_txid (g x))) →
  core (at_listing (fl_listingId x) s <$> ls) (at_id (fl_id x) g <$> fs).
Proof.
  intros Hc Hx He Hs Hk Hn Ha Htx.
  assert (∀ f, f ∈ fs → fl_listingId f = fl_listingId x → f ≠ x → engaged (fl_status f) = false) as Hidle.
  { intros f Hf El Hne. destruct (engaged (fl_status f)) eqn:E; [|done]. destruct Hne.
    eapply (nodup_key fl_id); [apply Hc|done..|]. by apply (co_alone _ _ Hc). }
  assert (∀ f, f ∈ fs → f ≠ x → at_id (fl_id x) g f = f) as Ho by (intros; eapply at_id_other; eauto using co_fill_ids).
  assert (∀ f, f ∈ fs → f = x ∨ f ≠ x) as Hd.
  { intros f Hf. destruct (fill_cases _ _ f x Hc Hf Hx) as [|Hne]; [by left|right]. by intros ->. }
  apply core_listing; try done.
  - by apply at_id_keys.
  - intros f Hf Hne. apply Ho; [done|]. by intros ->.
  - intros f Hf El. destruct (Hd f Hf) as [->|Hne]; [by rewrite at_id_self|]. rewrite Ho by done. by apply idle_allowed, Hidle.
  - intros f h Hf Hh Ef Eh. destruct (Hd f Hf) as [->|Hf'], (Hd h Hh) as [->|Hh']; try done;
      rewrite ?(Ho f), ?(Ho h) by done; rewrite ?(Hidle f), ?(Hidle h) by done; done.
  - intros f Hf El. destruct (Hd f Hf) as [->|Hne]; [by rewrite at_id_self|]. rewrite Ho by done.
    intros Hb. by apply (co_txid _ _ Hc).
Qed.

(** A fill that stays in its class. *)
Lemma core_stay ls fs x g :
  core ls fs → x ∈ fs → keeps_keys g → NoDup (omap fl_txid (at_id (fl_id x) g <$> fs)) →
  (∀ l, allowed l (fl_status x) = true → allowed l (fl_status (g x)) = true) →
  (engaged (fl_status (g x)) = true → engaged (fl_status x) = true) →
  (signing_status (fl_status x) = true → signing_status (fl_status (g x)) = true) →
  (fl_status (g x) ∈ [FBroadcast; FConfirmed] → is_Some (fl_txid (g x))) →
  core ls (at_id (fl_id x) g <$> fs).
Proof.
  intros Hc Hx Hk Hn Ha He Hs Ht. rewrite <-(list_fmap_id ls).
  assert (∀ f, f ∈ fs → f ≠ x → at_id (fl_id x) g f = f) as Ho by (intros; eapply at_id_other; eauto using co_fill_ids).
  assert (∀ f, f ∈ fs → f = x ∨ f ≠ x) as Hd.
  { intros f Hf. destruct (fill_cases _ _ f x Hc Hf Hx) as [|Hne]; [by left|right]. by intros ->. }
  apply (core_change (fl_listingId x)); [done| |done|..].
  - split; [done|by apply at_id_keys|done|]. intros f Hf Hne. apply Ho; [done|]. by intros ->.
  - intros r f Hr Hf Er Ef. destruct (Hd f Hf) as [->|Hne]; [rewrite at_id_self; apply Ha|rewrite Ho by done];
      (apply (co_fits _ _ Hc _ r); [done..|congruence]).
  - assert (∀ f, f ∈ fs → engaged (fl_status (at_id (fl_id x) g f)) = true → engaged (fl_status f) = true) as Hback.
    { intros f Hf. destruct (Hd f Hf) as [->|Hne]; [by rewrite at_id_self|by rewrite Ho]. }
    intros f h Hf Hh Ef Eh E1%Hback E2%Hback; [|done..]. apply (co_alone _ _ Hc); [done..|congruence|done|done].
  - intros r Hr Er Es. destruct (co_held _ _ Hc r Hr Es) as (f & Hf & Ef & E). exists f. split_and!; [done|congruence|].
    destruct (Hd f Hf) as [->|Hne]; [rewrite at_id_self; by apply Hs|by rewrite Ho].
  - intros f Hf Ef. destruct (Hd f Hf) as [->|Hne]; [by rewrite at_id_self|]. rewrite Ho by done.
    by apply (co_txid _ _ Hc).
Qed.

(** ** Statements *)
Lemma put_listings_Ok l m m' : put_listings l m = Ok m' → m' = set_listings m l ∧ NoDup (lr_listingId <$> l).
Proof. unfold put_listings, listings_unique. destruct (_ && _) eqn:E; [|done]. intros [= <-]. to_prop. naive_solver. Qed.
Lemma put_fills_Ok l m m' : put_fills l m = Ok m' → m' = set_fills m l ∧ NoDup (fl_id <$> l) ∧ NoDup (omap fl_txid l).
Proof. unfold put_fills, fills_unique. destruct (_ && _) eqn:E; [|done]. intros [= <-]. to_prop. naive_solver. Qed.
Lemma put_trades_Ok l m m' : put_trades l m = Ok m' → m' = set_trades m l ∧ NoDup (mt_txid <$> l).
Proof. unfold put_trades, trades_unique. case_bool_decide; [|done]. by intros [= <-]. Qed.

Lemma set_status_Ok id s m m' :
  set_listing_status id s m = Ok m' → m' = set_listings m (at_listing id s <$> md_listings m).
Proof. by intros [-> _]%put_listings_Ok. Qed.

Lemma update_fill_Ok id g m m' :
  update_fill id g m = Ok m' →
  m' = set_fills m (at_id id g <$> md_fills m) ∧ NoDup (omap fl_txid (at_id id g <$> md_fills m)).
Proof. by intros (-> & _ & Hn)%put_fills_Ok. Qed.

(** The fills of a listing that a statement selects. *)
Definition at_fills (id : string) (p : FillRow → bool) (g : FillRow → FillRow) (f : FillRow) : FillRow :=
  if String.eqb (fl_listingId f) id && p f then g f else f.

Lemma update_fills_of_Ok id p g m m' :
  update_fills_of id p g m = Ok m' →
  m' = set_fills m (at_fills id p g <$> md_fills m) ∧ NoDup (omap fl_txid (at_fills id p g <$> md_fills m)).
Proof. by intros (-> & _ & Hn)%put_fills_Ok. Qed.

Lemma at_fills_local id p g f : fl_listingId f ≠ id → at_fills id p g f = f.
Proof. intros Hne. unfold at_fills. by rewrite (proj2 (String.eqb_neq _ _)). Qed.

Lemma at_fills_at id p g f : fl_listingId f = id → at_fills id p g f = if p f then g f else f.
Proof. intros E. unfold at_fills. by rewrite (proj2 (String.eqb_eq _ _) E). Qed.

Lemma at_fills_keys id p g : keeps_keys g → keeps_keys (at_fills id p g).
Proof. intros Hk f. unfold at_fills. destruct (_ && _); [apply Hk|done]. Qed.

(** What is known of the fills of a listing in a given status. *)
Lemma fill_fits m r f s :
  market_ok m → r ∈ md_listings m → f ∈ md_fills m → lr_listingId r = fl_listingId f → lr_status r = s →
  allowed s (fl_status f) = true.
Proof. intros [Hc _] Hr Hf E <-. by apply (co_fits _ _ Hc). Qed.

Lemma allowed_idle l f : allowed l f = true → l ∈ [LActive; LExpired; LInvalidated; LReorged] → engaged f = false.
Proof. intros Ha Hl. destruct f, l; try done; set_solver. Qed.

Ltac by_status := intros; repeat match goal with s : FillStatus |- _ => destruct s | s : ListingStatus |- _ => destruct s end; done.

Lemma engaged_cases s : engaged s = true → signing_status s = true ∨ s = FBroadcast ∨ s = FConfirmed.
Proof. destruct s; try done; auto. Qed.

Lemma signing_allowed l s : signing_status s = true → allowed l s = true → l = LReserved.
Proof. destruct l, s; done. Qed.

Lemma confirmed_allowed l : allowed l FConfirmed = true → l = LFilled.
Proof. by destruct l. Qed.

(** The trades of the rows a fill's update leaves alone. *)
Lemma trades_at fs ts x g :
  NoDup (fl_id <$> fs) → x ∈ fs → trades_match fs ts → fl_status x ≠ FConfirmed → fl_status (g x) ≠ FConfirmed →
  trades_match (at_id (fl_id x) g <$> fs) ts.
Proof.
  intros Hn Hx Ht H1 H2.
  assert (∀ f, f ∈ fs → f = x ∨ at_id (fl_id x) g f = f) as Hd.
  { intros f Hf. unfold at_id. case_bool_decide; [left|by right]. by eapply (nodup_key fl_id). }
  apply trades_keep; [done|..]; intros f Hf; (destruct (Hd f Hf) as [->| ->]; [rewrite at_id_self|]); done || naive_solver.
Qed.

(** ** The steps of the operations *)
Lemma insert_listing_ok id input sig key m m' :
  market_ok m → insert_listing id input sig key m = Ok m' → market_ok m'.
Proof.
  intros [Hc Ht] H. unfold insert_listing in H. res_inv H. to_prop. apply put_listings_Ok in Hv0 as [-> Hn]. subst m'.
  split; cbn; [|done]. destruct Hc as [C1 C2 C3 C4 C5 C6 C7 C8]. split; try done.
  - intros f Hf. destruct (C4 f Hf) as (r & Hr & E). exists r. split; [set_solver|done].
  - intros f r Hf [Hr|Hr%list_elem_of_singleton]%elem_of_app; [by apply C5|]. subst r. cbn. intros E.
    destruct (C4 f Hf) as (r & Hr & E'). unfold find_listing in Hv. destruct (head _) eqn:Eh; [destruct Hv; by eexists|].
    apply (head_filter_None _ _ r) in Eh; [|done]. cbn in Eh. rewrite E', <-E, String.eqb_refl in Eh. done.
  - intros r [Hr|Hr%list_elem_of_singleton]%elem_of_app; [by apply C7|]. by subst r.
Qed.

Lemma cancel_rows_ok id nonce sig hash m m' :
  market_ok m → cancel_rows id nonce sig hash m = Ok m' → market_ok m'.
Proof.
  intros Hok H. pose proof Hok as [Hc Ht]. unfold cancel_rows in H. res_inv H. to_prop. subst m'.
  apply find_listing_Some in Hv as [Hr Er]. apply set_status_Ok in Hv2 as ->. apply update_fills_of_Ok in Hv3 as [-> Hn].
  cbn in *. assert (∀ f, f ∈ md_fills m → fl_listingId f = id → fl_status f ≠ FConfirmed) as Hnc.
  { intros f Hf Ef Es. pose proof (fill_fits _ _ f _ Hok Hr Hf ltac:(congruence) eq_refl) as Ha. rewrite Es in Ha.
    apply confirmed_allowed in Ha. set_solver. }
  assert (∀ f, keeps_keys (with_fill_status f)) as Hk by done.
  split; cbn.
  - apply core_listing; try done; [by apply at_fills_keys|intros; by apply at_fills_local|..].
    + intros f Hf Ef. rewrite at_fills_at by done. specialize (Hnc f Hf Ef). destruct (signing_status (fl_status f)) eqn:Es; [done|].
      by destruct (fl_status f).
    + intros f g Hf Hg Ef Eg. rewrite !at_fills_at by done. intros E1 E2. apply (co_alone _ _ Hc); [done..|congruence| |].
      * by destruct (signing_status (fl_status f)).
      * by destruct (signing_status (fl_status g)).
    + intros f Hf Ef. rewrite at_fills_at by done. destruct (signing_status _); [set_solver|by apply (co_txid _ _ Hc)].
  - apply trades_keep; [done|..]; intros f Hf; unfold at_fills; destruct (_ && _) eqn:E; try done.
    apply andb_true_iff in E as [Ef%String.eqb_eq Es]. cbn. specialize (Hnc f Hf Ef). naive_solver.
Qed.

(** Every fill of an idle listing is past holding it. *)
Lemma listing_idle m r f :
  market_ok m → r ∈ md_listings m → f ∈ md_fills m → fl_listingId f = lr_listingId r →
  lr_status r ∈ [LActive; LExpired; LInvalidated; LReorged] → engaged (fl_status f) = false.
Proof. intros Hok Hr Hf E Hs. eapply allowed_idle; [|exact Hs]. by eapply fill_fits. Qed.

Lemma new_row_ids {R K} (key : R → K) (l : list R) x : NoDup (key <$> l ++ [x]) → ∀ y, y ∈ l → key y ≠ key x.
Proof.
  rewrite fmap_app, NoDup_app. intros (_ & Hd & _) y Hy E. apply (Hd (key y)); [by apply list_elem_of_fmap_2|].
  cbn. rewrite E. set_solver.
Qed.

(** A new fill on an active listing. *)
Lemma core_reserve ls fs r x :
  core ls fs → r ∈ ls → fl_listingId x = lr_listingId r → fl_status x = FReserved → lr_status r = LActive →
  NoDup (fl_id <$> fs ++ [x]) → NoDup (omap fl_txid (fs ++ [x])) →
  core (at_listing (lr_listingId r) LReserved <$> ls) (fs ++ [x]).
Proof.
  intros Hc Hr Ex Es Ea Hn1 Hn2.
  assert (∀ f, f ∈ fs → fl_listingId f = lr_listingId r → engaged (fl_status f) = false) as Hidle.
  { intros f Hf E. eapply allowed_idle; [by eapply (co_fits _ _ Hc)|]. rewrite Ea. set_solver. }
  assert (∀ y, y ∈ ls → lr_listingId y = lr_listingId r → y = r) as Hu.
  { intros y Hy E. eapply (nodup_key lr_listingId); [apply Hc|done..]. }
  assert (∀ f s, f ∈ fs ++ [x] → s ∈ ls → lr_listingId s = fl_listingId f →
    allowed (lr_status (at_listing (lr_listingId r) LReserved s)) (fl_status f) = true) as Hfits.
  { intros f s [Hf|Hf%list_elem_of_singleton]%elem_of_app Hs E; unfold at_listing; case_bool_decide as Ed.
    - apply idle_allowed, Hidle; [done|congruence].
    - by apply (co_fits _ _ Hc).
    - subst f. by rewrite Es.
    - congruence. }
  split; try done.
  - rewrite <-list_fmap_compose. rewrite (list_fmap_ext _ lr_listingId); [apply Hc|]. intros ? y _. cbn. unfold at_listing. by case_bool_decide.
  - intros f [Hf|Hf%list_elem_of_singleton]%elem_of_app.
    + destruct (co_listed _ _ Hc f Hf) as (y & Hy & E). exists (at_listing (lr_listingId r) LReserved y).
      split; [by apply list_elem_of_fmap_2|]. unfold at_listing. by case_bool_decide.
    + subst f. exists (at_listing (lr_listingId r) LReserved r). split; [by apply list_elem_of_fmap_2|].
      unfold at_listing. rewrite bool_decide_eq_true_2 by done. done.
  - intros f ? Hf (s & -> & Hs)%list_elem_of_fmap E. apply Hfits; [done..|]. revert E. unfold at_listing. by case_bool_decide.
  - intros f g [Hf|Hf%list_elem_of_singleton]%elem_of_app [Hg|Hg%list_elem_of_singleton]%elem_of_app E Ef Eg;
      [by apply (co_alone _ _ Hc)|..]; subst; try done.
    + rewrite Hidle in Ef; [done..|congruence].
    + rewrite Hidle in Eg; [done..|congruence].
  - intros ? (s & -> & Hs)%list_elem_of_fmap. unfold at_listing. case_bool_decide as Ed; cbn.
    + intros _. exists x. split_and!; [set_solver|congruence|by rewrite Es].
    + intros E. destruct (co_held _ _ Hc s Hs E) as (f & Hf & El & Ef). exists f. split_and!; [set_solver|done..].
  - intros f [Hf|Hf%list_elem_of_singleton]%elem_of_app; [by apply (co_txid _ _ Hc)|]. subst f. rewrite Es. set_solver.
Qed.

Lemma trades_new fs ts x : trades_match fs ts → fl_status x ≠ FConfirmed → trades_match (fs ++ [x]) ts.
Proof.
  intros [T1 T2 T3] Hx. split; [done|..].
  - intros t Hin Hc. destruct (T2 t Hin Hc) as (f & Hf & ?). exists f. split; [set_solver|done].
  - intros f [Hf|Hf%list_elem_of_singleton]%elem_of_app; [by apply T3|]. by subst f.
Qed.

Lemma move_fill_ok m x g m' :
  market_ok m → x ∈ md_fills m → keeps_keys g → update_fill (fl_id x) g m = Ok m' →
  signing_status (fl_status x) = true → signing_status (fl_status (g x)) = true → market_ok m'.
Proof.
  intros [Hc Ht] Hx Hk [-> Hn]%update_fill_Ok H1 H2. split; cbn.
  - apply core_stay; try done.
    + intros l Ha%signing_allowed; [|done]. subst l. by destruct (fl_status (g x)).
    + intros _. by apply signing_engaged.
    + destruct (fl_status (g x)); set_solver.
  - apply trades_at; try done; [apply Hc|by destruct (fl_status x)|by destruct (fl_status (g x))].
Qed.

Lemma txid_fill_ok m x txid m' :
  market_ok m → x ∈ md_fills m → fl_status x ∈ [FSellerSigned; FBroadcast] →
  update_fill (fl_id x) (λ f, with_fill_txid (fl_status f) txid f) m = Ok m' → market_ok m'.
Proof.
  intros [Hc Ht] Hx Hs [-> Hn]%update_fill_Ok.
  assert (fl_status x ≠ FConfirmed) as Hnc by (intros E; rewrite E in Hs; set_solver).
  split; cbn; [by apply core_stay|by apply trades_at; [apply Hc|..]].
Qed.

Lemma broadcast_rows_ok m x v txid m' :
  market_ok m → x ∈ md_fills m → fl_status x ∈ [FSellerSigned; FBroadcast] →
  vf_fillId v = fl_id x → vf_listingId v = fl_listingId x → broadcast_rows v txid m = Ok m' → market_ok m'.
Proof.
  intros [Hc Ht] Hx Hs E1 E2 H. unfold broadcast_rows in H. res_inv H. rewrite E1, E2 in *. subst m'.
  apply update_fill_Ok in Hv as [-> Hn]. apply set_status_Ok in Hv0 as ->. cbn in *.
  assert (fl_status x ≠ FConfirmed) as Hnc by (intros E; rewrite E in Hs; set_solver). split; cbn.
  - apply core_move; try done. unfold engaged. set_unfold in Hs. by destruct Hs as [->|[->|[]]].
  - by apply trades_at; [apply Hc|..].
Qed.

(** *** The trades of a confirmation and of a reorganisation *)
Lemma elem_of_update {R K} `{EqDecision K} (key : R → K) k g (l : list R) y :
  y ∈ update_rows key k g l ↔ ∃ r, r ∈ l ∧ y = if bool_decide (key r = k) then g r else r.
Proof. unfold update_rows. change (map ?f l) with (f <$> l). rewrite list_elem_of_fmap. naive_solver. Qed.

Lemma ensureTrade_Ok fill row height hash m m' :
  ensureTrade fill row height hash m = Ok m' →
  ∃ txid ts, fl_txid fill = Some txid ∧ m' = set_trades m ts ∧ NoDup (mt_txid <$> ts)
  ∧ (∀ t, t ∈ ts → mt_canonical t = true → mt_txid t = txid ∨ t ∈ md_trades m)
  ∧ (∀ t, t ∈ md_trades m → mt_txid t ≠ txid → t ∈ ts)
  ∧ (∃ t, t ∈ ts ∧ mt_canonical t = true ∧ mt_txid t = txid).
Proof.
  intros H. unfold ensureTrade in H. apply bind_Ok in H as (txid & Et & H). apply of_option_Ok in Et.
  destruct (has_key mt_txid txid (md_trades m)) eqn:Ek; apply put_trades_Ok in H as [-> Hn]; exists txid; eexists;
    (split_and!; [done|reflexivity|exact Hn|..]).
  - intros t (r & Hr & ->)%elem_of_update. case_bool_decide; cbn; auto.
  - intros t Ht Hne. apply elem_of_update. exists t. split; [done|]. by rewrite bool_decide_eq_false_2.
  - unfold has_key in Ek. apply existsb_exists in Ek as (r & Hr%list_elem_of_In & E%bool_decide_eq_true).
    exists (trade_with height hash true r). split_and!; [|done|done]. apply elem_of_update. exists r.
    split; [done|]. by rewrite bool_decide_eq_true_2.
  - intros t [Ht|Ht%list_elem_of_singleton]%elem_of_app; [by right|left]. by subst t.
  - set_solver.
  - exists (trade_of fill row txid height hash). set_solver.
Qed.

Lemma at_id_elem fs x g f :
  NoDup (fl_id <$> fs) → x ∈ fs → f ∈ at_id (fl_id x) g <$> fs ↔ f = g x ∨ f ∈ fs ∧ f ≠ x.
Proof.
  intros Hn Hx. rewrite list_elem_of_fmap. split.
  - intros (y & -> & Hy). unfold at_id. case_bool_decide as E; [left; f_equal; by eapply (nodup_key fl_id)|right].
    split; [done|]. by intros ->.
  - intros [->|[Hf Hne]]; [exists x; by rewrite at_id_self|exists f]. split; [|done]. symmetry. by eapply at_id_other.
Qed.

Lemma trades_confirm fs x g txid ts ts' :
  NoDup (fl_id <$> fs) → NoDup (omap fl_txid fs) → x ∈ fs → fl_txid x = Some txid → fl_txid (g x) = Some txid →
  fl_status x ≠ FConfirmed → fl_status (g x) = FConfirmed → trades_match fs ts → NoDup (mt_txid <$> ts') →
  (∀ t, t ∈ ts' → mt_canonical t = true → mt_txid t = txid ∨ t ∈ ts) →
  (∀ t, t ∈ ts → mt_txid t ≠ txid → t ∈ ts') → (∃ t, t ∈ ts' ∧ mt_canonical t = true ∧ mt_txid t = txid) →
  trades_match (at_id (fl_id x) g <$> fs) ts'.
Proof.
  intros Hn Hn2 Hx Et Eg Hs1 Hs2 [T1 T2 T3] Hn' Hback Hkeep (t0 & Ht0 & Hc0 & E0). split; [done|..].
  - intros t Hin Hc. destruct (Hback t Hin Hc) as [E|Hts].
    + exists (g x). rewrite at_id_elem by done. split_and!; [by left|done|congruence].
    + destruct (T2 t Hts Hc) as (f & Hf & Es & Ef). exists f. rewrite at_id_elem by done. split_and!; [|done..].
      right. split; [done|]. by intros ->.
  - intros f Hin Es. rewrite at_id_elem in Hin by done. destruct Hin as [->|[Hf Hne]]; [exists t0; split_and!; done || congruence|].
    destruct (T3 f Hf Es) as (t & Ht & Hc & Ef). exists t. split_and!; [|done..]. apply Hkeep; [done|]. intros E.
    apply Hne. eapply (nodup_txid fs); [done..| |exact Et]. congruence.
Qed.

Lemma confirm_rows_ok m x row u tip m' :
  market_ok m → x ∈ md_fills m → fl_status x = FBroadcast → lr_listingId row = fl_listingId x →
  confirm_rows x row u tip m = Ok m' → market_ok m'.
Proof.
  intros [Hc Ht] Hx Hs El H. unfold confirm_rows in H. rewrite El in H. res_inv H. subst m'.
  apply update_fill_Ok in Hv as [-> Hn]. apply set_status_Ok in Hv0 as ->.
  apply ensureTrade_Ok in Hv1 as (txid & ts & Et & -> & Hn' & H1 & H2 & H3). cbn in *. split; cbn.
  - apply core_move; try done. by rewrite Hs.
  - eapply trades_confirm; try done; [apply Hc..|]. by rewrite Hs.
Qed.

Lemma set_trade_canonical_Ok txid m m' :
  set_trade_canonical (Some txid) m = Ok m' →
  ∃ ts, m' = set_trades m ts ∧ NoDup (mt_txid <$> ts)
  ∧ (∀ t, t ∈ ts → mt_canonical t = true → t ∈ md_trades m ∧ mt_txid t ≠ txid)
  ∧ (∀ t, t ∈ md_trades m → mt_txid t ≠ txid → t ∈ ts).
Proof.
  intros [-> Hn]%put_trades_Ok. eexists. split_and!; [reflexivity|exact Hn|..].
  - intros t (r & Hr & ->)%elem_of_update. by case_bool_decide.
  - intros t Ht Hne. apply elem_of_update. exists t. split; [done|]. by rewrite bool_decide_eq_false_2.
Qed.

Lemma reorg_rows_ok m x row m' :
  market_ok m → x ∈ md_fills m → fl_status x = FConfirmed → lr_listingId row = fl_listingId x →
  reorg_rows x row m = Ok m' → market_ok m'.
Proof.
  intros [Hc Ht] Hx Hs El H. unfold reorg_rows in H. rewrite El in H.
  destruct (co_txid _ _ Hc x Hx) as [txid Et]; [rewrite Hs; set_solver|]. rewrite Et in H. res_inv H. subst m'.
  apply set_trade_canonical_Ok in Hv as (ts & -> & Hn' & H1 & H2). apply update_fill_Ok in Hv0 as [-> Hn].
  apply set_status_Ok in Hv1 as ->. cbn in *. split; cbn.
  - apply core_move; try done. by rewrite Hs.
  - destruct Ht as [T1 T2 T3]. split; [done|..].
    + intros t Hin Ec. destruct (H1 t Hin Ec) as [Hts Hne]. destruct (T2 t Hts Ec) as (f & Hf & Es & Ef). exists f.
      rewrite at_id_elem by (done || apply Hc). split_and!; [|done..]. right. split; [done|]. intros ->. congruence.
    + intros f Hin Es. rewrite at_id_elem in Hin by (done || apply Hc). destruct Hin as [->|[Hf Hne]]; [done|]. destruct (T3 f Hf Es) as (t & Hts & Ec & Ef). exists t.
      split_and!; [|done..]. apply H2; [done|]. intros E. apply Hne.
      eapply (nodup_txid (md_fills m)); [apply Hc..|done|done| |exact Et]. congruence.
Qed.

(** *** What a reconciliation does to one row *)
Lemma invalidate_rows_ok m r reason m' :
  market_ok m → r ∈ md_listings m → reconcilable (lr_status r) = true →
  invalidate_rows (lr_listingId r) reason m = Ok m' → market_ok m'.
Proof.
  intros Hok Hr Hs H. pose proof Hok as [Hc Ht]. unfold invalidate_rows in H. res_inv H. subst m'.
  apply set_status_Ok in Hv as ->. apply update_fills_of_Ok in Hv0 as [-> Hn]. cbn in *.
  assert (∀ f, f ∈ md_fills m → fl_listingId f = lr_listingId r → engaged (fl_status f) = true → invalidatable (fl_status f) = true) as Hi.
  { intros f Hf E He. pose proof (fill_fits _ _ f _ Hok Hr Hf ltac:(done) eq_refl) as Ha.
    apply engaged_cases in He as [He|[He|He]]; unfold invalidatable; rewrite ?He; [done..|].
    rewrite He in Ha. apply confirmed_allowed in Ha. by rewrite Ha in Hs. }
  assert (∀ f, f ∈ md_fills m → fl_listingId f = lr_listingId r →
    engaged (fl_status (if invalidatable (fl_status f) then with_failure FFailed reason f else f)) = false) as Hd.
  { intros f Hf E. destruct (invalidatable (fl_status f)) eqn:Ei; [done|]. destruct (engaged (fl_status f)) eqn:Ee; [|done].
    rewrite Hi in Ei; done. }
  split; cbn.
  - apply core_listing; try done; [by apply at_fills_keys|intros; by apply at_fills_local|..].
    + intros f Hf E. rewrite at_fills_at by done. by apply idle_allowed, Hd.
    + intros f g Hf _ E _. rewrite at_fills_at by done. by rewrite Hd.
    + intros f Hf E. rewrite at_fills_at by done. specialize (Hd f Hf E). intros Hb.
      unfold engaged in Hd. apply orb_false_iff in Hd as [_ Hd%bool_decide_eq_false]. done.
  - apply trades_keep; [done|..]; intros f Hf; unfold at_fills; destruct (_ && _) eqn:E; try done;
      apply andb_true_iff in E as [E Ei]; cbn; destruct (fl_status f); done.
Qed.

Lemma repend_rows_ok m r txid m' :
  market_ok m → r ∈ md_listings m → lr_status r = LReorged → repend_rows (lr_listingId r) txid m = Ok m' → market_ok m'.
Proof.
  intros Hok Hr Hs H. pose proof Hok as [Hc Ht]. unfold repend_rows in H. res_inv H. subst m'.
  apply update_fills_of_Ok in Hv as [-> Hn]. apply set_status_Ok in Hv0 as ->. cbn in *.
  assert (∀ f, f ∈ md_fills m → fl_listingId f = lr_listingId r → engaged (fl_status f) = false) as Hi.
  { intros f Hf E. eapply (listing_idle m r); [done..|]. rewrite Hs. set_solver. }
  assert (∀ f, fl_listingId f = lr_listingId r → f ∈ md_fills m →
    engaged (fl_status (at_fills (lr_listingId r) (λ f, bool_decide (fl_txid f = Some txid)) (with_canonical FBroadcast true) f)) = true →
    fl_txid f = Some txid) as Hb.
  { intros f E Hf. rewrite at_fills_at by done. case_bool_decide; [done|]. by rewrite Hi. }
  split; cbn.
  - apply core_listing; try done; [by apply at_fills_keys|intros; by apply at_fills_local|..].
    + intros f Hf E. rewrite at_fills_at by done. case_bool_decide; [done|]. by apply idle_allowed, Hi.
    + intros f g Hf Hg Ef Eg E1%Hb E2%Hb; try done. f_equal. eapply (nodup_txid (md_fills m)); try done; apply Hc.
    + intros f Hf E. rewrite at_fills_at by done. case_bool_decide as Et; cbn; [by rewrite Et|]. by apply (co_txid _ _ Hc).
  - assert (∀ f, f ∈ md_fills m → fl_listingId f = lr_listingId r → fl_status f ≠ FConfirmed) as Hnc.
    { intros f Hf E Es. specialize (Hi f Hf E). by rewrite Es in Hi. }
    apply trades_keep; [done|..]; intros f Hf; unfold at_fills; destruct (_ && _) eqn:E; try done.
    apply andb_true_iff in E as [Ef%String.eqb_eq _]. cbn. specialize (Hnc f Hf Ef). naive_solver.
Qed.

(** An idle listing changes its status. *)
Lemma idle_status_ok m r s m' :
  market_ok m → r ∈ md_listings m → lr_status r ∈ [LActive; LExpired; LInvalidated; LReorged] → s ≠ LReserved →
  set_listing_status (lr_listingId r) s m = Ok m' → market_ok m'.
Proof.
  intros Hok Hr Hs Hne ->%set_status_Ok. pose proof Hok as [Hc Ht]. split; cbn; [|done].
  rewrite <-(list_fmap_id (md_fills m)).
  assert (∀ f, f ∈ md_fills m → fl_listingId f = lr_listingId r → engaged (fl_status f) = false) as Hi
    by (intros f Hf E; by eapply (listing_idle m r)).
  apply core_listing; try done.
  - rewrite list_fmap_id. apply Hc.
  - intros f Hf E. by apply idle_allowed, Hi.
  - intros f g Hf _ E _ E1. unfold id in E1. by rewrite Hi in E1.
  - intros f Hf E. by apply (co_txid _ _ Hc).
Qed.

Lemma move_listing_Ok id from to m m' :
  move_listing id from to m = Ok m' → (∀ r, r ∈ md_listings m → lr_listingId r = id → lr_status r = from) →
  m' = set_listings m (at_listing id to <$> md_listings m).
Proof.
  intros [-> _]%put_listings_Ok H. unfold set_listings. f_equal. apply list_fmap_ext. intros i r Hr%list_elem_of_lookup_2.
  unfold at_listing. destruct (decide (lr_listingId r = id)) as [E|E].
  - rewrite !bool_decide_eq_true_2; [done|done|]. f_equal; [done|]. by apply H.
  - rewrite !bool_decide_eq_false_2; [done|done|]. congruence.
Qed.

Lemma release_rows_ok m x g m' :
  market_ok m → x ∈ md_fills m → signing_status (fl_status x) = true → keeps_keys g → engaged (fl_status (g x)) = false →
  release_rows g x m = Ok m' → market_ok m'.
Proof.
  intros Hok Hx Hs Hk Hg H. pose proof Hok as [Hc Ht]. unfold release_rows in H. res_inv H.
  apply update_fill_Ok in Hv as [-> Hn]. apply move_listing_Ok in H as ->; cbn in *;
    [|intros r Hr E; eapply signing_allowed; [exact Hs|by eapply (co_fits _ _ Hc)]].
  split; cbn.
  - apply core_move; try done; [by apply signing_engaged|by apply idle_allowed|]. unfold engaged in Hg.
    apply orb_false_iff in Hg as [_ Hg%bool_decide_eq_false]. done.
  - apply trades_at; try done; [apply Hc|..]; intros E; [by rewrite E in Hs|by rewrite E in Hg].
Qed.

(** ** The operations *)
Lemma validated_names {C : Crypto} {B : Bitcoin} msg params v :
  validateFinalizedP2PFill msg params = Ok v →
  vf_listingId v = pt_listingId (pf_terms params) ∧ vf_fillId v = pt_fillId (pf_terms params).
Proof. unfold validateFinalizedP2PFill. intros H. repeat (apply bind_Ok in H as (? & _ & H); cbn beta zeta in H). by injection H as <-. Qed.

Section Operations.
Context {C : Crypto} {B : Bitcoin} {J : BitcoinJs} {P : PsbtBuilder} {PC : PsbtCodec} {MS : MessageSigning} {PG : Postgres}.
Context (msg : string → string) (config : MarketConfig).

Inductive MarketOp :=
  | OpCreate (input : ListingV1) (signatureB64 : string) (publicKey : option string)
  | OpCancel (listingId cancelNonce signatureB64 : string)
  | OpReserve (fillId : string) (input : ReserveListingInput)
  | OpBuild (fillId : string) (fee : FillFee)
  | OpBuyerSigned (fillId psbtB64 : string)
  | OpSellerSigned (fillId psbtB64 : string)
  | OpFinalize (fillId : string)
  | OpBroadcast (fillId : string)
  | OpReconcile.

(** The tables after an operation, whatever it returns. *)
Definition after_op (d : V3Db) (node : MarketNode) (now : Z) (op : MarketOp) (m : MarketDb) : MarketDb :=
  match op with
  | OpCreate input sig key => (createListing config d node input sig key m).1
  | OpCancel id nonce sig => (cancelListing id nonce sig m).1
  | OpReserve fillId input => (reserveListing config d node now fillId input m).1
  | OpBuild fillId fee => (buildFillPsbt config d node fillId fee m).1
  | OpBuyerSigned fillId b64 => (submitBuyerSignedPsbt config now fillId b64 m).1
  | OpSellerSigned fillId b64 => (submitSellerSignedPsbt config d node fillId b64 m).1
  | OpFinalize fillId => (finalizeP2PFill msg config d node fillId m).1
  | OpBroadcast fillId => (finalizeAndBroadcastFill msg config d node fillId m).1
  | OpReconcile => (reconcileMarket d node now m).1
  end.

Lemma select_elem {A} (p : A → bool) (l : list A) x : x ∈ select p l ↔ x ∈ l ∧ p x = true.
Proof.
  unfold select. rewrite select_order_perm, list_elem_of_In, filter_In. by rewrite list_elem_of_In.
Qed.

Lemma select_nodup {A K} (key : A → K) (p : A → bool) (l : list A) : NoDup (key <$> l) → NoDup (key <$> select p l).
Proof.
  unfold select. intros Hn. rewrite select_order_perm. revert Hn. induction l as [|x l IH]; [done|]. rewrite fmap_cons.
  intros [Hx Hn]%NoDup_cons. cbn [List.filter]. destruct (p x); [|by apply IH]. rewrite fmap_cons. apply NoDup_cons.
  split; [|by apply IH]. intros (y & E & Hy)%list_elem_of_fmap. apply Hx. rewrite E. apply list_elem_of_fmap_2.
  apply list_elem_of_In in Hy. apply filter_In in Hy as [Hy _]. by apply list_elem_of_In.
Qed.

(** A loop over rows of a table: each round leaves the later rows alone. *)
Lemma row_loop {R} (key : R → string) (tbl : MarketDb → list R) (ok : R → bool) (f : R → M Z) xs m :
  market_ok m → NoDup (key <$> xs) → (∀ x, x ∈ xs → x ∈ tbl m ∧ ok x = true) →
  (∀ x m, market_ok m → x ∈ tbl m → ok x = true →
    market_ok (f x m).1 ∧ ∀ y, y ∈ tbl m → key y ≠ key x → y ∈ tbl (f x m).1) →
  market_ok (for_each f xs m).1.
Proof.
  intros Hok Hn Hxs Hf.
  apply (for_each_inv _ (λ xs m, market_ok m ∧ NoDup (key <$> xs) ∧ ∀ x, x ∈ xs → x ∈ tbl m ∧ ok x = true)); [done| |naive_solver].
  clear -Hf. intros x xs m (Hok & Hn & Hxs). rewrite fmap_cons, NoDup_cons in Hn. destruct Hn as [Hx Hn].
  destruct (Hxs x) as [Hin Hs]; [set_solver|]. destruct (Hf x m Hok Hin Hs) as [Hok' Hkeep]. split_and!; [done..|].
  intros y Hy. destruct (Hxs y) as [Hyin Hys]; [set_solver|]. split; [|done]. apply Hkeep; [done|]. intros E.
  apply Hx. rewrite <-E. by apply list_elem_of_fmap_2.
Qed.

(** The rows a phase selects at its start, in a loop over them. *)
Lemma selected_loop {R} (key : R → string) (tbl : MarketDb → list R) (ok : R → bool) (f : R → M Z) m :
  market_ok m → NoDup (key <$> tbl m) →
  (∀ x m, market_ok m → x ∈ tbl m → ok x = true →
    market_ok (f x m).1 ∧ ∀ y, y ∈ tbl m → key y ≠ key x → y ∈ tbl (f x m).1) →
  market_ok (for_each f (select ok (tbl m)) m).1.
Proof.
  intros Hok Hn Hf. apply (row_loop key tbl ok); [done|by apply select_nodup| |done]. intros x Hx. by apply select_elem in Hx.
Qed.

(** What a statement does to one table, as [row_loop] needs it. *)
Definition touches_fill (x : FillRow) (m m' : MarketDb) : Prop := ∀ y, y ∈ md_fills m → fl_id y ≠ fl_id x → y ∈ md_fills m'.
Definition touches_listing (r : ListingRow) (m m' : MarketDb) : Prop :=
  ∀ y, y ∈ md_listings m → lr_listingId y ≠ lr_listingId r → y ∈ md_listings m'.

Lemma touches_fill_refl x m : touches_fill x m m.
Proof. by intros y. Qed.
Lemma touches_listing_refl r m : touches_listing r m m.
Proof. by intros y. Qed.
#[local] Hint Resolve touches_fill_refl touches_listing_refl : core.

Lemma at_id_touches x g m m' : md_fills m' = at_id (fl_id x) g <$> md_fills m → touches_fill x m m'.
Proof.
  intros E y Hy Hne. rewrite E. apply list_elem_of_fmap. exists y. split; [|done]. unfold at_id. by rewrite bool_decide_eq_false_2.
Qed.

Lemma at_listing_touches r s m m' : md_listings m' = at_listing (lr_listingId r) s <$> md_listings m → touches_listing r m m'.
Proof.
  intros E y Hy Hne. rewrite E. apply list_elem_of_fmap. exists y. split; [|done]. unfold at_listing. by rewrite bool_decide_eq_false_2.
Qed.

Lemma promote_ok tip x m d :
  market_ok m → x ∈ md_fills m → bool_decide (fl_status x = FBroadcast) = true →
  market_ok (promote d tip x m).1 ∧ touches_fill x m (promote d tip x m).1.
Proof.
  intros Hok Hx Hs%bool_decide_eq_true. unfold promote. destruct (find_listing m (fl_listingId x)) as [row|] eqn:El; [|done].
  destruct (spent_by_fill d (lr_order row) x) as [u|]; [|done]. apply find_listing_Some in El as [_ El].
  apply (run_statement_bind (λ m', market_ok m' ∧ touches_fill x m m')); [done|]. intros m' H. cbn.
  split; [by eapply confirm_rows_ok|]. unfold confirm_rows in H. res_inv H. subst m'.
  apply update_fill_Ok in Hv as [-> _]. apply set_status_Ok in Hv0 as ->. apply ensureTrade_Ok in Hv1 as (? & ? & _ & -> & _).
  by eapply at_id_touches.
Qed.

Lemma demote_ok x m d :
  market_ok m → x ∈ md_fills m → bool_decide (fl_status x = FConfirmed) = true →
  market_ok (demote d x m).1 ∧ touches_fill x m (demote d x m).1.
Proof.
  intros Hok Hx Hs%bool_decide_eq_true. unfold demote. destruct (find_listing m (fl_listingId x)) as [row|] eqn:El; [|done].
  destruct (spent_by_fill d (lr_order row) x) as [u|]; [done|]. apply find_listing_Some in El as [_ El].
  apply (run_statement_bind (λ m', market_ok m' ∧ touches_fill x m m')); [done|]. intros m' H. cbn.
  split; [by eapply reorg_rows_ok|]. unfold reorg_rows in H.
  destruct (co_txid _ _ (proj1 Hok) x Hx) as [txid Et]; [rewrite Hs; set_solver|]. rewrite Et in H. res_inv H. subst m'.
  apply set_trade_canonical_Ok in Hv as (? & -> & _). apply update_fill_Ok in Hv0 as [-> _]. apply set_status_Ok in Hv1 as ->.
  by eapply at_id_touches.
Qed.

Lemma invalidate_ok r reason m :
  market_ok m → r ∈ md_listings m → reconcilable (lr_status r) = true →
  let m' := ((invalidateListing (lr_listingId r) reason;; mret 1 : M Z) m).1 in market_ok m' ∧ touches_listing r m m'.
Proof.
  intros Hok Hr Hs. apply (run_statement_bind (λ m', market_ok m' ∧ touches_listing r m m')); [done|]. intros m' H. cbn.
  split; [by eapply invalidate_rows_ok|]. unfold invalidate_rows in H. res_inv H. subst m'.
  apply set_status_Ok in Hv as ->. apply update_fills_of_Ok in Hv0 as [-> _]. by eapply at_listing_touches.
Qed.

Lemma settle_ok r m d node :
  market_ok m → r ∈ md_listings m → reconcilable (lr_status r) = true →
  market_ok (settle_listing d node r m).1 ∧ touches_listing r m (settle_listing d node r m).1.
Proof.
  intros Hok Hr Hs. unfold settle_listing. destruct (u ← _; _) as [spender|].
  { destruct (listingFillTxid _ _ _); [done|by apply invalidate_ok]. }
  unfold settle_unspent. cbn zeta. destruct (mn_getTxout _ _ _) as [[txout|]|]; [| |done].
  - case_bool_decide as Er; [|done]. apply (run_statement_bind (λ m', market_ok m' ∧ touches_listing r m m')); [done|].
    intros m' H. cbn. split; [by eapply idle_status_ok; [..|exact H]; rewrite ?Er; set_solver|]. apply set_status_Ok in H as ->.
    by eapply at_listing_touches.
  - destruct (latestFillTxid _ _) as [ours|]; [|by apply invalidate_ok]. destruct (inMempool _ _); [|by apply invalidate_ok].
    case_bool_decide as Er; [|done]. apply (run_statement_bind (λ m', market_ok m' ∧ touches_listing r m m')); [done|].
    intros m' H. cbn. split; [by eapply repend_rows_ok|]. unfold repend_rows in H. res_inv H. subst m'.
    apply update_fills_of_Ok in Hv as [-> _]. apply set_status_Ok in Hv0 as ->. by eapply at_listing_touches.
Qed.

Lemma release_ok x g m m' :
  market_ok m → x ∈ md_fills m → signing_status (fl_status x) = true → keeps_keys g → engaged (fl_status (g x)) = false →
  release_rows g x m = Ok m' → market_ok m' ∧ touches_fill x m m'.
Proof.
  intros Hok Hx Hs Hk Hg H. split; [by eapply release_rows_ok|]. unfold release_rows in H. res_inv H.
  apply update_fill_Ok in Hv as [-> _]. apply put_listings_Ok in H as [-> _]. by eapply at_id_touches.
Qed.

Lemma release_dead_ok x m node :
  market_ok m → x ∈ md_fills m → bool_decide (fl_status x = FBuyerSigned) = true →
  market_ok (release_dead node x m).1 ∧ touches_fill x m (release_dead node x m).1.
Proof.
  intros Hok Hx Hs%bool_decide_eq_true. unfold release_dead.
  apply (run_pure (λ m', market_ok m' ∧ touches_fill x m m')); [done|]. intros [] _; cbn [negb]; [|done].
  apply run_statement_bind; [done|]. intros m' H. refine (release_ok _ _ _ _ Hok Hx _ _ _ H); [by rewrite Hs|done|done].
Qed.

Lemma expire_fill_ok x m now :
  market_ok m → x ∈ md_fills m → fill_expired now x = true →
  market_ok (expire_fill x m).1 ∧ touches_fill x m (expire_fill x m).1.
Proof.
  intros Hok Hx [Hs _]%andb_true_iff. unfold expire_fill.
  apply (run_statement_bind (λ m', market_ok m' ∧ touches_fill x m m')); [done|]. intros m' H.
  by refine (release_ok _ _ _ _ Hok Hx _ _ _ H).
Qed.

Lemma expire_listing_ok r m tip :
  market_ok m → r ∈ md_listings m → bool_decide (lr_status r = LActive) && (expiryHeight (lr_order r) <=? tip) = true →
  market_ok (expire_listing r m).1 ∧ touches_listing r m (expire_listing r m).1.
Proof.
  intros Hok Hr [Hs%bool_decide_eq_true _]%andb_true_iff. unfold expire_listing.
  apply (run_statement_bind (λ m', market_ok m' ∧ touches_listing r m m')); [done|]. intros m' H. cbn.
  split; [by eapply idle_status_ok; [..|exact H]; rewrite ?Hs; set_solver|]. apply set_status_Ok in H as ->.
  by eapply at_listing_touches.
Qed.

(** A phase of the reconciliation, and what follows it. *)
Lemma run_loop {X E} (f : X → M Z) xs (k : Z → M E) m :
  market_ok (for_each f xs m).1 → (∀ n m', market_ok m' → market_ok (k n m').1) → market_ok ((for_each f xs ≫= k) m).1.
Proof. intros H Hk. unfold mbind, M_bind. destruct (for_each f xs m) as [m' [n|e]]; [by apply Hk|exact H]. Qed.

Lemma fill_phase (ok : FillRow → bool) (f : FillRow → M Z) m :
  market_ok m → (∀ x m, market_ok m → x ∈ md_fills m → ok x = true → market_ok (f x m).1 ∧ touches_fill x m (f x m).1) →
  market_ok (for_each f (select ok (md_fills m)) m).1.
Proof. intros Hok Hf. apply (selected_loop fl_id md_fills); [done|apply Hok|done]. Qed.

Lemma listing_phase (ok : ListingRow → bool) (f : ListingRow → M Z) m :
  market_ok m → (∀ x m, market_ok m → x ∈ md_listings m → ok x = true → market_ok (f x m).1 ∧ touches_listing x m (f x m).1) →
  market_ok (for_each f (select ok (md_listings m)) m).1.
Proof. intros Hok Hf. apply (selected_loop lr_listingId md_listings); [done|apply Hok|done]. Qed.

Lemma reconcile_ok d node now m : market_ok m → market_ok (reconcileMarket d node now m).1.
Proof.
  intros Hok. unfold reconcileMarket, fills_in. apply run_pure; [done|]. intros tip _.
  apply run_read; [done|]. intros ? [= <-]. apply run_loop; [apply fill_phase; [done|intros; by apply promote_ok]|].
  clear m Hok. intros ? m Hok. apply run_read; [done|]. intros ? [= <-].
  apply run_loop; [apply fill_phase; [done|intros; by apply demote_ok]|].
  clear m Hok. intros ? m Hok. apply run_read; [done|]. intros ? [= <-].
  apply run_loop; [apply listing_phase; [done|intros; by apply settle_ok]|].
  clear m Hok. intros ? m Hok. apply run_read; [done|]. intros ? [= <-].
  apply run_loop; [apply fill_phase; [done|intros; by apply release_dead_ok]|].
  clear m Hok. intros ? m Hok. apply run_read; [done|]. intros ? [= <-].
  apply run_loop; [apply listing_phase; [done|intros; by eapply expire_listing_ok]|].
  clear m Hok. intros ? m Hok. apply run_read; [done|]. intros ? [= <-].
  apply run_loop; [apply fill_phase; [done|intros; by eapply expire_fill_ok]|]. done.
Qed.

Lemma reserve_rows_ok d node now fillId input tip m m' :
  market_ok m → reserve_rows config d node now fillId input tip m = Ok m' → market_ok m'.
Proof.
  intros [Hc Ht] H. unfold reserve_rows in H. apply bind_Ok in H as (row & Hrow & H).
  apply of_option_Ok, find_listing_Some in Hrow as [Hr Er]. apply bind_Ok in H as (? & Hs & H).
  apply throw_if_Ok, negb_false_iff, bool_decide_eq_true in Hs. apply bind_Ok in H as (? & _ & H). apply bind_Ok in H as (? & _ & H).
  apply bind_Ok in H as (fee & _ & H). apply bind_Ok in H as (m1 & (-> & Hn1 & Hn2)%put_fills_Ok & H).
  apply set_status_Ok in H as ->. cbn. split; cbn; [|by apply trades_new]. rewrite <-Er. by apply core_reserve.
Qed.

Lemma finalize_run d node fillId m m' v :
  finalizeP2PFill msg config d node fillId m = (m', Ok v) →
  ∃ x row b64, x ∈ md_fills m ∧ fl_id x = fillId ∧ fl_status x ∈ [FSellerSigned; FBroadcast]
  ∧ row ∈ md_listings m ∧ lr_listingId row = fl_listingId x ∧ validate_fill msg config d row x b64 = Ok v
  ∧ update_fill fillId (λ f, with_fill_txid (fl_status f) (vf_txid v) f) m = Ok m'.
Proof.
  unfold finalizeP2PFill. intros (rep & m0 & [-> _]%pure_run & H)%bind_run.
  apply bind_run in H as (x & ? & [-> Hx]%read_run & H). apply of_option_Ok, find_fill_Some in Hx as [Hx Ex].
  apply bind_run in H as (? & ? & [-> Hs]%pure_run & H). apply throw_if_Ok, negb_false_iff, bool_decide_eq_true in Hs.
  apply bind_run in H as (b64 & ? & [-> _]%pure_run & H).
  apply bind_run in H as (row & ? & [-> Hr]%read_run & H). apply of_option_Ok, find_listing_Some in Hr as [Hr Er].
  apply bind_run in H as (w & ? & [-> Hv]%pure_run & H). apply bind_run in H as (? & ? & H1%statement_run & [= <- ->]).
  by exists x, row, b64.
Qed.

Lemma validate_fill_names d row x b64 v :
  validate_fill msg config d row x b64 = Ok v → vf_listingId v = lr_listingId row ∧ vf_fillId v = fl_id x.
Proof.
  unfold validate_fill. intros H. do 4 (apply bind_Ok in H as (? & _ & H)). by apply validated_names in H.
Qed.

Lemma finalize_ok d node fillId m : market_ok m → market_ok (finalizeP2PFill msg config d node fillId m).1.
Proof.
  intros Hok. unfold finalizeP2PFill, load_fill, load_listing. apply run_pure; [done|]. intros _ _.
  apply run_read; [done|]. intros x [Hx Ex]%of_option_Ok%find_fill_Some. subst fillId.
  apply run_pure; [done|]. intros _ Hs%throw_if_Ok%negb_false_iff%bool_decide_eq_true.
  apply run_pure; [done|]. intros b64 _. apply run_read; [done|]. intros row _. apply run_pure; [done|]. intros v _.
  apply run_statement_bind; [done|]. intros m1 H1. by eapply txid_fill_ok.
Qed.

Lemma broadcast_ok d node fillId m : market_ok m → market_ok (finalizeAndBroadcastFill msg config d node fillId m).1.
Proof.
  intros Hok. pose proof (finalize_ok d node fillId m Hok) as Hok1. unfold finalizeAndBroadcastFill, mbind at 1, M_bind.
  destruct (finalizeP2PFill msg config d node fillId m) as [m1 [v|e]] eqn:E; [|done]. cbn in Hok1.
  apply finalize_run in E as (x & row & b64 & Hx & <- & Hs & Hr & Er & [E1 E2]%validate_fill_names & H1).
  unfold broadcastP2PFill. apply run_pure; [done|]. intros txid _. apply run_statement_bind; [done|]. intros m2 H2. cbn.
  apply update_fill_Ok in H1 as [-> _].
  eapply (broadcast_rows_ok _ (with_fill_txid (fl_status x) (vf_txid v) x)); [done| |done..|cbn; congruence|exact H2].
  cbn. apply list_elem_of_fmap. exists x. by rewrite at_id_self.
Qed.

Lemma op_ok d node now op m : market_ok m → market_ok (after_op d node now op m).
Proof.
  intros Hok. destruct op; cbn [after_op]; [| | | | | |by apply finalize_ok|by apply broadcast_ok|by apply reconcile_ok];
    unfold createListing, cancelListing, reserveListing, buildFillPsbt, submitBuyerSignedPsbt, submitSellerSignedPsbt,
      load_fill, load_listing.
  - apply run_pure; [done|]. intros id _. apply run_statement_bind; [done|]. intros m'. by apply insert_listing_ok.
  - apply run_read; [done|]. intros row _. apply run_pure; [done|]. intros s _. apply run_pure; [done|]. intros _ _.
    apply run_statement; [done|]. intros m'. by apply cancel_rows_ok.
  - apply run_pure; [done|]. intros tip _. apply run_statement_bind; [done|]. intros m'. by apply reserve_rows_ok.
  - apply run_pure; [done|]. intros _ _. apply run_read; [done|]. intros x [Hx <-]%of_option_Ok%find_fill_Some.
    apply run_pure; [done|]. intros _ Hs%throw_if_Ok%negb_false_iff%bool_decide_eq_true.
    apply run_read; [done|]. intros row _. apply run_pure; [done|]. intros [[[psbt settled] extra] mfee] _. cbn zeta.
    apply run_statement_bind; [done|]. intros m' H. refine (move_fill_ok _ _ _ _ Hok Hx _ H _ _); [done| |done].
    set_unfold in Hs. by destruct Hs as [->|[->|[]]].
  - apply run_read; [done|]. intros x [Hx <-]%of_option_Ok%find_fill_Some.
    apply run_pure; [done|]. intros _ Hs%throw_if_Ok%negb_false_iff%bool_decide_eq_true. apply run_pure; [done|]. intros _ _.
    apply run_statement; [done|]. intros m' H. refine (move_fill_ok _ _ _ _ Hok Hx _ H _ _); [done|by rewrite Hs|done].
  - apply run_pure; [done|]. intros _ _. apply run_read; [done|]. intros x [Hx <-]%of_option_Ok%find_fill_Some.
    apply run_pure; [done|]. intros _ Hs%throw_if_Ok%negb_false_iff%bool_decide_eq_true.
    apply run_read; [done|]. intros row _. apply run_pure; [done|]. intros _ _. apply run_pure; [done|]. intros _ _.
    apply run_statement; [done|]. intros m' H.
    refine (move_fill_ok _ _ _ _ Hok Hx _ H _ _); [done|by rewrite Hs|done].
Qed.

(** The tables of a market that has run. *)
Inductive market_reachable : MarketDb → Prop :=
  | market_new : market_reachable empty_market
  | market_ran d node now op m : market_reachable m → market_reachable (after_op d node now op m).

Lemma reachable_ok m : market_reachable m → market_ok m.
Proof. induction 1; [apply market_ok_empty|by apply op_ok]. Qed.

(** C17: no listing is sold twice.  Whatever operations have run, in whatever
    order, on whatever answers of the node: at most one fill of a listing is
    being signed, broadcast or confirmed; a fill being signed has its listing
    RESERVED, and a RESERVED listing has one; a broadcast fill has a txid no
    other fill has and its listing is not for sale; a confirmed fill has its
    listing FILLED; and the trades that count are those of the confirmed fills. *)
Theorem market_exclusive m :
  market_reachable m →
  (∀ f g, f ∈ md_fills m → g ∈ md_fills m → fl_listingId f = fl_listingId g →
     engaged (fl_status f) = true → engaged (fl_status g) = true → f = g)
  ∧ (∀ f r, f ∈ md_fills m → r ∈ md_listings m → lr_listingId r = fl_listingId f →
       (signing_status (fl_status f) = true → lr_status r = LReserved)
       ∧ (fl_status f = FBroadcast → lr_status r ∈ [LBroadcast; LCancelled])
       ∧ (fl_status f = FConfirmed → lr_status r = LFilled))
  ∧ (∀ r, r ∈ md_listings m → lr_status r = LReserved →
       ∃ f, f ∈ md_fills m ∧ fl_listingId f = lr_listingId r ∧ signing_status (fl_status f) = true)
  ∧ (∀ f, f ∈ md_fills m → fl_status f ∈ [FBroadcast; FConfirmed] →
       ∃ txid, fl_txid f = Some txid ∧ ∀ g, g ∈ md_fills m → fl_txid g = Some txid → g = f)
  ∧ (∀ txid, (∃ t, t ∈ md_trades m ∧ mt_canonical t = true ∧ mt_txid t = txid)
       ↔ ∃ f, f ∈ md_fills m ∧ fl_status f = FConfirmed ∧ fl_txid f = Some txid).
Proof.
  intros [[H1 H2 H3 H4 H5 H6 H7 H8] [T1 T2 T3]]%reachable_ok. split_and!.
  - intros f g Hf Hg El Ef Eg. eapply (nodup_key fl_id); [done..|by eapply H6].
  - intros f r Hf Hr E. pose proof (H5 _ _ Hf Hr E) as Ha. split_and!; [|by intros Es; rewrite Es in Ha; apply bool_decide_eq_true in Ha|by intros Es; rewrite Es in Ha; apply confirmed_allowed].
    intros Es. by eapply signing_allowed.
  - exact H7.
  - intros f Hf Es. destruct (H8 f Hf Es) as [txid E]. exists txid. split; [done|]. intros g Hg Eg. by eapply nodup_txid.
  - intros txid. split.
    + intros (t & Ht & Hc & <-). by apply T2.
    + intros (f & Hf & Es & E). destruct (T3 f Hf Es) as (t & Ht & Hc & E'). exists t. split_and!; try done. congruence.
Qed.
End Operations.
