(* ===== verification/MarketReconcile.v ===== *)
(** * What a reconciliation establishes

    packages/cove-market/src/service.ts, [reconcileMarket]: after a run that
    did not throw, the sales the market counts are the sales the indexer saw. *)
From S2P Require Import Prelude Bytes Economics Vault Indexer Store Hydrate Guardian Finalize Spend Builder Order Market MarketService MarketInv.

Section Reconcile.
Context {C : Crypto} {B : Bitcoin} {J : BitcoinJs} {P : PsbtBuilder} {PC : PsbtCodec} {MS : MessageSigning} {PG : Postgres}.
Context (d : V3Db) (node : MarketNode) (now : Z).

(** ** Loops that return *)
Lemma for_each_run {X} (Q : list X → MarketDb → Prop) (f : X → M Z) xs m m' n :
  Q xs m → (∀ x xs m m1 k, Q (x :: xs) m → f x m = (m1, Ok k) → Q xs m1) → for_each f xs m = (m', Ok n) → Q [] m'.
Proof.
  intros HQ Hstep. revert m n HQ. induction xs as [|x xs IH]; intros m n HQ.
  - by intros [= <- _].
  - cbn [for_each]. intros (k & m1 & Hx & H)%bind_run. apply bind_run in H as (j & m2 & Hxs & [= <- _]).
    eapply IH; [|exact Hxs]. by eapply Hstep.
Qed.

(** The rows of a phase that a loop has still to visit. *)
Definition remaining {R} (key : R → string) (tbl : MarketDb → list R) (ok : R → bool) (xs : list R) (m : MarketDb) : Prop :=
  market_ok m ∧ NoDup (key <$> xs) ∧ ∀ x, x ∈ xs → x ∈ tbl m ∧ ok x = true.

Lemma remaining_next {R} (key : R → string) tbl ok x xs m m1 :
  remaining key tbl ok (x :: xs) m → market_ok m1 → (∀ y, y ∈ tbl m → key y ≠ key x → y ∈ tbl m1) → remaining key tbl ok xs m1.
Proof.
  intros (_ & Hn & Hxs) Hok Hkeep. rewrite fmap_cons, NoDup_cons in Hn. destruct Hn as [Hx Hn]. split_and!; [done..|].
  intros y Hy. destruct (Hxs y) as [Hyin Hys]; [set_solver|]. split; [|done]. apply Hkeep; [done|]. intros E.
  apply Hx. rewrite <-E. by apply list_elem_of_fmap_2.
Qed.

Lemma remaining_start {R} (key : R → string) tbl ok m :
  market_ok m → NoDup (key <$> tbl m) → remaining key tbl ok (select ok (tbl m)) m.
Proof. intros Hok Hn. split_and!; [done|by apply select_nodup|]. intros x Hx. by apply select_elem in Hx. Qed.

(** A phase that keeps a relation in every round keeps it. *)
Lemma phase_run {R} (key : R → string) tbl ok (f : R → M Z) (Rel : relation MarketDb) `{!PreOrder Rel} m m' n :
  market_ok m → NoDup (key <$> tbl m) →
  (∀ x m m1 k, market_ok m → x ∈ tbl m → ok x = true → f x m = (m1, Ok k) →
    market_ok m1 ∧ (∀ y, y ∈ tbl m → key y ≠ key x → y ∈ tbl m1) ∧ Rel m m1) →
  for_each f (select ok (tbl m)) m = (m', Ok n) → market_ok m' ∧ Rel m m'.
Proof.
  intros Hok Hn Hf H.
  eapply (for_each_run (λ xs m1, remaining key tbl ok xs m1 ∧ Rel m m1)) in H as [(Hok' & _) HR]; [done| |].
  - split; [by apply remaining_start|reflexivity].
  - intros x xs m1 m2 k [Hrem HR] Hx. pose proof Hrem as (Hok1 & _ & Hxs). destruct (Hxs x) as [Hin Hs]; [set_solver|].
    destruct (Hf x m1 m2 k Hok1 Hin Hs Hx) as (Hok2 & Hkeep & HR2). split; [by eapply remaining_next|by transitivity m1].
Qed.

(** ** Orders stay, and confirmed fills stay confirmed *)
Definition order_of (r : ListingRow) : string * ListingV1 := (lr_listingId r, lr_order r).

Record frame (m m' : MarketDb) : Prop := {
  fr_orders : order_of <$> md_listings m' = order_of <$> md_listings m;
  fr_confirmed f : fl_status f = FConfirmed → f ∈ md_fills m ↔ f ∈ md_fills m';
}.

#[export] Instance frame_preorder : PreOrder frame.
Proof.
  split; [by split|]. intros m1 m2 m3 [E1 H1] [E2 H2]. split; [congruence|]. intros f Hf. by rewrite H1, H2.
Qed.

Lemma at_listing_orders id s (ls : list ListingRow) : order_of <$> (at_listing id s <$> ls) = order_of <$> ls.
Proof. rewrite <-list_fmap_compose. apply list_fmap_ext. intros i r _. cbn. unfold at_listing. by case_bool_decide. Qed.

Lemma frame_change m m' gF :
  order_of <$> md_listings m' = order_of <$> md_listings m → md_fills m' = gF <$> md_fills m →
  (∀ f, f ∈ md_fills m → fl_status f = FConfirmed ∨ fl_status (gF f) = FConfirmed → gF f = f) → frame m m'.
Proof.
  intros E1 E2 Hg. split; [done|]. intros f Hf. rewrite E2, list_elem_of_fmap. split.
  - intros Hin. exists f. split; [|done]. symmetry. apply Hg; auto.
  - intros (g & -> & Hin). rewrite Hg; auto.
Qed.

Lemma frame_at_id m m' x g :
  market_ok m → x ∈ md_fills m → order_of <$> md_listings m' = order_of <$> md_listings m →
  md_fills m' = at_id (fl_id x) g <$> md_fills m → fl_status x ≠ FConfirmed → fl_status (g x) ≠ FConfirmed → frame m m'.
Proof.
  intros [Hc _] Hx E1 E2 H1 H2. eapply frame_change; [done..|]. intros f Hf Hs. unfold at_id in *. case_bool_decide as E; [|done].
  assert (f = x) as -> by (eapply (nodup_key fl_id); [apply Hc|done..]). naive_solver.
Qed.

Lemma move_listing_orders id from to m m' : move_listing id from to m = Ok m' →
  md_fills m' = md_fills m ∧ order_of <$> md_listings m' = order_of <$> md_listings m.
Proof.
  intros [-> _]%put_listings_Ok. split; [done|]. cbn. unfold update_rows. change (map ?f ?l) with (f <$> l).
  rewrite <-list_fmap_compose. apply list_fmap_ext. intros i r _. cbn. by case_bool_decide.
Qed.

Lemma release_frame x g m m' :
  market_ok m → x ∈ md_fills m → fl_status x ≠ FConfirmed → fl_status (g x) ≠ FConfirmed → release_rows g x m = Ok m' → frame m m'.
Proof.
  intros Hok Hx H1 H2 H. unfold release_rows in H. res_inv H. apply update_fill_Ok in Hv as [-> _].
  apply move_listing_orders in H as [E1 E2]. by apply (frame_at_id m m' x g).
Qed.

Lemma invalidate_frame r reason m m' n :
  market_ok m → r ∈ md_listings m → reconcilable (lr_status r) = true →
  (invalidateListing (lr_listingId r) reason;; mret 1 : M Z) m = (m', Ok n) → frame m m'.
Proof.
  intros Hok Hr Hs (? & ? & H%statement_run & [= <- _])%bind_run. unfold invalidate_rows in H. res_inv H. subst.
  apply set_status_Ok in Hv as ->. apply update_fills_of_Ok in Hv0 as [-> _]. eapply frame_change; [by apply at_listing_orders|done|].
  intros f Hf E. unfold at_fills in *. destruct (String.eqb _ _ && _) eqn:Eb; [|done]. apply andb_true_iff in Eb as [_ Ei].
  destruct E as [E|E]; [by rewrite E in Ei|done].
Qed.

Lemma settle_frame r m m' n :
  market_ok m → r ∈ md_listings m → reconcilable (lr_status r) = true → settle_listing d node r m = (m', Ok n) → frame m m'.
Proof.
  intros Hok Hr Hs. unfold settle_listing. destruct (u ← _; _) as [spender|].
  { destruct (listingFillTxid _ _ _); [by intros [= <- _]|by apply invalidate_frame]. }
  unfold settle_unspent. cbn zeta. destruct (mn_getTxout _ _ _) as [[txout|]|]; [| |done].
  - case_bool_decide as Er; [|by intros [= <- _]]. intros (? & ? & H%statement_run & [= <- _])%bind_run.
    apply set_status_Ok in H as ->. eapply (frame_change _ _ id); [by apply at_listing_orders|by rewrite list_fmap_id|done].
  - destruct (latestFillTxid _ _) as [ours|]; [|by apply invalidate_frame]. destruct (inMempool _ _); [|by apply invalidate_frame].
    case_bool_decide as Er; [|by intros [= <- _]]. intros (? & ? & H%statement_run & [= <- _])%bind_run.
    unfold repend_rows in H. res_inv H. subst. apply update_fills_of_Ok in Hv as [-> _]. apply set_status_Ok in Hv0 as ->.
    eapply frame_change; [by apply at_listing_orders|done|]. intros f Hf E. unfold at_fills in *.
    destruct (String.eqb _ _ && _) eqn:Eb; [|done]. apply andb_true_iff in Eb as [Ef%String.eqb_eq _].
    destruct E as [E|E]; [|done]. assert (engaged (fl_status f) = false) as Hi
      by (eapply (listing_idle m r); [done..|rewrite Er; set_solver]). by rewrite E in Hi.
Qed.

Lemma release_dead_frame x m m' n :
  market_ok m → x ∈ md_fills m → bool_decide (fl_status x = FBuyerSigned) = true → release_dead node x m = (m', Ok n) → frame m m'.
Proof.
  intros Hok Hx Hs%bool_decide_eq_true. unfold release_dead. intros (dead & ? & [-> _]%pure_run & H)%bind_run.
  destruct dead; cbn [negb] in H; [|by injection H as <- _]. apply bind_run in H as (? & ? & H%statement_run & [= <- _]).
  eapply release_frame; [done..| | |exact H]; [by rewrite Hs|done].
Qed.

Lemma expire_fill_frame x m m' n :
  market_ok m → x ∈ md_fills m → fill_expired now x = true → expire_fill x m = (m', Ok n) → frame m m'.
Proof.
  intros Hok Hx [Hs _]%andb_true_iff (? & ? & H%statement_run & [= <- _])%bind_run.
  eapply release_frame; [done..| | |exact H]; [by destruct (fl_status x)|done].
Qed.

Lemma expire_listing_frame r m m' n : expire_listing r m = (m', Ok n) → frame m m'.
Proof.
  intros (? & ? & H%statement_run & [= <- _])%bind_run. apply set_status_Ok in H as ->.
  eapply (frame_change _ _ id); [by apply at_listing_orders|by rewrite list_fmap_id|done].
Qed.

(** ** Sales the indexer has seen *)

(** The source of the fill's listing is spent, canonically, by the fill's
    transaction. *)
Definition sold (m : MarketDb) (f : FillRow) : Prop :=
  ∃ r, r ∈ md_listings m ∧ lr_listingId r = fl_listingId f ∧ is_Some (spent_by_fill d (lr_order r) f).

Lemma sold_orders m m' f : order_of <$> md_listings m' = order_of <$> md_listings m → sold m f → sold m' f.
Proof.
  intros E (r & Hr & El & Hs). assert (order_of r ∈ order_of <$> md_listings m') as (r' & E' & Hr')%list_elem_of_fmap.
  { rewrite E. by apply list_elem_of_fmap_2. }
  injection E' as E1 E2. exists r'. split_and!; [done|congruence|congruence].
Qed.

Lemma sold_row m f row :
  market_ok m → find_listing m (fl_listingId f) = Some row → sold m f ↔ is_Some (spent_by_fill d (lr_order row) f).
Proof.
  intros [Hc _] [Hr Er]%find_listing_Some. split; [|by exists row]. intros (r & Hr' & Er' & Hs).
  assert (r = row) as <-; [|done]. eapply (nodup_key lr_listingId); [apply Hc|done..|congruence].
Qed.

Lemma fill_has_listing m f : market_ok m → f ∈ md_fills m → ∃ row, find_listing m (fl_listingId f) = Some row.
Proof.
  intros [Hc _] Hf. destruct (co_listed _ _ Hc f Hf) as (r & Hr & E). destruct (find_listing m (fl_listingId f)) eqn:Ef; [by eexists|].
  eapply head_filter_None in Ef; [|done]. cbn in Ef. by rewrite E, String.eqb_refl in Ef.
Qed.

Definition confirmed_as (m : MarketDb) (x : FillRow) : Prop :=
  ∃ y, y ∈ md_fills m ∧ fl_id y = fl_id x ∧ fl_status y = FConfirmed ∧ fl_txid y = fl_txid x ∧ fl_listingId y = fl_listingId x.

Lemma confirm_shape x row u tip m m' :
  confirm_rows x row u tip m = Ok m' →
  ∃ height hash, md_fills m' = at_id (fl_id x) (with_block FConfirmed height hash) <$> md_fills m
  ∧ order_of <$> md_listings m' = order_of <$> md_listings m.
Proof.
  intros H. unfold confirm_rows in H. res_inv H. subst m'. apply update_fill_Ok in Hv as [-> _]. apply set_status_Ok in Hv0 as ->.
  apply ensureTrade_Ok in Hv1 as (? & ? & _ & -> & _). cbn. do 2 eexists. split; [done|]. apply at_listing_orders.
Qed.

Lemma reorg_shape x row m m' :
  reorg_rows x row m = Ok m' → is_Some (fl_txid x) →
  md_fills m' = at_id (fl_id x) (with_canonical FReorged false) <$> md_fills m
  ∧ order_of <$> md_listings m' = order_of <$> md_listings m.
Proof.
  intros H [t Et]. unfold reorg_rows in H. rewrite Et in H. res_inv H. subst m'. apply set_trade_canonical_Ok in Hv as (? & -> & _).
  apply update_fill_Ok in Hv0 as [-> _]. apply set_status_Ok in Hv1 as ->. cbn. split; [done|]. apply at_listing_orders.
Qed.

(** (A): every broadcast fill the indexer has seen is confirmed. *)
Lemma promote_phase tip m m' n :
  market_ok m → for_each (promote d tip) (select (λ f, bool_decide (fl_status f = FBroadcast)) (md_fills m)) m = (m', Ok n) →
  market_ok m' ∧ order_of <$> md_listings m' = order_of <$> md_listings m
  ∧ ∀ x, x ∈ md_fills m → fl_status x = FBroadcast → sold m x → confirmed_as m' x.
Proof.
  intros Hok H.
  eapply (for_each_run (λ xs m1, remaining fl_id md_fills (λ f, bool_decide (fl_status f = FBroadcast)) xs m1
    ∧ order_of <$> md_listings m1 = order_of <$> md_listings m
    ∧ ∀ x, x ∈ md_fills m → fl_status x = FBroadcast → sold m x → x ∈ xs ∨ confirmed_as m1 x)) in H as ((Hok' & _) & E & Hx).
  - split_and!; [done..|]. intros x H1 H2 H3. destruct (Hx x H1 H2 H3); [set_solver|done].
  - split_and!; [apply remaining_start; [done|apply Hok]|done|]. intros x Hx Es _. left. apply select_elem.
    by rewrite bool_decide_eq_true_2.
  - clear H. intros x xs m1 m2 k (Hrem & E & Hall) Hrun. pose proof Hrem as (Hok1 & _ & Hxs). destruct (Hxs x) as [Hx Hs]; [set_solver|].
    destruct (promote_ok tip x m1 d Hok1 Hx Hs) as [Hok2 Hkeep]. rewrite Hrun in Hok2, Hkeep. cbn in Hok2, Hkeep.
    apply bool_decide_eq_true in Hs. split; [by eapply remaining_next|]. unfold promote in Hrun.
    destruct (fill_has_listing m1 x Hok1 Hx) as [row Er]. rewrite Er in Hrun. pose proof (sold_row _ _ _ Hok1 Er) as Hsold.
    destruct (spent_by_fill d (lr_order row) x) as [u|] eqn:Eu.
    + apply bind_run in Hrun as (? & ? & Hb%statement_run & [= <- _]). apply confirm_shape in Hb as (h & hs & Ef & El).
      split; [congruence|]. intros y Hy Ey Hsy. destruct (Hall y Hy Ey Hsy) as [[->|Hin]%elem_of_cons|(z & Hz & E1 & E2 & ?)].
      * right. exists (with_block FConfirmed h hs x). split_and!; try done. rewrite Ef. apply list_elem_of_fmap. exists x.
        by rewrite at_id_self.
      * by left.
      * right. exists z. split_and!; [|done|done|naive_solver|naive_solver].
        apply Hkeep; [done|]. intros Eid. assert (z = x) as -> by (eapply (nodup_key fl_id); [apply Hok1|done..]). congruence.
    + injection Hrun as <- _. split; [done|]. intros y Hy Ey Hsy. destruct (Hall y Hy Ey Hsy) as [[->|Hin]%elem_of_cons|]; auto.
      assert (sold m1 x) as [? ?]%Hsold by by eapply sold_orders. done.
Qed.

(** (B): what stays confirmed is what the indexer has seen. *)
Lemma demote_phase m m' n :
  market_ok m → for_each (demote d) (select (λ f, bool_decide (fl_status f = FConfirmed)) (md_fills m)) m = (m', Ok n) →
  market_ok m' ∧ order_of <$> md_listings m' = order_of <$> md_listings m
  ∧ (∀ f, f ∈ md_fills m' → fl_status f = FConfirmed → sold m' f)
  ∧ (∀ f, f ∈ md_fills m → fl_status f = FConfirmed → sold m f → f ∈ md_fills m').
Proof.
  intros Hok H.
  eapply (for_each_run (λ xs m1, remaining fl_id md_fills (λ f, bool_decide (fl_status f = FConfirmed)) xs m1
    ∧ order_of <$> md_listings m1 = order_of <$> md_listings m
    ∧ (∀ f, f ∈ md_fills m1 → fl_status f = FConfirmed → f ∈ xs ∨ sold m1 f)
    ∧ (∀ f, f ∈ md_fills m → fl_status f = FConfirmed → sold m f → f ∈ md_fills m1))) in H as ((Hok' & _) & E & Hx & Hkeep).
  - split_and!; [done..| |done]. intros f H1 H2. destruct (Hx f H1 H2); [set_solver|done].
  - split_and!; [apply remaining_start; [done|apply Hok]|done| |done]. intros x Hx Es. left. apply select_elem.
    by rewrite bool_decide_eq_true_2.
  - clear H. intros x xs m1 m2 k (Hrem & E & Hall & Hin) Hrun. pose proof Hrem as (Hok1 & _ & Hxs). destruct (Hxs x) as [Hx Hs]; [set_solver|].
    destruct (demote_ok x m1 d Hok1 Hx Hs) as [Hok2 Hkeep]. rewrite Hrun in Hok2, Hkeep. cbn in Hok2, Hkeep.
    apply bool_decide_eq_true in Hs. split; [by eapply remaining_next|]. unfold demote in Hrun.
    destruct (fill_has_listing m1 x Hok1 Hx) as [row Er]. rewrite Er in Hrun. pose proof (sold_row _ _ _ Hok1 Er) as Hsold.
    destruct (spent_by_fill d (lr_order row) x) as [u|] eqn:Eu.
    + injection Hrun as <- _. split_and!; [done| |done]. intros f Hf Ef. destruct (Hall f Hf Ef) as [[->|?]%elem_of_cons|]; auto.
      right. apply Hsold. by eexists.
    + apply bind_run in Hrun as (? & ? & Hb%statement_run & [= <- _]). apply reorg_shape in Hb as [Ef El];
        [|apply (co_txid _ _ (proj1 Hok1)); [done|rewrite Hs; set_solver]].
      split_and!; [congruence|..].
      * intros f Hf Hc. rewrite Ef in Hf. rewrite at_id_elem in Hf by (done || apply Hok1). destruct Hf as [->|[Hf Hne]]; [done|].
        destruct (Hall f Hf Hc) as [[->|?]%elem_of_cons|]; [done|by left|right]. by eapply sold_orders.
      * intros f Hf Hc Hsf. specialize (Hin f Hf Hc Hsf). rewrite Ef, at_id_elem by (done || apply Hok1). right. split; [done|].
        intros ->. assert (sold m1 x) as [? ?]%Hsold by by eapply sold_orders. done.
Qed.

(** (D): no reservation that has run out is left. *)
Lemma expire_phase m m' n :
  market_ok m → for_each expire_fill (select (fill_expired now) (md_fills m)) m = (m', Ok n) →
  ∀ f, f ∈ md_fills m' → fill_expired now f = false.
Proof.
  intros Hok H.
  eapply (for_each_run (λ xs m1, remaining fl_id md_fills (fill_expired now) xs m1
    ∧ ∀ f, f ∈ md_fills m1 → fill_expired now f = true → f ∈ xs)) in H as [_ Hx].
  - intros f Hf. destruct (fill_expired now f) eqn:E; [|done]. specialize (Hx f Hf E). set_solver.
  - split; [apply remaining_start; [done|apply Hok]|]. intros f Hf E. by apply select_elem.
  - clear H. intros x xs m1 m2 k (Hrem & Hall) Hrun. pose proof Hrem as (Hok1 & _ & Hxs). destruct (Hxs x) as [Hx Hs]; [set_solver|].
    destruct (expire_fill_ok x m1 now Hok1 Hx Hs) as [Hok2 Hkeep]. rewrite Hrun in Hok2, Hkeep. cbn in Hok2, Hkeep.
    split; [by eapply remaining_next|]. apply bind_run in Hrun as (? & ? & Hb%statement_run & [= <- _]).
    unfold release_rows in Hb. res_inv Hb. apply update_fill_Ok in Hv as [-> _]. apply move_listing_orders in Hb as [Ef _].
    intros f Hf E. rewrite Ef in Hf. cbn in Hf. rewrite at_id_elem in Hf by (done || apply Hok1). destruct Hf as [->|[Hf Hne]]; [done|].
    specialize (Hall f Hf E). set_solver.
Qed.
End Reconcile.

Section Theorems.
Context {C : Crypto} {B : Bitcoin} {J : BitcoinJs} {P : PsbtBuilder} {PC : PsbtCodec} {MS : MessageSigning} {PG : Postgres}.

(** The phases of a run that returned. *)
Lemma reconcile_run d node now m m' rep :
  market_ok m → reconcileMarket d node now m = (m', Ok rep) →
  ∃ m1 m2, market_ok m1 ∧ market_ok m2 ∧ market_ok m'
  ∧ order_of <$> md_listings m1 = order_of <$> md_listings m ∧ order_of <$> md_listings m2 = order_of <$> md_listings m1
  ∧ (∀ x, x ∈ md_fills m → fl_status x = FBroadcast → sold d m x → confirmed_as m1 x)
  ∧ (∀ f, f ∈ md_fills m2 → fl_status f = FConfirmed → sold d m2 f)
  ∧ (∀ f, f ∈ md_fills m1 → fl_status f = FConfirmed → sold d m1 f → f ∈ md_fills m2)
  ∧ frame m2 m' ∧ ∀ f, f ∈ md_fills m' → fill_expired now f = false.
Proof.
  intros Hok. unfold reconcileMarket, fills_in. intros (tip & ? & [-> _]%pure_run & H)%bind_run.
  apply bind_run in H as (? & ? & [-> [= <-]]%read_run & H). apply bind_run in H as (nA & m1 & HA & H).
  apply promote_phase in HA as (Hok1 & E1 & HA); [|done].
  apply bind_run in H as (? & ? & [-> [= <-]]%read_run & H). apply bind_run in H as (nB & m2 & HB & H).
  apply demote_phase in HB as (Hok2 & E2 & HB & HB'); [|done].
  apply bind_run in H as (? & ? & [-> [= <-]]%read_run & H). apply bind_run in H as (nC & m3 & HC & H).
  apply (phase_run lr_listingId md_listings _ _ frame) in HC as [Hok3 F3]; [|done|apply Hok2|].
  2: { intros x m0 m4 k Hok0 Hx Hs Hr. pose proof (settle_ok x m0 d node Hok0 Hx Hs) as [? ?]. rewrite Hr in *.
       split_and!; [done..|by eapply settle_frame]. }
  apply bind_run in H as (? & ? & [-> [= <-]]%read_run & H). apply bind_run in H as (nD & m4 & HD & H).
  apply (phase_run fl_id md_fills _ _ frame) in HD as [Hok4 F4]; [|done|apply Hok3|].
  2: { intros x m0 m5 k Hok0 Hx Hs Hr. pose proof (release_dead_ok x m0 node Hok0 Hx Hs) as [? ?]. rewrite Hr in *.
       split_and!; [done..|by eapply release_dead_frame]. }
  apply bind_run in H as (? & ? & [-> [= <-]]%read_run & H). apply bind_run in H as (nE & m5 & HE & H).
  apply (phase_run lr_listingId md_listings _ _ frame) in HE as [Hok5 F5]; [|done|apply Hok4|].
  2: { intros x m0 m6 k Hok0 Hx Hs Hr. pose proof (expire_listing_ok x m0 _ Hok0 Hx Hs) as [? ?]. rewrite Hr in *.
       split_and!; [done..|by eapply expire_listing_frame]. }
  apply bind_run in H as (? & ? & [-> [= <-]]%read_run & H). apply bind_run in H as (nF & m6 & HF & [= <- _]).
  pose proof (expire_phase _ _ _ _ Hok5 HF) as Hexp.
  apply (phase_run fl_id md_fills _ _ frame) in HF as [Hok6 F6]; [|done|apply Hok5|].
  2: { intros x m0 m7 k Hok0 Hx Hs Hr. pose proof (expire_fill_ok x m0 now Hok0 Hx Hs) as [? ?]. rewrite Hr in *.
       split_and!; [done..|by eapply expire_fill_frame]. }
  exists m1, m2. split_and!; try done. do 3 (etransitivity; [eassumption|]). done.
Qed.

Lemma sold_once d m f g t :
  market_ok m → f ∈ md_fills m → g ∈ md_fills m → sold d m f → sold d m g → fl_txid f = Some t →
  (∀ r s, r ∈ md_listings m → s ∈ md_listings m → lr_listingId r = fl_listingId f → lr_listingId s = fl_listingId g →
     source_of r = source_of s) → f = g.
Proof.
  intros [Hc _] Hf Hg (r & Hr & Er & [u Hu]) (s & Hs & Es & [v Hv]) Et Hsrc. specialize (Hsrc r s Hr Hs Er Es).
  unfold source_of in Hsrc. injection Hsrc as E1 E2. unfold spent_by_fill, sourceUtxoRow in Hu, Hv. rewrite <-E1, <-E2 in Hv.
  destruct (head _) as [w|]; [|done]. destruct (bool_decide (ur_spentByTxid w = fl_txid f)) eqn:Ef; [|done].
  destruct (bool_decide (ur_spentByTxid w = fl_txid g)) eqn:Eg; [|done]. to_prop.
  eapply (nodup_txid (md_fills m)); [apply Hc..|done|done|exact Et|congruence].
Qed.

Context (msg : string → string) (config : MarketConfig).

(** C18: the trades the market counts are the sales the indexer saw, each
    carrier once.  After any history of requests and a reconciliation that
    returned, every confirmed fill belongs to a FILLED listing whose source
    carrier the indexer records as spent, canonically, by that fill's
    transaction, and has a trade that counts; every trade that counts is of
    such a fill; and two confirmed fills of listings of one source carrier are
    one fill: no carrier is sold twice, whatever was listed, cancelled,
    rebroadcast or reorganised before. *)
Theorem reconcile_sound d node now m m' rep :
  market_reachable msg config m → reconcileMarket d node now m = (m', Ok rep) →
  (∀ f, f ∈ md_fills m' → fl_status f = FConfirmed →
     (∃ r, r ∈ md_listings m' ∧ lr_listingId r = fl_listingId f ∧ lr_status r = LFilled
      ∧ is_Some (spent_by_fill d (lr_order r) f))
     ∧ ∃ t, t ∈ md_trades m' ∧ mt_canonical t = true ∧ fl_txid f = Some (mt_txid t))
  ∧ (∀ t, t ∈ md_trades m' → mt_canonical t = true →
     ∃ f, f ∈ md_fills m' ∧ fl_status f = FConfirmed ∧ fl_txid f = Some (mt_txid t) ∧ sold d m' f)
  ∧ (∀ f g r s, f ∈ md_fills m' → g ∈ md_fills m' → fl_status f = FConfirmed → fl_status g = FConfirmed →
     r ∈ md_listings m' → s ∈ md_listings m' → lr_listingId r = fl_listingId f → lr_listingId s = fl_listingId g →
     source_of r = source_of s → f = g).
Proof.
  intros Hok%reachable_ok Hrun. destruct (reconcile_run _ _ _ _ _ _ Hok Hrun) as (m1 & m2 & _ & _ & Hok' & _ & _ & _ & Hs & _ & [Fo Fc] & _).
  assert (∀ f, f ∈ md_fills m' → fl_status f = FConfirmed → sold d m' f) as Hsold.
  { intros f Hf Es. eapply sold_orders; [exact Fo|]. apply Hs; [by apply Fc|done]. }
  pose proof Hok' as [Hc Ht]. split_and!.
  - intros f Hf Es. split; [|by apply (tm_traded _ _ Ht)]. destruct (Hsold f Hf Es) as (r & Hr & El & Hsp). exists r.
    split_and!; [done..| |done]. apply confirmed_allowed. rewrite <-Es. by apply (co_fits _ _ Hc).
  - intros t Hin Ec. destruct (tm_filled _ _ Ht t Hin Ec) as (f & Hf & Es & Et). exists f. auto.
  - intros f g r s Hf Hg Ef Eg Hr Hs' Er Es E. destruct (co_txid _ _ Hc f Hf) as [t Et]; [rewrite Ef; set_solver|].
    eapply (sold_once d m'); [done..|by apply Hsold|by apply Hsold|exact Et|]. intros r' s' Hr1 Hs1 Er1 Es1.
    assert (r' = r) as -> by (eapply (nodup_key lr_listingId); [apply Hc|done..|congruence]).
    assert (s' = s) as -> by (eapply (nodup_key lr_listingId); [apply Hc|done..|congruence]). done.
Qed.

(** C20: a reconciliation moves the fills that are due.  After one that
    returned, a fill that was broadcast, and whose source carrier the indexer
    records as spent by the fill's transaction, is confirmed and its trade
    counts; and no listing stays locked by a reservation that has run out:
    every RESERVED listing is held by a fill whose signers still have time. *)
Theorem reconcile_progress d node now m m' rep :
  market_reachable msg config m → reconcileMarket d node now m = (m', Ok rep) →
  (∀ x, x ∈ md_fills m → fl_status x = FBroadcast → sold d m x →
     confirmed_as m' x ∧ ∃ t, t ∈ md_trades m' ∧ mt_canonical t = true ∧ fl_txid x = Some (mt_txid t))
  ∧ (∀ r, r ∈ md_listings m' → lr_status r = LReserved →
     ∃ f, f ∈ md_fills m' ∧ fl_listingId f = lr_listingId r ∧ signing_status (fl_status f) = true
     ∧ ∀ t, fl_reservationExpiresAt f = Some t → now < t).
Proof.
  intros Hok%reachable_ok Hrun. destruct (reconcile_run _ _ _ _ _ _ Hok Hrun) as (m1 & m2 & Hok1 & _ & Hok' & Eo & Eo2 & HA & _ & HB & [Fo Fc] & Hexp).
  pose proof Hok' as [Hc Ht]. split.
  - intros x Hx Es Hs. destruct (HA x Hx Es Hs) as (y & Hy & E1 & E2 & E3 & E4).
    assert (sold d m1 y) as Hsy.
    { apply (sold_orders _ m) ; [done|]. destruct Hs as (r & Hr & El & Hsp). exists r. split_and!; [done|congruence|].
      unfold spent_by_fill in *. by rewrite E3. }
    assert (y ∈ md_fills m') as Hy' by (apply Fc; [done|by apply HB]). split; [by exists y|].
    rewrite <-E3. by apply (tm_traded _ _ Ht).
  - intros r Hr Es. destruct (co_held _ _ Hc r Hr Es) as (f & Hf & El & Hsg). exists f. split_and!; [done..|].
    intros t Et. specialize (Hexp f Hf). unfold fill_expired in Hexp. rewrite Hsg, Et in Hexp. cbn in Hexp. lia.
Qed.
End Theorems.
