(* ===== verification/MarketSettle.v ===== *)
(** * A validated fill settles

    packages/cove-market/src/finalize.ts: what [validateFinalizedP2PFill]
    accepts pays every party of the order, and the indexer books its carriers. *)
From S2P Require Import Prelude Bytes Economics Wire Covenant Vault Indexer IndexerInv Store StoreInv Hydrate Guardian GuardianInv Finalize FinalizeInv Lockstep ReadInv Spend Order Market MarketService.

(** The carriers of the terms: the buyer's and, on a part sale, the seller's change. *)
Definition fill_change (terms : P2PFillTerms) : Z := pt_sourceAmountAtoms terms - pt_amountAtoms terms.

Definition carrier_count (terms : P2PFillTerms) : nat := if 0 <? fill_change terms then 2 else 1.

Definition fill_allocations (terms : P2PFillTerms) : list TokenAllocation :=
  Alloc 1 (pt_amountAtoms terms) :: (if 0 <? fill_change terms then [Alloc 2 (fill_change terms)] else []).

(** Who is paid what, by output. *)
Record fill_pays (terms : P2PFillTerms) (tx : Tx) : Prop := {
  fp_buyer : pays tx 1 (pt_buyerTokenScript terms) TOKEN_CARRIER_SATS;
  fp_change : 0 < fill_change terms → pays tx 2 (pt_sellerTokenChangeScript terms) TOKEN_CARRIER_SATS;
  fp_seller : pays tx (1 + carrier_count terms) (pt_sellerPayoutScript terms) (pt_totalPriceSats terms);
  fp_market : pays tx (2 + carrier_count terms) (pt_feeScript terms) (pt_marketFeeSats terms);
  fp_rest o : tx_outs tx !! (3 + carrier_count terms)%nat = Some o → txo_script o = pt_buyerChangeScript terms;
  fp_end : (length (tx_outs tx) ≤ 4 + carrier_count terms)%nat;
}.

Lemma no_script_false tx i s : no_script tx i s = false ↔ ∃ o, tx_outs tx !! i = Some o ∧ txo_script o = s.
Proof. unfold no_script. rewrite no_out_false, out_is_true. unfold bytes_eqb. by setoid_rewrite bool_decide_eq_true. Qed.

Lemma no_payment_false tx i s v : no_payment tx i s v = false ↔ pays tx i s v.
Proof.
  unfold no_payment, pays. rewrite no_out_false, out_is_true. unfold bytes_eqb. split.
  - intros ([sc va] & E & [H1%bool_decide_eq_true H2%Z.eqb_eq]%andb_true_iff). cbn in *. by subst.
  - intros E. eexists. split; [exact E|]. cbn. by rewrite bool_decide_eq_true_2, Z.eqb_refl.
Qed.

Lemma alloc_is_true a i n : alloc_is a i n = true → a = Alloc i n.
Proof. unfold alloc_is. destruct a; cbn. intros H. to_prop. naive_solver. Qed.

Lemma check_allocations_Ok terms l : check_allocations terms l = Ok tt → l = fill_allocations terms.
Proof.
  unfold check_allocations, fill_allocations, fill_change. cbn zeta. intros H.
  apply bind_Ok in H as (? & Hl%throw_if_Ok%negb_false_iff%Nat.eqb_eq & H). apply bind_Ok in H as (a & Ha%of_option_Ok & H).
  apply bind_Ok in H as (? & H1%throw_if_Ok%negb_false_iff%alloc_is_true & H). subst a.
  destruct (0 <? _) eqn:Ec.
  - apply bind_Ok in H as (c & Hc%of_option_Ok & H%throw_if_Ok%negb_false_iff%alloc_is_true). subst c.
    destruct l as [|u1 [|u2 []]]; try done. cbn in Ha, Hc. by simplify_eq.
  - destruct l as [|u1 []]; try done. cbn in Ha. by simplify_eq.
Qed.

(** The outputs by their scripts, as [check_outputs] reads them. *)
Record outputs_ok (terms : P2PFillTerms) (tx : Tx) : Prop := {
  oo_buyer : ∃ o, tx_outs tx !! 1%nat = Some o ∧ txo_script o = pt_buyerTokenScript terms;
  oo_change : 0 < fill_change terms → ∃ o, tx_outs tx !! 2%nat = Some o ∧ txo_script o = pt_sellerTokenChangeScript terms;
  oo_seller : pays tx (1 + carrier_count terms) (pt_sellerPayoutScript terms) (pt_totalPriceSats terms);
  oo_market : pays tx (2 + carrier_count terms) (pt_feeScript terms) (pt_marketFeeSats terms);
  oo_rest o : tx_outs tx !! (3 + carrier_count terms)%nat = Some o → txo_script o = pt_buyerChangeScript terms;
  oo_end : (length (tx_outs tx) ≤ 4 + carrier_count terms)%nat;
}.

Lemma check_outputs_Ok terms tx : check_outputs terms tx = Ok tt → outputs_ok terms tx.
Proof.
  unfold check_outputs. cbn zeta. fold (fill_change terms) (carrier_count terms). set (n := carrier_count terms).
  replace (1 + n + 1)%nat with (2 + n)%nat by lia. replace (2 + n + 1)%nat with (3 + n)%nat by lia.
  replace (2 + n + 2)%nat with (4 + n)%nat by lia. intros H.
  apply bind_Ok in H as (? & H1%throw_if_Ok%no_script_false & H). apply bind_Ok in H as (? & H2%throw_if_Ok & H).
  apply bind_Ok in H as (? & H3%throw_if_Ok%no_payment_false & H). apply bind_Ok in H as (? & H4%throw_if_Ok%no_payment_false & H).
  apply bind_Ok in H as (? & H5%throw_if_Ok & H%throw_if_Ok%Nat.ltb_ge). split; try done.
  - intros Hc%Z.ltb_lt. rewrite Hc in H2. by apply no_script_false.
  - intros o Ho. fold n in Ho. pose proof (lookup_lt_Some _ _ _ Ho) as Hl. rewrite (proj2 (Nat.ltb_lt _ _) Hl) in H5.
    apply no_script_false in H5 as (o' & Ho' & E). congruence.
Qed.

Lemma outputs_pay terms tx :
  outputs_ok terms tx → Forall (allocation_fits tx) (fill_allocations terms) → fill_pays terms tx.
Proof.
  intros [(o & Ho & Eo) H2 H3 H4 H5 H6] Hf. unfold fill_allocations in Hf. apply Forall_cons in Hf as [(_ & s & Hp & _) Hf].
  change (Z.to_nat (vout (Alloc 1 (pt_amountAtoms terms)))) with 1%nat in Hp. unfold pays in Hp. split; try done.
  - unfold pays. rewrite <-Eo. rewrite Ho in Hp |- *. by injection Hp as ->.
  - intros Hc. destruct (H2 Hc) as (o2 & Ho2 & Eo2). rewrite (proj2 (Z.ltb_lt _ _) Hc) in Hf.
    apply Forall_cons in Hf as [(_ & s2 & Hp2 & _) _].
    change (Z.to_nat (vout (Alloc 2 (fill_change terms)))) with 2%nat in Hp2. unfold pays in *. rewrite <-Eo2. rewrite Ho2 in Hp2 |- *.
    by injection Hp2 as ->.
Qed.

Lemma spends_outpoint_true i txid vout :
  spends_outpoint i txid vout = true ↔ txin_outpoint i = {| op_txid := txid; op_vout := vout |}.
Proof.
  unfold spends_outpoint, txin_outpoint. rewrite andb_true_iff, String.eqb_eq, Z.eqb_eq. naive_solver.
Qed.

Section Settle.
Context {C : Crypto} {B : Bitcoin}.
Context (msg : string → string).

(** The conditions a validated fill meets. *)
Definition fill_ok (params : P2PFillValidationParams) (v : ValidatedP2PFill) : Prop :=
  let terms := pf_terms params in
  ∃ tx i t base,
    tx_fromHex (pf_rawTxHex params) = Some tx
    ∧ tx_ins tx !! 0%nat = Some i ∧ txin_outpoint i = {| op_txid := pt_sourceTxid terms; op_vout := pt_sourceVout terms |}
    ∧ validateFinalizedTransferTransaction msg
        {| ft_rawTxHex := pf_rawTxHex params; ft_view := pf_view params; ft_prevouts := Some (fill_prevouts terms);
           ft_maxMinerFeeSats := Some (pt_minerFeeSats terms) |} = Ok (FinalOk base)
    ∧ decodeCoveOpReturnTx tx = Ok (TransferV2 t (fill_allocations terms))
    ∧ (∀ o, view_getBackingOutpoint (pf_view params) (fromHex (pt_tokenId terms)) = Some o → o ∉ (txin_outpoint <$> tx_ins tx))
    ∧ fill_pays terms tx
    ∧ dustThreshold (pt_sellerPayoutScript terms) DUST_RELAY_FEE_SAT_PER_KVB ≤ pt_totalPriceSats terms
    ∧ dustThreshold (pt_feeScript terms) DUST_RELAY_FEE_SAT_PER_KVB ≤ pt_marketFeeSats terms
    ∧ zsum (rsp_valueSats <$> (map_to_list (fill_prevouts terms)).*2) - zsum (txo_value <$> tx_outs tx) = pt_minerFeeSats terms
    ∧ vf_validatedTransfer v = base ∧ vf_txid v = getId tx.

Lemma validateFinalizedP2PFill_Ok params v : validateFinalizedP2PFill msg params = Ok v → fill_ok params v.
Proof.
  unfold validateFinalizedP2PFill, fill_ok. cbn zeta. intros H.
  apply bind_Ok in H as (tx & Htx%of_option_Ok & H). apply bind_Ok in H as (? & Hi%throw_if_Ok%negb_false_iff & H).
  destruct (tx_ins tx !! 0%nat) as [i|] eqn:Ei; [|done]. apply spends_outpoint_true in Hi.
  apply bind_Ok in H as (res & Hres & H). apply bind_Ok in H as (base & Hb & H). destruct res as [base'|]; [|done]. injection Hb as ->.
  pose proof Hres as (tx' & t & l & Htx' & He & _ & _ & _ & Hf & _ & Ebase)%validateFinalizedTransfer_Ok. cbn in Htx'.
  rewrite Htx in Htx'. injection Htx' as <-. cbn in Ebase.
  apply bind_Ok in H as (allocs & Ha & H). rewrite (decodeTx_parse _ _ _ Htx He) in Ha. injection Ha as ->.
  apply bind_Ok in H as (? & Hbk%throw_if_Ok & H). apply bind_Ok in H as ([] & ->%check_allocations_Ok & H).
  apply bind_Ok in H as ([] & Ho%check_outputs_Ok & H). apply bind_Ok in H as ([] & Hd & H).
  apply bind_Ok in H as (? & Hm%throw_if_Ok%negb_false_iff%Z.eqb_eq & H). injection H as <-.
  unfold check_dust in Hd. res_inv Hd. to_prop. rewrite foldl_add_zsum, Z.add_0_l in Hm.
  exists tx, i, t, base. split_and!; try done.
  - intros o Eo Hin. rewrite Eo in Hbk. apply list_elem_of_fmap in Hin as (j & -> & Hj).
    assert (existsb (λ ins, spends_outpoint ins (op_txid (txin_outpoint j)) (op_vout (txin_outpoint j))) (tx_ins tx) = true) as Hx.
    { apply existsb_exists. exists j. split; [by apply list_elem_of_In|]. by apply spends_outpoint_true. }
    congruence.
  - by apply outputs_pay.
  - cbn. by rewrite Ebase.
Qed.
End Settle.

(** ** What the miner gets *)

(** The outputs that the inputs of [tx] spend are among the terms' coins; what
    they are worth above the outputs of [tx]. *)
Definition miner_gets (terms : P2PFillTerms) (tx : Tx) (fee : Z) : Prop :=
  ∃ total, resolved (fill_prevouts terms) (tx_ins tx) total ∧ fee = total - zsum (txo_value <$> tx_outs tx).

(** The transaction spends every coin of the terms, each once. *)
Definition spends_all_coins (terms : P2PFillTerms) (tx : Tx) : Prop :=
  (in_key <$> tx_ins tx) ≡ₚ (map_to_list (fill_prevouts terms)).*1.

Definition coin_value (m : gmap string ResolvedPrevout) (k : string) : Z := default 0 (rsp_valueSats <$> m !! k).

Lemma resolved_values m ins total :
  resolved m ins total → total = zsum (coin_value m <$> (in_key <$> ins)).
Proof.
  intros (ps & Hp & ->). induction Hp as [|i p ins ps E _ IH]; [done|]. cbn [fmap list_fmap].
  assert (coin_value m (in_key i) = rsp_valueSats p) as -> by (unfold coin_value; by rewrite E).
  unfold zsum in *. cbn in *. by rewrite IH.
Qed.

Lemma coins_worth (m : gmap string ResolvedPrevout) :
  zsum (rsp_valueSats <$> (map_to_list m).*2) = zsum (coin_value m <$> (map_to_list m).*1).
Proof.
  assert (∀ l, (∀ k p, (k, p) ∈ l → m !! k = Some p) → zsum (rsp_valueSats <$> l.*2) = zsum (coin_value m <$> l.*1)) as H.
  { induction l as [|[k p] l IH]; intros Hl; [done|]. cbn [fmap list_fmap fst snd]. unfold zsum in *. cbn.
    rewrite IH by (intros; apply Hl; by right). f_equal. unfold coin_value. by rewrite (Hl k p) by left. }
  apply H. intros k p. by rewrite elem_of_map_to_list.
Qed.

Lemma all_coins_worth terms tx total :
  resolved (fill_prevouts terms) (tx_ins tx) total → spends_all_coins terms tx →
  total = zsum (rsp_valueSats <$> (map_to_list (fill_prevouts terms)).*2).
Proof.
  intros Hr Hp. rewrite (resolved_values _ _ _ Hr), coins_worth. by apply zsum_list_perm.
Qed.

(** ** The view of a fill: the carriers of one token at one outpoint *)
Section View.
Context {C : Crypto} {B : Bitcoin} {L : Locale} {PG : Postgres}.
Context (config : V3IndexerConfig).

Lemma snapshot_at bs d st tokenId o o' :
  lockstep config bs d st →
  snap_getTokenUtxo (loadCanonicalViewSnapshotFromDb d (toHex tokenId) [o]) o' =
  if decide (o' = o) then own_utxo st tokenId o else None.
Proof.
  intros (U & Hh & [[_ _ Hu] _ _ _] & _). pose proof (history_sound _ _ _ _ Hh) as [_ _ Hl _ _ _ _].
  case_decide as E; [subst o'; eapply snapshot_getTokenUtxo; [done..|right; by apply list_elem_of_here]|].
  unfold snap_getTokenUtxo, loadCanonicalViewSnapshotFromDb. cbn [ds_utxoByOutpoint].
  rewrite snapshot_utxos by (apply string_keys, NoDup_select, (tb_nodup _ _ _ Hu)).
  destruct (find _ _) as [r|] eqn:Ef; [|done]. apply find_some in Ef as [_ [Hw Ek%String.eqb_eq]%andb_true_iff].
  cbn [wanted existsb] in Hw. rewrite orb_false_r in Hw. apply String.eqb_eq in Hw. destruct E.
  unfold row_string_key in Ek. rewrite <-Hw in Ek. apply outpointKey_inj_pair in Ek as [E1 E2].
  destruct o, o'. cbn in *. congruence.
Qed.

Lemma omap_nil {X Y} (f : X → option Y) (l : list X) : (∀ x, x ∈ l → f x = None) → omap f l = [].
Proof.
  induction l as [|x l IH]; intros H; [done|]. cbn. rewrite (H x) by apply list_elem_of_here. apply IH. intros y Hy. apply H. by right.
Qed.

(** The view of a fill sees the source's carrier, and no other input's. *)
Lemma tokens_in_fill bs d st tokenId tx i :
  lockstep config bs d st → tx_ins tx !! 0%nat = Some i →
  (∀ j, j ∈ tail (tx_ins tx) → tokenUtxos st !! in_key j = None) →
  tokens_in (snapshot_view (loadCanonicalViewSnapshotFromDb d (toHex tokenId) [txin_outpoint i])) (tx_ins tx)
  = option_list (own_utxo st tokenId (txin_outpoint i))
  ∧ omap (λ i, tokenUtxos st !! in_key i) (tx_ins tx) = option_list (tokenUtxos st !! in_key i).
Proof.
  intros Hl Hi Hrest. destruct (tx_ins tx) as [|i' ins]; [done|]. injection Hi as ->. cbn [tail] in Hrest.
  unfold tokens_in. cbn [omap list_omap view_getTokenUtxo snapshot_view].
  pose proof (λ o', snapshot_at bs d st tokenId (txin_outpoint i) o' Hl) as Hsnap.
  rewrite (Hsnap (txin_outpoint i)), decide_True by done. rewrite !omap_nil; [by destruct (own_utxo _ _ _), (tokenUtxos st !! _)|done|].
  intros j Hj. rewrite Hsnap. case_decide as E; [|done]. specialize (Hrest _ Hj).
  unfold own_utxo. replace (opKey (txin_outpoint i)) with (in_key j); [by rewrite Hrest|]. unfold in_key, opKey.
  rewrite <-E. done.
Qed.

(** The carriers the indexer books for a fill. *)
Definition fill_carriers (terms : P2PFillTerms) (txid : string) (block : V3BlockInput) : list V3TokenUtxo :=
  carrier_utxo txid 1 (pt_tokenId terms) (pt_amountAtoms terms) (pt_buyerTokenScript terms) block
  :: (if 0 <? fill_change terms
      then [carrier_utxo txid 2 (pt_tokenId terms) (fill_change terms) (pt_sellerTokenChangeScript terms) block] else []).

Lemma fill_outputs terms tx txid block :
  fill_pays terms tx → Forall (allocation_fits tx) (fill_allocations terms) →
  transfer_outputs tx (fill_allocations terms) txid (pt_tokenId terms) block [] = inl (fill_carriers terms txid block).
Proof.
  intros [H1 H2 _ _ _ _] Hf. unfold fill_allocations, fill_carriers in *. apply Forall_cons in Hf as [(_ & s & Hp & Hs) Hf].
  cbn [transfer_outputs vout amount] in *. change (Z.to_nat 1) with 1%nat in *. change (1 <? 0) with false. unfold pays in *. rewrite H1 in Hp |- *. injection Hp as <-.
  rewrite (carrier_out_true _ Hs). cbn [negb txo_script]. destruct (0 <? _) eqn:Ec; [|done].
  apply Forall_cons in Hf as [(_ & s' & Hp & Hs2) _]. cbn [transfer_outputs vout amount] in *. change (Z.to_nat 2) with 2%nat in *. change (2 <? 0) with false.
  unfold pays in Hp. rewrite (H2 (proj1 (Z.ltb_lt _ _) Ec)) in Hp |- *. injection Hp as <-. by rewrite (carrier_out_true _ Hs2).
Qed.

Context (msg : string → string).

(** The transfer inside a validated fill, on the indexer's state. *)
Lemma fill_transfers bs d st tokenId params v tx t :
  let terms := pf_terms params in
  let source := {| op_txid := pt_sourceTxid terms; op_vout := pt_sourceVout terms |} in
  lockstep config bs d st → pt_tokenId terms = toHex tokenId →
  pf_view params = snapshot_view (loadCanonicalViewSnapshotFromDb d (pt_tokenId terms) [source]) →
  tx_fromHex (pf_rawTxHex params) = Some tx → (∃ i, tx_ins tx !! 0%nat = Some i ∧ txin_outpoint i = source) →
  decodeCoveOpReturnTx tx = Ok (TransferV2 t (fill_allocations terms)) →
  (∀ j, j ∈ tail (tx_ins tx) → tokenUtxos st !! in_key j = None) →
  final_transfer {| ft_rawTxHex := pf_rawTxHex params; ft_view := pf_view params;
                    ft_prevouts := Some (fill_prevouts terms); ft_maxMinerFeeSats := Some (pt_minerFeeSats terms) |} v →
  t = tokenId ∧ Forall (allocation_fits tx) (fill_allocations terms)
  ∧ ∃ u, tokenUtxos st !! opKey source = Some u ∧ tu_tokenId u = pt_tokenId terms
    ∧ tu_amountAtoms u = sum_allocations (fill_allocations terms)
    ∧ omap (λ i, tokenUtxos st !! in_key i) (tx_ins tx) = [u].
Proof.
  intros terms source Hl Et Ev Htx (i & Hi & Es) He Hrest (tx' & t' & l & Htx' & He' & Hall & Hne & Hsum & Hf & _ & _).
  cbn in *. rewrite Htx in Htx'. injection Htx' as <-. rewrite He in He'. injection He' as <- <-.
  rewrite Ev, Et in *. destruct (tokens_in_fill bs d st tokenId tx i Hl Hi Hrest) as [Etok Eom]. rewrite Es in Etok.
  rewrite Etok in *. change (in_key i) with (opKey (txin_outpoint i)) in Eom. rewrite Es in Eom. unfold own_utxo in *.
  destruct (tokenUtxos st !! opKey source) as [u|] eqn:Eu; [|done]. cbn [mbind option_bind] in *.
  destruct (String.eqb_spec (tu_tokenId u) (toHex tokenId)) as [Etu|]; [|done].
  unfold getTokenUtxo in *. fold (opKey source) in *. rewrite Eu in *. cbn in Hall, Hsum.
  apply Forall_cons in Hall as [Hall _]. cbn in Hall. rewrite Etu, fromHex_toHex in Hall.
  split_and!; [done|done|]. exists u. split_and!; try done. lia.
Qed.

(** C19: a validated fill settles.  A transaction that passes the final
    validation of a fill spends the source of the listing, hands the buyer the
    tokens and the seller the change, pays the seller the exact price and the
    market the exact fee, neither of them dust, and leaves nothing over but
    change of the buyer.  Its other inputs are funding coins of the terms; the
    miner gets at most the fee that was agreed, and exactly that fee where it
    spends every coin of the terms once (a transaction that leaves one out
    passes too).  When no funding coin carries tokens, the indexer applies it in
    any block: the source held just these tokens, it becomes the carriers of the
    two parties, and nothing else moves. *)
Theorem p2p_fill_settles bs d st tokenId params v :
  let terms := pf_terms params in
  let source := {| op_txid := pt_sourceTxid terms; op_vout := pt_sourceVout terms |} in
  lockstep config bs d st → pt_tokenId terms = toHex tokenId →
  pf_view params = snapshot_view (loadCanonicalViewSnapshotFromDb d (pt_tokenId terms) [source]) →
  validateFinalizedP2PFill msg params = Ok v →
  ∃ tx, tx_fromHex (pf_rawTxHex params) = Some tx ∧ vf_txid v = getId tx
  ∧ (∃ i, tx_ins tx !! 0%nat = Some i ∧ txin_outpoint i = source)
  ∧ fill_pays terms tx
  ∧ dustThreshold (pt_sellerPayoutScript terms) DUST_RELAY_FEE_SAT_PER_KVB ≤ pt_totalPriceSats terms
  ∧ dustThreshold (pt_feeScript terms) DUST_RELAY_FEE_SAT_PER_KVB ≤ pt_marketFeeSats terms
  ∧ (∃ fee, miner_gets terms tx fee ∧ 0 ≤ fee ≤ pt_minerFeeSats terms
     ∧ (spends_all_coins terms tx → fee = pt_minerFeeSats terms))
  ∧ ((∀ j, j ∈ tail (tx_ins tx) → tokenUtxos st !! in_key j = None) →
     ∃ u, tokenUtxos st !! opKey source = Some u ∧ tu_tokenId u = pt_tokenId terms
     ∧ tu_amountAtoms u = sum_allocations (fill_allocations terms)
     ∧ parseCoveTx (pf_rawTxHex params) = Cove (TransferV2 tokenId (fill_allocations terms))
     ∧ ∀ block, ∃ r st',
       applyCove config st (vf_txid v) (pf_rawTxHex params) (TransferV2 tokenId (fill_allocations terms)) block = Ok (r, st')
       ∧ ar_valid r = true ∧ tokens st' = tokens st ∧ backing st' = backing st
       ∧ tokenUtxos st' = set_utxos (fill_carriers terms (vf_txid v) block) (delete (opKey source) (tokenUtxos st))).
Proof.
  intros terms source Hl Et Ev (tx & i & t & base & Htx & Hi & Es & Hb & He & _ & Hp & Hd1 & Hd2 & Hm & _ & Eid)%validateFinalizedP2PFill_Ok.
  fold terms in Hp, Hm, He, Hd1, Hd2. apply validateFinalizedTransfer_Ok in Hb. exists tx.
  split_and!; [done|done|by exists i|done|done|done| |].
  { destruct Hb as (tx' & _ & _ & Htx' & _ & _ & _ & _ & _ & Hfee & _). cbn in Htx'. rewrite Htx in Htx'. injection Htx' as <-.
    destruct (Hfee _ eq_refl) as (total & Hres & Hpos & Hmax). exists (total - zsum (txo_value <$> tx_outs tx)).
    split_and!; [by exists total|done|exact Hmax|]. intros Hall. by rewrite (all_coins_worth _ _ _ Hres Hall). }
  intros Hrest.
  destruct (fill_transfers bs d st tokenId params base tx t Hl Et Ev Htx) as (-> & Hf & u & Eu & Etu & Ea & Eom); [by exists i|done..|].
  pose proof Hl as (U & Hh & _). pose proof (history_sound _ _ _ _ Hh) as [Hwf _ Hlv _ _ _ _].
  exists u. split_and!; [done..|by eapply decodeTx_parse|]. intros block.
  set (created := fill_carriers terms (vf_txid v) block).
  assert (cove_accepted config st (vf_txid v) (pf_rawTxHex params) (TransferV2 tokenId (fill_allocations terms)) block
    (accepted TRANSFER (toHex tokenId) (UndoTransfer (vf_txid v) [u] created) None)
    (with_tables st (tokens st) (backing st) (set_utxos created (delete_utxos [u] (tokenUtxos st))))) as [Hap Hv]%applyCove_accepted.
  { exists tx, [u], created. rewrite <-Et. split_and!; try done.
    - change (pt_tokenId terms) with (pt_tokenId (pf_terms params)). rewrite <-Etu.
      apply (wf_tokens _ _ Hwf). by eapply (uo_known _ _ (wf_utxos _ _ Hwf)).
    - by constructor.
    - by apply fill_outputs. }
  do 2 eexists. split_and!; [done..|]. cbn. unfold delete_utxos. cbn [foldl]. by rewrite (lo_keyed _ _ Hlv _ _ Eu).
Qed.
End View.
