(* ===== verification/MarketExamples.v ===== *)
(** * A sale

    A listing of the example chain's carrier of one lot, reserved, signed,
    broadcast, mined and reconciled; witnesses of the market's theorems. *)
From S2P Require Import Prelude Bytes Curve Economics Wire Covenant Vault Undo Indexer IndexerInv IndexerExamples Store StoreInv Hydrate Persistent Lockstep ReadInv PersistentExamples.
From S2P Require Import Spend Guardian GuardianInv Finalize FinalizeInv Builder GuardianExamples FinalizeExamples Order Market MarketService MarketInv MarketReconcile MarketSettle.

#[local] Existing Instance toy_crypto.
#[local] Existing Instance toy_bitcoin.
#[local] Existing Instance toy_locale.
#[local] Existing Instance toy_postgres.
#[local] Existing Instance toy_bitcoinjs.
#[local] Existing Instance toy_builder.

(** Every signature of the right form is accepted. *)
#[local] Instance toy_messages : MessageSigning := {|
  fromBase64Text s := if String.eqb s "signed" then witness_bytes [zeros 64] else [];
  hash160 b := b;
  p2pkh_output h := Ok h;
  getHash tx := zeros 32;
  messageHashV0 tx s v t := Ok (zeros 32);
  messageHashV1 tx s v t := Ok (zeros 32);
  signature_decode s := Ok (s, SIGHASH_ALL);
  ecdsa_verify h k s := Ok true;
|}.

(** The inputs of the sale, unsigned, signed by the buyer, signed by both. *)
Definition sale_input (txid : string) (vout : Z) (script : list byte) (value : Z) (sig : option (list byte)) : PsbtInput := {|
  psi_txin := toy_in txid vout; psi_sequence := None; psi_witnessUtxo := Some (toy_out script value);
  psi_redeemScript := None; psi_partialSig := None; psi_tapKeySig := sig; psi_tapInternalKey := None;
  psi_tapMerkleRoot := None; psi_tapLeafScript := None; psi_finalScriptWitness := None |}.

Definition sale_psbt (seller buyer : option (list byte)) : Psbt := {|
  psbt_inputs := [sale_input (toy_getId toy_transfer) 2 (toy_p2tr 6) 1000 seller; sale_input no_txid 11 (toy_p2tr 8) 157000 buyer];
  psbt_outputs := tx_outs toy_sale |}.

#[local] Instance toy_codec : PsbtCodec := {|
  psbt_fromBase64 s :=
    if String.eqb s "buyer-signed" then Ok (sale_psbt None (Some (zeros 64)))
    else if String.eqb s "both-signed" then Ok (sale_psbt (Some (zeros 64)) (Some (zeros 64)))
    else Throw (js_error "Invalid PSBT");
  psbt_toBase64 p := "unsigned"%string;
  unsigned_toBuffer u := mjoin (txo_script <$> utx_outs u);
  finalizeAllInputs p := Ok p;
  extractTransactionHex p := Ok "sale"%string;
|}.

Definition toy_listing : ListingV1 := {|
  orderVersion := 1; l_chainIdentity := "regtest"; l_tokenId := toHex toy_token;
  sellerTokenScript := toHex (toy_p2tr 6); sellerPayoutScript := toHex (toy_p2tr 6);
  sellerTokenChangeScript := toHex (toy_p2tr 6); sourceTxid := toy_getId toy_transfer; sourceVout := 2;
  sourceAmountAtoms := LOT; amountAtoms := LOT; totalPriceSats := 100000; creationHeight := 2; expiryHeight := 100;
  l_nonce := toHex (zeros 32) |}.

Definition toy_market : MarketConfig := defaultMarketConfig Regtest (toy_p2tr 9) (Some "regtest"%string).

(** A node on the first blocks, with or without the source unspent. *)
Definition toy_market_node (bs : list V3BlockInput) : MarketNode := {|
  mn_core := node_of bs;
  mn_getTxout txid vout :=
    Ok (if String.eqb txid (toy_getId toy_transfer) && (length bs =? 2)%nat
        then Some {| to_scriptPubKeyHex := toHex (toy_p2tr 6); to_valueSats := 1000 |} else None);
  mn_getBestHeight := Ok (Z.of_nat (length bs));
  mn_getRawTransaction txid := Throw (js_error "No such mempool transaction");
  mn_fees := {| getMempoolMinFeeSatPerVb := Ok 1; estimateFeeRateAt _ := Ok (Some 5) |};
  mn_broadcast := toy_node "regtest" (toy_getId toy_sale) |}.

Definition toy_reservation (id : string) : ReserveListingInput := {|
  ri_listingId := id; ri_buyerTokenScript := toHex (toy_p2tr 7); ri_buyerChangeScript := toHex (toy_p2tr 8);
  ri_buyerFundInputs := [{| bf_txid := no_txid; bf_vout := 11; bf_script := toHex (toy_p2tr 8); bf_valueSats := 157000 |}];
  ri_buyerFundPublicKey := Some (toHex (toy_key 8)); ri_reserveNonce := toHex (zeros 32); ri_signatureB64 := "signed" |}.

Definition toy_listing_id : string := get_ok ""%string (listingIdOf toy_listing).

(** The requests of a sale. *)
Definition toy_requests : list MarketOp := [
  OpCreate toy_listing "signed" (Some (toHex (toy_key 6)));
  OpReserve "fill" (toy_reservation toy_listing_id);
  OpBuild "fill" {| fe_feeRateSatPerVb := None; fe_minerFeeSats := Some 1500 |};
  OpBuyerSigned "fill" "buyer-signed";
  OpSellerSigned "fill" "both-signed";
  OpBroadcast "fill" ].

Definition toy_serve (d : V3Db) (bs : list V3BlockInput) (now : Z) (ops : list MarketOp) (m : MarketDb) : MarketDb :=
  foldl (λ m op, after_op toy_msg toy_market d (toy_market_node bs) now op m) m ops.

Lemma toy_serve_reachable d bs now ops m :
  market_reachable toy_msg toy_market m → market_reachable toy_msg toy_market (toy_serve d bs now ops m).
Proof.
  unfold toy_serve. revert m. induction ops as [|op ops IH]; intros m Hm; [done|]. cbn [foldl]. apply IH. by constructor.
Qed.

Definition toy_sold : MarketDb := toy_serve toy_world2.1 [pb1; pb2] 0 toy_requests empty_market.

(** The block of the sale, and the market after a reconciliation on it. *)
Definition ps3 : V3BlockInput := toy_block 3 (toy_hash_at 5) ["sale"%string].
Definition toy_world_sold : V3Db * V3IndexerState := toy_world [pb1; pb2; ps3].
Definition toy_reconciled : MarketDb * result MarketReport :=
  reconcileMarket toy_world_sold.1 (toy_market_node [pb1; pb2; ps3]) 0 toy_sold.

Lemma toy_sold_reachable : market_reachable toy_msg toy_market toy_sold.
Proof. apply toy_serve_reachable. constructor. Qed.

(** ** Witnesses *)
Definition dearer_listing : ListingV1 := {|
  orderVersion := 1; l_chainIdentity := "regtest"; l_tokenId := toHex toy_token;
  sellerTokenScript := toHex (toy_p2tr 6); sellerPayoutScript := toHex (toy_p2tr 6);
  sellerTokenChangeScript := toHex (toy_p2tr 6); sourceTxid := toy_getId toy_transfer; sourceVout := 2;
  sourceAmountAtoms := LOT; amountAtoms := LOT; totalPriceSats := 200000; creationHeight := 2; expiryHeight := 100;
  l_nonce := toHex (zeros 32) |}.

Lemma listing_id_binds_witness :
  let id := get_ok ""%string (listingIdOf dearer_listing) in
  (toy_listing_id = id → same_order toy_listing dearer_listing
     ∨ ∃ b c, clash sha256 (order_preimage LISTING_DOMAIN b) (order_preimage LISTING_DOMAIN c))
  ∧ (same_order toy_listing dearer_listing → toy_listing_id = id).
Proof. intros id. apply (listing_id_binds toy_listing dearer_listing); vm_compute; reflexivity. Defined.

Lemma market_exclusive_witness :
  (fl_status <$> md_fills toy_sold) = [FBroadcast]
  ∧ ∀ f g, f ∈ md_fills toy_sold → g ∈ md_fills toy_sold → fl_listingId f = fl_listingId g →
      engaged (fl_status f) = true → engaged (fl_status g) = true → f = g.
Proof.
  split; [vm_compute; reflexivity|]. apply (market_exclusive toy_msg toy_market toy_sold), toy_sold_reachable.
Defined.

Lemma toy_reconciled_Ok : is_ok toy_reconciled.2 = true.
Proof. vm_compute. reflexivity. Qed.

Definition no_report : MarketReport := {| mr_expired := 0; mr_invalidated := 0; mr_confirmed := 0; mr_reorged := 0 |}.

Lemma toy_reconcile_run :
  reconcileMarket toy_world_sold.1 (toy_market_node [pb1; pb2; ps3]) 0 toy_sold
  = (toy_reconciled.1, Ok (get_ok no_report toy_reconciled.2)).
Proof.
  pose proof toy_reconciled_Ok as H. unfold toy_reconciled in *.
  destruct (reconcileMarket _ _ _ _) as [m [r|]]; [done|discriminate H].
Qed.

Lemma reconcile_sound_witness :
  (mt_txid <$> md_trades toy_reconciled.1) = [toy_getId toy_sale]
  ∧ ∀ t, t ∈ md_trades toy_reconciled.1 → mt_canonical t = true →
    ∃ f, f ∈ md_fills toy_reconciled.1 ∧ fl_status f = FConfirmed ∧ fl_txid f = Some (mt_txid t)
      ∧ sold toy_world_sold.1 toy_reconciled.1 f.
Proof.
  split; [vm_compute; reflexivity|].
  apply (reconcile_sound toy_msg toy_market _ _ _ _ _ _ toy_sold_reachable toy_reconcile_run).
Defined.

Lemma reconcile_progress_witness :
  (fl_status <$> md_fills toy_reconciled.1) = [FConfirmed]
  ∧ ∀ x, x ∈ md_fills toy_sold → fl_status x = FBroadcast → sold toy_world_sold.1 toy_sold x →
    confirmed_as toy_reconciled.1 x ∧ ∃ t, t ∈ md_trades toy_reconciled.1 ∧ mt_canonical t = true ∧ fl_txid x = Some (mt_txid t).
Proof.
  split; [vm_compute; reflexivity|].
  apply (reconcile_progress toy_msg toy_market _ _ _ _ _ _ toy_sold_reachable toy_reconcile_run).
Defined.

Definition toy_row : ListingRow := {|
  lr_listingId := toy_listing_id; lr_order := toy_listing; lr_signatureB64 := "signed";
  lr_sellerTokenPublicKey := None; lr_status := LReserved |}.
Definition toy_fill : FillRow := with_built_psbt "unsigned" "" 1500 0 7500 (new_fill toy_market 0 "fill" (toy_reservation toy_listing_id) toy_row 7500).
Definition toy_fill_params : P2PFillValidationParams := {|
  pf_rawTxHex := "sale"; pf_terms := buildTerms toy_market toy_row toy_fill;
  pf_view := loadView toy_world2.1 (toHex toy_token) (toy_getId toy_transfer) 2; pf_network := Regtest |}.
Definition toy_fill_valid : ValidatedP2PFill := {|
  vf_validatedTransfer := validated "sale" (toy_getId toy_sale) TRANSFER (toHex toy_token); vf_txid := toy_getId toy_sale;
  vf_listingId := toy_listing_id; vf_fillId := "fill"; vf_tokenId := toHex toy_token;
  vf_validationDigest := toHex (sha256 (fromHex "sale")) |}.

Definition toy_terms : P2PFillTerms := pf_terms toy_fill_params.

Lemma p2p_fill_settles_witness :
  fill_allocations toy_terms = [Alloc 1 LOT] ∧ miner_gets toy_terms toy_sale (pt_minerFeeSats toy_terms)
  ∧ ∃ r st',
    applyCove toy_config toy_world2.2 (vf_txid toy_fill_valid) "sale" (TransferV2 toy_token (fill_allocations toy_terms)) ps3 = Ok (r, st')
    ∧ ar_valid r = true
    ∧ tokenUtxos st' = set_utxos (fill_carriers toy_terms (vf_txid toy_fill_valid) ps3)
        (delete (opKey {| op_txid := pt_sourceTxid toy_terms; op_vout := pt_sourceVout toy_terms |}) (tokenUtxos toy_world2.2)).
Proof.
  split; [vm_compute; reflexivity|].
  destruct (p2p_fill_settles toy_config toy_msg [pb1; pb2] toy_world2.1 toy_world2.2 toy_token toy_fill_params toy_fill_valid
    toy_lockstep2) as (tx & Htx & _ & _ & _ & _ & _ & (fee & Hfee & _ & Hall) & H); [vm_compute; reflexivity..|].
  assert (tx = toy_sale) as -> by (vm_compute in Htx |- *; congruence).
  assert (fee = pt_minerFeeSats toy_terms) as ->.
  { apply Hall. unfold spends_all_coins. vm_compute. first [reflexivity|constructor]. }
  split; [exact Hfee|]. destruct H as (u & _ & _ & _ & _ & H).
  - intros j [->|[]%elem_of_nil]%elem_of_cons. vm_compute. reflexivity.
  - destruct (H ps3) as (r & st' & Ha & Hv & _ & _ & Hu). exists r, st'. split_and!; [exact Ha|exact Hv|exact Hu].
Defined.
