(* ===== verification/Greedy.v ===== *)
(** * Choosing the fewest coins: lists sorted by value

    [Array.prototype.sort] with a comparator, and what taking a prefix of a
    list sorted by decreasing value achieves: no other choice of as many
    elements is worth more.  The wallet's coins and its token carriers are both
    chosen this way. *)
From S2P Require Import Prelude.

(** ** [l.sort(cmp)], where [lt a b] is [cmp(a, b) < 0] *)
Section Sort.
Context {A : Type} (lt : A → A → bool).

Fixpoint insert_before (x : A) (l : list A) : list A :=
  match l with [] => [x] | y :: l' => if lt x y then x :: l else y :: insert_before x l' end.

Definition js_sort (l : list A) : list A := foldl (λ acc x, insert_before x acc) [] l.

Lemma insert_before_perm x l : insert_before x l ≡ₚ x :: l.
Proof. induction l as [|y l IH]; cbn; [done|]. destruct (lt x y); [done|]. rewrite IH. apply Permutation_swap. Qed.

Lemma js_sort_perm l : js_sort l ≡ₚ l.
Proof.
  unfold js_sort. rewrite <- (app_nil_r l) at 2. generalize (@nil A) as acc.
  induction l as [|x l IH]; intros acc; cbn; [done|]. rewrite IH, insert_before_perm. by rewrite Permutation_middle.
Qed.

Context (v : A → Z).
Context (Hlt : ∀ a b, lt a b = true → v b ≤ v a) (Hge : ∀ a b, lt a b = false → v a ≤ v b).

(** From the most valuable element to the least. *)
Definition descending : list A → Prop := StronglySorted (λ a b, v b ≤ v a).

Lemma insert_before_descending x l : descending l → descending (insert_before x l).
Proof using Hlt Hge.
  unfold descending. induction l as [|y l IH]; intros Hs; cbn; [by repeat constructor|].
  apply StronglySorted_inv in Hs as [Hs Hy]. destruct (lt x y) eqn:E.
  - apply Hlt in E. constructor; [by constructor|]. constructor; [done|].
    eapply Forall_impl; [exact Hy|]. cbn. lia.
  - apply Hge in E. constructor; [by apply IH|]. rewrite insert_before_perm. by constructor.
Qed.

Lemma js_sort_descending l : descending (js_sort l).
Proof using Hlt Hge.
  unfold js_sort. assert (descending []) as H by constructor. revert H. generalize (@nil A) as acc.
  induction l as [|x l IH]; intros acc H; cbn; [done|]. by apply IH, insert_before_descending.
Qed.
End Sort.

(** ** The value of a choice *)
Section Greedy.
Context {A : Type} (v : A → Z).

Definition worth (l : list A) : Z := zsum (v <$> l).

Lemma worth_cons x l : worth (x :: l) = v x + worth l.
Proof. done. Qed.

Lemma worth_perm l l' : l ≡ₚ l' → worth l = worth l'.
Proof. induction 1; rewrite ?worth_cons; lia. Qed.

Lemma worth_app l l' : worth (l ++ l') = worth l + worth l'.
Proof. induction l as [|x l IH]; [done|]. rewrite <- app_comm_cons, !worth_cons, IH. lia. Qed.

Lemma foldl_worth l acc : foldl (λ s x, s + v x) acc l = acc + worth l.
Proof. revert acc. induction l as [|x l IH]; intros acc; cbn [foldl]; [cbn; lia|]. rewrite IH, worth_cons. lia. Qed.

Lemma worth_head_bound x n l : Forall (λ y, v y ≤ x) l → (S n ≤ length l)%nat → worth (take (S n) l) ≤ x + worth (take n l).
Proof.
  revert n. induction l as [|y l IH]; intros n Hf Hn; cbn in Hn; [lia|].
  inversion Hf as [|?? Hy Hl]; subst. destruct n as [|n]; rewrite ?firstn_cons, ?worth_cons; [rewrite !take_0; lia|].
  pose proof (IH n Hl ltac:(lia)). lia.
Qed.

(** No choice of elements of a descending list is worth more than as many of
    its first elements. *)
Lemma sublist_worth l k : descending v l → k `sublist_of` l → worth k ≤ worth (take (length k) l).
Proof.
  intros Hs Hk. induction Hk as [|x k l Hk IH|x k l Hk IH]; [done| |];
    apply StronglySorted_inv in Hs as [Hs Hx]; specialize (IH Hs).
  - cbn [length]. rewrite firstn_cons, !worth_cons. lia.
  - destruct k as [|y k]; [done|]. cbn [length] in *. rewrite firstn_cons, (worth_cons x).
    pose proof (worth_head_bound (v x) (length k) l Hx) as H. apply sublist_length in Hk. cbn in Hk. specialize (H Hk). lia.
Qed.

Lemma greedy_best l k : descending v l → k ⊆+ l → worth k ≤ worth (take (length k) l).
Proof.
  intros Hs Hk. apply submseteq_sublist_r in Hk as (k' & Hp & Hk).
  rewrite (worth_perm _ _ Hp), (Permutation_length Hp). by apply sublist_worth.
Qed.
End Greedy.

(** ** Parts of a list *)
Lemma descending_sublist {A} (v : A → Z) l k : descending v l → k `sublist_of` l → descending v k.
Proof.
  unfold descending. intros Hs Hk. induction Hk as [|x k l Hk IH|x k l Hk IH]; [done| |];
    apply StronglySorted_inv in Hs as [Hs Hx]; [|by apply IH].
  constructor; [by apply IH|]. rewrite Forall_forall in Hx |- *. intros y Hy. apply Hx. by eapply elem_of_sublist.
Qed.

(** What holds nothing of [x] is part of the rest. *)
Lemma submseteq_without {A} (x : A) l k : l ⊆+ x :: k → x ∉ l → l ⊆+ k.
Proof.
  intros H Hx. apply submseteq_cons_r in H as [H|(l' & Hp & _)]; [done|].
  exfalso. apply Hx. rewrite Hp. apply list_elem_of_here.
Qed.
