(* ===== verification/AppFunding.v ===== *)
(** * Wallets and funding: packages/cove-app/src

    wallet-identity.ts (the two addresses of a wallet), funding.ts (resolving
    the coins a browser names), fees.ts (the size of the transaction an
    operation makes), the selection of coins and of token carriers of
    service.ts, and [walletDeltaSats] of psbt.ts.

    What the node and the ord server answer stands still during one
    selection. *)
From S2P Require Import Prelude Bytes Greedy Curve Economics Wire Covenant Vault Indexer Store Hydrate Spend AppConfig.

(** A text that JavaScript takes for true. *)
Definition truthy (s : option string) : option string := match s with Some EmptyString => None | s => s end.

(** ** wallet-identity.ts *)
Record WalletRole := { wr_script : string; wr_publicKey : option string }.
Record WalletIdentity := { wi_payments : WalletRole; wi_ordinals : WalletRole }.

Record ResolvedRole := {
  rr_script : string; rr_publicKey : option string; rr_kind : SpendKind; rr_scriptBuffer : list byte;
  rr_publicKeyBuffer : option (list byte)
}.
Record ResolvedWalletIdentity := { rw_payments : ResolvedRole; rw_ordinals : ResolvedRole; rw_scripts : list string }.

(** [/^[0-9a-f]{66}$|^[0-9a-f]{64}$/i] *)
Definition is_public_key (k : string) : bool :=
  ((String.length k =? 66)%nat || (String.length k =? 64)%nat) && string_forallb is_hex_digit k.

Definition resolveRole (role : WalletRole) (label : string) : result ResolvedRole :=
  throw_if (negb (is_any_hex (wr_script role)) || (String.length (wr_script role) <? 4)%nat)
    (AppError "FUNDING_INPUT_INVALID" (label +:+ " script is not hex"));;
  let scriptBuffer := fromHex (wr_script role) in
  kind ← of_option (AppError "WALLET_UNSUPPORTED" (label +:+ " address type is not supported; Cove can spend native segwit, "
                    +:+ "nested segwit and Taproot")) (spendKindOf scriptBuffer);
  throw_if (match kind with KindP2wpkh => false | _ => bool_decide (truthy (wr_publicKey role) = None) end)
    (AppError "WALLET_UNSUPPORTED" ("a " +:+ kind_name kind +:+ " " +:+ label
       +:+ " address needs its public key, which the wallet did not supply"));;
  throw_if (match truthy (wr_publicKey role) with Some k => negb (is_public_key k) | None => false end)
    (AppError "WALLET_UNSUPPORTED" (label +:+ " public key is not a 32 or 33-byte hex key"));;
  Ok {| rr_script := toLowerCase (wr_script role); rr_publicKey := wr_publicKey role; rr_kind := kind;
        rr_scriptBuffer := scriptBuffer; rr_publicKeyBuffer := fromHex <$> truthy (wr_publicKey role) |}.

Definition resolveWalletIdentity (identity : WalletIdentity) : result ResolvedWalletIdentity :=
  payments ← resolveRole (wi_payments identity) "payment";
  ordinals ←
    if String.eqb (toLowerCase (wr_script (wi_ordinals identity))) (toLowerCase (wr_script (wi_payments identity)))
    then Ok payments else resolveRole (wi_ordinals identity) "ordinals";
  Ok {| rw_payments := payments; rw_ordinals := ordinals;
        rw_scripts := rr_script payments ::
          (if String.eqb (rr_script ordinals) (rr_script payments) then [] else [rr_script ordinals]) |}.

(** The fields of a request that name the wallet. *)
Record WalletFields := {
  wf_walletScript : option string; wf_walletPublicKey : option string; wf_ordinalsScript : option string;
  wf_ordinalsPublicKey : option string
}.

Definition walletIdentityFrom (input : WalletFields) : WalletIdentity :=
  let paymentsScript := default ""%string (wf_walletScript input) in
  {| wi_payments := {| wr_script := paymentsScript; wr_publicKey := wf_walletPublicKey input |};
     wi_ordinals :=
       match truthy (wf_ordinalsScript input) with
       | Some s => {| wr_script := s; wr_publicKey := wf_ordinalsPublicKey input |}
       | None => {| wr_script := paymentsScript; wr_publicKey := wf_walletPublicKey input |}
       end |}.

(** ** fees.ts *)
Inductive CoveOperation := DEPLOY | BACKING_BUY | REDEEM | TRANSFER.

Definition OP_RETURN_SCRIPT_BYTES (op : CoveOperation) : Z :=
  match op with DEPLOY => 50 | BACKING_BUY => 47 | REDEEM => 56 | TRANSFER => 75 end.

Definition DISCOVERY_SCRIPT_BYTES : Z := 75.

(** The wallet's scripts are counted in hex digits: their lengths in bytes are
    [script.length / 2], a fraction when a client sends an odd number. *)
Record OperationShapeInput := {
  os_fundingInputs : Z; os_fundingKind : option SpendKind; os_tokenInputs : option Z; os_tokenKind : option SpendKind;
  os_walletScriptDigits : Z; os_ordinalsScriptDigits : option Z; os_feeScriptBytes : Z;
  os_recipientCarriers : option Z; os_discovery : option bool
}.

Record InputTally := { ty_p2wpkh : Z; ty_p2tr : Z; ty_p2sh : Z }.

Definition tally (into : InputTally) (count : Z) (kind : option SpendKind) : InputTally :=
  if count <=? 0 then into else
  match default KindP2wpkh kind with
  | KindP2tr => {| ty_p2wpkh := ty_p2wpkh into; ty_p2tr := ty_p2tr into + count; ty_p2sh := ty_p2sh into |}
  | KindP2shP2wpkh => {| ty_p2wpkh := ty_p2wpkh into; ty_p2tr := ty_p2tr into; ty_p2sh := ty_p2sh into + count |}
  | KindP2wpkh => {| ty_p2wpkh := ty_p2wpkh into + count; ty_p2tr := ty_p2tr into; ty_p2sh := ty_p2sh into |}
  end.

(** The script lengths of the outputs, in hex digits. *)
Definition operation_outputs (op : CoveOperation) (input : OperationShapeInput) : list Z :=
  let wallet := os_walletScriptDigits input in
  let carrier := default wallet (os_ordinalsScriptDigits input) in
  let fee := 2 * os_feeScriptBytes input in
  let p2tr := 2 * SCRIPT_BYTES_P2TR in
  2 * OP_RETURN_SCRIPT_BYTES op ::
  match op with
  | DEPLOY => [p2tr; wallet; wallet]
  | BACKING_BUY => [p2tr; carrier; fee; p2tr; wallet] ++ (if default false (os_discovery input) then [2 * DISCOVERY_SCRIPT_BYTES] else [])
  | REDEEM => [p2tr; wallet; fee; carrier; wallet]
  | TRANSFER => replicate (Z.to_nat (default 1 (os_recipientCarriers input))) carrier ++ [carrier; wallet]
  end.

Definition operation_inputs (input : OperationShapeInput) : InputTally :=
  tally (tally {| ty_p2wpkh := 0; ty_p2tr := 0; ty_p2sh := 0 |} (os_fundingInputs input) (os_fundingKind input))
    (default 0 (os_tokenInputs input)) (os_tokenKind input).

(** The estimate without the outputs' scripts, and then half a byte for each
    digit: [Math.ceil], which [resolveMinerFee] applies, is taken here. *)
Definition estimateOperationVsize (op : CoveOperation) (input : OperationShapeInput) : Z :=
  let inputs := operation_inputs input in
  let outputs := operation_outputs op input in
  let empty := estimateVsize {|
    vaultInputs := match op with BACKING_BUY | REDEEM => 1 | _ => 0 end;
    p2wpkhInputs := ty_p2wpkh inputs; p2trInputs := Some (ty_p2tr inputs); p2shP2wpkhInputs := Some (ty_p2sh inputs);
    outputScriptBytes := (λ _, 0) <$> outputs |} in
  empty + Z.quot (zsum outputs + 1) 2.

(** ** funding.ts *)
Notation FundingCandidate := OutPoint.

Record AppTxOut := { at_scriptPubKeyHex : string; at_valueSats : Z; at_confirmations : Z }.

Record ResolvedFunding := {
  rg_txid : string; rg_vout : Z; rg_script : list byte; rg_valueSats : Z; rg_confirmations : Z
}.

Definition coin_name (txid : string) (vout : Z) : string := txid +:+ ":" +:+ pretty vout.

Section Resolve.
Context (getTxout : string → Z → result (option AppTxOut)).

Definition resolveFundingUtxo (c : FundingCandidate) : result ResolvedFunding :=
  txout ← getTxout (op_txid c) (op_vout c);
  txout ← of_option (AppError "FUNDING_INPUT_SPENT" ("input " +:+ coin_name (op_txid c) (op_vout c) +:+ " is spent or unknown")) txout;
  Ok {| rg_txid := op_txid c; rg_vout := op_vout c; rg_script := fromHex (at_scriptPubKeyHex txout);
        rg_valueSats := at_valueSats txout; rg_confirmations := at_confirmations txout |}.

(** [Promise.all]: of the rejections, the first in the list stands for the one
    that comes first. *)
Fixpoint resolveFundingUtxos (candidates : list FundingCandidate) : result (list ResolvedFunding) :=
  match candidates with
  | [] => Ok []
  | c :: rest => r ← resolveFundingUtxo c; rs ← resolveFundingUtxos rest; Ok (r :: rs)
  end.
End Resolve.

(** The comparator: [coin_before a b] is [cmp(a, b) < 0]. *)
Definition coin_before (a b : ResolvedFunding) : bool :=
  if negb (rg_valueSats a =? rg_valueSats b) then rg_valueSats b <? rg_valueSats a
  else if negb (String.eqb (rg_txid a) (rg_txid b)) then String.ltb (rg_txid a) (rg_txid b)
  else rg_vout a <? rg_vout b.

Definition sort_coins : list ResolvedFunding → list ResolvedFunding := js_sort coin_before.

Fixpoint select_until (coins : list ResolvedFunding) (required : Z) (selected : list ResolvedFunding) (sum : Z)
    : result (list ResolvedFunding) :=
  match coins with
  | [] => Throw (AppError "INSUFFICIENT_BTC" ("wallet has " +:+ pretty sum +:+ " sats but " +:+ pretty required +:+ " required"))
  | u :: rest =>
      let selected := selected ++ [u] in
      let sum := sum + rg_valueSats u in
      if required <=? sum then Ok selected else select_until rest required selected sum
  end.

Definition selectFunding (utxos : list ResolvedFunding) (requiredSats : Z) : result (list ResolvedFunding) :=
  select_until (sort_coins utxos) requiredSats [] 0.

(** ** psbt.ts *)
Definition walletDeltaSats (psbt : Psbt) (walletScriptsHex : list string) : Z :=
  let mine := toLowerCase <$> walletScriptsHex in
  let owned (script : list byte) := bool_decide (toHex script ∈ mine) in
  let into := foldl (λ sum out, if owned (txo_script out) then sum + txo_value out else sum) 0 (psbt_outputs psbt) in
  let outOf := foldl (λ sum input, match psi_witnessUtxo input with
                                   | Some u => if owned (txo_script u) then sum + txo_value u else sum
                                   | None => sum
                                   end) 0 (psbt_inputs psbt) in
  into - outOf.

(** ** service.ts: resolveFundingAndFee *)
Record FundingParams := {
  fp_op : CoveOperation; fp_wallet : ResolvedWalletIdentity; fp_candidates : list FundingCandidate;
  fp_targetSats : Z; fp_tokenInputs : option Z; fp_recipientCarriers : option Z; fp_discovery : option bool;
  fp_feeRateSatPerVb : option Z; fp_explicitMinerFeeSats : option Z
}.

Record FundingChoice := { fc_inputs : list SpendableInput; fc_price : ResolvedMinerFee }.

(** What the fee rates and the fee destination are, as the build reads them. *)
Record FeeContext := { fx_rates : FeeRates; fx_feeScript : list byte; fx_maxMinerFeeSats : Z }.

Definition is_tag_char (c : ascii) : bool :=
  let n := Z.of_N (N_of_ascii c) in ((65 <=? n) && (n <=? 90)) || (n =? 95).

(** [e.message.replace(/^\[[A-Z_]+\]\s*/, "")] *)
Fixpoint after_tag (seen : bool) (s : string) : option string :=
  match s with
  | String c s => if is_tag_char c then after_tag true s else if seen && Ascii.eqb c "]" then Some s else None
  | EmptyString => None
  end.
Definition strip_tag (message : string) : string :=
  match message with
  | String "[" s =>
      match after_tag false s with Some s => of_utf8 (trim_with space2 space3 (utf8 s)) | None => message end
  | _ => message
  end.

(** [if (e instanceof FeeError) throw new AppError(...)] *)
Definition fee_to_app (e : exn) : exn :=
  match exn_class e, exn_code e with
  | EFeeError, Some code => AppError code (strip_tag (exn_message e))
  | _, _ => e
  end.

Definition is_standard (t : FeeTier) : bool := match ft_key t with Standard => true | _ => false end.

(** [params.feeRateSatPerVb ?? (explicit === undefined ? standard.satPerVb : undefined)] *)
Definition chosen_rate (rates : FeeRates) (rate explicit : option Z) : result (option Z) :=
  match rate, explicit with
  | Some r, _ => Ok (Some r)
  | None, Some _ => Ok None
  | None, None =>
      standard ← of_option undefined_prop
        (match List.find is_standard (fr_tiers rates) with Some t => Some t | None => head (fr_tiers rates) end);
      Ok (Some (ft_satPerVb standard))
  end.

Definition operation_shape (x : FeeContext) (params : FundingParams) (fundingInputs : Z) : OperationShapeInput :=
  let w := fp_wallet params in {|
  os_fundingInputs := fundingInputs; os_fundingKind := Some (rr_kind (rw_payments w)); os_tokenInputs := fp_tokenInputs params;
  os_tokenKind := Some (rr_kind (rw_ordinals w));
  os_walletScriptDigits := Z.of_nat (String.length (rr_script (rw_payments w)));
  os_ordinalsScriptDigits := Some (Z.of_nat (String.length (rr_script (rw_ordinals w))));
  os_feeScriptBytes := blen (fx_feeScript x); os_recipientCarriers := fp_recipientCarriers params;
  os_discovery := fp_discovery params |}.

Definition priceAt (x : FeeContext) (params : FundingParams) (rate : option Z) (fundingInputs : nat) : result ResolvedMinerFee :=
  try_catch
    (resolveMinerFee {| rm_rateSatPerVb := rate; rm_explicitSats := fp_explicitMinerFeeSats params;
       rm_vsize := estimateOperationVsize (fp_op params) (operation_shape x params (Z.of_nat fundingInputs));
       rm_floorSatPerVb := fr_floorSatPerVb (fx_rates x); rm_ceilingSatPerVb := fr_ceilingSatPerVb (fx_rates x);
       rm_maxMinerFeeSats := fx_maxMinerFeeSats x |})
    (λ e, Throw (fee_to_app e)).

(** The transitions of a vault. *)
Definition vault_op (op : CoveOperation) : bool := match op with BACKING_BUY | REDEEM => true | _ => false end.

Definition usable_coins (op : CoveOperation) (resolved : list ResolvedFunding) : list ResolvedFunding :=
  if vault_op op then List.filter (λ f, 1 <=? rg_confirmations f) resolved else resolved.
Definition pending_coins (op : CoveOperation) (resolved : list ResolvedFunding) : list ResolvedFunding :=
  if vault_op op then List.filter (λ f, rg_confirmations f <? 1) resolved else [].

Definition coin_outpoint (f : ResolvedFunding) : OutPoint := {| op_txid := rg_txid f; op_vout := rg_vout f |}.

Section Pick.
Context (assets : option (OutPoint → result (option string))) (price : nat → result ResolvedMinerFee) (target : Z).

Definition assetsAt (o : OutPoint) : result (option string) :=
  match assets with
  | None => Ok None
  | Some describeAssets =>
      try_catch (describeAssets o)
        (λ e, Throw (AppError "FUNDING_CHECK_UNAVAILABLE" ("could not check " +:+ coin_name (op_txid o) (op_vout o)
                       +:+ " for inscriptions and runes: " +:+ exn_message e)))
  end.

(** The shortest beginning of the coins that covers the target and the fee for
    as many inputs; [n] coins worth [sum] come before. *)
Fixpoint covering_prefix (n : nat) (sum : Z) (coins : list ResolvedFunding) : result (option (nat * ResolvedMinerFee)) :=
  match coins with
  | [] => Ok None
  | u :: rest =>
      let sum := sum + rg_valueSats u in
      priced ← price (S n);
      if target + rf_minerFeeSats priced <=? sum then Ok (Some (S n, priced)) else covering_prefix (S n) sum rest
  end.

(** The first of the chosen coins that holds anything besides BTC. *)
Fixpoint first_held (i : nat) (chosen : list ResolvedFunding) : result (option (nat * string)) :=
  match chosen with
  | [] => Ok None
  | f :: rest =>
      held ← assetsAt (coin_outpoint f);
      match truthy held with
      | Some h => Ok (Some (i, coin_name (rg_txid f) (rg_vout f) +:+ " (" +:+ h +:+ ")"))
      | None => first_held (S i) rest
      end
  end.

Inductive PickOutcome :=
  | Picked (chosen : list ResolvedFunding) (priced : ResolvedMinerFee)
  | TooShort (chosen : list ResolvedFunding) (skippedAssets : list string).

(** [pick: for (;;)]: each round drops one coin or is the last. *)
Fixpoint pick (fuel : nat) (sorted : list ResolvedFunding) (skipped : list string) : result PickOutcome :=
  match fuel with
  | O => Throw out_of_fuel
  | S fuel =>
      found ← covering_prefix 0 0 sorted;
      match found with
      | None => Ok (TooShort sorted skipped)
      | Some (n, priced) =>
          held ← first_held 0 (take n sorted);
          match held with
          | Some (i, name) => pick fuel (delete i sorted) (skipped ++ [name])
          | None => Ok (Picked (take n sorted) priced)
          end
      end
  end.
End Pick.

Definition coins_value (coins : list ResolvedFunding) : Z := foldl (λ a f, a + rg_valueSats f) 0 coins.

(** The text of the refusal. *)
Definition insufficient_btc (params : FundingParams) (chosen pending : list ResolvedFunding) (skipped : list string)
    (shortfall : ResolvedMinerFee) : exn :=
  let need := fp_targetSats params + rf_minerFeeSats shortfall in
  let twoAddress := negb (String.eqb (rr_script (rw_payments (fp_wallet params))) (rr_script (rw_ordinals (fp_wallet params)))) in
  AppError "INSUFFICIENT_BTC"
    ("Your payment address has " +:+ pretty (coins_value chosen) +:+ " usable sats; this needs " +:+ pretty need +:+ " ("
     +:+ pretty (fp_targetSats params) +:+ " for the trade, " +:+ pretty (rf_minerFeeSats shortfall) +:+ " network fee at "
     +:+ pretty (rf_effectiveSatPerVb shortfall) +:+ " sat/vB)."
     +:+ (if (0 <? length pending)%nat
          then " Another " +:+ pretty (coins_value pending) +:+ " sats are still unconfirmed; mints and sales use only confirmed BTC, so wait for your last transaction to confirm."
          else "")
     +:+ (if (0 <? length skipped)%nat
          then " Skipped coins holding inscriptions or runes: " +:+ String.concat ", " skipped +:+ "." else "")
     +:+ (if twoAddress
          then " Cove pays only from your wallet's payment (BTC) address, not its token (taproot) address — send BTC there first."
          else "")).

Section Funding.
Context {PG : Postgres}.
Context (getTxout : string → Z → result (option AppTxOut)) (d : V3Db)
  (assets : option (OutPoint → result (option string))) (x : FeeContext).

Definition toInput (params : FundingParams) (f : ResolvedFunding) : SpendableInput :=
  {| si_txid := rg_txid f; si_vout := rg_vout f; si_script := rg_script f; si_valueSats := rg_valueSats f;
     si_publicKey := rr_publicKeyBuffer (rw_payments (fp_wallet params)) |}.

(** The coins offered, all of the payment address and none a token carrier. *)
Definition offered_coins (params : FundingParams) : result (list ResolvedFunding) :=
  resolved ← resolveFundingUtxos getTxout (fp_candidates params);
  throw_if (existsb (λ f, negb (String.eqb (toHex (rg_script f)) (rr_script (rw_payments (fp_wallet params))))) resolved)
    (AppError "FUNDING_INPUT_INVALID" "funding input script does not match wallet");;
  match getLiveTokenUtxosAtDb d ((λ c, (op_txid c, op_vout c)) <$> fp_candidates params) with
  | [] => Ok resolved
  | c :: _ => Throw (AppError "FUNDING_INPUT_IS_TOKEN" ("funding input " +:+ coin_name (ur_txid c) (ur_vout c)
                       +:+ " holds tokens and cannot pay for a trade"))
  end.

Definition resolveFundingAndFee (params : FundingParams) : result FundingChoice :=
  resolved ← offered_coins params;
  rate ← chosen_rate (fx_rates x) (fp_feeRateSatPerVb params) (fp_explicitMinerFeeSats params);
  let price := priceAt x params rate in
  let sorted := sort_coins (usable_coins (fp_op params) resolved) in
  noFunding ← price 0%nat;
  if fp_targetSats params + rf_minerFeeSats noFunding <=? 0 then Ok {| fc_inputs := []; fc_price := noFunding |}
  else
    outcome ← pick assets price (fp_targetSats params) (S (length sorted)) sorted [];
    match outcome with
    | Picked chosen priced => Ok {| fc_inputs := toInput params <$> chosen; fc_price := priced |}
    | TooShort chosen skipped =>
        shortfall ← price (Nat.max 1 (length chosen));
        Throw (insufficient_btc params chosen (pending_coins (fp_op params) resolved) skipped shortfall)
    end.
End Funding.

(** ** service.ts: the token carriers a redemption or a transfer spends *)
Definition MAX_REDEEM_TOKEN_INPUTS : nat := 4.
Definition MAX_TRANSFER_TOKEN_INPUTS : nat := 4.

Definition carrier_before (a b : UtxoRow) : bool :=
  if negb (ur_amountAtoms a =? ur_amountAtoms b) then ur_amountAtoms b <? ur_amountAtoms a
  else String.ltb (ur_txid a) (ur_txid b).

(** [if (running >= amount) break; if (selected.length >= max) break; ...] *)
Fixpoint take_carriers (max : nat) (amount running : Z) (sorted : list UtxoRow) {struct sorted} : list UtxoRow * Z :=
  match sorted with
  | [] => ([], running)
  | u :: rest =>
      if amount <=? running then ([], running)
      else match max with
           | O => ([], running)
           | S max => let '(selected, total) := take_carriers max amount (running + ur_amountAtoms u) rest in (u :: selected, total)
           end
  end.

Definition spread_too_wide (max : nat) (running amount : Z) (what : string) : exn :=
  AppError "TOKEN_AMOUNT_INVALID"
    ("balance is spread across too many outputs: the " +:+ pretty (Z.of_nat max) +:+ " largest hold "
     +:+ pretty running +:+ " atoms, short of " +:+ pretty amount +:+ ". " +:+ what).

Definition select_carriers (max : nat) (what : string) (amount : Z) (mine : list UtxoRow) : result (list UtxoRow) :=
  throw_if (foldl (λ s u, s + ur_amountAtoms u) 0 mine <? amount)
    (AppError "TOKEN_AMOUNT_INVALID" "insufficient token balance");;
  let '(selected, running) := take_carriers max amount 0 (js_sort carrier_before mine) in
  throw_if (running <? amount) (spread_too_wide max running amount what);;
  Ok selected.

Definition redeem_carriers : Z → list UtxoRow → result (list UtxoRow) :=
  select_carriers MAX_REDEEM_TOKEN_INPUTS "Consolidate with a transfer to yourself, or redeem a smaller amount.".
Definition transfer_carriers : Z → list UtxoRow → result (list UtxoRow) :=
  select_carriers MAX_TRANSFER_TOKEN_INPUTS "Consolidate with a transfer to yourself, or send a smaller amount.".
