(* ===== verification/AppFundingInv.v ===== *)
(** * What the selections of coins and carriers achieve

    The coins that pay for a build are spendable, cover it, and are the fewest
    that do; a wallet that can pay is not refused.  The same of the token
    carriers of a redemption or a transfer. *)
From S2P Require Import Prelude Bytes Greedy Curve Economics Wire Covenant Vault Indexer Store Hydrate Lockstep Spend AppConfig AppFunding.

Lemma coin_before_value a b : coin_before a b = true → rg_valueSats b ≤ rg_valueSats a.
Proof. unfold coin_before. repeat case_match; to_prop; try lia. Qed.
Lemma coin_before_value' a b : coin_before a b = false → rg_valueSats a ≤ rg_valueSats b.
Proof. unfold coin_before. repeat case_match; to_prop; try lia. Qed.

Lemma sort_coins_perm l : sort_coins l ≡ₚ l.
Proof. apply js_sort_perm. Qed.
Lemma sort_coins_descending l : descending rg_valueSats (sort_coins l).
Proof. apply js_sort_descending; [apply coin_before_value|apply coin_before_value']. Qed.

Notation coins_worth := (worth rg_valueSats).

Section Pick.
Context (assets : option (OutPoint → result (option string))) (price : nat → result ResolvedMinerFee) (target : Z).
Implicit Types (coins sorted chosen other : list ResolvedFunding) (f : ResolvedFunding).

(** A coin the ord server says holds nothing (or none is asked). *)
Definition clean f : Prop := ∃ held, assetsAt assets (coin_outpoint f) = Ok held ∧ truthy held = None.

(** Coins worth [w] do not pay for the trade and for [k] inputs; they do. *)
Definition short (k : nat) (w : Z) : Prop := ∃ q, price k = Ok q ∧ w < target + rf_minerFeeSats q.
Definition pays (k : nat) (w : Z) (q : ResolvedMinerFee) : Prop := price k = Ok q ∧ target + rf_minerFeeSats q ≤ w.

Lemma short_not_pays k w w' q : short k w → pays k w' q → w < w'.
Proof. intros (p & Hp & Hw) [Hq Hw']. rewrite Hp in Hq. simplify_eq. lia. Qed.

Lemma covering_prefix_spec coins : ∀ n sum r, covering_prefix price target n sum coins = Ok r →
  match r with
  | Some (k, q) => ∃ m, k = (n + m)%nat ∧ (1 ≤ m ≤ length coins)%nat ∧ pays k (sum + coins_worth (take m coins)) q
      ∧ ∀ j, (1 ≤ j < m)%nat → short (n + j) (sum + coins_worth (take j coins))
  | None => ∀ j, (1 ≤ j ≤ length coins)%nat → short (n + j) (sum + coins_worth (take j coins))
  end.
Proof.
  induction coins as [|u coins IH]; intros n sum r H; cbn [covering_prefix] in H.
  { injection H as <-. intros j Hj. cbn in Hj. lia. }
  apply bind_Ok in H as (q & Hq & H).
  assert (∀ j, sum + coins_worth (take (S j) (u :: coins)) = sum + rg_valueSats u + coins_worth (take j coins)) as Hw.
  { intros j. rewrite firstn_cons, worth_cons. lia. }
  destruct (Z.leb_spec (target + rf_minerFeeSats q) (sum + rg_valueSats u)) as [Hle|Hgt].
  - injection H as <-. exists 1%nat. rewrite Hw, take_0. cbn [length]. split_and!; [lia..| |lia].
    split; [done|]. cbn. lia.
  - assert (short (n + 1) (sum + coins_worth (take 1 (u :: coins)))) as H1.
    { exists q. rewrite Hw, take_0. replace (n + 1)%nat with (S n) by lia. split; [done|]. cbn. lia. }
    assert (∀ m, (∀ j, (1 ≤ j < m)%nat → short (S n + j) (sum + rg_valueSats u + coins_worth (take j coins))) →
             ∀ j, (1 ≤ j < S m)%nat → short (n + j) (sum + coins_worth (take j (u :: coins)))) as Hstep.
    { intros m Hs [|[|j]] Hj; [lia|done|]. rewrite Hw. replace (n + S (S j))%nat with (S n + S j)%nat by lia. apply Hs. lia. }
    specialize (IH _ _ _ H). destruct r as [[k p]|].
    + destruct IH as (m & -> & Hm & Hp & Hs). exists (S m). rewrite Hw. cbn [length].
      split_and!; [lia..| |by apply Hstep]. by replace (n + S m)%nat with (S n + m)%nat by lia.
    + cbn [length]. intros j Hj. apply (Hstep (S (length coins))); [|lia]. intros i Hi. apply IH. lia.
Qed.

Lemma first_held_spec chosen : ∀ i r, first_held assets i chosen = Ok r →
  match r with
  | None => Forall clean chosen
  | Some (j, _) => ∃ k f, j = (i + k)%nat ∧ chosen !! k = Some f ∧ ¬ clean f
  end.
Proof.
  induction chosen as [|f chosen IH]; intros i r H; cbn [first_held] in H; [injection H as <-; constructor|].
  apply bind_Ok in H as (held & Hh & H). destruct (truthy held) as [h|] eqn:E.
  - injection H as <-. exists 0%nat, f. split_and!; [lia|done|]. intros (h' & Hh' & E'). rewrite Hh in Hh'. simplify_eq.
  - specialize (IH _ _ H). destruct r as [[j t]|].
    + destruct IH as (k & g & -> & Hk & Hg). exists (S k), g. split_and!; [lia|done..].
    + constructor; [by exists held|done].
Qed.

(** What a round of [pick] that goes on drops. *)
Lemma held_coin sorted n i t : first_held assets 0 (take n sorted) = Ok (Some (i, t)) →
  ∃ f, sorted !! i = Some f ∧ ¬ clean f.
Proof.
  intros H. apply first_held_spec in H as (k & f & -> & Hk & Hf). exists f. split; [|done].
  apply lookup_take_Some in Hk as [Hk _]. done.
Qed.

(** How a selection ends: [rest] are the coins without those that were
    dropped, which all hold something. *)
Definition outcome_ok (rest : list ResolvedFunding) (out : PickOutcome) : Prop :=
  match out with
  | Picked chosen q => ∃ n, chosen = take n rest ∧ (1 ≤ n ≤ length rest)%nat ∧ Forall clean chosen
      ∧ pays n (coins_worth chosen) q ∧ ∀ j, (1 ≤ j < n)%nat → short j (coins_worth (take j rest))
  | TooShort chosen _ => chosen = rest ∧ ∀ j, (1 ≤ j ≤ length rest)%nat → short j (coins_worth (take j rest))
  end.

Lemma pick_spec fuel : ∀ sorted skipped out,
  pick assets price target fuel sorted skipped = Ok out → descending rg_valueSats sorted →
  ∃ rest removed, sorted ≡ₚ removed ++ rest ∧ descending rg_valueSats rest ∧ Forall (λ f, ¬ clean f) removed ∧ outcome_ok rest out.
Proof.
  induction fuel as [|fuel IH]; intros sorted skipped out H Hs; [done|]. cbn [pick] in H.
  apply bind_Ok in H as (found & Hc & H). apply covering_prefix_spec in Hc. destruct found as [[n q]|].
  - destruct Hc as (m & -> & Hm & Hp & Hj). rewrite !Nat.add_0_l in *. apply bind_Ok in H as (held & Hh & H).
    destruct held as [[i t]|].
    + destruct (held_coin _ _ _ _ Hh) as (f & Hi & Hf).
      apply IH in H as (rest & removed & Hp' & Hd & Hr & Ho); [|by eapply descending_sublist; [|apply sublist_delete]].
      exists rest, (f :: removed). rewrite (delete_Permutation _ _ _ Hi), Hp'. split_and!; [done..|by constructor|done].
    + injection H as <-. exists sorted, []. split_and!; [done..|constructor|]. exists m.
      split_and!; [done|lia..|by apply first_held_spec in Hh| |]; [by rewrite Z.add_0_l in Hp|].
      intros j Hj'. specialize (Hj j Hj'). by rewrite Z.add_0_l in Hj.
  - injection H as <-. exists sorted, []. split_and!; [done..|constructor|]. split; [done|].
    intros j Hj. specialize (Hc j Hj). by rewrite Z.add_0_l, Nat.add_0_l in Hc.
Qed.

(** Coins that hold nothing are among those that were not dropped. *)
Lemma clean_kept other rest removed :
  other ⊆+ removed ++ rest → Forall clean other → Forall (λ f, ¬ clean f) removed → other ⊆+ rest.
Proof.
  intros H Ho Hr. induction Hr as [|f removed Hf Hr IH]; [done|]. apply IH.
  apply (submseteq_without f); [done|]. intros Hin. rewrite Forall_forall in Ho. by apply Hf, Ho.
Qed.

(** Fewer coins than were chosen do not pay, whichever they are. *)
Lemma pick_fewest fuel sorted skipped chosen q other :
  pick assets price target fuel sorted skipped = Ok (Picked chosen q) → descending rg_valueSats sorted →
  other ⊆+ sorted → Forall clean other → (1 ≤ length other < length chosen)%nat → short (length other) (coins_worth other).
Proof.
  intros H Hs Ho Hc Hl. apply pick_spec in H as (rest & removed & Hp & Hd & Hr & n & -> & Hn & _ & _ & Hj); [|done].
  rewrite length_take in Hl. rewrite Hp in Ho. apply clean_kept in Ho; [|done..].
  destruct (Hj (length other)) as (p & Hp' & Hw); [lia|]. exists p. split; [done|].
  pose proof (greedy_best _ _ _ Hd Ho). lia.
Qed.

(** ** A selection ends *)
Lemma first_held_total chosen i :
  Forall (λ f, is_ok (assetsAt assets (coin_outpoint f)) = true) chosen → is_ok (first_held assets i chosen) = true.
Proof.
  intros Hf. revert i. induction Hf as [|f chosen Hf _ IH]; intros i; [done|]. cbn [first_held].
  apply is_ok_true in Hf as (held & ->). rewrite bind_of_Ok. by destruct (truthy held).
Qed.

(** A beginning of the coins pays where [m] coins of it do. *)
Lemma covering_prefix_total coins m q : ∀ n sum,
  (1 ≤ m ≤ length coins)%nat → pays (n + m) (sum + coins_worth (take m coins)) q →
  (∀ j, (1 ≤ j ≤ m)%nat → is_ok (price (n + j)) = true) →
  ∃ k p, covering_prefix price target n sum coins = Ok (Some (k, p)).
Proof.
  revert m. induction coins as [|u coins IH]; intros m n sum Hm Hp Hok; cbn in Hm; [lia|]. cbn [covering_prefix].
  pose proof (Hok 1%nat ltac:(lia)) as H1. rewrite Nat.add_1_r in H1. apply is_ok_true in H1 as (p & H1).
  rewrite H1, bind_of_Ok. destruct (Z.leb_spec (target + rf_minerFeeSats p) (sum + rg_valueSats u)) as [|Hlt]; [by eauto|].
  destruct m as [|[|m]]; [lia| |].
  - destruct Hp as [Hq Hw]. rewrite Nat.add_1_r, H1 in Hq. simplify_eq.
    rewrite firstn_cons, take_0, worth_cons in Hw. cbn in Hw. lia.
  - rewrite firstn_cons, worth_cons, Z.add_assoc in Hp. apply (IH (S m)); [lia| |].
    + by replace (S n + S m)%nat with (n + S (S m))%nat by lia.
    + intros j Hj. replace (S n + j)%nat with (n + S j)%nat by lia. apply Hok. lia.
Qed.

(** Coins that pay are found, or others that do. *)
Lemma pick_total other q : (1 ≤ length other)%nat → Forall clean other → pays (length other) (coins_worth other) q →
  (∀ j, (1 ≤ j ≤ length other)%nat → is_ok (price j) = true) →
  ∀ fuel sorted skipped, (length sorted < fuel)%nat → descending rg_valueSats sorted → other ⊆+ sorted →
  Forall (λ f, is_ok (assetsAt assets (coin_outpoint f)) = true) sorted →
  ∃ chosen p, pick assets price target fuel sorted skipped = Ok (Picked chosen p).
Proof.
  intros Hl Hc [Hq Hw] Hok. induction fuel as [|fuel IH]; intros sorted skipped Hfuel Hs Ho Ha; [lia|]. cbn [pick].
  pose proof (greedy_best _ _ _ Hs Ho) as Hbest. pose proof (submseteq_length _ _ Ho) as Hlen.
  destruct (covering_prefix_total sorted (length other) q 0 0) as (n & p & E); [lia|split; [done|lia]|done|].
  rewrite E, bind_of_Ok. pose proof (first_held_total (take n sorted) 0 ltac:(by apply Forall_take)) as Hh.
  apply is_ok_true in Hh as ([[i t]|] & Hh); rewrite Hh, bind_of_Ok; [|by eauto].
  destruct (held_coin _ _ _ _ Hh) as (f & Hi & Hf). pose proof (delete_Permutation _ _ _ Hi) as Hp. apply IH.
  - pose proof (Permutation_length Hp) as El. cbn [length] in El. lia.
  - by eapply descending_sublist; [|apply sublist_delete].
  - rewrite Hp in Ho. apply (submseteq_without f); [done|]. intros Hin. rewrite Forall_forall in Hc. by apply Hf, Hc.
  - rewrite Hp in Ha. by apply Forall_cons in Ha as [_ ?].
Qed.
End Pick.

(** ** The coins a build is offered *)
Section Funding.
Context {PG : Postgres}.
Context (getTxout : string → Z → result (option AppTxOut)) (d : V3Db)
  (assets : option (OutPoint → result (option string))) (x : FeeContext) (params : FundingParams).

(** The node knows the coin, unspent, with these columns. *)
Definition node_coin (f : ResolvedFunding) : Prop :=
  ∃ o, getTxout (rg_txid f) (rg_vout f) = Ok (Some o) ∧ rg_script f = fromHex (at_scriptPubKeyHex o)
       ∧ rg_valueSats f = at_valueSats o ∧ rg_confirmations f = at_confirmations o.

Lemma resolveFundingUtxos_spec candidates resolved :
  resolveFundingUtxos getTxout candidates = Ok resolved →
  coin_outpoint <$> resolved = candidates ∧ Forall node_coin resolved.
Proof.
  revert resolved. induction candidates as [|c rest IH]; intros resolved H; cbn [resolveFundingUtxos] in H;
    [by injection H as <-|].
  apply bind_Ok in H as (r & Hr & H). apply bind_Ok in H as (rs & Hrs & H). injection H as <-.
  destruct (IH _ Hrs) as [<- Hf]. unfold resolveFundingUtxo in Hr. apply bind_Ok in Hr as (o & Ho & Hr).
  apply bind_Ok in Hr as (t & Ht & Hr). apply of_option_Ok in Ht as ->. injection Hr as <-. split.
  - by destruct c.
  - constructor; [|done]. by exists t.
Qed.

(** What a coin must be to pay for this build: offered by the browser, known
    to the node, of the wallet's payment address, and no carrier of tokens; for
    a transition of a vault, confirmed. *)
Definition spendable (f : ResolvedFunding) : Prop :=
  coin_outpoint f ∈ fp_candidates params ∧ node_coin f
  ∧ toHex (rg_script f) = rr_script (rw_payments (fp_wallet params))
  ∧ (∀ r, r ∈ coveV3TokenUtxos d → live_row r = true → (ur_txid r, ur_vout r) ≠ (rg_txid f, rg_vout f))
  ∧ (vault_op (fp_op params) = true → 1 ≤ rg_confirmations f).

Lemma no_live_carrier (outpoints : list (string * Z)) r :
  getLiveTokenUtxosAtDb d outpoints = [] → r ∈ coveV3TokenUtxos d → live_row r = true → (ur_txid r, ur_vout r) ∉ outpoints.
Proof.
  intros H Hr Hl Ho. unfold getLiveTokenUtxosAtDb in H. destruct outpoints as [|o os]; [by apply not_elem_of_nil in Ho|].
  assert (r ∈ select (λ r, live_row r && existsb (λ o, String.eqb (ur_txid r) o.1 && (ur_vout r =? o.2)) (o :: os))
    (coveV3TokenUtxos d)) as Hin.
  { apply elem_of_select. split; [done|]. rewrite Hl. apply existsb_exists. exists (ur_txid r, ur_vout r).
    split; [by apply list_elem_of_In|]. cbn. by rewrite String.eqb_refl, Z.eqb_refl. }
  rewrite H in Hin. by apply not_elem_of_nil in Hin.
Qed.

Lemma usable_coins_elem op resolved f :
  f ∈ usable_coins op resolved ↔ f ∈ resolved ∧ (vault_op op = true → 1 ≤ rg_confirmations f).
Proof.
  unfold usable_coins. destruct (vault_op op); [|naive_solver].
  rewrite !list_elem_of_In, filter_In, Z.leb_le. naive_solver.
Qed.

Lemma offered_spendable resolved : offered_coins getTxout d params = Ok resolved →
  Forall spendable (usable_coins (fp_op params) resolved).
Proof.
  unfold offered_coins. intros H. apply bind_Ok in H as (rs & Hrs & H). res_inv H.
  destruct (getLiveTokenUtxosAtDb _ _) as [|? ?] eqn:E; [|done]. injection H as <-.
  apply resolveFundingUtxos_spec in Hrs as [Hc Hn]. rewrite Forall_forall in Hn. apply Forall_forall.
  intros f Hf. apply usable_coins_elem in Hf as [Hf Hconf]. split_and!.
  - rewrite <- Hc. by apply list_elem_of_fmap_2.
  - by apply Hn.
  - destruct (String.eqb (toHex (rg_script f)) (rr_script (rw_payments (fp_wallet params)))) eqn:Es; [by to_prop|].
    exfalso. apply (eq_true_false_abs _ eq_refl). rewrite <- Hv. symmetry. apply existsb_exists. exists f.
    split; [by apply list_elem_of_In|]. by rewrite Es.
  - intros r Hr Hl Heq. apply (no_live_carrier _ r E Hr Hl). rewrite Heq, <- Hc.
    rewrite <- list_fmap_compose. apply list_elem_of_fmap. by exists f.
  - done.
Qed.
End Funding.

Section Found.
Context {PG : Postgres}.
Context (getTxout : string → Z → result (option AppTxOut)) (d : V3Db)
  (assets : option (OutPoint → result (option string))) (x : FeeContext) (params : FundingParams).

(** The amount without the miner fee that the coins have to cover. *)
Notation target := (fp_targetSats params).

Lemma sorted_usable op resolved : usable_coins op resolved ≡ₚ sort_coins (usable_coins op resolved).
Proof. symmetry. apply sort_coins_perm. Qed.

(** the inputs a build is given are the fewest the wallet could pay with:
    each is a coin the browser offered, that the node knows unspent with that
    value, of the wallet's payment address, no carrier of any token, holding no
    inscription or rune, and confirmed when a vault moves; together they cover
    the trade and the fee of the transaction with exactly so many inputs; and
    any smaller choice among the coins falls short of its own fee. *)
Theorem funding_fewest r :
  resolveFundingAndFee getTxout d assets x params = Ok r →
  ∃ resolved rate chosen,
    offered_coins getTxout d params = Ok resolved
    ∧ chosen_rate (fx_rates x) (fp_feeRateSatPerVb params) (fp_explicitMinerFeeSats params) = Ok rate
    ∧ fc_inputs r = toInput params <$> chosen
    ∧ chosen ⊆+ usable_coins (fp_op params) resolved
    ∧ Forall (λ f, spendable getTxout d params f ∧ clean assets f) chosen
    ∧ pays (priceAt x params rate) target (length chosen) (coins_worth chosen) (fc_price r)
    ∧ ∀ other, other ⊆+ usable_coins (fp_op params) resolved → Forall (clean assets) other →
        (length other < length chosen)%nat → short (priceAt x params rate) target (length other) (coins_worth other).
Proof.
  unfold resolveFundingAndFee. intros H. apply bind_Ok in H as (resolved & Hr & H).
  apply bind_Ok in H as (rate & Hrate & H). cbn zeta in H. apply bind_Ok in H as (p0 & Hp0 & H).
  exists resolved, rate. destruct (Z.leb_spec (target + rf_minerFeeSats p0) 0) as [Hle|Hgt].
  { injection H as <-. exists []. split_and!; [done..|apply submseteq_nil_l|constructor|by split|].
    intros other _ _ Hl. cbn in Hl. lia. }
  apply bind_Ok in H as (out & Ho & H). destruct out as [chosen q|chosen skipped]; [|by res_inv H].
  injection H as <-. exists chosen. pose proof (offered_spendable _ _ _ _ Hr) as Hsp.
  pose proof (pick_spec _ _ _ _ _ _ _ Ho (sort_coins_descending _)) as (rest & removed & Hp & Hd & _ & n & -> & Hn & Hc & Hpay & _).
  assert (take n rest ⊆+ usable_coins (fp_op params) resolved) as Hsub.
  { rewrite sorted_usable, Hp. etrans; [apply sublist_submseteq, sublist_take|apply submseteq_inserts_l]. done. }
  cbn [fc_inputs fc_price]. split_and!; try done.
  - rewrite Forall_forall in Hsp, Hc |- *. intros f Hf. split; [|by apply Hc]. apply Hsp. by eapply elem_of_submseteq.
  - rewrite length_take_le by lia. exact Hpay.
  - intros other Hos Hoc Hl. destruct other as [|f other].
    { exists p0. split; [done|]. cbn. lia. }
    eapply pick_fewest; [exact Ho|apply sort_coins_descending|by rewrite <- sorted_usable|done|]. cbn [length] in *. lia.
Qed.

(** a wallet that can pay is never refused: if some of the coins offered,
    which hold nothing else, cover the trade and the fee for as many inputs,
    the build gets its coins, provided the ord server answers and the fees up
    to that size are within their limits. *)
Theorem funding_found resolved rate other q :
  offered_coins getTxout d params = Ok resolved →
  chosen_rate (fx_rates x) (fp_feeRateSatPerVb params) (fp_explicitMinerFeeSats params) = Ok rate →
  other ⊆+ usable_coins (fp_op params) resolved → Forall (clean assets) other →
  pays (priceAt x params rate) target (length other) (coins_worth other) q →
  (∀ n, (n ≤ length other)%nat → is_ok (priceAt x params rate n) = true) →
  Forall (λ f, is_ok (assetsAt assets (coin_outpoint f)) = true) (usable_coins (fp_op params) resolved) →
  ∃ r, resolveFundingAndFee getTxout d assets x params = Ok r.
Proof.
  intros Hr Hrate Ho Hc Hpay Hok Ha. unfold resolveFundingAndFee. rewrite Hr, bind_of_Ok, Hrate, bind_of_Ok. cbn zeta.
  destruct (proj1 (is_ok_true _) (Hok 0%nat ltac:(lia))) as (p0 & Hp0). rewrite Hp0, bind_of_Ok.
  destruct (Z.leb_spec (target + rf_minerFeeSats p0) 0) as [|Hgt]; [by eexists|].
  destruct other as [|f other].
  { destruct Hpay as [Hq Hw]. cbn in Hq, Hw. rewrite Hp0 in Hq. simplify_eq. lia. }
  destruct (pick_total assets (priceAt x params rate) target (f :: other) q) with
    (fuel := S (length (sort_coins (usable_coins (fp_op params) resolved))))
    (sorted := sort_coins (usable_coins (fp_op params) resolved)) (skipped := @nil string) as (chosen & p & E).
  - cbn [length]. lia.
  - done.
  - done.
  - intros j Hj. apply Hok. lia.
  - lia.
  - apply sort_coins_descending.
  - by rewrite <- sorted_usable.
  - by rewrite <- sorted_usable.
  - rewrite E, bind_of_Ok. by eexists.
Qed.
End Found.

(** ** Token carriers *)
Lemma carrier_before_value a b : carrier_before a b = true → ur_amountAtoms b ≤ ur_amountAtoms a.
Proof. unfold carrier_before. repeat case_match; to_prop; try lia. Qed.
Lemma carrier_before_value' a b : carrier_before a b = false → ur_amountAtoms a ≤ ur_amountAtoms b.
Proof. unfold carrier_before. repeat case_match; to_prop; try lia. Qed.

Notation carriers_worth := (worth ur_amountAtoms).

Lemma take_carriers_spec amount sorted : ∀ max running selected total,
  take_carriers max amount running sorted = (selected, total) →
  ∃ n, selected = take n sorted ∧ (n ≤ max)%nat ∧ (n ≤ length sorted)%nat ∧ total = running + carriers_worth selected
    ∧ (∀ j, (j < n)%nat → running + carriers_worth (take j sorted) < amount)
    ∧ (amount ≤ total ∨ n = max ∨ n = length sorted).
Proof.
  induction sorted as [|u sorted IH]; intros max running selected total H; cbn [take_carriers] in H.
  { injection H as <- <-. exists 0%nat. split_and!; [done|lia|done|cbn; lia|lia|auto]. }
  destruct (Z.leb_spec amount running) as [Hle|Hgt].
  { injection H as <- <-. exists 0%nat. rewrite take_0. split_and!; [done|lia|lia|cbn; lia|lia|auto]. }
  destruct max as [|max].
  { injection H as <- <-. exists 0%nat. rewrite take_0. split_and!; [done|lia|lia|cbn; lia|lia|auto]. }
  destruct (take_carriers max amount (running + ur_amountAtoms u) sorted) as [sel tot] eqn:E. injection H as <- <-.
  apply IH in E as (n & -> & Hm & Hl & -> & Hj & Hend). exists (S n). rewrite firstn_cons, worth_cons. cbn [length].
  split_and!; [done|lia..| |].
  - intros [|j] Hjn; [rewrite take_0; cbn; lia|]. rewrite firstn_cons, worth_cons. specialize (Hj j ltac:(lia)). lia.
  - destruct Hend as [?|[?|?]]; [left|right; left|right; right]; lia.
Qed.

Lemma worth_nonneg {A} (v : A → Z) l : Forall (λ a, 0 ≤ v a) l → 0 ≤ worth v l.
Proof. induction 1 as [|a l Ha _ IH]; [done|]. rewrite worth_cons. lia. Qed.

Lemma worth_submseteq {A} (v : A → Z) k l : Forall (λ a, 0 ≤ v a) l → k ⊆+ l → worth v k ≤ worth v l.
Proof.
  intros Hf Hk. apply submseteq_Permutation in Hk as (r & Hp). rewrite (worth_perm _ _ _ Hp), worth_app.
  rewrite Hp in Hf. apply Forall_app in Hf as [_ Hr]. pose proof (worth_nonneg _ _ Hr). lia.
Qed.

(** the token carriers of a redemption or a transfer: those that are taken
    belong to the holder, are at most four, hold the amount, and no fewer of
    the holder's carriers do; when the selection is refused, no choice of that
    many of them holds the amount. *)
Theorem carriers_fewest max what amount mine :
  Forall (λ u, 0 ≤ ur_amountAtoms u) mine →
  match select_carriers max what amount mine with
  | Ok selected =>
      selected ⊆+ mine ∧ (length selected ≤ max)%nat ∧ amount ≤ carriers_worth selected
      ∧ ∀ other, other ⊆+ mine → (length other < length selected)%nat → carriers_worth other < amount
  | Throw _ => ∀ other, other ⊆+ mine → (length other ≤ max)%nat → carriers_worth other < amount
  end.
Proof.
  intros Hpos. unfold select_carriers. rewrite foldl_worth, Z.add_0_l.
  destruct (Z.ltb_spec (carriers_worth mine) amount) as [Hlt|Hge].
  { intros other Ho _. pose proof (worth_submseteq _ _ _ Hpos Ho). lia. }
  rewrite throw_if_false by done. cbv beta.
  pose proof (js_sort_perm carrier_before mine) as Hp.
  pose proof (js_sort_descending _ _ carrier_before_value carrier_before_value' mine) as Hd.
  destruct (take_carriers max amount 0 (js_sort carrier_before mine)) as [selected running] eqn:E.
  apply take_carriers_spec in E as (n & -> & Hm & Hl & -> & Hj & Hend). rewrite Z.add_0_l in *.
  assert (∀ other, other ⊆+ mine → carriers_worth other ≤ carriers_worth (take (length other) (js_sort carrier_before mine))) as Hbest.
  { intros other Ho. apply greedy_best; [done|]. by rewrite Hp. }
  destruct (Z.ltb_spec (carriers_worth (take n (js_sort carrier_before mine))) amount) as [Hlt|Hge'].
  - intros other Ho Hol. specialize (Hbest _ Ho). pose proof (submseteq_length _ _ Ho) as Hlen.
    rewrite <- (Permutation_length Hp) in Hlen.
    assert (length other ≤ n)%nat as Hn by (destruct Hend as [?|[?|?]]; lia).
    destruct (decide (length other = n)) as [E|]; [rewrite E in Hbest; lia|]. specialize (Hj (length other) ltac:(lia)). lia.
  - rewrite throw_if_false by done. cbv beta. rewrite length_take_le by lia. split_and!; [|lia|done|].
    + rewrite <- Hp at 2. apply sublist_submseteq, sublist_take.
    + intros other Ho Hol. specialize (Hbest _ Ho). specialize (Hj (length other) Hol). lia.
Qed.
