(* ===== verification/TxSession.v ===== *)
(** * Transaction sessions: packages/cove-app/src/tx-session.ts

    The rows of [cove_v3_app_transactions] of one network and the statements
    on them.  A statement that breaks a unique index throws and writes
    nothing. *)
From S2P Require Import Prelude Bytes Covenant Vault Indexer Store Hydrate AppConfig AppFunding.

(** [DEPLOY | BACKING_BUY | REDEEM | TRANSFER | P2P] *)
Inductive AppTxOperation := TxOp (op : CoveOperation) | TxP2P.
Inductive AppTxStatus := BUILT | WALLET_SIGNED | BROADCAST | CONFIRMED | REORGED | FAILED | EXPIRED.

#[export] Instance CoveOperation_eq_dec : EqDecision CoveOperation.
Proof. solve_decision. Defined.
#[export] Instance AppTxOperation_eq_dec : EqDecision AppTxOperation.
Proof. solve_decision. Defined.
#[export] Instance AppTxStatus_eq_dec : EqDecision AppTxStatus.
Proof. solve_decision. Defined.

Record NewTxSession := {
  ns_operation : AppTxOperation; ns_tokenId : option string; ns_walletScript : string;
  ns_walletAddress : option string; ns_stateHash : option string; ns_backingTxid : option string;
  ns_backingVout : option Z; ns_unsignedTxDigest : string; ns_psbtBase64 : option string; ns_txid : option string;
  ns_status : AppTxStatus; ns_expiresAtHeight : option Z; ns_idempotencyKey : string
}.

(** [id] and [createdAt] are the database's. *)
Record TxSessionRow := {
  sx_id : string; sx_input : NewTxSession; sx_errorCode : option string; sx_createdAt : Z
}.

Notation sx_operation r := (ns_operation (sx_input r)).
Notation sx_status r := (ns_status (sx_input r)).
Notation sx_txid r := (ns_txid (sx_input r)).
Notation sx_tokenId r := (ns_tokenId (sx_input r)).
Notation sx_backingTxid r := (ns_backingTxid (sx_input r)).
Notation sx_backingVout r := (ns_backingVout (sx_input r)).
Notation sx_digest r := (ns_unsignedTxDigest (sx_input r)).

(** The columns of the idempotency index. *)
Definition idempotency_of (n : NewTxSession) : string * AppTxOperation * string :=
  (ns_walletScript n, ns_operation n, ns_idempotencyKey n).

(** The primary key and the two unique indexes. *)
Definition sessions_unique (l : list TxSessionRow) : bool :=
  bool_decide (NoDup (sx_id <$> l)) && bool_decide (NoDup (idempotency_of ∘ sx_input <$> l))
  && bool_decide (NoDup (omap (λ r, sx_txid r) l)).

Definition put_sessions (l : list TxSessionRow) : result (list TxSessionRow) :=
  if sessions_unique l then Ok l else Throw unique_violation.

(** The columns of a patch: [{ txid, status }], [{ status }], [{ status, errorCode }]. *)
Record TxSessionPatch := { sp_txid : option (option string); sp_status : option AppTxStatus; sp_errorCode : option (option string) }.

Definition patch_session (p : TxSessionPatch) (r : TxSessionRow) : TxSessionRow :=
  let n := sx_input r in {|
  sx_id := sx_id r;
  sx_input := {|
    ns_operation := ns_operation n; ns_tokenId := ns_tokenId n; ns_walletScript := ns_walletScript n;
    ns_walletAddress := ns_walletAddress n; ns_stateHash := ns_stateHash n; ns_backingTxid := ns_backingTxid n;
    ns_backingVout := ns_backingVout n; ns_unsignedTxDigest := ns_unsignedTxDigest n; ns_psbtBase64 := ns_psbtBase64 n;
    ns_txid := default (ns_txid n) (sp_txid p); ns_status := default (ns_status n) (sp_status p);
    ns_expiresAtHeight := ns_expiresAtHeight n; ns_idempotencyKey := ns_idempotencyKey n |};
  sx_errorCode := default (sx_errorCode r) (sp_errorCode p); sx_createdAt := sx_createdAt r |}.

Section Sessions.
Context {PG : Postgres}.

Definition getTxSession (id : string) (l : list TxSessionRow) : option TxSessionRow :=
  head (select (λ r, String.eqb (sx_id r) id) l).

Definition requireTxSession (id : string) (l : list TxSessionRow) : result TxSessionRow :=
  of_option (AppError "SESSION_NOT_FOUND" "transaction session not found") (getTxSession id l).

(** [id] and [now] are what the database draws for a new row. *)
Definition createTxSession (id : string) (now : Z) (input : NewTxSession) (l : list TxSessionRow)
    : result (list TxSessionRow * TxSessionRow) :=
  match select (λ r, bool_decide (idempotency_of (sx_input r) = idempotency_of input)) l with
  | e :: _ =>
      if bool_decide (sx_tokenId e = ns_tokenId input) && String.eqb (sx_digest e) (ns_unsignedTxDigest input) then Ok (l, e)
      else Throw (AppError "IDEMPOTENCY_CONFLICT" "idempotency key reused with a conflicting payload")
  | [] =>
      let row := {| sx_id := id; sx_input := input; sx_errorCode := None; sx_createdAt := now |} in
      l ← put_sessions (l ++ [row]);
      Ok (l, row)
  end.

Definition updateTxSession (id : string) (patch : TxSessionPatch) (l : list TxSessionRow) : result (list TxSessionRow) :=
  put_sessions (update_rows sx_id id (patch_session patch) l).

(** [orderBy(desc(createdAt)).limit(limit)] *)
Definition session_newer (a b : TxSessionRow) : Prop := sx_createdAt b ≤ sx_createdAt a.
#[local] Instance session_newer_dec : RelDecision session_newer.
Proof. unfold RelDecision, session_newer. intros. apply _. Defined.

Definition listTxSessionsByScript (walletScript : string) (limit : nat) (l : list TxSessionRow) : list TxSessionRow :=
  take limit (merge_sort session_newer (select (λ r, String.eqb (ns_walletScript (sx_input r)) walletScript) l)).

Definition listPendingSessions (l : list TxSessionRow) : list TxSessionRow :=
  select (λ r, bool_decide (sx_status r = BROADCAST)) l.

(** The sessions that are on their way and spend an outpoint. *)
Definition spends_backing (tokenId backingTxid : string) (backingVout : Z) (r : TxSessionRow) : bool :=
  bool_decide (sx_tokenId r = Some tokenId) && bool_decide (sx_backingTxid r = Some backingTxid)
  && bool_decide (sx_backingVout r = Some backingVout) && bool_decide (sx_status r = BROADCAST).

(** The id of the transaction, where the row has one. *)
Definition findBroadcastSpendOfBacking (tokenId backingTxid : string) (backingVout : Z) (l : list TxSessionRow)
    : option (option string * AppTxOperation) :=
  (λ r, (sx_txid r, sx_operation r)) <$> head (select (spends_backing tokenId backingTxid backingVout) l).
End Sessions.
