(* ===== verification/AppQuote.v ===== *)
(** * Backing states and quotes: packages/cove-app/src/service.ts

    The state a quote is made on: the confirmed backing of a token, followed
    through the transitions that are broadcast and not yet mined; what a budget
    buys, and what a mint or a redemption costs. *)
From S2P Require Import Prelude Bytes Curve Economics Wire Covenant Vault Indexer Store Hydrate Spend Guardian AppConfig AppFunding TxSession.

(** A row of the backing table as the service holds it. *)
Record LoadedBacking := { lb_state : CoveStateV2; lb_stateHash : string; lb_input : SpendableInput }.

Definition MAX_PENDING_BACKING_CHAIN : nat := 24.
Definition BACKING_SUCCESSOR_VOUT : Z := 1.

Definition lb_outpoint (b : LoadedBacking) : OutPoint := {| op_txid := si_txid (lb_input b); op_vout := si_vout (lb_input b) |}.

Section Backing.
Context {C : Crypto} {B : Bitcoin} {PG : Postgres}.
Context (bad_tx_message : string → string).
Context (getRawTransaction : string → result string) (d : V3Db) (sessions : list TxSessionRow).

Definition loaded_row (b : BackingRow) : LoadedBacking :=
  {| lb_state := state_of_row b; lb_stateHash := kr_stateHash b;
     lb_input := {| si_txid := kr_txid b; si_vout := kr_vout b; si_script := fromHex (kr_scriptPubKey b);
                    si_valueSats := kr_btcValue b; si_publicKey := None |} |}.

Definition loadConfirmedBacking (tokenId : string) : result LoadedBacking :=
  match getCurrentBackingDb d tokenId with
  | b :: _ => Ok (loaded_row b)
  | [] => Throw (AppError "TOKEN_NOT_FOUND" "token not found")
  end.

(** What a broadcast transaction makes of the backing: [None] where the walk
    stops. *)
Definition pending_successor (tip : LoadedBacking) (raw : string) : result (option LoadedBacking) :=
  tx ← of_option (js_error (bad_tx_message raw)) (tx_fromHex raw);
  match decodeCoveOpReturnTx tx with
  | Throw _ => Ok None
  | Ok envelope =>
      moved ← match envelope with
              | MintV2 _ amount _ => r ← applyMintV2 (lb_state tip) amount; Ok (Some (nextState r))
              | RedeemV2 _ redeemAmount _ => r ← applyRedeemV2 (lb_state tip) redeemAmount; Ok (Some (nextState r))
              | _ => Ok None
              end;
      match moved, tx_outs tx !! Z.to_nat BACKING_SUCCESSOR_VOUT with
      | Some next, Some vaultOut =>
          let expectedValue := RESERVE_ANCHOR_SATS + backingSats next in
          if txo_value vaultOut =? expectedValue then
            hash ← stateHashV2 sha256 next;
            Ok (Some {| lb_state := next; lb_stateHash := hash;
                        lb_input := {| si_txid := getId tx; si_vout := BACKING_SUCCESSOR_VOUT; si_script := txo_script vaultOut;
                                       si_valueSats := expectedValue; si_publicKey := None |} |})
          else Ok None
      | _, _ => Ok None
      end
  end.

Definition at_outpoint (b : LoadedBacking) (o : OutPoint) : bool :=
  String.eqb (si_txid (lb_input b)) (op_txid o) && (si_vout (lb_input b) =? op_vout o).

(** [for (let depth = 0; depth < MAX_PENDING_BACKING_CHAIN; depth++)] *)
Fixpoint follow_pending (depth : nat) (tokenId : string) (tip : LoadedBacking) (stopAt : option OutPoint) : result LoadedBacking :=
  match depth with
  | O => Ok tip
  | S depth =>
      if match stopAt with Some o => at_outpoint tip o | None => false end then Ok tip
      else
        match findBroadcastSpendOfBacking tokenId (si_txid (lb_input tip)) (si_vout (lb_input tip)) sessions with
        | Some (txid, _) =>
            match truthy txid with
            | None => Ok tip
            | Some txid =>
                match getRawTransaction txid with
                | Throw _ => Ok tip
                | Ok raw =>
                    next ← pending_successor tip raw;
                    match next with
                    | Some next => follow_pending depth tokenId next stopAt
                    | None => Ok tip
                    end
                end
            end
        | None => Ok tip
        end
  end.

Definition followPendingBacking (tokenId : string) (confirmed : LoadedBacking) (stopAt : option OutPoint) : result LoadedBacking :=
  follow_pending MAX_PENDING_BACKING_CHAIN tokenId confirmed stopAt.

Definition loadBacking (tokenId : string) : result LoadedBacking :=
  confirmed ← loadConfirmedBacking tokenId;
  followPendingBacking tokenId confirmed None.

Definition loadBackingAt (tokenId : string) (txid : option string) (vout : option Z) : result LoadedBacking :=
  confirmed ← loadConfirmedBacking tokenId;
  followPendingBacking tokenId confirmed
    (match truthy txid, vout with Some txid, Some vout => Some {| op_txid := txid; op_vout := vout |} | _, _ => None end).

Definition overlayPendingBacking (view : CoveCanonicalView) (tokenIdHex : string) (tip : LoadedBacking) : CoveCanonicalView := {|
  view_getBackingOutpoint tokenId :=
    if String.eqb (toHex tokenId) tokenIdHex then Some (lb_outpoint tip) else view_getBackingOutpoint view tokenId;
  view_getCurrentBackingState tokenId :=
    if String.eqb (toHex tokenId) tokenIdHex then Some (lb_state tip) else view_getCurrentBackingState view tokenId;
  view_getBackingStateByOutpoint o :=
    if String.eqb (op_txid o) (si_txid (lb_input tip)) && (op_vout o =? si_vout (lb_input tip)) then Some (lb_state tip)
    else view_getBackingStateByOutpoint view o;
  view_getTokenUtxo := view_getTokenUtxo view;
  view_getTokenCreatorScript := Some (λ tokenId, get ← view_getTokenCreatorScript view; get tokenId) |}.

Definition creatorScriptOf (tokenId : string) : result (list byte) :=
  match truthy (tr_creatorScript <$> head (token_rows d tokenId)) with
  | Some c => Ok (fromHex c)
  | None => Throw (AppError "TOKEN_NOT_FOUND" "token has no recorded creator")
  end.
End Backing.

(** ** Fee rates, kept for a few seconds *)
Definition FEE_RATE_CACHE_MS : Z := 15000.
Record FeeRatesCache := { frc_at : Z; frc_rates : FeeRates }.

(** The rates and the cache after the call. *)
Definition feeRates (provider : FeeProvider) (now : Z) (cache : option FeeRatesCache) : FeeRates * option FeeRatesCache :=
  let fresh := let rates := loadFeeRates provider in (rates, Some {| frc_at := now; frc_rates := rates |}) in
  match cache with
  | Some c => if now - frc_at c <? FEE_RATE_CACHE_MS then (frc_rates c, cache) else fresh
  | None => fresh
  end.

(** ** transition-signer.ts: the limits of the development policy *)
Definition DEV_MINT_LIMITS : MintLimits :=
  {| ml_maxMintAtoms := 1000000000 * 100000000; ml_maxGrossSats := Some 200000; ml_minGrossSats := 0 |}.

Definition mintLimits (config : V3AppConfig) : MintLimits := default DEV_MINT_LIMITS (ac_mintLimits config).

(** ** Quotes *)
Record BuyCost := { bc_gross : Z; bc_fee : Z; bc_creator : Z; bc_total : Z }.

Inductive LimitedBy := ByBudget | ByPerMintLimit | BySupply.

Record BuyForSats := {
  bs_amountAtoms : Z; bs_grossSats : Z; bs_feeSats : Z; bs_creatorFeeSats : Z; bs_carrierSats : Z; bs_totalSats : Z;
  bs_limitedBy : LimitedBy; bs_minGrossSats : Z; bs_maxGrossSats : option Z; bs_minSpendSats : option Z
}.

Section BuyQuote.
Context (config : V3AppConfig).

(** Of [n] tokens, minted from a supply. *)
Definition costOf (supplyTokens n : Z) : result BuyCost :=
  gross ← grossBuy supplyTokens n;
  fee ← mintFeeSats gross (n * ATOMS_PER_TOKEN) (ac_buyFeeBps config) (ac_buyFeeFlatSats config) (buyFeeLotSats COVE_FEE_CONFIG);
  creator ← creatorFeeSats gross (creatorFeeBps COVE_FEE_CONFIG);
  Ok {| bc_gross := gross; bc_fee := fee; bc_creator := creator; bc_total := gross + fee + creator + TOKEN_CARRIER_SATS |}.

(** [while (lo < hi)]: the largest value that fits. *)
Fixpoint search_most (fuel : nat) (fits : Z → result bool) (lo hi : Z) : result Z :=
  match fuel with
  | O => Throw out_of_fuel
  | S fuel =>
      if lo <? hi then
        let mid := Z.quot (lo + hi + 1) 2 in
        ok ← fits mid;
        if (ok : bool) then search_most fuel fits mid hi else search_most fuel fits lo (mid - 1)
      else Ok lo
  end.

(** [while (a < b)]: the smallest value that is enough. *)
Fixpoint search_least (fuel : nat) (enough : Z → result bool) (a b : Z) : result Z :=
  match fuel with
  | O => Throw out_of_fuel
  | S fuel =>
      if a <? b then
        let m := Z.quot (a + b) 2 in
        ok ← enough m;
        if (ok : bool) then search_least fuel enough a m else search_least fuel enough (m + 1) b
      else Ok a
  end.

(** One round less than halves the interval; its width is enough. *)
Definition search_fuel (lo hi : Z) : nat := S (Z.to_nat (hi - lo)).

Definition fits_budget (supplyTokens budgetSats : Z) (limits : MintLimits) (lots : Z) : result bool :=
  c ← costOf supplyTokens (lots * LOT_TOKENS);
  Ok ((bc_total c <=? budgetSats) && match ml_maxGrossSats limits with Some m => bc_gross c <=? m | None => true end).

Definition meets_minimum (supplyTokens : Z) (limits : MintLimits) (lots : Z) : result bool :=
  c ← costOf supplyTokens (lots * LOT_TOKENS); Ok (ml_minGrossSats limits <=? bc_gross c).

(** The smallest budget that mints anything. *)
Definition min_spend (supplyTokens remainingLots : Z) (limits : MintLimits) : result (option Z) :=
  if 0 <? remainingLots then
    a ← search_least (search_fuel 1 remainingLots) (meets_minimum supplyTokens limits) 1 remainingLots;
    c ← costOf supplyTokens (a * LOT_TOKENS);
    Ok (if ml_minGrossSats limits <=? bc_gross c then Some (bc_total c) else None)
  else Ok None.

(** What the state of the vault offers for a budget. *)
Definition buy_for_sats (state : CoveStateV2) (budgetSats : Z) : result BuyForSats :=
  let supplyTokens := Z.quot (issuedPublicSupplyAtoms state) ATOMS_PER_TOKEN in
  let remaining := Z.quot (PUBLIC_SUPPLY_ATOMS - issuedPublicSupplyAtoms state) ATOMS_PER_TOKEN in
  let limits := mintLimits config in
  let perMintLots := Z.quot (Z.quot (ml_maxMintAtoms limits) ATOMS_PER_TOKEN) LOT_TOKENS in
  let remainingLots := Z.quot remaining LOT_TOKENS in
  let hiLots := if remainingLots <? perMintLots then remainingLots else perMintLots in
  loLots ← search_most (search_fuel 0 hiLots) (fits_budget supplyTokens budgetSats limits) 0 hiLots;
  let lo := loLots * LOT_TOKENS in
  let perMintTokens := perMintLots * LOT_TOKENS in
  minSpendSats ← min_spend supplyTokens remainingLots limits;
  let quote amount gross fee creator total by_ := {|
    bs_amountAtoms := amount; bs_grossSats := gross; bs_feeSats := fee; bs_creatorFeeSats := creator;
    bs_carrierSats := TOKEN_CARRIER_SATS; bs_totalSats := total; bs_limitedBy := by_;
    bs_minGrossSats := ml_minGrossSats limits; bs_maxGrossSats := ml_maxGrossSats limits; bs_minSpendSats := minSpendSats |} in
  if lo =? 0 then Ok (quote 0 0 0 0 0 ByBudget)
  else
    c ← costOf supplyTokens lo;
    if bc_gross c <? ml_minGrossSats limits then Ok (quote 0 0 0 0 0 ByBudget)
    else
      next ← (if lo <? remaining then n ← costOf supplyTokens (lo + LOT_TOKENS); Ok (Some n) else Ok None);
      let limitedBy :=
        if lo =? remaining then BySupply
        else if (lo =? perMintTokens) || match next with Some n => bc_total n <=? budgetSats | None => false end
        then ByPerMintLimit else ByBudget in
      Ok (quote (lo * ATOMS_PER_TOKEN) (bc_gross c) (bc_fee c) (bc_creator c) (bc_total c) limitedBy).
End BuyQuote.

Record BackingQuote := {
  bq_tokenId : string; bq_amountAtoms : Z; bq_stateHash : string; bq_backingOutpoint : OutPoint;
  bq_supplyBeforeAtoms : Z; bq_supplyAfterAtoms : Z; bq_backingBeforeSats : Z; bq_backingAfterSats : Z;
  bq_grossSats : Z; bq_feeSats : Z; bq_creatorFeeSats : Z; bq_feeBps : Z; bq_indexedHeight : Z;
  bq_indexedBlockHash : string; bq_expiresAtHeight : Z
}.

Record RedeemQuote := {
  rq_tokenId : string; rq_amountAtoms : Z; rq_stateHash : string; rq_backingOutpoint : OutPoint;
  rq_supplyBeforeAtoms : Z; rq_supplyAfterAtoms : Z; rq_backingBeforeSats : Z; rq_backingAfterSats : Z;
  rq_grossSats : Z; rq_feeSats : Z; rq_netSats : Z
}.

Definition assertRedeemPayoutIsPayable (grossSats feeSats : Z) (payoutScript : list byte) : result unit :=
  check ← checkRedeemPayout grossSats feeSats payoutScript;
  throw_if (negb (isPayable check))
    (AppError "ECONOMIC_DUST" ("this sale is worth " +:+ pretty (rpc_grossSats check) +:+ " sats and the exit fee is "
       +:+ pretty (rpc_feeSats check) +:+ " sats, so it would pay out " +:+ pretty (rpc_netSats check)
       +:+ " sats. A sale has to be worth at least " +:+ pretty (minimumGrossSats check)
       +:+ " sats to be worth making. Sell a larger amount.")).

(** What a sale of [amountAtoms] from a state is worth, before and in fees. *)
Definition redeem_worth (config : V3AppConfig) (state : CoveStateV2) (amountAtoms : Z) : result (Z * Z) :=
  gross ← grossRedeem (Z.quot (issuedPublicSupplyAtoms state) ATOMS_PER_TOKEN) (Z.quot amountAtoms ATOMS_PER_TOKEN);
  fee ← redeemFeeSats gross (ac_redeemFeeBps config) (ac_redeemFeeFlatSats config) (redeemFeeMinSats COVE_FEE_CONFIG);
  Ok (gross, fee).

Section Quotes.
Context {C : Crypto} {B : Bitcoin} {PG : Postgres}.
Context (bad_tx_message : string → string).
Context (getRawTransaction : string → result string) (d : V3Db) (sessions : list TxSessionRow) (config : V3AppConfig).

Notation loadBacking := (loadBacking bad_tx_message getRawTransaction d sessions).

Definition quoteBuyForSats (tokenId : string) (budgetSats : Z) : result BuyForSats :=
  backing ← loadBacking tokenId;
  buy_for_sats config (lb_state backing) budgetSats.

Definition not_whole_tokens (amountAtoms : Z) : bool :=
  (amountAtoms <=? 0) || negb (Z.rem amountAtoms ATOMS_PER_TOKEN =? 0).

Definition quoteBackingBuy (tokenId : string) (amountAtoms : Z) : result BackingQuote :=
  throw_if (not_whole_tokens amountAtoms) (AppError "TOKEN_AMOUNT_INVALID" "backing buy requires whole display tokens");;
  backing ← loadBacking tokenId;
  let supply := issuedPublicSupplyAtoms (lb_state backing) in
  throw_if (PUBLIC_SUPPLY_ATOMS <? supply + amountAtoms) (AppError "TOKEN_AMOUNT_INVALID" "exceeds public cap");;
  gross ← grossBuy (Z.quot supply ATOMS_PER_TOKEN) (Z.quot amountAtoms ATOMS_PER_TOKEN);
  fee ← mintFeeSats gross amountAtoms (ac_buyFeeBps config) (ac_buyFeeFlatSats config) (buyFeeLotSats COVE_FEE_CONFIG);
  next ← applyMintV2 (lb_state backing) amountAtoms;
  let c := head (select (λ _, true) (coveV3Cursor d)) in
  creator ← creatorFeeSats gross (creatorFeeBps COVE_FEE_CONFIG);
  Ok {| bq_tokenId := tokenId; bq_amountAtoms := amountAtoms; bq_stateHash := lb_stateHash backing;
        bq_backingOutpoint := lb_outpoint backing; bq_supplyBeforeAtoms := supply;
        bq_supplyAfterAtoms := issuedPublicSupplyAtoms (nextState next);
        bq_backingBeforeSats := backingSats (lb_state backing); bq_backingAfterSats := backingSats (nextState next);
        bq_grossSats := gross; bq_feeSats := fee; bq_creatorFeeSats := creator; bq_feeBps := ac_buyFeeBps config;
        bq_indexedHeight := default 0 (cr_height <$> c); bq_indexedBlockHash := default ""%string (cr_blockHash <$> c);
        bq_expiresAtHeight := default 0 (cr_height <$> c) + 2 |}.

Definition quoteRedeem (tokenId : string) (amountAtoms : Z) : result RedeemQuote :=
  throw_if (not_whole_tokens amountAtoms) (AppError "TOKEN_AMOUNT_INVALID" "redeem requires whole display tokens");;
  backing ← loadBacking tokenId;
  '(gross, fee) ← redeem_worth config (lb_state backing) amountAtoms;
  assertRedeemPayoutIsPayable gross fee (ac_feeScript config);;
  next ← applyRedeemV2 (lb_state backing) amountAtoms;
  Ok {| rq_tokenId := tokenId; rq_amountAtoms := amountAtoms; rq_stateHash := lb_stateHash backing;
        rq_backingOutpoint := lb_outpoint backing; rq_supplyBeforeAtoms := issuedPublicSupplyAtoms (lb_state backing);
        rq_supplyAfterAtoms := issuedPublicSupplyAtoms (nextState next);
        rq_backingBeforeSats := backingSats (lb_state backing); rq_backingAfterSats := backingSats (nextState next);
        rq_grossSats := gross; rq_feeSats := fee; rq_netSats := gross - fee |}.
End Quotes.
