(* ===== verification/AppQuoteInv.v ===== *)
(** * What a quote promises

    The tip a quote is made on follows from the confirmed backing by mints and
    redemptions; a budget buys the most lots it can; the quoted price is the
    one the transition takes. *)
From S2P Require Import Prelude Bytes Curve Economics Wire Covenant Vault Indexer Store Hydrate Lockstep Spend Guardian AppConfig AppFunding TxSession AppQuote.

(** ** The searches *)
Section Search.
Context (p : Z → Prop).
Context `{∀ z, Decision (p z)}.

Lemma search_most_spec fits fuel : ∀ lo hi, (Z.to_nat (hi - lo) < fuel)%nat → 0 ≤ lo ≤ hi →
  (∀ k, lo < k ≤ hi → fits k = Ok (bool_decide (p k))) →
  (∀ j k, lo < j ≤ k → k ≤ hi → p k → p j) →
  ∃ r, search_most fuel fits lo hi = Ok r ∧ lo ≤ r ≤ hi ∧ (r = lo ∨ p r) ∧ ∀ k, r < k ≤ hi → ¬ p k.
Proof.
  induction fuel as [|fuel IH]; intros lo hi Hf Hlo Hfits Hmono; [lia|]. cbn [search_most].
  destruct (Z.ltb_spec lo hi) as [Hlt|Hge]; [|exists lo; split_and!; [done|lia..|by left|lia]].
  rewrite quot_div by lia. set (mid := (lo + hi + 1) `div` 2).
  assert (lo < mid ≤ hi) as Hmid by (pose proof (Z.div_mod (lo + hi + 1) 2 ltac:(lia)); pose proof (Z.mod_pos_bound (lo + hi + 1) 2 ltac:(lia)); lia).
  clearbody mid. rewrite Hfits, bind_of_Ok by lia. destruct (bool_decide (p mid)) eqn:E; to_prop.
  - destruct (IH mid hi) as (r & Hr & Hb & Hp & Hk); [lia|lia|intros; apply Hfits; lia| |].
    { intros j k ? ?. apply Hmono; lia. }
    exists r. split_and!; [done|lia..| |done]. destruct Hp as [->|]; by right.
  - destruct (IH lo (mid - 1)) as (r & Hr & Hb & Hp & Hk); [lia|lia|intros; apply Hfits; lia| |].
    { intros j k ? ?. apply Hmono; lia. }
    exists r. split_and!; [done|lia..|done|]. intros k Hrk Hpk. destruct (decide (k < mid)) as [|Hge].
    + apply (Hk k); [lia|done].
    + apply E. apply (Hmono mid k); [lia..|done].
Qed.

Lemma search_least_spec enough fuel : ∀ a b, (Z.to_nat (b - a) < fuel)%nat → 0 ≤ a ≤ b →
  (∀ k, a ≤ k < b → enough k = Ok (bool_decide (p k))) →
  (∀ j k, a ≤ j ≤ k → k ≤ b → p j → p k) →
  ∃ r, search_least fuel enough a b = Ok r ∧ a ≤ r ≤ b ∧ (r = b ∨ p r) ∧ ∀ k, a ≤ k < r → ¬ p k.
Proof.
  induction fuel as [|fuel IH]; intros a b Hf Ha Henough Hmono; [lia|]. cbn [search_least].
  destruct (Z.ltb_spec a b) as [Hlt|Hge]; [|exists a; split_and!; [done|lia..|left; lia|lia]].
  rewrite quot_div by lia. set (m := (a + b) `div` 2).
  assert (a ≤ m < b) as Hm by (pose proof (Z.div_mod (a + b) 2 ltac:(lia)); pose proof (Z.mod_pos_bound (a + b) 2 ltac:(lia)); lia).
  clearbody m. rewrite Henough, bind_of_Ok by lia. destruct (bool_decide (p m)) eqn:E; to_prop.
  - destruct (IH a m) as (r & Hr & Hb & Hp & Hk); [lia|lia|intros; apply Henough; lia| |].
    { intros j k ? ?. apply Hmono; lia. }
    exists r. split_and!; [done|lia..| |done]. destruct Hp as [->|]; by right.
  - destruct (IH (m + 1) b) as (r & Hr & Hb & Hp & Hk); [lia|lia|intros; apply Henough; lia| |].
    { intros j k ? ?. apply Hmono; lia. }
    exists r. split_and!; [done|lia..|done|]. intros k Hrk Hpk. destruct (decide (m < k)) as [|Hge].
    + apply (Hk k); [lia|done].
    + apply E. apply (Hmono k m); [lia..|done].
Qed.
End Search.

(** ** The cost of lots *)
Section Cost.
Context (config : V3AppConfig).
Context (Hbps : 0 ≤ ac_buyFeeBps config) (Hflat : 0 ≤ ac_buyFeeFlatSats config).

(** Of [n] lots, after [k]. *)
Definition lot_cost (k n : Z) : BuyCost :=
  let g := lot_reserve (k + n) - lot_reserve k in
  let fee := ac_buyFeeFlatSats config + buyFeeLotSats COVE_FEE_CONFIG * n + bps_part g (ac_buyFeeBps config) in
  let creator := Z.max CREATOR_MIN_SATS (bps_part g (creatorFeeBps COVE_FEE_CONFIG)) in
  {| bc_gross := g; bc_fee := fee; bc_creator := creator; bc_total := g + fee + creator + TOKEN_CARRIER_SATS |}.

Lemma grossBuy_lots k n : 0 ≤ k → 0 < n → k + n ≤ MAX_LOTS →
  grossBuy (k * LOT_TOKENS) (n * LOT_TOKENS) = Ok (lot_reserve (k + n) - lot_reserve k).
Proof.
  intros Hk Hn Hm. pose proof (lot_tokens_range k ltac:(lia)). pose proof (lot_tokens_range (k + n) ltac:(lia)).
  pose proof (lot_reserve_strict k n Hk Hn). assert (0 < LOT_TOKENS) by done.
  apply grossBuy_Ok. unfold lot_reserve in *. rewrite <- Z.mul_add_distr_r. split_and!; try done; nia.
Qed.

Lemma grossRedeem_lots k n : k ≤ MAX_LOTS → 0 < n ≤ k →
  grossRedeem (k * LOT_TOKENS) (n * LOT_TOKENS) = Ok (lot_reserve k - lot_reserve (k - n)).
Proof.
  intros Hk Hn. pose proof (lot_tokens_range k ltac:(lia)). pose proof (lot_reserve_strict (k - n) n ltac:(lia) ltac:(lia)) as Hs.
  rewrite Z.sub_add in Hs. assert (0 < LOT_TOKENS) by done. apply grossRedeem_Ok. unfold lot_reserve in *.
  rewrite <- Z.mul_sub_distr_r. split_and!; try done; nia.
Qed.

Lemma costOf_lots k n : 0 ≤ k → 0 < n → k + n ≤ MAX_LOTS →
  costOf config (k * LOT_TOKENS) (n * LOT_TOKENS) = Ok (lot_cost k n).
Proof using Hbps Hflat.
  intros Hk Hn Hm. unfold costOf, lot_cost. rewrite grossBuy_lots by done. step_ok. cbn zeta.
  pose proof (lot_reserve_strict k n Hk Hn) as Hg. set (g := lot_reserve (k + n) - lot_reserve k). assert (27 ≤ g) as H27 by (unfold g; lia). clearbody g.
  unfold mintFeeSats, creatorFeeSats. replace (Z.quot (n * LOT_TOKENS * ATOMS_PER_TOKEN) (LOT_TOKENS * ATOMS_PER_TOKEN)) with n.
  2:{ rewrite <- Z.mul_assoc. by rewrite Z.quot_mul. }
  pose proof (bps_part_bounds g (ac_buyFeeBps config) ltac:(lia) Hbps).
  assert (0 < buyFeeLotSats COVE_FEE_CONFIG) by done. assert (0 ≤ CREATOR_MIN_SATS) by done.
  assert (0 ≤ buyFeeLotSats COVE_FEE_CONFIG * n) by nia. assert (0 ≤ creatorFeeBps COVE_FEE_CONFIG) by done.
  rewrite !deterministicFee_valid by lia. rewrite !bind_of_Ok. cbn beta.
  destruct (Z.eqb_spec g 0); [lia|]. rewrite (Z.max_r 0) by lia. by rewrite Z.add_0_l.
Qed.

Lemma lot_cost_mono k n m : 0 ≤ k → n ≤ m → 0 ≤ n →
  bc_gross (lot_cost k n) ≤ bc_gross (lot_cost k m) ∧ bc_total (lot_cost k n) ≤ bc_total (lot_cost k m).
Proof using Hbps.
  intros Hk Hnm Hn. cbn [lot_cost bc_gross bc_total]. assert (lot_reserve (k + n) ≤ lot_reserve (k + m)) as Hg.
  { destruct (decide (n = m)) as [->|]; [done|]. pose proof (lot_reserve_strict (k + n) (m - n) ltac:(lia) ltac:(lia)) as Hs.
    replace (k + n + (m - n)) with (k + m) in Hs by lia. lia. }
  assert (0 < buyFeeLotSats COVE_FEE_CONFIG) by done.
  pose proof (bps_part_mono (lot_reserve (k + n) - lot_reserve k) (lot_reserve (k + m) - lot_reserve k) _ Hbps ltac:(lia)).
  assert (0 ≤ creatorFeeBps COVE_FEE_CONFIG) as Hc by done.
  pose proof (bps_part_mono (lot_reserve (k + n) - lot_reserve k) (lot_reserve (k + m) - lot_reserve k) _ Hc ltac:(lia)).
  split; [lia|]. assert (buyFeeLotSats COVE_FEE_CONFIG * n ≤ buyFeeLotSats COVE_FEE_CONFIG * m) by nia. lia.
Qed.
End Cost.

(** ** What a budget buys *)
Section Buy.
Context (config : V3AppConfig).
Context (Hbps : 0 ≤ ac_buyFeeBps config) (Hflat : 0 ≤ ac_buyFeeFlatSats config).
Context (Hmax : 0 ≤ ml_maxMintAtoms (mintLimits config)).

Notation limits := (mintLimits config).
Notation lot_cost := (lot_cost config).

(** [n] more lots, of [k] issued, are within the supply and the policy's
    limits; are within the budget; are not too few for the policy. *)
Definition within_limits (k n : Z) : Prop :=
  k + n ≤ MAX_LOTS ∧ n * LOT_ATOMS ≤ ml_maxMintAtoms limits
  ∧ match ml_maxGrossSats limits with Some m => bc_gross (lot_cost k n) ≤ m | None => True end.
Definition affordable (budget k n : Z) : Prop := bc_total (lot_cost k n) ≤ budget.
Definition large_enough (k n : Z) : Prop := ml_minGrossSats limits ≤ bc_gross (lot_cost k n).

Definition gross_fits (k n : Z) : Prop :=
  match ml_maxGrossSats limits with Some m => bc_gross (lot_cost k n) ≤ m | None => True end.
#[local] Instance gross_fits_dec k n : Decision (gross_fits k n).
Proof. unfold gross_fits. destruct (ml_maxGrossSats limits); apply _. Defined.
#[local] Instance affordable_dec budget k n : Decision (affordable budget k n).
Proof. unfold affordable. apply _. Defined.
#[local] Instance large_enough_dec k n : Decision (large_enough k n).
Proof. unfold large_enough. apply _. Defined.

Lemma fits_budget_lots budget k n : 0 ≤ k → 0 < n → k + n ≤ MAX_LOTS →
  fits_budget config (k * LOT_TOKENS) budget limits n = Ok (bool_decide (affordable budget k n ∧ gross_fits k n)).
Proof using Hbps Hflat.
  intros. unfold fits_budget. rewrite costOf_lots by done. step_ok. f_equal. apply eq_bool_prop_intro.
  rewrite bool_decide_spec, Is_true_true, andb_true_iff, Z.leb_le. unfold affordable, gross_fits.
  destruct (ml_maxGrossSats limits); rewrite ?Z.leb_le; tauto.
Qed.

Lemma meets_minimum_lots k n : 0 ≤ k → 0 < n → k + n ≤ MAX_LOTS →
  meets_minimum config (k * LOT_TOKENS) limits n = Ok (bool_decide (large_enough k n)).
Proof using Hbps Hflat.
  intros. unfold meets_minimum. rewrite costOf_lots by done. step_ok. f_equal. apply eq_bool_prop_intro.
  by rewrite bool_decide_spec, Is_true_true, Z.leb_le.
Qed.

(** The smallest number of lots that is worth minting, and its cost. *)
Lemma min_spend_spec k : 0 ≤ k ≤ MAX_LOTS →
  ∃ o, min_spend config (k * LOT_TOKENS) (MAX_LOTS - k) limits = Ok o ∧
  match o with
  | Some x => ∃ n, 0 < n ∧ k + n ≤ MAX_LOTS ∧ large_enough k n ∧ x = bc_total (lot_cost k n)
      ∧ ∀ m, 0 < m → k + m ≤ MAX_LOTS → large_enough k m → x ≤ bc_total (lot_cost k m)
  | None => ∀ m, 0 < m → k + m ≤ MAX_LOTS → ¬ large_enough k m
  end.
Proof using Hbps Hflat.
  intros Hk. unfold min_spend. destruct (Z.ltb_spec 0 (MAX_LOTS - k)) as [Hlt|Hge].
  2:{ exists None. split; [done|]. intros. lia. }
  destruct (search_least_spec (large_enough k) (meets_minimum config (k * LOT_TOKENS) limits)
              (search_fuel 1 (MAX_LOTS - k)) 1 (MAX_LOTS - k)) as (r & Hr & Hb & Hp & Hmin).
  { unfold search_fuel. lia. }
  { lia. }
  { intros n Hn. apply meets_minimum_lots; lia. }
  { intros j n ? ?. unfold large_enough. pose proof (lot_cost_mono config Hbps k j n ltac:(lia) ltac:(lia) ltac:(lia)). lia. }
  rewrite Hr. step_ok. rewrite costOf_lots by (done || lia). step_ok. eexists; split; [done|].
  destruct (Z.leb_spec (ml_minGrossSats limits) (bc_gross (lot_cost k r))) as [Hle|Hgt].
  - exists r. split_and!; [lia..|done|done|]. intros m Hm Hkm Hl. apply lot_cost_mono; [done|lia| |lia].
    destruct (decide (m < r)) as [|]; [|lia]. exfalso. by apply (Hmin m); [lia|].
  - intros m Hm Hkm Hl. destruct Hp as [->|Hp]; [|unfold large_enough in Hp; lia].
    pose proof (lot_cost_mono config Hbps k m (MAX_LOTS - k) ltac:(lia) ltac:(lia) ltac:(lia)). unfold large_enough in Hl. lia.
Qed.

(** The most lots the budget and the limits allow, before the minimum. *)
Lemma most_lots budget k : 0 ≤ k ≤ MAX_LOTS →
  let perMint := ml_maxMintAtoms limits `div` LOT_ATOMS in
  ∃ n, search_most (search_fuel 0 (Z.min (MAX_LOTS - k) perMint)) (fits_budget config (k * LOT_TOKENS) budget limits) 0
         (Z.min (MAX_LOTS - k) perMint) = Ok n
    ∧ 0 ≤ n ≤ Z.min (MAX_LOTS - k) perMint ∧ (0 < n → affordable budget k n ∧ within_limits k n)
    ∧ ∀ m, n < m → within_limits k m → ¬ affordable budget k m.
Proof using Hbps Hflat Hmax.
  intros Hk perMint. assert (0 < LOT_ATOMS) as HL by done.
  assert (∀ m, m * LOT_ATOMS ≤ ml_maxMintAtoms limits ↔ m ≤ perMint) as Hper.
  { intros m. unfold perMint. split; [intros; apply Z.div_le_lower_bound; lia|].
    intros. pose proof (Z.mul_div_le (ml_maxMintAtoms limits) LOT_ATOMS HL). nia. }
  assert (0 ≤ perMint) as Hper0 by (apply Z.div_pos; lia). clearbody perMint.
  destruct (search_most_spec (λ n, affordable budget k n ∧ gross_fits k n)
              (fits_budget config (k * LOT_TOKENS) budget limits)
              (search_fuel 0 (Z.min (MAX_LOTS - k) perMint)) 0 (Z.min (MAX_LOTS - k) perMint)) as (n & Hn & Hb & Hp & Hbest).
  { unfold search_fuel. lia. }
  { lia. }
  { intros n Hn. apply fits_budget_lots; lia. }
  { intros j n ? ?. unfold affordable, gross_fits.
    pose proof (lot_cost_mono config Hbps k j n ltac:(lia) ltac:(lia) ltac:(lia)). destruct (ml_maxGrossSats limits); lia. }
  exists n. split_and!; [done|lia..| |].
  - intros Hpos. destruct Hp as [->|[Ha Hg]]; [lia|]. split; [done|]. split_and!; [lia|by apply Hper; lia|done].
  - intros m Hm (Hkm & Hper' & Hg) Ha. apply Hper in Hper'. by apply (Hbest m); [lia|].
Qed.

(** A mint the budget can have. *)
Definition offer (budget k n : Z) : Prop := 0 < n ∧ within_limits k n ∧ affordable budget k n ∧ large_enough k n.

(** Why a quote stops where it does. *)
Definition limit_reason (budget k n : Z) (by_ : LimitedBy) : Prop :=
  match by_ with
  | BySupply => k + n = MAX_LOTS
  | ByPerMintLimit => k + n < MAX_LOTS ∧ ¬ within_limits k (n + 1)
  | ByBudget => k + n < MAX_LOTS ∧ ¬ affordable budget k (n + 1)
  end.

(** The quote's figures are those of [n] lots. *)
Definition quotes_lots (k n : Z) (q : BuyForSats) : Prop :=
  let c := lot_cost k n in
  bs_amountAtoms q = n * LOT_ATOMS ∧ bs_grossSats q = bc_gross c ∧ bs_feeSats q = bc_fee c
  ∧ bs_creatorFeeSats q = bc_creator c ∧ bs_totalSats q = bc_total c.

Lemma quot_lot_atoms x : 0 ≤ x → Z.quot (Z.quot x ATOMS_PER_TOKEN) LOT_TOKENS = x `div` LOT_ATOMS.
Proof.
  intros Hx. assert (0 < ATOMS_PER_TOKEN) by done. assert (0 < LOT_TOKENS) by done.
  rewrite (quot_div x) by done. rewrite quot_div by (done || by apply Z.div_pos).
  rewrite Z.div_div by done. unfold LOT_ATOMS. by rewrite Z.mul_comm.
Qed.

Lemma remaining_lots k : Z.quot (PUBLIC_SUPPLY_ATOMS - k * LOT_ATOMS) ATOMS_PER_TOKEN = (MAX_LOTS - k) * LOT_TOKENS.
Proof.
  change PUBLIC_SUPPLY_ATOMS with (MAX_LOTS * LOT_ATOMS). rewrite <- Z.mul_sub_distr_r. apply quot_lots.
Qed.

(** The reason that is reported, from the cost of the next lot. *)
Lemma limited_by_spec budget k n :
  0 ≤ k → 0 < n ≤ Z.min (MAX_LOTS - k) (ml_maxMintAtoms limits `div` LOT_ATOMS) →
  (∀ m, n < m → within_limits k m → ¬ affordable budget k m) →
  let lo := n * LOT_TOKENS in
  ∃ next, (if lo <? (MAX_LOTS - k) * LOT_TOKENS
           then c ← costOf config (k * LOT_TOKENS) (lo + LOT_TOKENS); Ok (Some c) else Ok None) = Ok next
  ∧ limit_reason budget k n
      (if lo =? (MAX_LOTS - k) * LOT_TOKENS then BySupply
       else if (lo =? (ml_maxMintAtoms limits `div` LOT_ATOMS) * LOT_TOKENS)
               || match next with Some c => bc_total c <=? budget | None => false end
            then ByPerMintLimit else ByBudget).
Proof using Hbps Hflat Hmax.
  intros Hk Hn Hbest lo. unfold lo. assert (0 < LOT_TOKENS) as HT by done. assert (0 < LOT_ATOMS) as HL by done.
  destruct (Z.ltb_spec (n * LOT_TOKENS) ((MAX_LOTS - k) * LOT_TOKENS)) as [Hlt|Hge].
  2:{ assert (n = MAX_LOTS - k) as -> by nia. exists None. split; [done|]. rewrite Z.eqb_refl. cbn. lia. }
  assert (k + (n + 1) ≤ MAX_LOTS) as Hkn by nia.
  replace (n * LOT_TOKENS + LOT_TOKENS) with ((n + 1) * LOT_TOKENS) by lia.
  rewrite costOf_lots by (done || lia). step_ok. eexists; split; [done|].
  destruct (Z.eqb_spec (n * LOT_TOKENS) ((MAX_LOTS - k) * LOT_TOKENS)); [lia|].
  destruct (_ || _) eqn:E; to_prop; cbn [limit_reason]; (split; [lia|]).
  - intros Hw. destruct E as [E|E].
    + destruct Hw as (_ & Hper & _). assert (n = ml_maxMintAtoms limits `div` LOT_ATOMS) as -> by nia.
      pose proof (Z.mul_succ_div_gt (ml_maxMintAtoms limits) LOT_ATOMS HL). nia.
    + by apply (Hbest (n + 1)); [lia|..].
  - unfold affordable. lia.
Qed.

Lemma buy_for_sats_spec t k budget : 0 ≤ k ≤ MAX_LOTS →
  ∃ q n, buy_for_sats config (state_at t k) budget = Ok q ∧ 0 ≤ n ∧ bs_amountAtoms q = n * LOT_ATOMS
  ∧ (0 < n → offer budget k n ∧ quotes_lots k n q ∧ limit_reason budget k n (bs_limitedBy q))
  ∧ (∀ m, offer budget k m → m ≤ n)
  ∧ match bs_minSpendSats q with
    | Some x => (∃ m, 0 < m ∧ k + m ≤ MAX_LOTS ∧ large_enough k m ∧ x = bc_total (lot_cost k m))
                ∧ ∀ m, 0 < m → k + m ≤ MAX_LOTS → large_enough k m → x ≤ bc_total (lot_cost k m)
    | None => ∀ m, 0 < m → k + m ≤ MAX_LOTS → ¬ large_enough k m
    end.
Proof using Hbps Hflat Hmax.
  intros Hk. unfold buy_for_sats. cbn zeta. cbn [issuedPublicSupplyAtoms state_at].
  rewrite quot_lots, remaining_lots, quot_lot_atoms, Z.quot_mul by done.
  destruct (most_lots budget k Hk) as (n & Hn & Hb & Hp & Hbest). cbn zeta in Hn, Hb, Hp, Hbest.
  assert ((if MAX_LOTS - k <? ml_maxMintAtoms limits `div` LOT_ATOMS then MAX_LOTS - k else ml_maxMintAtoms limits `div` LOT_ATOMS)
          = Z.min (MAX_LOTS - k) (ml_maxMintAtoms limits `div` LOT_ATOMS)) as -> by (case_match; to_prop; lia).
  rewrite Hn, bind_of_Ok. destruct (min_spend_spec k Hk) as (o & Ho & Hspec). rewrite Ho, bind_of_Ok.
  assert (0 < LOT_TOKENS) as HT by done.
  assert (∀ m, offer budget k m → m ≤ n) as Hle.
  { intros m (Hm & Hw & Ha & _). destruct (decide (n < m)) as [Hnm|]; [|lia]. exfalso. by apply (Hbest m). }
  assert (match o with
    | Some x => (∃ m, 0 < m ∧ k + m ≤ MAX_LOTS ∧ large_enough k m ∧ x = bc_total (lot_cost k m))
                ∧ ∀ m, 0 < m → k + m ≤ MAX_LOTS → large_enough k m → x ≤ bc_total (lot_cost k m)
    | None => ∀ m, 0 < m → k + m ≤ MAX_LOTS → ¬ large_enough k m
    end) as Hmin by (destruct o; [naive_solver|done]).
  clear Hspec. destruct (Z.eqb_spec (n * LOT_TOKENS) 0) as [E|E].
  { assert (n = 0) as -> by lia. eexists _, 0. split; [done|]. split_and!; [lia|done|lia|done|done]. }
  destruct (Hp ltac:(lia)) as [Ha Hw]. rewrite costOf_lots by (done || (destruct Hw; lia)). rewrite bind_of_Ok.
  destruct (Z.ltb_spec (bc_gross (lot_cost k n)) (ml_minGrossSats limits)) as [Hlt|Hge].
  { eexists _, 0. split; [done|]. split_and!; [lia|done|lia| |done]. intros m Hm. pose proof (Hle m Hm) as Hmn.
    destruct Hm as (Hm & _ & _ & Hl). unfold large_enough in Hl.
    pose proof (lot_cost_mono config Hbps k m n ltac:(lia) Hmn ltac:(lia)). lia. }
  destruct (limited_by_spec budget k n ltac:(lia) ltac:(lia) Hbest) as (next & Hnext & Hreason).
  rewrite Hnext, bind_of_Ok. eexists _, n. split; [done|]. cbn [bs_amountAtoms bs_minSpendSats bs_limitedBy].
  split_and!; [lia|unfold LOT_ATOMS; lia| |done|done]. intros _. split; [unfold offer, large_enough; split_and!; [lia|done|done|lia]|]. split; [|done].
  unfold quotes_lots. cbn [bs_amountAtoms bs_grossSats bs_feeSats bs_creatorFeeSats bs_totalSats].
  split_and!; try done. unfold LOT_ATOMS. lia.
Qed.
End Buy.

(** ** The tip of the vault *)
Section Tip.
Context {C : Crypto} {B : Bitcoin} {PG : Postgres}.
Context (bad_tx_message : string → string).
Context (getRawTransaction : string → result string) (d : V3Db) (sessions : list TxSessionRow).

(** A backing as the indexer writes it: a state of the curve, its hash, and
    the vault output that holds the anchor and the reserve. *)
Definition backing_ok (b : LoadedBacking) : Prop :=
  validateStateV2 (lb_state b) = Ok tt ∧ stateHashV2 sha256 (lb_state b) = Ok (lb_stateHash b)
  ∧ si_valueSats (lb_input b) = RESERVE_ANCHOR_SATS + backingSats (lb_state b).

(** A session of the token that is on its way and records that it spends the
    vault output of [b]. *)
Definition on_its_way (tokenId : string) (b : LoadedBacking) (r : TxSessionRow) : Prop :=
  r ∈ sessions ∧ sx_tokenId r = Some tokenId ∧ sx_status r = BROADCAST
  ∧ sx_backingTxid r = Some (si_txid (lb_input b)) ∧ sx_backingVout r = Some (si_vout (lb_input b)).

(** The covenant's operation a message declares. *)
Definition declared (e : ParsedEnvelopeV2) : option covenant_op :=
  match e with
  | MintV2 _ amount _ => Some (OpMint amount)
  | RedeemV2 _ amount _ => Some (OpRedeem amount)
  | DeployV2 _ _ _ | TransferV2 _ _ => None
  end.

(** [b'] is what the transaction of the session [r] makes of the vault [b]: the
    node knows it under the session's id, its message declares the operation
    [o], the covenant allows [o] on the state of [b] and gives that of [b'], and
    output 1 is the vault output of [b']. *)
Definition row_step (b : LoadedBacking) (r : TxSessionRow) (o : covenant_op) (b' : LoadedBacking) : Prop :=
  ∃ txid raw tx e grossSats,
    sx_txid r = Some txid ∧ txid ≠ ""%string
    ∧ getRawTransaction txid = Ok raw ∧ tx_fromHex raw = Some tx
    ∧ decodeCoveOpReturnTx tx = Ok e ∧ declared e = Some o
    ∧ apply_op (lb_state b) o = Ok (lb_state b', grossSats)
    ∧ lb_outpoint b' = {| op_txid := getId tx; op_vout := 1 |}
    ∧ tx_outs tx !! 1%nat = Some {| txo_script := si_script (lb_input b'); txo_value := si_valueSats (lb_input b') |}
    ∧ stateHashV2 sha256 (lb_state b') = Ok (lb_stateHash b')
    ∧ si_valueSats (lb_input b') = RESERVE_ANCHOR_SATS + backingSats (lb_state b').

Definition mempool_step (tokenId : string) (b : LoadedBacking) (o : covenant_op) (b' : LoadedBacking) : Prop :=
  ∃ r, on_its_way tokenId b r ∧ row_step b r o b'.

(** A chain of them. *)
Inductive mempool_chain (tokenId : string) : LoadedBacking → list covenant_op → LoadedBacking → Prop :=
  | chain_nil b : mempool_chain tokenId b [] b
  | chain_cons b o b' ops b'' :
      mempool_step tokenId b o b' → mempool_chain tokenId b' ops b'' → mempool_chain tokenId b (o :: ops) b''.

(** The transition a message declares, as the source takes it. *)
Lemma declared_moved e s :
  (match e with
   | MintV2 _ amount _ => r ← applyMintV2 s amount; Ok (Some (nextState r))
   | RedeemV2 _ amount _ => r ← applyRedeemV2 s amount; Ok (Some (nextState r))
   | _ => Ok None
   end) = match declared e with Some o => '(next, _) ← apply_op s o; Ok (Some next) | None => Ok None end.
Proof. destruct e; cbn [declared apply_op]; try done; [by destruct (applyMintV2 _ _)|by destruct (applyRedeemV2 _ _)]. Qed.

Lemma pending_successor_spec tip raw next : pending_successor bad_tx_message tip raw = Ok (Some next) →
  ∃ tx e o grossSats, tx_fromHex raw = Some tx ∧ decodeCoveOpReturnTx tx = Ok e ∧ declared e = Some o
    ∧ apply_op (lb_state tip) o = Ok (lb_state next, grossSats)
    ∧ lb_outpoint next = {| op_txid := getId tx; op_vout := 1 |}
    ∧ tx_outs tx !! 1%nat = Some {| txo_script := si_script (lb_input next); txo_value := si_valueSats (lb_input next) |}
    ∧ stateHashV2 sha256 (lb_state next) = Ok (lb_stateHash next)
    ∧ si_valueSats (lb_input next) = RESERVE_ANCHOR_SATS + backingSats (lb_state next).
Proof.
  unfold pending_successor. intros H. apply bind_Ok in H as (tx & Htx & H). apply of_option_Ok in Htx.
  destruct (decodeCoveOpReturnTx tx) as [e|] eqn:Ee; [|done]. rewrite declared_moved in H.
  apply bind_Ok in H as (moved & Hm & H).
  destruct moved as [s|]; [|done]. destruct (tx_outs tx !! Z.to_nat BACKING_SUCCESSOR_VOUT) as [out|] eqn:Eo; [|done].
  destruct (Z.eqb_spec (txo_value out) (RESERVE_ANCHOR_SATS + backingSats s)) as [Ev|]; [|done].
  apply bind_Ok in H as (hash & Hh & H). injection H as <-. cbn [lb_state lb_input lb_stateHash si_txid si_vout si_script si_valueSats].
  destruct (declared e) as [o|] eqn:Ed; [|done]. apply bind_Ok in Hm as ([s' g] & Ho & [= ->]).
  exists tx, e, o, g. split_and!; try done. change (Z.to_nat BACKING_SUCCESSOR_VOUT) with 1%nat in Eo. rewrite Eo, <- Ev.
  by destruct out.
Qed.

(** Where the transaction of a session makes a step, the source takes it. *)
Lemma row_step_taken tip r o b' txid raw :
  row_step tip r o b' → sx_txid r = Some txid → getRawTransaction txid = Ok raw →
  ∃ next, pending_successor bad_tx_message tip raw = Ok (Some next).
Proof.
  intros (txid' & raw' & tx & e & g & Ex & _ & Er & Htx & Ee & Ed & Ho & _ & Eout & Hh & Hv) Ex' Er'.
  assert (raw' = raw) as -> by congruence.
  unfold pending_successor. rewrite Htx. cbn [of_option]. rewrite bind_of_Ok, Ee, declared_moved, Ed, Ho.
  rewrite !bind_of_Ok. change (Z.to_nat BACKING_SUCCESSOR_VOUT) with 1%nat. rewrite Eout. cbn [txo_value].
  rewrite Hv, Z.eqb_refl, Hh, bind_of_Ok. by eexists.
Qed.

Lemma spends_backing_spec tokenId b r : r ∈ sessions →
  spends_backing tokenId (si_txid (lb_input b)) (si_vout (lb_input b)) r = true ↔ on_its_way tokenId b r.
Proof.
  intros Hr. unfold spends_backing, on_its_way. rewrite !andb_true_iff, !bool_decide_eq_true.
  split; intros H; destruct_and! H; by split_and!.
Qed.

Lemma find_spend_spec tokenId b :
  match findBroadcastSpendOfBacking tokenId (si_txid (lb_input b)) (si_vout (lb_input b)) sessions with
  | Some o => ∃ r, on_its_way tokenId b r ∧ sx_txid r = o.1
  | None => ∀ r, ¬ on_its_way tokenId b r
  end.
Proof.
  unfold findBroadcastSpendOfBacking.
  pose proof (elem_of_select (spends_backing tokenId (si_txid (lb_input b)) (si_vout (lb_input b))) sessions) as Hin.
  destruct (select _ sessions) as [|r l]; cbn [head fmap option_fmap option_map].
  - intros r Hr. pose proof Hr as (Hs & _). apply (spends_backing_spec tokenId b r Hs) in Hr.
    by apply (not_elem_of_nil r), Hin.
  - exists r. split; [|done]. destruct (proj1 (Hin r) (list_elem_of_here _ _)) as [Hs Hr]. by apply spends_backing_spec.
Qed.

Lemma truthy_Some o s : truthy o = Some s → o = Some s ∧ s ≠ ""%string.
Proof. destruct o as [[]|]; cbn; [done| |done]. by intros [= <-]. Qed.

Lemma truthy_None o : truthy o = None → o = None ∨ o = Some ""%string.
Proof. destruct o as [[]|]; cbn; auto; congruence. Qed.

(** Where the walk ends: at the outpoint it was to stop at; where no session is
    on its way from; or where the transaction of one that is makes no step. *)
Definition walk_ends (tokenId : string) (tip : LoadedBacking) (stopAt : option OutPoint) : Prop :=
  stopAt = Some (lb_outpoint tip)
  ∨ (∀ r, ¬ on_its_way tokenId tip r)
  ∨ ∃ r, on_its_way tokenId tip r ∧ ∀ o b', ¬ row_step tip r o b'.

Lemma at_outpoint_spec b o : at_outpoint b o = true → o = lb_outpoint b.
Proof.
  unfold at_outpoint, lb_outpoint. rewrite andb_true_iff, String.eqb_eq, Z.eqb_eq. intros [-> ->]. by destruct o.
Qed.

Lemma follow_pending_spec n tokenId stopAt : ∀ b tip,
  follow_pending bad_tx_message getRawTransaction sessions n tokenId b stopAt = Ok tip →
  ∃ ops, mempool_chain tokenId b ops tip ∧ (length ops ≤ n)%nat ∧ (length ops = n ∨ walk_ends tokenId tip stopAt).
Proof.
  induction n as [|n IH]; intros b tip H.
  { injection H as <-. exists []. split_and!; [constructor|done|by left]. }
  cbn [follow_pending] in H.
  assert (tip = b → walk_ends tokenId b stopAt → ∃ ops, mempool_chain tokenId b ops tip ∧ (length ops ≤ S n)%nat
            ∧ (length ops = S n ∨ walk_ends tokenId tip stopAt)) as Hstop.
  { intros -> Hw. exists []. split_and!; [constructor|cbn; lia|by right]. }
  destruct (match stopAt with Some o => at_outpoint b o | None => false end) eqn:Eat.
  { injection H as <-. apply Hstop; [done|left]. destruct stopAt as [o|]; [|done]. by rewrite (at_outpoint_spec _ _ Eat). }
  pose proof (find_spend_spec tokenId b) as Ef.
  destruct (findBroadcastSpendOfBacking _ _ _ _) as [[txid op]|]; [|injection H as <-; apply Hstop; [done|by right; left]].
  destruct Ef as (r & Hr & Hx). cbn [fst] in Hx.
  assert ((∀ o b', ¬ row_step b r o b') → walk_ends tokenId b stopAt) as Hno by (intros ?; right; right; by exists r).
  destruct (truthy txid) as [t|] eqn:Et.
  2:{ injection H as <-. apply Hstop, Hno; [done|]. intros o b' (t & ? & ? & ? & ? & E & Ht & _).
      destruct (truthy_None _ Et) as [->| ->]; congruence. }
  apply truthy_Some in Et as [-> Ht].
  destruct (getRawTransaction t) as [raw|] eqn:Er.
  2:{ injection H as <-. apply Hstop, Hno; [done|]. intros o b' (t' & ? & ? & ? & ? & E & _ & E' & _). congruence. }
  apply bind_Ok in H as (next & Hn & H). destruct next as [next|].
  2:{ injection H as <-. apply Hstop, Hno; [done|]. intros o b' Hs. destruct (row_step_taken _ _ _ _ _ _ Hs Hx Er) as (? & ?). congruence. }
  apply IH in H as (ops & Hc & Hl & He).
  destruct (pending_successor_spec _ _ _ Hn) as (tx & e & o & g & ? & ? & ? & ? & ? & ? & ? & ?).
  exists (o :: ops). split_and!; [|cbn; lia|cbn; destruct He; [left; lia|by right]].
  econstructor; [|done]. exists r. split; [done|]. by exists t, raw, tx, e, g.
Qed.

Lemma mempool_chain_run tokenId b ops tip : mempool_chain tokenId b ops tip →
  ∃ ds, run_ops (lb_state b) ops = Ok (lb_state tip, ds).
Proof.
  induction 1 as [b|b o b' ops b'' Hs _ (ds & IH)]; [by exists []|].
  destruct Hs as (r & _ & txid & raw & tx & e & g & _ & _ & _ & _ & _ & _ & Ho & _). exists (g :: ds). cbn [run_ops].
  by rewrite Ho, bind_of_Ok, IH.
Qed.

Lemma mempool_chain_ok tokenId b ops tip : mempool_chain tokenId b ops tip → backing_ok b → backing_ok tip.
Proof.
  induction 1 as [b|b o b' ops b'' Hs _ IH]; [done|]. intros Hb. apply IH.
  destruct Hs as (r & _ & txid & raw & tx & e & g & _ & _ & _ & _ & _ & _ & Ho & _ & _ & Hh & Hv).
  apply apply_op_Ok in Ho as (_ & Hval & _). by split.
Qed.

(** C14: the state a quote is made on, when transitions of the vault are
    broadcast and not yet mined, follows from the confirmed one through at most
    twenty-four sessions of the token, all BROADCAST, each of which records that
    it spends the vault output the one before created.  Each step is what the
    session's transaction, as the node knows it, says: a mint or a redemption of
    the amount its message declares, which the covenant allows on the state
    before, with the successor's vault in output 1 holding the anchor and the
    reserve of its supply.  (That the transaction's own input is that vault
    output is not compared by the code.)  The walk stops only at the outpoint it
    was asked for, at the length limit, where no session of the token is
    BROADCAST from there, or where the transaction of the one it finds makes no
    such step. *)
Theorem pending_tip_sound tokenId confirmed stopAt tip :
  followPendingBacking bad_tx_message getRawTransaction sessions tokenId confirmed stopAt = Ok tip →
  backing_ok confirmed →
  ∃ ops ds, mempool_chain tokenId confirmed ops tip ∧ (length ops ≤ 24)%nat
    ∧ run_ops (lb_state confirmed) ops = Ok (lb_state tip, ds)
    ∧ backing_ok tip
    ∧ requiredBackingSats (Z.quot (issuedPublicSupplyAtoms (lb_state tip)) ATOMS_PER_TOKEN) = Ok (backingSats (lb_state tip))
    ∧ (length ops = 24%nat ∨ walk_ends tokenId tip stopAt).
Proof.
  intros H Hb. apply follow_pending_spec in H as (ops & Hc & Hl & He).
  destruct (mempool_chain_run _ _ _ _ Hc) as (ds & Hr). pose proof (mempool_chain_ok _ _ _ _ Hc Hb) as Hok.
  exists ops, ds. split_and!; try done. destruct Hok as (Hv & _). apply validateStateV2_Ok in Hv as (_ & k & Hk & ->).
  by apply requiredBackingSats_lots.
Qed.

(** ** Quotes *)
Context (config : V3AppConfig).

(** C27: what a budget buys is the most it can: the quote is for a whole number
    of lots that the budget, the supply and the policy's limits allow, at the
    prices and fees of exactly those lots, and no larger number is allowed; the
    reason given for stopping is true of the next lot; and the smallest budget
    it names is the least that mints anything. *)
Theorem quoteBuyForSats_best tokenId budget b :
  0 ≤ ac_buyFeeBps config → 0 ≤ ac_buyFeeFlatSats config → 0 ≤ ml_maxMintAtoms (mintLimits config) →
  loadBacking bad_tx_message getRawTransaction d sessions tokenId = Ok b → validateStateV2 (lb_state b) = Ok tt →
  ∃ q k n, quoteBuyForSats bad_tx_message getRawTransaction d sessions config tokenId budget = Ok q
  ∧ issuedPublicSupplyAtoms (lb_state b) = k * LOT_ATOMS ∧ 0 ≤ n ∧ bs_amountAtoms q = n * LOT_ATOMS
  ∧ (0 < n → offer config budget k n ∧ quotes_lots config k n q ∧ limit_reason config budget k n (bs_limitedBy q))
  ∧ (∀ m, offer config budget k m → m ≤ n)
  ∧ match bs_minSpendSats q with
    | Some x => (∃ m, 0 < m ∧ k + m ≤ MAX_LOTS ∧ large_enough config k m ∧ x = bc_total (lot_cost config k m))
                ∧ ∀ m, 0 < m → k + m ≤ MAX_LOTS → large_enough config k m → x ≤ bc_total (lot_cost config k m)
    | None => ∀ m, 0 < m → k + m ≤ MAX_LOTS → ¬ large_enough config k m
    end.
Proof.
  intros Hbps Hflat Hmax Hb Hv. apply validateStateV2_Ok in Hv as (_ & k & Hk & Es).
  destruct (buy_for_sats_spec config Hbps Hflat Hmax (tokenIdV2 (lb_state b)) k budget Hk) as (q & n & Hq & H).
  exists q, k, n. unfold quoteBuyForSats. rewrite Hb, bind_of_Ok, Es. split; [done|]. split; [done|]. exact H.
Qed.

Lemma quoteBackingBuy_Ok tokenId amountAtoms b q :
  loadBacking bad_tx_message getRawTransaction d sessions tokenId = Ok b →
  quoteBackingBuy bad_tx_message getRawTransaction d sessions config tokenId amountAtoms = Ok q →
    ∃ r, applyMintV2 (lb_state b) amountAtoms = Ok r ∧ bq_grossSats q = grossSats r
    ∧ bq_supplyAfterAtoms q = issuedPublicSupplyAtoms (nextState r) ∧ bq_backingAfterSats q = backingSats (nextState r)
    ∧ bq_backingAfterSats q = bq_backingBeforeSats q + bq_grossSats q ∧ bq_stateHash q = lb_stateHash b
    ∧ bq_backingOutpoint q = lb_outpoint b
    ∧ mintFeeSats (grossSats r) amountAtoms (ac_buyFeeBps config) (ac_buyFeeFlatSats config) (buyFeeLotSats COVE_FEE_CONFIG) = Ok (bq_feeSats q)
    ∧ creatorFeeSats (grossSats r) (creatorFeeBps COVE_FEE_CONFIG) = Ok (bq_creatorFeeSats q).
Proof.
  intros Hb H.
  unfold quoteBackingBuy in H. rewrite Hb in H. res_inv H. subst q. simplify_eq.
  match goal with Hm : applyMintV2 _ _ = Ok ?r |- _ => exists r; rename Hm into Hmint end.
  pose proof Hmint as Hm. apply applyMintV2_Ok in Hm as (k & n & _ & ? & ? & ? & Es & -> & ->).
  match goal with Hg : grossBuy _ _ = Ok ?g |- _ => rewrite Es in Hg; cbn [issuedPublicSupplyAtoms state_at] in Hg;
    rewrite !quot_lots, grossBuy_lots in Hg by (done || lia); injection Hg as <- end.
  cbn [bq_grossSats bq_supplyAfterAtoms bq_backingAfterSats bq_backingBeforeSats bq_stateHash bq_backingOutpoint
    bq_feeSats bq_creatorFeeSats grossSats nextState].
  split_and!; try done. rewrite Es. cbn [backingSats state_at]. lia.
Qed.

(** a quote is what the transition does: the price it states is the one
    the covenant takes from or pays to the vault, the supply and the backing it
    announces are those of the successor state, the fees are those of that
    price, and a sale that would pay out less than dust is not quoted. *)
Theorem quotes_match_transitions tokenId amountAtoms b :
  loadBacking bad_tx_message getRawTransaction d sessions tokenId = Ok b →
  (∀ q, quoteBackingBuy bad_tx_message getRawTransaction d sessions config tokenId amountAtoms = Ok q →
    ∃ r, applyMintV2 (lb_state b) amountAtoms = Ok r ∧ bq_grossSats q = grossSats r
    ∧ bq_supplyAfterAtoms q = issuedPublicSupplyAtoms (nextState r) ∧ bq_backingAfterSats q = backingSats (nextState r)
    ∧ bq_backingAfterSats q = bq_backingBeforeSats q + bq_grossSats q ∧ bq_stateHash q = lb_stateHash b
    ∧ bq_backingOutpoint q = lb_outpoint b
    ∧ mintFeeSats (grossSats r) amountAtoms (ac_buyFeeBps config) (ac_buyFeeFlatSats config) (buyFeeLotSats COVE_FEE_CONFIG) = Ok (bq_feeSats q)
    ∧ creatorFeeSats (grossSats r) (creatorFeeBps COVE_FEE_CONFIG) = Ok (bq_creatorFeeSats q))
  ∧ (∀ q, quoteRedeem bad_tx_message getRawTransaction d sessions config tokenId amountAtoms = Ok q →
    ∃ r, applyRedeemV2 (lb_state b) amountAtoms = Ok r ∧ rq_grossSats q = grossSats r
    ∧ rq_supplyAfterAtoms q = issuedPublicSupplyAtoms (nextState r) ∧ rq_backingAfterSats q = backingSats (nextState r)
    ∧ rq_backingAfterSats q = rq_backingBeforeSats q - rq_grossSats q ∧ rq_stateHash q = lb_stateHash b
    ∧ rq_backingOutpoint q = lb_outpoint b
    ∧ redeemFeeSats (grossSats r) (ac_redeemFeeBps config) (ac_redeemFeeFlatSats config) (redeemFeeMinSats COVE_FEE_CONFIG) = Ok (rq_feeSats q)
    ∧ rq_netSats q = rq_grossSats q - rq_feeSats q
    ∧ dustThreshold (ac_feeScript config) DUST_RELAY_FEE_SAT_PER_KVB ≤ rq_netSats q).
Proof.
  intros Hb. split; intros q H.
  - by apply (quoteBackingBuy_Ok tokenId).
  - unfold quoteRedeem in H. rewrite Hb in H. apply bind_Ok in H as (? & _ & H). rewrite bind_of_Ok in H.
    apply bind_Ok in H as ([g f] & Hw & H). apply bind_Ok in H as (? & Hpay & H). apply bind_Ok in H as (r & Hr & H).
    injection H as <-. exists r. pose proof Hr as Hr'. apply applyRedeemV2_Ok in Hr' as (k & n & _ & ? & ? & Es & -> & ->).
    unfold redeem_worth in Hw. res_inv Hw. simplify_eq.
    match goal with Hg : grossRedeem _ _ = Ok ?g |- _ => rewrite Es in Hg; cbn [issuedPublicSupplyAtoms state_at] in Hg;
      rewrite !quot_lots, grossRedeem_lots in Hg by (done || lia); injection Hg as <- end.
    unfold assertRedeemPayoutIsPayable, checkRedeemPayout in Hpay. res_inv Hpay. subst. to_prop. cbn [isPayable] in Hpay. to_prop.
    cbn [rq_grossSats rq_supplyAfterAtoms rq_backingAfterSats rq_backingBeforeSats rq_stateHash rq_backingOutpoint rq_netSats
      rq_feeSats grossSats nextState]. split_and!; try done. rewrite Es. cbn [backingSats state_at]. lia.
Qed.
End Tip.
