(* ===== verification/AppService.v ===== *)
(** * The application service: packages/cove-app/src/service.ts

    [V3AppService]: launching, minting, redeeming and transferring, each as a
    build (a PSBT and its session) and a submit (signatures, validation,
    broadcast), the reconciliation of sessions, and listings.  metadata.ts and
    [parsePsbt] and [validateInputSignature] of psbt.ts are here too.

    A request is a step on the service's tables, its cache and the log of what
    it asks the Guardian and the network to do; what was written before a throw
    stays.  Requests run one at a time; during one the indexer's tables, the
    node's and the Guardian's answers stand still. *)
From S2P Require Import Prelude Bytes Curve Economics Wire Discovery Covenant Simplicity Vault Indexer Store Hydrate Spend Builder AuditLog Guardian Finalize Journal Signing AppConfig Readiness Order Market MarketService.
From S2P Require Import AppFunding TxSession AppQuote.

(** ** metadata.ts *)
Record TokenMetadataInput := {
  tmi_displayName : string; tmi_description : string; tmi_websiteUrl : option string; tmi_xUrl : option string;
  tmi_imageUrl : option string
}.

Definition MAX_NAME : Z := 80.
Definition MAX_DESC : Z := 2000.

(** [s.length]: UTF-16 code units of a text in UTF-8; a byte that starts a
    sequence of four counts two, one that continues a sequence none. *)
Definition code_units (b : byte) : Z := if u8 b <? 0x80 then 1 else if u8 b <? 0xc0 then 0 else if u8 b <? 0xf0 then 1 else 2.
Definition js_length (s : string) : Z := zsum (code_units <$> utf8 s).

(** [/[\u0000-\u0008\u000b\u000c\u000e-\u001f]/] *)
Definition is_control (b : byte) : bool :=
  let n := u8 b in (n <=? 8) || (n =? 0x0b) || (n =? 0x0c) || ((0x0e <=? n) && (n <=? 0x1f)).

Definition metadata_invalid (msg : string) : exn := AppError "METADATA_INVALID" msg.

Definition bounded (text : string) (max : Z) : result string :=
  let s := js_trim text in
  throw_if (js_length s =? 0) (metadata_invalid "text must not be empty");;
  throw_if (max <? js_length s) (metadata_invalid ("text exceeds " +:+ pretty max +:+ " characters"));;
  throw_if (existsb is_control (utf8 s)) (metadata_invalid "control characters not allowed");;
  Ok s.

(** White space anywhere in a text. *)
Fixpoint has_space (l : list byte) : bool :=
  match l with
  | [] => false
  | b :: l1 =>
      space1 b || match l1 with c :: l2 => space2 b c || match l2 with e :: _ => space3 b c e | [] => false end | [] => false end
      || has_space l1
  end.

Definition httpsUrl (raw : option string) : result (option string) :=
  match truthy raw with
  | None => Ok None
  | Some raw =>
      let s := js_trim raw in
      throw_if (negb (String.prefix "https://" (toLowerCase s) && (8 <? String.length s)%nat && negb (has_space (utf8 s))))
        (metadata_invalid "URL must be https");;
      Ok (Some s)
  end.

Definition validateMetadata (input : TokenMetadataInput) : result TokenMetadataInput :=
  displayName ← bounded (tmi_displayName input) MAX_NAME;
  description ← (if String.eqb (js_trim (tmi_description input)) "" then Ok ""%string else bounded (tmi_description input) MAX_DESC);
  websiteUrl ← httpsUrl (tmi_websiteUrl input);
  xUrl ← httpsUrl (tmi_xUrl input);
  imageUrl ← httpsUrl (tmi_imageUrl input);
  Ok {| tmi_displayName := displayName; tmi_description := description; tmi_websiteUrl := websiteUrl; tmi_xUrl := xUrl;
        tmi_imageUrl := imageUrl |}.

Record MetadataRow := {
  mr_tokenId : string; mr_metadata : TokenMetadataInput; mr_submittedByScript : string; mr_deployTxid : option string
}.

Definition upsertTokenMetadata (tokenId submittedByScript : string) (deployTxid : option string) (metadata : TokenMetadataInput)
    (l : list MetadataRow) : result (list MetadataRow) :=
  m ← validateMetadata metadata;
  Ok (upsert_row mr_tokenId
        {| mr_tokenId := tokenId; mr_metadata := m; mr_submittedByScript := submittedByScript; mr_deployTxid := deployTxid |}
        (λ r, {| mr_tokenId := mr_tokenId r; mr_metadata := m; mr_submittedByScript := mr_submittedByScript r;
                 mr_deployTxid := deployTxid |}) l).

(** ** The service's state and its steps *)

(** What leaves the process: a Guardian signature asked for, and the two calls
    of the broadcast boundary. *)
Inductive AppEffect :=
  | AskGuardian (op : GuardianOperation) (psbt : Psbt)
  | TestAccept (rawTxHex : string)
  | SendTransaction (rawTxHex : string).

Record AppState := {
  as_sessions : list TxSessionRow; as_metadata : list MetadataRow; as_feeCache : option FeeRatesCache;
  as_effects : list AppEffect
}.

Definition set_sessions (l : list TxSessionRow) (s : AppState) : AppState :=
  {| as_sessions := l; as_metadata := as_metadata s; as_feeCache := as_feeCache s; as_effects := as_effects s |}.
Definition set_metadata (l : list MetadataRow) (s : AppState) : AppState :=
  {| as_sessions := as_sessions s; as_metadata := l; as_feeCache := as_feeCache s; as_effects := as_effects s |}.
Definition set_fee_cache (c : option FeeRatesCache) (s : AppState) : AppState :=
  {| as_sessions := as_sessions s; as_metadata := as_metadata s; as_feeCache := c; as_effects := as_effects s |}.
Definition log_effect (e : AppEffect) (s : AppState) : AppState :=
  {| as_sessions := as_sessions s; as_metadata := as_metadata s; as_feeCache := as_feeCache s; as_effects := as_effects s ++ [e] |}.

Definition App (A : Type) : Type := AppState → AppState * result A.

#[export] Instance App_ret : MRet App := λ A a s, (s, Ok a).
#[export] Instance App_bind : MBind App := λ A B f x s,
  match x s with (s', Ok a) => f a s' | (s', Throw e) => (s', Throw e) end.

Definition pureA {A} (r : result A) : App A := λ s, (s, r).
Definition readA {A} (f : AppState → result A) : App A := λ s, (s, f s).
Definition call {A} (e : AppEffect) (r : result A) : App A := λ s, (log_effect e s, r).

(** A statement on the sessions, and one on the metadata. *)
Definition on_sessions {A} (f : list TxSessionRow → result (list TxSessionRow * A)) : App A := λ s,
  match f (as_sessions s) with Ok (l, a) => (set_sessions l s, Ok a) | Throw e => (s, Throw e) end.
Definition on_metadata (f : list MetadataRow → result (list MetadataRow)) : App unit := λ s,
  match f (as_metadata s) with Ok l => (set_metadata l s, Ok tt) | Throw e => (s, Throw e) end.

(** What the outside answers during one request: the node (the service's
    provider, as the parts of the code ask it), a second node, the ord server,
    the Guardian, the clock, and what the database draws for a new row. *)
Record AppEnv := {
  ae_getTxout : string → Z → result (option AppTxOut);
  ae_getRawTransaction : string → result string;
  ae_fees : FeeProvider;
  ae_core : CoreRpcProvider;
  ae_primary : CoreNode;
  ae_secondary : option CoreNode;
  ae_broadcast : BroadcastNode;
  ae_describeAssets : OutPoint → result (option string);
  ae_sign : GuardianOperation → TransitionSignRequest → result (TransitionSignOutcome * Psbt);
  ae_now : Z;
  ae_newId : string;
  ae_randomBytes : list byte;
}.

(** bitcoinjs-lib's [psbt.finalizeInput(i)]. *)
Class InputFinalizer := { finalizeInput : Psbt → Z → result Psbt }.

(** [for (let i = first; i < psbt.data.inputs.length; i++) ...] *)
Fixpoint validate_from (f : Psbt → Z → result unit) (psbt : Psbt) (i : Z) (n : nat) : result unit :=
  match n with O => Ok tt | S n => f psbt i;; validate_from f psbt (i + 1) n end.
Fixpoint finalize_from (f : Psbt → Z → result Psbt) (psbt : Psbt) (i : Z) (n : nat) : result Psbt :=
  match n with O => Ok psbt | S n => psbt ← f psbt i; finalize_from f psbt (i + 1) n end.

(** ** psbt.ts *)
Section PsbtTs.
Context {J : BitcoinJs} {PC : PsbtCodec}.

Definition parsePsbt (b64 : string) : result Psbt :=
  psbt ← try_catch (psbt_fromBase64 b64) (λ e, Throw (AppError "PSBT_MUTATED" ("cannot parse PSBT: " +:+ exn_message e)));
  unfinalizeKeyInputs psbt.

Definition btcNetwork (network : V3Network) : btc_network :=
  match network with Regtest => NetRegtest | Mainnet => NetBitcoin | _ => NetTestnet end.

Definition validateInputSignature (psbt : Psbt) (inputIndex : Z) : result unit :=
  match checkSpendSignature psbt inputIndex with
  | SigOk => Ok tt
  | SigBad _ detail => Throw (AppError "WALLET_SIGNATURE_INVALID" detail)
  end.
End PsbtTs.

(** ** Requests *)

(** The fields every build has. *)
Record WalletParams := {
  wp_walletScript : string; wp_ordinalsScript : option string; wp_walletPublicKey : option string;
  wp_ordinalsPublicKey : option string; wp_walletAddress : option string; wp_funding : list FundingCandidate;
  wp_feeRateSatPerVb : option Z; wp_minerFeeSats : option Z; wp_idempotencyKey : string
}.

Definition wallet_of (w : WalletParams) : WalletIdentity :=
  walletIdentityFrom {| wf_walletScript := Some (wp_walletScript w); wf_walletPublicKey := wp_walletPublicKey w;
    wf_ordinalsScript := wp_ordinalsScript w; wf_ordinalsPublicKey := wp_ordinalsPublicKey w |}.

Record LaunchPrepareInput := {
  lpi_ticker : string; lpi_metadata : TokenMetadataInput; lpi_nonceHex : option string; lpi_creatorScript : option string
}.
Record LaunchPrepareResult := {
  lpr_tokenId : option string; lpr_ticker : string; lpr_nonceHex : string; lpr_policyVersion : Z; lpr_chainIdentity : string;
  lpr_publicCapAtoms : Z; lpr_publicSupplyAtoms : Z; lpr_curve : string; lpr_vaultAnchorSats : Z
}.
Record LaunchParams := { lp_ticker : string; lp_nonceHex : string; lp_wallet : WalletParams; lp_metadata : TokenMetadataInput }.

Record QuoteBinding := { qb_stateHash : string; qb_backingOutpoint : OutPoint; qb_expiresAtHeight : option Z }.
Record BuyParams := { bp_tokenId : string; bp_amountAtoms : Z; bp_quoteBinding : QuoteBinding; bp_wallet : WalletParams }.
Record RedeemRequest := { rr_tokenId : string; rr_amountAtoms : Z; rr_wallet : WalletParams }.
Record TransferRequest := { xr_tokenId : string; xr_amountAtoms : Z; xr_recipientScript : string; xr_wallet : WalletParams }.

Record IntentV3 := {
  in_operation : CoveOperation; in_tokenId : option string; in_tokenAmountAtoms : option Z; in_grossSats : option Z;
  in_protocolFeeSats : option Z; in_creatorFeeSats : option Z; in_creatorScript : option string; in_minerFeeSats : Z;
  in_netSats : option Z; in_walletScript : string; in_ordinalsScript : string; in_stateHash : option string;
  in_unsignedTxDigest : string; in_walletDeltaSats : Z
}.
Record BuildResult := { br_sessionId : string; br_psbtBase64 : string; br_intent : IntentV3 }.

Definition operation_text (op : CoveOperation) : string :=
  match op with AppFunding.DEPLOY => "DEPLOY" | BACKING_BUY => "BACKING_BUY" | AppFunding.REDEEM => "REDEEM" | AppFunding.TRANSFER => "TRANSFER" end.

Definition patch_broadcast (txid : string) : TxSessionPatch :=
  {| sp_txid := Some (Some txid); sp_status := Some BROADCAST; sp_errorCode := None |}.
Definition patch_confirmed : TxSessionPatch := {| sp_txid := None; sp_status := Some CONFIRMED; sp_errorCode := None |}.
Definition patch_evicted : TxSessionPatch :=
  {| sp_txid := None; sp_status := Some FAILED; sp_errorCode := Some (Some "MEMPOOL_EVICTED"%string) |}.

Section Service.
Context {C : Crypto} {B : Bitcoin} {J : BitcoinJs} {P : PsbtBuilder} {PC : PsbtCodec} {IF : InputFinalizer} {PG : Postgres}.
Context (execFile : string → list string → Z → exec_outcome) (bin : option string).
Context (bad_tx_message : string → string).
Context (config : V3AppConfig) (d : V3Db) (env : AppEnv).

(** *** Guards *)
Definition assertEnabled : result unit :=
  throw_if (negb (ac_enabled config)) (AppError "APP_DISABLED" "Cove V3 application is disabled").

Definition assertNetwork : result V3Network :=
  throw_if (bool_decide (ac_network config = Mainnet) && negb (ac_mainnetProfileValid config))
    (AppError "MAINNET_DISABLED" "mainnet mutations need the committed profile to validate");;
  Ok (ac_network config).

Definition assertMutating : result V3Network := assertEnabled;; assertNetwork.

Definition not_listed (allowed : option (list string)) (x : string) : bool :=
  match allowed with Some l => negb (String.eqb x "") && negb (bool_decide (x ∈ l)) | None => false end.

Definition assertCanaryAllowed (tokenId walletScript : string) : result unit :=
  throw_if (not_listed (ac_canaryAllowedTokenIds config) tokenId)
    (AppError "CANARY_TOKEN_NOT_ALLOWED" ("token " +:+ tokenId +:+ " is not in the canary allowlist"));;
  throw_if (match ac_canaryAllowedWalletScripts config with
            | Some l => negb (String.eqb walletScript "") && negb (bool_decide (toLowerCase walletScript ∈ l)) | None => false end)
    (AppError "CANARY_WALLET_NOT_ALLOWED" "wallet script is not in the canary allowlist").

Definition requireHealthy : result unit :=
  let health := computeHealth d (ae_core env) in
  match hr_health health with
  | REBUILDING => Throw (AppError "INDEXER_REBUILDING" "indexer is rebuilding")
  | DIVERGED => Throw (AppError "INDEXER_DIVERGED" "indexer diverged from Core tip")
  | CORE_UNREACHABLE => Throw (AppError "CORE_UNAVAILABLE" "Bitcoin Core unreachable")
  | BEHIND => Throw (AppError "INDEXER_UNHEALTHY" ("indexer behind by " +:+ pretty (hr_lag health)))
  | HEALTHY => Ok tt
  end;;
  match ae_secondary env with
  | Some secondary =>
      let agreement := checkCoreAgreement (ae_primary env) secondary None in
      throw_if (negb (car_agreed agreement))
        (AppError "CORE_UNAVAILABLE" ("Core disagreement: " +:+ default "unknown"%string (car_detail agreement)))
  | None => Ok tt
  end;;
  match ac_network config with
  | Mainnet =>
      throw_if (negb (verifyMainnetGenesis (ae_primary env)))
        (AppError "CORE_UNAVAILABLE" "primary Core is not on Bitcoin mainnet (genesis hash mismatch)");;
      match ae_secondary env with
      | Some secondary =>
          throw_if (negb (verifyMainnetGenesis secondary))
            (AppError "CORE_UNAVAILABLE" "secondary Core is not on Bitcoin mainnet (genesis hash mismatch)")
      | None => Ok tt
      end
  | _ => Ok tt
  end.

(** *** What the service is constructed with *)
Definition assets : option (OutPoint → result (option string)) :=
  match truthy (ac_ordUrl config) with Some _ => Some (ae_describeAssets env) | None => None end.

Definition isCoveCarrier (o : OutPoint) : result bool :=
  Ok (0 <? length (getLiveTokenUtxosAtDb d [(op_txid o, op_vout o)]))%nat.

Definition fundingChecker : FundingInputChecker :=
  chainFundingChecker (λ o, fmap (M:=option) at_confirmations <$> ae_getTxout env (op_txid o) (op_vout o)) isCoveCarrier assets None.

Definition loadView (tokenId : string) (relevantOutpoints : list OutPoint) : CoveCanonicalView :=
  snapshot_view (loadCanonicalViewSnapshotFromDb d tokenId relevantOutpoints).

(** [(await getV3TokenDetail(...))?.ticker]: of the summary, the token row's. *)
Definition discoveryTicker (tokenId : string) : option string :=
  if ac_discoveryEnvelope config then tr_ticker <$> head (token_rows d tokenId) else None.

(** *** Steps that use the sessions and the fee rates *)
Definition loadBackingA (tokenId : string) : App LoadedBacking :=
  readA (λ s, loadBacking bad_tx_message (ae_getRawTransaction env) d (as_sessions s) tokenId).
Definition loadBackingAtA (tokenId : string) (txid : option string) (vout : option Z) : App LoadedBacking :=
  readA (λ s, loadBackingAt bad_tx_message (ae_getRawTransaction env) d (as_sessions s) tokenId txid vout).

Definition feeRatesA : App FeeRates := λ s,
  let '(rates, cache) := feeRates (ae_fees env) (ae_now env) (as_feeCache s) in (set_fee_cache cache s, Ok rates).

Definition resolveFundingAndFeeA (params : FundingParams) : App FundingChoice :=
  _ ← pureA (offered_coins (ae_getTxout env) d params);
  rates ← feeRatesA;
  pureA (resolveFundingAndFee (ae_getTxout env) d assets
    {| fx_rates := rates; fx_feeScript := ac_feeScript config; fx_maxMinerFeeSats := ac_maxMinerFeeSats config |} params).

Definition funding_params (op : CoveOperation) (wallet : ResolvedWalletIdentity) (w : WalletParams) (targetSats : Z)
    (tokenInputs recipientCarriers : option Z) (discovery : option bool) : FundingParams := {|
  fp_op := op; fp_wallet := wallet; fp_candidates := wp_funding w; fp_targetSats := targetSats; fp_tokenInputs := tokenInputs;
  fp_recipientCarriers := recipientCarriers; fp_discovery := discovery; fp_feeRateSatPerVb := wp_feeRateSatPerVb w;
  fp_explicitMinerFeeSats := wp_minerFeeSats w |}.

(** [createTxSession] for a transaction that was just built. *)
Definition createSession (op : CoveOperation) (tokenId : string) (w : WalletParams) (backing : option LoadedBacking)
    (psbt : Psbt) (expiresAtHeight : option Z) : App TxSessionRow :=
  on_sessions (createTxSession (ae_newId env) (ae_now env) {|
    ns_operation := TxOp op; ns_tokenId := Some tokenId; ns_walletScript := wp_walletScript w;
    ns_walletAddress := wp_walletAddress w; ns_stateHash := lb_stateHash <$> backing;
    ns_backingTxid := (λ b, si_txid (lb_input b)) <$> backing; ns_backingVout := (λ b, si_vout (lb_input b)) <$> backing;
    ns_unsignedTxDigest := unsignedTxDigest psbt; ns_psbtBase64 := Some (psbt_toBase64 psbt); ns_txid := None;
    ns_status := BUILT; ns_expiresAtHeight := expiresAtHeight; ns_idempotencyKey := wp_idempotencyKey w |}).

Definition updateSession (id : string) (patch : TxSessionPatch) : App unit :=
  on_sessions (λ l, l ← updateTxSession id patch l; Ok (l, tt)).

Definition intent (op : CoveOperation) (tokenId : string) (amount gross fee creatorFee : option Z) (creatorScript : option string)
    (minerFee : Z) (net : option Z) (wallet : ResolvedWalletIdentity) (stateHash : option string) (psbt : Psbt) : IntentV3 := {|
  in_operation := op; in_tokenId := Some tokenId; in_tokenAmountAtoms := amount; in_grossSats := gross;
  in_protocolFeeSats := fee; in_creatorFeeSats := creatorFee; in_creatorScript := creatorScript; in_minerFeeSats := minerFee;
  in_netSats := net; in_walletScript := rr_script (rw_payments wallet); in_ordinalsScript := rr_script (rw_ordinals wallet);
  in_stateHash := stateHash; in_unsignedTxDigest := unsignedTxDigest psbt;
  in_walletDeltaSats := walletDeltaSats psbt (rw_scripts wallet) |}.

Definition guardian_rejected (msg : string) : exn := AppError "GUARDIAN_REJECTED" msg.

(** *** The broadcast boundary *)
Definition broadcast (v : ValidatedCoveTransaction) : App string :=
  let raw := vt_rawTxHex v in
  accept ← call (TestAccept raw) (bn_testMempoolAccept (ae_broadcast env) raw);
  pureA (throw_if (negb (mv_allowed accept))
    (AppError "MEMPOOL_REJECTED" (default "testmempoolaccept rejected"%string (mv_rejectReason accept))));;
  txid ← call (SendTransaction raw) (bn_broadcastTransaction (ae_broadcast env) raw);
  pureA (throw_if (negb (String.eqb txid (vt_txid v))) (AppError "BROADCAST_FAILED" "broadcast txid mismatch"));;
  mret txid.

(** [if (!("rawTxHex" in validated)) throw ...] *)
Definition accepted (r : result FinalValidationResult) : result ValidatedCoveTransaction :=
  r ← r; match r with FinalOk v => Ok v | FinalReject reason => Throw (guardian_rejected reason) end.

(** The last steps of every submit. *)
Definition send_and_record (id : string) (v : ValidatedCoveTransaction) : App (option string) :=
  txid ← broadcast v;
  updateSession id (patch_broadcast txid);;
  mret (Some txid).

(** The first steps: the session of the operation. *)
Definition open_session (op : CoveOperation) (id : string) : App TxSessionRow :=
  pureA assertEnabled;;
  session ← readA (λ s, requireTxSession id (as_sessions s));
  pureA (throw_if (negb (bool_decide (sx_operation session = TxOp op)))
    (AppError "SESSION_STATE_INVALID" ("session is not " +:+ operation_text op)));;
  mret session.

Definition already_sent (session : TxSessionRow) : bool := bool_decide (sx_status session ∈ [BROADCAST; CONFIRMED]).

(** The PSBT the wallet returned, with the inputs from [first] signed. *)
Definition signed_psbt (session : TxSessionRow) (b64 : string) (first : nat) : result Psbt :=
  psbt ← parsePsbt b64;
  throw_if (negb (String.eqb (unsignedTxDigest psbt) (sx_digest session))) (AppError "PSBT_MUTATED" "unsigned tx digest changed");;
  validate_from validateInputSignature psbt (Z.of_nat first) (length (psbt_inputs psbt) - first);;
  Ok psbt.

(** *** Launch *)
Definition token_id (ticker nonceHex : string) (creatorScript : list byte) : result (list byte) :=
  computeTokenId sha256 {| chainIdentity := ac_chainIdentity config; policyVersion := 3; Wire.ticker := ticker;
    Wire.tokenNonce := fromHex nonceHex; creatorScript := creatorScript |}.

Definition prepareLaunch (input : LaunchPrepareInput) : result LaunchPrepareResult :=
  assertEnabled;;
  tick ← canonicalTicker (lpi_ticker input);
  let nonce := match truthy (lpi_nonceHex input) with Some h => fromHex h | None => ae_randomBytes env end in
  throw_if (negb (blen nonce =? 32)) (AppError "TOKEN_AMOUNT_INVALID" "nonce must be 32 bytes");;
  tokenId ← (match truthy (lpi_creatorScript input) with
             | Some c => t ← token_id tick (toHex nonce) (fromHex c); Ok (Some (toHex t))
             | None => Ok None
             end);
  validateMetadata (lpi_metadata input);;
  Ok {| lpr_tokenId := tokenId; lpr_ticker := tick; lpr_nonceHex := toHex nonce; lpr_policyVersion := 3;
        lpr_chainIdentity := ac_chainIdentity config; lpr_publicCapAtoms := PUBLIC_SUPPLY_ATOMS;
        lpr_publicSupplyAtoms := PUBLIC_SUPPLY_ATOMS; lpr_curve := "stairs210"; lpr_vaultAnchorSats := RESERVE_ANCHOR_SATS |}.

Definition buildLaunch (p : LaunchParams) : App (BuildResult * string) :=
  let w := lp_wallet p in
  pureA assertMutating;;
  pureA requireHealthy;;
  wallet ← pureA (resolveWalletIdentity (wallet_of w));
  let creator := rr_scriptBuffer (rw_payments wallet) in
  tick ← pureA (canonicalTicker (lp_ticker p));
  tokenId ← pureA (t ← token_id tick (lp_nonceHex p) creator; Ok (toHex t));
  pureA (assertCanaryAllowed tokenId (wp_walletScript w));;
  funding ← resolveFundingAndFeeA
    (funding_params AppFunding.DEPLOY wallet w (RESERVE_ANCHOR_SATS + CREATOR_RECORD_SATS) None None None);
  result ← pureA (buildDeployPsbtV3 {|
    dp_network := btcNetwork (ac_network config); dp_chainIdentity := ac_chainIdentity config; dp_policyVersion := 3;
    dp_ticker := tick; dp_tokenNonce := fromHex (lp_nonceHex p); dp_guardianXOnly := ac_guardianXOnly config;
    dp_recoveryKeyXOnly := ac_recoveryKeyXOnly config; dp_recoveryProfile := ac_recoveryProfile config;
    dp_deployerInputs := fc_inputs funding; dp_deployerChangeScript := creator; dp_creatorScript := Some creator;
    dp_minerFeeSats := rf_minerFeeSats (fc_price funding) |});
  session ← createSession AppFunding.DEPLOY tokenId w None (dr_psbt result) None;
  on_metadata (upsertTokenMetadata tokenId (wp_walletScript w) None (lp_metadata p));;
  mret ({| br_sessionId := sx_id session; br_psbtBase64 := psbt_toBase64 (dr_psbt result);
           br_intent := intent AppFunding.DEPLOY tokenId (Some 0) None None None None (dr_minerFeeSats result) None wallet None
                          (dr_psbt result) |}, tokenId).

Definition submitLaunch (sessionId signedPsbtBase64 : string) : App (option string) :=
  session ← open_session AppFunding.DEPLOY sessionId;
  if already_sent session then mret (sx_txid session)
  else
    psbt ← pureA (signed_psbt session signedPsbtBase64 0);
    psbt ← pureA (finalizeAllInputs psbt);
    rawTxHex ← pureA (extractTransactionHex psbt);
    v ← pureA (accepted (validateFinalizedDeployTransaction bad_tx_message {|
      fd_rawTxHex := rawTxHex; fd_network := ac_network config; fd_chainIdentity := ac_chainIdentity config;
      fd_guardianXOnly := ac_guardianXOnly config; fd_recoveryKeyXOnly := ac_recoveryKeyXOnly config;
      fd_recoveryProfile := ac_recoveryProfile config |}));
    send_and_record (sx_id session) v.

(** *** Backing buy *)
Definition buy_fees : FeeSchedule := {|
  fs_buyFeeBps := Some (ac_buyFeeBps config); fs_buyFeeFlatSats := Some (ac_buyFeeFlatSats config); fs_creatorFeeBps := None;
  fs_redeemFeeBps := None; fs_redeemFeeFlatSats := None |}.
Definition sell_fees : FeeSchedule := {|
  fs_buyFeeBps := None; fs_buyFeeFlatSats := None; fs_creatorFeeBps := None;
  fs_redeemFeeBps := Some (ac_redeemFeeBps config); fs_redeemFeeFlatSats := Some (ac_redeemFeeFlatSats config) |}.

Definition sign_request (psbt : Psbt) (view : CoveCanonicalView) (fees : FeeSchedule) (ticker : option string) : TransitionSignRequest := {|
  tr_psbt := psbt; tr_view := view; tr_network := ac_network config; tr_recoveryKeyXOnly := ac_recoveryKeyXOnly config;
  tr_recoveryProfile := ac_recoveryProfile config; tr_feeScript := ac_feeScript config;
  tr_maxMinerFeeSats := Some (ac_maxMinerFeeSats config); tr_fees := fees; tr_discoveryTicker := ticker;
  tr_fundingChecker := fundingChecker |}.

Definition final_params (rawTxHex : string) (view : CoveCanonicalView) (fees : FeeSchedule) : FinalizeParams := {|
  fp_rawTxHex := rawTxHex; fp_view := view; fp_network := ac_network config; fp_guardianXOnly := ac_guardianXOnly config;
  fp_recoveryKeyXOnly := ac_recoveryKeyXOnly config; fp_recoveryProfile := ac_recoveryProfile config;
  fp_feeScript := ac_feeScript config; fp_maxMinerFeeSats := Some (ac_maxMinerFeeSats config); fp_prevouts := None;
  fp_fees := fees |}.

(** [if (!checked.ok) throw ...] *)
Definition checked (r : result ValidationResult) : result unit :=
  r ← r; match r with VOk _ _ => Ok tt | VReject reason detail => Throw (guardian_rejected (reason +:+ ": " +:+ detail)) end.

Definition stale_quote (backing : LoadedBacking) (q : QuoteBinding) : bool :=
  negb (String.eqb (lb_stateHash backing) (qb_stateHash q)) || negb (at_outpoint backing (qb_backingOutpoint q)).

(** What the buyer's coins must cover, from the state: the satoshis of the
    curve, the protocol's fee and the creator's. *)
Definition buy_amounts (state : CoveStateV2) (amountAtoms : Z) : result (Z * Z) :=
  r ← applyMintV2 state amountAtoms;
  fee ← mintFeeSats (grossSats r) amountAtoms (ac_buyFeeBps config) (ac_buyFeeFlatSats config) (buyFeeLotSats COVE_FEE_CONFIG);
  Ok (grossSats r, fee).

Definition buildBackingBuy (p : BuyParams) : App BuildResult :=
  let w := bp_wallet p in
  let tokenId := bp_tokenId p in
  pureA assertMutating;;
  pureA requireHealthy;;
  pureA (assertCanaryAllowed tokenId (wp_walletScript w));;
  wallet ← pureA (resolveWalletIdentity (wallet_of w));
  backing ← loadBackingA tokenId;
  pureA (throw_if (stale_quote backing (bp_quoteBinding p)) (AppError "QUOTE_STALE" "backing state changed since quote"));;
  let ticker := discoveryTicker tokenId in
  '(quotedGrossSats, quotedBuyFeeSats) ← pureA (buy_amounts (lb_state backing) (bp_amountAtoms p));
  creator ← pureA (creatorScriptOf d tokenId);
  quotedCreatorFeeSats ← pureA (creatorFeeSats quotedGrossSats (creatorFeeBps COVE_FEE_CONFIG));
  funding ← resolveFundingAndFeeA
    (funding_params BACKING_BUY wallet w (quotedGrossSats + quotedBuyFeeSats + quotedCreatorFeeSats + TOKEN_CARRIER_SATS)
       None None (Some (bool_decide (is_Some ticker))));
  result ← pureA (buildMintPsbtV3 {|
    mp_network := btcNetwork (ac_network config); mp_tokenId := fromHex tokenId; mp_prevState := lb_state backing;
    mp_prevBacking := lb_input backing; mp_mintAmountAtoms := bp_amountAtoms p; mp_guardianXOnly := ac_guardianXOnly config;
    mp_recoveryKeyXOnly := ac_recoveryKeyXOnly config; mp_recoveryProfile := ac_recoveryProfile config;
    mp_buyerInputs := fc_inputs funding; mp_buyerCarrierScript := rr_scriptBuffer (rw_ordinals wallet);
    mp_buyerChangeScript := rr_scriptBuffer (rw_payments wallet); mp_feeScript := ac_feeScript config;
    mp_creatorScript := creator; mp_creatorFeeBps := None; mp_minerFeeSats := rf_minerFeeSats (fc_price funding);
    mp_buyFeeBps := Some (ac_buyFeeBps config); mp_buyFeeFlatSats := Some (ac_buyFeeFlatSats config);
    mp_discoveryEnvelope := truthy ticker |});
  let view := overlayPendingBacking (loadView tokenId []) tokenId backing in
  pureA (checked (validateMintTransitionV3 execFile bin
    (validate_params (sign_request (mb_psbt result) view buy_fees ticker) (ac_guardianXOnly config))));;
  session ← createSession BACKING_BUY tokenId w (Some backing) (mb_psbt result) (qb_expiresAtHeight (bp_quoteBinding p));
  mret {| br_sessionId := sx_id session; br_psbtBase64 := psbt_toBase64 (mb_psbt result);
          br_intent := intent BACKING_BUY tokenId (Some (bp_amountAtoms p)) (Some (mb_grossSats result)) (Some (mb_buyFeeSats result))
            (Some (mb_creatorFeeSats result)) (Some (toHex creator)) (mb_minerFeeSats result) None wallet
            (Some (lb_stateHash backing)) (mb_psbt result) |}.

(** The tip the session was built on, laid over the view. *)
Definition submit_view (session : TxSessionRow) (relevantOutpoints : list OutPoint) : App CoveCanonicalView :=
  let tokenId := default ""%string (sx_tokenId session) in
  backing ← loadBackingAtA tokenId (sx_backingTxid session) (sx_backingVout session);
  mret (overlayPendingBacking (loadView tokenId relevantOutpoints) tokenId backing).

(** The Guardian's signature, and the transaction with every input final. *)
Definition guardian_signed (op : GuardianOperation) (req : TransitionSignRequest) : App string :=
  '(outcome, psbt) ← call (AskGuardian op (tr_psbt req)) (ae_sign env op req);
  pureA (match outcome with Signed _ => Ok tt | Refused reason detail _ => Throw (guardian_rejected (reason +:+ ": " +:+ detail)) end);;
  psbt ← pureA (finalize_from finalizeInput psbt 1 (length (psbt_inputs psbt) - 1));
  pureA (extractTransactionHex psbt).

Definition submitBackingBuy (sessionId signedPsbtBase64 : string) : App (option string) :=
  session ← open_session BACKING_BUY sessionId;
  if already_sent session then mret (sx_txid session)
  else
    psbt ← pureA (signed_psbt session signedPsbtBase64 1);
    view ← submit_view session [];
    rawTxHex ← guardian_signed AuditLog.OpMint
      (sign_request psbt view buy_fees (discoveryTicker (default ""%string (sx_tokenId session))));
    v ← pureA (accepted (validateFinalizedMintTransaction execFile bin bad_tx_message (final_params rawTxHex view buy_fees)));
    send_and_record (sx_id session) v.

(** *** Redeem *)
Definition holder_carriers (wallet : ResolvedWalletIdentity) (tokenId : string) : list UtxoRow :=
  List.filter (λ u, String.eqb (ur_tokenId u) tokenId) (getTokenUtxosByScriptDb d (rr_script (rw_ordinals wallet))).

Definition carrier_input (wallet : ResolvedWalletIdentity) (u : UtxoRow) : SpendableInput :=
  {| si_txid := ur_txid u; si_vout := ur_vout u; si_script := fromHex (ur_scriptPubKey u); si_valueSats := TOKEN_CARRIER_SATS;
     si_publicKey := rr_publicKeyBuffer (rw_ordinals wallet) |}.

Definition carriers_total (selected : list UtxoRow) : Z := foldl (λ s u, s + ur_amountAtoms u) 0 selected.
Definition carriers_sats (n : nat) : Z := Z.of_nat n * TOKEN_CARRIER_SATS.

Definition buildRedeem (p : RedeemRequest) : App BuildResult :=
  let w := rr_wallet p in
  let tokenId := rr_tokenId p in
  pureA assertMutating;;
  pureA requireHealthy;;
  pureA (assertCanaryAllowed tokenId (wp_walletScript w));;
  wallet ← pureA (resolveWalletIdentity (wallet_of w));
  backing ← loadBackingA tokenId;
  selected ← pureA (redeem_carriers (rr_amountAtoms p) (holder_carriers wallet tokenId));
  let tokenInputs := carrier_input wallet <$> selected in
  let tokenInputTotalAtoms := carriers_total selected in
  '(gross, fee) ← pureA (redeem_worth config (lb_state backing) (rr_amountAtoms p));
  pureA (assertRedeemPayoutIsPayable gross fee (rr_scriptBuffer (rw_payments wallet)));;
  let changeCarrierSats := if rr_amountAtoms p <? tokenInputTotalAtoms then TOKEN_CARRIER_SATS else 0 in
  funding ← resolveFundingAndFeeA
    (funding_params AppFunding.REDEEM wallet w (changeCarrierSats - carriers_sats (length selected))
       (Some (Z.of_nat (length selected))) None None);
  result ← pureA (buildRedeemPsbtV3 {|
    rp_network := btcNetwork (ac_network config); rp_tokenId := fromHex tokenId; rp_prevState := lb_state backing;
    rp_prevBacking := lb_input backing; rp_redeemAmountAtoms := rr_amountAtoms p; rp_tokenInputs := tokenInputs;
    rp_tokenInputTotalAtoms := tokenInputTotalAtoms; rp_guardianXOnly := ac_guardianXOnly config;
    rp_recoveryKeyXOnly := ac_recoveryKeyXOnly config; rp_recoveryProfile := ac_recoveryProfile config;
    rp_sellerPayoutScript := rr_scriptBuffer (rw_payments wallet); rp_sellerChangeScript := rr_scriptBuffer (rw_ordinals wallet);
    rp_feeScript := ac_feeScript config; rp_minerFeeSats := rf_minerFeeSats (fc_price funding);
    rp_funderInputs := Some (fc_inputs funding); rp_funderChangeScript := Some (rr_scriptBuffer (rw_payments wallet));
    rp_redeemFeeBps := Some (ac_redeemFeeBps config); rp_redeemFeeFlatSats := Some (ac_redeemFeeFlatSats config) |});
  let view := overlayPendingBacking
    (loadView tokenId ((λ u, {| op_txid := ur_txid u; op_vout := ur_vout u |}) <$> selected)) tokenId backing in
  pureA (checked (validateRedeemTransitionV3 execFile bin
    (validate_params (sign_request (rb_psbt result) view sell_fees None) (ac_guardianXOnly config))));;
  session ← createSession AppFunding.REDEEM tokenId w (Some backing) (rb_psbt result) None;
  mret {| br_sessionId := sx_id session; br_psbtBase64 := psbt_toBase64 (rb_psbt result);
          br_intent := intent AppFunding.REDEEM tokenId (Some (rr_amountAtoms p)) (Some (rb_grossSats result))
            (Some (rb_redeemFeeSats result)) None None (rb_minerFeeSats result) (Some (rb_netSats result)) wallet
            (Some (lb_stateHash backing)) (rb_psbt result) |}.

Definition submitRedeem (sessionId signedPsbtBase64 : string) : App (option string) :=
  session ← open_session AppFunding.REDEEM sessionId;
  if already_sent session then mret (sx_txid session)
  else
    psbt ← pureA (signed_psbt session signedPsbtBase64 1);
    view ← submit_view session ((λ i, txin_outpoint (psi_txin i)) <$> psbt_inputs psbt);
    rawTxHex ← guardian_signed AuditLog.OpRedeem (sign_request psbt view sell_fees None);
    v ← pureA (accepted (validateFinalizedRedeemTransaction execFile bin bad_tx_message (final_params rawTxHex view sell_fees)));
    send_and_record (sx_id session) v.

(** *** Transfer *)
Definition transfer_outputs (p : TransferRequest) (wallet : ResolvedWalletIdentity) (changeAtoms : Z) : list TransferOutput :=
  {| xo_script := fromHex (xr_recipientScript p); xo_amountAtoms := xr_amountAtoms p |}
  :: (if 0 <? changeAtoms then [{| xo_script := rr_scriptBuffer (rw_ordinals wallet); xo_amountAtoms := changeAtoms |}] else []).

Definition buildTransfer (p : TransferRequest) : App BuildResult :=
  let w := xr_wallet p in
  let tokenId := xr_tokenId p in
  pureA assertMutating;;
  pureA requireHealthy;;
  wallet ← pureA (resolveWalletIdentity (wallet_of w));
  selected ← pureA (transfer_carriers (xr_amountAtoms p) (holder_carriers wallet tokenId));
  let tokenInputTotalAtoms := carriers_total selected in
  let tokenOutputs := transfer_outputs p wallet (tokenInputTotalAtoms - xr_amountAtoms p) in
  funding ← resolveFundingAndFeeA
    (funding_params AppFunding.TRANSFER wallet w (carriers_sats (length tokenOutputs) - carriers_sats (length selected))
       (Some (Z.of_nat (length selected))) (Some (Z.of_nat (length tokenOutputs))) None);
  result ← pureA (buildTransferPsbtV2 {|
    tp_tokenId := fromHex tokenId; tp_tokenInputs := carrier_input wallet <$> selected;
    tp_tokenInputTotalAtoms := tokenInputTotalAtoms; tp_tokenOutputs := tokenOutputs; tp_funderInputs := fc_inputs funding;
    tp_funderChangeScript := rr_scriptBuffer (rw_payments wallet); tp_btcOutputs := [];
    tp_minerFeeSats := rf_minerFeeSats (fc_price funding) |});
  session ← createSession AppFunding.TRANSFER tokenId w None (tb_psbt result) None;
  mret {| br_sessionId := sx_id session; br_psbtBase64 := psbt_toBase64 (tb_psbt result);
          br_intent := intent AppFunding.TRANSFER tokenId (Some (xr_amountAtoms p)) None None None None (tb_minerFeeSats result) None
            wallet None (tb_psbt result) |}.

Definition submitTransfer (sessionId signedPsbtBase64 : string) : App (option string) :=
  session ← open_session AppFunding.TRANSFER sessionId;
  if already_sent session then mret (sx_txid session)
  else
    psbt ← pureA (signed_psbt session signedPsbtBase64 0);
    psbt ← pureA (finalizeAllInputs psbt);
    rawTxHex ← pureA (extractTransactionHex psbt);
    view ← submit_view session [];
    v ← pureA (accepted (validateFinalizedTransferTransaction bad_tx_message
      {| ft_rawTxHex := rawTxHex; ft_view := view; ft_prevouts := None; ft_maxMinerFeeSats := Some (ac_maxMinerFeeSats config) |}));
    send_and_record (sx_id session) v.

(** *** Status and reconciliation *)
Definition events_of (txid : string) : list EventRow :=
  select (λ e, String.eqb (er_txid e) txid && er_canonical e) (coveV3Events d).

Record TxStatus := { ts_session : option TxSessionRow; ts_mempool : bool; ts_confirmedHeight : option Z }.

Definition txStatus (txid : string) (l : list TxSessionRow) : TxStatus := {|
  ts_session := head (select (λ r, bool_decide (sx_txid r = Some txid)) l);
  ts_mempool := is_ok (ae_getRawTransaction env txid);
  ts_confirmedHeight := er_blockHeight <$> head (events_of txid) |}.

Definition reconcile_session (s : TxSessionRow) : App Z :=
  match truthy (sx_txid s) with
  | None => mret 0
  | Some txid =>
      if (0 <? length (events_of txid))%nat then updateSession (sx_id s) patch_confirmed;; mret 1
      else match ae_getRawTransaction env txid with
           | Ok _ => mret 0
           | Throw _ => updateSession (sx_id s) patch_evicted;; mret 0
           end
  end.

Fixpoint reconcile_all (pending : list TxSessionRow) : App Z :=
  match pending with
  | [] => mret 0
  | s :: rest => n ← reconcile_session s; k ← reconcile_all rest; mret (n + k)
  end.

Definition reconcileAppSessions : App Z :=
  pending ← readA (λ s, Ok (listPendingSessions (as_sessions s)));
  reconcile_all pending.

(** *** Listings *)
Definition DEFAULT_LISTING_BLOCKS : Z := 1008.

Record PrepareListingParams := {
  pl_tokenId : string; pl_sourceTxid : string; pl_sourceVout : Z; pl_amountAtoms : Z; pl_totalPriceSats : Z;
  pl_expiryBlocks : option Z; pl_expiryHeight : option Z; pl_wallet : WalletFields; pl_nonceHex : string
}.
Record PreparedListing := { pd_listing : ListingV1; pd_listingId : string; pd_message : string; pd_expiryHeight : Z }.

Definition listing_source (p : PrepareListingParams) (ordinalsScript : string) : list UtxoRow :=
  select (λ r, String.eqb (ur_txid r) (pl_sourceTxid p) && (ur_vout r =? pl_sourceVout p)
               && String.eqb (ur_tokenId r) (pl_tokenId p) && String.eqb (ur_scriptPubKey r) ordinalsScript && live_row r)
    (coveV3TokenUtxos d).

Definition listing_expiry (p : PrepareListingParams) (tip : Z) : Z :=
  match pl_expiryBlocks p with
  | Some blocks => if 0 <? blocks then tip + blocks else default (tip + DEFAULT_LISTING_BLOCKS) (pl_expiryHeight p)
  | None => default (tip + DEFAULT_LISTING_BLOCKS) (pl_expiryHeight p)
  end.

Definition prepareListing (p : PrepareListingParams) : result PreparedListing :=
  assertEnabled;;
  wallet ← resolveWalletIdentity (walletIdentityFrom (pl_wallet p));
  let script := rr_script (rw_ordinals wallet) in
  u ← of_option (AppError "LISTING_NOT_FOUND" "source token UTXO not found or spent") (head (listing_source p script));
  throw_if (ur_amountAtoms u <? pl_amountAtoms p) (AppError "TOKEN_AMOUNT_INVALID" "listed amount exceeds source UTXO");;
  let tip := default 0 (cr_height <$> head (select (λ _, true) (coveV3Cursor d))) in
  let nonce := fromHex (pl_nonceHex p) in
  throw_if (negb (blen nonce =? 32)) (AppError "TOKEN_AMOUNT_INVALID" "nonce must be 32 bytes");;
  let expiry := listing_expiry p tip in
  throw_if (expiry <=? tip) (AppError "TOKEN_AMOUNT_INVALID" "listing would already be expired");;
  throw_if (ac_maxListingBlocks config <? expiry - tip)
    (AppError "TOKEN_AMOUNT_INVALID" ("a listing may stay open for at most " +:+ pretty (ac_maxListingBlocks config)
       +:+ " blocks (about " +:+ pretty (Z.quot (ac_maxListingBlocks config) 144) +:+ " days)"));;
  let listing := {|
    orderVersion := 1; l_chainIdentity := ac_chainIdentity config; l_tokenId := pl_tokenId p; sellerTokenScript := script;
    sellerPayoutScript := rr_script (rw_payments wallet); sellerTokenChangeScript := script; sourceTxid := pl_sourceTxid p;
    sourceVout := pl_sourceVout p; sourceAmountAtoms := ur_amountAtoms u; Order.amountAtoms := pl_amountAtoms p;
    totalPriceSats := pl_totalPriceSats p; creationHeight := tip; expiryHeight := expiry; l_nonce := toHex nonce |} in
  listingId ← listingIdOf listing;
  message ← listingMessageToSign listing;
  Ok {| pd_listing := listing; pd_listingId := listingId; pd_message := message; pd_expiryHeight := expiry |}.

Record PreparedCancellation := { pc_cancelNonce : string; pc_cancelHash : string; pc_message : string }.

Definition prepareCancellation (listingId nonceHex : string) : result PreparedCancellation :=
  let cancelNonce := fromHex nonceHex in
  throw_if (negb (blen cancelNonce =? 32)) (AppError "TOKEN_AMOUNT_INVALID" "nonce must be 32 bytes");;
  let c := {| cn_version := 1; cn_listingId := listingId; cn_cancelNonce := toHex cancelNonce |} in
  Ok {| pc_cancelNonce := cn_cancelNonce c; pc_cancelHash := cancellationHashOf c; pc_message := cancellationMessageToSign c |}.

(** The guards of the request before the market's own steps. *)
Definition fill_guards (m : MarketDb) (fillId : string) : result unit :=
  assertMutating;;
  requireHealthy;;
  fill ← of_option (AppError "STATE_CHANGED" "fill not found") (find_fill m fillId);
  assertCanaryAllowed (fl_tokenId fill) (fl_buyerTokenScript fill).

(** [Math.min(opts.limit ?? 100, 200)] *)
Definition listListings (m : MarketDb) (tokenId : option string) (limit : option nat) : list (ListingRow * option string) :=
  let rows := List.filter (λ r, bool_decide (lr_status r = LActive)
    && match truthy tokenId with Some t => String.eqb (l_tokenId (lr_order r)) t | None => true end) (md_listings m) in
  let join r := match List.filter (λ t, String.eqb (tr_tokenId t) (l_tokenId (lr_order r)) && tr_canonical t) (coveV3Tokens d) with
                | [] => [(r, None)]
                | ts => (λ t, (r, Some (tr_ticker t))) <$> ts
                end in
  take (Nat.min (default 100%nat limit) 200) (select_order (rows ≫= join)).
End Service.
