(* ===== verification/AppServiceInv.v ===== *)
(** * What the application sends, and its sessions

    A transaction leaves the service only after the wallet's signatures, the
    Guardian's where a vault moves, and the final validation; a session that is
    on its way stands for a transaction that was sent. *)
From S2P Require Import Prelude Bytes Curve Economics Wire Discovery Covenant Simplicity Vault Indexer Store Hydrate Lockstep Spend Builder AuditLog Guardian Finalize FinalizeInv Journal Signing AppConfig Readiness Order Market MarketService.
From S2P Require Import AppFunding TxSession AppQuote AppQuoteInv AppService.

(** ** Runs of requests *)
Lemma bindA_run {A B} (x : App A) (f : A → App B) s s' r :
  (x ≫= f) s = (s', r) ↔
  (∃ a s1, x s = (s1, Ok a) ∧ f a s1 = (s', r)) ∨ (∃ e, x s = (s', Throw e) ∧ r = Throw e).
Proof.
  unfold mbind, App_bind. destruct (x s) as [s1 [a|e]]; split.
  - intros H. left. by exists a, s1.
  - intros [(a' & s2 & [= -> ->] & H)|(e & [=] & _)]. done.
  - intros [= -> <-]. right. by exists e.
  - intros [(a' & s2 & [=] & _)|(e' & [= -> ->] & ->)]. done.
Qed.

Lemma pureA_run {A} (m : result A) s s' r : pureA m s = (s', r) ↔ s' = s ∧ r = m.
Proof. unfold pureA. naive_solver. Qed.
Lemma readA_run {A} (f : AppState → result A) s s' r : readA f s = (s', r) ↔ s' = s ∧ r = f s.
Proof. unfold readA. naive_solver. Qed.
Lemma retA_run {A} (a : A) s s' r : (mret a : App A) s = (s', r) ↔ s' = s ∧ r = Ok a.
Proof. unfold mret, App_ret. naive_solver. Qed.
Lemma call_run {A} e (m : result A) s s' r : call e m s = (s', r) ↔ s' = log_effect e s ∧ r = m.
Proof. unfold call. naive_solver. Qed.

(** Inverts one pure step of a run that begins in [s]: it ends there, or goes on. *)
Ltac pure_step H a Ha :=
  apply bindA_run in H as [(a & ? & Ha & H)|(? & Ha & H)]; rewrite ?pureA_run, ?readA_run in Ha; destruct Ha as [-> Ha].

Create HintDb keeps.

Section Keep.
(** A property of states that a request preserves. *)
Context (I : AppState → Prop).

Definition keeps {A} (x : App A) : Prop := ∀ s, I s → I (x s).1.

Lemma keeps_bind {A B} (x : App A) (f : A → App B) : keeps x → (∀ a, keeps (f a)) → keeps (x ≫= f).
Proof.
  intros Hx Hf s Hs. unfold mbind, App_bind. specialize (Hx s Hs). destruct (x s) as [s1 [a|e]]; cbn in *; [|done].
  by apply Hf.
Qed.
Lemma keeps_pure {A} (m : result A) : keeps (pureA m).
Proof. by intros s Hs. Qed.
Lemma keeps_read {A} (f : AppState → result A) : keeps (readA f).
Proof. by intros s Hs. Qed.
Lemma keeps_ret {A} (a : A) : keeps (mret a).
Proof. by intros s Hs. Qed.
End Keep.

(** ** The table of sessions *)
Section Table.
Context {PG : Postgres}.

Lemma getTxSession_spec id l r : getTxSession id l = Some r → r ∈ l ∧ sx_id r = id.
Proof.
  unfold getTxSession. intros H. destruct (select _ l) as [|x xs] eqn:E; [done|]. injection H as ->.
  pose proof (proj1 (elem_of_select (λ r, String.eqb (sx_id r) id) l r)) as Hin. rewrite E in Hin.
  destruct (Hin (list_elem_of_here _ _)) as [? ?%String.eqb_eq]. done.
Qed.

Lemma requireTxSession_spec id l r : requireTxSession id l = Ok r → r ∈ l ∧ sx_id r = id.
Proof. unfold requireTxSession. rewrite of_option_Ok. apply getTxSession_spec. Qed.

Lemma put_sessions_Ok l l' : put_sessions l = Ok l' ↔ l' = l ∧ sessions_unique l = true.
Proof. unfold put_sessions. destruct (sessions_unique l); naive_solver. Qed.

Lemma updateTxSession_spec id p l l' : updateTxSession id p l = Ok l' →
  sessions_unique l' = true ∧ l' = update_rows sx_id id (patch_session p) l.
Proof. unfold updateTxSession. intros [-> ?]%put_sessions_Ok. done. Qed.

Lemma elem_of_session_update id p (l : list TxSessionRow) r' : r' ∈ update_rows sx_id id (patch_session p) l →
  ∃ r, r ∈ l ∧ (sx_id r = id ∧ r' = patch_session p r ∨ sx_id r ≠ id ∧ r' = r).
Proof.
  unfold update_rows. rewrite list_elem_of_In, in_map_iff. intros (r & E & Hr). exists r.
  split; [by apply list_elem_of_In|]. destruct (decide (sx_id r = id)) as [Hid|Hid].
  - rewrite bool_decide_eq_true_2 in E by done. by left.
  - rewrite bool_decide_eq_false_2 in E by done. by right.
Qed.

Lemma update_elem id p (l : list TxSessionRow) r : r ∈ l →
  (if decide (sx_id r = id) then patch_session p r else r) ∈ update_rows sx_id id (patch_session p) l.
Proof.
  intros Hr. unfold update_rows. apply list_elem_of_In, in_map_iff. exists r. split; [|by apply list_elem_of_In].
  destruct (decide (sx_id r = id)); [by rewrite bool_decide_eq_true_2|by rewrite bool_decide_eq_false_2].
Qed.

Lemma unique_id l r r' : sessions_unique l = true → r ∈ l → r' ∈ l → sx_id r = sx_id r' → r = r'.
Proof.
  unfold sessions_unique. rewrite !andb_true_iff, !bool_decide_eq_true. intros [[Hn _] _] Hr Hr' E.
  apply list_elem_of_lookup in Hr as (i & Hi), Hr' as (j & Hj).
  assert (i = j) as ->; [|congruence]. eapply NoDup_lookup; [exact Hn|by rewrite list_lookup_fmap, Hi|].
  by rewrite list_lookup_fmap, Hj, E.
Qed.

(** What creating a session does: it returns one that stands for the same
    transaction, or adds one. *)
Lemma createTxSession_spec id now n l l' r : createTxSession id now n l = Ok (l', r) →
  idempotency_of (sx_input r) = idempotency_of n ∧ sx_digest r = ns_unsignedTxDigest n ∧ sx_tokenId r = ns_tokenId n ∧ r ∈ l'
  ∧ (l' = l ∨ (∀ e, e ∈ l → idempotency_of (sx_input e) ≠ idempotency_of n) ∧ l' = l ++ [r] ∧ sx_input r = n
              ∧ sx_errorCode r = None ∧ sessions_unique l' = true).
Proof.
  unfold createTxSession. intros H. destruct (select _ l) as [|e es] eqn:E.
  - apply bind_Ok in H as (l1 & Hp & H). apply put_sessions_Ok in Hp as [-> Hu]. injection H as <- <-. cbn [sx_input sx_errorCode].
    split_and!; [done..|apply elem_of_app; right; apply list_elem_of_here|]. right. split_and!; try done.
    intros e He Heq. assert (e ∈ select (λ r, bool_decide (idempotency_of (sx_input r) = idempotency_of n)) l) as Hin.
    { apply elem_of_select. split; [done|]. by apply bool_decide_eq_true. }
    rewrite E in Hin. by apply not_elem_of_nil in Hin.
  - pose proof (proj1 (elem_of_select (λ r, bool_decide (idempotency_of (sx_input r) = idempotency_of n)) l e)) as Hin.
    rewrite E in Hin. destruct (Hin (list_elem_of_here _ _)) as [Hel Hid%bool_decide_eq_true].
    destruct (_ && _) eqn:Ec; [|done]. injection H as <- <-. to_prop. destruct Ec. split_and!; [done..|by left].
Qed.
End Table.

(** ** Submitting *)
Section Submit.
Context {C : Crypto} {B : Bitcoin} {J : BitcoinJs} {P : PsbtBuilder} {PC : PsbtCodec} {IF : InputFinalizer} {PG : Postgres}.
Context (execFile : string → list string → Z → exec_outcome) (bin : option string).
Context (bad_tx_message : string → string).
Context (config : V3AppConfig) (d : V3Db) (env : AppEnv).

(** The final validation of an operation passed the transaction, on a view. *)
Definition final_valid (op : CoveOperation) (view : CoveCanonicalView) (v : ValidatedCoveTransaction) : Prop :=
  match op with
  | AppFunding.DEPLOY => validateFinalizedDeployTransaction bad_tx_message {|
      fd_rawTxHex := vt_rawTxHex v; fd_network := ac_network config; fd_chainIdentity := ac_chainIdentity config;
      fd_guardianXOnly := ac_guardianXOnly config; fd_recoveryKeyXOnly := ac_recoveryKeyXOnly config;
      fd_recoveryProfile := ac_recoveryProfile config |}
  | BACKING_BUY => validateFinalizedMintTransaction execFile bin bad_tx_message
      (final_params config (vt_rawTxHex v) view (buy_fees config))
  | AppFunding.REDEEM => validateFinalizedRedeemTransaction execFile bin bad_tx_message
      (final_params config (vt_rawTxHex v) view (sell_fees config))
  | AppFunding.TRANSFER => validateFinalizedTransferTransaction bad_tx_message
      {| ft_rawTxHex := vt_rawTxHex v; ft_view := view; ft_prevouts := None; ft_maxMinerFeeSats := Some (ac_maxMinerFeeSats config) |}
  end = Ok (FinalOk v).

Definition submit (op : CoveOperation) : string → string → App (option string) :=
  match op with
  | AppFunding.DEPLOY => submitLaunch bad_tx_message config env
  | BACKING_BUY => submitBackingBuy execFile bin bad_tx_message config d env
  | AppFunding.REDEEM => submitRedeem execFile bin bad_tx_message config d env
  | AppFunding.TRANSFER => submitTransfer bad_tx_message config d env
  end.

(** The wallet's first input, and the Guardian's operation. *)
Definition first_input (op : CoveOperation) : nat := if vault_op op then 1 else 0.
Definition guardian_op (op : CoveOperation) : GuardianOperation :=
  match op with AppFunding.REDEEM => AuditLog.OpRedeem | _ => AuditLog.OpMint end.

Definition log_all (es : list AppEffect) (s : AppState) : AppState := foldl (λ s e, log_effect e s) s es.

(** The outpoints the view is loaded with. *)
Definition submit_outpoints (op : CoveOperation) (psbt : Psbt) : list OutPoint :=
  match op with AppFunding.REDEEM => (λ i, txin_outpoint (psi_txin i)) <$> psbt_inputs psbt | _ => [] end.

(** The view of a submit: the indexer's, with the token's backing replaced by
    what the walk through the pending transitions finds, which stops at the
    outpoint the session was built on. *)
Definition view_at (l : list TxSessionRow) (session : TxSessionRow) (outs : list OutPoint) (view : CoveCanonicalView) : Prop :=
  let tokenId := default ""%string (sx_tokenId session) in
  ∃ backing, loadBackingAt bad_tx_message (ae_getRawTransaction env) d l tokenId (sx_backingTxid session) (sx_backingVout session) = Ok backing
    ∧ view = overlayPendingBacking (loadView d tokenId outs) tokenId backing.

(** The PSBT the wallet returned: it parses, its unsigned transaction has the
    digest the session was built with, and the signatures on the wallet's inputs
    verify. *)
Record wallet_signed (op : CoveOperation) (session : TxSessionRow) (b64 : string) (psbt : Psbt) : Prop := {
  ws_parsed : parsePsbt b64 = Ok psbt;
  ws_digest : unsignedTxDigest psbt = sx_digest session;
  ws_signed : ∀ i, (first_input op ≤ i < length (psbt_inputs psbt))%nat → checkSpendSignature psbt (Z.of_nat i) = SigOk;
}.

(** The PSBT with all signatures: where a vault moves, the one the Guardian
    gave back, asked once about the wallet's PSBT on that view; else the
    wallet's. *)
Definition countersigned (op : CoveOperation) (psbt : Psbt) (view : CoveCanonicalView) (asks : list AppEffect)
    (psbt' : Psbt) : Prop :=
  if vault_op op then
    asks = [AskGuardian (guardian_op op) psbt]
    ∧ ∃ req signed, tr_psbt req = psbt ∧ tr_view req = view
        ∧ ae_sign env (guardian_op op) req = Ok (Signed signed, psbt')
  else asks = [] ∧ psbt' = psbt.

(** The transaction of a PSBT whose wallet inputs are finalized. *)
Definition finalized_as (op : CoveOperation) (psbt : Psbt) (raw : string) : Prop :=
  ∃ psbt', (if vault_op op then finalize_from finalizeInput psbt 1 (length (psbt_inputs psbt) - 1) else finalizeAllInputs psbt)
           = Ok psbt'
  ∧ extractTransactionHex psbt' = Ok raw.

(** All that stands before a transaction [v] is sent for a session. *)
Definition ready_to_send (op : CoveOperation) (l : list TxSessionRow) (id b64 : string) (session : TxSessionRow)
    (asks : list AppEffect) (v : ValidatedCoveTransaction) : Prop :=
  ac_enabled config = true ∧ requireTxSession id l = Ok session ∧ sx_operation session = TxOp op
  ∧ sx_status session ≠ BROADCAST ∧ sx_status session ≠ CONFIRMED
  ∧ ∃ psbt view psbt', wallet_signed op session b64 psbt
      ∧ (op ≠ AppFunding.DEPLOY → view_at l session (submit_outpoints op psbt) view)
      ∧ countersigned op psbt view asks psbt'
      ∧ finalized_as op psbt' (vt_rawTxHex v)
      ∧ final_valid op view v.

Lemma validate_from_Ok f psbt n : ∀ i, validate_from f psbt i n = Ok tt →
  ∀ k, (k < n)%nat → f psbt (i + Z.of_nat k) = Ok tt.
Proof.
  induction n as [|n IH]; intros i H k Hk; [lia|]. cbn [validate_from] in H. apply bind_Ok in H as ([] & H0 & H).
  destruct k as [|k]; [by rewrite Z.add_0_r|]. rewrite Nat2Z.inj_succ. replace (i + Z.succ (Z.of_nat k)) with (i + 1 + Z.of_nat k) by lia.
  apply IH; [done|lia].
Qed.

Lemma signed_psbt_Ok op session b64 psbt :
  signed_psbt session b64 (first_input op) = Ok psbt → wallet_signed op session b64 psbt.
Proof.
  unfold signed_psbt. intros H. apply bind_Ok in H as (p & Hp & H). apply bind_Ok in H as ([] & Hd & H).
  apply throw_if_Ok, negb_false_iff, String.eqb_eq in Hd. apply bind_Ok in H as ([] & Hv & [= ->]). split; [done..|].
  intros i Hi. pose proof (validate_from_Ok _ _ _ _ Hv (i - first_input op) ltac:(lia)) as Hs.
  replace (Z.of_nat (first_input op) + Z.of_nat (i - first_input op)) with (Z.of_nat i) in Hs by lia.
  unfold validateInputSignature in Hs. by destruct (checkSpendSignature psbt (Z.of_nat i)).
Qed.

(** How a submit runs. *)
Definition submit_runs (op : CoveOperation) (id b64 : string) (s s' : AppState) (r : result (option string)) : Prop :=
  (∃ session, requireTxSession id (as_sessions s) = Ok session ∧ (sx_status session = BROADCAST ∨ sx_status session = CONFIRMED)
     ∧ s' = s ∧ r = Ok (sx_txid session))
  ∨ (∃ asks e, s' = log_all asks s ∧ r = Throw e ∧ (∀ raw, SendTransaction raw ∉ asks))
  ∨ (∃ session asks v, ready_to_send op (as_sessions s) id b64 session asks v
     ∧ send_and_record env (sx_id session) v (log_all asks s) = (s', r)).

Lemma stops_now op id b64 s e : submit_runs op id b64 s s (Throw e).
Proof. right. left. exists [], e. split_and!; [done..|]. intros raw. apply not_elem_of_nil. Qed.

Lemma open_session_run op id s s' r : open_session config op id s = (s', r) →
  s' = s ∧ ((∃ e, r = Throw e)
            ∨ ∃ session, r = Ok session ∧ ac_enabled config = true ∧ requireTxSession id (as_sessions s) = Ok session
                         ∧ sx_operation session = TxOp op).
Proof.
  unfold open_session. intros H. pure_step H u Hu; [|split; [done|left; by eexists]].
  pure_step H session Hs; [|split; [done|left; by eexists]]. pure_step H u2 Hop; [|split; [done|left; by eexists]].
  apply retA_run in H as [-> ->]. split; [done|]. right. exists session. symmetry in Hu, Hs, Hop.
  unfold assertEnabled in Hu. apply throw_if_Ok in Hu, Hop. to_prop. by split_and!.
Qed.

Lemma accepted_Ok m v : accepted m = Ok v ↔ m = Ok (FinalOk v).
Proof. unfold accepted. destruct m as [[v'|reason]|]; cbn; split; intros [=]; by subst. Qed.

Lemma already_sent_spec session : already_sent session = true ↔ sx_status session = BROADCAST ∨ sx_status session = CONFIRMED.
Proof. unfold already_sent. rewrite bool_decide_eq_true. set_solver. Qed.

Lemma not_sent_spec session : already_sent session = false → sx_status session ≠ BROADCAST ∧ sx_status session ≠ CONFIRMED.
Proof. intros H. split; intros E; assert (already_sent session = true) by (apply already_sent_spec; auto); congruence. Qed.

(** The steps that all submits begin with. *)
Lemma submit_start op id b64 s s' r (k : TxSessionRow → App (option string)) :
  (session ← open_session config op id; if already_sent session then mret (sx_txid session) else k session) s = (s', r) →
  (∀ session, ac_enabled config = true → requireTxSession id (as_sessions s) = Ok session → sx_operation session = TxOp op →
     sx_status session ≠ BROADCAST → sx_status session ≠ CONFIRMED → k session s = (s', r) → submit_runs op id b64 s s' r) →
  submit_runs op id b64 s s' r.
Proof.
  intros H Hk. apply bindA_run in H as [(session & s1 & Ho & H)|(e & Ho & ->)]; apply open_session_run in Ho as [-> Ho].
  2:{ apply stops_now. }
  destruct Ho as [[e [=]]|(session' & [= <-] & Hen & Hr & Hop)]. destruct (already_sent session) eqn:Ea.
  - apply retA_run in H as [-> ->]. left. exists session. split_and!; [done|by apply already_sent_spec|done..].
  - apply not_sent_spec in Ea as [? ?]. by apply (Hk session).
Qed.

Lemma guardian_signed_run op req s s' r : guardian_signed env op req s = (s', r) →
  s' = log_effect (AskGuardian op (tr_psbt req)) s
  ∧ ((∃ e, r = Throw e) ∨ ∃ raw signed psbt' psbt2, r = Ok raw ∧ ae_sign env op req = Ok (Signed signed, psbt')
       ∧ finalize_from finalizeInput psbt' 1 (length (psbt_inputs psbt') - 1) = Ok psbt2 ∧ extractTransactionHex psbt2 = Ok raw).
Proof.
  unfold guardian_signed. intros H. apply bindA_run in H as [([outcome psbt] & s1 & Hc & H)|(e & Hc & ->)];
    apply call_run in Hc as [-> Hc]; [|split; [done|left; by eexists]].
  pure_step H u Hu; [|split; [done|left; by eexists]]. pure_step H psbt2 Hf; [|split; [done|left; by eexists]].
  apply pureA_run in H as [-> ->]. split; [done|]. destruct outcome as [signed|]; [|done].
  destruct (extractTransactionHex psbt2) as [raw|e] eqn:Ex; [|left; by eexists]. right. by exists raw, signed, psbt, psbt2.
Qed.

Lemma submit_view_run session outs s s' r :
  submit_view bad_tx_message d env session outs s = (s', r) → s' = s ∧ ∀ view, r = Ok view → view_at (as_sessions s) session outs view.
Proof.
  unfold submit_view, loadBackingAtA. intros H. pure_step H b Hb; [|by subst r].
  apply retA_run in H as [-> ->]. split; [done|]. intros view [= <-]. by exists b.
Qed.

Lemma vt_raw_deploy params v : validateFinalizedDeployTransaction bad_tx_message params = Ok (FinalOk v) → vt_rawTxHex v = fd_rawTxHex params.
Proof. intros (tx & pv & t & n & c & i & w & H)%validateFinalizedDeploy_Ok. destruct_and! H. by subst v. Qed.
Lemma vt_raw_mint params v : validateFinalizedMintTransaction execFile bin bad_tx_message params = Ok (FinalOk v) → vt_rawTxHex v = fp_rawTxHex params.
Proof. intros H%validateFinalizedMint_Ok. unfold final_mint in H. destruct H as (? & ? & ? & ? & ? & ? & ? & ? & ? & ? & ? & ? & ? & H). destruct_and! H. by subst v. Qed.
Lemma vt_raw_redeem params v : validateFinalizedRedeemTransaction execFile bin bad_tx_message params = Ok (FinalOk v) → vt_rawTxHex v = fp_rawTxHex params.
Proof. intros H%validateFinalizedRedeem_Ok. unfold final_redeem in H. destruct H as (? & ? & ? & ? & ? & ? & ? & ? & ? & ? & ? & ? & H). destruct_and! H. by subst v. Qed.
Lemma vt_raw_transfer params v : validateFinalizedTransferTransaction bad_tx_message params = Ok (FinalOk v) → vt_rawTxHex v = ft_rawTxHex params.
Proof. intros H%validateFinalizedTransfer_Ok. unfold final_transfer in H. destruct H as (? & ? & ? & H). destruct_and! H. by subst v. Qed.

Lemma stops_asking op id b64 s a e : (∀ raw, a ≠ SendTransaction raw) → submit_runs op id b64 s (log_effect a s) (Throw e).
Proof. intros Ha. right. left. exists [a], e. split_and!; [done..|]. intros raw E%list_elem_of_singleton. by destruct (Ha raw). Qed.

Lemma submitLaunch_runs id b64 s s' r :
  submitLaunch bad_tx_message config env id b64 s = (s', r) → submit_runs AppFunding.DEPLOY id b64 s s' r.
Proof.
  intros H. eapply submit_start; [exact H|]. clear H. intros session Hen Hr Hop Hb Hc H.
  pure_step H psbt Hp; [|subst r; apply stops_now]. pure_step H psbt2 Hf; [|subst r; apply stops_now].
  pure_step H raw Hraw; [|subst r; apply stops_now]. pure_step H v Hv; [|subst r; apply stops_now].
  symmetry in Hv. apply accepted_Ok in Hv. pose proof (vt_raw_deploy _ _ Hv) as Eraw. cbn in Eraw. subst raw.
  right. right. exists session, [], v. split; [|exact H]. unfold ready_to_send. split_and!; try done.
  exists psbt, (loadView d ""%string []), psbt. split_and!; try done; [by apply signed_psbt_Ok|by exists psbt2].
Qed.

Lemma submitTransfer_runs id b64 s s' r :
  submitTransfer bad_tx_message config d env id b64 s = (s', r) → submit_runs AppFunding.TRANSFER id b64 s s' r.
Proof.
  intros H. eapply submit_start; [exact H|]. clear H. intros session Hen Hr Hop Hb Hc H.
  pure_step H psbt Hp; [|subst r; apply stops_now]. pure_step H psbt2 Hf; [|subst r; apply stops_now].
  pure_step H raw Hraw; [|subst r; apply stops_now].
  apply bindA_run in H as [(view & s1 & Hview & H)|(e & Hview & ->)]; apply submit_view_run in Hview as [-> Hview]; [|apply stops_now].
  pure_step H v Hv; [|subst r; apply stops_now].
  symmetry in Hv. apply accepted_Ok in Hv. pose proof (vt_raw_transfer _ _ Hv) as Eraw. cbn in Eraw. subst raw.
  right. right. exists session, [], v. split; [|exact H]. unfold ready_to_send. split_and!; try done.
  exists psbt, view, psbt. split_and!; try done; [by apply signed_psbt_Ok|intros _; by apply Hview|by exists psbt2].
Qed.

(** The steps of the two submits that move a vault, from the signed PSBT on. *)
Lemma vault_submit_runs op id b64 s s' r session (req : Psbt → CoveCanonicalView → TransitionSignRequest)
    (validate : string → CoveCanonicalView → result FinalValidationResult) :
  vault_op op = true →
  (∀ psbt view, tr_psbt (req psbt view) = psbt ∧ tr_view (req psbt view) = view) →
  (∀ raw view v, validate raw view = Ok (FinalOk v) → final_valid op view v ∧ vt_rawTxHex v = raw) →
  ac_enabled config = true → requireTxSession id (as_sessions s) = Ok session → sx_operation session = TxOp op →
  sx_status session ≠ BROADCAST → sx_status session ≠ CONFIRMED →
  (psbt ← pureA (signed_psbt session b64 1);
   view ← submit_view bad_tx_message d env session (submit_outpoints op psbt);
   rawTxHex ← guardian_signed env (guardian_op op) (req psbt view);
   v ← pureA (accepted (validate rawTxHex view));
   send_and_record env (sx_id session) v) s = (s', r) →
  submit_runs op id b64 s s' r.
Proof.
  intros Hvault Hreq Hval Hen Hr Hop Hb Hc H.
  pure_step H psbt Hp; [|subst r; apply stops_now].
  apply bindA_run in H as [(view & s1 & Hview & H)|(e & Hview & ->)]; apply submit_view_run in Hview as [-> Hview]; [|apply stops_now].
  apply bindA_run in H as [(raw & s1 & Hg & H)|(e & Hg & ->)]; apply guardian_signed_run in Hg as [-> Hg];
    [|by apply stops_asking].
  destruct Hg as [[e [=]]|(raw' & signed & psbt' & psbt2 & [= <-] & Hsign & Hfin & Hext)].
  pure_step H v Hv; [|subst r; by apply stops_asking].
  symmetry in Hv. apply accepted_Ok, Hval in Hv as [Hv Eraw]. symmetry in Hp.
  right. right. exists session, [AskGuardian (guardian_op op) psbt], v. rewrite (proj1 (Hreq psbt view)) in H. split; [|exact H].
  unfold ready_to_send. split_and!; try done.
  exists psbt, view, psbt'. unfold countersigned, finalized_as. rewrite Hvault. split_and!; try done.
  - apply signed_psbt_Ok. unfold first_input. by rewrite Hvault.
  - intros _. by apply Hview.
  - destruct (Hreq psbt view). by exists (req psbt view), signed.
  - exists psbt2. by rewrite Eraw.
Qed.

Lemma submitBackingBuy_runs id b64 s s' r :
  submitBackingBuy execFile bin bad_tx_message config d env id b64 s = (s', r) → submit_runs BACKING_BUY id b64 s s' r.
Proof.
  intros H. eapply submit_start; [exact H|]. clear H. intros session Hen Hr Hop Hb Hc H.
  eapply (vault_submit_runs BACKING_BUY id b64 s s' r session (λ psbt view, sign_request config d env psbt view (buy_fees config)
    (discoveryTicker config d (default ""%string (sx_tokenId session))))); try done; [|exact H].
  intros raw view v Hv. unfold final_valid. pose proof (vt_raw_mint _ _ Hv) as E. cbn in E. by rewrite E.
Qed.

Lemma submitRedeem_runs id b64 s s' r :
  submitRedeem execFile bin bad_tx_message config d env id b64 s = (s', r) → submit_runs AppFunding.REDEEM id b64 s s' r.
Proof.
  intros H. eapply submit_start; [exact H|]. clear H. intros session Hen Hr Hop Hb Hc H.
  eapply (vault_submit_runs AppFunding.REDEEM id b64 s s' r session
    (λ psbt view, sign_request config d env psbt view (sell_fees config) None)); try done; [|exact H].
  intros raw view v Hv. unfold final_valid. pose proof (vt_raw_redeem _ _ Hv) as E. cbn in E. by rewrite E.
Qed.

Lemma submit_submit_runs op id b64 s s' r : submit op id b64 s = (s', r) → submit_runs op id b64 s s' r.
Proof. destruct op; [apply submitLaunch_runs|apply submitBackingBuy_runs|apply submitRedeem_runs|apply submitTransfer_runs]. Qed.

(** The node would take the transaction. *)
Definition node_accepts (raw : string) : Prop :=
  ∃ verdict, bn_testMempoolAccept (ae_broadcast env) raw = Ok verdict ∧ mv_allowed verdict = true.

Lemma updateSession_run id p s s' r : updateSession id p s = (s', r) →
  as_effects s' = as_effects s
  ∧ ((∃ e, r = Throw e) ∧ s' = s
     ∨ r = Ok tt ∧ sessions_unique (as_sessions s') = true ∧ as_sessions s' = update_rows sx_id id (patch_session p) (as_sessions s)).
Proof.
  unfold updateSession, on_sessions. intros H. destruct (updateTxSession id p (as_sessions s)) as [l|e] eqn:E; cbn in H; injection H as <- <-.
  - apply updateTxSession_spec in E as [Hu ->]. split; [done|]. by right.
  - split; [done|]. left. by split; [eexists|].
Qed.

(** What the last steps of a submit do. *)
Definition sends (id : string) (v : ValidatedCoveTransaction) (s s' : AppState) (r : result (option string)) : Prop :=
  as_effects s' = as_effects s ++ [TestAccept (vt_rawTxHex v)] ∧ as_sessions s' = as_sessions s ∧ (∃ e, r = Throw e)
  ∨ node_accepts (vt_rawTxHex v) ∧ as_effects s' = as_effects s ++ [TestAccept (vt_rawTxHex v); SendTransaction (vt_rawTxHex v)]
    ∧ ((∃ e, r = Throw e) ∧ as_sessions s' = as_sessions s
       ∨ r = Ok (Some (vt_txid v)) ∧ bn_broadcastTransaction (ae_broadcast env) (vt_rawTxHex v) = Ok (vt_txid v)
         ∧ sessions_unique (as_sessions s') = true
         ∧ as_sessions s' = update_rows sx_id id (patch_session (patch_broadcast (vt_txid v))) (as_sessions s)).

Lemma send_and_record_run id v s s' r : send_and_record env id v s = (s', r) → sends id v s s' r.
Proof.
  unfold send_and_record, broadcast, sends. intros H.
  apply bindA_run in H as [(txid & s1 & Hb & H)|(e & Hb & ->)];
    apply bindA_run in Hb as [(verdict & s2 & Hc & Hb)|(e2 & Hc & He)]; apply call_run in Hc as [-> Hc]; try done.
  2: pure_step Hb u Hu; [|left; split_and!; [done..|by eexists]].
  1: pure_step Hb u Hu; [|done].
  3: left; split_and!; [done..|by eexists].
  all: right; symmetry in Hu; apply throw_if_Ok in Hu; rewrite negb_false_iff in Hu; split; [by exists verdict|].
  all: apply bindA_run in Hb as [(txid' & s3 & Hs & Hb)|(e3 & Hs & He)]; apply call_run in Hs as [-> Hs]; try done; cbn [as_effects log_effect].
  3: by rewrite <- app_assoc; split; [|left; split; [eexists|]].
  all: pure_step Hb u2 Hu2; try done.
  all: try (apply retA_run in Hb as [-> Hb]; try done).
  2: by cbn; rewrite <- app_assoc; split; [|left; split; [eexists|]].
  injection Hb as ->. symmetry in Hu2. apply throw_if_Ok in Hu2. rewrite negb_false_iff, String.eqb_eq in Hu2. subst txid'.
  apply bindA_run in H as [(u3 & s4 & Hup & H)|(e & Hup & ->)]; apply updateSession_run in Hup as [Heff Hup]; cbn in Heff;
    rewrite <- app_assoc in Heff; cbn in Heff.
  - apply retA_run in H as [-> ->]. destruct Hup as [[[e [=]] _]|(_ & Hun & Hl)]. split; [done|]. by right.
  - destruct Hup as [[_ ->]|[[=] _]]. split; [done|]. left. by split; [eexists|].
Qed.

Lemma log_all_effects es s : as_effects (log_all es s) = as_effects s ++ es ∧ as_sessions (log_all es s) = as_sessions s.
Proof.
  revert s. induction es as [|e es IH]; intros s; [cbn; by rewrite app_nil_r|]. change (log_all (e :: es) s) with (log_all es (log_effect e s)).
  destruct (IH (log_effect e s)) as [-> ->]. cbn. by rewrite <- app_assoc.
Qed.

Lemma countersigned_no_send op psbt view asks psbt' raw : countersigned op psbt view asks psbt' → SendTransaction raw ∉ asks.
Proof.
  unfold countersigned. destruct (vault_op op); [|intros [-> _]; apply not_elem_of_nil].
  intros [-> _] [=]%list_elem_of_singleton.
Qed.

(** C10: what a submit sends.  Either it finds its session already sent, returns
    the transaction's id and does nothing; or it throws, having sent nothing
    and changed no session; or it got so far as the broadcast of a transaction
    [v].  In that case the session is one of the operation, still unsent; the
    unsigned transaction of the PSBT the wallet returned has the digest of the
    session, and the signatures on all the wallet's inputs verify; where a vault
    moves, the Guardian was asked once, about that PSBT and the view the final
    validation uses, and answered that it signed; [v] is the transaction
    extracted from the PSBT it gave back, and the final validation passed it on
    that view.  The view is the
    indexer's with the token's backing at the end of the walk through the
    pending transitions, which stops at the outpoint the session was built on
    where it comes across it.  The node is asked whether it takes [v], and [v]
    is sent when it does.  On success the node's id is that of [v] and its
    session becomes BROADCAST with it; otherwise no session changes. *)
Theorem submit_sends_validated op id b64 s s' r :
  submit op id b64 s = (s', r) →
  (∃ session, requireTxSession id (as_sessions s) = Ok session ∧ (sx_status session = BROADCAST ∨ sx_status session = CONFIRMED)
     ∧ s' = s ∧ r = Ok (sx_txid session))
  ∨ (∃ asks e, as_effects s' = as_effects s ++ asks ∧ as_sessions s' = as_sessions s ∧ r = Throw e ∧ (∀ raw, SendTransaction raw ∉ asks))
  ∨ (∃ session asks v es, ready_to_send op (as_sessions s) id b64 session asks v ∧ as_effects s' = as_effects s ++ asks ++ es
     ∧ ((∃ e, r = Throw e) ∧ as_sessions s' = as_sessions s ∧ es = [TestAccept (vt_rawTxHex v)]
        ∨ node_accepts (vt_rawTxHex v) ∧ es = [TestAccept (vt_rawTxHex v); SendTransaction (vt_rawTxHex v)]
          ∧ ((∃ e, r = Throw e) ∧ as_sessions s' = as_sessions s
             ∨ r = Ok (Some (vt_txid v)) ∧ bn_broadcastTransaction (ae_broadcast env) (vt_rawTxHex v) = Ok (vt_txid v)
               ∧ as_sessions s' = update_rows sx_id (sx_id session) (patch_session (patch_broadcast (vt_txid v))) (as_sessions s)))).
Proof.
  intros [H|[(asks & e & -> & -> & Hs)|(session & asks & v & Hready & H)]]%submit_submit_runs; [by left|..].
  - right. left. exists asks, e. destruct (log_all_effects asks s) as [? ?]. done.
  - right. right. apply send_and_record_run in H. unfold sends in H. destruct (log_all_effects asks s) as [Ee El]. rewrite Ee, El in H.
    destruct H as [(He & Hl & Hr)|(Hn & He & H)]; rewrite <- app_assoc in He; eexists session, asks, v, _;
      (split; [done|]); (split; [exact He|]); [by left|].
    right. split; [done|]. split; [done|]. naive_solver.
Qed.
End Submit.
