(* ===== verification/AppSessions.v ===== *)
(** * The sessions of the application, over every run of requests

    The requests that write the sessions and what leaves the process, as the
    steps of a transition system, and the invariant of its reachable states. *)
From S2P Require Import Prelude Bytes Curve Economics Wire Discovery Covenant Simplicity Vault Indexer Store Hydrate Lockstep Spend Builder AuditLog Guardian Finalize Journal Signing AppConfig Readiness Order Market MarketService.
From S2P Require Import AppFunding TxSession AppQuote AppService AppServiceInv.

Inductive AppRequest :=
  | RBuildLaunch (p : LaunchParams)
  | RBuildBuy (p : BuyParams)
  | RBuildRedeem (p : RedeemRequest)
  | RBuildTransfer (p : TransferRequest)
  | RSubmit (op : CoveOperation) (sessionId signedPsbtBase64 : string)
  | RReconcile.

Definition is_build (req : AppRequest) : bool := match req with RSubmit _ _ _ | RReconcile => false | _ => true end.

Section Sessions.
Context {C : Crypto} {B : Bitcoin} {J : BitcoinJs} {P : PsbtBuilder} {PC : PsbtCodec} {IF : InputFinalizer} {PG : Postgres}.
Context (execFile : string → list string → Z → exec_outcome) (bin : option string).
Context (bad_tx_message : string → string).
Context (config : V3AppConfig).

(** One request, at the indexer's tables [d] and with the answers [env]. *)
Definition handle (d : V3Db) (env : AppEnv) (req : AppRequest) : App unit :=
  match req with
  | RBuildLaunch p => buildLaunch config d env p;; mret tt
  | RBuildBuy p => buildBackingBuy execFile bin bad_tx_message config d env p;; mret tt
  | RBuildRedeem p => buildRedeem execFile bin bad_tx_message config d env p;; mret tt
  | RBuildTransfer p => buildTransfer config d env p;; mret tt
  | RSubmit op id b64 => submit execFile bin bad_tx_message config d env op id b64;; mret tt
  | RReconcile => reconcileAppSessions d env;; mret tt
  end.

Definition app_start : AppState := {| as_sessions := []; as_metadata := []; as_feeCache := None; as_effects := [] |}.

(** The states requests lead to; the tables and the answers may be others at
    each request. *)
Inductive app_reachable : AppState → Prop :=
  | reach_start : app_reachable app_start
  | reach_request s d env req : app_reachable s → app_reachable (handle d env req s).1.

(** A transaction was sent for a session: the final validation of its operation
    passed it and, where a vault moves, the Guardian was asked about a PSBT with
    the session's digest. *)
Definition sent_for (s : AppState) (r : TxSessionRow) : Prop :=
  ∃ op view v, sx_operation r = TxOp op ∧ sx_txid r = Some (vt_txid v)
    ∧ final_valid execFile bin bad_tx_message config op view v ∧ SendTransaction (vt_rawTxHex v) ∈ as_effects s
    ∧ (vault_op op = true → ∃ psbt, AskGuardian (guardian_op op) psbt ∈ as_effects s ∧ unsignedTxDigest psbt = sx_digest r).

Definition session_sound (s : AppState) (r : TxSessionRow) : Prop :=
  match sx_status r with
  | BUILT => sx_txid r = None
  | BROADCAST | CONFIRMED | FAILED => sent_for s r
  | _ => False
  end.

Definition sessions_ok (s : AppState) : Prop :=
  sessions_unique (as_sessions s) = true
  ∧ (∀ r, r ∈ as_sessions s → session_sound s r)
  ∧ (∀ raw, SendTransaction raw ∈ as_effects s → ∃ op view v, raw = vt_rawTxHex v ∧ final_valid execFile bin bad_tx_message config op view v).

(** *** What keeps the invariant *)
Lemma sent_for_more s s' r : (∀ e, e ∈ as_effects s → e ∈ as_effects s') → sent_for s r → sent_for s' r.
Proof. intros Hsub (op & view & v & ? & ? & ? & ? & Hask). exists op, view, v. naive_solver. Qed.

Lemma session_sound_more s s' r : (∀ e, e ∈ as_effects s → e ∈ as_effects s') → session_sound s r → session_sound s' r.
Proof. intros Hsub. unfold session_sound. destruct (sx_status r); eauto using sent_for_more. Qed.

(** Steps that leave the sessions and the log as they are. *)
Lemma ok_frame s s' : as_sessions s' = as_sessions s → as_effects s' = as_effects s → sessions_ok s → sessions_ok s'.
Proof.
  intros El Ee (Hu & Hr & Hs). unfold sessions_ok. rewrite El, Ee. split; [done|]. split; [|done].
  intros r Hin. apply (session_sound_more s); [by rewrite Ee|by apply Hr].
Qed.

(** More was asked or sent, what was sent was valid, and no session changed. *)
Lemma ok_log s s' es : as_sessions s' = as_sessions s → as_effects s' = as_effects s ++ es →
  (∀ raw, SendTransaction raw ∈ es → ∃ op view v, raw = vt_rawTxHex v ∧ final_valid execFile bin bad_tx_message config op view v) →
  sessions_ok s → sessions_ok s'.
Proof.
  intros El Ee Hes (Hu & Hr & Hs). unfold sessions_ok. rewrite El, Ee. split; [done|]. split.
  - intros r Hin. apply (session_sound_more s); [rewrite Ee; intros; apply elem_of_app; by left|by apply Hr].
  - intros raw [Hin|Hin]%elem_of_app; auto.
Qed.

(** One session was updated. *)
Lemma ok_update s s' id p : as_effects s' = as_effects s → as_sessions s' = update_rows sx_id id (patch_session p) (as_sessions s) →
  sessions_unique (as_sessions s') = true →
  (∀ r, r ∈ as_sessions s → sx_id r = id → session_sound s' (patch_session p r)) →
  sessions_ok s → sessions_ok s'.
Proof.
  intros Ee El Hun Hp (Hu & Hr & Hs). split; [done|]. split; [|by rewrite Ee]. rewrite El.
  intros r' (r & Hin & [[Hid ->]|[_ ->]])%elem_of_session_update; [by apply Hp|].
  apply (session_sound_more s); [by rewrite Ee|by apply Hr].
Qed.

Lemma keeps_createSession env op tokenId w backing psbt expires :
  keeps sessions_ok (createSession env op tokenId w backing psbt expires).
Proof.
  intros s Hs. unfold createSession, on_sessions.
  destruct (createTxSession _ _ _ _) as [[l r]|e] eqn:E; cbn; [|done].
  apply createTxSession_spec in E as (_ & _ & _ & _ & [->|(_ & -> & En & _ & Hu)]).
  - by apply (ok_frame s).
  - destruct Hs as (_ & Hr & Hs). split; [done|]. split; [|done]. cbn.
    intros r' [Hin| ->%list_elem_of_singleton]%elem_of_app; [apply (session_sound_more s); [done|by apply Hr]|].
    unfold session_sound. by rewrite En.
Qed.

Lemma keeps_feeRates env : keeps sessions_ok (feeRatesA env).
Proof. intros s Hs. unfold feeRatesA. destruct (feeRates _ _ _) as [rates cache]. by apply (ok_frame s). Qed.

Lemma keeps_metadata f : keeps sessions_ok (on_metadata f).
Proof. intros s Hs. unfold on_metadata. destruct (f _); [by apply (ok_frame s)|done]. Qed.

Lemma keeps_funding d env params : keeps sessions_ok (resolveFundingAndFeeA config d env params).
Proof.
  unfold resolveFundingAndFeeA. apply keeps_bind; [apply keeps_pure|intros _]. apply keeps_bind; [apply keeps_feeRates|].
  intros rates. apply keeps_pure.
Qed.
End Sessions.

#[export] Hint Resolve keeps_createSession keeps_feeRates keeps_metadata keeps_funding keeps_pure keeps_read keeps_ret : keeps.

(** Goes through the steps of a request. *)
Ltac keep_steps :=
  repeat (apply keeps_bind; [solve [eauto with keeps]|intros; repeat case_match]); eauto with keeps.

Section Builds.
Context {C : Crypto} {B : Bitcoin} {J : BitcoinJs} {P : PsbtBuilder} {PC : PsbtCodec} {IF : InputFinalizer} {PG : Postgres}.
Context (execFile : string → list string → Z → exec_outcome) (bin : option string).
Context (bad_tx_message : string → string).
Context (config : V3AppConfig).
Notation ok := (sessions_ok execFile bin bad_tx_message config).

Lemma keeps_build d env req : is_build req = true → keeps ok (handle execFile bin bad_tx_message config d env req).
Proof.
  destruct req as [p|p|p|p| |]; [| | | |done..]; intros _; cbn [handle]; apply keeps_bind; try (intros; apply keeps_ret).
  - unfold buildLaunch. keep_steps.
  - unfold buildBackingBuy, loadBackingA. keep_steps.
  - unfold buildRedeem, loadBackingA. keep_steps.
  - unfold buildTransfer. keep_steps.
Qed.
End Builds.

Section Moves.
Context {C : Crypto} {B : Bitcoin} {J : BitcoinJs} {P : PsbtBuilder} {PC : PsbtCodec} {IF : InputFinalizer} {PG : Postgres}.
Context (execFile : string → list string → Z → exec_outcome) (bin : option string).
Context (bad_tx_message : string → string).
Context (config : V3AppConfig).
Notation ok := (sessions_ok execFile bin bad_tx_message config).

(** A session for which a transaction was sent. *)
Definition advanced (r : TxSessionRow) : Prop := sx_status r = BROADCAST ∨ sx_status r = CONFIRMED ∨ sx_status r = FAILED.

(** The rows of a list read earlier have all been sent. *)
Definition ok_pending (pending : list TxSessionRow) (s : AppState) : Prop :=
  ok s ∧ ∀ p r, p ∈ pending → r ∈ as_sessions s → sx_id r = sx_id p → advanced r.

Lemma keeps_final_status pending p patch st : p ∈ pending → sp_txid patch = None → sp_status patch = Some st →
  st = CONFIRMED ∨ st = FAILED → keeps (ok_pending pending) (updateSession (sx_id p) patch).
Proof.
  intros Hp Htxid Hst Hfin s [Hok Hadv]. destruct (updateSession (sx_id p) patch s) as [s' r] eqn:E. cbn.
  apply updateSession_run in E as [Ee [[_ ->]|(_ & Hu & El)]]; [done|].
  assert (∀ r, sx_status (patch_session patch r) = st) as Hs by (intros r1; cbn; by rewrite Hst). split.
  - apply (ok_update _ _ _ _ s s' (sx_id p) patch); [done..| |done]. intros r1 Hin Hid. unfold session_sound.
    assert (sent_for execFile bin bad_tx_message config s r1) as Hsent.
    { pose proof (proj1 (proj2 Hok) _ Hin) as H. unfold session_sound in H. by destruct (Hadv p r1 Hp Hin Hid) as [E|[E|E]]; rewrite E in H. }
    assert (sent_for execFile bin bad_tx_message config s' (patch_session patch r1)); [|rewrite Hs; by destruct Hfin as [-> | ->]].
    destruct Hsent as (op & view & v & ? & ? & ? & ? & ?). exists op, view, v. cbn. rewrite Ee, Htxid. done.
  - intros p' r1 Hp'. rewrite El. intros (r2 & Hin & [[Hid ->]|[_ ->]])%elem_of_session_update; [|by apply Hadv].
    intros _. unfold advanced. rewrite Hs. naive_solver.
Qed.

Lemma keeps_reconcile_session d env pending p : p ∈ pending → keeps (ok_pending pending) (reconcile_session d env p).
Proof.
  intros Hp. unfold reconcile_session. repeat case_match; try apply keeps_ret.
  all: apply keeps_bind; [|intros; apply keeps_ret]; eapply keeps_final_status; [done..|by auto].
Qed.

Lemma keeps_reconcile_all d env pending l : l ⊆ pending → keeps (ok_pending pending) (reconcile_all d env l).
Proof.
  induction l as [|p l IH]; intros Hl; cbn [reconcile_all]; [apply keeps_ret|].
  apply keeps_bind; [apply keeps_reconcile_session, Hl, list_elem_of_here|intros n].
  apply keeps_bind; [apply IH; set_solver|intros; apply keeps_ret].
Qed.

Lemma keeps_reconcile d env : keeps ok (reconcileAppSessions d env).
Proof.
  intros s Hs. unfold reconcileAppSessions, mbind, App_bind, readA.
  apply (keeps_reconcile_all d env (listPendingSessions (as_sessions s))); [done|]. split; [done|].
  unfold listPendingSessions. intros p r Hp Hr Hid. apply elem_of_select in Hp as [Hp Hst%bool_decide_eq_true].
  left. by rewrite (unique_id _ r p (proj1 Hs) Hr Hp Hid).
Qed.

Lemma ready_unique op d env l id b64 session asks v : ready_to_send execFile bin bad_tx_message config d env op l id b64 session asks v →
  session ∈ l ∧ sx_operation session = TxOp op ∧ (∀ raw, SendTransaction raw ∉ asks)
  ∧ (∃ view, final_valid execFile bin bad_tx_message config op view v)
  ∧ (vault_op op = true → ∃ psbt, AskGuardian (guardian_op op) psbt ∈ asks ∧ unsignedTxDigest psbt = sx_digest session).
Proof.
  intros (_ & Hreq & Hop & _ & _ & psbt & view & psbt' & Hsig & _ & Hask & _ & Hval). apply requireTxSession_spec in Hreq as [Hin _].
  split_and!; [done..|intros raw; by eapply countersigned_no_send|by exists view|].
  intros Hv. unfold countersigned in Hask. rewrite Hv in Hask. destruct Hask as [-> _]. exists psbt. split; [apply list_elem_of_here|].
  apply Hsig.
Qed.

Lemma keeps_submit d env op id b64 : keeps ok (submit execFile bin bad_tx_message config d env op id b64).
Proof.
  intros s Hs. destruct (submit _ _ _ _ _ _ _ _ _ s) as [s' r] eqn:E. cbn.
  apply submit_submit_runs in E as [(session & _ & _ & -> & _)|[(asks & e & -> & _ & Hno)|(session & asks & v & Hr & E)]]; [done|..].
  - destruct (log_all_effects asks s). apply (ok_log _ _ _ _ s _ asks); try done. intros raw Hin. by apply Hno in Hin.
  - apply ready_unique in Hr as (Hin & Hop & Hno & [view Hval] & Hask).
    apply send_and_record_run in E. unfold sends in E. destruct (log_all_effects asks s) as [Ee El]. rewrite Ee, El in E.
    assert (∀ es raw, SendTransaction raw ∈ asks ++ es → SendTransaction raw ∈ es) as Hes.
    { intros es raw [H|H]%elem_of_app; [by apply Hno in H|done]. }
    destruct E as [(He & Hl & _)|(_ & He & E)]; rewrite <- app_assoc in He.
    { apply (ok_log _ _ _ _ s s' _ Hl He); [|done]. intros raw [=]%Hes%list_elem_of_singleton. }
    assert (∀ raw, SendTransaction raw ∈ asks ++ [TestAccept (vt_rawTxHex v); SendTransaction (vt_rawTxHex v)] → raw = vt_rawTxHex v) as Hraw.
    { intros raw H%Hes. by apply elem_of_cons in H as [[=]|[= ->]%list_elem_of_singleton]. }
    destruct E as [[_ Hl]|(_ & _ & Hu & Hl)].
    { apply (ok_log _ _ _ _ s s' _ Hl He); [|done]. intros raw ->%Hraw. by exists op, view, v. }
    set (s1 := {| as_sessions := as_sessions s; as_metadata := []; as_feeCache := None; as_effects := as_effects s' |}).
    assert (ok s1) as Hs1.
    { apply (ok_log _ _ _ _ s s1 _ eq_refl He); [|done]. intros raw ->%Hraw. by exists op, view, v. }
    apply (ok_update _ _ _ _ s1 s' (sx_id session) (patch_broadcast (vt_txid v))); try done.
    intros r1 Hr1 Hid. rewrite (unique_id _ r1 session (proj1 Hs) Hr1 Hin Hid). unfold session_sound. cbn.
    exists op, view, v. rewrite He. split_and!; try done; [set_solver|].
    intros Hv. destruct (Hask Hv) as (psbt & Hpsbt & Hd). exists psbt. split; [set_solver|done].
Qed.

(** C11: over every run of requests - builds, submits and reconciliations, each
    at any tables of the indexer and any answers of the node and the Guardian -
    the sessions keep their unique indexes; a session is BUILT without a
    transaction, or BROADCAST, CONFIRMED or FAILED with the id of a transaction
    that was sent, that the final validation of its operation had passed and,
    where it moves a vault, whose unsigned transaction the Guardian had been
    asked about; and nothing was ever sent that a final validation had not
    passed. *)
Theorem sessions_sound s : app_reachable execFile bin bad_tx_message config s → sessions_ok execFile bin bad_tx_message config s.
Proof.
  induction 1 as [|s d env req _ IH].
  - split; [by vm_compute|]. split; intros x Hx; cbn in Hx; by apply not_elem_of_nil in Hx.
  - destruct (is_build req) eqn:E; [by apply keeps_build|].
    destruct req; try done; cbn [handle]; (apply keeps_bind; [|intros; apply keeps_ret|done]); [apply keeps_submit|apply keeps_reconcile].
Qed.
End Moves.
