(* ===== verification/AppBuildInv.v ===== *)
(** * What the application builds

    A mint is built at the price that was quoted, only when every guard passes
    and the Guardian's own validation accepts it; and building asks nothing of
    the Guardian and sends nothing. *)
From S2P Require Import Prelude Bytes Curve Economics Wire Discovery Covenant Simplicity Vault Indexer Store Hydrate Lockstep Spend Builder BuilderInv AuditLog Guardian Finalize Journal Signing AppConfig Readiness Order Market MarketService.
From S2P Require Import AppFunding TxSession AppQuote AppQuoteInv AppService AppServiceInv.

Section Build.
Context {C : Crypto} {B : Bitcoin} {J : BitcoinJs} {P : PsbtBuilder} {PC : PsbtCodec} {IF : InputFinalizer} {PG : Postgres}.
Context (execFile : string → list string → Z → exec_outcome) (bin : option string).
Context (bad_tx_message : string → string).
Context (config : V3AppConfig) (d : V3Db) (env : AppEnv).

Lemma resolveFunding_run params s s' r : resolveFundingAndFeeA config d env params s = (s', r) →
  as_sessions s' = as_sessions s ∧ as_effects s' = as_effects s.
Proof.
  unfold resolveFundingAndFeeA. intros H. pure_step H coins Hc; [|done].
  apply bindA_run in H as [(rates & s1 & Hf & H)|(e & Hf & _)]; unfold feeRatesA in Hf;
    destruct (feeRates _ _ _) as [rates' cache]; injection Hf as <-; [|done].
  by apply pureA_run in H as [-> _].
Qed.

(** The session a build leaves for its transaction. *)
Definition session_for (op : CoveOperation) (tokenId : string) (w : WalletParams) (backing : option LoadedBacking) (psbt : Psbt)
    (l l' : list TxSessionRow) (session : TxSessionRow) : Prop :=
  session ∈ l' ∧ sx_operation session = TxOp op ∧ sx_tokenId session = Some tokenId ∧ sx_digest session = unsignedTxDigest psbt
  ∧ (l' = l ∨ l' = l ++ [session] ∧ sx_status session = BUILT ∧ sx_txid session = None
       ∧ sx_backingTxid session = (λ b, si_txid (lb_input b)) <$> backing
       ∧ sx_backingVout session = (λ b, si_vout (lb_input b)) <$> backing).

Lemma createSession_run op tokenId w backing psbt expires s s' session :
  createSession env op tokenId w backing psbt expires s = (s', Ok session) →
  session_for op tokenId w backing psbt (as_sessions s) (as_sessions s') session ∧ as_effects s' = as_effects s.
Proof.
  unfold createSession, on_sessions. intros H. destruct (createTxSession _ _ _ _) as [[l r]|e] eqn:E; [|done].
  injection H as <- ->. split; [|done]. apply createTxSession_spec in E as (Hid & Hd & Ht & Hin & H). cbn in *.
  injection Hid as _ Hop _. split_and!; try done. destruct H as [->|(_ & -> & En & _ & _)]; [by left|right]. by rewrite En.
Qed.

Definition creator_fee (grossSats : Z) : result Z := creatorFeeSats grossSats (creatorFeeBps COVE_FEE_CONFIG).

(** C12: a mint is built only while the application is enabled, the indexer and
    the node are healthy and the canary lists allow the token and the wallet,
    and only on the very state and vault output its quote was made on.  What
    the wallet is shown is then what was quoted: the satoshis of the curve, the
    protocol's fee and the creator's are those of [quoteBackingBuy], and the
    miner's fee is what the inputs leave over the outputs.  The PSBT passed the
    Guardian's validation on the view with that state, with the session bound
    to its digest; and nothing was asked of the Guardian or sent. *)
Theorem buy_honours_quote p s s' br :
  buildBackingBuy execFile bin bad_tx_message config d env p s = (s', Ok br) →
  ac_enabled config = true ∧ requireHealthy config d env = Ok tt
  ∧ assertCanaryAllowed config (bp_tokenId p) (wp_walletScript (bp_wallet p)) = Ok tt
  ∧ ∃ backing psbt session analysis sim,
    loadBacking bad_tx_message (ae_getRawTransaction env) d (as_sessions s) (bp_tokenId p) = Ok backing
    ∧ lb_stateHash backing = qb_stateHash (bp_quoteBinding p) ∧ lb_outpoint backing = qb_backingOutpoint (bp_quoteBinding p)
    ∧ (∀ q, quoteBackingBuy bad_tx_message (ae_getRawTransaction env) d (as_sessions s) config (bp_tokenId p) (bp_amountAtoms p) = Ok q →
         in_grossSats (br_intent br) = Some (bq_grossSats q) ∧ in_protocolFeeSats (br_intent br) = Some (bq_feeSats q)
         ∧ in_creatorFeeSats (br_intent br) = Some (bq_creatorFeeSats q))
    ∧ in_minerFeeSats (br_intent br) = miner_fee psbt
    ∧ validateMintTransitionV3 execFile bin (validate_params
        (sign_request config d env psbt (overlayPendingBacking (loadView d (bp_tokenId p) []) (bp_tokenId p) backing) (buy_fees config)
           (discoveryTicker config d (bp_tokenId p))) (ac_guardianXOnly config)) = Ok (VOk analysis sim)
    ∧ br_psbtBase64 br = psbt_toBase64 psbt ∧ in_unsignedTxDigest (br_intent br) = unsignedTxDigest psbt
    ∧ br_sessionId br = sx_id session
    ∧ session_for BACKING_BUY (bp_tokenId p) (bp_wallet p) (Some backing) psbt (as_sessions s) (as_sessions s') session
    ∧ as_effects s' = as_effects s.
Proof.
  intros H. unfold buildBackingBuy in H.
  pure_step H u1 Hmut; [|done]. pure_step H u2 Hh; [|done]. pure_step H u3 Hcan; [|done]. pure_step H wallet Hw; [|done].
  unfold loadBackingA in H. pure_step H bk Hb; [|done]. pure_step H u4 Hq; [|done].
  pure_step H amounts Ham; [|done]. destruct amounts as [g f]. pure_step H creator Hcr; [|done]. pure_step H cf Hcf; [|done].
  apply bindA_run in H as [(funding & s1 & Hf & H)|(e & Hf & H)]; [|done]. apply resolveFunding_run in Hf as [El Ee].
  pure_step H bt Hres; [|done]. pure_step H u5 Hck; [|done].
  apply bindA_run in H as [(session & s2 & Hs & H)|(e & Hs & H)]; [|done]. apply createSession_run in Hs as [Hs Ee2].
  apply retA_run in H as [-> H]. injection H as ->. symmetry in Hmut, Hh, Hcan, Hb, Hq, Hres, Hck. destruct u2, u3.
  unfold assertMutating, assertEnabled in Hmut. apply bind_Ok in Hmut as (? & Hen%throw_if_Ok & _). to_prop.
  apply throw_if_Ok in Hq. unfold stale_quote, at_outpoint in Hq. to_prop.
  unfold checked in Hck. apply bind_Ok in Hck as ([analysis sim|] & Hck & Hok); [|done].
  pose proof (buildMint_Ok _ _ Hres) as Hbuilt. rewrite El in Hs. rewrite Ee in Ee2.
  split_and!; try done. exists bk, (mb_psbt bt), session, analysis, sim. split_and!; try done.
  - apply Hq.
  - destruct Hq as (_ & Et & Ev). unfold lb_outpoint. rewrite Et, Ev. by destruct (qb_backingOutpoint _).
  - intros q Hquote. destruct (quoteBackingBuy_Ok _ _ _ _ _ _ _ _ _ Hb Hquote) as (r & Hr & Eg & _ & _ & _ & _ & _ & Hfee & Hc).
    destruct Hbuilt as [Ht _ _ Hf2 Hc2 _ _ _]. cbn in Ht, Hf2, Hc2. rewrite Hr in Ht. injection Ht as ->. cbn in Eg, Hfee, Hc.
    cbn. rewrite Eg. split_and!; [done|congruence..].
  - apply (mbt_minerFee _ _ Hbuilt).
Qed.
End Build.
