(* ===== verification/AppExamples.v ===== *)
(** * The application on the example chain

    Launching, buying and selling on the tables of the example chain;
    witnesses of the application's theorems. *)
From S2P Require Import Prelude Bytes Curve Economics Wire Discovery Covenant Simplicity Vault Undo Indexer IndexerInv IndexerExamples Store StoreInv Hydrate Persistent Lockstep ReadInv Monitors PersistentExamples.
From S2P Require Import Spend AuditLog Guardian GuardianInv Builder BuilderInv Finalize FinalizeInv GuardianExamples FinalizeExamples Journal Signing AppConfig Readiness Order Market MarketService.
From S2P Require Import Greedy AppFunding AppFundingInv TxSession AppQuote AppQuoteInv AppService AppServiceInv AppSessions AppBuildInv.

#[local] Existing Instance toy_crypto.
#[local] Existing Instance toy_bitcoin.
#[local] Existing Instance toy_locale.
#[local] Existing Instance toy_postgres.
#[local] Existing Instance toy_bitcoinjs.
#[local] Existing Instance toy_builder.

(** The mint with the buyer's signature. *)
Definition app_sign (i : PsbtInput) : PsbtInput :=
  with_signatures i None (Some [{| ps_pubkey := toy_key 1; ps_signature := [to_byte 1] |}]) None.
Definition app_mint_psbt : Psbt := {|
  psbt_inputs := match psbt_inputs toy_mint_psbt with vault :: coins => vault :: (app_sign <$> coins) | [] => [] end;
  psbt_outputs := psbt_outputs toy_mint_psbt |}.

(** The wallet's text of a PSBT names it. *)
#[local] Instance app_codec : PsbtCodec := {|
  psbt_fromBase64 s := if String.eqb s "mint-signed" then Ok app_mint_psbt else Throw (js_error "Invalid PSBT");
  psbt_toBase64 p := "unsigned"%string;
  unsigned_toBuffer u := mjoin (txo_script <$> utx_outs u);
  finalizeAllInputs p := Ok p;
  extractTransactionHex p := Ok "mint"%string;
|}.

#[local] Instance app_finalizer : InputFinalizer := {| finalizeInput p i := Ok p |}.

Definition app_config : V3AppConfig := {|
  ac_enabled := true; ac_settings := COVE_NETWORK_SETTINGS Regtest; ac_network := Regtest; ac_chainIdentity := "regtest";
  ac_coreRpcUrl := ""; ac_coreRpcUser := None; ac_coreRpcPassword := None; ac_coreRpcUrlSecondary := None;
  ac_feeScript := toy_p2tr 9; ac_guardianXOnly := toy_key 5; ac_recoveryKeyXOnly := toy_key 6; ac_recoveryProfile := None;
  ac_guardianPrivateKey := None; ac_activationHeight := 1; ac_canaryAllowedTokenIds := None;
  ac_canaryAllowedWalletScripts := None; ac_p2pFeeBps := None; ac_buyFeeBps := buyFeeBps COVE_FEE_CONFIG;
  ac_buyFeeFlatSats := buyFeeFlatSats COVE_FEE_CONFIG; ac_discoveryEnvelope := false;
  ac_redeemFeeBps := redeemFeeBps COVE_FEE_CONFIG; ac_redeemFeeFlatSats := redeemFeeFlatSats COVE_FEE_CONFIG;
  ac_maxP2pSettlementSats := None; ac_mintLimits := None; ac_maxMinerFeeSats := 100000; ac_maxListingBlocks := 4320;
  ac_reservationTtlSeconds := 600; ac_mainnetProfileValid := false; ac_mainnetProfileHash := None;
  ac_guardianEndpoint := None; ac_guardianAuthToken := None; ac_ordUrl := None |}.

Definition app_world : V3Db := (toy_world [pb1]).1.

(** The buyer's coin covers the mint and a fee of 500 sats exactly. *)
Definition app_coins (txid : string) (vout : Z) : result (option AppTxOut) :=
  Ok (if String.eqb txid no_txid && (vout =? 2)
      then Some {| at_scriptPubKeyHex := toHex (toy_p2wpkh 1); at_valueSats := toy_cost; at_confirmations := 3 |} else None).

(** The Guardian signs. *)
Definition app_audit : AuditRecord := {|
  aud_requestId := "request"; aud_operation := AuditLog.OpMint; aud_tokenId := toHex toy_token; aud_prevStateHash := "";
  aud_nextStateHash := ""; aud_backingOutpoint := {| op_txid := toy_getId toy_deploy; op_vout := 1 |};
  aud_tokenInputOutpoints := []; aud_amountAtoms := 400 * LOT; aud_grossSats := 0; aud_protocolFeeSats := 0;
  aud_minerFeeSats := 500; aud_policyVersion := 3; aud_expectedCmr := MINT_CMR; aud_actualCmr := MINT_CMR;
  aud_simplicityPass := true; aud_referencePolicyPass := true; aud_unsignedTxDigest := ""; aud_network := Regtest;
  aud_decision := AuditLog.VALID_TO_SIGN; aud_rejectionReason := None; aud_timestamp := "" |}.
Definition app_signed : SignedTransitionResult := {|
  sr_operation := AuditLog.OpMint; sr_tokenId := toHex toy_token; sr_prevStateHash := ""; sr_nextStateHash := "";
  sr_expectedCmr := MINT_CMR; sr_actualCmr := MINT_CMR; sr_simplicityPass := true;
  sr_backingOutpoint := {| op_txid := toy_getId toy_deploy; op_vout := 1 |}; sr_signedInputIndex := 0; sr_audit := app_audit;
  sr_auditFinalizationError := None |}.

Definition app_env (bs : list V3BlockInput) (id : string) : AppEnv := {|
  ae_getTxout := app_coins;
  ae_getRawTransaction txid := Throw (js_error "No such mempool transaction");
  ae_fees := {| getMempoolMinFeeSatPerVb := Ok 1; estimateFeeRateAt _ := Ok (Some 5) |};
  ae_core := node_of bs;
  ae_primary := {| cn_getBlockchainInfo := Ok ("regtest"%string, 1); cn_getBlockHash _ := Ok ""%string |};
  ae_secondary := None;
  ae_broadcast := toy_node "regtest" (toy_getId toy_mint);
  ae_describeAssets _ := Ok None;
  ae_sign op req := Ok (Signed app_signed, tr_psbt req);
  ae_now := 0; ae_newId := id; ae_randomBytes := zeros 32 |}.

Definition app_wallet : WalletParams := {|
  wp_walletScript := toHex (toy_p2wpkh 1); wp_ordinalsScript := Some (toHex (toy_p2tr 4)); wp_walletPublicKey := None;
  wp_ordinalsPublicKey := Some (toHex (toy_key 4)); wp_walletAddress := None;
  wp_funding := [{| op_txid := no_txid; op_vout := 2 |}]; wp_feeRateSatPerVb := None; wp_minerFeeSats := Some 500;
  wp_idempotencyKey := "key" |}.

Definition app_buy : BuyParams := {|
  bp_tokenId := toHex toy_token; bp_amountAtoms := 400 * LOT;
  bp_quoteBinding := {| qb_stateHash := get_ok ""%string (stateHashV2 toy_hash (toy_state 0));
                        qb_backingOutpoint := {| op_txid := toy_getId toy_deploy; op_vout := 1 |}; qb_expiresAtHeight := None |};
  bp_wallet := app_wallet |}.

Definition app_built : AppState * result unit :=
  handle toy_exec toy_bin toy_msg app_config app_world (app_env [pb1] "session") (RBuildBuy app_buy) app_start.

Definition app_submitted : AppState * result unit :=
  handle toy_exec toy_bin toy_msg app_config app_world (app_env [pb1] "session") (RSubmit BACKING_BUY "session" "mint-signed") app_built.1.

(** The build of the mint, and its submission. *)
Definition app_runs : App (BuildResult) := buildBackingBuy toy_exec toy_bin toy_msg app_config app_world (app_env [pb1] "session") app_buy.
Definition no_role : ResolvedRole :=
  {| rr_script := ""; rr_publicKey := None; rr_kind := KindP2tr; rr_scriptBuffer := []; rr_publicKeyBuffer := None |}.
Definition no_wallet : ResolvedWalletIdentity := {| rw_payments := no_role; rw_ordinals := no_role; rw_scripts := [] |}.
Definition no_build : BuildResult := {|
  br_sessionId := ""; br_psbtBase64 := "";
  br_intent := intent BACKING_BUY "" None None None None None 0 None no_wallet None new_psbt |}.
Definition app_result : BuildResult := get_ok no_build (app_runs app_start).2.

Lemma app_runs_ok : app_runs app_start = ((app_runs app_start).1, Ok app_result).
Proof.
  assert (is_ok (app_runs app_start).2 = true) as H by (vm_compute; reflexivity). unfold app_result.
  destruct (app_runs app_start) as [s [r|]]; [done|discriminate H].
Qed.

Definition app_submit : App (option string) :=
  submit toy_exec toy_bin toy_msg app_config app_world (app_env [pb1] "session") BACKING_BUY "session" "mint-signed".

Lemma app_submit_runs : app_submit app_built.1 = ((app_submit app_built.1).1, Ok (Some (toy_getId toy_mint))).
Proof.
  assert ((app_submit app_built.1).2 = Ok (Some (toy_getId toy_mint))) as H by (vm_compute; reflexivity).
  rewrite <- H. apply surjective_pairing.
Qed.

(** ** Witnesses *)
Lemma submit_sends_validated_witness :
  let s := app_built.1 in let s' := (app_submit s).1 in
  length (as_effects s') = 3%nat
  ∧ ∃ session asks v es,
    ready_to_send toy_exec toy_bin toy_msg app_config app_world (app_env [pb1] "session") BACKING_BUY (as_sessions s) "session" "mint-signed" session asks v
    ∧ as_effects s' = as_effects s ++ asks ++ es ∧ es = [TestAccept (vt_rawTxHex v); SendTransaction (vt_rawTxHex v)].
Proof.
  intros s s'. split; [vm_compute; reflexivity|].
  destruct (submit_sends_validated toy_exec toy_bin toy_msg app_config app_world (app_env [pb1] "session") BACKING_BUY "session" "mint-signed"
    s s' (Ok (Some (toy_getId toy_mint)))) as [H|[H|H]].
  - exact app_submit_runs.
  - exfalso. destruct H as (session & Hr & Hst & _). vm_compute in Hr. injection Hr as <-. vm_compute in Hst. destruct Hst; discriminate.
  - exfalso. destruct H as (asks & e & _ & _ & [=] & _).
  - destruct H as (session & asks & v & es & Hready & He & H). exists session, asks, v, es. split; [exact Hready|]. split; [exact He|].
    destruct H as [[[e [=]] _]|(_ & Hes & _)]. exact Hes.
Defined.

Lemma sessions_sound_witness :
  (λ r, (sx_status r, sx_txid r)) <$> as_sessions app_submitted.1 = [(BROADCAST, Some (toy_getId toy_mint))]
  ∧ sessions_ok toy_exec toy_bin toy_msg app_config app_submitted.1.
Proof.
  split; [vm_compute; reflexivity|]. apply sessions_sound. unfold app_submitted, app_built. constructor. constructor. constructor.
Defined.

Lemma buy_honours_quote_witness :
  in_creatorFeeSats (br_intent app_result) = Some 13500
  ∧ ∃ session, session ∈ as_sessions (app_runs app_start).1 ∧ br_sessionId app_result = sx_id session
      ∧ sx_digest session = in_unsignedTxDigest (br_intent app_result).
Proof.
  split; [vm_compute; reflexivity|].
  destruct (buy_honours_quote toy_exec toy_bin toy_msg app_config app_world (app_env [pb1] "session") app_buy app_start
    (app_runs app_start).1 app_result app_runs_ok) as (_ & _ & _ & b & psbt & session & a & sim & H).
  destruct_and! H. exists session. unfold session_for in *. destruct_and?. by split_and!; congruence.
Defined.

(** The node knows the mint, and its session is on its way. *)
Definition app_mempool (txid : string) : result string :=
  if String.eqb txid (toy_getId toy_mint) then Ok "mint"%string else Throw (js_error "No such mempool transaction").
Definition app_tip (sessions : list TxSessionRow) : LoadedBacking :=
  get_ok {| lb_state := toy_state 0; lb_stateHash := "";
            lb_input := {| si_txid := ""; si_vout := 0; si_script := []; si_valueSats := 0; si_publicKey := None |} |}
    (loadBacking toy_msg app_mempool app_world sessions (toHex toy_token)).
Definition app_confirmed : LoadedBacking := app_tip [].
Definition app_pending : LoadedBacking := app_tip (as_sessions app_submitted.1).

Lemma app_confirmed_ok : backing_ok app_confirmed.
Proof. split_and!; vm_compute; reflexivity. Qed.

Lemma pending_tip_sound_witness :
  lb_state app_pending = toy_state 400
  ∧ ∃ ops ds, (0 < length ops ≤ 24)%nat ∧ run_ops (lb_state app_confirmed) ops = Ok (lb_state app_pending, ds)
      ∧ mempool_chain app_mempool (as_sessions app_submitted.1) (toHex toy_token) app_confirmed ops app_pending.
Proof.
  split; [vm_compute; reflexivity|].
  destruct (pending_tip_sound toy_msg app_mempool (as_sessions app_submitted.1) (toHex toy_token) app_confirmed None app_pending)
    as (ops & ds & Hc & Hl & Hr & _).
  - vm_compute. reflexivity.
  - exact app_confirmed_ok.
  - exists ops, ds. split; [|split; assumption]. split; [|exact Hl]. destruct ops; [|cbn; lia]. exfalso.
    apply (f_equal (λ r, match r with Ok (s, _) => issuedPublicSupplyAtoms s | Throw _ => 0 end)) in Hr. vm_compute in Hr. discriminate Hr.
Defined.

Lemma quoteBuyForSats_best_witness :
  ∃ q n, quoteBuyForSats toy_msg app_mempool app_world [] app_config (toHex toy_token) 100000 = Ok q
    ∧ bs_amountAtoms q = n * LOT_ATOMS ∧ n = 595 ∧ ∀ m, offer app_config 100000 0 m → m ≤ 595.
Proof.
  destruct (quoteBuyForSats_best toy_msg app_mempool app_world [] app_config (toHex toy_token) 100000 app_confirmed)
    as (q & k & n & Hq & Hk & Hn & Ha & _ & Hm & _).
  - vm_compute. discriminate.
  - vm_compute. discriminate.
  - vm_compute. discriminate.
  - vm_compute. reflexivity.
  - apply app_confirmed_ok.
  - assert (bs_amountAtoms q = 595 * LOT_ATOMS) as E.
    { rewrite <- (f_equal (λ r, match r with Ok q => bs_amountAtoms q | Throw _ => 0 end) Hq). vm_compute. reflexivity. }
    assert (n = 595) as ->. { rewrite Ha in E. apply Z.mul_cancel_r in E; [exact E|discriminate]. }
    assert (k = 0) as ->. { apply (Z.mul_cancel_r k 0 LOT_ATOMS); [discriminate|]. rewrite <- Hk. vm_compute. reflexivity. }
    exists q, 595. split_and!; [exact Hq|exact Ha|reflexivity|exact Hm].
Defined.

(** The buyer's choice of coins. *)
Definition app_context : FeeContext := {|
  fx_rates := loadFeeRates (ae_fees (app_env [pb1] "session")); fx_feeScript := toy_p2tr 9; fx_maxMinerFeeSats := 100000 |}.
Definition app_funding : FundingParams :=
  funding_params BACKING_BUY (get_ok no_wallet (resolveWalletIdentity (wallet_of app_wallet))) app_wallet (toy_cost - 500) None None (Some false).
Definition app_choice : FundingChoice :=
  get_ok {| fc_inputs := []; fc_price := {| rf_minerFeeSats := 0; rf_vsize := 0; rf_effectiveSatPerVb := 0 |} |}
    (resolveFundingAndFee app_coins app_world None app_context app_funding).

Lemma funding_fewest_witness :
  si_valueSats <$> fc_inputs app_choice = [toy_cost]
  ∧ ∃ rate chosen, fc_inputs app_choice = toInput app_funding <$> chosen ∧ Forall (clean None) chosen
      ∧ pays (priceAt app_context app_funding rate) (toy_cost - 500) (length chosen) (coins_worth chosen) (fc_price app_choice).
Proof.
  split; [vm_compute; reflexivity|].
  destruct (funding_fewest app_coins app_world None app_context app_funding app_choice)
    as (resolved & rate & chosen & _ & _ & H & _ & Hs & Hp & _).
  - vm_compute. reflexivity.
  - exists rate, chosen. split_and!; [exact H| |exact Hp]. eapply Forall_impl; [exact Hs|]. intros f [_ Hc]. exact Hc.
Defined.

(** After the redemption and the burn of a lot. *)
Lemma monitors_on_index_witness :
  let d := toy_world3.1 in
  counted_sum d (toHex toy_token) = 200 * LOT_ATOMS
  ∧ ∀ r, r ∈ checkSupplyInvariant (λ z, PgText (pretty z)) d → issued (backing toy_world3.2 !! iv_tokenId r) ≠ 0 → iv_ok r = false.
Proof.
  intros d. split; [vm_compute; reflexivity|].
  apply (monitors_on_index toy_config [pb1; pb2; pb3] toy_world3.1 toy_world3.2 toy_lockstep3).
Defined.
