(* ===== verification/ClientIntent.v ===== *)
(** * The wallet's own check: packages/wallets/src/cove-intent.ts

    Before a wallet signs, the page compares the transaction the server built
    with what the user was told: the miner fee, what the wallet gains or loses,
    and the tokens, read from the Cove message of the transaction itself.  The
    second half relates that to what the indexer makes of the transaction. *)
From S2P Require Import Prelude Bytes Number Economics Wire Covenant Vault Indexer IndexerInv Spend Guardian Market.

(** [DirOther] is a value that is neither of the two texts. *)
Inductive TokenDirection := DirIn | DirOut | DirOther.

(** Amounts are decimal texts, as the server's JSON has them. *)
Record ClientIntent := {
  ci_operation : string; ci_tokenId : option string; ci_tokenAmountAtoms : option string; ci_grossSats : option string;
  ci_protocolFeeSats : option string; ci_creatorFeeSats : option string; ci_creatorScript : option string;
  ci_minerFeeSats : string; ci_netSats : option string; ci_walletScript : string; ci_ordinalsScript : option string;
  ci_stateHash : option string; ci_unsignedTxDigest : string; ci_walletDeltaSats : option string;
  ci_tokenDirection : option TokenDirection
}.

(** The names that every object has from its prototype. *)
Definition OBJECT_MEMBERS : list string :=
  ["constructor"; "hasOwnProperty"; "isPrototypeOf"; "propertyIsEnumerable"; "toLocaleString"; "toString"; "valueOf";
   "__proto__"; "__defineGetter__"; "__defineSetter__"; "__lookupGetter__"; "__lookupSetter__"]%string.

(** [TOKEN_DIRECTION[operation]] *)
Definition TOKEN_DIRECTION (operation : string) : option TokenDirection :=
  if bool_decide (operation ∈ ["BACKING_BUY"; "P2P_BUY"]%string) then Some DirIn
  else if bool_decide (operation ∈ ["REDEEM"; "TRANSFER"; "P2P_SELL"]%string) then Some DirOut
  else if bool_decide (operation ∈ OBJECT_MEMBERS) then Some DirOther
  else None.

Record VerifiedIntent := {
  vi_digest : string; vi_inputCount : Z; vi_outputCount : Z; vi_totalInputSats : Z; vi_totalOutputSats : Z;
  vi_walletDeltaSats : Z
}.

Definition bigintOr (s : option string) : result (option Z) :=
  match s with None => Ok None | Some s => v ← BigInt_of_string s; Ok (Some v) end.

Definition client_mismatch (detail : string) : exn := js_error ("CLIENT_INTENT_MISMATCH: " +:+ detail).

(** A guard that says why. *)
Definition refuse_if (b : bool) (detail : string) : result unit := throw_if b (client_mismatch detail).
Definition needed {A} (o : option A) (detail : string) : result A := of_option (client_mismatch detail) o.

Fixpoint coveEnvelope (outs : list TxOut) : result (option ParsedEnvelopeV2) :=
  match outs with
  | [] => Ok None
  | out :: rest =>
      let script := txo_script out in
      let len := default 0 (byte_at script 1) in
      let payload := subarray script 2 (blen script) in
      if (blen script <? 6) || negb (at_is script 0 0x6a) then coveEnvelope rest
      else if (0x4c <=? len) || negb (blen script =? 2 + len) then coveEnvelope rest
      else if negb (readUInt16BE0 payload =? COVE_WIRE_MAGIC) then coveEnvelope rest
      else match decodeV2 payload with
           | Ok e => Ok (Some e)
           | Throw e => Throw (client_mismatch ("the Cove envelope in this transaction is unreadable: " +:+ exn_message e))
           end
  end.

(** The scripts that count as the wallet's, in hex. *)
Definition my_scripts (i : ClientIntent) : list string :=
  toLowerCase <$> List.filter (λ s, negb (String.eqb s "")) (ci_walletScript i :: option_list (ci_ordinalsScript i)).
Definition isMine (i : ClientIntent) (scriptHex : string) : bool := bool_decide (scriptHex ∈ my_scripts i).
Definition my_output (i : ClientIntent) (o : TxOut) : bool := isMine i (toHex (txo_script o)).

(** [outputs[v]] is the wallet's. *)
Definition mine_at (i : ClientIntent) (outs : list TxOut) (v : Z) : bool :=
  match outs !! Z.to_nat v with Some o => my_output i o | None => false end.

Fixpoint change_returns (i : ClientIntent) (outs : list TxOut) (l : list TokenAllocation) : result unit :=
  match l with
  | [] => Ok tt
  | a :: l =>
      refuse_if (negb (mine_at i outs (vout a))) ("token change at output " +:+ pretty (vout a) +:+ " does not return to your wallet");;
      change_returns i outs l
  end.

Definition token_matches (i : ClientIntent) (tokenId : list byte) : result unit :=
  match ci_tokenId i with
  | None | Some EmptyString => Ok tt
  | Some t =>
      refuse_if (negb (String.eqb (toHex tokenId) t))
        ("this transaction moves token " +:+ text_take 16 (toHex tokenId) +:+ "…, not " +:+ text_take 16 t +:+ "…")
  end.

Definition verifyTokenEnvelope (i : ClientIntent) (outs : list TxOut) : result unit :=
  envelope ← coveEnvelope outs;
  asked ← bigintOr (ci_tokenAmountAtoms i);
  match envelope with
  | None =>
      refuse_if (match asked with Some a => 0 <? a | None => false end) "no Cove envelope in this transaction"
  | Some (DeployV2 _ _ _) => Ok tt
  | Some (MintV2 tokenId minted recipientVout) =>
      token_matches i tokenId;;
      wanted ← needed asked "buy intent is missing its token amount";
      refuse_if (negb (minted =? wanted))
        ("this transaction mints " +:+ pretty minted +:+ " atoms, not the " +:+ pretty wanted +:+ " you asked for");;
      refuse_if (negb (mine_at i outs recipientVout))
        ("the minted tokens go to output " +:+ pretty recipientVout +:+ ", which is not your wallet")
  | Some (RedeemV2 tokenId redeemed changeAllocations) =>
      token_matches i tokenId;;
      wanted ← needed asked "redeem intent is missing its token amount";
      refuse_if (negb (redeemed =? wanted))
        ("this transaction redeems " +:+ pretty redeemed +:+ " atoms, not the " +:+ pretty wanted +:+ " you asked for");;
      change_returns i outs changeAllocations
  | Some (TransferV2 tokenId allocations) =>
      token_matches i tokenId;;
      wanted ← needed asked "transfer intent is missing its token amount";
      direction ← needed (match ci_tokenDirection i with Some d => Some d | None => TOKEN_DIRECTION (ci_operation i) end)
                    ("cannot tell which way tokens move for operation " +:+ ci_operation i);
      let '(arriving, leaving) :=
        foldl (λ s a, if mine_at i outs (vout a) then (s.1 + amount a, s.2) else (s.1, s.2 + amount a)) (0, 0) allocations in
      match direction with
      | DirIn => refuse_if (negb (arriving =? wanted))
                   ("this transaction delivers " +:+ pretty arriving +:+ " atoms to you, not the " +:+ pretty wanted +:+ " agreed")
      | DirOut => refuse_if (negb (leaving =? wanted))
                   ("this transaction sends " +:+ pretty leaving +:+ " atoms away, not the " +:+ pretty wanted +:+ " you entered")
      | DirOther => Ok tt
      end
  end.

(** [l.reduce((s, x) => p(x) ? s + f(x) : s, 0n)] *)
Definition sum_where {A} (p : A → bool) (f : A → Z) (l : list A) : Z := foldl (λ s x, if p x then s + f x else s) 0 l.

Definition spent_sats (input : PsbtInput) : Z := default 0 (txo_value <$> psi_witnessUtxo input).
Definition my_input (i : ClientIntent) (input : PsbtInput) : bool :=
  match psi_witnessUtxo input with Some u => my_output i u | None => false end.

(** The identities of each operation. *)
Definition check_purchase (i : ClientIntent) (outs : list TxOut) (gross protocolFee : option Z) (minerFee delta : Z) : result unit :=
  gross ← needed gross "buy intent is missing its price";
  protocolFee ← needed protocolFee "buy intent is missing its price";
  creatorFee ← bigintOr (ci_creatorFeeSats i);
  let creatorFee := default 0 creatorFee in
  let creatorScript := toLowerCase <$> ci_creatorScript i in
  refuse_if ((0 <? creatorFee)
      && match creatorScript with
         | None | Some EmptyString => true
         | Some s => negb (existsb (λ o, String.eqb (toHex (txo_script o)) s && (txo_value o =? creatorFee)) outs)
         end) ("no " +:+ pretty creatorFee +:+ "-sat creator payment");;
  let creatorLeaves := match creatorScript with Some s => if isMine i s then 0 else creatorFee | None => 0 end in
  let expected := - (gross + protocolFee + creatorLeaves + minerFee) in
  refuse_if (negb (delta =? expected))
    ("buying costs " +:+ pretty (- delta) +:+ " sats, not the " +:+ pretty (- expected) +:+ " you were shown (" +:+ pretty gross
       +:+ " price + " +:+ pretty protocolFee +:+ " protocol fee + " +:+ pretty creatorLeaves +:+ " creator + "
       +:+ pretty minerFee +:+ " miner fee)").

Definition check_fill (i : ClientIntent) (ins : list PsbtInput) (outs : list TxOut) (gross protocolFee : option Z) : result unit :=
  gross ← needed gross "purchase intent is missing its price";
  protocolFee ← needed protocolFee "purchase intent is missing its price";
  let othersIn := sum_where (λ x, negb (my_input i x)) spent_sats ins in
  let othersOut := sum_where (λ o, negb (my_output i o)) txo_value outs in
  refuse_if (gross + protocolFee <? othersOut - othersIn)
    ("this purchase pays others " +:+ pretty (othersOut - othersIn) +:+ " sats, more than the " +:+ pretty gross +:+ " price + "
       +:+ pretty protocolFee +:+ " fee you were shown");;
  refuse_if (negb (existsb (λ o, negb (my_output i o) && (txo_value o =? gross)) outs))
    ("no " +:+ pretty gross +:+ "-sat payment to the seller").

Definition check_redemption (net : option Z) (minerFee delta : Z) : result unit :=
  net ← needed net "redeem intent is missing its payout";
  refuse_if (negb (delta =? net - minerFee))
    ("redeeming pays " +:+ pretty delta +:+ " sats, not the " +:+ pretty (net - minerFee) +:+ " you were shown (" +:+ pretty net
       +:+ " payout less " +:+ pretty minerFee +:+ " miner fee)").

Section Verify.
Context {C : Crypto} {J : BitcoinJs} {PC : PsbtCodec}.

Definition unsignedTxDigestHex (psbt : Psbt) : string := toHex (sha256 (unsigned_toBuffer (globalTx psbt))).

Definition verifyClientIntent (psbtBase64 : string) (i : ClientIntent) : result VerifiedIntent :=
  psbt ← try_catch (psbt_fromBase64 psbtBase64) (λ _, Throw (client_mismatch "cannot parse PSBT"));
  let ins := psbt_inputs psbt in
  let outs := psbt_outputs psbt in
  let digest := unsignedTxDigestHex psbt in
  refuse_if (negb (String.eqb digest (ci_unsignedTxDigest i))) "unsigned transaction changed";;
  let totalInputSats := sum_where (λ _, true) spent_sats ins in
  let totalOutputSats := sum_where (λ _, true) txo_value outs in
  let minerFee := totalInputSats - totalOutputSats in
  expectedMinerFee ← BigInt_of_string (ci_minerFeeSats i);
  refuse_if (negb (minerFee =? expectedMinerFee)) ("miner fee " +:+ pretty minerFee +:+ " != expected " +:+ pretty expectedMinerFee);;
  let walletIn := sum_where (my_input i) spent_sats ins in
  let walletOut := sum_where (my_output i) txo_value outs in
  let delta := walletOut - walletIn in
  statedDelta ← bigintOr (ci_walletDeltaSats i);
  refuse_if (match statedDelta with Some s => negb (s =? delta) | None => false end)
    ("wallet balance changes by " +:+ pretty delta +:+ " sats, not the stated " +:+ pretty (default 0 statedDelta));;
  gross ← bigintOr (ci_grossSats i);
  protocolFee ← bigintOr (ci_protocolFeeSats i);
  net ← bigintOr (ci_netSats i);
  refuse_if (match protocolFee with Some f => (0 <? f) && negb (existsb (λ o, txo_value o =? f) outs) | None => false end)
    "protocol fee output missing";;
  (if String.eqb (ci_operation i) "BACKING_BUY" then check_purchase i outs gross protocolFee expectedMinerFee delta
   else if String.eqb (ci_operation i) "P2P_BUY" then check_fill i ins outs gross protocolFee
   else if String.eqb (ci_operation i) "REDEEM" then check_redemption net expectedMinerFee delta
   else Ok tt);;
  match net with
  | Some net =>
      refuse_if (negb (existsb (λ o, String.eqb (toHex (txo_script o)) (ci_walletScript i) && (txo_value o =? net)) outs))
        ("no " +:+ pretty net +:+ "-sat payout to your wallet")
  | None => refuse_if (negb (existsb (my_output i) outs)) "no output to the wallet"
  end;;
  verifyTokenEnvelope i outs;;
  Ok {| vi_digest := digest; vi_inputCount := Z.of_nat (length ins); vi_outputCount := Z.of_nat (length outs);
        vi_totalInputSats := totalInputSats; vi_totalOutputSats := totalOutputSats; vi_walletDeltaSats := delta |}.
End Verify.
