(* ===== verification/ClientIntentInv.v ===== *)
(** * What a wallet that checked the server's transaction gets

    The message the check reads is the one the indexer reads, so a transaction
    that passes and is then accepted moves the satoshis and the tokens the user
    was told of. *)
From S2P Require Import Prelude Bytes Number Economics Wire Covenant Vault Indexer IndexerInv Spend Guardian Market ClientIntent.

Lemma refuse_if_Ok b d u : refuse_if b d = Ok u ↔ b = false.
Proof. apply throw_if_Ok. Qed.
Lemma needed_Ok {A} (o : option A) d x : needed o d = Ok x ↔ o = Some x.
Proof. apply of_option_Ok. Qed.

(** Splits a run of the check that went through. *)
Ltac passed H := repeat (cbv zeta in H; lazymatch type of H with
  | (_ ≫= _) = Ok _ => let x := fresh "x" in let Hx := fresh "Hx" in apply bind_Ok in H; destruct H as (x & Hx & H);
      first [apply refuse_if_Ok in Hx | apply needed_Ok in Hx | idtac]
  | refuse_if _ _ = Ok _ => apply refuse_if_Ok in H
  end).

Section Reads.
Context {B : Bitcoin}.

(** The first Cove message of a transaction is that of output 0, when the
    indexer finds one there. *)
Lemma client_reads_message rawHex tx e :
  parseCoveTx rawHex = Cove e → tx_fromHex rawHex = Some tx → coveEnvelope (tx_outs tx) = Ok (Some e).
Proof.
  intros (tx' & out & Htx & Ho & Hv & Hs)%parseCoveTx_spec Htx'. rewrite Htx' in Htx. injection Htx as <-.
  destruct (tx_outs tx) as [|o outs]; [done|]. injection Ho as ->. cbn [coveEnvelope]. rewrite Hs, subarray_push.
  pose proof (blen_envelope_bytes e Hv) as Hl. pose proof (blen_envelope_small e Hv) as [H4 _].
  assert (blen (envelope_bytes e) < 0x4c) as H76.
  { rewrite Hl. destruct e as [pv c n|t a v|t l|t a l]; cbn [valid_envelope] in Hv; try lia.
    destruct Hv as (_ & Hc & _). apply canonicalTicker_Ok in Hc as (_ & _ & _ & ?). lia. }
  change (byte_at (to_byte 0x6a :: to_byte (blen (envelope_bytes e)) :: envelope_bytes e) 1)
    with (Some (u8 (to_byte (blen (envelope_bytes e))))).
  rewrite u8_to_byte_small by lia. cbn [default from_option]. unfold id.
  change (at_is (to_byte 0x6a :: to_byte (blen (envelope_bytes e)) :: envelope_bytes e) 0 0x6a) with true.
  rewrite !blen_cons. rewrite (proj2 (Z.ltb_ge _ 6)) by lia. cbn [orb negb].
  rewrite (proj2 (Z.leb_gt 0x4c _)) by lia. rewrite (proj2 (Z.eqb_eq _ _)) by lia. cbn [orb negb].
  rewrite envelope_magic, Z.eqb_refl. cbn [negb]. by rewrite decodeV2_envelope_bytes.
Qed.
End Reads.

(** ** What the check establishes *)
Section Sound.
Context {C : Crypto} {J : BitcoinJs} {PC : PsbtCodec}.

(** What the wallet gains in satoshis. *)
Definition wallet_gain (i : ClientIntent) (psbt : Psbt) : Z :=
  sum_where (my_output i) txo_value (psbt_outputs psbt) - sum_where (my_input i) spent_sats (psbt_inputs psbt).

(** The fee of a transaction. *)
Definition fee_of (psbt : Psbt) : Z :=
  sum_where (λ _, true) spent_sats (psbt_inputs psbt) - sum_where (λ _, true) txo_value (psbt_outputs psbt).

(** The satoshis move as the user was told. *)
Definition sats_as_told (i : ClientIntent) (psbt : Psbt) : Prop :=
  ∃ minerFee gross protocolFee creatorFee net,
    BigInt_of_string (ci_minerFeeSats i) = Ok minerFee ∧ bigintOr (ci_grossSats i) = Ok gross
    ∧ bigintOr (ci_protocolFeeSats i) = Ok protocolFee ∧ (ci_operation i = "BACKING_BUY"%string → bigintOr (ci_creatorFeeSats i) = Ok creatorFee)
    ∧ bigintOr (ci_netSats i) = Ok net
    ∧ fee_of psbt = minerFee
    ∧ (ci_operation i = "BACKING_BUY"%string → ∃ g f, gross = Some g ∧ protocolFee = Some f
        ∧ wallet_gain i psbt = - (g + f + (match toLowerCase <$> ci_creatorScript i with
                                          | Some s => if isMine i s then 0 else default 0 creatorFee | None => 0 end) + minerFee))
    ∧ (ci_operation i = "P2P_BUY"%string → ∃ g f, gross = Some g ∧ protocolFee = Some f
        ∧ - (g + f + minerFee) ≤ wallet_gain i psbt
        ∧ ∃ o, o ∈ psbt_outputs psbt ∧ my_output i o = false ∧ txo_value o = g)
    ∧ (ci_operation i = "REDEEM"%string → ∃ n, net = Some n ∧ wallet_gain i psbt = n - minerFee)
    ∧ (∀ n, net = Some n → ∃ o, o ∈ psbt_outputs psbt ∧ toHex (txo_script o) = ci_walletScript i ∧ txo_value o = n).

Lemma sum_where_zsum {A} (p : A → bool) f l : sum_where p f l = zsum ((λ x, if p x then f x else 0) <$> l).
Proof.
  unfold sum_where. assert (∀ acc, foldl (λ s x, if p x then s + f x else s) acc l = acc + zsum ((λ x, if p x then f x else 0) <$> l)) as H.
  { induction l as [|x l IH]; intros acc; cbn [foldl]; [cbn; lia|]. rewrite IH. cbn. unfold zsum. destruct (p x); cbn; lia. }
  by rewrite H.
Qed.

Lemma sum_where_split {A} (p : A → bool) f l : sum_where (λ _, true) f l = sum_where p f l + sum_where (λ x, negb (p x)) f l.
Proof.
  rewrite !sum_where_zsum. induction l as [|x l IH]; [done|]. cbn. unfold zsum in *. cbn. rewrite IH. destruct (p x); cbn; lia.
Qed.

Lemma existsb_output (p : TxOut → bool) outs : existsb p outs = true → ∃ o, o ∈ outs ∧ p o = true.
Proof. intros (o & Ho & Hp)%existsb_exists. exists o. split; [by apply list_elem_of_In|done]. Qed.

Lemma check_purchase_Ok i outs gross protocolFee minerFee delta u :
  check_purchase i outs gross protocolFee minerFee delta = Ok u →
  ∃ g f c, gross = Some g ∧ protocolFee = Some f ∧ bigintOr (ci_creatorFeeSats i) = Ok c
  ∧ delta = - (g + f + (match toLowerCase <$> ci_creatorScript i with
                        | Some s => if isMine i s then 0 else default 0 c | None => 0 end) + minerFee).
Proof.
  unfold check_purchase. intros H. passed H. apply negb_false_iff, Z.eqb_eq in H. by exists x, x0, x1.
Qed.

Lemma check_fill_Ok i psbt gross protocolFee u :
  check_fill i (psbt_inputs psbt) (psbt_outputs psbt) gross protocolFee = Ok u →
  ∃ g f, gross = Some g ∧ protocolFee = Some f ∧ - (g + f + fee_of psbt) ≤ wallet_gain i psbt
  ∧ ∃ o, o ∈ psbt_outputs psbt ∧ my_output i o = false ∧ txo_value o = g.
Proof.
  unfold check_fill. intros H. passed H. apply negb_false_iff, existsb_output in H as (o & Ho & [Hm Hv]%andb_true_iff).
  apply negb_true_iff in Hm. apply Z.eqb_eq in Hv. apply Z.ltb_ge in Hx1. exists x, x0. split_and!; [done..| |by exists o].
  unfold wallet_gain, fee_of. rewrite (sum_where_split (my_input i) spent_sats), (sum_where_split (my_output i) txo_value). lia.
Qed.

Lemma check_redemption_Ok net minerFee delta u :
  check_redemption net minerFee delta = Ok u → ∃ n, net = Some n ∧ delta = n - minerFee.
Proof. unfold check_redemption. intros H. passed H. apply negb_false_iff, Z.eqb_eq in H. by exists x. Qed.

Lemma verifyClientIntent_parts psbtBase64 i v psbt :
  psbt_fromBase64 psbtBase64 = Ok psbt → verifyClientIntent psbtBase64 i = Ok v →
  sats_as_told i psbt ∧ vi_walletDeltaSats v = wallet_gain i psbt ∧ verifyTokenEnvelope i (psbt_outputs psbt) = Ok tt.
Proof.
  intros Hp H. unfold verifyClientIntent in H. rewrite Hp in H. cbn [try_catch] in H. rewrite bind_of_Ok in H. passed H.
  apply negb_false_iff, Z.eqb_eq in Hx1. change (_ - _ = x0) with (fee_of psbt = x0) in Hx1.
  injection H as <-. cbn [vi_walletDeltaSats]. split; [|split; [done|by destruct x10]].
  exists x0, x4, x5, (match bigintOr (ci_creatorFeeSats i) with Ok c => c | Throw _ => None end), x6.
  change (sum_where (my_output i) txo_value (psbt_outputs psbt) - sum_where (my_input i) spent_sats (psbt_inputs psbt)) with
    (wallet_gain i psbt) in *.
  split_and!; try done.
  - intros Eo. rewrite Eo in Hx8. cbn [String.eqb] in Hx8. apply check_purchase_Ok in Hx8 as (g & f & c & _ & _ & Hc & _). by rewrite Hc.
  - intros Eo. rewrite Eo in Hx8. apply check_purchase_Ok in Hx8 as (g & f & c & -> & -> & Hc & Hd). rewrite Hc. by exists g, f.
  - intros Eo. rewrite Eo in Hx8. apply check_fill_Ok in Hx8 as (g & f & -> & -> & Hg & Hout). rewrite Hx1 in Hg. by exists g, f.
  - intros Eo. rewrite Eo in Hx8. by apply check_redemption_Ok in Hx8.
  - intros n ->. passed Hx9. apply negb_false_iff, existsb_output in Hx9 as (o & Ho & [Hs Hv]%andb_true_iff).
    exists o. split_and!; [done|by apply String.eqb_eq|by apply Z.eqb_eq].
Qed.
End Sound.

(** ** The tokens *)
Section Tokens.
Context {C : Crypto} {B : Bitcoin} {L : Locale} {J : BitcoinJs} {PC : PsbtCodec}.
Context (config : V3IndexerConfig).

Definition my_carrier (i : ClientIntent) (u : V3TokenUtxo) : bool := isMine i (tu_scriptPubKey u).
Definition atoms_of (us : list V3TokenUtxo) : Z := zsum (tu_amountAtoms <$> us).

(** The token is the one the user was told, where the intent names one. *)
Definition named_token (i : ClientIntent) (tokenId : list byte) : Prop :=
  ∀ t, ci_tokenId i = Some t → t ≠ ""%string → toHex tokenId = t.

(** What the indexer makes of the message, in the token and the amount the user
    was told.  Which message it is, the check does not compare with the
    operation; a deployment makes and moves no carrier. *)
Definition tokens_as_told (i : ClientIntent) (st : V3IndexerState) (txid : string) (e : ParsedEnvelopeV2) (r : ApplyResult)
    (st' : V3IndexerState) : Prop :=
  match e with
  | DeployV2 _ _ _ => tokenUtxos st' = tokenUtxos st
  | MintV2 tokenId _ _ => ∃ a u, bigintOr (ci_tokenAmountAtoms i) = Ok (Some a) ∧ named_token i tokenId
      ∧ tokenUtxos st' !! outpointKey txid 2 = Some u
      ∧ tu_tokenId u = toHex tokenId ∧ tu_amountAtoms u = a ∧ my_carrier i u = true
  | RedeemV2 tokenId _ _ => ∃ a prior spent created, bigintOr (ci_tokenAmountAtoms i) = Ok (Some a) ∧ named_token i tokenId
      ∧ ar_undo r = Some (UndoRedeem (toHex tokenId) txid prior spent created)
      ∧ atoms_of spent = a + atoms_of created ∧ Forall (λ u, my_carrier i u = true) created
  | TransferV2 tokenId _ => ∃ a spent created, bigintOr (ci_tokenAmountAtoms i) = Ok (Some a) ∧ named_token i tokenId
      ∧ ar_undo r = Some (UndoTransfer txid spent created)
      ∧ (∀ d, ci_tokenDirection i = Some d ∨ ci_tokenDirection i = None ∧ TOKEN_DIRECTION (ci_operation i) = Some d →
         match d with
         | DirIn => atoms_of (List.filter (my_carrier i) created) = a
         | DirOut => atoms_of (List.filter (λ u, negb (my_carrier i u)) created) = a
         | DirOther => True
         end)
  end.

Lemma token_matches_Ok i tokenId u : token_matches i tokenId = Ok u → named_token i tokenId.
Proof.
  unfold token_matches, named_token. intros H t Ht Hne. rewrite Ht in H. destruct t as [|a s]; [done|].
  by apply refuse_if_Ok, negb_false_iff, String.eqb_eq in H.
Qed.

Lemma change_returns_Ok i outs l u : change_returns i outs l = Ok u → Forall (λ a, mine_at i outs (vout a) = true) l.
Proof.
  induction l as [|a l IH]; cbn [change_returns]; [constructor|]. intros (x & Hx & H)%bind_Ok.
  apply refuse_if_Ok, negb_false_iff in Hx. constructor; [done|by apply IH].
Qed.

Lemma sum_utxos_atoms us : sum_utxos us = atoms_of us.
Proof. unfold sum_utxos. by rewrite (foldl_add_zsum tu_amountAtoms). Qed.

(** The two sums over the allocations, on the carriers made of them. *)
Lemma directions_sum i outs l us :
  Forall2 (λ a u, tu_amountAtoms u = amount a ∧ mine_at i outs (vout a) = my_carrier i u) l us →
  foldl (λ s a, if mine_at i outs (vout a) then (s.1 + amount a, s.2) else (s.1, s.2 + amount a)) (0, 0) l
  = (atoms_of (List.filter (my_carrier i) us), atoms_of (List.filter (λ u, negb (my_carrier i u)) us)).
Proof.
  intros Hf. assert (∀ s, foldl (λ s a, if mine_at i outs (vout a) then (s.1 + amount a, s.2) else (s.1, s.2 + amount a)) s l
    = (s.1 + atoms_of (List.filter (my_carrier i) us), s.2 + atoms_of (List.filter (λ u, negb (my_carrier i u)) us))) as H.
  { induction Hf as [|a u l us [Ha Hm] _ IH]; intros [x y]; cbn [foldl List.filter fst snd].
    { unfold atoms_of. cbn. f_equal; lia. }
    rewrite IH, Hm, <- Ha. unfold atoms_of, zsum. destruct (my_carrier i u); cbn; f_equal; lia. }
  by rewrite H.
Qed.

Lemma tokens_of_message i rawHex tx st block e r st' u :
  verifyTokenEnvelope i (tx_outs tx) = Ok u → tx_fromHex rawHex = Some tx → parseCoveTx rawHex = Cove e →
  cove_accepted config st (getId tx) rawHex e block r st' → tokens_as_told i st (getId tx) e r st'.
Proof.
  intros Hv Htx Hp Ha. unfold verifyTokenEnvelope in Hv. rewrite (client_reads_message _ _ _ Hp Htx), bind_of_Ok in Hv.
  apply bind_Ok in Hv as (asked & Hasked & Hv). destruct e as [pv c n|tokenId minted rv|tokenId l|tokenId redeemed change];
    cbn [cove_accepted tokens_as_told] in *.
  - destruct Ha as (? & ? & ? & ? & ? & Ha). destruct_and! Ha. by subst st'.
  - passed Hv. apply token_matches_Ok in Hx. subst asked. apply negb_false_iff in Hx1, Hv. apply Z.eqb_eq in Hx1. subst.
    destruct Ha as (tx' & meta & prior & next & gross & fee & cfee & script & carrier & creator & hash & _ & _ & Htx'
      & _ & _ & _ & _ & _ & _ & -> & Hpays & _ & _ & _ & _ & _ & _ & ->). rewrite Htx in Htx'. injection Htx' as <-.
    eexists _, _. split_and!; [done|done|cbn; by rewrite lookup_insert_eq|done|done|].
    unfold mine_at in Hv. change (Z.to_nat 2) with 2%nat in Hv. by rewrite Hpays in Hv.
  - passed Hv. apply token_matches_Ok in Hx. subst asked.
    destruct Ha as (tx' & spent & created & _ & Htx' & _ & _ & _ & _ & Hout & -> & _). rewrite Htx in Htx'. injection Htx' as <-.
    apply transfer_outputs_Ok in Hout as (new & -> & _ & Hf). cbn [app] in *. exists x0, spent, new. split_and!; [done..|].
    erewrite (directions_sum i _ l new) in Hv.
    2:{ eapply Forall2_impl; [exact Hf|]. intros a u' (_ & _ & _ & Ham & _ & out & Ho & _ & Hs). split; [done|].
        unfold mine_at, my_carrier, my_output. by rewrite Ho, Hs. }
    intros d Hd. assert (x1 = d) as -> by (destruct Hd as [Hd|[Hd Hd']]; rewrite Hd in Hx1; [|rewrite Hd' in Hx1]; by injection Hx1).
    destruct d; [| |done]; passed Hv; by apply negb_false_iff, Z.eqb_eq in Hv.
  - passed Hv. apply token_matches_Ok in Hx. subst asked. apply negb_false_iff, Z.eqb_eq in Hx1. subst.
    apply change_returns_Ok in Hv.
    destruct Ha as (tx' & prior & spent & created & next & gross & fee & payout & script & hash & _ & _ & Htx' & _ & _ & _ & _ & _
      & Hch & _ & _ & _ & _ & _ & _ & _ & -> & _). rewrite Htx in Htx'. injection Htx' as <-.
    exists x0, prior, spent, created. split_and!; [done..| |].
    + rewrite <- sum_utxos_atoms. destruct Hch as [(E & _ & ->)|(s & _ & _ & _ & _ & ->)]; unfold atoms_of, zsum; cbn; lia.
    + destruct Hch as [(_ & _ & ->)|(s & _ & -> & Hpays & _ & ->)]; [done|]. apply Forall_inv in Hv.
      unfold mine_at in Hv. cbn [vout] in Hv. change (Z.to_nat 4) with 4%nat in Hv. rewrite Hpays in Hv. by constructor.
Qed.

(** C13: a transaction the wallet's check lets through, mined with the outputs it
    had and accepted by the indexer.  Its satoshis move as the user was told: the
    fee is the one shown; a purchase from the curve costs exactly the price and
    the fees, a fill of a listing no more than the price, its fee and the
    miner's, with the price paid out, and a redemption brings exactly its payout
    less the miner's fee; a payout that was stated is there.  Its tokens move as
    its message says, in the token that was named and the amount that was shown:
    a mint makes a carrier of the amount on one of the wallet's scripts, a
    redemption takes the amount and returns the rest to them, a transfer
    delivers the amount to them, or to others, as the operation says.  The
    message is the one the indexer reads, but the check does not compare its
    kind with the operation: a deployment passes as any operation, and then no
    carrier is made or moved. *)
Theorem verified_intent_indexed psbtBase64 i v psbt rawHex tx st block e r st' :
  verifyClientIntent psbtBase64 i = Ok v → psbt_fromBase64 psbtBase64 = Ok psbt →
  tx_fromHex rawHex = Some tx → tx_outs tx = psbt_outputs psbt → parseCoveTx rawHex = Cove e →
  applyCove config st (getId tx) rawHex e block = Ok (r, st') → ar_valid r = true →
  sats_as_told i psbt ∧ vi_walletDeltaSats v = wallet_gain i psbt ∧ tokens_as_told i st (getId tx) e r st'.
Proof.
  intros Hv Hp Htx Ho He Ha Hr. destruct (verifyClientIntent_parts _ _ _ _ Hp Hv) as (Hs & Hd & Ht). rewrite <- Ho in Ht.
  split_and!; [done..|]. eapply tokens_of_message; [done..|]. by apply applyCove_accepted.
Qed.
End Tokens.
