(* ===== verification/ClientIntentExamples.v ===== *)
(** * The wallet's check on the example chain

    A purchase the application builds passes the check and delivers; two
    transactions pass it that deliver nothing. *)
From S2P Require Import Prelude Bytes Number Economics Wire Covenant Vault Indexer IndexerInv IndexerExamples Spend Guardian GuardianExamples FinalizeExamples Persistent PersistentExamples.
From S2P Require Import Market AppFunding AppService AppExamples ClientIntent ClientIntentInv.

#[local] Existing Instance toy_crypto.
#[local] Existing Instance toy_bitcoin.
#[local] Existing Instance toy_locale.
#[local] Existing Instance toy_postgres.
#[local] Existing Instance toy_bitcoinjs.

(** The intent of a build, in the texts of its JSON. *)
Definition client_intent (x : IntentV3) : ClientIntent := {|
  ci_operation := operation_text (in_operation x); ci_tokenId := in_tokenId x;
  ci_tokenAmountAtoms := pretty <$> in_tokenAmountAtoms x; ci_grossSats := pretty <$> in_grossSats x;
  ci_protocolFeeSats := pretty <$> in_protocolFeeSats x; ci_creatorFeeSats := pretty <$> in_creatorFeeSats x;
  ci_creatorScript := in_creatorScript x; ci_minerFeeSats := pretty (in_minerFeeSats x); ci_netSats := pretty <$> in_netSats x;
  ci_walletScript := in_walletScript x; ci_ordinalsScript := Some (in_ordinalsScript x); ci_stateHash := in_stateHash x;
  ci_unsignedTxDigest := in_unsignedTxDigest x; ci_walletDeltaSats := Some (pretty (in_walletDeltaSats x));
  ci_tokenDirection := None |}.

Definition bought : ClientIntent := client_intent (br_intent app_result).

#[local] Instance client_codec (psbt : Psbt) : PsbtCodec := {|
  psbt_fromBase64 s := Ok psbt;
  psbt_toBase64 p := ""%string;
  unsigned_toBuffer u := mjoin (txo_script <$> utx_outs u);
  finalizeAllInputs p := Ok p;
  extractTransactionHex p := Ok ""%string;
|}.

(** ** A purchase *)
Definition buyer_check : result VerifiedIntent := verifyClientIntent (PC := client_codec toy_mint_psbt) "mint" bought.
Definition mint_message : ParsedEnvelopeV2 := MintV2 toy_token (400 * LOT) 2.
Definition indexed_mint : result (ApplyResult * V3IndexerState) :=
  applyCove toy_config (toy_world [pb1]).2 (getId toy_mint) "mint" mint_message pb2.
Definition no_verdict : VerifiedIntent :=
  {| vi_digest := ""; vi_inputCount := 0; vi_outputCount := 0; vi_totalInputSats := 0; vi_totalOutputSats := 0; vi_walletDeltaSats := 0 |}.

Lemma indexed_mint_ok : ∃ r st', indexed_mint = Ok (r, st') ∧ ar_valid r = true.
Proof.
  assert (match indexed_mint with Ok (r, _) => ar_valid r | Throw _ => false end = true) as H by (vm_compute; reflexivity).
  destruct indexed_mint as [[r st']|]; [by exists r, st'|discriminate H].
Qed.

Lemma verified_intent_indexed_witness :
  vi_walletDeltaSats (get_ok no_verdict buyer_check) = -52025
  ∧ ∃ r st', indexed_mint = Ok (r, st') ∧ sats_as_told bought toy_mint_psbt
      ∧ tokens_as_told bought (toy_world [pb1]).2 (getId toy_mint) mint_message r st'.
Proof.
  split; [vm_compute; reflexivity|]. destruct indexed_mint_ok as (r & st' & E & Hr). exists r, st'.
  destruct (verified_intent_indexed (PC := client_codec toy_mint_psbt) toy_config "mint" bought (get_ok no_verdict buyer_check)
    toy_mint_psbt "mint" toy_mint (toy_world [pb1]).2 pb2 mint_message r st') as (Hs & _ & Ht).
  - vm_compute. reflexivity.
  - reflexivity.
  - vm_compute. reflexivity.
  - vm_compute. reflexivity.
  - vm_compute. reflexivity.
  - exact E.
  - exact Hr.
  - split; [exact E|]. split; [exact Hs|exact Ht].
Defined.

(** ** What the check lets through *)

(** A node on which there is one transaction. *)
Definition one_tx (outs : list TxOut) : Bitcoin := {|
  tx_fromHex _ := Some {| tx_ins := []; tx_outs := outs |}; getId _ := toHex (zeros 32); getId_length _ := eq_refl |}.

Definition with_outputs (outs : list TxOut) : Psbt := {| psbt_inputs := psbt_inputs toy_mint_psbt; psbt_outputs := outs |}.

(** The intent of the purchase, with the digest of another transaction. *)
Definition redigested (psbt : Psbt) : ClientIntent := {|
  ci_operation := ci_operation bought; ci_tokenId := ci_tokenId bought; ci_tokenAmountAtoms := ci_tokenAmountAtoms bought;
  ci_grossSats := ci_grossSats bought; ci_protocolFeeSats := ci_protocolFeeSats bought;
  ci_creatorFeeSats := ci_creatorFeeSats bought; ci_creatorScript := ci_creatorScript bought;
  ci_minerFeeSats := ci_minerFeeSats bought; ci_netSats := ci_netSats bought; ci_walletScript := ci_walletScript bought;
  ci_ordinalsScript := ci_ordinalsScript bought; ci_stateHash := ci_stateHash bought;
  ci_unsignedTxDigest := unsignedTxDigestHex (PC := client_codec psbt) psbt;
  ci_walletDeltaSats := ci_walletDeltaSats bought; ci_tokenDirection := None |}.

Definition passes (psbt : Psbt) : bool := is_ok (verifyClientIntent (PC := client_codec psbt) "" (redigested psbt)).

(** The message in output 1, where the indexer does not look: the buyer pays and
    no token is minted. *)
Definition message_second : Psbt :=
  with_outputs match psbt_outputs toy_mint_psbt with message :: vault :: rest => vault :: message :: rest | l => l end.

Lemma message_second_passes :
  passes message_second = true ∧ parseCoveTx (B := one_tx (psbt_outputs message_second)) "" = NonCove.
Proof. split; vm_compute; reflexivity. Qed.

(** A DEPLOY for a message: the buyer pays, and mints nothing. *)
Definition message_deploys : Psbt :=
  with_outputs match psbt_outputs toy_mint_psbt, tx_outs toy_deploy with
    | _ :: rest, message :: _ => message :: rest | l, _ => l end.

Lemma message_deploys_passes :
  passes message_deploys = true
  ∧ match parseCoveTx (B := one_tx (psbt_outputs message_deploys)) "" with Cove (DeployV2 _ _ _) => True | _ => False end.
Proof. split; vm_compute; [reflexivity|done]. Qed.
