(* ===== verification/Display.v ===== *)
(** * Amounts as text: packages/cove-app/src/format.ts

    What a person types and reads: tokens and bitcoin with up to eight decimal
    places, whole satoshis.  Printing an amount and reading it back gives the
    amount. *)
From S2P Require Import Prelude Bytes Number Curve Json Discovery Undo AppConfig.

Fixpoint all_digits (s : string) : bool :=
  match s with EmptyString => true | String a r => is_digit a && all_digits r end.

(** [\d+] *)
Definition digits (s : string) : bool := negb (String.eqb s "") && all_digits s.

(** What stands before and after the first point. *)
Fixpoint split_point (s : string) : string * option string :=
  match s with
  | EmptyString => (EmptyString, None)
  | String a r => if Ascii.eqb a "." then (EmptyString, Some r) else let '(whole, frac) := split_point r in (String a whole, frac)
  end.

(** [/^\d+(\.\d+)?$/] *)
Definition is_decimal (s : string) : bool :=
  let '(whole, frac) := split_point s in digits whole && match frac with Some f => digits f | None => true end.

Definition amount_invalid (msg : string) : exn := AppError "TOKEN_AMOUNT_INVALID" msg.

(** The body that [parseDisplayTokens] and [parseBtc] share but for the two
    messages and the name of the unit, which is 10^8 in both. *)
Definition parse_places (shape places : string) (unit_ : Z) (input : string) : result Z :=
  let s := js_trim input in
  throw_if (negb (is_decimal s)) (amount_invalid shape);;
  let '(whole, frac) := split_point s in
  let frac := default ""%string frac in
  throw_if (8 <? String.length frac)%nat (amount_invalid places);;
  w ← BigInt_of_string whole;
  f ← BigInt_of_string (text_take 8 (frac +:+ "00000000"));
  Ok (w * unit_ + f).

Definition parseDisplayTokens : string → result Z :=
  parse_places "amount must be a non-negative decimal" "token amount has more than 8 decimals" ATOMS_PER_TOKEN.
Definition parseBtc : string → result Z :=
  parse_places "BTC amount must be a non-negative decimal" "BTC amount has more than 8 decimals" 100000000.

Definition parseSats (input : string) : result Z :=
  let s := js_trim input in
  throw_if (negb (digits s)) (amount_invalid "sats must be a non-negative integer");;
  BigInt_of_string s.

(** [s.padStart(8, "0")] *)
Definition padStart8 (s : string) : string := zeros_text (8 - Z.of_nat (String.length s)) +:+ s.

(** [s.replace(/0+$/, "")] *)
Fixpoint strip_zeros (s : string) : string :=
  match s with
  | EmptyString => EmptyString
  | String a r =>
      match strip_zeros r with
      | EmptyString => if Ascii.eqb a "0" then EmptyString else String a EmptyString
      | t => String a t
      end
  end.

Definition atomsToDisplay (atoms : Z) : string :=
  let whole := Z.quot atoms ATOMS_PER_TOKEN in
  let frac := Z.rem atoms ATOMS_PER_TOKEN in
  if frac =? 0 then pretty whole else pretty whole +:+ "." +:+ strip_zeros (padStart8 (pretty frac)).

Definition formatTokens (atoms : Z) : string := atomsToDisplay atoms +:+ " tokens".

(** [n.toLocaleString("en-US")]: the digits in groups of three. *)
Fixpoint grouped (s : string) : string :=
  match s with
  | EmptyString => EmptyString
  | String a r =>
      if negb (String.eqb r "") && (String.length r mod 3 =? 0)%nat then String a (String "," (grouped r)) else String a (grouped r)
  end.
Definition formatSats (sats : Z) : string :=
  (if (sats <? 0)%Z then "-" else "") +:+ grouped (pretty (Z.abs sats)) +:+ " sats".

Definition formatBtc (sats : Z) : string :=
  let sign := (if (sats <? 0)%Z then "-" else "")%string in
  let abs := if sats <? 0 then - sats else sats in
  let whole := Z.quot abs 100000000 in
  let frac := Z.rem abs 100000000 in
  let fracStr := strip_zeros (padStart8 (pretty frac)) in
  sign +:+ pretty whole +:+ (if String.eqb fracStr "" then "" else "." +:+ fracStr)%string +:+ " BTC".

Example format_examples :
  formatBtc (-150000000) = "-1.5 BTC"%string ∧ formatBtc 1 = "0.00000001 BTC"%string
  ∧ formatSats 1234567 = "1,234,567 sats"%string ∧ formatTokens 100000000 = "1 tokens"%string
  ∧ parseDisplayTokens " 1.50 " = Ok 150000000 ∧ parseSats "1e3" = Throw (amount_invalid "sats must be a non-negative integer").
Proof. vm_compute. done. Qed.

(** ** Digits *)
Lemma all_digits_app s t : all_digits (s +:+ t) = all_digits s && all_digits t.
Proof. 
  induction s as [|a s IH]; [done|]. change (String a s +:+ t) with (String a (s +:+ t)). cbn [all_digits].
  by rewrite IH, andb_assoc.
Qed.

Lemma all_digits_go x s : all_digits (pretty_N_go x s) = all_digits s.
Proof.
  revert s. induction (N.lt_wf_0 x) as [x _ IH]. intros s. destruct (decide (0 < x)%N).
  - rewrite pretty_N_go_step by done. rewrite IH by by apply N.div_lt. cbn. by rewrite is_digit_N_char.
  - replace x with 0%N by lia. by rewrite pretty_N_go_0.
Qed.

Lemma pretty_digits z : 0 ≤ z → digits (pretty z) = true.
Proof.
  intros Hz. unfold digits. destruct (pretty_head z) as (a & r & E & _). rewrite E at 1. cbn [String.eqb negb andb].
  assert (∀ x : N, all_digits (pretty x) = true) as H.
  { intros x. unfold pretty, pretty_N. case_decide; [done|apply all_digits_go]. }
  destruct z as [|p|p]; [done|apply (H (N.pos p))|lia].
Qed.

Lemma length_go k x s : (x < 10 ^ N.of_nat k)%N → (String.length (pretty_N_go x s) ≤ k + String.length s)%nat.
Proof.
  revert x s. induction k as [|k IH]; intros x s Hx.
  { replace x with 0%N by (cbn in Hx; lia). by rewrite pretty_N_go_0. }
  destruct (decide (0 < x)%N); [|replace x with 0%N by lia; rewrite pretty_N_go_0; lia].
  rewrite pretty_N_go_step by done. etrans; [apply IH|cbn; lia].
  rewrite Nat2N.inj_succ, N.pow_succ_r' in Hx. apply N.Div0.div_lt_upper_bound. lia.
Qed.

Lemma pretty_length k z : (0 < k)%nat → 0 ≤ z < 10 ^ Z.of_nat k → (String.length (pretty z) ≤ k)%nat.
Proof.
  intros Hk Hz. destruct z as [|p|p]; [done| |lia]. change (pretty (Z.pos p)) with (pretty (N.pos p)).
  unfold pretty, pretty_N. case_decide; [done|]. etrans; [apply (length_go k)|cbn; lia].
  apply N2Z.inj_lt. rewrite N2Z.inj_pow, nat_N_Z. cbn. lia.
Qed.

Lemma digit_plain s : all_digits s = true → Forall (λ a, is_bigint_char a = true) (String.list_ascii_of_string s).
Proof.
  induction s as [|a s IH]; [constructor|]. cbn. intros [Ha Hs]%andb_true_iff. constructor; [|by apply IH].
  unfold is_bigint_char. by rewrite Ha.
Qed.

(** [BigInt] of a text of digits. *)
Lemma BigInt_digits s v : digits s = true → digits_value 10 s 0 = Some v → BigInt_of_string s = Ok v.
Proof.
  intros [Hn Hd]%andb_true_iff Hv. unfold BigInt_of_string, StringToBigInt.
  rewrite js_trim_plain by by apply bigint_chars_plain, digit_plain.
  assert (decimal_of s = Some v) as Hdec.
  { destruct s as [|a r]; [done|]. cbn in Hd. apply andb_true_iff in Hd as [Ha _]. unfold decimal_of.
    destruct (Ascii.eqb_spec a "-") as [->|]; [discriminate Ha|]. destruct (Ascii.eqb_spec a "+") as [->|]; [discriminate Ha|].
    exact Hv. }
  destruct s as [|a [|b r]]; [by rewrite Hdec..|]. replace (if Ascii.eqb a "0" then radix_of b else None) with (@None Z); [by rewrite Hdec|].
  cbn in Hd. apply andb_true_iff in Hd as [_ [Hb _]%andb_true_iff]. destruct (Ascii.eqb a "0"); [|done].
  destruct b as [[] [] [] [] [] [] [] []]; try discriminate Hb; reflexivity.
Qed.

(** ** Zeros *)
Fixpoint zeros_string (k : nat) : string :=
  match k with O => EmptyString | S k => String "0" (zeros_string k) end.

Lemma zeros_text_string k : zeros_text (Z.of_nat k) = zeros_string k.
Proof.
  unfold zeros_text. rewrite Nat2Z.id. induction k as [|[|k] IH]; [done..|].
  change (String "0" (String.concat "" (replicate (S k) "0"%string)) = zeros_string (S (S k))). by rewrite IH.
Qed.

Lemma zeros_length k : String.length (zeros_string k) = k.
Proof. induction k as [|k IH]; [done|]. cbn. by rewrite IH. Qed.

Lemma zeros_digits k : all_digits (zeros_string k) = true.
Proof. by induction k. Qed.

Lemma zeros_value k s : digits_value 10 (zeros_string k +:+ s) 0 = digits_value 10 s 0.
Proof. induction k as [|k IH]; [done|]. exact IH. Qed.

Lemma length_append s t : String.length (s +:+ t) = (String.length s + String.length t)%nat.
Proof. induction s as [|a s IH]; [done|]. change (S (String.length (s +:+ t)) = S (String.length s) + String.length t)%nat. by rewrite IH. Qed.

Lemma strip_zeros_spec s : ∃ k, s = strip_zeros s +:+ zeros_string k.
Proof.
  induction s as [|a s (k & IH)]; [by exists 0%nat|]. cbn [strip_zeros]. destruct (strip_zeros s) as [|b t].
  - destruct (Ascii.eqb_spec a "0") as [->|]; [exists (S k)|exists k]; by rewrite IH at 1.
  - exists k. by rewrite IH at 1.
Qed.

Lemma take_append t u m : String.substring 0 (String.length t + m) (t +:+ u) = t +:+ String.substring 0 m u.
Proof.
  induction t as [|a t IH]; [done|].
  change (String a (String.substring 0 (String.length t + m) (t +:+ u)) = String a (t +:+ String.substring 0 m u)). by rewrite IH.
Qed.

(** Eight places again from what is left of them. *)
Lemma places_restored t : (String.length t ≤ 8)%nat →
  text_take 8 (t +:+ "00000000") = t +:+ zeros_string (8 - String.length t).
Proof.
  intros H. unfold text_take. replace (Z.to_nat 8) with (String.length t + (8 - String.length t))%nat by lia.
  rewrite take_append. f_equal. generalize dependent (String.length t). intros n Hn.
  do 9 (destruct n as [|n]; [done|]). lia.
Qed.

Lemma padStart8_spec f : 0 ≤ f < 10 ^ 8 →
  String.length (padStart8 (pretty f)) = 8%nat ∧ digits (padStart8 (pretty f)) = true
  ∧ digits_value 10 (padStart8 (pretty f)) 0 = Some f.
Proof.
  intros Hf. pose proof (pretty_length 8 f ltac:(lia) Hf) as Hl. pose proof (pretty_digits f ltac:(lia)) as Hd.
  unfold padStart8. replace (8 - _) with (Z.of_nat (8 - String.length (pretty f))) by lia. rewrite zeros_text_string. split_and!.
  - rewrite length_append, zeros_length. lia.
  - unfold digits in *. apply andb_true_iff in Hd as [Hn Hd]. rewrite all_digits_app, zeros_digits, Hd.
    destruct (8 - _)%nat; [by rewrite andb_true_r|done].
  - rewrite zeros_value. destruct f as [|p|p]; [done|apply (digits_value_pretty (N.pos p))|lia].
Qed.

(** ** Reading back what was printed *)
Lemma split_point_whole w : all_digits w = true → split_point w = (w, None).
Proof.
  induction w as [|a w IH]; [done|]. cbn. intros [Ha Hw]%andb_true_iff. rewrite (IH Hw).
  destruct (Ascii.eqb_spec a ".") as [->|]; [discriminate Ha|done].
Qed.

Lemma split_point_frac w f : all_digits w = true → split_point (w +:+ String "." f) = (w, Some f).
Proof.
  induction w as [|a w IH]; [done|]. cbn [all_digits]. intros [Ha Hw]%andb_true_iff.
  change (String a w +:+ String "." f) with (String a (w +:+ String "." f)). cbn [split_point]. rewrite (IH Hw).
  destruct (Ascii.eqb_spec a ".") as [->|]; [discriminate Ha|done].
Qed.

Lemma pretty_value z : 0 ≤ z → digits_value 10 (pretty z) 0 = Some z.
Proof. intros Hz. destruct z as [|p|p]; [done|apply (digits_value_pretty (N.pos p))|lia]. Qed.

Lemma decimal_plain s : Forall (λ a, is_bigint_char a = true ∨ a = "."%char) (String.list_ascii_of_string s) → js_trim s = s.
Proof.
  intros H. apply js_trim_plain. unfold utf8, String.list_byte_of_string. rewrite Forall_fmap. eapply Forall_impl; [exact H|].
  intros a [Ha| ->]; [|by vm_compute]. destruct a as [[] [] [] [] [] [] [] []]; try discriminate Ha; by vm_compute.
Qed.

Lemma list_ascii_app s t : String.list_ascii_of_string (s +:+ t) = String.list_ascii_of_string s ++ String.list_ascii_of_string t.
Proof. induction s as [|a s IH]; [done|]. change (a :: String.list_ascii_of_string (s +:+ t) = a :: (String.list_ascii_of_string s ++ String.list_ascii_of_string t)). by rewrite IH. Qed.

Lemma digits_no_space s : all_digits s = true → Forall (λ a, is_bigint_char a = true ∨ a = "."%char) (String.list_ascii_of_string s).
Proof. intros H. eapply Forall_impl; [by apply digit_plain|]. by left. Qed.

Lemma parse_places_display shape places atoms : 0 ≤ atoms →
  parse_places shape places ATOMS_PER_TOKEN (atomsToDisplay atoms) = Ok atoms.
Proof.
  intros Ha. change ATOMS_PER_TOKEN with (10 ^ 8) in *. unfold atomsToDisplay. change ATOMS_PER_TOKEN with (10 ^ 8).
  pose proof (Z.quot_pos atoms (10 ^ 8) Ha ltac:(lia)) as Hq. pose proof (Z.rem_bound_pos atoms (10 ^ 8) Ha ltac:(lia)) as Hf.
  pose proof (Z.quot_rem' atoms (10 ^ 8)) as Hqr.
  pose proof (pretty_digits _ Hq) as Hd. pose proof (BigInt_digits _ _ Hd (pretty_value _ Hq)) as Hw.
  pose proof Hd as Hd'. unfold digits in Hd'. apply andb_true_iff in Hd' as [_ Hdw].
  set (w := pretty (Z.quot atoms (10 ^ 8))) in *. set (f := Z.rem atoms (10 ^ 8)) in *. unfold parse_places.
  destruct (Z.eqb_spec f 0) as [Ef|Ef].
  - rewrite decimal_plain by by apply digits_no_space. unfold is_decimal. rewrite (split_point_whole w Hdw), Hd. cbn [negb andb].
    rewrite throw_if_false by done. cbn [default]. rewrite throw_if_false, Hw by done. cbn [mbind result_bind]. change (BigInt_of_string _) with (Ok 0). cbn. f_equal. lia.
  - destruct (padStart8_spec f Hf) as (Hlen & Hpd & Hpv). destruct (strip_zeros_spec (padStart8 (pretty f))) as (k & Ek).
    set (t := strip_zeros _) in *. change (w +:+ "." +:+ t) with (w +:+ String "." t).
    unfold digits in Hpd. apply andb_true_iff in Hpd as [_ Hpd]. rewrite Ek, all_digits_app in Hpd. apply andb_true_iff in Hpd as [Htd _].
    assert (t ≠ EmptyString) as Hne.
    { intros Et. rewrite Ek, Et in Hpv. change (EmptyString +:+ zeros_string k) with (zeros_string k) in Hpv.
      pose proof (zeros_value k EmptyString) as Hz. rewrite app_empty_r, Hpv in Hz. by injection Hz. }
    rewrite decimal_plain.
    2:{ rewrite list_ascii_app. apply Forall_app. split; [by apply digits_no_space|]. constructor; [by right|by apply digits_no_space]. }
    unfold is_decimal. rewrite (split_point_frac w t Hdw), Hd. unfold digits. rewrite Htd, (proj2 (String.eqb_neq _ _) Hne). cbn [negb andb].
    rewrite throw_if_false by done. cbn [default from_option id]. unfold id.
    assert (String.length t + k = 8)%nat as Hk by by rewrite <- Hlen, Ek, length_append, zeros_length.
    rewrite throw_if_false, Hw by (apply Nat.ltb_ge; lia). cbn [mbind result_bind].
    rewrite places_restored by lia. replace (8 - String.length t)%nat with k by lia. rewrite <- Ek.
    rewrite (BigInt_digits _ f); [change (Ok (Z.quot atoms (10 ^ 8) * 10 ^ 8 + f) = Ok atoms); f_equal; lia| |done]. unfold digits. by destruct (padStart8_spec f Hf) as (_ & ? & _).
Qed.

Lemma digits_value_total s acc : 0 ≤ acc → all_digits s = true → ∃ v, digits_value 10 s acc = Some v ∧ 0 ≤ v.
Proof.
  revert acc. induction s as [|a s IH]; intros acc Hacc; [by exists acc|]. cbn [all_digits digits_value]. intros [Ha Hs]%andb_true_iff.
  assert (∃ d, digit_in 10 a = Some d ∧ 0 ≤ d) as (d & -> & Hd).
  { destruct a as [[] [] [] [] [] [] [] []]; try discriminate Ha; eexists; (split; [reflexivity|by vm_compute]). }
  apply IH; [lia|done].
Qed.

Lemma BigInt_total s : digits s = true → ∃ v, BigInt_of_string s = Ok v ∧ 0 ≤ v.
Proof.
  intros H. pose proof H as [_ Hd]%andb_true_iff. destruct (digits_value_total s 0 ltac:(lia) Hd) as (v & Hv & H0).
  exists v. split; [by apply BigInt_digits|done].
Qed.

Lemma take_digits_text n s : all_digits s = true → all_digits (String.substring 0 n s) = true.
Proof.
  revert s. induction n as [|n IH]; intros [|a s]; [done..|]. cbn [all_digits]. intros [Ha Hs]%andb_true_iff.
  cbn [String.substring all_digits]. by rewrite Ha, IH.
Qed.

(** an amount that is read is never negative, and every text that is refused is
    refused with the same code: only a bad shape or too many places are. *)
Theorem parse_places_total shape places input r :
  parse_places shape places ATOMS_PER_TOKEN input = r →
  let '(whole, frac) := split_point (js_trim input) in
  match r with
  | Ok v => is_decimal (js_trim input) = true ∧ (String.length (default ""%string frac) ≤ 8)%nat ∧ 0 ≤ v
  | Throw e =>
      e = amount_invalid shape ∧ is_decimal (js_trim input) = false
      ∨ e = amount_invalid places ∧ (8 < String.length (default ""%string frac))%nat
  end.
Proof.
  unfold parse_places. intros <-. unfold is_decimal. destruct (split_point (js_trim input)) as [whole frac].
  destruct (digits whole && match frac with Some f => digits f | None => true end) eqn:E; [|by left].
  cbn [negb]. rewrite throw_if_false by done. apply andb_true_iff in E as [Hw Hf].
  destruct (Nat.ltb_spec 8 (String.length (default ""%string frac))) as [Hl|Hl]; [right; by split|].
  rewrite throw_if_false by done. destruct (BigInt_total whole Hw) as (w & -> & H0). cbn [mbind result_bind].
  assert (all_digits (default ""%string frac) = true) as Hd.
  { destruct frac as [f|]; [|done]. by apply andb_true_iff in Hf as [_ ?]. }
  destruct (BigInt_total (text_take 8 (default ""%string frac +:+ "00000000"))) as (v & -> & Hv).
  { unfold digits. apply andb_true_iff. split.
    - by destruct (default ""%string frac).
    - apply take_digits_text. by rewrite all_digits_app, Hd. }
  cbn. split_and!; [done|done|]. pose proof (Z.mul_nonneg_nonneg w ATOMS_PER_TOKEN H0 ltac:(vm_compute; discriminate)). lia.
Qed.

(** [formatBtc] prints as [atomsToDisplay] does, with a sign of its own. *)
Lemma formatBtc_display sats :
  formatBtc sats = (if (sats <? 0)%Z then "-" else "")%string +:+ atomsToDisplay (Z.abs sats) +:+ " BTC".
Proof.
  unfold formatBtc. replace (if (sats <? 0)%Z then - sats else sats) with (Z.abs sats) by (destruct (Z.ltb_spec sats 0); lia).
  unfold atomsToDisplay. change ATOMS_PER_TOKEN with 100000000. set (w := pretty (Z.quot _ _)). cbv zeta.
  pose proof (Z.rem_bound_pos (Z.abs sats) 100000000 ltac:(lia) ltac:(lia)) as Hf. set (f := Z.rem _ _) in *. clearbody f w.
  destruct (Z.eqb_spec f 0) as [->|Hn]; [done|]. destruct (padStart8_spec f Hf) as (_ & _ & Hv).
  destruct (strip_zeros_spec (padStart8 (pretty f))) as (k & Ek).
  destruct (String.eqb_spec (strip_zeros (padStart8 (pretty f))) "") as [Et|_].
  - rewrite Ek, Et in Hv. change ("" +:+ zeros_string k) with (zeros_string k) in Hv.
    pose proof (zeros_value k EmptyString) as Hz. rewrite app_empty_r, Hv in Hz. by injection Hz.
  - f_equal. by induction w as [|a w IH]; [|change (String a (w +:+ (("." +:+ strip_zeros (padStart8 (pretty f))) +:+ " BTC"))
      = String a ((w +:+ ("." +:+ strip_zeros (padStart8 (pretty f)))) +:+ " BTC")); f_equal].
Qed.

(** an amount that is printed is read back exactly, in tokens and in bitcoin. *)
Theorem display_round_trip amount :
  0 ≤ amount →
  parseDisplayTokens (atomsToDisplay amount) = Ok amount
  ∧ ∃ text, formatBtc amount = text +:+ " BTC" ∧ parseBtc text = Ok amount.
Proof.
  intros Ha. split; [by apply parse_places_display|]. exists (atomsToDisplay amount). split.
  - rewrite formatBtc_display, (proj2 (Z.ltb_ge _ _)), Z.abs_eq by lia. done.
  - by apply (parse_places_display _ _ amount).
Qed.
