(* ===== verification/AppRead.v ===== *)
(** * What the application shows: packages/cove-app/src

    [token-read.ts], the summaries of tokens; [wallet-read.ts], the portfolio
    of a script; [health.ts], the status of the services.  They read the
    indexer's tables, the market's and the metadata. *)
From S2P Require Import Prelude Bytes Curve Economics Wire Covenant Vault Json Undo Indexer IndexerInv Store StoreInv Hydrate Persistent Lockstep ReadInv Monitors.
From S2P Require Import Number Greedy AppConfig Order Market AppFunding TxSession AppService.

(** ** token-read.ts *)
Record V3TokenSummary := {
  su_tokenId : string; su_ticker : string; su_displayName : string; su_description : string;
  su_deployTxid : string; su_deployHeight : Z; su_policyVersion : Z; su_issuedSupplyAtoms : Z;
  su_publicCapAtoms : Z; su_remainingCapacityAtoms : Z; su_graduated : bool; su_backingSats : Z;
  su_backingOutpoint : OutPoint; su_stateHash : string; su_curveStage : Z; su_holderCount : Z;
  su_bestAskSats : option Z; su_activeListingCount : Z;
  su_websiteUrl : option string; su_xUrl : option string; su_imageUrl : option string
}.

(** [min(column)] over a group. *)
Fixpoint minimum (l : list Z) : option Z :=
  match l with [] => None | x :: l => Some (match minimum l with Some y => Z.min x y | None => x end) end.

(** [ILIKE], on ASCII text: the percent sign stands for any text, the underscore
    for a character, and a backslash takes the next character as it is. *)
Fixpoint ilike (pattern : string) : string → bool :=
  let same (a : ascii) (p : string → bool) (s : string) :=
    match s with String b r => Ascii.eqb (lower a) (lower b) && p r | EmptyString => false end in
  match pattern with
  | EmptyString => λ s, String.eqb s ""
  | String a p =>
      if Ascii.eqb a "%" then
        fix any s := ilike p s || match s with String _ r => any r | EmptyString => false end
      else if Ascii.eqb a "_" then λ s, match s with String _ r => ilike p r | EmptyString => false end
      else if Ascii.eqb a "\" then match p with String c p => same c (ilike p) | EmptyString => λ _, false end
      else same a (ilike p)
  end.

(** [new Map(rows.map((r) => [key(r), r]))]: the last row of a key stays. *)
Definition map_by {R} (key : R → string) (rows : list R) : gmap string R := foldl (λ m r, <[key r := r]> m) ∅ rows.

(** [orderBy(desc(deployHeight))]; a limit below zero, which the database
    refuses, leaves nothing. *)
Definition deployed_later (a b : TokenRow) : Prop := tr_deployHeight b ≤ tr_deployHeight a.
#[local] Instance deployed_later_dec : RelDecision deployed_later.
Proof. unfold RelDecision, deployed_later. intros. apply _. Defined.

Definition in_array (ids : list string) (t : string) : bool := existsb (String.eqb t) ids.

Record ListOptions := { lo_ticker : option string; lo_search : option string; lo_limit : option Z }.

Section Tokens.
Context {PG : Postgres}.
Context (d : V3Db) (market : MarketDb) (metadata : list MetadataRow).

Definition listTokenMetadataByTokenIds (ids : list string) : list MetadataRow :=
  match ids with [] => [] | _ => select (λ m, in_array ids (mr_tokenId m)) metadata end.

(** [count(distinct script_pub_key)] of the group of a token, none of which is
    no group. *)
Definition holder_rows (ids : list string) : list UtxoRow :=
  select (λ u, live_row u && in_array ids (ur_tokenId u)) (coveV3TokenUtxos d).
Definition holder_count (ids : list string) (t : string) : Z :=
  Z.of_nat (length (remove_dups (ur_scriptPubKey <$> List.filter (λ u, String.eqb (ur_tokenId u) t) (holder_rows ids)))).

(** The active listings of the group of a token. *)
Definition ask_rows (ids : list string) (t : string) : list ListingRow :=
  List.filter (λ l, String.eqb (l_tokenId (lr_order l)) t)
    (select (λ l, bool_decide (lr_status l = LActive) && in_array ids (l_tokenId (lr_order l))) (md_listings market)).

Definition summary (backings : gmap string BackingRow) (metas : gmap string MetadataRow) (ids : list string) (t : TokenRow)
    : V3TokenSummary :=
  let b := backings !! tr_tokenId t in
  let meta := mr_metadata <$> metas !! tr_tokenId t in
  let asks := ask_rows ids (tr_tokenId t) in
  let issued := default 0 (kr_issuedSupplyAtoms <$> b) in {|
    su_tokenId := tr_tokenId t; su_ticker := tr_ticker t;
    su_displayName := default (tr_ticker t) (tmi_displayName <$> meta);
    su_description := default ""%string (tmi_description <$> meta);
    su_deployTxid := tr_deployTxid t; su_deployHeight := tr_deployHeight t; su_policyVersion := tr_policyVersion t;
    su_issuedSupplyAtoms := issued; su_publicCapAtoms := PUBLIC_SUPPLY_ATOMS;
    su_remainingCapacityAtoms :=
      if match b with Some b => PUBLIC_SUPPLY_ATOMS - kr_issuedSupplyAtoms b | None => 0 end <? 0 then 0
      else PUBLIC_SUPPLY_ATOMS - issued;
    su_graduated := PUBLIC_SUPPLY_ATOMS <=? issued;
    su_backingSats := default 0 (kr_backingSats <$> b);
    su_backingOutpoint := default {| op_txid := ""; op_vout := 0 |} (row_outpoint <$> b);
    su_stateHash := default ""%string (kr_stateHash <$> b); su_curveStage := default 0 (kr_curveStage <$> b);
    su_holderCount := holder_count ids (tr_tokenId t);
    su_bestAskSats := minimum ((λ l, totalPriceSats (lr_order l)) <$> asks);
    su_activeListingCount := Z.of_nat (length asks);
    su_websiteUrl := meta ≫= tmi_websiteUrl; su_xUrl := meta ≫= tmi_xUrl; su_imageUrl := meta ≫= tmi_imageUrl |}.

Definition loadSummaries (tokenIds : list string) : list V3TokenSummary :=
  let tokens := select (λ t, tr_canonical t && in_array tokenIds (tr_tokenId t)) (coveV3Tokens d) in
  let backings := map_by kr_tokenId (select kr_canonical (coveV3BackingStates d)) in
  let ids := tr_tokenId <$> tokens in
  let metas := map_by mr_tokenId (listTokenMetadataByTokenIds ids) in
  summary backings metas ids <$> tokens.

Definition listV3Tokens (opts : ListOptions) : list V3TokenSummary :=
  let limit := Z.min (default 50 (lo_limit opts)) 200 in
  let cond (t : TokenRow) :=
    match truthy (lo_ticker opts), truthy (lo_search opts) with
    | None, None => true
    | _, _ =>
        match truthy (match lo_search opts with Some s => Some s | None => lo_ticker opts end) with
        | Some q => ilike ("%" +:+ toUpperCase q +:+ "%") (tr_ticker t) || ilike (toLowerCase q +:+ "%") (tr_tokenId t)
        | None => String.eqb (tr_ticker t) (toUpperCase (default ""%string (lo_ticker opts)))
        end
    end in
  let rows := take (Z.to_nat limit) (merge_sort deployed_later (select (λ t, tr_canonical t && cond t) (coveV3Tokens d))) in
  let tokenIds := tr_tokenId <$> rows in
  let summaries := loadSummaries (match tokenIds with [] => [zeros_text 64] | _ => tokenIds end) in
  let byId := map_by su_tokenId summaries in
  omap (λ id, byId !! id) tokenIds.

Definition getV3TokenDetail (tokenId : string) : option V3TokenSummary := head (loadSummaries [tokenId]).

Definition getTokenHolders (tokenId : string) (limit : nat) : list (string * Z) := take limit (getTokenHoldersDb d tokenId).
Definition getTokenActivity (tokenId : string) (limit : nat) : list EventRow := getTokenActivityDb d tokenId limit.
End Tokens.

(** ** wallet-read.ts *)
Record Holding := { ho_tokenId : string; ho_amountAtoms : Z; ho_utxoCount : Z }.

(** [byToken.set(u.tokenId, h)] on a [Map] in insertion order. *)
Fixpoint holding_add (m : list Holding) (u : UtxoRow) : list Holding :=
  match m with
  | [] => [{| ho_tokenId := ur_tokenId u; ho_amountAtoms := 0 + ur_amountAtoms u; ho_utxoCount := 0 + 1 |}]
  | h :: m =>
      if String.eqb (ho_tokenId h) (ur_tokenId u)
      then {| ho_tokenId := ho_tokenId h; ho_amountAtoms := ho_amountAtoms h + ur_amountAtoms u;
              ho_utxoCount := ho_utxoCount h + 1 |} :: m
      else h :: holding_add m u
  end.

(** [a.tokenId < b.tokenId ? -1 : 1] *)
Definition id_before (a b : Holding) : bool :=
  bool_decide (string_leP (ho_tokenId a) (ho_tokenId b)) && negb (String.eqb (ho_tokenId a) (ho_tokenId b)).

Record PortfolioUtxo := { pu_txid : string; pu_vout : Z; pu_tokenId : string; pu_amountAtoms : Z; pu_scriptPubKey : string }.
Record WalletPortfolio := {
  wpf_walletScript : string; wpf_holdings : list Holding; wpf_tokenUtxos : list PortfolioUtxo;
  wpf_listings : list ListingRow; wpf_fills : list FillRow
}.

Section Wallet.
Context {PG : Postgres}.
Context (d : V3Db) (market : MarketDb).

Definition getWalletPortfolio (walletScript : string) : WalletPortfolio :=
  let utxos := getTokenUtxosByScriptDb d walletScript in
  let listings := select (λ l, String.eqb (sellerTokenScript (lr_order l)) walletScript
                               || String.eqb (sellerPayoutScript (lr_order l)) walletScript) (md_listings market) in
  let sellerListingIds := lr_listingId <$> listings in {|
    wpf_walletScript := walletScript;
    wpf_holdings := js_sort id_before (foldl holding_add [] utxos);
    wpf_tokenUtxos := (λ u, {| pu_txid := ur_txid u; pu_vout := ur_vout u; pu_tokenId := ur_tokenId u;
                               pu_amountAtoms := ur_amountAtoms u; pu_scriptPubKey := ur_scriptPubKey u |}) <$> utxos;
    wpf_listings := listings;
    wpf_fills := select (λ f, String.eqb (fl_buyerTokenScript f) walletScript || String.eqb (fl_buyerChangeScript f) walletScript
                              || in_array sellerListingIds (fl_listingId f)) (md_fills market) |}.

Definition getWalletBalanceAtoms (tokenId walletScript : string) : Z := getBalanceByScriptDb d tokenId walletScript.
End Wallet.

(** ** health.ts *)
Record V3Status := {
  vs_network : string; vs_appEnabled : bool;
  vs_coreReachable : bool; vs_coreHeight : Z; vs_coreTip : string;
  vs_health : IndexerHealth; vs_indexedHeight : Z; vs_indexedBlockHash : string; vs_stateRoot : string; vs_lag : Z;
  vs_rebuilding : bool; vs_guardianConfigured : bool; vs_marketEnabled : bool
}.

(** [info] is Core's height and best block when it is asked again; [flags] the
    rows of [feature_flags]. *)
Definition getV3Status {PG : Postgres} (d : V3Db) (provider : CoreRpcProvider) (info : result (Z * string))
    (flags : list (string * bool)) (config : V3AppConfig) : V3Status :=
  let health := computeHealth d provider in
  let '(reachable, height, tip) :=
    match hr_health health with
    | CORE_UNREACHABLE => (false, 0, ""%string)
    | _ => match info with
           | Ok (blocks, best) => (true, blocks, best)
           | Throw _ => (false, hr_coreHeight health, default ""%string (hr_coreBlockHashAtCursor health))
           end
    end in {|
    vs_network := network_name (ac_network config); vs_appEnabled := ac_enabled config;
    vs_coreReachable := reachable; vs_coreHeight := height; vs_coreTip := tip;
    vs_health := hr_health health; vs_indexedHeight := hr_cursorHeight health;
    vs_indexedBlockHash := hr_cursorBlockHash health; vs_stateRoot := hr_stateRoot health; vs_lag := hr_lag health;
    vs_rebuilding := hr_rebuilding health;
    vs_guardianConfigured := bool_decide (is_Some (ac_guardianPrivateKey config));
    vs_marketEnabled := default true (snd <$> head (select (λ f, String.eqb f.1 "cove-v3-market") flags)) |}.

(** ** Searching *)
Definition plain_char (a : ascii) : bool :=
  negb (Ascii.eqb a "%") && negb (Ascii.eqb a "_") && negb (Ascii.eqb a "\").

Lemma ilike_percent p s : ilike (String "%" p) s = true ↔ ∃ a b, s = a +:+ b ∧ ilike p b = true.
Proof.
  change (ilike (String "%" p) s)
    with ((fix any s := ilike p s || match s with String _ r => any r | EmptyString => false end) s).
  induction s as [|c s IH].
  - rewrite orb_false_r. split; [by exists ""%string, ""%string|]. intros (a & b & E & Hb). by destruct a, b.
  - rewrite orb_true_iff, IH. split.
    + intros [H|(a & b & -> & Hb)]; [by exists ""%string, (String c s)|by exists (String c a), b].
    + intros ([|c' a] & b & E & Hb); [left; by rewrite E|right]. injection E as <- ->. by exists a, b.
Qed.

(** A pattern without wildcards before what is left of it. *)
Lemma ilike_plain q p s : string_forallb plain_char q = true →
  ilike (q +:+ p) s = true ↔ ∃ a b, s = a +:+ b ∧ toLowerCase a = toLowerCase q ∧ ilike p b = true.
Proof.
  revert s. induction q as [|c q IH]; intros s Hq.
  - split; [by exists ""%string, s|]. by intros ([|] & b & -> & E & Hb).
  - cbn [string_forallb] in Hq. apply andb_true_iff in Hq as [[[H1 H2]%andb_true_iff H3]%andb_true_iff Hq].
    change (String c q +:+ p) with (String c (q +:+ p)). cbn [ilike].
    rewrite (proj1 (negb_true_iff _) H1), (proj1 (negb_true_iff _) H2), (proj1 (negb_true_iff _) H3).
    destruct s as [|b s].
    { split; [done|]. by intros ([|] & b & E & E' & Hb). }
    rewrite andb_true_iff, (IH s Hq). split.
    + intros [Hc%Ascii.eqb_eq (a & b' & -> & E & Hb)]. exists (String b a), b'. cbn [toLowerCase]. by rewrite E, Hc.
    + intros ([|b0 a] & b' & E & E' & Hb); [done|]. injection E as <- ->. cbn [toLowerCase] in E'. injection E' as Ec Ea.
      split; [by apply Ascii.eqb_eq|by exists a, b'].
Qed.

(** ** Holdings *)
Definition id_amount (t : string) (h : Holding) : Z := if String.eqb (ho_tokenId h) t then ho_amountAtoms h else 0.
Definition id_count (t : string) (h : Holding) : Z := if String.eqb (ho_tokenId h) t then ho_utxoCount h else 0.
Definition row_amount (t : string) (u : UtxoRow) : Z := if String.eqb (ur_tokenId u) t then ur_amountAtoms u else 0.
Definition row_count (t : string) (u : UtxoRow) : Z := if String.eqb (ur_tokenId u) t then 1 else 0.

Lemma holding_add_spec m u :
  (∀ t, t ∈ ho_tokenId <$> holding_add m u ↔ t = ur_tokenId u ∨ t ∈ ho_tokenId <$> m)
  ∧ (NoDup (ho_tokenId <$> m) → NoDup (ho_tokenId <$> holding_add m u))
  ∧ ∀ t, zsum (id_amount t <$> holding_add m u) = zsum (id_amount t <$> m) + row_amount t u
       ∧ zsum (id_count t <$> holding_add m u) = zsum (id_count t <$> m) + row_count t u.
Proof.
  induction m as [|h m (H1 & H2 & H3)]; cbn [holding_add].
  { split_and!; [intros t; cbn; set_solver|intros _; apply NoDup_singleton|].
    intros t. cbn. unfold id_amount, id_count, row_amount, row_count. cbn. destruct (String.eqb _ t); lia. }
  destruct (String.eqb_spec (ho_tokenId h) (ur_tokenId u)) as [E|E].
  - split_and!; [intros t; cbn; set_solver|done|]. intros t. cbn. unfold zsum. cbn.
    unfold id_amount, id_count, row_amount, row_count. cbn. rewrite E. destruct (String.eqb (ur_tokenId u) t); lia.
  - split_and!.
    + intros t. cbn. specialize (H1 t). set_solver.
    + cbn. intros [Hn Hd]%NoDup_cons. apply NoDup_cons. split; [|auto]. rewrite H1. by intros [?|?].
    + intros t. destruct (H3 t) as [Ha Hc]. cbn. unfold zsum in *. cbn. lia.
Qed.

Lemma holdings_spec us :
  let hs := foldl holding_add [] us in
  (∀ t, t ∈ ho_tokenId <$> hs ↔ ∃ u, u ∈ us ∧ ur_tokenId u = t)
  ∧ NoDup (ho_tokenId <$> hs)
  ∧ ∀ t, zsum (id_amount t <$> hs) = zsum (row_amount t <$> us) ∧ zsum (id_count t <$> hs) = zsum (row_count t <$> us).
Proof.
  assert (∀ m, NoDup (ho_tokenId <$> m) → let hs := foldl holding_add m us in
    (∀ t, t ∈ ho_tokenId <$> hs ↔ (∃ u, u ∈ us ∧ ur_tokenId u = t) ∨ t ∈ ho_tokenId <$> m)
    ∧ NoDup (ho_tokenId <$> hs)
    ∧ ∀ t, zsum (id_amount t <$> hs) = zsum (id_amount t <$> m) + zsum (row_amount t <$> us)
         ∧ zsum (id_count t <$> hs) = zsum (id_count t <$> m) + zsum (row_count t <$> us)) as H.
  { induction us as [|u us IH]; intros m Hm; cbn [foldl].
    { split_and!; [intros t; set_solver|done|intros t; cbn; lia]. }
    destruct (holding_add_spec m u) as (H1 & H2 & H3). destruct (IH _ (H2 Hm)) as (I1 & I2 & I3). split_and!; [|done|].
    - intros t. rewrite I1, H1. set_solver.
    - intros t. destruct (I3 t) as [-> ->], (H3 t) as [-> ->]. cbn. unfold zsum. cbn. lia. }
  destruct (H [] (NoDup_nil_2)) as (H1 & H2 & H3). split_and!; [|done|intros t; apply H3].
  intros t. rewrite H1. set_solver.
Qed.

(** With one entry to an id, what the entries of an id add up to is its entry. *)
Lemma single_entry (f : string → Holding → Z) (g : Holding → Z) m h :
  (∀ t x, f t x = if String.eqb (ho_tokenId x) t then g x else 0) →
  NoDup (ho_tokenId <$> m) → h ∈ m → zsum (f (ho_tokenId h) <$> m) = g h.
Proof.
  intros Hf. assert (∀ t m, t ∉ ho_tokenId <$> m → zsum (f t <$> m) = 0) as H0.
  { intros t l. induction l as [|x l IH]; [done|]. cbn. intros [Hne Hn]%not_elem_of_cons. unfold zsum in *. cbn.
    rewrite (IH Hn), Hf, (proj2 (String.eqb_neq _ _)) by congruence. lia. }
  induction m as [|x m IH]; [by intros _ ?%elem_of_nil|]. cbn [fmap list_fmap]. intros [Hn Hd]%NoDup_cons [->|Hin]%elem_of_cons.
  - change (f (ho_tokenId x) x + zsum (f (ho_tokenId x) <$> m) = g x). rewrite (H0 _ _ Hn), Hf, String.eqb_refl. lia.
  - change (f (ho_tokenId h) x + zsum (f (ho_tokenId h) <$> m) = g h). rewrite (IH Hd Hin), Hf.
    rewrite (proj2 (String.eqb_neq _ _)); [lia|]. intros E. apply Hn. rewrite E. by apply list_elem_of_fmap_2.
Qed.

#[local] Instance string_leP_trans : Transitive string_leP.
Proof. intros a b c. unfold string_leP. apply transitivity. Qed.
#[local] Instance string_leP_total : Total string_leP.
Proof. intros a b. unfold string_leP. apply bytes_leP_total. Qed.

(** The entries come in the order of their ids. *)
Lemma holdings_sorted m : StronglySorted string_leP (ho_tokenId <$> js_sort id_before m).
Proof.
  assert (∀ h l, StronglySorted string_leP (ho_tokenId <$> l) → StronglySorted string_leP (ho_tokenId <$> insert_before id_before h l)) as H.
  { intros h l. induction l as [|x l IH]; [by repeat constructor|]. cbn [fmap list_fmap insert_before]. intros Hs.
    pose proof Hs as [Hl Hx]%StronglySorted_inv. unfold id_before at 1.
    destruct (bool_decide (string_leP (ho_tokenId h) (ho_tokenId x))) eqn:E; cbn [andb].
    - apply bool_decide_eq_true in E.
      assert (StronglySorted string_leP (ho_tokenId h :: ho_tokenId x :: (ho_tokenId <$> l))) as Hcons.
      { constructor; [done|]. constructor; [done|]. eapply Forall_impl; [exact Hx|]. intros y. by apply transitivity. }
      destruct (String.eqb_spec (ho_tokenId h) (ho_tokenId x)) as [Eh|]; cbn [negb]; [|done].
      cbn [fmap list_fmap]. constructor; [by apply IH|]. rewrite (fmap_Permutation ho_tokenId _ _ (insert_before_perm id_before h l)).
      cbn [fmap list_fmap]. constructor; [by rewrite Eh in E |- *|done].
    - apply bool_decide_eq_false in E. destruct (string_leP_total (ho_tokenId h) (ho_tokenId x)) as [?|Hle]; [done|].
      cbn [fmap list_fmap]. constructor; [by apply IH|]. rewrite (fmap_Permutation ho_tokenId _ _ (insert_before_perm id_before h l)).
      by constructor. }
  unfold js_sort. assert (StronglySorted string_leP (ho_tokenId <$> [])) as H0 by constructor. revert H0. generalize (@nil Holding).
  induction m as [|h m IH]; intros acc Hs; cbn [foldl]; [done|]. by apply IH, H.
Qed.

Section Lockstep.
Context {C : Crypto} {B : Bitcoin} {L : Locale} {PG : Postgres}.
Context (config : V3IndexerConfig).

Definition carrier_of (t s : string) (u : V3TokenUtxo) : bool := String.eqb (tu_tokenId u) t && String.eqb (tu_scriptPubKey u) s.

(** the portfolio of a wallet is what the index says it holds: one entry for each
    token of which a live carrier pays its script, in the order of their ids,
    with what those carriers hold together, which is what the balance query
    answers, and how many they are. *)
Theorem portfolio_on_index bs d st market s :
  lockstep config bs d st →
  let carriers := (map_to_list (tokenUtxos st)).*2 in
  let hs := wpf_holdings (getWalletPortfolio d market s) in
  NoDup (ho_tokenId <$> hs) ∧ StronglySorted string_leP (ho_tokenId <$> hs)
  ∧ (∀ t, t ∈ ho_tokenId <$> hs ↔ ∃ u, u ∈ carriers ∧ carrier_of t s u = true)
  ∧ ∀ h, h ∈ hs →
      ho_amountAtoms h = getWalletBalanceAtoms d (ho_tokenId h) s
      ∧ ho_amountAtoms h = balanceByScript carriers (ho_tokenId h) s
      ∧ ho_utxoCount h = Z.of_nat (length (List.filter (carrier_of (ho_tokenId h) s) carriers)).
Proof.
  intros (U & Hh & [[_ _ Hu] _ _ _] & _) carriers hs. pose proof (history_sound _ _ _ _ Hh) as [_ _ Hl _ _ _ _].
  set (us := getTokenUtxosByScriptDb d s). destruct (holdings_spec us) as (H1 & H2 & H3).
  pose proof (js_sort_perm id_before (foldl holding_add [] us)) as Hp. change (js_sort _ _) with hs in Hp.
  assert (utxo_of_row <$> us ≡ₚ List.filter (λ u, String.eqb (tu_scriptPubKey u) s) carriers) as Hus
    by by apply (selected_utxos (coveV3TokenUtxos d) U _ _ (λ r, String.eqb (ur_scriptPubKey r) s)).
  split_and!.
  - by rewrite Hp.
  - apply holdings_sorted.
  - intros t. rewrite Hp, H1. transitivity (∃ u, u ∈ utxo_of_row <$> us ∧ tu_tokenId u = t).
    + split; [intros (u & Hin & <-); exists (utxo_of_row u); split; [by apply list_elem_of_fmap_2|done]|].
      by intros (? & (u & -> & Hin)%list_elem_of_fmap & <-); exists u.
    + unfold carrier_of. setoid_rewrite Hus. setoid_rewrite list_elem_of_In. setoid_rewrite filter_In.
      setoid_rewrite andb_true_iff. setoid_rewrite String.eqb_eq. naive_solver.
  - intros h Hin. rewrite Hp in Hin. destruct (H3 (ho_tokenId h)) as [Ha Hc].
    rewrite (single_entry id_amount ho_amountAtoms _ _ (λ _ _, eq_refl) H2 Hin) in Ha.
    rewrite (single_entry id_count ho_utxoCount _ _ (λ _ _, eq_refl) H2 Hin) in Hc.
    set (amt := λ t u, if String.eqb (tu_tokenId u) t then tu_amountAtoms u else 0).
    set (one := λ t u, if String.eqb (tu_tokenId u) t then 1 else 0).
    assert (ho_amountAtoms h = balanceByScript carriers (ho_tokenId h) s) as E.
    { rewrite Ha, balanceByScript_sum. change (row_amount (ho_tokenId h)) with (amt (ho_tokenId h) ∘ utxo_of_row).
      rewrite list_fmap_compose, (zsum_list_perm _ _ _ Hus). unfold ReadInv.held, amt. clear.
      induction carriers as [|u l IH]; [done|]. cbn [List.filter fmap list_fmap]. unfold zsum in *.
      destruct (String.eqb (tu_scriptPubKey u) s); cbn [fmap list_fmap foldr]; rewrite IH; destruct (String.eqb (tu_tokenId u) (ho_tokenId h)); cbn; lia. }
    split_and!; [|done|].
    + unfold getWalletBalanceAtoms. by rewrite (getBalanceByScriptDb_carriers d U _ _ s Hu Hl).
    + rewrite Hc. change (row_count (ho_tokenId h)) with (one (ho_tokenId h) ∘ utxo_of_row).
      rewrite list_fmap_compose, (zsum_list_perm _ _ _ Hus). unfold carrier_of, one. clear.
      induction carriers as [|u l IH]; [done|]. cbn [List.filter]. unfold zsum in *.
      destruct (String.eqb (tu_scriptPubKey u) s); cbn [fmap list_fmap foldr]; rewrite ?IH; destruct (String.eqb (tu_tokenId u) (ho_tokenId h)); cbn; lia.
Qed.

Lemma tokenHolders_scripts us t s : s ∈ (tokenHolders us t).*1 ↔ ∃ u, u ∈ us ∧ tu_tokenId u = t ∧ tu_scriptPubKey u = s.
Proof.
  unfold tokenHolders. assert (∀ m, s ∈ (foldl (λ m u, if String.eqb (tu_tokenId u) t
      then holder_add m (tu_scriptPubKey u) (tu_amountAtoms u) else m) m us).*1
    ↔ s ∈ m.*1 ∨ ∃ u, u ∈ us ∧ tu_tokenId u = t ∧ tu_scriptPubKey u = s) as H.
  { induction us as [|u us IH]; intros m; cbn [foldl]; [set_solver|]. rewrite IH.
    destruct (String.eqb_spec (tu_tokenId u) t) as [Et|Et]; [|set_solver].
    destruct (holder_add_spec m (tu_scriptPubKey u) (tu_amountAtoms u)) as [H1 _]. rewrite H1. set_solver. }
  rewrite H. cbn. set_solver.
Qed.

(** The holders a summary counts are those the holders' query lists. *)
Lemma holder_count_holders d ids t : t ∈ ids → holder_count d ids t = Z.of_nat (length (getTokenHoldersDb d t)).
Proof.
  intros Ht. unfold holder_count, getTokenHoldersDb. f_equal.
  destruct (tokenHolders_spec (utxo_of_row <$> token_utxo_rows d t) t) as [Hn _]. rewrite <- (length_fmap fst (tokenHolders _ t)).
  apply Permutation_length, NoDup_Permutation; [apply NoDup_remove_dups|done|]. intros s.
  rewrite elem_of_remove_dups, tokenHolders_scripts. split.
  - intros (u & -> & Hu)%list_elem_of_fmap. apply list_elem_of_In, filter_In in Hu as [Hu%list_elem_of_In Et%String.eqb_eq].
    apply elem_of_select in Hu as [Hu [Hlive _]%andb_true_iff]. exists (utxo_of_row u). split_and!; [|done|done].
    apply list_elem_of_fmap_2, elem_of_select. by rewrite Hlive, Et, String.eqb_refl.
  - intros (? & (u & -> & Hu)%list_elem_of_fmap & Et & <-). apply elem_of_select in Hu as [Hu [_ Hlive]%andb_true_iff].
    apply (list_elem_of_fmap_2 ur_scriptPubKey _ u), list_elem_of_In, filter_In. split; [|by apply String.eqb_eq].
    apply list_elem_of_In, elem_of_select. rewrite Hlive. cbn in Et. rewrite Et. split; [done|]. cbn.
    apply existsb_exists. exists t. split; [by apply list_elem_of_In|apply String.eqb_refl].
Qed.

Lemma minimum_spec l :
  match minimum l with None => l = [] | Some x => x ∈ l ∧ Forall (λ y, x ≤ y) l end.
Proof.
  induction l as [|x l IH]; [done|]. cbn [minimum]. destruct (minimum l) as [y|].
  - destruct IH as [Hin Hf]. split.
    + destruct (Z.min_spec x y) as [[_ ->]|[_ ->]]; [by left|by right].
    + constructor; [lia|]. eapply Forall_impl; [exact Hf|]. cbn. lia.
  - subst. split; [by left|by repeat constructor].
Qed.

(** An active listing of a token. *)
Definition on_offer (market : MarketDb) (t : string) (l : ListingRow) : Prop :=
  l ∈ md_listings market ∧ lr_status l = LActive ∧ l_tokenId (lr_order l) = t.

Lemma ask_rows_offers market ids t l : t ∈ ids → l ∈ ask_rows market ids t ↔ on_offer market t l.
Proof.
  intros Ht. unfold ask_rows, on_offer. rewrite list_elem_of_In, filter_In, <- list_elem_of_In, elem_of_select, andb_true_iff,
    bool_decide_eq_true, String.eqb_eq. split; [naive_solver|]. intros (H1 & H2 & H3). split_and!; [done..| |done].
  rewrite H3. apply existsb_exists. exists t. split; [by apply list_elem_of_In|apply String.eqb_refl].
Qed.

(** the page of a token shows what the index says of it: its supply and what is
    left of the cap, its backing and where that is, whether the cap is reached,
    and as many holders as the holders' query lists; the best ask is the least
    price of an active listing, if there is one.  A token the index does not
    know has no page. *)
Theorem token_detail_on_index bs d st market metadata t :
  lockstep config bs d st →
  match backing st !! t with
  | None => getV3TokenDetail d market metadata t = None
  | Some b => ∃ x m, getV3TokenDetail d market metadata t = Some x
      ∧ tokens st !! t = Some m ∧ su_tokenId x = t ∧ su_ticker x = tm_ticker m ∧ su_deployTxid x = tm_deployTxid m
      ∧ su_issuedSupplyAtoms x = issuedPublicSupplyAtoms (bk_state b)
      ∧ 0 ≤ su_remainingCapacityAtoms x ∧ su_issuedSupplyAtoms x + su_remainingCapacityAtoms x = PUBLIC_SUPPLY_ATOMS
      ∧ su_graduated x = bool_decide (su_remainingCapacityAtoms x = 0)
      ∧ su_backingSats x = backingSats (bk_state b) ∧ su_backingOutpoint x = bk_outpoint b ∧ su_stateHash x = bk_stateHash b
      ∧ su_holderCount x = Z.of_nat (length (getTokenHoldersDb d t))
      ∧ match su_bestAskSats x with
        | None => ¬ ∃ l, on_offer market t l
        | Some p => (∃ l, on_offer market t l ∧ totalPriceSats (lr_order l) = p)
                    ∧ ∀ l, on_offer market t l → p ≤ totalPriceSats (lr_order l)
        end
  end.
Proof.
  intros (U & Hh & Hst & _). pose proof (so_wf _ _ _ _ (history_sound config _ _ _ Hh)) as Hwf.
  pose proof Hst as [[Htok _ _] _ _ _].
  assert (select (λ r, tr_canonical r && in_array [t] (tr_tokenId r)) (coveV3Tokens d) = option_list (tok_rows (tokens st) !! t)) as Hsel.
  { rewrite <- (selected_row tr_tokenId tr_canonical _ _ t Htok).
    - unfold select. f_equal. apply List.filter_ext. intros r. unfold in_array. cbn. by rewrite orb_false_r, andb_comm.
    - intros r Hr. apply (tb_rows _ _ _ Htok) in Hr. unfold tok_rows in Hr. rewrite lookup_fmap in Hr.
      by apply fmap_Some in Hr as (m & _ & ->). }
  unfold getV3TokenDetail, loadSummaries. rewrite Hsel. unfold tok_rows. rewrite lookup_fmap.
  pose proof (wf_tokens _ _ Hwf t) as Hk. destruct (backing st !! t) as [b|] eqn:Eb.
  2:{ destruct (tokens st !! t); [|done]. by destruct (proj1 Hk) as [? ?]. }
  destruct (tokens st !! t) as [m|] eqn:Em; [|by destruct (proj2 Hk) as [? ?]].
  destruct (wf_meta _ _ Hwf _ _ Em) as [Et _]. cbn [fmap option_fmap option_map option_list list_fmap head].
  assert (map_by kr_tokenId (select kr_canonical (coveV3BackingStates d)) !! t = Some (backingRow b)) as Hb.
  { change (monitored_backings d !! t = Some (backingRow b)).
    rewrite (monitored_backings_lookup d st U t Hst (backing_keyed_wf config _ Hwf)). by rewrite Eb. }
  destruct (wf_backing _ _ Hwf _ _ Eb) as [_ _ Hv _ _ _]. apply validateStateV2_Ok in Hv as (_ & k & Hk' & Es).
  assert (0 ≤ PUBLIC_SUPPLY_ATOMS - issuedPublicSupplyAtoms (bk_state b)) as Hcap.
  { rewrite Es. cbn [issuedPublicSupplyAtoms state_at]. change PUBLIC_SUPPLY_ATOMS with (MAX_LOTS * LOT_ATOMS).
    assert (0 < LOT_ATOMS) by by vm_compute. nia. }
  eexists _, m. split; [reflexivity|]. unfold summary. cbn [tr_tokenId tr_ticker tr_deployTxid token_row]. rewrite Et, Hb.
  cbn [fmap option_fmap option_map default from_option]. cbn [kr_issuedSupplyAtoms backingRow].
  change (tr_tokenId <$> option_list (Some (token_row t m))) with [t].
  rewrite (proj2 (Z.ltb_ge _ 0)) by done. split_and!; try done.
  - cbn. lia.
  - cbn -[PUBLIC_SUPPLY_ATOMS Z.sub]. apply eq_true_iff_eq. rewrite bool_decide_eq_true, Z.leb_le. unfold id. lia.
  - unfold id, row_outpoint. cbn. by destruct (bk_outpoint b).
  - apply holder_count_holders. by left.
  - cbn [su_bestAskSats]. set (asks := ask_rows market [t] t).
    assert (∀ l, l ∈ asks ↔ on_offer market t l) as Ha by (intros l; apply ask_rows_offers; by left).
    pose proof (minimum_spec ((λ l, totalPriceSats (lr_order l)) <$> asks)) as Hm. destruct (minimum _) as [p|].
    + destruct Hm as [(l & -> & Hl)%list_elem_of_fmap Hf]. split; [exists l; split; [by apply Ha|done]|].
      intros l' Hl'%Ha. rewrite Forall_fmap, Forall_forall in Hf. by apply (Hf l').
    + apply fmap_nil_inv in Hm. intros (l & Hl%Ha). rewrite Hm in Hl. by apply elem_of_nil in Hl.
Qed.
End Lockstep.
