(* ===== verification/AppSigner.v ===== *)
(** * The application's signer: packages/cove-app/src/transition-signer.ts

    Which transition signer a process gets from its configuration, and the watch
    that stops a process whose mainnet profile is not the Guardian's. *)
From S2P Require Import Prelude Bytes Wire Covenant Simplicity Vault Indexer Spend AuditLog Profile Guardian Journal Signing AppConfig AppFunding.

Definition failClosedTransport {T : Type} (wire : GuardianSignRequestWire) (t : T) : result GuardianSignResponseWire * T :=
  (Throw (js_error "guardian endpoint not configured"), t).
Definition failClosedHealth : result GuardianHealthWire := Throw (js_error "guardian endpoint not configured").

Definition DEV_RISK_POLICY : GuardianRiskPolicy := {|
  rp_maxGrossSats := 200000; rp_maxMintAtoms := 1000000000 * 100000000; rp_minMintGrossSats := 0;
  rp_maxRedeemPayoutSats := 1000000; rp_maxBackingSats := 100000000000000; rp_maxMinerFeeSats := 20000;
  rp_allowedTokenIds := []; rp_enforceTokenAllowlist := false |}.

Definition local_risk_policy (config : V3AppConfig) : GuardianRiskPolicy :=
  let p := DEV_RISK_POLICY in {|
  rp_maxGrossSats := default (rp_maxGrossSats p) (ac_mintLimits config ≫= ml_maxGrossSats);
  rp_maxMintAtoms := rp_maxMintAtoms p; rp_minMintGrossSats := rp_minMintGrossSats p;
  rp_maxRedeemPayoutSats := rp_maxRedeemPayoutSats p; rp_maxBackingSats := rp_maxBackingSats p;
  rp_maxMinerFeeSats := ac_maxMinerFeeSats config;
  rp_allowedTokenIds := rp_allowedTokenIds p; rp_enforceTokenAllowlist := rp_enforceTokenAllowlist p |}.

(** [GuardianTransitionSigner]: the two classes, with what they were made from.
    The endpoint and token of the HTTP transport, or [None] for the transport
    that fails. *)
Inductive AppTransitionSigner :=
  | LocalSigner (backend : GuardianSigningBackend) (auditProfile : VaultProfileVersion) (riskPolicy : GuardianRiskPolicy)
  | RemoteSigner (transport : option (string * string)) (guardian : RemoteGuardian).

Section Signer.
Context {C : Crypto} {B : BitcoinJs} {E : Ecc}.

Definition buildAppTransitionSigner (config : V3AppConfig) : result AppTransitionSigner :=
  match ac_network config with
  | Mainnet => Ok (RemoteSigner
      ((λ endpoint, (endpoint, default ""%string (ac_guardianAuthToken config))) <$> truthy (ac_guardianEndpoint config))
      {| rg_expectedProfileHash := default ""%string (ac_mainnetProfileHash config);
         rg_expectedGuardianXOnly := toHex (ac_guardianXOnly config) |})
  | _ =>
      key ← of_option (AppError "GUARDIAN_UNAVAILABLE" "local Guardian key required for non-mainnet signing")
              (ac_guardianPrivateKey config);
      signer ← GuardianV3Signer_fromPrivateKey key;
      Ok (LocalSigner (localSigningBackend signer) (default DEV1 (profileVersion <$> ac_recoveryProfile config))
            (local_risk_policy config))
  end.

(** ** Its two ways to sign *)
Context {J : Type} {SJ : SigningJournalStore J}.
Context (execFile : string → list string → Z → exec_outcome) (bin : option string).
Context (toBase64 : Psbt → string) (fromBase64 : string → result Psbt).
Context (parseBigint : string → result SignedTransitionResult).
(** What [HttpGuardianTransport.sign] brings back from an endpoint. *)
Context (http_sign : string * string → GuardianSignRequestWire → result GuardianSignResponseWire).

Definition app_sign (s : AppTransitionSigner) (req : TransitionSignRequest) (op : GuardianOperation) (env : SignEnv) (j : J)
    : result (TransitionSignOutcome * Psbt) * J :=
  match s with
  | LocalSigner backend _ riskPolicy => (sign execFile bin backend riskPolicy req op env j).1
  | RemoteSigner transport guardian =>
      remote_sign toBase64 fromBase64 parseBigint
        (match transport with Some endpoint => λ wire j, (http_sign endpoint wire, j) | None => failClosedTransport end)
        guardian (env_requestId env) req op j
  end.

(** without an endpoint nothing is signed on mainnet: the answer is a refusal or
    an error, the PSBT comes back as it was, and no local key is used. *)
Theorem no_endpoint_no_signature config s req op env j r j' :
  ac_network config = Mainnet → truthy (ac_guardianEndpoint config) = None →
  buildAppTransitionSigner config = Ok s → app_sign s req op env j = (r, j') →
  j' = j ∧ match r with
           | Ok (Signed _, _) => False
           | Ok (Refused reason _ _, psbt) =>
               (reason = "REMOTE_GUARDIAN_UNAVAILABLE" ∨ reason = "BAD_PSBT")%string ∧ psbt = tr_psbt req
           | Throw e => decodeCoveOpReturn (tr_psbt req) = Throw e
           end.
Proof.
  intros Hn He Hb. unfold buildAppTransitionSigner in Hb. rewrite Hn, He in Hb. injection Hb as <-. cbn [app_sign fmap option_fmap option_map].
  unfold remote_sign. destruct (decodeCoveOpReturn (tr_psbt req)) as [m|e]; [|by intros [= <- <-]].
  destruct m; unfold failClosedTransport; intros [= <- <-]; (split; [done|split; [|done]]); ((by left) || by right).
Qed.

(** off mainnet the signer has the key of the configuration, and the limits of
    the development policy but for the fee and the size of a mint. *)
Theorem local_signer_policy config s :
  ac_network config ≠ Mainnet → buildAppTransitionSigner config = Ok s →
  ∃ key signer v, ac_guardianPrivateKey config = Some key ∧ GuardianV3Signer_fromPrivateKey key = Ok signer
  ∧ s = LocalSigner (localSigningBackend signer) v (local_risk_policy config).
Proof.
  intros Hn Hb. unfold buildAppTransitionSigner in Hb. destruct (ac_network config) eqn:En; try done.
  all: apply bind_Ok in Hb as (key & Hk & Hb); apply of_option_Ok in Hk; apply bind_Ok in Hb as (signer & Hs & Hb); injection Hb as <-;
    by exists key, signer, (default DEV1 (profileVersion <$> ac_recoveryProfile config)).
Qed.
End Signer.

(** ** watchGuardianAgreement *)
Inductive WatchVerdict := NotWatched | Agrees | Refuses (reason : string) | Retrying.

Definition watch_answer (g : RemoteGuardian) (answer : result GuardianHealthWire) : WatchVerdict :=
  match remote_health g answer with
  | None => Agrees
  | Some reason =>
      if String.prefix "GUARDIAN_PROFILE_MISMATCH" reason || String.eqb reason "GUARDIAN_KEY_MISMATCH" then Refuses reason
      else Retrying
  end.

(** The checks, one retry after the other, on the answers so far. *)
Fixpoint watch_checks (g : RemoteGuardian) (answers : list (result GuardianHealthWire)) : WatchVerdict :=
  match answers with
  | [] => Retrying
  | a :: answers => match watch_answer g a with Retrying => watch_checks g answers | v => v end
  end.

Definition watchGuardianAgreement (config : V3AppConfig) (g : RemoteGuardian) (answers : list (result GuardianHealthWire)) : WatchVerdict :=
  match ac_network config with
  | Mainnet =>
      match truthy (ac_guardianEndpoint config) with
      | None => Refuses "COVE_GUARDIAN_ENDPOINT is not set, so the profile cannot be compared with the Guardian's"
      | Some _ => watch_checks g answers
      end
  | _ => NotWatched
  end.

(** A Guardian that reports the profile and the key that are expected. *)
Definition reports_agreement (g : RemoteGuardian) (answer : result GuardianHealthWire) : Prop :=
  ∃ h, answer = Ok h ∧ gh_reachable h = true ∧ gh_profileHash h = rg_expectedProfileHash g
  ∧ toLowerCase (gh_guardianXOnly h) = toLowerCase (rg_expectedGuardianXOnly g).

(** One that is reached and reports another. *)
Definition reports_mismatch (g : RemoteGuardian) (answer : result GuardianHealthWire) : Prop :=
  ∃ h, answer = Ok h ∧ gh_reachable h = true
  ∧ ¬ (gh_profileHash h = rg_expectedProfileHash g ∧ toLowerCase (gh_guardianXOnly h) = toLowerCase (rg_expectedGuardianXOnly g)).

Lemma watch_answer_spec g a :
  match watch_answer g a with
  | Agrees => reports_agreement g a
  | Refuses _ => reports_mismatch g a ∨ ∃ e, a = Throw e
  | Retrying => ¬ reports_agreement g a ∧ ¬ reports_mismatch g a
  | NotWatched => False
  end.
Proof.
  unfold watch_answer, remote_health, reports_agreement, reports_mismatch. destruct a as [h|e].
  2:{ destruct (_ || _); [by right; exists e|naive_solver]. }
  destruct (gh_reachable h) eqn:Er; cbn [negb]; [|cbn; split; intros (h' & [= <-] & ? & _); congruence].
  destruct (String.eqb_spec (gh_profileHash h) (rg_expectedProfileHash g)) as [Ep|Ep]; cbn [negb].
  2:{ cbn. left. exists h. naive_solver. }
  destruct (String.eqb_spec (toLowerCase (gh_guardianXOnly h)) (toLowerCase (rg_expectedGuardianXOnly g))) as [Ek|Ek]; cbn [negb].
  - by exists h.
  - cbn. left. exists h. naive_solver.
Qed.

(** the watch of a process on mainnet agrees only on the report of a Guardian with
    its own profile and key; a Guardian that answered before it was not reached;
    and a process whose Guardian reports another profile or key does not go on. *)
Theorem watch_sound config g answers :
  ac_network config = Mainnet →
  match watchGuardianAgreement config g answers with
  | NotWatched => False
  | Agrees => ∃ before a after, answers = before ++ a :: after ∧ reports_agreement g a
      ∧ Forall (λ a, ¬ reports_mismatch g a) before
  | Refuses _ => truthy (ac_guardianEndpoint config) = None ∨ ∃ a, a ∈ answers ∧ (reports_mismatch g a ∨ ∃ e, a = Throw e)
  | Retrying => Forall (λ a, ¬ reports_agreement g a ∧ ¬ reports_mismatch g a) answers
  end.
Proof.
  intros Hn. unfold watchGuardianAgreement. rewrite Hn. destruct (truthy (ac_guardianEndpoint config)) as [u|]; [|by left].
  induction answers as [|a answers IH]; cbn [watch_checks]; [by constructor|]. pose proof (watch_answer_spec g a) as Ha.
  destruct (watch_answer g a) as [| |reason|]; [done| | |].
  - by exists [], a, answers.
  - right. exists a. split; [by left|done].
  - destruct (watch_checks g answers) as [| |reason|]; [done| | |].
    + destruct IH as (before & x & after & -> & Hx & Hb). exists (a :: before), x, after. split_and!; [done..|]. by constructor; [apply Ha|].
    + destruct IH as [?|(x & Hx & ?)]; [by left|]. right. exists x. split; [by right|done].
    + by constructor.
Qed.
