(* ===== verification/RateLimit.v ===== *)
(** * Rate limits

    The two fixed-window limiters: [FixedWindowRateLimiter] of the web API
    (packages/cove-app/src/rate-limit.ts), whose windows are aligned on the
    clock, and that of the Guardian service (apps/guardian/src/auth.ts), whose
    windows start with a call.  Each is a step on a map of its windows; the
    theorems bound what any sequence of calls gets through. *)
From S2P Require Import Prelude.

(** The entries of [l] that satisfy [p]. *)
Definition tally {A} (p : A → bool) (l : list A) : Z := zsum ((λ a, if p a then 1 else 0) <$> l).

Lemma tally_cons {A} (p : A → bool) a l : tally p (a :: l) = (if p a then 1 else 0) + tally p l.
Proof. done. Qed.

Lemma tally_none {A} (p : A → bool) l : Forall (λ a, p a = false) l → tally p l = 0.
Proof. induction 1 as [|a l Ha _ IH]; [done|]. by rewrite tally_cons, Ha, IH. Qed.

(** Times that never go back. *)
Definition ordered {A} (at_ : A → Z) : list A → Prop := StronglySorted (λ a b, at_ a ≤ at_ b).

(** ** apps/guardian/src/auth.ts *)
Module GuardianLimiter.
Record Bucket := { count : Z; windowStart : Z }.

Section Limiter.
Context (windowMs maxRequests : Z).

Definition allow (key : string) (now : Z) (buckets : gmap string Bucket) : bool * gmap string Bucket :=
  let start := (true, <[key := {| count := 1; windowStart := now |}]> buckets) in
  match buckets !! key with
  | None => start
  | Some b =>
      if windowMs <=? now - windowStart b then start
      else let n := count b + 1 in
           (n <=? maxRequests, <[key := {| count := n; windowStart := windowStart b |}]> buckets)
  end.

(** A call and its verdict. *)
Record Call := { c_key : string; c_now : Z; c_allowed : bool }.

Inductive calls : gmap string Bucket → list Call → gmap string Bucket → Prop :=
  | calls_nil m : calls m [] m
  | calls_cons m key now ok m1 cs m2 :
      allow key now m = (ok, m1) → calls m1 cs m2 →
      calls m ({| c_key := key; c_now := now; c_allowed := ok |} :: cs) m2.

(** The calls of a key let through in [[from, from + windowMs)]. *)
Definition let_through (key : string) (from : Z) (c : Call) : bool :=
  c_allowed c && String.eqb (c_key c) key && (from <=? c_now c) && (c_now c <? from + windowMs).

Definition window_bound : Z := Z.max 0 (maxRequests - 1) + Z.max 1 maxRequests.

Definition counted (m : gmap string Bucket) : Prop := ∀ k b, m !! k = Some b → 1 ≤ count b.

(** What a key can still get through when no call comes before [from]. *)
Definition left_over (from : Z) (b : option Bucket) : Z :=
  match b with
  | None => Z.max 1 maxRequests
  | Some b => Z.max 0 (maxRequests - count b) + if windowStart b <? from then Z.max 1 maxRequests else 0
  end.

Lemma allow_counted key now m ok m' : counted m → allow key now m = (ok, m') → counted m'.
Proof.
  intros Hm H k b Hk. unfold allow in H. destruct (decide (k = key)) as [->|Hne].
  - destruct (m !! key) as [b0|] eqn:E; [specialize (Hm _ _ E)|]; [case_match|]; injection H as _ <-;
      rewrite lookup_insert_eq in Hk; injection Hk as <-; cbn; lia.
  - apply (Hm k). rewrite <- Hk. destruct (m !! key) as [b0|]; [case_match|]; injection H as _ <-;
      by rewrite lookup_insert_ne.
Qed.

Lemma allow_left key from now key' m ok m' :
  from ≤ now < from + windowMs → allow key' now m = (ok, m') →
  left_over from (m' !! key) + (if let_through key from {| c_key := key'; c_now := now; c_allowed := ok |} then 1 else 0)
  ≤ left_over from (m !! key).
Proof.
  intros Hn H. unfold allow in H. unfold let_through. cbn [c_key c_now c_allowed].
  destruct (String.eqb_spec key' key) as [->|Hne].
  - destruct (m !! key) as [b|] eqn:E; [destruct (Z.leb_spec windowMs (now - windowStart b))|]; injection H as <- <-;
      rewrite lookup_insert_eq; unfold left_over; cbn [count windowStart andb]; repeat case_match; to_prop; try lia.
  - assert (m' !! key = m !! key) as ->.
    { destruct (m !! key') as [b|]; [case_match|]; injection H as _ <-; by rewrite lookup_insert_ne. }
    rewrite andb_false_r. cbn. lia.
Qed.

Lemma left_over_nonneg from b : 0 ≤ left_over from b.
Proof. unfold left_over. repeat case_match; lia. Qed.

Lemma calls_inside key from m cs m' :
  calls m cs m' → ordered c_now cs → Forall (λ c, from ≤ c_now c) cs →
  tally (let_through key from) cs ≤ left_over from (m !! key).
Proof.
  induction 1 as [m|m k now ok m1 cs m2 Ha _ IH]; intros Hs Hf; [cbn; apply left_over_nonneg|].
  apply StronglySorted_inv in Hs as [Hs Hall]. destruct (Z.ltb_spec now (from + windowMs)) as [Hlt|Hge].
  - apply Forall_cons in Hf as [Hn Hf]. cbn in Hn. rewrite tally_cons. specialize (IH Hs Hf).
    pose proof (allow_left key from now k m ok m1 (conj Hn Hlt) Ha). lia.
  - rewrite tally_none; [apply left_over_nonneg|]. assert (∀ c, now ≤ c_now c → let_through key from c = false) as Hno.
    { intros c Hc. unfold let_through. rewrite (proj2 (Z.ltb_ge _ _)) by lia. apply andb_false_r. }
    constructor; [apply Hno; cbn; lia|]. eapply Forall_impl; [exact Hall|]. intros c Hc. by apply Hno.
Qed.

Lemma left_over_bound from b : (∀ x, b = Some x → 1 ≤ count x) → left_over from b ≤ window_bound.
Proof. intros H. unfold left_over, window_bound. destruct b as [b|]; [specialize (H b eq_refl)|]; try case_match; lia. Qed.

(** whatever calls come, as long as the clock does not go back, a key gets at
    most twice the limit, less one, through in any span of a window's length:
    a window that began before the span may let through all but one of its
    calls, and the one that begins in it the limit. *)
Theorem guardian_limiter_bound cs m' key from :
  calls ∅ cs m' → ordered c_now cs → tally (let_through key from) cs ≤ window_bound.
Proof.
  assert (∀ m, counted m → calls m cs m' → ordered c_now cs → tally (let_through key from) cs ≤ window_bound) as H.
  { intros m Hc Hr. induction Hr as [m|m k now ok m1 cs m2 Ha Hr IH]; intros Hs; [unfold window_bound; cbn; lia|].
    pose proof Hs as Hs'. apply StronglySorted_inv in Hs as [Hs Hall]. destruct (Z.ltb_spec now from) as [Hlt|Hge].
    - rewrite tally_cons. assert (let_through key from {| c_key := k; c_now := now; c_allowed := ok |} = false) as ->.
      { unfold let_through. cbn. rewrite (proj2 (Z.leb_gt from now)) by lia. by rewrite andb_false_r. }
      rewrite Z.add_0_l. apply IH; [by eapply allow_counted|done].
    - etrans; [|apply (left_over_bound from (m !! key)); intros x Hx; by apply (Hc key)].
      apply (calls_inside key from m _ m2); [by econstructor|done|]. constructor; [done|].
      eapply Forall_impl; [exact Hall|]. cbn. lia. }
  apply H. intros k b. by rewrite lookup_empty.
Qed.
End Limiter.
End GuardianLimiter.

(** ** packages/cove-app/src/rate-limit.ts *)
Module WebLimiter.
Record RateLimitKey := { scope : string; subject : string; operation : string }.
Record RateLimitConfig := { limit : Z; windowMs : Z }.
Record RateLimitResult := { allowed : bool; remaining : Z; retryAfterMs : Z }.
Record Window := { start : option Z; count : Z }.

Definition key_text (k : RateLimitKey) : string := scope k +:+ ":" +:+ subject k +:+ ":" +:+ operation k.

(** [now - (now % windowMs)]: [None] is NaN, which no number equals. *)
Definition window_start (now w : Z) : option Z := if w =? 0 then None else Some (now - Z.rem now w).

Definition same_start (a b : option Z) : bool :=
  match a, b with Some x, Some y => x =? y | _, _ => false end.

(** The class is a map of windows; [retryAfterMs] is a number, since a window
    that equals [start] has one. *)
Definition check (key : RateLimitKey) (config : RateLimitConfig) (now : Z) (windows : gmap string Window)
    : RateLimitResult * gmap string Window :=
  let k := key_text key in
  let s := window_start now (windowMs config) in
  let fresh := ({| allowed := true; remaining := limit config - 1; retryAfterMs := 0 |},
                <[k := {| start := s; count := 1 |}]> windows) in
  match windows !! k with
  | None => fresh
  | Some w =>
      if negb (same_start (start w) s) then fresh
      else if limit config <=? count w then
        ({| allowed := false; remaining := 0; retryAfterMs := default 0 s + windowMs config - now |}, windows)
      else
        let n := count w + 1 in
        ({| allowed := true; remaining := limit config - n; retryAfterMs := 0 |},
         <[k := {| start := start w; count := n |}]> windows)
  end.

Section Limiter.
Context (config : RateLimitConfig) (Hw : 0 < windowMs config).
#[local] Set Default Proof Using "Type*".

Record Call := { c_key : RateLimitKey; c_now : Z; c_result : RateLimitResult }.

Inductive calls : gmap string Window → list Call → gmap string Window → Prop :=
  | calls_nil m : calls m [] m
  | calls_cons m key now r m1 cs m2 :
      check key config now m = (r, m1) → calls m1 cs m2 →
      calls m ({| c_key := key; c_now := now; c_result := r |} :: cs) m2.

(** The calls of a key let through in the window that starts at [from]. *)
Definition let_through (k : string) (from : Z) (c : Call) : bool :=
  allowed (c_result c) && String.eqb (key_text (c_key c)) k && same_start (window_start (c_now c) (windowMs config)) (Some from).

Definition left_over (from : Z) (w : option Window) : Z :=
  match w with
  | None => Z.max 1 (limit config)
  | Some w => if same_start (start w) (Some from) then Z.max 0 (limit config - count w) else Z.max 1 (limit config)
  end.

(** The windows of the map begin at or before [now]. *)
Definition past (now : Z) (m : gmap string Window) : Prop := ∀ k w, m !! k = Some w → ∃ s, start w = Some s ∧ s ≤ now - Z.rem now (windowMs config).

Lemma window_start_Some now : window_start now (windowMs config) = Some (now - Z.rem now (windowMs config)).
Proof. unfold window_start. rewrite (proj2 (Z.eqb_neq _ _)); [done|lia]. Qed.

Lemma window_start_mono a b : 0 ≤ a ≤ b → a - Z.rem a (windowMs config) ≤ b - Z.rem b (windowMs config).
Proof.
  intros [Ha Hb]. pose proof (Z.quot_rem' a (windowMs config)). pose proof (Z.quot_rem' b (windowMs config)).
  pose proof (Z.quot_le_mono a b (windowMs config) Hw Hb). nia.
Qed.

Lemma check_past key now m r m' : past now m → check key config now m = (r, m') → past now m'.
Proof.
  intros Hm H k w Hk. unfold check in H. rewrite window_start_Some in H.
  assert (∀ x, <[key_text key := x]> m !! k = Some w → (∃ s, start x = Some s ∧ s ≤ now - Z.rem now (windowMs config)) →
    ∃ s, start w = Some s ∧ s ≤ now - Z.rem now (windowMs config)) as Hi.
  { intros x [[_ <-]|[_ Hx]]%lookup_insert_Some; [done|intros _; by apply (Hm k)]. }
  destruct (m !! key_text key) as [w0|] eqn:E.
  - destruct (Hm _ _ E) as (s0 & Es & Hs). rewrite Es in H. cbn in H. repeat case_match; simplify_eq; try (by apply (Hm k));
      (eapply Hi; [exact Hk|cbn; by eexists]).
  - simplify_eq. eapply Hi; [exact Hk|cbn; by eexists].
Qed.

Lemma past_later now now' m : 0 ≤ now ≤ now' → past now m → past now' m.
Proof. intros Hn Hm k w Hk. destruct (Hm k w Hk) as (s & E & Hs). exists s. split; [done|]. pose proof (window_start_mono _ _ Hn). lia. Qed.

(** Once a key's window is past [from], none of its calls counts. *)
Definition gone (from now : Z) : Prop := from < now - Z.rem now (windowMs config).
#[local] Instance gone_dec from now : Decision (gone from now).
Proof using. unfold gone. apply _. Defined.

Lemma check_left k from key now m r m' :
  past now m → ¬ gone from now → check key config now m = (r, m') →
  left_over from (m' !! k) + (if let_through k from {| c_key := key; c_now := now; c_result := r |} then 1 else 0)
  ≤ left_over from (m !! k).
Proof.
  intros Hm Hg H. unfold gone in Hg. unfold check in H. unfold let_through. cbn [c_key c_now c_result].
  rewrite !window_start_Some in *. set (s := now - _) in *. destruct (String.eqb_spec (key_text key) k) as [Ek|Hne].
  - rewrite Ek in H. destruct (m !! k) as [w|] eqn:E.
    + destruct (Hm _ _ E) as (s0 & Es & Hs). rewrite Es in H. cbn [same_start] in H.
      unfold left_over. destruct (Z.eqb_spec s0 s); cbn [negb] in H; [case_match|]; simplify_eq; rewrite ?E, ?lookup_insert_eq;
        cbn [start count allowed andb same_start]; rewrite ?Es; cbn [same_start]; repeat case_match; to_prop; try done; lia.
    + simplify_eq. rewrite lookup_insert_eq. cbn. repeat case_match; to_prop; lia.
  - assert (m' !! k = m !! k) as ->.
    { destruct (m !! key_text key); repeat case_match; simplify_eq; try done; by rewrite lookup_insert_ne. }
    rewrite andb_false_r. cbn. lia.
Qed.

Lemma web_left_over_nonneg from w : 0 ≤ left_over from w.
Proof. unfold left_over. repeat case_match; lia. Qed.

Lemma gone_calls k from cs now :
  0 ≤ now → gone from now → Forall (λ c, now ≤ c_now c) cs → tally (let_through k from) cs = 0.
Proof.
  intros Hn Hg Hf. apply tally_none. eapply Forall_impl; [exact Hf|]. intros c Hc. cbn beta in Hc. unfold let_through.
  rewrite window_start_Some. cbn. pose proof (window_start_mono now (c_now c) ltac:(lia)). unfold gone in Hg.
  rewrite (proj2 (Z.eqb_neq _ _)) by lia. apply andb_false_r.
Qed.

Lemma calls_left k from m cs m' :
  calls m cs m' → (∀ c cs', cs = c :: cs' → past (c_now c) m) → ordered c_now cs → Forall (λ c, 0 ≤ c_now c) cs →
  tally (let_through k from) cs ≤ left_over from (m !! k).
Proof.
  induction 1 as [m|m key now r m1 cs m2 Hc Hr IH]; intros Hp Hs Hf; [cbn; apply web_left_over_nonneg|].
  apply StronglySorted_inv in Hs as [Hs Hall]. apply Forall_cons in Hf as [Hn Hf]. cbn in Hn.
  pose proof (Hp _ _ eq_refl) as Hpm. cbn in Hpm. destruct (decide (gone from now)) as [Hg|Hg].
  - rewrite (gone_calls k from _ now); [apply web_left_over_nonneg|done|done|by constructor; [cbn; lia|]].
  - rewrite tally_cons. pose proof (check_left k from key now m r m1 Hpm Hg Hc).
    assert (tally (let_through k from) cs ≤ left_over from (m1 !! k)); [|lia].
    apply IH; [|done..]. intros c cs' ->. apply (past_later now); [|by eapply check_past].
    split; [done|]. by apply Forall_cons in Hall as [Hc' _].
Qed.

(** whatever calls come, as long as the clock does not go back, a key gets at
    most the limit through in each window of the clock, or one call if the
    limit is less than one. *)
Theorem web_limiter_bound cs m' k from :
  calls ∅ cs m' → ordered c_now cs → Forall (λ c, 0 ≤ c_now c) cs →
  tally (let_through k from) cs ≤ Z.max 1 (limit config).
Proof.
  intros Hr Hs Hf. pose proof (calls_left k from ∅ cs m' Hr) as H. rewrite lookup_empty in H. apply H; [|done..].
  intros c cs' _ k' w. by rewrite lookup_empty.
Qed.

(** a call that is refused is told when to come again: until then the key stays
    refused, and then it is let through. *)
Theorem web_limiter_retry key now m r m' :
  0 ≤ now → past now m → check key config now m = (r, m') → allowed r = false →
  0 < retryAfterMs r ≤ windowMs config ∧ m' = m
  ∧ ∀ later, now ≤ later → allowed (check key config later m').1 = (now + retryAfterMs r <=? later).
Proof.
  intros Hn Hm H Hr. unfold check in H. rewrite window_start_Some in H.
  destruct (m !! key_text key) as [w|] eqn:E; [|by simplify_eq].
  destruct (Hm _ _ E) as (s0 & Es & Hs). rewrite Es in H. cbn [same_start] in H.
  destruct (Z.eqb_spec s0 (now - Z.rem now (windowMs config))) as [E0|]; cbn [negb] in H; [subst s0|by simplify_eq].
  destruct (Z.leb_spec (limit config) (count w)) as [Hl|Hl]; [|by simplify_eq]. simplify_eq. cbn [retryAfterMs default].
  pose proof (Z.rem_bound_pos now (windowMs config) Hn Hw). split_and!; [cbn; lia..|done|].
  intros later Hlater. unfold check. rewrite E, window_start_Some, Es. cbn [same_start].
  pose proof (Z.quot_rem' now (windowMs config)). pose proof (Z.quot_rem' later (windowMs config)).
  pose proof (Z.rem_bound_pos later (windowMs config) ltac:(lia) Hw).
  destruct (Z.eqb_spec (now - Z.rem now (windowMs config)) (later - Z.rem later (windowMs config))) as [Eq|Hne]; cbn [negb].
  - rewrite (proj2 (Z.leb_le (limit config) _)) by done. cbn. symmetry. apply Z.leb_gt. lia.
  - cbn. symmetry. apply Z.leb_le. pose proof (Z.quot_le_mono now later (windowMs config) Hw Hlater).
    assert (Z.quot now (windowMs config) ≠ Z.quot later (windowMs config)) by (intros Eq; apply Hne; nia). nia.
Qed.
End Limiter.
End WebLimiter.
