(* ===== verification/GuardianService.v ===== *)
(** * The Guardian service: apps/guardian/src

    The process that holds the Guardian key: what it takes from its environment
    (boot.ts, custody.ts), what it builds from the committed profile
    (service.ts), when it starts, and what it answers to a request (index.ts,
    auth.ts).  [ordAssetLookup] of packages/cove-guardian/src/v3/funding.ts is
    here too.

    Requests are handled one at a time; during one the tables, the node and the
    ord server stand still.  The body of a request is what JSON.parse made of
    it: [psbtFromBase64] is [Psbt.fromBase64] on the value of a field, and
    [text_param] how the database driver takes that value for a text. *)
From S2P Require Import Prelude Bytes Number Discovery Curve Economics Wire Covenant Simplicity Vault Indexer Store Hydrate Spend AuditLog Profile Guardian Journal Signing AppConfig RateLimit.
From S2P Require Import MarketService.

(** ** ordAssetLookup *)
Record OrdReply := { or_ok : bool; or_status : Z; or_body : result json }.

Definition null_access (k : string) : exn := Exn ETypeError None ("Cannot read properties of null (reading '" +:+ k +:+ "')").

(** [v.k], where [v] is a value of JSON. *)
Definition property (k : string) (v : json) : result (option json) :=
  match v with JNull => Throw (null_access k) | JObject fields => Ok (json_get fields k) | _ => Ok None end.

Definition list_held (n : nat) (what : string) : list string :=
  if (0 <? n)%nat then [pretty (Z.of_nat n) +:+ " " +:+ what] else [].

Definition describeAssets (fetch : string → result OrdReply) (baseUrl : string) (o : OutPoint) : result (option string) :=
  res ← fetch (strip_slashes baseUrl +:+ "/output/" +:+ op_txid o +:+ ":" +:+ pretty (op_vout o));
  throw_if (negb (or_ok res)) (js_error ("ord replied " +:+ pretty (or_status res)));;
  body ← or_body res;
  indexed ← property "indexed" body;
  throw_if (match indexed with Some (JBool false) => true | _ => false end)
    (js_error "ord has not indexed this output yet");;
  inscriptions ← property "inscriptions" body;
  inscriptions ← match inscriptions with
    | Some (JArray l) => Ok (length l)
    | _ => Throw (js_error "ord reply has no inscriptions list")
    end;
  runes ← property "runes" body;
  runes ← match runes with
    | Some (JArray l) => Ok (length l)
    | Some (JObject fields) => Ok (length (Object_keys fields))
    | _ => Throw (js_error "ord reply has no runes field (is ord indexing runes?)")
    end;
  let held := list_held inscriptions "inscription(s)" ++ list_held runes "rune(s)" in
  Ok (match held with [] => None | _ => Some (String.concat " and " held) end).

(** ** auth.ts *)
Definition requireAuthToken (token : option string) : result string :=
  of_option (js_error "GUARDIAN_AUTH_TOKEN is required (refusing to boot without a non-empty token)") (non_empty token).

Definition safeEqual {C : Crypto} (a b : string) : bool := bytes_eqb (sha256 (utf8 a)) (sha256 (utf8 b)).

(** The chunks of a body as they come; a body that is too large is refused at
    the chunk that makes it so. *)
Fixpoint read_chunks (maxBytes total : Z) (chunks : list (list byte)) : result (list byte) :=
  match chunks with
  | [] => Ok []
  | c :: chunks =>
      let total := total + blen c in
      throw_if (maxBytes <? total) (js_error ("request body exceeds " +:+ pretty maxBytes +:+ " bytes"));;
      rest ← read_chunks maxBytes total chunks;
      Ok (c ++ rest)
  end.

Definition readJsonWithLimit (chunks : list (list byte)) (maxBytes : Z) : result json :=
  body ← read_chunks maxBytes 0 chunks;
  match chunks with [] => Ok (JObject []) | _ => JSON_parse (toString_utf8 body) end.

(** ** custody.ts *)
Inductive CustodyKind := CustodyEnvKey | CustodyTest | CustodyUnconfigured.

Section Custody.
Context {B : BitcoinJs} {E : Ecc}.

Definition selectCustodyBackend (network : string) (keyHex testKeyHex : option string) : result GuardianCustodyBackend :=
  throw_if (bool_decide (is_Some testKeyHex) && bool_decide (is_Some keyHex))
    (js_error "set GUARDIAN_KEY_HEX or GUARDIAN_TEST_KEY_HEX, not both");;
  if String.eqb network "mainnet" then
    throw_if (bool_decide (is_Some testKeyHex))
      (js_error "GUARDIAN_TEST_KEY_HEX is forbidden on mainnet — a production custody backend is required");;
    throw_if (negb (bool_decide (is_Some keyHex))) (js_error "GUARDIAN_KEY_HEX is required on mainnet");;
    EnvGuardianCustodyBackend_fromHex keyHex
  else match keyHex, testKeyHex with
  | Some _, _ => EnvGuardianCustodyBackend_fromHex keyHex
  | None, Some hex => TestGuardianCustodyBackend (fromHex hex)
  | None, None => Ok UnconfiguredGuardianCustodyBackend
  end.
End Custody.

(** ** boot.ts *)
Record GuardianBoot := {
  gb_network : V3Network;
  gb_mainnetGuard : bool;
  gb_profile : CommittedMainnetProfile;
  gb_source : ProfileSource;
  gb_custodyBackend : GuardianCustodyBackend;
  gb_custody : CustodyKind;
  gb_databaseUrl : string;
  gb_coreRpc : string * option string * option string;
  gb_authToken : string;
  gb_port : Z;
  gb_ordUrl : option string;
}.

Section Boot.
Context {C : Crypto} {B : BitcoinJs} {T : TestKeys} {E : Ecc}.
Context (toOutputScript : string → btc_network → result (list byte)).
Context (readFile : string → result string) (resolvePath : string → string → string).

Definition committed_mainnet (p : CommittedMainnetProfile) (source : ProfileSource) : bool :=
  match source with
  | SourceCommitted => String.eqb (mp_chainIdentity (cm_profile p)) CHAIN_BITCOIN_MAINNET
  | SourceTestOnly => false
  end.

Definition resolveGuardianBoot (env : Env) : result GuardianBoot :=
  let get k := non_empty (env !! k) in
  network ← requireCoveNetwork env;
  authToken ← requireAuthToken (env !! "GUARDIAN_AUTH_TOKEN"%string);
  databaseUrl ← of_option (js_error "COVE_DATABASE_URL is required") (get "COVE_DATABASE_URL"%string);
  coreRpcUrl ← of_option
    (js_error "COVE_BITCOIN_RPC_URL is required (the Guardian checks funding inputs against its own node)")
    (get "COVE_BITCOIN_RPC_URL"%string);
  '(profile, source) ← resolveMainnetProfile toOutputScript readFile resolvePath (network_name network)
    (get "COVE_TEST_ONLY_PROFILE_PATH"%string) None (get FEE_ADDRESS_ENV);
  let committedMainnet := committed_mainnet profile source in
  throw_if (committedMainnet && negb (bool_decide (network = Mainnet)))
    (js_error ("the committed profile is for bitcoin-mainnet but COVE_NETWORK is " +:+ network_name network +:+ "; "
       +:+ "set COVE_NETWORK=mainnet, or name a test profile with COVE_TEST_ONLY_PROFILE_PATH (regtest CI)"));;
  let mainnetGuard := bool_decide (network = Mainnet) || committedMainnet in
  let keyHex := get "GUARDIAN_KEY_HEX"%string in
  let testKeyHex := get "GUARDIAN_TEST_KEY_HEX"%string in
  custodyBackend ← selectCustodyBackend (if mainnetGuard then "mainnet"%string else network_name network) keyHex testKeyHex;
  let settings := coveNetworkSettings network env in
  Ok {| gb_network := network; gb_mainnetGuard := mainnetGuard; gb_profile := profile; gb_source := source;
        gb_custodyBackend := custodyBackend;
        gb_custody := match keyHex, testKeyHex with
          Some _, _ => CustodyEnvKey | None, Some _ => CustodyTest | None, None => CustodyUnconfigured end;
        gb_databaseUrl := databaseUrl;
        gb_coreRpc := (coreRpcUrl, get "COVE_BITCOIN_RPC_USER"%string, get "COVE_BITCOIN_RPC_PASSWORD"%string);
        gb_authToken := authToken; gb_port := ns_guardianPort settings; gb_ordUrl := ns_ordUrl settings |}.
End Boot.

(** ** service.ts *)
Definition MAX_MINER_FEE_SATS : Z := 20000.

Definition recoveryProfileFromMainnet (profile : MainnetProfile) : result VaultRecoveryProfile :=
  let r := mp_recovery profile in
  let n := length (mr_pubkeys r) in
  let shapeOk := ((mr_threshold r =? 2) && (n =? 3)%nat) || ((mr_threshold r =? 1) && (n =? 1)%nat) in
  throw_if (negb shapeOk) (js_error "mainnet profile recovery is incomplete");;
  csvBlocks ← of_option (js_error "mainnet profile recovery is incomplete") (mr_csvBlocks r);
  Ok {| profileVersion := MAINNET1; recoveryCsvBlocks := csvBlocks; recoveryThreshold := mr_threshold r;
        recoveryPubkeys := fromHex <$> mr_pubkeys r |}.

(** A limit that is [null] compares like zero. *)
Definition riskPolicyFromProfile (profile : MainnetProfile) : GuardianRiskPolicy :=
  let c := mp_canary profile in
  {| rp_maxGrossSats := default 0 (mc_maxSingleBuySats c);
     rp_maxMintAtoms := default 0 (mc_maxMintAtoms c);
     rp_minMintGrossSats := default 0 (mc_minMintGrossSats c);
     rp_maxRedeemPayoutSats := default 0 (mc_maxSingleRedeemPayoutSats c);
     rp_maxBackingSats := default 0 (mc_maxBackingSats c);
     rp_maxMinerFeeSats := MAX_MINER_FEE_SATS;
     rp_allowedTokenIds := mc_allowedTokenIds c;
     rp_enforceTokenAllowlist := true |}.

Record BuiltGuardianService := {
  bg_network : V3Network;
  bg_custodyBackend : GuardianCustodyBackend;
  bg_ordUrl : option string;
  bg_releaseId : string;
  bg_profile : MainnetProfile;
  bg_profileHash : string;
  bg_guardianXOnly : string;
  bg_recoveryProfile : VaultRecoveryProfile;
  bg_feeScript : list byte;
  bg_riskPolicy : GuardianRiskPolicy;
  bg_buyFeeBps : Z;
  bg_redeemFeeBps : Z;
}.

Definition bigint_of_null : exn := Exn ETypeError None "Cannot convert null to a BigInt".

Definition buildGuardianService (boot : GuardianBoot) (releaseId : string) : result BuiltGuardianService :=
  throw_if (bool_decide (gb_network boot = Mainnet) && negb (bool_decide (is_Some (non_empty (gb_ordUrl boot)))))
    (js_error "mainnet needs an ord server (committed network settings): funding inputs must be checked for inscriptions and runes");;
  let profile := cm_profile (gb_profile boot) in
  let validation := cm_validation (gb_profile boot) in
  throw_if (negb (mv_ok validation)) (js_error ("invalid mainnet profile: " +:+ String.concat "; " (mv_errors validation)));;
  guardianXOnly ← of_option (js_error "mainnet profile is missing guardianXOnly/feeScript") (mp_guardianXOnly profile);
  feeScript ← of_option (js_error "mainnet profile is missing guardianXOnly/feeScript") (mp_feeScript profile);
  recoveryProfile ← recoveryProfileFromMainnet profile;
  buyFeeBps ← of_option bigint_of_null (mp_buyFeeBps profile);
  redeemFeeBps ← of_option bigint_of_null (mp_redeemFeeBps profile);
  Ok {| bg_network := gb_network boot; bg_custodyBackend := gb_custodyBackend boot; bg_ordUrl := gb_ordUrl boot;
        bg_releaseId := releaseId; bg_profile := profile; bg_profileHash := cm_profileHash (gb_profile boot);
        bg_guardianXOnly := guardianXOnly; bg_recoveryProfile := recoveryProfile; bg_feeScript := fromHex feeScript;
        bg_riskPolicy := riskPolicyFromProfile profile; bg_buyFeeBps := buyFeeBps; bg_redeemFeeBps := redeemFeeBps |}.

(** What the service's tables, node, ord server and clock answer during one
    request. *)
Record ServiceWorld := {
  sw_tables : V3Db;
  sw_getTxout : OutPoint → result (option Z);
  sw_fetch : string → result OrdReply;
  sw_sign : SignEnv;
  sw_now : Z;
  sw_headHash : result string;
  sw_probe : result unit;
}.

Section Service.
Context {C : Crypto} {B : BitcoinJs} {E : Ecc} {PG : Postgres}.
Context (execFile : string → list string → Z → exec_outcome) (bin : option string).

Definition service_fundingChecker (s : BuiltGuardianService) (w : ServiceWorld) : FundingInputChecker :=
  chainFundingChecker (sw_getTxout w)
    (λ o, Ok (0 <? length (getLiveTokenUtxosAtDb (sw_tables w) [(op_txid o, op_vout o)]))%nat)
    (describeAssets (sw_fetch w) <$> non_empty (bg_ordUrl s)) None.

(** [LocalGuardianTransitionSigner] on the custody backend. *)
Definition service_signer (s : BuiltGuardianService)
    : TransitionSignRequest → GuardianOperation → SignEnv → PostgresJournal →
      result (TransitionSignOutcome * Psbt) * PostgresJournal * list SignEffect :=
  sign execFile bin (custodySigningBackend (bg_custodyBackend s)) (bg_riskPolicy s).

Definition service_view (w : ServiceWorld) (tokenId : string) : CoveCanonicalView :=
  snapshot_view (loadCanonicalViewSnapshotFromDb (sw_tables w) tokenId []).

Definition service_transport (s : BuiltGuardianService) (w : ServiceWorld)
    : InProcessGuardianTransportOptions (J := PostgresJournal) := {|
  ip_signer := service_signer s;
  ip_profileHash := bg_profileHash s;
  ip_guardianXOnly := bg_guardianXOnly s;
  ip_network := bg_network s;
  ip_loadView := λ t, Ok (service_view w t);
  ip_recoveryKeyXOnly := default [] (head (recoveryPubkeys (bg_recoveryProfile s)));
  ip_recoveryProfile := Some (bg_recoveryProfile s);
  ip_feeScript := bg_feeScript s;
  ip_maxMinerFeeSats := Some MAX_MINER_FEE_SATS;
  ip_buyFeeBps := Some (bg_buyFeeBps s);
  ip_redeemFeeBps := Some (bg_redeemFeeBps s);
  ip_fundingChecker := service_fundingChecker s w |}.

(** [healthProbe] *)
Definition service_probe (s : BuiltGuardianService) (w : ServiceWorld) : GuardianHealthProbe := {|
  hp_releaseId := bg_releaseId s;
  hp_auditHeadHash := match sw_headHash w with Ok h => h | Throw _ => ""%string end;
  hp_auditHealthy := is_ok (sw_headHash w);
  hp_signingJournalHealthy := is_ok (sw_probe w);
  hp_custodyBackendReady := match cb_xOnlyPubkey (bg_custodyBackend s) with
    | Ok x => String.eqb (toHex x) (toLowerCase (bg_guardianXOnly s)) | Throw _ => false end |}.

(** ** index.ts *)
Definition MAX_BODY_BYTES : Z := 1000000.

Definition CORE_CHAIN (network : V3Network) : string :=
  match network with Mainnet => "main" | Testnet => "test" | Signet => "signet" | Regtest => "regtest" end.

(** Before it listens: [chain] is what the service's node says of itself. *)
Definition start_checks (boot : GuardianBoot) (built : BuiltGuardianService) (chain : result string) : result unit :=
  chain ← chain;
  throw_if (negb (String.eqb chain (CORE_CHAIN (gb_network boot))))
    (js_error ("COVE_NETWORK is " +:+ network_name (gb_network boot) +:+ " but the node is on " +:+ quoted chain));;
  match gb_custody boot with
  | CustodyUnconfigured => throw_if (gb_mainnetGuard boot) (js_error "mainnet requires GUARDIAN_KEY_HEX")
  | _ =>
      key ← cb_xOnlyPubkey (gb_custodyBackend boot);
      throw_if (negb (String.eqb (toHex key) (toLowerCase (bg_guardianXOnly built))))
        (js_error "the Guardian key is not the profile's guardianXOnly; refusing to start")
  end.

Definition guardian_main {T : TestKeys} (toOutputScript : string → btc_network → result (list byte))
    (readFile : string → result string) (resolvePath : string → string → string)
    (env : Env) (chain : result string) : result (GuardianBoot * BuiltGuardianService) :=
  boot ← resolveGuardianBoot toOutputScript readFile resolvePath env;
  built ← buildGuardianService boot (default "local"%string (env !! "RAILWAY_GIT_COMMIT_SHA"%string));
  start_checks boot built chain;;
  Ok (boot, built).

Record HttpRequest := {
  rq_method : string; rq_url : option string; rq_authorization : option string; rq_remoteAddress : option string;
  rq_chunks : list (list byte)
}.

Inductive HttpReply :=
  | Unauthorized | RateLimited | NotFound | InternalError
  | HealthReply (h : GuardianHealthWire)
  | SignReply (r : GuardianSignResponseWire).

Definition http_status (r : HttpReply) : Z :=
  match r with
  | Unauthorized => 401 | RateLimited => 429 | NotFound => 404 | InternalError => 500
  | HealthReply _ | SignReply _ => 200
  end.

(** [url.split("?")[0]] *)
Fixpoint before_query (s : string) : string :=
  match s with EmptyString => EmptyString | String a r => if Ascii.eqb a "?" then EmptyString else String a (before_query r) end.

Definition rq_ip (rq : HttpRequest) : string := default "unknown"%string (rq_remoteAddress rq).

Definition authorised (authToken : string) (rq : HttpRequest) : bool :=
  safeEqual (default ""%string (rq_authorization rq)) ("Bearer " +:+ authToken).

(** What the fields of a request's body are read as. *)
Context (toBase64 : Psbt → string) (stringifyBigint : SignedTransitionResult → string).
Context (psbtFromBase64 : option json → result Psbt) (text_param : option json → result string).

(** The operation asked for: everything that is not ["MINT"] is a redemption. *)
Definition body_operation (v : option json) : GuardianOperation :=
  match v with Some (JString s) => if String.eqb s "MINT" then OpMint else OpRedeem | _ => OpRedeem end.

Definition transport_sign (s : BuiltGuardianService) (w : ServiceWorld) (body : json) (j : PostgresJournal)
    : result GuardianSignResponseWire * PostgresJournal * list SignEffect :=
  match (psbt ← (v ← property "psbtBase64" body; psbtFromBase64 v);
         t ← (v ← property "tokenId" body; text_param v);
         op ← property "operation" body;
         Ok (psbt, t, body_operation op)) with
  | Throw e => (Throw e, j, [])
  | Ok (psbt, t, op) =>
      answer_sign toBase64 stringifyBigint (service_transport s w) (sw_sign w) psbt (service_view w t) op j
  end.

Record ServiceState := { ss_limiter : gmap string GuardianLimiter.Bucket; ss_journal : PostgresJournal }.

Definition handle (authToken : string) (s : BuiltGuardianService) (w : ServiceWorld) (rq : HttpRequest) (st : ServiceState)
    : HttpReply * ServiceState * list SignEffect :=
  let url := before_query (default "/"%string (rq_url rq)) in
  if negb (authorised authToken rq) then (Unauthorized, st, [])
  else
    let '(ok, limiter) := GuardianLimiter.allow 60000 120 (rq_ip rq) (sw_now w) (ss_limiter st) in
    let st := {| ss_limiter := limiter; ss_journal := ss_journal st |} in
    if negb ok then (RateLimited, st, [])
    else if String.eqb (rq_method rq) "GET" && String.eqb url "/health" then
      (match in_process_health (service_transport s w) (Some (Ok (service_probe s w))) with
       | Ok h => HealthReply h | Throw _ => InternalError end, st, [])
    else if String.eqb (rq_method rq) "POST" && String.eqb url "/sign" then
      match readJsonWithLimit (rq_chunks rq) MAX_BODY_BYTES with
      | Throw _ => (InternalError, st, [])
      | Ok body =>
          let '(r, j, effects) := transport_sign s w body (ss_journal st) in
          (match r with Ok r => SignReply r | Throw _ => InternalError end,
           {| ss_limiter := limiter; ss_journal := j |}, effects)
      end
    else (NotFound, st, []).
End Service.
