(* ===== verification/GuardianServiceInv.v ===== *)
(** * What the Guardian service signs

    A service that started signs for authorised requests only, what its
    validation and the risk policy of its profile accept, and with the key of
    its profile; whatever requests come, no vault is signed for twice while a
    lease lasts, and no address gets more than so many signatures a minute. *)
From S2P Require Import Prelude Bytes Number Discovery Curve Economics Wire Covenant Simplicity Vault Indexer Store Hydrate Spend AuditLog Profile ProfileInv Guardian Journal Signing SigningInv AppConfig RateLimit.
From S2P Require Import MarketService GuardianService.

#[export] Instance ProfileSource_eq_dec : EqDecision ProfileSource.
Proof. solve_decision. Defined.

(** ** Starting *)
Section Start.
Context {C : Crypto} {B : BitcoinJs} {T : TestKeys} {E : Ecc}.
Context (toOutputScript : string → btc_network → result (list byte)).
Context (readFile : string → result string) (resolvePath : string → string → string).
#[local] Set Default Proof Using "Type*".

Notation main := (guardian_main toOutputScript readFile resolvePath).

(** The key of a custody backend is that of the profile; one that has none
    signs nothing. *)
Definition custody_of (profile : MainnetProfile) (b : GuardianCustodyBackend) : Prop :=
  b = UnconfiguredGuardianCustodyBackend
  ∨ ∃ x g, cb_xOnlyPubkey b = Ok x ∧ mp_guardianXOnly profile = Some g ∧ toHex x = toLowerCase g.

Lemma resolveMainnetProfile_source network path dir fee c source :
  resolveMainnetProfile toOutputScript readFile resolvePath network path dir fee = Ok (c, source) →
  (source = SourceCommitted → committedMainnetProfile toOutputScript fee = Ok c)
  ∧ (network = "mainnet"%string → source = SourceCommitted)
  ∧ validateMainnetProfile (cm_profile c) (bool_decide (source = SourceTestOnly)) = Ok (cm_validation c)
  ∧ hashMainnetProfile (cm_profile c) = Ok (cm_profileHash c).
Proof.
  assert (∀ c, committedMainnetProfile toOutputScript fee = Ok c →
    validateMainnetProfile (cm_profile c) false = Ok (cm_validation c) ∧ hashMainnetProfile (cm_profile c) = Ok (cm_profileHash c)) as Hc.
  { intros c' H. unfold committedMainnetProfile in H. apply bind_Ok in H as (p0 & _ & H). apply bind_Ok in H as (p & _ & H).
    apply bind_Ok in H as (v & Hv & H). apply bind_Ok in H as (h & Hh & H). injection H as <-. exact (conj Hv Hh). }
  unfold resolveMainnetProfile. intros H. destruct path as [[|a s]|].
  1, 3: apply bind_Ok in H as (c' & Hc' & H); injection H as <- <-; destruct (Hc _ Hc') as [H1 H2];
    exact (conj (λ _, Hc') (conj (λ _, eq_refl) (conj H1 H2))).
  apply bind_Ok in H as (u & Hu & H). apply throw_if_Ok, String.eqb_neq in Hu.
  apply bind_Ok in H as ([p v] & Hl & H). apply bind_Ok in H as (h & Hh & H). injection H as <- <-.
  unfold loadMainnetProfile in Hl. apply bind_Ok in Hl as (text & _ & Hl). apply bind_Ok in Hl as (p' & _ & Hl).
  apply bind_Ok in Hl as (v' & Hv & Hl). injection Hl as -> ->. done.
Qed.

Lemma resolveGuardianBoot_Ok env boot :
  resolveGuardianBoot toOutputScript readFile resolvePath env = Ok boot →
  let get k := non_empty (env !! k) in
  gb_authToken boot ≠ ""%string
  ∧ validateMainnetProfile (cm_profile (gb_profile boot)) (bool_decide (gb_source boot = SourceTestOnly))
    = Ok (cm_validation (gb_profile boot))
  ∧ hashMainnetProfile (cm_profile (gb_profile boot)) = Ok (cm_profileHash (gb_profile boot))
  ∧ (gb_network boot = Mainnet → gb_source boot = SourceCommitted)
  ∧ (committed_mainnet (gb_profile boot) (gb_source boot) = true → gb_network boot = Mainnet)
  ∧ gb_mainnetGuard boot = bool_decide (gb_network boot = Mainnet)
  ∧ selectCustodyBackend (network_name (gb_network boot)) (get "GUARDIAN_KEY_HEX"%string) (get "GUARDIAN_TEST_KEY_HEX"%string)
    = Ok (gb_custodyBackend boot)
  ∧ gb_custody boot = match get "GUARDIAN_KEY_HEX"%string, get "GUARDIAN_TEST_KEY_HEX"%string with
      Some _, _ => CustodyEnvKey | None, Some _ => CustodyTest | None, None => CustodyUnconfigured end.
Proof.
  unfold resolveGuardianBoot. intros H. apply bind_Ok in H as (network & _ & H).
  apply bind_Ok in H as (tok & Htok & H). apply bind_Ok in H as (url & _ & H). apply bind_Ok in H as (rpc & _ & H).
  apply bind_Ok in H as ([p source] & Hp & H). apply bind_Ok in H as (u & Hm & H). apply bind_Ok in H as (b & Hb & H).
  injection H as <-. cbn [gb_authToken gb_profile gb_source gb_network gb_mainnetGuard gb_custodyBackend gb_custody].
  apply resolveMainnetProfile_source in Hp as (_ & Hsrc & Hv & Hh). apply throw_if_Ok in Hm.
  assert (committed_mainnet p source = true → network = Mainnet) as Hcm.
  { intros Hce. rewrite Hce in Hm. cbn in Hm. by apply negb_false_iff, bool_decide_eq_true in Hm. }
  assert (bool_decide (network = Mainnet) || committed_mainnet p source = bool_decide (network = Mainnet)) as Eg.
  { destruct (committed_mainnet p source); [|by rewrite orb_false_r]. rewrite Hcm by done. done. }
  rewrite Eg in *. split_and!; try assumption; try reflexivity.
  - unfold requireAuthToken in Htok. apply of_option_Ok in Htok. intros ->.
    destruct (env !! "GUARDIAN_AUTH_TOKEN"%string) as [[|]|]; discriminate Htok.
  - intros ->. by apply Hsrc.
  - destruct (bool_decide (network = Mainnet)) eqn:Hbd; [|done]. apply bool_decide_eq_true in Hbd as ->. done.
Qed.

(** What a service that started is made of. *)
Record started (boot : GuardianBoot) (built : BuiltGuardianService) : Prop := {
  st_token : gb_authToken boot ≠ ""%string;
  st_network : bg_network built = gb_network boot;
  st_profile : bg_profile built = cm_profile (gb_profile boot);
  st_valid : valid_profile (bg_profile built);
  st_hash : hashMainnetProfile (bg_profile built) = Ok (bg_profileHash built);
  st_xonly : mp_guardianXOnly (bg_profile built) = Some (bg_guardianXOnly built);
  st_fee : fromHex <$> mp_feeScript (bg_profile built) = Some (bg_feeScript built);
  st_bps : mp_buyFeeBps (bg_profile built) = Some (bg_buyFeeBps built)
           ∧ mp_redeemFeeBps (bg_profile built) = Some (bg_redeemFeeBps built);
  st_policy : bg_riskPolicy built = riskPolicyFromProfile (bg_profile built);
  st_custody : custody_of (bg_profile built) (bg_custodyBackend built);
  st_key : gb_network boot = Mainnet → bg_custodyBackend built ≠ UnconfiguredGuardianCustodyBackend;
  st_source : gb_source boot = SourceCommitted ↔ gb_network boot = Mainnet;
}.

Lemma buildGuardianService_Ok boot release built :
  buildGuardianService boot release = Ok built →
  mv_ok (cm_validation (gb_profile boot)) = true
  ∧ (gb_network boot = Mainnet → is_Some (non_empty (gb_ordUrl boot)))
  ∧ bg_network built = gb_network boot ∧ bg_custodyBackend built = gb_custodyBackend boot ∧ bg_ordUrl built = gb_ordUrl boot
  ∧ bg_profile built = cm_profile (gb_profile boot) ∧ bg_profileHash built = cm_profileHash (gb_profile boot)
  ∧ mp_guardianXOnly (bg_profile built) = Some (bg_guardianXOnly built)
  ∧ fromHex <$> mp_feeScript (bg_profile built) = Some (bg_feeScript built)
  ∧ mp_buyFeeBps (bg_profile built) = Some (bg_buyFeeBps built)
  ∧ mp_redeemFeeBps (bg_profile built) = Some (bg_redeemFeeBps built)
  ∧ bg_riskPolicy built = riskPolicyFromProfile (bg_profile built).
Proof.
  unfold buildGuardianService. intros H. apply bind_Ok in H as (u & Hord & H). apply bind_Ok in H as (u' & Hv & H).
  apply bind_Ok in H as (g & Hg & H). apply bind_Ok in H as (f & Hf & H). apply bind_Ok in H as (rp & Hrp & H).
  apply bind_Ok in H as (buy & Hbuy & H). apply bind_Ok in H as (redeem & Hred & H). injection H as <-.
  apply throw_if_Ok in Hord. apply throw_if_Ok, negb_false_iff in Hv. apply of_option_Ok in Hg, Hf, Hbuy, Hred.
  cbn. rewrite Hf. split_and!; try done. intros Hn. apply andb_false_iff in Hord as [Ho|Ho].
  - by apply bool_decide_eq_false in Ho.
  - by apply negb_false_iff, bool_decide_eq_true in Ho.
Qed.

Lemma start_custody boot built chain :
  start_checks boot built chain = Ok tt → mp_guardianXOnly (bg_profile built) = Some (bg_guardianXOnly built) →
  bg_custodyBackend built = gb_custodyBackend boot →
  (gb_custody boot = CustodyUnconfigured → gb_custodyBackend boot = UnconfiguredGuardianCustodyBackend) →
  chain = Ok (CORE_CHAIN (gb_network boot)) ∧ custody_of (bg_profile built) (bg_custodyBackend built)
  ∧ (gb_mainnetGuard boot = true → bg_custodyBackend built ≠ UnconfiguredGuardianCustodyBackend).
Proof.
  unfold start_checks. intros H Hg Eb Hun. apply bind_Ok in H as (c & -> & H). apply bind_Ok in H as (u & Hc & H).
  apply throw_if_Ok, negb_false_iff, String.eqb_eq in Hc as ->. split; [done|]. rewrite Eb.
  assert ((key ← cb_xOnlyPubkey (gb_custodyBackend boot);
           throw_if (negb (String.eqb (toHex key) (toLowerCase (bg_guardianXOnly built))))
             (js_error "the Guardian key is not the profile's guardianXOnly; refusing to start")) = Ok tt →
    custody_of (bg_profile built) (gb_custodyBackend boot)
    ∧ (gb_mainnetGuard boot = true → gb_custodyBackend boot ≠ UnconfiguredGuardianCustodyBackend)) as Hkey.
  { intros Hk. apply bind_Ok in Hk as (x & Hx & Hk). apply throw_if_Ok, negb_false_iff, String.eqb_eq in Hk.
    split; [right; by exists x, (bg_guardianXOnly built)|]. intros _ Eun. by rewrite Eun in Hx. }
  destruct (gb_custody boot) eqn:Ek; [by apply Hkey..|]. apply throw_if_Ok in H.
  rewrite Hun by done. split; [by left|]. intros Hg1. by rewrite Hg1 in H.
Qed.

Lemma guardian_main_started env chain boot built :
  main env chain = Ok (boot, built) → started boot built.
Proof.
  unfold guardian_main. intros H. apply bind_Ok in H as (boot' & Hboot & H). apply bind_Ok in H as (built' & Hbuilt & H).
  apply bind_Ok in H as ([] & Hst & H). injection H as -> ->.
  apply resolveGuardianBoot_Ok in Hboot as (Htok & Hval & Hh & Hsrc & Hcm & Hguard & Hcb & Hck).
  apply buildGuardianService_Ok in Hbuilt as (Hok & _ & En & Eb & _ & Ep & Eh & Hg & Hf & Hbuy & Hred & Epol).
  destruct (start_custody _ _ _ Hst Hg Eb) as (_ & Hcust & Hkey).
  { rewrite Hck. intros Hu. unfold selectCustodyBackend in Hcb.
    destruct (non_empty (env !! "GUARDIAN_KEY_HEX"%string)), (non_empty (env !! "GUARDIAN_TEST_KEY_HEX"%string)); try done.
    cbn in Hcb. destruct (String.eqb _ _); [discriminate Hcb|by injection Hcb as <-]. }
  pose proof (validated_valid _ _ _ Hval Hok) as V. rewrite <- Ep in V.
  split; try done; [by rewrite Ep, Eh|intros Hn; apply Hkey; by rewrite Hguard, Hn|].
  split; [intros Es|done]. apply Hcm. unfold committed_mainnet. rewrite Es, <- Ep.
  by rewrite (proj1 (proj2 (pv_identity _ V))).
Qed.
End Start.

(** ** Serving *)
Section Serving.
Context {C : Crypto} {B : BitcoinJs} {E : Ecc} {PG : Postgres}.
Context (execFile : string → list string → Z → exec_outcome) (bin : option string).
Context (toBase64 : Psbt → string) (stringifyBigint : SignedTransitionResult → string).
Context (psbtFromBase64 : option json → result Psbt) (text_param : option json → result string).
Context (authToken : string) (s : BuiltGuardianService).
#[local] Set Default Proof Using "Type*".

Notation handle := (handle execFile bin toBase64 stringifyBigint psbtFromBase64 text_param authToken s).

(** A request, what was answered and done, and the journal before and after
    it. *)
Record Served := {
  sv_world : ServiceWorld; sv_request : HttpRequest; sv_reply : HttpReply; sv_effects : list SignEffect;
  sv_before : PostgresJournal; sv_after : PostgresJournal
}.

Inductive serves : ServiceState → list Served → ServiceState → Prop :=
  | serves_nil st : serves st [] st
  | serves_cons st w rq reply st1 effects es st2 :
      handle w rq st = (reply, st1, effects) → serves st1 es st2 →
      serves st ({| sv_world := w; sv_request := rq; sv_reply := reply; sv_effects := effects;
                    sv_before := ss_journal st; sv_after := ss_journal st1 |} :: es) st2.

(** The clock does not go back. *)
Fixpoint timely (now : Z) (es : list Served) : Prop :=
  match es with
  | [] => True
  | e :: es => now ≤ sw_now (sv_world e) ≤ env_now (sw_sign (sv_world e))
               ∧ env_now (sw_sign (sv_world e)) ≤ env_later (sw_sign (sv_world e))
               ∧ timely (env_later (sw_sign (sv_world e))) es
  end.

(** The request the signer gets. *)
Definition asked (w : ServiceWorld) (psbt : Psbt) (tokenId : string) : TransitionSignRequest :=
  service_request (service_transport execFile bin s w) psbt (service_view w tokenId).

(** [psbt'] is [psbt] with a witness on its first input that spends [leaf] with
    the signature [sig], which verifies for [psbt] under the key [x]; nothing
    else differs, so the unsigned transaction is the same. *)
Definition signed_spend (psbt psbt' : Psbt) (leaf : CoveVaultLeaf) (control x sig : list byte) : Prop :=
  unsignedTransaction psbt' = unsignedTransaction psbt
  ∧ psbt_outputs psbt' = psbt_outputs psbt
  ∧ ∃ input0 input0' rest w,
      psbt_inputs psbt = input0 :: rest ∧ psbt_inputs psbt' = input0' :: rest
      ∧ psi_txin input0' = psi_txin input0 ∧ psi_witnessUtxo input0' = psi_witnessUtxo input0
      ∧ psi_finalScriptWitness input0' = Some w
      ∧ witnessStack w = Ok [sig; subarray (leaf_script leaf) 1 33; leaf_script leaf; control]
      ∧ verifyVaultExecutionSignature psbt 0 leaf sig x = Ok tt.

(** What a request that is answered with a signature went through: its token,
    its PSBT, the validation, the risk policy; then, in this order, the audit
    record of that transaction and the signature on it; and the answer. *)
Definition signature_of (e : Served) (success : GuardianSignSuccess) : Prop :=
  let w := sv_world e in
  ∃ body v psbt t op x a sim vault sig psbt' record hash between after,
    sha256 (utf8 (default ""%string (rq_authorization (sv_request e)))) = sha256 (utf8 ("Bearer " +:+ authToken))
    ∧ readJsonWithLimit (rq_chunks (sv_request e)) MAX_BODY_BYTES = Ok body
    ∧ property "psbtBase64" body = Ok v ∧ psbtFromBase64 v = Ok psbt
    ∧ cb_xOnlyPubkey (bg_custodyBackend s) = Ok x
    ∧ validate_transition execFile bin (asked w psbt t) op x = Ok (VOk a sim)
    ∧ checkRiskPolicy (bg_riskPolicy s) a = None
    ∧ transition_vault (validate_params (asked w psbt t) x) (an_currentState a) = Ok vault
    ∧ signed_spend psbt psbt' (op_leaf op vault) (op_control op vault) x sig
    ∧ buildAuditRecord (sw_sign w) op (bg_network s) psbt a sim = Ok record
    ∧ record_key record = spent_vault (bg_network s) psbt'
    ∧ aud_unsignedTxDigest record = unsignedTxDigest psbt'
    ∧ env_writeBeforeSign (sw_sign w) record = Ok hash
    ∧ sv_effects e = Audited record hash :: between ++ SignedInput psbt' :: after
    ∧ traced (between ++ after) = []
    ∧ gs_signedPsbtBase64 success = toBase64 psbt' ∧ gs_sigHex success = toHex sig
    ∧ gs_profileHash success = bg_profileHash s.

(** The signatures of a run, read off the signed PSBTs. *)
Definition served_grants (e : Served) : list Grant :=
  signature_grant (bg_network s) (sv_before e) (sv_after e) (sw_sign (sv_world e)) <$> traced (sv_effects e).
Definition run_grants (es : list Served) : list Grant := es ≫= served_grants.

Definition signed_for (ip : string) (from : Z) (e : Served) : bool :=
  match sv_reply e with SignReply (SignSuccess _) => true | _ => false end
  && String.eqb (rq_ip (sv_request e)) ip && (from <=? sw_now (sv_world e)) && (sw_now (sv_world e) <? from + 60000).

(** *** One request *)
Lemma authorised_true rq :
  authorised authToken rq = true ↔
  sha256 (utf8 (default ""%string (rq_authorization rq))) = sha256 (utf8 ("Bearer " +:+ authToken)).
Proof. unfold authorised, safeEqual, bytes_eqb. apply bool_decide_eq_true. Qed.

Lemma handle_run w rq st reply st1 effects :
  handle w rq st = (reply, st1, effects) →
  (authorised authToken rq = false ∧ st1 = st ∧ effects = [] ∧ reply = Unauthorized)
  ∨ (authorised authToken rq = true
     ∧ ∃ ok, GuardianLimiter.allow 60000 120 (rq_ip rq) (sw_now w) (ss_limiter st) = (ok, ss_limiter st1)
     ∧ ((effects = [] ∧ ss_journal st1 = ss_journal st ∧ ∀ r, reply ≠ SignReply (SignSuccess r))
        ∨ (ok = true ∧ ∃ body r, readJsonWithLimit (rq_chunks rq) MAX_BODY_BYTES = Ok body
           ∧ transport_sign execFile bin toBase64 stringifyBigint psbtFromBase64 text_param s w body (ss_journal st)
             = (r, ss_journal st1, effects)
           ∧ reply = match r with Ok r => SignReply r | Throw _ => InternalError end))).
Proof.
  unfold handle. intros H. destruct (authorised authToken rq); cbn [negb] in H; [right|left; by simplify_eq].
  split; [done|]. destruct (GuardianLimiter.allow _ _ _ _ _) as [ok limiter]. exists ok.
  destruct ok; cbn [negb] in H; [|simplify_eq; split; [done|by left]].
  destruct (String.eqb _ _ && _).
  { simplify_eq. split; [done|]. left. split_and!; [done..|]. intros r. by destruct (in_process_health _ _). }
  destruct (String.eqb _ _ && _); [|simplify_eq; split; [done|by left]].
  destruct (readJsonWithLimit _ _) as [body|]; [|simplify_eq; split; [done|by left]].
  destruct (transport_sign _ _ _ _ _ _ _ _ _ _) as [[r j] effects'] eqn:Et. simplify_eq.
  split; [done|]. right. split; [done|]. by exists body, r.
Qed.

(** A request that is served is a call of the signer, or leaves it alone. *)
Lemma transport_sign_run w body j r j' effects :
  transport_sign execFile bin toBase64 stringifyBigint psbtFromBase64 text_param s w body j = (r, j', effects) →
  (j' = j ∧ effects = [] ∧ ∃ e, r = Throw e)
  ∨ ∃ v psbt t op out,
      property "psbtBase64" body = Ok v ∧ psbtFromBase64 v = Ok psbt
      ∧ sign execFile bin (custodySigningBackend (bg_custodyBackend s)) (bg_riskPolicy s) (asked w psbt t) op (sw_sign w) j
        = (out, j', effects)
      ∧ r = (out ← out; match out with
             | (Refused reason detail _, _) => Ok (SignFailure reason detail)
             | (Signed res, psbt) => signed_response toBase64 stringifyBigint (service_transport execFile bin s w) res psbt
             end).
Proof.
  unfold transport_sign. intros H.
  match type of H with match ?m with _ => _ end = _ => destruct m as [[[psbt t] op]|x] eqn:Em end; [right|left; simplify_eq; by eauto].
  apply bind_Ok in Em as (p & Hp & Em). apply bind_Ok in Hp as (v & Hv & Hp). apply bind_Ok in Em as (t' & _ & Em).
  apply bind_Ok in Em as (o & _ & Em). simplify_eq. unfold answer_sign in H. cbn [ip_signer service_transport] in H.
  unfold service_signer in H. fold (asked w psbt t) in H.
  destruct (sign _ _ _ _ _ _ _ _) as [[out j1] eff] eqn:Es. simplify_eq. by exists v, psbt, t, (body_operation o), out.
Qed.

(** A committed witness spends the leaf. *)
Lemma committed_spend psbt psbt' leaf control x sig :
  verifyVaultExecutionSignature psbt 0 leaf sig x = Ok tt →
  commitVaultExecutionWitness psbt 0 leaf control sig = Ok psbt' →
  signed_spend psbt psbt' leaf control x sig.
Proof.
  intros Hver Hcom. pose proof (commit_unsigned _ _ _ _ _ _ Hcom) as (Hu & w & input & Hi & Hw & Hup & Hsw).
  apply updateFinalWitness_sets in Hup as (Ho & before & i0 & rest & Ei & Hlen & Ei').
  destruct before; [|cbn [length] in Hlen; lia]. cbn [app] in Ei, Ei'. split; [done|]. split; [done|].
  eexists i0, _, rest, w. split_and!; [done|done|done|done|done|by apply witnessStack_scriptWitness|done].
Qed.

Lemma signed_response_Ok opts leaf control sig psbt psbt' res success :
  commitVaultExecutionWitness psbt 0 leaf control sig = Ok psbt' →
  signed_response toBase64 stringifyBigint opts res psbt' = Ok (SignSuccess success) →
  gs_signedPsbtBase64 success = toBase64 psbt' ∧ gs_sigHex success = toHex sig
  ∧ gs_profileHash success = ip_profileHash (J := PostgresJournal) opts.
Proof.
  intros Hcom H. pose proof (commit_unsigned _ _ _ _ _ _ Hcom) as (_ & w & input & Hi & Hw & _ & Hsw).
  change (Z.to_nat 0) with 0%nat in Hi. unfold signed_response in H. rewrite Hi in H. cbn [of_option] in H.
  rewrite bind_of_Ok, Hw in H. cbn [of_option] in H.
  rewrite bind_of_Ok, (extractWitnessSig_scriptWitness _ _ _ Hsw), bind_of_Ok in H. by injection H as <-.
Qed.

Lemma served_signature w rq st success st1 effects :
  handle w rq st = (SignReply (SignSuccess success), st1, effects) →
  signature_of {| sv_world := w; sv_request := rq; sv_reply := SignReply (SignSuccess success); sv_effects := effects;
                  sv_before := ss_journal st; sv_after := ss_journal st1 |} success.
Proof.
  intros H. apply handle_run in H as [(_ & _ & _ & [=])|(Ha & ok & _ & [(_ & _ & Hno)|(_ & body & r & Hb & Ht & Er)])];
    [by destruct (Hno success)|].
  destruct r as [r|]; [injection Er as <-|done].
  apply transport_sign_run in Ht as [(_ & _ & ? & [=])|(v & psbt & t & op & out & Hv & Hp & Hs & Er)].
  destruct out as [[[res|reason detail aud] psbt']|]; [|done..]. rewrite bind_of_Ok in Er.
  pose proof (sign_outcome _ _ _ _ _ _ _ _ _ _ _ _ Hs) as Hin. pose proof Hin as Hby.
  apply (sign_signed_by _ _ _ _ _ _ _ _ _ _ _ _ Hs) in Hby as (res' & [= <-] & x & a & sim & hash & rv & vault & sig & Hby).
  destruct Hby as (Hx & Hval & Hrisk & Haud & Hw & Hres & Hc & Hvault & Hsig & Heff).
  pose proof (custody_backend_faithful _ _ _ _ _ _ _ Hsig) as (x1 & Hx1 & Hver & Hcom).
  assert (x1 = x) as -> by congruence. pose proof (commit_unsigned _ _ _ _ _ _ Hcom) as [Hu _].
  destruct (validated_record _ _ _ _ _ _ _ _ _ Hval Haud) as [Ek Ed].
  destruct (spent_vault_unsigned (bg_network s) _ _ Hu) as [Ek' Ed'].
  destruct (signed_response_Ok _ _ _ _ _ _ _ _ Hcom (eq_sym Er)) as (H1 & H2 & H3).
  unfold signature_of. cbn [sv_world sv_request sv_effects].
  exists body, v, psbt, t, op, x, a, sim, vault, sig, psbt', (sr_audit res), hash,
    [Reserved (record_key (sr_audit res)) (aud_unsignedTxDigest (sr_audit res)) rv],
    (match env_writeAfterSign (sw_sign w) (sr_audit res) hash with Ok _ => [Finalized hash] | Throw _ => [] end).
  split_and!; try done; [by apply authorised_true|by apply committed_spend|by rewrite Ek, Ek'|by rewrite Ed, Ed'|].
  by destruct (env_writeAfterSign _ _ _).
Qed.

(** *** The journal over a run *)
Notation calls := (rtc (call_step execFile bin (custodySigningBackend (bg_custodyBackend s)) (bg_riskPolicy s))).

(** A request is a call of the signer, or none; what it signed is what its
    trace says. *)
Lemma handle_calls w rq st reply st1 effects now g :
  handle w rq st = (reply, st1, effects) →
  now ≤ env_now (sw_sign w) ≤ env_later (sw_sign w) →
  let e := {| sv_world := w; sv_request := rq; sv_reply := reply; sv_effects := effects;
              sv_before := ss_journal st; sv_after := ss_journal st1 |} in
  ∃ now' signed, now ≤ now' ≤ env_later (sw_sign w)
  ∧ calls {| sn_store := ss_journal st; sn_now := now; sn_held := []; sn_signed := g |}
      {| sn_store := ss_journal st1; sn_now := now'; sn_held := []; sn_signed := signed |}
  ∧ ∀ x, x ∈ signed ↔ x ∈ served_grants e ∨ x ∈ g.
Proof.
  intros H Hn e.
  assert (effects = [] → ss_journal st1 = ss_journal st → ∃ now' signed, now ≤ now' ≤ env_later (sw_sign w)
    ∧ calls {| sn_store := ss_journal st; sn_now := now; sn_held := []; sn_signed := g |}
        {| sn_store := ss_journal st1; sn_now := now'; sn_held := []; sn_signed := signed |}
    ∧ ∀ x, x ∈ signed ↔ x ∈ served_grants e ∨ x ∈ g) as Hidle.
  { intros He ->. exists now, g. split; [lia|]. split; [done|]. unfold served_grants. subst e. cbn [sv_effects]. rewrite He.
    cbn. set_solver. }
  apply handle_run in H as [(_ & -> & -> & _)|(_ & ok & _ & [(-> & Hj & _)|(_ & body & r & _ & Ht & _)])]; [by auto..|].
  apply transport_sign_run in Ht as [(Hj & -> & _)|(v & psbt & t & op & out & _ & _ & Hs & _)]; [by auto|].
  exists (env_later (sw_sign w)),
    ((signature_grant (bg_network s) (ss_journal st) (ss_journal st1) (sw_sign w) <$> signed_psbts out effects) ++ g).
  split; [lia|]. split.
  { apply rtc_once. exists (asked w psbt t), op, (sw_sign w), out, effects.
    split_and!; [cbn; lia|cbn; lia|exact Hs|reflexivity..]. }
  intros x. cbn [sn_signed]. rewrite elem_of_app. unfold served_grants. subst e. cbn [sv_before sv_after sv_world sv_effects].
  change (tr_network (asked w psbt t)) with (bg_network s). rewrite !list_elem_of_fmap.
  split; (intros [(p & -> & Hp)|Hx]; [left; exists p; split; [done|]|by right]).
  - destruct (signed_psbts_in _ _ _ _ _ _ _ _ _ _ _ p Hs Hp) as (res & Er & Hby). apply traced_in.
    apply (sign_signed_by _ _ _ _ _ _ _ _ _ _ _ _ Hs). eauto.
  - unfold signed_psbts. apply elem_of_app. by right.
Qed.

Lemma serves_calls st es st' :
  serves st es st' → ∀ now g, timely now es →
  ∃ now' signed,
    calls {| sn_store := ss_journal st; sn_now := now; sn_held := []; sn_signed := g |}
      {| sn_store := ss_journal st'; sn_now := now'; sn_held := []; sn_signed := signed |}
    ∧ ∀ x, x ∈ signed ↔ x ∈ run_grants es ∨ x ∈ g.
Proof.
  induction 1 as [st|st w rq reply st1 effects es st2 Hh _ IH]; intros now g Ht.
  { exists now, g. split; [done|]. unfold run_grants. cbn. set_solver. }
  destruct Ht as (Hn1 & Hn2 & Ht). cbn [sv_world] in *.
  destruct (handle_calls _ _ _ _ _ _ now g Hh ltac:(lia)) as (now1 & g1 & Hn & H1 & Hg1).
  destruct (IH now1 g1) as (now' & signed & H2 & Hin).
  { destruct es; [done|]. destruct Ht as (? & ? & ?). split_and!; [lia..|done]. }
  exists now', signed. split; [by etrans|]. intros x. rewrite Hin, Hg1. unfold run_grants. cbn [mbind list_bind].
  rewrite elem_of_app. tauto.
Qed.

(** *** The limiter over a run *)
Definition limited (es : list Served) (cs : list GuardianLimiter.Call) : Prop :=
  ∀ ip from, tally (signed_for ip from) es ≤ tally (GuardianLimiter.let_through 60000 ip from) cs.

Lemma serves_limited st es st' :
  serves st es st' → ∀ now, timely now es →
  ∃ cs, GuardianLimiter.calls 60000 120 (ss_limiter st) cs (ss_limiter st') ∧ ordered GuardianLimiter.c_now cs
  ∧ Forall (λ c, now ≤ GuardianLimiter.c_now c) cs ∧ limited es cs.
Proof.
  induction 1 as [st|st w rq reply st1 effects es st2 Hh _ IH]; intros now Ht.
  { exists []. split_and!; [constructor|constructor|constructor|by intros ip from]. }
  destruct Ht as (Hn1 & Hn2 & Ht). cbn [sv_world] in *. destruct (IH _ Ht) as (cs & Hcs & Hord & Hall & Hl).
  apply handle_run in Hh as [(_ & -> & _ & ->)|(_ & ok & Hok & Hr)].
  - exists cs. split_and!; [done..| |exact Hl]. eapply Forall_impl; [exact Hall|]. cbn. lia.
  - exists ({| GuardianLimiter.c_key := rq_ip rq; GuardianLimiter.c_now := sw_now w; GuardianLimiter.c_allowed := ok |} :: cs).
    assert (Forall (λ c, sw_now w ≤ GuardianLimiter.c_now c) cs) as Hlater by (eapply Forall_impl; [exact Hall|cbn; lia]).
    split_and!; [by econstructor|by constructor| |].
    + constructor; [cbn; lia|]. eapply Forall_impl; [exact Hlater|]. cbn. lia.
    + intros ip from. rewrite !tally_cons. specialize (Hl ip from).
      assert (ok = false → ∀ r, reply ≠ SignReply (SignSuccess r)) as Hno.
      { intros ->. destruct Hr as [(_ & _ & Hno)|([=] & _)]. done. }
      unfold signed_for at 1, GuardianLimiter.let_through at 1. cbn [sv_reply sv_request sv_world GuardianLimiter.c_key
        GuardianLimiter.c_now GuardianLimiter.c_allowed].
      destruct ok; [|destruct reply as [| | | | |[r|]]; cbn [andb]; try lia; by destruct (Hno eq_refl r)].
      destruct reply as [| | | | |[r|]]; cbn [andb]; try case_match; lia.
Qed.
End Serving.

Section Service.
Context {C : Crypto} {B : BitcoinJs} {T : TestKeys} {E : Ecc} {PG : Postgres}.
Context (toOutputScript : string → btc_network → result (list byte)).
Context (readFile : string → result string) (resolvePath : string → string → string).
Context (execFile : string → list string → Z → exec_outcome) (bin : option string).
Context (toBase64 : Psbt → string) (stringifyBigint : SignedTransitionResult → string).
Context (psbtFromBase64 : option json → result Psbt) (text_param : option json → result string).

(** C22: what a Guardian service does once it started, whatever requests come.
    It started on a profile that validated, the committed one on mainnet and
    only there, and with that profile's key or with none.  Every signature it
    answers with went to a request with its token (or one whose header has the
    same SHA-256), for a transition that its validation accepts under that
    profile's network, keys and fees and its risk policy allows.  What it signed
    is the PSBT it validated: the transaction is the same, only the first
    input's witness is new, it spends the vault's leaf of the operation, and
    its signature verifies under the profile's key.  The audit record of that
    transaction was confirmed before the signature was made.  No two different
    transactions, by the id of the signed PSBT, that spend one vault outpoint
    are signed under overlapping leases; and no address gets more than 239
    signatures in a minute. *)
Theorem guardian_service_signs env chain boot built j es st' now :
  guardian_main toOutputScript readFile resolvePath env chain = Ok (boot, built) →
  serves execFile bin toBase64 stringifyBigint psbtFromBase64 text_param (gb_authToken boot) built
    {| ss_limiter := ∅; ss_journal := j |} es st' →
  timely now es →
  started boot built
  ∧ (∀ e success, e ∈ es → sv_reply e = SignReply (SignSuccess success) →
      signature_of execFile bin toBase64 psbtFromBase64 (gb_authToken boot) built e success
      ∧ ∃ x g, cb_xOnlyPubkey (bg_custodyBackend built) = Ok x ∧ mp_guardianXOnly (cm_profile (gb_profile boot)) = Some g
        ∧ toHex x = toLowerCase g)
  ∧ (∀ a b, a ∈ run_grants built es → b ∈ run_grants built es → gr_key a = gr_key b → gr_digest a ≠ gr_digest b → gr_at a ≤ gr_at b →
      gr_at a < gr_until a ≤ gr_at b ∧ (gr_fresh a = true → gr_at a + SIGNING_JOURNAL_TTL_MS ≤ gr_at b))
  ∧ ∀ ip from, tally (signed_for ip from) es ≤ 239.
Proof.
  intros Hm Hs Ht. pose proof (guardian_main_started _ _ _ _ _ _ _ Hm) as Hst. split_and!; [done| | |].
  - intros e success Hin Hr.
    assert (signature_of execFile bin toBase64 psbtFromBase64 (gb_authToken boot) built e success) as Hsig.
    { clear Ht. induction Hs as [|st w rq reply st1 effects es st2 Hh _ IH]; [by apply elem_of_nil in Hin|].
      apply elem_of_cons in Hin as [->|Hin]; [|by apply IH]. cbn [sv_reply] in Hr. subst reply. by eapply served_signature. }
    split; [done|]. destruct Hsig as (body & v & psbt & t & op & x & a & sim & vault & sig & psbt' & record & hash & l1 & l2
      & _ & _ & _ & _ & Hx & _).
    rewrite <- (st_profile _ _ Hst). destruct (st_custody _ _ Hst) as [Hu|(x' & g & Hx' & Hg & Ex)]; [by rewrite Hu in Hx|].
    by exists x', g.
  - intros a b Ha Hb. destruct (serves_calls _ _ _ _ _ _ _ _ _ _ _ Hs now [] Ht) as (now' & signed & Hrun & Hin).
    destruct (calls_serial _ _ _ _ (custody_backend_faithful _) _ _ (no_signers j now) Hrun) as (u & Hu & Hf); [by split|].
    apply (grants_exclude u); [|by apply (fl_signed _ _ Hf), Hin; left..].
    eapply exclusive_run; [|apply (exclusive_start j now)]. apply serial_run; [exact Hu|apply exclusive_start].
  - intros ip from. destruct (serves_limited _ _ _ _ _ _ _ _ _ _ _ Hs now Ht) as (cs & Hcs & Hord & _ & Hl).
    etrans; [apply Hl|]. by apply (GuardianLimiter.guardian_limiter_bound 60000 120 cs (ss_limiter st') ip from Hcs Hord).
Qed.
End Service.
