(* ===== verification/GuardianServiceExamples.v ===== *)
(** * A Guardian service at work

    A service on regtest with the profile of the fixture, asked for a signature
    without its token, with it, and again a minute later: the witness of its
    theorem. *)
From S2P Require Import Prelude Bytes Number Discovery Curve Economics Wire Covenant Simplicity Vault Indexer IndexerInv IndexerExamples Store Hydrate PersistentExamples Spend AuditLog Profile ProfileInv Guardian GuardianInv Builder BuilderInv GuardianExamples Journal Signing SigningInv SigningExamples AppConfig ProfileExamples RateLimit.
From S2P Require Import MarketService GuardianService GuardianServiceInv.

#[local] Existing Instance toy_crypto.
#[local] Existing Instance toy_postgres.
#[local] Existing Instance sign_bitcoinjs.
#[local] Existing Instance toy_builder.
#[local] Existing Instance toy_test_keys.

Definition fixture_guardian : list byte := fromHex (default ""%string (Profile.mp_guardianXOnly fixture_profile)).

(** Every private key has the public key of the fixture. *)
#[local] Instance service_ecc : Ecc := {|
  signTaprootInput p i k l := Ok (zeros 64);
  signSchnorr h k := Ok (zeros 64);
  publicKey_of k := Ok (to_byte 2 :: fixture_guardian);
  isPrivate k := true;
  updateFinalWitness := toy_update;
  updateFinalWitness_sets := toy_update_sets;
|}.

Definition service_env : Env :=
  {["COVE_NETWORK"%string := "regtest"%string; "GUARDIAN_AUTH_TOKEN"%string := "secret"%string;
    "COVE_DATABASE_URL"%string := "postgres://db"%string; "COVE_BITCOIN_RPC_URL"%string := "http://node"%string;
    "COVE_TEST_ONLY_PROFILE_PATH"%string := "profile.json"%string;
    "GUARDIAN_KEY_HEX"%string := toHex (replicate 32 (to_byte 0x11)) ]}.

Definition service_main : result (GuardianBoot * BuiltGuardianService) :=
  guardian_main toy_toOutputScript (λ _, Ok fixture_json) (λ _ p, p) service_env (Ok "regtest"%string).

Definition no_boot : GuardianBoot := {|
  gb_network := Regtest; gb_mainnetGuard := false;
  gb_profile := {| cm_profile := fixture_profile; cm_validation := all_valid; cm_profileHash := "" |};
  gb_source := SourceTestOnly; gb_custodyBackend := UnconfiguredGuardianCustodyBackend;
  gb_custody := CustodyUnconfigured; gb_databaseUrl := ""; gb_coreRpc := (""%string, None, None); gb_authToken := "";
  gb_port := 0; gb_ordUrl := None |}.
Definition no_service : BuiltGuardianService := {|
  bg_network := Regtest; bg_custodyBackend := UnconfiguredGuardianCustodyBackend; bg_ordUrl := None; bg_releaseId := "";
  bg_profile := fixture_profile; bg_profileHash := ""; bg_guardianXOnly := "";
  bg_recoveryProfile := {| profileVersion := MAINNET1; recoveryCsvBlocks := 0; recoveryThreshold := 0; recoveryPubkeys := [] |};
  bg_feeScript := []; bg_riskPolicy := toy_policy; bg_buyFeeBps := 0; bg_redeemFeeBps := 0 |}.

Definition service_boot : GuardianBoot := (get_ok (no_boot, no_service) service_main).1.
Definition service_built : BuiltGuardianService := (get_ok (no_boot, no_service) service_main).2.

(** A token the profile allows, and its vault. *)
Definition service_token : list byte := fromHex (default ""%string (head (mc_allowedTokenIds (mp_canary fixture_profile)))).
Definition service_state : CoveStateV2 := state_at (toHex service_token) 0.
Definition service_vault : CoveVaultV3 :=
  get_ok no_vault3 (buildBackingVaultV3 service_state fixture_guardian [] (Some (bg_recoveryProfile service_built)) (Some NetRegtest)).
Definition service_outpoint : OutPoint := {| op_txid := toHex (replicate 32 (to_byte 7)); op_vout := 1 |}.

Definition service_db : V3Db :=
  set_backings (set_tokens empty_db
    [token_row (toHex service_token)
       {| tm_tokenId := toHex service_token; tm_ticker := "COVE"; tm_policyVersion := 3; tm_tokenNonce := toHex (toy_key 1);
          tm_deployTxid := op_txid service_outpoint; tm_deployHeight := 1; tm_deployBlockHash := toHex (zeros 32);
          tm_creatorScript := toHex (toy_p2tr 3) |}])
    [backingRow {| bk_tokenId := toHex service_token; bk_state := service_state;
       bk_stateHash := get_ok ""%string (stateHashV2 sha256 service_state); bk_outpoint := service_outpoint;
       bk_scriptPubKey := toHex (v3_scriptPubKey service_vault); bk_btcValue := 10000; bk_updatedTxid := op_txid service_outpoint;
       bk_updatedHeight := 1; bk_updatedBlockHash := toHex (zeros 32) |}].

(** The mint of 400 lots, whose fees the profile sets. *)
Definition service_params (value : Z) : MintParams := {|
  mp_network := NetRegtest; mp_tokenId := service_token; mp_prevState := service_state;
  mp_prevBacking := {| si_txid := op_txid service_outpoint; si_vout := 1; si_script := v3_scriptPubKey service_vault;
                       si_valueSats := 10000; si_publicKey := None |};
  mp_mintAmountAtoms := 400 * LOT; mp_guardianXOnly := fixture_guardian; mp_recoveryKeyXOnly := [];
  mp_recoveryProfile := Some (bg_recoveryProfile service_built);
  mp_buyerInputs := [{| si_txid := no_txid; si_vout := 2; si_script := toy_p2wpkh 1; si_valueSats := value;
                        si_publicKey := None |}];
  mp_buyerCarrierScript := toy_p2tr 4; mp_buyerChangeScript := toy_p2wpkh 1; mp_feeScript := bg_feeScript service_built;
  mp_creatorScript := toy_p2tr 3; mp_creatorFeeBps := None; mp_minerFeeSats := 500; mp_buyFeeBps := Some (bg_buyFeeBps service_built);
  mp_buyFeeFlatSats := None; mp_discoveryEnvelope := None |}.

Definition service_psbt (value : Z) : Psbt := mb_psbt (toy_mint_built (service_params value)).

Definition service_body : string :=
  requote "{'operation':'MINT','psbtBase64':'unsigned','tokenId':'" +:+ toHex service_token +:+ requote "'}".

(** Another PSBT for the same vault goes by another name. *)
Definition service_from64 (v : option json) : result Psbt :=
  match v with Some (JString s) => Ok (service_psbt (if String.eqb s "unsigned" then 100000 else 200000)) | _ => Throw out_of_range end.
Definition service_text (v : option json) : result string :=
  match v with Some (JString s) => Ok s | _ => Throw out_of_range end.

Definition service_request_at (token : string) : HttpRequest := {|
  rq_method := "POST"; rq_url := Some "/sign"%string; rq_authorization := Some ("Bearer " +:+ token); rq_remoteAddress := Some "::1"%string;
  rq_chunks := [utf8 service_body] |}.
Definition service_world (now : Z) : ServiceWorld := {|
  sw_tables := service_db; sw_getTxout o := Ok (Some 3); sw_fetch u := Throw out_of_range;
  sw_sign := toy_env "r" now; sw_now := now; sw_headHash := Ok ""%string; sw_probe := Ok tt |}.

Definition service_handle (now : Z) (token : string) (st : ServiceState) :=
  handle toy_exec toy_bin toy_base64 (λ _, "{}"%string) service_from64 service_text (gb_authToken service_boot) service_built
    (service_world now) (service_request_at token) st.

(** Requests with a token each, one after the other. *)
Fixpoint service_run (l : list (Z * string)) (st : ServiceState) : list Served * ServiceState :=
  match l with
  | [] => ([], st)
  | (now, token) :: l =>
      let '(reply, st1, effects) := service_handle now token st in
      let '(es, st2) := service_run l st1 in
      ({| sv_world := service_world now; sv_request := service_request_at token; sv_reply := reply; sv_effects := effects;
          sv_before := ss_journal st; sv_after := ss_journal st1 |} :: es, st2)
  end.

Lemma service_run_serves l st :
  serves toy_exec toy_bin toy_base64 (λ _, "{}"%string) service_from64 service_text (gb_authToken service_boot) service_built
    st (service_run l st).1 (service_run l st).2.
Proof.
  revert st. induction l as [|[now token] l IH]; intros st; [constructor|]. cbn [service_run].
  destruct (service_handle now token st) as [[reply st1] effects] eqn:Eh. specialize (IH st1).
  destruct (service_run l st1) as [es st2]. unfold service_handle in Eh. exact (serves_cons _ _ _ _ _ _ _ _ _ _ _ _ _ _ _ _ Eh IH).
Qed.

Definition service_start : ServiceState := {| ss_limiter := ∅; ss_journal := ∅ |}.
Definition service_requests : list (Z * string) := [(1, "guess"); (2, "secret"); (60003, "secret")]%string.

Lemma service_main_Ok :
  guardian_main toy_toOutputScript (λ _, Ok fixture_json) (λ _ p, p) service_env (Ok "regtest"%string)
  = Ok (service_boot, service_built).
Proof.
  assert (service_main = Ok (service_boot, service_built)) as H; [|unfold service_main in H; exact H].
  assert (is_ok service_main = true) as H by (vm_compute; reflexivity). unfold service_boot, service_built.
  destruct service_main as [[boot built]|]; [done|discriminate H].
Qed.

Lemma guardian_service_signs_witness :
  let es := (service_run service_requests service_start).1 in
  http_status ∘ sv_reply <$> es = [401; 200; 200] ∧ length (run_grants service_built es) = 2%nat
  ∧ started service_boot service_built ∧ ∀ ip from, tally (signed_for ip from) es ≤ 239.
Proof.
  intros es. split; [vm_compute; reflexivity|]. split; [vm_compute; reflexivity|].
  assert (timely 0 es) as Ht by (vm_compute; repeat split; discriminate).
  assert (serves toy_exec toy_bin toy_base64 (λ _, "{}"%string) service_from64 service_text (gb_authToken service_boot) service_built
    service_start es (service_run service_requests service_start).2) as Hs by apply service_run_serves.
  clearbody es.
  pose proof (guardian_service_signs toy_toOutputScript (λ _, Ok fixture_json) (λ _ p, p) toy_exec toy_bin toy_base64
    (λ _, "{}"%string) service_from64 service_text service_env (Ok "regtest"%string) service_boot service_built ∅ es
    (service_run service_requests service_start).2 0 service_main_Ok Hs Ht) as H.
  exact (conj (proj1 H) (proj2 (proj2 (proj2 H)))).
Defined.
