(* ===== verification/Worker.v ===== *)
(** * The worker: apps/worker/src/v3.ts

    The process that follows Bitcoin Core: it hydrates the indexer's state, and
    then, tick after tick, looks for a reorganisation, catches up, reconciles
    the market and the sessions.  An error ends a tick, not the worker.  The
    counters of packages/cove-app/src/metrics.ts are here too.

    During a tick the node, its clock and the connection stand still. *)
From S2P Require Import Prelude Bytes Covenant Vault Indexer Store Hydrate Persistent Spend Guardian Number Signing Profile AppConfig Readiness Market MarketService.
From S2P Require Import AppFunding TxSession AppQuote AppService.

(** ** metrics.ts *)
Record Metrics := { mx_counters : gmap string Z; mx_gauges : gmap string Z }.

Definition no_metrics : Metrics := {| mx_counters := ∅; mx_gauges := ∅ |}.

Definition inc (name : string) (by_ : Z) (m : Metrics) : Metrics :=
  {| mx_counters := <[name := default 0 (mx_counters m !! name) + by_]> (mx_counters m); mx_gauges := mx_gauges m |}.
Definition gauge (name : string) (value : Z) (m : Metrics) : Metrics :=
  {| mx_counters := mx_counters m; mx_gauges := <[name := value]> (mx_gauges m) |}.
Definition snapshot (m : Metrics) : gmap string Z * gmap string string := (mx_counters m, pretty <$> mx_gauges m).

(** ** Starting *)
Definition indexer_config (config : V3AppConfig) : V3IndexerConfig := {|
  cfg_network := ac_network config; cfg_chainIdentity := ac_chainIdentity config;
  cfg_guardianXOnly := ac_guardianXOnly config; cfg_recoveryKeyXOnly := ac_recoveryKeyXOnly config;
  cfg_recoveryProfile := ac_recoveryProfile config; cfg_feeScript := ac_feeScript config;
  cfg_genesisHeight := ac_activationHeight config; cfg_buyFeeBps := Some (ac_buyFeeBps config);
  cfg_buyFeeFlatSats := None; cfg_creatorFeeBps := None; cfg_redeemFeeBps := Some (ac_redeemFeeBps config);
  cfg_redeemFeeFlatSats := None |}.

Section Start.
Context {C : Crypto} {B : Bitcoin} {L : Locale} {J : BitcoinJs} {T : TestKeys} {E : Ecc} {PG : Postgres}.
Context (toOutputScript : string → btc_network → result (list byte)).
(** [SELECT pg_try_advisory_lock($1)] on a connection of its own *)
Context (try_lock : Z → result bool).

Definition acquireNetworkLock (network : string) : result unit :=
  key ← workerLockKey network;
  ok ← try_lock key;
  throw_if (negb ok) (js_error ("another V3 worker owns network " +:+ quoted network +:+ " (advisory lock held)")).

Definition worker_main (env : Env) (d : V3Db) : result (V3AppConfig * V3IndexerState) :=
  let url := default ""%string (match env !! "COVE_DATABASE_URL"%string with Some u => Some u | None => env !! "DATABASE_URL"%string end) in
  throw_if (String.eqb url "") (js_error "COVE_DATABASE_URL is required");;
  config ← loadV3AppConfig toOutputScript env None;
  throw_if (negb (ac_enabled config))
    (js_error ("the V3 app is not enabled for " +:+ network_name (ac_network config) +:+ " (committed network settings)"));;
  acquireNetworkLock (network_name (ac_network config));;
  state ← hydrateState d (ac_network config) (indexer_config config);
  Ok (config, state).
End Start.

(** ** A tick *)
Record WorkerState := {
  ws_world : V3Db * V3IndexerState; ws_market : MarketDb; ws_app : AppState; ws_metrics : Metrics
}.

Record TickWorld := {
  tk_db : Connection; tk_provider : CoreRpcProvider; tk_node : MarketNode; tk_env : AppEnv; tk_now : Z
}.

Section Tick.
Context {C : Crypto} {B : Bitcoin} {L : Locale} {PG : Postgres}.
Context (config : V3IndexerConfig).

(** Core has another block where the cursor stands. *)
Definition reorg_detected (provider : CoreRpcProvider) (st : V3IndexerState) : result bool :=
  coreHeight ← getBlockchainInfo provider;
  if (0 <? cur_height (cursor st)) && (cur_height (cursor st) <=? coreHeight) then
    hash ← getBlockHash provider (cur_height (cursor st));
    Ok (negb (String.eqb hash (cur_blockHash (cursor st))))
  else Ok false.

(** The first two steps of a tick: the indexer's. *)
Definition index_tick (db : Connection) (provider : CoreRpcProvider) (w : V3Db * V3IndexerState) (m : Metrics)
    : (V3Db * V3IndexerState) * Metrics * result unit :=
  let catch_up w m :=
    match persistentWorker config db provider false w with
    | (w, Throw e) => (w, m, Throw e)
    | (w, Ok _) => (w, m, Ok tt)
    end in
  match reorg_detected provider w.2 with
  | Throw e => (w, m, Throw e)
  | Ok false => catch_up w m
  | Ok true =>
      match reorgPersistentToTip config db provider w with
      | (w, Throw e) => (w, m, Throw e)
      | (w, Ok _) => catch_up w (inc "market.confirmations" 1 m)
      end
  end.

Definition tick (t : TickWorld) (s : WorkerState) : WorkerState :=
  let '(w, m, r) := index_tick (tk_db t) (tk_provider t) (ws_world s) (ws_metrics s) in
  match r with
  | Throw _ => {| ws_world := w; ws_market := ws_market s; ws_app := ws_app s; ws_metrics := m |}
  | Ok _ =>
      match reconcileMarket w.1 (tk_node t) (tk_now t) (ws_market s) with
      | (market, Throw _) => {| ws_world := w; ws_market := market; ws_app := ws_app s; ws_metrics := m |}
      | (market, Ok report) =>
          let m := inc "market.confirmations" (mr_confirmed report)
                     (gauge "market.listings_active" (mr_confirmed report) m) in
          match reconcileAppSessions w.1 (tk_env t) (ws_app s) with
          | (app, Throw _) => {| ws_world := w; ws_market := market; ws_app := app; ws_metrics := m |}
          | (app, Ok confirmed) =>
              {| ws_world := w; ws_market := market; ws_app := app; ws_metrics := inc "market.broadcasts" confirmed m |}
          end
      end
  end.

(** The worker's loop, for the ticks it has made. *)
Definition worker_run (ts : list TickWorld) (s : WorkerState) : WorkerState := foldl (λ s t, tick t s) s ts.
End Tick.
