(* ===== verification/WorkerInv.v ===== *)
(** * The worker follows the chain

    Over any ticks, whichever commits fail, memory and tables stay in lockstep
    on a prefix of a chain that Core showed; a tick in which no commit fails
    ends on Core's chain, whatever was indexed before, unless that chain is
    shorter. *)
From S2P Require Import Prelude Bytes Curve Economics Wire Covenant Vault Json Undo Indexer IndexerInv.
From S2P Require Import Store StoreInv Hydrate Persistent Lockstep PersistentInv MarketService AppService Worker.

#[export] Instance V3BlockInput_eq_dec : EqDecision V3BlockInput.
Proof. solve_decision. Defined.

(** Two lists up to where they part. *)
Lemma common_prefix {A} `{EqDecision A} (l k : list A) :
  ∃ p l' k', l = p ++ l' ∧ k = p ++ k' ∧ ∀ x y, head l' = Some x → head k' = Some y → x ≠ y.
Proof.
  revert k. induction l as [|x l IH]; intros k; [by exists [], [], k|].
  destruct k as [|y k]; [by exists [], (x :: l), []|].
  destruct (decide (x = y)) as [->|Hne]; [|exists [], (x :: l), (y :: k); naive_solver].
  destruct (IH k) as (p & l' & k' & -> & -> & H). by exists (y :: p), l', k'.
Qed.

Section Follow.
Context {C : Crypto} {B : Bitcoin} {L : Locale} {PG : Postgres}.
Context (config : V3IndexerConfig).

Notation floor := (reorg_floor config).
Notation start_state := (new_state config).

(** Core's answers while its chain, from the first block that is indexed, is [c]. *)
Definition shows (provider : CoreRpcProvider) (c : list V3BlockInput) : Prop :=
  getBlockchainInfo provider = Ok (floor + Z.of_nat (length c))
  ∧ ∀ i b, c !! i = Some b →
      getBlockHash provider (floor + 1 + Z.of_nat i) = Ok (blk_hash b)
      ∧ getBlock provider (blk_hash b) = Ok {| cb_hash := blk_hash b; cb_previousBlockHash := blk_parentHash b;
                                              cb_rawTxs := blk_txs b |}.

(** The chains Core ever shows: their blocks follow each other, and the hash of
    a block stands for all the blocks up to it. *)
Record chains (Chain : list V3BlockInput → Prop) : Prop := {
  ch_future : ∀ c, Chain c → future config [] start_state (floor + 1) c;
  ch_tree : ∀ c c' i b b', Chain c → Chain c' → c !! i = Some b → c' !! i = Some b' → blk_hash b = blk_hash b' →
    take (S i) c = take (S i) c';
}.

Lemma floor_nonneg : 0 ≤ floor.
Proof. unfold reorg_floor. destruct (Z.ltb_spec 0 (cfg_genesisHeight config)); lia. Qed.

Lemma follows_height st h bs i b : follows config st h bs → bs !! i = Some b → blk_height b = h + Z.of_nat i.
Proof.
  revert st h i. induction bs as [|x bs IH]; intros st h i; [done|]. intros (Hx & _ & Hf) Hi.
  destruct i as [|i]; cbn in Hi; [injection Hi as <-; lia|]. rewrite (IH _ _ _ Hf Hi). lia.
Qed.

(** What memory holds of an indexed chain. *)
Record remembers (bs : list V3BlockInput) (st : V3IndexerState) : Prop := {
  rm_hashes : ∀ i b, bs !! i = Some b → bu_blockHash <$> undoByHeight st !! (floor + 1 + Z.of_nat i) = Some (blk_hash b);
  rm_height : cur_height (cursor st) = match bs with [] => 0 | _ => floor + Z.of_nat (length bs) end;
  rm_hash : ∀ b, last bs = Some b → cur_blockHash (cursor st) = blk_hash b;
}.

Lemma indexed_remembers bs st :
  follows config start_state (floor + 1) bs → index_blocks config start_state bs = Ok st → remembers bs st.
Proof.
  revert st. induction bs as [|b bs IH] using rev_ind; intros st Hf Hi.
  { injection Hi as <-. by split. }
  rewrite index_blocks_app in Hi. apply bind_Ok in Hi as (st0 & Hi0 & Hi).
  destruct (follows_app config _ _ _ _ _ Hi0 Hf) as (Hf0 & Hb & Hn & _). destruct (IH st0 Hf0 Hi0) as [Hh _ _].
  cbn [index_blocks] in Hi. destruct (applyBlock config st0 b) as [st' [evs|e]] eqn:E; [|done]. injection Hi as ->.
  apply applyBlock_Ok in E as (st1 & ops & _ & _ & _ & Eu & Ec); [|apply Hn]. split.
  - intros i x Hx. rewrite Eu. apply lookup_app_Some in Hx as [Hx|[Hlen Hx]].
    + rewrite lookup_insert_ne; [by apply Hh|]. apply lookup_lt_Some in Hx. lia.
    + destruct (i - length bs)%nat as [|k] eqn:Ek; [|done]. injection Hx as ->.
      replace (floor + 1 + Z.of_nat i) with (blk_height x) by lia. by rewrite lookup_insert_eq.
  - rewrite Ec. cbn. rewrite Hb, length_app. cbn [length]. destruct (bs ++ [b]) eqn:Ea; [by destruct bs|]. lia.
  - intros x. rewrite last_snoc. intros [= <-]. by rewrite Ec.
Qed.

Lemma remembers_start bs st : remembers bs st → worker_start config st = floor + 1 + Z.of_nat (length bs).
Proof.
  intros [_ Hh _]. unfold worker_start. rewrite Hh. unfold reorg_floor.
  destruct (Z.ltb_spec 0 (cfg_genesisHeight config)), bs; cbn [length];
    match goal with |- (if ?x <? ?y then _ else _) = _ => destruct (Z.ltb_spec x y) end; lia.
Qed.

Lemma shows_serves provider c p new :
  shows provider c → c = p ++ new → follows config start_state (floor + 1) c →
  serves provider (floor + 1 + Z.of_nat (length p)) new.
Proof.
  intros [_ Hs] -> Hf. revert p Hs Hf. induction new as [|b new IH]; intros p Hs Hf; [done|]. cbn [serves].
  assert ((p ++ b :: new) !! length p = Some b) as Hb by by apply list_lookup_middle.
  split_and!; [by apply (follows_height _ _ _ _ _ Hf)|destruct (Hs _ _ Hb); by eexists|].
  replace (floor + 1 + Z.of_nat (length p) + 1) with (floor + 1 + Z.of_nat (length (p ++ [b])))
    by (rewrite length_app; cbn [length]; lia).
  apply IH; by rewrite <- app_assoc.
Qed.

Lemma future_suffix p new stp :
  future config [] start_state (floor + 1) (p ++ new) → index_blocks config start_state p = Ok stp →
  future config p stp (floor + 1 + Z.of_nat (length p)) new.
Proof.
  intros [Hf Hx Hid] Hi. destruct (follows_app config _ _ _ _ _ Hi Hf) as [_ Hn]. apply Forall_app in Hx as [_ Hx]. by split.
Qed.

(** Catching up with a chain that goes on from what is indexed. *)
Lemma catches_up db provider m new d st w r :
  lockstep config m d st → future config [] start_state (floor + 1) (m ++ new) → shows provider (m ++ new) →
  persistentWorker config db provider false (d, st) = (w, r) →
  ∃ pre post, new = pre ++ post ∧ lockstep config (m ++ pre) w.1 w.2
  ∧ (reliable db → is_ok (index_blocks config start_state (m ++ new)) = true → post = []).
Proof.
  intros Hl Hf Hs Hw. pose proof (lockstep_index _ _ _ _ Hl) as Hi. pose proof Hf as [Hfo _ _].
  destruct (follows_app config _ _ _ _ _ Hi Hfo) as [Hfm _].
  pose proof (remembers_start _ _ (indexed_remembers _ _ Hfm Hi)) as Hst.
  destruct (persistentWorker_lockstep config db m d st new provider false w r Hl) as (pre & post & E & Hlw & Hd & Hr).
  - rewrite Hst. by apply future_suffix.
  - destruct Hs as [-> _]. rewrite Hst, length_app. f_equal. lia.
  - rewrite Hst. by apply (shows_serves provider (m ++ new)).
  - done.
  - exists pre, post. split_and!; [done..|]. intros Hrel Hok. apply Hd, Hr; [done|].
    by rewrite index_blocks_app, Hi in Hok.
Qed.

Section Chains.
Context (Chain : list V3BlockInput → Prop) (Hch : chains Chain).
#[local] Set Default Proof Using "Type*".

(** Memory is at some point of a chain Core showed. *)
Definition on_chain (m : list V3BlockInput) : Prop := ∃ c, Chain c ∧ m `prefix_of` c.

Lemma on_chain_follows m : on_chain m → follows config start_state (floor + 1) m ∨ ∀ st, index_blocks config start_state m ≠ Ok st.
Proof.
  intros (c & Hc & k & ->). destruct (ch_future _ Hch _ Hc) as [Hf _ _].
  destruct (index_blocks config start_state m) as [st|] eqn:Hi; [left|by right].
  by destruct (follows_app config _ _ _ _ _ Hi Hf).
Qed.

Lemma lockstep_remembers m d st : on_chain m → lockstep config m d st → remembers m st.
Proof.
  intros Hm Hl. pose proof (lockstep_index _ _ _ _ Hl) as Hi. apply indexed_remembers; [|done].
  destruct (on_chain_follows m Hm) as [?|Hno]; [done|by destruct (Hno st)].
Qed.

(** Where two chains part, and above, their blocks have other hashes. *)
Lemma parted p stale new i b b' :
  on_chain (p ++ stale) → Chain (p ++ new) → (∀ x y, head stale = Some x → head new = Some y → x ≠ y) →
  stale !! i = Some b → new !! i = Some b' → blk_hash b ≠ blk_hash b'.
Proof.
  intros (c & Hc & k & ->) Hn Hd Hb Hb' E.
  assert (((p ++ stale) ++ k) !! (length p + i)%nat = Some b) as H1.
  { rewrite <- app_assoc, lookup_app_r by lia. replace (length p + i - length p)%nat with i by lia. by apply lookup_app_l_Some. }
  assert ((p ++ new) !! (length p + i)%nat = Some b') as H2.
  { rewrite lookup_app_r by lia. by replace (length p + i - length p)%nat with i by lia. }
  pose proof (ch_tree _ Hch _ _ _ _ _ Hc Hn H1 H2 E) as Ht.
  apply (f_equal (lookup (length p))) in Ht. rewrite !lookup_take_lt in Ht by lia.
  rewrite <- app_assoc, lookup_app_r, Nat.sub_diag in Ht by lia.
  rewrite (lookup_app_r p new), Nat.sub_diag in Ht by lia.
  destruct stale as [|x stale], new as [|y new]; [done..|]. injection Ht as ->. by apply (Hd y y).
Qed.

Lemma shown_hash provider c i b h : shows provider c → c !! i = Some b → h = floor + 1 + Z.of_nat i → getBlockHash provider h = Ok (blk_hash b).
Proof. intros [_ Hs] Hb ->. by apply Hs. Qed.

Lemma last_lookup_length {A} (l : list A) : last l = l !! (length l - 1)%nat.
Proof. rewrite last_lookup. f_equal. lia. Qed.

(** The check of a tick: whether what is indexed is on Core's chain, as far as
    that chain goes. *)
Lemma reorg_detected_run provider p stale new d st :
  on_chain (p ++ stale) → lockstep config (p ++ stale) d st → Chain (p ++ new) → shows provider (p ++ new) →
  (∀ x y, head stale = Some x → head new = Some y → x ≠ y) →
  reorg_detected provider st = Ok (bool_decide (stale ≠ []) && bool_decide (length stale ≤ length new)%nat).
Proof.
  intros Hm Hl Hc Hs Hd. destruct (lockstep_remembers _ _ _ Hm Hl) as [_ Hh Hx]. pose proof floor_nonneg as Hfl.
  unfold reorg_detected. rewrite (proj1 Hs), bind_of_Ok, Hh.
  destruct (p ++ stale) as [|b0 m0] eqn:Em.
  { apply app_nil in Em as [-> ->]. cbn. done. }
  rewrite (proj2 (Z.ltb_lt _ _)) by (cbn [length]; lia). cbn [andb]. rewrite <- Em in *. rewrite !length_app.
  destruct (Z.leb_spec (floor + Z.of_nat (length p + length stale)) (floor + Z.of_nat (length p + length new))) as [Hle|Hgt].
  2:{ rewrite (bool_decide_eq_false_2 (length stale ≤ length new)%nat) by lia. by rewrite andb_false_r. }
  rewrite (bool_decide_eq_true_2 (length stale ≤ length new)%nat) by lia. rewrite andb_true_r.
  assert (length (p ++ stale) ≠ 0%nat) as Hlen by (rewrite Em; done). rewrite length_app in Hlen.
  destruct ((p ++ new) !! (length p + length stale - 1)%nat) as [b'|] eqn:Eb'.
  2:{ apply lookup_ge_None in Eb'. rewrite length_app in Eb'. lia. }
  rewrite (shown_hash _ _ _ _ _ Hs Eb') by lia. rewrite bind_of_Ok.
  destruct (last (p ++ stale)) as [b|] eqn:Eb; [|apply last_None in Eb; by rewrite Eb in Em]. rewrite (Hx b eq_refl). do 2 f_equal.
  rewrite last_lookup_length, length_app in Eb. destruct (decide (stale = [])) as [->|Hne].
  - rewrite bool_decide_eq_false_2 by tauto. rewrite app_nil_r in *. cbn [length] in *. rewrite Nat.add_0_r in *.
    rewrite lookup_app_l in Eb' by lia. rewrite Eb in Eb'. injection Eb' as ->. by rewrite String.eqb_refl.
  - rewrite bool_decide_eq_true_2 by done. assert (length stale ≠ 0%nat) by (by destruct stale).
    rewrite lookup_app_r in Eb, Eb' by lia. apply negb_true_iff, String.eqb_neq. intros E.
    replace (length p + length stale - 1 - length p)%nat with (length stale - 1)%nat in * by lia.
    by apply (parted p stale new _ b b' Hm Hc Hd Eb Eb').
Qed.

(** The reorganisation a tick then runs. *)
Lemma reorg_runs db provider p stale new d st w r :
  on_chain (p ++ stale) → lockstep config (p ++ stale) d st → Chain (p ++ new) → shows provider (p ++ new) →
  (∀ x y, head stale = Some x → head new = Some y → x ≠ y) → stale ≠ [] →
  reorgPersistentToTip config db provider (d, st) = (w, r) →
  (∃ m, on_chain m ∧ lockstep config m w.1 w.2)
  ∧ (∀ report, r = Ok report → lockstep config (p ++ new) w.1 w.2)
  ∧ (reliable db → is_ok (index_blocks config start_state (p ++ new)) = true → is_ok r = true).
Proof.
  intros Hm Hl Hc Hs Hd Hne Hr. destruct (lockstep_remembers _ _ _ Hm Hl) as [Hhash Hh _].
  pose proof (lockstep_index _ _ _ _ Hl) as Hi. rewrite index_blocks_app in Hi. apply bind_Ok in Hi as (stp & Hip & _).
  pose proof (ch_future _ Hch _ Hc) as Hf. pose proof Hf as [Hfo _ _].
  destruct (follows_app config _ _ _ _ _ Hip Hfo) as [Hfp _]. pose proof (indexed_remembers _ _ Hfp Hip) as [_ Hhp Hxp].
  assert (common_height config stp = floor + Z.of_nat (length p)) as Ea.
  { pose proof floor_nonneg. unfold common_height. rewrite Hhp. destruct p; cbn [length]; lia. }
  destruct (on_chain_follows _ Hm) as [Hfm|Hno]; [|by destruct (Hno st (lockstep_index _ _ _ _ Hl))].
  assert (p ++ stale ≠ []) as Hpne by (by destruct p).
  assert (cur_height (cursor st) = floor + Z.of_nat (length (p ++ stale))) as Hcur by (rewrite Hh; by destruct (p ++ stale)).
  destruct (reorg_run config db p stp stale d st new provider w r Hip Hl) as ((pre & post & Hpp & Hlw) & Hok & Hlive).
  - intros i b Hb. rewrite Ea. rewrite (follows_height _ _ _ (length p + i) b Hfm); [lia|].
    rewrite lookup_app_r by lia. by replace (length p + i - length p)%nat with i by lia.
  - rewrite Ea, (proj1 Hs), length_app. f_equal. lia.
  - rewrite Ea. destruct p as [|b0 p'] eqn:Ep; [left; cbn [length]; lia|right]. rewrite <- Ep in *.
    destruct (p !! (length p - 1)%nat) as [b|] eqn:Eb; [|apply lookup_ge_None in Eb; rewrite Ep in Eb; cbn in Eb; lia].
    assert (length p ≠ 0%nat) by by rewrite Ep. exists (blk_hash b). split.
    + apply (shown_hash provider (p ++ new) (length p - 1) b); [done|by apply lookup_app_l_Some|lia].
    + apply bool_decide_eq_true. replace (floor + Z.of_nat (length p)) with (floor + 1 + Z.of_nat (length p - 1)) by lia.
      apply Hhash. by apply lookup_app_l_Some.
  - rewrite Ea, Hcur, length_app. intros h H1 H2.
    assert (∃ i, h = floor + 1 + Z.of_nat (length p + i)) as (i & ->)
      by (exists (Z.to_nat (h - floor - 1 - Z.of_nat (length p))); lia).
    destruct (stale !! i) as [b|] eqn:Eb; [|apply lookup_ge_None in Eb; lia].
    destruct (new !! i) as [b'|] eqn:Eb'; [|apply lookup_ge_None in Eb'; lia]. exists (blk_hash b').
    assert (∀ (l : list V3BlockInput) x, l !! i = Some x → (p ++ l) !! (length p + i)%nat = Some x) as Hin.
    { intros l x Hx. rewrite lookup_app_r by lia. by replace (length p + i - length p)%nat with i by lia. }
    split; [by apply (shown_hash provider (p ++ new) (length p + i) b' _ Hs (Hin _ _ Eb'))|].
    apply bool_decide_eq_false. rewrite (Hhash _ _ (Hin _ _ Eb)). intros [= E]. by apply (parted p stale new i b b' Hm Hc Hd Eb Eb').
  - rewrite Ea. replace (floor + Z.of_nat (length p) + 1) with (floor + 1 + Z.of_nat (length p)) by lia. by apply future_suffix.
  - rewrite Ea. replace (floor + Z.of_nat (length p) + 1) with (floor + 1 + Z.of_nat (length p)) by lia.
    by apply (shows_serves provider (p ++ new)).
  - done.
  - split_and!; [exists (p ++ pre); split; [|done]| |].
    + destruct Hpp as [->| ->]; [|exists (p ++ pre ++ post); split; [done|by exists post; rewrite <- app_assoc]].
      destruct Hm as (c & Hcc & k & ->). exists ((p ++ pre ++ post) ++ k). split; [done|]. exists (post ++ k). by rewrite <- !app_assoc.
    + intros report E. by apply (Hok report E).
    + intros Hrel Hix. apply Hlive; [done|]. by rewrite index_blocks_app, Hip in Hix.
Qed.

(** *** One tick *)
Lemma index_tick_follows db provider m c d st mx w mx' r :
  on_chain m → lockstep config m d st → Chain c → shows provider c →
  index_tick config db provider (d, st) mx = (w, mx', r) →
  (∃ m', on_chain m' ∧ lockstep config m' w.1 w.2)
  ∧ ((length c < length m)%nat → w = (d, st))
  ∧ ((length m ≤ length c)%nat → reliable db → is_ok (index_blocks config start_state c) = true → lockstep config c w.1 w.2).
Proof.
  intros Hm Hl Hc Hs. destruct (common_prefix m c) as (p & stale & new & -> & -> & Hd).
  pose proof (ch_future _ Hch _ Hc) as Hf. unfold index_tick. cbn [snd]. rewrite (reorg_detected_run _ p stale new d st) by done.
  assert (∀ d' st' (mx0 : Metrics) w0 mx1 (r0 : result unit), lockstep config (p ++ new) d' st' →
    match persistentWorker config db provider false (d', st') with
    | (w, Throw e) => (w, mx0, Throw e) | (w, Ok _) => (w, mx0, Ok tt) end = (w0, mx1, r0) →
    lockstep config (p ++ new) w0.1 w0.2) as Hidle.
  { intros d' st' mx0 w0 mx1 r0 Hl' Hw. destruct (persistentWorker _ _ _ _ _) as [w1 r1] eqn:Ew.
    rewrite <- (app_nil_r (p ++ new)) in Hf, Hs. destruct (catches_up _ _ _ _ _ _ _ _ Hl' Hf Hs Ew) as (pre & post & E & Hlw & _).
    symmetry in E. apply app_nil in E as [-> _]. rewrite app_nil_r in Hlw. by destruct r1; injection Hw as <- _ _. }
  destruct (decide (stale = [])) as [->|Hne].
  - rewrite bool_decide_eq_false_2 by tauto. cbn [andb]. rewrite app_nil_r in *. rewrite length_app.
    destruct (persistentWorker _ _ _ _ _) as [w1 r1] eqn:Ew. destruct (catches_up _ _ _ _ _ _ _ _ Hl Hf Hs Ew) as (pre & post & -> & Hlw & Hd').
    intros Hw. assert (w1 = w) as -> by (by destruct r1; injection Hw). split_and!; [|lia|].
    + exists (p ++ pre). split; [|done]. exists (p ++ pre ++ post). split; [done|]. exists post. by rewrite <- app_assoc.
    + intros _ Hrel Hok. rewrite (Hd' Hrel Hok), app_nil_r. done.
  - rewrite bool_decide_eq_true_2 by done. cbn [andb]. rewrite !length_app.
    destruct (decide (length stale ≤ length new)%nat) as [Hle|Hgt].
    + rewrite bool_decide_eq_true_2 by done. destruct (reorgPersistentToTip _ _ _ _) as [[d1 st1] r1] eqn:Er.
      destruct (reorg_runs _ _ _ _ _ _ _ _ _ Hm Hl Hc Hs Hd Hne Er) as (Hp & Hok & Hlive). cbn [fst snd] in *.
      destruct r1 as [report|e].
      * intros Hw. pose proof (Hidle _ _ _ _ _ _ (Hok report eq_refl) Hw) as Hlw. split_and!; [|lia|done].
        exists (p ++ new). split; [by exists (p ++ new)|done].
      * intros [= <- <- <-]. split_and!; [exact Hp|lia|]. intros _ Hrel Hix. by specialize (Hlive Hrel Hix).
    + rewrite bool_decide_eq_false_2 by done. unfold persistentWorker. rewrite (proj1 Hs). cbn [snd].
      rewrite (remembers_start _ _ (lockstep_remembers _ _ _ Hm Hl)), !length_app.
      replace (rounds _ _) with 0%nat by (unfold rounds; lia). cbn [worker_loop].
      intros [= <- <- <-]. split_and!; [by exists (p ++ stale)|done|lia].
Qed.

Lemma tick_world t s : ∃ mx r, index_tick config (tk_db t) (tk_provider t) (ws_world s) (ws_metrics s) = (ws_world (tick config t s), mx, r).
Proof.
  unfold tick. destruct (index_tick _ _ _ _ _) as [[w mx] r] eqn:E. exists mx, r. f_equal. f_equal.
  destruct r; [|done]. destruct (reconcileMarket _ _ _ _) as [market [report|]]; [|done].
  by destruct (reconcileAppSessions _ _ _) as [app [confirmed|]].
Qed.

(** C3: the worker follows Core's chain.  From tables in lockstep with memory at
    some point of a chain Core shows, and over any ticks, each against a chain
    of its own, whichever commits fail and whatever becomes of the market and
    the sessions: memory and tables stay in lockstep at some point of a chain
    that was shown; a further tick in which no commit fails ends at the tip of
    Core's chain, through a reorganisation of any depth if need be, where no
    block of that chain makes the indexer throw; and while
    Core's chain is shorter than what is indexed a tick leaves the index as it
    is. *)
Theorem worker_follows_chain ts s m :
  Forall (λ t, ∃ c, Chain c ∧ shows (tk_provider t) c) ts →
  on_chain m → lockstep config m (ws_world s).1 (ws_world s).2 →
  ∃ m', on_chain m' ∧ (let s' := worker_run config ts s in
    lockstep config m' (ws_world s').1 (ws_world s').2
    ∧ ∀ t c, Chain c → shows (tk_provider t) c →
        let w := ws_world (tick config t s') in
        if decide (length c < length m')%nat then w = ws_world s'
        else reliable (tk_db t) → is_ok (index_blocks config start_state c) = true → lockstep config c w.1 w.2).
Proof.
  intros Hts. revert s m. induction Hts as [|t ts (c & Hc & Hs) _ IH]; intros s m Hm Hl.
  - exists m. split; [done|]. cbn [worker_run foldl]. split; [done|]. intros t c Hc Hs. cbv zeta.
    destruct (tick_world t s) as (mx & r & E). destruct (ws_world s) as [d st] eqn:Ew.
    destruct (index_tick_follows _ _ _ _ _ _ _ _ _ _ Hm Hl Hc Hs E) as (_ & H1 & H2). case_decide; [by apply H1|apply H2; lia].
  - destruct (tick_world t s) as (mx & r & E). destruct (ws_world s) as [d st] eqn:Ew.
    destruct (index_tick_follows _ _ _ _ _ _ _ _ _ _ Hm Hl Hc Hs E) as ((m' & Hm' & Hl') & _).
    exact (IH (tick config t s) m' Hm' Hl').
Qed.
End Chains.
End Follow.
