(* ===== verification/WorkerExamples.v ===== *)
(** * A worker on the example chain

    The block at the tip is replaced; witnesses of the worker's theorem. *)
From S2P Require Import Prelude Bytes Covenant Vault Indexer IndexerInv IndexerExamples Store StoreInv Hydrate Persistent Lockstep PersistentInv PersistentExamples.
From S2P Require Import Spend Guardian Number Readiness Market MarketService MarketExamples TxSession AppService AppSessions AppExamples Worker WorkerInv.

#[local] Existing Instance toy_crypto.
#[local] Existing Instance toy_bitcoin.
#[local] Existing Instance toy_locale.
#[local] Existing Instance toy_postgres.

Definition toy_tick (bs : list V3BlockInput) : TickWorld := {|
  tk_db := reliable_db; tk_provider := node_of bs; tk_node := toy_market_node bs;
  tk_env := app_env bs "session"; tk_now := 0 |}.

(** A worker that has indexed three blocks. *)
Definition toy_worker : WorkerState := {|
  ws_world := toy_world3; ws_market := empty_market; ws_app := app_start; ws_metrics := no_metrics |}.

Definition toy_chain (c : list V3BlockInput) : Prop := c = [pb1; pb2; pb3] ∨ c = [pb1; pb2; pc3].

Lemma toy_chains : chains toy_config toy_chain.
Proof.
  split.
  - intros c [-> | ->]; apply futureb_ok; vm_compute; reflexivity.
  - intros c c' i b b' Hc Hc' Hb Hb' E.
    destruct Hc as [-> | ->], Hc' as [-> | ->], i as [|[|[|i]]]; try reflexivity; try discriminate Hb;
      injection Hb as <-; injection Hb' as <-; discriminate E.
Qed.

Lemma toy_shows c : toy_chain c → shows toy_config (node_of c) c.
Proof.
  intros [-> | ->]; (split; [vm_compute; reflexivity|]);
    (intros [|[|[|i]]] b Hb; [..|discriminate Hb]); injection Hb as <-; split; vm_compute; reflexivity.
Qed.

Lemma worker_follows_chain_witness :
  let s := worker_run toy_config [toy_tick [pb1; pb2; pb3]] toy_worker in
  let w := ws_world (tick toy_config (toy_tick [pb1; pb2; pc3]) s) in
  cur_blockHash (cursor w.2) = toy_hash_at 4
  ∧ ∃ m, on_chain toy_chain m
    ∧ if decide (3 < length m)%nat then w = ws_world s else lockstep toy_config [pb1; pb2; pc3] w.1 w.2.
Proof.
  split; [vm_compute; reflexivity|].
  destruct (worker_follows_chain toy_config toy_chain toy_chains [toy_tick [pb1; pb2; pb3]] toy_worker [pb1; pb2; pb3])
    as (m & Hm & _ & H).
  - repeat constructor. exists [pb1; pb2; pb3]. split; [by left|apply toy_shows; by left].
  - exists [pb1; pb2; pb3]. split; [by left|done].
  - exact toy_lockstep3.
  - exists m. split; [exact Hm|].
    specialize (H (toy_tick [pb1; pb2; pc3]) [pb1; pb2; pc3] (or_intror eq_refl) (toy_shows _ (or_intror eq_refl))).
    cbv zeta in H. change (length [pb1; pb2; pc3]) with 3%nat in H.
    destruct (decide (3 < length m)%nat); [exact H|]. apply H; [done|vm_compute; reflexivity].
Defined.
